(* ===== verification/_CoqProject ===== *)
-Q . S2P
Prelude.v
Json.v
Protocol.v
JsMap.v
LeaseAccount.v
Retained.v
RuntimeOwnership.v
Composition.v
Frame.v
ReplayWindow.v
PtyInput.v
PtyInputProperties.v
DeliveryCredit.v
HealthMonitor.v
Errors.v
Terminal.v
Pipe.v
Operations.v
OperationBounds.v
TerminalJson.v
StoreTables.v
ReceiptStore.v
ReceiptSafety.v
ReceiptProperties.v
RunStore.v
ReceiptRetention.v
ReceiptBackend.v
OperationReceipts.v
ReceiptSystem.v
ReceiptContracts.v
ReceiptInvariant.v
ReceiptPasses.v
ReceiptRuns.v
ReceiptGuarantees.v
ReceiptRecovery.v
ConnectionDelivery.v
ConnectionInvariant.v
ConnectionProperties.v
ControlArbiter.v
ArbiterInvariant.v
ArbiterProperties.v
ClientControl.v
ClientLane.v
ClientLaneInvariant.v
ClientLaneLife.v
ClientLaneOrder.v
ClientLaneRoutes.v
ClientLaneProperties.v
RunRegistry.v
WorkerPool.v
InputNotices.v
Notifier.v
BusinessMirror.v
PreviewCache.v
PreviewTransfer.v
AuthStore.v
AuthProperties.v
AuthDevices.v
AuthInvariant.v
AuthBooks.v
AuthGuarantees.v
BusinessTables.v
BusinessJournal.v
BusinessStream.v
BusinessSnapshots.v
BusinessViews.v
BusinessFeed.v
