(* ===== verification/Prelude.v ===== *)
(** * Cove: verification of the terminal runtime of the relay

    Cove runs terminals on a relay server: worker processes own the PTYs, a
    server process routes their output to clients and orders the clients'
    commands, every command that changes something leaves a durable receipt, and
    a client library keeps a mirror of the server's records.  This library
    models the parts of that path that keep state and decide, and proves what
    each promises to the others.  The code is under src/, in packages/protocol
    (wire formats and validation), packages/terminal-worker (worker),
    apps/server/src/terminal (runtime), apps/server/src/operations and store
    (operations and their receipts) and packages/client (client).

    ** Files

    - Prelude.v: integers, byte arrays, lists, options, automation.
    - Json.v: JSON values and their printing; JsMap.v: JavaScript's [Map] as an
      association list in insertion order, with replacement in place.
    - Protocol.v: protocol/src/identity.ts, budgets.ts, profile.ts,
      terminal-recovery.ts, terminal-events.ts: references, limits, geometry,
      run events, baselines, run status, with the schemas as bool functions.
    - Errors.v: protocol/src/errors.ts.  Terminal.v: terminal-command.ts and
      terminal.ts, the client's lane, with the bound on untrusted values.
      Pipe.v: pipe-command.ts and pipe.ts, the worker's pipe, and the receipts
      of workspace.ts.  TerminalJson.v: the JSON of every message of the lane.
    - Operations.v, OperationBounds.v: operation records, results and keys of
      rpc-methods.ts and workspace.ts, [holdsSecret], and the record rules of
      operations/receipt-records.ts.
    - StoreTables.v: the tables of store/migrations a receipt or a run lives in,
      statements.ts and executor.ts.  ReceiptStore.v: store/sql/receipts.ts and
      tab-input.ts.  RunStore.v: store/sql/runs.ts, processes.ts, deletions.ts.
      ReceiptSafety.v, ReceiptProperties.v, ReceiptRetention.v: what they keep.
    - ReceiptBackend.v: the class [ReceiptBackend], what operation receipts rely
      on of the database (DurableReceiptBackend), and its instance
      store/operations.ts.
    - OperationReceipts.v: operations/operation-receipts.ts.  ReceiptSystem.v:
      its calls in flight, the database and everybody else.  ReceiptContracts.v,
      ReceiptInvariant.v, ReceiptPasses.v: contracts of suspended calls and the
      invariants.  ReceiptRuns.v: executions computed from a schedule.
      ReceiptGuarantees.v, ReceiptRecovery.v: the theorems.
    - AuthStore.v, AuthProperties.v: store/sql/auth.ts, the invitations and the
      devices.  AuthDevices.v: apps/server/src/auth/devices.ts, connections.ts
      and the answers of service.ts, as one server with its store and its
      restarts.  AuthInvariant.v, AuthBooks.v: its invariants.
      AuthGuarantees.v: the theorems.
    - Frame.v: provisional/frame.ts, the encoder and the incremental decoder.
    - LeaseAccount.v: the class [LeaseAccount], what a byte account promises to
      its users.  Retained.v: worker-retained-bytes.ts and
      runtime-retained-bytes.ts, its two instances.  RuntimeOwnership.v: what
      one owner holds in the runtime's account, used where several owners share
      it.
    - ReplayWindow.v: terminal-worker/src/replay-window.ts.  PtyInput.v and
      PtyInputProperties.v: terminal-worker/src/pty-input.ts.
    - Composition.v, RunRegistry.v, WorkerPool.v, HealthMonitor.v,
      DeliveryCredit.v, PreviewCache.v, PreviewTransfer.v: the files of
      apps/server/src/terminal with these names (runtime-composition.ts,
      run-registry.ts, worker-pool.ts, worker-health.ts,
      terminal-delivery-credit.ts, preview-cache.ts, preview-transfer.ts).
    - ConnectionDelivery.v, ConnectionInvariant.v, ConnectionProperties.v:
      apps/server/src/terminal/terminal-connection-delivery.ts.
    - ControlArbiter.v, ArbiterInvariant.v, ArbiterProperties.v:
      apps/server/src/terminal/control-arbiter.ts.
    - ClientLane.v, ClientLaneInvariant.v, ClientLaneLife.v, ClientLaneOrder.v,
      ClientLaneRoutes.v, ClientLaneProperties.v:
      client/src/terminal-delivery.ts, the client's only path into the socket.
    - ClientControl.v, InputNotices.v, Notifier.v, BusinessMirror.v:
      client/src/terminal-control.ts, input-notices.ts, notifier.ts and
      business-mirror.ts with business-events.ts.
    - BusinessTables.v: store/sql/business-events.ts with the readers of the
      records, and the snapshot.  BusinessJournal.v: store/business-journal.ts.
      BusinessStream.v, BusinessSnapshots.v: business/event-stream.ts and
      snapshot.ts, with the pages of transport/business-websocket.ts.
      BusinessViews.v: what a view of the records is.  BusinessFeed.v: the
      store, the stream, the snapshots and their readers as one system.

    ** How the model corresponds to the code

    A class is a record of its fields and a method is a function from the record
    to its results and the new record, with the source's names; [None], or the
    left of a sum, is a thrown or returned error.  A zod schema is a bool
    function on the typed value; where the code parses an untyped tree, the
    typed value it spells is an argument.  Integers are [Z], the bounds the code
    checks are checked, and the 32-bit views of the frame header are written
    out.  Times are integer milliseconds.  An object shared by reference is
    found by its key, its index in a store, or its identity in an account.  A
    callback is what it returns when it is called, or, where it may call back,
    a list of calls.  An asynchronous method is cut at its awaits: the record
    keeps the point of suspension and one function runs to the next await;
    every other operation may come in between.  The connection delivery, the
    PTY input and the client's terminal lane may be called again by the
    callbacks they call: there the suspended calls are an explicit stack, any
    method may run on top of it, and [resume] continues the callback on top.  In
    ClientLane.v the stack also holds the lane's own code, one task at a time.  The calls of OperationReceipts wait
    for one another: a call is a stack of frames and the promise the innermost
    one awaits, and any number of calls, the database and its other users
    interleave; an answer of the database may be lost, or its request never run.

    A table is the list of its rows and a statement a function on it, with the
    keys, triggers and foreign keys where the database checks them; an operation
    is one transaction, as the executor runs it.

    Executions are [rtc] of a step relation with one constructor per operation,
    and the invariants are proved for every reachable state.  Components that
    reserve bytes take a [LeaseAccount] instance; those that share the runtime's
    account (the preview cache, the arbiter, the connection delivery) are proved against the real one,
    with the leases of the other owners counted and free to change.

    ** Fuel

    Loops that are not structural have a counter, and the theorems that use it
    show that it never runs out: [boundedJsonStructure] gets enough for a step per
    counted token and one per value it leaves; the decoder's [read_loop] gets the
    length of its input and its budget; [make_room] one step per retained
    event; a notifier's round one step per queued entry it may take;
    [all_pages] one step per run of the registry; [holds_loop] one step per
    value of the tree.  The terminal lane's own code ends within [lane_weight]
    steps.

    ** What is proved

    - Wire: frames round-trip under any chunking, each answer of the decoder has
      its reason, and its storage is bounded (Frame.v); the bound on untrusted
      values, numbers that are not finite and values that contain themselves
      included, equals its declarative reading and always ends (Terminal.v); spawn payloads round-trip (Pipe.v);
      every error built is a valid one (Errors.v).
    - Operations: an operation is accepted at most once and a resend is answered
      from its receipt or tombstone, whatever is lost or retried; a receipt's
      life only moves forward and its end never changes; every positive answer
      was true; startup verification ends, and what it leaves unfinished is what a
      verifier answered as proven for that key; retention
      passes never overlap and never give a run number out again
      (ReceiptGuarantees.v, ReceiptRecovery.v, ReceiptProperties.v,
      ReceiptRetention.v).  Every record the code may build fits its receipt
      (OperationBounds.v).
    - Device authorization: an invitation admits one device at most; tokens are
      admitted in the order in which the store made them current and never
      return; a revocation is final; the credentials in memory are the store's
      when no answer is on its way; the first use of a rotated token completes
      the rotation; one promotion and one write of the last use per device
      (AuthProperties.v, AuthGuarantees.v).
    - Memory: both byte accounts are exact; the control reserve cannot be
      consumed by ordinary data (Retained.v); the replay window, the delivery
      credit, the preview cache, transfers and the arbiter hold exactly the
      leases of what they keep.
    - Input: whatever the native writer does, each input is settled at most once
      with a result that accounts for all its bytes, keeps its reservations
      until its observer has returned, and nothing is written after anything uncertain
      (PtyInputProperties.v).
    - Ordering and authority: the arbiter settles each run's jobs in admission
      order, dispatches each at most once, behind a fence that is current at
      that moment, never goes back behind a newer boundary, never sleeps on a
      ready job and answers a started one; the client knows the latest fact that
      reached it, drops a grant when the server had ended it, applies facts in
      order and is ready exactly when they find the epoch its own, against any log
      of the server (ClientControl.v).
    - The client's terminal lane: a command enters the socket at most once and is
      settled once, with an outcome that never denies what was sent; routes keep
      their order; the accounts are exact; nothing is left when the lane is back
      in the event loop; no request ID or sequence number repeats
      (ClientLaneProperties.v).
    - Delivery: a connection's queue keeps the order of each route, writes only
      behind a current fence, and leaves nothing once closed, unless [close]
      throws, which it can (ConnectionProperties.v); the credit's stream is a valid one, acknowledgements release
      exactly what they prove (DeliveryCredit.v); previews are sealed only for
      what the worker sent (PreviewTransfer.v); the notifier loses and reorders
      nothing (Notifier.v).
    - Bookkeeping: registry, pool and health monitor against their
      specifications; the business mirror holds exactly a snapshot followed by
      consecutive changes, whatever is lost or repeated (BusinessMirror.v).
    - Business records: a publication is complete and true when the journal was
      not cut off (BusinessJournal.v); subscribers receive consecutive changes or
      a reset (BusinessStream.v); from the tables to the mirror of a client, a
      mirror with a cursor holds a faithful view (BusinessFeed.v).

    ** Parameters

    UTF-8 encoding (Pipe.v, BusinessMirror.v, Operations.v,
    ConnectionDelivery.v), the sizes of records and changes as text and the
    [emit] of a subscriber (BusinessStream.v, BusinessFeed.v), the revisions the
    statements of the store keep (BusinessFeed.v), the codec of the
    client (ClientLane.v), the digest of an
    intent and the named writes that are not modelled (ReceiptStore.v), what a
    verifier proves (ReceiptSystem.v), [localeCompare] (PreviewCache.v),
    what the runtime, the registry and the routes answer ([World] in
    ControlArbiter.v, [Lookup] in PreviewCache.v), the delivery a preview is
    published to (a class in PreviewTransfer.v), SHA-256 of a secret
    (AuthDevices.v, where a new secret's hash and a new device ID are guarded to
    be ones that were never issued).

    ** Not modelled

    Native PTYs, git, sockets, HTTP, processes, the xterm emulator, the DOM and
    the user interfaces are effects outside the language.  Of the store, the
    operations of tasks, workspaces, worktrees and tabs, the
    worker thread are left out; of authentication, the
    pairing listener, the entry settings and the WebSockets, which verify a
    token again after any answer but UNAVAILABLE where HTTP refuses at once.  The
    [freeze] of an aggregate, which notifier.ts calls outside any try, is taken
    not to throw.  Planned next,
    in this order: the server's subscriptions and pipe session, the worker's run session, and the client's terminal
    controller, each on top of the parts modelled here. *)

From Stdlib Require Export ZArith Lia Sorting.Sorted.
From stdpp Require Export base strings pretty option gmap list.

#[global] Open Scope Z_scope.

(** ** JavaScript numbers used as integers

    Every counter, length and sequence of the modelled code is an integer
    number, kept as [Z]; [Number.isSafeInteger] is the bound the code checks. *)

Definition MAX_SAFE_INTEGER : Z := 2 ^ 53 - 1.

Definition isSafeInteger (n : Z) : bool :=
  (- MAX_SAFE_INTEGER <=? n) && (n <=? MAX_SAFE_INTEGER).

(** 32-bit views taken by JavaScript's bitwise operators. *)

Definition toUint32 (z : Z) : Z := z mod 2 ^ 32.

Definition toInt32 (z : Z) : Z :=
  let u := toUint32 z in if u <? 2 ^ 31 then u else u - 2 ^ 32.

Definition js_shl (x n : Z) : Z := toInt32 (Z.shiftl (toInt32 x) (n mod 32)).

Definition js_ushr (x n : Z) : Z := Z.shiftr (toUint32 x) (n mod 32).

Definition js_and (x y : Z) : Z := toInt32 (Z.land (toInt32 x) (toInt32 y)).

(** Storing a number in a [Uint8Array] cell. *)

Definition toUint8 (z : Z) : Z := z mod 256.

(** ** Lengths and slices of byte arrays *)

Definition zlen {A} (l : list A) : Z := Z.of_nat (length l).

Definition ztake {A} (n : Z) (l : list A) : list A := take (Z.to_nat n) l.

Definition zdrop {A} (n : Z) (l : list A) : list A := drop (Z.to_nat n) l.

Definition subarray {A} (l : list A) (from to : Z) : list A := ztake (to - from) (zdrop from l).

(** [target.set(source, offset)] on a typed array of fixed length. *)

Definition array_set {A} (target source : list A) (offset : Z) : list A :=
  ztake offset target ++ source ++ zdrop (offset + zlen source) target.

(** ** Automation *)

Create HintDb cove discriminated.
Create Rewrite HintDb covelen.
Create Rewrite HintDb coveref.

Lemma zlen_nil {A} : zlen (@nil A) = 0.
Proof. reflexivity. Qed.

Lemma zlen_cons {A} (x : A) l : zlen (x :: l) = 1 + zlen l.
Proof. unfold zlen; cbn [length]; lia. Qed.

Lemma zlen_app {A} (l k : list A) : zlen (l ++ k) = zlen l + zlen k.
Proof. unfold zlen; rewrite length_app; lia. Qed.

Lemma zlen_nonneg {A} (l : list A) : 0 <= zlen l.
Proof. unfold zlen; lia. Qed.

Lemma zlen_ztake {A} n (l : list A) : 0 <= n <= zlen l -> zlen (ztake n l) = n.
Proof. unfold zlen, ztake; rewrite length_take; lia. Qed.

Lemma zlen_zdrop {A} n (l : list A) : 0 <= n <= zlen l -> zlen (zdrop n l) = zlen l - n.
Proof. unfold zlen, zdrop; rewrite length_drop; lia. Qed.

Lemma zlen_map {A B} (f : A -> B) (l : list A) : zlen (map f l) = zlen l.
Proof. unfold zlen; rewrite length_map; lia. Qed.

Lemma zlen_eq {A} (l k : list A) : zlen k = zlen l -> length l = length k.
Proof. unfold zlen; lia. Qed.

Lemma zlen_zero {A} (l : list A) : zlen l = 0 -> l = [].
Proof. destruct l; [done |]. rewrite zlen_cons; pose proof (zlen_nonneg l); lia. Qed.

Lemma ztake_zdrop {A} n (l : list A) : ztake n l ++ zdrop n l = l.
Proof. apply take_drop. Qed.

Lemma ztake_all {A} n (l : list A) : zlen l <= n -> ztake n l = l.
Proof. unfold zlen, ztake; intros; apply take_ge; lia. Qed.

Lemma zdrop_all {A} n (l : list A) : zlen l <= n -> zdrop n l = [].
Proof. unfold zlen, zdrop; intros; apply drop_ge; lia. Qed.

Lemma zdrop_zdrop {A} n m (l : list A) :
  0 <= n -> 0 <= m -> zdrop n (zdrop m l) = zdrop (m + n) l.
Proof. unfold zdrop; intros; rewrite drop_drop; f_equal; lia. Qed.

Lemma ztake_app_le {A} n (l k : list A) : n <= zlen l -> ztake n (l ++ k) = ztake n l.
Proof. unfold zlen, ztake; intros; apply take_app_le; lia. Qed.

Lemma ztake_app_ge {A} n (l k : list A) :
  zlen l <= n -> ztake n (l ++ k) = l ++ ztake (n - zlen l) k.
Proof.
  unfold zlen, ztake; intros; rewrite take_app_ge by lia.
  do 2 f_equal; lia.
Qed.

Lemma zdrop_app_le {A} n (l k : list A) : n <= zlen l -> zdrop n (l ++ k) = zdrop n l ++ k.
Proof. unfold zlen, zdrop; intros; apply drop_app_le; lia. Qed.

Lemma zdrop_app_ge {A} n (l k : list A) :
  zlen l <= n -> zdrop n (l ++ k) = zdrop (n - zlen l) k.
Proof.
  unfold zlen, zdrop; intros; rewrite drop_app_ge by lia; f_equal; lia.
Qed.

Lemma ztake_split {A} n m (l : list A) :
  0 <= n -> 0 <= m -> ztake (n + m) l = ztake n l ++ ztake m (zdrop n l).
Proof.
  intros; unfold ztake, zdrop.
  replace (Z.to_nat (n + m)) with (Z.to_nat n + Z.to_nat m)%nat by lia.
  symmetry; apply take_take_drop.
Qed.

Lemma zlen_subarray {A} from to (l : list A) :
  0 <= from <= to -> to <= zlen l -> zlen (subarray l from to) = to - from.
Proof. intros. unfold subarray. rewrite zlen_ztake; [lia |]. rewrite zlen_zdrop; lia. Qed.

Lemma zlen_array_set {A} (t s : list A) off :
  0 <= off -> off + zlen s <= zlen t -> zlen (array_set t s off) = zlen t.
Proof.
  intros. pose proof (zlen_nonneg s). unfold array_set.
  rewrite !zlen_app, zlen_ztake, zlen_zdrop by lia. lia.
Qed.

Lemma subarray_nil {A} from to : subarray (@nil A) from to = [].
Proof. unfold subarray, ztake, zdrop. by rewrite drop_nil, take_nil. Qed.

Lemma subarray_0 {A} to (l : list A) : subarray l 0 to = ztake to l.
Proof. unfold subarray. rewrite Z.sub_0_r. done. Qed.

Lemma subarray_empty {A} from to (l : list A) : to <= from -> subarray l from to = [].
Proof. intros. unfold subarray, ztake. by replace (Z.to_nat (to - from)) with O by lia. Qed.

Lemma subarray_to_end {A} from (l : list A) : 0 <= from -> subarray l from (zlen l) = zdrop from l.
Proof.
  intros. unfold subarray. destruct (decide (from <= zlen l)).
  - rewrite ztake_all; [done |]. rewrite zlen_zdrop; lia.
  - rewrite zdrop_all by lia. unfold ztake. by rewrite take_nil.
Qed.

Lemma subarray_app_l {A} from to (l k : list A) :
  0 <= from <= zlen l -> to <= zlen l -> subarray (l ++ k) from to = subarray l from to.
Proof.
  intros. unfold subarray. rewrite zdrop_app_le by lia.
  rewrite ztake_app_le; [done |]. rewrite zlen_zdrop; lia.
Qed.

Lemma subarray_app_r {A} from to (l k : list A) :
  zlen l <= from -> subarray (l ++ k) from to = subarray k (from - zlen l) (to - zlen l).
Proof. intros. unfold subarray. rewrite zdrop_app_ge by lia. f_equal. lia. Qed.

Lemma subarray_app_mid {A} from to (l k : list A) : 0 <= from <= zlen l -> zlen l <= to ->
  subarray (l ++ k) from to = zdrop from l ++ ztake (to - zlen l) k.
Proof.
  intros. unfold subarray. rewrite zdrop_app_le by lia.
  rewrite ztake_app_ge by (rewrite zlen_zdrop; lia). rewrite zlen_zdrop by lia.
  do 2 f_equal. lia.
Qed.

#[export] Hint Rewrite @zlen_nil @zlen_cons @zlen_app @zlen_map : covelen.

(** Case analysis on the conditions of the code: every [if] and [match] of the
    goal or of a hypothesis, with the equation kept. *)

Ltac case_if :=
  match goal with
  | |- context [if ?b then _ else _] => destruct b eqn:?
  | H : context [if ?b then _ else _] |- _ => destruct b eqn:?
  end.

Ltac invert H := inversion H; subst; clear H.

Ltac split_ands := repeat match goal with |- _ /\ _ => split end.

(** Turns a conjunction or a negated disjunction of boolean tests into separate
    hypotheses. *)

Ltac bool_hyps :=
  repeat match goal with
  | H : (_ && _)%bool = true |- _ => apply andb_true_iff in H; destruct H
  | H : (_ || _)%bool = false |- _ => apply orb_false_iff in H; destruct H
  | H : negb _ = true |- _ => apply negb_true_iff in H
  | H : negb _ = false |- _ => apply negb_false_iff in H
  | H : bool_decide _ = true |- _ => apply bool_decide_eq_true in H
  | H : bool_decide _ = false |- _ => apply bool_decide_eq_false in H
  end.

(** Discharges the equations of a [match] that returns a value: rewrites with
    [Some]/pair equalities and closes contradictory branches. *)

Ltac simplify_result :=
  repeat match goal with
  | H : Some _ = Some _ |- _ => injection H as H; subst
  | H : (_, _) = (_, _) |- _ => injection H as H; subst
  | H : inl _ = inl _ |- _ => injection H as H; subst
  | H : inr _ = inr _ |- _ => injection H as H; subst
  | H : Some _ = None |- _ => discriminate H
  | H : None = Some _ |- _ => discriminate H
  | H : true = false |- _ => discriminate H
  | H : false = true |- _ => discriminate H
  end.

(** ** Sums over lists and finite maps *)

Definition lsum {A} (f : A -> Z) (l : list A) : Z := foldr (fun x acc => f x + acc) 0 l.

Arguments lsum : simpl never.

Section lsum.
Context {A : Type} (f : A -> Z).

Lemma lsum_nil : lsum f [] = 0.
Proof. reflexivity. Qed.

Lemma lsum_cons x l : lsum f (x :: l) = f x + lsum f l.
Proof. reflexivity. Qed.

Lemma lsum_app l k : lsum f (l ++ k) = lsum f l + lsum f k.
Proof. induction l as [|x l IH]; [done |]. cbn [app]. rewrite !lsum_cons, IH. lia. Qed.

Lemma lsum_nonneg l : (forall x, x ∈ l -> 0 <= f x) -> 0 <= lsum f l.
Proof.
  induction l as [|x l IH]; intros Hf; [done |]. rewrite lsum_cons.
  pose proof (Hf x ltac:(left)). pose proof (IH ltac:(intros; apply Hf; by right)). lia.
Qed.

Lemma lsum_ext g l : (forall x, x ∈ l -> f x = g x) -> lsum f l = lsum g l.
Proof.
  induction l as [|x l IH]; intros Hf; [done |].
  rewrite lsum_cons, (Hf x) by left. rewrite IH; [done | intros; apply Hf; by right].
Qed.

Lemma lsum_perm l k : l ≡ₚ k -> lsum f l = lsum f k.
Proof. induction 1; rewrite ?lsum_cons; lia. Qed.

End lsum.

Lemma lsum_alter {A} (f : A -> Z) (l : list A) i x y :
  l !! i = Some x -> lsum f (<[i:=y]> l) = lsum f l - f x + f y.
Proof.
  revert i. induction l as [|z l IH]; intros [|i] Hi; try done.
  - injection Hi as ->. change (<[0%nat:=y]> (x :: l)) with (y :: l). rewrite !lsum_cons. lia.
  - change (<[S i:=y]> (z :: l)) with (z :: <[i:=y]> l). rewrite !lsum_cons, IH by done. lia.
Qed.

Definition map_sum {K V} `{Countable K} (f : V -> Z) (m : gmap K V) : Z :=
  lsum (fun kv => f kv.2) (map_to_list m).

Arguments map_sum : simpl never.

Section map_sum.
Context {K V : Type} `{Countable K} (f : V -> Z).
Implicit Types (m : gmap K V) (k : K) (v w : V).

Lemma map_sum_empty : map_sum f (∅ : gmap K V) = 0.
Proof. unfold map_sum. by rewrite map_to_list_empty. Qed.

Lemma map_sum_insert m k v : m !! k = None -> map_sum f (<[k:=v]> m) = f v + map_sum f m.
Proof.
  intros Hk. unfold map_sum.
  by rewrite (lsum_perm _ _ _ (map_to_list_insert m k v Hk)), lsum_cons.
Qed.

Lemma map_sum_delete m k v : m !! k = Some v -> map_sum f (delete k m) = map_sum f m - f v.
Proof.
  intros Hk. rewrite <- (insert_delete_id m k v Hk) at 2.
  rewrite map_sum_insert by apply lookup_delete_eq. lia.
Qed.

Lemma map_sum_update m k v w :
  m !! k = Some v -> map_sum f (<[k:=w]> m) = map_sum f m - f v + f w.
Proof.
  intros Hk. rewrite <- insert_delete_eq, map_sum_insert by apply lookup_delete_eq.
  rewrite (map_sum_delete _ _ _ Hk). lia.
Qed.

Lemma map_sum_nonneg m : (forall k v, m !! k = Some v -> 0 <= f v) -> 0 <= map_sum f m.
Proof.
  intros Hf. apply lsum_nonneg. intros [k v] Hkv. apply (Hf k). by apply elem_of_map_to_list.
Qed.

Lemma map_sum_lookup_le m k v :
  (forall k v, m !! k = Some v -> 0 <= f v) -> m !! k = Some v -> f v <= map_sum f m.
Proof.
  intros Hf Hk. pose proof (map_sum_delete m k v Hk).
  assert (0 <= map_sum f (delete k m)); [| lia].
  apply map_sum_nonneg. intros k' v' Hk'. apply (Hf k').
  destruct (decide (k' = k)) as [-> |]; simplify_map_eq; done.
Qed.

Lemma map_sum_ext g m : (forall k v, m !! k = Some v -> f v = g v) -> map_sum f m = map_sum g m.
Proof.
  intros Hf. apply lsum_ext. intros [k v] Hkv. apply (Hf k). by apply elem_of_map_to_list.
Qed.

End map_sum.

Lemma map_sum_const_zero {K V} `{Countable K} (m : gmap K V) : map_sum (fun _ => 0) m = 0.
Proof. unfold map_sum. induction (map_to_list m) as [|x l IH]; [done |]. by rewrite lsum_cons, IH. Qed.

#[export] Hint Rewrite @lsum_nil @lsum_cons @lsum_app : covelen.

(** ** Invariants of step relations *)

Lemma rtc_invariant {A} (R : A -> A -> Prop) (P : A -> Prop) x y :
  P x -> (forall a b, P a -> R a b -> P b) -> rtc R x y -> P y.
Proof. intros Hx Hstep. induction 1; eauto. Qed.

(** ** Sublists, optional maps, filters and ranges *)

Lemma lsum_zero {A} (f : A -> Z) l : Forall (fun x => f x = 0) l -> lsum f l = 0.
Proof. induction 1 as [|x l E _ IH]; [done |]. rewrite lsum_cons. lia. Qed.

Lemma lsum_insert {A} (f : A -> Z) l i x y : l !! i = Some x -> lsum f (<[i:=y]> l) = lsum f l - f x + f y.
Proof.
  intros Hi. rewrite <- (take_drop_middle l i x Hi) at 2.
  rewrite (insert_take_drop l i y) by (by apply lookup_lt_Some in Hi).
  rewrite !lsum_app, !lsum_cons. lia.
Qed.

Lemma lsum_omap {A} (f : A -> option (nat * Z)) l :
  lsum snd (omap f l) = lsum (fun x => match f x with Some p => p.2 | None => 0 end) l.
Proof. induction l as [|x l IH]; [done |]. rewrite lsum_cons. cbn. destruct (f x); rewrite ?lsum_cons; lia. Qed.

Lemma sublist_Forall {A} (P : A -> Prop) l' l : sublist l' l -> Forall P l -> Forall P l'.
Proof. induction 1; inversion 1; subst; auto. Qed.

Lemma sublist_sorted {A} (R : A -> A -> Prop) l' l : sublist l' l -> StronglySorted R l -> StronglySorted R l'.
Proof.
  induction 1 as [|x l' l Hs IH|x l' l Hs IH]; [done | |]; inversion 1; subst; auto.
  constructor; eauto using sublist_Forall.
Qed.

Lemma sublist_fmap {A B} (f : A -> B) l' l : sublist l' l -> sublist (map f l') (map f l).
Proof. induction 1; cbn; constructor; done. Qed.

Lemma zlen_sublist {A} (l' l : list A) : sublist l' l -> zlen l' <= zlen l.
Proof. intros Hs%sublist_length. unfold zlen. lia. Qed.

Lemma lsum_sublist {A} (f : A -> Z) l' l : sublist l' l -> Forall (fun x => 0 <= f x) l -> lsum f l' <= lsum f l.
Proof. induction 1; inversion 1; subst; rewrite ?lsum_cons; [done | | ]; specialize (IHsublist ltac:(done)); lia. Qed.

Lemma omap_insert_same {A B} (f : A -> option B) (l : list A) i x y :
  l !! i = Some x -> f x = f y -> omap f (<[i:=y]> l) = omap f l.
Proof.
  intros Hi Hf. rewrite <- (take_drop_middle l i x Hi) at 2.
  rewrite (insert_take_drop l i y) by (by apply lookup_lt_Some in Hi).
  rewrite !omap_app. cbn. by rewrite Hf.
Qed.

Lemma omap_insert_none {A B} (f : A -> option B) (l : list A) i x y a :
  l !! i = Some x -> f x = Some a -> f y = None -> omap f l ≡ₚ a :: omap f (<[i:=y]> l).
Proof.
  intros Hi Hx Hy. rewrite <- (take_drop_middle l i x Hi) at 1.
  rewrite (insert_take_drop l i y) by (by apply lookup_lt_Some in Hi).
  rewrite !omap_app. cbn. rewrite Hx, Hy. by rewrite Permutation_middle.
Qed.

Lemma omap_snoc {A B} (f : A -> option B) (l : list A) x :
  omap f (l ++ [x]) = omap f l ++ match f x with Some y => [y] | None => [] end.
Proof. rewrite omap_app. done. Qed.

Lemma zlen_seqZ x n : 0 <= n -> zlen (seqZ x n) = n.
Proof. intros. unfold zlen. rewrite length_seqZ. lia. Qed.

Lemma StronglySorted_snoc l x : StronglySorted Z.lt l -> Forall (fun y => y < x) l -> StronglySorted Z.lt (l ++ [x]).
Proof.
  induction 1 as [|y l Hs IH Hy]; intros Hf; cbn; [by repeat constructor |].
  apply Forall_cons in Hf as [Hyx Hf]. constructor; [by apply IH |]. apply Forall_app; auto.
Qed.

Lemma filter_all {A} (f : A -> bool) l : (forall x, x ∈ l -> f x = true) -> List.filter f l = l.
Proof.
  induction l as [|x l IH]; [done |]. intros Hf. cbn. rewrite (Hf x) by left.
  rewrite IH; [done |]. intros y Hy. apply Hf. by right.
Qed.

Lemma filter_none {A} (f : A -> bool) l : Forall (fun x => f x = false) l -> List.filter f l = [].
Proof. induction 1 as [|x l Hx _ IH]; [done |]. cbn. by rewrite Hx. Qed.

Lemma filter_absent (id : nat) l : id ∉ l -> List.filter (fun k => negb (Nat.eqb k id)) l = l.
Proof.
  intros Hid. apply filter_all. intros k Hk. destruct (Nat.eqb_spec k id) as [->|_]; [by destruct (Hid Hk) | done].
Qed.

Lemma filter_other l1 id l2 : NoDup (l1 ++ id :: l2) ->
  List.filter (fun k => negb (Nat.eqb k id)) (l1 ++ id :: l2) = l1 ++ l2.
Proof.
  intros Hnd. rewrite List.filter_app. cbn. rewrite Nat.eqb_refl. cbn.
  apply NoDup_app in Hnd as (H1 & H2 & H3). apply NoDup_cons in H3 as [H3 H4].
  rewrite !filter_absent; [done | done |]. intros Hin. apply (H2 id Hin). left.
Qed.

Lemma filter_filter_b {A} (f g : A -> bool) l :
  List.filter f (List.filter g l) = List.filter (fun x => g x && f x) l.
Proof. induction l as [|x l IH]; [done |]. cbn. destruct (g x); cbn; [destruct (f x) |]; by rewrite IH. Qed.

Lemma lsum_remove {A} (f : A -> Z) l1 x l2 : lsum f (l1 ++ x :: l2) = f x + lsum f (l1 ++ l2).
Proof. rewrite !lsum_app, lsum_cons. lia. Qed.

Lemma lsum_filter_split {A} (f : A -> Z) p l :
  lsum f l = lsum f (List.filter p l) + lsum f (List.filter (fun x => negb (p x)) l).
Proof.
  induction l as [|x l IH]; [done |]. rewrite lsum_cons. cbn. destruct (p x); cbn; rewrite lsum_cons; lia.
Qed.

Lemma seqZ_one m : seqZ m 1 = [m].
Proof. unfold seqZ. cbn. f_equal. Qed.

#[export] Instance zlen_perm {A} : Proper ((≡ₚ) ==> eq) (@zlen A).
Proof. intros l k E. unfold zlen. by rewrite E. Qed.

Lemma zlen_insert {A} (l : list A) i x : zlen (<[i := x]> l) = zlen l.
Proof. unfold zlen. by rewrite length_insert. Qed.

(** ** Histories: every event agrees with the history before it *)

Definition all_ok {E} (P : list E -> E -> Prop) (tr : list E) : Prop :=
  forall tr1 e tr2, tr = tr1 ++ e :: tr2 -> P tr1 e.

Lemma all_ok_nil {E} (P : list E -> E -> Prop) : all_ok P [].
Proof. by intros [|? ?] ? ?. Qed.

Lemma all_ok_snoc {E} (P : list E -> E -> Prop) tr e : all_ok P tr -> P tr e -> all_ok P (tr ++ [e]).
Proof.
  intros Htr He tr1 e' tr2. destruct (decide (tr2 = [])) as [->|Hne].
  - intros [-> [= ->]]%app_inj_tail. done.
  - destruct (exists_last Hne) as (l & x & ->). change (e' :: l ++ [x]) with ((e' :: l) ++ [x]).
    rewrite app_assoc. intros [-> _]%app_inj_tail. by eapply Htr.
Qed.
