(* ===== verification/Json.v ===== *)
(** * JSON text, as [JSON.stringify] prints it

    The code measures records by the length of their JSON text, and keys maps
    by it.  Only plain data (objects, arrays, strings, integers, booleans,
    [null]) reaches [JSON.stringify] in the modelled code.  A string is a
    sequence of code units below 256, which covers every identifier, color and
    signal name of the protocol. *)

From S2P Require Import Prelude.

#[local] Set Warnings "-register-all".

Inductive json :=
  | JNull
  | JBool (b : bool)
  | JNum (n : Z)
  | JInf (negative : bool)
  | JStr (s : string)
  | JArr (items : list json)
  | JObj (members : list (string * json)).

(** Two trees are the same or not; the induction goes into the members. *)

Fixpoint json_eq (v w : json) {struct v} : {v = w} + {v <> w}.
Proof.
  refine (match v, w with
          | JNull, JNull => left eq_refl
          | JBool a, JBool b => cast_if (decide (a = b))
          | JNum a, JNum b => cast_if (decide (a = b))
          | JInf a, JInf b => cast_if (decide (a = b))
          | JStr a, JStr b => cast_if (decide (a = b))
          | JArr a, JArr b => cast_if (List.list_eq_dec json_eq a b)
          | JObj a, JObj b => cast_if (List.list_eq_dec
              (fun p q => match p, q with
                          | (k, x), (k', x') => cast_if_and (decide (k = k')) (json_eq x x')
                          end) a b)
          | _, _ => right _
          end); clear json_eq; congruence.
Defined.

#[export] Instance json_eq_decision : EqDecision json := json_eq.

Definition hex_digit (n : nat) : Ascii.ascii :=
  if (n <? 10)%nat then Ascii.ascii_of_nat (48 + n) else Ascii.ascii_of_nat (87 + n).

(** One code unit of a quoted JSON string (QuoteJSONString of ECMA-262). *)

Definition quote_unit (c : Ascii.ascii) : string :=
  let n := Ascii.nat_of_ascii c in
  let bs := Ascii.ascii_of_nat 92 in
  if (n =? 34)%nat then String bs (String (Ascii.ascii_of_nat 34) EmptyString)
  else if (n =? 92)%nat then String bs (String bs EmptyString)
  else if (n =? 8)%nat then String bs "b"
  else if (n =? 12)%nat then String bs "f"
  else if (n =? 10)%nat then String bs "n"
  else if (n =? 13)%nat then String bs "r"
  else if (n =? 9)%nat then String bs "t"
  else if (n <? 32)%nat
  then String bs ("u00" +:+ String (hex_digit (n / 16)) (String (hex_digit (n mod 16)) EmptyString))
  else String c EmptyString.

Fixpoint quote_units (s : string) : string :=
  match s with
  | EmptyString => EmptyString
  | String c rest => quote_unit c +:+ quote_units rest
  end.

Definition dquote : string := String (Ascii.ascii_of_nat 34) EmptyString.

Definition quote (s : string) : string := dquote +:+ quote_units s +:+ dquote.

Fixpoint comma_join (l : list string) : string :=
  match l with
  | [] => EmptyString
  | [x] => x
  | x :: rest => x +:+ "," +:+ comma_join rest
  end.

Fixpoint stringify (v : json) : string :=
  match v with
  | JNull => "null"
  | JBool true => "true"
  | JBool false => "false"
  | JNum n => pretty n
  | JInf _ => "null"
  | JStr s => quote s
  | JArr items => "[" +:+ comma_join (map stringify items) +:+ "]"
  | JObj members =>
     "{" +:+ comma_join (map (fun kv => quote kv.1 +:+ ":" +:+ stringify kv.2) members) +:+ "}"
  end.

Definition slen (s : string) : Z := Z.of_nat (String.length s).

Lemma slen_nonneg s : 0 <= slen s.
Proof. unfold slen; lia. Qed.

Lemma append_assoc (s t u : string) : (s +:+ t) +:+ u = s +:+ (t +:+ u).
Proof. induction s as [|c s IH]; [done |]. change (String c ((s +:+ t) +:+ u) = String c (s +:+ (t +:+ u))). by rewrite IH. Qed.

Lemma slen_app s t : slen (s +:+ t) = slen s + slen t.
Proof.
  unfold slen. induction s as [|c s IH]; [done |].
  change (String c s +:+ t) with (String c (s +:+ t)).
  cbn [String.length]. lia.
Qed.

(** A quoted identifier holds at least its two quotation marks. *)

Lemma slen_quote_ge s : 2 <= slen (quote s).
Proof.
  unfold quote. rewrite !slen_app. pose proof (slen_nonneg (quote_units s)).
  change (slen dquote) with 1. lia.
Qed.

Example stringify_sample :
  slen (stringify (JObj [("a", JNum 12); ("b", JArr [JNull; JBool true])])) = 24.
Proof. reflexivity. Qed.
