(* ===== verification/Protocol.v ===== *)
(** * The shared protocol package (packages/protocol/src)

    Identities, budgets, geometry and appearance, run events, baseline
    descriptors and external terminal events, with the validators that decide
    which of them a peer may send.  A zod schema is modelled as a boolean
    predicate on typed data: it states the ranges, patterns and lengths the
    schema adds to the static type. *)

From S2P Require Import Prelude Json.

(** ** Identities (provisional/identity.ts, identity.ts) *)

Record RunRef := mkRun { run_serverId : string; run_relayInstanceId : string; run_runId : string }.

Record WorkerRef := mkWorker {
  worker_serverId : string;
  worker_relayInstanceId : string;
  worker_workerId : string;
  worker_workerIncarnationId : string;
}.

Record ConnectionRef := mkConnection { conn_connectionId : string; conn_generation : Z }.

Record SubscriptionRef := mkSubscription {
  sub_run : RunRef;
  sub_connection : ConnectionRef;
  sub_subscriptionId : string;
  sub_viewId : string;
}.

#[global] Instance RunRef_eq_dec : EqDecision RunRef.
Proof. solve_decision. Defined.

#[global] Instance WorkerRef_eq_dec : EqDecision WorkerRef.
Proof. solve_decision. Defined.

#[global] Instance ConnectionRef_eq_dec : EqDecision ConnectionRef.
Proof. solve_decision. Defined.

#[global] Instance SubscriptionRef_eq_dec : EqDecision SubscriptionRef.
Proof. solve_decision. Defined.

Definition seqb (a b : string) : bool := String.eqb a b.

Definition is_alnum (c : Ascii.ascii) : bool :=
  let n := Ascii.nat_of_ascii c in
  ((48 <=? n) && (n <=? 57) || (65 <=? n) && (n <=? 90) || (97 <=? n) && (n <=? 122))%nat%bool.

Definition is_opaque_tail (c : Ascii.ascii) : bool :=
  let n := Ascii.nat_of_ascii c in
  is_alnum c || (n =? 46)%nat || (n =? 95)%nat || (n =? 45)%nat.

Fixpoint string_all (p : Ascii.ascii -> bool) (s : string) : bool :=
  match s with
  | EmptyString => true
  | String c rest => p c && string_all p rest
  end.

(** [/^[A-Za-z0-9][A-Za-z0-9._-]{0,127}$/] *)

Definition OpaqueIdSchema (s : string) : bool :=
  match s with
  | EmptyString => false
  | String c rest => is_alnum c && string_all is_opaque_tail rest && (slen rest <=? 127)
  end.

Definition SequenceSchema (n : Z) : bool := (0 <=? n) && (n <=? MAX_SAFE_INTEGER).

Definition RunRefSchema (r : RunRef) : bool :=
  OpaqueIdSchema (run_serverId r) && OpaqueIdSchema (run_relayInstanceId r)
  && OpaqueIdSchema (run_runId r).

Definition WorkerRefSchema (w : WorkerRef) : bool :=
  OpaqueIdSchema (worker_serverId w) && OpaqueIdSchema (worker_relayInstanceId w)
  && OpaqueIdSchema (worker_workerId w) && OpaqueIdSchema (worker_workerIncarnationId w).

Definition ConnectionRefSchema (c : ConnectionRef) : bool :=
  OpaqueIdSchema (conn_connectionId c) && SequenceSchema (conn_generation c).

Definition SubscriptionRefSchema (s : SubscriptionRef) : bool :=
  RunRefSchema (sub_run s) && ConnectionRefSchema (sub_connection s)
  && OpaqueIdSchema (sub_subscriptionId s) && OpaqueIdSchema (sub_viewId s).

Definition sameRunRef (left right : RunRef) : bool :=
  seqb (run_serverId left) (run_serverId right)
  && seqb (run_relayInstanceId left) (run_relayInstanceId right)
  && seqb (run_runId left) (run_runId right).

Definition sameWorkerRef (left right : WorkerRef) : bool :=
  seqb (worker_serverId left) (worker_serverId right)
  && seqb (worker_relayInstanceId left) (worker_relayInstanceId right)
  && seqb (worker_workerId left) (worker_workerId right)
  && seqb (worker_workerIncarnationId left) (worker_workerIncarnationId right).

Definition workerMatchesRun (worker : WorkerRef) (run : RunRef) : bool :=
  seqb (worker_serverId worker) (run_serverId run)
  && seqb (worker_relayInstanceId worker) (run_relayInstanceId run).

Definition sameConnectionRef (left right : ConnectionRef) : bool :=
  seqb (conn_connectionId left) (conn_connectionId right)
  && (conn_generation left =? conn_generation right).

Definition sameSubscriptionRef (left right : SubscriptionRef) : bool :=
  sameRunRef (sub_run left) (sub_run right)
  && sameConnectionRef (sub_connection left) (sub_connection right)
  && seqb (sub_subscriptionId left) (sub_subscriptionId right)
  && seqb (sub_viewId left) (sub_viewId right).

Definition nextCounter (value : Z) : option Z :=
  if negb (SequenceSchema value) || (value =? MAX_SAFE_INTEGER) then None else Some (value + 1).

(** ** Budgets (budgets.ts) *)

Record EffectiveBudgets := mkBudgets {
  maxRuns : Z; maxCols : Z; maxRows : Z; historyLines : Z; listPage : Z;
  baselineVtBytes : Z; baselineTailBytes : Z; baselineChunks : Z; recoveryDeadlineMs : Z;
  concurrentGenerationsPerWorker : Z; replayBytes : Z; replayEvents : Z;
  postNBytes : Z; postNEvents : Z; parseLowBytes : Z; parseHighBytes : Z; parseHardBytes : Z;
  inputQueueBytes : Z; pendingWorkerCommands : Z; subscriptionCreditBytes : Z;
  outboundConnectionBytes : Z; reservedControlBytes : Z; subscriptionsPerConnection : Z;
  authenticatedSockets : Z; unauthenticatedSockets : Z; pipeQueuedBytes : Z;
  previewBytesPerRun : Z; previewGlobalBytes : Z; previewRefreshes : Z; bootstrapBytes : Z;
  rpcRequestBytes : Z; rpcResponseBytes : Z; rpcBatch : Z; rpcInflight : Z;
  operationReceipts : Z; canonicalIntentBytes : Z; operationRecordBytes : Z;
  runtimeBytes : Z; workerBytes : Z; executableBytes : Z; cwdBytes : Z; argvCount : Z;
  argvBytes : Z; capabilityCount : Z;
}.

Definition M0_LIMITS : EffectiveBudgets := {|
  maxRuns := 128; maxCols := 500; maxRows := 200; historyLines := 1000; listPage := 128;
  baselineVtBytes := 8 * 1024 * 1024; baselineTailBytes := 64 * 1024; baselineChunks := 129;
  recoveryDeadlineMs := 15000; concurrentGenerationsPerWorker := 2;
  replayBytes := 1024 * 1024; replayEvents := 4096;
  postNBytes := 1024 * 1024; postNEvents := 4096;
  parseLowBytes := 128 * 1024; parseHighBytes := 512 * 1024; parseHardBytes := 1024 * 1024;
  inputQueueBytes := 64 * 1024; pendingWorkerCommands := 256;
  subscriptionCreditBytes := 256 * 1024; outboundConnectionBytes := 1024 * 1024;
  reservedControlBytes := 64 * 1024; subscriptionsPerConnection := 16;
  authenticatedSockets := 32; unauthenticatedSockets := 8; pipeQueuedBytes := 4 * 1024 * 1024;
  previewBytesPerRun := 64 * 1024; previewGlobalBytes := 8 * 1024 * 1024;
  previewRefreshes := 4; bootstrapBytes := 8 * 1024; rpcRequestBytes := 64 * 1024;
  rpcResponseBytes := 256 * 1024; rpcBatch := 16; rpcInflight := 32;
  operationReceipts := 4096; canonicalIntentBytes := 8 * 1024; operationRecordBytes := 4 * 1024;
  runtimeBytes := 256 * 1024 * 1024; workerBytes := 64 * 1024 * 1024;
  executableBytes := 4096; cwdBytes := 4096; argvCount := 64; argvBytes := 8 * 1024;
  capabilityCount := 32;
|}.

(** [Object.entries] order of [M0_LIMITS], on any budgets record. *)

Definition budget_entries (b : EffectiveBudgets) : list Z :=
  [maxRuns b; maxCols b; maxRows b; historyLines b; listPage b; baselineVtBytes b;
   baselineTailBytes b; baselineChunks b; recoveryDeadlineMs b; concurrentGenerationsPerWorker b;
   replayBytes b; replayEvents b; postNBytes b; postNEvents b; parseLowBytes b; parseHighBytes b;
   parseHardBytes b; inputQueueBytes b; pendingWorkerCommands b; subscriptionCreditBytes b;
   outboundConnectionBytes b; reservedControlBytes b; subscriptionsPerConnection b;
   authenticatedSockets b; unauthenticatedSockets b; pipeQueuedBytes b; previewBytesPerRun b;
   previewGlobalBytes b; previewRefreshes b; bootstrapBytes b; rpcRequestBytes b;
   rpcResponseBytes b; rpcBatch b; rpcInflight b; operationReceipts b; canonicalIntentBytes b;
   operationRecordBytes b; runtimeBytes b; workerBytes b; executableBytes b; cwdBytes b;
   argvCount b; argvBytes b; capabilityCount b].

Definition EffectiveBudgetsSchema (b : EffectiveBudgets) : bool :=
  forallb (fun vm => (1 <=? vm.1) && (vm.1 <=? vm.2))
    (combine (budget_entries b) (budget_entries M0_LIMITS)).

(** Frame constants (provisional/frame.ts). *)

Definition HEADER_BYTES : Z := 16.

Definition MAX_METADATA_BYTES : Z := 4096.

Definition MAX_PAYLOAD_BYTES : Z := 65536.

Definition MAX_FRAME_BYTES : Z := HEADER_BYTES + MAX_METADATA_BYTES + MAX_PAYLOAD_BYTES.

Definition validateEffectiveBudgets (value : EffectiveBudgets) : option EffectiveBudgets :=
  if negb (EffectiveBudgetsSchema value) then None
  else if (parseHighBytes value <=? parseLowBytes value)
       || (parseHardBytes value <=? parseHighBytes value) then None
  else if baselineChunks value * 65536 <? baselineVtBytes value + baselineTailBytes value then None
  else if subscriptionCreditBytes value <? MAX_FRAME_BYTES then None
  else if outboundConnectionBytes value <? subscriptionCreditBytes value then None
  else if reservedControlBytes value <? HEADER_BYTES + MAX_METADATA_BYTES then None
  else if pipeQueuedBytes value <? MAX_FRAME_BYTES then None
  else if previewGlobalBytes value <? maxRuns value * previewBytesPerRun value then None
  else if (maxRuns value <? 1) || (maxRuns value <? listPage value) then None
  else Some value.

(** ** Geometry and appearance (profile.ts) *)

Record Geometry := mkGeometry { cols : Z; rows : Z }.

#[global] Instance Geometry_eq_dec : EqDecision Geometry.
Proof. solve_decision. Defined.

Definition GeometrySchema (g : Geometry) : bool :=
  (2 <=? cols g) && (cols g <=? maxCols M0_LIMITS) && (2 <=? rows g) && (rows g <=? maxRows M0_LIMITS).

Definition sameGeometry (a b : Geometry) : bool := (cols a =? cols b) && (rows a =? rows b).

Record PaletteEntry := mkPalette { index : Z; rgb : string }.

Record Appearance := mkAppearance {
  foreground : option string;
  background : option string;
  palette : list PaletteEntry;
}.

Definition is_hex (c : Ascii.ascii) : bool :=
  let n := Ascii.nat_of_ascii c in
  ((48 <=? n) && (n <=? 57) || (65 <=? n) && (n <=? 70) || (97 <=? n) && (n <=? 102))%nat%bool.

(** Consumes exactly four hexadecimal digits. *)

Definition hex4 (s : string) : option string :=
  match s with
  | String a (String b (String c (String d rest))) =>
     if is_hex a && is_hex b && is_hex c && is_hex d then Some rest else None
  | _ => None
  end.

Definition slash (s : string) : option string :=
  match s with
  | String c rest => if (Ascii.nat_of_ascii c =? 47)%nat then Some rest else None
  | EmptyString => None
  end.

(** [/^[0-9a-fA-F]{4}\/[0-9a-fA-F]{4}\/[0-9a-fA-F]{4}$/] *)

Definition Rgb16Schema (s : string) : bool :=
  match (r ← hex4 s; r ← slash r; r ← hex4 r; r ← slash r; hex4 r) with
  | Some EmptyString => true
  | _ => false
  end.

Definition optional_ok {A} (p : A -> bool) (o : option A) : bool :=
  match o with Some x => p x | None => true end.

Definition AppearanceSchema (a : Appearance) : bool :=
  optional_ok Rgb16Schema (foreground a) && optional_ok Rgb16Schema (background a)
  && (zlen (palette a) <=? 256)
  && forallb (fun e => (0 <=? index e) && (index e <=? 255) && Rgb16Schema (rgb e)) (palette a).

Definition validateAppearance (a : Appearance) : option Appearance :=
  if negb (AppearanceSchema a) then None
  else if bool_decide (NoDup (map index (palette a))) then Some a else None.

Inductive ResizeContext := complete | requires_baseline.

Record RecoveryCoverage := mkCoverage {
  cov_historyLines : Z;
  cov_includedHistoryLines : Z;
  cov_trimmedBefore : bool;
  cov_normalResizeContext : ResizeContext;
  cov_alternateResizeContext : ResizeContext;
}.

Definition RecoveryCoverageSchema (c : RecoveryCoverage) : bool :=
  (0 <=? cov_historyLines c) && (cov_historyLines c <=? 1000)
  && (0 <=? cov_includedHistoryLines c) && (cov_includedHistoryLines c <=? 1000).

(** ** Baselines (terminal-recovery.ts) *)

Record ControlHolder := mkHolder {
  holder_connection : ConnectionRef;
  holder_viewId : string;
  holder_subscriptionId : string;
}.

#[global] Instance ControlHolder_eq_dec : EqDecision ControlHolder.
Proof. solve_decision. Defined.

Definition ControlHolderSchema (h : ControlHolder) : bool :=
  ConnectionRefSchema (holder_connection h) && OpaqueIdSchema (holder_viewId h)
  && OpaqueIdSchema (holder_subscriptionId h).

Record BaselineControl := mkBaselineControl { bc_epoch : Z; bc_holder : option ControlHolder }.

Record BaselineDescriptor := mkDescriptor {
  bd_baselineId : string;
  bd_run : RunRef;
  bd_subscription : SubscriptionRef;
  bd_checkpointSeq : Z;
  bd_atSeq : Z;
  bd_captureGeometry : Geometry;
  bd_currentGeometry : Geometry;
  bd_coverage : RecoveryCoverage;
  bd_control : BaselineControl;
  bd_vtBytes : Z;
  bd_tailBytes : Z;
  bd_chunkCount : Z;
}.

Definition BaselineDescriptorSchema (d : BaselineDescriptor) : bool :=
  OpaqueIdSchema (bd_baselineId d) && RunRefSchema (bd_run d)
  && SubscriptionRefSchema (bd_subscription d)
  && SequenceSchema (bd_checkpointSeq d) && SequenceSchema (bd_atSeq d)
  && GeometrySchema (bd_captureGeometry d) && GeometrySchema (bd_currentGeometry d)
  && RecoveryCoverageSchema (bd_coverage d)
  && SequenceSchema (bc_epoch (bd_control d))
  && optional_ok ControlHolderSchema (bc_holder (bd_control d))
  && (1 <=? bd_vtBytes d) && (bd_vtBytes d <=? baselineVtBytes M0_LIMITS)
  && (0 <=? bd_tailBytes d) && (bd_tailBytes d <=? baselineTailBytes M0_LIMITS)
  && (1 <=? bd_chunkCount d) && (bd_chunkCount d <=? baselineChunks M0_LIMITS).

Definition validateBaselineDescriptor (value : BaselineDescriptor) (historyLimit : Z)
    : option BaselineDescriptor :=
  if negb (isSafeInteger historyLimit) || (historyLimit <? 0)
     || (historyLines M0_LIMITS <? historyLimit) then None
  else if negb (BaselineDescriptorSchema value) then None
  else if (bd_atSeq value <? bd_checkpointSeq value)
     || ((bc_epoch (bd_control value) =? 0) && bool_decide (is_Some (bc_holder (bd_control value))))
     || negb (sameSubscriptionRef (bd_subscription value)
                {| sub_run := bd_run value;
                   sub_connection := sub_connection (bd_subscription value);
                   sub_subscriptionId := sub_subscriptionId (bd_subscription value);
                   sub_viewId := sub_viewId (bd_subscription value) |}) then None
  else if negb (sameGeometry (bd_captureGeometry value) (bd_currentGeometry value)) then None
  else if (cov_historyLines (bd_coverage value) <? cov_includedHistoryLines (bd_coverage value))
     || (historyLimit <? cov_historyLines (bd_coverage value)) then None
  else
    let totalBytes := bd_vtBytes value + bd_tailBytes value in
    if (totalBytes <? bd_chunkCount value) || (bd_chunkCount value * 65536 <? totalBytes) then None
    else Some value.

Record BaselineChunk := mkBaselineChunk {
  bch_run : RunRef;
  bch_baselineId : string;
  bch_subscription : SubscriptionRef;
  bch_ordinal : Z;
}.

Definition BaselineChunkSchema (c : BaselineChunk) : bool :=
  RunRefSchema (bch_run c) && OpaqueIdSchema (bch_baselineId c)
  && SubscriptionRefSchema (bch_subscription c)
  && (0 <=? bch_ordinal c) && (bch_ordinal c <=? baselineChunks M0_LIMITS - 1).

Record BaselineEnd := mkBaselineEnd {
  be_run : RunRef;
  be_baselineId : string;
  be_subscription : SubscriptionRef;
  be_chunkCount : Z;
  be_totalBytes : Z;
  be_atSeq : Z;
}.

Definition BaselineEndSchema (e : BaselineEnd) : bool :=
  RunRefSchema (be_run e) && OpaqueIdSchema (be_baselineId e)
  && SubscriptionRefSchema (be_subscription e)
  && (1 <=? be_chunkCount e) && (be_chunkCount e <=? baselineChunks M0_LIMITS)
  && (1 <=? be_totalBytes e)
  && (be_totalBytes e <=? baselineVtBytes M0_LIMITS + baselineTailBytes M0_LIMITS)
  && SequenceSchema (be_atSeq e).

(** The loop of [validateBaselineTransfer] over the received chunks, each a
    metadata record with the byte length of its payload. *)

Fixpoint transfer_loop (descriptor : BaselineDescriptor) (finish : BaselineEnd)
    (idx total : Z) (chunks : list (BaselineChunk * Z)) : bool :=
  match chunks with
  | [] => total =? be_totalBytes finish
  | (c, byteLength) :: rest =>
     if negb (BaselineChunkSchema c) || negb (sameRunRef (bch_run c) (bd_run descriptor))
        || negb (bch_ordinal c =? idx)
        || negb (seqb (bch_baselineId c) (bd_baselineId descriptor))
        || negb (sameSubscriptionRef (bch_subscription c) (bd_subscription descriptor))
        || (byteLength <? 1) || (65536 <? byteLength)
     then false
     else if be_totalBytes finish <? total + byteLength then false
     else transfer_loop descriptor finish (idx + 1) (total + byteLength) rest
  end.

Definition validateBaselineTransfer (descriptor : BaselineDescriptor)
    (chunks : list (BaselineChunk * Z)) (finish : BaselineEnd) : bool :=
  if bool_decide (validateBaselineDescriptor descriptor (historyLines M0_LIMITS) = None)
     || negb (zlen chunks =? bd_chunkCount descriptor) then false
  else if negb (BaselineEndSchema finish) then false
  else if negb (sameRunRef (be_run finish) (bd_run descriptor))
     || negb (seqb (be_baselineId finish) (bd_baselineId descriptor))
     || negb (sameSubscriptionRef (be_subscription finish) (bd_subscription descriptor))
     || negb (be_atSeq finish =? bd_atSeq descriptor)
     || negb (be_chunkCount finish =? bd_chunkCount descriptor)
     || negb (be_totalBytes finish =? bd_vtBytes descriptor + bd_tailBytes descriptor)
  then false
  else transfer_loop descriptor finish 0 0 chunks.

(** ** Run events and external events (terminal-events.ts) *)

Inductive RunFact :=
  | output
  | resize (geometry : Geometry) (requiresBaseline : bool)
  | control (epoch : Z) (holder : option ControlHolder) (geometry : Geometry)
  | appearance (a : Appearance)
  | exit (exitCode : option Z) (signal : option string).

Record RunEvent := mkRunEvent { ev_run : RunRef; ev_seq : Z; ev_fact : RunFact }.

Definition RunEventSchema (e : RunEvent) : bool :=
  RunRefSchema (ev_run e) && SequenceSchema (ev_seq e) && (1 <=? ev_seq e)
  && match ev_fact e with
     | output => true
     | resize g _ => GeometrySchema g
     | control epoch holder g =>
        SequenceSchema epoch && (1 <=? epoch) && optional_ok ControlHolderSchema holder
        && GeometrySchema g
     | appearance a => AppearanceSchema a
     | exit code signal => optional_ok isSafeInteger code && optional_ok (fun s => slen s <=? 64) signal
     end.

(** The JSON value of a run event: [JSON.stringify] prints every member, so the
    text's length does not depend on their order. *)

Definition RunRef_json (r : RunRef) : json :=
  JObj [("serverId", JStr (run_serverId r)); ("relayInstanceId", JStr (run_relayInstanceId r));
        ("runId", JStr (run_runId r))].

Definition ConnectionRef_json (c : ConnectionRef) : json :=
  JObj [("connectionId", JStr (conn_connectionId c)); ("generation", JNum (conn_generation c))].

Definition Geometry_json (g : Geometry) : json :=
  JObj [("cols", JNum (cols g)); ("rows", JNum (rows g))].

Definition ControlHolder_json (h : ControlHolder) : json :=
  JObj [("connection", ConnectionRef_json (holder_connection h));
        ("viewId", JStr (holder_viewId h));
        ("subscriptionId", JStr (holder_subscriptionId h))].

Definition nullable {A} (f : A -> json) (o : option A) : json :=
  match o with Some x => f x | None => JNull end.

Definition optional_member {A} (name : string) (f : A -> json) (o : option A)
    : list (string * json) :=
  match o with Some x => [(name, f x)] | None => [] end.

Definition Appearance_json (a : Appearance) : json :=
  JObj (optional_member "foreground" JStr (foreground a)
        ++ optional_member "background" JStr (background a)
        ++ [("palette", JArr (map (fun e => JObj [("index", JNum (index e)); ("rgb", JStr (rgb e))])
                               (palette a)))]).

Definition RunEvent_json (e : RunEvent) : json :=
  let common := [("run", RunRef_json (ev_run e)); ("seq", JNum (ev_seq e))] in
  JObj match ev_fact e with
       | output => ("type", JStr "output") :: common
       | resize g rb =>
          ("type", JStr "resize") :: common
          ++ [("geometry", Geometry_json g); ("requiresBaseline", JBool rb)]
       | control epoch holder g =>
          ("type", JStr "control") :: common
          ++ [("epoch", JNum epoch); ("holder", nullable ControlHolder_json holder);
              ("geometry", Geometry_json g)]
       | appearance a => ("type", JStr "appearance") :: common ++ [("appearance", Appearance_json a)]
       | exit code signal =>
          ("type", JStr "exit") :: common
          ++ [("exitCode", nullable JNum code); ("signal", nullable JStr signal)]
       end.

Record PreviewStart := mkPreviewStart {
  ps_run : RunRef;
  ps_previewId : string;
  ps_version : Z;
  ps_atSeq : Z;
  ps_geometry : Geometry;
  ps_generatedAtMs : Z;
  ps_vtBytes : Z;
  ps_chunkCount : Z;
}.

Inductive WorkerHealthReason := event_loop_delay | heartbeat_gap | command_age.

#[global] Instance WorkerHealthReason_eq_dec : EqDecision WorkerHealthReason.
Proof. solve_decision. Defined.

Definition WORKER_HEALTH_REASONS : list WorkerHealthReason :=
  [event_loop_delay; heartbeat_gap; command_age].

Inductive HealthState := normal | overloaded.

#[global] Instance HealthState_eq_dec : EqDecision HealthState.
Proof. solve_decision. Defined.

Record WorkerHealth := mkHealth { health_state : HealthState; health_reasons : list WorkerHealthReason }.

#[global] Instance WorkerHealth_eq_dec : EqDecision WorkerHealth.
Proof. solve_decision. Defined.

Definition WorkerHealthSchema (h : WorkerHealth) : bool :=
  (zlen (health_reasons h) <=? zlen WORKER_HEALTH_REASONS)
  && Bool.eqb (match health_state h with overloaded => true | normal => false end)
       (0 <? zlen (health_reasons h))
  && bool_decide (NoDup (health_reasons h)).

Inductive TerminalEvent :=
  | TRun (e : RunEvent)
  | TBaselineStart (run : RunRef) (descriptor : BaselineDescriptor)
  | TBaselineChunk (c : BaselineChunk)
  | TBaselineEnd (e : BaselineEnd)
  | TPreviewStart (p : PreviewStart)
  | TPreviewChunk (run : RunRef) (previewId : string) (version ordinal : Z)
  | TPreviewEnd (run : RunRef) (previewId : string) (version totalBytes atSeq : Z).

Inductive ExternalTerminalEvent :=
  | XRunEvent (subscription : SubscriptionRef) (event : RunEvent)
  | XBaselineStart (run : RunRef) (descriptor : BaselineDescriptor)
  | XBaselineChunk (c : BaselineChunk)
  | XBaselineEnd (e : BaselineEnd)
  | XPreviewStart (p : PreviewStart)
  | XPreviewChunk (run : RunRef) (previewId : string) (version ordinal : Z)
  | XPreviewEnd (run : RunRef) (previewId : string) (version totalBytes atSeq : Z)
  | XWorkerHealth (run : RunRef) (subscription : SubscriptionRef) (health : WorkerHealth).

Definition validateEventBinding (event : TerminalEvent) : bool :=
  match event with
  | TBaselineStart run d =>
     sameRunRef run (bd_run d) && sameRunRef run (sub_run (bd_subscription d))
  | TBaselineChunk c => sameRunRef (bch_run c) (sub_run (bch_subscription c))
  | TBaselineEnd e => sameRunRef (be_run e) (sub_run (be_subscription e))
  | _ => true
  end.

Definition externalEventSubscription (event : ExternalTerminalEvent) : option SubscriptionRef :=
  match event with
  | XRunEvent s _ | XWorkerHealth _ s _ => Some s
  | XBaselineStart _ d => Some (bd_subscription d)
  | XBaselineChunk c => Some (bch_subscription c)
  | XBaselineEnd e => Some (be_subscription e)
  | _ => None
  end.

(** The events that are in both unions: [validateExternalEventBinding] passes
    them to [validateEventBinding]. *)

Definition as_terminal_event (event : ExternalTerminalEvent) : option TerminalEvent :=
  match event with
  | XRunEvent _ _ | XWorkerHealth _ _ _ => None
  | XBaselineStart r d => Some (TBaselineStart r d)
  | XBaselineChunk c => Some (TBaselineChunk c)
  | XBaselineEnd e => Some (TBaselineEnd e)
  | XPreviewStart p => Some (TPreviewStart p)
  | XPreviewChunk r i v o => Some (TPreviewChunk r i v o)
  | XPreviewEnd r i v b s => Some (TPreviewEnd r i v b s)
  end.

Definition validateExternalEventBinding (event : ExternalTerminalEvent)
    (connection : option ConnectionRef) : bool :=
  let bound s := optional_ok (sameConnectionRef (sub_connection s)) connection in
  match event with
  | XRunEvent s e => sameRunRef (sub_run s) (ev_run e) && bound s
  | XWorkerHealth run s _ => sameRunRef (sub_run s) run && bound s
  | _ =>
     if negb (optional_ok validateEventBinding (as_terminal_event event)) then false
     else match event with
          | XBaselineStart _ d => bound (bd_subscription d)
          | XBaselineChunk c => bound (bch_subscription c)
          | XBaselineEnd e => bound (be_subscription e)
          | _ => true
          end
  end.

Fixpoint contiguous_loop (expected : Z) (events : list RunEvent) : bool :=
  match events with
  | [] => true
  | event :: rest =>
     if (expected =? MAX_SAFE_INTEGER) || negb (ev_seq event =? expected + 1) then false
     else contiguous_loop (ev_seq event) rest
  end.

Definition validateContiguousEvents (events : list RunEvent) (previousSeq : Z) : bool :=
  if negb (SequenceSchema previousSeq) then false else contiguous_loop previousSeq events.

(** ** Run status (pipe-command.ts) *)

Inductive RunLifecycle := live | exited | unverifiable.

#[global] Instance RunLifecycle_eq_dec : EqDecision RunLifecycle.
Proof. solve_decision. Defined.

Inductive RunRecovery := ready | waiting_checkpoint | unavailable.

Record RunStatus := mkRunStatus {
  rs_run : RunRef;
  rs_status : RunLifecycle;
  rs_geometry : Geometry;
  rs_controlEpoch : Z;
  rs_controlHolder : option ControlHolder;
  rs_receivedSeq : option Z;
  rs_parsedSeq : option Z;
  rs_recovery : RunRecovery;
  rs_reason : option string;
  rs_exitCode : option Z;
  rs_signal : option string;
}.

Definition RunStatusSchema (s : RunStatus) : bool :=
  RunRefSchema (rs_run s) && GeometrySchema (rs_geometry s) && SequenceSchema (rs_controlEpoch s)
  && optional_ok ControlHolderSchema (rs_controlHolder s)
  && optional_ok SequenceSchema (rs_receivedSeq s) && optional_ok SequenceSchema (rs_parsedSeq s)
  && optional_ok (fun r => slen r <=? 128) (rs_reason s)
  && optional_ok isSafeInteger (rs_exitCode s)
  && optional_ok (fun x => slen x <=? 64) (rs_signal s).

(** ** Facts about identities *)

Lemma seqb_eq a b : seqb a b = true <-> a = b.
Proof. apply String.eqb_eq. Qed.

Lemma seqb_refl a : seqb a a = true.
Proof. by apply seqb_eq. Qed.

Lemma sameRunRef_eq a b : sameRunRef a b = true <-> a = b.
Proof.
  destruct a, b. unfold sameRunRef; cbn. rewrite !andb_true_iff, !seqb_eq.
  split; [intros [[-> ->] ->]; done | intros [=]; done].
Qed.

Lemma sameWorkerRef_eq a b : sameWorkerRef a b = true <-> a = b.
Proof.
  destruct a, b. unfold sameWorkerRef; cbn. rewrite !andb_true_iff, !seqb_eq.
  split; [intros [[[-> ->] ->] ->]; done | intros [=]; done].
Qed.

Lemma sameConnectionRef_eq a b : sameConnectionRef a b = true <-> a = b.
Proof.
  destruct a, b. unfold sameConnectionRef; cbn. rewrite andb_true_iff, seqb_eq, Z.eqb_eq.
  split; [intros [-> ->]; done | intros [=]; done].
Qed.

Lemma sameSubscriptionRef_eq a b : sameSubscriptionRef a b = true <-> a = b.
Proof.
  destruct a, b. unfold sameSubscriptionRef; cbn.
  rewrite !andb_true_iff, !seqb_eq, sameRunRef_eq, sameConnectionRef_eq.
  split; [intros [[[-> ->] ->] ->]; done | intros [=]; done].
Qed.

#[export] Hint Rewrite seqb_eq sameRunRef_eq sameWorkerRef_eq sameConnectionRef_eq
  sameSubscriptionRef_eq : coveref.
