(* ===== verification/JsMap.v ===== *)
(** * JavaScript maps

    A [Map] iterates in insertion order; [set] on a present key keeps its place.
    It is modelled as an association list without duplicate keys. *)

From S2P Require Import Prelude.

Definition jsmap (K V : Type) : Type := list (K * V).

Section jsmap.
Context {K V : Type} `{EqDecision K}.
Implicit Types (m : jsmap K V) (k : K) (v : V).

Fixpoint jget k m : option V :=
  match m with
  | [] => None
  | (k', v) :: rest => if decide (k = k') then Some v else jget k rest
  end.

Definition jhas k m : bool := match jget k m with Some _ => true | None => false end.

Fixpoint jset k v m : jsmap K V :=
  match m with
  | [] => [(k, v)]
  | (k', v') :: rest => if decide (k = k') then (k, v) :: rest else (k', v') :: jset k v rest
  end.

Fixpoint jdelete k m : jsmap K V :=
  match m with
  | [] => []
  | (k', v) :: rest => if decide (k = k') then rest else (k', v) :: jdelete k rest
  end.

Definition jkeys m : list K := m.*1.

Definition jvalues m : list V := m.*2.

Definition jwf m : Prop := NoDup (jkeys m).

Lemma jget_elem k v m : jwf m -> (k, v) ∈ m <-> jget k m = Some v.
Proof.
  induction m as [|[k' v'] m IH]; intros Hwf; cbn.
  - split; [by intros ?%elem_of_nil | done].
  - unfold jwf in Hwf. cbn in Hwf. apply NoDup_cons in Hwf as [Hn Hwf]. rewrite elem_of_cons. case_decide as Hk.
    + subst k'. split; [| by intros [= ->]; left]. intros [[= ->]|Hin]; [done |].
      exfalso. apply Hn. apply list_elem_of_fmap. by exists (k, v).
    + rewrite <- IH by done. split; [| by right]. intros [[= -> _]|Hin]; done.
Qed.

Lemma jget_keys k m : is_Some (jget k m) <-> k ∈ jkeys m.
Proof.
  induction m as [|[k' v'] m IH]; cbn.
  - split; [by intros [? ?] | by intros ?%elem_of_nil].
  - rewrite elem_of_cons. case_decide as Hk; [split; [by left | by eauto] |]. rewrite IH. split; [by right | by intros [?|?]].
Qed.

Lemma jget_none k m : jget k m = None <-> k ∉ jkeys m.
Proof. rewrite <- jget_keys, eq_None_not_Some. done. Qed.

Lemma jget_set k k' v m : jget k (jset k' v m) = if decide (k = k') then Some v else jget k m.
Proof.
  induction m as [|[k0 v0] m IH]; cbn; [done |]. destruct (decide (k' = k0)) as [H0|H0]; cbn.
  - repeat case_decide; congruence.
  - rewrite IH. repeat case_decide; congruence.
Qed.

Lemma jkeys_set_new k v m : jget k m = None -> jset k v m = m ++ [(k, v)].
Proof.
  induction m as [|[k0 v0] m IH]; cbn; [done |]. case_decide; [done |]. intros. by rewrite IH.
Qed.

Lemma jkeys_set_old k v m : is_Some (jget k m) -> jkeys (jset k v m) = jkeys m.
Proof.
  induction m as [|[k0 v0] m IH]; cbn; [by intros [? ?] |]. case_decide; cbn; [by subst |]. intros. f_equal. by apply IH.
Qed.

Lemma jwf_set k v m : jwf m -> jwf (jset k v m).
Proof.
  intros Hwf. unfold jwf. destruct (jget k m) eqn:E; [by rewrite jkeys_set_old |].
  rewrite jkeys_set_new by done. unfold jkeys. rewrite fmap_app. apply NoDup_app. split_and!; [done | | apply NoDup_singleton].
  intros x Hx ->%list_elem_of_singleton. by apply jget_none in E.
Qed.

Lemma jset_set k v v' m : jset k v' (jset k v m) = jset k v' m.
Proof.
  induction m as [|[k0 v0] m IH]; cbn; [by rewrite decide_True |]. destruct (decide (k = k0)) as [H0|H0]; cbn.
  - by rewrite decide_True.
  - rewrite decide_False by done. by rewrite IH.
Qed.

Lemma jdelete_absent k m : jget k m = None -> jdelete k m = m.
Proof. induction m as [|[k0 v0] m IH]; cbn; [done |]. case_decide; [done |]. intros. by rewrite IH. Qed.

Lemma jdelete_split k v m : jwf m -> jget k m = Some v ->
  exists m1 m2, m = m1 ++ (k, v) :: m2 /\ jdelete k m = m1 ++ m2.
Proof.
  induction m as [|[k0 v0] m IH]; intros Hwf; cbn; [done |]. case_decide as Hk.
  - subst k0. intros [= ->]. by exists [], m.
  - intros E. apply NoDup_cons in Hwf as [_ Hwf]. destruct (IH Hwf E) as (m1 & m2 & -> & ->). by exists ((k0, v0) :: m1), m2.
Qed.

Lemma jset_split k v v' m : jget k m = Some v ->
  exists m1 m2, m = m1 ++ (k, v) :: m2 /\ jset k v' m = m1 ++ (k, v') :: m2.
Proof.
  induction m as [|[k0 v0] m IH]; cbn; [done |]. case_decide as Hk.
  - subst k0. intros [= ->]. by exists [], m.
  - intros E. destruct (IH E) as (m1 & m2 & -> & ->). by exists ((k0, v0) :: m1), m2.
Qed.

Lemma jwf_delete k m : jwf m -> jwf (jdelete k m).
Proof.
  intros Hwf. destruct (jget k m) as [v|] eqn:E; [| by rewrite jdelete_absent].
  destruct (jdelete_split k v m Hwf E) as (m1 & m2 & -> & ->). unfold jwf, jkeys in *.
  rewrite !fmap_app in *. cbn in Hwf. apply NoDup_app in Hwf as (H1 & H2 & H3). apply NoDup_cons in H3 as [_ H3].
  apply NoDup_app. split_and!; [done | | done]. intros x Hx Hx2. apply (H2 x Hx). by right.
Qed.

Lemma jget_delete k k' m : jwf m -> jget k (jdelete k' m) = if decide (k = k') then None else jget k m.
Proof.
  induction m as [|[k0 v0] m IH]; intros Hwf; cbn; [by case_decide |].
  apply NoDup_cons in Hwf as [Hn Hwf]. cbn in Hn. destruct (decide (k' = k0)) as [H0|H0]; cbn.
  - destruct (decide (k = k')) as [Hk|Hk]; [apply jget_none; by rewrite Hk, H0 |].
    rewrite decide_False; [done | congruence].
  - rewrite IH by done. repeat case_decide; congruence.
Qed.

(** Sums over the values. *)

Lemma jsum_set_new (f : V -> Z) k v m : jget k m = None ->
  lsum f (jvalues (jset k v m)) = lsum f (jvalues m) + f v.
Proof. intros E. rewrite jkeys_set_new by done. unfold jvalues. rewrite fmap_app, lsum_app. cbn. rewrite lsum_cons, lsum_nil. lia. Qed.

Lemma jsum_set_old (f : V -> Z) k v v' m : jget k m = Some v ->
  lsum f (jvalues (jset k v' m)) = lsum f (jvalues m) - f v + f v'.
Proof.
  intros E. destruct (jset_split k v v' m E) as (m1 & m2 & -> & ->). unfold jvalues.
  rewrite !fmap_app, !lsum_app. cbn. rewrite !lsum_cons. lia.
Qed.

Lemma jsum_delete (f : V -> Z) k v m : jwf m -> jget k m = Some v ->
  lsum f (jvalues (jdelete k m)) = lsum f (jvalues m) - f v.
Proof.
  intros Hwf E. destruct (jdelete_split k v m Hwf E) as (m1 & m2 & -> & ->). unfold jvalues.
  rewrite !fmap_app, !lsum_app. cbn. rewrite !lsum_cons. lia.
Qed.

Lemma jvalues_delete_perm k v m : jwf m -> jget k m = Some v -> jvalues m ≡ₚ v :: jvalues (jdelete k m).
Proof.
  intros Hwf E. destruct (jdelete_split k v m Hwf E) as (m1 & m2 & -> & ->). unfold jvalues.
  rewrite !fmap_app. cbn. by rewrite Permutation_middle.
Qed.

Lemma jvalues_map {W} (f : V -> W) k v v' m : jget k m = Some v -> f v = f v' ->
  f <$> jvalues (jset k v' m) = f <$> jvalues m.
Proof.
  intros E Hf. destruct (jset_split k v v' m E) as (m1 & m2 & -> & ->). unfold jvalues.
  rewrite !fmap_app. cbn. by rewrite Hf.
Qed.

Lemma jset_size_new k v m : jget k m = None -> zlen (jset k v m) = zlen m + 1.
Proof. intros E. rewrite jkeys_set_new by done. by rewrite zlen_app, zlen_cons, zlen_nil. Qed.

Lemma jset_size_old k v m : is_Some (jget k m) -> zlen (jset k v m) = zlen m.
Proof. intros E. rewrite <- (zlen_map fst (jset k v m)), <- (zlen_map fst m). f_equal. by apply jkeys_set_old. Qed.

Lemma jdelete_size k m : zlen (jdelete k m) <= zlen m.
Proof. induction m as [|[k0 v0] m IH]; cbn; [done |]. case_decide; rewrite ?zlen_cons; lia. Qed.

Lemma jvalues_Forall (P : V -> Prop) m : jwf m -> Forall P (jvalues m) <-> (forall k v, jget k m = Some v -> P v).
Proof.
  intros Hwf. rewrite Forall_forall. unfold jvalues. split.
  - intros Hf k v E%(jget_elem k v m Hwf). apply Hf. apply list_elem_of_fmap. by exists (k, v).
  - intros Hf v ([k v'] & -> & Hin)%list_elem_of_fmap. apply (jget_elem k v' m Hwf) in Hin. by eapply Hf.
Qed.

End jsmap.

(** Keeping some entries. *)

Lemma filter_sublist {A} (p : A -> bool) l : sublist (List.filter p l) l.
Proof. induction l as [|x l IH]; [done |]. cbn. destruct (p x); by constructor. Qed.

Lemma jwf_filter {K V} `{EqDecision K} (p : K * V -> bool) (m : jsmap K V) : jwf m -> jwf (List.filter p m).
Proof.
  unfold jwf, jkeys. intros Hwf. eapply sublist_NoDup; [exact Hwf |]. apply (sublist_fmap fst). apply filter_sublist.
Qed.

Lemma jget_filter {K V} `{EqDecision K} (p : K * V -> bool) (m : jsmap K V) k v : jwf m ->
  jget k (List.filter p m) = Some v <-> jget k m = Some v /\ p (k, v) = true.
Proof.
  intros Hwf. rewrite <- !jget_elem by (try apply jwf_filter; done).
  by rewrite !list_elem_of_In, List.filter_In.
Qed.

Lemma sorted_snoc_nat l x : StronglySorted lt l -> Forall (fun y => (y < x)%nat) l -> StronglySorted lt (l ++ [x]).
Proof.
  induction 1 as [|y l Hs IH Hy]; intros Hf; cbn; [by repeat constructor |].
  apply Forall_cons in Hf as [Hyx Hf]. constructor; [by apply IH |]. apply Forall_app; auto.
Qed.
