(* ===== verification/LeaseAccount.v ===== *)
(** * The byte-account interface

    Every owner of retained memory asks an account for a lease before it keeps
    bytes and gives the lease back exactly once.  [LeaseAccount] is what the
    owners (replay window, delivery credit, run registry, worker pool, preview
    cache) rely on; the worker's and the runtime's accounts (Retained.v) are
    its instances.  The theorems of an owner are proved against this class. *)

From S2P Require Import Prelude.

Class LeaseAccount (S : Type) := {
  la_reserve : Z -> S -> option (nat * S);
  la_release : nat -> S -> S;
  la_charge : S -> nat -> option Z;
  la_used : S -> Z;
  la_ok : S -> Prop;
  (** A granted lease is new, holds the bytes asked for and nothing else moves. *)
  la_reserve_ok : forall n s l s', la_ok s -> la_reserve n s = Some (l, s') ->
    la_ok s' /\ la_charge s l = None /\ la_charge s' l = Some n
    /\ (forall l', l' <> l -> la_charge s' l' = la_charge s l')
    /\ la_used s' = la_used s + n;
  (** Releasing a live lease returns exactly its bytes. *)
  la_release_live : forall l n s, la_ok s -> la_charge s l = Some n ->
    la_ok (la_release l s) /\ la_charge (la_release l s) l = None
    /\ (forall l', l' <> l -> la_charge (la_release l s) l' = la_charge s l')
    /\ la_used (la_release l s) = la_used s - n;
  (** Releasing again, or an unknown lease, does nothing. *)
  la_release_dead : forall l s, la_charge s l = None -> la_release l s = s;
}.

#[global] Hint Mode LeaseAccount ! : typeclass_instances.

Section release_many.
Context {S : Type} `{LeaseAccount S}.
Implicit Types (s : S) (l : nat).

(** Releases a list of leases in order, as the [for ... of] loops do. *)

Definition release_all (ls : list nat) s : S := foldl (fun acc l => la_release l acc) s ls.

Lemma la_release_ok l s : la_ok s -> la_ok (la_release l s).
Proof.
  intros Hs. destruct (la_charge s l) as [n|] eqn:E.
  - by apply (la_release_live l n s).
  - by rewrite la_release_dead.
Qed.

Lemma la_release_charge l l' s : la_ok s ->
  la_charge (la_release l s) l' = if decide (l' = l) then None else la_charge s l'.
Proof.
  intros Hs. destruct (la_charge s l) as [n|] eqn:E.
  - destruct (la_release_live l n s Hs E) as (_ & ? & ? & _). case_decide; subst; auto.
  - rewrite la_release_dead by done. case_decide; subst; auto.
Qed.

Lemma release_all_ok ls s : la_ok s -> la_ok (release_all ls s).
Proof.
  revert s. induction ls as [|l ls IH]; intros s Hs; [done |].
  cbn. apply IH. by apply la_release_ok.
Qed.

Lemma release_all_charge ls l' s : la_ok s ->
  la_charge (release_all ls s) l' = if decide (l' ∈ ls) then None else la_charge s l'.
Proof.
  revert s. induction ls as [|l ls IH]; intros s Hs.
  - rewrite decide_False by apply not_elem_of_nil. done.
  - cbn [release_all foldl]. change (foldl _ _ ls) with (release_all ls (la_release l s)).
    rewrite IH by (by apply la_release_ok). rewrite la_release_charge by done.
    destruct (decide (l' ∈ ls)) as [Hin|Hin]; [by rewrite decide_True by (by right) |].
    destruct (decide (l' = l)) as [->|Hne]; [by rewrite decide_True by left |].
    rewrite decide_False; [done |]. by rewrite not_elem_of_cons.
Qed.

(** Distinct live leases give back the sum of their charges. *)

Lemma release_all_used ls s (charge : nat -> Z) : la_ok s -> NoDup ls ->
  (forall l, l ∈ ls -> la_charge s l = Some (charge l)) ->
  la_used (release_all ls s) = la_used s - lsum charge ls.
Proof.
  revert s. induction ls as [|l ls IH]; intros s Hs Hnd Hc;
    [cbn; rewrite lsum_nil; lia |].
  cbn [release_all foldl]. change (foldl _ _ ls) with (release_all ls (la_release l s)).
  apply NoDup_cons in Hnd as [Hl Hnd].
  destruct (la_release_live l (charge l) s Hs ltac:(apply Hc; left)) as (Hok & _ & Hother & Hu).
  rewrite IH, Hu, lsum_cons; [lia | done.. |].
  intros k Hk. rewrite Hother by (intros ->; done). apply Hc. by right.
Qed.

End release_many.

(** ** Ownership ledgers

    [ledger foreign s owned]: in account [s], the leases of [owned] are live,
    distinct and hold the bytes listed, and everything else in use belongs to
    other owners ([foreign] bytes).  Every owner's invariant has this shape. *)

Section ledger.
Context {S : Type} `{LeaseAccount S}.
Implicit Types (s : S) (l : nat) (n foreign : Z) (owned : list (nat * Z)).

Record ledger foreign s owned : Prop := mk_ledger {
  ledger_ok : la_ok s;
  ledger_nodup : NoDup owned.*1;
  ledger_live : forall l n, (l, n) ∈ owned -> la_charge s l = Some n;
  ledger_used : la_used s = foreign + lsum snd owned;
}.

#[global] Instance ledger_proper foreign s : Proper ((≡ₚ) ==> iff) (ledger foreign s).
Proof.
  assert (Himp : forall o o', o ≡ₚ o' -> ledger foreign s o -> ledger foreign s o').
  { intros o o' Hp [H1 H2 H3 H4]. constructor; [done | by rewrite <- Hp | |].
    - intros l n. rewrite <- Hp. apply H3.
    - by rewrite <- (lsum_perm _ _ _ Hp). }
  intros o o' Hp. split; apply Himp; [done | by symmetry].
Qed.

Lemma ledger_nil s : la_ok s -> ledger (la_used s) s [].
Proof. intros. constructor; [done | constructor | by intros ? ? ?%elem_of_nil | cbn; rewrite lsum_nil; lia]. Qed.

Lemma ledger_fresh foreign s owned l n s' :
  ledger foreign s owned -> la_reserve n s = Some (l, s') -> (l ∉ owned.*1).
Proof.
  intros [H1 _ H3 _] E Hin. destruct (la_reserve_ok n s l s' H1 E) as (_ & Hnone & _).
  apply list_elem_of_fmap in Hin as ([k m] & -> & Hin). apply H3 in Hin. cbn in *. congruence.
Qed.

Lemma ledger_reserve foreign s owned l n s' :
  ledger foreign s owned -> la_reserve n s = Some (l, s') -> ledger foreign s' ((l, n) :: owned).
Proof.
  intros HL E. pose proof (ledger_fresh _ _ _ _ _ _ HL E) as Hf. destruct HL as [H1 H2 H3 H4].
  destruct (la_reserve_ok n s l s' H1 E) as (Hok & _ & Hl & Hother & Hu). constructor; [done | | |].
  - cbn. by constructor.
  - intros k m [[= <- <-]|Hk]%elem_of_cons; [done |]. rewrite Hother; [by apply H3 |].
    intros ->. apply Hf. apply list_elem_of_fmap. by exists (l, m).
  - rewrite lsum_cons. cbn. lia.
Qed.

Lemma ledger_release foreign s owned l n :
  ledger foreign s ((l, n) :: owned) -> ledger foreign (la_release l s) owned.
Proof.
  intros [H1 H2 H3 H4]. cbn in H2. apply NoDup_cons in H2 as [Hf H2].
  destruct (la_release_live l n s H1 (H3 l n ltac:(left))) as (Hok & _ & Hother & Hu).
  constructor; [done | done | |].
  - intros k m Hk. rewrite Hother; [apply H3; by right |].
    intros ->. apply Hf. apply list_elem_of_fmap. by exists (l, m).
  - rewrite lsum_cons in H4. cbn in H4. lia.
Qed.

(** Handing one lease over to another owner and back. *)

Lemma ledger_cons foreign s owned l n :
  ledger foreign s ((l, n) :: owned)
  <-> ledger (foreign + n) s owned /\ (l ∉ owned.*1) /\ la_charge s l = Some n.
Proof.
  split.
  - intros [H1 H2 H3 H4]. cbn in H2. apply NoDup_cons in H2 as [Hf H2]. rewrite lsum_cons in H4. cbn in H4.
    split_and!; [| done | apply H3; left]. constructor; [done | done | | lia].
    intros k m Hk. apply H3. by right.
  - intros ([H1 H2 H3 H4] & Hf & Hl). constructor; [done | by constructor | | rewrite lsum_cons; cbn; lia].
    intros k m [[= -> ->]|Hk]%elem_of_cons; [done | by apply H3].
Qed.

(** An owner that releases everything leaves nothing behind. *)

Lemma ledger_release_all foreign s owned : ledger foreign s owned -> ledger foreign (release_all owned.*1 s) [].
Proof.
  revert s. induction owned as [|[l n] owned IH]; intros s Hl; [done |]. cbn. apply IH.
  by apply (ledger_release _ _ _ _ n).
Qed.

(** Other owners of the same account come and go without touching [owned]. *)

Lemma ledger_interfere foreign s owned s' : ledger foreign s owned -> la_ok s' ->
  (forall l n, (l, n) ∈ owned -> la_charge s' l = la_charge s l) ->
  ledger (foreign + (la_used s' - la_used s)) s' owned.
Proof.
  intros [H1 H2 H3 H4] Hok Hc. constructor; [done | done | | lia].
  intros l n Hl. rewrite (Hc l n Hl). by apply H3.
Qed.

End ledger.
