(* ===== verification/Retained.v ===== *)
(** * Retained-byte accounts

    [WorkerRetainedBytes] (packages/terminal-worker/src/worker-retained-bytes.ts)
    and [RuntimeRetainedBytes] (apps/server/src/terminal/runtime-retained-bytes.ts).
    A lease is an object with private flags, so the account keeps a store of the
    leases it handed out, indexed in the order of creation; [release] and
    [shrinkTo] act on that store. *)

From S2P Require Import Prelude LeaseAccount.

(** ** The worker's account *)

Module WorkerRetainedBytes.

Inductive RetainedCategory := worker | engine | native_input | native_output.

#[global] Instance RetainedCategory_eq_dec : EqDecision RetainedCategory.
Proof. solve_decision. Defined.

Record RetainedLease := mkLease { category : RetainedCategory; charged : Z; released : bool }.

Record t := mk {
  limit : Z;
  control : Z;
  current : RetainedCategory -> Z;
  used : Z;
  peak : Z;
  leases : list RetainedLease;
}.

Definition make (lim reservedControlBytes : Z) : t :=
  {| limit := lim; control := Z.min lim reservedControlBytes; current := fun _ => 0;
     used := 0; peak := 0; leases := [] |}.

Definition bump (cur : RetainedCategory -> Z) (c : RetainedCategory) (delta : Z)
    : RetainedCategory -> Z :=
  fun k => if decide (k = c) then cur k + delta else cur k.

Definition reserve (c : RetainedCategory) (bytes : Z) (s : t) : option (nat * t) :=
  if negb (isSafeInteger bytes) || (bytes <? 1) || (limit s - control s - used s <? bytes)
  then None
  else Some (length (leases s),
    {| limit := limit s; control := control s; current := bump (current s) c bytes;
       used := used s + bytes; peak := Z.max (peak s) (used s + bytes);
       leases := leases s ++ [mkLease c bytes false] |}).

Definition release (id : nat) (s : t) : t :=
  match leases s !! id with
  | Some l =>
     if released l then s
     else {| limit := limit s; control := control s;
             current := bump (current s) (category l) (- charged l);
             used := used s - charged l; peak := peak s;
             leases := <[id := mkLease (category l) (charged l) true]> (leases s) |}
  | None => s
  end.

Inductive RangeError := invalid_lease_reduction.

Definition shrinkTo (id : nat) (next : Z) (s : t) : RangeError + t :=
  match leases s !! id with
  | Some l =>
     if released l || negb (isSafeInteger next) || (next <? 1) || (charged l <? next)
     then inl invalid_lease_reduction
     else inr {| limit := limit s; control := control s;
                 current := bump (current s) (category l) (- (charged l - next));
                 used := used s - (charged l - next); peak := peak s;
                 leases := <[id := mkLease (category l) next false]> (leases s) |}
  | None => inl invalid_lease_reduction
  end.

Definition availableOrdinaryBytes (s : t) : Z := limit s - control s - used s.

Record Snapshot := mkSnapshot {
  accountedBytes : Z; peakAccountedBytes : Z; reservedControlBytes : Z; workerBytes : Z;
  engineBytes : Z; nativeInputBytes : Z; nativeOutputBytes : Z;
}.

Definition snapshot (s : t) : Snapshot :=
  {| accountedBytes := control s + used s; peakAccountedBytes := control s + peak s;
     reservedControlBytes := control s; workerBytes := current s worker;
     engineBytes := current s engine; nativeInputBytes := current s native_input;
     nativeOutputBytes := current s native_output |}.

(** *** Invariant: the ledger is the sum of the live leases *)

Definition live_charge (l : RetainedLease) : Z := if released l then 0 else charged l.

Definition live_in (c : RetainedCategory) (l : RetainedLease) : Z :=
  if decide (category l = c) then live_charge l else 0.

Record ok (s : t) : Prop := mk_ok {
  ok_used : used s = lsum live_charge (leases s);
  ok_current : forall c, current s c = lsum (live_in c) (leases s);
  ok_positive : Forall (fun l => 1 <= charged l) (leases s);
  ok_control : control s <= limit s;
  ok_bound : used s <= peak s <= limit s - control s;
}.

Lemma worker_make_ok lim r : 0 <= Z.min lim r -> Z.min lim r <= lim -> ok (make lim r).
Proof. intros. constructor; cbn; auto; try lia. Qed.

Lemma worker_reserve_ok c n s id s' : ok s -> reserve c n s = Some (id, s') -> ok s'.
Proof.
  unfold reserve. intros [Hu Hc Hp Hl Hb]. case_if; intros [= <- <-].
  constructor; cbn.
  - rewrite lsum_app, lsum_cons, lsum_nil. cbn. lia.
  - intros k. unfold bump. rewrite lsum_app, lsum_cons, lsum_nil, Hc. unfold live_in; cbn.
    repeat case_decide; subst; try congruence; lia.
  - apply Forall_app; split; [done |]. constructor; [cbn; lia | constructor].
  - done.
  - lia.
Qed.

Lemma worker_release_ok id s : ok s -> ok (release id s).
Proof.
  unfold release. intros [Hu Hc Hp Hl Hb].
  destruct (leases s !! id) as [l|] eqn:E; [| by constructor].
  destruct (released l) eqn:R; [by constructor |].
  constructor; cbn.
  - rewrite (lsum_alter _ _ _ _ _ E). unfold live_charge at 2 3; cbn. rewrite R. lia.
  - intros k. unfold bump. rewrite (lsum_alter _ _ _ _ _ E), Hc. unfold live_in, live_charge; cbn.
    rewrite R. repeat case_decide; congruence || lia.
  - apply Forall_insert; [done |]. cbn. eapply Forall_lookup_1 in Hp; eauto.
  - done.
  - assert (1 <= charged l) by (eapply Forall_lookup_1 in Hp; eauto). lia.
Qed.

Lemma worker_shrinkTo_ok id n s s' : ok s -> shrinkTo id n s = inr s' -> ok s'.
Proof.
  unfold shrinkTo. intros [Hu Hc Hp Hl Hb].
  destruct (leases s !! id) as [l|] eqn:E; [| done].
  case_if; intros [= <-]. bool_hyps. constructor; cbn.
  - rewrite (lsum_alter _ _ _ _ _ E). unfold live_charge at 2 3; cbn. rewrite H. lia.
  - intros k. unfold bump. rewrite (lsum_alter _ _ _ _ _ E), Hc. unfold live_in, live_charge; cbn.
    rewrite H. repeat case_decide; congruence || lia.
  - apply Forall_insert; [done |]. cbn. lia.
  - done.
  - lia.
Qed.

(** *** Reachable states *)

Inductive step : t -> t -> Prop :=
  | step_reserve c n s id s' : reserve c n s = Some (id, s') -> step s s'
  | step_release id s : step s (release id s)
  | step_shrink id n s s' : shrinkTo id n s = inr s' -> step s s'.

Definition reachable (lim ctl : Z) (s : t) : Prop := rtc step (make lim ctl) s.

Lemma worker_step_ok s s' : ok s -> step s s' -> ok s'.
Proof.
  intros Hs Hst. revert Hs.
  destruct Hst; eauto using worker_reserve_ok, worker_release_ok, worker_shrinkTo_ok.
Qed.

Lemma worker_step_limits s s' : step s s' -> limit s' = limit s /\ control s' = control s.
Proof.
  intros [c n r id r' E | id r | id n r r' E].
  - unfold reserve in E. case_if; by invert E.
  - unfold release. destruct (leases r !! id) as [l|]; [destruct (released l)|]; done.
  - unfold shrinkTo in E. destruct (leases r !! id); [case_if|]; by invert E.
Qed.

Lemma worker_reachable_ok lim ctl s : 0 <= lim -> 0 <= ctl -> reachable lim ctl s -> ok s.
Proof. intros ? ?. apply rtc_invariant; [apply worker_make_ok; lia | apply worker_step_ok]. Qed.

Lemma worker_reachable_limits lim ctl s :
  reachable lim ctl s -> limit s = lim /\ control s = Z.min lim ctl.
Proof.
  apply (rtc_invariant step (fun x => limit x = lim /\ control x = Z.min lim ctl)); [done |].
  intros y z [? ?] Hyz. destruct (worker_step_limits _ _ Hyz); split; congruence.
Qed.

(** *** The account as an instance of the interface *)

Definition charge_of (s : t) (id : nat) : option Z :=
  match leases s !! id with
  | Some l => if released l then None else Some (charged l)
  | None => None
  end.

#[global, refine] Instance account (c : RetainedCategory) : LeaseAccount t := {|
  la_reserve := reserve c; la_release := release; la_charge := charge_of; la_used := used; la_ok := ok
|}.
Proof.
  - intros n s l s' Hs E. pose proof (worker_reserve_ok c n s l s' Hs E) as Hok.
    unfold reserve in E. case_if; invert E. unfold charge_of; cbn. split_ands; auto.
    + by rewrite lookup_ge_None_2 by done.
    + by rewrite lookup_app_r, Nat.sub_diag by done.
    + intros l' Hl'. destruct (decide (l' < length (leases s))%nat).
      * by rewrite lookup_app_l by done.
      * rewrite !lookup_ge_None_2; [done | | rewrite length_app; cbn]; lia.
  - intros l n s Hs E. pose proof (worker_release_ok l s Hs) as Hok.
    unfold charge_of in E. unfold release in *.
    destruct (leases s !! l) as [x|] eqn:Hl; [| done].
    destruct (released x) eqn:R; [done |]. injection E as <-. unfold charge_of; cbn. split_ands; auto.
    + rewrite list_lookup_insert_eq; [done |]. by apply lookup_lt_Some in Hl.
    + intros l' Hne. by rewrite list_lookup_insert_ne by done.
  - intros l s E. unfold charge_of in E. unfold release.
    destruct (leases s !! l) as [x|]; [| done]. by destruct (released x).
Defined.

(** *** Properties *)

(** in every state the worker's account can reach, the accounted total and
    each category are exactly the sums of the live leases, the control
    carve-out and the peak stay within the limit, and an ordinary reservation
    succeeds exactly when it is positive and fits in what is left. *)
Theorem worker_ledger_exact (lim ctl : Z) (s : t) :
  0 <= lim <= MAX_SAFE_INTEGER -> 0 <= ctl -> reachable lim ctl s ->
  accountedBytes (snapshot s) = Z.min lim ctl + lsum live_charge (leases s)
  /\ (forall c, current s c = lsum (live_in c) (leases s))
  /\ accountedBytes (snapshot s) <= peakAccountedBytes (snapshot s) <= lim
  /\ (forall c n, (exists id s', reserve c n s = Some (id, s'))
                  <-> 1 <= n <= lim - Z.min lim ctl - lsum live_charge (leases s)).
Proof.
  intros Hlim Hctl Hr. destruct (worker_reachable_limits _ _ _ Hr) as [El Ec].
  destruct (worker_reachable_ok lim ctl s) as [Hu Hc Hp Hl Hb]; [lia.. | done |].
  cbn. rewrite Ec in *. rewrite El in *. rewrite <- Hu. split_ands; [lia | done | lia | lia |].
  intros c n. unfold reserve. rewrite El, Ec.
  pose proof (lsum_nonneg live_charge (leases s)) as Hn.
  rewrite <- Hu in Hn. assert (0 <= used s).
  { apply Hn. intros x Hx. rewrite Forall_forall in Hp. specialize (Hp x Hx). unfold live_charge.
    case_if; lia. }
  unfold isSafeInteger. case_if; split.
  - by intros (? & ? & ?).
  - unfold MAX_SAFE_INTEGER in *. lia.
  - lia.
  - eauto.
Qed.

Lemma worker_ledger_exact_witness :
  exists s, reachable 1000 100 s /\ used s = 60
  /\ accountedBytes (snapshot s) = Z.min 1000 100 + lsum live_charge (leases s).
Proof.
  set (s0 := make 1000 100).
  destruct (reserve engine 50 s0) as [[a s1]|] eqn:E1; [| vm_compute in E1; discriminate].
  destruct (reserve worker 40 s1) as [[b s2]|] eqn:E2;
    [| vm_compute in E1; injection E1 as <- <-; vm_compute in E2; discriminate].
  destruct (shrinkTo a 20 s2) as [|s3] eqn:E3;
    [vm_compute in E1; injection E1 as <- <-; vm_compute in E2; injection E2 as <- <-;
     vm_compute in E3; discriminate |].
  exists s3. assert (Hr : reachable 1000 100 s3).
  { eapply rtc_l; [by eapply step_reserve, E1 |]. eapply rtc_l; [by eapply step_reserve, E2 |].
    eapply rtc_l; [by eapply step_shrink, E3 |]. apply rtc_refl. }
  split; [exact Hr |]. split.
  - vm_compute in E1. injection E1 as <- <-. vm_compute in E2. injection E2 as <- <-.
    vm_compute in E3. injection E3 as <-. reflexivity.
  - apply (worker_ledger_exact 1000 100 s3); [unfold MAX_SAFE_INTEGER; lia | lia | exact Hr].
Defined.

End WorkerRetainedBytes.

(** ** The runtime's account *)

Module RuntimeRetainedBytes.

Record Reservation := mkReservation { bytes : Z; is_control : bool; owned : bool }.

(** A backing record is shared by every user of one array buffer. *)

Record Backing := mkBacking { users : Z; backing_control : bool; backing_lease : nat }.

Record Handle := mkHandle { handle_buffer : nat; handle_record : nat; handle_owned : bool }.

Record t := mk {
  limit : Z;
  controlReserve : Z;
  total : Z;
  ordinary : Z;
  reservations : list Reservation;
  records : list Backing;
  backings : gmap nat nat;
  handles : list Handle;
}.

Inductive ConstructorError := invalid_byte_limits.

Definition make (lim ctl : Z) : ConstructorError + t :=
  if negb (isSafeInteger lim) || (lim <? 1) || negb (isSafeInteger ctl) || (ctl <? 0) || (lim <? ctl)
  then inl invalid_byte_limits
  else inr {| limit := lim; controlReserve := ctl; total := 0; ordinary := 0;
              reservations := []; records := []; backings := ∅; handles := [] |}.

Definition reserve (n : Z) (ctl : bool) (s : t) : option (nat * t) :=
  if negb (isSafeInteger n) || (n <? 0) || (limit s - total s <? n)
     || (negb ctl && (limit s - controlReserve s - ordinary s <? n))
  then None
  else Some (length (reservations s),
    {| limit := limit s; controlReserve := controlReserve s; total := total s + n;
       ordinary := if ctl then ordinary s else ordinary s + n;
       reservations := reservations s ++ [mkReservation n ctl true];
       records := records s; backings := backings s; handles := handles s |}).

Definition release (id : nat) (s : t) : t :=
  match reservations s !! id with
  | Some r =>
     if negb (owned r) then s
     else {| limit := limit s; controlReserve := controlReserve s; total := total s - bytes r;
             ordinary := if is_control r then ordinary s else ordinary s - bytes r;
             reservations := <[id := mkReservation (bytes r) (is_control r) false]> (reservations s);
             records := records s; backings := backings s; handles := handles s |}
  | None => s
  end.

(** The tail of [retainBacking], once the buffer has a record. *)

Definition add_user (buffer rid : nat) (ctl : bool) (s : t) : option (nat * t) :=
  match records s !! rid with
  | Some r =>
     if backing_control r && negb ctl then None
     else Some (length (handles s),
       {| limit := limit s; controlReserve := controlReserve s; total := total s;
          ordinary := ordinary s; reservations := reservations s;
          records := <[rid := mkBacking (users r + 1) (backing_control r) (backing_lease r)]> (records s);
          backings := backings s; handles := handles s ++ [mkHandle buffer rid true] |})
  | None => None
  end.

(** [retainBacking] of a view on array buffer [buffer] of [byteLength] bytes. *)

Definition retainBacking (buffer : nat) (byteLength : Z) (ctl : bool) (s : t) : option (nat * t) :=
  match backings s !! buffer with
  | Some rid => add_user buffer rid ctl s
  | None =>
     match reserve (byteLength + 256) ctl s with
     | None => None
     | Some (lease, s1) =>
        let rid := length (records s1) in
        add_user buffer rid ctl
          {| limit := limit s1; controlReserve := controlReserve s1; total := total s1;
             ordinary := ordinary s1; reservations := reservations s1;
             records := records s1 ++ [mkBacking 0 ctl lease];
             backings := <[buffer := rid]> (backings s1); handles := handles s1 |}
     end
  end.

Definition releaseBacking (hid : nat) (s : t) : t :=
  match handles s !! hid with
  | Some h =>
     if negb (handle_owned h) then s
     else match records s !! handle_record h with
          | None => s
          | Some r =>
             let n := users r - 1 in
             let s1 :=
               {| limit := limit s; controlReserve := controlReserve s; total := total s;
                  ordinary := ordinary s; reservations := reservations s;
                  records := <[handle_record h :=
                                 mkBacking n (backing_control r) (backing_lease r)]> (records s);
                  backings := if n =? 0 then delete (handle_buffer h) (backings s) else backings s;
                  handles := <[hid := mkHandle (handle_buffer h) (handle_record h) false]> (handles s) |} in
             if n =? 0 then release (backing_lease r) s1 else s1
          end
  | None => s
  end.

Record Snapshot := mkSnapshot {
  snap_total : Z; snap_ordinary : Z; snap_limit : Z; snap_controlReserve : Z }.

Definition snapshot (s : t) : Snapshot := mkSnapshot (total s) (ordinary s) (limit s) (controlReserve s).

(** *** Invariant *)

Definition live_bytes (r : Reservation) : Z := if owned r then bytes r else 0.

Definition live_ordinary (r : Reservation) : Z :=
  if owned r && negb (is_control r) then bytes r else 0.

Record ok (s : t) : Prop := mk_ok {
  ok_total : total s = lsum live_bytes (reservations s);
  ok_ordinary : ordinary s = lsum live_ordinary (reservations s);
  ok_nonneg : Forall (fun r => 0 <= bytes r) (reservations s);
  ok_limits : 0 <= controlReserve s <= limit s;
  ok_total_bound : total s <= limit s;
  ok_ordinary_bound : ordinary s <= limit s - controlReserve s;
}.

Lemma runtime_make_ok lim ctl s : make lim ctl = inr s -> ok s.
Proof. unfold make. case_if; intros [= <-]. constructor; cbn; rewrite ?lsum_nil; auto; lia. Qed.

Lemma runtime_reserve_ok n c s id s' : ok s -> reserve n c s = Some (id, s') -> ok s'.
Proof.
  unfold reserve. intros [Ht Ho Hn Hl Hb Hob]. case_if; intros [= <- <-].
  constructor; cbn; rewrite ?lsum_app, ?lsum_cons, ?lsum_nil; unfold live_bytes, live_ordinary;
    cbn; fold live_bytes live_ordinary; try (destruct c; cbn in *; lia).
  apply Forall_app; split; [done |]. constructor; [cbn; lia | constructor].
Qed.

Lemma runtime_release_ok id s : ok s -> ok (release id s).
Proof.
  unfold release. intros [Ht Ho Hn Hl Hb Hob].
  destruct (reservations s !! id) as [r|] eqn:E; [| by constructor].
  destruct (owned r) eqn:R; cbn; [| by constructor].
  assert (0 <= bytes r) by (eapply Forall_lookup_1 in Hn; eauto).
  constructor; cbn; rewrite ?(lsum_alter _ _ _ _ _ E); unfold live_bytes at 2 3 || idtac;
    unfold live_ordinary at 2 3 || idtac; cbn; rewrite ?R; cbn;
    try (destruct (is_control r); cbn; lia); try lia.
  apply Forall_insert; done.
Qed.

(** *** Shared backings *)

Definition uses (rid : nat) (h : Handle) : Z :=
  if handle_owned h && bool_decide (handle_record h = rid) then 1 else 0.

Record backed (s : t) : Prop := mk_backed {
  backed_record : forall b rid, backings s !! b = Some rid -> exists r res,
    records s !! rid = Some r /\ 1 <= users r /\ users r = lsum (uses rid) (handles s)
    /\ reservations s !! backing_lease r = Some res /\ owned res = true;
  backed_handle : forall hid h, handles s !! hid = Some h -> handle_owned h = true ->
    backings s !! handle_buffer h = Some (handle_record h);
  backed_inj : forall b b' rid, backings s !! b = Some rid -> backings s !! b' = Some rid -> b = b';
  backed_bound : forall hid h, handles s !! hid = Some h -> (handle_record h < length (records s))%nat;
  backed_lease_inj : forall i j r r', records s !! i = Some r -> records s !! j = Some r' ->
    backing_lease r = backing_lease r' -> i = j;
  backed_lease_bound : forall i r, records s !! i = Some r ->
    (backing_lease r < length (reservations s))%nat;
}.

Lemma uses_nonneg rid h : 0 <= uses rid h.
Proof. unfold uses. case_if; lia. Qed.

Lemma uses_released k b rid : uses k (mkHandle b rid false) = 0.
Proof. reflexivity. Qed.

Lemma uses_owned k h :
  handle_owned h = true -> uses k h = if decide (handle_record h = k) then 1 else 0.
Proof. intros Ho. unfold uses. rewrite Ho; cbn. by case_decide; case_bool_decide. Qed.

Lemma uses_fresh rid (hs : list Handle) :
  (forall hid h, hs !! hid = Some h -> handle_record h <> rid) -> lsum (uses rid) hs = 0.
Proof.
  intros Hne. rewrite (lsum_ext _ (fun _ => 0)).
  - clear. induction hs; [done |]. rewrite lsum_cons. lia.
  - intros h Hh. apply list_elem_of_lookup in Hh as [i Hi]. unfold uses.
    rewrite bool_decide_false by eauto. by rewrite andb_false_r.
Qed.

Lemma add_user_frame b rid c s h s' : add_user b rid c s = Some (h, s') ->
  total s' = total s /\ ordinary s' = ordinary s /\ reservations s' = reservations s
  /\ limit s' = limit s /\ controlReserve s' = controlReserve s.
Proof. unfold add_user. destruct (records s !! rid); [case_if|]; intros [=]; by subst. Qed.

Lemma add_user_ok b rid c s h s' : ok s -> add_user b rid c s = Some (h, s') -> ok s'.
Proof.
  intros [] E. destruct (add_user_frame _ _ _ _ _ _ E) as (? & ? & Hr & ? & ?).
  constructor; rewrite ?Hr; try lia. done.
Qed.

Lemma retainBacking_ok b n c s h s' : ok s -> retainBacking b n c s = Some (h, s') -> ok s'.
Proof.
  unfold retainBacking. intros Hs. destruct (backings s !! b); [by eauto using add_user_ok |].
  destruct (reserve _ c s) as [[lease s1]|] eqn:E; [| done].
  intros E2. eapply add_user_ok; [| exact E2].
  apply runtime_reserve_ok in E; [| done]. destruct E; by constructor.
Qed.

Lemma releaseBacking_ok hid s : ok s -> ok (releaseBacking hid s).
Proof.
  intros Hs. unfold releaseBacking.
  destruct (handles s !! hid) as [h|]; [| done].
  destruct (handle_owned h); cbn; [| done].
  destruct (records s !! handle_record h) as [r|]; [| done].
  assert (Hx : forall rs bs hs, ok (mk (limit s) (controlReserve s) (total s) (ordinary s)
                                    (reservations s) rs bs hs)) by (destruct Hs; by constructor).
  case_if; [apply runtime_release_ok |]; apply Hx.
Qed.

(** A step on a plain reservation keeps the backings, as long as the lease it
    releases is not one a backing record owns. *)

Lemma backed_reserve n c s id s' : backed s -> reserve n c s = Some (id, s') -> backed s'.
Proof.
  unfold reserve. intros [H1 H2 H3 H4 H5 H6]. case_if; intros [= <- <-].
  constructor; cbn; try done.
  - intros b rid Hb. destruct (H1 b rid Hb) as (r & res & ? & ? & ? & Hl & ?).
    exists r, res. split_ands; try done. rewrite lookup_app_l; [done |].
    by apply lookup_lt_Some in Hl.
  - intros i r Hi. rewrite length_app. specialize (H6 i r Hi). lia.
Qed.

Lemma backed_release id s : backed s ->
  (forall i r, records s !! i = Some r -> backing_lease r <> id) -> backed (release id s).
Proof.
  unfold release. intros HB Hne. destruct (reservations s !! id) as [x|] eqn:E; [| done].
  destruct (owned x); cbn; [| done]. destruct HB as [H1 H2 H3 H4 H5 H6].
  constructor; cbn; try done.
  - intros b rid Hb. destruct (H1 b rid Hb) as (r & res & Hr & ? & ? & Hl & ?).
    exists r, res. split_ands; try done. rewrite list_lookup_insert_ne; [done |].
    intros Heq. by apply (Hne rid r Hr).
  - intros i r Hi. rewrite length_insert. eauto.
Qed.

Lemma backed_add_user b rid c s h s' : backed s -> backings s !! b = Some rid ->
  add_user b rid c s = Some (h, s') -> backed s'.
Proof.
  unfold add_user. intros [H1 H2 H3 H4 H5 H6] Hb.
  destruct (records s !! rid) as [r|] eqn:Er; [| done]. case_if; intros [= <- <-].
  constructor; cbn.
  - intros b' rid' Hb'. destruct (H1 b' rid' Hb') as (r' & res & Hr' & ? & Hu & Hl & ?).
    rewrite lsum_app, lsum_cons, lsum_nil. unfold uses at 2; cbn [handle_owned handle_record andb].
    destruct (decide (rid' = rid)) as [->|Hne].
    + rewrite Er in Hr'. injection Hr' as <-. eexists _, res.
      rewrite list_lookup_insert_eq by (by apply lookup_lt_Some in Er).
      split; [done |]. cbn. rewrite bool_decide_true by done. split_ands; [lia | lia | done..].
    + exists r', res. rewrite list_lookup_insert_ne by done.
      rewrite bool_decide_false by done. split_ands; [done | lia | lia | done..].
  - intros hid h. destruct (lt_eq_lt_dec hid (length (handles s))) as [[?| ->]|?].
    + rewrite lookup_app_l by done. eauto.
    + rewrite lookup_app_r, Nat.sub_diag by done. intros [= <-] _. done.
    + rewrite lookup_ge_None_2; [done |]. rewrite length_app; cbn; lia.
  - done.
  - intros hid h Hh. rewrite length_insert. apply lookup_app_Some in Hh as [Hh|[_ Hh]]; [eauto |].
    apply list_lookup_singleton_Some in Hh as [_ <-]. by apply lookup_lt_Some in Er.
  - intros i j x y. rewrite !list_lookup_insert_Some.
    intros [(<- & <- & _)|[? Hi]] [(<- & <- & _)|[? Hj]] Hxy; cbn in Hxy; eauto.
  - intros i x. rewrite list_lookup_insert_Some. intros [(<- & <- & _)|[? Hi]]; cbn; eauto.
Qed.

(** A record of its own for a buffer the account has not seen yet. *)

Lemma backed_retain_new b n c s lease s1 : backed s -> backings s !! b = None ->
  reserve n c s = Some (lease, s1) ->
  forall h s', add_user b (length (records s1)) c
    (mk (limit s1) (controlReserve s1) (total s1) (ordinary s1) (reservations s1)
        (records s1 ++ [mkBacking 0 c lease]) (<[b := length (records s1)]> (backings s1))
        (handles s1)) = Some (h, s') -> backed s'.
Proof.
  intros HB Hnone E h s'. pose proof (backed_reserve _ _ _ _ _ HB E) as HB1.
  unfold reserve in E. case_if; invert E. cbn [records backings reservations handles] in *.
  destruct HB1 as [H1 H2 H3 H4 H5 H6]. unfold add_user; cbn.
  rewrite lookup_app_r, Nat.sub_diag by done. cbn. case_if; intros [= <- <-].
  assert (Hlt : forall b' rid, backings s !! b' = Some rid -> (rid < length (records s))%nat).
  { intros b' rid Hb'. destruct (H1 b' rid Hb') as (r & _ & Hr & _). by apply lookup_lt_Some in Hr. }
  constructor; cbn in *; rewrite ?insert_app_r_alt, ?Nat.sub_diag by done; cbn.
  - intros b' rid. rewrite lookup_insert_Some. intros [[<- <-]|[Hne Hb']].
    + eexists _, _. rewrite lookup_app_r, Nat.sub_diag by done. split; [done |]. cbn.
      rewrite lsum_app, lsum_cons, lsum_nil, uses_fresh.
      * unfold uses; cbn. rewrite bool_decide_true by done.
        rewrite lookup_app_r, Nat.sub_diag by done. split_ands; done.
      * intros hid h Hh Heq. specialize (H4 hid h Hh). lia.
    + destruct (H1 b' rid Hb') as (r & res & Hr & ? & Hu & Hl & ?).
      exists r, res. rewrite lookup_app_l by eauto.
      rewrite lsum_app, lsum_cons, lsum_nil. unfold uses at 2; cbn.
      specialize (Hlt b' rid Hb'). rewrite bool_decide_false by lia. split_ands; try done; lia.
  - intros hid h Hh Ho. apply lookup_app_Some in Hh as [Hh|[_ Hh]].
    + specialize (H2 hid h Hh Ho). rewrite lookup_insert_ne; [done |]. intros ->. congruence.
    + apply list_lookup_singleton_Some in Hh as [_ <-]. cbn. by rewrite lookup_insert_eq.
  - intros b1 b2 rid. rewrite !lookup_insert_Some.
    intros [[<- <-]|[? Hb1]] [[<- ?]|[? Hb2]]; eauto.
    + specialize (Hlt _ _ Hb2). lia.
    + specialize (Hlt _ _ Hb1). lia.
  - intros hid h Hh. rewrite length_app; cbn. apply lookup_app_Some in Hh as [Hh|[_ Hh]].
    + specialize (H4 hid h Hh). lia.
    + apply list_lookup_singleton_Some in Hh as [_ <-]. cbn. lia.
  - intros i j x y Hi Hj Hxy.
    apply lookup_app_Some in Hi as [Hi|[? Hi]]; apply lookup_app_Some in Hj as [Hj|[? Hj]]; eauto.
    + apply list_lookup_singleton_Some in Hj as [_ <-]. cbn in Hxy.
      destruct HB as [_ _ _ _ _ HB6]. specialize (HB6 i x Hi). lia.
    + apply list_lookup_singleton_Some in Hi as [_ <-]. cbn in Hxy.
      destruct HB as [_ _ _ _ _ HB6]. specialize (HB6 j y Hj). lia.
    + apply list_lookup_singleton_Some in Hi as [? _].
      apply list_lookup_singleton_Some in Hj as [? _]. lia.
  - intros i x Hi. apply lookup_app_Some in Hi as [Hi|[? Hi]]; [eauto |].
    apply list_lookup_singleton_Some in Hi as [_ <-]. cbn. rewrite length_app. cbn. lia.
Qed.

Lemma backed_retain b n c s h s' : backed s -> retainBacking b n c s = Some (h, s') -> backed s'.
Proof.
  unfold retainBacking. intros HB. destruct (backings s !! b) eqn:Hb.
  - by apply backed_add_user.
  - destruct (reserve _ c s) as [[lease s1]|] eqn:E; [| done].
    by apply (backed_retain_new b (n + 256) c s lease s1).
Qed.

Lemma uses_zero rid (hs : list Handle) hid h : lsum (uses rid) hs = 0 ->
  hs !! hid = Some h -> handle_owned h = true -> handle_record h <> rid.
Proof.
  revert hid. induction hs as [|x hs IH]; intros hid Hz Hh Ho; [done |].
  rewrite lsum_cons in Hz. pose proof (uses_nonneg rid x).
  pose proof (lsum_nonneg (uses rid) hs ltac:(intros; apply uses_nonneg)).
  destruct hid as [|hid]; cbn in Hh.
  - injection Hh as ->. intros <-. rewrite uses_owned, decide_True in Hz by done. lia.
  - eapply IH; eauto; lia.
Qed.

(** Dropping the last user: the record leaves the map and its lease is given back. *)

Lemma backed_drop_last b rid s r hs : backed s -> backings s !! b = Some rid ->
  records s !! rid = Some r -> lsum (uses rid) hs = 0 ->
  (forall hid h, hs !! hid = Some h -> exists h', handles s !! hid = Some h'
     /\ handle_record h = handle_record h' /\ handle_buffer h = handle_buffer h'
     /\ (handle_owned h = true -> handle_owned h' = true)) ->
  (forall k, k <> rid -> lsum (uses k) hs = lsum (uses k) (handles s)) ->
  backed (release (backing_lease r)
    (mk (limit s) (controlReserve s) (total s) (ordinary s) (reservations s)
        (<[rid := mkBacking 0 (backing_control r) (backing_lease r)]> (records s))
        (delete b (backings s)) hs)).
Proof.
  intros [H1 H2 H3 H4 H5 H6] Hb Hr Hz Hhs Hsum.
  destruct (H1 b rid Hb) as (r' & res & Hr' & _ & _ & Hl & Ho).
  rewrite Hr in Hr'. injection Hr' as <-. unfold release; cbn. rewrite Hl, Ho; cbn.
  constructor; cbn.
  - intros b' rid'. rewrite lookup_delete_Some. intros [Hne Hb'].
    assert (rid' <> rid) by (intros ->; eauto).
    destruct (H1 b' rid' Hb') as (x & resx & Hx & ? & Hu & Hlx & ?). exists x, resx.
    rewrite list_lookup_insert_ne, Hsum by done. split_ands; try done.
    rewrite list_lookup_insert_ne; [done |]. intros Heq. eauto.
  - intros hid h Hh Ho'. pose proof (uses_zero rid hs hid h Hz Hh Ho') as Hne.
    destruct (Hhs hid h Hh) as (h' & Hh' & Hrec & Hbuf & Howned).
    specialize (H2 hid h' Hh' (Howned Ho')). rewrite <- Hrec, <- Hbuf in H2.
    rewrite lookup_delete_ne; [done |]. intros ->. congruence.
  - intros b1 b2 k. rewrite !lookup_delete_Some. intros [_ ?] [_ ?]. eauto.
  - intros hid h Hh. rewrite length_insert. destruct (Hhs hid h Hh) as (h' & ? & -> & _). eauto.
  - intros i j x y. rewrite !list_lookup_insert_Some.
    intros [(<- & <- & _)|[? Hi]] [(<- & <- & _)|[? Hj]] Hxy; cbn in Hxy; eauto.
  - intros i x. rewrite length_insert, list_lookup_insert_Some.
    intros [(<- & <- & _)|[? Hi]]; cbn; eauto.
Qed.

Lemma backed_drop_one hid h r s : backed s -> handles s !! hid = Some h -> handle_owned h = true ->
  records s !! handle_record h = Some r -> users r - 1 <> 0 ->
  backed (mk (limit s) (controlReserve s) (total s) (ordinary s) (reservations s)
    (<[handle_record h := mkBacking (users r - 1) (backing_control r) (backing_lease r)]> (records s))
    (backings s) (<[hid := mkHandle (handle_buffer h) (handle_record h) false]> (handles s))).
Proof.
  intros [H1 H2 H3 H4 H5 H6] Hh Ho Hr Hn.
  assert (Hlast : forall k, lsum (uses k) (<[hid := mkHandle (handle_buffer h) (handle_record h) false]>
                      (handles s)) = lsum (uses k) (handles s) - uses k h).
  { intros k. rewrite (lsum_alter _ _ _ _ _ Hh), uses_released. lia. }
  constructor; cbn.
  - intros b rid Hb. destruct (H1 b rid Hb) as (x & res & Hx & ? & Hu & ? & ?).
    rewrite Hlast, uses_owned by done.
    destruct (decide (rid = handle_record h)) as [->|Hne].
    + rewrite Hr in Hx. injection Hx as <-. eexists _, res.
      rewrite list_lookup_insert_eq by (by apply lookup_lt_Some in Hr).
      split; [done |]. cbn. rewrite decide_True by done. split_ands; try done; lia.
    + exists x, res. rewrite list_lookup_insert_ne, decide_False by done.
      split_ands; try done; lia.
  - intros i k. rewrite list_lookup_insert_Some. intros [(<- & <- & _)|[? ?]]; cbn; [done |]. eauto.
  - done.
  - intros i k. rewrite length_insert, list_lookup_insert_Some.
    intros [(<- & <- & _)|[? ?]]; cbn; eauto.
  - intros i j x y. rewrite !list_lookup_insert_Some.
    intros [(<- & <- & _)|[? Hi]] [(<- & <- & _)|[? Hj]] Hxy; cbn in Hxy; eauto.
  - intros i x. rewrite list_lookup_insert_Some. intros [(<- & <- & _)|[? Hi]]; cbn; eauto.
Qed.

Lemma backed_releaseBacking hid s : backed s -> backed (releaseBacking hid s).
Proof.
  intros HB. unfold releaseBacking.
  destruct (handles s !! hid) as [h|] eqn:Hh; [| done].
  destruct (handle_owned h) eqn:Ho; cbn [negb]; [| done].
  destruct (records s !! handle_record h) as [r|] eqn:Hr; [| done].
  destruct (users r - 1 =? 0) eqn:Hn; [| apply backed_drop_one; try done; lia].
  pose proof (backed_handle s HB hid h Hh Ho) as Hb.
  destruct (backed_record s HB _ _ Hb) as (r' & res & Hr' & _ & Hu & _).
  rewrite Hr in Hr'. injection Hr' as <-. replace (users r - 1) with 0 by lia.
  apply backed_drop_last; try done.
  - rewrite (lsum_alter _ _ _ _ _ Hh), uses_released, uses_owned, decide_True by done. lia.
  - intros i k. rewrite list_lookup_insert_Some. intros [(<- & <- & _)|[? ?]]; cbn; eauto.
  - intros k Hk. rewrite (lsum_alter _ _ _ _ _ Hh), uses_released, uses_owned, decide_False by done.
    lia.
Qed.

(** *** Reachable states *)

Definition private_lease (s : t) (id : nat) : Prop :=
  exists i r, records s !! i = Some r /\ backing_lease r = id.

Inductive step : t -> t -> Prop :=
  | step_reserve n c s id s' : reserve n c s = Some (id, s') -> step s s'
  | step_release id s : ~ private_lease s id -> step s (release id s)
  | step_retain b n c s h s' : retainBacking b n c s = Some (h, s') -> step s s'
  | step_releaseBacking h s : step s (releaseBacking h s).

Inductive reachable (lim ctl : Z) : t -> Prop :=
  | reachable_intro s0 s : make lim ctl = inr s0 -> rtc step s0 s -> reachable lim ctl s.

Lemma runtime_step_ok s s' : ok s /\ backed s -> step s s' -> ok s' /\ backed s'.
Proof.
  intros [Hs HB] Hst. revert Hs HB. destruct Hst as [| id s Hp | |].
  - eauto using runtime_reserve_ok, backed_reserve.
  - intros; split; [by apply runtime_release_ok |]. apply backed_release; [done |].
    intros i r Hi Hl. apply Hp. by exists i, r.
  - eauto using retainBacking_ok, backed_retain.
  - eauto using releaseBacking_ok, backed_releaseBacking.
Qed.

Lemma runtime_reachable_ok lim ctl s : reachable lim ctl s -> ok s /\ backed s.
Proof.
  intros [s0 s' Hm Hst].
  apply (rtc_invariant step (fun x => ok x /\ backed x) s0 s'); [| apply runtime_step_ok | exact Hst].
  split; [by eapply runtime_make_ok |]. unfold make in Hm. case_if; invert Hm.
  constructor; cbn; intros; try done; by rewrite ?lookup_empty in *.
Qed.

(** *** The account as an instance of the interface *)

Definition charge_of (s : t) (id : nat) : option Z :=
  match reservations s !! id with
  | Some r => if owned r then Some (bytes r) else None
  | None => None
  end.

#[global, refine] Instance account (ctl : bool) : LeaseAccount t := {|
  la_reserve n s := reserve n ctl s; la_release := release; la_charge := charge_of;
  la_used := total; la_ok := ok
|}.
Proof.
  - intros n s l s' Hs E. pose proof (runtime_reserve_ok n ctl s l s' Hs E) as Hok.
    unfold reserve in E. case_if; invert E. unfold charge_of; cbn. split_ands; auto.
    + by rewrite lookup_ge_None_2 by done.
    + by rewrite lookup_app_r, Nat.sub_diag by done.
    + intros l' Hl'. destruct (decide (l' < length (reservations s))%nat).
      * by rewrite lookup_app_l by done.
      * rewrite !lookup_ge_None_2; [done | | rewrite length_app; cbn]; lia.
  - intros l n s Hs E. pose proof (runtime_release_ok l s Hs) as Hok.
    unfold charge_of in E. unfold release in *.
    destruct (reservations s !! l) as [x|] eqn:Hl; [| done].
    destruct (owned x) eqn:R; cbn in *; [| done]. injection E as <-. unfold charge_of; cbn. split_ands; auto.
    + rewrite list_lookup_insert_eq; [done |]. by apply lookup_lt_Some in Hl.
    + intros l' Hne. by rewrite list_lookup_insert_ne by done.
  - intros l s E. unfold charge_of in E. unfold release.
    destruct (reservations s !! l) as [x|]; [| done]. by destruct (owned x).
Defined.

(** *** Properties *)

(** The runtime never exceeds its byte limit, ordinary work never eats into
    the control reserve, and therefore a control reservation that fits in the
    unused part of the reserve always succeeds, whatever ordinary work holds. *)
Theorem runtime_control_reserve_guaranteed (lim ctl : Z) (s : t) (n : Z) :
  reachable lim ctl s -> 0 <= n <= controlReserve s - (total s - ordinary s) ->
  total s <= limit s /\ ordinary s <= limit s - controlReserve s
  /\ (isSafeInteger n = true -> exists id s', reserve n true s = Some (id, s')
        /\ total s' = total s + n /\ ordinary s' = ordinary s).
Proof.
  intros Hr Hn. destruct (runtime_reachable_ok _ _ _ Hr) as [[Ht Ho Hp Hl Hb Hob] _].
  split_ands; [done | done |]. intros Hs. unfold reserve. rewrite Hs; cbn.
  case_if; [lia |]. eauto.
Qed.

Lemma runtime_control_reserve_guaranteed_witness :
  exists s, reachable 1000 100 s /\ ordinary s = 900
  /\ exists id s', reserve 100 true s = Some (id, s') /\ total s' = total s + 100 /\ ordinary s' = ordinary s.
Proof.
  eexists. match goal with |- reachable _ _ ?x /\ _ => assert (Hr : reachable 1000 100 x) end.
  { eapply reachable_intro; [reflexivity |].
    eapply rtc_l; [eapply (step_reserve 900 false); vm_compute; reflexivity |]. apply rtc_refl. }
  split; [exact Hr |]. split; [reflexivity |].
  apply (runtime_control_reserve_guaranteed 1000 100 _ 100 Hr); [vm_compute; split; discriminate |].
  reflexivity.
Defined.

(** A shared buffer is charged once.  In every reachable state a buffer has
    a record exactly while it has users, the record counts them, and its lease
    is live; retaining a buffer that is already held charges nothing, and the
    release that matches a retain restores the totals and the map. *)
Theorem runtime_backing_shared (lim ctl : Z) (s : t) (b : nat) (n : Z) (c : bool) (h : nat) (s' : t) :
  reachable lim ctl s -> retainBacking b n c s = Some (h, s') ->
  (forall rid, backings s' !! b = Some rid -> exists r res, records s' !! rid = Some r
     /\ users r = lsum (uses rid) (handles s') /\ 1 <= users r
     /\ reservations s' !! backing_lease r = Some res /\ owned res = true)
  /\ total s' = total s + (if decide (is_Some (backings s !! b)) then 0 else n + 256)
  /\ total (releaseBacking h s') = total s /\ ordinary (releaseBacking h s') = ordinary s
  /\ backings (releaseBacking h s') = backings s.
Proof.
  intros Hr E. destruct (runtime_reachable_ok _ _ _ Hr) as [Hs HB]. split.
  { intros rid Hb. destruct (backed_record _ (backed_retain _ _ _ _ _ _ HB E) b rid Hb)
      as (r & res & ? & ? & ? & ? & ?). eauto 10. }
  unfold retainBacking in E. destruct (backings s !! b) as [rid|] eqn:Hb.
  - destruct (backed_record s HB b rid Hb) as (r & res & Hrec & Hu & _).
    rewrite decide_True by eauto.
    unfold add_user in E. rewrite Hrec in E. case_if; invert E. cbn.
    unfold releaseBacking; cbn. rewrite lookup_app_r, Nat.sub_diag by done. cbn.
    rewrite list_lookup_insert_eq by (by apply lookup_lt_Some in Hrec). cbn.
    case_if; [lia |]. cbn. split_ands; auto; lia.
  - rewrite decide_False by (intros [? ?]; done).
    destruct (reserve (n + 256) c s) as [[lease s1]|] eqn:E1; [| done].
    unfold reserve in E1. case_if; invert E1.
    unfold add_user in E; cbn in E. rewrite lookup_app_r, Nat.sub_diag in E by done. cbn in E.
    case_if; invert E. cbn. unfold releaseBacking; cbn.
    rewrite lookup_app_r, Nat.sub_diag by done. cbn.
    rewrite insert_app_r_alt, Nat.sub_diag by done. cbn.
    rewrite lookup_app_r, Nat.sub_diag by done. cbn.
    change (0 + 1 - 1) with 0. cbn. unfold release; cbn.
    rewrite lookup_app_r, Nat.sub_diag by done. cbn. split_ands; [lia | lia | destruct c; lia |].
    rewrite delete_insert_eq. by apply delete_id.
Qed.

Lemma runtime_backing_shared_witness :
  exists s h s', reachable 1000 100 s /\ retainBacking 7 44 false s = Some (h, s')
  /\ total s = 300 /\ total s' = 300 /\ total (releaseBacking h s') = 300.
Proof.
  eexists _, _, _.
  match goal with |- reachable _ _ ?x /\ _ => assert (Hr : reachable 1000 100 x) end.
  { eapply reachable_intro; [reflexivity |].
    eapply rtc_l; [eapply (step_retain 7 44 false); vm_compute; reflexivity |]. apply rtc_refl. }
  match goal with |- _ /\ ?E /\ _ => assert (He : E) by (vm_compute; reflexivity) end.
  split; [exact Hr |]. split; [exact He |]. split; [reflexivity |]. split; [reflexivity |].
  apply (runtime_backing_shared 1000 100 _ 7%nat 44 false _ _ Hr He).
Defined.

(** A fresh account of one million bytes, for the concrete runs of its clients. *)

Definition demo_runtime : t :=
  {| limit := 1000000; controlReserve := 1000; total := 0; ordinary := 0;
     reservations := []; records := []; backings := ∅; handles := [] |}.

Lemma demo_runtime_ok : ok demo_runtime.
Proof. apply (runtime_make_ok 1000000 1000). reflexivity. Qed.

End RuntimeRetainedBytes.
