(* ===== verification/RuntimeOwnership.v ===== *)
(** * What one owner holds in the runtime's account

    [owns fl fh leases handles s]: in the runtime's account [s] the given plain
    leases (each with its bytes) and the given backing handles are live and
    distinct, and besides them there are exactly [fl] live plain leases and
    [fh] live handles of other owners.  A plain lease is one that no backing
    record holds.  The lemmas say how each operation of the account moves
    ownership; they are what the preview cache and its transfers rely on. *)

From S2P Require Import Prelude LeaseAccount Retained.
Import RuntimeRetainedBytes.

Definition live_leases (s : t) : Z := lsum (fun r => if owned r then 1 else 0) (reservations s).

Definition plain_leases (s : t) : Z := live_leases s - Z.of_nat (size (backings s)).

Definition live_handles (s : t) : Z := lsum (fun h => if handle_owned h then 1 else 0) (handles s).

Definition plain_lease (s : t) (x : nat * Z) : Prop :=
  (exists r, reservations s !! x.1 = Some r /\ owned r = true /\ bytes r = x.2) /\ ~ private_lease s x.1.

Definition live_handle (s : t) (h : nat) : Prop := exists x, handles s !! h = Some x /\ handle_owned x = true.

Record holds (fl fh : Z) (ls : list (nat * Z)) (hs : list nat) (s : t) : Prop := mk_holds {
  w_leases : Forall (plain_lease s) ls;
  w_handles : Forall (live_handle s) hs;
  w_nodup_leases : NoDup ls.*1;
  w_nodup_handles : NoDup hs;
  w_plain : plain_leases s = fl + zlen ls;
  w_live : live_handles s = fh + zlen hs;
}.

Record owns (fl fh : Z) (ls : list (nat * Z)) (hs : list nat) (s : t) : Prop := mk_owns {
  w_ok : ok s;
  w_backed : backed s;
  w_holds : holds fl fh ls hs s;
}.

#[export] Instance owns_proper fl fh : Proper ((≡ₚ) ==> (≡ₚ) ==> eq ==> iff) (owns fl fh).
Proof.
  assert (Himp : forall ls ls' hs hs' s, ls ≡ₚ ls' -> hs ≡ₚ hs' -> owns fl fh ls hs s -> owns fl fh ls' hs' s).
  { intros ls ls' hs hs' s Hl Hh [H1 H2 [H3 H4 H5 H6 H7 H8]]. constructor; [done | done |]; constructor; try done; by rewrite <- ?Hl, <- ?Hh. }
  intros ls ls' Hl hs hs' Hh s ? <-. split; apply Himp; done.
Qed.

(** Taking over a live handle, and giving one away. *)

Lemma owns_take fl fh ls hs s h : owns fl fh ls hs s -> live_handle s h -> h ∉ hs -> owns fl (fh - 1) ls (h :: hs) s.
Proof.
  intros [H1 H2 [H3 H4 H5 H6 H7 H8]] Hh Hn. constructor; [done | done |]. constructor; try done.
  - by constructor.
  - by constructor.
  - rewrite zlen_cons. lia.
Qed.

Lemma owns_give fl fh ls hs s h : owns fl fh ls (h :: hs) s -> owns fl (fh + 1) ls hs s /\ live_handle s h /\ h ∉ hs.
Proof.
  intros [H1 H2 [H3 H4 H5 H6 H7 H8]]. apply Forall_cons in H4 as [Hh H4]. apply NoDup_cons in H6 as [Hn H6].
  split; [| done]. constructor; [done | done |]. constructor; try done. rewrite zlen_cons in H8. lia.
Qed.

(** ** Plain leases *)

Lemma reserve_shape n c s l s' : reserve n c s = Some (l, s') ->
  l = length (reservations s) /\ reservations s' = reservations s ++ [mkReservation n c true]
  /\ records s' = records s /\ backings s' = backings s /\ handles s' = handles s.
Proof. unfold reserve. case_if; intros [= <- <-]. done. Qed.

Lemma plain_reserve n c s l s' k : reserve n c s = Some (l, s') -> plain_lease s k -> plain_lease s' k.
Proof.
  intros (-> & R1 & R2 & _)%reserve_shape [(r & Hr & Ho) Hp]. split.
  - exists r. rewrite R1, lookup_app_l; [done |]. by apply lookup_lt_Some in Hr.
  - intros (i & x & Hx & Hl). apply Hp. exists i, x. by rewrite <- R2.
Qed.

Lemma plain_fresh s x : plain_lease s x -> (x.1 < length (reservations s))%nat.
Proof. intros [(r & Hr & _) _]. by apply lookup_lt_Some in Hr. Qed.

Lemma owns_reserve fl fh ls hs n c s l s' : owns fl fh ls hs s -> reserve n c s = Some (l, s') ->
  owns fl fh ((l, n) :: ls) hs s'.
Proof.
  intros [H1 H2 [H3 H4 H5 H6 H7 H8]] E. pose proof (reserve_shape _ _ _ _ _ E) as (El & R1 & R2 & R3 & R4).
  constructor; [by eapply runtime_reserve_ok | by eapply backed_reserve |]. constructor.
  - constructor.
    + split.
      * exists (mkReservation n c true). cbn. by rewrite R1, lookup_app_r, El, Nat.sub_diag by lia.
      * intros (i & x & Hx & Hl). rewrite R2 in Hx. pose proof (backed_lease_bound _ H2 i x Hx). cbn in Hl. lia.
    + eapply Forall_impl; [exact H3 |]. intros k. by apply (plain_reserve n c s l).
  - unfold live_handle. by rewrite R4.
  - cbn. constructor; [| done]. intros Hin. apply list_elem_of_fmap in Hin as (x & Hx & Hin). rewrite Forall_forall in H3.
    apply H3, plain_fresh in Hin. rewrite <- Hx in Hin. lia.
  - done.
  - unfold plain_leases, live_leases in *. rewrite R1, R3, lsum_app, lsum_cons, lsum_nil, zlen_cons. cbn [owned]. lia.
  - unfold live_handles in *. by rewrite R4.
Qed.

Lemma owns_release fl fh ls hs s l n : owns fl fh ((l, n) :: ls) hs s -> owns fl fh ls hs (release l s).
Proof.
  intros [H1 H2 [H3 H4 H5 H6 H7 H8]]. apply Forall_cons in H3 as [[(r & Hr & Ho & Hb) Hp] H3].
  cbn in *. apply NoDup_cons in H5 as [Hn H5].
  pose proof (runtime_release_ok l s H1) as Hok.
  assert (Hback : backed (release l s)). { apply backed_release; [done |]. intros i x Hx Hl. apply Hp. by exists i, x. }
  unfold release in *. rewrite Hr, Ho in *. cbn [negb] in *. constructor; [done | done |]. constructor; try done.
  - apply Forall_forall. intros k Hk. rewrite Forall_forall in H3. destruct (H3 k Hk) as [(x & Hx & Hxo) Hxp].
    split; [| done]. exists x. cbn. rewrite list_lookup_insert_ne; [done |]. intros ->. apply Hn. apply list_elem_of_fmap. by exists k.
  - unfold plain_leases, live_leases in *. cbn [reservations backings]. rewrite (lsum_alter _ _ _ _ _ Hr), Ho. cbn [owned].
    rewrite zlen_cons in H7. lia.
Qed.

(** ** Backing handles *)

Lemma add_user_shape b rid c s h s' : add_user b rid c s = Some (h, s') -> exists r,
  records s !! rid = Some r /\ h = length (handles s) /\ handles s' = handles s ++ [mkHandle b rid true]
  /\ records s' = <[rid := mkBacking (users r + 1) (backing_control r) (backing_lease r)]> (records s)
  /\ reservations s' = reservations s /\ backings s' = backings s.
Proof. unfold add_user. destruct (records s !! rid) as [r|]; [case_if|]; intros [= <- <-]. by exists r. Qed.

Lemma insert_private s rid r s' : records s !! rid = Some r ->
  records s' = <[rid := mkBacking (users r + 1) (backing_control r) (backing_lease r)]> (records s) ->
  forall l, private_lease s' l -> private_lease s l.
Proof.
  intros Hr Hs l (i & x & Hx & Hl). rewrite Hs in Hx. apply list_lookup_insert_Some in Hx as [(<- & <- & _)|[_ Hx]].
  - by exists rid, r.
  - by exists i, x.
Qed.

Lemma holds_add_user fl fh ls hs s b rid c h s' : holds fl fh ls hs s ->
  add_user b rid c s = Some (h, s') -> holds fl fh ls (h :: hs) s'.
Proof.
  intros [H3 H4 H5 H6 H7 H8] (r & Hr & -> & R1 & R2 & R3 & R4)%add_user_shape. constructor; try done.
  - eapply Forall_impl; [exact H3 |]. intros l [(x & Hx & Hxo) Hp]. split; [exists x; by rewrite R3 |].
    intros Hl. apply Hp. by eapply insert_private.
  - constructor.
    + exists (mkHandle b rid true). by rewrite R1, lookup_app_r, Nat.sub_diag by lia.
    + eapply Forall_impl; [exact H4 |]. intros k (x & Hx & Hxo). exists x. rewrite R1, lookup_app_l; [done |].
      by apply lookup_lt_Some in Hx.
  - constructor; [| done]. intros Hin. rewrite Forall_forall in H4. destruct (H4 _ Hin) as (x & Hx & _).
    apply lookup_lt_Some in Hx. lia.
  - unfold plain_leases, live_leases in *. by rewrite R3, R4.
  - unfold live_handles in *. rewrite R1, lsum_app, lsum_cons, lsum_nil, zlen_cons. cbn [handle_owned]. lia.
Qed.

(** The first user of a buffer reserves a lease that its new record keeps private. *)

Lemma holds_new_record fl fh ls hs s b n c lease s1 : backed s -> holds fl fh ls hs s -> backings s !! b = None ->
  reserve n c s = Some (lease, s1) ->
  holds fl fh ls hs
    (mk (limit s1) (controlReserve s1) (total s1) (ordinary s1) (reservations s1)
        (records s1 ++ [mkBacking 0 c lease]) (<[b := length (records s1)]> (backings s1)) (handles s1)).
Proof.
  intros HB [H3 H4 H5 H6 H7 H8] Hnone E. pose proof (reserve_shape _ _ _ _ _ E) as (El & R1 & R2 & R3 & R4).
  constructor; try done.
  - eapply Forall_impl; [exact H3 |]. intros k Hk. pose proof (plain_fresh _ _ Hk) as Hlt.
    destruct (plain_reserve _ _ _ _ _ _ E Hk) as [Hx Hp]. split; [exact Hx |]. intros (i & x & Hi & Hl). cbn in Hi.
    apply lookup_app_Some in Hi as [Hi|[_ Hi]]; [apply Hp; by exists i, x |].
    apply list_lookup_singleton_Some in Hi as [_ <-]. cbn in Hl. lia.
  - unfold live_handle. cbn. by rewrite R4.
  - unfold plain_leases, live_leases in *. cbn [reservations backings]. rewrite R1, R3, map_size_insert_None by done.
    rewrite lsum_app, lsum_cons, lsum_nil. cbn [owned]. lia.
  - unfold live_handles in *. cbn [handles]. by rewrite R4.
Qed.

Lemma owns_retain fl fh ls hs s b n c h s' : owns fl fh ls hs s -> retainBacking b n c s = Some (h, s') ->
  owns fl fh ls (h :: hs) s'.
Proof.
  intros [H1 H2 H3] E. constructor; [by eapply retainBacking_ok | by eapply backed_retain |].
  unfold retainBacking in E. destruct (backings s !! b) as [rid|] eqn:Hb; [by eapply holds_add_user |].
  destruct (reserve (n + 256) c s) as [[lease s1]|] eqn:Er; [| done].
  eapply holds_add_user; [| exact E]. by eapply holds_new_record.
Qed.

Lemma owns_releaseBacking fl fh ls hs s h : owns fl fh ls (h :: hs) s -> owns fl fh ls hs (releaseBacking h s).
Proof.
  intros [H1 H2 [H3 H4 H5 H6 H7 H8]]. constructor; [by apply releaseBacking_ok | by apply backed_releaseBacking |].
  apply Forall_cons in H4 as [(x & Hx & Hxo) H4]. apply NoDup_cons in H6 as [Hn H6]. rewrite zlen_cons in H8.
  pose proof (backed_handle s H2 h x Hx Hxo) as Hb.
  destruct (backed_record s H2 _ _ Hb) as (r & res & Hr & Hu & _ & Hl & Ho).
  unfold releaseBacking. rewrite Hx, Hxo, Hr. cbn [negb].
  set (hs' := <[h := mkHandle (handle_buffer x) (handle_record x) false]> (handles s)).
  assert (Hlive : lsum (fun y => if handle_owned y then 1 else 0) hs' = live_handles s - 1).
  { unfold hs'. rewrite (lsum_alter _ _ _ _ _ Hx), Hxo. cbn [handle_owned]. unfold live_handles. lia. }
  assert (Hhs : Forall (fun k => exists y, hs' !! k = Some y /\ handle_owned y = true) hs).
  { apply Forall_forall. intros k Hk. rewrite Forall_forall in H4. destruct (H4 k Hk) as (y & Hy & Hyo). exists y.
    unfold hs'. rewrite list_lookup_insert_ne; [done |]. by intros ->. }
  assert (Hpriv : forall n l, (exists i y, <[handle_record x := mkBacking n (backing_control r) (backing_lease r)]>
      (records s) !! i = Some y /\ backing_lease y = l) -> private_lease s l).
  { intros n l (i & y & Hy & Hyl). apply list_lookup_insert_Some in Hy as [(<- & <- & _)|[_ Hy]].
    - by exists (handle_record x), r.
    - by exists i, y. }
  destruct (users r - 1 =? 0) eqn:Hlast.
  - unfold release. cbn [reservations]. rewrite Hl, Ho. cbn [negb]. constructor; try done.
    + apply Forall_forall. intros k Hk. rewrite Forall_forall in H3. destruct (H3 k Hk) as [(y & Hy & Hyo) Hp].
      split; [| intros Hq; apply Hp; by apply (Hpriv (users r - 1))]. exists y. cbn.
      rewrite list_lookup_insert_ne; [done |]. intros Heq. apply Hp. exists (handle_record x), r. by rewrite Heq.
    + unfold plain_leases, live_leases in *. cbn [reservations backings].
      rewrite (lsum_alter _ _ _ _ _ Hl), Ho, map_size_delete_Some by (by rewrite Hb). cbn [owned].
      assert (size (backings s) <> 0%nat) by (intros He%map_size_empty_inv; rewrite He in Hb; by rewrite lookup_empty in Hb).
      lia.
    + unfold live_handles in *. cbn [handles]. lia.
  - constructor; try done.
    + apply Forall_forall. intros k Hk. rewrite Forall_forall in H3. destruct (H3 k Hk) as [Hy Hp].
      split; [exact Hy |]. intros Hq; apply Hp; by apply (Hpriv (users r - 1)).
    + unfold live_handles in *. cbn [handles]. lia.
Qed.

(** Releasing everything of an owner. *)

Lemma owns_release_all fl fh ls hs s :
  owns fl fh ls hs s -> owns fl fh [] [] (foldl (fun s x => release x.1 s) (foldl (fun s h => releaseBacking h s) s hs) ls).
Proof.
  revert s. induction hs as [|h hs IH]; intros s Ho; cbn [foldl].
  - revert s Ho. induction ls as [|[l n] ls IH]; intros s Ho; cbn [foldl]; [done |]. apply IH. by eapply owns_release.
  - apply IH. by apply owns_releaseBacking.
Qed.
