(* ===== verification/Composition.v ===== *)
(** * The runtime composition (apps/server/src/terminal/runtime-composition.ts)

    Every owner of the runtime shares one identity, one validated set of limits
    and one byte account.  The account is kept in the owners' states; the
    composition records its limit for the constructor's check. *)

From S2P Require Import Prelude Json Protocol.

Record RuntimeComposition := mkComposition {
  comp_serverId : string;
  comp_relayInstanceId : string;
  comp_budgets : EffectiveBudgets;
}.

Inductive CompositionError := invalid_runtime_composition.

Definition newRuntimeComposition (serverId relayInstanceId : string) (budgets : EffectiveBudgets)
    (bytesLimit : Z) : CompositionError + RuntimeComposition :=
  match validateEffectiveBudgets budgets with
  | None => inl invalid_runtime_composition
  | Some validated =>
     if negb (OpaqueIdSchema serverId) || negb (OpaqueIdSchema relayInstanceId)
        || (runtimeBytes validated <? bytesLimit)
     then inl invalid_runtime_composition
     else inr (mkComposition serverId relayInstanceId validated)
  end.

(** [owns], on the two members it reads. *)

Definition owns (c : RuntimeComposition) (serverId relayInstanceId : string) : bool :=
  seqb serverId (comp_serverId c) && seqb relayInstanceId (comp_relayInstanceId c).

Definition ownsRun (c : RuntimeComposition) (r : RunRef) : bool := owns c (run_serverId r) (run_relayInstanceId r).

Definition ownsWorker (c : RuntimeComposition) (w : WorkerRef) : bool :=
  owns c (worker_serverId w) (worker_relayInstanceId w).
