(* ===== verification/Frame.v ===== *)
(** * The frame codec (packages/protocol/src/provisional/frame.ts)

    A frame is a 16-byte header (magic, lane, revision, kind, two big-endian
    lengths), its metadata and its payload.  [FrameDecoder.read] consumes
    arbitrary slices of a byte stream under a per-call budget and keeps one
    partial frame; the theorems relate it to the concatenation of encoded
    frames.  Bytes are integers in [0, 256). *)

From S2P Require Import Prelude Json Protocol.

Inductive ProtocolFailureCode :=
  | INVALID_HEADER | INVALID_METADATA | UNSUPPORTED_FORMAT | UNSUPPORTED_KIND
  | CAPACITY_EXCEEDED | IDENTITY_MISMATCH | TRUNCATED_FRAME | DECODER_CLOSED.

Record ProtocolFailure := mkFailure { failure_code : ProtocolFailureCode; failure_offset : Z }.

Definition ProtocolResult (T : Type) : Type := ProtocolFailure + T.

Definition failure {T} (code : ProtocolFailureCode) (offset : Z) : ProtocolResult T :=
  inl (mkFailure code offset).

Definition MAX_READ_BYTES : Z := 256 * 1024.

Definition MAX_READ_FRAMES : Z := 32.

Record ByteFrame := mkFrame { frame_kind : Z; frame_metadata : list Z; frame_payload : list Z }.

Inductive ReadStatus := need_input | budget | error.

Record ReadResult := mkRead {
  consumedBytes : Z;
  frames : list ByteFrame;
  status : ReadStatus;
  read_error : option ProtocolFailure;
}.

Definition byte_at (input : list Z) (offset : Z) : Z := nth (Z.to_nat offset) input 0.

Definition uint32 (input : list Z) (offset : Z) : Z :=
  byte_at input offset * 16777216
  + js_shl (byte_at input (offset + 1)) 16
  + js_shl (byte_at input (offset + 2)) 8
  + byte_at input (offset + 3).

Definition set_byte (output : list Z) (offset value : Z) : list Z :=
  <[Z.to_nat offset := toUint8 value]> output.

Definition setUint32 (output : list Z) (offset value : Z) : list Z :=
  let output := set_byte output offset (value / 16777216) in
  let output := set_byte output (offset + 1) (js_and (js_ushr value 16) 255) in
  let output := set_byte output (offset + 2) (js_and (js_ushr value 8) 255) in
  set_byte output (offset + 3) (js_and value 255).

Definition valid_kind (k : Z) : bool := (k =? 1) || (k =? 2) || (k =? 3) || (k =? 4).

Record HeaderInfo := mkHeaderInfo { hi_length : Z; hi_metadataLength : Z; hi_kind : Z }.

Definition inspectHeader (header : list Z) (lane revision : Z) : ProtocolResult HeaderInfo :=
  if negb (byte_at header 0 =? 67) || negb (byte_at header 1 =? 80)
     || negb (byte_at header 5 =? 0) || negb (byte_at header 6 =? 0) || negb (byte_at header 7 =? 0)
  then failure INVALID_HEADER HEADER_BYTES
  else if negb (byte_at header 2 =? lane) || negb (byte_at header 3 =? revision)
  then failure UNSUPPORTED_FORMAT HEADER_BYTES
  else
    let kind := byte_at header 4 in
    if negb (valid_kind kind) then failure UNSUPPORTED_KIND HEADER_BYTES
    else
      let metadataLength := uint32 header 8 in
      let payloadLength := uint32 header 12 in
      if (metadataLength <? 1) || (MAX_METADATA_BYTES <? metadataLength)
         || (MAX_PAYLOAD_BYTES <? payloadLength)
      then failure CAPACITY_EXCEEDED HEADER_BYTES
      else
        let length := HEADER_BYTES + metadataLength + payloadLength in
        if MAX_FRAME_BYTES <? length then failure CAPACITY_EXCEEDED HEADER_BYTES
        else inr (mkHeaderInfo length metadataLength kind).

Definition encodeFrame (lane revision kind : Z) (metadata payload : list Z)
    : ProtocolResult (list Z) :=
  if (revision <? 1) || (255 <? revision) then failure UNSUPPORTED_FORMAT 0
  else if negb (valid_kind kind) then failure UNSUPPORTED_KIND 0
  else if (zlen metadata <? 1) || (MAX_METADATA_BYTES <? zlen metadata)
          || (MAX_PAYLOAD_BYTES <? zlen payload)
  then failure CAPACITY_EXCEEDED 0
  else
    let output := replicate (Z.to_nat (HEADER_BYTES + zlen metadata + zlen payload)) 0 in
    let output := set_byte output 0 67 in
    let output := set_byte output 1 80 in
    let output := set_byte output 2 lane in
    let output := set_byte output 3 revision in
    let output := set_byte output 4 kind in
    let output := setUint32 output 8 (zlen metadata) in
    let output := setUint32 output 12 (zlen payload) in
    let output := array_set output metadata HEADER_BYTES in
    inr (array_set output payload (HEADER_BYTES + zlen metadata)).

(** The loop of [copyRange]: [out] is the output array, [off] the stream
    position of the next segment. *)

Fixpoint copyRange_loop (segments : list (list Z)) (start stop off : Z) (out : list Z) : list Z :=
  match segments with
  | [] => out
  | segment :: rest =>
     let from := Z.max (start - off) 0 in
     let to := Z.min (stop - off) (zlen segment) in
     let out := if from <? to then array_set out (subarray segment from to) (off + from - start) else out in
     let off := off + zlen segment in
     if stop <=? off then out else copyRange_loop rest start stop off out
  end.

Definition copyRange (segments : list (list Z)) (start stop : Z) : list Z :=
  copyRange_loop segments start stop 0 (replicate (Z.to_nat (stop - start)) 0).

Record FrameDecoder := mkDecoder {
  lane : Z;
  revision : Z;
  header : list Z;
  body : list (list Z);
  filled : Z;
  expected : Z;
  metadataLength : Z;
  kind : Z;
  offset : Z;
  closed : bool;
}.

Definition newFrameDecoder (ln rev : Z) : FrameDecoder :=
  mkDecoder ln rev (replicate 16 0) [] 0 HEADER_BYTES 0 1 0 false.

Definition retainedBytes (d : FrameDecoder) : Z := filled d.

Definition storageBytes (d : FrameDecoder) : Z :=
  if filled d =? 0 then 0 else Z.max HEADER_BYTES (filled d).

(** [appendBody]: the trailing segments no larger than twice what has
    accumulated are absorbed, then everything from there on is one segment. *)

Fixpoint absorb (segments : list (list Z)) (from : nat) (size : Z) : nat * Z :=
  match from with
  | O => (O, size)
  | S f =>
     match segments !! f with
     | Some seg => if zlen seg <=? 2 * size then absorb segments f (size + zlen seg) else (from, size)
     | None => (from, size)
     end
  end.

Definition appendBody (segments : list (list Z)) (slice : list Z) : list (list Z) :=
  let (from, size) := absorb segments (length segments) (zlen slice) in
  let merged := concat (drop from segments) ++ slice in
  take from segments ++ [merged].

Definition resetPending (d : FrameDecoder) : FrameDecoder :=
  mkDecoder (lane d) (revision d) (header d) [] 0 HEADER_BYTES 0 (kind d) (offset d) (closed d).

Definition close (d : FrameDecoder) : FrameDecoder :=
  mkDecoder (lane d) (revision d) (header d) [] 0 (expected d) (metadataLength d) (kind d) (offset d) true.

(** Takes [slice] into the pending frame. *)

Definition take_slice (d : FrameDecoder) (slice : list Z) : FrameDecoder :=
  let count := zlen slice in
  mkDecoder (lane d) (revision d)
    (if filled d <? HEADER_BYTES then array_set (header d) slice (filled d) else header d)
    (if filled d <? HEADER_BYTES then body d else appendBody (body d) slice)
    (filled d + count) (expected d) (metadataLength d) (kind d) (offset d + count) (closed d).

(** The loop of [read]; [None] when the fuel runs out. *)

Fixpoint read_loop (fuel : nat) (d : FrameDecoder) (input : list Z) (consumed emitted : Z)
    (out : list ByteFrame) : option (ReadResult * FrameDecoder) :=
  match fuel with
  | O => None
  | S fuel =>
     let finished d :=
       Some (mkRead consumed out (if consumed <? zlen input then budget else need_input) None, d) in
     if negb ((consumed <? zlen input) && (consumed <? MAX_READ_BYTES)) then finished d
     else if (MAX_READ_FRAMES <=? zlen out) || (MAX_READ_BYTES <? emitted + expected d) then finished d
     else
       let count := Z.min (expected d - filled d)
                      (Z.min (zlen input - consumed) (MAX_READ_BYTES - consumed)) in
       let slice := subarray input consumed (consumed + count) in
       let d := take_slice d slice in
       let consumed := consumed + count in
       if negb (filled d =? expected d) then read_loop fuel d input consumed emitted out
       else
         let checked :=
           if expected d =? HEADER_BYTES then
             match inspectHeader (header d) (lane d) (revision d) with
             | inl e => inl (failure_code e)
             | inr hi => inr (mkDecoder (lane d) (revision d) (header d) (body d) (filled d)
                           (hi_length hi) (hi_metadataLength hi) (hi_kind hi) (offset d) (closed d))
             end
           else inr d in
         match checked with
         | inl code =>
            let d := close d in
            Some (mkRead consumed out error (Some (mkFailure code (offset d))), d)
         | inr d =>
            if filled d =? expected d then
              let bodyLength := expected d - HEADER_BYTES in
              let frame := mkFrame (kind d) (copyRange (body d) 0 (metadataLength d))
                             (copyRange (body d) (metadataLength d) bodyLength) in
              read_loop fuel (resetPending d) input consumed (emitted + expected d) (out ++ [frame])
            else read_loop fuel d input consumed emitted out
         end
  end.

Definition read (d : FrameDecoder) (input : list Z) : option (ReadResult * FrameDecoder) :=
  if closed d then Some (mkRead 0 [] error (Some (mkFailure DECODER_CLOSED (offset d))), d)
  else read_loop (S (length input)) d input 0 0 [].

Definition finish (d : FrameDecoder) : ProtocolResult unit * FrameDecoder :=
  if closed d then (failure DECODER_CLOSED (offset d), d)
  else
    let partial := negb (filled d =? 0) in
    let d := close d in
    ((if partial then failure TRUNCATED_FRAME (offset d) else inr tt), d).

(** ** The encoded form of a frame *)

Definition is_byte (b : Z) : Prop := 0 <= b < 256.

Definition be32 (v : Z) : list Z :=
  [v / 16777216; v / 65536 mod 256; v / 256 mod 256; v mod 256].

Definition mk_header (ln rev k ml pl : Z) : list Z :=
  [67; 80; ln; rev; k; 0; 0; 0] ++ be32 ml ++ be32 pl.

Definition frame_bytes (ln rev : Z) (f : ByteFrame) : list Z :=
  mk_header ln rev (frame_kind f) (zlen (frame_metadata f)) (zlen (frame_payload f))
  ++ frame_metadata f ++ frame_payload f.

Definition frame_ok (f : ByteFrame) : Prop :=
  valid_kind (frame_kind f) = true
  /\ 1 <= zlen (frame_metadata f) <= MAX_METADATA_BYTES
  /\ zlen (frame_payload f) <= MAX_PAYLOAD_BYTES.

Definition lane_ok (ln rev : Z) : Prop := 1 <= ln <= 4 /\ 1 <= rev <= 255.

Ltac frame_consts :=
  unfold MAX_FRAME_BYTES, MAX_METADATA_BYTES, MAX_PAYLOAD_BYTES, HEADER_BYTES, MAX_READ_BYTES,
    MAX_READ_FRAMES in *.

Ltac frame_lia := frame_consts; lia.

Lemma toInt32_small x : 0 <= x < 2 ^ 31 -> toInt32 x = x.
Proof.
  intros Hx. unfold toInt32, toUint32. rewrite Z.mod_small by lia. case_if; lia.
Qed.

Lemma js_shl_byte b n : is_byte b -> n = 8 \/ n = 16 -> js_shl b n = b * 2 ^ n.
Proof.
  unfold is_byte, js_shl. intros Hb Hn. rewrite (toInt32_small b) by lia.
  destruct Hn as [-> | ->]; rewrite Z.mod_small, Z.shiftl_mul_pow2 by lia;
    apply toInt32_small; lia.
Qed.

Lemma js_and_255 x : 0 <= x < 2 ^ 31 -> js_and x 255 = x mod 256.
Proof.
  intros Hx. unfold js_and. rewrite (toInt32_small x), (toInt32_small 255) by lia.
  change 255 with (Z.ones 8). rewrite Z.land_ones by lia.
  rewrite toInt32_small; [done |]. pose proof (Z.mod_pos_bound x (2 ^ 8)). lia.
Qed.

Lemma js_ushr_small x n : 0 <= x < 2 ^ 31 -> 0 <= n < 32 -> js_ushr x n = x / 2 ^ n.
Proof.
  intros Hx Hn. unfold js_ushr, toUint32.
  rewrite !Z.mod_small by lia. by rewrite Z.shiftr_div_pow2 by lia.
Qed.

Lemma uint32_bytes pre a b c d post : is_byte b -> is_byte c ->
  uint32 (pre ++ [a; b; c; d] ++ post) (zlen pre) = a * 16777216 + b * 65536 + c * 256 + d.
Proof.
  intros Hb Hc. unfold uint32, byte_at, zlen.
  replace (Z.to_nat (Z.of_nat (length pre) + 1)) with (length pre + 1)%nat by lia.
  replace (Z.to_nat (Z.of_nat (length pre) + 2)) with (length pre + 2)%nat by lia.
  replace (Z.to_nat (Z.of_nat (length pre) + 3)) with (length pre + 3)%nat by lia.
  rewrite Nat2Z.id, <- (Nat.add_0_r (length pre)) at 1.
  rewrite !app_nth2_plus. cbn [app nth]. rewrite !js_shl_byte by auto. lia.
Qed.

Lemma uint32_be32 v pre post : 0 <= v < 2 ^ 24 -> uint32 (pre ++ be32 v ++ post) (zlen pre) = v.
Proof.
  intros Hv. pose proof (Z.mod_pos_bound (v / 65536) 256). pose proof (Z.mod_pos_bound (v / 256) 256).
  unfold be32. rewrite uint32_bytes by (unfold is_byte; lia).
  pose proof (Z.div_mod v 256). pose proof (Z.div_mod (v / 256) 256).
  pose proof (Z.div_mod (v / 65536) 256).
  assert (v / 256 / 256 = v / 65536) by (rewrite Z.div_div by lia; done).
  assert (v / 65536 / 256 = v / 16777216) by (rewrite Z.div_div by lia; done). lia.
Qed.

Lemma be32_uint32 a b c d : is_byte a -> is_byte b -> is_byte c -> is_byte d ->
  be32 (a * 16777216 + b * 65536 + c * 256 + d) = [a; b; c; d].
Proof.
  unfold is_byte, be32. intros. set (v := a * 16777216 + b * 65536 + c * 256 + d).
  assert (v / 256 = a * 65536 + b * 256 + c)
    by (symmetry; apply Z.div_unique with (r := d); subst v; lia).
  assert (v / 65536 = a * 256 + b)
    by (symmetry; apply Z.div_unique with (r := c * 256 + d); subst v; lia).
  assert (v / 16777216 = a)
    by (symmetry; apply Z.div_unique with (r := b * 65536 + c * 256 + d); subst v; lia).
  assert (v mod 256 = d) by (symmetry; apply Z.mod_unique with (q := v / 256); lia).
  assert ((v / 256) mod 256 = c) by (symmetry; apply Z.mod_unique with (q := v / 65536); lia).
  assert ((v / 65536) mod 256 = b) by (symmetry; apply Z.mod_unique with (q := a); lia).
  congruence.
Qed.

Lemma header_uint32 a0 a1 a2 a3 a4 a5 a6 a7 b0 b1 b2 b3 c0 c1 c2 c3 :
  is_byte b1 -> is_byte b2 -> is_byte c1 -> is_byte c2 ->
  let h := [a0; a1; a2; a3; a4; a5; a6; a7; b0; b1; b2; b3; c0; c1; c2; c3] in
  uint32 h 8 = b0 * 16777216 + b1 * 65536 + b2 * 256 + b3
  /\ uint32 h 12 = c0 * 16777216 + c1 * 65536 + c2 * 256 + c3.
Proof.
  intros. split.
  - apply (uint32_bytes [a0; a1; a2; a3; a4; a5; a6; a7] b0 b1 b2 b3 [c0; c1; c2; c3]); done.
  - apply (uint32_bytes [a0; a1; a2; a3; a4; a5; a6; a7; b0; b1; b2; b3] c0 c1 c2 c3 []); done.
Qed.

Lemma inspect_mk_header ln rev k ml pl :
  valid_kind k = true -> 1 <= ml <= MAX_METADATA_BYTES -> 0 <= pl <= MAX_PAYLOAD_BYTES ->
  inspectHeader (mk_header ln rev k ml pl) ln rev = inr (mkHeaderInfo (HEADER_BYTES + ml + pl) ml k).
Proof.
  intros Hk Hm Hp. unfold inspectHeader.
  change (byte_at (mk_header ln rev k ml pl) 0) with 67.
  change (byte_at (mk_header ln rev k ml pl) 1) with 80.
  change (byte_at (mk_header ln rev k ml pl) 2) with ln.
  change (byte_at (mk_header ln rev k ml pl) 3) with rev.
  change (byte_at (mk_header ln rev k ml pl) 4) with k.
  change (byte_at (mk_header ln rev k ml pl) 5) with 0.
  change (byte_at (mk_header ln rev k ml pl) 6) with 0.
  change (byte_at (mk_header ln rev k ml pl) 7) with 0.
  assert (uint32 (mk_header ln rev k ml pl) 8 = ml) as ->.
  { apply (uint32_be32 ml [67; 80; ln; rev; k; 0; 0; 0] (be32 pl)). frame_lia. }
  assert (uint32 (mk_header ln rev k ml pl) 12 = pl) as ->.
  { pose proof (uint32_be32 pl ([67; 80; ln; rev; k; 0; 0; 0] ++ be32 ml) []) as H.
    rewrite app_nil_r in H. rewrite <- app_assoc in H. apply H. frame_lia. }
  rewrite !Z.eqb_refl, Hk. cbn [negb orb].
  repeat (case_if; [frame_lia |]). done.
Qed.

Lemma list16 (h : list Z) : length h = 16%nat -> exists a0 a1 a2 a3 a4 a5 a6 a7 b0 b1 b2 b3 c0 c1 c2 c3,
  h = [a0; a1; a2; a3; a4; a5; a6; a7; b0; b1; b2; b3; c0; c1; c2; c3].
Proof.
  intros H. do 16 (destruct h as [|? h]; [discriminate |]). destruct h; [| discriminate]. eauto 20.
Qed.

Lemma inspect_inv h ln rev hi : zlen h = HEADER_BYTES -> Forall is_byte h ->
  inspectHeader h ln rev = inr hi ->
  exists pl, h = mk_header ln rev (hi_kind hi) (hi_metadataLength hi) pl
  /\ hi_length hi = HEADER_BYTES + hi_metadataLength hi + pl
  /\ valid_kind (hi_kind hi) = true
  /\ 1 <= hi_metadataLength hi <= MAX_METADATA_BYTES /\ 0 <= pl <= MAX_PAYLOAD_BYTES.
Proof.
  intros Hlen Hb E.
  destruct (list16 h) as (a0&a1&a2&a3&a4&a5&a6&a7&b0&b1&b2&b3&c0&c1&c2&c3&->);
    [unfold zlen, HEADER_BYTES in Hlen; lia |].
  repeat match goal with H : Forall is_byte (_ :: _) |- _ => apply Forall_cons in H; destruct H end.
  unfold inspectHeader in E.
  destruct (header_uint32 a0 a1 a2 a3 a4 a5 a6 a7 b0 b1 b2 b3 c0 c1 c2 c3) as [E1 E2]; try done.
  cbv zeta in E1, E2. rewrite E1, E2 in E. unfold byte_at in E.
  cbv [Z.to_nat Pos.to_nat Pos.iter_op Nat.add nth] in E.
  do 5 (case_if; [discriminate |]). injection E as <-. bool_hyps.
  exists (c0 * 16777216 + c1 * 65536 + c2 * 256 + c3). cbn [hi_kind hi_metadataLength hi_length].
  unfold mk_header. rewrite !be32_uint32 by done.
  unfold is_byte in *. split_ands; try done; try frame_lia.
  cbn [app]. repeat f_equal; lia.
Qed.

(** ** [encodeFrame] writes exactly [frame_bytes] *)

Lemma zlen_mk_header ln rev k ml pl : zlen (mk_header ln rev k ml pl) = HEADER_BYTES.
Proof. reflexivity. Qed.

Lemma zlen_frame_bytes ln rev f :
  zlen (frame_bytes ln rev f) = HEADER_BYTES + zlen (frame_metadata f) + zlen (frame_payload f).
Proof. unfold frame_bytes. rewrite !zlen_app, zlen_mk_header. lia. Qed.

Lemma array_set_app {A} (pre old post new : list A) : zlen old = zlen new ->
  array_set (pre ++ old ++ post) new (zlen pre) = pre ++ new ++ post.
Proof.
  intros Hl. unfold array_set. rewrite ztake_app_le, ztake_all by lia.
  f_equal. f_equal. rewrite zdrop_app_ge by (pose proof (zlen_nonneg new); lia).
  replace (zlen pre + zlen new - zlen pre) with (zlen old) by lia.
  rewrite zdrop_app_ge by lia. rewrite Z.sub_diag. done.
Qed.

Lemma zlen_replicate {A} n (x : A) : 0 <= n -> zlen (replicate (Z.to_nat n) x) = n.
Proof. intros. unfold zlen. rewrite length_replicate. lia. Qed.

Lemma encode_header_cells ln rev k ml pl rest : lane_ok ln rev -> is_byte k ->
  0 <= ml < 2 ^ 24 -> 0 <= pl < 2 ^ 24 ->
  setUint32 (setUint32 (set_byte (set_byte (set_byte (set_byte (set_byte
    (replicate 16 0 ++ rest) 0 67) 1 80) 2 ln) 3 rev) 4 k) 8 ml) 12 pl
  = mk_header ln rev k ml pl ++ rest.
Proof.
  intros [? ?] Hk Hml Hpl. unfold setUint32, set_byte.
  cbv [Z.to_nat Z.add Pos.add Pos.succ Pos.add_carry Pos.to_nat Pos.iter_op Nat.add replicate].
  cbn [app insert list_insert]. unfold mk_header, be32. cbn [app].
  assert (Hsmall : forall v, 0 <= v < 2 ^ 24 ->
    toUint8 (v / 16777216) = v / 16777216 /\ toUint8 (js_and (js_ushr v 16) 255) = v / 65536 mod 256
    /\ toUint8 (js_and (js_ushr v 8) 255) = v / 256 mod 256 /\ toUint8 (js_and v 255) = v mod 256).
  { intros v Hv. unfold toUint8. rewrite !js_ushr_small by lia.
    assert (0 <= v / 2 ^ 16 < 2 ^ 31) by (split; [apply Z.div_pos | apply Z.div_lt_upper_bound]; lia).
    assert (0 <= v / 2 ^ 8 < 2 ^ 31) by (split; [apply Z.div_pos | apply Z.div_lt_upper_bound]; lia).
    rewrite !js_and_255 by lia. change (2 ^ 16) with 65536. change (2 ^ 8) with 256.
    rewrite !Z.mod_mod by lia. rewrite (Z.div_small v 16777216) by lia. done. }
  destruct (Hsmall ml Hml) as (-> & -> & -> & ->). destruct (Hsmall pl Hpl) as (-> & -> & -> & ->).
  unfold toUint8, is_byte in *. rewrite !Z.mod_small by lia. done.
Qed.

Lemma encodeFrame_ok ln rev f : lane_ok ln rev -> frame_ok f ->
  encodeFrame ln rev (frame_kind f) (frame_metadata f) (frame_payload f)
  = inr (frame_bytes ln rev f).
Proof.
  intros Hl (Hk & Hm & Hp). unfold encodeFrame. destruct f as [k m p]; cbn [frame_kind frame_metadata frame_payload] in *.
  pose proof (zlen_nonneg p) as Hp0. destruct Hl as [Hln Hrev].
  case_if; [lia |]. rewrite Hk. cbn [negb]. case_if; [frame_lia |]. f_equal.
  replace (Z.to_nat (HEADER_BYTES + zlen m + zlen p))
    with (16 + (Z.to_nat (zlen m) + Z.to_nat (zlen p)))%nat by (frame_consts; pose proof (zlen_nonneg m); lia).
  rewrite replicate_add, replicate_add. cbv zeta.
  rewrite encode_header_cells; [| split; lia | | frame_lia | frame_lia].
  2: { unfold valid_kind in Hk. unfold is_byte. lia. }
  set (h := mk_header ln rev k (zlen m) (zlen p)).
  change HEADER_BYTES with (zlen h).
  rewrite array_set_app by (rewrite zlen_replicate; lia).
  rewrite app_assoc. replace (zlen h + zlen m) with (zlen (h ++ m)) by (rewrite zlen_app; lia).
  rewrite <- (app_nil_r (replicate _ 0)).
  rewrite array_set_app by (rewrite zlen_replicate; lia).
  unfold frame_bytes; cbn [frame_kind frame_metadata frame_payload]. fold h.
  by rewrite app_nil_r, <- app_assoc.
Qed.

(** ** [copyRange] reads a range of the concatenated segments *)

Lemma copyRange_loop_spec segs start stop off out :
  0 <= start <= stop -> 0 <= off -> stop - off <= zlen (concat segs) -> zlen out = stop - start ->
  copyRange_loop segs start stop off out
  = ztake (Z.max (off - start) 0) out ++ subarray (concat segs) (Z.max (start - off) 0) (stop - off).
Proof.
  revert off out. induction segs as [|seg segs IH]; intros off out Hs Ho Hc Hl.
  - cbn in *. rewrite zlen_nil in Hc. rewrite ztake_all by lia.
    by rewrite subarray_nil, app_nil_r.
  - cbn [copyRange_loop concat]. cbn [concat] in Hc. rewrite zlen_app in Hc.
    pose proof (zlen_nonneg seg). set (q := Z.max (off - start) 0).
    set (from := Z.max (start - off) 0). destruct (from <? Z.min (stop - off) (zlen seg)) eqn:Hft.
    + assert (Hq : off + from - start = q) by lia. rewrite Hq.
      set (to := Z.min (stop - off) (zlen seg)) in *.
      assert (Hsub : zlen (subarray seg from to) = to - from) by (apply zlen_subarray; lia).
      assert (Ho1 : zlen (array_set out (subarray seg from to) q) = stop - start)
        by (rewrite zlen_array_set; lia).
      case_if.
      * unfold array_set. rewrite Hsub, zdrop_all, app_nil_r by lia.
        rewrite subarray_app_l by lia. do 2 f_equal. lia.
      * rewrite IH by lia. unfold array_set at 1.
        rewrite app_assoc, ztake_app_le by (rewrite zlen_app, zlen_ztake, Hsub by lia; lia).
        rewrite ztake_all by (rewrite zlen_app, zlen_ztake, Hsub by lia; lia).
        rewrite <- app_assoc. f_equal. rewrite subarray_app_mid by lia.
        replace (Z.max (start - (off + zlen seg)) 0) with 0 by lia. rewrite subarray_0.
        f_equal; [| f_equal; lia]. replace to with (zlen seg) by lia. apply subarray_to_end; lia.
    + case_if.
      * rewrite subarray_empty, app_nil_r by lia. rewrite ztake_all by lia. done.
      * rewrite IH by lia. destruct (decide (zlen seg = 0)) as [Hz|Hz].
        { apply zlen_zero in Hz. subst seg. cbn. rewrite zlen_nil, Z.add_0_r. done. }
        replace (Z.max (off + zlen seg - start) 0) with 0 by lia. replace q with 0 by lia.
        rewrite subarray_app_r by lia. do 2 f_equal; lia.
Qed.

Lemma copyRange_spec segs start stop : 0 <= start <= stop -> stop <= zlen (concat segs) ->
  copyRange segs start stop = subarray (concat segs) start stop.
Proof.
  intros. unfold copyRange.
  rewrite copyRange_loop_spec; [| lia | lia | lia | apply zlen_replicate; lia].
  rewrite !Z.sub_0_r, (Z.max_r (0 - start)), (Z.max_l start) by lia. done.
Qed.

(** ** [appendBody] keeps the bytes and merges geometrically *)

Lemma absorb_spec segs from size f sz : absorb segs from size = (f, sz) -> (from <= length segs)%nat ->
  (f <= from)%nat /\ sz = size + zlen (concat (drop f (take from segs)))
  /\ (f = O \/ exists seg, segs !! (f - 1)%nat = Some seg /\ 2 * sz < zlen seg).
Proof.
  revert size. induction from as [|from IH]; intros size E Hf; cbn in E.
  - injection E as <- <-. split_ands; [lia | | by left]. change (zlen (concat (drop 0 (take 0 segs)))) with 0. lia.
  - destruct (segs !! from) as [seg|] eqn:Hs.
    2: { apply lookup_ge_None in Hs. lia. }
    assert (Ht : take (S from) segs = take from segs ++ [seg]) by (by apply take_S_r).
    case_if.
    + destruct (IH _ E ltac:(lia)) as (? & -> & ?). split_ands; [lia | | done].
      rewrite Ht, drop_app_le by (rewrite length_take; lia).
      rewrite concat_app, zlen_app. cbn [concat]. rewrite app_nil_r. lia.
    + injection E as <- <-. split_ands; [lia | |].
      * rewrite drop_ge by (rewrite length_take; lia). change (zlen (concat [])) with 0. lia.
      * right. exists seg. replace (S from - 1)%nat with from by lia. split; [done | lia].
Qed.

Lemma appendBody_concat segs slice : concat (appendBody segs slice) = concat segs ++ slice.
Proof.
  unfold appendBody. destruct (absorb _ _ _) as [f sz].
  rewrite concat_app. cbn. rewrite app_nil_r, app_assoc, <- concat_app, take_drop. done.
Qed.

Definition geometric (segs : list (list Z)) : Prop :=
  Forall (fun s => 1 <= zlen s) segs
  /\ forall i a b, segs !! i = Some a -> segs !! S i = Some b -> 2 * zlen b < zlen a.

Lemma geometric_nil : geometric [].
Proof. split; [constructor |]. intros i a b H. by rewrite lookup_nil in H. Qed.

Lemma appendBody_geometric segs slice :
  geometric segs -> 1 <= zlen slice -> geometric (appendBody segs slice).
Proof.
  intros [Hne Hg] Hs. unfold appendBody. destruct (absorb _ _ _) as [f sz] eqn:E.
  apply absorb_spec in E as (Hf & Hsz & Hstop); [| done]. rewrite firstn_all in Hsz.
  assert (Hm : zlen (concat (drop f segs) ++ slice) = sz) by (rewrite zlen_app; lia).
  pose proof (zlen_nonneg (concat (drop f segs))). split.
  - apply Forall_app. split; [by apply Forall_take |]. constructor; [lia | constructor].
  - intros i a b Ha Hb.
    assert (Hlen : length (take f segs) = f) by (rewrite length_take; lia).
    destruct (decide (S i < f)%nat) as [?|?].
    + rewrite lookup_app_l in Ha, Hb by lia. rewrite lookup_take_lt in Ha, Hb by lia. eauto.
    + rewrite lookup_app_r in Hb by lia. apply list_lookup_singleton_Some in Hb as [Hi <-].
      rewrite Hlen in Hi. assert (f = S i) as -> by lia.
      rewrite lookup_app_l in Ha by lia. rewrite lookup_take_lt in Ha by lia.
      destruct Hstop as [?|(seg & Hseg & Hlt)]; [lia |].
      replace (S i - 1)%nat with i in Hseg by lia. rewrite Ha in Hseg. injection Hseg as <-. lia.
Qed.

(** Each segment is more than twice the next, so [n] segments hold more than
    [2^n - 2] bytes. *)

Lemma geometric_count segs : geometric segs -> 2 ^ zlen segs - 1 <= zlen (concat segs).
Proof.
  assert (Hhd : forall l, geometric l -> forall s, l !! 0%nat = Some s -> 2 ^ zlen l - 1 <= zlen s).
  { induction l as [|x l IH]; intros [Hne Hg] s Hs; [done |]. injection Hs as <-.
    apply Forall_cons in Hne as [Hx Hne]. rewrite zlen_cons.
    destruct l as [|y l]; [rewrite zlen_nil; lia |].
    assert (Hgl : geometric (y :: l)).
    { split; [done |]. intros i a b Ha Hb. exact (Hg (S i) a b Ha Hb). }
    specialize (IH Hgl y eq_refl). specialize (Hg 0%nat x y eq_refl eq_refl).
    rewrite Z.pow_add_r by (pose proof (zlen_nonneg (y :: l)); lia). lia. }
  intros Hg. destruct segs as [|x l]; [done |].
  specialize (Hhd _ Hg x eq_refl). cbn [concat]. rewrite zlen_app.
  pose proof (zlen_nonneg (concat l)). lia.
Qed.

(** ** The decoder's invariant *)

Definition pending (d : FrameDecoder) : list Z :=
  if filled d <? HEADER_BYTES then ztake (filled d) (header d) else header d ++ concat (body d).

Record decoder_ok (d : FrameDecoder) : Prop := mk_decoder_ok {
  dok_open : closed d = false;
  dok_lane : lane_ok (lane d) (revision d);
  dok_header : zlen (header d) = HEADER_BYTES;
  dok_bytes : Forall is_byte (header d);
  dok_filled : 0 <= filled d < expected d;
  dok_geometric : geometric (body d);
  dok_phase :
    (filled d < HEADER_BYTES /\ expected d = HEADER_BYTES /\ body d = [])
    \/ (HEADER_BYTES <= filled d /\ zlen (concat (body d)) = filled d - HEADER_BYTES
        /\ inspectHeader (header d) (lane d) (revision d)
           = inr (mkHeaderInfo (expected d) (metadataLength d) (kind d)));
}.

Lemma pending_len d : decoder_ok d -> zlen (pending d) = filled d.
Proof.
  intros []. unfold pending. case_if.
  - apply zlen_ztake. frame_lia.
  - rewrite zlen_app. destruct dok_phase0 as [(? & _)|(? & ? & _)]; lia.
Qed.

Lemma new_decoder_ok ln rev : lane_ok ln rev -> decoder_ok (newFrameDecoder ln rev).
Proof.
  intros Hl. constructor; cbn; try done; [repeat constructor; lia | by left].
Qed.

(** Taking bytes that do not exceed the expected length appends them. *)

Lemma take_slice_pending d slice : decoder_ok d -> 1 <= zlen slice <= expected d - filled d ->
  (if filled d <? HEADER_BYTES then ztake (filled d + zlen slice) (header (take_slice d slice))
   else header (take_slice d slice) ++ concat (body (take_slice d slice)))
  = pending d ++ slice.
Proof.
  intros [] Hs. unfold pending, take_slice; cbn. case_if.
  - unfold array_set. rewrite app_assoc, ztake_app_le, ztake_all; [done | |];
      rewrite zlen_app, zlen_ztake by (destruct dok_phase0 as [(? & ? & _)|?]; frame_lia); lia.
  - by rewrite appendBody_concat, app_assoc.
Qed.

Lemma take_slice_header d slice : decoder_ok d -> 1 <= zlen slice <= expected d - filled d ->
  Forall is_byte slice ->
  zlen (header (take_slice d slice)) = HEADER_BYTES /\ Forall is_byte (header (take_slice d slice))
  /\ geometric (body (take_slice d slice)).
Proof.
  intros [] Hs Hb. unfold take_slice; cbn. case_if.
  - split_ands; [| | done].
    + rewrite zlen_array_set; destruct dok_phase0 as [(? & ? & _)|?]; lia.
    + unfold array_set. repeat (apply Forall_app; split); [by apply Forall_take | done |].
      by apply Forall_drop.
  - split_ands; try done. apply appendBody_geometric; [done | lia].
Qed.

(** One iteration of the loop ends in one of three ways. *)

Lemma take_slice_partial d slice : decoder_ok d -> 1 <= zlen slice < expected d - filled d ->
  Forall is_byte slice ->
  decoder_ok (take_slice d slice) /\ pending (take_slice d slice) = pending d ++ slice.
Proof.
  intros Hd Hs Hb. destruct (take_slice_header d slice Hd ltac:(lia) Hb) as (Hh & Hhb & Hg).
  pose proof (take_slice_pending d slice Hd ltac:(lia)) as Hp. destruct Hd.
  destruct dok_phase0 as [(? & He & Hbody)|(? & Hc & Hi)].
  - split.
    + constructor; cbn; try done; [lia |]. left. case_if; [| lia]. split_ands; [frame_lia | done..].
    + rewrite <- Hp. unfold pending, take_slice; cbn. case_if; [| lia]. case_if; [| frame_lia]. done.
  - split.
    + constructor; cbn; try done; [lia |]. right. case_if; [lia |].
      rewrite appendBody_concat, zlen_app. split_ands; [lia | lia | done].
    + rewrite <- Hp. unfold pending, take_slice; cbn. case_if; [lia |]. case_if; [lia |]. done.
Qed.

Definition with_header (d : FrameDecoder) (hi : HeaderInfo) : FrameDecoder :=
  mkDecoder (lane d) (revision d) (header d) (body d) (filled d)
    (hi_length hi) (hi_metadataLength hi) (hi_kind hi) (offset d) (closed d).

Lemma header_complete d slice : decoder_ok d -> expected d = HEADER_BYTES ->
  zlen slice = expected d - filled d -> 1 <= zlen slice -> Forall is_byte slice ->
  header (take_slice d slice) = pending d ++ slice
  /\ forall hi, inspectHeader (header (take_slice d slice)) (lane d) (revision d) = inr hi ->
     decoder_ok (with_header (take_slice d slice) hi)
     /\ pending (with_header (take_slice d slice) hi) = pending d ++ slice
     /\ filled (take_slice d slice) < hi_length hi.
Proof.
  intros Hd He Hs Hs1 Hb. destruct (take_slice_header d slice Hd ltac:(lia) Hb) as (Hh & Hhb & Hg).
  pose proof (take_slice_pending d slice Hd ltac:(lia)) as Hp. destruct Hd.
  destruct dok_phase0 as [(Hf & _ & Hbody)|(Hf & Hc & Hi)].
  2: { apply inspect_inv in Hi as (pl & _ & Hl & _ & Hm & Hpl); [| done..]. cbn in *. frame_lia. }
  assert (Hhead : header (take_slice d slice) = pending d ++ slice).
  { rewrite <- Hp. case_if; [| lia]. rewrite ztake_all; [done |]. rewrite Hh. lia. }
  split; [done |]. intros hi Hi.
  pose proof (inspect_inv _ _ _ _ Hh Hhb Hi) as (pl & _ & Hl & _ & Hm & Hpl).
  assert (Hfill : filled (take_slice d slice) = HEADER_BYTES) by (cbn; lia).
  assert (Hbody' : body (take_slice d slice) = []) by (cbn; case_if; [done | lia]).
  split_ands.
  - constructor; cbn [with_header closed lane revision header filled expected body metadataLength kind];
      try done; rewrite ?Hfill; [frame_lia |].
    right. rewrite Hbody'. destruct hi. split_ands; [lia | done | exact Hi].
  - unfold pending at 1. cbn [with_header filled header body]. rewrite Hfill, Hbody', Z.ltb_irrefl.
    cbn [concat]. by rewrite app_nil_r.
  - rewrite Hfill. frame_lia.
Qed.

Lemma body_complete d slice : decoder_ok d -> expected d <> HEADER_BYTES ->
  zlen slice = expected d - filled d -> 1 <= zlen slice -> Forall is_byte slice ->
  let d1 := take_slice d slice in
  let f := mkFrame (kind d1) (copyRange (body d1) 0 (metadataLength d1))
             (copyRange (body d1) (metadataLength d1) (expected d1 - HEADER_BYTES)) in
  frame_ok f /\ frame_bytes (lane d) (revision d) f = pending d ++ slice
  /\ decoder_ok (resetPending d1) /\ pending (resetPending d1) = []
  /\ zlen (frame_bytes (lane d) (revision d) f) = expected d.
Proof.
  intros Hd He Hs Hs1 Hb d1 f. destruct (take_slice_header d slice Hd ltac:(lia) Hb) as (Hh & Hhb & Hg).
  pose proof (take_slice_pending d slice Hd ltac:(lia)) as Hp.
  pose proof (pending_len d Hd) as Hpl0. destruct Hd.
  destruct dok_phase0 as [(Hf & He' & _)|(Hf & Hc & Hi)]; [lia |].
  destruct (filled d <? HEADER_BYTES) eqn:Hlt; [lia |].
  assert (Hhd : header d1 = header d) by (unfold d1, take_slice; cbn; by rewrite Hlt).
  fold d1 in Hh, Hhb, Hg, Hp. rewrite Hhd in Hh, Hhb.
  destruct (inspect_inv _ _ _ _ Hh Hhb Hi) as (pl & Hhdr & Hl & Hk & Hm & Hpl).
  cbn [hi_length hi_metadataLength hi_kind] in *.
  assert (Hcb : zlen (concat (body d1)) = metadataLength d + pl).
  { apply (f_equal zlen) in Hp. rewrite !zlen_app, Hhd, Hh in Hp. lia. }
  assert (Hmd : frame_metadata f = ztake (metadataLength d) (concat (body d1))).
  { change (frame_metadata f) with (copyRange (body d1) 0 (metadataLength d)).
    rewrite copyRange_spec by lia. apply subarray_0. }
  assert (Hpd : frame_payload f = zdrop (metadataLength d) (concat (body d1))).
  { change (frame_payload f) with (copyRange (body d1) (metadataLength d) (expected d - HEADER_BYTES)).
    replace (expected d - HEADER_BYTES) with (zlen (concat (body d1))) by lia.
    rewrite copyRange_spec by lia. apply subarray_to_end. lia. }
  assert (Hml : zlen (frame_metadata f) = metadataLength d) by (rewrite Hmd; apply zlen_ztake; lia).
  assert (Hpll : zlen (frame_payload f) = pl) by (rewrite Hpd, zlen_zdrop; lia).
  assert (Hfb : frame_bytes (lane d) (revision d) f = pending d ++ slice).
  { unfold frame_bytes. rewrite Hml, Hpll. change (frame_kind f) with (kind d).
    rewrite <- Hhdr, Hmd, Hpd, ztake_zdrop, <- Hp, Hhd. done. }
  split_ands; try done.
  - unfold frame_ok. rewrite Hml, Hpll. change (frame_kind f) with (kind d). split_ands; try done; lia.
  - constructor; cbn; rewrite ?Hlt; try done. by left.
  - rewrite zlen_frame_bytes. lia.
Qed.

(** ** The loop of [read] *)

Record loop_result (ln rev : Z) (d : FrameDecoder) (input : list Z) (consumed emitted : Z)
    (out : list ByteFrame) (res : ReadResult) (d' : FrameDecoder) : Prop := mk_loop_result {
  lr_frames : exists new, frames res = out ++ new /\ Forall frame_ok new
    /\ (zlen out <= MAX_READ_FRAMES -> zlen (frames res) <= MAX_READ_FRAMES)
    /\ (emitted <= MAX_READ_BYTES ->
        emitted + lsum (fun f => zlen (frame_bytes ln rev f)) new <= MAX_READ_BYTES)
    /\ match status res with
       | error => closed d' = true /\ exists h e, zlen h = HEADER_BYTES
           /\ inspectHeader h ln rev = inl e
           /\ read_error res = Some (mkFailure (failure_code e) (offset d'))
           /\ pending d ++ subarray input consumed (consumedBytes res)
              = concat (map (frame_bytes ln rev) new) ++ h
       | _ => decoder_ok d' /\ lane d' = ln /\ revision d' = rev
           /\ pending d ++ subarray input consumed (consumedBytes res)
              = concat (map (frame_bytes ln rev) new) ++ pending d'
       end;
  lr_consumed : consumed <= consumedBytes res <= zlen input /\ consumedBytes res <= MAX_READ_BYTES;
  lr_status : match status res with
    | need_input => consumedBytes res = zlen input /\ read_error res = None
    | budget => consumedBytes res < zlen input /\ read_error res = None
        /\ (consumedBytes res = MAX_READ_BYTES \/ MAX_READ_FRAMES <= zlen (frames res)
            \/ exists new, frames res = out ++ new
               /\ MAX_READ_BYTES < emitted + lsum (fun f => zlen (frame_bytes ln rev f)) new + expected d')
    | error => True
    end;
  lr_offset : offset d' = offset d + (consumedBytes res - consumed);
  lr_progress : zlen out < MAX_READ_FRAMES -> emitted + expected d <= MAX_READ_BYTES ->
    consumed < zlen input -> consumed < MAX_READ_BYTES -> consumed < consumedBytes res;
}.

Lemma loop_result_stop ln rev d input consumed emitted out :
  decoder_ok d -> lane d = ln -> revision d = rev ->
  0 <= consumed <= zlen input -> consumed <= MAX_READ_BYTES ->
  (consumed <? zlen input) && (consumed <? MAX_READ_BYTES) = false
  \/ (MAX_READ_FRAMES <=? zlen out) || (MAX_READ_BYTES <? emitted + expected d) = true ->
  loop_result ln rev d input consumed emitted out
    (mkRead consumed out (if consumed <? zlen input then budget else need_input) None) d.
Proof.
  intros Hd <- <- Hc Hm Hstop. constructor; cbn [frames status consumedBytes read_error].
  - exists []. rewrite app_nil_r, lsum_nil. split_ands; [done | constructor | done | lia |].
    rewrite subarray_empty, app_nil_r by lia. cbn [map concat app]. by case_if.
  - lia.
  - case_if; [|split; [lia|done]]. split_ands; [lia|done|]. destruct Hstop as [Hstop|[Hstop|Hstop]%orb_true_iff]; [left; lia|right; left; lia|].
    right. right. exists []. rewrite app_nil_r, lsum_nil. split; [done|lia].
  - lia.
  - lia.
Qed.

(** An iteration that moved [slice] into the decoder composes with the rest. *)

Lemma loop_result_step ln rev d d1 input consumed count emitted emitted1 out new1 res d' :
  0 <= consumed -> 1 <= count -> consumed + count <= zlen input ->
  Forall frame_ok new1 ->
  pending d ++ subarray input consumed (consumed + count)
    = concat (map (frame_bytes ln rev) new1) ++ pending d1 ->
  emitted1 = emitted + lsum (fun f => zlen (frame_bytes ln rev f)) new1 ->
  offset d1 = offset d + count ->
  (zlen out <= MAX_READ_FRAMES -> zlen (out ++ new1) <= MAX_READ_FRAMES) ->
  (emitted <= MAX_READ_BYTES -> emitted1 <= MAX_READ_BYTES) ->
  loop_result ln rev d1 input (consumed + count) emitted1 (out ++ new1) res d' ->
  loop_result ln rev d input consumed emitted out res d'.
Proof.
  intros Hc0 Hc Hci Hok Hp -> Hoff Hout Hem [(new & Hf & Hnew & Hn & He & Hst) Hcons Hstat Ho _].
  assert (Hsub : forall x, x = consumedBytes res ->
    subarray input consumed x = subarray input consumed (consumed + count)
                                ++ subarray input (consumed + count) x).
  { intros x ->. unfold subarray.
    replace (consumedBytes res - consumed) with (count + (consumedBytes res - (consumed + count))) by lia.
    rewrite ztake_split by lia. f_equal; [f_equal; lia |]. rewrite zdrop_zdrop by lia. f_equal; lia. }
  constructor; [| lia | | lia | lia].
  2:{ destruct (status res); [done| |done]. destruct Hstat as (H1 & H2 & [H3|[H3|(new2 & H3 & H4)]]); split_ands; auto.
    right. right. exists (new1 ++ new2). rewrite H3, app_assoc, lsum_app. split; [done|lia]. }
  exists (new1 ++ new). split_ands.
  - by rewrite Hf, app_assoc.
  - by apply Forall_app.
  - auto.
  - rewrite lsum_app. lia.
  - rewrite map_app, concat_app, (Hsub _ eq_refl), app_assoc, Hp, <- !app_assoc.
    destruct (status res).
    1,2: destruct Hst as (? & ? & ? & ->); done.
    destruct Hst as (Hcl & h & e & Hh & Hi & Her & ->). split; [exact Hcl |]. exists h, e. split_ands; try done. by rewrite app_assoc.
Qed.

Lemma Forall_subarray {A} (P : A -> Prop) l from to : Forall P l -> Forall P (subarray l from to).
Proof. intros. unfold subarray, ztake, zdrop. by apply Forall_take, Forall_drop. Qed.

Lemma read_loop_spec fuel ln rev d input consumed emitted out res d' :
  decoder_ok d -> lane d = ln -> revision d = rev -> Forall is_byte input ->
  0 <= consumed <= zlen input -> consumed <= MAX_READ_BYTES ->
  read_loop fuel d input consumed emitted out = Some (res, d') ->
  loop_result ln rev d input consumed emitted out res d'.
Proof.
  revert d consumed emitted out. induction fuel as [|fuel IH]; [done |].
  intros d consumed emitted out Hd Hln Hrev Hin Hc Hm E. cbn [read_loop] in E. cbv zeta in E.
  destruct ((consumed <? zlen input) && (consumed <? MAX_READ_BYTES)) eqn:Hgo; cbn [negb] in E.
  2: { injection E as <- <-. apply loop_result_stop; auto. }
  destruct ((MAX_READ_FRAMES <=? zlen out) || (MAX_READ_BYTES <? emitted + expected d)) eqn:Hbud.
  { injection E as <- <-. apply loop_result_stop; auto. }
  pose proof (dok_filled d Hd) as Hfil.
  set (count := Z.min (expected d - filled d) _) in E.
  assert (Hcount : 1 <= count /\ count <= expected d - filled d /\ consumed + count <= zlen input
                   /\ consumed + count <= MAX_READ_BYTES) by lia.
  set (slice := subarray input consumed (consumed + count)) in E.
  assert (Hsl : zlen slice = count) by (unfold slice; rewrite zlen_subarray; lia).
  assert (Hsb : Forall is_byte slice) by (by apply Forall_subarray).
  destruct (filled (take_slice d slice) =? expected (take_slice d slice)) eqn:Hfull; cbn [negb] in E.
  2: { cbn in Hfull. destruct (take_slice_partial d slice Hd ltac:(lia) Hsb) as [Hd1 Hp1].
       apply IH in E; try done; [| lia..]. rewrite <- (app_nil_r out) in E.
       eapply (loop_result_step _ _ d _ _ _ count _ _ _ []); [lia | lia | lia | done | | | | | | exact E];
         rewrite ?app_nil_r, ?lsum_nil; try done; cbn; lia. }
  change (expected (take_slice d slice)) with (expected d) in E, Hfull.
  change (filled (take_slice d slice)) with (filled d + zlen slice) in E, Hfull.
  destruct (expected d =? HEADER_BYTES) eqn:Hhd.
  - destruct (header_complete d slice Hd ltac:(lia) ltac:(lia) ltac:(lia) Hsb) as [Hh Hok].
    change (lane (take_slice d slice)) with (lane d) in E.
    change (revision (take_slice d slice)) with (revision d) in E.
    destruct (inspectHeader _ (lane d) (revision d)) as [e|hi] eqn:Hi.
    + injection E as <- <-. constructor; cbn; [| lia | done | lia | lia]. exists []. rewrite app_nil_r, lsum_nil.
      split_ands; [done | constructor | done | lia | done |].
      exists (pending d ++ slice), e. rewrite <- Hh at 1. rewrite <- Hh at 1. split_ands.
      * apply (take_slice_header d slice Hd ltac:(lia) Hsb).
      * by rewrite <- Hln, <- Hrev.
      * done.
      * done.
    + destruct (Hok hi eq_refl) as (Hd1 & Hp1 & Hlt). cbn [filled expected] in E.
      cbn in Hlt. case_if; [lia |].
      apply IH in E; try done; [| lia..]. rewrite <- (app_nil_r out) in E.
      eapply (loop_result_step _ _ d _ _ _ count _ _ _ []); [lia | lia | lia | done | | | | | | exact E];
        rewrite ?app_nil_r, ?lsum_nil; try done; cbn; lia.
  - destruct (body_complete d slice Hd ltac:(lia) ltac:(lia) ltac:(lia) Hsb)
      as (Hfok & Hfb & Hd1 & Hp1 & Hfl).
    change (filled (take_slice d slice)) with (filled d + zlen slice) in E.
    change (expected (take_slice d slice)) with (expected d) in E.
    rewrite Hfull in E. rewrite Hln, Hrev in Hfb, Hfl.
    change (expected (take_slice d slice)) with (expected d) in Hfb, Hfl, Hfok.
    apply IH in E; try done; [| lia..].
    eapply (loop_result_step _ _ d _ _ _ count _ _ _ [_]); [lia | lia | lia | | | | | | | exact E].
    + by constructor.
    + cbn [map concat]. rewrite Hp1, !app_nil_r. by symmetry.
    + rewrite lsum_cons, lsum_nil, Hfl. lia.
    + cbn. lia.
    + rewrite zlen_app, zlen_cons, zlen_nil. lia.
    + lia.
Qed.

(** The loop never runs out of the fuel [read] gives it. *)

Lemma read_loop_total fuel d input consumed emitted out :
  decoder_ok d -> Forall is_byte input -> 0 <= consumed <= zlen input ->
  zlen input - consumed < Z.of_nat fuel -> is_Some (read_loop fuel d input consumed emitted out).
Proof.
  revert d consumed emitted out. induction fuel as [|fuel IH]; intros d consumed emitted out Hd Hin Hc Hf.
  { lia. }
  cbn [read_loop]. cbv zeta.
  destruct ((consumed <? zlen input) && (consumed <? MAX_READ_BYTES)) eqn:Hgo; cbn [negb]; [| eauto].
  case_if; [eauto |]. pose proof (dok_filled d Hd) as Hfil.
  set (count := Z.min (expected d - filled d) _).
  assert (Hcount : 1 <= count /\ count <= expected d - filled d /\ consumed + count <= zlen input) by lia.
  set (slice := subarray input consumed (consumed + count)).
  assert (Hsl : zlen slice = count) by (unfold slice; rewrite zlen_subarray; lia).
  assert (Hsb : Forall is_byte slice) by (by apply Forall_subarray).
  destruct (filled (take_slice d slice) =? expected (take_slice d slice)) eqn:Hfull; cbn [negb].
  2: { cbn in Hfull. destruct (take_slice_partial d slice Hd ltac:(lia) Hsb) as [Hd1 _].
       apply IH; [done.. | lia | lia]. }
  change (expected (take_slice d slice)) with (expected d).
  change (expected (take_slice d slice)) with (expected d) in Hfull.
  change (filled (take_slice d slice)) with (filled d + zlen slice) in Hfull.
  destruct (expected d =? HEADER_BYTES) eqn:Hhd.
  - destruct (header_complete d slice Hd ltac:(lia) ltac:(lia) ltac:(lia) Hsb) as [_ Hok].
    change (lane (take_slice d slice)) with (lane d).
    change (revision (take_slice d slice)) with (revision d).
    destruct (inspectHeader _ (lane d) (revision d)) as [e|hi]; [eauto |].
    destruct (Hok hi eq_refl) as (Hd1 & _ & Hlt). cbn [filled expected].
    destruct (filled (take_slice d slice) =? hi_length hi) eqn:?; [lia |].
    apply IH; [done.. | lia | lia].
  - destruct (body_complete d slice Hd ltac:(lia) ltac:(lia) ltac:(lia) Hsb) as (_ & _ & Hd1 & _ & _).
    change (filled (take_slice d slice)) with (filled d + zlen slice).
    change (expected (take_slice d slice)) with (expected d). rewrite Hfull.
    apply IH; [done.. | lia | lia].
Qed.

Lemma expected_le d : decoder_ok d -> HEADER_BYTES <= expected d <= MAX_FRAME_BYTES.
Proof.
  intros []. destruct dok_phase0 as [(? & -> & _)|(? & _ & Hi)]; [frame_lia |].
  apply inspect_inv in Hi as (pl & _ & Hl & _ & Hm & Hpl); [| done..]. cbn in *. frame_lia.
Qed.

Lemma read_spec d input : decoder_ok d -> Forall is_byte input ->
  exists res d', read d input = Some (res, d')
  /\ loop_result (lane d) (revision d) d input 0 0 [] res d'
  /\ (input <> [] -> 1 <= consumedBytes res).
Proof.
  intros Hd Hin. pose proof (zlen_nonneg input). unfold read. rewrite (dok_open d Hd).
  destruct (read_loop_total (S (length input)) d input 0 0 [] Hd Hin) as [[res d'] E];
    [lia | unfold zlen; lia |].
  assert (Hr : loop_result (lane d) (revision d) d input 0 0 [] res d').
  { eapply read_loop_spec; eauto; frame_lia. }
  exists res, d'. split_ands; [done | done |]. intros Hne.
  assert (0 < zlen input) by (destruct input; [done |]; rewrite zlen_cons; pose proof (zlen_nonneg input); lia).
  pose proof (expected_le d Hd). pose proof (lr_progress _ _ _ _ _ _ _ _ _ Hr) as Hp.
  rewrite zlen_nil in Hp. frame_lia.
Qed.

(** ** Encoded frames are a prefix-free code *)

Arguments frame_bytes : simpl never.

Lemma frame_inspect ln rev f : frame_ok f ->
  inspectHeader (ztake HEADER_BYTES (frame_bytes ln rev f)) ln rev
  = inr (mkHeaderInfo (zlen (frame_bytes ln rev f)) (zlen (frame_metadata f)) (frame_kind f)).
Proof.
  intros (Hk & Hm & Hp). pose proof (zlen_nonneg (frame_payload f)).
  unfold frame_bytes at 1. rewrite ztake_app_le, ztake_all by (rewrite zlen_mk_header; lia).
  rewrite inspect_mk_header by (done || lia). by rewrite zlen_frame_bytes.
Qed.

Lemma frame_bytes_inj ln rev f g x y : frame_ok f -> frame_ok g ->
  frame_bytes ln rev f ++ x = frame_bytes ln rev g ++ y -> f = g /\ x = y.
Proof.
  intros Hf Hg E. pose proof (frame_inspect ln rev f Hf) as If. pose proof (frame_inspect ln rev g Hg) as Ig.
  assert (Hh : ztake HEADER_BYTES (frame_bytes ln rev f) = ztake HEADER_BYTES (frame_bytes ln rev g)).
  { rewrite <- (ztake_app_le _ _ x), E, ztake_app_le; [done | |]; rewrite zlen_frame_bytes;
      pose proof (zlen_nonneg (frame_payload f)); pose proof (zlen_nonneg (frame_payload g));
      pose proof (zlen_nonneg (frame_metadata f)); pose proof (zlen_nonneg (frame_metadata g)); lia. }
  rewrite Hh, Ig in If. assert (Hi : forall i j, @inr ProtocolFailure HeaderInfo i = inr j -> i = j) by congruence.
  apply Hi in If. pose proof (f_equal hi_length If) as Hl. pose proof (f_equal hi_metadataLength If) as Hm.
  pose proof (f_equal hi_kind If) as Hk. cbn [hi_length hi_metadataLength hi_kind] in Hl, Hm, Hk.
  apply app_inj_1 in E as [E ->]; [| by apply zlen_eq]. split; [| done].
  unfold frame_bytes in E. apply app_inj_1 in E as [_ E]; [| done].
  apply app_inj_1 in E as [Em Ep]; [| by apply zlen_eq].
  destruct f, g; cbn in *. congruence.
Qed.

Lemma frames_cancel ln rev fs gs x : Forall frame_ok fs -> Forall frame_ok gs ->
  concat (map (frame_bytes ln rev) fs) ++ x = concat (map (frame_bytes ln rev) gs) ->
  exists gs', gs = fs ++ gs' /\ x = concat (map (frame_bytes ln rev) gs').
Proof.
  revert gs. induction fs as [|f fs IH]; intros gs Hfs Hgs E; [by exists gs |].
  apply Forall_cons in Hfs as [Hf Hfs]. cbn in E. rewrite <- app_assoc in E.
  destruct gs as [|g gs].
  { apply (f_equal zlen) in E. rewrite !zlen_app, zlen_frame_bytes in E. cbn in E.
    destruct Hf as (_ & ? & _). pose proof (zlen_nonneg (frame_payload f)).
    pose proof (zlen_nonneg (concat (map (frame_bytes ln rev) fs))). pose proof (zlen_nonneg x).
    change (zlen []) with 0 in E. frame_lia. }
  apply Forall_cons in Hgs as [Hg Hgs]. cbn in E.
  apply frame_bytes_inj in E as [-> E]; [| done..].
  destruct (IH gs Hfs Hgs E) as (gs' & -> & ->). by exists gs'.
Qed.

Lemma frame_prefix_16 ln rev gs h y : Forall frame_ok gs -> 0 < zlen h -> zlen h <= HEADER_BYTES ->
  h ++ y = concat (map (frame_bytes ln rev) gs) -> exists g gs', gs = g :: gs'
  /\ h = ztake (zlen h) (frame_bytes ln rev g).
Proof.
  intros Hgs H0 H16 E. destruct gs as [|g gs].
  { apply (f_equal zlen) in E. rewrite zlen_app in E. change (zlen (concat _)) with 0 in E.
    pose proof (zlen_nonneg y). lia. }
  exists g, gs. split; [done |]. cbn in E. apply Forall_cons in Hgs as [(_ & ? & _) _].
  rewrite <- (ztake_app_le (zlen h) (frame_bytes ln rev g) (concat (map (frame_bytes ln rev) gs))).
  - rewrite <- E, ztake_app_le, ztake_all by lia. done.
  - rewrite zlen_frame_bytes. pose proof (zlen_nonneg (frame_payload g)). frame_lia.
Qed.

(** A pending frame is never a whole number of frames. *)

Lemma pending_incomplete d gs : decoder_ok d -> Forall frame_ok gs ->
  pending d = concat (map (frame_bytes (lane d) (revision d)) gs) -> gs = [].
Proof.
  intros Hd Hgs E. destruct gs as [|g gs]; [done | exfalso].
  pose proof (pending_len d Hd) as Hl. pose proof Hgs as Hgs'. apply Forall_cons in Hgs as [Hg Hgs].
  assert (Hge : zlen (frame_bytes (lane d) (revision d) g) <= filled d).
  { rewrite <- Hl, E. cbn. rewrite zlen_app.
    pose proof (zlen_nonneg (concat (map (frame_bytes (lane d) (revision d)) gs))). lia. }
  pose proof Hg as (_ & Hm & _). rewrite zlen_frame_bytes in Hge.
  pose proof (zlen_nonneg (frame_payload g)).
  destruct (dok_phase d Hd) as [(? & ? & _)|(? & _ & Hi)]; [frame_lia |].
  assert (Hp : pending d = header d ++ concat (body d)) by (unfold pending; case_if; [lia | done]).
  rewrite Hp in E. pose proof (dok_header d Hd) as Hh.
  destruct (frame_prefix_16 (lane d) (revision d) (g :: gs) (header d) (concat (body d)))
    as (g' & gs' & Heq & Hhdr); [done | frame_lia | lia | done |].
  injection Heq as <- <-. rewrite Hh in Hhdr. pose proof (frame_inspect (lane d) (revision d) g Hg) as Ig.
  rewrite <- Hhdr, Hi in Ig. injection Ig as He _ _. rewrite zlen_frame_bytes in He.
  pose proof (dok_filled d Hd). lia.
Qed.

(** ** A caller that resubmits what a read left over *)

Inductive FeedResult :=
  | Fed (out : list ByteFrame) (d : FrameDecoder)
  | FeedError (out : list ByteFrame) (e : option ProtocolFailure).

Definition prepend (out : list ByteFrame) (r : FeedResult) : FeedResult :=
  match r with Fed l d => Fed (out ++ l) d | FeedError l e => FeedError (out ++ l) e end.

Fixpoint feed (fuel : nat) (d : FrameDecoder) (input : list Z) : option FeedResult :=
  match input, fuel with
  | [], _ => Some (Fed [] d)
  | _, O => None
  | _, S fuel =>
     match read d input with
     | None => None
     | Some (res, d') =>
        match status res with
        | error => Some (FeedError (frames res) (read_error res))
        | _ => prepend (frames res) <$> feed fuel d' (zdrop (consumedBytes res) input)
        end
     end
  end.

Fixpoint feed_chunks (d : FrameDecoder) (chunks : list (list Z)) : option FeedResult :=
  match chunks with
  | [] => Some (Fed [] d)
  | c :: rest =>
     match feed (length c) d c with
     | Some (Fed out d') => prepend out <$> feed_chunks d' rest
     | r => r
     end
  end.

Lemma feed_spec ln rev fuel d input later gs :
  decoder_ok d -> lane d = ln -> revision d = rev -> Forall is_byte input -> Forall frame_ok gs ->
  (length input <= fuel)%nat ->
  pending d ++ input ++ later = concat (map (frame_bytes ln rev) gs) ->
  exists out d' gs', feed fuel d input = Some (Fed out d') /\ gs = out ++ gs'
  /\ decoder_ok d' /\ lane d' = ln /\ revision d' = rev
  /\ pending d' ++ later = concat (map (frame_bytes ln rev) gs').
Proof.
  revert d input gs. induction fuel as [|fuel IH]; intros d input gs Hd Hln Hrev Hin Hgs Hfuel E.
  { destruct input; cbn in Hfuel; [| lia]. exists [], d, gs. by split_ands. }
  destruct input as [|b input]; [exists [], d, gs; by split_ands |].
  cbn [feed]. remember (b :: input) as inp eqn:Hinp.
  destruct (read_spec d inp Hd Hin) as (res & d1 & Hread & Hlr & Hprog).
  specialize (Hprog ltac:(by rewrite Hinp)). rewrite Hread. destruct Hlr as [Hfr Hcons _ _ _].
  destruct Hfr as (new & Hnew & Hnok & _ & _ & Hst). rewrite Hln, Hrev in Hst.
  rewrite <- (ztake_zdrop (consumedBytes res) inp), <- app_assoc, app_assoc in E.
  rewrite subarray_0 in Hst. cbn in Hnew. rewrite Hnew.
  destruct (status res) eqn:Hstatus.
  3: { exfalso. destruct Hst as (_ & h & e & Hh & Hi & _ & Hcat). rewrite Hcat, <- app_assoc in E.
       apply frames_cancel in E as (gs' & -> & E); [| done..]. apply Forall_app in Hgs as [_ Hgs].
       destruct (frame_prefix_16 ln rev gs' h _ Hgs ltac:(frame_lia) ltac:(lia) E) as (g & gs2 & -> & Hhg).
       apply Forall_cons in Hgs as [Hg _]. rewrite Hh in Hhg.
       rewrite Hhg, frame_inspect in Hi by done. discriminate. }
  1,2: destruct Hst as (Hd1 & Hl1 & Hr1 & Hcat); rewrite Hcat, <- app_assoc in E;
    apply frames_cancel in E as (gs' & -> & E); [| done..]; apply Forall_app in Hgs as [_ Hgs];
    assert (Hlen : (length (zdrop (consumedBytes res) inp) <= fuel)%nat)
      by (unfold zdrop; rewrite length_drop; lia);
    destruct (IH d1 (zdrop (consumedBytes res) inp) gs' Hd1 Hl1 Hr1 ltac:(by apply Forall_drop) Hgs Hlen E)
      as (out & d2 & gs2 & -> & -> & Hd2 & Hl2 & Hr2 & Hp2);
    exists (new ++ out), d2, gs2; rewrite app_assoc; by split_ands.
Qed.

Lemma feed_chunks_spec ln rev chunks d gs :
  decoder_ok d -> lane d = ln -> revision d = rev -> Forall (Forall is_byte) chunks -> Forall frame_ok gs ->
  pending d ++ concat chunks = concat (map (frame_bytes ln rev) gs) ->
  exists d', feed_chunks d chunks = Some (Fed gs d') /\ decoder_ok d' /\ pending d' = [].
Proof.
  revert d gs. induction chunks as [|c chunks IH]; intros d gs Hd Hln Hrev Hb Hgs E.
  - cbn in E. rewrite app_nil_r in E. rewrite <- Hln, <- Hrev in E.
    assert (gs = []) as -> by (eapply pending_incomplete; eauto). exists d. by split_ands.
  - apply Forall_cons in Hb as [Hc Hb]. cbn [concat] in E.
    destruct (feed_spec ln rev (length c) d c (concat chunks) gs)
      as (out & d1 & gs' & Hf & -> & Hd1 & Hl1 & Hr1 & Hp1); [done.. |].
    apply Forall_app in Hgs as [_ Hgs].
    destruct (IH d1 gs' Hd1 Hl1 Hr1 Hb Hgs Hp1) as (d2 & Hf2 & Hd2 & Hp2).
    exists d2. cbn. rewrite Hf, Hf2. done.
Qed.

Lemma frame_bytes_are_bytes ln rev f : lane_ok ln rev -> frame_ok f ->
  Forall is_byte (frame_metadata f) -> Forall is_byte (frame_payload f) ->
  Forall is_byte (frame_bytes ln rev f).
Proof.
  intros [Hl Hr] (Hk & Hm & Hp) Hbm Hbp. unfold frame_bytes. apply Forall_app. split.
  2: { by apply Forall_app. }
  assert (Hbe : forall v, 0 <= v < 2 ^ 24 -> Forall is_byte (be32 v)).
  { intros v Hv. unfold be32, is_byte.
    repeat constructor; try (apply Z.mod_pos_bound; lia); try (apply Z.div_pos; lia).
    all: try (apply Z.div_lt_upper_bound; lia). }
  unfold mk_header. pose proof (zlen_nonneg (frame_payload f)). unfold valid_kind in Hk.
  repeat (apply Forall_app; split); [| apply Hbe; frame_lia..].
  repeat constructor; lia.
Qed.

(** ** Reachable decoders *)

Inductive reached (ln rev : Z) : FrameDecoder -> Prop :=
  | reached_new : reached ln rev (newFrameDecoder ln rev)
  | reached_read d input res d' : reached ln rev d -> Forall is_byte input ->
      read d input = Some (res, d') -> reached ln rev d'
  | reached_finish d : reached ln rev d -> reached ln rev (snd (finish d)).

Lemma reached_ok ln rev d : lane_ok ln rev -> reached ln rev d ->
  closed d = true \/ (decoder_ok d /\ lane d = ln /\ revision d = rev).
Proof.
  intros Hl. induction 1 as [|d input res d' _ IH Hin E|d _ IH].
  - right. split_ands; [by apply new_decoder_ok | done..].
  - destruct IH as [Hc|(Hd & <- & <-)].
    + left. unfold read in E. rewrite Hc in E. by injection E as _ <-.
    + destruct (read_spec d input Hd Hin) as (res' & d2 & E2 & [(new & _ & _ & _ & _ & Hst) _ _ _ _] & _).
      rewrite E in E2. injection E2 as <- <-. destruct (status res); [right | right | left]; tauto.
  - left. unfold finish. by destruct (closed d) eqn:E.
Qed.

(** ** Properties *)

(** C1: encoding frames and decoding the resulting byte stream returns exactly
    the frames, however the stream is cut into chunks and however often a read
    stops at its budget: a caller that resubmits what a read left over gets
    every frame in order, no error, and an idle decoder. *)
Theorem frame_stream_roundtrip (ln rev : Z) (gs : list ByteFrame) (bs chunks : list (list Z)) :
  lane_ok ln rev ->
  Forall (fun g => Forall is_byte (frame_metadata g) /\ Forall is_byte (frame_payload g)) gs ->
  Forall2 (fun g b => encodeFrame ln rev (frame_kind g) (frame_metadata g) (frame_payload g) = inr b) gs bs ->
  concat chunks = concat bs ->
  exists d, feed_chunks (newFrameDecoder ln rev) chunks = Some (Fed gs d)
  /\ storageBytes d = 0 /\ fst (finish d) = inr tt.
Proof.
  intros Hl Hbytes Henc Hcat.
  assert (Hok : Forall frame_ok gs /\ bs = map (frame_bytes ln rev) gs).
  { clear Hbytes Hcat. induction Henc as [|g b gs bs E _ [IH1 IH2]]; [done |].
    assert (Hg : frame_ok g).
    { unfold encodeFrame in E. do 3 (case_if; [discriminate |]). bool_hyps. unfold frame_ok. split_ands; [done | lia..]. }
    split; [by constructor |]. rewrite (encodeFrame_ok _ _ _ Hl Hg) in E. injection E as <-.
    cbn. by rewrite IH2. }
  destruct Hok as [Hok ->].
  assert (Hcb : Forall (Forall is_byte) chunks).
  { assert (Hall : Forall is_byte (concat chunks)).
    { rewrite Hcat. clear Henc Hcat. induction gs as [|g gs IH]; [constructor |].
      apply Forall_cons in Hbytes as [[Hm Hp] Hbytes]. apply Forall_cons in Hok as [Hg Hok].
      cbn. apply Forall_app. split; [| by apply IH]. by apply frame_bytes_are_bytes. }
    clear -Hall. induction chunks as [|c chunks IH]; [constructor |].
    cbn in Hall. apply Forall_app in Hall as [? ?]. constructor; auto. }
  destruct (feed_chunks_spec ln rev chunks (newFrameDecoder ln rev) gs)
    as (d & Hf & Hd & Hp); [by apply new_decoder_ok | done | done | done | done | exact Hcat |].
  exists d. pose proof (pending_len d Hd) as Hfill. rewrite Hp in Hfill. change (zlen []) with 0 in Hfill.
  unfold storageBytes, finish. rewrite <- Hfill, (dok_open d Hd). done.
Qed.

Lemma frame_stream_roundtrip_witness :
  let f := mkFrame 1 [7; 8] [9] in
  let g := mkFrame 3 [5] [] in
  exists d, feed_chunks (newFrameDecoder 4 2)
    [[67; 80; 4; 2; 1; 0; 0; 0; 0; 0; 0; 2; 0; 0; 0; 1; 7]; [];
     [8; 9; 67; 80; 4; 2; 3; 0]; [0; 0; 0; 0; 0; 1; 0; 0; 0; 0; 5]] = Some (Fed [f; g] d)
  /\ storageBytes d = 0 /\ fst (finish d) = inr tt.
Proof.
  intros f g.
  apply (frame_stream_roundtrip 4 2 [f; g]
           [[67; 80; 4; 2; 1; 0; 0; 0; 0; 0; 0; 2; 0; 0; 0; 1; 7; 8; 9];
            [67; 80; 4; 2; 3; 0; 0; 0; 0; 0; 0; 1; 0; 0; 0; 0; 5]]).
  - split; lia.
  - repeat constructor; lia.
  - repeat constructor.
  - reflexivity.
Defined.

(** C20: [read] is total on every reachable open decoder and any byte input, and
    exact: what was pending followed by what it consumed is the encoding of the
    frames it returned followed by what is now pending (or by the rejected
    header, after which the decoder is closed).  It stays within its frame and
    byte budgets, makes progress on non-empty input and counts the bytes it
    consumed.  It answers [need-input] exactly when it consumed everything, and
    [budget] only with input left over and a budget spent: the bytes of the
    call, its 32 frames, or its output, into which the pending frame no longer
    fits.  An error carries the code of the rejected header and its end. *)
Theorem read_exact (ln rev : Z) (d : FrameDecoder) (input : list Z) :
  lane_ok ln rev -> reached ln rev d -> closed d = false -> Forall is_byte input ->
  exists res d', read d input = Some (res, d')
  /\ Forall frame_ok (frames res)
  /\ match status res with
     | error => closed d' = true /\ exists h e, inspectHeader h ln rev = inl e
         /\ read_error res = Some (mkFailure (failure_code e) (offset d'))
         /\ pending d ++ ztake (consumedBytes res) input
            = concat (map (frame_bytes ln rev) (frames res)) ++ h
     | _ => closed d' = false /\ read_error res = None
         /\ pending d ++ ztake (consumedBytes res) input
            = concat (map (frame_bytes ln rev) (frames res)) ++ pending d'
     end
  /\ zlen (frames res) <= MAX_READ_FRAMES
  /\ lsum (fun f => zlen (frame_bytes ln rev f)) (frames res) <= MAX_READ_BYTES
  /\ 0 <= consumedBytes res <= zlen input /\ consumedBytes res <= MAX_READ_BYTES
  /\ (input <> [] -> 1 <= consumedBytes res)
  /\ offset d' = offset d + consumedBytes res
  /\ match status res with
     | need_input => consumedBytes res = zlen input
     | budget => consumedBytes res < zlen input
         /\ (consumedBytes res = MAX_READ_BYTES \/ zlen (frames res) = MAX_READ_FRAMES
             \/ MAX_READ_BYTES < lsum (fun f => zlen (frame_bytes ln rev f)) (frames res) + expected d')
     | error => True
     end.
Proof.
  intros Hl Hr Ho Hin. destruct (reached_ok ln rev d Hl Hr) as [Hc|(Hd & <- & <-)]; [congruence |].
  destruct (read_spec d input Hd Hin) as (res & d' & E & [(new & Hf & Hok & Hn & He & Hst) Hc Hs Hoff _] & Hp).
  cbn in Hf. rewrite subarray_0 in Hst. rewrite <- Hf in *.
  specialize (Hn ltac:(by vm_compute)). exists res, d'. split_ands; try done; try lia.
  - destruct (status res).
    1,2: destruct Hst as (? & _ & _ & ?), Hs as (_ & Hs); split_ands; [by apply dok_open | by destruct Hs || done | done].
    destruct Hst as (? & h & e & _ & ? & ? & ?). split; [done |]. by exists h, e.
  - destruct (status res); [by destruct Hs| |done]. destruct Hs as (H1 & _ & H2). split; [done|].
    destruct H2 as [H2|[H2|(new' & Hnew & H2)]]; [by left|right; left; lia|]. right. right.
    cbn in Hnew. rewrite Hnew. lia.
Qed.

Lemma read_exact_witness :
  exists res d', read (newFrameDecoder 1 1) [67; 80; 9] = Some (res, d')
  /\ status res = need_input /\ offset d' = 3
  /\ match status res with need_input => consumedBytes res = 3 | _ => True end.
Proof.
  destruct (read_exact 1 1 (newFrameDecoder 1 1) [67; 80; 9])
    as (res & d' & E & _ & _ & _ & _ & _ & _ & _ & Hoff & H).
  - split; lia.
  - constructor.
  - reflexivity.
  - repeat constructor; lia.
  - exists res, d'. pose proof E as E'. vm_compute in E'. injection E' as Hres _.
    assert (Hs : status res = need_input) by (rewrite <- Hres; reflexivity).
    assert (Hb : consumedBytes res = 3) by (rewrite <- Hres; reflexivity).
    rewrite Hs in *. split; [exact E|]. split; [reflexivity|]. split; [rewrite Hoff, Hb; reflexivity | exact H].
Defined.

(** A reachable decoder owns exactly the bytes it has not turned into
    frames yet: [storageBytes] is the length of the pending frame (rounded up
    to the header buffer), always below one maximal frame, in at most 16
    segments, each more than twice as long as the next. *)
Theorem decoder_storage_bounded (ln rev : Z) (d : FrameDecoder) :
  lane_ok ln rev -> reached ln rev d -> closed d = false ->
  retainedBytes d = zlen (pending d)
  /\ storageBytes d = (if zlen (pending d) =? 0 then 0 else Z.max HEADER_BYTES (zlen (pending d)))
  /\ storageBytes d < MAX_FRAME_BYTES /\ zlen (body d) <= 16 /\ geometric (body d).
Proof.
  intros Hl Hr Ho. destruct (reached_ok ln rev d Hl Hr) as [Hc|(Hd & <- & <-)]; [congruence |].
  pose proof (pending_len d Hd) as Hp. pose proof (expected_le d Hd). pose proof (dok_filled d Hd).
  assert (Hb : zlen (concat (body d)) < MAX_FRAME_BYTES).
  { destruct (dok_phase d Hd) as [(_ & _ & ->)|(_ & -> & _)]; [done | frame_lia]. }
  unfold retainedBytes, storageBytes. rewrite Hp. split_ands; try done; try apply Hd.
  - case_if; frame_lia.
  - pose proof (geometric_count _ (dok_geometric d Hd)).
    destruct (decide (zlen (body d) <= 16)); [done | exfalso].
    assert (2 ^ 17 <= 2 ^ zlen (body d)) by (apply Z.pow_le_mono_r; lia). frame_lia.
Qed.

Lemma decoder_storage_bounded_witness :
  exists d, reached 1 1 d /\ zlen (body d) = 1 /\ storageBytes d < MAX_FRAME_BYTES.
Proof.
  eexists. match goal with |- reached _ _ ?x /\ _ => assert (Hr : reached 1 1 x) end.
  { eapply (reached_read 1 1 _ [67; 80; 1; 1; 2; 0; 0; 0; 0; 0; 0; 3; 0; 0; 0; 1; 7; 7]);
      [constructor | repeat constructor; lia | vm_compute; reflexivity]. }
  split; [exact Hr |]. split; [reflexivity |].
  apply (decoder_storage_bounded 1 1 _ ltac:(split; lia) Hr). reflexivity.
Defined.
