(* ===== verification/ReplayWindow.v ===== *)
(** * The replay window (packages/terminal-worker/src/replay-window.ts)

    A ring of the latest run events.  An entry is a shared object: the window
    holds one reference, and every pin and every selected slice holds one more,
    so an evicted entry keeps its memory until its last holder releases it.  The
    model keeps a heap of entries, pins and slices, and reserves memory from any
    [LeaseAccount]. *)

From S2P Require Import Prelude Json Protocol LeaseAccount Retained.

Definition FACT_RECORD_BYTES : Z := 256.

Definition SELECTED_REFERENCE_BYTES : Z := 64.

Record RetainedFact := mkFact { fact_event : RunEvent; fact_bytes : option (list Z) }.

Definition retainedFactCharge (fact : RetainedFact) : Z :=
  let paletteObjects :=
    match ev_fact (fact_event fact) with
    | appearance a => 64 * zlen (palette a)
    | _ => 0
    end in
  FACT_RECORD_BYTES + 2 * slen (stringify (RunEvent_json (fact_event fact))) + paletteObjects
  + match fact_bytes fact with Some b => zlen b | None => 0 end.

Record Entry := mkEntry {
  entry_fact : RetainedFact;
  entry_lease : nat;
  refs : Z;
  inWindow : bool;
  charge : Z;
}.

Definition seq_of (e : Entry) : Z := ev_seq (fact_event (entry_fact e)).

Definition set_refs (e : Entry) (n : Z) : Entry :=
  mkEntry (entry_fact e) (entry_lease e) n (inWindow e) (charge e).

Definition leave_window (e : Entry) : Entry :=
  mkEntry (entry_fact e) (entry_lease e) (refs e) false (charge e).

Record Pin := mkPin { pin_entry : nat; pin_released : bool }.

Record Slice := mkSlice { slice_facts : list nat; slice_references : option nat; slice_released : bool }.

Record ReplayWindow (S : Type) := mkWindow {
  maxBytes : Z;
  maxEvents : Z;
  entries : list nat;
  bytes : Z;
  latestSeq : Z;
  heap : list Entry;
  pins : list Pin;
  slices : list Slice;
  account : S;
}.

Arguments mkWindow {S} _ _ _ _ _ _ _ _ _.
Arguments maxBytes {S} _.
Arguments maxEvents {S} _.
Arguments entries {S} _.
Arguments bytes {S} _.
Arguments latestSeq {S} _.
Arguments heap {S} _.
Arguments pins {S} _.
Arguments slices {S} _.
Arguments account {S} _.

Section operations.
Context {S : Type} `{LeaseAccount S}.
Implicit Types w : ReplayWindow S.

Definition newReplayWindow (mb me : Z) (s : S) : ReplayWindow S :=
  mkWindow mb me [] 0 0 [] [] [] s.

Definition with_heap w (h : list Entry) : ReplayWindow S :=
  mkWindow (maxBytes w) (maxEvents w) (entries w) (bytes w) (latestSeq w) h (pins w) (slices w) (account w).

Definition with_account w (s : S) : ReplayWindow S :=
  mkWindow (maxBytes w) (maxEvents w) (entries w) (bytes w) (latestSeq w) (heap w) (pins w) (slices w) s.

Definition retainedEvents w : Z := zlen (entries w).

Definition retainedBytes w : Z := bytes w.

(** [#release(entry)] *)

Definition release_entry (id : nat) w : ReplayWindow S :=
  match heap w !! id with
  | None => w
  | Some e =>
     let e' := set_refs e (refs e - 1) in
     let w := with_heap w (<[id := e']> (heap w)) in
     if refs e' =? 0 then with_account w (la_release (entry_lease e) (account w)) else w
  end.

(** [#evict()]: the oldest entry leaves the window. *)

Definition drop_entry (id : nat) (rest : list nat) w : ReplayWindow S :=
  match heap w !! id with
  | None => w
  | Some e =>
     release_entry id
       (mkWindow (maxBytes w) (maxEvents w) rest (bytes w - charge e) (latestSeq w)
          (<[id := leave_window e]> (heap w)) (pins w) (slices w) (account w))
  end.

Definition evict w : ReplayWindow S :=
  match entries w with
  | [] => w
  | id :: rest => drop_entry id rest w
  end.

Fixpoint clear_loop (fuel : nat) w : ReplayWindow S :=
  match fuel with
  | O => w
  | Datatypes.S fuel => match entries w with [] => w | _ => clear_loop fuel (evict w) end
  end.

Definition clear w : ReplayWindow S := clear_loop (length (entries w)) w.

Definition evictOldest w : bool * ReplayWindow S :=
  match entries w with [] => (false, w) | _ => (true, evict w) end.

Definition unpinned w (id : nat) : bool :=
  match heap w !! id with Some e => refs e =? 1 | None => false end.

Definition evictOldestUnpinned w : bool * ReplayWindow S :=
  match list_find (fun id => unpinned w id = true) (entries w) with
  | None => (false, w)
  | Some (index, id) => (true, drop_entry id (delete index (entries w)) w)
  end.

(** The first loop of [append]. *)

Fixpoint make_room (fuel : nat) (chg : Z) w : ReplayWindow S :=
  match fuel with
  | O => w
  | Datatypes.S fuel =>
     if negb (zlen (entries w) =? 0)
        && ((maxEvents w <=? zlen (entries w)) || (maxBytes w <? bytes w + chg))
     then make_room fuel chg (evict w) else w
  end.

(** The second loop of [append]: reserve, evicting the oldest entry each time
    the account refuses. *)

Fixpoint reserve_evicting (fuel : nat) (chg : Z) w : option nat * ReplayWindow S :=
  match la_reserve chg (account w) with
  | Some (l, s) => (Some l, with_account w s)
  | None =>
     match entries w, fuel with
     | _ :: _, Datatypes.S fuel => reserve_evicting fuel chg (evict w)
     | _, _ => (None, w)
     end
  end.

Definition push_entry (fact : RetainedFact) (l : nat) (chg : Z) w : ReplayWindow S :=
  mkWindow (maxBytes w) (maxEvents w) (entries w ++ [length (heap w)]) (bytes w + chg) (latestSeq w)
    (heap w ++ [mkEntry fact l 1 true chg]) (pins w) (slices w) (account w).

Definition append (fact : RetainedFact) w : ReplayWindow S :=
  let seq := ev_seq (fact_event fact) in
  if seq <=? latestSeq w then w
  else
    let w := mkWindow (maxBytes w) (maxEvents w) (entries w) (bytes w) seq (heap w) (pins w)
               (slices w) (account w) in
    let chg := retainedFactCharge fact in
    if maxBytes w <? chg then clear w
    else
      let w := make_room (length (entries w)) chg w in
      match reserve_evicting (length (entries w)) chg w with
      | (Some l, w) => push_entry fact l chg w
      | (None, w) => w
      end.

Definition has_seq w (seq : Z) (id : nat) : bool :=
  match heap w !! id with Some e => seq_of e =? seq | None => false end.

(** [entries.findLast(...)] *)

Definition find_last (P : nat -> bool) (l : list nat) : option nat :=
  snd <$> list_find (fun id => P id = true) (rev l).

Definition pin (seq : Z) w : option nat * ReplayWindow S :=
  match find_last (has_seq w seq) (entries w) with
  | None => (None, w)
  | Some id =>
     match heap w !! id with
     | None => (None, w)
     | Some e =>
        (Some (length (pins w)),
         mkWindow (maxBytes w) (maxEvents w) (entries w) (bytes w) (latestSeq w)
           (<[id := set_refs e (refs e + 1)]> (heap w)) (pins w ++ [mkPin id false]) (slices w) (account w))
     end
  end.

Definition release_pin (pid : nat) w : ReplayWindow S :=
  match pins w !! pid with
  | None => w
  | Some p =>
     if pin_released p then w
     else release_entry (pin_entry p)
       (mkWindow (maxBytes w) (maxEvents w) (entries w) (bytes w) (latestSeq w) (heap w)
          (<[pid := mkPin (pin_entry p) true]> (pins w)) (slices w) (account w))
  end.

(** The contiguity loop of [select]: the next expected sequence, or [None] when
    the code returns undefined. *)

Fixpoint select_loop (h : list Entry) (afterSeq throughSeq expected : Z) (ids : list nat) : option Z :=
  match ids with
  | [] => Some expected
  | id :: rest =>
     match h !! id with
     | None => select_loop h afterSeq throughSeq expected rest
     | Some e =>
        if seq_of e <=? afterSeq then select_loop h afterSeq throughSeq expected rest
        else if throughSeq <? seq_of e then Some expected
        else if negb (seq_of e =? expected) then None
        else match ev_fact (fact_event (entry_fact e)) with
             | resize _ true => None
             | _ => select_loop h afterSeq throughSeq (expected + 1) rest
             end
     end
  end.

Definition in_range (h : list Entry) (afterSeq throughSeq : Z) (id : nat) : bool :=
  match h !! id with
  | Some e => (afterSeq <? seq_of e) && (seq_of e <=? throughSeq)
  | None => false
  end.

Fixpoint retain_all (ids : list nat) (h : list Entry) : list Entry :=
  match ids with
  | [] => h
  | id :: rest =>
     match h !! id with
     | Some e => retain_all rest (<[id := set_refs e (refs e + 1)]> h)
     | None => retain_all rest h
     end
  end.

Definition add_slice (sl : Slice) w : option nat * ReplayWindow S :=
  (Some (length (slices w)),
   mkWindow (maxBytes w) (maxEvents w) (entries w) (bytes w) (latestSeq w) (heap w) (pins w)
     (slices w ++ [sl]) (account w)).

Definition select (afterSeq throughSeq : Z) w : option nat * ReplayWindow S :=
  if (throughSeq <? afterSeq) || (latestSeq w <? throughSeq) then (None, w)
  else if afterSeq =? throughSeq then add_slice (mkSlice [] None false) w
  else
    let count := throughSeq - afterSeq in
    if maxEvents w <? count then (None, w)
    else match select_loop (heap w) afterSeq throughSeq (afterSeq + 1) (entries w) with
         | None => (None, w)
         | Some expected =>
            if negb (expected =? throughSeq + 1) then (None, w)
            else match la_reserve (64 + SELECTED_REFERENCE_BYTES * count) (account w) with
                 | None => (None, w)
                 | Some (references, s) =>
                    let selected := List.filter (in_range (heap w) afterSeq throughSeq) (entries w) in
                    add_slice (mkSlice selected (Some references) false)
                      (with_heap (with_account w s) (retain_all selected (heap w)))
                 end
         end.

Definition release_slice (sid : nat) w : ReplayWindow S :=
  match slices w !! sid with
  | None => w
  | Some sl =>
     if slice_released sl then w
     else
       let w := mkWindow (maxBytes w) (maxEvents w) (entries w) (bytes w) (latestSeq w) (heap w) (pins w)
                  (<[sid := mkSlice (slice_facts sl) (slice_references sl) true]> (slices w)) (account w) in
       let w := foldl (fun w id => release_entry id w) w (slice_facts sl) in
       match slice_references sl with
       | Some l => with_account w (la_release l (account w))
       | None => w
       end
  end.

End operations.

(** ** Reference counts and leases *)

Definition ind (id k : nat) : Z := if decide (k = id) then 1 else 0.

Definition held (ids : list nat) (id : nat) : Z := lsum (ind id) ids.

Definition pin_ref (id : nat) (p : Pin) : Z := if pin_released p then 0 else ind id (pin_entry p).

Definition slice_ref (id : nat) (sl : Slice) : Z :=
  if slice_released sl then 0 else held (slice_facts sl) id.

Definition slice_cost (sl : Slice) : Z := 64 + SELECTED_REFERENCE_BYTES * zlen (slice_facts sl).

Definition heap_owned (e : Entry) : option (nat * Z) :=
  if 0 <? refs e then Some (entry_lease e, charge e) else None.

Definition slice_owned (sl : Slice) : option (nat * Z) :=
  if slice_released sl then None else (fun l => (l, slice_cost sl)) <$> slice_references sl.

(** What the window itself retains of an entry, whatever its count. *)

Definition stat (e : Entry) : RetainedFact * nat * Z := (entry_fact e, entry_lease e, charge e).

Definition stat_fact (x : RetainedFact * nat * Z) : RetainedFact := x.1.1.

Definition stat_seq (x : RetainedFact * nat * Z) : Z := ev_seq (fact_event (stat_fact x)).

Definition stat_charge (x : RetainedFact * nat * Z) : Z := x.2.

Definition view (h : list Entry) (ids : list nat) : list (RetainedFact * nat * Z) :=
  omap (fun id => stat <$> h !! id) ids.

Section invariant.
Context {S : Type} `{LeaseAccount S}.
Implicit Types w : ReplayWindow S.

Definition owned w : list (nat * Z) := omap heap_owned (heap w) ++ omap slice_owned (slices w).

Definition holders w (id : nat) : Z :=
  held (entries w) id + lsum (pin_ref id) (pins w) + lsum (slice_ref id) (slices w).

(** [counted foreign extra w]: every entry's count is the number of its holders
    plus [extra] references that are about to be released. *)

Record counted (foreign : Z) (extra : nat -> Z) w : Prop := mk_counted {
  c_ledger : ledger foreign (account w) (owned w);
  c_refs : forall id e, heap w !! id = Some e -> refs e = holders w id + extra id;
  c_entries : Forall (fun id => (id < length (heap w))%nat) (entries w);
  c_pins : Forall (fun p => (pin_entry p < length (heap w))%nat) (pins w);
  c_slices : Forall (fun sl => Forall (fun id => (id < length (heap w))%nat) (slice_facts sl)) (slices w);
}.

Definition window w : list (RetainedFact * nat * Z) := view (heap w) (entries w).

Record shaped w : Prop := mk_shaped {
  s_bytes : bytes w = lsum stat_charge (window w);
  s_max_bytes : bytes w <= Z.max 0 (maxBytes w);
  s_max_events : zlen (entries w) <= Z.max 1 (maxEvents w);
  s_sorted : StronglySorted Z.lt (map stat_seq (window w));
  s_latest : Forall (fun x => stat_seq x <= latestSeq w) (window w);
  s_charge : Forall (fun x => stat_charge x = retainedFactCharge (stat_fact x)) (window w);
  s_nodup : NoDup (entries w);
}.

Record ok (foreign : Z) w : Prop := mk_window_ok {
  ok_counted : counted foreign (fun _ => 0) w;
  ok_shaped : shaped w;
}.

Lemma retainedFactCharge_pos f : FACT_RECORD_BYTES <= retainedFactCharge f.
Proof.
  unfold retainedFactCharge. pose proof (slen_nonneg (stringify (RunEvent_json (fact_event f)))).
  assert (0 <= match ev_fact (fact_event f) with appearance a => 64 * zlen (palette a) | _ => 0 end).
  { destruct (ev_fact (fact_event f)); try lia. pose proof (zlen_nonneg (palette a)). lia. }
  assert (0 <= match fact_bytes f with Some b => zlen b | None => 0 end).
  { destruct (fact_bytes f); [apply zlen_nonneg | lia]. }
  lia.
Qed.

Lemma ind_nonneg id k : 0 <= ind id k.
Proof. unfold ind. case_decide; lia. Qed.

Lemma held_nonneg ids id : 0 <= held ids id.
Proof. apply lsum_nonneg. intros. apply ind_nonneg. Qed.

Lemma held_cons k ids id : held (k :: ids) id = ind id k + held ids id.
Proof. apply lsum_cons. Qed.

Lemma held_app ids ids' id : held (ids ++ ids') id = held ids id + held ids' id.
Proof. apply lsum_app. Qed.

Lemma holders_nonneg w id : 0 <= holders w id.
Proof.
  unfold holders. pose proof (held_nonneg (entries w) id).
  assert (0 <= lsum (pin_ref id) (pins w)).
  { apply lsum_nonneg. intros p _. unfold pin_ref. case_if; [lia | apply ind_nonneg]. }
  assert (0 <= lsum (slice_ref id) (slices w)).
  { apply lsum_nonneg. intros p _. unfold slice_ref. case_if; [lia | apply held_nonneg]. }
  lia.
Qed.

(** [release_entry] gives back one reference, and the lease with the last one. *)

Lemma release_entry_counted foreign extra id w :
  counted foreign extra w -> 1 <= extra id ->
  counted foreign (fun k => extra k - ind k id) (release_entry id w).
Proof.
  intros [Hl Hr He Hp Hs] Hex. unfold release_entry.
  destruct (heap w !! id) as [e|] eqn:Hid.
  2: { constructor; try done. intros k e Hk. rewrite (Hr k e Hk). unfold ind. rewrite decide_False; [lia |].
       intros <-. congruence. }
  pose proof (Hr id e Hid) as Hre. pose proof (holders_nonneg w id). cbn [set_refs refs].
  assert (Hcommon : forall a, ledger foreign a
      (omap heap_owned (<[id := set_refs e (refs e - 1)]> (heap w)) ++ omap slice_owned (slices w)) ->
    counted foreign (fun k => extra k - ind k id)
      (mkWindow (maxBytes w) (maxEvents w) (entries w) (bytes w) (latestSeq w)
         (<[id := set_refs e (refs e - 1)]> (heap w)) (pins w) (slices w) a)).
  { intros a Ha. constructor; cbn; rewrite ?length_insert; try done.
    intros k e'. rewrite list_lookup_insert_Some. intros [(<- & <- & _)|[Hne Hk]].
    - cbn. unfold ind at 1. rewrite decide_True by done. change (holders _ id) with (holders w id). lia.
    - unfold ind at 1. rewrite decide_False by done. change (holders _ k) with (holders w k).
      rewrite (Hr k e' Hk). lia. }
  destruct (refs e - 1 =? 0) eqn:Hz.
  - apply Hcommon. cbn. apply (ledger_release foreign (account w) _ (entry_lease e) (charge e)).
    unfold owned in Hl. rewrite (omap_insert_none heap_owned _ id e (set_refs e (refs e - 1))
      (entry_lease e, charge e)) in Hl; [exact Hl | done | |]; unfold heap_owned; cbn; case_if; done || lia.
  - apply Hcommon. rewrite (omap_insert_same heap_owned _ id e); [exact Hl | done |].
    unfold heap_owned; cbn. do 2 case_if; done || lia.
Qed.

Lemma release_entry_frame id w :
  let w' := release_entry id w in
  entries w' = entries w /\ bytes w' = bytes w /\ latestSeq w' = latestSeq w
  /\ maxBytes w' = maxBytes w /\ maxEvents w' = maxEvents w /\ pins w' = pins w
  /\ slices w' = slices w /\ fmap stat (heap w') = fmap stat (heap w).
Proof.
  unfold release_entry. destruct (heap w !! id) as [e|] eqn:Hid; [| done].
  assert (fmap stat (<[id := set_refs e (refs e - 1)]> (heap w)) = fmap stat (heap w)).
  { rewrite list_fmap_insert. cbn. apply list_insert_id. by rewrite list_lookup_fmap, Hid. }
  by case_if.
Qed.

Lemma counted_ext foreign x y w : (forall k, x k = y k) -> counted foreign x w -> counted foreign y w.
Proof. intros E [H1 H2 H3 H4 H5]. constructor; try done. intros id e He. rewrite (H2 id e He). by rewrite E. Qed.

Lemma ind_sym k id : ind k id = ind id k.
Proof. unfold ind. do 2 case_decide; congruence. Qed.

Lemma view_stat (h h' : list Entry) ids : fmap stat h = fmap stat h' -> view h ids = view h' ids.
Proof.
  intros E. unfold view. apply list_omap_ext. induction ids; constructor; [| done].
  by rewrite <- !list_lookup_fmap, E.
Qed.

Lemma view_app h l1 l2 : view h (l1 ++ l2) = view h l1 ++ view h l2.
Proof. apply omap_app. Qed.

Lemma view_hit h id e rest : h !! id = Some e -> view h (id :: rest) = stat e :: view h rest.
Proof. intros E. unfold view. cbn. by rewrite E. Qed.

Lemma stat_insert (h : list Entry) id e e' : h !! id = Some e -> stat e' = stat e -> fmap stat (<[id := e']> h) = fmap stat h.
Proof.
  intros Hid E. rewrite list_fmap_insert. apply list_insert_id. by rewrite list_lookup_fmap, Hid, E.
Qed.

(** [evicts w w']: [w'] is [w] after some of its oldest or unpinned entries left. *)

Record evicts w w' : Prop := mk_evicts {
  ev_entries : sublist (entries w') (entries w);
  ev_stat : fmap stat (heap w') = fmap stat (heap w);
  ev_latest : latestSeq w' = latestSeq w;
  ev_limits : maxBytes w' = maxBytes w /\ maxEvents w' = maxEvents w;
  ev_holders : pins w' = pins w /\ slices w' = slices w;
}.

#[global] Instance evicts_preorder : PreOrder evicts.
Proof.
  split; [by intros w; constructor |].
  intros a b c [A1 A2 A3 [A4 A5] [A6 A7]] [B1 B2 B3 [B4 B5] [B6 B7]].
  constructor; repeat split; try congruence. by etrans.
Qed.

Lemma view_sublist h l l' : sublist l' l -> sublist (view h l') (view h l).
Proof.
  induction 1 as [|x l' l Hs IH|x l' l Hs IH]; [constructor | |]; unfold view in *; cbn;
    destruct (h !! x); cbn; [by constructor | done | by constructor | done].
Qed.

Lemma evicts_window w w' : evicts w w' -> sublist (window w') (window w).
Proof.
  intros [A1 A2 _ _ _]. unfold window. rewrite (view_stat _ _ _ A2). by apply view_sublist.
Qed.

Lemma drop_entry_evicts w l1 id l2 e : entries w = l1 ++ id :: l2 -> heap w !! id = Some e ->
  evicts w (drop_entry id (l1 ++ l2) w) /\ entries (drop_entry id (l1 ++ l2) w) = l1 ++ l2
  /\ bytes (drop_entry id (l1 ++ l2) w) = bytes w - charge e.
Proof.
  intros He Hid. unfold drop_entry. rewrite Hid.
  match goal with |- context [release_entry id ?x] => pose proof (release_entry_frame id x) as Hf end.
  cbn zeta in Hf. cbn [entries bytes latestSeq maxBytes maxEvents pins slices heap] in Hf.
  destruct Hf as (E1 & E2 & E3 & E4 & E5 & E6 & E7 & E8). split_and!; [| done..].
  constructor; [| | done..].
  - rewrite E1, He. apply sublist_app; [done |]. by apply sublist_cons.
  - rewrite E8. by apply (stat_insert _ id e).
Qed.

Lemma drop_entry_counted foreign w l1 id l2 e : counted foreign (fun _ => 0) w ->
  entries w = l1 ++ id :: l2 -> heap w !! id = Some e ->
  counted foreign (fun _ => 0) (drop_entry id (l1 ++ l2) w).
Proof.
  intros [Hl Hr He Hp Hs] E Hid. unfold drop_entry. rewrite Hid.
  eapply counted_ext; [| apply (release_entry_counted foreign (fun k => ind k id))].
  - intros k. cbn beta. lia.
  - constructor; unfold owned; cbn; rewrite ?length_insert; try done.
    + by rewrite (omap_insert_same heap_owned _ id e).
    + intros k e' Hk. unfold holders. cbn. assert (refs e' = holders w k) as ->.
      { apply list_lookup_insert_Some in Hk as [(<- & <- & _)|[_ Hk]]; cbn.
        - rewrite (Hr _ _ Hid). lia.
        - rewrite (Hr _ _ Hk). lia. }
      unfold holders. rewrite E, !held_app, held_cons. lia.
    + rewrite E in He. rewrite !Forall_app, Forall_cons in *. tauto.
  - unfold ind. rewrite decide_True; lia || done.
Qed.

(** Removing entries keeps the window's shape once its byte counter follows. *)

Lemma evicts_shaped w w' : evicts w w' -> shaped w -> 
  bytes w' = lsum stat_charge (window w') -> bytes w' <= bytes w -> shaped w'.
Proof.
  intros He [H1 H2 H3 H4 H5 H6 H7] Hb Hle. pose proof (evicts_window w w' He) as Hs.
  destruct He as [A1 A2 A3 [A4 A5] _]. constructor; rewrite ?A3, ?A4, ?A5; eauto using sublist_Forall.
  - lia.
  - pose proof (zlen_sublist _ _ A1). lia.
  - eapply sublist_sorted; [by apply sublist_fmap | done].
  - eapply sublist_NoDup; done.
Qed.

Lemma counted_live foreign x w l1 id l2 : counted foreign x w -> entries w = l1 ++ id :: l2 ->
  exists e, heap w !! id = Some e.
Proof.
  intros Hc E. pose proof (c_entries _ _ _ Hc) as Hf. rewrite E in Hf.
  apply Forall_app in Hf as [_ [Hlt _]%Forall_cons]. by apply lookup_lt_is_Some in Hlt.
Qed.

Lemma drop_entry_ok foreign w l1 id l2 : ok foreign w -> entries w = l1 ++ id :: l2 ->
  ok foreign (drop_entry id (l1 ++ l2) w) /\ evicts w (drop_entry id (l1 ++ l2) w)
  /\ entries (drop_entry id (l1 ++ l2) w) = l1 ++ l2.
Proof.
  intros [Hc Hsh] E. destruct (counted_live _ _ _ _ _ _ Hc E) as [e Hid].
  destruct (drop_entry_evicts w l1 id l2 e E Hid) as (Hev & Hen & Hb). split_and!; [| done..].
  split; [by eapply drop_entry_counted |].
  assert (Hw : window w = view (heap w) l1 ++ stat e :: view (heap w) l2).
  { unfold window. by rewrite E, view_app, (view_hit _ _ _ _ Hid). }
  assert (Hw' : window (drop_entry id (l1 ++ l2) w) = view (heap w) l1 ++ view (heap w) l2).
  { unfold window. by rewrite Hen, view_app, !(view_stat _ _ _ (ev_stat _ _ Hev)). }
  assert (charge e = stat_charge (stat e)) as Hce by done.
  assert (0 <= charge e).
  { pose proof (s_charge _ Hsh) as Hf. rewrite Hw in Hf. apply Forall_app in Hf as [_ [Hc' _]%Forall_cons].
    rewrite Hce, Hc'. pose proof (retainedFactCharge_pos (stat_fact (stat e))). unfold FACT_RECORD_BYTES in *. lia. }
  apply (evicts_shaped w); [done.. | |]; rewrite Hb; [| lia].
  rewrite (s_bytes _ Hsh), Hw, Hw', !lsum_app, lsum_cons. lia.
Qed.

Lemma evict_ok foreign w : ok foreign w ->
  ok foreign (evict w) /\ evicts w (evict w) /\ entries (evict w) = tail (entries w).
Proof.
  intros Ho. unfold evict. destruct (entries w) as [|id rest] eqn:E; [by rewrite E |].
  by apply (drop_entry_ok foreign w [] id rest).
Qed.

Lemma clear_loop_ok foreign n w : ok foreign w -> (length (entries w) <= n)%nat ->
  ok foreign (clear_loop n w) /\ evicts w (clear_loop n w) /\ entries (clear_loop n w) = [].
Proof.
  revert w. induction n as [|n IH]; intros w Ho Hn; cbn.
  { destruct (entries w) eqn:E; [done | cbn in Hn; lia]. }
  destruct (entries w) as [|id rest] eqn:E; [done |].
  destruct (evict_ok foreign w Ho) as (H1 & H2 & H3). rewrite E in H3. cbn in H3, Hn.
  destruct (IH (evict w) H1 ltac:(rewrite H3; lia)) as (H4 & H5 & H6). split_and!; [done | by etrans | done].
Qed.

Lemma make_room_ok foreign n chg w : ok foreign w -> (length (entries w) <= n)%nat ->
  chg <= maxBytes w ->
  let w' := make_room n chg w in
  ok foreign w' /\ evicts w w'
  /\ (entries w' = [] \/ zlen (entries w') < maxEvents w /\ bytes w' + chg <= maxBytes w).
Proof.
  revert w. induction n as [|n IH]; intros w Ho Hn Hm; cbn.
  { destruct (entries w) eqn:E; [split_and!; [done | done | by left] | cbn in Hn; lia]. }
  case_if.
  - destruct (evict_ok foreign w Ho) as (H1 & H2 & H3).
    destruct (entries w) as [|id rest] eqn:E; [done |]. cbn in H3, Hn.
    destruct (ev_limits _ _ H2) as [Hmb Hme].
    destruct (IH (evict w) H1 ltac:(rewrite H3; lia) ltac:(lia)) as (H4 & H5 & H6).
    rewrite Hmb, Hme in H6. split_and!; [done | by etrans | done].
  - split_and!; [done.. |].
    destruct (zlen (entries w) =? 0) eqn:Ez; [left; apply zlen_zero; lia | right; cbn in *; lia].
Qed.

Lemma reserve_evicting_ok foreign n chg w : ok foreign w -> (length (entries w) <= n)%nat ->
  let r := reserve_evicting n chg w in
  match r.1 with
  | None => ok foreign r.2 /\ evicts w r.2 /\ entries r.2 = []
  | Some l => exists w1, ok foreign w1 /\ evicts w w1 /\ r.2 = with_account w1 (account r.2)
                /\ la_reserve chg (account w1) = Some (l, account r.2)
  end.
Proof.
  revert w. induction n as [|n IH]; intros w Ho Hn; cbn;
    destruct (la_reserve chg (account w)) as [[l s]|] eqn:El; [by exists w | | by exists w |].
  { destruct (entries w) eqn:E; [done | cbn in Hn; lia]. }
  destruct (entries w) as [|id rest] eqn:E; [done |].
  destruct (evict_ok foreign w Ho) as (H1 & H2 & H3). rewrite E in H3. cbn in H3, Hn.
  specialize (IH (evict w) H1 ltac:(rewrite H3; lia)). cbn in IH.
  destruct (reserve_evicting n chg (evict w)) as [[l|] w']; cbn in *.
  - destruct IH as (w1 & ? & ? & ? & ?). exists w1. split_and!; [done | by etrans | done..].
  - destruct IH as (? & ? & ?). split_and!; [done | by etrans | done].
Qed.

Lemma view_grow h x ids : Forall (fun id => (id < length h)%nat) ids -> view (h ++ [x]) ids = view h ids.
Proof.
  intros Hf. unfold view. apply list_omap_ext. induction Hf as [|id ids Hid _ IH]; constructor; [| done].
  by rewrite lookup_app_l.
Qed.

Lemma held_fresh (ids : list nat) n : Forall (fun id => (id < n)%nat) ids -> held ids n = 0.
Proof.
  induction 1 as [|id ids Hid _ IH]; [done |]. rewrite held_cons, IH. unfold ind. rewrite decide_False; lia.
Qed.

Lemma holders_fresh foreign x w : counted foreign x w -> holders w (length (heap w)) = 0.
Proof.
  intros [_ _ He Hp Hs]. unfold holders. rewrite held_fresh by done. rewrite !lsum_zero; [done | |].
  - eapply Forall_impl; [exact Hs |]. intros sl Hsl. unfold slice_ref. case_if; [done | by apply held_fresh].
  - eapply Forall_impl; [exact Hp |]. intros p Hlt. cbn beta in Hlt. unfold pin_ref, ind.
    case_if; [done |]. rewrite decide_False; lia.
Qed.

Lemma push_entry_counted foreign w fact l chg s : counted foreign (fun _ => 0) w ->
  la_reserve chg (account w) = Some (l, s) ->
  counted foreign (fun _ => 0) (push_entry fact l chg (with_account w s)).
Proof.
  intros Hc El. pose proof (holders_fresh _ _ _ Hc) as Hfresh. destruct Hc as [Hl Hr He Hp Hs].
  assert (Hlt : forall P : list nat, Forall (fun id => (id < length (heap w))%nat) P ->
    Forall (fun id => (id < length (heap w ++ [mkEntry fact l 1 true chg]))%nat) P).
  { intros P HP. eapply Forall_impl; [exact HP |]. intros id. rewrite length_app. cbn. lia. }
  constructor; unfold owned; cbn.
  - rewrite omap_snoc. change (heap_owned _) with (Some (l, chg)). cbn iota.
    rewrite <- app_assoc. cbn. rewrite <- Permutation_middle. by apply (ledger_reserve _ (account w)).
  - intros id e He'. unfold holders. cbn. rewrite held_app, held_cons. cbn.
    change (held [] id) with 0.
    apply lookup_app_Some in He' as [He'|[Hge He']].
    + rewrite (Hr _ _ He'). unfold holders, ind. rewrite decide_False; [lia |].
      apply lookup_lt_Some in He'. lia.
    + apply list_lookup_singleton_Some in He' as [Hid <-]. assert (id = length (heap w)) as -> by lia.
      unfold holders in Hfresh. unfold ind. rewrite decide_True by done. cbn. lia.
  - apply Forall_app. split; [by apply Hlt |]. constructor; [| done]. rewrite length_app. cbn. lia.
  - eapply Forall_impl; [exact Hp |]. intros p. rewrite length_app. cbn. lia.
  - eapply Forall_impl; [exact Hs |]. intros p. apply Hlt.
Qed.

Lemma push_entry_window w fact l chg s : Forall (fun id => (id < length (heap w))%nat) (entries w) ->
  window (push_entry fact l chg (with_account w s)) = window w ++ [(fact, l, chg)].
Proof.
  intros He. unfold window, push_entry, with_account. cbn [heap entries]. rewrite view_app, view_grow by done. f_equal.
  unfold view. cbn. by rewrite lookup_app_r, Nat.sub_diag.
Qed.

Lemma push_entry_ok foreign w fact l s : ok foreign w ->
  la_reserve (retainedFactCharge fact) (account w) = Some (l, s) ->
  bytes w + retainedFactCharge fact <= maxBytes w -> zlen (entries w) < Z.max 1 (maxEvents w) ->
  latestSeq w = ev_seq (fact_event fact) -> Forall (fun x => stat_seq x < latestSeq w) (window w) ->
  ok foreign (push_entry fact l (retainedFactCharge fact) (with_account w s)).
Proof.
  intros [Hc Hsh] El Hb Hn Hq Hlt. split; [by apply push_entry_counted |].
  pose proof (push_entry_window w fact l (retainedFactCharge fact) s (c_entries _ _ _ Hc)) as Hw.
  destruct Hsh as [H1 H2 H3 H4 H5 H6 H7].
  constructor; rewrite ?Hw; cbn -[window].
  - rewrite lsum_app, lsum_cons, lsum_nil. cbn. lia.
  - lia.
  - rewrite zlen_app, zlen_cons, zlen_nil. lia.
  - rewrite map_app. apply StronglySorted_snoc; [done |]. apply Forall_map.
    eapply Forall_impl; [exact Hlt |]. intros x Hx. rewrite Hq in Hx. exact Hx.
  - apply Forall_app. split; [done |]. constructor; [| done]. unfold stat_seq. cbn. lia.
  - apply Forall_app. by repeat constructor.
  - apply NoDup_app. split_and!; [done | | apply NoDup_singleton].
    intros id Hid Hx. apply list_elem_of_singleton in Hx as ->.
    pose proof (c_entries _ _ _ Hc) as Hf. rewrite Forall_forall in Hf. apply Hf in Hid. lia.
Qed.

Lemma evicts_bytes w w' : shaped w -> shaped w' -> evicts w w' -> bytes w' <= bytes w.
Proof.
  intros Hs Hs' He. rewrite (s_bytes _ Hs), (s_bytes _ Hs'). apply lsum_sublist; [by apply evicts_window |].
  eapply Forall_impl; [exact (s_charge _ Hs) |]. intros x ->.
  pose proof (retainedFactCharge_pos (stat_fact x)). unfold FACT_RECORD_BYTES in *. lia.
Qed.

Lemma empty_bytes w : shaped w -> entries w = [] -> bytes w = 0.
Proof. intros Hs He. rewrite (s_bytes _ Hs). unfold window. by rewrite He. Qed.

(** [append] keeps the invariant on every branch. *)

Lemma append_ok foreign fact w : ok foreign w -> ok foreign (append fact w).
Proof.
  intros [Hc Hsh]. unfold append. case_if; [done |].
  set (w1 := mkWindow _ _ _ _ _ _ _ _ _).
  assert (Ho1 : ok foreign w1 /\ Forall (fun x => stat_seq x < latestSeq w1) (window w1)).
  { destruct Hc, Hsh. split; [split; constructor; try done |];
      (eapply Forall_impl; [exact s_latest0 |]; intros ? ?; subst w1; cbn [latestSeq] in *; lia). }
  destruct Ho1 as [Ho1 Hlt]. case_if; [by apply clear_loop_ok |].
  destruct (make_room_ok foreign (length (entries w1)) (retainedFactCharge fact) w1) as (H1 & H2 & H3);
    [done | done | lia |].
  set (w2 := make_room _ _ w1) in *.
  pose proof (reserve_evicting_ok foreign (length (entries w2)) (retainedFactCharge fact) w2 H1 ltac:(done)) as Hr.
  cbn zeta in Hr. destruct (reserve_evicting _ _ w2) as [[l|] w3]; cbn [fst snd] in Hr; [| by apply Hr].
  destruct Hr as (w4 & H4 & H5 & -> & El). cbn [account with_account] in *.
  assert (H6 : evicts w1 w4) by (by etrans).
  destruct (ev_limits _ _ H6) as [E1 E2]. change (latestSeq w1) with (ev_seq (fact_event fact)) in Hlt.
  pose proof (evicts_bytes w2 w4 (ok_shaped _ _ H1) (ok_shaped _ _ H4) H5) as Hb.
  pose proof (zlen_sublist _ _ (ev_entries _ _ H5)) as Hn.
  apply push_entry_ok; rewrite ?E1, ?E2, ?(ev_latest _ _ H6); try done.
  - destruct H3 as [H3|H3]; [| lia].
    pose proof (empty_bytes w2 (ok_shaped _ _ H1) H3). lia.
  - destruct H3 as [H3|H3]; [rewrite H3, zlen_nil in Hn; lia | lia].
  - eapply sublist_Forall; [by apply evicts_window | done].
Qed.

Lemma shaped_same w w' : entries w' = entries w -> bytes w' = bytes w -> latestSeq w' = latestSeq w ->
  maxBytes w' = maxBytes w -> maxEvents w' = maxEvents w -> fmap stat (heap w') = fmap stat (heap w) ->
  shaped w -> shaped w'.
Proof.
  intros E1 E2 E3 E4 E5 E6 [H1 H2 H3 H4 H5 H6 H7].
  assert (window w' = window w) as Hw by (unfold window; rewrite E1; by apply view_stat).
  constructor; rewrite ?Hw, ?E1, ?E2, ?E3, ?E4, ?E5; done.
Qed.

(** One more reference: the caller owes a holder. *)

Lemma retain_counted foreign x id e w : counted foreign x w -> heap w !! id = Some e -> 0 < refs e ->
  counted foreign (fun k => x k + ind k id) (with_heap w (<[id := set_refs e (refs e + 1)]> (heap w))).
Proof.
  intros [Hl Hr He Hp Hs] Hid Hpos. constructor; unfold owned; cbn; rewrite ?length_insert; try done.
  - rewrite (omap_insert_same heap_owned _ id e); [done | done |]. unfold heap_owned. cbn.
    do 2 case_if; done || lia.
  - intros k e'. change (holders _ k) with (holders w k). unfold ind.
    intros [(<- & <- & _)|[Hne Hk]]%list_lookup_insert_Some; cbn.
    + rewrite decide_True by done. rewrite (Hr _ _ Hid). lia.
    + rewrite decide_False by done. rewrite (Hr _ _ Hk). lia.
Qed.

Lemma entry_retained foreign x id w : counted foreign x w -> (forall k, 0 <= x k) -> id ∈ entries w ->
  exists e, heap w !! id = Some e /\ 0 < refs e.
Proof.
  intros Hc Hx Hin. apply list_elem_of_split in Hin as (l1 & l2 & E).
  destruct (counted_live _ _ _ _ _ _ Hc E) as [e He]. exists e. split; [done |].
  rewrite (c_refs _ _ _ Hc _ _ He). specialize (Hx id).
  pose proof (holders_nonneg (mkWindow (maxBytes w) (maxEvents w) (l1 ++ l2) (bytes w) (latestSeq w) (heap w)
    (pins w) (slices w) (account w)) id) as Hn. unfold holders in *. cbn in Hn.
  rewrite held_app in Hn. rewrite E, held_app, held_cons. unfold ind. rewrite decide_True by done. lia.
Qed.

Definition with_pins w (ps : list Pin) : ReplayWindow S :=
  mkWindow (maxBytes w) (maxEvents w) (entries w) (bytes w) (latestSeq w) (heap w) ps (slices w) (account w).

Definition with_slices w (ss : list Slice) : ReplayWindow S :=
  mkWindow (maxBytes w) (maxEvents w) (entries w) (bytes w) (latestSeq w) (heap w) (pins w) ss (account w).

Lemma push_pin_counted foreign x id w : counted foreign (fun k => x k + ind k id) w -> (id < length (heap w))%nat ->
  counted foreign x (with_pins w (pins w ++ [mkPin id false])).
Proof.
  intros [Hl Hr He Hp Hs] Hid. constructor; cbn; try done.
  - intros k e Hk. rewrite (Hr k e Hk). unfold holders. cbn. rewrite lsum_app, lsum_cons, lsum_nil.
    unfold pin_ref at 3. cbn. lia.
  - apply Forall_app. by repeat constructor.
Qed.

Lemma find_last_elem P l id : find_last P l = Some id -> id ∈ l /\ P id = true.
Proof.
  unfold find_last. destruct (list_find _ (rev l)) as [[i y]|] eqn:E; [| done]. intros [= <-].
  apply list_find_Some in E as (Hi & HP & _). split; [| done].
  apply list_elem_of_lookup_2 in Hi. rewrite list_elem_of_In in *. by apply in_rev.
Qed.

Lemma pin_ok foreign seq w : ok foreign w -> ok foreign (pin seq w).2.
Proof.
  intros [Hc Hsh]. unfold pin. destruct (find_last _ _) as [id|] eqn:E; [| done].
  apply find_last_elem in E as [Hin _].
  destruct (entry_retained _ _ _ _ Hc ltac:(done) Hin) as (e & He & Hpos). rewrite He. cbn [snd].
  pose proof (retain_counted _ _ _ _ _ Hc He Hpos) as Hr. split.
  - eapply push_pin_counted in Hr; [exact Hr |]. cbn. rewrite length_insert. by apply lookup_lt_Some in He.
  - eapply shaped_same; [.. | exact Hsh]; try done. cbn. by apply (stat_insert _ id e).
Qed.

Lemma release_pin_ok foreign pid w : ok foreign w -> ok foreign (release_pin pid w).
Proof.
  intros [Hc Hsh]. unfold release_pin. destruct (pins w !! pid) as [p|] eqn:Ep; [| done].
  destruct (pin_released p) eqn:Er; [done |].
  set (w1 := mkWindow _ _ _ _ _ _ _ _ _).
  assert (Hc1 : counted foreign (fun k => ind k (pin_entry p)) w1).
  { destruct Hc as [Hl Hr He Hp Hs]. constructor; cbn; try done.
    - intros k e Hk. rewrite (Hr k e Hk). unfold holders. cbn.
      rewrite (lsum_insert _ _ _ _ _ Ep). unfold pin_ref at 3 4. rewrite Er. cbn. lia.
    - apply Forall_insert; [done |]. cbn. by eapply (Forall_lookup_1 _ _ _ _ Hp). }
  destruct (release_entry_frame (pin_entry p) w1) as (E1 & E2 & E3 & E4 & E5 & E6 & E7 & E8).
  split; [| by eapply shaped_same; [.. | exact Hsh]].
  eapply counted_ext; [| apply (release_entry_counted _ _ _ _ Hc1)]; cbn beta.
  - intros k. lia.
  - unfold ind. rewrite decide_True; [lia | done].
Qed.

Lemma retain_all_counted foreign x ids w : counted foreign x w -> (forall k, 0 <= x k) ->
  Forall (fun id => id ∈ entries w) ids ->
  counted foreign (fun k => x k + held ids k) (with_heap w (retain_all ids (heap w)))
  /\ fmap stat (retain_all ids (heap w)) = fmap stat (heap w).
Proof.
  revert x w. induction ids as [|id ids IH]; intros x w Hc Hx Hin; cbn [retain_all].
  - split; [| done]. destruct w. eapply counted_ext; [| exact Hc]. intros k. cbn. unfold held. rewrite lsum_nil. lia.
  - apply Forall_cons in Hin as [Hid Hin].
    destruct (entry_retained _ _ _ _ Hc Hx Hid) as (e & He & Hpos). rewrite He.
    pose proof (retain_counted _ _ _ _ _ Hc He Hpos) as Hr.
    apply IH in Hr as [Hr Hst]; [| intros k; specialize (Hx k); pose proof (ind_nonneg k id); lia | done].
    cbn [heap with_heap] in Hst. split.
    + eapply counted_ext; [| exact Hr]. intros k. cbn beta. rewrite held_cons. lia.
    + rewrite Hst. by apply (stat_insert _ id e).
Qed.

Lemma push_slice_counted foreign x w sl s : counted foreign (fun k => x k + held (slice_facts sl) k) w ->
  slice_released sl = false ->
  match slice_references sl with
  | Some r => la_reserve (slice_cost sl) (account w) = Some (r, s)
  | None => s = account w
  end ->
  Forall (fun id => (id < length (heap w))%nat) (slice_facts sl) ->
  counted foreign x (with_account (with_slices w (slices w ++ [sl])) s).
Proof.
  intros [Hl Hr He Hp Hs] Hrel Hres Hlt. constructor; unfold owned; cbn; try done.
  - rewrite omap_snoc. unfold slice_owned at 2. rewrite Hrel.
    destruct (slice_references sl) as [r|]; cbn.
    + rewrite app_assoc, <- Permutation_cons_append. by apply (ledger_reserve _ (account w)).
    + subst s. by rewrite app_nil_r.
  - intros k e Hk. rewrite (Hr k e Hk). unfold holders. cbn. rewrite lsum_app, lsum_cons, lsum_nil.
    unfold slice_ref at 3. rewrite Hrel. lia.
  - apply Forall_app. by repeat constructor.
Qed.

(** The contiguity loop decides exactly whether the range is retained whole. *)

Definition needs_baseline (x : RetainedFact * nat * Z) : bool :=
  match ev_fact (fact_event (stat_fact x)) with resize _ true => true | _ => false end.

Lemma in_range_none h a t ids : Forall (fun x => t < stat_seq x) (view h ids) ->
  view h (List.filter (in_range h a t) ids) = [].
Proof.
  induction ids as [|id ids IH]; intros Hf; [done |]. cbn [List.filter]. unfold in_range at 1.
  destruct (h !! id) as [e|] eqn:He.
  - rewrite (view_hit _ _ _ _ He) in Hf. apply Forall_cons in Hf as [Ht Hf].
    change (stat_seq (stat e)) with (seq_of e) in Ht. case_if; [lia | by apply IH].
  - apply IH. unfold view in Hf |- *. cbn in Hf. by rewrite He in Hf.
Qed.

Lemma select_loop_sound h a t ids : StronglySorted Z.lt (map stat_seq (view h ids)) ->
  forall x y, select_loop h a t x ids = Some y ->
  x <= y /\ map stat_seq (view h (List.filter (in_range h a t) ids)) = seqZ x (y - x)
  /\ Forall (fun s => needs_baseline s = false) (view h (List.filter (in_range h a t) ids)).
Proof.
  induction ids as [|id ids IH]; intros Hso x y; cbn [select_loop List.filter].
  { intros [= ->]. rewrite Z.sub_diag. cbn. done. }
  assert (Hin : in_range h a t id = match h !! id with
      Some e => (a <? seq_of e) && (seq_of e <=? t) | None => false end) by done. rewrite Hin. clear Hin.
  destruct (h !! id) as [e|] eqn:He.
  2: { apply IH. unfold view in Hso |- *. cbn in Hso. by rewrite He in Hso. }
  rewrite (view_hit _ _ _ _ He) in Hso. cbn in Hso. inversion Hso as [|? ? Hso' Hall]; subst.
  change (stat_seq (stat e)) with (seq_of e) in Hall. rewrite Forall_map in Hall.
  destruct (seq_of e <=? a) eqn:Ea.
  { rewrite (Z.ltb_antisym (seq_of e) a), Ea. cbn. by apply IH. }
  rewrite (Z.ltb_antisym (seq_of e) a), Ea. cbn [negb andb].
  destruct (t <? seq_of e) eqn:Et.
  { intros [= ->]. rewrite (Z.leb_antisym t (seq_of e)), Et. cbn [negb].
    rewrite in_range_none, Z.sub_diag; [done |]. eapply Forall_impl; [exact Hall |]. cbn. lia. }
  rewrite (Z.leb_antisym t (seq_of e)), Et. cbn [negb]. destruct (seq_of e =? x) eqn:Ex; [| done]. cbn [negb].
  assert (Hgo : needs_baseline (stat e) = false -> select_loop h a t (x + 1) ids = Some y ->
    x <= y /\ map stat_seq (view h (id :: List.filter (in_range h a t) ids)) = seqZ x (y - x)
    /\ Forall (fun s => needs_baseline s = false) (view h (id :: List.filter (in_range h a t) ids))).
  { intros Hb Hl. destruct (IH Hso' _ _ Hl) as (Hle & Hs & Hn). rewrite (view_hit _ _ _ _ He). split_and!; [lia | |].
    - cbn [map]. rewrite Hs. change (stat_seq (stat e)) with (seq_of e).
      rewrite (seqZ_cons x (y - x)) by lia. f_equal; [lia |]. f_equal; lia.
    - by constructor. }
  unfold needs_baseline in Hgo. cbn in Hgo.
  destruct (ev_fact (fact_event (entry_fact e))) as [|? []| | |]; try done; by apply Hgo.
Qed.

Lemma select_loop_complete h a t ids : StronglySorted Z.lt (map stat_seq (view h ids)) ->
  Forall (fun id => (id < length h)%nat) ids ->
  forall x, a < x <= t + 1 -> Forall (fun s => stat_seq s <= a \/ x <= stat_seq s) (view h ids) ->
  (forall q, x <= q <= t -> exists s, s ∈ view h ids /\ stat_seq s = q /\ needs_baseline s = false) ->
  select_loop h a t x ids = Some (t + 1).
Proof.
  induction ids as [|id ids IH]; intros Hso Hlt x Hx Hge Hq; cbn [select_loop].
  { f_equal. destruct (decide (x = t + 1)) as [|Hne]; [done |].
    destruct (Hq x ltac:(lia)) as (s & []%not_elem_of_nil & _). }
  apply Forall_cons in Hlt as [[e He]%lookup_lt_is_Some Hlt]. rewrite He.
  rewrite (view_hit _ _ _ _ He) in Hso, Hge, Hq. cbn [map] in Hso.
  inversion Hso as [|? ? Hso' Hall]; subst. rewrite Forall_map, Forall_forall in Hall.
  apply Forall_cons in Hge as [Hhd Hge]. change (stat_seq (stat e)) with (seq_of e) in *.
  destruct (seq_of e <=? a) eqn:Ea.
  { apply IH; [done.. |]. intros q Hq'. destruct (Hq q Hq') as (s & [->|Hs]%elem_of_cons & Hsq & Hb); [| by exists s].
    change (stat_seq (stat e)) with (seq_of e) in Hsq. lia. }
  destruct (t <? seq_of e) eqn:Et.
  { f_equal. destruct (decide (x = t + 1)) as [|Hne]; [done |].
    destruct (Hq x ltac:(lia)) as (s & [->|Hs]%elem_of_cons & Hsq & Hb).
    - change (stat_seq (stat e)) with (seq_of e) in Hsq. lia.
    - apply Hall in Hs. lia. }
  assert (seq_of e = x) as Hxe.
  { destruct (Hq x ltac:(lia)) as (s & [->|Hs]%elem_of_cons & Hsq & Hb); [done |]. apply Hall in Hs. lia. }
  rewrite Hxe, Z.eqb_refl. cbn [negb].
  destruct (Hq x ltac:(lia)) as (s & [->|Hs]%elem_of_cons & Hsq & Hb); [| apply Hall in Hs; lia].
  assert (Hrec : select_loop h a t (x + 1) ids = Some (t + 1)).
  { apply IH; [done | done | lia | |].
    - apply Forall_forall. intros s Hs. apply Hall in Hs. lia.
    - intros q Hq'. destruct (Hq q ltac:(lia)) as (s & [->|Hs]%elem_of_cons & Hsq' & Hb'); [| by exists s].
      change (stat_seq (stat e)) with (seq_of e) in Hsq'. lia. }
  unfold needs_baseline in Hb. cbn in Hb.
  by destruct (ev_fact (fact_event (entry_fact e))) as [|? []| | |].
Qed.

Lemma select_entries h a t ids id : id ∈ List.filter (in_range h a t) ids -> id ∈ ids.
Proof. rewrite !list_elem_of_In, filter_In. tauto. Qed.

Lemma view_length h ids : Forall (fun id => (id < length h)%nat) ids -> zlen (view h ids) = zlen ids.
Proof.
  induction 1 as [|id ids [e He]%lookup_lt_is_Some Hf IH]; [done |].
  rewrite (view_hit _ _ _ _ He), !zlen_cons. lia.
Qed.

Definition slice_of w (sl : Slice) : list (RetainedFact * nat * Z) := view (heap w) (slice_facts sl).

Lemma with_slices_ok foreign w sl s : shaped w ->
  counted foreign (fun _ => 0) (with_account (with_slices w (slices w ++ [sl])) s) ->
  ok foreign (with_account (with_slices w (slices w ++ [sl])) s).
Proof. intros Hsh Hc. split; [done |]. by eapply shaped_same; [.. | exact Hsh]. Qed.

Lemma empty_slice_ok foreign w : ok foreign w -> ok foreign (add_slice (mkSlice [] None false) w).2.
Proof.
  intros [Hc Hsh]. apply (with_slices_ok foreign w (mkSlice [] None false) (account w)); [done |].
  apply push_slice_counted; [| done..]. eapply counted_ext; [| exact Hc].
  intros k. cbn. unfold held. rewrite lsum_nil. lia.
Qed.

Lemma select_slice_ok foreign a t w r s : ok foreign w ->
  let sel := List.filter (in_range (heap w) a t) (entries w) in
  let w' := (add_slice (mkSlice sel (Some r) false) (with_heap (with_account w s) (retain_all sel (heap w)))).2 in
  la_reserve (64 + SELECTED_REFERENCE_BYTES * zlen sel) (account w) = Some (r, s) ->
  ok foreign w' /\ slice_of w' (mkSlice sel (Some r) false) = view (heap w) sel
  /\ Forall (fun x => x ∈ window w) (view (heap w) sel).
Proof.
  intros [Hc Hsh] sel w' Er.
  assert (Hin : Forall (fun id => id ∈ entries w) sel).
  { apply Forall_forall. intros id. apply select_entries. }
  destruct (retain_all_counted foreign (fun _ => 0) sel w Hc ltac:(done) Hin) as [Hr Hst]. split_and!.
  - apply (with_slices_ok foreign (with_heap w (retain_all sel (heap w))) (mkSlice sel (Some r) false) s).
    { by eapply shaped_same; [.. | exact Hsh]. }
    apply push_slice_counted; [exact Hr | done | exact Er |]. cbn.
    rewrite <- (length_fmap stat), Hst, length_fmap.
    eapply Forall_impl; [exact Hin |]. intros id Hid. revert id Hid. apply Forall_forall, (c_entries _ _ _ Hc).
  - unfold slice_of. cbn [slice_facts heap w' add_slice snd with_heap]. by apply view_stat.
  - apply Forall_forall. intros x (id & Hid & Hx)%list_elem_of_omap.
    apply list_elem_of_omap. exists id. split; [by apply select_entries in Hid | done].
Qed.

(** The whole of [select], success and every refusal. *)

Lemma select_ok foreign a t w : ok foreign w ->
  ok foreign (select a t w).2
  /\ match (select a t w).1 with
     | None => (select a t w).2 = w
     | Some sid => a <= t <= latestSeq w /\ t - a <= Z.max 0 (maxEvents w)
        /\ exists sl, slices (select a t w).2 !! sid = Some sl /\ slice_released sl = false
           /\ map stat_seq (slice_of (select a t w).2 sl) = seqZ (a + 1) (t - a)
           /\ Forall (fun s => needs_baseline s = false /\ s ∈ window w) (slice_of (select a t w).2 sl)
     end.
Proof.
  intros Ho. pose proof Ho as [Hc Hsh]. unfold select. case_if; [done |].
  destruct (a =? t) eqn:Eat.
  { split; [by apply empty_slice_ok |]. cbn [fst snd add_slice]. split_and!; [lia.. |].
    exists (mkSlice [] None false). cbn [slices]. rewrite lookup_app_r, Nat.sub_diag by lia.
    unfold slice_of. cbn. assert (t - a = 0) as -> by lia. done. }
  case_if; [done |].
  destruct (select_loop _ _ _ _ _) as [y|] eqn:El; [| done].
  destruct (y =? t + 1) eqn:Ey; [| done]. cbn [negb]. assert (y = t + 1) as -> by lia.
  destruct (la_reserve _ _) as [[r s]|] eqn:Er; [| done].
  destruct (select_loop_sound _ _ _ _ (s_sorted _ Hsh) _ _ El) as (_ & Hseq & Hnb).
  replace (t + 1 - (a + 1)) with (t - a) in Hseq by lia.
  assert (Hlen : zlen (List.filter (in_range (heap w) a t) (entries w)) = t - a).
  { rewrite <- (view_length (heap w)), <- (zlen_map stat_seq), Hseq; [apply zlen_seqZ; lia |].
    apply Forall_forall. intros id Hid%select_entries. revert id Hid. apply Forall_forall, (c_entries _ _ _ Hc). }
  rewrite <- Hlen in Er. destruct (select_slice_ok foreign a t w r s Ho Er) as (Hok & Hv & Hw).
  split; [exact Hok |]. cbn [fst]. split_and!; [lia.. |].
  eexists. split; [cbn; by rewrite lookup_app_r, Nat.sub_diag by lia |]. split; [done |].
  rewrite Hv. split; [done |]. by apply Forall_and.
Qed.

(** Releasing a slice's entries leaves the leases of other holders alone. *)

Lemma release_entry_other foreign x id w l : counted foreign x w -> 1 <= x id -> (l ∉ (owned w).*1) ->
  (l ∉ (owned (release_entry id w)).*1) /\ la_charge (account (release_entry id w)) l = la_charge (account w) l.
Proof.
  intros Hc Hx Hl. unfold release_entry. destruct (heap w !! id) as [e|] eqn:Hid; [| done].
  pose proof (c_refs _ _ _ Hc _ _ Hid) as Hre. pose proof (holders_nonneg w id). cbn [set_refs refs].
  destruct (refs e - 1 =? 0) eqn:Ez.
  - assert (Hp : owned w ≡ₚ (entry_lease e, charge e) :: omap heap_owned (<[id := set_refs e (refs e - 1)]> (heap w))
        ++ omap slice_owned (slices w)).
    { unfold owned. rewrite (omap_insert_none heap_owned _ id e (set_refs e (refs e - 1)) (entry_lease e, charge e));
        [done | done | |]; unfold heap_owned; cbn; case_if; done || lia. }
    rewrite Hp in Hl. cbn in Hl. apply not_elem_of_cons in Hl as [Hne Hl]. split; [done |]. cbn.
    rewrite la_release_charge by apply (c_ledger _ _ _ Hc). by rewrite decide_False.
  - split; [| done]. unfold owned. cbn. rewrite (omap_insert_same heap_owned _ id e); [done | done |].
    unfold heap_owned; cbn. do 2 case_if; done || lia.
Qed.

Lemma release_entries_counted foreign ids x w l : counted foreign x w -> (forall k, held ids k <= x k) ->
  (l ∉ (owned w).*1) ->
  let w' := foldl (fun w id => release_entry id w) w ids in
  counted foreign (fun k => x k - held ids k) w' /\ (l ∉ (owned w').*1)
  /\ la_charge (account w') l = la_charge (account w) l.
Proof.
  revert x w. induction ids as [|id ids IH]; intros x w Hc Hx Hl; cbn [foldl].
  { split_and!; [| done..]. eapply counted_ext; [| exact Hc]. intros k. cbn. unfold held. rewrite lsum_nil. lia. }
  assert (1 <= x id).
  { specialize (Hx id). rewrite held_cons in Hx. unfold ind in Hx. rewrite decide_True in Hx by done.
    pose proof (held_nonneg ids id). lia. }
  destruct (release_entry_other _ _ _ _ _ Hc ltac:(done) Hl) as [Hl' Hch].
  destruct (IH (fun k => x k - ind k id) (release_entry id w)) as (H1 & H2 & H3); [| | done |].
  - by apply release_entry_counted.
  - intros k. specialize (Hx k). rewrite held_cons in Hx. lia.
  - split_and!; [| done | congruence]. eapply counted_ext; [| exact H1]. intros k. cbn beta. rewrite held_cons. lia.
Qed.

Lemma release_entries_frame ids w :
  let w' := foldl (fun w id => release_entry id w) w ids in
  entries w' = entries w /\ bytes w' = bytes w /\ latestSeq w' = latestSeq w
  /\ maxBytes w' = maxBytes w /\ maxEvents w' = maxEvents w /\ pins w' = pins w
  /\ slices w' = slices w /\ fmap stat (heap w') = fmap stat (heap w).
Proof.
  revert w. induction ids as [|id ids IH]; intros w; cbn [foldl]; [done |].
  destruct (release_entry_frame id w) as (E1 & E2 & E3 & E4 & E5 & E6 & E7 & E8).
  destruct (IH (release_entry id w)) as (F1 & F2 & F3 & F4 & F5 & F6 & F7 & F8).
  cbn zeta in *. split_and!; congruence.
Qed.

(** Marking a slice released turns its references into debts. *)

Lemma mark_slice_counted foreign sid sl w : counted foreign (fun _ => 0) w -> slices w !! sid = Some sl ->
  slice_released sl = false ->
  let w1 := with_slices w (<[sid := mkSlice (slice_facts sl) (slice_references sl) true]> (slices w)) in
  match slice_references sl with
  | None => counted foreign (held (slice_facts sl)) w1
  | Some l => counted (foreign + slice_cost sl) (held (slice_facts sl)) w1
      /\ (l ∉ (owned w1).*1) /\ la_charge (account w) l = Some (slice_cost sl)
  end.
Proof.
  intros [Hl Hr He Hp Hs] Hsid Hrel w1. set (sl' := mkSlice _ _ _) in *.
  assert (Hrest : forall f, ledger f (account w) (owned w1) -> counted f (held (slice_facts sl)) w1).
  { intros f Hf. constructor; cbn; try done.
    - intros k e Hk. rewrite (Hr k e Hk). unfold holders. cbn. rewrite (lsum_insert _ _ _ _ _ Hsid).
      unfold slice_ref at 3 4. cbn. rewrite Hrel. lia.
    - apply Forall_insert; [done |]. cbn. by eapply (Forall_lookup_1 _ _ _ _ Hs). }
  destruct (slice_references sl) as [l|] eqn:Href.
  - assert (Hperm : owned w ≡ₚ (l, slice_cost sl) :: owned w1).
    { unfold owned, w1. cbn. rewrite (omap_insert_none slice_owned _ sid sl sl' (l, slice_cost sl));
        [by rewrite Permutation_middle | done | | done]. unfold slice_owned. by rewrite Hrel, Href. }
    rewrite Hperm in Hl. apply ledger_cons in Hl as (Hl & Hn & Hch). split_and!; auto.
  - apply Hrest. unfold owned, w1. cbn. rewrite (omap_insert_same slice_owned _ sid sl); [done | done |].
    unfold slice_owned. by rewrite Hrel, Href.
Qed.

Lemma release_slice_ok foreign sid w : ok foreign w -> ok foreign (release_slice sid w).
Proof.
  intros [Hc Hsh]. unfold release_slice. destruct (slices w !! sid) as [sl|] eqn:Hsid; [| done].
  destruct (slice_released sl) eqn:Hrel; [done |].
  pose proof (mark_slice_counted foreign sid sl w Hc Hsid Hrel) as Hm. cbn zeta in Hm.
  change (mkWindow _ _ _ _ _ _ _ (<[sid:=_]> _) _) with (with_slices w (<[sid := mkSlice (slice_facts sl) (slice_references sl) true]> (slices w))).
  set (w1 := with_slices w _) in *.
  destruct (release_entries_frame (slice_facts sl) w1) as (E1 & E2 & E3 & E4 & E5 & E6 & E7 & E8).
  destruct (slice_references sl) as [l|] eqn:Href.
  - destruct Hm as (Hm & Hn & Hch). split; [| by eapply shaped_same; [.. | exact Hsh]].
    destruct (release_entries_counted _ (slice_facts sl) _ _ l Hm ltac:(done) Hn) as (H1 & H2 & H3).
    cbn zeta in *. set (w2 := foldl _ w1 _) in *. destruct H1 as [Hl Hr He Hp Hs].
    constructor; try done; [| intros k e Hk; rewrite (Hr k e Hk); change (holders (with_account _ _) k) with (holders w2 k); lia].
    apply (ledger_release _ (account w2) _ l (slice_cost sl)). apply ledger_cons. split_and!; [done | done | by rewrite H3].
  - split; [| by eapply shaped_same; [.. | exact Hsh]].
    destruct (release_entries_counted _ (slice_facts sl) _ _ (fresh (owned w1).*1) Hm ltac:(done) ltac:(apply infinite_is_fresh))
      as (H1 & _ & _).
    eapply counted_ext; [| exact H1]. intros k. cbn. lia.
Qed.

Lemma owned_used foreign x w : counted foreign x w ->
  la_used (account w) = foreign + lsum (fun e => if 0 <? refs e then charge e else 0) (heap w)
    + lsum (fun sl => match slice_references sl with
                      | Some _ => if slice_released sl then 0 else slice_cost sl
                      | None => 0 end) (slices w).
Proof.
  intros Hc. rewrite (ledger_used _ _ _ (c_ledger _ _ _ Hc)). unfold owned.
  rewrite lsum_app, !lsum_omap, Z.add_assoc. f_equal; [f_equal |]; apply lsum_ext.
  - intros e _. unfold heap_owned. by case_if.
  - intros sl _. unfold slice_owned. by destruct (slice_references sl), (slice_released sl).
Qed.

Lemma no_holders w id : entries w = [] -> Forall (fun p => pin_released p = true) (pins w) ->
  Forall (fun sl => slice_released sl = true) (slices w) -> holders w id = 0.
Proof.
  intros E Hp Hs. unfold holders. rewrite E, !lsum_zero; [done | |].
  - eapply Forall_impl; [exact Hs |]. intros sl Hrel. cbn beta in Hrel. unfold slice_ref. by rewrite Hrel.
  - eapply Forall_impl; [exact Hp |]. intros p Hrel. cbn beta in Hrel. unfold pin_ref. by rewrite Hrel.
Qed.

Lemma clear_ok foreign w : ok foreign w -> ok foreign (clear w) /\ entries (clear w) = [].
Proof. intros Ho. destruct (clear_loop_ok foreign (length (entries w)) w Ho ltac:(done)) as (? & _ & ?). done. Qed.

Lemma evictOldest_ok foreign w : ok foreign w -> ok foreign (evictOldest w).2.
Proof. intros Ho. unfold evictOldest. destruct (entries w); [done |]. by apply evict_ok. Qed.

Lemma evictOldestUnpinned_ok foreign w : ok foreign w -> ok foreign (evictOldestUnpinned w).2.
Proof.
  intros Ho. unfold evictOldestUnpinned. destruct (list_find _ _) as [[i id]|] eqn:E; [| done]. cbn [snd].
  apply list_find_Some in E as (Hi & _ & _). rewrite delete_take_drop.
  apply drop_entry_ok; [done |]. symmetry. by apply take_drop_middle.
Qed.

Lemma newReplayWindow_ok mb me s : la_ok s -> ok (la_used s) (newReplayWindow mb me s).
Proof.
  intros Hs. split; constructor; cbn; rewrite ?zlen_nil;
    first [by apply ledger_nil | done | lia | by apply Forall_nil | by apply NoDup_nil | by apply SSorted_nil].
Qed.

(** ** Runs of the window

    The window shares its account: between two operations other owners may
    reserve and release, which [s_env] allows as long as they leave the window's
    leases alone.  [foreign] tracks what they hold. *)

Inductive step : Z * ReplayWindow S -> Z * ReplayWindow S -> Prop :=
  | s_append f fact w : step (f, w) (f, append fact w)
  | s_pin f seq w : step (f, w) (f, (pin seq w).2)
  | s_release_pin f pid w : step (f, w) (f, release_pin pid w)
  | s_select f a t w : step (f, w) (f, (select a t w).2)
  | s_release_slice f sid w : step (f, w) (f, release_slice sid w)
  | s_clear f w : step (f, w) (f, clear w)
  | s_evictOldest f w : step (f, w) (f, (evictOldest w).2)
  | s_evictOldestUnpinned f w : step (f, w) (f, (evictOldestUnpinned w).2)
  | s_env f w s : la_ok s ->
      (forall l n, (l, n) ∈ owned w -> la_charge s l = la_charge (account w) l) ->
      step (f, w) (f + (la_used s - la_used (account w)), with_account w s).

Definition reachable (mb me : Z) (s : S) : Z * ReplayWindow S -> Prop :=
  rtc step (la_used s, newReplayWindow mb me s).

Lemma replay_step_ok x y : ok x.1 x.2 -> step x y -> ok y.1 y.2.
Proof.
  intros Ho Hst. revert Ho. destruct Hst; cbn [fst snd];
    eauto using append_ok, pin_ok, release_pin_ok, release_slice_ok, evictOldest_ok, evictOldestUnpinned_ok.
  - intros Ho. by apply select_ok.
  - intros Ho. by apply clear_ok.
  - intros [[Hl Hr He Hp Hs] Hsh]. split; [| by eapply shaped_same; [.. | exact Hsh]].
    constructor; try done. by apply ledger_interfere.
Qed.

Lemma replay_reachable_ok mb me s x : la_ok s -> reachable mb me s x -> ok x.1 x.2.
Proof.
  intros Hs Hr. apply (rtc_invariant step (fun x => ok x.1 x.2) (la_used s, newReplayWindow mb me s) x); [| exact replay_step_ok | done].
  by apply newReplayWindow_ok.
Qed.

End invariant.

(** ** Properties *)

Section properties.
Context {S : Type} `{LeaseAccount S}.
Implicit Types w : ReplayWindow S.

(** In every reachable state the window's byte counter is the exact sum of
    the charges of the retained facts, stays within [maxBytes] and [maxEvents]
    (one event at least), and the retained facts have strictly increasing
    sequence numbers, none beyond [latestSeq]. *)
Theorem replay_window_bounded (mb me : Z) (s : S) (f : Z) (w : ReplayWindow S) :
  la_ok s -> reachable mb me s (f, w) ->
  retainedBytes w = lsum (fun x => retainedFactCharge (stat_fact x)) (window w)
  /\ retainedBytes w <= Z.max 0 (maxBytes w) /\ retainedEvents w <= Z.max 1 (maxEvents w)
  /\ retainedEvents w = zlen (window w)
  /\ StronglySorted Z.lt (map stat_seq (window w))
  /\ Forall (fun x => stat_seq x <= latestSeq w) (window w).
Proof.
  intros Hs Hr. destruct (replay_reachable_ok _ _ _ _ Hs Hr) as [Hc Hsh]. cbn [fst snd] in *.
  unfold retainedBytes, retainedEvents, window. rewrite view_length by apply Hc.
  split_and!; try apply Hsh; [| done]. rewrite (s_bytes _ Hsh). apply lsum_ext.
  intros x Hx. exact (proj1 (Forall_forall _ _) (s_charge _ Hsh) x Hx).
Qed.

(** [select] answers exactly the facts after [a] and through [t], in order
    and without a resize that needs a baseline; a refusal changes nothing.  It
    refuses only when the range is not retained whole or the account refuses the
    references. *)
Theorem select_exact (mb me : Z) (s : S) (f a t : Z) (w : ReplayWindow S) :
  la_ok s -> reachable mb me s (f, w) ->
  match select a t w with
  | (None, w') => w' = w
      /\ ~ (a <= t <= latestSeq w /\ t - a <= Z.max 0 (maxEvents w)
            /\ (forall q, a < q <= t -> exists x, x ∈ window w /\ stat_seq x = q /\ needs_baseline x = false)
            /\ is_Some (la_reserve (64 + SELECTED_REFERENCE_BYTES * (t - a)) (account w)))
  | (Some sid, w') => a <= t <= latestSeq w
      /\ exists sl, slices w' !! sid = Some sl /\ slice_released sl = false
         /\ map stat_seq (slice_of w' sl) = seqZ (a + 1) (t - a)
         /\ Forall (fun x => needs_baseline x = false /\ x ∈ window w) (slice_of w' sl)
  end.
Proof.
  intros Hs Hr. pose proof (replay_reachable_ok _ _ _ _ Hs Hr) as Ho. cbn [fst snd] in Ho.
  destruct (select_ok f a t w Ho) as [_ Hsel]. destruct (select a t w) as [[sid|] w'] eqn:E; cbn [fst snd] in Hsel.
  { split; [by apply Hsel | by apply Hsel]. }
  split; [done |]. intros (Hat & Hcount & Hall & [[r s'] Hres]). destruct Ho as [Hc Hsh].
  revert E. unfold select. case_if; [lia |]. case_if; [by cbv [add_slice] |].
  case_if; [lia |]. rewrite (select_loop_complete (heap w) a t (entries w)); [| apply Hsh | apply Hc | lia | |].
  - rewrite Z.eqb_refl. cbn [negb]. rewrite Hres. by cbv [add_slice].
  - apply Forall_forall. intros x _. lia.
  - intros q Hq. apply Hall. lia.
Qed.

(** C31: reference counts are exact: the account holds exactly one lease per
    entry that the window, a pin or an unreleased slice still holds, with that
    entry's charge, plus the slices' own references; once the window is cleared
    and every holder has released, nothing is left in the account. *)
Theorem replay_leases_exact (mb me : Z) (s : S) (f : Z) (w : ReplayWindow S) :
  la_ok s -> reachable mb me s (f, w) ->
  la_used (account w) = f + lsum (fun e => if 0 <? refs e then charge e else 0) (heap w)
    + lsum (fun sl => match slice_references sl with
                      | Some _ => if slice_released sl then 0 else slice_cost sl
                      | None => 0 end) (slices w)
  /\ (forall id e, heap w !! id = Some e -> refs e = holders w id
        /\ (0 < holders w id -> la_charge (account w) (entry_lease e) = Some (charge e)))
  /\ (entries w = [] -> Forall (fun p => pin_released p = true) (pins w) ->
      Forall (fun sl => slice_released sl = true) (slices w) -> la_used (account w) = f).
Proof.
  intros Hs Hr. destruct (replay_reachable_ok _ _ _ _ Hs Hr) as [Hc _]. cbn [fst snd] in Hc.
  pose proof (owned_used _ _ _ Hc) as Hu. split_and!; [done | |].
  - intros id e He. pose proof (c_refs _ _ _ Hc id e He) as Href. cbn beta in Href. split; [lia |]. intros Hpos.
    apply (ledger_live _ _ _ (c_ledger _ _ _ Hc)). apply elem_of_app. left.
    apply list_elem_of_omap. exists e. split; [by eapply list_elem_of_lookup_2 |].
    unfold heap_owned. case_if; [done | lia].
  - intros Hen Hps Hsl. rewrite Hu. rewrite !lsum_zero; [lia | |].
    + eapply Forall_impl; [exact Hsl |]. intros sl Hrel. cbn beta in Hrel. rewrite Hrel.
      by destruct (slice_references sl).
    + apply Forall_lookup. intros id e He. rewrite (c_refs _ _ _ Hc id e He).
      rewrite no_holders by done. done.
Qed.

End properties.

(** A run on the worker's account: two facts are appended, the first is pinned,
    both are selected and the window is cleared. *)

Definition demo_fact (n : Z) : RetainedFact :=
  mkFact (mkRunEvent (mkRun "server" "relay" "run") n output) (Some [104; 105]).

Definition demo_account : WorkerRetainedBytes.t := WorkerRetainedBytes.make 100000 1000.

#[local] Instance demo_lease : LeaseAccount WorkerRetainedBytes.t := WorkerRetainedBytes.account WorkerRetainedBytes.worker.

Definition demo_filled : ReplayWindow WorkerRetainedBytes.t :=
  append (demo_fact 2) (append (demo_fact 1) (newReplayWindow 5000 4 demo_account)).

Definition demo_cleared : ReplayWindow WorkerRetainedBytes.t :=
  clear (select 0 2 (pin 1 demo_filled).2).2.

Lemma replay_demo_ok : la_ok demo_account.
Proof. apply WorkerRetainedBytes.worker_make_ok; lia. Qed.

Lemma demo_filled_reachable : reachable 5000 4 demo_account (0, demo_filled).
Proof. eapply rtc_l; [apply (s_append _ (demo_fact 1)) |]. apply rtc_once. apply (s_append _ (demo_fact 2)). Qed.

Lemma demo_cleared_reachable : reachable 5000 4 demo_account (0, demo_cleared).
Proof.
  eapply (transitivity (R := rtc step)); [apply demo_filled_reachable |].
  eapply rtc_l; [apply (s_pin _ 1) |]. eapply rtc_l; [apply (s_select _ 0 2) |]. apply rtc_once, s_clear.
Qed.

Lemma replay_window_bounded_witness :
  retainedEvents demo_filled = 2 /\ map stat_seq (window demo_filled) = [1; 2]
  /\ retainedBytes demo_filled <= Z.max 0 (maxBytes demo_filled).
Proof.
  split; [vm_compute; reflexivity |]. split; [vm_compute; reflexivity |].
  apply (replay_window_bounded 5000 4 demo_account 0 demo_filled); [exact replay_demo_ok | exact demo_filled_reachable].
Defined.

Lemma select_exact_witness :
  (select 0 2 demo_filled).1 = Some 0%nat
  /\ exists sl, slices (select 0 2 demo_filled).2 !! 0%nat = Some sl
     /\ map stat_seq (slice_of (select 0 2 demo_filled).2 sl) = seqZ 1 2.
Proof.
  pose proof (select_exact 5000 4 demo_account 0 0 2 demo_filled replay_demo_ok demo_filled_reachable) as Hsel.
  assert (E : (select 0 2 demo_filled).1 = Some 0%nat) by (vm_compute; reflexivity).
  split; [exact E |]. destruct (select 0 2 demo_filled) as [[sid|] w']; cbn in E; [| discriminate].
  injection E as ->. destruct Hsel as (_ & sl & H1 & _ & H2 & _). exists sl. split; assumption.
Defined.

Lemma replay_leases_exact_witness :
  entries demo_cleared = [] /\ map refs (heap demo_cleared) = [2; 1]
  /\ forall id e, heap demo_cleared !! id = Some e -> refs e = holders demo_cleared id.
Proof.
  split; [vm_compute; reflexivity |]. split; [vm_compute; reflexivity |].
  destruct (replay_leases_exact 5000 4 demo_account 0 demo_cleared replay_demo_ok demo_cleared_reachable) as (_ & H & _).
  intros id e He. apply (H id e He).
Defined.
