(* ===== verification/PtyInput.v ===== *)
(** * Native input of one PTY (terminal-worker/src/pty-input.ts)

    [PtyInputController] gives input bytes to the native writer and keeps them
    accounted for until the writer has settled them.  The writer may settle
    before its call returns, more than once or with nonsense; the observers may
    call the controller again.  As in ConnectionDelivery.v the calls that are
    suspended in a callback are an explicit stack: any call may be made on top
    of it, and [resume] continues the callback on top.  No method throws: the
    writer's and the observers' exceptions are caught, and what else stands
    inside a [try] cannot throw. *)

From S2P Require Import Prelude LeaseAccount.

(** ** Budgets *)

(** The releases returned by [reserve] are indices of [reservations]; a live
    one has its bytes. *)

Record InputBudget := mkBudget {
  maxBytes : Z; maxTasks : Z; allocatedBytes : Z; tasks : Z; peakAllocatedBytes : Z; peakTasks : Z;
  reservations : list (option Z);
}.

Definition newBudget (bytes limit : Z) : InputBudget := mkBudget bytes limit 0 0 0 0 [].

Inductive BudgetRejection := byte_limit | task_limit.

Definition budget_reserve (n : Z) (b : InputBudget) : BudgetRejection + nat * InputBudget :=
  if maxTasks b <=? tasks b then inl task_limit
  else if maxBytes b - allocatedBytes b <? n then inl byte_limit
  else
    let allocated := allocatedBytes b + n in
    let count := tasks b + 1 in
    inr (length (reservations b),
         mkBudget (maxBytes b) (maxTasks b) allocated count (Z.max (peakAllocatedBytes b) allocated) (Z.max (peakTasks b) count)
           (reservations b ++ [Some n])).

Definition budget_release (r : nat) (b : InputBudget) : InputBudget :=
  match reservations b !! r with
  | Some (Some n) =>
     mkBudget (maxBytes b) (maxTasks b) (allocatedBytes b - n) (tasks b - 1) (peakAllocatedBytes b) (peakTasks b)
       (<[r := None]> (reservations b))
  | _ => b
  end.

Record NativeInputSnapshot := mkInputSnapshot {
  is_allocatedBytes : Z; is_tasks : Z; is_peakAllocatedBytes : Z; is_peakTasks : Z; is_maxBytes : Z; is_maxTasks : Z;
}.

Definition budget_snapshot (b : InputBudget) : NativeInputSnapshot :=
  mkInputSnapshot (allocatedBytes b) (tasks b) (peakAllocatedBytes b) (peakTasks b) (maxBytes b) (maxTasks b).

(** ** The native writer's values

    They are untrusted.  A number that is not an integer is [None]; strings are
    lists of UTF-16 code units. *)

Inductive NativeReason :=
  | n_not_enabled | n_closed | n_error | n_empty | n_invalid_data | n_byte_limit | n_task_limit | n_ticket_exhausted.

Inductive RawAdmission :=
  | Raw_other                                          (* no object, or [accepted] no bool *)
  | Raw_accepted (ticket byteLength : option Z)
  | Raw_rejected (reason : option NativeReason)        (* [None]: not a reason of the writer *)
  | Raw_throws.                                        (* reading it throws *)

Inductive ParsedAdmission :=
  | Parsed_accepted (ticket : Z)
  | Parsed_rejected (reason : NativeReason).

Definition valid_ticket (ticket : option Z) : option Z :=
  match ticket with Some t => if isSafeInteger t && (0 <? t) then Some t else None | None => None end.

(** The outer [None] is the exception. *)

Definition parseAdmission (value : RawAdmission) (byteLength : Z) : option (option ParsedAdmission) :=
  match value with
  | Raw_throws => None
  | Raw_other => Some None
  | Raw_accepted ticket n =>
     Some (match valid_ticket ticket, n with
           | Some t, Some n => if n =? byteLength then Some (Parsed_accepted t) else None
           | _, _ => None
           end)
  | Raw_rejected (Some r) => Some (Some (Parsed_rejected r))
  | Raw_rejected None => Some None
  end.

Inductive NativeStatus := s_written | s_error | s_closed.

#[export] Instance NativeStatus_eq : EqDecision NativeStatus.
Proof. solve_decision. Defined.

(** A member of the writer's settlement that may be absent, a string, or
    something else. *)

Inductive RawString :=
  | Str_absent
  | Str (units : list Z)
  | Str_other.

Record RawParts := mkRawParts {
  rw_status : option NativeStatus; rw_original : option Z; rw_written : option Z; rw_remaining : option Z;
  rw_code : RawString; rw_message : RawString;
}.

(** [ticket] is read first; [None] where reading throws. *)

Inductive RawSettlement :=
  | Set_other
  | Set_parts (ticket : option (option Z)) (parts : option RawParts).

Inductive CapturedSettlement :=
  | Captured_invalid (ticket : option Z)
  | Captured (ticket : Z) (status : NativeStatus) (originalBytes writtenBytes remainingBytes : Z)
      (errorCode errorMessage : option (list Z)).

Definition MAX_SETTLEMENT_CODE_BYTES : nat := 32.

Definition MAX_SETTLEMENT_MESSAGE_BYTES : Z := 128.

Definition SETTLEMENT_TICKET_BYTES : Z := 768.

Definition safe_count (n : Z) : bool := isSafeInteger n && (0 <=? n).

Definition isSafeCount (n : option Z) : option Z :=
  match n with Some n => if safe_count n then Some n else None | None => None end.

Fixpoint ascii_loop (chars : nat) (value : list Z) : option (list Z) :=
  match chars, value with
  | S chars, code :: rest =>
     if (code <? 0x20) || (0x7e <? code) then None
     else match ascii_loop chars rest with Some tail => Some (code :: tail) | None => None end
  | _, _ => Some []
  end.

Definition boundedAsciiCode (value : list Z) : option (list Z) := ascii_loop MAX_SETTLEMENT_CODE_BYTES value.

Definition is_surrogate (c : Z) : bool := (0xd800 <=? c) && (c <=? 0xdfff).

Definition is_high (c : Z) : bool := (0xd800 <=? c) && (c <=? 0xdbff).

Definition is_low (c : Z) : bool := (0xdc00 <=? c) && (c <=? 0xdfff).

Definition utf8_width (scalar : Z) : Z :=
  if scalar <? 0x80 then 1 else if scalar <? 0x800 then 2 else if scalar <? 0x10000 then 3 else 4.

(** [String.fromCodePoint]. *)

Definition fromCodePoint (scalar : Z) : list Z :=
  if scalar <? 0x10000 then [scalar]
  else [0xd800 + Z.shiftr (scalar - 0x10000) 10; 0xdc00 + Z.land (scalar - 0x10000) 0x3ff].

Definition pair_code (high low : Z) : Z := 0x10000 + Z.shiftl (high - 0xd800) 10 + (low - 0xdc00).

(** [codePointAt], with the units it takes. *)

Definition code_point (value : list Z) : option (Z * list Z) :=
  match value with
  | [] => None
  | high :: ((low :: rest) as tail) => if is_high high && is_low low then Some (pair_code high low, rest) else Some (high, tail)
  | [c] => Some (c, [])
  end.

(** One turn of the loop; [fuel] is the number of code units left. *)

Fixpoint message_loop (fuel : nat) (bytes : Z) (value : list Z) : list Z :=
  match fuel, code_point value with
  | S fuel, Some (original, rest) =>
     let scalar := if is_surrogate original then 0xfffd else original in
     if MAX_SETTLEMENT_MESSAGE_BYTES <? bytes + utf8_width scalar then []
     else fromCodePoint scalar ++ message_loop fuel (bytes + utf8_width scalar) rest
  | _, _ => []
  end.

Definition boundedUtf8Message (value : list Z) : list Z := message_loop (length value) 0 value.

Definition captureSettlement (value : RawSettlement) : CapturedSettlement :=
  match value with
  | Set_other => Captured_invalid None
  | Set_parts None _ => Captured_invalid None
  | Set_parts (Some raw) parts =>
     let ticket := valid_ticket raw in
     match parts with
     | None => Captured_invalid ticket
     | Some p =>
        match ticket, rw_status p, isSafeCount (rw_original p), isSafeCount (rw_written p), isSafeCount (rw_remaining p),
              rw_code p, rw_message p with
        | _, _, _, _, _, Str_other, _ | _, _, _, _, _, _, Str_other => Captured_invalid ticket
        | Some t, Some st, Some original, Some written, Some remaining, code, message =>
           Captured t st original written remaining
             (match code with Str c => boundedAsciiCode c | _ => None end)
             (match message with Str m => Some (boundedUtf8Message m) | _ => None end)
        | _, _, _, _, _, _, _ => Captured_invalid ticket
        end
     end
  end.

Definition settlementTicket (value : CapturedSettlement) : option Z :=
  match value with Captured_invalid ticket => ticket | Captured t _ _ _ _ _ _ => Some t end.

(** What the observer is told; the status [None] is ["invalid"]. *)

Inductive NativeInputSettlement :=
  | Input_written (ticket bytes : Z)
  | Input_unknown (ticket : Z) (status : option NativeStatus) (originalBytes writtenBytes remainingBytes : Z)
      (errorCode errorMessage : option (list Z)).

Definition invalidSettlement (ticket byteLength : Z) : NativeInputSettlement :=
  Input_unknown ticket None byteLength 0 byteLength None None.

Definition settlementResult (value : CapturedSettlement) (ticket byteLength : Z) : NativeInputSettlement :=
  match value with
  | Captured_invalid _ => invalidSettlement ticket byteLength
  | Captured actual status original written remaining code message =>
     if negb ((actual =? ticket) && (original =? byteLength) && safe_count written && safe_count remaining
              && (written <=? byteLength) && (remaining <=? byteLength) && (written + remaining =? byteLength))
     then invalidSettlement ticket byteLength
     else if bool_decide (status = s_written) && (written =? byteLength) && (remaining =? 0)
     then Input_written ticket byteLength
     else Input_unknown ticket (Some status) byteLength written remaining code message
  end.

(** ** The controller *)

Inductive NativeInputOrigin := o_user | o_query | o_focus.

Inductive NativeInputRejectionReason :=
  | rj_empty | rj_invalid_bytes | rj_invalid_callback | rj_fenced | rj_pty_byte_limit | rj_pty_task_limit
  | rj_factory_byte_limit | rj_factory_task_limit | rj_worker_byte_limit | rj_native (reason : NativeReason).

Inductive UnknownReason := native_call_threw | native_admission_invalid.

Inductive NativeInputAdmission :=
  | Input_accepted (ticket byteLength : Z) (origin : NativeInputOrigin)
  | Input_rejected (reason : NativeInputRejectionReason)
  | Input_uncertain (reason : UnknownReason) (byteLength : Z).

Inductive FaultReason :=
  | f_write_threw | f_admission_invalid | f_settlement_invalid | f_settlement_duplicate | f_settlement_unknown
  | f_observer_threw | f_retire_failed.

(** The variables that one call of [submit] shares with its two callbacks.
    [su_admission] is the ticket. *)

Record Submission := mkSubmission {
  su_bytes : Z; su_origin : NativeInputOrigin; su_local : nat; su_shared : nat; su_retained : option nat;
  su_released : bool; su_admission : option Z; su_early : option CapturedSettlement; su_uncertain : bool;
  su_callbacks : nat; su_handled : bool;
}.

(** The suspended callbacks ([W_]), and what continues above them ([I_]); the
    number is the submission's. *)

Inductive Frame :=
  | W_write (id : nat)                                     (* writer.writeBounded *)
  | W_settled (id : nat)                                   (* onSettled *)
  | W_fault                                                (* onFault *)
  | W_dispose                                              (* writer.disposeBoundedWrite *)
  | I_retire                                               (* faultAndFence, after the report *)
  | I_notify (id : nat) (result : NativeInputSettlement)   (* handleSettlement, before onSettled *)
  | I_finish (id : nat)                                    (* handleSettlement, the finally *)
  | I_invalid (id : nat)                                   (* submit, before the last fault *)
  | I_answer (id : nat) (result : NativeInputAdmission).   (* submit, before it returns *)

Definition is_callback (f : Frame) : bool := match f with W_write _ | W_settled _ | W_fault | W_dispose => true | _ => false end.

Inductive Effect :=
  | Wrote (id : nat)                                       (* writer.writeBounded was called *)
  | Observed (id : nat) (result : NativeInputSettlement)   (* onSettled was called *)
  | Fault (reason : FaultReason)                           (* onFault was called *)
  | Disposed                                               (* disposeBoundedWrite was called *)
  | Answered (id : option nat) (result : NativeInputAdmission).

Section input.
Context {A : Type} `{LeaseAccount A}.

(** [retaining]: the option [reserveRetainedBytes] is there. *)

Context (retaining : bool).

Record PtyInput := mkPtyInput {
  subs : list Submission; local : InputBudget; shared : InputBudget; account : A;
  fenced : bool; retired : bool; stack : list Frame; trace : list Effect;
}.

Definition newPtyInput (bytes limit : Z) (b : InputBudget) (a : A) : PtyInput :=
  mkPtyInput [] (newBudget bytes limit) b a false false [] [].

Definition set_subs (l : list Submission) (s : PtyInput) : PtyInput :=
  mkPtyInput l (local s) (shared s) (account s) (fenced s) (retired s) (stack s) (trace s).

Definition set_ledgers (l b : InputBudget) (a : A) (s : PtyInput) : PtyInput :=
  mkPtyInput (subs s) l b a (fenced s) (retired s) (stack s) (trace s).

Definition set_fenced (s : PtyInput) : PtyInput :=
  mkPtyInput (subs s) (local s) (shared s) (account s) true (retired s) (stack s) (trace s).

Definition set_retired (s : PtyInput) : PtyInput :=
  mkPtyInput (subs s) (local s) (shared s) (account s) (fenced s) true (stack s) (trace s).

Definition set_stack (st : list Frame) (s : PtyInput) : PtyInput :=
  mkPtyInput (subs s) (local s) (shared s) (account s) (fenced s) (retired s) st (trace s).

Definition emit (e : Effect) (s : PtyInput) : PtyInput :=
  mkPtyInput (subs s) (local s) (shared s) (account s) (fenced s) (retired s) (stack s) (trace s ++ [e]).

Definition modify (id : nat) (f : Submission -> Submission) (s : PtyInput) : PtyInput :=
  set_subs (alter f id (subs s)) s.

Definition with_admission (ticket : Z) (u : Submission) : Submission :=
  mkSubmission (su_bytes u) (su_origin u) (su_local u) (su_shared u) (su_retained u) (su_released u) (Some ticket) (su_early u)
    (su_uncertain u) (su_callbacks u) (su_handled u).

Definition with_early (e : option CapturedSettlement) (u : Submission) : Submission :=
  mkSubmission (su_bytes u) (su_origin u) (su_local u) (su_shared u) (su_retained u) (su_released u) (su_admission u) e
    (su_uncertain u) (su_callbacks u) (su_handled u).

Definition with_uncertain (u : Submission) : Submission :=
  mkSubmission (su_bytes u) (su_origin u) (su_local u) (su_shared u) (su_retained u) (su_released u) (su_admission u) (su_early u)
    true (su_callbacks u) (su_handled u).

Definition with_callback (u : Submission) : Submission :=
  mkSubmission (su_bytes u) (su_origin u) (su_local u) (su_shared u) (su_retained u) (su_released u) (su_admission u) (su_early u)
    (su_uncertain u) (S (su_callbacks u)) (su_handled u).

Definition with_handled (u : Submission) : Submission :=
  mkSubmission (su_bytes u) (su_origin u) (su_local u) (su_shared u) (su_retained u) (su_released u) (su_admission u) (su_early u)
    (su_uncertain u) (su_callbacks u) true.

Definition with_released (u : Submission) : Submission :=
  mkSubmission (su_bytes u) (su_origin u) (su_local u) (su_shared u) (su_retained u) true (su_admission u) (su_early u)
    (su_uncertain u) (su_callbacks u) (su_handled u).

(** A call returns, or waits for a callback. *)

Inductive Out :=
  | Done (s : PtyInput)
  | Wait (fs : list Frame) (s : PtyInput).

Definition andThen (o : Out) (f : Frame) (k : PtyInput -> Out) : Out :=
  match o with Done s => k s | Wait fs s => Wait (fs ++ [f]) s end.

(** *** Faults *)

Definition reportFault (r : FaultReason) (s : PtyInput) : Out := Wait [W_fault] (emit (Fault r) s).

Definition retireWriter (s : PtyInput) : Out :=
  if retired s then Done s else Wait [W_dispose] (emit Disposed (set_retired s)).

Definition faultAndFence (r : FaultReason) (s : PtyInput) : Out := andThen (reportFault r (set_fenced s)) I_retire retireWriter.

(** After [disposeBoundedWrite]; [None] when it threw. *)

Definition after_dispose (x : option bool) (s : PtyInput) : Out :=
  match x with Some true => Done s | _ => reportFault f_retire_failed s end.

Definition retire (s : PtyInput) : Out := retireWriter (set_fenced s).

Definition markWriterClosed (s : PtyInput) : PtyInput := set_fenced s.

Definition snapshot (s : PtyInput) : NativeInputSnapshot := budget_snapshot (local s).

(** *** Settlements *)

Definition release (id : nat) (s : PtyInput) : PtyInput :=
  match subs s !! id with
  | Some u =>
     if su_released u then s
     else set_ledgers (budget_release (su_local u) (local s)) (budget_release (su_shared u) (shared s))
            (match su_retained u with Some l => la_release l (account s) | None => account s end) (modify id with_released s)
  | None => s
  end.

Definition finish (id : nat) (s : PtyInput) : Out := Done (release id (modify id (with_early None) s)).

Definition notify (id : nat) (result : NativeInputSettlement) (s : PtyInput) : Out :=
  Wait [W_settled id] (emit (Observed id result) s).

Definition handleSettlement (id : nat) (value : CapturedSettlement) (s : PtyInput) : Out :=
  match subs s !! id with
  | Some u =>
     match su_admission u with
     | Some ticket =>
        if su_handled u then Done s
        else
          let s := modify id with_handled s in
          let result := settlementResult value ticket (su_bytes u) in
          andThen (match result with
                   | Input_unknown _ None _ _ _ _ _ => faultAndFence f_settlement_invalid s
                   | Input_unknown _ (Some _) _ _ _ _ _ => faultAndFence f_settlement_unknown s
                   | Input_written _ _ => Done s
                   end) (I_notify id result) (notify id result)
     | None => Done s
     end
  | None => Done s
  end.

(** After [onSettled]; [None] when it threw. *)

Definition after_settled (id : nat) (x : option unit) (s : PtyInput) : Out :=
  match x with
  | Some _ => finish id s
  | None => andThen (faultAndFence f_observer_threw s) (I_finish id) (finish id)
  end.

Definition nativeSettlement (id : nat) (value : RawSettlement) (s : PtyInput) : Out :=
  match subs s !! id with
  | Some u =>
     let s := modify id with_callback s in
     if negb (Nat.eqb (S (su_callbacks u)) 1) then faultAndFence f_settlement_duplicate s
     else
       let captured := captureSettlement value in
       match su_admission u with
       | Some _ => handleSettlement id captured s
       | None =>
          let s := modify id (with_early (Some captured)) s in
          match settlementTicket captured with
          | Some ticket => if su_uncertain u then handleSettlement id captured (modify id (with_admission ticket) s) else Done s
          | None => Done s
          end
       end
  | None => Done s
  end.

(** *** Submissions *)

Definition answer (id : nat) (result : NativeInputAdmission) (s : PtyInput) : Out := Done (emit (Answered (Some id) result) s).

Definition refuse (r : NativeInputRejectionReason) (s : PtyInput) : Out := Done (emit (Answered None (Input_rejected r)) s).

(** [bytes] is [None] when it is no [Uint8Array], else its length; [callback]:
    [onSettled] is a function. *)

Definition submit (bytes : option N) (origin : NativeInputOrigin) (callback : bool) (s : PtyInput) : Out :=
  match bytes with
  | None => refuse rj_invalid_bytes s
  | Some n =>
     let n := Z.of_N n in
     if n =? 0 then refuse rj_empty s
     else if negb callback then refuse rj_invalid_callback s
     else if fenced s then refuse rj_fenced s
     else
       match budget_reserve n (local s) with
       | inl byte_limit => refuse rj_pty_byte_limit s
       | inl task_limit => refuse rj_pty_task_limit s
       | inr (l, b) =>
          match budget_reserve n (shared s) with
          | inl r =>
             refuse (match r with byte_limit => rj_factory_byte_limit | task_limit => rj_factory_task_limit end)
               (set_ledgers (budget_release l b) (shared s) (account s) s)
          | inr (k, c) =>
             match (if retaining
                    then match la_reserve (n * 2 + SETTLEMENT_TICKET_BYTES) (account s) with
                         | Some (x, a) => Some (Some x, a)
                         | None => None
                         end
                    else Some (None, account s)) with
             | None => refuse rj_worker_byte_limit (set_ledgers (budget_release l b) (budget_release k c) (account s) s)
             | Some (x, a) =>
                let id := length (subs s) in
                let u := mkSubmission n origin l k x false None None false 0 false in
                Wait [W_write id] (emit (Wrote id) (set_ledgers b c a (set_subs (subs s ++ [u]) s)))
             end
          end
       end
  end.

Definition invalid_admission (id : nat) (s : PtyInput) : Out :=
  match subs s !! id with
  | Some u => andThen (faultAndFence f_admission_invalid s) (I_answer id (Input_uncertain native_admission_invalid (su_bytes u)))
                (answer id (Input_uncertain native_admission_invalid (su_bytes u)))
  | None => Done s
  end.

(** The rejections that a healthy writer never gives. *)

Definition unexpected (r : NativeReason) : bool := match r with n_byte_limit | n_task_limit => false | _ => true end.

(** After [writeBounded]; [None] when it threw. *)

Definition after_write (id : nat) (x : option RawAdmission) (s : PtyInput) : Out :=
  match subs s !! id with
  | None => Done s
  | Some u =>
     let n := su_bytes u in
     match x with
     | None =>
        let s := modify id with_uncertain s in
        match su_early u, su_early u ≫= settlementTicket with
        | Some e, Some ticket =>
           let answered := Input_accepted ticket n (su_origin u) in
           andThen (handleSettlement id e (modify id (with_admission ticket) s)) (I_answer id answered) (answer id answered)
        | _, _ =>
           let answered := Input_uncertain native_call_threw n in
           andThen (faultAndFence f_write_threw s) (I_answer id answered) (answer id answered)
        end
     | Some raw =>
        match parseAdmission raw n with
        | None => invalid_admission id (modify id with_uncertain s)
        | Some (Some (Parsed_accepted ticket)) =>
           let answered := Input_accepted ticket n (su_origin u) in
           let s := modify id (with_admission ticket) s in
           andThen (match su_early u with Some e => handleSettlement id e s | None => Done s end) (I_answer id answered) (answer id answered)
        | Some parsed =>
           match parsed, su_early u with
           | Some (Parsed_rejected r), None =>
              let answered := Input_rejected (rj_native r) in
              let s := release id s in
              andThen (if unexpected r then faultAndFence f_admission_invalid s else Done s) (I_answer id answered) (answer id answered)
           | _, early =>
              let s := modify id with_uncertain s in
              match early, early ≫= settlementTicket with
              | Some e, Some ticket =>
                 andThen (handleSettlement id e (modify id (with_admission ticket) s)) (I_invalid id) (invalid_admission id)
              | _, _ => invalid_admission id s
              end
           end
        end
     end
  end.

(** *** Returning from a callback *)

Definition exec (f : Frame) (s : PtyInput) : Out :=
  match f with
  | W_write _ | W_settled _ | W_fault | W_dispose => Done s
  | I_retire => retireWriter s
  | I_notify id result => notify id result s
  | I_finish id => finish id s
  | I_invalid id => invalid_admission id s
  | I_answer id result => answer id result s
  end.

(** Goes on down to the next suspended callback, or to the end. *)

Fixpoint unwind (st : list Frame) (o : Out) : PtyInput :=
  match o, st with
  | Wait fs s, _ => set_stack (fs ++ st) s
  | Done s, [] => set_stack [] s
  | Done s, f :: rest => if is_callback f then set_stack st s else unwind rest (exec f s)
  end.

(** A call, in any callback or outside: of a method, or of the callback that
    [submit] gave to the writer. *)

Inductive Call :=
  | C_submit (bytes : option N) (origin : NativeInputOrigin) (callback : bool)
  | C_settlement (id : nat) (value : RawSettlement)
  | C_retire
  | C_closed.

Definition perform (c : Call) (s : PtyInput) : PtyInput :=
  unwind (stack s)
    (match c with
     | C_submit bytes origin callback => submit bytes origin callback s
     | C_settlement id value => nativeSettlement id value s
     | C_retire => retire s
     | C_closed => Done (markWriterClosed s)
     end).

(** What a suspended callback ends with; [None] when it throws. *)

Inductive Ending :=
  | E_write (x : option RawAdmission)
  | E_call (x : option unit)
  | E_dispose (x : option bool).

Definition resume (x : Ending) (s : PtyInput) : option PtyInput :=
  match stack s, x with
  | W_write id :: rest, E_write x => Some (unwind rest (after_write id x s))
  | W_settled id :: rest, E_call x => Some (unwind rest (after_settled id x s))
  | W_fault :: rest, E_call _ => Some (unwind rest (Done s))
  | W_dispose :: rest, E_dispose x => Some (unwind rest (after_dispose x s))
  | _, _ => None
  end.

End input.
