(* ===== verification/PtyInputProperties.v ===== *)
(** * What the native input of a PTY guarantees

    The invariant of PtyInput.v, whatever the writer and the observers do: the
    three ledgers hold exactly the submissions that are not over, every
    submission is settled at most once with a result that accounts for all its
    bytes, and nothing is written after anything uncertain. *)

From S2P Require Import Prelude LeaseAccount PtyInput.

(** ** Budgets are lease accounts *)

Definition live_bytes (r : option Z) : Z := default 0 r.

Definition live_one (r : option Z) : Z := match r with Some _ => 1 | None => 0 end.

Definition budget_ok (b : InputBudget) : Prop :=
  allocatedBytes b = lsum live_bytes (reservations b) /\ tasks b = lsum live_one (reservations b).

Definition budget_charge (b : InputBudget) (r : nat) : option Z := mjoin (reservations b !! r).

Lemma budget_reserve_shape n b r b' : budget_reserve n b = inr (r, b') ->
  r = length (reservations b) /\ reservations b' = reservations b ++ [Some n] /\ allocatedBytes b' = allocatedBytes b + n
  /\ tasks b' = tasks b + 1 /\ maxBytes b' = maxBytes b /\ maxTasks b' = maxTasks b
  /\ n <= maxBytes b - allocatedBytes b /\ tasks b < maxTasks b.
Proof.
  unfold budget_reserve. destruct (maxTasks b <=? tasks b) eqn:E1; [done |]. destruct (maxBytes b - allocatedBytes b <? n) eqn:E2; [done |].
  intros [= <- <-]. apply Z.leb_gt in E1. apply Z.ltb_ge in E2. cbn. split_and!; done.
Qed.

Lemma budget_release_live r n b : budget_charge b r = Some n ->
  budget_release r b = mkBudget (maxBytes b) (maxTasks b) (allocatedBytes b - n) (tasks b - 1) (peakAllocatedBytes b) (peakTasks b)
    (<[r := None]> (reservations b)) /\ reservations b !! r = Some (Some n).
Proof.
  unfold budget_charge, budget_release. destruct (reservations b !! r) as [[m|]|]; cbn; try done. by intros [= ->].
Qed.

#[export] Instance budget_account : LeaseAccount InputBudget.
Proof.
  refine {| la_reserve n b := match budget_reserve n b with inr x => Some x | inl _ => None end;
            la_release := budget_release; la_charge := budget_charge; la_used := allocatedBytes; la_ok := budget_ok |}.
  - intros n b r b' [H1 H2] E. destruct (budget_reserve n b) as [|[? ?]] eqn:Er; [done |]. injection E as -> ->.
    apply budget_reserve_shape in Er as (-> & R & Ha & Ht & _). unfold budget_charge, budget_ok. rewrite R, Ha, Ht, !lsum_app, !lsum_cons, !lsum_nil.
    split_and!; [cbn; lia | cbn; lia | by rewrite lookup_ge_None_2 | by rewrite lookup_app_r, Nat.sub_diag | | done].
    intros k Hk. destruct (decide (k < length (reservations b))%nat); [by rewrite lookup_app_l |].
    rewrite !lookup_ge_None_2; [done | lia | rewrite length_app; cbn; lia].
  - intros r n b [H1 H2] E. destruct (budget_release_live r n b E) as [-> Hr]. unfold budget_ok, budget_charge. cbn.
    rewrite !(lsum_insert _ _ _ _ _ Hr), list_lookup_insert_eq by (by eapply lookup_lt_Some).
    split_and!; [cbn; lia | cbn; lia | done | | lia]. intros k Hk. by rewrite list_lookup_insert_ne.
  - intros r b E. unfold budget_charge, budget_release in *. by destruct (reservations b !! r) as [[]|].
Defined.

Lemma granted n b r b' : budget_reserve n b = inr (r, b') -> la_reserve n b = Some (r, b').
Proof. intros E. cbn. by rewrite E. Qed.

(** Their bounds, of reservations that are not negative. *)

Record budget_bounded (b : InputBudget) : Prop := mk_budget_bounded {
  bb_live : Forall (fun r => 0 <= live_bytes r) (reservations b);
  bb_bytes : allocatedBytes b <= Z.max 0 (maxBytes b);
  bb_tasks : tasks b <= Z.max 0 (maxTasks b);
}.

Lemma bounded_reserve n b r b' : 0 <= n -> budget_bounded b -> budget_reserve n b = inr (r, b') -> budget_bounded b'.
Proof.
  intros Hn [H1 H2 H3] (-> & R & Ha & Ht & Hm & Hm' & Hb & Hc)%budget_reserve_shape. constructor; [| lia | lia].
  rewrite R. apply Forall_app. split; [done |]. by constructor.
Qed.

Lemma bounded_release r b : budget_bounded b -> budget_bounded (budget_release r b).
Proof.
  intros [H1 H2 H3]. unfold budget_release. destruct (reservations b !! r) as [[n|]|] eqn:E; try by constructor.
  assert (Hn : 0 <= n) by (rewrite Forall_forall in H1; apply (H1 (Some n)); by eapply list_elem_of_lookup_2).
  constructor; cbn; [| lia | lia]. apply Forall_insert; [done | cbn; lia].
Qed.

Lemma release_tasks r n b : budget_charge b r = Some n -> tasks (budget_release r b) = tasks b - 1
  /\ maxTasks (budget_release r b) = maxTasks b /\ maxBytes (budget_release r b) = maxBytes b.
Proof. intros E. by destruct (budget_release_live r n b E) as [-> _]. Qed.

(** ** What the controller holds *)

Section properties.
Context {A : Type} `{LeaseAccount A}.
Context (retaining : bool).
Implicit Types (s : PtyInput (A := A)).

Definition open_subs (s : PtyInput (A := A)) : list Submission := List.filter (fun u => negb (su_released u)) (subs s).

Definition local_lease (u : Submission) : nat * Z := (su_local u, su_bytes u).

Definition shared_lease (u : Submission) : nat * Z := (su_shared u, su_bytes u).

Definition retained_lease (u : Submission) : option (nat * Z) :=
  match su_retained u with Some l => Some (l, su_bytes u * 2 + SETTLEMENT_TICKET_BYTES) | None => None end.

Record ledgers_ok (fs fr : Z) (s : PtyInput (A := A)) : Prop := mk_ledgers_ok {
  lg_local : ledger 0 (local s) (map local_lease (open_subs s));
  lg_tasks : tasks (local s) = zlen (open_subs s);
  lg_bounded : budget_bounded (local s);
  lg_shared : ledger fs (shared s) (map shared_lease (open_subs s));
  lg_retained : ledger fr (account s) (omap retained_lease (open_subs s));
  lg_present : Forall (fun u => is_Some (su_retained u) <-> retaining = true) (subs s);
}.

(** Changes of a submission that its leases do not see. *)

Definition same_leases (f : Submission -> Submission) : Prop :=
  forall u, su_released (f u) = su_released u /\ su_bytes (f u) = su_bytes u /\ su_local (f u) = su_local u
    /\ su_shared (f u) = su_shared u /\ su_retained (f u) = su_retained u.

Lemma omap_filter_alter {C} (g : Submission -> option C) f id l : same_leases f -> (forall u, g (f u) = g u) ->
  omap g (List.filter (fun u => negb (su_released u)) (alter f id l)) = omap g (List.filter (fun u => negb (su_released u)) l).
Proof.
  intros Hf Hg. revert id. induction l as [|u l IH]; intros [|id]; try done; unfold alter in *; cbn [list_alter List.filter].
  - destruct (Hf u) as (-> & _). destruct (su_released u); cbn [negb omap list_omap]; [done |]. by rewrite Hg.
  - destruct (su_released u); cbn [negb omap list_omap]; [apply IH |]. by rewrite IH.
Qed.

Lemma map_omap {B C} (g : B -> C) l : map g l = omap (fun x => Some (g x)) l.
Proof. induction l as [|x l IH]; [done |]. cbn. by rewrite IH. Qed.

Lemma pi_zlen_map {B C} (g : B -> C) l : zlen (map g l) = zlen l.
Proof. unfold zlen. by rewrite length_map. Qed.

Lemma modify_ledgers fs fr id f s : same_leases f -> ledgers_ok fs fr s -> ledgers_ok fs fr (modify id f s).
Proof.
  intros Hf [H1 H2 H3 H4 H5 H6]. unfold same_leases in Hf.
  assert (Hz : zlen (open_subs (modify id f s)) = zlen (open_subs s)).
  { rewrite <- !(pi_zlen_map local_lease), !map_omap. unfold open_subs. cbn [subs modify set_subs]. rewrite omap_filter_alter; [done | done |].
    intros u. unfold local_lease. destruct (Hf u) as (_ & -> & -> & _). done. }
  constructor; cbn [local shared account modify set_subs]; [| by rewrite Hz | done | | |].
  - rewrite map_omap in *. unfold open_subs. cbn [subs modify set_subs]. rewrite omap_filter_alter; [done | done |].
    intros u. unfold local_lease. destruct (Hf u) as (_ & -> & -> & _). done.
  - rewrite map_omap in *. unfold open_subs. cbn [subs modify set_subs]. rewrite omap_filter_alter; [done | done |].
    intros u. unfold shared_lease. destruct (Hf u) as (_ & -> & _ & -> & _). done.
  - unfold open_subs. cbn [subs modify set_subs]. rewrite omap_filter_alter; [done | done |].
    intros u. unfold retained_lease. destruct (Hf u) as (_ & -> & _ & _ & ->). done.
  - apply Forall_alter; [done |]. intros u _ Hu. by destruct (Hf u) as (_ & _ & _ & _ & ->).
Qed.

Lemma open_released id u s : subs s !! id = Some u -> su_released u = false ->
  open_subs s ≡ₚ u :: List.filter (fun u => negb (su_released u)) (alter with_released id (subs s)).
Proof.
  unfold open_subs. revert id. generalize (subs s) as l. induction l as [|x l IH]; intros [|id] E Hr; try done; unfold alter in *; cbn [list_alter List.filter].
  - injection E as ->. by rewrite Hr.
  - destruct (su_released x); cbn [negb]; [by apply IH |]. rewrite perm_swap. apply perm_skip. by apply IH.
Qed.

Lemma release_ledgers fs fr id s : ledgers_ok fs fr s -> ledgers_ok fs fr (release id s).
Proof.
  intros Hl. unfold release. destruct (subs s !! id) as [u|] eqn:E; [| done]. destruct (su_released u) eqn:Hr; [done |].
  pose proof (open_released id u s E Hr) as Hp. destruct Hl as [H1 H2 H3 H4 H5 H6].
  set (rest := List.filter _ _) in Hp.
  assert (Hrest : forall l b a, open_subs (set_ledgers l b a (modify id with_released s)) = rest) by done.
  rewrite Hp in H1, H2, H4, H5. cbn [map omap list_omap] in H1, H4, H5.
  assert (Hc : budget_charge (local s) (su_local u) = Some (su_bytes u)) by (apply (ledger_live _ _ _ H1); left).
  destruct (release_tasks _ _ _ Hc) as (Ht & _ & _).
  constructor; rewrite ?Hrest; cbn [local shared account set_ledgers].
  - by apply ledger_release in H1.
  - rewrite Ht, H2, zlen_cons. lia.
  - by apply bounded_release.
  - by apply ledger_release in H4.
  - unfold retained_lease in H5 at 1. destruct (su_retained u); [by apply ledger_release in H5 | done].
  - cbn [subs set_ledgers]. apply Forall_alter; [done |]. intros v _ Hv. done.
Qed.

(** A new submission: its three reservations, and its record. *)

Lemma new_ledgers fs fr s n l b k c x a o : 0 <= n -> ledgers_ok fs fr s ->
  budget_reserve n (local s) = inr (l, b) -> budget_reserve n (shared s) = inr (k, c) ->
  (if retaining then match la_reserve (n * 2 + SETTLEMENT_TICKET_BYTES) (account s) with Some (x, a) => Some (Some x, a) | None => None end
   else Some (None, account s)) = Some (x, a) ->
  ledgers_ok fs fr (set_ledgers b c a (set_subs (subs s ++ [mkSubmission n o l k x false None None false 0 false]) s)).
Proof.
  intros Hn [H1 H2 H3 H4 H5 H6] E1 E2 E3. set (u := mkSubmission n o l k x false None None false 0 false).
  set (s' := set_ledgers b c a _).
  assert (Hp : open_subs s' ≡ₚ u :: open_subs s).
  { unfold open_subs, s'. cbn [subs set_ledgers set_subs]. rewrite List.filter_app. cbn [List.filter su_released u negb]. symmetry. apply Permutation_cons_append. }
  constructor; cbn [local shared account s' set_ledgers].
  - rewrite Hp. cbn [map]. by apply (ledger_reserve _ (local s)), granted.
  - apply budget_reserve_shape in E1 as (_ & _ & _ & Ht & _). by rewrite Ht, H2, Hp, zlen_cons, Z.add_comm.
  - by eapply bounded_reserve.
  - rewrite Hp. cbn [map]. by apply (ledger_reserve _ (shared s)), granted.
  - rewrite Hp. cbn [omap list_omap]. unfold retained_lease at 1. cbn [su_retained u su_bytes].
    destruct retaining; [| by injection E3 as <- <-]. destruct (la_reserve _ _) as [[y d]|] eqn:E; [| done]. injection E3 as <- <-.
    by eapply ledger_reserve.
  - apply Forall_app. split; [done |]. constructor; [| done]. cbn [su_retained]. destruct retaining.
    + destruct (la_reserve _ _) as [[y d]|]; [| done]. injection E3 as <- _. split; eauto.
    + injection E3 as <- _. split; [by intros [] | done].
Qed.

(** A reservation taken and given back. *)

Lemma local_return fs fr s n l b : 0 <= n -> ledgers_ok fs fr s -> budget_reserve n (local s) = inr (l, b) ->
  ledgers_ok fs fr (set_ledgers (budget_release l b) (shared s) (account s) s).
Proof.
  intros Hn [H1 H2 H3 H4 H5 H6] E. constructor; cbn [local shared account set_ledgers]; try done.
  - exact (ledger_release 0 b _ l n (ledger_reserve 0 (local s) _ l n b H1 (granted _ _ _ _ E))).
  - assert (Hc : budget_charge b l = Some n).
    { apply budget_reserve_shape in E as (-> & R & _). unfold budget_charge. by rewrite R, lookup_app_r, Nat.sub_diag. }
    destruct (release_tasks _ _ _ Hc) as (Ht & _). apply budget_reserve_shape in E as (_ & _ & _ & Ht' & _).
    change (open_subs (set_ledgers (budget_release l b) (shared s) (account s) s)) with (open_subs s). lia.
  - by eapply bounded_release, bounded_reserve.
Qed.

Lemma shared_return fs fr s n k c : ledgers_ok fs fr s -> budget_reserve n (shared s) = inr (k, c) ->
  ledgers_ok fs fr (set_ledgers (local s) (budget_release k c) (account s) s).
Proof.
  intros [H1 H2 H3 H4 H5 H6] E. constructor; cbn [local shared account set_ledgers]; try done.
  exact (ledger_release fs c _ k n (ledger_reserve fs (shared s) _ k n c H4 (granted _ _ _ _ E))).
Qed.

(** ** The life of a submission *)

Definition notifies (id : nat) (f : Frame) : bool := match f with I_notify k _ => Nat.eqb k id | _ => false end.

Definition finishes (id : nat) (f : Frame) : bool :=
  match f with I_notify k _ | W_settled k | I_finish k => Nat.eqb k id | _ => false end.

Definition writes_to (id : nat) (f : Frame) : bool := match f with W_write k => Nat.eqb k id | _ => false end.

Definition observes (id : nat) (e : Effect) : bool := match e with Observed k _ => Nat.eqb k id | _ => false end.

Definition frames (p : Frame -> bool) (F : list Frame) : nat := length (List.filter p F).

Definition observed (id : nat) (t : list Effect) : nat := length (List.filter (observes id) t).

(** [F] are the frames above which the controller runs and [t] is the trace.
    [settling] exempts the submission whose settlement has come but is not
    handled yet. *)

Record sub_ok (settling : bool) (F : list Frame) (t : list Effect) (id : nat) (u : Submission) : Prop := mk_sub_ok {
  so_notify : (observed id t + frames (notifies id) F)%nat = Nat.b2n (su_handled u);
  so_finish : frames (finishes id) F = Nat.b2n (su_handled u && negb (su_released u));
  so_write : (frames (writes_to id) F <= 1)%nat
     /\ (frames (writes_to id) F = 1%nat -> su_admission u = None /\ su_uncertain u = false /\ su_released u = false);
  so_handled : su_handled u = true -> is_Some (su_admission u);
  so_settled : settling = false -> is_Some (su_admission u) -> (0 < su_callbacks u)%nat -> su_handled u = true;
  so_early : settling = false -> su_admission u = None -> (0 < su_callbacks u)%nat <-> is_Some (su_early u);
  so_released : su_released u = true -> su_handled u = false ->
     su_admission u = None /\ su_uncertain u = false /\ frames (writes_to id) F = 0%nat;
  so_bytes : 0 < su_bytes u;
}.

Definition subs_ok (X : option nat) (F : list Frame) (s : PtyInput (A := A)) : Prop :=
  forall id u, subs s !! id = Some u -> sub_ok (bool_decide (X = Some id)) F (trace s) id u.

(** The result of a settlement accounts for all bytes of its submission. *)

Definition outcome_ok (u : Submission) (r : NativeInputSettlement) : Prop :=
  match r with
  | Input_written t n => su_admission u = Some t /\ n = su_bytes u
  | Input_unknown t _ n w m _ _ => su_admission u = Some t /\ n = su_bytes u /\ 0 <= w /\ 0 <= m /\ w + m = n
  end.

Definition answer_ok (u : Submission) (a : NativeInputAdmission) : Prop :=
  match a with
  | Input_accepted t n o => su_admission u = Some t /\ n = su_bytes u /\ o = su_origin u
  | Input_rejected r => su_released u = true /\ su_handled u = false
  | Input_uncertain _ n => su_uncertain u = true /\ n = su_bytes u
  end.

(** What is uncertain, and must be behind the fence. *)

Definition unsure_result (r : NativeInputSettlement) : bool := match r with Input_unknown _ _ _ _ _ _ _ => true | _ => false end.

Definition unsure_answer (a : NativeInputAdmission) : bool := match a with Input_uncertain _ _ => true | _ => false end.

Definition unsure (e : Effect) : bool :=
  match e with Fault _ | Disposed => true | Observed _ r => unsure_result r | Answered _ a => unsure_answer a | Wrote _ => false end.

Definition frame_ok (s : PtyInput (A := A)) (f : Frame) : Prop :=
  match f with
  | I_notify id r => (exists u, subs s !! id = Some u /\ outcome_ok u r) /\ (unsure_result r = true -> fenced s = true)
  | I_answer id a => (exists u, subs s !! id = Some u /\ answer_ok u a) /\ (unsure_answer a = true -> fenced s = true)
  | I_invalid id => exists u, subs s !! id = Some u /\ su_uncertain u = true
  | W_write id | W_settled id | I_finish id => is_Some (subs s !! id)
  | I_retire | W_dispose => fenced s = true
  | _ => True
  end.

Definition effect_ok (s : PtyInput (A := A)) (e : Effect) : Prop :=
  match e with
  | Observed id r => exists u, subs s !! id = Some u /\ outcome_ok u r
  | Answered (Some id) a => exists u, subs s !! id = Some u /\ answer_ok u a
  | Wrote id => is_Some (subs s !! id)
  | _ => True
  end.

(** No write follows what is uncertain. *)

Definition writes_first (t : list Effect) : Prop :=
  forall t1 e t2, t = t1 ++ e :: t2 -> unsure e = true -> Forall (fun x => match x with Wrote _ => False | _ => True end) t2.

Definition disposals (t : list Effect) : nat := length (List.filter (fun e => match e with Disposed => true | _ => false end) t).

Record log_ok (F : list Frame) (s : PtyInput (A := A)) : Prop := mk_log_ok {
  lo_frames : Forall (frame_ok s) F;
  lo_effects : Forall (effect_ok s) (trace s);
  lo_fence : Forall (fun e => unsure e = true -> fenced s = true) (trace s);
  lo_order : writes_first (trace s);
  lo_disposed : disposals (trace s) = Nat.b2n (retired s) /\ (retired s = true -> fenced s = true);
}.

Record input_ok (fs fr : Z) (X : option nat) (F : list Frame) (s : PtyInput (A := A)) : Prop := mk_input_ok {
  in_ledgers : ledgers_ok fs fr s;
  in_subs : subs_ok X F s;
  in_log : log_ok F s;
}.

Definition out_ok (fs fr : Z) (F : list Frame) (o : Out) : Prop :=
  match o with Done s => input_ok fs fr None F s | Wait fs' s => input_ok fs fr None (fs' ++ F) s end.

(** *** Lemmas on counts *)

Lemma frames_app p F G : frames p (F ++ G) = (frames p F + frames p G)%nat.
Proof. unfold frames. by rewrite List.filter_app, length_app. Qed.

Lemma frames_in p F f : f ∈ F -> p f = true -> (0 < frames p F)%nat.
Proof.
  intros Hin Hp. unfold frames. destruct (List.filter p F) eqn:E; [| cbn; lia].
  assert (Hf : f ∈ List.filter p F) by (apply list_elem_of_In, filter_In; by rewrite <- list_elem_of_In). rewrite E in Hf. by apply elem_of_nil in Hf.
Qed.

Lemma frames_cons p f F : frames p (f :: F) = (Nat.b2n (p f) + frames p F)%nat.
Proof. unfold frames. cbn. by destruct (p f). Qed.

Lemma observed_snoc id t e : observed id (t ++ [e]) = (observed id t + Nat.b2n (observes id e))%nat.
Proof. unfold observed. rewrite List.filter_app, length_app. cbn. by destruct (observes id e). Qed.

Lemma disposals_snoc t e : disposals (t ++ [e]) = (disposals t + match e with Disposed => 1 | _ => 0 end)%nat.
Proof. unfold disposals. rewrite List.filter_app, length_app. by destruct e. Qed.

Lemma writes_first_snoc t e : writes_first t -> (match e with Wrote _ => Forall (fun x => unsure x = false) t | _ => True end) ->
  writes_first (t ++ [e]).
Proof.
  intros Ht He t1 x t2 E Hx. destruct t2 as [|y t2 _] using rev_ind; [done |]. rewrite app_comm_cons, app_assoc in E.
  apply app_inj_tail in E as [E ->]. apply Forall_app. split; [by eapply Ht |]. constructor; [| done].
  destruct y as [k| | | |]; try done. rewrite E, Forall_app, Forall_cons in He. destruct He as (_ & He & _). congruence.
Qed.

(** *** What later states keep *)

Definition keeps (u u' : Submission) : Prop :=
  su_bytes u' = su_bytes u /\ su_origin u' = su_origin u /\ (forall t, su_admission u = Some t -> su_admission u' = Some t)
  /\ (su_uncertain u = true -> su_uncertain u' = true)
  /\ (su_released u = true -> su_handled u = false -> su_released u' = true /\ su_handled u' = false).

Record grows (s s' : PtyInput (A := A)) : Prop := mk_grows {
  gr_subs : forall id u, subs s !! id = Some u -> exists u', subs s' !! id = Some u' /\ keeps u u';
  gr_fence : fenced s = true -> fenced s' = true;
}.

Lemma keeps_refl u : keeps u u.
Proof. unfold keeps. split_and!; auto. Qed.

Lemma grows_same s s' : subs s' = subs s -> (fenced s = true -> fenced s' = true) -> grows s s'.
Proof. intros E Hf. constructor; [| done]. intros id u Hu. exists u. rewrite E. split; [done | apply keeps_refl]. Qed.

Lemma grows_modify id f s : (forall u, subs s !! id = Some u -> keeps u (f u)) -> grows s (modify id f s).
Proof.
  intros Hf. constructor; [| done]. intros k u Hu. cbn [subs modify set_subs]. destruct (decide (k = id)) as [->|Hk].
  - exists (f u). rewrite list_lookup_alter_eq, Hu. auto.
  - exists u. rewrite list_lookup_alter_ne by done. split; [done | apply keeps_refl].
Qed.

Lemma result_keeps u u' r : keeps u u' -> outcome_ok u r -> outcome_ok u' r.
Proof. intros (E1 & _ & E2 & _). destruct r; cbn; rewrite E1; intuition. Qed.

Lemma answer_keeps u u' a : keeps u u' -> answer_ok u a -> answer_ok u' a.
Proof. intros (E1 & E2 & E3 & E4 & E5). destruct a; cbn; rewrite ?E1, ?E2; intuition. Qed.

Lemma exists_grows s s' id (Q : Submission -> Prop) : grows s s' -> (forall u u', keeps u u' -> Q u -> Q u') ->
  (exists u, subs s !! id = Some u /\ Q u) -> exists u, subs s' !! id = Some u /\ Q u.
Proof. intros Hg HQ (u & Hu & Hq). destruct (gr_subs _ _ Hg id u Hu) as (u' & Hu' & Hk). exists u'. split; [done | by eapply HQ]. Qed.

Lemma some_grows s s' id : grows s s' -> is_Some (subs s !! id) -> is_Some (subs s' !! id).
Proof. intros Hg [u Hu]. destruct (gr_subs _ _ Hg id u Hu) as (u' & Hu' & _). by exists u'. Qed.

Lemma frame_grows s s' f : grows s s' -> frame_ok s f -> frame_ok s' f.
Proof.
  intros Hg. destruct f; cbn; try done; try (by apply some_grows); try apply (gr_fence _ _ Hg).
  - intros [He Hf]. split; [eapply exists_grows; [exact Hg | by intros; eapply result_keeps | done] | intros; by apply (gr_fence _ _ Hg), Hf].
  - apply exists_grows; [done |]. intros u u' (_ & _ & _ & E & _). exact E.
  - intros [He Hf]. split; [eapply exists_grows; [exact Hg | by intros; eapply answer_keeps | done] | intros; by apply (gr_fence _ _ Hg), Hf].
Qed.

Lemma effect_grows s s' e : grows s s' -> effect_ok s e -> effect_ok s' e.
Proof.
  intros Hg. destruct e as [id|id r|r| |[id|] a]; cbn; try done; try (by apply some_grows).
  - apply exists_grows; [done |]. intros u u' Hk. by apply result_keeps.
  - apply exists_grows; [done |]. intros u u' Hk. by apply answer_keeps.
Qed.

Lemma log_grows F s s' : grows s s' -> trace s' = trace s -> retired s' = retired s -> log_ok F s -> log_ok F s'.
Proof.
  intros Hg Ht Hr [H1 H2 H3 H4 [H5 H6]]. constructor; rewrite ?Ht, ?Hr; [| | | done |].
  - eapply Forall_impl; [exact H1 |]. intros f. by apply frame_grows.
  - eapply Forall_impl; [exact H2 |]. intros e. by apply effect_grows.
  - eapply Forall_impl; [exact H3 |]. intros e He Hu. by apply (gr_fence _ _ Hg), He.
  - split; [done |]. intros E. by apply (gr_fence _ _ Hg), H6.
Qed.

Lemma log_emit F s e : log_ok F s -> effect_ok s e -> (unsure e = true -> fenced s = true) ->
  match e with Wrote _ => fenced s = false | Disposed => False | _ => True end -> log_ok F (emit e s).
Proof.
  intros [H1 H2 H3 H4 [H5 H6]] He Hu Hw.
  assert (Hg : grows s (emit e s)) by (by apply grows_same).
  constructor; cbn [trace emit fenced retired].
  - eapply Forall_impl; [exact H1 |]. intros f. by apply frame_grows.
  - apply Forall_app. split; [eapply Forall_impl; [exact H2 |]; intros x; by apply effect_grows |]. constructor; [by apply (effect_grows s) | done].
  - apply Forall_app. split; [done |]. by constructor.
  - apply writes_first_snoc; [done |]. destruct e; try done. eapply Forall_impl; [exact H3 |]. intros x Hx.
    cbv beta in Hx. destruct (unsure x); [| done]. specialize (Hx eq_refl). congruence.
  - split; [| done]. rewrite disposals_snoc. destruct e; (done || lia).
Qed.

(** *** Steps of the invariant *)

Definition calm (f : Frame) : bool := match f with W_fault | W_dispose | I_retire | I_invalid _ | I_answer _ _ => true | _ => false end.

Lemma calm_counts f F id : calm f = true -> frames (notifies id) (f :: F) = frames (notifies id) F
  /\ frames (finishes id) (f :: F) = frames (finishes id) F /\ frames (writes_to id) (f :: F) = frames (writes_to id) F.
Proof. intros Hf. rewrite !frames_cons. by destruct f. Qed.

Lemma sub_counts b F F' t t' id u : frames (notifies id) F' = frames (notifies id) F -> frames (finishes id) F' = frames (finishes id) F ->
  frames (writes_to id) F' = frames (writes_to id) F -> observed id t' = observed id t -> sub_ok b F t id u -> sub_ok b F' t' id u.
Proof. intros E1 E2 E3 E4 []. constructor; rewrite ?E1, ?E2, ?E3, ?E4; done. Qed.

Lemma add_ok fs fr X f F s : calm f = true -> frame_ok s f -> input_ok fs fr X F s -> input_ok fs fr X (f :: F) s.
Proof.
  intros Hc Hf [H1 H2 []]. constructor; [done | | by constructor; [constructor |..]].
  intros id u Hu. destruct (calm_counts f F id Hc) as (E1 & E2 & E3). by eapply sub_counts, H2.
Qed.

Lemma drop_ok fs fr X f F s : calm f = true -> input_ok fs fr X (f :: F) s -> input_ok fs fr X F s.
Proof.
  intros Hc [H1 H2 [H3 H4 H5 H6 H7]]. constructor; [done | |].
  - intros id u Hu. destruct (calm_counts f F id Hc) as (E1 & E2 & E3). by eapply sub_counts, H2.
  - apply Forall_cons in H3 as [_ H3]. by constructor.
Qed.

Lemma ledgers_same fs fr s s' : subs s' = subs s -> local s' = local s -> shared s' = shared s -> account s' = account s ->
  ledgers_ok fs fr s -> ledgers_ok fs fr s'.
Proof. intros E1 E2 E3 E4 []. unfold open_subs in *. constructor; unfold open_subs; rewrite ?E1, ?E2, ?E3, ?E4; done. Qed.

Lemma pi_emit_ok fs fr X F e s : input_ok fs fr X F s -> effect_ok s e -> (unsure e = true -> fenced s = true) ->
  match e with Fault _ | Answered _ _ => True | _ => False end -> input_ok fs fr X F (emit e s).
Proof.
  intros [H1 H2 H3] He Hu Hk. constructor; [by apply (ledgers_same _ _ s) | | apply log_emit; [done | done | done | by destruct e]].
  intros id u Hs. refine (sub_counts _ F F (trace s) _ _ _ eq_refl eq_refl eq_refl _ (H2 id u Hs)). cbn [trace emit]. rewrite observed_snoc. destruct e; try done; cbn [observes Nat.b2n]; lia.
Qed.

Lemma fenced_ok fs fr X F s : input_ok fs fr X F s -> input_ok fs fr X F (set_fenced s).
Proof. intros [H1 H2 H3]. constructor; [by apply (ledgers_same _ _ s) | done | by apply (log_grows F s); [apply grows_same |..]]. Qed.

Lemma then_ok fs fr F o f k : out_ok fs fr (f :: F) o -> (forall s, input_ok fs fr None (f :: F) s -> out_ok fs fr F (k s)) ->
  out_ok fs fr F (andThen o f k).
Proof. intros Ho Hk. destruct o as [s|fs' s]; cbn [andThen out_ok] in *; [by apply Hk | by rewrite <- app_assoc]. Qed.

Lemma report_ok fs fr F r s : fenced s = true -> input_ok fs fr None F s -> out_ok fs fr F (reportFault r s).
Proof. intros Hf Hok. cbn [reportFault out_ok app]. by apply add_ok, pi_emit_ok. Qed.

Lemma retireWriter_ok fs fr F s : fenced s = true -> input_ok fs fr None F s -> out_ok fs fr F (retireWriter s).
Proof.
  intros Hf Hok. unfold retireWriter. destruct (retired s) eqn:Hr; [done |]. cbn [out_ok app]. apply add_ok; [done | done |].
  destruct Hok as [H1 H2 [H3 H4 H5 H6 [H7 H8]]].
  assert (Hg : grows s (emit Disposed (set_retired s))) by (by apply grows_same).
  constructor; [by apply (ledgers_same _ _ s) | |].
  - intros id u Hs. refine (sub_counts _ F F (trace s) _ _ _ eq_refl eq_refl eq_refl _ (H2 id u Hs)). cbn [trace emit set_retired]. rewrite observed_snoc. cbn [observes Nat.b2n]. lia.
  - constructor; cbn [trace emit fenced retired set_retired].
    + eapply Forall_impl; [exact H3 |]. intros f. by apply frame_grows.
    + apply Forall_app. split; [eapply Forall_impl; [exact H4 |]; intros x; by apply effect_grows | by constructor].
    + apply Forall_app. split; [done |]. by constructor.
    + by apply writes_first_snoc.
    + split; [| done]. rewrite disposals_snoc, H7, Hr. done.
Qed.

Lemma fault_ok fs fr F r s : input_ok fs fr None F (set_fenced s) -> out_ok fs fr F (faultAndFence r s).
Proof.
  intros Hok. unfold faultAndFence. apply then_ok; [by apply report_ok, add_ok |]. intros s' Hs'.
  apply retireWriter_ok; [| by apply (drop_ok _ _ _ I_retire)]. destruct Hs' as [_ _ [Hf _ _ _ _]]. by apply Forall_cons in Hf as [Hf _].
Qed.

(** *** Settlements *)

Definition about (id : nat) (f : Frame) : bool :=
  match f with W_write k | W_settled k | I_notify k _ | I_finish k => Nat.eqb k id | _ => false end.

Definition same_counts (k : nat) (F F' : list Frame) : Prop :=
  frames (notifies k) F' = frames (notifies k) F /\ frames (finishes k) F' = frames (finishes k) F
  /\ frames (writes_to k) F' = frames (writes_to k) F.

Lemma about_counts id k f F : about id f = true -> k <> id -> same_counts k F (f :: F).
Proof.
  intros Hf Hk. unfold same_counts. rewrite !frames_cons.
  destruct f; try done; apply Nat.eqb_eq in Hf; cbn; subst; try (destruct (Nat.eqb_spec id k); [congruence |]); done.
Qed.

Lemma same_counts_sym k F F' : same_counts k F F' -> same_counts k F' F.
Proof. unfold same_counts. intuition. Qed.

Lemma same_counts_trans k F G K : same_counts k F G -> same_counts k G K -> same_counts k F K.
Proof. unfold same_counts. intuition congruence. Qed.

Definition exempt (X : option nat) (id : nat) : Prop := X = None \/ X = Some id.

(** One submission changes, or its frames do. *)

Lemma subs_change X X' F F' id u f s s' : subs_ok X F s -> subs s !! id = Some u -> exempt X id -> exempt X' id ->
  subs s' = alter f id (subs s) -> (forall k, k <> id -> same_counts k F F' /\ observed k (trace s') = observed k (trace s)) ->
  sub_ok (bool_decide (X' = Some id)) F' (trace s') id (f u) -> subs_ok X' F' s'.
Proof.
  intros Hs Hu HX HX' E Hk Hid k v Hv. rewrite E in Hv. destruct (decide (k = id)) as [->|Hne].
  - rewrite list_lookup_alter_eq, Hu in Hv. by injection Hv as <-.
  - rewrite list_lookup_alter_ne in Hv by done. destruct (Hk k Hne) as [(E1 & E2 & E3) E4].
    replace (bool_decide (X' = Some k)) with (bool_decide (X = Some k)).
    + eapply sub_counts; [exact E1 | exact E2 | exact E3 | exact E4 | by apply Hs].
    + rewrite !bool_decide_false; [done | |]; destruct HX as [->| ->], HX' as [->| ->]; congruence.
Qed.

Lemma pi_modify_ok fs fr X X' F id u f s : input_ok fs fr X F s -> subs s !! id = Some u -> exempt X id -> exempt X' id ->
  same_leases f -> keeps u (f u) ->
  (sub_ok (bool_decide (X = Some id)) F (trace s) id u -> sub_ok (bool_decide (X' = Some id)) F (trace s) id (f u)) ->
  input_ok fs fr X' F (modify id f s).
Proof.
  intros [H1 H2 H3] Hu HX HX' Hf Hk Hs. constructor; [by apply modify_ledgers | | apply (log_grows F s); [|done..]].
  - eapply subs_change; [exact H2 | exact Hu | exact HX | exact HX' | done | done |]. by apply Hs, H2.
  - apply grows_modify. intros v Hv. rewrite Hu in Hv. by injection Hv as <-.
Qed.

Lemma settlement_result_ok u t v : su_admission u = Some t -> 0 < su_bytes u -> outcome_ok u (settlementResult v t (su_bytes u)).
Proof.
  intros Ha Hn. assert (Hinv : outcome_ok u (invalidSettlement t (su_bytes u))) by (cbn; split_and!; [done | done | lia..]).
  destruct v as [|t' st n w m c msg]; [done |]. cbn [settlementResult].
  destruct (negb _) eqn:E; [done |]. apply negb_false_iff in E. rewrite !andb_true_iff in E.
  destruct E as ((((((E1 & E2) & E3) & E4) & E5) & E6) & E7). unfold safe_count in *. rewrite andb_true_iff in E3, E4.
  destruct E3 as [_ E3], E4 as [_ E4]. apply Z.leb_le in E3, E4. apply Z.eqb_eq in E7.
  destruct (_ && _ && _); cbn; split_and!; done || lia.
Qed.

Lemma handled_ok fs fr X F id u t r s : input_ok fs fr X F s -> exempt X id -> subs s !! id = Some u ->
  su_admission u = Some t -> su_handled u = false -> outcome_ok u r -> (unsure_result r = true -> fenced s = true) ->
  input_ok fs fr None (I_notify id r :: F) (modify id with_handled s).
Proof.
  intros [H1 H2 H3] HX Hu Ha Hh Hr Hf. pose proof (H2 id u Hu) as Hs.
  assert (Hrel : su_released u = false).
  { destruct (su_released u) eqn:E; [| done]. destruct (so_released _ _ _ _ _ Hs E Hh) as [E' _]. congruence. }
  assert (Hk : keeps u (with_handled u)) by (unfold keeps; cbn; split_and!; [done | done | done | done | congruence]).
  assert (Hg : grows s (modify id with_handled s)) by (apply grows_modify; intros v Hv; rewrite Hu in Hv; by injection Hv as <-).
  constructor; [by apply modify_ledgers | |].
  - eapply subs_change; [exact H2 | exact Hu | exact HX | by left | done | |].
    + intros k Hk'. split; [| done]. apply (about_counts id); [apply Nat.eqb_refl | done].
    + destruct Hs as [S1 S2 [S3 S3'] S4 S5 S6 S7 S8]. rewrite Hh, Hrel in *. cbn in S1, S2.
      constructor; rewrite ?frames_cons; cbn [notifies finishes writes_to su_handled su_released su_admission su_uncertain su_callbacks su_early su_bytes with_handled];
        rewrite ?Nat.eqb_refl, ?Hrel, ?Ha; cbn [Nat.b2n andb negb Nat.add trace modify set_subs]; try done; try lia.
      * split; [lia |]. intros E. destruct (S3' E) as (E' & _). congruence.
  - assert (Hl : log_ok F (modify id with_handled s)) by (by apply (log_grows F s)). destruct Hl as [L1 L2 L3 L4 L5].
    constructor; try done. constructor; [| done]. cbn [frame_ok]. split; [| done]. exists (with_handled u).
    split; [cbn [subs modify set_subs]; by rewrite list_lookup_alter_eq, Hu | by apply (result_keeps u)].
Qed.

Lemma pi_notify_ok fs fr F id r s : input_ok fs fr None (I_notify id r :: F) s -> out_ok fs fr F (notify id r s).
Proof.
  intros [H1 H2 [H3 H4 H5 H6 H7]]. apply Forall_cons in H3 as [[(u & Hu & Hr) Hf] H3]. cbn [notify out_ok app].
  assert (Hl : log_ok F (emit (Observed id r) s)) by (apply log_emit; [by constructor | by exists u | done | done]).
  constructor; [by apply (ledgers_same _ _ s) | |].
  - assert (E : subs (emit (Observed id r) s) = alter (fun u => u) id (subs s)).
    { symmetry. cbn [subs emit]. apply list_eq. intros k. destruct (decide (k = id)) as [->|Hk]; [rewrite list_lookup_alter_eq; by destruct (subs s !! id) | by rewrite list_lookup_alter_ne]. }
    eapply subs_change; [exact H2 | exact Hu | by left | by left | exact E | |].
    + intros k Hk. cbn [trace emit]. rewrite observed_snoc. cbn [observes]. rewrite (proj2 (Nat.eqb_neq id k)) by done. split; [| cbn; lia].
      eapply same_counts_trans; [apply same_counts_sym, (about_counts id _ (I_notify id r)); [apply Nat.eqb_refl | done] |].
      apply (about_counts id); [apply Nat.eqb_refl | done].
    + destruct (H2 id u Hu) as [S1 S2 S3 S4 S5 S6 S7 S8]. rewrite !frames_cons in *. cbn [notifies finishes writes_to] in *. rewrite Nat.eqb_refl in *.
      constructor; try done; rewrite ?frames_cons; cbn [notifies finishes writes_to trace emit]; rewrite ?observed_snoc; cbn [observes]; rewrite ?Nat.eqb_refl; cbn [Nat.b2n] in *; try done; lia.
  - destruct Hl as [L1 L2 L3 L4 L5]. constructor; try done. constructor; [by exists u | done].
Qed.

Lemma handle_ok fs fr X F id u t v s : input_ok fs fr X F s -> exempt X id -> subs s !! id = Some u -> su_admission u = Some t ->
  out_ok fs fr F (handleSettlement id v s).
Proof.
  intros Hok HX Hu Ha. unfold handleSettlement. rewrite Hu, Ha. destruct (su_handled u) eqn:Hh.
  - cbn [out_ok]. destruct Hok as [H1 H2 H3]. constructor; [done | | done]. intros k w Hw. specialize (H2 k w Hw).
    destruct HX as [->| ->]; [done |]. destruct (decide (id = k)) as [<-|Hne]; [| by rewrite !bool_decide_false in * by congruence].
    rewrite Hu in Hw. injection Hw as <-. destruct H2 as [S1 S2 S3 S4 S5 S6 S7 S8]. constructor; try done. rewrite Ha. done.
  - pose proof (settlement_result_ok u t v Ha (so_bytes _ _ _ _ _ (in_subs _ _ _ _ _ Hok id u Hu))) as Hr. cbv zeta.
    set (r := settlementResult v t (su_bytes u)) in *. clearbody r.
    assert (Hfault : forall q, out_ok fs fr (I_notify id r :: F) (faultAndFence q (modify id with_handled s))).
    { intros q. apply fault_ok. change (set_fenced (modify id with_handled s)) with (modify id with_handled (set_fenced s)).
      eapply handled_ok; [by apply fenced_ok | exact HX | exact Hu | exact Ha | done | done | done]. }
    apply then_ok; [| intros s' Hs'; by apply pi_notify_ok].
    destruct r as [|? [] ? ? ? ? ?]; try apply Hfault. cbn [out_ok]. by eapply handled_ok.
Qed.

Lemma finish_ok fs fr F f id s : f = W_settled id \/ f = I_finish id -> input_ok fs fr None (f :: F) s -> out_ok fs fr F (finish id s).
Proof.
  intros Hf [H1 H2 H3]. cbn [finish out_ok].
  assert (Hu : is_Some (subs s !! id)) by (apply lo_frames in H3; apply Forall_cons in H3 as [H3 _]; by destruct Hf as [->| ->]).
  destruct Hu as [u Hu]. pose proof (H2 id u Hu) as Hs. set (g := fun u => with_released (with_early None u)).
  assert (Hfin : finishes id f = true /\ notifies id f = false /\ writes_to id f = false /\ about id f = true).
  { destruct Hf as [->| ->]; cbn; by rewrite Nat.eqb_refl. }
  destruct Hfin as (Hf1 & Hf2 & Hf3 & Hf4).
  assert (Hst : su_handled u = true /\ su_released u = false).
  { pose proof (so_finish _ _ _ _ _ Hs) as E. rewrite frames_cons, Hf1 in E. destruct (su_handled u), (su_released u); cbn in E; (done || lia). }
  destruct Hst as [Hh Hr]. set (s1 := modify id (with_early None) s).
  assert (Hu1 : subs s1 !! id = Some (with_early None u)) by (cbn [s1 subs modify set_subs]; by rewrite list_lookup_alter_eq, Hu).
  assert (Hsubs : subs (release id s1) = alter g id (subs s)).
  { unfold release. rewrite Hu1. cbn [su_released with_early]. rewrite Hr. cbn [subs set_ledgers modify set_subs s1]. exact (list_alter_alter_eq _ _ _ _). }
  assert (Htr : trace (release id s1) = trace s /\ fenced (release id s1) = fenced s /\ retired (release id s1) = retired s).
  { unfold release. rewrite Hu1. by destruct (su_released _). }
  destruct Htr as (E1 & E2 & E3).
  assert (Hk : keeps u (g u)) by (unfold keeps; cbn; split_and!; [done | done | done | done | congruence]).
  constructor; [by apply release_ledgers, modify_ledgers | |].
  - eapply subs_change; [exact H2 | exact Hu | by left | by left | exact Hsubs | |].
    + intros k Hk'. rewrite E1. split; [| done]. by apply same_counts_sym, (about_counts id).
    + rewrite E1. destruct Hs as [S1 S2 S3 S4 S5 S6 S7 S8]. rewrite !frames_cons in *. rewrite Hf1, Hf2, Hf3, Hh, Hr in *. cbn in S1, S2, S3.
      constructor; cbn [su_handled su_released su_admission su_uncertain su_callbacks su_early su_bytes g with_released with_early]; rewrite ?Hh; cbn [andb negb Nat.b2n]; try done; try lia.
      * split; [lia |]. intros E. destruct (proj2 S3 E) as (Ha & _). destruct (S4 eq_refl). congruence.
      * intros _ Ha. destruct (S4 eq_refl). congruence.
  - assert (Hg : grows s (release id s1)).
    { constructor; [| by rewrite E2]. intros k v Hv. rewrite Hsubs. destruct (decide (k = id)) as [->|Hne].
      - rewrite list_lookup_alter_eq, Hu. exists (g u). rewrite Hu in Hv. injection Hv as <-. done.
      - exists v. rewrite list_lookup_alter_ne by done. split; [done | apply keeps_refl]. }
    apply (log_grows F s); [done | done | done |]. destruct H3 as [L1 L2 L3 L4 L5]. apply Forall_cons in L1 as [_ L1]. by constructor.
Qed.

Lemma to_finish fs fr F id s : input_ok fs fr None (W_settled id :: F) s -> input_ok fs fr None (I_finish id :: F) s.
Proof.
  intros [H1 H2 [L1 L2 L3 L4 L5]]. apply Forall_cons in L1 as [Hu L1].
  constructor; [done | | by constructor; [constructor |..]]. intros k v Hv. eapply sub_counts; [| | | reflexivity | by apply H2]; by rewrite !frames_cons.
Qed.

Lemma pi_after_settled_ok fs fr F id x s : input_ok fs fr None (W_settled id :: F) s -> out_ok fs fr F (after_settled id x s).
Proof.
  intros Hok. destruct x as [[]|]; cbn [after_settled]; [eapply finish_ok; [by left | done] |].
  apply then_ok; [by apply fault_ok, fenced_ok, to_finish |]. intros s' Hs'. eapply finish_ok; [by right | done].
Qed.

Lemma modified_lookup id f u s : subs s !! id = Some u -> subs (modify id f s) !! id = Some (f u).
Proof. intros Hu. cbn [subs modify set_subs]. by rewrite list_lookup_alter_eq, Hu. Qed.

Lemma exempt_self (id : nat) : bool_decide (Some id = Some id) = true.
Proof. by apply bool_decide_eq_true. Qed.

Lemma settlement_ok fs fr F id v s : input_ok fs fr None F s -> out_ok fs fr F (nativeSettlement id v s).
Proof.
  intros Hok. unfold nativeSettlement. destruct (subs s !! id) as [u|] eqn:Hu; [| done]. pose proof (modified_lookup id with_callback u s Hu) as Hu1.
  destruct (negb (Nat.eqb (S (su_callbacks u)) 1)) eqn:Hc.
  - apply fault_ok, fenced_ok. eapply (pi_modify_ok _ _ None None); [exact Hok | exact Hu | by left | by left | done | by unfold keeps; cbn | ].
    assert (0 < su_callbacks u)%nat by (apply negb_true_iff, Nat.eqb_neq in Hc; lia).
    intros [S1 S2 S3 S4 S5 S6 S7 S8]. constructor; try done; cbn [su_callbacks with_callback su_admission su_early su_handled].
    + intros Hx Ha _. by apply S5.
    + intros Hx Ha. split; [intros _; by apply S6 | lia].
  - assert (Hc0 : su_callbacks u = 0%nat) by (apply negb_false_iff, Nat.eqb_eq in Hc; lia).
    set (c := captureSettlement v). clearbody c. cbv zeta.
    destruct (su_admission u) as [t|] eqn:Ha.
    + eapply (handle_ok _ _ (Some id)); [| by right | exact Hu1 | exact Ha].
      eapply (pi_modify_ok _ _ None (Some id)); [exact Hok | exact Hu | by left | by right | done | by unfold keeps; cbn |].
      intros [S1 S2 S3 S4 S5 S6 S7 S8]. rewrite exempt_self. by constructor.
    + set (f := fun u => with_early (Some c) (with_callback u)).
      assert (Ef : modify id (with_early (Some c)) (modify id with_callback s) = modify id f s).
      { unfold modify, set_subs. cbn [subs local shared account fenced retired stack trace]. f_equal. exact (list_alter_alter_eq _ _ _ _). }
      rewrite Ef. assert (Hdone : input_ok fs fr None F (modify id f s)).
      { eapply (pi_modify_ok _ _ None None); [exact Hok | exact Hu | by left | by left | done | by unfold keeps; cbn |].
        intros [S1 S2 S3 S4 S5 S6 S7 S8]. constructor; try done; cbn [su_callbacks f with_callback su_admission su_early su_handled with_early].
        - rewrite Ha. by intros _ [].
        - intros _ _. split; [eauto | lia]. }
      destruct (settlementTicket c) as [t|]; [| done]. destruct (su_uncertain u) eqn:Hun; [| done].
      eapply (handle_ok _ _ (Some id) _ _ (with_admission t (f u))); [| by right | by apply modified_lookup, modified_lookup | done].
      eapply (pi_modify_ok _ _ None (Some id)); [exact Hdone | by apply modified_lookup | by left | by right | done | |].
      * unfold keeps; cbn. split_and!; try done. rewrite Ha. done.
      * intros [S1 S2 S3 S4 S5 S6 S7 S8]. rewrite exempt_self. cbn [su_callbacks f with_callback su_admission su_early su_handled with_early su_released su_uncertain] in *.
        constructor; cbn [su_callbacks f with_callback su_admission su_early su_handled with_early su_released su_uncertain with_admission su_bytes]; try done.
        -- split; [exact (proj1 S3) |]. intros E. destruct (proj2 S3 E) as (_ & E' & _). cbn in E'. congruence.
        -- intros Hr Hh. destruct (S7 Hr Hh) as (_ & E & _). cbn in E. congruence.
Qed.

(** *** Submissions *)

Lemma answer_step fs fr F id a s : input_ok fs fr None (I_answer id a :: F) s -> out_ok fs fr F (answer id a s).
Proof.
  intros Hok. pose proof (lo_frames _ _ (in_log _ _ _ _ _ Hok)) as Hf. apply Forall_cons in Hf as [[He Hf] _].
  cbn [answer out_ok]. apply pi_emit_ok; [by apply (drop_ok _ _ _ (I_answer id a)) | done | done | done].
Qed.

Lemma invalid_ok fs fr F id u s : input_ok fs fr None F s -> subs s !! id = Some u -> su_uncertain u = true ->
  out_ok fs fr F (invalid_admission id s).
Proof.
  intros Hok Hu Hun. unfold invalid_admission. rewrite Hu. apply then_ok; [| intros s' Hs'; by apply answer_step].
  apply fault_ok, add_ok; [done | | by apply fenced_ok]. split; [| done]. exists u. by cbn.
Qed.

(** What a submission is while its [writeBounded] is under way. *)

Lemma writing fs fr F id u s : input_ok fs fr None (W_write id :: F) s -> subs s !! id = Some u ->
  su_admission u = None /\ su_uncertain u = false /\ su_released u = false /\ su_handled u = false
  /\ frames (writes_to id) F = 0%nat /\ ((0 < su_callbacks u)%nat <-> is_Some (su_early u)).
Proof.
  intros [H1 H2 H3] Hu. destruct (H2 id u Hu) as [S1 S2 [S3 S3'] S4 S5 S6 S7 S8]. rewrite frames_cons in S3, S3'. cbn [writes_to] in *.
  rewrite Nat.eqb_refl in *. cbn [Nat.b2n] in *. destruct (S3' ltac:(lia)) as (Ha & Hun & Hr). split_and!; try done; try lia; try (by apply S6).
  destruct (su_handled u); [| done]. destruct (S4 eq_refl). congruence.
Qed.

(** The return of [writeBounded]: its frame is gone and the submission changes. *)

Lemma written_ok fs fr X F id u f s : input_ok fs fr None (W_write id :: F) s -> subs s !! id = Some u -> exempt X id ->
  same_leases f -> (su_handled (f u) = false /\ su_callbacks (f u) = su_callbacks u /\ su_early (f u) = su_early u /\ su_origin (f u) = su_origin u) ->
  (X = None -> is_Some (su_admission (f u)) -> su_early u = None) -> input_ok fs fr X F (modify id f s).
Proof.
  intros Hok Hu HX Hf (F1 & F2 & F3 & F4) HXa. destruct (writing _ _ _ _ _ _ Hok Hu) as (Ha & Hun & Hr & Hh & Hw & Hce).
  destruct Hok as [H1 H2 H3]. destruct (Hf u) as (R1 & R2 & R3 & R4 & R5).
  assert (Hsub : sub_ok (bool_decide (X = Some id)) F (trace s) id (f u)).
  { destruct (H2 id u Hu) as [S1 S2 S3 S4 S5 S6 S7 S8]. rewrite !frames_cons in *. cbn [notifies finishes writes_to Nat.b2n Nat.add] in S1, S2.
    rewrite Hh in S1, S2. constructor; rewrite ?F1, ?F2, ?F3, ?R1, ?R2, ?Hr, ?Hw; cbn [andb negb Nat.b2n]; try done; try lia.
    intros Hx Has Hcb. rewrite bool_decide_eq_false in Hx. destruct HX as [->| ->]; [| done].
    specialize (HXa eq_refl Has). rewrite HXa in Hce. by destruct (proj1 Hce Hcb). }
  constructor; [by apply modify_ledgers | |].
  - eapply subs_change; [exact H2 | exact Hu | by left | exact HX | done | | exact Hsub].
    intros k Hk'. split; [| done]. apply same_counts_sym, (about_counts id); [apply Nat.eqb_refl | done].
  - destruct H3 as [L1 L2 L3 L4 L5]. apply Forall_cons in L1 as [_ L1]. apply (log_grows F s); [| done | done | by constructor].
    apply grows_modify. intros v Hv. rewrite Hu in Hv. injection Hv as <-. unfold keeps. rewrite R2, F4, Ha, Hun, Hr. done.
Qed.

(** A refused submission is over. *)

Lemma refused_ok fs fr F id u s : input_ok fs fr None (W_write id :: F) s -> subs s !! id = Some u -> su_early u = None ->
  input_ok fs fr None F (release id s) /\ subs (release id s) !! id = Some (with_released u).
Proof.
  intros Hok Hu He. destruct (writing _ _ _ _ _ _ Hok Hu) as (Ha & Hun & Hr & Hh & Hw & Hce). destruct Hok as [H1 H2 H3].
  assert (E : subs (release id s) = alter with_released id (subs s) /\ trace (release id s) = trace s /\ fenced (release id s) = fenced s
     /\ retired (release id s) = retired s) by (unfold release; rewrite Hu, Hr; done).
  destruct E as (E1 & E2 & E3 & E4). split; [| by rewrite E1, list_lookup_alter_eq, Hu].
  constructor; [by apply release_ledgers | |].
  - eapply subs_change; [exact H2 | exact Hu | by left | by left | exact E1 | |].
    + intros k Hk'. rewrite E2. split; [| done]. apply same_counts_sym, (about_counts id); [apply Nat.eqb_refl | done].
    + rewrite E2. destruct (H2 id u Hu) as [S1 S2 S3 S4 S5 S6 S7 S8]. rewrite !frames_cons in *. cbn [notifies finishes writes_to Nat.b2n Nat.add] in S1, S2.
      rewrite Hh in S1, S2. constructor; cbn [su_handled su_released su_admission su_uncertain su_callbacks su_early su_bytes with_released]; rewrite ?Hh, ?Hw, ?Ha; cbn; try done; try lia.
  - destruct H3 as [L1 L2 L3 L4 L5]. apply Forall_cons in L1 as [_ L1]. apply (log_grows F s); [| done | done | by constructor].
    constructor; [| by rewrite E3]. intros k v Hv. rewrite E1. destruct (decide (k = id)) as [->|Hne].
    + rewrite list_lookup_alter_eq, Hu. rewrite Hu in Hv. injection Hv as <-. exists (with_released u). unfold keeps. cbn. done.
    + exists v. rewrite list_lookup_alter_ne by done. split; [done | apply keeps_refl].
Qed.

(** An early settlement that names its ticket is handled above the frame [c] of
    what [submit] does next. *)

Lemma early_ok fs fr F id u e t f c k s : input_ok fs fr None (W_write id :: F) s -> subs s !! id = Some u -> su_early u = Some e ->
  f = with_admission t \/ f = (fun u => with_admission t (with_uncertain u)) -> calm c = true -> frame_ok (modify id f s) c ->
  (forall s', input_ok fs fr None (c :: F) s' -> out_ok fs fr F (k s')) -> out_ok fs fr F (andThen (handleSettlement id e (modify id f s)) c k).
Proof.
  intros Hok Hu He Hf Hc Hfr Hk. destruct (writing _ _ _ _ _ _ Hok Hu) as (Ha & Hun & Hr & Hh & _).
  assert (Hi : input_ok fs fr (Some id) F (modify id f s)).
  { destruct Hf as [->| ->]; (eapply written_ok; [exact Hok | exact Hu | by right | done | done | done]). }
  apply then_ok; [| exact Hk]. eapply (handle_ok _ _ (Some id)); [by apply add_ok | by right | by apply modified_lookup |]. by destruct Hf as [->| ->].
Qed.

Lemma modify_twice id f g s : modify id f (modify id g s) = modify id (fun u => f (g u)) s.
Proof. unfold modify, set_subs. cbn [subs local shared account fenced retired stack trace]. f_equal. exact (list_alter_alter_eq _ _ _ _). Qed.

Lemma after_write_ok fs fr F id x s : input_ok fs fr None (W_write id :: F) s -> out_ok fs fr F (after_write id x s).
Proof.
  intros Hok. unfold after_write. destruct (subs s !! id) as [u|] eqn:Hu; cycle 1.
  { pose proof (lo_frames _ _ (in_log _ _ _ _ _ Hok)) as Hf. apply Forall_cons in Hf as [[v Hv] _]. congruence. }
  destruct (writing _ _ _ _ _ _ Hok Hu) as (Ha & Hun & Hr & Hh & Hw & Hce).
  assert (Huncertain : input_ok fs fr None F (modify id with_uncertain s)).
  { eapply written_ok; [exact Hok | exact Hu | by left | done | done |]. cbn. rewrite Ha. by intros _ []. }
  destruct x as [raw|]; cycle 1.
  { assert (Hthrew : out_ok fs fr F (andThen (faultAndFence f_write_threw (modify id with_uncertain s)) (I_answer id (Input_uncertain native_call_threw (su_bytes u)))
        (answer id (Input_uncertain native_call_threw (su_bytes u))))).
    { apply then_ok; [| intros s' Hs'; by apply answer_step]. apply fault_ok, add_ok; [done | | by apply fenced_ok].
      split; [| done]. exists (with_uncertain u). split; [by apply (modified_lookup id with_uncertain) | done]. }
    destruct (su_early u) as [e|] eqn:He; cbn [mbind option_bind]; [| exact Hthrew].
    destruct (settlementTicket e) as [t|]; [| exact Hthrew]. rewrite modify_twice. eapply early_ok; [exact Hok | exact Hu | done | by right | done | | intros s' Hs'; by apply answer_step].
    split; [| done]. exists (with_admission t (with_uncertain u)). split; [by apply (modified_lookup id (fun u => with_admission t (with_uncertain u))) | done]. }
  pose proof (modified_lookup id with_uncertain u s Hu) as Hu1.
  destruct (parseAdmission raw (su_bytes u)) as [[[t|r]|]|].
  - assert (Hfr : frame_ok (modify id (with_admission t) s) (I_answer id (Input_accepted t (su_bytes u) (su_origin u)))).
    { split; [| done]. exists (with_admission t u). split; [by apply modified_lookup | done]. }
    destruct (su_early u) as [e|] eqn:He; [eapply early_ok; [exact Hok | exact Hu | done | by left | done | done | intros s' Hs'; by apply answer_step] |].
    cbn [andThen]. apply answer_step, add_ok; [done | done |]. by eapply written_ok; [exact Hok | exact Hu | by left | | |].
  - destruct (su_early u) as [e|] eqn:He.
    + cbn [mbind option_bind]. destruct (settlementTicket e) as [t|]; [| by eapply invalid_ok]. rewrite modify_twice.
      eapply early_ok; [exact Hok | exact Hu | done | by right | done | exists (with_admission t (with_uncertain u)); split; [by apply (modified_lookup id (fun u => with_admission t (with_uncertain u))) | done] |].
      intros s' Hs'. pose proof (lo_frames _ _ (in_log _ _ _ _ _ Hs')) as Hf. apply Forall_cons in Hf as [(v & Hv & Hvu) _].
      eapply invalid_ok; [by apply (drop_ok _ _ _ (I_invalid id)) | exact Hv | done].
    + destruct (refused_ok _ _ _ _ _ _ Hok Hu He) as [Hi Hl].
      assert (Hfr : forall s', subs s' = subs (release id s) -> frame_ok s' (I_answer id (Input_rejected (rj_native r)))).
      { intros s' E. split; [| done]. exists (with_released u). rewrite E. split; [done | by cbn]. }
      apply then_ok; [| intros s' Hs'; by apply answer_step]. destruct (unexpected r); [apply fault_ok, add_ok; [done | by apply Hfr | by apply fenced_ok] |].
      cbn [out_ok]. apply add_ok; [done | by apply Hfr | done].
  - destruct (su_early u) as [e|] eqn:He; cbn [mbind option_bind]; [| by eapply invalid_ok].
    destruct (settlementTicket e) as [t|]; [| by eapply invalid_ok]. rewrite modify_twice.
    eapply early_ok; [exact Hok | exact Hu | done | by right | done | exists (with_admission t (with_uncertain u)); split; [by apply (modified_lookup id (fun u => with_admission t (with_uncertain u))) | done] |].
    intros s' Hs'. pose proof (lo_frames _ _ (in_log _ _ _ _ _ Hs')) as Hf. apply Forall_cons in Hf as [(v & Hv & Hvu) _].
    eapply invalid_ok; [by apply (drop_ok _ _ _ (I_invalid id)) | exact Hv | done].
  - by eapply invalid_ok.
Qed.

Lemma pi_refuse_ok fs fr F r s : input_ok fs fr None F s -> out_ok fs fr F (refuse r s).
Proof. intros Hok. cbn [refuse out_ok]. by apply pi_emit_ok. Qed.

Lemma with_ledgers fs fr X F l b a s : input_ok fs fr X F s -> ledgers_ok fs fr (set_ledgers l b a s) -> input_ok fs fr X F (set_ledgers l b a s).
Proof. intros [H1 H2 H3] Hl. constructor; [done | done | by apply (log_grows F s); [apply grows_same |..]]. Qed.

(** Nothing speaks of a submission that is not there yet. *)

Lemma fresh_counts F s : log_ok F s -> let id := length (subs s) in
  frames (notifies id) F = 0%nat /\ frames (finishes id) F = 0%nat /\ frames (writes_to id) F = 0%nat /\ observed id (trace s) = 0%nat.
Proof.
  intros [H1 H2 _ _ _] id.
  assert (Hno : ~ is_Some (subs s !! id)) by (intros [u Hu]; apply lookup_lt_Some in Hu; unfold id in Hu; lia).
  assert (Hz : forall {B} (p : B -> bool) (l : list B), Forall (fun x => p x = false) l -> length (List.filter p l) = 0%nat).
  { intros B p l Hl. by rewrite filter_none. }
  assert (Hf : forall f, frame_ok s f -> about id f = false).
  { intros f Hf. destruct f; cbn in *; try done; try (apply Nat.eqb_neq; intros ->; done).
    apply Nat.eqb_neq. intros ->. destruct Hf as [(u & Hu & _) _]. apply Hno. by exists u. }
  split_and!; apply Hz.
  - eapply Forall_impl; [exact H1 |]. intros f Hx. apply Hf in Hx. by destruct f.
  - eapply Forall_impl; [exact H1 |]. intros f Hx. apply Hf in Hx. by destruct f.
  - eapply Forall_impl; [exact H1 |]. intros f Hx. apply Hf in Hx. by destruct f.
  - eapply Forall_impl; [exact H2 |]. intros e Hx. destruct e; try done. cbn in *. apply Nat.eqb_neq. intros ->.
    destruct Hx as (u & Hu & _). apply Hno. by exists u.
Qed.

Lemma pi_new_ok fs fr F n l b k c x a o s : 0 < n -> input_ok fs fr None F s -> fenced s = false ->
  budget_reserve n (local s) = inr (l, b) -> budget_reserve n (shared s) = inr (k, c) ->
  (if retaining then match la_reserve (n * 2 + SETTLEMENT_TICKET_BYTES) (account s) with Some (x, a) => Some (Some x, a) | None => None end
   else Some (None, account s)) = Some (x, a) ->
  input_ok fs fr None (W_write (length (subs s)) :: F)
    (emit (Wrote (length (subs s))) (set_ledgers b c a (set_subs (subs s ++ [mkSubmission n o l k x false None None false 0 false]) s))).
Proof.
  intros Hn [H1 H2 H3] Hf E1 E2 E3. set (u := mkSubmission n o l k x false None None false 0 false). set (id := length (subs s)).
  set (s1 := set_ledgers b c a _). destruct (fresh_counts F s H3) as (C1 & C2 & C3 & C4). fold id in C1, C2, C3, C4.
  assert (Hs1 : subs s1 = subs s ++ [u]) by done.
  assert (Hu : subs s1 !! id = Some u) by (rewrite Hs1, lookup_app_r by (unfold id; lia); by rewrite Nat.sub_diag).
  assert (Hg : grows s s1).
  { constructor; [| done]. intros j v Hv. exists v. rewrite Hs1, lookup_app_l by (by apply lookup_lt_Some in Hv). split; [done | apply keeps_refl]. }
  assert (Hl : log_ok F (emit (Wrote id) s1)).
  { apply log_emit; [by apply (log_grows F s) | by exists u | done | done]. }
  constructor; [apply (ledgers_same _ _ s1); try done; by apply new_ledgers; [lia |..] | |].
  - intros j v Hv. cbn [trace emit]. rewrite bool_decide_false by done. change (subs (emit (Wrote id) s1)) with (subs s ++ [u]) in Hv.
    assert (Eo : forall j, observed j (trace s1 ++ [Wrote id]) = observed j (trace s)) by (intros; change (trace s1) with (trace s); rewrite observed_snoc; cbn [observes Nat.b2n]; lia).
    destruct (decide (j = id)) as [->|Hne].
    + rewrite lookup_app_r in Hv by (unfold id; lia). unfold id in Hv. rewrite Nat.sub_diag in Hv. injection Hv as <-. fold id.
      constructor; rewrite ?frames_cons, ?Eo, ?C1, ?C2, ?C3, ?C4; cbn [notifies finishes writes_to]; rewrite ?Nat.eqb_refl; cbn; try done.
      intros _ _. split; [lia | by intros []].
    + assert (Hj : (j < id)%nat) by (apply lookup_lt_Some in Hv; rewrite length_app in Hv; cbn in Hv; unfold id in *; lia).
      rewrite lookup_app_l in Hv by (unfold id in Hj; lia). specialize (H2 j v Hv). rewrite bool_decide_false in H2 by done.
      destruct (about_counts id j (W_write id) F) as (D1 & D2 & D3); [apply Nat.eqb_refl | done |].
      eapply sub_counts; [exact D1 | exact D2 | exact D3 | apply Eo | exact H2].
  - destruct Hl as [L1 L2 L3 L4 L5]. constructor; try done. constructor; [by exists u | done].
Qed.

Lemma submit_ok fs fr F bytes o cb s : input_ok fs fr None F s -> out_ok fs fr F (submit retaining bytes o cb s).
Proof.
  intros Hok. unfold submit. destruct bytes as [n|]; [| by apply pi_refuse_ok]. cbv zeta. destruct (Z.of_N n =? 0) eqn:En; [by apply pi_refuse_ok |].
  apply Z.eqb_neq in En. assert (Hn : 0 < Z.of_N n) by lia. set (m := Z.of_N n) in *. clearbody m.
  destruct (negb cb); [by apply pi_refuse_ok |]. destruct (fenced s) eqn:Hf; [by apply pi_refuse_ok |].
  destruct (budget_reserve m (local s)) as [[]|[l b]] eqn:E1; [by apply pi_refuse_ok | by apply pi_refuse_ok |].
  pose proof (local_return fs fr s m l b ltac:(lia) (in_ledgers _ _ _ _ _ Hok) E1) as Hl.
  destruct (budget_reserve m (shared s)) as [r|[k c]] eqn:E2; [by apply pi_refuse_ok, with_ledgers |].
  destruct (if retaining then _ else _) as [[x a]|] eqn:E3.
  - cbn [out_ok app]. by apply pi_new_ok.
  - apply pi_refuse_ok, with_ledgers; [done |].
    exact (shared_return fs fr _ m k c Hl E2).
Qed.

(** *** Executions *)

Lemma pi_exec_ok fs fr F f s : is_callback f = false -> input_ok fs fr None (f :: F) s -> out_ok fs fr F (exec f s).
Proof.
  intros Hf Hok. pose proof (lo_frames _ _ (in_log _ _ _ _ _ Hok)) as Hfr. apply Forall_cons in Hfr as [Hfr _].
  destruct f; cbn [exec] in *; try done.
  - apply retireWriter_ok; [exact Hfr | by apply (drop_ok _ _ _ I_retire)].
  - by apply pi_notify_ok.
  - eapply finish_ok; [by right | done].
  - destruct Hfr as (u & Hu & Hun). eapply invalid_ok; [by apply (drop_ok _ _ _ (I_invalid id)) | exact Hu | exact Hun].
  - by apply answer_step.
Qed.

Lemma pi_stack_ok fs fr F st s : input_ok fs fr None F s -> input_ok fs fr None F (set_stack st s).
Proof. intros [H1 H2 H3]. constructor; [by apply (ledgers_same _ _ s) | done | by apply (log_grows F s); [apply grows_same |..]]. Qed.

Definition between (fs fr : Z) (s : PtyInput (A := A)) : Prop := input_ok fs fr None (stack s) s.

Lemma pi_unwind_ok fs fr st o : out_ok fs fr st o -> between fs fr (unwind st o).
Proof.
  revert o. induction st as [|f st IH]; intros o Ho; (destruct o as [s|fs' s]; cbn [unwind out_ok] in *; [| by apply pi_stack_ok]).
  - by apply pi_stack_ok.
  - destruct (is_callback f) eqn:Hf; [by apply pi_stack_ok |]. by apply IH, pi_exec_ok.
Qed.

Lemma pi_perform_ok fs fr c s : between fs fr s -> between fs fr (perform retaining c s).
Proof.
  intros Hok. apply pi_unwind_ok. destruct c; cbn.
  - by apply submit_ok.
  - by apply settlement_ok.
  - by apply retireWriter_ok, fenced_ok.
  - by apply fenced_ok.
Qed.

Lemma pi_resume_ok fs fr x s s' : between fs fr s -> resume x s = Some s' -> between fs fr s'.
Proof.
  unfold between at 1, resume. intros Hok. destruct (stack s) as [|f rest]; [done |].
  destruct f; try done; destruct x as [x|x|x]; try done; intros [= <-]; apply pi_unwind_ok.
  - by apply after_write_ok.
  - by apply pi_after_settled_ok.
  - by apply (drop_ok _ _ _ W_fault).
  - pose proof (lo_frames _ _ (in_log _ _ _ _ _ Hok)) as Hf. apply Forall_cons in Hf as [Hf _].
    apply (drop_ok _ _ _ W_dispose) in Hok; [| done]. destruct x as [[]|]; [done | by apply report_ok | by apply report_ok].
Qed.

(** The first two components are what the other owners of the shared budget and
    of the account hold; they use them on their own. *)

Inductive input_step : Z * Z * PtyInput (A := A) -> Z * Z * PtyInput (A := A) -> Prop :=
  | is_perform c fs fr s : input_step (fs, fr, s) (fs, fr, perform retaining c s)
  | is_resume x s' fs fr s : resume x s = Some s' -> input_step (fs, fr, s) (fs, fr, s')
  | is_shared fs fs' fr b s : ledger fs' b (map shared_lease (open_subs s)) ->
      input_step (fs, fr, s) (fs', fr, set_ledgers (local s) b (account s) s)
  | is_account fs fr fr' a s : ledger fr' a (omap retained_lease (open_subs s)) ->
      input_step (fs, fr, s) (fs, fr', set_ledgers (local s) (shared s) a s).

Definition input_reachable (x : Z * Z * PtyInput (A := A)) : Prop :=
  exists bytes limit b a, budget_ok b /\ la_ok a /\ rtc input_step (allocatedBytes b, la_used a, newPtyInput bytes limit b a) x.

Lemma input_new_ok bytes limit b a : budget_ok b -> la_ok a -> between (allocatedBytes b) (la_used a) (newPtyInput bytes limit b a).
Proof.
  intros Hb Ha. constructor; [constructor; cbn | |].
  - assert (Hn : budget_ok (newBudget bytes limit)) by done. exact (@ledger_nil _ budget_account _ Hn).
  - done.
  - constructor; cbn; [done | lia | lia].
  - exact (@ledger_nil _ budget_account b Hb).
  - by apply ledger_nil.
  - done.
  - intros id u Hu. done.
  - constructor; cbn; try done. intros t1 e t2 E. by destruct t1.
Qed.

Lemma input_step_ok x y : between x.1.1 x.1.2 x.2 -> input_step x y -> between y.1.1 y.1.2 y.2.
Proof.
  intros Hok Hst. revert Hok. destruct Hst as [c fs fr s|z s' fs fr s Hr|fs fs' fr b s Hb|fs fr fr' a s Ha]; cbn [fst snd]; intros Hok.
  - by apply pi_perform_ok.
  - by eapply pi_resume_ok.
  - destruct Hok as [[H1 H2 H3 H4 H5 H6] H7 H8]. constructor; [by constructor | done | by apply (log_grows _ s); [apply grows_same |..]].
  - destruct Hok as [[H1 H2 H3 H4 H5 H6] H7 H8]. constructor; [by constructor | done | by apply (log_grows _ s); [apply grows_same |..]].
Qed.

Lemma input_reachable_ok x : input_reachable x -> between x.1.1 x.1.2 x.2.
Proof.
  intros (bytes & limit & b & a & Hb & Ha & Hr).
  refine (rtc_invariant input_step (fun x => between x.1.1 x.1.2 x.2) _ _ _ input_step_ok Hr).
  exact (input_new_ok bytes limit b a Hb Ha).
Qed.

(** ** Guarantees *)

Lemma lsum_local l : lsum snd (map local_lease l) = lsum su_bytes l.
Proof. induction l as [|u l IH]; [done |]. cbn [map]. rewrite !lsum_cons, IH. done. Qed.

(** At every moment of every execution the local budget counts exactly the
    bytes and the number of the submissions that are not over, within its
    limits, and in the shared budget and in the worker's account each of them
    holds exactly one reservation: nothing leaks and nothing is given back
    twice, whatever the writer and the observers do. *)
Theorem input_exact fs fr s : input_reachable (fs, fr, s) ->
  allocatedBytes (local s) = lsum su_bytes (open_subs s) /\ tasks (local s) = zlen (open_subs s)
  /\ allocatedBytes (local s) <= Z.max 0 (maxBytes (local s)) /\ tasks (local s) <= Z.max 0 (maxTasks (local s))
  /\ ledger fs (shared s) (map shared_lease (open_subs s)) /\ ledger fr (account s) (omap retained_lease (open_subs s))
  /\ (retaining = true -> zlen (omap retained_lease (open_subs s)) = zlen (open_subs s)).
Proof.
  intros Hr. apply input_reachable_ok in Hr as [[H1 H2 [_ H3 H3'] H4 H5 H6] _ _]. cbn [fst snd] in *. split_and!; try done.
  - pose proof (ledger_used _ _ _ H1) as E. rewrite lsum_local in E. etrans; [exact E | lia].
  - intros Hret. unfold open_subs. revert H6. generalize (subs s) as l. induction 1 as [|u l Hu _ IH]; [done |]. cbn [List.filter].
    destruct (su_released u); cbn [negb omap list_omap]; [done |]. destruct (proj2 Hu Hret) as [k Hk]. unfold retained_lease at 1. rewrite Hk, !zlen_cons. by f_equal.
Qed.

(** C30: [onSettled] is called at most once for a submission, with a result that
    accounts for each of its bytes.  What was reserved for it is held until that
    call has returned or the writer has refused it: a submission whose observer
    is on the stack, before, in or after the call, is not released, and the
    shared budget and the worker's account hold exactly one reservation for each
    submission that is not.  What [submit] answered stays true, so a refused
    submission is never settled; and no settlement of an admitted submission is
    lost, even one that came before its admission. *)
Theorem input_settled fs fr s id u : input_reachable (fs, fr, s) -> subs s !! id = Some u ->
  (observed id (trace s) <= 1)%nat /\ (forall r, Observed id r ∈ trace s -> outcome_ok u r)
  /\ (su_released u = true -> observed id (trace s) = Nat.b2n (su_handled u) /\ (su_handled u = false -> su_admission u = None))
  /\ (W_settled id ∈ stack s \/ I_finish id ∈ stack s \/ (exists r, I_notify id r ∈ stack s) -> su_released u = false)
  /\ ledger fs (shared s) (map shared_lease (open_subs s)) /\ ledger fr (account s) (omap retained_lease (open_subs s))
  /\ (forall a, Answered (Some id) a ∈ trace s -> answer_ok u a /\ (forall r, a = Input_rejected r -> observed id (trace s) = 0%nat))
  /\ (stack s = [] -> is_Some (su_admission u) -> (0 < su_callbacks u)%nat -> su_released u = true /\ observed id (trace s) = 1%nat).
Proof.
  intros Hr Hu. apply input_reachable_ok in Hr as [[_ _ _ L1 L2 _] H2 [_ H4 _ _ _]]. cbn [fst snd] in *.
  destruct (H2 id u Hu) as [S1 S2 S3 S4 S5 S6 S7 S8]. rewrite bool_decide_false in * by done. rewrite Forall_forall in H4.
  assert (Hle : (frames (notifies id) (stack s) <= frames (finishes id) (stack s))%nat).
  { generalize (stack s) as F. induction F as [|f F IH]; [done |]. rewrite !frames_cons.
    assert (Nat.b2n (notifies id f) <= Nat.b2n (finishes id f))%nat by (destruct f; cbn; lia). lia. }
  split_and!.
  - destruct (su_handled u); cbn in S1; lia.
  - intros r Hin. destruct (H4 _ Hin) as (v & Hv & Hvr). rewrite Hu in Hv. by injection Hv as <-.
  - intros Hrel. rewrite Hrel, andb_false_r in S2. cbn in S2. split; [lia |]. intros Hh. by apply S7.
  - assert (Hf : forall f, f ∈ stack s -> finishes id f = true -> su_released u = false).
    { intros f Hin Hf. pose proof (frames_in (finishes id) _ f Hin Hf). destruct (su_released u); [| done].
      rewrite andb_false_r in S2. cbn in S2. lia. }
    intros [Hin|[Hin|[r Hin]]]; apply (Hf _ Hin); cbn; apply Nat.eqb_refl.
  - exact L1.
  - exact L2.
  - intros a Hin. destruct (H4 _ Hin) as (v & Hv & Hva). rewrite Hu in Hv. injection Hv as <-. split; [done |].
    intros r ->. destruct Hva as [_ Hh]. rewrite Hh in S1. cbn in S1. lia.
  - intros Hst Ha Hc. rewrite Hst in *. unfold frames in S1, S2. cbn in S1, S2. rewrite (S5 eq_refl Ha Hc) in *. cbn in *.
    destruct (su_released u); cbn in *; (done || lia).
Qed.

(** C29: nothing is written to the PTY after anything went wrong or stayed
    uncertain: in every trace no call of the writer follows a fault, an unknown
    settlement or an unknown admission; the controller is fenced from then on,
    and retires the writer at most once. *)
Theorem input_fenced fs fr s : input_reachable (fs, fr, s) ->
  writes_first (trace s) /\ (disposals (trace s) <= 1)%nat /\ (forall e, e ∈ trace s -> unsure e = true -> fenced s = true).
Proof.
  intros Hr. apply input_reachable_ok in Hr as [_ _ [_ _ H3 H4 [H5 _]]]. cbn [fst snd] in *. split_and!; [done | destruct (retired s); cbn in H5; lia |].
  by rewrite Forall_forall in H3.
Qed.

End properties.

(** ** The diagnostics of a settlement *)

Fixpoint scalars_from (fuel : nat) (value : list Z) : list Z :=
  match fuel, code_point value with
  | S fuel, Some (original, rest) => (if is_surrogate original then 0xfffd else original) :: scalars_from fuel rest
  | _, _ => []
  end.

(** The Unicode scalars of a string, a lone surrogate replaced. *)

Definition scalars (value : list Z) : list Z := scalars_from (length value) value.

Lemma utf8_width_pos x : 1 <= utf8_width x.
Proof. unfold utf8_width. repeat case_match; lia. Qed.

Lemma message_loop_prefix fuel bytes value : bytes <= MAX_SETTLEMENT_MESSAGE_BYTES -> exists k,
  message_loop fuel bytes value = concat (map fromCodePoint (take k (scalars_from fuel value)))
  /\ bytes + lsum utf8_width (take k (scalars_from fuel value)) <= MAX_SETTLEMENT_MESSAGE_BYTES
  /\ forall x, scalars_from fuel value !! k = Some x ->
      MAX_SETTLEMENT_MESSAGE_BYTES < bytes + lsum utf8_width (take k (scalars_from fuel value)) + utf8_width x.
Proof.
  revert bytes value. induction fuel as [|fuel IH]; intros bytes value Hb; cbn [message_loop scalars_from].
  { exists 0%nat. cbn. rewrite lsum_nil. split_and!; [done | lia | done]. }
  destruct (code_point value) as [[original rest]|]; [| exists 0%nat; cbn; rewrite lsum_nil; split_and!; [done | lia | done]].
  set (x := if is_surrogate original then _ else _). destruct (MAX_SETTLEMENT_MESSAGE_BYTES <? bytes + utf8_width x) eqn:E.
  - apply Z.ltb_lt in E. exists 0%nat. cbn [take map concat]. rewrite lsum_nil. split_and!; [done | lia |]. intros y [= <-]. lia.
  - apply Z.ltb_ge in E. destruct (IH (bytes + utf8_width x) rest E) as (k & H1 & H2 & H3).
    exists (S k). cbn [take map concat]. rewrite lsum_cons, H1. split_and!; [done | lia |]. intros y Hy. specialize (H3 y Hy). lia.
Qed.

Lemma code_point_range value c rest : Forall (fun u => 0 <= u < 0x10000) value -> code_point value = Some (c, rest) ->
  0 <= c < 0x110000 /\ Forall (fun u => 0 <= u < 0x10000) rest.
Proof.
  intros Hv. destruct value as [|high [|low rest']]; cbn [code_point]; [done | |].
  - intros [= <- <-]. apply Forall_cons in Hv as [H1 Hv]. cbv beta in H1. split; [lia | done].
  - apply Forall_cons in Hv as [H1 Hv]. cbv beta in H1. destruct (is_high high && is_low low) eqn:E.
    + intros [= <- <-]. apply Forall_cons in Hv as [H2 Hv]. cbv beta in H2. split; [| done]. unfold is_high, is_low in E.
      rewrite !andb_true_iff, !Z.leb_le in E. unfold pair_code. rewrite Z.shiftl_mul_pow2 by lia. change (2 ^ 10) with 1024. lia.
    + intros [= <- <-]. split; [lia | done].
Qed.

Lemma scalars_valid fuel value : Forall (fun u => 0 <= u < 0x10000) value ->
  Forall (fun x => 0 <= x < 0x110000 /\ is_surrogate x = false) (scalars_from fuel value).
Proof.
  revert value. induction fuel as [|fuel IH]; intros value Hv; cbn [scalars_from]; [constructor |].
  destruct (code_point value) as [[c rest]|] eqn:E; [| constructor]. destruct (code_point_range _ _ _ Hv E) as [Hc Hr].
  constructor; [| by apply IH]. destruct (is_surrogate c) eqn:Es; [done | split; [lia | done]].
Qed.

Lemma ascii_loop_exact n value : ascii_loop n value =
  if forallb (fun c => (0x20 <=? c) && (c <=? 0x7e)) (take n value) then Some (take n value) else None.
Proof.
  revert value. induction n as [|n IH]; intros value; [by destruct value |]. destruct value as [|c value]; [done |].
  cbn [ascii_loop take forallb]. rewrite IH. rewrite (Z.ltb_antisym 0x20 c), (Z.ltb_antisym c 0x7e).
  destruct (0x20 <=? c), (c <=? 0x7e); cbn; try done. by destruct (forallb _ _).
Qed.

(** The diagnostics kept of a settlement are bounded whatever the writer
    says: the message is the longest prefix of the writer's text, cut between
    characters and with lone surrogates replaced, that takes at most 128 bytes
    of UTF-8, and the code is the first 32 characters if they are printable
    ASCII, else nothing. *)
Theorem diagnostics_exact value : Forall (fun u => 0 <= u < 0x10000) value ->
  (exists k, boundedUtf8Message value = concat (map fromCodePoint (take k (scalars value)))
    /\ lsum utf8_width (take k (scalars value)) <= 128
    /\ (forall x, scalars value !! k = Some x -> 128 < lsum utf8_width (take k (scalars value)) + utf8_width x))
  /\ Forall (fun x => 0 <= x < 0x110000 /\ is_surrogate x = false) (scalars value)
  /\ boundedAsciiCode value = if forallb (fun c => (0x20 <=? c) && (c <=? 0x7e)) (take 32 value) then Some (take 32 value) else None.
Proof.
  intros Hv. split_and!; [| by apply scalars_valid | apply ascii_loop_exact].
  destruct (message_loop_prefix (length value) 0 value ltac:(done)) as (k & H1 & H2 & H3). exists k.
  split_and!; [exact H1 | exact H2 | exact H3].
Qed.

(** ** An execution: one input settled early, one cut short *)

Section input_demo.

Local Existing Instance budget_account.

Definition pi_settlement (t n w m : Z) (st : NativeStatus) : RawSettlement :=
  Set_parts (Some (Some t)) (Some (mkRawParts (Some st) (Some n) (Some w) (Some m) Str_absent Str_absent)).

Definition pi_new : PtyInput (A := InputBudget) := newPtyInput 100 4 (newBudget 1000 10) (newBudget 10000 10).

Definition pi_do (c : Call) (s : PtyInput (A := InputBudget)) : PtyInput := perform true c s.

Definition pi_go (x : Ending) (s : PtyInput (A := InputBudget)) : PtyInput := default s (resume x s).

Definition pi_reachable (s : PtyInput (A := InputBudget)) : Prop := input_reachable true (0, 0, s).

Lemma pi_new_reachable : pi_reachable pi_new.
Proof. exists 100, 4, (newBudget 1000 10), (newBudget 10000 10). split_and!; [done | done | apply rtc_refl]. Qed.

Lemma pi_do_reachable c s : pi_reachable s -> pi_reachable (pi_do c s).
Proof.
  intros (n & l & b & a & Hb & Ha & Hr). exists n, l, b, a. split_and!; [done | done |]. eapply rtc_r; [exact Hr |]. exact (is_perform true c 0 0 s).
Qed.

Lemma pi_go_reachable x s : pi_reachable s -> pi_reachable (pi_go x s).
Proof.
  intros Hs. unfold pi_go. destruct (resume x s) as [s'|] eqn:E; [| done]. cbn [default].
  destruct Hs as (n & l & b & a & Hb & Ha & Hr). exists n, l, b, a. split_and!; [done | done |]. eapply rtc_r; [exact Hr |].
  exact (is_resume true x s' 0 0 s E).
Qed.

(** The writer settles the first input before its call returns; the observer is
    told after the admission. *)

Definition pi_observing : PtyInput :=
  pi_go (E_write (Some (Raw_accepted (Some 7) (Some 5))))
    (pi_do (C_settlement 0 (pi_settlement 7 5 5 0 s_written)) (pi_do (C_submit (Some 5%N) o_user true) pi_new)).

Definition pi_settled : PtyInput := pi_go (E_call (Some tt)) pi_observing.

(** One byte of the second is written: the controller is fenced, and refuses
    the third. *)

Definition pi_fenced : PtyInput :=
  pi_do (C_submit (Some 1%N) o_query true)
    (pi_go (E_call (Some tt)) (pi_go (E_dispose (Some true)) (pi_go (E_call (Some tt))
      (pi_do (C_settlement 1 (pi_settlement 8 3 1 2 s_error))
        (pi_go (E_write (Some (Raw_accepted (Some 8) (Some 3)))) (pi_do (C_submit (Some 3%N) o_user true) pi_settled)))))).

Lemma pi_observing_reachable : pi_reachable pi_observing.
Proof. apply pi_go_reachable. do 2 apply pi_do_reachable. apply pi_new_reachable. Qed.

Lemma pi_settled_reachable : pi_reachable pi_settled.
Proof. apply pi_go_reachable, pi_observing_reachable. Qed.

Lemma pi_fenced_reachable : pi_reachable pi_fenced.
Proof. apply pi_do_reachable. do 3 apply pi_go_reachable. apply pi_do_reachable, pi_go_reachable, pi_do_reachable, pi_settled_reachable. Qed.

Lemma input_exact_witness : allocatedBytes (local pi_observing) = 5 /\ allocatedBytes (account pi_observing) = 778
  /\ tasks (local pi_observing) = zlen (open_subs pi_observing).
Proof.
  do 2 (split; [by vm_compute |]). destruct (input_exact _ _ _ _ pi_observing_reachable) as (_ & H & _). exact H.
Defined.

Lemma input_settled_witness : exists u, subs pi_settled !! 0%nat = Some u /\ trace pi_settled =
    [Wrote 0; Observed 0 (Input_written 7 5); Answered (Some 0%nat) (Input_accepted 7 5 o_user)]
  /\ su_released u = true /\ observed 0 (trace pi_settled) = 1%nat
  /\ head (stack pi_observing) = Some (W_settled 0)
  /\ exists v, subs pi_observing !! 0%nat = Some v /\ su_released v = false.
Proof.
  destruct (subs pi_settled !! 0%nat) as [u|] eqn:E; [| by vm_compute in E]. exists u. split; [done |]. split; [by vm_compute |].
  assert (Hu : stack pi_settled = [] /\ is_Some (su_admission u) /\ (0 < su_callbacks u)%nat).
  { vm_compute in E. injection E as <-. split; [by vm_compute |]. split; [by eexists | cbn; lia]. }
  destruct Hu as (H1 & H2 & H3).
  destruct (input_settled _ _ _ _ _ _ pi_settled_reachable E) as (_ & _ & _ & _ & _ & _ & _ & H).
  destruct (H H1 H2 H3) as [H5 H6]. split; [exact H5 |]. split; [exact H6 |]. split; [by vm_compute |].
  destruct (subs pi_observing !! 0%nat) as [v|] eqn:E'; [| by vm_compute in E']. exists v. split; [done |].
  destruct (input_settled _ _ _ _ _ _ pi_observing_reachable E') as (_ & _ & _ & H7 & _). apply H7. left. left.
Defined.

Lemma input_fenced_witness : trace pi_fenced =
    trace pi_settled ++ [Wrote 1; Answered (Some 1%nat) (Input_accepted 8 3 o_user); Fault f_settlement_unknown; Disposed;
      Observed 1 (Input_unknown 8 (Some s_error) 3 1 2 None None); Answered None (Input_rejected rj_fenced)]
  /\ writes_first (trace pi_fenced).
Proof. split; [by vm_compute |]. destruct (input_fenced _ _ _ _ pi_fenced_reachable) as [H _]. exact H. Defined.

Lemma diagnostics_exact_witness : exists k, boundedUtf8Message [0x61; 0xd800; 0xd83d; 0xde00] = concat (map fromCodePoint (take k [0x61; 0xfffd; 0x1f600]))
  /\ boundedUtf8Message [0x61; 0xd800; 0xd83d; 0xde00] = [0x61; 0xfffd; 0xd83d; 0xde00].
Proof.
  destruct (diagnostics_exact [0x61; 0xd800; 0xd83d; 0xde00]) as ((k & H & _) & _); [repeat constructor; lia |].
  exists k. split; [exact H | by vm_compute].
Defined.

(** When reading the admission throws, an early settlement that names its ticket
    is not handed on, unlike after a call that threw: the submission stays open
    although the writer has settled it. *)

Definition pi_unread : PtyInput :=
  pi_go (E_dispose (Some true)) (pi_go (E_call (Some tt)) (pi_go (E_write (Some Raw_throws))
    (pi_do (C_settlement 0 (pi_settlement 7 5 5 0 s_written)) (pi_do (C_submit (Some 5%N) o_user true) pi_new)))).

Lemma early_settlement_unread : pi_reachable pi_unread /\ stack pi_unread = [] /\ allocatedBytes (local pi_unread) = 5
  /\ map su_callbacks (subs pi_unread) = [1%nat] /\ observed 0 (trace pi_unread) = 0%nat.
Proof.
  split; [do 3 apply pi_go_reachable; do 2 apply pi_do_reachable; apply pi_new_reachable |].
  do 3 (split; [by vm_compute |]). by vm_compute.
Qed.

End input_demo.
