(* ===== verification/DeliveryCredit.v ===== *)
(** * The delivery credit account (apps/server/src/terminal/terminal-delivery-credit.ts)

    One account per subscription attempt: events are recorded (queued), handed
    to the carrier (sent: the bytes become debt) and released when the client
    reports that it parsed them.  Records are shared with the caller, so the
    model keeps every record ever created in [store] and the live set as the
    list [records] of their positions, in insertion order. *)

From S2P Require Import Prelude Json Protocol LeaseAccount Retained.

Inductive EventType := run_event | baseline_start | baseline_chunk | baseline_end.

#[global] Instance EventType_eq_dec : EqDecision EventType.
Proof. solve_decision. Defined.

Record DeliveryEvent := mkDeliveryEvent { de_type : EventType; de_seq : Z; de_ordinal : Z }.

Record DeliveryCreditRecord := mkRecord {
  rec_bytes : Z;
  rec_event : DeliveryEvent;
  sent : bool;
  rec_lease : nat;
}.

Record Baseline := mkBaseline {
  descriptor : BaselineDescriptor;
  chunks : Z;
  payloadBytes : Z;
  sentOrdinal : Z;
  parsedOrdinal : Z;
  endQueued : bool;
  endSent : bool;
}.

Inductive Mode := mode_baseline | mode_replay.

#[global] Instance Mode_eq_dec : EqDecision Mode.
Proof. solve_decision. Defined.

Record TerminalDeliveryCredit (S : Type) := mkCredit {
  budgets : EffectiveBudgets;
  attempt : Z;
  mode : Mode;
  atSeq : Z;
  store : list DeliveryCreditRecord;
  records : list nat;
  baseline : option Baseline;
  retired : bool;
  queuedBytes : Z;
  debtBytes : Z;
  lastQueued : Z;
  lastSent : Z;
  lastApplied : Z;
  installed : bool;
  bytes : S;
}.

Arguments mkCredit {S} _ _ _ _ _ _ _ _ _ _ _ _ _ _ _.
Arguments budgets {S} _.
Arguments attempt {S} _.
Arguments mode {S} _.
Arguments atSeq {S} _.
Arguments store {S} _.
Arguments records {S} _.
Arguments baseline {S} _.
Arguments retired {S} _.
Arguments queuedBytes {S} _.
Arguments debtBytes {S} _.
Arguments lastQueued {S} _.
Arguments lastSent {S} _.
Arguments lastApplied {S} _.
Arguments installed {S} _.
Arguments bytes {S} _.

Inductive BoundaryError := invalid_delivery_credit_boundary.

Section operations.
Context {S : Type} `{LeaseAccount S}.
Implicit Types c : TerminalDeliveryCredit S.

Definition newTerminalDeliveryCredit (b : EffectiveBudgets) (s : S) (att : Z) (m : Mode) (at_ : Z)
    (appliedSeq : option Z) : BoundaryError + TerminalDeliveryCredit S :=
  if negb (isSafeInteger att) || (att <? 1) || negb (isSafeInteger at_) || (at_ <? 0)
     || (bool_decide (m = mode_replay)
         && match appliedSeq with None => true | Some a => at_ <? a end)
     || match appliedSeq with Some a => negb (isSafeInteger a) || (a <? 0) | None => false end
  then inl invalid_delivery_credit_boundary
  else
    let replay := bool_decide (m = mode_replay) in
    let first := if replay then default 0 appliedSeq else at_ in
    inr (mkCredit b att m at_ [] [] None false 0 0 first first
           (if replay then default 0 appliedSeq else -1) replay s).

(** The guards of [record] that depend on the kind of event. *)

Definition admissible (event : ExternalTerminalEvent) (payload : Z) c : bool :=
  let b := budgets c in
  match event with
  | XRunEvent _ e =>
     negb (negb (ev_seq e =? lastQueued c + 1)
           || (bool_decide (mode c = mode_baseline)
               && negb (match baseline c with Some bl => endQueued bl | None => false end)))
  | XBaselineStart _ d =>
     match validateBaselineDescriptor d (historyLines M0_LIMITS) with
     | None => false
     | Some v =>
        negb (negb (bool_decide (mode c = mode_baseline))
              || bool_decide (is_Some (baseline c))
              || negb (bd_atSeq v =? atSeq c)
              || (historyLines b <? cov_historyLines (bd_coverage v))
              || (maxCols b <? cols (bd_currentGeometry v))
              || (maxRows b <? rows (bd_currentGeometry v))
              || (baselineVtBytes b <? bd_vtBytes v)
              || (baselineTailBytes b <? bd_tailBytes v)
              || (baselineChunks b <? bd_chunkCount v))
     end
  | XBaselineChunk ch =>
     match baseline c with
     | None => false
     | Some bl =>
        negb (endQueued bl
              || negb (seqb (bch_baselineId ch) (bd_baselineId (descriptor bl)))
              || negb (bch_ordinal ch =? chunks bl)
              || (bd_chunkCount (descriptor bl) <=? chunks bl)
              || (payload <? 1) || (65536 <? payload)
              || (bd_vtBytes (descriptor bl) + bd_tailBytes (descriptor bl) - payloadBytes bl <? payload))
     end
  | XBaselineEnd e =>
     match baseline c with
     | None => false
     | Some bl =>
        negb (endQueued bl
              || negb (seqb (be_baselineId e) (bd_baselineId (descriptor bl)))
              || negb (be_chunkCount e =? bd_chunkCount (descriptor bl))
              || negb (be_chunkCount e =? chunks bl)
              || negb (be_totalBytes e =? payloadBytes bl)
              || negb (be_totalBytes e =? bd_vtBytes (descriptor bl) + bd_tailBytes (descriptor bl))
              || negb (be_atSeq e =? atSeq c))
     end
  | _ => false
  end.

Definition delivery_event (event : ExternalTerminalEvent) : option DeliveryEvent :=
  match event with
  | XRunEvent _ e => Some (mkDeliveryEvent run_event (ev_seq e) (-1))
  | XBaselineStart _ _ => Some (mkDeliveryEvent baseline_start (-1) (-1))
  | XBaselineChunk ch => Some (mkDeliveryEvent baseline_chunk (-1) (bch_ordinal ch))
  | XBaselineEnd _ => Some (mkDeliveryEvent baseline_end (-1) (-1))
  | _ => None
  end.

Definition next_baseline (event : ExternalTerminalEvent) (payload : Z) (bl : option Baseline) : option Baseline :=
  match event, bl with
  | XBaselineStart _ d, _ => Some (mkBaseline d 0 0 (-1) (-1) false false)
  | XBaselineChunk _, Some b =>
     Some (mkBaseline (descriptor b) (chunks b + 1) (payloadBytes b + payload) (sentOrdinal b)
             (parsedOrdinal b) (endQueued b) (endSent b))
  | XBaselineEnd _, Some b =>
     Some (mkBaseline (descriptor b) (chunks b) (payloadBytes b) (sentOrdinal b) (parsedOrdinal b)
             true (endSent b))
  | _, _ => bl
  end.

Definition record (event : ExternalTerminalEvent) (n payload : Z) c : option nat * TerminalDeliveryCredit S :=
  let b := budgets c in
  if retired c || negb (isSafeInteger n) || (n <? 1)
     || (outboundConnectionBytes b - queuedBytes c - debtBytes c <? n)
     || (postNEvents b + baselineChunks b + 2 <=? zlen (records c))
  then (None, c)
  else if negb (admissible event payload c) then (None, c)
  else match delivery_event event, la_reserve 256 (bytes c) with
       | Some de, Some (lease, s) =>
          let id := length (store c) in
          (Some id,
           mkCredit b (attempt c) (mode c) (atSeq c) (store c ++ [mkRecord n de false lease])
             (records c ++ [id]) (next_baseline event payload (baseline c)) (retired c)
             (queuedBytes c + n) (debtBytes c)
             (match event with XRunEvent _ e => ev_seq e | _ => lastQueued c end)
             (lastSent c) (lastApplied c) (installed c) s)
       | _, _ => (None, c)
       end.

Definition eligible (id : nat) c : bool :=
  match store c !! id with
  | None => false
  | Some r =>
     negb (retired c) && bool_decide (id ∈ records c) && negb (sent r)
     && (rec_bytes r <=? subscriptionCreditBytes (budgets c) - debtBytes c)
  end.

Definition set_sentOrdinal (o : Z) (b : Baseline) : Baseline :=
  mkBaseline (descriptor b) (chunks b) (payloadBytes b) o (parsedOrdinal b) (endQueued b) (endSent b).

Definition set_parsedOrdinal (o : Z) (b : Baseline) : Baseline :=
  mkBaseline (descriptor b) (chunks b) (payloadBytes b) (sentOrdinal b) o (endQueued b) (endSent b).

Definition set_endSent (b : Baseline) : Baseline :=
  mkBaseline (descriptor b) (chunks b) (payloadBytes b) (sentOrdinal b) (parsedOrdinal b) (endQueued b) true.

Definition handoff (id : nat) c : bool * TerminalDeliveryCredit S :=
  match store c !! id with
  | None => (false, c)
  | Some r =>
     if negb (eligible id c) then (false, c)
     else (true,
       mkCredit (budgets c) (attempt c) (mode c) (atSeq c)
         (<[id := mkRecord (rec_bytes r) (rec_event r) true (rec_lease r)]> (store c)) (records c)
         (match de_type (rec_event r) with
          | baseline_chunk => set_sentOrdinal (de_ordinal (rec_event r)) <$> baseline c
          | baseline_end => set_endSent <$> baseline c
          | _ => baseline c
          end)
         (retired c) (queuedBytes c - rec_bytes r) (debtBytes c + rec_bytes r) (lastQueued c)
         (match de_type (rec_event r) with run_event => de_seq (rec_event r) | _ => lastSent c end)
         (lastApplied c) (installed c) (bytes c))
  end.

(** The private [release(record)]. *)

Definition release (id : nat) c : TerminalDeliveryCredit S :=
  match store c !! id with
  | None => c
  | Some r =>
     if negb (bool_decide (id ∈ records c)) then c
     else mkCredit (budgets c) (attempt c) (mode c) (atSeq c) (store c)
            (List.filter (fun k => negb (Nat.eqb k id)) (records c)) (baseline c) (retired c)
            (if sent r then queuedBytes c else queuedBytes c - rec_bytes r)
            (if sent r then debtBytes c - rec_bytes r else debtBytes c)
            (lastQueued c) (lastSent c) (lastApplied c) (installed c) (la_release (rec_lease r) (bytes c))
  end.

(** [for (const record of [...this.records]) if (p(record)) this.release(record)] *)

Definition release_where (p : DeliveryCreditRecord -> bool) c : TerminalDeliveryCredit S :=
  foldl (fun c id => match store c !! id with
                     | Some r => if p r then release id c else c
                     | None => c
                     end) c (records c).

Definition with_baseline (bl : option Baseline) c : TerminalDeliveryCredit S :=
  mkCredit (budgets c) (attempt c) (mode c) (atSeq c) (store c) (records c) bl (retired c) (queuedBytes c)
    (debtBytes c) (lastQueued c) (lastSent c) (lastApplied c) (installed c) (bytes c).

Definition parsed_through (ordinal : Z) (r : DeliveryCreditRecord) : bool :=
  sent r && match de_type (rec_event r) with
            | baseline_start => true
            | baseline_chunk => de_ordinal (rec_event r) <=? ordinal
            | _ => false
            end.

Definition progress (baselineId : string) (ordinal : Z) c : bool * TerminalDeliveryCredit S :=
  match baseline c with
  | None => (false, c)
  | Some bl =>
     if retired c || negb (seqb baselineId (bd_baselineId (descriptor bl)))
        || negb (isSafeInteger ordinal) || (ordinal <? 0) || (sentOrdinal bl <? ordinal)
     then (false, c)
     else if ordinal <=? parsedOrdinal bl then (true, c)
     else (true, release_where (parsed_through ordinal)
                   (with_baseline (Some (set_parsedOrdinal ordinal bl)) c))
  end.

Definition baseline_part (r : DeliveryCreditRecord) : bool :=
  sent r && bool_decide (de_type (rec_event r) <> run_event).

Definition applied_run (appliedSeq : Z) (r : DeliveryCreditRecord) : bool :=
  sent r && bool_decide (de_type (rec_event r) = run_event) && (de_seq (rec_event r) <=? appliedSeq).

Definition with_applied (a : Z) c : TerminalDeliveryCredit S :=
  mkCredit (budgets c) (attempt c) (mode c) (atSeq c) (store c) (records c) (baseline c) (retired c)
    (queuedBytes c) (debtBytes c) (lastQueued c) (lastSent c) a true (bytes c).

Definition sent_run_at (appliedSeq : Z) c : bool :=
  existsb (fun id => match store c !! id with
                     | Some r => sent r && bool_decide (de_type (rec_event r) = run_event)
                                 && (de_seq (rec_event r) =? appliedSeq)
                     | None => false
                     end) (records c).

Definition ack (appliedSeq : Z) c : bool * TerminalDeliveryCredit S :=
  if retired c || negb (isSafeInteger appliedSeq) || (appliedSeq <? 0) then (false, c)
  else if negb (installed c) then
    if negb (appliedSeq =? atSeq c)
       || negb (match baseline c with Some bl => endSent bl | None => false end)
    then (false, c)
    else (true, release_where baseline_part (with_applied appliedSeq c))
  else if appliedSeq <=? lastApplied c then (true, c)
  else if (lastSent c <? appliedSeq) || negb (sent_run_at appliedSeq c) then (false, c)
  else (true, release_where (applied_run appliedSeq) (with_applied appliedSeq c)).

Definition retire c : TerminalDeliveryCredit S :=
  if retired c then c
  else
    let c := mkCredit (budgets c) (attempt c) (mode c) (atSeq c) (store c) (records c) (baseline c) true
               (queuedBytes c) (debtBytes c) (lastQueued c) (lastSent c) (lastApplied c) (installed c)
               (bytes c) in
    with_baseline None (release_where (fun _ => true) c).

End operations.

(** [snapshot()] *)

Record CreditSnapshot := mkCreditSnapshot {
  snap_attempt : Z; snap_queuedBytes : Z; snap_debtBytes : Z; snap_items : Z;
  snap_installed : bool; snap_appliedSeq : Z; snap_sentSeq : Z; snap_retired : bool }.

Definition snapshot {S} (c : TerminalDeliveryCredit S) : CreditSnapshot :=
  mkCreditSnapshot (attempt c) (queuedBytes c) (debtBytes c) (zlen (records c)) (installed c)
    (lastApplied c) (lastSent c) (retired c).

(** ** Invariant *)

Definition queued_part (r : DeliveryCreditRecord) : Z := if sent r then 0 else rec_bytes r.

Definition debt_part (r : DeliveryCreditRecord) : Z := if sent r then rec_bytes r else 0.

(** The events recorded so far: a baseline of [k] chunks, then the run events
    after the boundary; or the run events after the replay's starting point. *)

Definition run_events (from n : Z) : list DeliveryEvent :=
  (fun q => mkDeliveryEvent run_event q (-1)) <$> seqZ (from + 1) n.

Definition chunk_events (k : Z) : list DeliveryEvent :=
  (fun o => mkDeliveryEvent baseline_chunk (-1) o) <$> seqZ 0 k.

Definition start_event : DeliveryEvent := mkDeliveryEvent baseline_start (-1) (-1).

Definition end_event : DeliveryEvent := mkDeliveryEvent baseline_end (-1) (-1).

Section invariant.
Context {S : Type} `{LeaseAccount S}.
Implicit Types c : TerminalDeliveryCredit S.

Definition live_records c : list DeliveryCreditRecord := omap (fun id => store c !! id) (records c).

Definition owned c : list (nat * Z) := (fun r => (rec_lease r, 256)) <$> live_records c.

Record accounts (foreign : Z) c : Prop := mk_accounts {
  a_ledger : ledger foreign (bytes c) (owned c);
  a_nodup : NoDup (records c);
  a_known : Forall (fun id => (id < length (store c))%nat) (records c);
  a_queued : queuedBytes c = lsum queued_part (live_records c);
  a_debt : debtBytes c = lsum debt_part (live_records c);
  a_positive : Forall (fun r => 1 <= rec_bytes r) (store c);
  a_outbound : queuedBytes c + debtBytes c <= Z.max 0 (outboundConnectionBytes (budgets c));
  a_credit : debtBytes c <= Z.max 0 (subscriptionCreditBytes (budgets c));
  a_items : zlen (records c) <= Z.max 0 (postNEvents (budgets c) + baselineChunks (budgets c) + 2);
}.

Definition stream_of c : list DeliveryEvent := rec_event <$> store c.

Definition total_bytes (d : BaselineDescriptor) : Z := bd_vtBytes d + bd_tailBytes d.

(** What the account knows of the stream while it is not retired. *)

Definition stream_state (a0 : Z) c : Prop :=
  match mode c, baseline c with
  | mode_replay, None => a0 <= lastQueued c /\ stream_of c = run_events a0 (lastQueued c - a0)
  | mode_replay, Some _ => False
  | mode_baseline, None => lastQueued c = atSeq c /\ stream_of c = []
  | mode_baseline, Some b =>
     0 <= chunks b <= bd_chunkCount (descriptor b) /\ 0 <= payloadBytes b <= total_bytes (descriptor b)
     /\ bd_atSeq (descriptor b) = atSeq c
     /\ if endQueued b
        then chunks b = bd_chunkCount (descriptor b) /\ payloadBytes b = total_bytes (descriptor b)
             /\ atSeq c <= lastQueued c
             /\ stream_of c = start_event :: chunk_events (chunks b)
                  ++ end_event :: run_events (atSeq c) (lastQueued c - atSeq c)
        else lastQueued c = atSeq c /\ stream_of c = start_event :: chunk_events (chunks b)
  end.

(** The shape of a stream, whatever the account still remembers of it. *)

Definition valid_stream (m : Mode) (at_ a0 : Z) (l : list DeliveryEvent) : Prop :=
  match m with
  | mode_replay => exists n, 0 <= n /\ l = run_events a0 n
  | mode_baseline =>
     l = [] \/ exists k, 0 <= k /\
       (l = start_event :: chunk_events k
        \/ exists n, 0 <= n /\ l = start_event :: chunk_events k ++ end_event :: run_events at_ n)
  end.

Record ok (foreign a0 : Z) c : Prop := mk_credit_ok {
  ok_accounts : accounts foreign c;
  ok_state : retired c = false -> stream_state a0 c;
  ok_stream : valid_stream (mode c) (atSeq c) a0 (stream_of c);
  ok_retired : retired c = true -> records c = [];
}.

Lemma stream_state_valid a0 c : stream_state a0 c -> valid_stream (mode c) (atSeq c) a0 (stream_of c).
Proof.
  unfold stream_state, valid_stream. destruct (mode c), (baseline c) as [b|]; intros Hs.
  - right. destruct Hs as (Hk & _ & _ & Hs). exists (chunks b). split; [lia |].
    destruct (endQueued b); [right | left; apply Hs].
    destruct Hs as (_ & _ & Hle & ->). eexists. split; [| done]. lia.
  - left. apply Hs.
  - done.
  - destruct Hs as [Hle ->]. eexists. split; [| done]. lia.
Qed.

(** What [release] never touches. *)

Definition static c :=
  (budgets c, attempt c, mode c, atSeq c, store c, baseline c, retired c, lastQueued c, lastSent c,
   lastApplied c, installed c).

Lemma live_split c l1 id l2 r : records c = l1 ++ id :: l2 -> store c !! id = Some r ->
  live_records c = omap (fun k => store c !! k) l1 ++ r :: omap (fun k => store c !! k) l2.
Proof. intros E Hr. unfold live_records. rewrite E, omap_app. cbn. by rewrite Hr. Qed.

Lemma release_accounts foreign id c : accounts foreign c ->
  accounts foreign (release id c) /\ static (release id c) = static c
  /\ records (release id c) = List.filter (fun k => negb (Nat.eqb k id)) (records c).
Proof.
  intros Ha. pose proof Ha as [Hl Hnd Hk Hq Hd Hp Ho Hc Hi]. unfold release.
  destruct (store c !! id) as [r|] eqn:Hr.
  2: { split_and!; [done | done |]. rewrite filter_absent; [done |]. intros Hin.
       rewrite Forall_forall in Hk. apply Hk in Hin. apply lookup_ge_None in Hr. lia. }
  case_bool_decide as Hin; cbn [negb].
  2: { split_and!; [done | done |]. by rewrite filter_absent. }
  apply list_elem_of_split in Hin as (l1 & l2 & E).
  pose proof (live_split c l1 id l2 r E Hr) as Hlive.
  assert (Hf : List.filter (fun k => negb (Nat.eqb k id)) (records c) = l1 ++ l2)
    by (rewrite E; apply filter_other; by rewrite <- E).
  split_and!; [| done | done].
  assert (1 <= rec_bytes r) by (eapply (Forall_lookup_1 _ _ _ _ Hp Hr)).
  assert (Hlive' : forall f : DeliveryCreditRecord -> Z, lsum f (omap (fun k => store c !! k) (l1 ++ l2))
    = lsum f (live_records c) - f r).
  { intros f. rewrite Hlive, lsum_remove, omap_app. lia. }
  constructor; unfold owned, live_records; cbn [records store bytes queuedBytes debtBytes budgets]; rewrite ?Hf.
  - apply (ledger_release _ _ _ (rec_lease r) 256). unfold owned in Hl. rewrite Hlive in Hl.
    rewrite omap_app. rewrite !fmap_app in *. cbn in Hl. by rewrite Permutation_middle.
  - rewrite E in Hnd. apply NoDup_app in Hnd as (H1 & H2 & H3). apply NoDup_cons in H3 as [_ H3].
    apply NoDup_app. split_and!; [done | | done]. intros k Hk1 Hk2. apply (H2 k Hk1). by right.
  - rewrite E in Hk. rewrite !Forall_app, Forall_cons in *. tauto.
  - rewrite Hlive'. unfold queued_part at 2. case_if; lia.
  - rewrite Hlive'. unfold debt_part at 2. case_if; lia.
  - done.
  - case_if; lia.
  - case_if; lia.
  - rewrite E, !zlen_app, zlen_cons in *. lia.
Qed.

Definition keep (p : DeliveryCreditRecord -> bool) c (id : nat) : bool :=
  match store c !! id with Some r => negb (p r) | None => true end.

Lemma release_where_loop foreign (p : DeliveryCreditRecord -> bool) (ids : list nat) c : accounts foreign c ->
  let c' := foldl (fun c id => match store c !! id with
                               | Some r => if p r then release id c else c
                               | None => c
                               end) c ids in
  accounts foreign c' /\ static c' = static c
  /\ records c' = List.filter (fun k => keep p c k || negb (bool_decide (k ∈ ids))) (records c).
Proof.
  revert c. induction ids as [|id ids IH]; intros c Ha; cbn [foldl].
  { split_and!; [done | done |]. rewrite filter_all; [done |].
    intros k _. rewrite bool_decide_eq_false_2 by apply not_elem_of_nil. apply orb_true_r. }
  set (c1 := match store c !! id with Some r => if p r then release id c else c | None => c end).
  assert (Hc1 : accounts foreign c1 /\ static c1 = static c /\
    records c1 = List.filter (fun k => keep p c k || negb (Nat.eqb k id)) (records c)).
  { unfold c1. pose proof (release_accounts foreign id c Ha) as Hrel.
    assert (Hkeep : keep p c id = true -> records c = List.filter (fun k => keep p c k || negb (Nat.eqb k id)) (records c)).
    { intros Hk. rewrite filter_all; [done |]. intros k _.
      destruct (Nat.eqb_spec k id) as [->|_]; [by rewrite Hk | apply orb_true_r]. }
    unfold keep in Hkeep at 1. destruct (store c !! id) as [r|] eqn:Hr; [| by auto].
    destruct (p r) eqn:Hp; [| by auto]. destruct Hrel as (H1 & H2 & H3). split_and!; [done | done |].
    rewrite H3. apply List.filter_ext. intros k. destruct (Nat.eqb_spec k id) as [->|_]; [| by rewrite orb_true_r].
    unfold keep. by rewrite Hr, Hp. }
  destruct Hc1 as (Ha1 & Hs1 & Hr1). destruct (IH c1 Ha1) as (H1 & H2 & H3). cbn zeta in *.
  split_and!; [done | by rewrite H2 |]. rewrite H3, Hr1, filter_filter_b. apply List.filter_ext.
  assert (store c1 = store c) as Hst by (unfold static in Hs1; by simplify_eq).
  intros k. unfold keep. rewrite Hst. destruct (match store c !! k with Some _ => _ | None => _ end); [done |]. cbn.
  destruct (Nat.eqb_spec k id) as [->|Hne]; cbn.
  - by rewrite bool_decide_eq_true_2 by left.
  - f_equal. apply bool_decide_ext. rewrite elem_of_cons. split; [by right | by intros [?|?]].
Qed.

(** [release_where p] drops exactly the records that satisfy [p]. *)

Lemma release_where_accounts foreign p c : accounts foreign c ->
  accounts foreign (release_where p c) /\ static (release_where p c) = static c
  /\ records (release_where p c) = List.filter (keep p c) (records c).
Proof.
  intros Ha. destruct (release_where_loop foreign p (records c) c Ha) as (H1 & H2 & H3).
  split_and!; [exact H1 | exact H2 |]. unfold release_where. rewrite H3.
  apply List.filter_ext_in. intros k Hk%list_elem_of_In. rewrite bool_decide_eq_true_2 by done. apply orb_false_r.
Qed.

Lemma static_stream a0 c c' : static c' = static c ->
  (stream_state a0 c -> stream_state a0 c') /\ stream_of c' = stream_of c /\ mode c' = mode c
  /\ atSeq c' = atSeq c /\ retired c' = retired c.
Proof.
  unfold static, stream_state, stream_of. intros E. injection E as E1 E2 E3 E4 E5 E6 E7 E8 E9 E10 E11.
  rewrite E3, E4, E5, E6, E7, E8. done.
Qed.

(** Updates of fields that neither the accounts nor the stream depend on. *)

Lemma with_applied_ok foreign a0 a c : ok foreign a0 c -> ok foreign a0 (with_applied a c).
Proof. intros [[H1 H2 H3 H4 H5 H6 H7 H8 H9] Hs Hv Hr]. by constructor. Qed.

Definition same_baseline (b b' : Baseline) : Prop :=
  descriptor b' = descriptor b /\ chunks b' = chunks b /\ payloadBytes b' = payloadBytes b
  /\ endQueued b' = endQueued b.

Lemma stream_state_baseline a0 c c' : mode c' = mode c -> atSeq c' = atSeq c -> stream_of c' = stream_of c ->
  lastQueued c' = lastQueued c -> option_Forall2 same_baseline (baseline c) (baseline c') ->
  stream_state a0 c -> stream_state a0 c'.
Proof.
  intros E1 E2 E3 E4 Hb. unfold stream_state. rewrite E1, E2, E3, E4.
  destruct Hb as [b b' (-> & -> & -> & ->)|]; done.
Qed.

Lemma release_where_ok foreign a0 p c : ok foreign a0 c -> ok foreign a0 (release_where p c).
Proof.
  intros [Ha Hs Hv Hr]. destruct (release_where_accounts foreign p c Ha) as (H1 & H2 & H3).
  destruct (static_stream a0 _ _ H2) as (Hst & E1 & E2 & E3 & E4). constructor.
  - done.
  - rewrite E4. auto.
  - by rewrite E1, E2, E3.
  - rewrite E4, H3. intros Hret. by rewrite (Hr Hret).
Qed.

Lemma with_baseline_ok foreign a0 b b' c : baseline c = Some b -> same_baseline b b' -> ok foreign a0 c ->
  ok foreign a0 (with_baseline (Some b') c).
Proof.
  intros Eb Hb [[H1 H2 H3 H4 H5 H6 H7 H8 H9] Hs Hv Hr]. constructor; [by constructor | | done | done].
  intros Hret. eapply stream_state_baseline; [.. | exact (Hs Hret)]; try done. cbn. rewrite Eb. by constructor.
Qed.

Lemma progress_ok foreign a0 i o c : ok foreign a0 c -> ok foreign a0 (progress i o c).2.
Proof.
  intros Ho. unfold progress. destruct (baseline c) as [b|] eqn:Eb; [| done]. do 2 (case_if; [done |]).
  cbn [snd]. apply release_where_ok. by apply (with_baseline_ok _ _ b).
Qed.

Lemma ack_ok foreign a0 a c : ok foreign a0 c -> ok foreign a0 (ack a c).2.
Proof.
  intros Ho. unfold ack. case_if; [done |]. case_if; [case_if; [done |] |].
  - apply release_where_ok. by apply with_applied_ok.
  - do 2 (case_if; [done |]). apply release_where_ok. by apply with_applied_ok.
Qed.

Lemma retire_ok foreign a0 c : ok foreign a0 c -> ok foreign a0 (retire c) /\ retired (retire c) = true.
Proof.
  intros Ho. unfold retire. destruct (retired c) eqn:Er; [done |].
  match goal with |- context [release_where _ ?x] => set (c1 := x) end.
  assert (Ha1 : accounts foreign c1) by (destruct Ho as [[H1 H2 H3 H4 H5 H6 H7 H8 H9] _ _ _]; by constructor).
  destruct (release_where_accounts foreign (fun _ => true) c1 Ha1) as (H1 & H2 & H3).
  destruct (static_stream a0 _ _ H2) as (_ & E1 & E2 & E3 & E4).
  remember (release_where (fun _ => true) c1) as c2 eqn:Hc2. clear Hc2. split; [| exact E4].
  constructor; cbn [retired with_baseline mode atSeq records].
  - destruct H1 as [G1 G2 G3 G4 G5 G6 G7 G8 G9]. by constructor.
  - intros Hret. rewrite E4 in Hret. done.
  - change (stream_of _) with (stream_of c2). rewrite E1, E2, E3. apply Ho.
  - intros _. rewrite H3. apply filter_none. eapply Forall_impl; [exact (a_known _ _ Ha1) |].
    intros k [r Hk]%lookup_lt_is_Some. unfold keep. by rewrite Hk.
Qed.

Lemma live_grow c r : Forall (fun id => (id < length (store c))%nat) (records c) ->
  omap (fun id => (store c ++ [r]) !! id) (records c ++ [length (store c)]) = live_records c ++ [r].
Proof.
  intros Hf. rewrite omap_app. cbn. rewrite lookup_app_r, Nat.sub_diag by lia. cbn. f_equal.
  unfold live_records. apply list_omap_ext. induction Hf as [|id ids Hid _ IH]; constructor; [| done].
  by rewrite lookup_app_l.
Qed.

Lemma run_events_snoc from n : 0 <= n ->
  run_events from n ++ [mkDeliveryEvent run_event (from + n + 1) (-1)] = run_events from (n + 1).
Proof.
  intros Hn. unfold run_events. rewrite seqZ_app, seqZ_one, fmap_app by lia. cbn. do 3 f_equal. lia.
Qed.

Lemma chunk_events_snoc k : 0 <= k ->
  chunk_events k ++ [mkDeliveryEvent baseline_chunk (-1) k] = chunk_events (k + 1).
Proof.
  intros Hn. unfold chunk_events. by rewrite seqZ_app, seqZ_one, fmap_app by lia.
Qed.

(** An admissible event extends the stream the account expects. *)

Lemma admissible_stream a0 event payload c de : stream_state a0 c -> admissible event payload c = true ->
  delivery_event event = Some de -> forall c', mode c' = mode c -> atSeq c' = atSeq c ->
  stream_of c' = stream_of c ++ [de] -> baseline c' = next_baseline event payload (baseline c) ->
  lastQueued c' = (match event with XRunEvent _ e => ev_seq e | _ => lastQueued c end) ->
  stream_state a0 c'.
Proof.
  unfold stream_state, admissible. intros Hs Ha Hde c' Em Ea Es Eb El. rewrite Em, Ea, Es, Eb, El. clear Em Ea Es Eb El.
  destruct event as [sub e|r d|ch|e| | | |]; cbn in Hde; try done; injection Hde as <-; cbn [next_baseline].
  - destruct (mode c), (baseline c) as [b|]; cbn in Ha; try done.
    + destruct Hs as (H1 & H2 & H3 & H4). destruct (endQueued b); [| cbn in Ha; by rewrite orb_true_r in Ha].
      destruct H4 as (H4 & H5 & H6 & ->). split_and!; try done; try lia.
      cbn. rewrite <- app_assoc. cbn. do 3 f_equal.
      replace (ev_seq e - atSeq c) with (lastQueued c - atSeq c + 1) by lia. rewrite <- run_events_snoc by lia.
      do 3 f_equal. lia.
    + by rewrite orb_true_r in Ha.
    + destruct Hs as [H1 ->]. split; [lia |].
      replace (ev_seq e - a0) with (lastQueued c - a0 + 1) by lia. rewrite <- run_events_snoc by lia. do 3 f_equal. lia.
  - destruct (validateBaselineDescriptor d _) as [v|] eqn:Ev; [| done].
    assert (v = d) as ->.
    { revert Ev. unfold validateBaselineDescriptor. by repeat (case_if; [done |]); intros [= <-]. }
    assert (1 <= bd_vtBytes d /\ 0 <= bd_tailBytes d /\ 1 <= bd_chunkCount d) as Hpos.
    { revert Ev. unfold validateBaselineDescriptor. case_if; [done |]. case_if; [done |].
      match goal with E : negb (BaselineDescriptorSchema d) = false |- _ =>
        unfold BaselineDescriptorSchema in E; bool_hyps end. intros _. lia. }
    destruct (mode c), (baseline c) as [b|]; cbn in Ha; try done.
    destruct Hs as [H1 ->]. cbn. unfold total_bytes. split_and!; lia || done || idtac. 
  - destruct (mode c), (baseline c) as [b|]; try done. destruct Hs as (H1 & H2 & H3 & H4). cbn.
    destruct (endQueued b); [done |]. destruct H4 as (H4 & ->). unfold total_bytes in *. split_and!; try lia.
    rewrite <- chunk_events_snoc by lia. cbn. do 3 f_equal. cbn in Ha. f_equal. lia.
  - destruct (mode c), (baseline c) as [b|]; try done. destruct Hs as (H1 & H2 & H3 & H4). cbn.
    destruct (endQueued b); [done |]. destruct H4 as (H4 & ->). unfold total_bytes in *. split_and!; try lia.
    rewrite H4, Z.sub_diag. done.
Qed.

Lemma record_accounts foreign c n de lease s bl lq : accounts foreign c ->
  la_reserve 256 (bytes c) = Some (lease, s) -> 1 <= n ->
  n <= outboundConnectionBytes (budgets c) - queuedBytes c - debtBytes c ->
  zlen (records c) < postNEvents (budgets c) + baselineChunks (budgets c) + 2 ->
  accounts foreign (mkCredit (budgets c) (attempt c) (mode c) (atSeq c) (store c ++ [mkRecord n de false lease])
    (records c ++ [length (store c)]) bl (retired c) (queuedBytes c + n) (debtBytes c) lq (lastSent c)
    (lastApplied c) (installed c) s).
Proof.
  intros [Hl Hnd Hk Hq Hd Hp Ho Hc Hi] Er Hn Hout Hitems.
  constructor; unfold owned, live_records; cbn [records store bytes queuedBytes debtBytes budgets];
    rewrite ?(live_grow c) by done.
  - rewrite fmap_app. cbn. rewrite <- Permutation_cons_append. by apply (ledger_reserve _ (bytes c)).
  - apply NoDup_app. split_and!; [done | | apply NoDup_singleton].
    intros k Hk' ->%list_elem_of_singleton. rewrite Forall_forall in Hk. apply Hk in Hk'. lia.
  - rewrite length_app. apply Forall_app. split; [| repeat constructor; cbn; lia].
    eapply Forall_impl; [exact Hk |]. cbn. lia.
  - rewrite lsum_app, lsum_cons, lsum_nil. unfold queued_part at 2. cbn. lia.
  - rewrite lsum_app, lsum_cons, lsum_nil. unfold debt_part at 2. cbn. lia.
  - apply Forall_app. by repeat constructor.
  - lia.
  - done.
  - rewrite zlen_app, zlen_cons, zlen_nil. lia.
Qed.

Lemma record_ok foreign a0 event n payload c : ok foreign a0 c -> ok foreign a0 (record event n payload c).2.
Proof.
  intros Ho. unfold record. case_if; [done |]. destruct (admissible event payload c) eqn:Ea; [| done]. cbn [negb].
  destruct (delivery_event event) as [de|] eqn:Ede; [| done].
  destruct (la_reserve 256 (bytes c)) as [[lease s]|] eqn:Er; [| done]. cbn [snd].
  bool_hyps. destruct Ho as [Ha Hs Hv Hr].
  match goal with |- ok _ _ ?x => set (c' := x) end.
  assert (Hst : stream_state a0 c').
  { eapply (admissible_stream a0 event payload c de); [by apply Hs | done..| |done|done].
    unfold stream_of. cbn. by rewrite fmap_app. }
  constructor.
  - apply record_accounts; [done.. | lia | lia | lia].
  - done.
  - by apply stream_state_valid.
  - cbn. intros. congruence.
Qed.

Lemma omap_update_absent (st : list DeliveryCreditRecord) id r' (l : list nat) : id ∉ l ->
  omap (fun k => <[id := r']> st !! k) l = omap (fun k => st !! k) l.
Proof.
  induction l as [|k l IH]; [done |]. intros [Hne Hl]%not_elem_of_cons. cbn.
  rewrite list_lookup_insert_ne by done. by rewrite IH.
Qed.

Lemma handoff_ok foreign a0 id c : ok foreign a0 c -> ok foreign a0 (handoff id c).2.
Proof.
  intros Ho. unfold handoff. destruct (store c !! id) as [r|] eqn:Hr; [| done].
  destruct (eligible id c) eqn:Ee; [| done]. cbn [negb snd].
  unfold eligible in Ee. rewrite Hr in Ee. bool_hyps. destruct Ho as [Ha Hs Hv Hret].
  match goal with |- ok _ _ ?x => set (c' := x) end.
  assert (Hso : stream_of c' = stream_of c).
  { unfold stream_of. cbn. rewrite list_fmap_insert. apply list_insert_id. by rewrite list_lookup_fmap, Hr. }
  constructor; [| | by rewrite Hso | done].
  - destruct Ha as [Hl Hnd Hk Hq Hd Hp Hout Hc Hi].
    match goal with Hin : id ∈ records c |- _ => apply list_elem_of_split in Hin as (l1 & l2 & E) end.
    pose proof (live_split c l1 id l2 r E Hr) as Hlive.
    set (r' := mkRecord (rec_bytes r) (rec_event r) true (rec_lease r)) in *.
    assert (Hlen : (id < length (store c))%nat) by (by apply lookup_lt_Some in Hr).
    assert (Hlive' : live_records c' = omap (fun k => store c !! k) l1 ++ r' :: omap (fun k => store c !! k) l2).
    { rewrite E in Hnd. apply NoDup_app in Hnd as (N1 & N2 & N3). apply NoDup_cons in N3 as [N3 N4].
      unfold live_records, c'. cbn [records store]. rewrite E, omap_app. cbn [omap list_omap].
      rewrite list_lookup_insert_eq by done. fold r'. rewrite !omap_update_absent; [done | done |].
      intros Hin. apply (N2 id Hin). left. }
    assert (Howned : owned c' = owned c) by (unfold owned; rewrite Hlive, Hlive', !fmap_app; done).
    constructor; rewrite ?Hlive', ?Howned; cbn [c' records store bytes queuedBytes debtBytes budgets];
      rewrite ?length_insert; try done.
    + rewrite Hq, Hlive, !lsum_remove. unfold queued_part at 1 3. cbn. rewrite H2. lia.
    + rewrite Hd, Hlive, !lsum_remove. unfold debt_part at 1 3. cbn. rewrite H2. lia.
    + apply Forall_insert; [done |]. cbn. by eapply (Forall_lookup_1 _ _ _ _ Hp Hr).
    + lia.
    + lia.
  - intros _. eapply stream_state_baseline; [.. | apply Hs]; try done. cbn.
    destruct (de_type (rec_event r)), (baseline c); cbn; constructor; done.
Qed.

Lemma new_credit_ok b s att m at_ applied c : la_ok s ->
  newTerminalDeliveryCredit b s att m at_ applied = inr c -> ok (la_used s) (default 0 applied) c.
Proof.
  intros Hs. unfold newTerminalDeliveryCredit. case_if; intros [= <-]. constructor; cbn; try done.
  - constructor; unfold owned; cbn; rewrite ?lsum_nil, ?zlen_nil;
      first [by apply ledger_nil | done | lia | by apply Forall_nil | by apply NoDup_nil].
  - unfold stream_state, stream_of. cbn. destruct m; cbn; [done |]. rewrite Z.sub_diag. done.
  - unfold valid_stream, stream_of. cbn. destruct m; [by left |]. exists 0. done.
Qed.

Lemma live_filter c c' p : store c' = store c ->
  Forall (fun id => (id < length (store c))%nat) (records c) ->
  records c' = List.filter (keep p c) (records c) ->
  live_records c' = List.filter (fun r => negb (p r)) (live_records c).
Proof.
  intros Es Hk Er. unfold live_records. rewrite Es, Er. clear Er.
  induction Hk as [|id l [r Hr]%lookup_lt_is_Some _ IH]; [done |]. cbn [List.filter omap list_omap].
  unfold keep at 1. rewrite Hr. cbn. destruct (p r); cbn; [exact IH |]. rewrite Hr. by f_equal.
Qed.

(** Releasing sent records pays back exactly their bytes of debt. *)

Lemma release_where_sent foreign p c : accounts foreign c -> (forall r, p r = true -> sent r = true) ->
  let c' := release_where p c in
  live_records c' = List.filter (fun r => negb (p r)) (live_records c)
  /\ debtBytes c' = debtBytes c - lsum rec_bytes (List.filter p (live_records c))
  /\ queuedBytes c' = queuedBytes c.
Proof.
  intros Ha Hp c'. destruct (release_where_accounts foreign p c Ha) as (H1 & H2 & H3).
  assert (Hst : store c' = store c) by (unfold static in H2; by simplify_eq).
  pose proof (live_filter c c' p Hst (a_known _ _ Ha) H3) as Hl.
  assert (Hsum : forall f g : DeliveryCreditRecord -> Z, (forall r, sent r = true -> f r = g r) ->
    lsum f (List.filter p (live_records c)) = lsum g (List.filter p (live_records c))).
  { intros f g Hfg. apply lsum_ext. intros r Hr%list_elem_of_In. apply filter_In in Hr as [_ Hr]. auto. }
  split_and!; [done | |].
  - unfold c' in *. rewrite (a_debt _ _ H1), (a_debt _ _ Ha), Hl, (lsum_filter_split debt_part p (live_records c)).
    rewrite (Hsum debt_part rec_bytes); [lia |]. intros r Hr. unfold debt_part. by rewrite Hr.
  - unfold c' in *. rewrite (a_queued _ _ H1), (a_queued _ _ Ha), Hl, (lsum_filter_split queued_part p (live_records c)).
    rewrite (Hsum queued_part (fun _ => 0)) by (intros r Hr; unfold queued_part; by rewrite Hr).
    rewrite (lsum_zero (fun _ => 0)) by (by apply Forall_true). lia.
Qed.

Inductive step : Z * TerminalDeliveryCredit S -> Z * TerminalDeliveryCredit S -> Prop :=
  | s_record f e n p c : step (f, c) (f, (record e n p c).2)
  | s_handoff f id c : step (f, c) (f, (handoff id c).2)
  | s_progress f i o c : step (f, c) (f, (progress i o c).2)
  | s_ack f a c : step (f, c) (f, (ack a c).2)
  | s_retire f c : step (f, c) (f, retire c)
  | s_env f c s : la_ok s ->
      (forall l n, (l, n) ∈ owned c -> la_charge s l = la_charge (bytes c) l) ->
      step (f, c) (f + (la_used s - la_used (bytes c)),
        mkCredit (budgets c) (attempt c) (mode c) (atSeq c) (store c) (records c) (baseline c) (retired c)
          (queuedBytes c) (debtBytes c) (lastQueued c) (lastSent c) (lastApplied c) (installed c) s).

Lemma credit_step_ok a0 x y : ok x.1 a0 x.2 -> step x y -> ok y.1 a0 y.2.
Proof.
  intros Ho Hst. revert Ho. destruct Hst; cbn [fst snd]; eauto using record_ok, handoff_ok, progress_ok, ack_ok.
  - intros Ho. by apply retire_ok.
  - intros [[H1' H2 H3 H4 H5 H6 H7 H8 H9] Hs Hv Hr]. constructor; try done. constructor; try done.
    by apply ledger_interfere.
Qed.

Definition reachable (b : EffectiveBudgets) (s : S) (att : Z) (m : Mode) (at_ : Z) (applied : option Z)
    (x : Z * TerminalDeliveryCredit S) : Prop :=
  exists c0, newTerminalDeliveryCredit b s att m at_ applied = inr c0 /\ rtc step (la_used s, c0) x.

Lemma credit_reachable_ok b s att m at_ applied x : la_ok s -> reachable b s att m at_ applied x ->
  ok x.1 (default 0 applied) x.2.
Proof.
  intros Hs (c0 & E & Hr).
  apply (rtc_invariant step (fun x => ok x.1 (default 0 applied) x.2) (la_used s, c0) x); [| | done].
  - by apply (new_credit_ok b s att m at_ applied).
  - apply credit_step_ok.
Qed.

End invariant.

(** ** Properties *)

Section properties.
Context {S : Type} `{LeaseAccount S}.

(** Queued bytes and debt are the exact sums of the live unsent and sent
    records, together they stay within the connection's outbound budget, the
    debt within the subscription's credit, the records within their count, and
    the byte account holds 256 bytes per live record and nothing else of ours. *)
Theorem credit_accounts_exact (b : EffectiveBudgets) (s : S) (att : Z) (m : Mode) (at_ : Z) (applied : option Z)
    (f : Z) (c : TerminalDeliveryCredit S) :
  la_ok s -> reachable b s att m at_ applied (f, c) ->
  queuedBytes c = lsum queued_part (live_records c) /\ debtBytes c = lsum debt_part (live_records c)
  /\ queuedBytes c + debtBytes c <= Z.max 0 (outboundConnectionBytes (budgets c))
  /\ debtBytes c <= Z.max 0 (subscriptionCreditBytes (budgets c))
  /\ zlen (records c) <= Z.max 0 (postNEvents (budgets c) + baselineChunks (budgets c) + 2)
  /\ la_used (bytes c) = f + 256 * zlen (live_records c).
Proof.
  intros Hs Hr. destruct (credit_reachable_ok _ _ _ _ _ _ _ Hs Hr) as [Ha _ _ _]. cbn [fst snd] in Ha.
  split_and!; try apply Ha. rewrite (ledger_used _ _ _ (a_ledger _ _ Ha)). unfold owned. f_equal.
  induction (live_records c) as [|r l IH]; [done |]. cbn [fmap list_fmap].
  rewrite lsum_cons, IH, zlen_cons. cbn. lia.
Qed.

(** Whatever the caller tries, the events accepted by [record] form a
    valid stream: a baseline start, its chunks in ordinal order, its end, then
    the run events after the boundary without gap or repetition (or, for a
    replay, the run events after the applied sequence); a queued end has all
    the announced chunks and bytes before it. *)
Theorem credit_stream_valid (b : EffectiveBudgets) (s : S) (att : Z) (m : Mode) (at_ : Z) (applied : option Z)
    (f : Z) (c : TerminalDeliveryCredit S) :
  la_ok s -> reachable b s att m at_ applied (f, c) ->
  valid_stream (mode c) (atSeq c) (default 0 applied) (stream_of c)
  /\ (forall bl, retired c = false -> baseline c = Some bl -> endQueued bl = true ->
      chunks bl = bd_chunkCount (descriptor bl) /\ payloadBytes bl = total_bytes (descriptor bl)).
Proof.
  intros Hs Hr. destruct (credit_reachable_ok _ _ _ _ _ _ _ Hs Hr) as [_ Hst Hv _]. cbn [fst snd] in *.
  split; [done |]. intros bl Hret Hb He. specialize (Hst Hret). unfold stream_state in Hst.
  rewrite Hb in Hst. destruct (mode c); [| done]. rewrite He in Hst. tauto.
Qed.

(** An acknowledgement is refused without effect, repeats a sequence
    already applied, or releases exactly the sent records it proves parsed (the
    baseline's on installation, the run events through [a] afterwards) and
    lowers the debt by exactly their bytes. *)
Theorem ack_exact (b : EffectiveBudgets) (s : S) (att : Z) (m : Mode) (at_ : Z) (applied : option Z)
    (f a : Z) (c : TerminalDeliveryCredit S) :
  la_ok s -> reachable b s att m at_ applied (f, c) ->
  match ack a c with
  | (false, c') => c' = c
  | (true, c') =>
     (c' = c /\ installed c = true /\ a <= lastApplied c)
     \/ let proved := if installed c then applied_run a else baseline_part in
        lastApplied c' = a /\ installed c' = true
        /\ (if installed c then lastApplied c < a <= lastSent c else a = atSeq c)
        /\ live_records c' = List.filter (fun r => negb (proved r)) (live_records c)
        /\ debtBytes c' = debtBytes c - lsum rec_bytes (List.filter proved (live_records c))
        /\ queuedBytes c' = queuedBytes c
  end.
Proof.
  intros Hs Hr. destruct (credit_reachable_ok _ _ _ _ _ _ _ Hs Hr) as [Ha _ _ _]. cbn [fst snd] in Ha.
  assert (Ha' : accounts f (with_applied a c)) by (destruct Ha; by constructor).
  assert (Hrel : forall p, (forall r, p r = true -> sent r = true) ->
    lastApplied (release_where p (with_applied a c)) = a /\ installed (release_where p (with_applied a c)) = true
    /\ live_records (release_where p (with_applied a c)) = List.filter (fun r => negb (p r)) (live_records c)
    /\ debtBytes (release_where p (with_applied a c)) = debtBytes c - lsum rec_bytes (List.filter p (live_records c))
    /\ queuedBytes (release_where p (with_applied a c)) = queuedBytes c).
  { intros p Hp. destruct (release_where_accounts _ p _ Ha') as (_ & Est & _).
    destruct (release_where_sent _ p _ Ha' Hp) as (H1 & H2 & H3). unfold static in Est. cbn in Est.
    injection Est. intros. split_and!; try done. }
  unfold ack. case_if; [done |]. destruct (installed c) eqn:Ei; cbn [negb].
  - case_if; [left; split_and!; [done | done | lia] |]. case_if; [done |]. right.
    destruct (Hrel (applied_run a)) as (H1 & H2 & H3 & H4 & H5).
    { unfold applied_run. intros r Hp. by bool_hyps. }
    bool_hyps. split_and!; done || lia.
  - case_if; [done |]. right. destruct (Hrel baseline_part) as (H1 & H2 & H3 & H4 & H5).
    { unfold baseline_part. intros r Hp. by bool_hyps. }
    bool_hyps. split_and!; done || lia.
Qed.

(** retiring an account gives back everything it held and makes it inert:
    no bytes, no records, no lease, and every later operation is refused. *)
Theorem retired_inert (b : EffectiveBudgets) (s : S) (att : Z) (m : Mode) (at_ : Z) (applied : option Z)
    (f : Z) (c : TerminalDeliveryCredit S) :
  la_ok s -> reachable b s att m at_ applied (f, c) ->
  let c' := retire c in
  queuedBytes c' = 0 /\ debtBytes c' = 0 /\ records c' = [] /\ la_used (bytes c') = f
  /\ (forall e n p, record e n p c' = (None, c')) /\ (forall id, handoff id c' = (false, c'))
  /\ (forall i o, progress i o c' = (false, c')) /\ (forall a, ack a c' = (false, c')) /\ retire c' = c'.
Proof.
  intros Hs Hr c'. pose proof (credit_reachable_ok _ _ _ _ _ _ _ Hs Hr) as Ho. cbn [fst snd] in Ho.
  destruct (retire_ok f (default 0 applied) c Ho) as [[Ha _ _ Hrec] Hret]. fold c' in Ha, Hrec, Hret.
  specialize (Hrec Hret). assert (Hlive : live_records c' = []) by (unfold live_records; by rewrite Hrec).
  split_and!.
  - by rewrite (a_queued _ _ Ha), Hlive.
  - by rewrite (a_debt _ _ Ha), Hlive.
  - done.
  - rewrite (ledger_used _ _ _ (a_ledger _ _ Ha)). unfold owned. rewrite Hlive. cbn. rewrite lsum_nil. lia.
  - intros. unfold record. by rewrite Hret.
  - intros id. unfold handoff, eligible. rewrite Hret. by destruct (store c' !! id).
  - intros. unfold progress. rewrite Hret. by destruct (baseline c').
  - intros. unfold ack. by rewrite Hret.
  - unfold retire. by rewrite Hret.
Qed.

End properties.

(** A baseline of one chunk and one run event on the runtime's account: all four
    are recorded, the baseline is handed off and parsed. *)

#[local] Instance demo_account : LeaseAccount RuntimeRetainedBytes.t := RuntimeRetainedBytes.account false.

Lemma credit_demo_ok : la_ok RuntimeRetainedBytes.demo_runtime.
Proof. exact RuntimeRetainedBytes.demo_runtime_ok. Qed.

Definition demo_run : RunRef := mkRun "server" "relay" "run".

Definition demo_subscription : SubscriptionRef :=
  {| sub_run := demo_run; sub_connection := mkConnection "conn" 1; sub_subscriptionId := "sub"; sub_viewId := "view" |}.

Definition demo_descriptor : BaselineDescriptor :=
  mkDescriptor "base" demo_run demo_subscription 5 7 (mkGeometry 80 24) (mkGeometry 80 24)
    (mkCoverage 100 50 false complete complete) (mkBaselineControl 0 None) 300 20 1.

Definition demo_credit : TerminalDeliveryCredit RuntimeRetainedBytes.t :=
  mkCredit M0_LIMITS 1 mode_baseline 7 [] [] None false 0 0 7 7 (-1) false RuntimeRetainedBytes.demo_runtime.

Definition demo_queued : TerminalDeliveryCredit RuntimeRetainedBytes.t :=
  (record (XRunEvent demo_subscription (mkRunEvent demo_run 8 output)) 90 10
  (record (XBaselineEnd (mkBaselineEnd demo_run "base" demo_subscription 1 320 7)) 80 0
  (record (XBaselineChunk (mkBaselineChunk demo_run "base" demo_subscription 0)) 400 320
  (record (XBaselineStart demo_run demo_descriptor) 200 0 demo_credit).2).2).2).2.

Definition demo_sent : TerminalDeliveryCredit RuntimeRetainedBytes.t :=
  (handoff 2 (handoff 1 (handoff 0 demo_queued).2).2).2.

Lemma demo_queued_reachable :
  reachable M0_LIMITS RuntimeRetainedBytes.demo_runtime 1 mode_baseline 7 None (0, demo_queued).
Proof.
  exists demo_credit. split; [reflexivity |].
  do 3 (eapply rtc_l; [apply s_record |]). apply rtc_once, s_record.
Qed.

Lemma demo_sent_reachable :
  reachable M0_LIMITS RuntimeRetainedBytes.demo_runtime 1 mode_baseline 7 None (0, demo_sent).
Proof.
  destruct demo_queued_reachable as (c0 & E & Hr). exists c0. split; [exact E |].
  eapply (transitivity (R := rtc step)); [exact Hr |].
  do 2 (eapply rtc_l; [apply s_handoff |]). apply rtc_once, s_handoff.
Qed.

Lemma credit_accounts_exact_witness :
  (queuedBytes demo_sent, debtBytes demo_sent) = (90, 680)
  /\ debtBytes demo_sent = lsum debt_part (live_records demo_sent).
Proof.
  split; [vm_compute; reflexivity |].
  destruct (credit_accounts_exact M0_LIMITS RuntimeRetainedBytes.demo_runtime 1 mode_baseline 7 None 0 demo_sent
    credit_demo_ok demo_sent_reachable) as (_ & Hd & _). exact Hd.
Defined.

Lemma credit_stream_valid_witness :
  map de_type (stream_of demo_queued) = [baseline_start; baseline_chunk; baseline_end; run_event]
  /\ valid_stream (mode demo_queued) (atSeq demo_queued) 0 (stream_of demo_queued).
Proof.
  split; [vm_compute; reflexivity |].
  destruct (credit_stream_valid M0_LIMITS RuntimeRetainedBytes.demo_runtime 1 mode_baseline 7 None 0 demo_queued
    credit_demo_ok demo_queued_reachable) as [Hv _]. exact Hv.
Defined.

Lemma ack_exact_witness :
  (ack 7 demo_sent).1 = true /\ debtBytes (ack 7 demo_sent).2 = 0 /\ lastApplied (ack 7 demo_sent).2 = 7.
Proof.
  pose proof (ack_exact M0_LIMITS RuntimeRetainedBytes.demo_runtime 1 mode_baseline 7 None 0 7 demo_sent
    credit_demo_ok demo_sent_reachable) as Hack.
  assert (E : (ack 7 demo_sent).1 = true) by (vm_compute; reflexivity).
  split; [exact E |]. split; [vm_compute; reflexivity |].
  assert (Hi : installed demo_sent = false) by (vm_compute; reflexivity).
  revert Hack E Hi. generalize demo_sent as d. intros d. destruct (ack 7 d) as [[] c']; [| discriminate 2].
  intros [(_ & Hx & _)|(Ha & _)] _ Hi; [congruence | exact Ha].
Defined.

Lemma retired_inert_witness : debtBytes demo_sent = 680 /\ la_used (bytes (retire demo_sent)) = 0.
Proof.
  split; [vm_compute; reflexivity |].
  pose proof (retired_inert M0_LIMITS RuntimeRetainedBytes.demo_runtime 1 mode_baseline 7 None 0 demo_sent
    credit_demo_ok demo_sent_reachable) as Hret. cbv zeta in Hret.
  destruct Hret as (_ & _ & _ & Hu & _). exact Hu.
Defined.
