(* ===== verification/HealthMonitor.v ===== *)
(** * The worker health monitor (apps/server/src/terminal/worker-health.ts)

    A worker is overloaded once a condition has held at every evaluation for
    [OVERLOAD_ENTER_MS], and normal again after no condition has held for
    [OVERLOAD_LEAVE_MS].  Times are integer milliseconds, so [Math.round] is the
    identity on them.  The monitor is related to the history of its evaluations:
    the specification reads the history, the code keeps two timestamps. *)

From S2P Require Import Prelude Json Protocol.

Record WorkerLoad := mkLoad {
  windowMs : Z;
  eventLoopDelayP99Ms : Z;
  eventLoopDelayMaxMs : Z;
  cpuPercent : option Z;
  parseBacklogBytes : Z;
  executingCommands : Z;
}.

Definition threshold_eventLoopDelayP99Ms : Z := 200.

Definition threshold_heartbeatGapMs : Z := 3000.

Definition threshold_commandAgeMs : Z := 5000.

Definition OVERLOAD_ENTER_MS : Z := 5000.

Definition OVERLOAD_LEAVE_MS : Z := 10000.

Record HealthSignals := mkSignals { heartbeatGapMs : Z; oldestCommandAgeMs : option Z }.

Record WorkerHealthMonitor := mkMonitor {
  state : HealthState;
  reasons : list WorkerHealthReason;
  stateSince : Z;
  heldSince : WorkerHealthReason -> option Z;
  clearSince : option Z;
  load : option WorkerLoad;
  signals : HealthSignals;
}.

Definition newWorkerHealthMonitor (now : Z) : WorkerHealthMonitor :=
  mkMonitor normal [] now (fun _ => None) (Some now) None (mkSignals 0 None).

Definition heartbeat (l : WorkerLoad) (m : WorkerHealthMonitor) : WorkerHealthMonitor :=
  mkMonitor (state m) (reasons m) (stateSince m) (heldSince m) (clearSince m) (Some l) (signals m).

Definition health (m : WorkerHealthMonitor) : WorkerHealth := mkHealth (state m) (reasons m).

(** The [holding] set of one evaluation. *)

Definition holding (l : option WorkerLoad) (s : HealthSignals) (r : WorkerHealthReason) : bool :=
  match r with
  | event_loop_delay => threshold_eventLoopDelayP99Ms <? default 0 (eventLoopDelayP99Ms <$> l)
  | heartbeat_gap => threshold_heartbeatGapMs <? heartbeatGapMs s
  | command_age => threshold_commandAgeMs <? default 0 (oldestCommandAgeMs s)
  end.

Definition includes (l : list WorkerHealthReason) (r : WorkerHealthReason) : bool := bool_decide (r ∈ l).

(** The updates of [heldSince] and [clearSince], and the conditions sustained. *)

Definition held_next (now : Z) (h : WorkerHealthReason -> bool) (m : WorkerHealthMonitor)
    (r : WorkerHealthReason) : option Z :=
  if negb (h r) then None else match heldSince m r with None => Some now | Some t => Some t end.

Definition clear_next (now : Z) (h : WorkerHealthReason -> bool) (m : WorkerHealthMonitor) : option Z :=
  if existsb h WORKER_HEALTH_REASONS then None
  else match clearSince m with None => Some now | Some t => Some t end.

Definition sustained_now (now : Z) (held : WorkerHealthReason -> option Z) : list WorkerHealthReason :=
  List.filter (fun r => OVERLOAD_ENTER_MS <=? now - default (now + 1) (held r)) WORKER_HEALTH_REASONS.

Definition evaluate (now : Z) (s : HealthSignals) (m : WorkerHealthMonitor)
    : option WorkerHealth * WorkerHealthMonitor :=
  let h := holding (load m) s in
  let held := held_next now h m in
  let clear := clear_next now h m in
  let sustained := sustained_now now held in
  let with_state st rs since := mkMonitor st rs since held clear (load m) s in
  match state m with
  | normal =>
     match sustained with
     | [] => (None, with_state normal (reasons m) (stateSince m))
     | _ => (Some (mkHealth overloaded sustained), with_state overloaded sustained now)
     end
  | overloaded =>
     if match clear with Some t => OVERLOAD_LEAVE_MS <=? now - t | None => false end
     then (Some (mkHealth normal []), with_state normal [] now)
     else
       let added := List.filter (fun r => negb (includes (reasons m) r)) sustained in
       match added with
       | [] => (None, with_state overloaded (reasons m) (stateSince m))
       | _ =>
          let rs := List.filter (fun r => includes (reasons m) r || includes added r) WORKER_HEALTH_REASONS in
          (Some (mkHealth overloaded rs), with_state overloaded rs (stateSince m))
       end
  end.

Record WorkerStatus := mkStatus {
  status_workerId : string;
  status_health : WorkerHealth;
  stateAgeMs : Z;
  sig_eventLoopDelayP99Ms : option Z;
  sig_eventLoopDelayMaxMs : option Z;
  sig_cpuPercent : option Z;
  sig_parseBacklogBytes : option Z;
  sig_executingCommands : option Z;
  sig_heartbeatGapMs : Z;
  sig_oldestCommandAgeMs : option Z;
}.

Definition status (now : Z) (workerId : string) (m : WorkerHealthMonitor) : WorkerStatus :=
  mkStatus workerId (health m) (Z.max 0 (now - stateSince m))
    (eventLoopDelayP99Ms <$> load m) (eventLoopDelayMaxMs <$> load m) (load m ≫= cpuPercent)
    (parseBacklogBytes <$> load m) (executingCommands <$> load m)
    (Z.max 0 (heartbeatGapMs (signals m))) (Z.max 0 <$> oldestCommandAgeMs (signals m)).

(** ** Histories

    An evaluation as the specification sees it: its time and which conditions
    held.  Histories list the latest evaluation first. *)

Definition Evaluation : Type := Z * (WorkerHealthReason -> bool).

(** The time since which [p] has held without interruption. *)

Fixpoint since (p : (WorkerHealthReason -> bool) -> bool) (hist : list Evaluation) : option Z :=
  match hist with
  | [] => None
  | (t, h) :: rest => if p h then Some (default t (since p rest)) else None
  end.

Definition holds (r : WorkerHealthReason) (h : WorkerHealthReason -> bool) : bool := h r.

Definition all_clear (h : WorkerHealthReason -> bool) : bool := negb (existsb h WORKER_HEALTH_REASONS).

(** The uninterrupted run that [since] dates. *)

Definition uninterrupted (p : (WorkerHealthReason -> bool) -> bool) (hist : list Evaluation) (t : Z) : Prop :=
  exists recent first rest, hist = recent ++ (t, first) :: rest
    /\ Forall (fun e => p e.2 = true) recent /\ p first = true
    /\ match rest with [] => True | e :: _ => p e.2 = false end.

Lemma since_uninterrupted p hist t : since p hist = Some t -> uninterrupted p hist t.
Proof.
  revert t. induction hist as [|[t0 h] rest IH]; intros t; cbn; [done |].
  destruct (p h) eqn:Hp; [| done]. intros [= E]. destruct (since p rest) as [t1|] eqn:Es; cbn in E; subst t.
  - destruct (IH t1 eq_refl) as (recent & first & old & -> & H1 & H2 & H3).
    exists ((t0, h) :: recent), first, old. split_and!; try done. by constructor.
  - exists [], h, rest. split_and!; try done. destruct rest as [|[t1 h1] rest]; [done |].
    cbn in Es |- *. by destruct (p h1).
Qed.

Lemma uninterrupted_since p hist t : uninterrupted p hist t -> since p hist = Some t.
Proof.
  intros (recent & first & rest & -> & H1 & H2 & H3). induction H1 as [|[t0 h] recent H0 H1 IH]; cbn.
  - rewrite H2. destruct rest as [|[t1 h1] rest]; cbn in *; [done |]. by rewrite H3.
  - cbn in H0. by rewrite H0, IH.
Qed.

Record tracks (start : Z) (hist : list Evaluation) (m : WorkerHealthMonitor) : Prop := mk_tracks {
  t_held : forall r, heldSince m r = since (holds r) hist;
  t_clear : clearSince m = since all_clear (hist ++ [(start, fun _ => false)]);
  t_schema : WorkerHealthSchema (health m) = true;
  t_sorted : reasons m = List.filter (includes (reasons m)) WORKER_HEALTH_REASONS;
}.

Inductive monitored (start : Z) : list Evaluation -> WorkerHealthMonitor -> Prop :=
  | m_new : monitored start [] (newWorkerHealthMonitor start)
  | m_heartbeat hist l m : monitored start hist m -> monitored start hist (heartbeat l m)
  | m_evaluate hist now s m : monitored start hist m ->
      monitored start ((now, holding (load m) s) :: hist) (evaluate now s m).2.

Lemma in_reasons (r : WorkerHealthReason) : r ∈ WORKER_HEALTH_REASONS.
Proof. destruct r; set_solver. Qed.

Lemma includes_filter f r : includes (List.filter f WORKER_HEALTH_REASONS) r = f r.
Proof.
  unfold includes. apply eq_bool_prop_intro. split.
  - intros Hr%Is_true_true%bool_decide_eq_true%list_elem_of_In. apply filter_In in Hr as [_ Hr]. by apply Is_true_true.
  - intros Hr%Is_true_true. apply Is_true_true, bool_decide_eq_true, list_elem_of_In, filter_In.
    split; [by apply list_elem_of_In, in_reasons | done].
Qed.

Lemma filter_sorted f : List.filter f WORKER_HEALTH_REASONS
  = List.filter (includes (List.filter f WORKER_HEALTH_REASONS)) WORKER_HEALTH_REASONS.
Proof. apply List.filter_ext. intros r. by rewrite includes_filter. Qed.

Lemma filter_schema f st : (st = overloaded <-> List.filter f WORKER_HEALTH_REASONS <> []) ->
  WorkerHealthSchema (mkHealth st (List.filter f WORKER_HEALTH_REASONS)) = true.
Proof.
  unfold WORKER_HEALTH_REASONS, WorkerHealthSchema. cbn [List.filter health_reasons health_state].
  destruct (f event_loop_delay), (f heartbeat_gap), (f command_age); destruct st; intros [H1 H2];
    try (vm_compute; reflexivity); exfalso; first [by apply H1 | by discriminate H2].
Qed.

Lemma since_default p (t0 t : Z) hist : since p hist = Some t -> default t0 (since p hist) = t.
Proof. by intros ->. Qed.

Lemma held_next_since start hist m now h r : tracks start hist m ->
  held_next now h m r = since (holds r) ((now, h) :: hist).
Proof.
  intros Ht. unfold held_next. cbn. rewrite (t_held _ _ _ Ht). unfold holds at 2.
  destruct (h r); cbn; [| done]. by destruct (since (holds r) hist).
Qed.

Lemma clear_next_since start hist m now h : tracks start hist m ->
  clear_next now h m = since all_clear (((now, h) :: hist) ++ [(start, fun _ => false)]).
Proof.
  intros Ht. unfold clear_next. cbn [app since]. rewrite (t_clear _ _ _ Ht). unfold all_clear at 2.
  destruct (existsb h WORKER_HEALTH_REASONS); cbn; [done |]. by destruct (since all_clear _).
Qed.

Definition sustained_in (hist : list Evaluation) (now : Z) (r : WorkerHealthReason) : bool :=
  match since (holds r) hist with Some t => OVERLOAD_ENTER_MS <=? now - t | None => false end.

Definition recovered_in (start : Z) (hist : list Evaluation) (now : Z) : bool :=
  match since all_clear (hist ++ [(start, fun _ => false)]) with
  | Some t => OVERLOAD_LEAVE_MS <=? now - t
  | None => false
  end.

(** The reference transition, on the history. *)

Definition next_health (start : Z) (hist : list Evaluation) (now : Z) (h : WorkerHealth) : WorkerHealth :=
  let sustained := List.filter (sustained_in hist now) WORKER_HEALTH_REASONS in
  match health_state h with
  | normal => match sustained with [] => h | _ => mkHealth overloaded sustained end
  | overloaded =>
     if recovered_in start hist now then mkHealth normal []
     else mkHealth overloaded
            (List.filter (fun r => includes (health_reasons h) r || sustained_in hist now r) WORKER_HEALTH_REASONS)
  end.

Lemma sustained_now_in start hist m now h : tracks start hist m ->
  sustained_now now (held_next now h m)
  = List.filter (sustained_in ((now, h) :: hist) now) WORKER_HEALTH_REASONS.
Proof.
  intros Ht. apply List.filter_ext. intros r. rewrite (held_next_since start hist) by done. unfold sustained_in.
  destruct (since (holds r) _); cbn; [done |]. unfold OVERLOAD_ENTER_MS. lia.
Qed.

(** The accumulated reasons, as the code computes them and as the reference does. *)

Lemma added_reasons rs f :
  List.filter (fun r => includes rs r
    || includes (List.filter (fun r => negb (includes rs r)) (List.filter f WORKER_HEALTH_REASONS)) r) WORKER_HEALTH_REASONS
  = List.filter (fun r => includes rs r || f r) WORKER_HEALTH_REASONS.
Proof.
  apply List.filter_ext. intros r. rewrite filter_filter_b, includes_filter.
  by destruct (includes rs r), (f r).
Qed.

Lemma nothing_added rs f :
  List.filter (fun r => negb (includes rs r)) (List.filter f WORKER_HEALTH_REASONS) = [] ->
  forall r, includes rs r || f r = includes rs r.
Proof.
  rewrite filter_filter_b. intros E r.
  assert (Hr : f r && negb (includes rs r) = false).
  { rewrite <- (includes_filter (fun r => f r && negb (includes rs r))), E. by apply bool_decide_eq_false_2, not_elem_of_nil. }
  by destruct (f r), (includes rs r).
Qed.

Lemma evaluate_spec start hist m now s : tracks start hist m ->
  let hist' := (now, holding (load m) s) :: hist in
  let '(out, m') := evaluate now s m in
  (forall r, heldSince m' r = since (holds r) hist')
  /\ clearSince m' = since all_clear (hist' ++ [(start, fun _ => false)])
  /\ health m' = next_health start hist' now (health m)
  /\ out = (if decide (health m' = health m) then None else Some (health m')).
Proof.
  intros Ht hist'. pose proof (held_next_since start hist m now (holding (load m) s)) as Hh.
  pose proof (clear_next_since start hist m now (holding (load m) s) Ht) as Hc.
  unfold evaluate. rewrite (sustained_now_in start hist) by done. fold hist' in Hh, Hc |- *.
  unfold next_health, health. cbn [health_state health_reasons]. destruct (state m) eqn:Est.
  - destruct (List.filter (sustained_in hist' now) _) eqn:Es; cbn [heldSince clearSince state reasons].
    + split_and!; auto; case_decide; congruence.
    + split_and!; auto; case_decide; congruence.
  - assert (Hrec : match clear_next now (holding (load m) s) m with
        Some t => OVERLOAD_LEAVE_MS <=? now - t | None => false end = recovered_in start hist' now)
      by (unfold recovered_in; by rewrite Hc).
    rewrite Hrec. destruct (recovered_in start hist' now).
    { cbn [heldSince clearSince state reasons]. split_and!; auto; case_decide; congruence. }
    set (added := List.filter _ (List.filter _ _)).
    destruct added as [|r0 l] eqn:Ead; subst added.
    + cbn [heldSince clearSince state reasons]. split_and!; auto.
      * rewrite (t_sorted _ _ _ Ht) at 1. f_equal. apply List.filter_ext. intros r. by rewrite (nothing_added _ _ Ead).
      * by rewrite decide_True.
    + cbn [heldSince clearSince state reasons]. rewrite <- Ead, added_reasons. split_and!; auto.
      rewrite decide_False; [done |]. intros Hrs%(f_equal health_reasons). cbn [health_reasons] in Hrs.
      assert (Hr0 : r0 ∈ r0 :: l) by left. rewrite <- Ead in Hr0.
      apply list_elem_of_In, filter_In in Hr0 as [Hf Hn]. apply filter_In in Hf as [_ Hf].
      assert (Hx : includes (reasons m) r0 = true) by (rewrite <- Hrs, includes_filter, Hf; apply orb_true_r).
      by rewrite Hx in Hn.
Qed.

Lemma next_health_wf start hist now h : WorkerHealthSchema h = true ->
  health_reasons h = List.filter (includes (health_reasons h)) WORKER_HEALTH_REASONS ->
  WorkerHealthSchema (next_health start hist now h) = true
  /\ health_reasons (next_health start hist now h)
     = List.filter (includes (health_reasons (next_health start hist now h))) WORKER_HEALTH_REASONS.
Proof.
  intros Hsch Hso. unfold next_health. destruct h as [st rs]; cbn [health_state health_reasons] in *. destruct st.
  - destruct (List.filter (sustained_in hist now) _) eqn:E; [done |]. rewrite <- E. split; [| apply filter_sorted].
    apply filter_schema. split; [intros _; by rewrite E | done].
  - case_if; [done |]. split; [| apply filter_sorted]. apply filter_schema. split; [| done]. intros _ E.
    rewrite Hso in Hsch. assert (Hrs : List.filter (includes rs) WORKER_HEALTH_REASONS = []).
    { destruct (List.filter (includes rs) WORKER_HEALTH_REASONS) as [|r l] eqn:Er; [done |]. exfalso.
      assert (Hr : r ∈ List.filter (includes rs) WORKER_HEALTH_REASONS) by (rewrite Er; left).
      apply list_elem_of_In, filter_In in Hr as [Hin Hr]. apply (in_nil (a := r)). rewrite <- E.
      apply filter_In. by rewrite Hr. }
    by rewrite Hrs in Hsch.
Qed.

Lemma monitored_tracks start hist m : monitored start hist m -> tracks start hist m.
Proof.
  induction 1 as [|hist l m _ IH|hist now s m _ IH].
  - by constructor.
  - destruct IH. by constructor.
  - pose proof (evaluate_spec start hist m now s IH) as Hev. cbn zeta in Hev.
    destruct (evaluate now s m) as [out m']. destruct Hev as (H1 & H2 & H3 & _). cbn [snd].
    destruct (next_health_wf start ((now, holding (load m) s) :: hist) now (health m)) as [H4 H5];
      [apply IH | apply IH |]. rewrite <- H3 in H4, H5. by constructor.
Qed.

(** ** Properties *)

(** The monitor, which keeps two timestamps, computes the reference
    transition on the whole history of evaluations: it reports a change exactly
    when the health changes, and the health it reports always satisfies the wire
    schema. *)
Theorem monitor_refines_history (start now : Z) (hist : list Evaluation) (m : WorkerHealthMonitor) (s : HealthSignals) :
  monitored start hist m ->
  let hist' := (now, holding (load m) s) :: hist in
  let '(out, m') := evaluate now s m in
  health m' = next_health start hist' now (health m)
  /\ out = (if decide (health m' = health m) then None else Some (health m'))
  /\ WorkerHealthSchema (health m') = true.
Proof.
  intros Hm hist'. pose proof (monitored_tracks _ _ _ Hm) as Ht.
  pose proof (evaluate_spec start hist m now s Ht) as Hev. cbn zeta in Hev. fold hist' in Hev.
  pose proof (monitored_tracks _ _ _ (m_evaluate start hist now s m Hm)) as Ht'.
  destruct (evaluate now s m) as [out m']. destruct Hev as (_ & _ & H3 & H4). split_and!; [done | done |].
  exact (t_schema _ _ _ Ht').
Qed.

(** Hysteresis.  A normal worker becomes overloaded only after some
    condition held at every evaluation of at least [OVERLOAD_ENTER_MS], and an
    overloaded one becomes normal only after no condition held at any evaluation
    of at least [OVERLOAD_LEAVE_MS]. *)
Theorem health_hysteresis (start now : Z) (hist : list Evaluation) (m : WorkerHealthMonitor) (s : HealthSignals) :
  monitored start hist m ->
  let hist' := (now, holding (load m) s) :: hist in
  let m' := (evaluate now s m).2 in
  (state m = normal ->
     (state m' = overloaded <->
      exists r t, uninterrupted (holds r) hist' t /\ OVERLOAD_ENTER_MS <= now - t))
  /\ (state m = overloaded ->
     (state m' = normal <->
      exists t, uninterrupted all_clear (hist' ++ [(start, fun _ => false)]) t /\ OVERLOAD_LEAVE_MS <= now - t)).
Proof.
  intros Hm hist' m'. pose proof (evaluate_spec start hist m now s (monitored_tracks _ _ _ Hm)) as Hev.
  cbn zeta in Hev. fold hist' in Hev. subst m'. destruct (evaluate now s m) as [out m'].
  destruct Hev as (_ & _ & Hh & _). cbn [snd].
  assert (Hst : state m' = health_state (next_health start hist' now (health m))) by (rewrite <- Hh; done).
  rewrite Hst. unfold next_health. cbn [health_state health]. split; intros Est; rewrite Est.
  - destruct (List.filter (sustained_in hist' now) WORKER_HEALTH_REASONS) as [|r l] eqn:E; cbn [health_state health].
    + split; [by rewrite Est |]. intros (r & t & Hu & Hle). exfalso.
      assert (Hr : includes [] r = sustained_in hist' now r) by (rewrite <- E; apply includes_filter).
      unfold sustained_in in Hr. rewrite (uninterrupted_since _ _ _ Hu) in Hr.
      unfold includes in Hr. rewrite bool_decide_eq_false_2 in Hr by apply not_elem_of_nil. lia.
    + split; [intros _ | done]. assert (Hr : r ∈ r :: l) by left. rewrite <- E in Hr.
      apply list_elem_of_In, filter_In in Hr as [_ Hr]. unfold sustained_in in Hr.
      destruct (since (holds r) hist') as [t|] eqn:Es; [| done]. exists r, t.
      split; [by apply since_uninterrupted | lia].
  - unfold recovered_in. split.
    + destruct (since all_clear _) as [t|] eqn:Es; [| done]. case_if; [| done]. intros _. exists t.
      split; [by apply since_uninterrupted | lia].
    + intros (t & Hu & Hle). erewrite (uninterrupted_since all_clear) by exact Hu. case_if; [done | lia].
Qed.

(** A worker whose heartbeat gap stays above the threshold for five seconds. *)

Definition demo_monitor : WorkerHealthMonitor := (evaluate 1000 (mkSignals 4000 None) (newWorkerHealthMonitor 0)).2.

Lemma demo_monitored : monitored 0 [(1000, holding None (mkSignals 4000 None))] demo_monitor.
Proof. exact (m_evaluate 0 [] 1000 (mkSignals 4000 None) _ (m_new 0)). Qed.

Lemma monitor_refines_history_witness :
  (evaluate 6000 (mkSignals 9000 None) demo_monitor).1 = Some (mkHealth overloaded [heartbeat_gap])
  /\ WorkerHealthSchema (health (evaluate 6000 (mkSignals 9000 None) demo_monitor).2) = true.
Proof.
  split; [vm_compute; reflexivity |].
  pose proof (monitor_refines_history 0 6000 _ demo_monitor (mkSignals 9000 None) demo_monitored) as H.
  cbv zeta in H. destruct (evaluate 6000 (mkSignals 9000 None) demo_monitor) as [out m']. apply H.
Defined.

Lemma health_hysteresis_witness :
  state demo_monitor = normal
  /\ exists r t, uninterrupted (holds r)
       [(6000, holding None (mkSignals 9000 None)); (1000, holding None (mkSignals 4000 None))] t
     /\ OVERLOAD_ENTER_MS <= 6000 - t.
Proof.
  split; [vm_compute; reflexivity |].
  destruct (health_hysteresis 0 6000 _ demo_monitor (mkSignals 9000 None) demo_monitored) as [H _].
  apply H; vm_compute; reflexivity.
Defined.
