(* ===== verification/Errors.v ===== *)
(** * Domain errors (packages/protocol/src/errors.ts)

    Every refusal carries a kind with a fixed code, message and next action.
    [domainError] is the only constructor the code uses; [None] is its throw.
    An object with an unknown member set is the record of its known members. *)

From S2P Require Import Prelude Json Protocol.

Inductive DomainErrorKind :=
  | UNAUTHENTICATED | FORBIDDEN | BOOTSTRAP_UNSUPPORTED | PROTOCOL_MISMATCH | INSTANCE_MISMATCH
  | CAPABILITY_UNAVAILABLE | PROFILE_UNSUPPORTED | RUN_NOT_FOUND | STALE_CONNECTION
  | STALE_CONTROL | INVALID_SIZE | RESYNC_REQUIRED | RECOVERY_EXPIRED | RECOVERY_UNAVAILABLE
  | BUSY | OPERATION_ID_CONFLICT | OPERATION_NOT_FOUND | INPUT_REJECTED | RESULT_UNKNOWN
  | WORKER_UNAVAILABLE | COUNTER_EXHAUSTED | INVALID_ARGUMENT | REVISION_CONFLICT
  | REPO_NOT_FOUND | TASK_NOT_FOUND | MOUNT_NOT_FOUND | TAB_NOT_FOUND | NOT_A_GIT_REPOSITORY
  | BARE_REPOSITORY | REPO_ALREADY_REGISTERED | MANAGED_WORKTREE_NOT_MOUNTABLE
  | MOUNT_NAME_CONFLICT | TASK_ARCHIVED | BRANCH_EXISTS | FETCH_FAILED | MAIN_BRANCH_UNRESOLVED
  | LIVE_RUNS_PRESENT | OPERATION_NOT_RESUMABLE | OPERATION_EFFECTS_ACTIVE | GIT_UNAVAILABLE
  | REPO_IN_USE | WORKSPACE_ENTRY_UNAVAILABLE | DEVICE_REVOKED | INVITATION_UNAVAILABLE
  | INVITATION_NOT_FOUND | DEVICE_NOT_FOUND | SERVER_ID_MISMATCH | PEER_IDENTITY_MISMATCH
  | ENTRY_UNAVAILABLE | OPERATION_HISTORY_EXPIRED | TSNET_LOGIN_FAILED | TSNET_IDENTITY_CHANGED
  | TSNET_LOGIN_UNCERTAIN | CONTROL_HELD.

#[export] Instance DomainErrorKind_eq : EqDecision DomainErrorKind.
Proof. solve_decision. Defined.

Definition DOMAIN_ERROR_KINDS : list DomainErrorKind :=
  [
   UNAUTHENTICATED; FORBIDDEN; BOOTSTRAP_UNSUPPORTED; PROTOCOL_MISMATCH; INSTANCE_MISMATCH;
   CAPABILITY_UNAVAILABLE; PROFILE_UNSUPPORTED; RUN_NOT_FOUND; STALE_CONNECTION; STALE_CONTROL;
   INVALID_SIZE; RESYNC_REQUIRED; RECOVERY_EXPIRED; RECOVERY_UNAVAILABLE; BUSY;
   OPERATION_ID_CONFLICT; OPERATION_NOT_FOUND; INPUT_REJECTED; RESULT_UNKNOWN;
   WORKER_UNAVAILABLE; COUNTER_EXHAUSTED; INVALID_ARGUMENT; REVISION_CONFLICT; REPO_NOT_FOUND;
   TASK_NOT_FOUND; MOUNT_NOT_FOUND; TAB_NOT_FOUND; NOT_A_GIT_REPOSITORY; BARE_REPOSITORY;
   REPO_ALREADY_REGISTERED; MANAGED_WORKTREE_NOT_MOUNTABLE; MOUNT_NAME_CONFLICT; TASK_ARCHIVED;
   BRANCH_EXISTS; FETCH_FAILED; MAIN_BRANCH_UNRESOLVED; LIVE_RUNS_PRESENT;
   OPERATION_NOT_RESUMABLE; OPERATION_EFFECTS_ACTIVE; GIT_UNAVAILABLE; REPO_IN_USE;
   WORKSPACE_ENTRY_UNAVAILABLE; DEVICE_REVOKED; INVITATION_UNAVAILABLE; INVITATION_NOT_FOUND;
   DEVICE_NOT_FOUND; SERVER_ID_MISMATCH; PEER_IDENTITY_MISMATCH; ENTRY_UNAVAILABLE;
   OPERATION_HISTORY_EXPIRED; TSNET_LOGIN_FAILED; TSNET_IDENTITY_CHANGED;
   TSNET_LOGIN_UNCERTAIN; CONTROL_HELD].

Definition kind_name (kind : DomainErrorKind) : string :=
  match kind with
  | UNAUTHENTICATED => "UNAUTHENTICATED"
  | FORBIDDEN => "FORBIDDEN"
  | BOOTSTRAP_UNSUPPORTED => "BOOTSTRAP_UNSUPPORTED"
  | PROTOCOL_MISMATCH => "PROTOCOL_MISMATCH"
  | INSTANCE_MISMATCH => "INSTANCE_MISMATCH"
  | CAPABILITY_UNAVAILABLE => "CAPABILITY_UNAVAILABLE"
  | PROFILE_UNSUPPORTED => "PROFILE_UNSUPPORTED"
  | RUN_NOT_FOUND => "RUN_NOT_FOUND"
  | STALE_CONNECTION => "STALE_CONNECTION"
  | STALE_CONTROL => "STALE_CONTROL"
  | INVALID_SIZE => "INVALID_SIZE"
  | RESYNC_REQUIRED => "RESYNC_REQUIRED"
  | RECOVERY_EXPIRED => "RECOVERY_EXPIRED"
  | RECOVERY_UNAVAILABLE => "RECOVERY_UNAVAILABLE"
  | BUSY => "BUSY"
  | OPERATION_ID_CONFLICT => "OPERATION_ID_CONFLICT"
  | OPERATION_NOT_FOUND => "OPERATION_NOT_FOUND"
  | INPUT_REJECTED => "INPUT_REJECTED"
  | RESULT_UNKNOWN => "RESULT_UNKNOWN"
  | WORKER_UNAVAILABLE => "WORKER_UNAVAILABLE"
  | COUNTER_EXHAUSTED => "COUNTER_EXHAUSTED"
  | INVALID_ARGUMENT => "INVALID_ARGUMENT"
  | REVISION_CONFLICT => "REVISION_CONFLICT"
  | REPO_NOT_FOUND => "REPO_NOT_FOUND"
  | TASK_NOT_FOUND => "TASK_NOT_FOUND"
  | MOUNT_NOT_FOUND => "MOUNT_NOT_FOUND"
  | TAB_NOT_FOUND => "TAB_NOT_FOUND"
  | NOT_A_GIT_REPOSITORY => "NOT_A_GIT_REPOSITORY"
  | BARE_REPOSITORY => "BARE_REPOSITORY"
  | REPO_ALREADY_REGISTERED => "REPO_ALREADY_REGISTERED"
  | MANAGED_WORKTREE_NOT_MOUNTABLE => "MANAGED_WORKTREE_NOT_MOUNTABLE"
  | MOUNT_NAME_CONFLICT => "MOUNT_NAME_CONFLICT"
  | TASK_ARCHIVED => "TASK_ARCHIVED"
  | BRANCH_EXISTS => "BRANCH_EXISTS"
  | FETCH_FAILED => "FETCH_FAILED"
  | MAIN_BRANCH_UNRESOLVED => "MAIN_BRANCH_UNRESOLVED"
  | LIVE_RUNS_PRESENT => "LIVE_RUNS_PRESENT"
  | OPERATION_NOT_RESUMABLE => "OPERATION_NOT_RESUMABLE"
  | OPERATION_EFFECTS_ACTIVE => "OPERATION_EFFECTS_ACTIVE"
  | GIT_UNAVAILABLE => "GIT_UNAVAILABLE"
  | REPO_IN_USE => "REPO_IN_USE"
  | WORKSPACE_ENTRY_UNAVAILABLE => "WORKSPACE_ENTRY_UNAVAILABLE"
  | DEVICE_REVOKED => "DEVICE_REVOKED"
  | INVITATION_UNAVAILABLE => "INVITATION_UNAVAILABLE"
  | INVITATION_NOT_FOUND => "INVITATION_NOT_FOUND"
  | DEVICE_NOT_FOUND => "DEVICE_NOT_FOUND"
  | SERVER_ID_MISMATCH => "SERVER_ID_MISMATCH"
  | PEER_IDENTITY_MISMATCH => "PEER_IDENTITY_MISMATCH"
  | ENTRY_UNAVAILABLE => "ENTRY_UNAVAILABLE"
  | OPERATION_HISTORY_EXPIRED => "OPERATION_HISTORY_EXPIRED"
  | TSNET_LOGIN_FAILED => "TSNET_LOGIN_FAILED"
  | TSNET_IDENTITY_CHANGED => "TSNET_IDENTITY_CHANGED"
  | TSNET_LOGIN_UNCERTAIN => "TSNET_LOGIN_UNCERTAIN"
  | CONTROL_HELD => "CONTROL_HELD"
  end.

Fixpoint index_of (kind : DomainErrorKind) (l : list DomainErrorKind) : Z :=
  match l with
  | [] => 0
  | k :: rest => if decide (k = kind) then 0 else 1 + index_of kind rest
  end.

(** [ERROR_CODES[kind]]: 1000 plus the position in the list. *)

Definition ERROR_CODES (kind : DomainErrorKind) : Z := 1000 + index_of kind DOMAIN_ERROR_KINDS.

Inductive Acceptance := acc_not_accepted | acc_accepted | acc_unknown.

#[export] Instance Acceptance_eq : EqDecision Acceptance.
Proof. solve_decision. Defined.

Inductive NextAction :=
  | next_none | next_reauthenticate | next_renegotiate | next_refresh_control | next_new_subscription
  | next_query_operation | next_inspect_run | next_refresh_resource | next_fix_request.

#[export] Instance NextAction_eq : EqDecision NextAction.
Proof. solve_decision. Defined.

Definition DomainErrorDetailsSchema (runs : list RunRef) : bool :=
  (1 <=? zlen runs) && (zlen runs <=? 128) && forallb RunRefSchema runs.

Definition kindsWithDetails (kind : DomainErrorKind) : bool := bool_decide (kind = LIVE_RUNS_PRESENT).

(** [subject] is the literal ["input"] or absent; [details] holds the blocking runs. *)

Record DomainError := mkError {
  err_kind : DomainErrorKind; err_code : Z; err_message : string; err_acceptance : Acceptance;
  err_nextAction : NextAction; err_subject : bool; err_details : option (list RunRef);
}.

#[export] Instance DomainError_eq : EqDecision DomainError.
Proof. solve_decision. Defined.

Definition actions (kind : DomainErrorKind) : NextAction :=
  match kind with
  | UNAUTHENTICATED => next_reauthenticate
  | FORBIDDEN => next_none
  | BOOTSTRAP_UNSUPPORTED => next_renegotiate
  | PROTOCOL_MISMATCH => next_renegotiate
  | INSTANCE_MISMATCH => next_inspect_run
  | CAPABILITY_UNAVAILABLE => next_renegotiate
  | PROFILE_UNSUPPORTED => next_renegotiate
  | RUN_NOT_FOUND => next_inspect_run
  | STALE_CONNECTION => next_new_subscription
  | STALE_CONTROL => next_refresh_control
  | INVALID_SIZE => next_none
  | RESYNC_REQUIRED => next_new_subscription
  | RECOVERY_EXPIRED => next_new_subscription
  | RECOVERY_UNAVAILABLE => next_inspect_run
  | BUSY => next_none
  | OPERATION_ID_CONFLICT => next_query_operation
  | OPERATION_NOT_FOUND => next_query_operation
  | INPUT_REJECTED => next_refresh_control
  | RESULT_UNKNOWN => next_query_operation
  | WORKER_UNAVAILABLE => next_inspect_run
  | COUNTER_EXHAUSTED => next_new_subscription
  | INVALID_ARGUMENT => next_fix_request
  | REVISION_CONFLICT => next_refresh_resource
  | REPO_NOT_FOUND => next_refresh_resource
  | TASK_NOT_FOUND => next_refresh_resource
  | MOUNT_NOT_FOUND => next_refresh_resource
  | TAB_NOT_FOUND => next_refresh_resource
  | NOT_A_GIT_REPOSITORY => next_fix_request
  | BARE_REPOSITORY => next_fix_request
  | REPO_ALREADY_REGISTERED => next_refresh_resource
  | MANAGED_WORKTREE_NOT_MOUNTABLE => next_fix_request
  | MOUNT_NAME_CONFLICT => next_fix_request
  | TASK_ARCHIVED => next_refresh_resource
  | BRANCH_EXISTS => next_fix_request
  | FETCH_FAILED => next_fix_request
  | MAIN_BRANCH_UNRESOLVED => next_fix_request
  | LIVE_RUNS_PRESENT => next_inspect_run
  | OPERATION_NOT_RESUMABLE => next_query_operation
  | OPERATION_EFFECTS_ACTIVE => next_query_operation
  | GIT_UNAVAILABLE => next_none
  | REPO_IN_USE => next_fix_request
  | WORKSPACE_ENTRY_UNAVAILABLE => next_none
  | DEVICE_REVOKED => next_reauthenticate
  | INVITATION_UNAVAILABLE => next_none
  | INVITATION_NOT_FOUND => next_refresh_resource
  | DEVICE_NOT_FOUND => next_refresh_resource
  | SERVER_ID_MISMATCH => next_none
  | PEER_IDENTITY_MISMATCH => next_none
  | ENTRY_UNAVAILABLE => next_none
  | OPERATION_HISTORY_EXPIRED => next_refresh_resource
  | TSNET_LOGIN_FAILED => next_fix_request
  | TSNET_IDENTITY_CHANGED => next_none
  | TSNET_LOGIN_UNCERTAIN => next_none
  | CONTROL_HELD => next_refresh_control
  end.

Definition DomainErrorFieldsSchema (e : DomainError) : bool :=
  (1000 <=? err_code e) && (err_code e <=? 1000 + zlen DOMAIN_ERROR_KINDS - 1)
  && (slen (err_message e) <=? 256) && optional_ok DomainErrorDetailsSchema (err_details e).

(** [kind.replaceAll("_", " ")]. *)

Fixpoint underscores_to_spaces (s : string) : string :=
  match s with
  | EmptyString => EmptyString
  | String c rest =>
     String (if (Ascii.nat_of_ascii c =? 95)%nat then Ascii.ascii_of_nat 32 else c) (underscores_to_spaces rest)
  end.

Definition DomainErrorSchema (e : DomainError) : bool :=
  DomainErrorFieldsSchema e
  && (err_code e =? ERROR_CODES (err_kind e))
  && seqb (err_message e) (underscores_to_spaces (kind_name (err_kind e)))
  && (negb (err_subject e) || bool_decide (err_kind e = RESULT_UNKNOWN) && bool_decide (err_acceptance e = acc_unknown))
  && bool_decide (err_nextAction e = if err_subject e then next_inspect_run else actions (err_kind e))
  && match err_details e with None => true | Some _ => kindsWithDetails (err_kind e) end.

(** The object [domainError] returns. *)

Definition error_object (kind : DomainErrorKind) (acceptance : Acceptance) (subject : bool)
    (details : option (list RunRef)) : DomainError :=
  {| err_kind := kind; err_code := ERROR_CODES kind; err_message := underscores_to_spaces (kind_name kind);
     err_acceptance := acceptance; err_nextAction := if subject then next_inspect_run else actions kind;
     err_subject := subject; err_details := details |}.

Definition domainError (kind : DomainErrorKind) (acceptance : Acceptance) (subject : bool)
    (details : option (list RunRef)) : option DomainError :=
  if subject && (negb (bool_decide (kind = RESULT_UNKNOWN)) || negb (bool_decide (acceptance = acc_unknown))) then None
  else match details with
       | Some runs =>
          if negb (kindsWithDetails kind) || negb (DomainErrorDetailsSchema runs) then None
          else Some (error_object kind acceptance subject details)
       | None => Some (error_object kind acceptance subject None)
       end.

(** [domainError(kind)] with the defaults of its other parameters; it never throws. *)

Definition domainErrorOf (kind : DomainErrorKind) : DomainError := error_object kind acc_not_accepted false None.

(** ** WebSocket close codes *)

Definition WS_CLOSE_protocol : Z := 1002.
Definition WS_CLOSE_policy : Z := 1008.
Definition WS_CLOSE_size : Z := 1009.
Definition WS_CLOSE_capacity : Z := 1013.

Definition closeCodeForError (kind : DomainErrorKind) : Z :=
  match kind with
  | UNAUTHENTICATED | FORBIDDEN | DEVICE_REVOKED => WS_CLOSE_policy
  | BUSY | WORKER_UNAVAILABLE => WS_CLOSE_capacity
  | _ => WS_CLOSE_protocol
  end.

(** ** Properties *)

Lemma kinds_complete kind : kind ∈ DOMAIN_ERROR_KINDS.
Proof. destruct kind; apply (bool_decide_eq_true_1 _); vm_compute; reflexivity. Qed.

Lemma index_of_lookup kind l : kind ∈ l -> l !! Z.to_nat (index_of kind l) = Some kind /\ 0 <= index_of kind l < zlen l.
Proof.
  induction l as [|k l IH]; [by intros ?%elem_of_nil |]. cbn [index_of]. rewrite zlen_cons. pose proof (zlen_nonneg l).
  case_decide as E; [subst k; split; [done | lia] |]. intros [->|Hin]%elem_of_cons; [done |].
  destruct (IH Hin) as [Hl Hb]. split; [| lia].
  replace (Z.to_nat (1 + index_of kind l)) with (S (Z.to_nat (index_of kind l))) by lia. done.
Qed.

(** Codes tell kinds apart. *)

Lemma codes_injective k k' : ERROR_CODES k = ERROR_CODES k' -> k = k'.
Proof.
  intros E. unfold ERROR_CODES in E. destruct (index_of_lookup k _ (kinds_complete k)) as [Hk _].
  destruct (index_of_lookup k' _ (kinds_complete k')) as [Hk' _].
  replace (index_of k' DOMAIN_ERROR_KINDS) with (index_of k DOMAIN_ERROR_KINDS) in Hk' by lia. congruence.
Qed.

Lemma domainErrorOf_defaults kind : domainError kind acc_not_accepted false None = Some (domainErrorOf kind).
Proof. reflexivity. Qed.

Lemma error_fields kind acceptance subject details :
  optional_ok DomainErrorDetailsSchema details = true ->
  DomainErrorFieldsSchema (error_object kind acceptance subject details) = true.
Proof.
  intros Hd. unfold DomainErrorFieldsSchema, error_object. cbn [err_code err_message err_details]. rewrite Hd, andb_true_r.
  destruct (index_of_lookup kind _ (kinds_complete kind)) as [_ Hb]. unfold ERROR_CODES.
  rewrite !andb_true_iff. split_and!; try (apply Z.leb_le; lia). by destruct kind.
Qed.

(** Every error the code builds is one the wire schema accepts, with the
    kind, acceptance and subject asked for; what the schema would not accept
    ([None]: an input subject elsewhere than on an unknown result, or details
    of another kind) is never built. *)
Theorem domainError_valid kind acceptance subject details e :
  domainError kind acceptance subject details = Some e ->
  DomainErrorSchema e = true /\ err_kind e = kind /\ err_acceptance e = acceptance /\ err_subject e = subject.
Proof.
  unfold domainError. intros E.
  destruct (subject && _) eqn:Hs; [done |].
  assert (Hobj : e = error_object kind acceptance subject details
      /\ optional_ok DomainErrorDetailsSchema details = true
      /\ match details with None => true | Some _ => kindsWithDetails kind end = true).
  { destruct details as [runs|]; [| by injection E as <-]. destruct (_ || _) eqn:Hr in E; [done |].
    injection E as <-. apply orb_false_iff in Hr as [H1%negb_false_iff H2%negb_false_iff]. done. }
  destruct Hobj as (-> & Hd & Hk). split; [| done]. unfold DomainErrorSchema. rewrite error_fields by done.
  cbn [error_object err_code err_kind err_message err_subject err_acceptance err_nextAction err_details].
  rewrite Z.eqb_refl, seqb_refl, Hk, andb_true_r.
  destruct subject; [| cbn [negb orb andb]; by apply bool_decide_eq_true_2].
  apply orb_false_iff in Hs as [H1%negb_false_iff H2%negb_false_iff]. cbn [negb orb]. by rewrite H1, H2, bool_decide_eq_true_2.
Qed.

Lemma domainError_valid_witness :
  exists e, domainError RESULT_UNKNOWN acc_unknown true None = Some e /\ DomainErrorSchema e = true /\ err_subject e = true.
Proof.
  eexists. split; [reflexivity |].
  destruct (domainError_valid RESULT_UNKNOWN acc_unknown true None _ eq_refl) as (H1 & _ & _ & H2). split; [exact H1 | exact H2].
Defined.
