(* ===== verification/Terminal.v ===== *)
(** * The external terminal lane (packages/protocol/src/terminal-command.ts, terminal.ts)

    Commands, results and errors a client and the server exchange, and the
    validators every frame passes before it is used or sent.  A message is a
    record of its common members and a body with one constructor per type;
    members that are literals of one value (profile, encoding, [detached],
    [status: "written"]) carry no information and are left out.  Untyped
    metadata is its JSON tree together with the message it spells, if it has
    the members of one: reading those members is the schema library's part. *)

From S2P Require Import Prelude Json Protocol Errors Frame.

(** ** Commands, results and errors (terminal-command.ts) *)

Record Resume := mkResume { resume_appliedSeq : Z; resume_geometry : Geometry }.

Inductive RecoverReason := rsn_gap | rsn_released_view | rsn_resize_context | rsn_expired.

Inductive CommandBody :=
  | K_attach (connection : ConnectionRef) (viewId : string) (resume : option Resume)
  | K_detach (s : SubscriptionRef)
  | K_recover (s : SubscriptionRef) (reason : RecoverReason) (resume : option Resume)
  | K_focus (s : SubscriptionRef) (focusSeq : Z) (geometry : Geometry) (appearance : option Appearance)
  | K_blur (s : SubscriptionRef) (epoch : Z)
  | K_resize (s : SubscriptionRef) (epoch : Z) (geometry : Geometry)
  | K_appearance (s : SubscriptionRef) (epoch : Z) (appearance : Appearance)
  | K_input (s : SubscriptionRef) (epoch inputSeq : Z)
  | K_applied_ack (s : SubscriptionRef) (appliedSeq : Z)
  | K_baseline_progress (s : SubscriptionRef) (baselineId : string) (lastParsedOrdinal : Z)
  | K_preview (knownVersion : option Z).

Record TerminalCommand := mkCommand { tc_requestId : string; tc_run : RunRef; tc_body : CommandBody }.

Inductive TerminalCommandType :=
  | t_attach | t_detach | t_recover | t_focus | t_blur | t_resize | t_appearance | t_input | t_applied_ack
  | t_baseline_progress | t_preview.

#[export] Instance TerminalCommandType_eq : EqDecision TerminalCommandType.
Proof. solve_decision. Defined.

Definition command_type (c : TerminalCommand) : TerminalCommandType :=
  match tc_body c with
  | K_attach _ _ _ => t_attach
  | K_detach _ => t_detach
  | K_recover _ _ _ => t_recover
  | K_focus _ _ _ _ => t_focus
  | K_blur _ _ => t_blur
  | K_resize _ _ _ => t_resize
  | K_appearance _ _ _ => t_appearance
  | K_input _ _ _ => t_input
  | K_applied_ack _ _ => t_applied_ack
  | K_baseline_progress _ _ _ => t_baseline_progress
  | K_preview _ => t_preview
  end.

Definition epochSchema (n : Z) : bool := SequenceSchema n && (1 <=? n).

Definition ResumeSchema (r : Resume) : bool := SequenceSchema (resume_appliedSeq r) && GeometrySchema (resume_geometry r).

Definition OrdinalSchema (n : Z) : bool := (0 <=? n) && (n <=? 128).

Definition TerminalCommandSchema (c : TerminalCommand) : bool :=
  OpaqueIdSchema (tc_requestId c) && RunRefSchema (tc_run c)
  && match tc_body c with
     | K_attach conn view resume => ConnectionRefSchema conn && OpaqueIdSchema view && optional_ok ResumeSchema resume
     | K_detach s => SubscriptionRefSchema s
     | K_recover s _ resume => SubscriptionRefSchema s && optional_ok ResumeSchema resume
     | K_focus s seq g a =>
        SubscriptionRefSchema s && epochSchema seq && GeometrySchema g && optional_ok AppearanceSchema a
     | K_blur s e => SubscriptionRefSchema s && epochSchema e
     | K_resize s e g => SubscriptionRefSchema s && epochSchema e && GeometrySchema g
     | K_appearance s e a => SubscriptionRefSchema s && epochSchema e && AppearanceSchema a
     | K_input s e seq => SubscriptionRefSchema s && epochSchema e && epochSchema seq
     | K_applied_ack s seq => SubscriptionRefSchema s && SequenceSchema seq
     | K_baseline_progress s b n => SubscriptionRefSchema s && OpaqueIdSchema b && OrdinalSchema n
     | K_preview v => optional_ok SequenceSchema v
     end.

Inductive RecoveryMode := m_replay | m_baseline.

Inductive PreviewStatus := p_unchanged | p_transfer.

Inductive ResultBody :=
  | R_attach (s : SubscriptionRef) (mode : RecoveryMode) (atSeq : Z)
  | R_detach (s : SubscriptionRef)
  | R_recover (s : SubscriptionRef) (mode : RecoveryMode) (atSeq : Z)
  | R_focus (s : SubscriptionRef) (epoch atSeq : Z)
  | R_blur (s : SubscriptionRef) (epoch atSeq : Z)
  | R_resize (s : SubscriptionRef) (epoch atSeq : Z)
  | R_appearance (s : SubscriptionRef) (epoch atSeq : Z)
  | R_input (s : SubscriptionRef) (epoch inputSeq writtenBytes : Z)
  | R_applied_ack (s : SubscriptionRef) (appliedSeq : Z)
  | R_baseline_progress (s : SubscriptionRef) (baselineId : string) (lastParsedOrdinal : Z)
  | R_preview (status : PreviewStatus) (version : Z) (previewId : option string).

Record TerminalResult := mkResult { tr_requestId : string; tr_run : RunRef; tr_body : ResultBody }.

Definition result_command (r : TerminalResult) : TerminalCommandType :=
  match tr_body r with
  | R_attach _ _ _ => t_attach
  | R_detach _ => t_detach
  | R_recover _ _ _ => t_recover
  | R_focus _ _ _ => t_focus
  | R_blur _ _ _ => t_blur
  | R_resize _ _ _ => t_resize
  | R_appearance _ _ _ => t_appearance
  | R_input _ _ _ _ => t_input
  | R_applied_ack _ _ => t_applied_ack
  | R_baseline_progress _ _ _ => t_baseline_progress
  | R_preview _ _ _ => t_preview
  end.

Definition TerminalResultSchema (r : TerminalResult) : bool :=
  OpaqueIdSchema (tr_requestId r) && RunRefSchema (tr_run r)
  && match tr_body r with
     | R_attach s _ q | R_recover s _ q => SubscriptionRefSchema s && SequenceSchema q
     | R_detach s => SubscriptionRefSchema s
     | R_focus s e q | R_blur s e q | R_resize s e q | R_appearance s e q =>
        SubscriptionRefSchema s && epochSchema e && SequenceSchema q
     | R_input s e q n => SubscriptionRefSchema s && epochSchema e && epochSchema q && (1 <=? n) && (n <=? 65536)
     | R_applied_ack s q => SubscriptionRefSchema s && SequenceSchema q
     | R_baseline_progress s b n => SubscriptionRefSchema s && OpaqueIdSchema b && OrdinalSchema n
     | R_preview _ v p => SequenceSchema v && optional_ok OpaqueIdSchema p
     end.

Record TerminalError := mkTerminalError {
  te_requestId : string; te_run : RunRef; te_commandType : TerminalCommandType; te_error : DomainError;
}.

Definition TerminalErrorSchema (e : TerminalError) : bool :=
  OpaqueIdSchema (te_requestId e) && RunRefSchema (te_run e) && DomainErrorSchema (te_error e).

(** ** Event schemas (terminal-events.ts) *)

Definition PreviewStartSchema (p : PreviewStart) : bool :=
  RunRefSchema (ps_run p) && OpaqueIdSchema (ps_previewId p) && SequenceSchema (ps_version p)
  && SequenceSchema (ps_atSeq p) && GeometrySchema (ps_geometry p) && SequenceSchema (ps_generatedAtMs p)
  && (1 <=? ps_vtBytes p) && (ps_vtBytes p <=? 65536) && (ps_chunkCount p =? 1).

Definition PreviewChunkSchema (run : RunRef) (previewId : string) (version ordinal : Z) : bool :=
  RunRefSchema run && OpaqueIdSchema previewId && SequenceSchema version && (ordinal =? 0).

Definition PreviewEndSchema (run : RunRef) (previewId : string) (version totalBytes at_ : Z) : bool :=
  RunRefSchema run && OpaqueIdSchema previewId && SequenceSchema version
  && (1 <=? totalBytes) && (totalBytes <=? 65536) && SequenceSchema at_.

Definition TerminalEventSchema (e : TerminalEvent) : bool :=
  match e with
  | TRun e => RunEventSchema e
  | TBaselineStart run d => RunRefSchema run && BaselineDescriptorSchema d
  | TBaselineChunk c => BaselineChunkSchema c
  | TBaselineEnd e => BaselineEndSchema e
  | TPreviewStart p => PreviewStartSchema p
  | TPreviewChunk r i v o => PreviewChunkSchema r i v o
  | TPreviewEnd r i v b q => PreviewEndSchema r i v b q
  end.

Definition ExternalTerminalEventSchema (e : ExternalTerminalEvent) : bool :=
  match e with
  | XRunEvent s e => SubscriptionRefSchema s && RunEventSchema e
  | XBaselineStart run d => RunRefSchema run && BaselineDescriptorSchema d
  | XBaselineChunk c => BaselineChunkSchema c
  | XBaselineEnd e => BaselineEndSchema e
  | XPreviewStart p => PreviewStartSchema p
  | XPreviewChunk r i v o => PreviewChunkSchema r i v o
  | XPreviewEnd r i v b q => PreviewEndSchema r i v b q
  | XWorkerHealth run s h => RunRefSchema run && SubscriptionRefSchema s && WorkerHealthSchema h
  end.

(** ** The bound on untrusted values (terminal.ts)

    A value of JavaScript as the loop looks at it: [typeof], [Number.isFinite],
    and the members of arrays and objects.  The values themselves are a type [R]
    with equality, which is identity for arrays and objects, so an object can be
    a member of itself or of two others. *)

Definition KEY_CHARS : Z := bootstrapBytes M0_LIMITS.

Inductive js_view (R : Type) :=
  | V_number (finite : bool)
  | V_undefined
  | V_function
  | V_other
  | V_array (items : list R)
  | V_object (members : list (string * R)).

Arguments V_number {R}.
Arguments V_undefined {R}.
Arguments V_function {R}.
Arguments V_other {R}.
Arguments V_array {R}.
Arguments V_object {R}.

Section bounded.
Context {R : Type} `{EqDecision R} (look : R -> js_view R).

(** An entry of the queue: [leave] marks the end of the members of a value. *)

Inductive QueueItem :=
  | Visit (value : R) (depth : Z)
  | Leave (value : R).

(** Pushes the members of an object in order; [None] is the early [false].  The
    head of the list is the end of the queue, where [push] and [pop] work. *)

Fixpoint push_members (members : list (string * R)) (depth tokens : Z) (queue : list QueueItem)
    : option (Z * list QueueItem) :=
  match members with
  | [] => Some (tokens, queue)
  | (key, value) :: rest =>
     if KEY_CHARS <? slen key then None
     else if 4096 <? tokens + 1 then None
     else push_members rest depth (tokens + 1) (Visit value (depth + 1) :: queue)
  end.

(** [active] holds the arrays and objects whose members are being visited. *)

Fixpoint bounded_loop (fuel : nat) (tokens : Z) (active : list R) (queue : list QueueItem) : option bool :=
  match fuel with
  | O => None
  | S fuel =>
     match queue with
     | [] => Some true
     | Leave value :: queue =>
        bounded_loop fuel tokens (List.filter (fun a => negb (bool_decide (a = value))) active) queue
     | Visit value depth :: queue =>
        let tokens := tokens + 1 in
        if (4096 <? tokens) || (16 <? depth) then Some false
        else match look value with
             | V_number finite => if negb finite then Some false else bounded_loop fuel tokens active queue
             | V_undefined | V_function => Some false
             | V_other => bounded_loop fuel tokens active queue
             | V_array items =>
                if bool_decide (value ∈ active) then Some false
                else bounded_loop fuel tokens (value :: active)
                       (foldl (fun q v => Visit v (depth + 1) :: q) (Leave value :: queue) items)
             | V_object members =>
                if bool_decide (value ∈ active) then Some false
                else match push_members members depth tokens (Leave value :: queue) with
                     | None => Some false
                     | Some (tokens, queue) => bounded_loop fuel tokens (value :: active) queue
                     end
             end
     end
  end.

(** A turn counts a token or takes the mark of a value that was counted, so the
    loop ends within 2 * 4097 turns and one more to see the empty queue. *)

Definition boundedJsonStructure (value : R) : option bool := bounded_loop (Z.to_nat 8195) 0 [] [Visit value 0].
End bounded.

Arguments Visit {R}.
Arguments Leave {R}.

(** What [JSON.parse] reads is a tree: no value is a member of itself. *)

Definition json_look (v : json) : js_view json :=
  match v with
  | JNull | JBool _ | JStr _ => V_other
  | JNum _ => V_number true
  | JInf _ => V_number false
  | JArr items => V_array items
  | JObj members => V_object members
  end.

(** ** Frames (terminal.ts) *)

Definition TERMINAL_LANE : Z := 3.

Definition TERMINAL_REVISION : Z := 2.

Inductive TerminalMetadata :=
  | TM_command (c : TerminalCommand)
  | TM_result (r : TerminalResult)
  | TM_event (e : ExternalTerminalEvent)
  | TM_error (e : TerminalError).

Definition is_output (e : RunEvent) : bool := match ev_fact e with output => true | _ => false end.

Definition payloadAllowed (value : TerminalMetadata) (frameClass payloadBytes : Z) : bool :=
  match value with
  | TM_command (mkCommand _ _ (K_input _ _ _)) =>
     if frameClass =? 1 then 1 <=? payloadBytes else payloadBytes =? 0
  | TM_event (XBaselineChunk _) | TM_event (XPreviewChunk _ _ _ _) =>
     if frameClass =? 3 then 1 <=? payloadBytes else payloadBytes =? 0
  | TM_event (XRunEvent _ e) =>
     if (frameClass =? 3) && is_output e then 1 <=? payloadBytes else payloadBytes =? 0
  | _ => payloadBytes =? 0
  end.

(** The members [run] and [subscription] of a message, where it has them. *)

Definition metadata_run (value : TerminalMetadata) : option RunRef :=
  match value with
  | TM_command c => Some (tc_run c)
  | TM_result r => Some (tr_run r)
  | TM_error e => Some (te_run e)
  | TM_event (XRunEvent _ _) => None
  | TM_event (XBaselineStart run _) | TM_event (XWorkerHealth run _ _) => Some run
  | TM_event (XBaselineChunk c) => Some (bch_run c)
  | TM_event (XBaselineEnd e) => Some (be_run e)
  | TM_event (XPreviewStart p) => Some (ps_run p)
  | TM_event (XPreviewChunk run _ _ _) | TM_event (XPreviewEnd run _ _ _ _) => Some run
  end.

Definition command_subscription (c : TerminalCommand) : option SubscriptionRef :=
  match tc_body c with
  | K_attach _ _ _ | K_preview _ => None
  | K_detach s | K_recover s _ _ | K_focus s _ _ _ | K_blur s _ | K_resize s _ _ | K_appearance s _ _
  | K_input s _ _ | K_applied_ack s _ | K_baseline_progress s _ _ => Some s
  end.

Definition result_subscription (r : TerminalResult) : option SubscriptionRef :=
  match tr_body r with
  | R_preview _ _ _ => None
  | R_attach s _ _ | R_detach s | R_recover s _ _ | R_focus s _ _ | R_blur s _ _ | R_resize s _ _
  | R_appearance s _ _ | R_input s _ _ _ | R_applied_ack s _ | R_baseline_progress s _ _ => Some s
  end.

Definition metadata_subscription (value : TerminalMetadata) : option SubscriptionRef :=
  match value with
  | TM_command c => command_subscription c
  | TM_result r => result_subscription r
  | TM_event (XRunEvent s _) | TM_event (XWorkerHealth _ s _) => Some s
  | TM_event (XBaselineChunk c) => Some (bch_subscription c)
  | TM_event (XBaselineEnd e) => Some (be_subscription e)
  | _ => None
  end.

Definition command_appearance (c : TerminalCommand) : option Appearance :=
  match tc_body c with
  | K_focus _ _ _ a => a
  | K_appearance _ _ a => Some a
  | _ => None
  end.

Definition valid_appearance (a : Appearance) : bool := match validateAppearance a with Some _ => true | None => false end.

Definition valid_descriptor (d : BaselineDescriptor) : bool :=
  match validateBaselineDescriptor d (historyLines M0_LIMITS) with Some _ => true | None => false end.

(** An error message of the lane: its code is its kind's, and exactly an unknown
    input carries the input subject. *)

Definition error_consistent (is_input : bool) (e : DomainError) : bool :=
  (err_code e =? ERROR_CODES (err_kind e))
  && Bool.eqb (is_input && bool_decide (err_kind e = RESULT_UNKNOWN)) (err_subject e).

Definition matchingRefs (value : TerminalMetadata) (connection : option ConnectionRef) : bool :=
  match metadata_run value, metadata_subscription value with
  | Some run, Some s => sameRunRef run (sub_run s)
  | _, _ => true
  end
  && match connection, metadata_subscription value with
     | Some c, Some s => sameConnectionRef (sub_connection s) c
     | _, _ => true
     end
  && match value with
     | TM_event e =>
        (negb (bool_decide (is_Some (externalEventSubscription e))) || bool_decide (is_Some connection))
        && match e with
           | XBaselineStart _ d => valid_descriptor d
           | XRunEvent _ (mkRunEvent _ _ (appearance a)) => valid_appearance a
           | _ => true
           end
        && validateExternalEventBinding e connection
     | TM_command c => optional_ok valid_appearance (command_appearance c)
     | TM_error e => error_consistent (bool_decide (te_commandType e = t_input)) (te_error e)
     | TM_result _ => true
     end.

(** The schema a frame's class selects. *)

Definition class_schema (kind : Z) (value : TerminalMetadata) : bool :=
  match value with
  | TM_command c => (kind =? 1) && TerminalCommandSchema c
  | TM_result r => (kind =? 2) && TerminalResultSchema r
  | TM_event e => (kind =? 3) && ExternalTerminalEventSchema e
  | TM_error e => (kind =? 4) && TerminalErrorSchema e
  end.

Definition preview_result_ok (value : TerminalMetadata) : bool :=
  match value with
  | TM_result (mkResult _ _ (R_preview status _ previewId)) =>
     Bool.eqb (match status with p_transfer => true | p_unchanged => false end) (bool_decide (is_Some previewId))
  | _ => true
  end.

(** [frame] is given by its class and the lengths of its two parts; [typed] is
    the message the tree [metadata] spells. *)

Definition validateTerminalFrame (kind metadataBytes payloadBytes : Z) (metadata : json)
    (typed : option TerminalMetadata) (connection : option ConnectionRef) : ProtocolResult TerminalMetadata :=
  if (MAX_METADATA_BYTES <? metadataBytes) || (MAX_PAYLOAD_BYTES <? payloadBytes)
     || negb (bool_decide (boundedJsonStructure json_look metadata = Some true))
  then failure INVALID_METADATA 0
  else match typed with
       | None => failure INVALID_METADATA 0
       | Some value =>
          if negb (class_schema kind value) then failure INVALID_METADATA 0
          else if negb (payloadAllowed value kind payloadBytes) || negb (matchingRefs value connection)
                  || negb (preview_result_ok value)
               then failure INVALID_METADATA 0
          else inr value
       end.

Definition resume_ok (mode : RecoveryMode) (at_ : Z) (resume : option Resume) : bool :=
  match resume with
  | None => match mode with m_replay => false | m_baseline => true end
  | Some r => negb (at_ <? resume_appliedSeq r)
  end.

Definition validateTerminalResultForCommand (command : TerminalCommand) (result : TerminalResult) : bool :=
  bool_decide (result_command result = command_type command)
  && seqb (tr_requestId result) (tc_requestId command)
  && sameRunRef (tr_run result) (tc_run command)
  && match command_subscription command, result_subscription result with
     | Some s, Some s' => sameSubscriptionRef s s'
     | _, _ => true
     end
  && match tc_body command, tr_body result with
     | K_attach conn view resume, R_attach s mode q =>
        sameConnectionRef conn (sub_connection s) && seqb view (sub_viewId s) && resume_ok mode q resume
     | K_recover _ _ resume, R_recover _ mode q => resume_ok mode q resume
     | K_input _ e i, R_input _ e' i' _ => (i' =? i) && (e' =? e)
     | K_blur _ e, R_blur _ e' _ => e' =? e
     | K_resize _ e _, R_resize _ e' _ => e' =? e
     | K_appearance _ e _, R_appearance _ e' _ => e' =? e
     | K_applied_ack _ q, R_applied_ack _ q' => q' =? q
     | K_baseline_progress _ b n, R_baseline_progress _ b' n' => seqb b' b && (n' =? n)
     | _, _ => true
     end.

(** ** The bound, declaratively

    The tokens of the tree a value unfolds to: its values and its member names.
    There is no such tree of the given number of levels when a value lies
    deeper, when a leaf is none of JSON or when a member name is longer than
    8192; so a value that contains itself has none, whatever the number. *)

Definition total (counts : list (option Z)) : option Z :=
  foldr (fun count rest => n ← count; m ← rest; Some (n + m)) (Some 0) counts.

Section tree.
Context {R : Type} `{EqDecision R} (look : R -> js_view R).

Fixpoint tree_tokens (levels : nat) (value : R) : option Z :=
  match levels with
  | O => None
  | S levels =>
     match look value with
     | V_number finite => if finite then Some 1 else None
     | V_undefined | V_function => None
     | V_other => Some 1
     | V_array items => n ← total (map (tree_tokens levels) items); Some (1 + n)
     | V_object members =>
        if forallb (fun kv => slen kv.1 <=? KEY_CHARS) members
        then n ← total (map (tree_tokens levels) members.*2); Some (1 + zlen members + n)
        else None
     end
  end.

(** The members of a value, and the values inside another. *)

Definition members_of (value : R) : list R :=
  match look value with V_array items => items | V_object members => members.*2 | _ => [] end.

Definition inside (v w : R) : Prop := tc (fun v w => w ∈ members_of v) v w.

Definition accepts (tokens : Z) (count : option Z) : bool :=
  match count with Some n => tokens + n <=? 4096 | None => false end.

Definition item_tokens (i : QueueItem) : option Z :=
  match i with Visit v d => tree_tokens (Z.to_nat (17 - d)) v | Leave _ => Some 0 end.

Definition item_value (i : QueueItem) : R := match i with Visit v _ => v | Leave v => v end.

Definition leaving (q : list QueueItem) : list R := omap (fun i => match i with Leave v => Some v | _ => None end) q.

(** Every entry of the queue is a value inside those whose mark comes after it. *)

Fixpoint nested (q : list QueueItem) : Prop :=
  match q with
  | [] => True
  | i :: q => Forall (fun a => inside a (item_value i)) (leaving q) /\ nested q
  end.

Lemma total_cons x l : total (x :: l) = (n ← x; m ← total l; Some (n + m)).
Proof. done. Qed.

Lemma total_perm l k : l ≡ₚ k -> total l = total k.
Proof.
  induction 1 as [|x l k _ IH|x y l|l k m _ IH1 _ IH2]; [done| | |congruence].
  - by rewrite !total_cons, IH.
  - rewrite !total_cons. destruct x, y, (total l); cbn; try done. f_equal. lia.
Qed.

Lemma total_app l k : total (l ++ k) = (n ← total l; m ← total k; Some (n + m)).
Proof.
  induction l as [|x l IH]; [change (total k = (m ← total k; Some (0 + m))); by destruct (total k)|]. cbn [Datatypes.app]. rewrite !total_cons, IH.
  destruct x, (total l), (total k); cbn; try done. f_equal. lia.
Qed.

Lemma total_none l : None ∈ l -> total l = None.
Proof.
  induction l as [|x l IH]; [by intros ?%elem_of_nil|]. rewrite total_cons.
  intros [<- |H]%elem_of_cons; [done|]. rewrite IH by done. by destruct x.
Qed.

Lemma total_map_ge {A} (f : A -> option Z) m l n : 0 <= m -> (forall v k, f v = Some k -> m <= k) ->
  total (map f l) = Some n -> m * zlen l <= n.
Proof.
  intros Hm Hf. revert n. induction l as [|x l IH]; intros n; [intros [= <-]; rewrite zlen_nil; lia|].
  cbn [map]. rewrite total_cons, zlen_cons. destruct (f x) as [a|] eqn:Ea; [|done].
  destruct (total (map f l)) as [b|]; [|done]. cbn. intros [= <-]. specialize (Hf _ _ Ea). specialize (IH b eq_refl). lia.
Qed.

Lemma tree_tokens_pos levels v n : tree_tokens levels v = Some n -> 1 <= n.
Proof.
  revert v n. induction levels as [|k IH]; intros v n; [done|]. cbn [tree_tokens].
  pose proof (fun l m => total_map_ge (tree_tokens k) 1 l m ltac:(lia) IH) as Hg.
  destruct (look v) as [[]| | | |items|members]; intros H; simplify_eq; try lia.
  - destruct (total _) as [m|] eqn:E; [|done]. cbn in H. simplify_eq. pose proof (zlen_nonneg items). specialize (Hg _ _ E). lia.
  - destruct (forallb _ _); [|done]. destruct (total _) as [m|] eqn:E; [|done]. cbn in H. simplify_eq.
    specialize (Hg _ _ E). pose proof (zlen_nonneg members). pose proof (zlen_nonneg members.*2). lia.
Qed.

(** A value has fewer levels than one it is inside of; so one that is inside
    itself has no tree. *)

Lemma tree_tokens_member k v w : w ∈ members_of v -> is_Some (tree_tokens (S k) v) -> is_Some (tree_tokens k w).
Proof.
  unfold members_of. cbn [tree_tokens]. intros Hw Hv.
  assert (Hm : forall l, w ∈ l -> total (map (tree_tokens k) l) <> None -> is_Some (tree_tokens k w)).
  { intros l Hl Hn. destruct (tree_tokens k w) as [x|] eqn:E; [done|]. destruct Hn. apply total_none. rewrite <- E.
    by apply list_elem_of_fmap_2. }
  destruct Hv as [n Hv]. destruct (look v) as [f| | | |items|members]; try by apply elem_of_nil in Hw.
  - apply (Hm _ Hw). intros E. by rewrite E in Hv.
  - destruct (forallb _ _); [|done]. apply (Hm _ Hw). intros E. by rewrite E in Hv.
Qed.

Lemma tree_tokens_inside v w : inside v w -> forall k, is_Some (tree_tokens k v) ->
  exists j, (j < k)%nat /\ is_Some (tree_tokens j w).
Proof.
  intros H. induction H as [v w Hvw|u v w Huv Hvw IH]; intros [|k] Hk; try (by destruct Hk).
  - exists k. split; [lia|by eapply tree_tokens_member].
  - apply (tree_tokens_member k) in Huv; [|done]. destruct (IH k Huv) as (j & Hj & Hs). exists j. split; [lia|done].
Qed.

Lemma cyclic_no_tree v : inside v v -> forall k, tree_tokens k v = None.
Proof.
  intros H k. induction k as [k IH] using (well_founded_induction Nat.lt_wf_0).
  destruct (tree_tokens k v) as [n|] eqn:E; [|done].
  destruct (tree_tokens_inside v v H k) as (j & Hj & Hs); [by eexists|]. rewrite IH in Hs by done. by destruct Hs.
Qed.

(** What pushing members does to the queue. *)

Lemma push_items (items : list R) d q :
  foldl (fun q v => Visit v d :: q) q items = rev (map (fun v => Visit v d) items) ++ q.
Proof.
  revert q. induction items as [|v items IH]; intros q; cbn; [done|]. by rewrite IH, <- (assoc_L (++)).
Qed.

Lemma items_total (items : list R) d q :
  total (map item_tokens (foldl (fun q v => Visit v d :: q) q items))
  = (n ← total (map (tree_tokens (Z.to_nat (17 - d))) items); m ← total (map item_tokens q); Some (n + m)).
Proof.
  rewrite push_items, map_app, total_app. f_equal. rewrite map_rev. rewrite (total_perm _ _ (symmetry (Permutation_rev _))).
  by rewrite map_map.
Qed.

Lemma items_leaving (items : list R) d q : leaving (foldl (fun q v => Visit v d :: q) q items) = leaving q.
Proof. revert q. induction items as [|v items IH]; intros q; cbn [foldl]; [done|]. by rewrite IH. Qed.

Lemma items_nested (items : list R) d q : nested q -> (forall v, v ∈ items -> Forall (fun a => inside a v) (leaving q)) ->
  nested (foldl (fun q v => Visit v d :: q) q items).
Proof.
  revert q. induction items as [|v items IH]; intros q Hq Hi; cbn [foldl]; [done|]. apply IH.
  - split; [|done]. apply Hi. left.
  - intros w Hw. cbn. apply Hi. by right.
Qed.

Lemma push_members_spec (members : list (string * R)) depth t q : t <= 4096 ->
  match push_members members depth t q with
  | Some (t', q') =>
     forallb (fun kv => slen kv.1 <=? KEY_CHARS) members = true /\ t' = t + zlen members /\ t' <= 4096
     /\ q' = foldl (fun q v => Visit v (depth + 1) :: q) q members.*2
  | None => forallb (fun kv => slen kv.1 <=? KEY_CHARS) members = false \/ 4096 < t + zlen members
  end.
Proof.
  revert t q. induction members as [|[k v] members IH]; intros t q Ht; cbn [push_members forallb fst].
  - split_and!; [done | rewrite zlen_nil; lia | lia | done].
  - rewrite zlen_cons. pose proof (zlen_nonneg members).
    destruct (Z.ltb_spec KEY_CHARS (slen k)) as [Hk|Hk].
    { left. by replace (slen k <=? KEY_CHARS) with false by (symmetry; apply Z.leb_gt; lia). }
    replace (slen k <=? KEY_CHARS) with true by (symmetry; apply Z.leb_le; lia).
    destruct (Z.ltb_spec 4096 (t + 1)) as [Hf|Hf]; [right; lia |].
    specialize (IH (t + 1) (Visit v (depth + 1) :: q) ltac:(lia)).
    destruct (push_members members depth (t + 1) _) as [[t' q']|].
    + destruct IH as (H1 & H2 & H3 & H4). split_and!; [done | lia | done | done].
    + destruct IH as [IH|IH]; [left; done | right; lia].
Qed.

Lemma leaving_cons v q : leaving (Leave v :: q) = v :: leaving q.
Proof. done. Qed.

(** Taking a mark empties its place in [active]. *)

Lemma leave_active (v : R) l : v ∉ l -> List.filter (fun a => negb (bool_decide (a = v))) (v :: l) = l.
Proof.
  intros Hv. cbn. rewrite bool_decide_true by done. cbn. apply filter_all. intros a Ha.
  rewrite bool_decide_false; [done|]. by intros ->.
Qed.

(** What is left to do about a container whose members were pushed. *)

Lemma members_nested v d q (items : list R) : items = members_of v ->
  Forall (fun a => inside a v) (leaving q) -> nested q ->
  nested (foldl (fun q v => Visit v d :: q) (Leave v :: q) items).
Proof.
  intros -> Ha Hq. apply items_nested; [done|]. intros w Hw. rewrite leaving_cons. constructor; [by apply tc_once|].
  eapply Forall_impl; [exact Ha|]. intros a Hav. exact (tc_r _ _ _ Hav Hw).
Qed.

Lemma accepts_more t k o : accepts (t + k) o = accepts t (m ← o; Some (k + m)).
Proof. destruct o as [n|]; [|done]. cbn. f_equal. lia. Qed.

Lemma queue_nonneg q n : total (map item_tokens q) = Some n -> 0 <= n.
Proof.
  intros H. apply (total_map_ge item_tokens 0) in H; [lia|done|]. intros [v d|v] m; cbn; [|intros [= <-]; lia].
  intros Hm%tree_tokens_pos. lia.
Qed.

Lemma inside_itself v d q : nested (Visit v d :: q) -> v ∈ leaving q -> forall k, tree_tokens k v = None.
Proof. intros [Hn _] Hv. apply cyclic_no_tree. by eapply Forall_forall in Hn. Qed.

Lemma bounded_loop_spec fuel t q : 0 <= t <= 4096 -> 2 * (4097 - t) + zlen (leaving q) + 1 <= Z.of_nat fuel ->
  nested q -> NoDup (leaving q) ->
  bounded_loop look fuel t (leaving q) q = Some (accepts t (total (map item_tokens q))).
Proof.
  revert t q. induction fuel as [|fuel IH]; intros t q Ht Hf Hn Hd; [pose proof (zlen_nonneg (leaving q)); lia|].
  cbn [bounded_loop]. destruct q as [|[v d|v] q].
  { cbn. f_equal. symmetry. apply Z.leb_le. lia. }
  2:{ rewrite leaving_cons in *. rewrite zlen_cons in Hf. apply NoDup_cons in Hd as [Hv Hd]. destruct Hn as [_ Hn].
    rewrite leave_active, IH by (done || lia). cbn [map item_tokens]. rewrite total_cons. by destruct (total _). }
  change (leaving (Visit v d :: q)) with (leaving q) in *. cbn [map item_tokens]. rewrite total_cons.
  pose proof (queue_nonneg q) as Hq. destruct (Z.ltb_spec 4096 (t + 1)) as [Hov|Hov].
  { cbn [orb]. f_equal. destruct (tree_tokens _ v) as [n|] eqn:E; [|done]. apply tree_tokens_pos in E.
    destruct (total _) as [m|]; [|done]. specialize (Hq m eq_refl). symmetry. apply Z.leb_gt. cbn. lia. }
  destruct (Z.ltb_spec 16 d) as [Hdeep|Hdeep].
  { cbn [orb]. by replace (Z.to_nat (17 - d)) with O by lia. }
  cbn [orb]. pose proof (inside_itself v d q Hn) as Hin. pose proof Hn as [Hv Hn'].
  replace (Z.to_nat (17 - d)) with (S (Z.to_nat (17 - (d + 1)))) in * by lia.
  assert (Hleaf : bounded_loop look fuel (t + 1) (leaving q) q
    = Some (accepts t (m ← total (map item_tokens q); Some (1 + m)))) by (rewrite IH by (done || lia); by rewrite accepts_more).
  assert (Henter : forall items k, items = members_of v -> 0 <= k -> t + 1 + k <= 4096 -> v ∉ leaving q ->
    bounded_loop look fuel (t + 1 + k) (v :: leaving q) (foldl (fun q v => Visit v (d + 1) :: q) (Leave v :: q) items)
    = Some (accepts t (n ← total (map (tree_tokens (Z.to_nat (17 - (d + 1)))) items);
                       m ← total (map item_tokens q); Some (1 + k + n + m)))).
  { intros items k -> Hk Hle Hnew. rewrite <- leaving_cons, <- (items_leaving (members_of v) (d + 1)).
    rewrite IH; rewrite ?items_leaving, ?leaving_cons, ?zlen_cons; [|lia|lia|by apply members_nested|by constructor].
    rewrite items_total, <- (Z.add_assoc t 1 k), accepts_more. cbn [map item_tokens]. rewrite total_cons. f_equal. f_equal.
    destruct (total (map (tree_tokens _) _)), (total (map item_tokens q)); cbn; try done. f_equal. lia. }
  assert (Hcycle : v ∈ leaving q -> tree_tokens (S (Z.to_nat (17 - (d + 1)))) v = None) by auto.
  cbn [tree_tokens] in *. unfold members_of in Henter. destruct (look v) as [[]| | | |items|members]; try done.
  - destruct (bool_decide_reflect (v ∈ leaving q)) as [Hact|Hact]; [by rewrite (Hcycle Hact)|].
    specialize (Henter items 0 eq_refl ltac:(lia) ltac:(lia) Hact). rewrite Z.add_0_r in Henter. rewrite Henter.
    by destruct (total _), (total _).
  - destruct (bool_decide_reflect (v ∈ leaving q)) as [Hact|Hact]; [by rewrite (Hcycle Hact)|].
    pose proof (push_members_spec members d (t + 1) (Leave v :: q) ltac:(lia)) as Hp.
    destruct (push_members members d (t + 1) (Leave v :: q)) as [[t' q']|].
    + destruct Hp as (-> & -> & Hle & ->). rewrite (Henter members.*2 (zlen members)); [|done|apply zlen_nonneg|lia|done].
      by destruct (total _), (total _).
    + destruct Hp as [->|Hp]; [done|]. destruct (forallb _ _); [|done]. destruct (total (map (tree_tokens _) _)) as [n|] eqn:E; [|done].
      destruct (total (map item_tokens q)) as [m|]; [|done]. specialize (Hq m eq_refl).
      apply (total_map_ge _ 0) in E; [|lia|intros x k Hx%tree_tokens_pos; lia]. symmetry. f_equal. cbn. apply Z.leb_gt. lia.
Qed.

(** C37: the bound on untrusted metadata always ends with an answer, whatever the
    value looks like, and accepts it exactly when it unfolds to a tree of at most
    17 levels with only JSON's leaves (finite numbers, no [undefined] and no
    function), with no member name longer than 8192 and with at most 4096 values
    and member names.  A value that contains itself, or one that does, is never
    accepted. *)
Theorem bounded_structure_exact v :
  boundedJsonStructure look v
  = Some (match tree_tokens 17 v with Some tokens => tokens <=? 4096 | None => false end)
  /\ (forall w, inside v w -> inside w w -> boundedJsonStructure look v = Some false).
Proof.
  assert (H : boundedJsonStructure look v = Some (accepts 0 (tree_tokens 17 v))).
  { unfold boundedJsonStructure. rewrite (bounded_loop_spec _ 0 [Visit v 0]); [|lia|change (zlen (leaving [Visit v 0])) with 0; lia|done|constructor].
    cbn [map item_tokens]. change (Z.to_nat (17 - 0)) with 17%nat. rewrite total_cons. cbn [total foldr].
    destruct (tree_tokens 17 v) as [n|]; [|done]. cbn. do 2 f_equal. lia. }
  rewrite H. split; [by destruct (tree_tokens 17 v)|].
  intros w Hw Hc. destruct (tree_tokens 17 v) as [n|] eqn:E; [|done].
  destruct (tree_tokens_inside v w Hw 17) as (j & _ & Hj); [by rewrite E|].
  rewrite cyclic_no_tree in Hj by done. by destruct Hj.
Qed.
End tree.

(** The bound on trees, as the other components use it. *)

Fixpoint json_tokens (v : json) : Z :=
  match v with
  | JArr items => 1 + lsum json_tokens items
  | JObj members => 1 + lsum (fun kv => 1 + json_tokens kv.2) members
  | _ => 1
  end.

Fixpoint well_bounded (depth : Z) (v : json) : bool :=
  (depth <=? 16)
  && match v with
     | JInf _ => false
     | JArr items => forallb (well_bounded (depth + 1)) items
     | JObj members => forallb (fun kv => (slen kv.1 <=? KEY_CHARS) && well_bounded (depth + 1) kv.2) members
     | _ => true
     end.

Lemma total_all {A} (f : A -> option Z) (g : A -> Z) (ok : A -> bool) l :
  (forall x, x ∈ l -> ok x = true -> f x = Some (g x)) -> forallb ok l = true -> total (map f l) = Some (lsum g l).
Proof.
  induction l as [|x l IH]; intros Hf; [done|]. cbn [forallb map]. intros [Hx Hl]%andb_true_iff.
  rewrite total_cons, (Hf x) by (done || left). rewrite IH; [by rewrite lsum_cons|intros; apply Hf; [by right|done]|done].
Qed.

Lemma json_tree_tokens levels : forall d v, 17 - d = Z.of_nat levels -> well_bounded d v = true ->
  tree_tokens json_look levels v = Some (json_tokens v).
Proof.
  induction levels as [|k IH]; intros d v Hd Hw.
  { destruct v; cbn [well_bounded] in Hw; apply andb_true_iff in Hw as [Hw _]; lia. }
  assert (Hk : forall x, well_bounded (d + 1) x = true -> tree_tokens json_look k x = Some (json_tokens x)).
  { intros x Hx. apply (IH (d + 1)); [lia|done]. }
  destruct v as [| | | | |items|members]; cbn [well_bounded] in Hw; apply andb_true_iff in Hw as [_ Hw]; try done;
    cbn [tree_tokens json_look json_tokens].
  - rewrite (total_all _ json_tokens (well_bounded (d + 1))) by auto. done.
  - assert (Hm : forallb (fun kv => slen kv.1 <=? KEY_CHARS) members = true /\ forallb (well_bounded (d + 1)) members.*2 = true
      /\ lsum (fun kv => 1 + json_tokens kv.2) members = zlen members + lsum json_tokens members.*2).
    { clear Hk IH. induction members as [|[key x] members IHm]; [done|]. cbn [forallb fst snd fmap list_fmap] in *.
      apply andb_true_iff in Hw as [[-> ->]%andb_true_iff Hw]. destruct (IHm Hw) as (-> & -> & Hs).
      rewrite !lsum_cons, zlen_cons, Hs. cbn. split_and!; [done|done|lia]. }
    destruct Hm as (-> & Hb & ->). rewrite (total_all _ json_tokens (well_bounded (d + 1))) by auto. cbn. f_equal. lia.
Qed.

Lemma bounded_structure_small v : json_tokens v <= 4096 -> well_bounded 0 v = true ->
  boundedJsonStructure json_look v = Some true.
Proof.
  intros Ht Hw. unfold boundedJsonStructure. rewrite (bounded_loop_spec json_look _ 0 [Visit v 0]); [|lia|change (zlen (leaving [Visit v 0])) with 0; lia|done|constructor].
  cbn [map item_tokens]. rewrite (json_tree_tokens (Z.to_nat (17 - 0)) 0) by done. cbn. f_equal. apply Z.leb_le. lia.
Qed.

(** Three levels pass; a number out of range does not, nor an object that is a
    member of itself. *)

Example bounded_depth : boundedJsonStructure json_look (JArr [JArr [JObj [("a", JNum 1)]]]) = Some true.
Proof. vm_compute. reflexivity. Qed.

Example bounded_infinite : boundedJsonStructure json_look (JObj [("a", JInf false)]) = Some false.
Proof. vm_compute. reflexivity. Qed.

Definition loop_look (object : nat) : js_view nat :=
  match object with 0 => V_object [("self", 1); ("also", 1)]%nat | 1 => V_array [0]%nat | _ => V_other end%nat.

Lemma bounded_structure_exact_witness : inside loop_look 0%nat 0%nat /\ boundedJsonStructure loop_look 0%nat = Some false.
Proof.
  assert (H : inside loop_look 0%nat 0%nat).
  { eapply (tc_l _ 0 1 0)%nat; [|apply tc_once]; unfold members_of; cbn; left. }
  split; [exact H|]. exact (proj2 (bounded_structure_exact loop_look 0%nat) 0%nat H H).
Defined.
