(* ===== verification/Pipe.v ===== *)
(** * The worker pipe (packages/protocol/src/pipe-command.ts, pipe.ts)

    Commands the runtime sends a worker, the worker's results, events and
    errors, and the validators both ends run on every frame.  As on the
    terminal lane, literal members are left out and untyped metadata is its
    JSON tree with the message it spells.  The receipts of programmatic input
    (packages/protocol/src/workspace.ts) are part of a result. *)

From S2P Require Import Prelude Json Protocol Errors Frame HealthMonitor Terminal.

(** ** Receipts (workspace.ts) *)

Definition TAB_SEND_TEXT_BYTES : Z := 4096.

Definition TAB_SEND_PENDING_PER_RUN : Z := 32.

Inductive PartStatus := part_written | part_notSent | part_partial | part_unknown.

#[export] Instance PartStatus_eq : EqDecision PartStatus.
Proof. solve_decision. Defined.

Record InputPartReceipt := mkPart {
  part_status : PartStatus; requestedBytes : Z; part_writtenBytes : Z; unknownBytes : Z; part_reason : option string;
}.

Definition count_ok (n : Z) : bool := (0 <=? n) && (n <=? TAB_SEND_TEXT_BYTES).

Definition InputPartReceiptSchema (r : InputPartReceipt) : bool :=
  count_ok (requestedBytes r) && count_ok (part_writtenBytes r) && count_ok (unknownBytes r)
  && optional_ok (fun s => (1 <=? slen s) && (slen s <=? 128)) (part_reason r)
  && (part_writtenBytes r + unknownBytes r <=? requestedBytes r)
  && match part_status r with
     | part_written => (part_writtenBytes r =? requestedBytes r) && (unknownBytes r =? 0)
     | part_notSent => (part_writtenBytes r =? 0) && (unknownBytes r =? 0)
     | part_partial =>
        (0 <? part_writtenBytes r) && (part_writtenBytes r <? requestedBytes r) && (unknownBytes r =? 0)
     | part_unknown => 0 <? unknownBytes r
     end.

Definition inputPartReceipt (requested written unk : Z) (reason : option string) : InputPartReceipt :=
  {| part_status :=
       if 0 <? unk then part_unknown
       else if written =? requested then part_written
       else if 0 <? written then part_partial else part_notSent;
     requestedBytes := requested; part_writtenBytes := written; unknownBytes := unk;
     part_reason := match reason with
                    | Some EmptyString | None => None
                    | Some s => Some (String.substring 0 128 s)
                    end |}.

Record TabInputReceipt := mkReceipt { rcpt_text : InputPartReceipt; rcpt_submit : option InputPartReceipt }.

Definition part_is (s : PartStatus) (r : InputPartReceipt) : bool := bool_decide (part_status r = s).

Definition TabInputReceiptSchema (r : TabInputReceipt) : bool :=
  InputPartReceiptSchema (rcpt_text r) && optional_ok InputPartReceiptSchema (rcpt_submit r)
  && match rcpt_submit r with
     | None => true
     | Some s =>
        (requestedBytes s =? 1)
        && (part_is part_written (rcpt_text r) || part_is part_notSent s
            || (part_is part_unknown (rcpt_text r) && part_is part_unknown s))
     end.

(** [tabSendTextByteLength], over the text's code points. *)

Definition tabSendTextByteLength (scalars : list Z) : Z :=
  lsum (fun code => if code <? 128 then 1 else if code <? 2048 then 2 else if code <? 65536 then 3 else 4) scalars.

(** ** Commands, results, events and errors (pipe-command.ts) *)

Definition PIPE_VERSION : Z := 2.
Definition PIPE_ROUTE_CONTROL_COMMANDS : Z := 4.
Definition PIPE_ROUTE_CONTROL_FRAME_BYTES : Z := HEADER_BYTES + MAX_METADATA_BYTES.
Definition PIPE_PREPAID_ROUTE_CONTROL_BYTES : Z := PIPE_ROUTE_CONTROL_COMMANDS * PIPE_ROUTE_CONTROL_FRAME_BYTES.
Definition PIPE_HEARTBEAT_INTERVAL_MS : Z := 1000.
Definition PIPE_LIVENESS_WINDOW_MS : Z := 120000.
Definition PIPE_LIVENESS_MIN_HEARTBEATS : Z := 3.
Definition PIPE_HEARTBEAT_FRAME_BYTES : Z := HEADER_BYTES + MAX_METADATA_BYTES.

Definition build_ok (s : string) : bool := (1 <=? slen s) && (slen s <=? 128).

(** [hello] and [ready] have the same members; [pipeVersion] is a literal. *)

Record PipeHello := mkHello { hello_worker : WorkerRef; hello_build : string; hello_budgets : EffectiveBudgets }.

Definition PipeHelloSchema (h : PipeHello) : bool :=
  WorkerRefSchema (hello_worker h) && build_ok (hello_build h) && EffectiveBudgetsSchema (hello_budgets h).

Definition load_ms_ok (n : Z) : bool := (0 <=? n) && (n <=? 3600000).

Definition WorkerLoadSchema (l : WorkerLoad) : bool :=
  load_ms_ok (windowMs l) && load_ms_ok (eventLoopDelayP99Ms l) && load_ms_ok (eventLoopDelayMaxMs l)
  && optional_ok (fun c => (0 <=? c) && (c <=? 100)) (cpuPercent l)
  && (0 <=? parseBacklogBytes l) && (parseBacklogBytes l <=? MAX_SAFE_INTEGER)
  && (0 <=? executingCommands l) && (executingCommands l <=? 65536).

Record PipeHeartbeat := mkHeartbeat { hb_worker : WorkerRef; hb_load : WorkerLoad }.

Definition PipeHeartbeatSchema (h : PipeHeartbeat) : bool := WorkerRefSchema (hb_worker h) && WorkerLoadSchema (hb_load h).

(** Spawn arguments. *)

Record SpawnEnv := mkEnv { COVE_TASK_ID : option string; COVE_TAB_ID : option string }.

Definition printable (c : Ascii.ascii) : bool := let n := Ascii.nat_of_ascii c in ((32 <=? n) && (n <=? 126))%nat%bool.

Definition SPAWN_ENV_VALUE_CHARS : Z := 128.

Definition SpawnEnvValueSchema (s : string) : bool :=
  (1 <=? slen s) && (slen s <=? SPAWN_ENV_VALUE_CHARS) && string_all printable s.

Definition SpawnEnvSchema (e : SpawnEnv) : bool :=
  optional_ok SpawnEnvValueSchema (COVE_TASK_ID e) && optional_ok SpawnEnvValueSchema (COVE_TAB_ID e).

Definition SPAWN_ENV_PAYLOAD_BYTES : Z := 1024.

Definition SPAWN_PAYLOAD_BYTES : Z := Protocol.argvBytes M0_LIMITS + SPAWN_ENV_PAYLOAD_BYTES.

Record SpawnArguments := mkSpawn { executable : string; argv : list string; cwd : string; spawn_env : option SpawnEnv }.

Definition SpawnArgumentsSchema (a : SpawnArguments) : bool :=
  (1 <=? slen (executable a)) && (slen (executable a) <=? executableBytes M0_LIMITS)
  && (zlen (argv a) <=? argvCount M0_LIMITS)
  && (1 <=? slen (cwd a)) && (slen (cwd a) <=? cwdBytes M0_LIMITS)
  && optional_ok SpawnEnvSchema (spawn_env a).

Inductive PipeBody :=
  | C_spawn (operationId : string) (geometry : Geometry) (appearance : Appearance) (budgets : EffectiveBudgets)
      (spawnPayloadBytes : Z)
  | C_stop (operationId : string)
  | C_set_control (expectedEpoch nextEpoch : Z) (holder : option ControlHolder) (geometry : Geometry)
      (appearance : option Appearance)
  | C_input (subscription : SubscriptionRef) (epoch inputSeq : Z)
  | C_programmatic (operationId : string) (epoch textBytes : Z) (submit : bool)
  | C_resize (subscription : SubscriptionRef) (epoch : Z) (geometry : Geometry)
  | C_appearance (subscription : SubscriptionRef) (epoch : Z) (appearance : Appearance)
  | C_subscribe (subscription : SubscriptionRef) (atSeq : Z)
  | C_recover (subscription : SubscriptionRef) (appliedSeq : option Z)
  | C_unsubscribe (subscription : SubscriptionRef)
  | C_applied_ack (subscription : SubscriptionRef) (appliedSeq : Z)
  | C_baseline_progress (subscription : SubscriptionRef) (baselineId : string) (lastParsedOrdinal : Z)
  | C_status
  | C_preview_refresh (knownVersion : option Z).

Record PipeCommand := mkPipe { pc_worker : WorkerRef; pc_run : RunRef; pc_requestId : string; pc_body : PipeBody }.

Inductive PipeCommandType :=
  | ct_spawn | ct_stop | ct_set_control | ct_input | ct_programmatic | ct_resize | ct_appearance | ct_subscribe
  | ct_recover | ct_unsubscribe | ct_applied_ack | ct_baseline_progress | ct_status | ct_preview_refresh.

#[export] Instance PipeCommandType_eq : EqDecision PipeCommandType.
Proof. solve_decision. Defined.

Definition pipe_type (c : PipeCommand) : PipeCommandType :=
  match pc_body c with
  | C_spawn _ _ _ _ _ => ct_spawn
  | C_stop _ => ct_stop
  | C_set_control _ _ _ _ _ => ct_set_control
  | C_input _ _ _ => ct_input
  | C_programmatic _ _ _ _ => ct_programmatic
  | C_resize _ _ _ => ct_resize
  | C_appearance _ _ _ => ct_appearance
  | C_subscribe _ _ => ct_subscribe
  | C_recover _ _ => ct_recover
  | C_unsubscribe _ => ct_unsubscribe
  | C_applied_ack _ _ => ct_applied_ack
  | C_baseline_progress _ _ _ => ct_baseline_progress
  | C_status => ct_status
  | C_preview_refresh _ => ct_preview_refresh
  end.

Definition PipeCommandSchema (c : PipeCommand) : bool :=
  WorkerRefSchema (pc_worker c) && RunRefSchema (pc_run c) && OpaqueIdSchema (pc_requestId c)
  && match pc_body c with
     | C_spawn op g a b n =>
        OpaqueIdSchema op && GeometrySchema g && AppearanceSchema a && EffectiveBudgetsSchema b
        && (1 <=? n) && (n <=? SPAWN_PAYLOAD_BYTES)
     | C_stop op => OpaqueIdSchema op
     | C_set_control e n h g a =>
        SequenceSchema e && epochSchema n && optional_ok ControlHolderSchema h && GeometrySchema g
        && optional_ok AppearanceSchema a
     | C_input s e q => SubscriptionRefSchema s && epochSchema e && epochSchema q
     | C_programmatic op e n _ =>
        OpaqueIdSchema op && SequenceSchema e && (0 <=? n) && (n <=? TAB_SEND_TEXT_BYTES)
     | C_resize s e g => SubscriptionRefSchema s && epochSchema e && GeometrySchema g
     | C_appearance s e a => SubscriptionRefSchema s && epochSchema e && AppearanceSchema a
     | C_subscribe s q => SubscriptionRefSchema s && SequenceSchema q
     | C_recover s q => SubscriptionRefSchema s && optional_ok SequenceSchema q
     | C_unsubscribe s => SubscriptionRefSchema s
     | C_applied_ack s q => SubscriptionRefSchema s && SequenceSchema q
     | C_baseline_progress s b n =>
        SubscriptionRefSchema s && OpaqueIdSchema b && (0 <=? n) && (n <=? baselineChunks M0_LIMITS - 1)
     | C_status => true
     | C_preview_refresh v => optional_ok SequenceSchema v
     end.

Inductive Outcome := accepted | rejected | unknown.

#[export] Instance Outcome_eq : EqDecision Outcome.
Proof. solve_decision. Defined.

Record PipeResult := mkPipeResult {
  res_worker : WorkerRef; res_run : RunRef; res_requestId : string; res_commandType : PipeCommandType;
  res_outcome : Outcome; res_recoveryMode : option RecoveryMode; res_operationId : option string;
  res_atSeq : option Z; res_inputSeq : option Z; res_input : option TabInputReceipt; res_writtenBytes : option Z;
  res_runStatus : option RunStatus; res_previewVersion : option Z;
}.

Definition PipeResultSchema (r : PipeResult) : bool :=
  WorkerRefSchema (res_worker r) && RunRefSchema (res_run r) && OpaqueIdSchema (res_requestId r)
  && optional_ok OpaqueIdSchema (res_operationId r) && optional_ok SequenceSchema (res_atSeq r)
  && optional_ok SequenceSchema (res_inputSeq r) && optional_ok TabInputReceiptSchema (res_input r)
  && optional_ok (fun n => (1 <=? n) && (n <=? 65536)) (res_writtenBytes r)
  && optional_ok RunStatusSchema (res_runStatus r) && optional_ok SequenceSchema (res_previewVersion r).

Record PipeEvent := mkPipeEvent {
  pe_worker : WorkerRef; pe_run : RunRef; pe_subscription : option SubscriptionRef; pe_terminal : TerminalEvent;
}.

Definition PipeEventSchema (e : PipeEvent) : bool :=
  WorkerRefSchema (pe_worker e) && RunRefSchema (pe_run e) && optional_ok SubscriptionRefSchema (pe_subscription e)
  && TerminalEventSchema (pe_terminal e).

Record PipeError := mkPipeError {
  perr_worker : WorkerRef; perr_run : RunRef; perr_requestId : string; perr_commandType : PipeCommandType;
  perr_error : DomainError;
}.

Definition PipeErrorSchema (e : PipeError) : bool :=
  WorkerRefSchema (perr_worker e) && RunRefSchema (perr_run e) && OpaqueIdSchema (perr_requestId e)
  && DomainErrorSchema (perr_error e).

(** What a runtime call resolves with (runtime.ts). *)

Inductive RuntimeResult :=
  | RResult (r : PipeResult)
  | RError (e : PipeError).

Inductive PipeMetadata :=
  | M_hello (h : PipeHello)
  | M_ready (h : PipeHello)
  | M_heartbeat (h : PipeHeartbeat)
  | M_command (c : PipeCommand)
  | M_result (r : PipeResult)
  | M_event (e : PipeEvent)
  | M_error (e : PipeError).

(** ** Spawn payloads (pipe-command.ts)

    [encodeUtf8] is the host's encoder, an argument of the code too. *)

Section spawn.
Context (encodeUtf8 : string -> list Z).

Definition command_members (a : SpawnArguments) : list (string * json) :=
  [("executable", JStr (executable a)); ("argv", JArr (map JStr (argv a))); ("cwd", JStr (cwd a))].

Definition env_json (e : SpawnEnv) : json :=
  JObj (optional_member "COVE_TASK_ID" JStr (COVE_TASK_ID e) ++ optional_member "COVE_TAB_ID" JStr (COVE_TAB_ID e)).

Definition command_json (a : SpawnArguments) : json := JObj (command_members a).

Definition arguments_json (a : SpawnArguments) : json :=
  JObj (command_members a ++ optional_member "env" env_json (spawn_env a)).

Definition encoded_bytes (s : string) : Z := zlen (encodeUtf8 s).

Definition composeSpawnPayload (input : SpawnArguments) : option (SpawnArguments * list Z) :=
  if negb (SpawnArgumentsSchema input) then None
  else if (executableBytes M0_LIMITS <? encoded_bytes (executable input))
          || (cwdBytes M0_LIMITS <? encoded_bytes (cwd input)) then None
  else if Protocol.argvBytes M0_LIMITS <? lsum encoded_bytes (argv input) then None
  else if Protocol.argvBytes M0_LIMITS <? encoded_bytes (stringify (command_json input)) then None
  else
    let bytes := encodeUtf8 (stringify (arguments_json input)) in
    if (zlen bytes <? 1) || (SPAWN_PAYLOAD_BYTES <? zlen bytes) then None else Some (input, bytes).

(** [spawnPayloadBytes] of the command; [decoded] is what the payload spells,
    when it has the members of spawn arguments. *)

Definition validateSpawnPayload (spawnPayloadBytes : Z) (payload : list Z) (decoded : option SpawnArguments)
    : option SpawnArguments :=
  match decoded ≫= composeSpawnPayload with
  | None => None
  | Some (arguments, bytes) =>
     if negb (zlen payload =? spawnPayloadBytes) || negb (zlen payload =? zlen bytes) then None
     else if bool_decide (payload = bytes) then Some arguments else None
  end.

End spawn.

(** ** Frames (pipe.ts) *)

Definition has_payload (e : TerminalEvent) : bool :=
  match e with
  | TRun e => is_output e
  | TBaselineChunk _ | TPreviewChunk _ _ _ _ => true
  | _ => false
  end.

Definition result_input_ok (r : PipeResult) : bool :=
  Bool.eqb (bool_decide (res_commandType r = ct_programmatic)) (bool_decide (is_Some (res_input r))).

Definition validPayload (value : PipeMetadata) (payloadBytes : Z) : bool :=
  match value with
  | M_command (mkPipe _ _ _ (C_spawn _ _ _ _ n)) => payloadBytes =? n
  | M_command (mkPipe _ _ _ (C_input _ _ _)) => 1 <=? payloadBytes
  | M_command (mkPipe _ _ _ (C_programmatic _ _ textBytes submit)) =>
     (payloadBytes =? textBytes) && ((0 <? textBytes) || submit)
  | M_result r => result_input_ok r && (payloadBytes =? 0)
  | M_event e => if has_payload (pe_terminal e) then 1 <=? payloadBytes else payloadBytes =? 0
  | _ => payloadBytes =? 0
  end.

Definition pipe_subscription (c : PipeCommand) : option SubscriptionRef :=
  match pc_body c with
  | C_input s _ _ | C_resize s _ _ | C_appearance s _ _ | C_subscribe s _ | C_recover s _ | C_unsubscribe s
  | C_applied_ack s _ | C_baseline_progress s _ _ => Some s
  | _ => None
  end.

Definition pipe_budgets (value : PipeMetadata) : option EffectiveBudgets :=
  match value with
  | M_hello h | M_ready h => Some (hello_budgets h)
  | M_command (mkPipe _ _ _ (C_spawn _ _ _ b _)) => Some b
  | _ => None
  end.

Definition pipe_appearance (c : PipeCommand) : option Appearance :=
  match pc_body c with
  | C_spawn _ _ a _ _ => Some a
  | C_appearance _ _ a => Some a
  | C_set_control _ _ _ _ a => a
  | _ => None
  end.

Definition valid_budgets (b : EffectiveBudgets) : bool :=
  match validateEffectiveBudgets b with Some _ => true | None => false end.

Definition is_recovery (t : PipeCommandType) : bool := bool_decide (t = ct_subscribe) || bool_decide (t = ct_recover).

Definition defined {A} (o : option A) : bool := match o with Some _ => true | None => false end.

(** Where [worker] and [run] go together. *)

Definition result_identity (r : PipeResult) : bool :=
  optional_ok (fun s => sameRunRef (res_run r) (rs_run s)) (res_runStatus r)
  && negb (bool_decide (res_commandType r = ct_status) && bool_decide (res_outcome r = accepted)
           && negb (defined (res_runStatus r)))
  && negb (is_recovery (res_commandType r) && bool_decide (res_outcome r = accepted)
           && (negb (defined (res_atSeq r)) || negb (defined (res_recoveryMode r))))
  && negb (negb (is_recovery (res_commandType r)) && defined (res_recoveryMode r))
  && negb (is_recovery (res_commandType r) && negb (bool_decide (res_outcome r = accepted))
           && defined (res_recoveryMode r))
  && negb (bool_decide (res_commandType r = ct_input) && bool_decide (res_outcome r = accepted)
           && (negb (defined (res_inputSeq r)) || negb (defined (res_writtenBytes r)))).

(** [terminal.run], which every event has. *)

Definition event_run (e : TerminalEvent) : RunRef :=
  match e with
  | TRun e => ev_run e
  | TBaselineStart r _ => r
  | TBaselineChunk c => bch_run c
  | TBaselineEnd e => be_run e
  | TPreviewStart p => ps_run p
  | TPreviewChunk r _ _ _ | TPreviewEnd r _ _ _ _ => r
  end.

Definition embeddedSubscription (e : TerminalEvent) : option SubscriptionRef :=
  match e with
  | TBaselineStart _ d => Some (bd_subscription d)
  | TBaselineChunk c => Some (bch_subscription c)
  | TBaselineEnd e => Some (be_subscription e)
  | _ => None
  end.

Definition needsSubscription (e : TerminalEvent) : bool :=
  match e with TRun _ => true | _ => defined (embeddedSubscription e) end.

Definition event_identity (e : PipeEvent) : bool :=
  sameRunRef (pe_run e) (event_run (pe_terminal e))
  && Bool.eqb (needsSubscription (pe_terminal e)) (defined (pe_subscription e))
  && optional_ok (fun s => sameRunRef (pe_run e) (sub_run s)
                           && optional_ok (sameSubscriptionRef s) (embeddedSubscription (pe_terminal e)))
       (pe_subscription e)
  && match pe_terminal e with TBaselineStart _ d => valid_descriptor d | _ => true end
  && validateEventBinding (pe_terminal e)
  && match pe_terminal e with TRun (mkRunEvent _ _ (appearance a)) => valid_appearance a | _ => true end.

Definition control_step_ok (c : PipeCommand) : bool :=
  match pc_body c with
  | C_set_control expectedEpoch nextEpoch (Some _) _ _ =>
     negb (expectedEpoch =? MAX_SAFE_INTEGER) && (nextEpoch =? expectedEpoch + 1)
  | _ => true
  end.

Definition validIdentity (value : PipeMetadata) : bool :=
  optional_ok valid_budgets (pipe_budgets value)
  && match value with
     | M_hello _ | M_ready _ | M_heartbeat _ => true
     | M_command c =>
        workerMatchesRun (pc_worker c) (pc_run c)
        && optional_ok (fun s => sameRunRef (pc_run c) (sub_run s)) (pipe_subscription c)
        && control_step_ok c && optional_ok valid_appearance (pipe_appearance c)
     | M_result r => workerMatchesRun (res_worker r) (res_run r) && result_identity r
     | M_event e => workerMatchesRun (pe_worker e) (pe_run e) && event_identity e
     | M_error e =>
        workerMatchesRun (perr_worker e) (perr_run e)
        && error_consistent (bool_decide (perr_commandType e = ct_input)) (perr_error e)
     end.

Definition pipe_class_schema (kind : Z) (value : PipeMetadata) : bool :=
  match value with
  | M_hello h => (kind =? 1) && PipeHelloSchema h
  | M_command c => (kind =? 1) && PipeCommandSchema c
  | M_ready h => (kind =? 2) && PipeHelloSchema h
  | M_heartbeat h => (kind =? 2) && PipeHeartbeatSchema h
  | M_result r => (kind =? 2) && PipeResultSchema r
  | M_event e => (kind =? 3) && PipeEventSchema e
  | M_error e => (kind =? 4) && PipeErrorSchema e
  end.

Definition validatePipeFrame (kind metadataBytes payloadBytes : Z) (metadata : json) (typed : option PipeMetadata)
    : ProtocolResult PipeMetadata :=
  if (MAX_METADATA_BYTES <? metadataBytes) || (MAX_PAYLOAD_BYTES <? payloadBytes)
     || negb (bool_decide (boundedJsonStructure json_look metadata = Some true))
  then failure INVALID_METADATA 0
  else match typed with
       | None => failure INVALID_METADATA 0
       | Some value =>
          if negb (pipe_class_schema kind value) then failure INVALID_METADATA 0
          else if negb (validPayload value payloadBytes) || negb (validIdentity value)
               then failure INVALID_METADATA 0 else inr value
       end.

Definition validatePipeReadiness (hello ready : PipeHello) : bool :=
  valid_budgets (hello_budgets hello) && valid_budgets (hello_budgets ready)
  && sameWorkerRef (hello_worker hello) (hello_worker ready)
  && bool_decide (budget_entries (hello_budgets hello) = budget_entries (hello_budgets ready)).

Definition result_worker (r : RuntimeResult) : WorkerRef :=
  match r with RResult r => res_worker r | RError e => perr_worker e end.

Definition result_run (r : RuntimeResult) : RunRef :=
  match r with RResult r => res_run r | RError e => perr_run e end.

Definition result_requestId (r : RuntimeResult) : string :=
  match r with RResult r => res_requestId r | RError e => perr_requestId e end.

Definition result_commandType (r : RuntimeResult) : PipeCommandType :=
  match r with RResult r => res_commandType r | RError e => perr_commandType e end.

(** [result.atSeq! < bound], [false] when absent. *)

Definition at_below (r : PipeResult) (bound : Z) : bool :=
  match res_atSeq r with Some q => q <? bound | None => false end.

Definition recovery_result_ok (command : PipeCommand) (r : PipeResult) : bool :=
  let recovery := is_recovery (pipe_type command) in
  let acc := bool_decide (res_outcome r = accepted) in
  negb (recovery && acc && (negb (defined (res_recoveryMode r)) || negb (defined (res_atSeq r))))
  && negb (negb recovery && defined (res_recoveryMode r))
  && negb (recovery && negb acc && defined (res_recoveryMode r))
  && match pc_body command with
     | C_subscribe _ q => negb (acc && at_below r q)
     | C_recover _ applied =>
        negb (acc && ((match res_recoveryMode r with Some m_replay => true | _ => false end && negb (defined applied))
                      || match applied with Some q => at_below r q | None => false end))
     | _ => true
     end.

Definition programmatic_result_ok (operationId : string) (textBytes : Z) (submit : bool) (r : PipeResult) : bool :=
  match res_input r with
  | None => false
  | Some input =>
     bool_decide (res_operationId r = Some operationId)
     && (requestedBytes (rcpt_text input) =? textBytes)
     && Bool.eqb (defined (rcpt_submit input)) submit
     && Bool.eqb (bool_decide (res_outcome r = accepted))
          (part_is part_written (rcpt_text input) && optional_ok (part_is part_written) (rcpt_submit input))
  end.

Definition validatePipeResultForCommand (command : PipeCommand) (result : RuntimeResult) : bool :=
  sameWorkerRef (pc_worker command) (result_worker result)
  && sameRunRef (pc_run command) (result_run result)
  && seqb (pc_requestId command) (result_requestId result)
  && bool_decide (pipe_type command = result_commandType result)
  && match result with
     | RError _ => true
     | RResult r =>
        recovery_result_ok command r
        && match pc_body command with
           | C_programmatic op _ n submit => programmatic_result_ok op n submit r
           | C_spawn op _ _ _ _ | C_stop op => bool_decide (res_operationId r = Some op)
           | C_input _ _ seq =>
              bool_decide (res_inputSeq r = Some seq)
              && negb (bool_decide (res_outcome r = accepted) && negb (defined (res_writtenBytes r)))
           | C_status => negb (bool_decide (res_outcome r = accepted) && negb (defined (res_runStatus r)))
           | _ => true
           end
        && optional_ok (fun s => sameRunRef (pc_run command) (rs_run s)) (res_runStatus r)
     end.

(** ** Spawn payloads round-trip *)

Section spawn_facts.
Context (encodeUtf8 : string -> list Z).

(** What the code relies on of a UTF-8 encoder: it encodes code units one after
    the other, and a printable ASCII unit is one byte. *)

Record utf8_laws : Prop := mk_utf8 {
  utf8_app : forall s t, encodeUtf8 (s +:+ t) = encodeUtf8 s ++ encodeUtf8 t;
  utf8_ascii : forall s, string_all printable s = true -> zlen (encodeUtf8 s) = slen s;
}.

Lemma compose_same a a' bytes : composeSpawnPayload encodeUtf8 a = Some (a', bytes) -> a' = a.
Proof. unfold composeSpawnPayload. repeat case_if; try done. by intros [= <- _]. Qed.

Lemma validate_spawn_exact n payload decoded a :
  validateSpawnPayload encodeUtf8 n payload decoded = Some a
  <-> decoded = Some a /\ composeSpawnPayload encodeUtf8 a = Some (a, payload) /\ n = zlen payload.
Proof.
  unfold validateSpawnPayload. split.
  - destruct decoded as [d|]; [| done]. cbn. destruct (composeSpawnPayload encodeUtf8 d) as [[a' bytes]|] eqn:E; [| done].
    pose proof (compose_same _ _ _ E) as ->. destruct (_ || _) eqn:Hl; [done |]. case_bool_decide as Hp; [| done].
    intros [= <-]. subst bytes. bool_hyps. split_and!; [done | done | lia].
  - intros (-> & E & ->). cbn. rewrite E. rewrite Z.eqb_refl. cbn [negb orb]. by rewrite bool_decide_eq_true_2.
Qed.

Lemma string_all_app p s t : string_all p (s +:+ t) = string_all p s && string_all p t.
Proof. induction s as [|c s IH]; [done |]. change (String c s +:+ t) with (String c (s +:+ t)). cbn. by rewrite IH, andb_assoc. Qed.

(** A quoted printable string stays printable and at most doubles. *)

Lemma quote_unit_printable c : printable c = true ->
  string_all printable (quote_unit c) = true /\ slen (quote_unit c) <= 2.
Proof.
  destruct c as [b0 b1 b2 b3 b4 b5 b6 b7].
  destruct b0, b1, b2, b3, b4, b5, b6, b7; vm_compute; intros E; split; congruence.
Qed.

Lemma slen_cons c s : slen (String c s) = 1 + slen s.
Proof. unfold slen. cbn [String.length]. lia. Qed.

Lemma quote_units_printable s : string_all printable s = true ->
  string_all printable (quote_units s) = true /\ slen (quote_units s) <= 2 * slen s.
Proof.
  induction s as [|c s IH]; [done |]. cbn [string_all quote_units]. intros [Hc Hs]%andb_true_iff.
  destruct (quote_unit_printable c Hc) as [H1 H2]. destruct (IH Hs) as [H3 H4].
  rewrite string_all_app, H1, H3, slen_app, slen_cons. split; [done | lia].
Qed.

Lemma quote_printable s : SpawnEnvValueSchema s = true -> string_all printable (quote s) = true /\ slen (quote s) <= 258.
Proof.
  unfold SpawnEnvValueSchema, SPAWN_ENV_VALUE_CHARS. rewrite !andb_true_iff. intros [[_ Hl%Z.leb_le] Hp].
  destruct (quote_units_printable s Hp) as [H1 H2]. unfold quote.
  rewrite !string_all_app, H1, !slen_app. split; [done |]. change (slen dquote) with 1. lia.
Qed.

(** The text the identity adds to the payload, with the comma before it. *)

Definition env_text (e : SpawnEnv) : string := "," +:+ quote "env" +:+ ":" +:+ stringify (env_json e).

Lemma env_text_bound e : SpawnEnvSchema e = true ->
  string_all printable (env_text e) = true /\ slen (env_text e) <= SPAWN_ENV_PAYLOAD_BYTES.
Proof.
  destruct e as [task tab]. unfold SpawnEnvSchema. cbn [COVE_TASK_ID COVE_TAB_ID]. intros [H1 H2]%andb_true_iff.
  assert (Hq : forall o, optional_ok SpawnEnvValueSchema o = true ->
    match o with Some s => string_all printable (quote s) = true /\ slen (quote s) <= 258 | None => True end).
  { intros [s|]; [apply quote_printable | done]. }
  apply Hq in H1, H2. unfold env_text, env_json, SPAWN_ENV_PAYLOAD_BYTES. cbn [COVE_TASK_ID COVE_TAB_ID].
  destruct task as [task|], tab as [tab|]; cbn [optional_member app stringify map comma_join fst snd];
    rewrite !string_all_app, !slen_app; rewrite ?(proj1 H1), ?(proj1 H2);
    try pose proof (proj2 H1); try pose proof (proj2 H2);
    (split; [vm_compute; reflexivity |]);
    change (slen (quote "COVE_TASK_ID")) with 14; change (slen (quote "COVE_TAB_ID")) with 13;
    change (slen (quote "env")) with 5; change (slen ",") with 1; change (slen ":") with 1;
    change (slen "{") with 1; change (slen "}") with 1; change (slen EmptyString) with 0; lia.
Qed.

Lemma comma_join_snoc x l y : comma_join ((x :: l) ++ [y]) = comma_join (x :: l) +:+ "," +:+ y.
Proof.
  revert x. induction l as [|z l IH]; intros x; [done |].
  change (comma_join ((x :: z :: l) ++ [y])) with (x +:+ "," +:+ comma_join ((z :: l) ++ [y])).
  rewrite IH. change (comma_join (x :: z :: l)) with (x +:+ "," +:+ comma_join (z :: l)). by rewrite !append_assoc.
Qed.

Definition with_env (a : SpawnArguments) (e : option SpawnEnv) : SpawnArguments :=
  mkSpawn (executable a) (argv a) (cwd a) e.

Definition member_text (kv : string * json) : string := quote kv.1 +:+ ":" +:+ stringify kv.2.

Lemma stringify_object ms : stringify (JObj ms) = "{" +:+ comma_join (map member_text ms) +:+ "}".
Proof. reflexivity. Qed.

Lemma arguments_text a e : exists body,
  stringify (command_json a) = body +:+ "}"
  /\ stringify (arguments_json (with_env a (Some e))) = body +:+ env_text e +:+ "}".
Proof.
  exists ("{" +:+ comma_join (map member_text (command_members a))).
  unfold command_json, arguments_json. rewrite !stringify_object. split; [by rewrite append_assoc |].
  cbn [spawn_env with_env optional_member]. change (command_members (with_env a (Some e))) with (command_members a).
  rewrite map_app. cbn [map]. unfold command_members at 1. cbn [map]. rewrite comma_join_snoc.
  change (member_text ("env", env_json e)) with (quote "env" +:+ ":" +:+ stringify (env_json e)).
  unfold env_text, command_members. cbn [map]. by rewrite !append_assoc.
Qed.

Lemma encoded_app (laws : utf8_laws) s t : encoded_bytes encodeUtf8 (s +:+ t) = encoded_bytes encodeUtf8 s + encoded_bytes encodeUtf8 t.
Proof. unfold encoded_bytes. by rewrite (utf8_app laws), zlen_app. Qed.

(** Adding the identity to a recipe that fitted keeps it framable. *)

Lemma compose_with_env (laws : utf8_laws) a bytes e : SpawnEnvSchema e = true ->
  composeSpawnPayload encodeUtf8 (with_env a None) = Some (with_env a None, bytes) ->
  exists bytes', composeSpawnPayload encodeUtf8 (with_env a (Some e)) = Some (with_env a (Some e), bytes').
Proof.
  intros He. destruct (env_text_bound e He) as [Hp Hl]. destruct (arguments_text a e) as (body & Hc & Ha).
  unfold composeSpawnPayload. change (command_json (with_env a None)) with (command_json a).
  change (command_json (with_env a (Some e))) with (command_json a).
  cbn [executable argv cwd with_env].
  assert (Hs : SpawnArgumentsSchema (with_env a (Some e)) = SpawnArgumentsSchema (with_env a None)).
  { unfold SpawnArgumentsSchema, with_env. cbn [executable argv cwd spawn_env optional_ok]. by rewrite He. }
  rewrite Hs. destruct (negb _); [done |]. destruct (_ || _); [done |]. destruct (_ <? lsum _ _); [done |].
  destruct (Z.ltb_spec (Protocol.argvBytes M0_LIMITS) (encoded_bytes encodeUtf8 (stringify (command_json a)))) as [|Hfit]; [done |].
  intros _. cbv zeta. rewrite Ha. rewrite Hc, encoded_app in Hfit by done.
  fold (encoded_bytes encodeUtf8 (body +:+ env_text e +:+ "}")). rewrite !encoded_app by done.
  assert (H1 : encoded_bytes encodeUtf8 "}" = 1) by (unfold encoded_bytes; by rewrite (utf8_ascii laws)).
  assert (H2 : encoded_bytes encodeUtf8 (env_text e) = slen (env_text e)) by (unfold encoded_bytes; by rewrite (utf8_ascii laws)).
  pose proof (zlen_nonneg (encodeUtf8 body)) as Hb. fold (encoded_bytes encodeUtf8 body) in Hb.
  pose proof (slen_nonneg (env_text e)). rewrite H1 in Hfit. rewrite H1, H2. unfold SPAWN_PAYLOAD_BYTES.
  destruct (_ || _) eqn:Hr; [exfalso | by eexists].
  unfold SPAWN_ENV_PAYLOAD_BYTES in *.
  apply orb_true_iff in Hr as [Hr%Z.ltb_lt|Hr%Z.ltb_lt]; lia.
Qed.

(** Spawn payloads round-trip.  A payload is accepted exactly when it is the
    composition of the arguments it decodes to and the command names its
    length, and the identity variables never make a recipe that fitted before
    unframable: it composes with them too, and the worker reads it back. *)
Theorem spawn_payload_exact (laws : utf8_laws) :
  (forall n payload decoded a, validateSpawnPayload encodeUtf8 n payload decoded = Some a
     <-> decoded = Some a /\ composeSpawnPayload encodeUtf8 a = Some (a, payload) /\ n = zlen payload)
  /\ (forall a bytes e, SpawnEnvSchema e = true ->
        composeSpawnPayload encodeUtf8 (with_env a None) = Some (with_env a None, bytes) ->
        exists bytes', zlen bytes' <= SPAWN_PAYLOAD_BYTES
          /\ validateSpawnPayload encodeUtf8 (zlen bytes') bytes' (Some (with_env a (Some e))) = Some (with_env a (Some e))).
Proof.
  split; [apply validate_spawn_exact |]. intros a bytes e He Hc.
  destruct (compose_with_env laws a bytes e He Hc) as [bytes' Hb]. exists bytes'. split.
  - revert Hb. unfold composeSpawnPayload. repeat case_if; try done. intros [= <-]. bool_hyps. by apply Z.ltb_ge.
  - apply validate_spawn_exact. done.
Qed.

End spawn_facts.

(** UTF-8 of code units below 256. *)

Fixpoint latin_utf8 (s : string) : list Z :=
  match s with
  | EmptyString => []
  | String c rest =>
     let n := Z.of_nat (Ascii.nat_of_ascii c) in
     (if n <? 128 then [n] else [192 + n / 64; 128 + n mod 64]) ++ latin_utf8 rest
  end.

Lemma latin_utf8_laws : utf8_laws latin_utf8.
Proof.
  constructor.
  - intros s t. induction s as [|c s IH]; [done |]. change (String c s +:+ t) with (String c (s +:+ t)).
    cbn [latin_utf8]. by rewrite IH, app_assoc.
  - intros s. induction s as [|c s IH]; [done |]. cbn [latin_utf8 string_all]. intros [Hc Hs]%andb_true_iff.
    rewrite zlen_app, IH, slen_cons by done. unfold printable in Hc. apply andb_true_iff in Hc as [_ Hc%Nat.leb_le].
    by replace (Z.of_nat (Ascii.nat_of_ascii c) <? 128) with true by (symmetry; apply Z.ltb_lt; lia).
Defined.

Definition demo_recipe : SpawnArguments := mkSpawn "bash" ["-l"] "/tmp" None.

Lemma spawn_payload_exact_witness : exists bytes',
  validateSpawnPayload latin_utf8 (zlen bytes') bytes' (Some (with_env demo_recipe (Some (mkEnv (Some "task") None))))
  = Some (with_env demo_recipe (Some (mkEnv (Some "task") None))).
Proof.
  destruct (spawn_payload_exact latin_utf8 latin_utf8_laws) as [_ H].
  destruct (H demo_recipe (latin_utf8 (stringify (arguments_json demo_recipe))) (mkEnv (Some "task") None)) as (b & _ & Hb);
    [reflexivity | vm_compute; reflexivity | by exists b].
Defined.
