(* ===== verification/Operations.v ===== *)
(** * Operation records and receipts (packages/protocol/src/workspace.ts, rpc-methods.ts, rpc.ts)

    The record of an operation, with the schema every stored and sent record
    passes, the durable key of its receipt, the classification of a request
    against the receipts, and the rules of apps/server/src/operations/receipt-records.ts.
    As elsewhere a zod schema is a bool function on the typed value, an absent
    member is [None], and [encodeUtf8] is the host's encoder, an argument of the
    code too.  [intentDigest] is the hash the host provides. *)

From S2P Require Import Prelude Json Protocol Errors Terminal Pipe.

(** ** Methods (rpc-methods.ts) *)

Inductive WriteRpcMethod :=
  | w_terminal_create | w_terminal_stop | w_operation_continue | w_operation_abandon | w_config_set
  | w_repo_register | w_repo_update | w_repo_remove | w_task_create | w_task_update | w_task_archive
  | w_task_unarchive | w_mount_add | w_mount_remove | w_mount_retry | w_tab_create | w_tab_reopen
  | w_tab_stop | w_tab_close | w_tab_send | w_binding_convert | w_binding_delete | w_auth_invite_create
  | w_auth_invite_cancel | w_auth_device_rename | w_auth_device_revoke | w_auth_device_rotate
  | w_entry_set | w_server_tsnet_login | w_server_tsnet_logout.

#[export] Instance WriteRpcMethod_eq : EqDecision WriteRpcMethod.
Proof. solve_decision. Defined.

Definition method_name (m : WriteRpcMethod) : string :=
  match m with
  | w_terminal_create => "terminal.create" | w_terminal_stop => "terminal.stop"
  | w_operation_continue => "operation.continue" | w_operation_abandon => "operation.abandon"
  | w_config_set => "config.set" | w_repo_register => "repo.register" | w_repo_update => "repo.update"
  | w_repo_remove => "repo.remove" | w_task_create => "task.create" | w_task_update => "task.update"
  | w_task_archive => "task.archive" | w_task_unarchive => "task.unarchive" | w_mount_add => "mount.add"
  | w_mount_remove => "mount.remove" | w_mount_retry => "mount.retry" | w_tab_create => "tab.create"
  | w_tab_reopen => "tab.reopen" | w_tab_stop => "tab.stop" | w_tab_close => "tab.close"
  | w_tab_send => "tab.send" | w_binding_convert => "binding.convert" | w_binding_delete => "binding.delete"
  | w_auth_invite_create => "auth.invite.create" | w_auth_invite_cancel => "auth.invite.cancel"
  | w_auth_device_rename => "auth.device.rename" | w_auth_device_revoke => "auth.device.revoke"
  | w_auth_device_rotate => "auth.device.rotate" | w_entry_set => "entry.set"
  | w_server_tsnet_login => "server.tsnet.login" | w_server_tsnet_logout => "server.tsnet.logout"
  end.

Definition terminal_method (m : WriteRpcMethod) : bool :=
  match m with w_terminal_create | w_terminal_stop => true | _ => false end.

(** ** Members of a result (workspace.ts, auth.ts, bootstrap.ts) *)

Definition M1_mountsPerWorkspace : Z := 16.
Definition M1_progressTokens : Z := 8.
Definition M1_refChars : Z := 255.
Definition M1_storedErrorRuns : Z := 4.

(** [/^[A-Za-z0-9][A-Za-z0-9._-]{0,39}$/] *)

Definition ResourceIdSchema (s : string) : bool :=
  match s with
  | EmptyString => false
  | String c rest => is_alnum c && string_all is_opaque_tail rest && (slen rest <=? 39)
  end.

(** [/^[A-Za-z0-9][A-Za-z0-9_-]{0,39}$/] *)

Definition is_device_tail (c : Ascii.ascii) : bool :=
  let n := Ascii.nat_of_ascii c in is_alnum c || (n =? 95)%nat || (n =? 45)%nat.

Definition DeviceIdSchema (s : string) : bool :=
  match s with
  | EmptyString => false
  | String c rest => is_alnum c && string_all is_device_tail rest && (slen rest <=? 39)
  end.

Definition InviteIdSchema : string -> bool := DeviceIdSchema.

(** The characters the pattern of a git ref excludes: white space and
    [~ ^ : ? * \[ \\]. *)

Definition is_space (n : nat) : bool := ((9 <=? n) && (n <=? 13) || (n =? 32) || (n =? 160))%nat%bool.

Definition is_ref_char (c : Ascii.ascii) : bool :=
  let n := Ascii.nat_of_ascii c in
  negb (is_space n || (n =? 126) || (n =? 94) || (n =? 58) || (n =? 63) || (n =? 42) || (n =? 91) || (n =? 92))%nat.

Definition is_ref_printable (c : Ascii.ascii) : bool :=
  let n := Ascii.nat_of_ascii c in negb ((n <? 32) || (n =? 127))%nat.

Definition GitRefSchema (s : string) : bool :=
  (1 <=? slen s) && (slen s <=? M1_refChars)
  && match s with
     | EmptyString => false
     | String c rest =>
        is_ref_char c && negb (Ascii.nat_of_ascii c =? 45)%nat && string_all is_ref_char rest
     end
  && string_all is_ref_printable s.

Definition TimestampMsSchema : Z -> bool := SequenceSchema.

(** The schema [z.number().int().min(0)]: zod's integers are the safe ones. *)

Definition count_schema (n : Z) : bool := (0 <=? n) && (n <=? MAX_SAFE_INTEGER).

Inductive MountState := ms_pending | ms_ready | ms_failed | ms_missing.

Definition mount_state_name (s : MountState) : string :=
  match s with ms_pending => "pending" | ms_ready => "ready" | ms_failed => "failed" | ms_missing => "missing" end.

Inductive MountLeftover := left_worktree | left_branch | left_both.

#[export] Instance MountLeftover_eq : EqDecision MountLeftover.
Proof. solve_decision. Defined.

Definition leftover_name (l : MountLeftover) : string :=
  match l with left_worktree => "worktree" | left_branch => "branch" | left_both => "both" end.

Record MountOutcome := mkMountOutcome {
  mo_mountId : string; mo_state : MountState; mo_errorKind : option DomainErrorKind;
  mo_left : option MountLeftover; mo_branch : option string;
}.

Definition absent {A} (o : option A) : bool := match o with None => true | Some _ => false end.

Definition MountOutcomeSchema (o : MountOutcome) : bool :=
  ResourceIdSchema (mo_mountId o) && optional_ok GitRefSchema (mo_branch o)
  && (absent (mo_branch o) || bool_decide (mo_left o = Some left_branch) || bool_decide (mo_left o = Some left_both)).

Inductive ResourceKind := rk_repo | rk_task | rk_mount | rk_tab | rk_config.

Definition resource_kind_name (k : ResourceKind) : string :=
  match k with
  | rk_repo => "repo" | rk_task => "task" | rk_mount => "mount" | rk_tab => "tab" | rk_config => "config"
  end.

Record ResourceRef := mkResource { rr_kind : ResourceKind; rr_id : string; rr_revision : Z }.

Definition ResourceRefSchema (r : ResourceRef) : bool :=
  ResourceIdSchema (rr_id r) && SequenceSchema (rr_revision r).

Record SourceChanges := mkChanges { sc_staged : Z; sc_unstaged : Z; sc_untracked : Z }.

(** A member that is both optional and nullable has two levels of [option]. *)

Record OperationResultData := mkResultData {
  rd_run : option RunRef; rd_exitCode : option (option Z); rd_signal : option (option string);
  rd_resource : option ResourceRef; rd_input : option TabInputReceipt; rd_workspaceRevision : option Z;
  rd_mounts : option (list MountOutcome); rd_sourceChanges : option SourceChanges;
  rd_targetOperationId : option string;
  rd_inviteId : option string; rd_deviceId : option string; rd_expiresAtMs : option Z;
  rd_secretDelivery : option unit; rd_unclosedConnections : option Z; rd_appliesAfterRestart : option unit;
  rd_remoteLogoutConfirmed : option bool;
}.

Definition no_result : OperationResultData :=
  mkResultData None None None None None None None None None None None None None None None None.

(** The literal members of the M2 fields are [unit]: ["first-response-only"]
    and [true]. *)

Definition M2_RESULT_FIELDS (r : OperationResultData) : bool :=
  optional_ok InviteIdSchema (rd_inviteId r) && optional_ok DeviceIdSchema (rd_deviceId r)
  && optional_ok TimestampMsSchema (rd_expiresAtMs r)
  && optional_ok (fun n => (0 <=? n) && (n <=? 65536)) (rd_unclosedConnections r).

Definition mount_left (o : MountOutcome) : bool := negb (absent (mo_left o)).

Definition OperationResultDataSchema (r : OperationResultData) : bool :=
  optional_ok RunRefSchema (rd_run r)
  && optional_ok (optional_ok isSafeInteger) (rd_exitCode r)
  && optional_ok (optional_ok (fun s => slen s <=? 64)) (rd_signal r)
  && optional_ok ResourceRefSchema (rd_resource r)
  && optional_ok TabInputReceiptSchema (rd_input r)
  && optional_ok SequenceSchema (rd_workspaceRevision r)
  && optional_ok (fun ms => forallb MountOutcomeSchema ms && (zlen ms <=? M1_mountsPerWorkspace)) (rd_mounts r)
  && optional_ok (fun c => count_schema (sc_staged c) && count_schema (sc_unstaged c)
                           && count_schema (sc_untracked c)) (rd_sourceChanges r)
  && optional_ok OpaqueIdSchema (rd_targetOperationId r)
  && match rd_mounts r with
     | None => true
     | Some ms =>
        negb (existsb mount_left ms)
        || absent (rd_targetOperationId r)
           && (absent (rd_sourceChanges r) && forallb (fun m => absent (mo_branch m)) ms || (zlen ms =? 1))
     end.

(** The keys of a result, in the order of its schema. *)

Inductive ResultKey :=
  | key_run | key_exitCode | key_signal | key_resource | key_input | key_workspaceRevision | key_mounts
  | key_sourceChanges | key_targetOperationId | key_inviteId | key_deviceId | key_expiresAtMs
  | key_secretDelivery | key_unclosedConnections | key_appliesAfterRestart | key_remoteLogoutConfirmed.

#[export] Instance ResultKey_eq : EqDecision ResultKey.
Proof. solve_decision. Defined.

Definition TERMINAL_RESULT_KEYS : list ResultKey := [key_run; key_exitCode; key_signal].

Definition M2_RESULT_KEYS : list ResultKey :=
  [key_inviteId; key_deviceId; key_expiresAtMs; key_secretDelivery; key_unclosedConnections;
   key_appliesAfterRestart; key_remoteLogoutConfirmed].

Definition key_of {A} (k : ResultKey) (o : option A) : list ResultKey := if absent o then [] else [k].

Definition result_keys (r : OperationResultData) : list ResultKey :=
  key_of key_run (rd_run r) ++ key_of key_exitCode (rd_exitCode r) ++ key_of key_signal (rd_signal r)
  ++ key_of key_resource (rd_resource r) ++ key_of key_input (rd_input r)
  ++ key_of key_workspaceRevision (rd_workspaceRevision r) ++ key_of key_mounts (rd_mounts r)
  ++ key_of key_sourceChanges (rd_sourceChanges r) ++ key_of key_targetOperationId (rd_targetOperationId r)
  ++ key_of key_inviteId (rd_inviteId r) ++ key_of key_deviceId (rd_deviceId r)
  ++ key_of key_expiresAtMs (rd_expiresAtMs r) ++ key_of key_secretDelivery (rd_secretDelivery r)
  ++ key_of key_unclosedConnections (rd_unclosedConnections r)
  ++ key_of key_appliesAfterRestart (rd_appliesAfterRestart r)
  ++ key_of key_remoteLogoutConfirmed (rd_remoteLogoutConfirmed r).

Definition has_key (k : ResultKey) (ks : list ResultKey) : bool := bool_decide (k ∈ ks).

(** ** Records (rpc-methods.ts) *)

Inductive OperationState :=
  | os_accepted | os_running | os_recovering | os_requires_attention | os_succeeded | os_failed | os_cancelled.

#[export] Instance OperationState_eq : EqDecision OperationState.
Proof. solve_decision. Defined.

Definition operation_state_name (s : OperationState) : string :=
  match s with
  | os_accepted => "accepted" | os_running => "running" | os_recovering => "recovering"
  | os_requires_attention => "requires_attention" | os_succeeded => "succeeded" | os_failed => "failed"
  | os_cancelled => "cancelled"
  end.

Inductive RecoveryAction := act_continue | act_abandon.

Record OperationProgress := mkProgress {
  pg_completedSteps : list string; pg_remainingEffects : list string; pg_recoveryActions : list RecoveryAction;
}.

(** [/^[a-z][a-z0-9-]{0,31}$/] *)

Definition is_lower (c : Ascii.ascii) : bool := let n := Ascii.nat_of_ascii c in ((97 <=? n) && (n <=? 122))%nat%bool.

Definition is_token_tail (c : Ascii.ascii) : bool :=
  let n := Ascii.nat_of_ascii c in is_lower c || ((48 <=? n) && (n <=? 57))%nat%bool || (n =? 45)%nat.

Definition ProgressTokenSchema (s : string) : bool :=
  match s with
  | EmptyString => false
  | String c rest => is_lower c && string_all is_token_tail rest && (slen rest <=? 31)
  end.

Definition OperationProgressSchema (p : OperationProgress) : bool :=
  forallb ProgressTokenSchema (pg_completedSteps p) && (zlen (pg_completedSteps p) <=? M1_progressTokens)
  && forallb ProgressTokenSchema (pg_remainingEffects p) && (zlen (pg_remainingEffects p) <=? M1_progressTokens)
  && (zlen (pg_recoveryActions p) <=? 2).

Record OperationRecord := mkOperation {
  op_operationId : string; op_method : WriteRpcMethod; op_revision : Z; op_state : OperationState;
  op_run : option RunRef; op_result : option OperationResultData; op_progress : option OperationProgress;
  op_error : option DomainError;
}.

Definition OperationRecordResultSchema (r : OperationResultData) : bool :=
  OperationResultDataSchema r && M2_RESULT_FIELDS r
  && (forallb (fun k => negb (has_key k (result_keys r))) M2_RESULT_KEYS
      || absent (rd_mounts r) && absent (rd_sourceChanges r) && absent (rd_targetOperationId r)).

Definition OperationRecordFieldsSchema (r : OperationRecord) : bool :=
  OpaqueIdSchema (op_operationId r) && SequenceSchema (op_revision r) && optional_ok RunRefSchema (op_run r)
  && optional_ok OperationRecordResultSchema (op_result r)
  && optional_ok OperationProgressSchema (op_progress r) && optional_ok DomainErrorSchema (op_error r).

(** [value.error?.details] *)

Definition error_details (r : OperationRecord) : option (list RunRef) := op_error r ≫= err_details.

Definition storedDetailsAllowed (r : OperationRecord) : bool :=
  match error_details r with
  | None => true
  | Some runs => bool_decide (op_method r = w_binding_delete) && (zlen runs <=? M1_storedErrorRuns)
  end.

Definition M2_RECORD_RESULT_KEYS (m : WriteRpcMethod) : option (list ResultKey) :=
  match m with
  | w_auth_invite_create => Some [key_inviteId; key_expiresAtMs; key_secretDelivery]
  | w_auth_invite_cancel => Some [key_inviteId]
  | w_auth_device_rename => Some [key_deviceId]
  | w_auth_device_revoke => Some [key_deviceId; key_unclosedConnections]
  | w_auth_device_rotate => Some [key_deviceId; key_expiresAtMs; key_secretDelivery]
  | w_entry_set => Some [key_resource; key_appliesAfterRestart]
  | w_server_tsnet_login => Some [key_secretDelivery]
  | w_server_tsnet_logout => Some [key_remoteLogoutConfirmed]
  | _ => None
  end.

Definition record_keys (r : OperationRecord) : list ResultKey :=
  match op_result r with Some d => result_keys d | None => [] end.

Definition m2ProjectionHolds (r : OperationRecord) : bool :=
  match M2_RECORD_RESULT_KEYS (op_method r) with
  | None => forallb (fun k => negb (has_key k M2_RESULT_KEYS)) (record_keys r)
  | Some allowed => absent (op_run r) && forallb (fun k => has_key k allowed) (record_keys r)
  end.

(** The refinement of a [tab.send] record, and of every other one. *)

Definition send_record_ok (r : OperationRecord) : bool :=
  if decide (op_method r = w_tab_send)
  then match op_run r, op_result r ≫= rd_input with
       | Some _, Some input =>
          forallb (fun k => has_key k [key_resource; key_input]) (record_keys r)
          && (negb (bool_decide (op_state r = os_succeeded))
              || part_is part_written (rcpt_text input)
                 && match rcpt_submit input with None => true | Some s => part_is part_written s end)
       | _, _ => false
       end
  else absent (op_result r ≫= rd_input).

Definition OperationRecordSchema (r : OperationRecord) : bool :=
  let terminal := terminal_method (op_method r) in
  OperationRecordFieldsSchema r
  && (negb terminal || negb (absent (op_run r)))
  && forallb (fun k => Bool.eqb (has_key k TERMINAL_RESULT_KEYS) terminal) (record_keys r)
  && storedDetailsAllowed r
  && m2ProjectionHolds r
  && send_record_ok r
  && match op_run r, op_result r ≫= rd_run with
     | Some run, Some run' => sameRunRef run run'
     | _, _ => true
     end.

(** ** The text of a record

    [JSON.stringify] of the parsed record: the members in the order of the
    schema, the absent ones left out. *)

Definition acceptance_name (a : Acceptance) : string :=
  match a with acc_not_accepted => "not-accepted" | acc_accepted => "accepted" | acc_unknown => "unknown" end.

Definition next_action_name (a : NextAction) : string :=
  match a with
  | next_none => "none" | next_reauthenticate => "reauthenticate" | next_renegotiate => "renegotiate"
  | next_refresh_control => "refresh-control" | next_new_subscription => "new-subscription"
  | next_query_operation => "query-operation" | next_inspect_run => "inspect-run"
  | next_refresh_resource => "refresh-resource" | next_fix_request => "fix-request"
  end.

Definition DomainError_json (e : DomainError) : json :=
  JObj ([("kind", JStr (kind_name (err_kind e))); ("code", JNum (err_code e)); ("message", JStr (err_message e));
         ("acceptance", JStr (acceptance_name (err_acceptance e)));
         ("nextAction", JStr (next_action_name (err_nextAction e)))]
        ++ (if err_subject e then [("subject", JStr "input")] else [])
        ++ optional_member "details" (fun runs => JObj [("runs", JArr (map RunRef_json runs))]) (err_details e)).

Definition part_status_name (s : PartStatus) : string :=
  match s with
  | part_written => "written" | part_notSent => "notSent" | part_partial => "partial" | part_unknown => "unknown"
  end.

Definition InputPartReceipt_json (r : InputPartReceipt) : json :=
  JObj ([("status", JStr (part_status_name (part_status r))); ("requestedBytes", JNum (requestedBytes r));
         ("writtenBytes", JNum (part_writtenBytes r)); ("unknownBytes", JNum (unknownBytes r))]
        ++ optional_member "reason" JStr (part_reason r)).

Definition TabInputReceipt_json (r : TabInputReceipt) : json :=
  JObj [("text", InputPartReceipt_json (rcpt_text r)); ("submit", nullable InputPartReceipt_json (rcpt_submit r))].

Definition MountOutcome_json (o : MountOutcome) : json :=
  JObj ([("mountId", JStr (mo_mountId o)); ("state", JStr (mount_state_name (mo_state o)))]
        ++ optional_member "errorKind" (fun k => JStr (kind_name k)) (mo_errorKind o)
        ++ optional_member "left" (fun l => JStr (leftover_name l)) (mo_left o)
        ++ optional_member "branch" JStr (mo_branch o)).

Definition ResourceRef_json (r : ResourceRef) : json :=
  JObj [("kind", JStr (resource_kind_name (rr_kind r))); ("id", JStr (rr_id r)); ("revision", JNum (rr_revision r))].

Definition SourceChanges_json (c : SourceChanges) : json :=
  JObj [("staged", JNum (sc_staged c)); ("unstaged", JNum (sc_unstaged c)); ("untracked", JNum (sc_untracked c))].

Definition OperationResultData_json (r : OperationResultData) : json :=
  JObj (optional_member "run" RunRef_json (rd_run r)
        ++ optional_member "exitCode" (nullable JNum) (rd_exitCode r)
        ++ optional_member "signal" (nullable JStr) (rd_signal r)
        ++ optional_member "resource" ResourceRef_json (rd_resource r)
        ++ optional_member "input" TabInputReceipt_json (rd_input r)
        ++ optional_member "workspaceRevision" JNum (rd_workspaceRevision r)
        ++ optional_member "mounts" (fun ms => JArr (map MountOutcome_json ms)) (rd_mounts r)
        ++ optional_member "sourceChanges" SourceChanges_json (rd_sourceChanges r)
        ++ optional_member "targetOperationId" JStr (rd_targetOperationId r)
        ++ optional_member "inviteId" JStr (rd_inviteId r)
        ++ optional_member "deviceId" JStr (rd_deviceId r)
        ++ optional_member "expiresAtMs" JNum (rd_expiresAtMs r)
        ++ optional_member "secretDelivery" (fun _ => JStr "first-response-only") (rd_secretDelivery r)
        ++ optional_member "unclosedConnections" JNum (rd_unclosedConnections r)
        ++ optional_member "appliesAfterRestart" (fun _ => JBool true) (rd_appliesAfterRestart r)
        ++ optional_member "remoteLogoutConfirmed" JBool (rd_remoteLogoutConfirmed r)).

Definition recovery_action_name (a : RecoveryAction) : string :=
  match a with act_continue => "continue" | act_abandon => "abandon" end.

Definition OperationProgress_json (p : OperationProgress) : json :=
  JObj [("completedSteps", JArr (map JStr (pg_completedSteps p)));
        ("remainingEffects", JArr (map JStr (pg_remainingEffects p)));
        ("recoveryActions", JArr (map (fun a => JStr (recovery_action_name a)) (pg_recoveryActions p)))].

Definition OperationRecord_json (r : OperationRecord) : json :=
  JObj ([("operationId", JStr (op_operationId r)); ("method", JStr (method_name (op_method r)));
         ("revision", JNum (op_revision r)); ("state", JStr (operation_state_name (op_state r)))]
        ++ optional_member "run" RunRef_json (op_run r)
        ++ optional_member "result" OperationResultData_json (op_result r)
        ++ optional_member "progress" OperationProgress_json (op_progress r)
        ++ optional_member "error" DomainError_json (op_error r)).

(** ** Secrets (rpc-methods.ts)

    Whether a decoded string of a value, a member name or a string at any
    depth, contains a secret.  [pending]'s head is its end, where [pop] works;
    [Object.entries] of an array names its items by their index. *)

Definition includes (text secret : string) : bool :=
  match String.index 0 secret text with Some _ => true | None => false end.

Definition hit (secrets : list string) (text : string) : bool := existsb (includes text) secrets.

Definition entries (v : json) : list (string * json) :=
  match v with
  | JArr items => imap (fun i x => (pretty (Z.of_nat i), x)) items
  | JObj members => members
  | _ => []
  end.

(** One object's turn: [None] is the early [return true]. *)

Fixpoint push_entries (secrets : list string) (members : list (string * json)) (pending : list json)
    : option (list json) :=
  match members with
  | [] => Some pending
  | (key, member) :: rest => if hit secrets key then None else push_entries secrets rest (member :: pending)
  end.

Fixpoint holds_loop (fuel : nat) (secrets : list string) (pending : list json) : option bool :=
  match fuel with
  | O => None
  | S fuel =>
     match pending with
     | [] => Some false
     | JStr s :: pending => if hit secrets s then Some true else holds_loop fuel secrets pending
     | v :: pending =>
        match push_entries secrets (entries v) pending with
        | None => Some true
        | Some pending => holds_loop fuel secrets pending
        end
     end
  end.

(** The number of values of a tree: one turn of the loop each. *)

Fixpoint json_size (v : json) : nat :=
  match v with
  | JArr items => S (sum_list_with json_size items)
  | JObj members => S (sum_list_with (fun kv => json_size kv.2) members)
  | _ => 1
  end.

Definition holdsSecret (v : json) (secrets : list string) : option bool :=
  match secrets with [] => Some false | _ => holds_loop (S (json_size v)) secrets [v] end.

(** ** Receipts (rpc.ts) *)

Record OperationReceiptKey := mkKey { key_serverId : string; key_principalId : string; key_operationId : string }.

#[export] Instance OperationReceiptKey_eq : EqDecision OperationReceiptKey.
Proof. solve_decision. Defined.

Definition OperationReceiptKeySchema (k : OperationReceiptKey) : bool :=
  OpaqueIdSchema (key_serverId k) && OpaqueIdSchema (key_principalId k) && OpaqueIdSchema (key_operationId k).

Record StoredReceipt := mkStored { st_key : OperationReceiptKey; st_canonicalIntent : string; st_record : OperationRecord }.

Inductive ReceiptAdmission := adm_existing | adm_conflict | adm_busy | adm_reserve | adm_invalid.

#[export] Instance ReceiptAdmission_eq : EqDecision ReceiptAdmission.
Proof. solve_decision. Defined.

Section encoded.
Context (encodeUtf8 : string -> list Z).

Definition classifyReceiptAdmission (key : OperationReceiptKey) (canonicalIntent : string)
    (existing : option StoredReceipt) (receiptCount receiptLimit : Z) : ReceiptAdmission :=
  if negb (OperationReceiptKeySchema key)
     || negb (isSafeInteger receiptCount) || (receiptCount <? 0)
     || negb (isSafeInteger receiptLimit) || (receiptLimit <? 1) || (operationReceipts M0_LIMITS <? receiptLimit)
     || (slen canonicalIntent =? 0)
     || (canonicalIntentBytes M0_LIMITS <? encoded_bytes encodeUtf8 canonicalIntent)
  then adm_invalid
  else match existing with
       | Some e =>
          if negb (bool_decide (key = st_key e)) then adm_invalid
          else if seqb (st_canonicalIntent e) canonicalIntent then adm_existing else adm_conflict
       | None => if receiptLimit <=? receiptCount then adm_busy else adm_reserve
       end.

Definition record_bytes (r : OperationRecord) : Z := encoded_bytes encodeUtf8 (stringify (OperationRecord_json r)).

Definition validateOperationRecord (r : OperationRecord) : option OperationRecord :=
  if negb (bool_decide (boundedJsonStructure json_look (OperationRecord_json r) = Some true)) then None
  else if negb (OperationRecordSchema r) then None
  else if record_bytes r <=? operationRecordBytes M0_LIMITS then Some r else None.

(** ** Receipt rules (receipt-records.ts) *)

Record ReceiptLimits := mkLimits { lim_serverId : string; lim_operationRecordBytes : Z }.

Definition checkedReceiptRecord (key : OperationReceiptKey) (record : OperationRecord) (limits : ReceiptLimits)
    : option OperationRecord :=
  match validateOperationRecord record with
  | None => None
  | Some checked =>
     if (lim_operationRecordBytes limits <? record_bytes checked)
        || negb (seqb (op_operationId checked) (key_operationId key))
        || match op_run checked with Some run => negb (seqb (run_serverId run) (lim_serverId limits)) | None => false end
     then None else Some checked
  end.

End encoded.

Definition RECEIPT_RETENTION_MS : Z := 30 * 24 * 60 * 60 * 1000.

(** What a purge leaves of a receipt; its state is one of [succeeded],
    [failed] and [cancelled]. *)

Record ReceiptTombstone := mkTombstone {
  tomb_key : OperationReceiptKey; tomb_method : WriteRpcMethod; tomb_state : OperationState;
  tomb_intentDigest : string; tomb_endedAtMs : Z;
}.

Inductive Found :=
  | F_receipt (r : StoredReceipt)
  | F_tombstone (t : ReceiptTombstone).

Definition isTombstone (found : option Found) : option ReceiptTombstone :=
  match found with Some (F_tombstone t) => Some t | _ => None end.

Record PurgeArgs := mkPurge { pu_now : Z; pu_retentionMs : Z; pu_limit : Z; pu_highestRun : Z }.

Record PurgeBatch := mkBatch { pb_purged : Z; pb_more : bool }.
