(* ===== verification/OperationBounds.v ===== *)
(** * The size and the secrets of operation records

    The text of a schema-valid record: how many bytes it takes at most, so that
    an executed operation can always be recorded; and the exact meaning of the
    secret boundary.  Sizes are bounded on the tree: the weight of a value is
    at least the bytes of its text. *)

From S2P Require Import Prelude Json Protocol Errors Terminal Pipe Operations.

(** ** Decimal numbers *)

Lemma pretty_N_go_bound k x s : (x < 10 ^ N.of_nat k)%N -> string_all printable s = true ->
  string_all printable (pretty_N_go x s) = true /\ slen s <= slen (pretty_N_go x s) <= Z.of_nat k + slen s.
Proof.
  revert x s. induction k as [|k IH]; intros x s Hx Hs.
  - change (10 ^ N.of_nat 0)%N with 1%N in Hx. assert (x = 0%N) as -> by lia.
    rewrite pretty_N_go_0. split; [done | lia].
  - destruct (decide (x = 0%N)) as [->|Hx0]; [rewrite pretty_N_go_0; split; [done | lia] |].
    rewrite pretty_N_go_step by lia.
    assert (Hd : (x `div` 10 < 10 ^ N.of_nat k)%N).
    { apply N.Div0.div_lt_upper_bound. rewrite Nat2N.inj_succ, N.pow_succ_r' in Hx. lia. }
    assert (Hc : printable (pretty_N_char (x `mod` 10)) = true).
    { unfold pretty_N_char. by repeat case_match. }
    destruct (IH (x `div` 10)%N (String (pretty_N_char (x `mod` 10)) s) Hd) as [H1 H2].
    { cbn [string_all]. by rewrite Hc. }
    rewrite slen_cons in H2. split; [done | lia].
Qed.

Lemma pretty_bound (n : Z) : isSafeInteger n = true ->
  string_all printable (pretty n) = true /\ slen (pretty n) <= 17.
Proof.
  unfold isSafeInteger, MAX_SAFE_INTEGER. rewrite andb_true_iff, !Z.leb_le. intros [Hl Hu].
  assert (Hgo : forall p, Z.pos p < 10 ^ 16 ->
    string_all printable (pretty_N_go (N.pos p) EmptyString) = true
    /\ slen (pretty_N_go (N.pos p) EmptyString) <= 16).
  { intros p Hp. destruct (pretty_N_go_bound 16 (N.pos p) EmptyString) as [H1 H2]; [|done|].
    - change (10 ^ N.of_nat 16)%N with 10000000000000000%N. lia.
    - split; [done |]. change (slen EmptyString) with 0 in H2. lia. }
  destruct n as [|p|p].
  - vm_compute. split; [done | discriminate].
  - destruct (Hgo p ltac:(lia)) as [H1 H2]. change (pretty (Z.pos p)) with (pretty_N_go (N.pos p) EmptyString).
    split; [done | lia].
  - destruct (Hgo p ltac:(lia)) as [H1 H2].
    change (pretty (Z.neg p)) with ("-" +:+ pretty_N_go (N.pos p) EmptyString).
    rewrite string_all_app, H1, slen_app. change (slen "-") with 1. split; [done | lia].
Qed.

Lemma pretty_N_go_spelled p :
  string_all printable (pretty_N_go (N.pos p) EmptyString) = true /\ 1 <= slen (pretty_N_go (N.pos p) EmptyString).
Proof.
  assert (Hp : (N.pos p < 10 ^ N.of_nat (Pos.to_nat p))%N).
  { rewrite positive_nat_N. apply N.pow_gt_lin_r. lia. }
  rewrite pretty_N_go_step by lia.
  destruct (pretty_N_go_bound (Pos.to_nat p) (N.pos p `div` 10) (String (pretty_N_char (N.pos p `mod` 10)) EmptyString)) as [H1 H2].
  - apply (N.le_lt_trans _ (N.pos p)); [| done]. apply N.Div0.div_le_upper_bound. lia.
  - cbn [string_all]. unfold pretty_N_char. by repeat case_match.
  - rewrite slen_cons in H2. change (slen EmptyString) with 0 in H2. split; [done | lia].
Qed.

Lemma pretty_spelled (n : Z) : string_all printable (pretty n) = true /\ 1 <= slen (pretty n).
Proof.
  destruct n as [|p|p].
  - vm_compute. split; [done | discriminate].
  - apply pretty_N_go_spelled.
  - destruct (pretty_N_go_spelled p) as [H1 H2].
    change (pretty (Z.neg p)) with ("-" +:+ pretty_N_go (N.pos p) EmptyString).
    rewrite string_all_app, H1, slen_app. change (slen "-") with 1. split; [done | lia].
Qed.

(** ** Texts *)

Section text.
Context (encodeUtf8 : string -> list Z) (laws : utf8_laws encodeUtf8)
  (utf8_unit : forall c, zlen (encodeUtf8 (String c EmptyString)) <= 3).

#[local] Abbreviation tb := (encoded_bytes encodeUtf8).

Lemma tb_nonneg s : 0 <= tb s.
Proof. apply zlen_nonneg. Qed.

Lemma tb_app s t : tb (s +:+ t) = tb s + tb t.
Proof. by apply encoded_app. Qed.

Lemma tb_ascii s : string_all printable s = true -> tb s = slen s.
Proof. apply (utf8_ascii _ laws). Qed.

(** A character class whose members take at most [k] bytes once quoted. *)

Lemma tb_class (p : Ascii.ascii -> bool) k s : (forall c, p c = true -> tb (quote_unit c) <= k) ->
  string_all p s = true -> tb (quote_units s) <= k * slen s.
Proof.
  intros Hp. induction s as [|c s IH]; [intros _; rewrite tb_ascii by done; change (slen EmptyString) with 0; change (slen (quote_units EmptyString)) with 0; lia |].
  cbn [string_all quote_units]. intros [Hc Hs]%andb_true_iff. specialize (IH Hs). specialize (Hp c Hc).
  rewrite tb_app, slen_cons. lia.
Qed.

Lemma quote_unit_cases c :
  string_all printable (quote_unit c) = true /\ slen (quote_unit c) <= (if is_ref_printable c then 2 else 6)
  \/ quote_unit c = String c EmptyString.
Proof.
  destruct c as [b0 b1 b2 b3 b4 b5 b6 b7].
  destruct b0, b1, b2, b3, b4, b5, b6, b7; vm_compute; auto; left; split; congruence.
Qed.

Lemma unit_any c : tb (quote_unit c) <= 6.
Proof.
  destruct (quote_unit_cases c) as [[H1 H2]| ->].
  - rewrite tb_ascii by done. destruct (is_ref_printable c); lia.
  - pose proof (utf8_unit c). unfold encoded_bytes. lia.
Qed.

Lemma unit_ref c : is_ref_printable c = true -> tb (quote_unit c) <= 3.
Proof.
  intros Hc. destruct (quote_unit_cases c) as [[H1 H2]| ->].
  - rewrite tb_ascii by done. rewrite Hc in H2. lia.
  - apply utf8_unit.
Qed.

(** Characters JSON prints as themselves. *)

Definition plain (c : Ascii.ascii) : bool :=
  let n := Ascii.nat_of_ascii c in printable c && negb ((n =? 34) || (n =? 92))%nat.

Lemma plain_unit c : plain c = true -> tb (quote_unit c) <= 1.
Proof.
  intros Hc. assert (quote_unit c = String c EmptyString /\ printable c = true) as [-> H].
  { destruct c as [b0 b1 b2 b3 b4 b5 b6 b7].
    destruct b0, b1, b2, b3, b4, b5, b6, b7; vm_compute in Hc |- *; congruence || (split; congruence). }
  rewrite tb_ascii; [done |]. cbn [string_all]. by rewrite H.
Qed.

Lemma plain_bytes s : string_all plain s = true -> tb (quote_units s) <= slen s.
Proof. intros Hs. pose proof (tb_class plain 1 s plain_unit Hs). lia. Qed.

Lemma string_all_impl (p q : Ascii.ascii -> bool) s : (forall c, p c = true -> q c = true) ->
  string_all p s = true -> string_all q s = true.
Proof.
  intros Hpq. induction s as [|c s IH]; [done |]. cbn [string_all]. rewrite !andb_true_iff.
  intros [Hc Hs]. auto.
Qed.

Lemma any_bytes s : tb (quote_units s) <= 6 * slen s.
Proof.
  apply (tb_class (fun _ => true)); [intros; apply unit_any |].
  induction s; [done | by cbn].
Qed.

(** ** The weight of a value *)

Definition wstr (s : string) : Z := 2 + tb (quote_units s).

Fixpoint weight (v : json) : Z :=
  match v with
  | JNull => 4
  | JBool _ => 5
  | JNum n => tb (pretty n)
  | JInf _ => 4
  | JStr s => wstr s
  | JArr items => 2 + lsum (fun v => 1 + weight v) items
  | JObj members => 2 + lsum (fun kv => 2 + wstr kv.1 + weight kv.2) members
  end.

Lemma tb_quote s : tb (quote s) = wstr s.
Proof.
  unfold quote, wstr. rewrite !tb_app. rewrite (tb_ascii dquote) by done. change (slen dquote) with 1. lia.
Qed.

Lemma tb_comma_join l : tb (comma_join l) <= lsum (fun s => 1 + tb s) l.
Proof.
  induction l as [|s l IH]; [by rewrite tb_ascii |]. rewrite lsum_cons.
  destruct l as [|t l]; [cbn [comma_join]; rewrite lsum_nil; lia |].
  change (comma_join (s :: t :: l)) with (s +:+ "," +:+ comma_join (t :: l)).
  rewrite !tb_app, (tb_ascii ",") by done. change (slen ",") with 1. lia.
Qed.

Fixpoint weight_ok (v : json) : tb (stringify v) <= weight v.
Proof.
  destruct v as [|b|n|neg|s|items|members].
  - by rewrite tb_ascii.
  - destruct b; rewrite tb_ascii by done; cbn; [change (slen "true") with 4 | change (slen "false") with 5]; lia.
  - cbn. lia.
  - by rewrite tb_ascii.
  - cbn [stringify weight]. by rewrite tb_quote.
  - cbn [stringify weight]. rewrite !tb_app, (tb_ascii "["), (tb_ascii "]") by done.
    change (slen "[") with 1. change (slen "]") with 1.
    assert (H : lsum (fun s => 1 + tb s) (map stringify items) <= lsum (fun v => 1 + weight v) items).
    { induction items as [|v items IH]; [done |]. cbn [map]. rewrite !lsum_cons.
      pose proof (weight_ok v). lia. }
    pose proof (tb_comma_join (map stringify items)). lia.
  - cbn [stringify weight]. rewrite !tb_app, (tb_ascii "{"), (tb_ascii "}") by done.
    change (slen "{") with 1. change (slen "}") with 1.
    set (member := fun kv : string * json => quote kv.1 +:+ ":" +:+ stringify kv.2).
    assert (H : lsum (fun s => 1 + tb s) (map member members)
                <= lsum (fun kv => 2 + wstr kv.1 + weight kv.2) members).
    { induction members as [|[k v] members IH]; [done |]. cbn [map]. rewrite !lsum_cons.
      pose proof (weight_ok v). unfold member at 1. cbn [fst snd].
      rewrite !tb_app, tb_quote, (tb_ascii ":") by done. change (slen ":") with 1. lia. }
    pose proof (tb_comma_join (map member members)). lia.
Qed.

(** ** Identifiers *)

Ltac all_chars :=
  intros [b0 b1 b2 b3 b4 b5 b6 b7];
  destruct b0, b1, b2, b3, b4, b5, b6, b7; vm_compute; congruence.

Lemma alnum_plain c : is_alnum c = true -> plain c = true.
Proof. revert c. all_chars. Qed.

Lemma opaque_tail_plain c : is_opaque_tail c = true -> plain c = true.
Proof. revert c. all_chars. Qed.

Lemma device_tail_plain c : is_device_tail c = true -> plain c = true.
Proof. revert c. all_chars. Qed.

Lemma lower_plain c : is_lower c = true -> plain c = true.
Proof. revert c. all_chars. Qed.

Lemma token_tail_plain c : is_token_tail c = true -> plain c = true.
Proof. revert c. all_chars. Qed.

Lemma wstr_plain s n : string_all plain s = true -> slen s <= n -> wstr s <= 2 + n.
Proof. intros Hp Hl. unfold wstr. pose proof (plain_bytes s Hp). lia. Qed.

(** An identifier: a first character, a class for the others, a length. *)

Lemma ident_bytes (p q : Ascii.ascii -> bool) n c s :
  (forall c, p c = true -> plain c = true) -> (forall c, q c = true -> plain c = true) ->
  p c && string_all q s && (slen s <=? n) = true -> wstr (String c s) <= 3 + n.
Proof.
  intros Hp Hq. rewrite !andb_true_iff, Z.leb_le. intros [[Hc Hs] Hl].
  pose proof (wstr_plain (String c s) (1 + n)) as H. rewrite slen_cons in H. cbn [string_all] in H.
  rewrite (Hp c Hc), (string_all_impl q plain s Hq Hs) in H. specialize (H eq_refl). lia.
Qed.

Lemma opaque_bytes s : OpaqueIdSchema s = true -> wstr s <= 130.
Proof. destruct s as [|c s]; [done |]. apply (ident_bytes is_alnum is_opaque_tail 127); auto using alnum_plain, opaque_tail_plain. Qed.

Lemma resource_bytes s : ResourceIdSchema s = true -> wstr s <= 42.
Proof. destruct s as [|c s]; [done |]. apply (ident_bytes is_alnum is_opaque_tail 39); auto using alnum_plain, opaque_tail_plain. Qed.

Lemma device_bytes s : DeviceIdSchema s = true -> wstr s <= 42.
Proof. destruct s as [|c s]; [done |]. apply (ident_bytes is_alnum is_device_tail 39); auto using alnum_plain, device_tail_plain. Qed.

Lemma token_bytes s : ProgressTokenSchema s = true -> wstr s <= 34.
Proof. destruct s as [|c s]; [done |]. apply (ident_bytes is_lower is_token_tail 31); auto using lower_plain, token_tail_plain. Qed.

Lemma ref_bytes s : GitRefSchema s = true -> wstr s <= 767.
Proof.
  unfold GitRefSchema, M1_refChars. rewrite !andb_true_iff, !Z.leb_le. intros [[[_ Hl] _] Hp].
  pose proof (tb_class is_ref_printable 3 s unit_ref Hp). unfold wstr. lia.
Qed.

Lemma any_wstr s n : slen s <= n -> wstr s <= 2 + 6 * n.
Proof. pose proof (any_bytes s). unfold wstr. lia. Qed.

Lemma kind_bytes k : wstr (kind_name k) <= 32 /\ wstr (underscores_to_spaces (kind_name k)) <= 32.
Proof. destruct k; (split; (apply (wstr_plain _ 30); [reflexivity | vm_compute; congruence])). Qed.

Lemma num_bytes n : isSafeInteger n = true -> weight (JNum n) <= 17.
Proof. intros Hn. destruct (pretty_bound n Hn) as [H1 H2]. cbn [weight]. by rewrite tb_ascii. Qed.

Lemma sequence_bytes n : SequenceSchema n = true -> weight (JNum n) <= 17.
Proof.
  unfold SequenceSchema. rewrite andb_true_iff, !Z.leb_le. intros [H1 H2]. apply num_bytes.
  unfold isSafeInteger. rewrite andb_true_iff, !Z.leb_le. unfold MAX_SAFE_INTEGER in *. lia.
Qed.

(** ** Objects *)

Definition wm (kv : string * json) : Z := 2 + wstr kv.1 + weight kv.2.

Lemma weight_obj ms : weight (JObj ms) = 2 + lsum wm ms.
Proof. reflexivity. Qed.

Lemma wm_le k v n m : (string_all plain k && (slen k <=? n))%bool = true -> weight v <= m -> wm (k, v) <= 4 + n + m.
Proof.
  rewrite andb_true_iff, Z.leb_le. intros [H1 H2] Hv. pose proof (wstr_plain k n H1 H2).
  unfold wm. cbn [fst snd]. lia.
Qed.

Definition present {A} (o : option A) (n : Z) : Z := match o with Some _ => n | None => 0 end.

Lemma optional_le {A} k (f : A -> json) o n m : (string_all plain k && (slen k <=? n))%bool = true ->
  (forall x, o = Some x -> weight (f x) <= m) -> lsum wm (optional_member k f o) <= present o (4 + n + m).
Proof.
  intros Hk Hm. destruct o as [x|]; cbn [optional_member present]; [| done].
  rewrite lsum_cons, lsum_nil. pose proof (wm_le k (f x) n m Hk (Hm x eq_refl)). lia.
Qed.

Lemma optional_ok_some {A} (p : A -> bool) o x : optional_ok p o = true -> o = Some x -> p x = true.
Proof. by intros H ->. Qed.

Lemma weight_arr items k m : (forall v, v ∈ items -> weight v <= m) -> zlen items <= k -> 0 <= m ->
  weight (JArr items) <= 2 + k * (1 + m).
Proof.
  intros Hm Hk H0. cbn [weight].
  assert (lsum (fun v => 1 + weight v) items <= zlen items * (1 + m)).
  { clear Hk. induction items as [|v items IH]; [done |]. rewrite lsum_cons, zlen_cons.
    assert (weight v <= m) by (apply Hm; by left).
    assert (lsum (fun v => 1 + weight v) items <= zlen items * (1 + m)) by (apply IH; intros; apply Hm; by right). lia. }
  pose proof (zlen_nonneg items). nia.
Qed.

Lemma weight_map {A} (f : A -> json) (p : A -> bool) l k m :
  (forall x, p x = true -> weight (f x) <= m) -> forallb p l = true -> zlen l <= k -> 0 <= m ->
  weight (JArr (map f l)) <= 2 + k * (1 + m).
Proof.
  intros Hf Hp Hk. apply weight_arr; [| by rewrite zlen_map].
  intros v Hv. apply list_elem_of_In, in_map_iff in Hv as (x & <- & Hx).
  rewrite forallb_forall in Hp. auto.
Qed.

Lemma str_le s n : (string_all plain s && (slen s <=? n))%bool = true -> weight (JStr s) <= 2 + n.
Proof. rewrite andb_true_iff, Z.leb_le. intros [H1 H2]. by apply wstr_plain. Qed.

(** Unfolds an object with known members into the weights of its parts. *)

Ltac weigh := rewrite weight_obj, ?lsum_app, ?lsum_cons, ?lsum_nil.

Ltac member k v n m H :=
  let E := fresh in
  assert (E : weight v <= m) by H;
  pose proof (wm_le k v n m eq_refl E); clear E.

(** ** The members of a record *)

Ltac ands H := rewrite ?andb_true_iff in H; destruct_and? H.

Lemma run_weight r : RunRefSchema r = true -> weight (RunRef_json r) <= 432.
Proof.
  unfold RunRefSchema. intros H. rewrite !andb_true_iff in H. destruct H as [[H1%opaque_bytes H2%opaque_bytes] H3%opaque_bytes].
  unfold RunRef_json. weigh.
  pose proof (wm_le "serverId" (JStr (run_serverId r)) 8 130 eq_refl H1).
  pose proof (wm_le "relayInstanceId" (JStr (run_relayInstanceId r)) 15 130 eq_refl H2).
  pose proof (wm_le "runId" (JStr (run_runId r)) 5 130 eq_refl H3). lia.
Qed.

Lemma error_weight e : DomainErrorSchema e = true -> err_details e = None -> weight (DomainError_json e) <= 188.
Proof.
  unfold DomainErrorSchema, DomainErrorFieldsSchema. rewrite !andb_true_iff.
  intros [[[[[[[[Hc1 Hc2] _] _] _] Hm] _] _] _] Hd.
  unfold DomainError_json. rewrite Hd. cbn [optional_member]. weigh.
  unfold seqb in Hm. apply String.eqb_eq in Hm.
  destruct (kind_bytes (err_kind e)) as [Hk Hk2]. rewrite <- Hm in Hk2.
  pose proof (wm_le "kind" (JStr (kind_name (err_kind e))) 4 32 eq_refl Hk).
  pose proof (wm_le "message" (JStr (err_message e)) 7 32 eq_refl Hk2).
  assert (Hcode : weight (JNum (err_code e)) <= 17).
  { apply sequence_bytes. unfold SequenceSchema. rewrite andb_true_iff, !Z.leb_le in *.
    change (1000 + zlen DOMAIN_ERROR_KINDS - 1) with 1053 in Hc2. change MAX_SAFE_INTEGER with 9007199254740991. lia. }
  pose proof (wm_le "code" _ 4 17 eq_refl Hcode).
  assert (Ha : weight (JStr (acceptance_name (err_acceptance e))) <= 2 + 12) by (apply str_le; by destruct (err_acceptance e)).
  pose proof (wm_le "acceptance" _ 10 _ eq_refl Ha).
  assert (Hn : weight (JStr (next_action_name (err_nextAction e))) <= 2 + 16) by (apply str_le; by destruct (err_nextAction e)).
  pose proof (wm_le "nextAction" _ 10 _ eq_refl Hn).
  assert (Hs : lsum wm (if err_subject e then [("subject", JStr "input")] else []) <= 18).
  { destruct (err_subject e); [| done]. rewrite lsum_cons, lsum_nil.
    pose proof (wm_le "subject" (JStr "input") 7 7 eq_refl (str_le "input" 5 eq_refl)). lia. }
  lia.
Qed.

Lemma action_weight a : weight (JStr (recovery_action_name a)) <= 10.
Proof. apply (str_le _ 8). by destruct a. Qed.

Lemma progress_weight p : OperationProgressSchema p = true -> weight (OperationProgress_json p) <= 647.
Proof.
  unfold OperationProgressSchema, M1_progressTokens. rewrite !andb_true_iff, !Z.leb_le.
  intros [[[[H1 H2] H3] H4] H5]. unfold OperationProgress_json. weigh.
  pose proof (weight_map JStr ProgressTokenSchema _ 8 34 token_bytes H1 H2 ltac:(lia)) as W1.
  pose proof (weight_map JStr ProgressTokenSchema _ 8 34 token_bytes H3 H4 ltac:(lia)) as W2.
  pose proof (weight_map (fun a => JStr (recovery_action_name a)) (fun _ => true) (pg_recoveryActions p) 2 10
                (fun a _ => action_weight a)) as W3.
  specialize (W3 ltac:(by apply forallb_forall) H5 ltac:(lia)).
  pose proof (wm_le "completedSteps" _ 14 _ eq_refl W1).
  pose proof (wm_le "remainingEffects" _ 16 _ eq_refl W2).
  pose proof (wm_le "recoveryActions" _ 15 _ eq_refl W3). lia.
Qed.

Lemma resource_weight r : ResourceRefSchema r = true -> weight (ResourceRef_json r) <= 95.
Proof.
  unfold ResourceRefSchema. rewrite andb_true_iff. intros [H1%resource_bytes H2%sequence_bytes].
  unfold ResourceRef_json. weigh.
  assert (Hk : weight (JStr (resource_kind_name (rr_kind r))) <= 2 + 6) by (apply str_le; by destruct (rr_kind r)).
  pose proof (wm_le "kind" _ 4 _ eq_refl Hk).
  pose proof (wm_le "id" (JStr (rr_id r)) 2 42 eq_refl H1).
  pose proof (wm_le "revision" _ 8 17 eq_refl H2). lia.
Qed.

Lemma count_bytes n : count_schema n = true -> weight (JNum n) <= 17.
Proof. apply sequence_bytes. Qed.

Lemma changes_weight c :
  count_schema (sc_staged c) && count_schema (sc_unstaged c) && count_schema (sc_untracked c) = true ->
  weight (SourceChanges_json c) <= 88.
Proof.
  rewrite !andb_true_iff. intros [[H1%count_bytes H2%count_bytes] H3%count_bytes].
  unfold SourceChanges_json. weigh.
  pose proof (wm_le "staged" _ 6 17 eq_refl H1).
  pose proof (wm_le "unstaged" _ 8 17 eq_refl H2).
  pose proof (wm_le "untracked" _ 9 17 eq_refl H3). lia.
Qed.

Lemma part_weight r : InputPartReceiptSchema r = true -> weight (InputPartReceipt_json r) <= 902.
Proof.
  unfold InputPartReceiptSchema. rewrite !andb_true_iff. intros [[[[[H1 H2] H3] Hr] _] _].
  assert (Hn : forall n, count_ok n = true -> weight (JNum n) <= 17).
  { intros n. unfold count_ok, TAB_SEND_TEXT_BYTES. rewrite andb_true_iff, !Z.leb_le. intros ?. apply sequence_bytes.
    unfold SequenceSchema. rewrite andb_true_iff, !Z.leb_le. change MAX_SAFE_INTEGER with 9007199254740991. lia. }
  unfold InputPartReceipt_json. weigh.
  assert (Hs : weight (JStr (part_status_name (part_status r))) <= 2 + 7) by (apply str_le; by destruct (part_status r)).
  pose proof (wm_le "status" _ 6 _ eq_refl Hs).
  pose proof (wm_le "requestedBytes" _ 14 17 eq_refl (Hn _ H1)).
  pose proof (wm_le "writtenBytes" _ 12 17 eq_refl (Hn _ H2)).
  pose proof (wm_le "unknownBytes" _ 12 17 eq_refl (Hn _ H3)).
  pose proof (optional_le "reason" JStr (part_reason r) 6 770 eq_refl) as W.
  assert (Hreason : lsum wm (optional_member "reason" JStr (part_reason r)) <= 780).
  { destruct (part_reason r) as [s|]; [| done]. cbn [present] in W. apply W. intros x [= <-].
    cbn [optional_ok] in Hr. rewrite andb_true_iff, !Z.leb_le in Hr. apply (any_wstr s 128). lia. }
  lia.
Qed.

Lemma input_weight r : TabInputReceiptSchema r = true -> weight (TabInputReceipt_json r) <= 1824.
Proof.
  unfold TabInputReceiptSchema. rewrite !andb_true_iff. intros [[H1%part_weight H2] _].
  unfold TabInputReceipt_json. weigh.
  pose proof (wm_le "text" _ 4 902 eq_refl H1).
  assert (Hsub : weight (nullable InputPartReceipt_json (rcpt_submit r)) <= 902).
  { destruct (rcpt_submit r); cbn [nullable]; [by apply part_weight | cbn; lia]. }
  pose proof (wm_le "submit" _ 6 902 eq_refl Hsub). lia.
Qed.

Lemma mount_weight o : MountOutcomeSchema o = true ->
  weight (MountOutcome_json o) <= 118 + present (mo_left o) 18 + present (mo_branch o) 777.
Proof.
  unfold MountOutcomeSchema. rewrite !andb_true_iff. intros [[H1%resource_bytes H2] _].
  unfold MountOutcome_json. weigh.
  pose proof (wm_le "mountId" (JStr (mo_mountId o)) 7 42 eq_refl H1).
  assert (Hs : weight (JStr (mount_state_name (mo_state o))) <= 2 + 7) by (apply str_le; by destruct (mo_state o)).
  pose proof (wm_le "state" _ 5 _ eq_refl Hs).
  pose proof (optional_le "errorKind" (fun k => JStr (kind_name k)) (mo_errorKind o) 9 32 eq_refl
                (fun k _ => proj1 (kind_bytes k))) as W1.
  assert (present (mo_errorKind o) (4 + 9 + 32) <= 45) by (destruct (mo_errorKind o); cbn; lia).
  pose proof (optional_le "left" (fun l => JStr (leftover_name l)) (mo_left o) 4 10 eq_refl
                ltac:(intros l _; apply (str_le _ 8); by destruct l)) as W2.
  pose proof (optional_le "branch" JStr (mo_branch o) 6 767 eq_refl
                (fun s E => ref_bytes s (optional_ok_some _ _ _ H2 E))) as W3.
  change (4 + 4 + 10) with 18 in W2. change (4 + 6 + 767) with 777 in W3. lia.
Qed.

Lemma mounts_weight ms m : forallb MountOutcomeSchema ms = true -> zlen ms <= M1_mountsPerWorkspace ->
  (forall o, o ∈ ms -> present (mo_left o) 18 + present (mo_branch o) 777 <= m) -> 0 <= m ->
  weight (JArr (map MountOutcome_json ms)) <= 2 + zlen ms * (119 + m).
Proof.
  intros Hs Hl Hm H0.
  pose proof (weight_arr (map MountOutcome_json ms) (zlen ms) (118 + m)) as W.
  rewrite zlen_map in W. specialize (fun A => W A ltac:(lia) ltac:(lia)).
  assert (weight (JArr (map MountOutcome_json ms)) <= 2 + zlen ms * (1 + (118 + m))); [| lia].
  apply W. intros v Hv. apply list_elem_of_In, in_map_iff in Hv as (o & <- & Ho).
  rewrite forallb_forall in Hs. pose proof (mount_weight o (Hs o Ho)).
  apply list_elem_of_In in Ho. specialize (Hm o Ho). lia.
Qed.

Lemma absent_present {A} (o : option A) n : absent o = true -> present o n = 0.
Proof. by destruct o. Qed.

Lemma present_le {A} (o : option A) n : 0 <= n -> present o n <= n.
Proof. by destruct o. Qed.

(** What the mounts of a result take, with the members the schema excludes
    beside them. *)

Lemma mounts_cases d ms : OperationResultDataSchema d = true -> rd_mounts d = Some ms ->
  weight (JArr (map MountOutcome_json ms)) + present (rd_sourceChanges d) 105
  + present (rd_targetOperationId d) 151 <= 2194.
Proof.
  unfold OperationResultDataSchema. rewrite !andb_true_iff. intros [[[[_ Hm] _] _] Hr] E. rewrite E in Hm, Hr.
  cbn [optional_ok] in Hm. rewrite andb_true_iff, Z.leb_le in Hm. destruct Hm as [Hs Hl].
  unfold M1_mountsPerWorkspace in *. pose proof (zlen_nonneg ms).
  assert (Hbranch : forall o, o ∈ ms -> absent (mo_left o) = true -> absent (mo_branch o) = true).
  { intros o Ho Ha. rewrite forallb_forall in Hs. apply list_elem_of_In in Ho. specialize (Hs o Ho).
    unfold MountOutcomeSchema in Hs. rewrite andb_true_iff in Hs. destruct Hs as [_ Hs].
    destruct (mo_left o); [done |]. cbn in Hs. destruct (mo_branch o); [| done].
    rewrite !bool_decide_eq_false_2 in Hs by done. done. }
  pose proof (present_le (rd_sourceChanges d) 105). pose proof (present_le (rd_targetOperationId d) 151).
  apply orb_true_iff in Hr as [Hnone|Hr].
  - opose proof (mounts_weight ms 0 Hs ltac:(unfold M1_mountsPerWorkspace; lia) _ ltac:(lia)) as W; [| nia]. intros o Ho.
    assert (absent (mo_left o) = true) as Ha.
    { apply negb_true_iff in Hnone. destruct (absent (mo_left o)) eqn:E1; [done |].
      assert (existsb mount_left ms = true); [| congruence].
      apply existsb_exists. exists o. split; [by apply list_elem_of_In |]. unfold mount_left. by rewrite E1. }
    rewrite (absent_present (mo_left o)), (absent_present (mo_branch o)) by auto. lia.
  - apply andb_true_iff in Hr as [Ht [Hr|Hone]%orb_true_iff].
    + apply andb_true_iff in Hr as [Hc Hb]. rewrite (absent_present (rd_sourceChanges d)), (absent_present (rd_targetOperationId d)) by done.
      opose proof (mounts_weight ms 18 Hs ltac:(unfold M1_mountsPerWorkspace; lia) _ ltac:(lia)) as W; [| nia]. intros o Ho. rewrite forallb_forall in Hb.
      apply list_elem_of_In in Ho. rewrite (absent_present (mo_branch o)) by auto.
      pose proof (present_le (mo_left o) 18). lia.
    + apply Z.eqb_eq in Hone. rewrite (absent_present (rd_targetOperationId d)) by done.
      opose proof (mounts_weight ms 795 Hs ltac:(unfold M1_mountsPerWorkspace; lia) _ ltac:(lia)) as W; [| nia]. intros o _.
      pose proof (present_le (mo_left o) 18). pose proof (present_le (mo_branch o) 777). lia.
Qed.

Lemma result_weight d : OperationRecordResultSchema d = true ->
  weight (OperationResultData_json d) <= 2
    + (present (rd_run d) 439 + present (rd_exitCode d) 29 + present (rd_signal d) 396)
    + present (rd_resource d) 107 + present (rd_input d) 1833
    + (present (rd_workspaceRevision d) 38
       + match rd_mounts d with
         | Some _ => 2204
         | None => present (rd_sourceChanges d) 105 + present (rd_targetOperationId d) 151
         end)
    + (present (rd_inviteId d) 54 + present (rd_deviceId d) 54 + present (rd_expiresAtMs d) 32
       + present (rd_secretDelivery d) 39 + present (rd_unclosedConnections d) 40
       + present (rd_appliesAfterRestart d) 28 + present (rd_remoteLogoutConfirmed d) 30).
Proof.
  unfold OperationRecordResultSchema. rewrite !andb_true_iff. intros [[Hd H2] _].
  pose proof (fun ms => mounts_cases d ms Hd) as Hmounts.
  unfold OperationResultDataSchema in Hd. rewrite !andb_true_iff in Hd.
  destruct Hd as [[[[[[[[[R1 R2] R3] R4] R5] R6] R7] R8] R9] _].
  unfold M2_RESULT_FIELDS in H2. rewrite !andb_true_iff in H2. destruct H2 as [[[Q1 Q2] Q3] Q4].
  unfold OperationResultData_json. weigh.
  pose proof (optional_le "run" RunRef_json (rd_run d) 3 432 eq_refl (fun x E => run_weight x (optional_ok_some _ _ _ R1 E))).
  opose proof (optional_le "exitCode" (nullable JNum) (rd_exitCode d) 8 17 eq_refl _) as W2.
  { intros [n|] E; [| cbn; lia]. pose proof (optional_ok_some _ _ _ R2 E) as Hn. by apply num_bytes. }
  opose proof (optional_le "signal" (nullable JStr) (rd_signal d) 6 386 eq_refl _) as W3.
  { intros [s|] E; [| cbn; lia]. pose proof (optional_ok_some _ _ _ R3 E) as Hn. cbn in Hn. apply Z.leb_le in Hn.
    by apply (any_wstr s 64). }
  pose proof (optional_le "resource" ResourceRef_json (rd_resource d) 8 95 eq_refl (fun x E => resource_weight x (optional_ok_some _ _ _ R4 E))).
  pose proof (optional_le "input" TabInputReceipt_json (rd_input d) 5 1824 eq_refl (fun x E => input_weight x (optional_ok_some _ _ _ R5 E))).
  pose proof (optional_le "workspaceRevision" JNum (rd_workspaceRevision d) 17 17 eq_refl (fun x E => sequence_bytes x (optional_ok_some _ _ _ R6 E))).
  pose proof (optional_le "sourceChanges" SourceChanges_json (rd_sourceChanges d) 13 88 eq_refl (fun x E => changes_weight x (optional_ok_some _ _ _ R8 E))).
  pose proof (optional_le "targetOperationId" JStr (rd_targetOperationId d) 17 130 eq_refl (fun x E => opaque_bytes x (optional_ok_some _ _ _ R9 E))).
  pose proof (optional_le "inviteId" JStr (rd_inviteId d) 8 42 eq_refl (fun x E => device_bytes x (optional_ok_some _ _ _ Q1 E))).
  pose proof (optional_le "deviceId" JStr (rd_deviceId d) 8 42 eq_refl (fun x E => device_bytes x (optional_ok_some _ _ _ Q2 E))).
  pose proof (optional_le "expiresAtMs" JNum (rd_expiresAtMs d) 11 17 eq_refl (fun x E => sequence_bytes x (optional_ok_some _ _ _ Q3 E))).
  pose proof (optional_le "secretDelivery" (fun _ => JStr "first-response-only") (rd_secretDelivery d) 14 21 eq_refl
                (fun _ _ => str_le "first-response-only" 19 eq_refl)).
  opose proof (optional_le "unclosedConnections" JNum (rd_unclosedConnections d) 19 17 eq_refl _) as W4.
  { intros n E. pose proof (optional_ok_some _ _ _ Q4 E) as Hn. cbn in Hn. apply sequence_bytes.
    unfold SequenceSchema. rewrite andb_true_iff, !Z.leb_le in *. change MAX_SAFE_INTEGER with 9007199254740991. lia. }
  pose proof (optional_le "appliesAfterRestart" (fun _ => JBool true) (rd_appliesAfterRestart d) 19 5 eq_refl ltac:(done)).
  pose proof (optional_le "remoteLogoutConfirmed" JBool (rd_remoteLogoutConfirmed d) 21 5 eq_refl ltac:(done)).
  assert (Hms : lsum wm (optional_member "mounts" (fun ms => JArr (map MountOutcome_json ms)) (rd_mounts d))
          + present (rd_sourceChanges d) 105 + present (rd_targetOperationId d) 151
          <= match rd_mounts d with
             | Some _ => 2204
             | None => present (rd_sourceChanges d) 105 + present (rd_targetOperationId d) 151
             end).
  { destruct (rd_mounts d) as [ms|]; cbn [optional_member]; rewrite ?lsum_cons, lsum_nil; [| lia].
    specialize (Hmounts ms eq_refl).
    pose proof (wm_le "mounts" (JArr (map MountOutcome_json ms)) 6 _ eq_refl ltac:(reflexivity)). lia. }
  repeat match goal with H : _ <= present _ (?a + ?b + ?c) |- _ =>
    let n := eval vm_compute in (a + b + c) in change (a + b + c) with n in H end.
  lia.
Qed.

(** ** Which members a record may have *)

Lemma key_of_absent {A} p k (o : option A) : forallb p (key_of k o) = true -> p k = false -> o = None.
Proof. destruct o; [| done]. cbn. intros [Hp _]%andb_true_iff. congruence. Qed.

Lemma keys_absent p d : forallb p (result_keys d) = true ->
  (p key_run = false -> rd_run d = None) /\ (p key_exitCode = false -> rd_exitCode d = None)
  /\ (p key_signal = false -> rd_signal d = None) /\ (p key_resource = false -> rd_resource d = None)
  /\ (p key_workspaceRevision = false -> rd_workspaceRevision d = None)
  /\ (p key_mounts = false -> rd_mounts d = None) /\ (p key_sourceChanges = false -> rd_sourceChanges d = None)
  /\ (p key_targetOperationId = false -> rd_targetOperationId d = None)
  /\ (p key_inviteId = false -> rd_inviteId d = None) /\ (p key_deviceId = false -> rd_deviceId d = None)
  /\ (p key_expiresAtMs = false -> rd_expiresAtMs d = None)
  /\ (p key_secretDelivery = false -> rd_secretDelivery d = None)
  /\ (p key_unclosedConnections = false -> rd_unclosedConnections d = None)
  /\ (p key_appliesAfterRestart = false -> rd_appliesAfterRestart d = None)
  /\ (p key_remoteLogoutConfirmed = false -> rd_remoteLogoutConfirmed d = None).
Proof.
  unfold result_keys. rewrite !forallb_app, !andb_true_iff. intros H. destruct_and! H.
  split_and!; eapply key_of_absent; eassumption.
Qed.

(** Members that exclude each other never meet in one result. *)

Lemma record_result_weight r d : OperationRecordSchema r = true -> op_result r = Some d ->
  weight (OperationResultData_json d) <= 2351.
Proof.
  unfold OperationRecordSchema. rewrite !andb_true_iff. intros [[[[[[Hf _] Hk] _] Hm2] Hs] _] E.
  unfold OperationRecordFieldsSchema in Hf. rewrite !andb_true_iff in Hf.
  assert (Hd : OperationRecordResultSchema d = true) by (destruct Hf as [[[_ Hd] _] _]; by rewrite E in Hd).
  pose proof (result_weight d Hd) as W. clear Hf Hd.
  unfold record_keys in Hk. rewrite E in Hk. apply keys_absent in Hk.
  unfold m2ProjectionHolds, record_keys in Hm2. rewrite E in Hm2.
  unfold send_record_ok, record_keys in Hs. rewrite E in Hs. cbn [mbind option_bind] in Hs.
  pose proof (present_le (rd_run d) 439). pose proof (present_le (rd_exitCode d) 29).
  pose proof (present_le (rd_signal d) 396). pose proof (present_le (rd_resource d) 107).
  pose proof (present_le (rd_input d) 1833). pose proof (present_le (rd_workspaceRevision d) 38).
  pose proof (present_le (rd_sourceChanges d) 105). pose proof (present_le (rd_targetOperationId d) 151).
  pose proof (present_le (rd_inviteId d) 54). pose proof (present_le (rd_deviceId d) 54).
  pose proof (present_le (rd_expiresAtMs d) 32). pose proof (present_le (rd_secretDelivery d) 39).
  pose proof (present_le (rd_unclosedConnections d) 40). pose proof (present_le (rd_appliesAfterRestart d) 28).
  pose proof (present_le (rd_remoteLogoutConfirmed d) 30).
  destruct (decide (op_method r = w_tab_send)) as [Em|Em].
  - rewrite Em in Hk. destruct (op_run r); [| done]. destruct (rd_input d); [| done].
    apply andb_true_iff in Hs as [Hs _]. apply keys_absent in Hs.
    destruct Hs as (Z1 & Z2 & Z3 & _ & Z5 & Z6 & Z7 & Z8 & Z9 & Z10 & Z11 & Z12 & Z13 & Z14 & Z15).
    rewrite Z1, Z2, Z3, Z5, Z6, Z7, Z8, Z9, Z10, Z11, Z12, Z13, Z14, Z15 in W by reflexivity.
    cbn [present] in *. lia.
  - destruct (rd_input d); [done |].
    destruct (terminal_method (op_method r)) eqn:Et.
    + destruct Hk as (_ & _ & _ & Z4 & Z5 & Z6 & Z7 & Z8 & Z9 & Z10 & Z11 & Z12 & Z13 & Z14 & Z15).
      rewrite Z4, Z5, Z6, Z7, Z8, Z9, Z10, Z11, Z12, Z13, Z14, Z15 in W by reflexivity.
      cbn [present] in *. lia.
    + destruct Hk as (Z1 & Z2 & Z3 & _). rewrite Z1, Z2, Z3 in W by reflexivity.
      destruct (M2_RECORD_RESULT_KEYS (op_method r)) as [allowed|] eqn:Ea.
      * apply andb_true_iff in Hm2 as [_ Hm2]. apply keys_absent in Hm2.
        destruct Hm2 as (_ & _ & _ & _ & _ & Z6 & Z7 & Z8 & _).
        rewrite Z6, Z7, Z8 in W by (clear -Ea; destruct (op_method r); inversion Ea; reflexivity).
        cbn [present] in *. lia.
      * apply keys_absent in Hm2. destruct Hm2 as (_ & _ & _ & _ & _ & _ & _ & _ & Z9 & Z10 & Z11 & Z12 & Z13 & Z14 & Z15).
        rewrite Z9, Z10, Z11, Z12, Z13, Z14, Z15 in W by reflexivity.
        cbn [present] in *. destruct (rd_mounts d); lia.
Qed.

Lemma record_weight r : OperationRecordSchema r = true -> error_details r = None ->
  weight (OperationRecord_json r) <= 3892.
Proof.
  intros Hr Hd. pose proof (fun d => record_result_weight r d Hr) as Hres.
  unfold OperationRecordSchema in Hr. rewrite !andb_true_iff in Hr. destruct Hr as [[[[[[Hf _] _] _] _] _] _].
  unfold OperationRecordFieldsSchema in Hf. rewrite !andb_true_iff in Hf.
  destruct Hf as [[[[[H1 H2] H3] _] H5] H6].
  unfold OperationRecord_json. weigh.
  pose proof (wm_le "operationId" (JStr (op_operationId r)) 11 130 eq_refl (opaque_bytes _ H1)).
  assert (Hm : weight (JStr (method_name (op_method r))) <= 2 + 19) by (apply str_le; by destruct (op_method r)).
  pose proof (wm_le "method" _ 6 _ eq_refl Hm).
  pose proof (wm_le "revision" _ 8 17 eq_refl (sequence_bytes _ H2)).
  assert (Hst : weight (JStr (operation_state_name (op_state r))) <= 2 + 18) by (apply str_le; by destruct (op_state r)).
  pose proof (wm_le "state" _ 5 _ eq_refl Hst).
  pose proof (optional_le "run" RunRef_json (op_run r) 3 432 eq_refl (fun x E => run_weight x (optional_ok_some _ _ _ H3 E))) as W1.
  pose proof (optional_le "result" OperationResultData_json (op_result r) 6 2351 eq_refl Hres) as W2.
  pose proof (optional_le "progress" OperationProgress_json (op_progress r) 8 647 eq_refl (fun x E => progress_weight x (optional_ok_some _ _ _ H5 E))) as W3.
  assert (W4 : lsum wm (optional_member "error" DomainError_json (op_error r)) <= present (op_error r) 197).
  { apply (optional_le "error" DomainError_json (op_error r) 5 188 eq_refl). intros e E.
    apply error_weight; [by apply (optional_ok_some _ _ _ H6) |]. unfold error_details in Hd. by rewrite E in Hd. }
  pose proof (present_le (op_run r) (4 + 3 + 432)). pose proof (present_le (op_result r) (4 + 6 + 2351)).
  pose proof (present_le (op_progress r) (4 + 8 + 647)). pose proof (present_le (op_error r) 197). lia.
Qed.

(** ** Every record can be stored *)

Lemma wstr_ge s : 2 <= wstr s.
Proof. unfold wstr. pose proof (tb_nonneg (quote_units s)). lia. Qed.

Fixpoint tokens_weight (v : json) : json_tokens v <= weight v.
Proof.
  destruct v as [|b|n|neg|s|items|members]; cbn [json_tokens weight]; try lia.
  - destruct (pretty_spelled n) as [H1 H2]. rewrite tb_ascii by done. lia.
  - pose proof (wstr_ge s). lia.
  - assert (lsum json_tokens items <= lsum (fun v => 1 + weight v) items); [| lia].
    induction items as [|v items IH]; [done |]. rewrite !lsum_cons. pose proof (tokens_weight v). lia.
  - assert (lsum (fun kv => 1 + json_tokens kv.2) members <= lsum (fun kv => 2 + wstr kv.1 + weight kv.2) members); [| lia].
    induction members as [|[k v] members IH]; [done |]. rewrite !lsum_cons. pose proof (tokens_weight v).
    pose proof (wstr_ge k). cbn [fst snd]. lia.
Qed.

Lemma well_bounded_map {A} (f : A -> json) d l : (d <=? 16) = true -> (forall x, well_bounded (d + 1) (f x) = true) ->
  well_bounded d (JArr (map f l)) = true.
Proof.
  intros Hd Hf. cbn [well_bounded]. rewrite Hd. cbn [andb].
  induction l as [|x l IH]; [done |]. cbn [map forallb]. by rewrite Hf, IH.
Qed.

Definition member_bounded (d : Z) (kv : string * json) : bool :=
  (slen kv.1 <=? KEY_CHARS) && well_bounded (d + 1) kv.2.

Lemma well_bounded_obj d ms : (d <=? 16) = true -> forallb (member_bounded d) ms = true ->
  well_bounded d (JObj ms) = true.
Proof. intros Hd Hms. cbn [well_bounded]. by rewrite Hd. Qed.

Lemma optional_bounded {A} d k (f : A -> json) o : (slen k <=? KEY_CHARS) = true ->
  (forall x, well_bounded (d + 1) (f x) = true) -> forallb (member_bounded d) (optional_member k f o) = true.
Proof. intros Hk Hf. destruct o; [| done]. cbn. unfold member_bounded. cbn [fst snd]. by rewrite Hk, Hf. Qed.

Lemma error_bounded e : well_bounded 1 (DomainError_json e) = true.
Proof.
  apply well_bounded_obj; [done |]. rewrite !forallb_app, !andb_true_iff. split_and!; [done | by destruct (err_subject e) |].
  apply optional_bounded; [done |]. intros runs. apply well_bounded_obj; [done |]. cbn [forallb].
  unfold member_bounded. cbn [fst snd]. rewrite well_bounded_map; done.
Qed.

Lemma result_bounded d : well_bounded 1 (OperationResultData_json d) = true.
Proof.
  apply well_bounded_obj; [done |]. rewrite !forallb_app, !andb_true_iff.
  split_and!; (apply optional_bounded; [done |]); try done; try (by intros [?|]).
  - intros [[st rb wb ub [rs|]] [[st' rb' wb' ub' [rs'|]]|]]; reflexivity.
  - intros ms. apply well_bounded_map; [done |]. intros [mid ms' ek lf br]. destruct ek, lf, br; done.
Qed.

Lemma progress_bounded p : well_bounded 1 (OperationProgress_json p) = true.
Proof.
  apply well_bounded_obj; [done |]. cbn [forallb]. unfold member_bounded. cbn [fst snd].
  rewrite !well_bounded_map; done.
Qed.

Lemma record_bounded r : boundedJsonStructure json_look (OperationRecord_json r) = Some true \/ 4096 < weight (OperationRecord_json r).
Proof.
  destruct (Z.le_gt_cases (weight (OperationRecord_json r)) 4096) as [Hw|]; [left | by right].
  apply bounded_structure_small; [pose proof (tokens_weight (OperationRecord_json r)); lia |].
  apply well_bounded_obj; [done |]. rewrite !forallb_app, !andb_true_iff.
  split_and!; [done |..]; (apply optional_bounded; [done |]);
    [done | apply result_bounded | apply progress_bounded | apply error_bounded].
Qed.

(** C35: every schema-valid record without run details in its error can be
    stored: its text takes at most 3892 bytes, below the 4096 a receipt may
    hold, and its structure passes the bound on untrusted metadata, so the
    validator returns the record itself.  An executed operation is never left
    without its receipt because its result was too large. *)
Theorem record_storable r : OperationRecordSchema r = true -> error_details r = None ->
  record_bytes encodeUtf8 r <= 3892 /\ validateOperationRecord encodeUtf8 r = Some r.
Proof.
  intros Hr Hd. pose proof (record_weight r Hr Hd) as Hw. pose proof (weight_ok (OperationRecord_json r)) as Hb.
  fold (record_bytes encodeUtf8 r) in Hb. split; [lia |]. unfold validateOperationRecord.
  destruct (record_bounded r) as [Hs|]; [| lia]. rewrite bool_decide_eq_true_2, Hr by done. cbn [negb].
  change (operationRecordBytes M0_LIMITS) with 4096.
  by replace (record_bytes encodeUtf8 r <=? 4096) with true by (symmetry; apply Z.leb_le; lia).
Qed.

End text.

Lemma latin_unit c : zlen (latin_utf8 (String c EmptyString)) <= 3.
Proof. cbn [latin_utf8]. rewrite app_nil_r. case_match; vm_compute; discriminate. Qed.

(** The 128-character identifier and the largest safe integer. *)

Fixpoint repeat_char (c : string) (n : nat) : string :=
  match n with O => EmptyString | S n => c +:+ repeat_char c n end.

Definition long_run : RunRef := mkRun (repeat_char "s" 128) (repeat_char "i" 128) (repeat_char "r" 128).

Definition long_mount : MountOutcome :=
  mkMountOutcome (repeat_char "m" 40) ms_missing (Some MANAGED_WORKTREE_NOT_MOUNTABLE) (Some left_worktree) None.

Definition long_record : OperationRecord := {|
  op_operationId := repeat_char "o" 128; op_method := w_operation_continue; op_revision := MAX_SAFE_INTEGER;
  op_state := os_requires_attention; op_run := Some long_run;
  op_result := Some {|
    rd_run := None; rd_exitCode := None; rd_signal := None;
    rd_resource := Some (mkResource rk_config (repeat_char "c" 40) MAX_SAFE_INTEGER); rd_input := None;
    rd_workspaceRevision := Some MAX_SAFE_INTEGER; rd_mounts := Some (repeat long_mount 16);
    rd_sourceChanges := None; rd_targetOperationId := None; rd_inviteId := None; rd_deviceId := None;
    rd_expiresAtMs := None; rd_secretDelivery := None; rd_unclosedConnections := None;
    rd_appliesAfterRestart := None; rd_remoteLogoutConfirmed := None |};
  op_progress := Some (mkProgress (repeat (repeat_char "p" 32) 8) (repeat (repeat_char "p" 32) 8) [act_continue; act_abandon]);
  op_error := Some (domainErrorOf MANAGED_WORKTREE_NOT_MOUNTABLE);
|}.

Lemma record_storable_witness :
  OperationRecordSchema long_record = true /\ validateOperationRecord latin_utf8 long_record = Some long_record.
Proof.
  split; [by vm_compute |].
  apply (record_storable latin_utf8 latin_utf8_laws latin_unit long_record); by vm_compute.
Defined.

(** A [binding.delete] record keeps up to four blocking runs; nothing in its
    schema keeps the other members small. *)

Definition oversized_record : OperationRecord := {|
  op_operationId := op_operationId long_record; op_method := w_binding_delete; op_revision := op_revision long_record;
  op_state := os_failed; op_run := op_run long_record; op_result := op_result long_record;
  op_progress := op_progress long_record;
  op_error := Some (error_object LIVE_RUNS_PRESENT acc_not_accepted false (Some (repeat long_run 4)));
|}.

(** The claim that every schema-valid operation record fits the receipt's
    4 KiB does not cover a stored error with run details: a schema-valid
    [binding.delete] record with four blocking runs takes 5,532 bytes and the
    validator refuses it.  The schema relies on the domain to keep such a
    record small. *)
Theorem stored_details_exceed :
  OperationRecordSchema oversized_record = true
  /\ operationRecordBytes M0_LIMITS < record_bytes latin_utf8 oversized_record
  /\ validateOperationRecord latin_utf8 oversized_record = None.
Proof. split_and!; by vm_compute. Qed.

(** ** The secret boundary *)

(** Every string of a value: the names of its members (an array's are its
    indices) and its string values, at any depth. *)

Fixpoint json_strings (v : json) : list string :=
  match v with
  | JStr s => [s]
  | JArr items => imap (fun i _ => pretty (Z.of_nat i)) items ++ flat_map json_strings items
  | JObj members => members.*1 ++ flat_map (fun kv => json_strings kv.2) members
  | _ => []
  end.

Lemma push_entries_spec secrets members pending :
  push_entries secrets members pending
  = if existsb (hit secrets) members.*1 then None else Some (rev members.*2 ++ pending).
Proof.
  revert pending. induction members as [|[k v] members IH]; intros pending; [done |].
  cbn [push_entries fmap list_fmap existsb fst snd rev]. destruct (hit secrets k); [done |]. rewrite IH.
  cbn [orb]. destruct (existsb _ _); [done |]. by rewrite <- app_assoc.
Qed.

Lemma entries_strings v : (forall s, v <> JStr s) ->
  forall p, existsb p (json_strings v) = existsb p (entries v).*1 || existsb p (flat_map json_strings (entries v).*2).
Proof.
  intros Hv p. destruct v as [|b|n|neg|s|items|members]; cbn [json_strings entries]; try done.
  - by destruct (Hv s).
  - rewrite existsb_app. f_equal.
    + f_equal. rewrite fmap_imap. done.
    + do 2 f_equal. symmetry. rewrite fmap_imap. change (imap (fun _ x => x) items = items).
      clear. induction items as [|x items IH]; [done |]. cbn [imap]. f_equal. exact IH.
  - rewrite existsb_app. f_equal. f_equal. induction members as [|[k v] members IH]; [done |]. cbn. by rewrite IH.
Qed.

Lemma entries_size v : (forall s, v <> JStr s) -> sum_list_with json_size (entries v).*2 = pred (json_size v).
Proof.
  intros Hv. destruct v as [|b|n|neg|s|items|members]; try done.
  - cbn [entries json_size pred]. rewrite fmap_imap. f_equal.
    clear. induction items as [|x items IH]; [done |]. cbn [imap]. f_equal. exact IH.
  - cbn [entries json_size pred]. induction members as [|[k v] members IH]; [done |]. cbn. by rewrite IH.
Qed.

Lemma existsb_rev_flat {A B} (p : B -> bool) (f : A -> list B) l k :
  existsb p (flat_map f (rev l ++ k)) = existsb p (flat_map f l) || existsb p (flat_map f k).
Proof.
  rewrite flat_map_app, existsb_app. f_equal.
  induction l as [|x l IH]; [done |]. cbn [rev]. rewrite flat_map_app, existsb_app, IH. cbn [flat_map].
  rewrite !existsb_app. cbn. by rewrite orb_false_r, orb_comm.
Qed.

Lemma size_rev l k : sum_list_with json_size (rev l ++ k) = (sum_list_with json_size l + sum_list_with json_size k)%nat.
Proof.
  rewrite sum_list_with_app. f_equal. by apply sum_list_with_Permutation_proper, Permutation_sym, Permutation_rev.
Qed.

Lemma json_size_pos v : (1 <= json_size v)%nat.
Proof. destruct v; cbn; lia. Qed.

Lemma holds_turn fuel secrets v pending : (forall s, v <> JStr s) ->
  holds_loop (S fuel) secrets (v :: pending)
  = match push_entries secrets (entries v) pending with
    | None => Some true
    | Some pending => holds_loop fuel secrets pending
    end.
Proof. intros Hv. destruct v; try done. by destruct (Hv s). Qed.

Lemma holds_loop_spec fuel secrets pending : (sum_list_with json_size pending < fuel)%nat ->
  holds_loop fuel secrets pending = Some (existsb (hit secrets) (flat_map json_strings pending)).
Proof.
  revert pending. induction fuel as [|fuel IH]; intros pending Hf; [lia |].
  destruct pending as [|v pending]; [done |]. cbn [sum_list_with flat_map] in *.
  pose proof (json_size_pos v). rewrite existsb_app.
  assert ((exists s, v = JStr s) \/ forall s, v <> JStr s) as [[s ->]|Hv].
  { destruct v; eauto. }
  - cbn [holds_loop json_strings existsb]. destruct (hit secrets s); [done |]. rewrite IH by lia. by rewrite orb_false_r.
  - rewrite holds_turn, push_entries_spec, (entries_strings v Hv) by done.
    destruct (existsb (hit secrets) (entries v).*1); [done |].
    pose proof (entries_size v Hv). rewrite IH by (rewrite size_rev; lia). by rewrite existsb_rev_flat.
Qed.

(** The secret boundary is exact: the check always ends with an answer, and
    it reports a record exactly when some string of it, a member name or a
    value at any depth, contains one of the secrets. *)
Theorem holdsSecret_exact v secrets :
  holdsSecret v secrets = Some (existsb (fun text => existsb (includes text) secrets) (json_strings v)).
Proof.
  unfold holdsSecret. destruct secrets as [|x secrets].
  - f_equal. by induction (json_strings v).
  - rewrite holds_loop_spec by (cbn; lia). cbn [flat_map]. by rewrite app_nil_r.
Qed.

Example secret_found :
  holdsSecret (JObj [("state", JStr "succeeded"); ("result", JArr [JStr "token=0123456789abcdef;"])])
    ["0123456789abcdef"] = Some true.
Proof. vm_compute. reflexivity. Qed.
