(* ===== verification/TerminalJson.v ===== *)
(** * The text of terminal messages (packages/protocol/src/terminal-command.ts,
    terminal-events.ts, terminal-recovery.ts)

    The value a schema yields for each command, result, event and error, with
    its members in the order the schema lists them and the literal members the
    messages of Terminal.v leave out, so that [stringify] of it is what
    [JSON.stringify] of a validated message prints. *)

From S2P Require Import Prelude Json Protocol Errors Terminal Operations.

Definition PROFILE : string := "pragmatic-logical-grid-v1".

Definition BASELINE_ENCODING : string := "vt-checkpoint-tail-v1".

Definition format_members : list (string * json) := [("profile", JStr PROFILE); ("encoding", JStr BASELINE_ENCODING)].

Definition SubscriptionRef_json (s : SubscriptionRef) : json :=
  JObj [("run", RunRef_json (sub_run s)); ("connection", ConnectionRef_json (sub_connection s));
        ("subscriptionId", JStr (sub_subscriptionId s)); ("viewId", JStr (sub_viewId s))].

(** ** Commands *)

Definition Resume_json (r : Resume) : json :=
  JObj (("appliedSeq", JNum (resume_appliedSeq r)) :: format_members ++ [("geometry", Geometry_json (resume_geometry r))]).

Definition recover_reason_name (r : RecoverReason) : string :=
  match r with
  | rsn_gap => "gap" | rsn_released_view => "released-view" | rsn_resize_context => "resize-context"
  | rsn_expired => "expired"
  end.

Definition command_type_name (t : TerminalCommandType) : string :=
  match t with
  | t_attach => "attach" | t_detach => "detach" | t_recover => "recover" | t_focus => "focus" | t_blur => "blur"
  | t_resize => "resize" | t_appearance => "appearance" | t_input => "input" | t_applied_ack => "applied-ack"
  | t_baseline_progress => "baseline-progress" | t_preview => "preview"
  end.

(** The members every command, result and error starts with. *)

Definition request_members (type : string) (requestId : string) (run : RunRef) : list (string * json) :=
  [("type", JStr type); ("requestId", JStr requestId); ("run", RunRef_json run)].

Definition command_members (b : CommandBody) : list (string * json) :=
  let on s := [("subscription", SubscriptionRef_json s)] in
  match b with
  | K_attach c view resume =>
     [("connection", ConnectionRef_json c); ("viewId", JStr view)] ++ format_members
     ++ optional_member "resume" Resume_json resume
  | K_detach s => on s
  | K_recover s reason resume =>
     on s ++ [("reason", JStr (recover_reason_name reason))] ++ optional_member "resume" Resume_json resume
  | K_focus s seq g a =>
     on s ++ [("focusSeq", JNum seq); ("geometry", Geometry_json g)] ++ optional_member "appearance" Appearance_json a
  | K_blur s epoch => on s ++ [("epoch", JNum epoch)]
  | K_resize s epoch g => on s ++ [("epoch", JNum epoch); ("geometry", Geometry_json g)]
  | K_appearance s epoch a => on s ++ [("epoch", JNum epoch); ("appearance", Appearance_json a)]
  | K_input s epoch seq => on s ++ [("epoch", JNum epoch); ("inputSeq", JNum seq)]
  | K_applied_ack s seq => on s ++ [("appliedSeq", JNum seq)]
  | K_baseline_progress s id n => on s ++ [("baselineId", JStr id); ("lastParsedOrdinal", JNum n)]
  | K_preview version => optional_member "knownVersion" JNum version
  end.

Definition TerminalCommand_json (c : TerminalCommand) : json :=
  JObj (request_members (command_type_name (command_type c)) (tc_requestId c) (tc_run c) ++ command_members (tc_body c)).

(** ** Results and errors *)

Definition recovery_mode_name (m : RecoveryMode) : string :=
  match m with m_replay => "replay" | m_baseline => "baseline" end.

Definition preview_status_name (s : PreviewStatus) : string :=
  match s with p_unchanged => "unchanged" | p_transfer => "transfer" end.

Definition result_members (b : ResultBody) : list (string * json) :=
  let on s := [("subscription", SubscriptionRef_json s)] in
  match b with
  | R_attach s mode seq | R_recover s mode seq =>
     on s ++ [("mode", JStr (recovery_mode_name mode)); ("atSeq", JNum seq)]
  | R_detach s => on s ++ [("detached", JBool true)]
  | R_focus s epoch seq | R_blur s epoch seq | R_resize s epoch seq | R_appearance s epoch seq =>
     on s ++ [("epoch", JNum epoch); ("atSeq", JNum seq)]
  | R_input s epoch seq n =>
     on s ++ [("epoch", JNum epoch); ("inputSeq", JNum seq); ("status", JStr "written"); ("writtenBytes", JNum n)]
  | R_applied_ack s seq => on s ++ [("appliedSeq", JNum seq)]
  | R_baseline_progress s id n => on s ++ [("baselineId", JStr id); ("lastParsedOrdinal", JNum n)]
  | R_preview status version id =>
     [("status", JStr (preview_status_name status)); ("version", JNum version)] ++ optional_member "previewId" JStr id
  end.

Definition TerminalResult_json (r : TerminalResult) : json :=
  JObj (request_members (command_type_name (result_command r) +:+ "-result") (tr_requestId r) (tr_run r)
        ++ result_members (tr_body r)).

Definition TerminalError_json (e : TerminalError) : json :=
  JObj (request_members "error" (te_requestId e) (te_run e)
        ++ [("commandType", JStr (command_type_name (te_commandType e))); ("error", DomainError_json (te_error e))]).

(** ** Events *)

Definition resize_context_name (c : ResizeContext) : string :=
  match c with complete => "complete" | requires_baseline => "requires-baseline" end.

Definition RecoveryCoverage_json (c : RecoveryCoverage) : json :=
  JObj [("normal", JObj [("historyLines", JNum (cov_historyLines c));
                         ("includedHistoryLines", JNum (cov_includedHistoryLines c));
                         ("trimmedBefore", JBool (cov_trimmedBefore c));
                         ("resizeContext", JStr (resize_context_name (cov_normalResizeContext c)))]);
        ("alternate", JObj [("included", JBool true);
                            ("resizeContext", JStr (resize_context_name (cov_alternateResizeContext c)))])].

Definition BaselineControl_json (c : BaselineControl) : json :=
  JObj [("epoch", JNum (bc_epoch c)); ("holder", nullable ControlHolder_json (bc_holder c))].

Definition BaselineDescriptor_json (d : BaselineDescriptor) : json :=
  JObj ([("baselineId", JStr (bd_baselineId d)); ("run", RunRef_json (bd_run d));
         ("subscription", SubscriptionRef_json (bd_subscription d))] ++ format_members
        ++ [("checkpointSeq", JNum (bd_checkpointSeq d)); ("atSeq", JNum (bd_atSeq d));
            ("captureGeometry", Geometry_json (bd_captureGeometry d));
            ("currentGeometry", Geometry_json (bd_currentGeometry d));
            ("coverage", RecoveryCoverage_json (bd_coverage d)); ("control", BaselineControl_json (bd_control d));
            ("vtBytes", JNum (bd_vtBytes d)); ("tailBytes", JNum (bd_tailBytes d));
            ("chunkCount", JNum (bd_chunkCount d))]).

Definition health_reason_name (r : WorkerHealthReason) : string :=
  match r with
  | event_loop_delay => "event-loop-delay" | heartbeat_gap => "heartbeat-gap" | command_age => "command-age"
  end.

Definition WorkerHealth_json (h : WorkerHealth) : json :=
  JObj [("state", JStr (match health_state h with normal => "normal" | overloaded => "overloaded" end));
        ("reasons", JArr (map (fun r => JStr (health_reason_name r)) (health_reasons h)))].

Definition preview_members (type : string) (run : RunRef) (id : string) (version : Z) : list (string * json) :=
  [("type", JStr type); ("run", RunRef_json run); ("previewId", JStr id); ("version", JNum version)].

Definition ExternalTerminalEvent_json (e : ExternalTerminalEvent) : json :=
  JObj match e with
       | XRunEvent s e => [("type", JStr "run-event"); ("subscription", SubscriptionRef_json s); ("event", RunEvent_json e)]
       | XBaselineStart run d =>
          [("type", JStr "baseline-start"); ("run", RunRef_json run); ("descriptor", BaselineDescriptor_json d)]
       | XBaselineChunk c =>
          [("type", JStr "baseline-chunk"); ("run", RunRef_json (bch_run c)); ("baselineId", JStr (bch_baselineId c));
           ("subscription", SubscriptionRef_json (bch_subscription c)); ("ordinal", JNum (bch_ordinal c))]
       | XBaselineEnd e =>
          [("type", JStr "baseline-end"); ("run", RunRef_json (be_run e)); ("baselineId", JStr (be_baselineId e));
           ("subscription", SubscriptionRef_json (be_subscription e)); ("chunkCount", JNum (be_chunkCount e));
           ("totalBytes", JNum (be_totalBytes e)); ("atSeq", JNum (be_atSeq e))]
       | XPreviewStart p =>
          preview_members "preview-start" (ps_run p) (ps_previewId p) (ps_version p)
          ++ [("atSeq", JNum (ps_atSeq p)); ("geometry", Geometry_json (ps_geometry p));
              ("generatedAtMs", JNum (ps_generatedAtMs p)); ("vtBytes", JNum (ps_vtBytes p));
              ("chunkCount", JNum (ps_chunkCount p))]
       | XPreviewChunk run id version ordinal =>
          preview_members "preview-chunk" run id version ++ [("ordinal", JNum ordinal)]
       | XPreviewEnd run id version total at_ =>
          preview_members "preview-end" run id version ++ [("totalBytes", JNum total); ("atSeq", JNum at_)]
       | XWorkerHealth run s h =>
          [("type", JStr "worker-health"); ("run", RunRef_json run); ("subscription", SubscriptionRef_json s);
           ("health", WorkerHealth_json h)]
       end.

Definition TerminalMetadata_json (m : TerminalMetadata) : json :=
  match m with
  | TM_command c => TerminalCommand_json c
  | TM_result r => TerminalResult_json r
  | TM_event e => ExternalTerminalEvent_json e
  | TM_error e => TerminalError_json e
  end.
