(* ===== verification/StoreTables.v ===== *)
(** * The tables of the store (apps/server/src/store: migrations, statements.ts, executor.ts)

    The rows the receipts, the runs and the operation processes keep, and how
    one store operation runs: as one transaction that commits, rolls back and
    still answers, or fails and rolls back.  A table is the list of its rows;
    its primary key, its trigger and its foreign keys are checked where the
    database checks them.  A JSON column holds the value it spells.  The tables
    no operation here reads or writes are [other], of any type. *)

From S2P Require Import Prelude Json Protocol Errors Operations.

(** ** Rows (migrations 001, 003, 005) *)

Record OperationRow := mkOperationRow {
  or_key : OperationReceiptKey; or_method : WriteRpcMethod; or_canonicalIntent : string; or_state : OperationState;
  or_revision : Z; or_record : OperationRecord; or_acceptedBy : string; or_createdAt : Z; or_updatedAt : Z;
}.

Record TombstoneRow := mkTombstoneRow { tr_tombstone : ReceiptTombstone; tr_purgedAt : Z }.

Record ProcessRow := mkProcessRow {
  pr_processId : string; pr_operation : OperationReceiptKey; pr_pid : Z; pr_pgid : Z; pr_startIdentity : string;
  pr_startedBy : string; pr_startedAt : Z; pr_endedAt : option Z;
}.

(** The columns of an attempt that name operations, and the attempt a mount's
    preparation is at. *)

Record AttemptRow := mkAttemptRow {
  at_attemptId : string; at_operation : OperationReceiptKey; at_abandon : option OperationReceiptKey;
}.

Record PreparationRow := mkPreparationRow { wp_mountId : string; wp_attemptId : string }.

Inductive RunLifecycle := run_starting | run_running | run_exited | run_stopped_with_server | run_interrupted.

#[export] Instance RunLifecycle_eq : EqDecision RunLifecycle.
Proof. solve_decision. Defined.

Inductive RunVerification := ver_live | ver_unverifiable | ver_final.

#[export] Instance RunVerification_eq : EqDecision RunVerification.
Proof. solve_decision. Defined.

Record RunRow := mkRunRow {
  rn_seq : Z; rn_run : RunRef; rn_tabId : option string; rn_cwd : string; rn_operationId : option string;
  rn_lifecycle : RunLifecycle; rn_verification : RunVerification; rn_startedAt : Z; rn_endedAt : option Z;
  rn_lastObservedAt : option Z; rn_exitCode : option Z; rn_signal : option string;
}.

(** The columns of a tab a run that never started changes. *)

Record TabRow := mkTabRow { tb_tabId : string; tb_revision : Z; tb_latestRunSeq : option Z }.

Section store.
Context {D : Type}.

(** [runs_last] is the AUTOINCREMENT counter of the runs; [deleting] are the
    paths of the worktrees with a pending deletion. *)

Record Connection := mkConnection {
  operations : list OperationRow; operation_tombstones : list TombstoneRow;
  operation_processes : list ProcessRow; worktree_attempts : list AttemptRow;
  worktree_preparations : list PreparationRow; runs : list RunRow; runs_last : Z; tabs : list TabRow;
  deleting : list string; other : D;
}.

Definition set_operations (l : list OperationRow) (db : Connection) : Connection :=
  mkConnection l (operation_tombstones db) (operation_processes db) (worktree_attempts db)
    (worktree_preparations db) (runs db) (runs_last db) (tabs db) (deleting db) (other db).

Definition set_tombstones (l : list TombstoneRow) (db : Connection) : Connection :=
  mkConnection (operations db) l (operation_processes db) (worktree_attempts db)
    (worktree_preparations db) (runs db) (runs_last db) (tabs db) (deleting db) (other db).

Definition set_processes (l : list ProcessRow) (db : Connection) : Connection :=
  mkConnection (operations db) (operation_tombstones db) l (worktree_attempts db)
    (worktree_preparations db) (runs db) (runs_last db) (tabs db) (deleting db) (other db).

Definition set_runs (l : list RunRow) (last : Z) (db : Connection) : Connection :=
  mkConnection (operations db) (operation_tombstones db) (operation_processes db) (worktree_attempts db)
    (worktree_preparations db) l last (tabs db) (deleting db) (other db).

Definition set_tabs (l : list TabRow) (db : Connection) : Connection :=
  mkConnection (operations db) (operation_tombstones db) (operation_processes db) (worktree_attempts db)
    (worktree_preparations db) (runs db) (runs_last db) l (deleting db) (other db).

(** ** One operation, one transaction (statements.ts, executor.ts) *)

(** A business operation returns, throws a [Rollback] that carries an answer,
    or throws. *)

Inductive Outcome (A : Type) :=
  | Returned (value : A) (db : Connection)
  | Rollback (value : A)
  | Thrown.

Arguments Returned {A} value db.
Arguments Rollback {A} value.
Arguments Thrown {A}.

Definition SqlOperation (A : Type) : Type := Connection -> Outcome A.

(** The answer, [None] for an error, and the database afterwards. *)

Definition execute {A} (operation : SqlOperation A) (db : Connection) : option A * Connection :=
  match operation db with
  | Returned value db' => (Some value, db')
  | Rollback value => (Some value, db)
  | Thrown => (None, db)
  end.

(** ** Statements on the operations table *)

Definition row_of (key : OperationReceiptKey) (db : Connection) : option OperationRow :=
  List.find (fun r => bool_decide (or_key r = key)) (operations db).

Definition tombstone_of (key : OperationReceiptKey) (db : Connection) : option TombstoneRow :=
  List.find (fun t => bool_decide (tomb_key (tr_tombstone t) = key)) (operation_tombstones db).

(** [INSERT INTO operations ... ON CONFLICT DO NOTHING]: the trigger
    operations_tombstoned aborts first; [false] is no change. *)

Definition insert_operation (row : OperationRow) (db : Connection) : Outcome bool :=
  match tombstone_of (or_key row) db with
  | Some _ => Thrown
  | None =>
     match row_of (or_key row) db with
     | Some _ => Returned false db
     | None => Returned true (set_operations (operations db ++ [row]) db)
     end
  end.

(** [UPDATE operations SET state, revision, record_json, updated_at_ms WHERE
    <key> AND <extra>]; the number of changed rows is 0 or 1. *)

Definition updated (record : OperationRecord) (at_ : Z) (row : OperationRow) : OperationRow :=
  mkOperationRow (or_key row) (or_method row) (or_canonicalIntent row) (op_state record) (op_revision record)
    record (or_acceptedBy row) (or_createdAt row) at_.

Definition selects (key : OperationReceiptKey) (extra : OperationRow -> bool) (row : OperationRow) : bool :=
  bool_decide (or_key row = key) && extra row.

Definition update_operation (key : OperationReceiptKey) (extra : OperationRow -> bool) (record : OperationRecord)
    (at_ : Z) (db : Connection) : bool * Connection :=
  if existsb (selects key extra) (operations db)
  then (true, set_operations (map (fun row => if selects key extra row then updated record at_ row else row)
                                (operations db)) db)
  else (false, db).

(** [DELETE FROM operations WHERE <key> AND state = ?]: refused by the foreign
    key of a process row that still names the operation. *)

Definition delete_operation (key : OperationReceiptKey) (state : OperationState) (db : Connection)
    : option (bool * Connection) :=
  let gone := selects key (fun row => bool_decide (or_state row = state)) in
  if existsb gone (operations db)
  then if existsb (fun p => bool_decide (pr_operation p = key)) (operation_processes db) then None
       else Some (true, set_operations (List.filter (fun row => negb (gone row)) (operations db)) db)
  else Some (false, db).

End store.

Arguments Connection : clear implicits.
Arguments SqlOperation : clear implicits.
Arguments Outcome : clear implicits.
Arguments Returned {D A} value db.
Arguments Rollback {D A} value.
Arguments Thrown {D A}.
