(* ===== verification/ReceiptStore.v ===== *)
(** * The durable receipts (apps/server/src/store/sql/receipts.ts, tab-input.ts)

    The operations of the store on receipts: lookup, acceptance, compare-and-set,
    the list of unfinished receipts, retention, and the receipt-checked database
    write.  [intentDigest] is the hash the host provides and [encodeUtf8] its
    encoder.  Of the named database writes, the abandon of a programmatic input is
    modelled; the others are [other_write], a parameter that maps the database to
    the write's result or refusal, [None] when it throws. *)

From stdpp Require Import sorting.
From S2P Require Import Prelude Json Protocol Errors Operations StoreTables.

(** ** Requests *)

Record AbandonArgs := mkAbandon {
  ab_target : OperationReceiptKey; ab_expectedRevision : Z; ab_limits : ReceiptLimits; ab_at : Z;
}.

Inductive DatabaseWriteApply (W : Type) :=
  | W_tab_input_abandon (args : AbandonArgs)
  | W_other (w : W).

Arguments W_tab_input_abandon {W} args.
Arguments W_other {W} w.

Record DatabaseWriteRequest (W : Type) := mkWrite {
  dw_key : OperationReceiptKey; dw_canonicalIntent : string; dw_method : WriteRpcMethod;
  dw_apply : DatabaseWriteApply W; dw_secrets : list string;
}.

Arguments mkWrite {W} _ _ _ _ _.
Arguments dw_key {W} _.
Arguments dw_canonicalIntent {W} _.
Arguments dw_method {W} _.
Arguments dw_apply {W} _.
Arguments dw_secrets {W} _.

Inductive DatabaseWriteResult :=
  | wr_operation (operation : OperationRecord) (committed : bool)
  | wr_error (e : DomainError)
  | wr_secretRefused.

(** What a named write returns: the operation's result, and whether its work
    only starts, or a refusal. *)

Inductive Applied :=
  | applied (result : OperationResultData) (running : bool)
  | refused (e : DomainError).

Definition with_progress (r : OperationRecord) (revision : Z) (state : OperationState) (result : option OperationResultData)
    : OperationRecord :=
  mkOperation (op_operationId r) (op_method r) revision state (op_run r) result (op_progress r) (op_error r).

Definition ended_state (s : OperationState) : bool :=
  match s with os_succeeded | os_failed | os_cancelled => true | _ => false end.

(** ** Run numbers

    [GLOB 'run-[1-9]*' AND NOT GLOB 'run-*[^0-9]*'], and the cast of the rest to
    a 64-bit integer, which saturates. *)

Fixpoint strip (prefix s : string) : option string :=
  match prefix, s with
  | EmptyString, _ => Some s
  | String a p, String b s => if Ascii.eqb a b then strip p s else None
  | String _ _, EmptyString => None
  end.

Definition is_digit (c : Ascii.ascii) : bool :=
  let n := Ascii.nat_of_ascii c in ((48 <=? n) && (n <=? 57))%nat%bool.

Fixpoint decimal (acc : Z) (s : string) : Z :=
  match s with
  | EmptyString => acc
  | String c rest => decimal (10 * acc + (Z.of_nat (Ascii.nat_of_ascii c) - 48)) rest
  end.

Definition MAX_INT64 : Z := 2 ^ 63 - 1.

Definition run_number (id : string) : option Z :=
  match strip "run-" id with
  | Some (String c rest) =>
     if is_digit c && negb (Ascii.nat_of_ascii c =? 48)%nat && string_all is_digit rest
     then Some (Z.min MAX_INT64 (decimal 0 (String c rest))) else None
  | _ => None
  end.

Section receipts.
Context {D W : Type} (encodeUtf8 : string -> list Z) (intentDigest : string -> string)
  (other_write : W -> Connection D -> option (Applied * Connection D)).

#[local] Abbreviation db_t := (Connection D).

(** ** Lookup *)

(** [None] is the throw for a stored record that no longer parses. *)

Definition receipt (row : OperationRow) : option StoredReceipt :=
  if OperationRecordSchema (or_record row)
  then Some (mkStored (or_key row) (or_canonicalIntent row) (or_record row)) else None.

Definition get (db : db_t) (key : OperationReceiptKey) : option (option StoredReceipt) :=
  match row_of key db with
  | Some row => match receipt row with Some r => Some (Some r) | None => None end
  | None => Some None
  end.

Definition tombstone (db : db_t) (key : OperationReceiptKey) : option ReceiptTombstone :=
  tr_tombstone <$> tombstone_of key db.

Definition tombstoneRefusal (gone : ReceiptTombstone) (canonicalIntent : string) : DomainError :=
  domainErrorOf (if seqb (tomb_intentDigest gone) (intentDigest canonicalIntent)
                 then OPERATION_HISTORY_EXPIRED else OPERATION_ID_CONFLICT).

Definition receipts_get (key : OperationReceiptKey) : SqlOperation D (option Found) := fun db =>
  match get db key with
  | None => Thrown
  | Some (Some r) => Returned (Some (F_receipt r)) db
  | Some None => Returned (F_tombstone <$> tombstone db key) db
  end.

(** ** Acceptance and progress *)

Definition insert (stored : StoredReceipt) (relayInstanceId : string) (at_ : Z) : SqlOperation D bool :=
  let r := st_record stored in
  insert_operation (mkOperationRow (st_key stored) (op_method r) (st_canonicalIntent stored) (op_state r)
                      (op_revision r) r relayInstanceId at_ at_).

Definition replace (key : OperationReceiptKey) (expectedRevision : Z) (record : OperationRecord) (at_ : Z)
    : SqlOperation D bool := fun db =>
  let '(changed, db) := update_operation key (fun row => or_revision row =? expectedRevision) record at_ db in
  Returned changed db.

Definition unfinished_state (s : OperationState) : bool :=
  match s with os_accepted | os_running | os_recovering => true | _ => false end.

(** [ORDER BY created_at_ms, operation_id] *)

Definition created_before (a b : OperationRow) : Prop :=
  or_createdAt a < or_createdAt b
  \/ or_createdAt a = or_createdAt b
     /\ String.leb (key_operationId (or_key a)) (key_operationId (or_key b)) = true.

#[local] Instance created_before_dec : RelDecision created_before.
Proof. unfold created_before. intros a b. apply _. Defined.

Definition unfinished : SqlOperation D (list StoredReceipt) := fun db =>
  match mapM receipt (merge_sort created_before (List.filter (fun row => unfinished_state (or_state row)) (operations db))) with
  | Some l => Returned l db
  | None => Thrown
  end.

(** ** Retention *)

(** A receipt the run-number mark may depend on. *)

Definition holds_mark (highestRun : Z) (row : OperationRow) : bool :=
  match op_run (or_record row) ≫= (fun r => run_number (run_runId r)) with
  | Some n => highestRun <=? n
  | None => false
  end.

(** The current attempt of a mount names [key], as its operation or as the
    abandon that claimed it. *)

Definition current_attempt (db : db_t) (names : AttemptRow -> bool) : bool :=
  existsb (fun a => names a && existsb (fun p => seqb (wp_attemptId p) (at_attemptId a)) (worktree_preparations db))
    (worktree_attempts db).

Definition due (db : db_t) (args : PurgeArgs) (row : OperationRow) : bool :=
  ended_state (or_state row) && (or_updatedAt row <=? pu_now args - pu_retentionMs args)
  && negb (current_attempt db (fun a => bool_decide (at_operation a = or_key row)))
  && negb (current_attempt db (fun a => bool_decide (at_abandon a = Some (or_key row))))
  && negb (existsb (fun p => bool_decide (pr_operation p = or_key row) && bool_decide (pr_endedAt p = None))
             (operation_processes db))
  && negb (holds_mark (pu_highestRun args) row).

(** [ORDER BY updated_at_ms, server_id, principal_id, operation_id] *)

Definition key_leb (a b : OperationReceiptKey) : bool :=
  match String.compare (key_serverId a) (key_serverId b) with
  | Lt => true
  | Gt => false
  | Eq =>
     match String.compare (key_principalId a) (key_principalId b) with
     | Lt => true
     | Gt => false
     | Eq => String.leb (key_operationId a) (key_operationId b)
     end
  end.

Definition older (a b : OperationRow) : Prop :=
  or_updatedAt a < or_updatedAt b \/ or_updatedAt a = or_updatedAt b /\ key_leb (or_key a) (or_key b) = true.

#[local] Instance older_dec : RelDecision older.
Proof. unfold older. intros a b. apply _. Defined.

Definition batch (db : db_t) (args : PurgeArgs) : list OperationRow :=
  ztake (pu_limit args) (merge_sort older (List.filter (due db args) (operations db))).

Definition purge_args_ok (args : PurgeArgs) : bool :=
  isSafeInteger (pu_now args) && isSafeInteger (pu_retentionMs args) && (0 <? pu_retentionMs args)
  && isSafeInteger (pu_limit args) && (0 <? pu_limit args)
  && isSafeInteger (pu_highestRun args) && (0 <=? pu_highestRun args).

Definition tombstone_row (now : Z) (row : OperationRow) : TombstoneRow :=
  mkTombstoneRow (mkTombstone (or_key row) (or_method row) (or_state row) (intentDigest (or_canonicalIntent row))
                    (or_updatedAt row)) now.

(** One receipt: the tombstone, kept when already there, then its processes,
    then the receipt.  A digest that is not 32 characters fails the table's
    CHECK. *)

Definition purge_one (now : Z) (row : OperationRow) (db : db_t) : option db_t :=
  let t := tombstone_row now row in
  if negb (slen (tomb_intentDigest (tr_tombstone t)) =? 32) then None
  else
    let db := match tombstone_of (or_key row) db with
              | Some _ => db
              | None => set_tombstones (operation_tombstones db ++ [t]) db
              end in
    let db := set_processes (List.filter (fun p => negb (bool_decide (pr_operation p = or_key row))) (operation_processes db)) db in
    match delete_operation (or_key row) (or_state row) db with
    | Some (true, db) => Some db
    | _ => None
    end.

Fixpoint purge_rows (now : Z) (rows : list OperationRow) (db : db_t) : option db_t :=
  match rows with
  | [] => Some db
  | row :: rows => purge_one now row db ≫= purge_rows now rows
  end.

Definition purge (args : PurgeArgs) : SqlOperation D PurgeBatch := fun db =>
  if negb (purge_args_ok args) then Thrown
  else let rows := batch db args in
       match purge_rows (pu_now args) rows db with
       | Some db' => Returned (mkBatch (zlen rows) (zlen rows =? pu_limit args)) db'
       | None => Thrown
       end.

(** ** The abandon of a programmatic input (tab-input.ts)

    [None] is the throw of a record that does not parse. *)

Definition refuse_with (kind : DomainErrorKind) (db : db_t) : option (Applied * db_t) :=
  Some (refused (domainErrorOf kind), db).

Definition target_result (key : OperationReceiptKey) : OperationResultData :=
  mkResultData None None None None None None None None (Some (key_operationId key)) None None None None None None None.

Definition tab_input_abandon (args : AbandonArgs) (db : db_t) : option (Applied * db_t) :=
  let key := ab_target args in
  match row_of key db with
  | None => refuse_with OPERATION_NOT_FOUND db
  | Some row =>
     if negb (OperationRecordSchema (or_record row)) then None
     else
       let current := or_record row in
       if negb (bool_decide (op_method current = w_tab_send))
          || negb (bool_decide (op_state current = os_requires_attention))
          || negb (op_revision current =? ab_expectedRevision args)
       then refuse_with OPERATION_NOT_RESUMABLE db
       else match checkedReceiptRecord encodeUtf8 key
                    (with_progress current (op_revision current + 1) os_cancelled (op_result current)) (ab_limits args) with
            | None => refuse_with INVALID_ARGUMENT db
            | Some next =>
               let '(changed, db) :=
                 update_operation key (fun row => (or_revision row =? op_revision current)
                                                  && bool_decide (or_state row = os_requires_attention)) next (ab_at args) db in
               if changed then Some (applied (target_result key) false, db)
               else refuse_with OPERATION_NOT_RESUMABLE db
            end
  end.

Definition database_write (apply : DatabaseWriteApply W) (db : db_t) : option (Applied * db_t) :=
  match apply with
  | W_tab_input_abandon args => tab_input_abandon args db
  | W_other w => other_write w db
  end.

(** ** The receipt-checked database write *)

Definition accepted_record (key : OperationReceiptKey) (method : WriteRpcMethod) : OperationRecord :=
  mkOperation (key_operationId key) method 0 os_accepted None None None None.

Definition commit_write (request : DatabaseWriteRequest W) (relayInstanceId : string) (at_ : Z) (limits : ReceiptLimits)
    (result : OperationResultData) (running : bool) (db : db_t) : Outcome D DatabaseWriteResult :=
  let key := dw_key request in
  let busy := Rollback (wr_error (domainErrorOf BUSY)) in
  match checkedReceiptRecord encodeUtf8 key (accepted_record key (dw_method request)) limits with
  | None => busy
  | Some accepted =>
     match insert (mkStored key (dw_canonicalIntent request) accepted) relayInstanceId at_ db with
     | Returned true db =>
        let state := if running then os_running else os_succeeded in
        match checkedReceiptRecord encodeUtf8 key (with_progress accepted 1 state (Some result)) limits with
        | None => busy
        | Some succeeded =>
           if bool_decide (holdsSecret (OperationRecord_json succeeded) (dw_secrets request) = Some true)
           then Rollback wr_secretRefused
           else match replace key 0 succeeded at_ db with
                | Returned true db => Returned (wr_operation succeeded true) db
                | _ => busy
                end
        end
     | Returned false _ => busy
     | Rollback _ | Thrown => Thrown
     end
  end.

Definition receipts_write (request : DatabaseWriteRequest W) (relayInstanceId : string) (at_ : Z) (limits : ReceiptLimits)
    : SqlOperation D DatabaseWriteResult := fun db =>
  let key := dw_key request in
  if negb (seqb (key_serverId key) (lim_serverId limits)) then Returned (wr_error (domainErrorOf INVALID_ARGUMENT)) db
  else match get db key with
       | None => Thrown
       | Some (Some existing) =>
          Returned (if seqb (st_canonicalIntent existing) (dw_canonicalIntent request)
                    then wr_operation (st_record existing) false
                    else wr_error (domainErrorOf OPERATION_ID_CONFLICT)) db
       | Some None =>
          match tombstone db key with
          | Some gone => Returned (wr_error (tombstoneRefusal gone (dw_canonicalIntent request))) db
          | None =>
             match database_write (dw_apply request) db with
             | None => Thrown
             | Some (refused e, _) => Rollback (wr_error e)
             | Some (applied result running, db) => commit_write request relayInstanceId at_ limits result running db
             end
          end
       end.

End receipts.
