(* ===== verification/ReceiptSafety.v ===== *)
(** * What the store promises about receipts

    The state of a key, never used, receipt or tombstone, only moves forward:
    [evolves] is that order, and every operation on the store follows it on
    every key.  The invariant [store_ok] is what the tables' keys, triggers and
    foreign keys and the validation of the callers keep true. *)

From stdpp Require Import sorting.
From S2P Require Import Prelude Json Protocol Errors Operations JsMap StoreTables ReceiptStore.

(** ** Tables *)

Section tables.
Context {D : Type}.
Implicit Types (db : Connection D) (row : OperationRow) (key : OperationReceiptKey).

Lemma row_of_some key db row : row_of key db = Some row -> row ∈ operations db /\ or_key row = key.
Proof.
  unfold row_of. intros H. apply find_some in H as [Hin Hk%bool_decide_eq_true].
  split; [by apply list_elem_of_In | done].
Qed.

Lemma row_of_none key db : row_of key db = None <-> key ∉ or_key <$> operations db.
Proof.
  unfold row_of. split.
  - intros H (row & -> & Hin)%list_elem_of_fmap. apply list_elem_of_In in Hin.
    pose proof (find_none _ _ H row Hin) as Hn. cbv beta in Hn. by rewrite bool_decide_eq_true_2 in Hn.
  - intros Hk. destruct (List.find _ _) as [row|] eqn:E; [| done]. apply find_some in E as [Hin He%bool_decide_eq_true].
    destruct Hk. apply list_elem_of_fmap. exists row. split; [done | by apply list_elem_of_In].
Qed.

Lemma find_unique (l : list OperationRow) row : NoDup (or_key <$> l) -> row ∈ l ->
  List.find (fun r => bool_decide (or_key r = or_key row)) l = Some row.
Proof.
  induction l as [|x l IH]; intros Hn Hin; [by apply elem_of_nil in Hin |].
  rewrite fmap_cons, NoDup_cons in Hn. destruct Hn as [Hx Hn]. cbn [List.find].
  apply elem_of_cons in Hin as [->|Hin]; [by rewrite bool_decide_eq_true_2 |].
  rewrite bool_decide_eq_false_2; [auto |]. intros E. destruct Hx. rewrite E. by apply list_elem_of_fmap_2.
Qed.

Lemma row_of_elem db row : NoDup (or_key <$> operations db) -> row ∈ operations db -> row_of (or_key row) db = Some row.
Proof. intros Hn Hin. by apply find_unique. Qed.

Lemma tombstone_of_some key db t : tombstone_of key db = Some t ->
  t ∈ operation_tombstones db /\ tomb_key (tr_tombstone t) = key.
Proof.
  unfold tombstone_of. intros H. apply find_some in H as [Hin Hk%bool_decide_eq_true].
  split; [by apply list_elem_of_In | done].
Qed.

Lemma find_snoc {A} (p : A -> bool) l x :
  List.find p (l ++ [x]) = match List.find p l with Some y => Some y | None => if p x then Some x else None end.
Proof. induction l as [|y l IH]; [done |]. cbn. destruct (p y); [done | exact IH]. Qed.

(** *** The statements *)

Lemma insert_operation_spec row db :
  match insert_operation row db with
  | Returned true db' =>
     row_of (or_key row) db = None /\ tombstone_of (or_key row) db = None
     /\ db' = set_operations (operations db ++ [row]) db
  | Returned false db' => db' = db /\ is_Some (row_of (or_key row) db)
  | Rollback _ => False
  | Thrown => is_Some (tombstone_of (or_key row) db)
  end.
Proof. unfold insert_operation. destruct (tombstone_of (or_key row) db), (row_of (or_key row) db); eauto. Qed.

Lemma row_of_insert key row db : row_of (or_key row) db = None ->
  row_of key (set_operations (operations db ++ [row]) db) = if decide (key = or_key row) then Some row else row_of key db.
Proof.
  unfold row_of. cbn [operations set_operations]. rewrite find_snoc. intros Hr.
  destruct (decide (key = or_key row)) as [->|Hk].
  - rewrite Hr. cbv beta. by rewrite bool_decide_eq_true_2.
  - cbv beta. rewrite (bool_decide_eq_false_2 (or_key row = key)) by congruence. by destruct (List.find (fun r => bool_decide (or_key r = key)) (operations db)).
Qed.

Lemma find_map_same key (f : OperationRow -> OperationRow) (l : list OperationRow) :
  (forall r, or_key (f r) = or_key r) ->
  List.find (fun r => bool_decide (or_key r = key)) (map f l) = f <$> List.find (fun r => bool_decide (or_key r = key)) l.
Proof.
  intros Hf. induction l as [|x l IH]; [done |]. cbn [map List.find]. rewrite Hf.
  destruct (bool_decide _); [done | exact IH].
Qed.

Lemma update_operation_spec key extra record at_ db : NoDup (or_key <$> operations db) ->
  let '(changed, db') := update_operation key extra record at_ db in
  if changed
  then exists row, row_of key db = Some row /\ extra row = true
         /\ db' = set_operations (map (fun row => if selects key extra row then updated record at_ row else row) (operations db)) db
         /\ forall k, row_of k db' = if decide (k = key) then Some (updated record at_ row) else row_of k db
  else db' = db /\ (forall row, row_of key db = Some row -> extra row = false).
Proof.
  intros Hn. unfold update_operation. destruct (existsb _ _) eqn:E.
  - apply existsb_exists in E as (row & Hin & Hs). apply list_elem_of_In in Hin.
    unfold selects in Hs. apply andb_true_iff in Hs as [Hk%bool_decide_eq_true He].
    assert (Hrow : row_of key db = Some row) by (rewrite <- Hk; by apply row_of_elem).
    exists row. split_and!; [done | done | done |]. intros k.
    assert (Hm : forall k', row_of k' (set_operations (map (fun row => if selects key extra row then updated record at_ row else row) (operations db)) db)
                 = (fun row => if selects key extra row then updated record at_ row else row) <$> row_of k' db).
    { intros k'. apply find_map_same. intros r. by destruct (selects key extra r). }
    rewrite Hm. destruct (decide (k = key)) as [->|Hkk].
    + rewrite Hrow. cbn. unfold selects. by rewrite bool_decide_eq_true_2, He.
    + destruct (row_of k db) as [r|] eqn:Er; [| done]. cbn. apply row_of_some in Er as [_ Er].
      unfold selects. rewrite bool_decide_eq_false_2; [done | congruence].
  - split; [done |]. intros row Hrow. apply row_of_some in Hrow as [Hin Hk].
    destruct (extra row) eqn:Ee; [| done]. assert (existsb (selects key extra) (operations db) = true); [| congruence].
    apply existsb_exists. exists row. split; [by apply list_elem_of_In |]. unfold selects.
    by rewrite bool_decide_eq_true_2, Ee.
Qed.

Lemma find_filter_other key (p : OperationRow -> bool) (l : list OperationRow) :
  (forall r, r ∈ l -> or_key r = key -> p r = true) ->
  List.find (fun r => bool_decide (or_key r = key)) (List.filter p l) = List.find (fun r => bool_decide (or_key r = key)) l.
Proof.
  induction l as [|x l IH]; intros Hp; [done |]. cbn [List.filter List.find].
  specialize (IH (fun r Hr => Hp r (list_elem_of_further r x l Hr))).
  destruct (p x) eqn:Ex; cbn [List.find].
  - destruct (bool_decide _); [done | exact IH].
  - rewrite bool_decide_eq_false_2; [exact IH |]. intros E. rewrite (Hp x (list_elem_of_here x l) E) in Ex. done.
Qed.

Lemma delete_operation_spec key state db db' : NoDup (or_key <$> operations db) ->
  delete_operation key state db = Some (true, db') ->
  exists row, row_of key db = Some row /\ or_state row = state
    /\ Forall (fun p => pr_operation p <> key) (operation_processes db)
    /\ (exists l, db' = set_operations l db /\ sublist l (operations db))
    /\ forall k, row_of k db' = if decide (k = key) then None else row_of k db.
Proof.
  intros Hn. unfold delete_operation. set (gone := selects key (fun row => bool_decide (or_state row = state))).
  destruct (existsb gone _) eqn:E; [| done]. destruct (existsb _ (operation_processes db)) eqn:Ep; [done |].
  intros [= <-]. apply existsb_exists in E as (row & Hin & Hs). apply list_elem_of_In in Hin.
  unfold gone, selects in Hs. apply andb_true_iff in Hs as [Hk%bool_decide_eq_true He%bool_decide_eq_true].
  assert (Hrow : row_of key db = Some row) by (rewrite <- Hk; by apply row_of_elem).
  exists row. split_and!; [done | done | | |].
  - apply Forall_forall. intros p Hp Hpk. apply list_elem_of_In in Hp.
    assert (existsb (fun p => bool_decide (pr_operation p = key)) (operation_processes db) = true); [| congruence].
    apply existsb_exists. exists p. split; [done |]. by rewrite bool_decide_eq_true_2.
  - eexists. split; [reflexivity |]. apply filter_sublist.
  - intros k. destruct (decide (k = key)) as [->|Hkk].
    + apply row_of_none. cbn [operations set_operations]. intros (r & Hr & Hin')%list_elem_of_fmap.
      apply list_elem_of_In, filter_In in Hin' as [Hin' Hg]. apply list_elem_of_In in Hin'.
      assert (r = row) as -> by (pose proof (row_of_elem db r Hn Hin') as Hr'; rewrite <- Hr in Hr'; congruence).
      unfold gone, selects in Hg. rewrite !bool_decide_eq_true_2 in Hg by done. done.
    + apply find_filter_other. intros r _ Hr. unfold gone, selects. rewrite bool_decide_eq_false_2; [done | congruence].
Qed.

End tables.

(** ** The life of a key *)

Section life.
Context (intentDigest : string -> string).

(** A key that was never used gets a receipt; a receipt that has not ended gets
    a later revision of the same operation; a receipt is replaced by its
    tombstone; a tombstone stays. *)

Definition moves (a b : option Found) : Prop :=
  match a, b with
  | None, Some _ => True
  | Some (F_receipt r), Some (F_receipt r') =>
     st_key r' = st_key r /\ st_canonicalIntent r' = st_canonicalIntent r
     /\ op_method (st_record r') = op_method (st_record r)
     /\ op_revision (st_record r) < op_revision (st_record r')
     /\ ended_state (op_state (st_record r)) = false
  | Some (F_receipt r), Some (F_tombstone t) =>
     tomb_key t = st_key r /\ tomb_intentDigest t = intentDigest (st_canonicalIntent r)
     /\ tomb_method t = op_method (st_record r) /\ ended_state (tomb_state t) = true
     /\ (ended_state (op_state (st_record r)) = true -> tomb_state t = op_state (st_record r))
  | _, _ => False
  end.

Definition evolves (a b : option Found) : Prop := a = b \/ moves a b.

#[export] Instance evolves_preorder : PreOrder evolves.
Proof.
  split; [by left |]. intros a b c [->|Hab]; [done |]. intros [<-|Hbc]; [by right |]. right.
  destruct a as [[r|t]|], b as [[r'|t']|], c as [[r''|t'']|]; cbn in *; destruct_and?; try done;
    split_and?; try congruence; try lia.
Qed.

Lemma evolves_used a b : evolves a b -> a <> None -> b <> None.
Proof. intros [->|H] Ha; [done |]. destruct a as [[r|t]|], b as [[r'|t']|]; done. Qed.

Lemma evolves_ended r b : evolves (Some (F_receipt r)) b -> ended_state (op_state (st_record r)) = true ->
  b = Some (F_receipt r)
  \/ exists t, b = Some (F_tombstone t) /\ tomb_intentDigest t = intentDigest (st_canonicalIntent r)
       /\ tomb_state t = op_state (st_record r).
Proof.
  intros [<-|H] He; [by left |]. destruct b as [[r'|t]|]; cbn in H; destruct_and?; [congruence | | done].
  right. exists t. auto.
Qed.

Lemma evolves_tombstone t b : evolves (Some (F_tombstone t)) b -> b = Some (F_tombstone t).
Proof. by intros [<-|H]. Qed.

Lemma evolves_revision r r' : evolves (Some (F_receipt r)) (Some (F_receipt r')) ->
  st_key r' = st_key r /\ st_canonicalIntent r' = st_canonicalIntent r
  /\ op_method (st_record r') = op_method (st_record r)
  /\ (r' = r \/ op_revision (st_record r) < op_revision (st_record r')).
Proof. intros [[= <-]|H]; [auto | cbn in H; destruct_and?; auto]. Qed.

(** ** The invariant of the store *)

Context {D : Type}.
Implicit Types (db : Connection D) (row : OperationRow) (key : OperationReceiptKey).

(** The columns that duplicate the record agree with it. *)

Definition row_ok row : Prop :=
  or_state row = op_state (or_record row) /\ or_revision row = op_revision (or_record row)
  /\ or_method row = op_method (or_record row) /\ op_operationId (or_record row) = key_operationId (or_key row)
  /\ OperationRecordSchema (or_record row) = true.

Definition tombstones_key (t : TombstoneRow) : OperationReceiptKey := tomb_key (tr_tombstone t).

Record store_ok db : Prop := mk_store_ok {
  so_keys : NoDup (or_key <$> operations db);
  so_tombstones : NoDup (tombstones_key <$> operation_tombstones db);
  so_disjoint : forall key, row_of key db = None \/ tombstone_of key db = None;
  so_rows : Forall row_ok (operations db);
  so_ended : Forall (fun t => ended_state (tomb_state (tr_tombstone t)) = true) (operation_tombstones db);
  so_processes : Forall (fun p => is_Some (row_of (pr_operation p) db)) (operation_processes db);
}.

Definition stored_of row : StoredReceipt := mkStored (or_key row) (or_canonicalIntent row) (or_record row).

(** What the two tables hold for a key. *)

Definition found db key : option Found :=
  match row_of key db with
  | Some row => Some (F_receipt (stored_of row))
  | None => F_tombstone <$> tombstone db key
  end.

Lemma row_ok_of db key row : store_ok db -> row_of key db = Some row -> row_ok row.
Proof.
  intros Hs [Hin _]%row_of_some. destruct Hs. rewrite Forall_forall in so_rows0. auto.
Qed.

Lemma receipt_ok row : row_ok row -> receipt row = Some (stored_of row).
Proof. intros (_ & _ & _ & _ & H). unfold receipt. by rewrite H. Qed.

(** The lookup never fails on a consistent store and reports exactly what is
    there. *)

Lemma receipts_get_found key db : store_ok db -> receipts_get key db = Returned (found db key) db.
Proof.
  intros Hs. unfold receipts_get, get, found. destruct (row_of key db) as [row|] eqn:E; [| done].
  by rewrite (receipt_ok row (row_ok_of db key row Hs E)).
Qed.

(** A change of the database that respects every key's life. *)

Definition respects db db' : Prop := forall key, evolves (found db key) (found db' key).

#[export] Instance respects_preorder : PreOrder respects.
Proof. split; [intros db key; reflexivity | intros a b c H1 H2 key; etransitivity; eauto]. Qed.

Lemma same_tables db db' : operations db' = operations db -> operation_tombstones db' = operation_tombstones db ->
  forall key, found db' key = found db key.
Proof. intros H1 H2 key. unfold found, tombstone, tombstone_of, row_of. by rewrite H1, H2. Qed.

Lemma same_tables_ok db db' : operations db' = operations db -> operation_tombstones db' = operation_tombstones db ->
  Forall (fun p => is_Some (row_of (pr_operation p) db)) (operation_processes db') -> store_ok db -> store_ok db'.
Proof.
  intros H1 H2 H3 [A B C E F G]. split; rewrite ?H1, ?H2; try done.
  - intros key. unfold row_of, tombstone_of. rewrite H1, H2. apply C.
  - apply (Forall_impl _ _ _ H3). intros p. unfold row_of. by rewrite H1.
Qed.

(** *** Acceptance *)

(** What the callers check of a receipt they insert. *)

Definition insertable (stored : StoredReceipt) : Prop :=
  OperationRecordSchema (st_record stored) = true
  /\ op_operationId (st_record stored) = key_operationId (st_key stored).

Lemma row_of_app_other (l : list OperationRow) row p :
  is_Some (List.find p l) -> List.find p (l ++ [row]) = List.find p l.
Proof. rewrite find_snoc. by intros [x ->]. Qed.

Lemma insert_spec stored inst at_ db : store_ok db -> insertable stored ->
  match insert stored inst at_ db with
  | Returned true db' =>
     store_ok db' /\ found db (st_key stored) = None
     /\ (forall key, found db' key = if decide (key = st_key stored) then Some (F_receipt stored) else found db key)
     /\ operation_processes db' = operation_processes db /\ other db' = other db
  | Returned false db' => db' = db /\ found db (st_key stored) <> None
  | Rollback _ => False
  | Thrown => found db (st_key stored) <> None
  end.
Proof.
  intros Hs [Hv Hid]. unfold insert.
  set (row := mkOperationRow (st_key stored) _ _ _ _ _ _ _ _).
  pose proof (insert_operation_spec row db) as H. destruct Hs as [A B C E F G].
  destruct (insert_operation row db) as [[] db'| |]; [| | done |].
  - destruct H as (Hr & Ht & ->). change (or_key row) with (st_key stored) in *. split_and!; try done.
    + split; cbn [set_operations operations operation_tombstones operation_processes]; try done.
      * rewrite fmap_app. apply NoDup_app. split_and!; [done | | apply NoDup_singleton].
        intros k Hk ->%list_elem_of_singleton. by apply row_of_none in Hr.
      * intros key. rewrite row_of_insert by done. destruct (decide _) as [->|]; [by right | apply C].
      * apply Forall_app. split; [done |]. apply Forall_singleton. unfold row_ok. cbn. auto.
      * apply (Forall_impl _ _ _ G). intros p [r Hp]. unfold row_of. cbn [set_operations operations].
        rewrite row_of_app_other; [by exists r | exists r; exact Hp].
    + unfold found. rewrite Hr. unfold tombstone. by rewrite Ht.
    + intros key. unfold found. rewrite row_of_insert by done. change (or_key row) with (st_key stored).
      destruct (decide (key = st_key stored)); [| done]. unfold stored_of. cbn. by destruct stored.
  - destruct H as [-> [r Hr]]. split; [done |]. unfold found. change (or_key row) with (st_key stored) in Hr. by rewrite Hr.
  - destruct H as [t Ht]. change (or_key row) with (st_key stored) in Ht. unfold found, tombstone. rewrite Ht.
    by destruct (row_of _ _).
Qed.

(** *** Progress *)

Lemma update_spec key extra record at_ db : store_ok db ->
  OperationRecordSchema record = true -> op_operationId record = key_operationId key ->
  (forall row, row_of key db = Some row -> extra row = true -> op_method record = op_method (or_record row)) ->
  let '(changed, db') := update_operation key extra record at_ db in
  if changed
  then store_ok db' /\ exists row, row_of key db = Some row /\ extra row = true
       /\ (forall k, found db' k = if decide (k = key)
                                   then Some (F_receipt (mkStored key (or_canonicalIntent row) record)) else found db k)
       /\ operation_processes db' = operation_processes db /\ other db' = other db
  else db' = db /\ (forall row, row_of key db = Some row -> extra row = false).
Proof.
  intros Hs Hv Hid Hm. pose proof (update_operation_spec key extra record at_ db (so_keys db Hs)) as H.
  destruct (update_operation key extra record at_ db) as [[] db']; [| done].
  destruct H as (row & Hrow & He & Hdb & Hk). pose proof (row_ok_of db key row Hs Hrow) as Hrok.
  pose proof (proj2 (row_of_some key db row Hrow)) as Hkey.
  split; [| exists row; split_and!; [done | done | | by subst db' | by subst db']].
  - destruct Hs as [A B C E F G]. split.
    + subst db'. cbn [operations set_operations]. replace (or_key <$> map _ _) with (or_key <$> operations db); [done |].
      clear. induction (operations db) as [|x l IH]; [done |]. cbn. rewrite <- IH. by destruct (selects key extra x).
    + by subst db'.
    + intros k. rewrite Hk. subst db'. destruct (decide (k = key)) as [->|]; [| apply C].
      right. destruct (C key) as [HC|HC]; [congruence | done].
    + subst db'. cbn [operations set_operations]. apply Forall_forall. intros r (x & -> & Hx)%list_elem_of_fmap.
      rewrite Forall_forall in E. pose proof (E x Hx) as (E1 & E2 & E3 & E4 & E5).
      destruct (selects key extra x) eqn:Es; [| by apply E].
      unfold selects in Es. apply andb_true_iff in Es as [Ex%bool_decide_eq_true Ee].
      assert (x = row) as -> by (pose proof (row_of_elem db x A Hx) as Hx'; rewrite Ex in Hx'; congruence).
      unfold row_ok, updated. cbn. rewrite Ex. split_and!; try done. rewrite E3. by rewrite (Hm row).
    + by subst db'.
    + rewrite Hdb. cbn [operation_processes set_operations]. rewrite <- Hdb. apply (Forall_impl _ _ _ G).
      intros p Hp. rewrite Hk. destruct (decide _); [by eexists | done].
  - intros k. unfold found. rewrite Hk. destruct (decide (k = key)) as [->|].
    + unfold stored_of, updated. cbn. by rewrite Hkey.
    + subst db'. done.
Qed.

Lemma update_evolves row key record db : row_of key db = Some row -> row_ok row ->
  op_revision (or_record row) < op_revision record -> op_method record = op_method (or_record row) ->
  ended_state (op_state (or_record row)) = false ->
  evolves (found db key) (Some (F_receipt (mkStored key (or_canonicalIntent row) record))).
Proof.
  intros Hrow Hok Hr Hm He. right. unfold found. rewrite Hrow. cbn. apply row_of_some in Hrow as [_ <-]. auto.
Qed.


Lemma found_receipt db key r : found db key = Some (F_receipt r) <-> exists row, row_of key db = Some row /\ r = stored_of row.
Proof.
  unfold found. destruct (row_of key db) as [row|]; split.
  - intros [= <-]. eauto.
  - intros (row' & [= <-] & ->). done.
  - destruct (tombstone db key); done.
  - by intros (row' & ? & _).
Qed.

Lemma found_key db key r : found db key = Some (F_receipt r) -> st_key r = key.
Proof. intros (row & Hrow & ->)%found_receipt. by apply row_of_some in Hrow as [_ <-]. Qed.

Definition revision_of (r : StoredReceipt) : Z := op_revision (st_record r).

(** The compare-and-set: it changes exactly the receipt whose revision was
    expected, and nothing when there is none. *)

Lemma replace_spec key expected record at_ db : store_ok db ->
  OperationRecordSchema record = true -> op_operationId record = key_operationId key ->
  (forall r, found db key = Some (F_receipt r) -> revision_of r = expected -> op_method record = op_method (st_record r)) ->
  match replace key expected record at_ db with
  | Returned true db' =>
     store_ok db' /\ exists r, found db key = Some (F_receipt r) /\ revision_of r = expected
     /\ (forall k, found db' k = if decide (k = key) then Some (F_receipt (mkStored key (st_canonicalIntent r) record)) else found db k)
     /\ operation_processes db' = operation_processes db /\ other db' = other db
  | Returned false db' => db' = db /\ (forall r, found db key = Some (F_receipt r) -> revision_of r <> expected)
  | _ => False
  end.
Proof.
  intros Hs Hv Hid Hm. unfold replace.
  opose proof (update_spec key (fun row => or_revision row =? expected) record at_ db Hs Hv Hid _) as H.
  { intros row Hrow Hr%Z.eqb_eq. apply (Hm (stored_of row)); [apply found_receipt; eauto |].
    pose proof (row_ok_of db key row Hs Hrow) as (_ & Hrev & _). unfold revision_of. cbn. lia. }
  destruct (update_operation key _ record at_ db) as [[] db'].
  - destruct H as (Hs' & row & Hrow & Hr%Z.eqb_eq & Hf & Hp & Ho). split; [done |]. exists (stored_of row).
    pose proof (row_ok_of db key row Hs Hrow) as (_ & Hrev & _).
    split_and!; [apply found_receipt; eauto | unfold revision_of; cbn; lia | done..].
  - destruct H as [-> H]. split; [done |]. intros r (row & Hrow & ->)%found_receipt Hr.
    specialize (H row Hrow). pose proof (row_ok_of db key row Hs Hrow) as (_ & Hrev & _).
    unfold revision_of in Hr. cbn in Hr. rewrite Hrev, Hr, Z.eqb_refl in H. done.
Qed.

Lemma respects_update db db' key v : evolves (found db key) v ->
  (forall k, found db' k = if decide (k = key) then v else found db k) -> respects db db'.
Proof. intros Hv Hf k. rewrite Hf. destruct (decide _) as [->|]; [done | reflexivity]. Qed.

(** ** Checked records *)

Context (encodeUtf8 : string -> list Z).

Lemma checked_record key record limits r : checkedReceiptRecord encodeUtf8 key record limits = Some r ->
  r = record /\ OperationRecordSchema r = true /\ op_operationId r = key_operationId key
  /\ record_bytes encodeUtf8 r <= lim_operationRecordBytes limits
  /\ match op_run r with Some run => run_serverId run = lim_serverId limits | None => True end.
Proof.
  unfold checkedReceiptRecord, validateOperationRecord.
  destruct (negb (bool_decide _)); [done |]. destruct (OperationRecordSchema record) eqn:Hv; [| done]. cbn [negb].
  destruct (record_bytes encodeUtf8 record <=? _); [| done].
  destruct (lim_operationRecordBytes limits <? _) eqn:Hb; [done |]. cbn [orb].
  destruct (seqb (op_operationId record) _) eqn:Hk; [| done]. cbn [negb orb].
  destruct (op_run record) as [run|] eqn:Hrun.
  - destruct (seqb (run_serverId run) _) eqn:Hrs; [| done]. cbn [negb]. intros [= <-].
    unfold seqb in *. apply String.eqb_eq in Hk, Hrs. apply Z.ltb_ge in Hb. rewrite Hrun. split_and!; done.
  - intros [= <-]. unfold seqb in *. apply String.eqb_eq in Hk. apply Z.ltb_ge in Hb. rewrite Hrun. split_and!; done.
Qed.

(** *** The abandon of a programmatic input *)

Lemma abandon_spec args db a db' : store_ok db -> tab_input_abandon encodeUtf8 args db = Some (a, db') ->
  store_ok db' /\ respects db db'
  /\ match a with
     | refused _ => db' = db
     | applied _ running =>
        running = false /\ exists r, found db (ab_target args) = Some (F_receipt r)
        /\ op_state (st_record r) = os_requires_attention /\ op_method (st_record r) = w_tab_send
        /\ revision_of r = ab_expectedRevision args
        /\ exists r', found db' (ab_target args) = Some (F_receipt r') /\ op_state (st_record r') = os_cancelled
           /\ revision_of r' = revision_of r + 1 /\ op_result (st_record r') = op_result (st_record r)
     end.
Proof.
  intros Hs. unfold tab_input_abandon, refuse_with. set (key := ab_target args).
  destruct (row_of key db) as [row|] eqn:Hrow; [| by intros [= <- <-]].
  pose proof (row_ok_of db key row Hs Hrow) as (Hst & Hrev & Hmeth & Hid & Hv). rewrite Hv. cbn [negb].
  destruct (bool_decide (op_method (or_record row) = w_tab_send)) eqn:Em; cbn [negb orb]; [| by intros [= <- <-]].
  destruct (bool_decide (op_state (or_record row) = os_requires_attention)) eqn:Es; cbn [negb orb]; [| by intros [= <- <-]].
  destruct (op_revision (or_record row) =? ab_expectedRevision args) eqn:Er; cbn [negb]; [| by intros [= <- <-]].
  apply bool_decide_eq_true in Em, Es. apply Z.eqb_eq in Er.
  destruct (checkedReceiptRecord _ _ _ _) as [next|] eqn:Ec; [| by intros [= <- <-]].
  apply checked_record in Ec as (-> & Hv' & Hid' & _).
  set (next := with_progress (or_record row) _ _ _) in *.
  set (extra := fun row => (or_revision row =? _) && _).
  opose proof (update_spec key extra next (ab_at args) db Hs Hv' Hid' _) as H.
  { intros row' Hrow' _. assert (row' = row) as -> by congruence. done. }
  destruct (update_operation key extra next _ db) as [[] db1].
  - destruct H as (Hs' & row' & Hrow' & _ & Hf & _). assert (row' = row) as -> by congruence.
    intros [= <- <-]. split; [done |].
    assert (Hfound : found db key = Some (F_receipt (stored_of row))) by (apply found_receipt; eauto).
    split; [| split; [done |]].
    + apply (respects_update db db1 key (Some (F_receipt (mkStored key (or_canonicalIntent row) next)))); [| done].
      apply (update_evolves row); [done | done | cbn; lia | done | by rewrite Es].
    + exists (stored_of row). split_and!; [done | done | done | unfold revision_of; cbn; lia |].
      exists (mkStored key (or_canonicalIntent row) next). split_and!; [| done..].
      rewrite Hf. by rewrite decide_True.
  - destruct H as [_ H]. specialize (H row Hrow). unfold extra in H. rewrite Hrev, Z.eqb_refl, Hst, Es in H. done.
Qed.

End life.

(** ** A store of one server *)

Definition empty_store : Connection unit := mkConnection [] [] [] [] [] [] 0 [] [] tt.

Lemma empty_store_ok : store_ok empty_store.
Proof. split; try constructor. done. Qed.

Definition demo_key (id : string) : OperationReceiptKey := mkKey "server" "owner" id.

Definition demo_digest (intent : string) : string := String.substring 0 32 (intent +:+ "00000000000000000000000000000000").

Lemma demo_digest_length s : slen (demo_digest s) = 32.
Proof.
  unfold demo_digest. set (pad := "00000000000000000000000000000000").
  assert (H : forall n t, (n <= String.length t)%nat -> String.length (String.substring 0 n t) = n).
  { induction n as [|n IH]; intros [|c t] Hn; cbn in *; try lia. f_equal. apply IH. lia. }
  unfold slen. rewrite H; [done |]. pose proof (slen_app s pad) as Ha. unfold slen in Ha.
  change (Z.of_nat (String.length pad)) with 32 in Ha. lia.
Qed.
