(* ===== verification/ReceiptProperties.v ===== *)
(** * Receipts are accepted once, change forward and are retired whole

    The theorems about the operations of ReceiptStore.v: a receipt-checked write
    applies its change and its receipt together and only under a key never used;
    a purge replaces exactly due receipts by their tombstones; and whatever
    operations the store runs, every key's life moves forward. *)

From stdpp Require Import sorting.
From S2P Require Import Prelude Json Protocol Errors Terminal Pipe Operations OperationBounds JsMap StoreTables ReceiptStore ReceiptSafety.

Section properties.
Context {D W : Type} (encodeUtf8 : string -> list Z) (intentDigest : string -> string)
  (other_write : W -> Connection D -> option (Applied * Connection D)).

(** The named writes that are not modelled keep the tables consistent and move
    receipts only forward: they change them through compare-and-sets of live
    receipts (replaceReceipt of store/sql/worktrees.ts) or not at all. *)

Definition writes_respect : Prop := forall w db a db', store_ok db -> other_write w db = Some (a, db') ->
  store_ok db' /\ respects intentDigest db db'.

Lemma database_write_ok apply db a db' : writes_respect -> store_ok db ->
  database_write encodeUtf8 other_write apply db = Some (a, db') -> store_ok db' /\ respects intentDigest db db'.
Proof.
  intros Hw Hs. destruct apply as [args|w]; cbn [database_write]; [| by apply Hw].
  intros H. destruct (abandon_spec intentDigest encodeUtf8 args db a db' Hs H) as (? & ? & _). done.
Qed.

(** ** The receipt-checked write *)

(** What a committed write leaves: the named write's change and, under the
    request's key, the receipt at revision 1 with that write's result. *)

Definition committed_write (request : DatabaseWriteRequest W) (limits : ReceiptLimits) (db : Connection D)
    (record : OperationRecord) (db' : Connection D) : Prop :=
  found db (dw_key request) = None
  /\ found db' (dw_key request) = Some (F_receipt (mkStored (dw_key request) (dw_canonicalIntent request) record))
  /\ op_revision record = 1 /\ record_bytes encodeUtf8 record <= lim_operationRecordBytes limits
  /\ existsb (fun text => existsb (includes text) (dw_secrets request)) (json_strings (OperationRecord_json record)) = false
  /\ exists result running db1, database_write encodeUtf8 other_write (dw_apply request) db = Some (applied result running, db1)
       /\ op_result record = Some result /\ op_state record = (if running then os_running else os_succeeded)
       /\ other db' = other db1
       /\ (forall key, key <> dw_key request -> found db' key = found db1 key).

Lemma no_secret v secrets : holdsSecret v secrets <> Some true ->
  existsb (fun text => existsb (includes text) secrets) (json_strings v) = false.
Proof.
  unfold holdsSecret. destruct secrets as [|x secrets]; [intros _; by induction (json_strings v) |].
  rewrite holds_loop_spec by (cbn; lia). cbn [flat_map]. rewrite app_nil_r. intros H.
  apply not_true_iff_false. intros E. apply H. by rewrite <- E.
Qed.

Lemma commit_write_spec (request : DatabaseWriteRequest W) inst at_ limits result running (db : Connection D) : store_ok db ->
  match commit_write encodeUtf8 request inst at_ limits result running db with
  | Returned (wr_operation r true) db' =>
     store_ok db' /\ found db (dw_key request) = None
     /\ (forall key, found db' key = if decide (key = dw_key request)
                       then Some (F_receipt (mkStored (dw_key request) (dw_canonicalIntent request) r)) else found db key)
     /\ op_revision r = 1 /\ op_result r = Some result /\ op_state r = (if running then os_running else os_succeeded)
     /\ record_bytes encodeUtf8 r <= lim_operationRecordBytes limits
     /\ holdsSecret (OperationRecord_json r) (dw_secrets request) <> Some true
     /\ other db' = other db
  | Rollback (wr_operation _ _) | Returned _ _ => False
  | Rollback _ | Thrown => True
  end.
Proof.
  intros Hs. unfold commit_write. destruct (checkedReceiptRecord _ _ _ _) as [acc|] eqn:Ea; [| done].
  apply checked_record in Ea as (-> & Hv & Hid & _).
  set (acc := accepted_record _ _) in *. set (stored := mkStored _ _ acc).
  pose proof (insert_spec stored inst at_ db Hs (conj Hv Hid)) as Hi.
  destruct (insert stored inst at_ db) as [[] db1| |]; [| done | done | done].
  destruct Hi as (Hs1 & Hnone & Hf1 & _ & Ho1).
  destruct (checkedReceiptRecord _ _ _ _) as [suc|] eqn:Es; [| done].
  apply checked_record in Es as (-> & Hv2 & Hid2 & Hb2 & _). set (suc := with_progress acc _ _ _) in *.
  destruct (bool_decide _) eqn:Eh; [done |]. apply bool_decide_eq_false in Eh.
  assert (Hstored : found db1 (dw_key request) = Some (F_receipt stored)) by (rewrite Hf1; by rewrite decide_True).
  opose proof (replace_spec (dw_key request) 0 suc at_ db1 Hs1 Hv2 Hid2 _) as Hr.
  { intros r Hr _. rewrite Hr in Hstored. by injection Hstored as ->. }
  destruct (replace (dw_key request) 0 suc at_ db1) as [[] db2| |]; [| done | done | done].
  destruct Hr as (Hs2 & r & Hr & _ & Hf2 & _ & Ho2). rewrite Hr in Hstored. injection Hstored as ->.
  split_and!; try done.
  - intros key. rewrite Hf2, Hf1. by destruct (decide _).
  - by rewrite Ho2, Ho1.
Qed.

Lemma write_spec (request : DatabaseWriteRequest W) inst at_ limits (db : Connection D) : writes_respect -> store_ok db ->
  let key := dw_key request in
  let '(answer, db') := execute (receipts_write encodeUtf8 intentDigest other_write request inst at_ limits) db in
  store_ok db' /\ respects intentDigest db db'
  /\ ((exists r, answer = Some (wr_operation r true) /\ committed_write request limits db r db')
      \/ db' = db /\ (forall r, answer <> Some (wr_operation r true)))
  /\ (key_serverId key = lim_serverId limits -> forall f, found db key = Some f ->
      answer = Some match f with
                    | F_receipt r => if String.eqb (st_canonicalIntent r) (dw_canonicalIntent request)
                                     then wr_operation (st_record r) false
                                     else wr_error (domainErrorOf OPERATION_ID_CONFLICT)
                    | F_tombstone t => wr_error (tombstoneRefusal intentDigest t (dw_canonicalIntent request))
                    end).
Proof.
  intros Hw Hs key. unfold execute, receipts_write. fold key.
  destruct (seqb (key_serverId key) (lim_serverId limits)) eqn:Ek; cbn [negb].
  2: { split_and!; [done | reflexivity | right; split; done |]. intros E. unfold seqb in Ek. by rewrite E, String.eqb_refl in Ek. }
  pose proof (receipts_get_found key db Hs) as Hg. unfold receipts_get in Hg.
  destruct (get db key) as [[existing|]|]; [| | done].
  { injection Hg as Hg. split_and!; [done | reflexivity | right; split; [done |] |].
    - intros r. unfold seqb. by destruct (String.eqb _ _).
    - intros _ f. rewrite <- Hg. by intros [= <-]. }
  injection Hg as Hg. destruct (tombstone db key) as [gone|]; cbn in Hg.
  { split_and!; [done | reflexivity | right; split; done |]. intros _ f. rewrite <- Hg. by intros [= <-]. }
  assert (Hnone : forall f, found db key = Some f -> False) by (intros f; rewrite <- Hg; done).
  destruct (database_write _ _ _ _) as [[[result running|e] db1]|] eqn:Ed.
  2, 3: split_and!; [done | reflexivity | right; split; done | intros _ f Hf; by destruct (Hnone f)].
  pose proof (database_write_ok _ _ _ _ Hw Hs Ed) as [Hs1 Hr1].
  pose proof (commit_write_spec request inst at_ limits result running db1 Hs1) as Hc.
  destruct (commit_write _ _ _ _ _ _ _ _) as [[r []|e|] db2|[r b|e|]|]; try done.
  2-4: split_and!; [done | reflexivity | right; split; done | intros _ f Hf; by destruct (Hnone f)].
  destruct Hc as (Hs2 & Hn1 & Hf2 & Hrev & Hres & Hst & Hb & Hsec & Ho).
  split_and!; [done | | left; exists r; split; [done |] | intros _ f Hf; by destruct (Hnone f)].
  - etransitivity; [exact Hr1 |]. apply (respects_update _ _ _ key (Some (F_receipt (mkStored key (dw_canonicalIntent request) r)))); [| done].
    right. fold key in Hn1. by rewrite Hn1.
  - fold key in Hf2. unfold committed_write. fold key. split_and!; try done.
    + rewrite Hf2. by rewrite decide_True.
    + by apply no_secret.
    + exists result, running, db1. split_and!; try done. intros k Hk. rewrite Hf2. by rewrite decide_False.
Qed.

(** C6: a receipt-checked database write is all or nothing and happens once: it
    reports itself committed exactly when it applied the named change under a
    key never used and stored the receipt with it, a valid record within the
    budget in which no string contains a secret of the request; every other
    answer leaves the database as it was, and a key already used is answered
    from its receipt or tombstone, never executed again. *)
Theorem write_exact (request : DatabaseWriteRequest W) inst at_ limits (db : Connection D) : writes_respect -> store_ok db ->
  let key := dw_key request in
  let '(answer, db') := execute (receipts_write encodeUtf8 intentDigest other_write request inst at_ limits) db in
  store_ok db' /\ respects intentDigest db db'
  /\ ((exists r, answer = Some (wr_operation r true) /\ committed_write request limits db r db')
      \/ db' = db /\ (forall r, answer <> Some (wr_operation r true)))
  /\ (key_serverId key = lim_serverId limits -> forall f, found db key = Some f ->
      answer = Some match f with
                    | F_receipt r => if String.eqb (st_canonicalIntent r) (dw_canonicalIntent request)
                                     then wr_operation (st_record r) false
                                     else wr_error (domainErrorOf OPERATION_ID_CONFLICT)
                    | F_tombstone t => wr_error (tombstoneRefusal intentDigest t (dw_canonicalIntent request))
                    end).
Proof. apply write_spec. Qed.

End properties.

(** A write that only records its request. *)

Definition demo_write (w : unit) (db : Connection unit) : option (Applied * Connection unit) :=
  Some (applied no_result false, db).

Lemma demo_write_respects digest : writes_respect digest demo_write.
Proof. intros [] db a db' Hs [= <- <-]. split; [done | reflexivity]. Qed.

Definition demo_request : DatabaseWriteRequest unit :=
  mkWrite (demo_key "op-1") "intent" w_config_set (W_other tt) ["0123456789abcdef"].

Definition demo_limits : ReceiptLimits := mkLimits "server" 4096.

Definition written : option DatabaseWriteResult * Connection unit :=
  execute (receipts_write latin_utf8 demo_digest demo_write demo_request "instance" 7 demo_limits) empty_store.

Lemma write_exact_witness :
  match written with
  | (Some (wr_operation r true), db) => committed_write latin_utf8 demo_write demo_request demo_limits empty_store r db
  | _ => False
  end.
Proof.
  pose proof (write_exact latin_utf8 demo_digest demo_write demo_request "instance" 7 demo_limits empty_store
                (demo_write_respects demo_digest) empty_store_ok) as H. fold written in H.
  destruct written as [answer db] eqn:E. vm_compute in E. injection E as <- <-.
  destruct H as (_ & _ & [(r & Hr & Hc)|[_ Hn]] & _); [| by destruct (Hn _ eq_refl)].
  injection Hr as <-. exact Hc.
Defined.
