(* ===== verification/RunStore.v ===== *)
(** * The durable runs and operation processes (apps/server/src/store/sql/runs.ts, processes.ts, deletions.ts)

    The history of runs with its lifecycle, the run-number mark a new instance
    continues after, and the processes an operation started. *)

From stdpp Require Import sorting.
From S2P Require Import Prelude Json Protocol Errors Operations StoreTables ReceiptStore.

(** ** Pending deletions (deletions.ts) *)

Fixpoint startsWith (s prefix : string) : bool :=
  match prefix, s with
  | EmptyString, _ => true
  | String a p, String b s => Ascii.eqb a b && startsWith s p
  | String _ _, EmptyString => false
  end.

Fixpoint endsWithSlash (s : string) : bool :=
  match s with
  | EmptyString => false
  | String c EmptyString => (Ascii.nat_of_ascii c =? 47)%nat
  | String _ rest => endsWithSlash rest
  end.

Section runs.
Context {D : Type}.
Implicit Types (db : Connection D).

Definition deletionPending db (paths : list string) : bool :=
  existsb (fun path =>
    let below := if endsWithSlash path then path else path +:+ "/" in
    existsb (fun candidate => seqb candidate path || startsWith candidate below) paths) (deleting db).

(** ** Runs (runs.ts) *)

(** [WHERE relay_instance_id = ? AND run_id = ? AND server_id = ? AND ...]; the
    UNIQUE constraint is on the first two. *)

Definition same_identity (a b : RunRef) : bool :=
  seqb (run_relayInstanceId a) (run_relayInstanceId b) && seqb (run_runId a) (run_runId b).

Definition run_is (run : RunRef) (row : RunRow) : bool :=
  same_identity (rn_run row) run && seqb (run_serverId (rn_run row)) (run_serverId run).

Definition live_lifecycle (l : RunLifecycle) : bool :=
  match l with run_starting | run_running => true | _ => false end.

Inductive StartedResult := run_recorded | run_refused.

Definition runs_started (run : RunRef) (cwd : string) (operationId : option string) (at_ : Z)
    : SqlOperation D StartedResult := fun db =>
  if deletionPending db [cwd] then Returned run_refused db
  else if existsb (fun row => same_identity (rn_run row) run) (runs db) then Thrown
  else
    let seq := runs_last db + 1 in
    let row := mkRunRow seq run None cwd operationId run_starting ver_live at_ None (Some at_) None None in
    Returned run_recorded (set_runs (runs db ++ [row]) seq db).

Definition update_runs (p : RunRow -> bool) (f : RunRow -> RunRow) db : Connection D :=
  set_runs (map (fun row => if p row then f row else row) (runs db)) (runs_last db) db.

Definition runs_spawned (run : RunRef) (at_ : Z) : SqlOperation D unit := fun db =>
  Returned tt (update_runs (fun row => run_is run row && bool_decide (rn_lifecycle row = run_starting))
    (fun row => mkRunRow (rn_seq row) (rn_run row) (rn_tabId row) (rn_cwd row) (rn_operationId row) run_running
                  (rn_verification row) (rn_startedAt row) (rn_endedAt row) (Some at_) (rn_exitCode row) (rn_signal row)) db).

(** [SELECT MAX(run_seq) FROM runs WHERE tab_id = ? AND run_seq <> ?] *)

Definition latest_other (tabId : string) (seq : Z) (l : list RunRow) : option Z :=
  foldr (fun row acc => if bool_decide (rn_tabId row = Some tabId) && negb (rn_seq row =? seq)
                        then Some (match acc with Some n => Z.max n (rn_seq row) | None => rn_seq row end) else acc)
    None l.

Definition runs_notStarted (run : RunRef) : SqlOperation D unit := fun db =>
  match List.find (fun row => run_is run row && bool_decide (rn_lifecycle row = run_starting)) (runs db) with
  | None => Returned tt db
  | Some row =>
     let db := match rn_tabId row with
               | None => db
               | Some tabId =>
                  set_tabs (map (fun t => if seqb (tb_tabId t) tabId && bool_decide (tb_latestRunSeq t = Some (rn_seq row))
                                          then mkTabRow (tb_tabId t) (tb_revision t + 1) (latest_other tabId (rn_seq row) (runs db))
                                          else t) (tabs db)) db
               end in
     Returned tt (set_runs (List.filter (fun r => negb (rn_seq r =? rn_seq row)) (runs db)) (runs_last db) db)
  end.

(** The numbers of the run IDs of the form run-N, of the run rows and of the
    receipts that name a run; their maximum, 0 when there is none. *)

Definition run_numbers db : list Z :=
  omap (fun row => run_number (run_runId (rn_run row))) (runs db)
  ++ omap (fun row => op_run (or_record row) ≫= (fun r => run_number (run_runId r))) (operations db).

Definition highest (l : list Z) : Z := foldr Z.max 0 l.

Definition runs_highestNumber : SqlOperation D Z := fun db => Returned (highest (run_numbers db)) db.

Definition runs_exited (run : RunRef) (exitCode : option Z) (signal : option string) (at_ : Z)
    : SqlOperation D unit := fun db =>
  Returned tt (update_runs (fun row => run_is run row && live_lifecycle (rn_lifecycle row))
    (fun row => mkRunRow (rn_seq row) (rn_run row) (rn_tabId row) (rn_cwd row) (rn_operationId row) run_exited
                  ver_final (rn_startedAt row) (Some at_) (Some at_) exitCode signal) db).

Record LiveRunRecord := mkLiveRun { lr_run : RunRef; lr_cwd : string; lr_tabId : option string; lr_startedAt : Z }.

Definition by_seq (a b : RunRow) : Prop := rn_seq a <= rn_seq b.

#[local] Instance by_seq_dec : RelDecision by_seq.
Proof. unfold by_seq. intros a b. apply _. Defined.

Definition runs_live (relayInstanceId : string) : SqlOperation D (list LiveRunRecord) := fun db =>
  Returned (map (fun row => mkLiveRun (rn_run row) (rn_cwd row) (rn_tabId row) (rn_startedAt row))
              (merge_sort by_seq (List.filter (fun row => seqb (run_relayInstanceId (rn_run row)) relayInstanceId
                                                          && live_lifecycle (rn_lifecycle row)) (runs db)))) db.

Definition runs_stoppedWithServer (relayInstanceId : string) (verified : bool) (at_ : Z) : SqlOperation D Z := fun db =>
  let p row := seqb (run_relayInstanceId (rn_run row)) relayInstanceId && live_lifecycle (rn_lifecycle row) in
  Returned (zlen (List.filter p (runs db)))
    (update_runs p (fun row => mkRunRow (rn_seq row) (rn_run row) (rn_tabId row) (rn_cwd row) (rn_operationId row)
       run_stopped_with_server (if verified then ver_final else ver_unverifiable) (rn_startedAt row) (Some at_) (Some at_)
       (rn_exitCode row) (rn_signal row)) db).

Definition runs_interruptEarlier (currentRelayInstanceId : string) : SqlOperation D Z := fun db =>
  let p row := negb (seqb (run_relayInstanceId (rn_run row)) currentRelayInstanceId) && live_lifecycle (rn_lifecycle row) in
  Returned (zlen (List.filter p (runs db)))
    (update_runs p (fun row => mkRunRow (rn_seq row) (rn_run row) (rn_tabId row) (rn_cwd row) (rn_operationId row)
       run_interrupted ver_unverifiable (rn_startedAt row) (rn_endedAt row) (rn_lastObservedAt row)
       (rn_exitCode row) (rn_signal row)) db).

(** ** Operation processes (processes.ts) *)

(** The row is refused by its primary key, the UNIQUE process identity, the
    CHECK of its numbers and the foreign key of its operation. *)

Definition processes_record (processId : string) (operation : OperationReceiptKey) (pid pgid : Z)
    (startIdentity relayInstanceId : string) (at_ : Z) : SqlOperation D unit := fun db =>
  if existsb (fun p => seqb (pr_processId p) processId) (operation_processes db)
     || existsb (fun p => (pr_pid p =? pid) && seqb (pr_startIdentity p) startIdentity) (operation_processes db)
     || negb (0 <? pid) || negb (0 <? pgid) || match row_of operation db with Some _ => false | None => true end
  then Thrown
  else Returned tt (set_processes (operation_processes db
         ++ [mkProcessRow processId operation pid pgid startIdentity relayInstanceId at_ None]) db).

Definition process_before (a b : ProcessRow) : Prop :=
  pr_startedAt a < pr_startedAt b
  \/ pr_startedAt a = pr_startedAt b /\ String.leb (pr_processId a) (pr_processId b) = true.

#[local] Instance process_before_dec : RelDecision process_before.
Proof. unfold process_before. intros a b. apply _. Defined.

Definition processes_open (operation : OperationReceiptKey) : SqlOperation D (list ProcessRow) := fun db =>
  Returned (merge_sort process_before
              (List.filter (fun p => bool_decide (pr_operation p = operation) && bool_decide (pr_endedAt p = None))
                 (operation_processes db))) db.

Definition processes_markEnded (processId : string) (at_ : Z) : SqlOperation D unit := fun db =>
  Returned tt (set_processes
    (map (fun p => if seqb (pr_processId p) processId && bool_decide (pr_endedAt p = None)
                   then mkProcessRow (pr_processId p) (pr_operation p) (pr_pid p) (pr_pgid p) (pr_startIdentity p)
                          (pr_startedBy p) (pr_startedAt p) (Some at_) else p) (operation_processes db)) db).

End runs.
