(* ===== verification/ReceiptRetention.v ===== *)
(** * Retention keeps what is still needed (receipts.purge, runs.highestNumber)

    A batch replaces exactly the oldest due receipts by their tombstones, in one
    transaction, and never loses the run-number mark. *)

From stdpp Require Import sorting.
From S2P Require Import Prelude Json Protocol Errors Operations JsMap StoreTables ReceiptStore ReceiptSafety RunStore.

Section retention.
Context {D : Type} (intentDigest : string -> string).
Implicit Types (db : Connection D) (row : OperationRow) (key : OperationReceiptKey).

(** The first 32 characters of a hexadecimal SHA-256. *)

Definition digest_length : Prop := forall s, slen (intentDigest s) = 32.

Definition tomb_of now row : Found := F_tombstone (tr_tombstone (tombstone_row intentDigest now row)).

Lemma set_tombstones_row l db key : row_of key (set_tombstones l db) = row_of key db.
Proof. reflexivity. Qed.

Lemma tombstone_snoc t db key : tombstone_of (tombstones_key t) db = None ->
  tombstone_of key (set_tombstones (operation_tombstones db ++ [t]) db)
  = if decide (key = tombstones_key t) then Some t else tombstone_of key db.
Proof.
  unfold tombstone_of, tombstones_key. cbn [operation_tombstones set_tombstones]. rewrite find_snoc. intros Hn.
  destruct (decide _) as [->|Hk].
  - rewrite Hn. cbv beta. by rewrite bool_decide_eq_true_2.
  - cbv beta. rewrite (bool_decide_eq_false_2 (tomb_key (tr_tombstone t) = key)) by congruence.
    by destruct (List.find (fun t => bool_decide (tomb_key (tr_tombstone t) = key)) (operation_tombstones db)).
Qed.

Lemma tombstone_of_none key db : tombstone_of key db = None <-> key ∉ tombstones_key <$> operation_tombstones db.
Proof.
  unfold tombstone_of. split.
  - intros H (t & -> & Hin)%list_elem_of_fmap. apply list_elem_of_In in Hin.
    pose proof (find_none _ _ H t Hin) as Hn. cbv beta in Hn. by rewrite bool_decide_eq_true_2 in Hn.
  - intros Hk. destruct (List.find _ _) as [t|] eqn:E; [| done]. apply find_some in E as [Hin He%bool_decide_eq_true].
    destruct Hk. apply list_elem_of_fmap. exists t. split; [done | by apply list_elem_of_In].
Qed.

Lemma purge_one_spec now row db : digest_length -> store_ok db ->
  row_of (or_key row) db = Some row -> ended_state (or_state row) = true ->
  exists db', purge_one intentDigest now row db = Some db' /\ store_ok db'
    /\ (forall key, row_of key db' = if decide (key = or_key row) then None else row_of key db)
    /\ (forall key, found db' key = if decide (key = or_key row) then Some (tomb_of now row) else found db key)
    /\ sublist (operations db') (operations db)
    /\ runs db' = runs db /\ other db' = other db.
Proof.
  intros Hd Hs Hrow He. pose proof (row_ok_of db _ row Hs Hrow) as Hok.
  destruct Hs as [A B C E F G]. assert (Ht : tombstone_of (or_key row) db = None) by (destruct (C (or_key row)); congruence).
  unfold purge_one. cbn [tombstone_row tr_tombstone tomb_intentDigest]. rewrite Hd. cbn [Z.eqb negb Pos.eqb]. rewrite Ht.
  set (t := tombstone_row intentDigest now row). set (db1 := set_tombstones _ db).
  set (db2 := set_processes _ db1).
  assert (Hdel : exists db', delete_operation (or_key row) (or_state row) db2 = Some (true, db')).
  { unfold delete_operation. replace (existsb _ (operations db2)) with true.
    - replace (existsb _ (operation_processes db2)) with false; [eauto |]. symmetry. apply not_true_iff_false.
      intros (p & Hp & Hk%bool_decide_eq_true)%existsb_exists. unfold db2 in Hp. cbn [operation_processes set_processes] in Hp.
      apply filter_In in Hp as [_ Hp]. by rewrite bool_decide_eq_true_2 in Hp.
    - symmetry. apply existsb_exists. exists row. split; [apply row_of_some in Hrow as [Hin _]; by apply list_elem_of_In |].
      unfold selects. by rewrite !bool_decide_eq_true_2. }
  destruct Hdel as [db' Hdel]. exists db'. rewrite Hdel. split; [done |].
  destruct (delete_operation_spec _ _ db2 db' A Hdel) as (row' & Hrow' & _ & Hproc & (l & -> & Hsub) & Hrows).
  assert (Htomb : forall key, tombstone_of key (set_operations l db2) = if decide (key = or_key row) then Some t else tombstone_of key db).
  { intros key. apply (tombstone_snoc t db key). exact Ht. }
  split_and!; try done.
  - split.
    + cbn [operations set_operations]. eapply sublist_NoDup; [exact A | by apply (sublist_fmap or_key)].
    + cbn [operation_tombstones set_operations db2 db1 set_processes set_tombstones]. rewrite fmap_app. apply NoDup_app.
      split_and!; [done | | apply NoDup_singleton]. intros k Hk ->%list_elem_of_singleton. by apply tombstone_of_none in Ht.
    + intros key. rewrite Hrows, Htomb. destruct (decide _); [by left | apply C].
    + cbn [operations set_operations]. eapply sublist_Forall; [exact Hsub | exact E].
    + cbn [operation_tombstones set_operations db2 db1 set_processes set_tombstones]. apply Forall_app. split; [done |].
      by apply Forall_singleton.
    + apply Forall_forall. intros p Hp. rewrite Hrows. rewrite Forall_forall in Hproc, G.
      assert (p ∈ operation_processes db2) as Hp2 by exact Hp. rewrite decide_False by (by apply Hproc).
      apply G. unfold db2 in Hp2. cbn [operation_processes set_processes] in Hp2. apply list_elem_of_In, filter_In in Hp2 as [Hp2 _].
      by apply list_elem_of_In in Hp2.
  - intros key. unfold found, tombstone. rewrite Hrows, Htomb. destruct (decide _); done.
Qed.

(** ** A batch *)

Lemma purge_rows_spec now rows db : digest_length -> store_ok db -> NoDup (or_key <$> rows) ->
  Forall (fun row => row_of (or_key row) db = Some row /\ ended_state (or_state row) = true) rows ->
  exists db', purge_rows intentDigest now rows db = Some db' /\ store_ok db'
    /\ (forall key, key ∉ or_key <$> rows -> row_of key db' = row_of key db /\ found db' key = found db key)
    /\ (forall row, row ∈ rows -> found db' (or_key row) = Some (tomb_of now row))
    /\ sublist (operations db') (operations db)
    /\ runs db' = runs db /\ other db' = other db.
Proof.
  intros Hd. revert db. induction rows as [|row rows IH]; intros db Hs Hn Hr.
  - exists db. split_and!; try done. by intros ? ?%elem_of_nil.
  - rewrite fmap_cons, NoDup_cons in Hn. destruct Hn as [Hrow Hn]. apply Forall_cons in Hr as [[H1 H2] Hr].
    destruct (purge_one_spec now row db Hd Hs H1 H2) as (db1 & Hp & Hs1 & Hk1 & Hf1 & Hsub1 & Hr1 & Ho1).
    destruct (IH db1 Hs1 Hn) as (db2 & Hp2 & Hs2 & Hf2 & Ht2 & Hsub2 & Hr2 & Ho2).
    { rewrite Forall_forall in Hr |- *. intros x Hx. destruct (Hr x Hx) as [Hx1 Hx2]. split; [| done].
      rewrite Hk1, decide_False; [done |]. intros E. destruct Hrow. rewrite <- E. by apply list_elem_of_fmap_2. }
    exists db2. cbn [purge_rows]. rewrite Hp. cbn [mbind option_bind]. split_and!; try done.
    + intros key Hk. rewrite fmap_cons, not_elem_of_cons in Hk. destruct Hk as [Hk Hk'].
      destruct (Hf2 key Hk') as [-> ->]. rewrite Hk1, Hf1. by rewrite !decide_False.
    + intros x [->|Hx]%elem_of_cons; [| auto].
      rewrite (proj2 (Hf2 (or_key row) Hrow)), Hf1. by rewrite decide_True.
    + by etransitivity.
    + congruence.
    + congruence.
Qed.

(** *** The order of a batch *)

Lemma ascii_compare_lt_trans a b c : Ascii.compare a b = Lt -> Ascii.compare b c = Lt -> Ascii.compare a c = Lt.
Proof. unfold Ascii.compare. rewrite !N.compare_lt_iff. lia. Qed.

Lemma ascii_compare_eq a b : Ascii.compare a b = Eq -> a = b.
Proof. apply Ascii.compare_eq_iff. Qed.

Lemma string_compare_trans s t u : String.compare s t <> Gt -> String.compare t u <> Gt ->
  String.compare s u <> Gt /\ (String.compare s u = Eq -> String.compare s t = Eq /\ String.compare t u = Eq).
Proof.
  revert t u. induction s as [|a s IH]; intros [|b t] [|c u]; cbn; try done.
  destruct (Ascii.compare a b) eqn:E1; [| |done]; (destruct (Ascii.compare b c) eqn:E2; [| |done]); intros H1 H2.
  - apply ascii_compare_eq in E1 as ->. apply ascii_compare_eq in E2 as ->.
    assert (Ascii.compare c c = Eq) as -> by (unfold Ascii.compare; by apply N.compare_refl). by apply IH.
  - apply ascii_compare_eq in E1 as ->. by rewrite E2.
  - apply ascii_compare_eq in E2 as ->. by rewrite E1.
  - by rewrite (ascii_compare_lt_trans a b c).
Qed.

Lemma key_leb_trans a b c : key_leb a b = true -> key_leb b c = true -> key_leb a c = true.
Proof.
  unfold key_leb, String.leb. intros H1 H2.
  pose proof (string_compare_trans (key_serverId a) (key_serverId b) (key_serverId c)) as Hs.
  pose proof (string_compare_trans (key_principalId a) (key_principalId b) (key_principalId c)) as Hp.
  pose proof (string_compare_trans (key_operationId a) (key_operationId b) (key_operationId c)) as Ho.
  destruct (String.compare (key_serverId a) (key_serverId b)) eqn:E1, (String.compare (key_serverId b) (key_serverId c)) eqn:E2; try done;
    destruct (Hs ltac:(done) ltac:(done)) as [Hs1 Hs2]; destruct (String.compare (key_serverId a) (key_serverId c)); try done;
    try (destruct (Hs2 eq_refl); done).
  destruct (String.compare (key_principalId a) (key_principalId b)) eqn:E3, (String.compare (key_principalId b) (key_principalId c)) eqn:E4; try done;
    destruct (Hp ltac:(done) ltac:(done)) as [Hp1 Hp2]; destruct (String.compare (key_principalId a) (key_principalId c)); try done;
    try (destruct (Hp2 eq_refl); done).
  destruct (String.compare (key_operationId a) (key_operationId b)), (String.compare (key_operationId b) (key_operationId c)); try done;
    destruct (Ho ltac:(done) ltac:(done)) as [Ho1 Ho2]; by destruct (String.compare (key_operationId a) (key_operationId c)).
Qed.

Lemma key_leb_total a b : key_leb a b = true \/ key_leb b a = true.
Proof.
  unfold key_leb, String.leb. rewrite (String.compare_antisym (key_serverId b)), (String.compare_antisym (key_principalId b)),
    (String.compare_antisym (key_operationId b)).
  destruct (String.compare (key_serverId a) (key_serverId b)); cbn; auto.
  destruct (String.compare (key_principalId a) (key_principalId b)); cbn; auto.
  destruct (String.compare (key_operationId a) (key_operationId b)); cbn; auto.
Qed.

#[export] Instance older_transitive : Transitive older.
Proof.
  intros a b c [H1|[H1 H1']] [H2|[H2 H2']]; unfold older; [left; lia .. | right].
  split; [lia |]. by eapply key_leb_trans.
Qed.

#[export] Instance older_total : Total older.
Proof.
  intros a b. unfold older. destruct (Z.lt_trichotomy (or_updatedAt a) (or_updatedAt b)) as [?|[?|?]]; [by left; left | | by right; left].
  destruct (key_leb_total (or_key a) (or_key b)); [left | right]; right; split; done.
Qed.

Lemma batch_rows db args : store_ok db ->
  NoDup (or_key <$> batch db args)
  /\ Forall (fun row => row_of (or_key row) db = Some row /\ due db args row = true) (batch db args).
Proof.
  intros Hs. unfold batch, ztake. set (l := List.filter _ _). set (m := merge_sort older l).
  assert (Hperm : m ≡ₚ l) by apply merge_sort_Permutation.
  assert (Hsub : sublist l (operations db)) by apply filter_sublist. split.
  - eapply sublist_NoDup; [| apply (sublist_fmap or_key), sublist_take]. rewrite Hperm.
    eapply sublist_NoDup; [apply (so_keys db Hs) | by apply (sublist_fmap or_key)].
  - apply Forall_forall. intros row Hin. assert (row ∈ l) as Hl.
    { rewrite <- Hperm. apply elem_of_take in Hin as (i & Hi & _). by eapply list_elem_of_lookup_2. }
    apply list_elem_of_In, filter_In in Hl as [Hl Hdue]. apply list_elem_of_In in Hl.
    split; [apply row_of_elem; [apply Hs | done] | done].
Qed.

Lemma highest_ge l n : n ∈ l -> n <= highest l.
Proof. unfold highest. induction 1; cbn; lia. Qed.

Lemma highest_bound l n : 0 <= n -> Forall (fun m => m <= n) l -> highest l <= n.
Proof. unfold highest. intros H0. induction 1; cbn; lia. Qed.

Lemma highest_in l : highest l = 0 \/ highest l ∈ l.
Proof.
  induction l as [|n l IH]; [by left |]. cbn [highest foldr]. fold (highest l).
  destruct (Z.max_spec n (highest l)) as [[? ->]|[? ->]]; [| right; left].
  destruct IH as [IH|IH]; [by left | right; by right].
Qed.

Lemma receipt_sublist_omap {A B} (f : A -> option B) l k : sublist l k -> sublist (omap f l) (omap f k).
Proof. induction 1; cbn; [done | |]; destruct (f x); try done; by constructor. Qed.

Lemma run_number_nonneg id n : run_number id = Some n -> 0 <= n.
Proof.
  unfold run_number. destruct (strip "run-" id) as [[|c rest]|]; [done | | done].
  destruct (is_digit c && _ && _) eqn:E; [| done]. intros [= <-].
  rewrite !andb_true_iff in E. destruct E as [[Hc _] Hr]. apply Z.min_glb; [by vm_compute |].
  assert (H : forall s acc, 0 <= acc -> string_all is_digit s = true -> 0 <= decimal acc s).
  { clear. induction s as [|c s IH]; intros acc Ha; cbn [string_all decimal]; [done |].
    intros [Hc Hs]%andb_true_iff. apply IH; [| done]. unfold is_digit in Hc. apply andb_true_iff in Hc as [Hc%Nat.leb_le _]. lia. }
  apply (H (String c rest) 0); [lia |]. cbn [string_all]. by rewrite Hc.
Qed.

Lemma tomb_evolves now db row : store_ok db -> row_of (or_key row) db = Some row -> ended_state (or_state row) = true ->
  evolves intentDigest (found db (or_key row)) (Some (tomb_of now row)).
Proof.
  intros Hs Hrow He. pose proof (row_ok_of db _ row Hs Hrow) as (Hst & _ & Hm & _).
  right. unfold found. rewrite Hrow. cbn. rewrite <- Hst, <- Hm. auto.
Qed.

Lemma batch_ended db args : store_ok db ->
  Forall (fun row => row_of (or_key row) db = Some row /\ ended_state (or_state row) = true) (batch db args).
Proof.
  intros Hs. eapply Forall_impl; [apply (batch_rows db args Hs) |]. cbv beta. intros row [H1 H2]. split; [done |].
  unfold due in H2. rewrite !andb_true_iff in H2. by destruct H2 as [[[[[? _] _] _] _] _].
Qed.

(** A purge, whatever its arguments, keeps the store consistent and changes
    only receipts that ended. *)

Lemma purge_moves args db : digest_length -> store_ok db ->
  let '(answer, db') := execute (purge intentDigest args) db in
  store_ok db'
  /\ forall key, found db' key = found db key
       \/ exists row, row_of key db = Some row /\ ended_state (or_state row) = true
            /\ found db' key = Some (tomb_of (pu_now args) row).
Proof.
  intros Hd Hs. unfold execute, purge. destruct (purge_args_ok args); cbn [negb]; [| auto].
  destruct (batch_rows db args Hs) as [Hn _]. pose proof (batch_ended db args Hs) as Hend.
  destruct (purge_rows_spec (pu_now args) (batch db args) db Hd Hs Hn Hend) as (db' & -> & Hs' & Hother & Htomb & _).
  split; [done |]. intros key. destruct (decide (key ∈ or_key <$> batch db args)) as [Hk|Hk]; [| left; by apply Hother].
  right. apply list_elem_of_fmap in Hk as (row & -> & Hin). rewrite Forall_forall in Hend.
  destruct (Hend row Hin). exists row. auto.
Qed.

(** The rows of a batch are the oldest of the due ones. *)

Lemma batch_oldest db args row row' : row ∈ batch db args -> due db args row' = true ->
  row' ∈ operations db -> row' ∉ batch db args -> older row row'.
Proof.
  unfold batch, ztake. set (l := List.filter _ _). set (m := merge_sort older l). intros Hrow Hdue Hin Hout.
  assert (Hsorted : StronglySorted older m) by (apply StronglySorted_merge_sort; apply _).
  assert (Hm : row' ∈ m).
  { unfold m. rewrite (merge_sort_Permutation older l). apply list_elem_of_In, filter_In. split; [by apply list_elem_of_In | done]. }
  rewrite <- (take_drop (Z.to_nat (pu_limit args)) m) in Hm, Hsorted. apply elem_of_app in Hm as [Hm|Hm]; [done |].
  clear -Hsorted Hrow Hm. revert Hrow Hsorted. generalize (take (Z.to_nat (pu_limit args)) m). intros k Hrow.
  induction Hrow as [k x | k x y Hx IH]; cbn; inversion_clear 1; [| auto].
  rewrite Forall_forall in H0. apply H0. apply elem_of_app. by right.
Qed.

Lemma batch_complete db args row : zlen (batch db args) < pu_limit args -> row ∈ operations db -> due db args row = true ->
  row ∈ batch db args.
Proof.
  unfold batch, ztake. set (l := List.filter _ _). intros Hlen Hin Hdue.
  assert (Hm : row ∈ merge_sort older l).
  { rewrite (merge_sort_Permutation older l). apply list_elem_of_In, filter_In. split; [by apply list_elem_of_In | done]. }
  unfold zlen in Hlen. rewrite length_take in Hlen. by rewrite take_ge by lia.
Qed.

(** The numbers of the runs: a row that is kept still counts. *)

Lemma numbers_kept db db' n : runs db' = runs db ->
  (forall row, row ∈ operations db -> (exists m, op_run (or_record row) ≫= (fun r => run_number (run_runId r)) = Some m /\ n <= m) ->
     row ∈ operations db') ->
  sublist (operations db') (operations db) -> n <= highest (run_numbers db) ->
  highest (run_numbers db') = highest (run_numbers db).
Proof.
  intros Hr Hkeep Hsub Hn. apply Z.le_antisymm.
  - apply highest_bound.
    + destruct (highest_in (run_numbers db)) as [->|Hin]; [lia |]. revert Hin. unfold run_numbers.
      rewrite elem_of_app, !list_elem_of_omap. intros [(r & _ & H)|(r & _ & H)]; [by eapply run_number_nonneg |].
      destruct (op_run (or_record r)); [| done]. by eapply run_number_nonneg.
    + apply Forall_forall. intros m Hm. apply highest_ge. revert Hm. unfold run_numbers. rewrite Hr, !elem_of_app.
      intros [Hm|Hm]; [by left | right]. eapply elem_of_submseteq; [exact Hm |]. by apply sublist_submseteq, receipt_sublist_omap.
  - destruct (highest_in (run_numbers db)) as [E|Hin].
    + rewrite E. destruct (highest_in (run_numbers db')) as [->|Hin']; [lia |].
      revert Hin'. unfold run_numbers. rewrite elem_of_app, !list_elem_of_omap.
      intros [(r & _ & H)|(r & _ & H)]; [by eapply run_number_nonneg |].
      destruct (op_run (or_record r)); [| done]. by eapply run_number_nonneg.
    + apply highest_ge. revert Hin. unfold run_numbers. rewrite Hr, !elem_of_app, !list_elem_of_omap.
      intros [Hin|(row & Hrow & Hm)]; [by left | right]. exists row. split; [| done].
      apply Hkeep; [done |]. eexists. split; [exact Hm | exact Hn].
Qed.

(** C7: one batch of retention always succeeds on a consistent store: it takes
    at most [limit] receipts, the oldest of the due ones, all of them when it
    reports no more; each is replaced by its tombstone with the same method,
    final state and intent digest, and every other key keeps what it had.  A
    receipt whose run number may be the highest known is never taken, so a mark
    read before the pass stays the mark after it. *)
Theorem purge_exact args db : digest_length -> store_ok db -> purge_args_ok args = true ->
  let rows := batch db args in
  exists db', purge intentDigest args db = Returned (mkBatch (zlen rows) (zlen rows =? pu_limit args)) db'
    /\ store_ok db' /\ respects intentDigest db db'
    /\ zlen rows <= pu_limit args
    /\ Forall (fun row => row_of (or_key row) db = Some row /\ due db args row = true
                          /\ found db' (or_key row) = Some (tomb_of (pu_now args) row)) rows
    /\ (forall key, key ∉ or_key <$> rows -> found db' key = found db key)
    /\ (forall row, row ∈ operations db -> due db args row = true -> row ∉ rows ->
        zlen rows = pu_limit args /\ Forall (fun r => older r row) rows)
    /\ (pu_highestRun args <= highest (run_numbers db) -> highest (run_numbers db') = highest (run_numbers db))
    /\ runs db' = runs db /\ other db' = other db.
Proof.
  intros Hd Hs Ha rows. destruct (batch_rows db args Hs) as [Hn Hrows]. fold rows in Hn, Hrows.
  assert (Hlimit : 0 < pu_limit args).
  { unfold purge_args_ok in Ha. rewrite !andb_true_iff in Ha. destruct Ha as [[[_ Ha%Z.ltb_lt] _] _]. done. }
  pose proof (batch_ended db args Hs) as Hend. fold rows in Hend.
  destruct (purge_rows_spec (pu_now args) rows db Hd Hs Hn Hend) as (db' & Hp & Hs' & Hother & Htomb & Hsub & Hr & Ho).
  exists db'. assert (Hle : zlen rows <= pu_limit args).
  { unfold rows, batch, ztake, zlen. rewrite length_take. lia. }
  split_and!; try done.
  - unfold purge. rewrite Ha. cbn [negb]. fold rows. by rewrite Hp.
  - intros key. destruct (decide (key ∈ or_key <$> rows)) as [Hk|Hk]; [| by rewrite (proj2 (Hother key Hk))].
    apply list_elem_of_fmap in Hk as (row & -> & Hin). rewrite (Htomb row Hin).
    rewrite Forall_forall in Hend. destruct (Hend row Hin) as [Hrow He]. by apply tomb_evolves.
  - apply Forall_forall. intros row Hin. rewrite Forall_forall in Hrows. destruct (Hrows row Hin). auto.
  - intros key Hk. by apply Hother.
  - intros row Hin Hdue Hout. split.
    + destruct (Z.eq_dec (zlen rows) (pu_limit args)) as [|Hne]; [done |].
      destruct Hout. apply batch_complete; [fold rows; lia | done..].
    + apply Forall_forall. intros r Hr'. by eapply batch_oldest.
  - intros Hmark. apply (numbers_kept db db' (pu_highestRun args)); [done | | done | done].
    intros row Hin (m & Hm & Hle'). assert (Hk : or_key row ∉ or_key <$> rows).
    { intros (r & Hr' & Hin')%list_elem_of_fmap. rewrite Forall_forall in Hrows. destruct (Hrows r Hin') as [H1 H2].
      rewrite <- Hr' in H1. rewrite (row_of_elem db row (so_keys db Hs) Hin) in H1. injection H1 as <-.
      unfold due in H2. rewrite !andb_true_iff in H2. destruct H2 as [_ H2]. unfold holds_mark in H2. rewrite Hm in H2.
      apply negb_true_iff, Z.leb_gt in H2. lia. }
    destruct (Hother _ Hk) as [Hrow _]. rewrite (row_of_elem db row (so_keys db Hs) Hin) in Hrow.
    by apply row_of_some in Hrow as [? _].
Qed.

End retention.

(** Three receipts that ended long ago; the second holds the highest run number. *)

Definition old_receipt (id : string) (run : option RunRef) (at_ : Z) : OperationRow :=
  let record := mkOperation id w_tab_create 1 os_succeeded run None None None in
  mkOperationRow (demo_key id) w_tab_create "intent" os_succeeded 1 record "instance" at_ at_.

Definition retained_store : Connection unit :=
  set_operations [old_receipt "c" None 30; old_receipt "b" (Some (mkRun "server" "i" "run-9")) 20; old_receipt "a" None 10]
    empty_store.

Lemma retained_store_ok : store_ok retained_store.
Proof.
  split.
  - apply (bool_decide_eq_true_1 _). by vm_compute.
  - constructor.
  - intros key. by right.
  - repeat constructor.
  - constructor.
  - constructor.
Qed.

Definition demo_purge : PurgeArgs := mkPurge 1000 100 1 9.

Lemma purge_exact_witness :
  exists db, purge demo_digest demo_purge retained_store = Returned (mkBatch 1 true) db
    /\ found db (demo_key "a") = Some (F_tombstone (mkTombstone (demo_key "a") w_tab_create os_succeeded (demo_digest "intent") 10))
    /\ found db (demo_key "b") = found retained_store (demo_key "b") /\ highest (run_numbers db) = 9.
Proof.
  destruct (purge_exact demo_digest demo_purge retained_store demo_digest_length retained_store_ok eq_refl)
    as (db & Hp & _ & _ & _ & Hrows & Hother & _ & Hmark & _).
  exists db. split; [exact Hp |]. split; [| split].
  - rewrite Forall_forall in Hrows. apply (Hrows (old_receipt "a" None 10)).
    replace (batch retained_store demo_purge) with [old_receipt "a" None 10] by (vm_compute; reflexivity). by left.
  - apply Hother. apply (bool_decide_eq_true_1 _). by vm_compute.
  - rewrite Hmark; by vm_compute.
Defined.
