(* ===== verification/ReceiptBackend.v ===== *)
(** * The durable receipt backend (DurableReceiptBackend of operation-receipts.ts)

    What OperationReceipts relies on of the database: a request runs as one
    atomic step that keeps the store consistent, answers from the state it ran
    in, and moves every key's life forward.  The SQLite store of
    apps/server/src/store/operations.ts is its instance; a request that is
    refused before it runs, or whose answer is lost, is the caller's business. *)

From stdpp Require Import sorting.
From S2P Require Import Prelude Json Protocol Errors Terminal Pipe Operations JsMap.
From S2P Require Import StoreTables ReceiptStore ReceiptSafety ReceiptProperties RunStore ReceiptRetention.

Inductive BackendRequest (W : Type) :=
  | B_get (key : OperationReceiptKey)
  | B_insert (stored : StoredReceipt)
  | B_replace (key : OperationReceiptKey) (expectedRevision : Z) (record : OperationRecord)
  | B_unfinished
  | B_purge (args : PurgeArgs)
  | B_highestRun
  | B_write (request : DatabaseWriteRequest W) (limits : ReceiptLimits).

Arguments B_get {W} key.
Arguments B_insert {W} stored.
Arguments B_replace {W} key expectedRevision record.
Arguments B_unfinished {W}.
Arguments B_purge {W} args.
Arguments B_highestRun {W}.
Arguments B_write {W} request limits.

Inductive BackendAnswer :=
  | A_found (found : option Found)
  | A_bool (b : bool)
  | A_list (l : list StoredReceipt)
  | A_batch (b : PurgeBatch)
  | A_number (n : Z)
  | A_written (r : DatabaseWriteResult).

(** [rb_run at request] executes a request at the wall-clock time [at]; the
    answer is [None] when the store's transaction failed. *)

Class ReceiptBackend (B W : Type) (encodeUtf8 : string -> list Z) (intentDigest : string -> string) := {
  rb_ok : B -> Prop;
  rb_view : B -> OperationReceiptKey -> option Found;
  rb_run : Z -> BackendRequest W -> B -> option BackendAnswer * B;
  rb_view_key : forall b key r, rb_ok b -> rb_view b key = Some (F_receipt r) -> st_key r = key;
  rb_get_ok : forall at_ key b, rb_ok b -> rb_run at_ (B_get key) b = (Some (A_found (rb_view b key)), b);
  rb_insert_ok : forall at_ stored b, rb_ok b -> insertable stored ->
    let '(answer, b') := rb_run at_ (B_insert stored) b in
    rb_ok b'
    /\ (answer = Some (A_bool true) /\ rb_view b (st_key stored) = None
        /\ (forall k, rb_view b' k = if decide (k = st_key stored) then Some (F_receipt stored) else rb_view b k)
        \/ b' = b /\ (answer = Some (A_bool false) \/ answer = None) /\ rb_view b (st_key stored) <> None);
  rb_replace_ok : forall at_ key expected record b, rb_ok b ->
    OperationRecordSchema record = true -> op_operationId record = key_operationId key ->
    (forall r, rb_view b key = Some (F_receipt r) -> revision_of r = expected -> op_method record = op_method (st_record r)) ->
    let '(answer, b') := rb_run at_ (B_replace key expected record) b in
    rb_ok b'
    /\ ((exists r, answer = Some (A_bool true) /\ rb_view b key = Some (F_receipt r) /\ revision_of r = expected
           /\ forall k, rb_view b' k = if decide (k = key) then Some (F_receipt (mkStored key (st_canonicalIntent r) record))
                                       else rb_view b k)
        \/ b' = b /\ answer = Some (A_bool false)
           /\ forall r, rb_view b key = Some (F_receipt r) -> revision_of r <> expected);
  rb_unfinished_ok : forall at_ b, rb_ok b ->
    exists l, rb_run at_ B_unfinished b = (Some (A_list l), b) /\ NoDup (st_key <$> l)
    /\ forall r, r ∈ l <-> rb_view b (st_key r) = Some (F_receipt r) /\ unfinished_state (op_state (st_record r)) = true;
  rb_purge_ok : forall at_ args b, rb_ok b ->
    let '(answer, b') := rb_run at_ (B_purge args) b in
    rb_ok b' /\ (forall k, rb_view b' k = rb_view b k
                  \/ exists r t, rb_view b k = Some (F_receipt r) /\ ended_state (op_state (st_record r)) = true
                       /\ rb_view b' k = Some (F_tombstone t) /\ evolves intentDigest (rb_view b k) (rb_view b' k))
    /\ (answer = None \/ exists batch, answer = Some (A_batch batch));
  rb_highestRun_ok : forall at_ b, rb_ok b -> exists n, rb_run at_ B_highestRun b = (Some (A_number n), b);
  rb_write_ok : forall at_ request limits b, rb_ok b ->
    let '(answer, b') := rb_run at_ (B_write request limits) b in
    rb_ok b' /\ (forall k, evolves intentDigest (rb_view b k) (rb_view b' k))
    /\ ((exists r, answer = Some (A_written (wr_operation r true)) /\ rb_view b (dw_key request) = None
           /\ rb_view b' (dw_key request) = Some (F_receipt (mkStored (dw_key request) (dw_canonicalIntent request) r)))
        \/ b' = b /\ (answer = None \/ exists r, answer = Some (A_written r) /\ forall o, r <> wr_operation o true))
}.

#[global] Hint Mode ReceiptBackend ! - - - : typeclass_instances.

(** ** The SQLite backend (store/operations.ts) *)

Section sqlite.
Context {D W : Type} (encodeUtf8 : string -> list Z) (intentDigest : string -> string)
  (other_write : W -> Connection D -> option (Applied * Connection D)) (relayInstanceId : string)
  (Hdigest : digest_length intentDigest) (Hwrites : writes_respect intentDigest other_write).

Definition answer_with {A} (f : A -> BackendAnswer) (result : option A * Connection D) : option BackendAnswer * Connection D :=
  (f <$> result.1, result.2).

Definition sqlite_run (at_ : Z) (request : BackendRequest W) (db : Connection D) : option BackendAnswer * Connection D :=
  match request with
  | B_get key => answer_with A_found (execute (receipts_get key) db)
  | B_insert stored => answer_with A_bool (execute (insert stored relayInstanceId at_) db)
  | B_replace key expected record => answer_with A_bool (execute (replace key expected record at_) db)
  | B_unfinished => answer_with A_list (execute unfinished db)
  | B_purge args => answer_with A_batch (execute (purge intentDigest args) db)
  | B_highestRun => answer_with A_number (execute runs_highestNumber db)
  | B_write request limits =>
     answer_with A_written
       (execute (receipts_write encodeUtf8 intentDigest other_write request relayInstanceId at_ limits) db)
  end.

Lemma mapM_receipts rows : Forall row_ok rows -> mapM receipt rows = Some (stored_of <$> rows).
Proof.
  induction 1 as [|row rows Hrow _ IH]; [done |]. cbn. rewrite (receipt_ok row Hrow). cbn. by rewrite IH.
Qed.

Lemma unfinished_spec (db : Connection D) : store_ok db ->
  exists l, unfinished db = Returned l db /\ NoDup (st_key <$> l)
  /\ forall r, r ∈ l <-> found db (st_key r) = Some (F_receipt r) /\ unfinished_state (op_state (st_record r)) = true.
Proof.
  intros Hs. unfold unfinished. set (l := List.filter _ _). set (m := merge_sort created_before l).
  assert (Hperm : m ≡ₚ l) by apply merge_sort_Permutation.
  assert (Hsub : sublist l (operations db)) by apply filter_sublist.
  assert (Hok : Forall row_ok m) by (rewrite Hperm; eapply sublist_Forall; [exact Hsub | apply Hs]).
  rewrite (mapM_receipts m Hok). exists (stored_of <$> m). split; [done |]. split.
  - rewrite <- list_fmap_compose. change (st_key ∘ stored_of) with or_key. rewrite Hperm.
    eapply sublist_NoDup; [apply (so_keys db Hs) | by apply (sublist_fmap or_key)].
  - intros r. split.
    + intros (row & -> & Hin)%list_elem_of_fmap. rewrite Hperm in Hin. apply list_elem_of_In, filter_In in Hin as [Hin Hu].
      apply list_elem_of_In in Hin. pose proof (row_of_elem db row (so_keys db Hs) Hin) as Hrow.
      pose proof (row_ok_of db _ row Hs Hrow) as (Hst & _). rewrite Hst in Hu. split; [apply found_receipt; eauto | done].
    + intros [(row & Hrow & ->)%found_receipt Hu]. apply list_elem_of_fmap_2. rewrite Hperm. apply list_elem_of_In, filter_In.
      pose proof (row_ok_of db _ row Hs Hrow) as (Hst & _). apply row_of_some in Hrow as [Hin _].
      split; [by apply list_elem_of_In | by rewrite Hst].
Qed.

#[export] Program Instance sqlite_backend : ReceiptBackend (Connection D) W encodeUtf8 intentDigest := {|
  rb_ok := store_ok; rb_view := found; rb_run := sqlite_run;
|}.
Next Obligation. intros b key r _ H. by eapply found_key. Qed.
Next Obligation.
  intros at_ key b Hs. cbn [sqlite_run]. unfold execute. by rewrite receipts_get_found.
Qed.
Next Obligation.
  intros at_ stored b Hs Hi. cbn [sqlite_run]. unfold execute, answer_with.
  pose proof (insert_spec stored relayInstanceId at_ b Hs Hi) as H.
  destruct (insert stored relayInstanceId at_ b) as [[] b'| |]; cbn; [| | done |].
  - destruct H as (? & ? & ? & _). auto 6.
  - destruct H as [-> H]. auto 7.
  - auto 7.
Qed.
Next Obligation.
  intros at_ key expected record b Hs Hv Hid Hm. cbn [sqlite_run]. unfold execute, answer_with.
  pose proof (replace_spec key expected record at_ b Hs Hv Hid Hm) as H.
  destruct (replace key expected record at_ b) as [[] b'| |]; cbn; [| | done | done].
  - destruct H as (? & r & ? & ? & ? & _). split; [done |]. left. exists r. auto.
  - destruct H as [-> H]. auto.
Qed.
Next Obligation.
  intros at_ b Hs. destruct (unfinished_spec b Hs) as (l & Hl & Hn & Hin). exists l. cbn [sqlite_run]. unfold execute.
  rewrite Hl. auto.
Qed.
Next Obligation.
  intros at_ args b Hs. cbn [sqlite_run]. unfold answer_with.
  pose proof (purge_moves intentDigest args b Hdigest Hs) as H.
  destruct (execute (purge intentDigest args) b) as [answer b']. cbn. destruct H as [Hs' Hk].
  split_and!; [done | | destruct answer; eauto]. intros k. destruct (Hk k) as [->|(row & Hrow & He & Hf)]; [by left | right].
  pose proof (proj2 (row_of_some k b row Hrow)) as <-. exists (stored_of row), (tr_tombstone (tombstone_row intentDigest (pu_now args) row)).
  pose proof (row_ok_of b _ row Hs Hrow) as (Hst & _). split_and!; [apply found_receipt; eauto | cbn; by rewrite <- Hst | done |].
  rewrite Hf. by apply tomb_evolves.
Qed.
Next Obligation. intros at_ b Hs. eexists. reflexivity. Qed.
Next Obligation.
  intros at_ request limits b Hs. cbn [sqlite_run]. unfold answer_with.
  pose proof (write_spec encodeUtf8 intentDigest other_write request relayInstanceId at_ limits b Hwrites Hs) as H.
  cbv zeta in H. destruct (execute _ b) as [answer b']. cbn. destruct H as (Hs' & Hr & Hcases & _).
  split_and!; [done | done |]. destruct Hcases as [(r & -> & Hc)|[-> Hn]].
  - left. exists r. destruct Hc as (? & ? & _). auto.
  - right. split; [done |]. destruct answer as [a|]; [right | by left]. exists a. split; [done |].
    intros o ->. by destruct (Hn o).
Qed.

End sqlite.
