(* ===== verification/OperationReceipts.v ===== *)
(** * Operation receipts (apps/server/src/operations/operation-receipts.ts)

    [OperationReceipts] with every method cut at its awaits.  A call is a task:
    the frames of the methods that wait for one another, and what the innermost
    one waits for, a request to the database, a verifier of the host, a retention
    pass, or a value already there (an await of a settled promise).  Between two
    turns of a task any other method may run.  [W] names the database writes;
    [encodeUtf8] and [intentDigest] are the host's.  Without a backend the
    requests are answered from the entries at the call. *)

From S2P Require Import Prelude Json Protocol Errors Pipe Operations JsMap LeaseAccount.
From S2P Require Import StoreTables ReceiptStore ReceiptSafety ReceiptRetention ReceiptBackend.

(** [TERMINAL_STATES] and [RECOVERY_STATES]. *)

Definition terminal_state (s : OperationState) : bool :=
  match s with os_succeeded | os_failed | os_cancelled | os_requires_attention => true | _ => false end.

Definition recovery_state (s : OperationState) : bool :=
  match s with os_running | os_recovering | os_cancelled => true | _ => false end.

Inductive ReceiptLookup :=
  | L_existing (record : OperationRecord)
  | L_reserve | L_busy | L_conflict | L_invalid | L_expired.

(** What [prepare] returns: its [commit] and [cancel] close over the entry,
    known here by its identity. *)

Record Preparation := mkPreparation {
  p_key : OperationReceiptKey; p_intent : string; p_entry : nat; p_lease : nat;
}.

Inductive ReadResult := read_record (r : OperationRecord) | read_expired | read_null.

(** What a promise settles with; [V_failed] is a rejection. *)

Inductive Value :=
  | V_found (f : option Found)
  | V_lookup (l : ReceiptLookup)
  | V_preparation (p : option Preparation)
  | V_bool (b : bool)
  | V_stored (s : option StoredReceipt)
  | V_list (l : list StoredReceipt)
  | V_batch (b : PurgeBatch)
  | V_number (n : Z)
  | V_written (r : DatabaseWriteResult)
  | V_read (r : ReadResult)
  | V_record (r : option OperationRecord)
  | V_records (l : list OperationRecord)
  | V_proven (r : option OperationRecord)
  | V_failed.

(** The methods without a verifier keep the generic outcome. *)

Definition ReceiptVerifiers : Type := WriteRpcMethod -> bool.

Inductive Frame :=
  | F_lookup (key : OperationReceiptKey) (canonicalIntent : string)
  | F_prepare (key : OperationReceiptKey) (canonicalIntent : string)
  | F_commit (p : Preparation)
  | F_successor (key : OperationReceiptKey) (next : OperationRecord)
  | F_update (key : OperationReceiptKey) (next : OperationRecord)
  | F_recover (key : OperationReceiptKey) (expectedRevision : Z) (next : OperationRecord)
  | F_read (key : OperationReceiptKey)
  | F_get (key : OperationReceiptKey)
  | F_unfinished (verifiers : ReceiptVerifiers)
  | F_found (verifiers : ReceiptVerifiers) (key : OperationReceiptKey) (rest : list StoredReceipt) (verified : list OperationRecord)
  | F_recovering (verifiers : ReceiptVerifiers) (key : OperationReceiptKey) (record : OperationRecord) (rest : list StoredReceipt)
      (verified : list OperationRecord)
  | F_verified (verifiers : ReceiptVerifiers) (key : OperationReceiptKey) (record : OperationRecord) (rest : list StoredReceipt)
      (verified : list OperationRecord)
  | F_proven (verifiers : ReceiptVerifiers) (key : OperationReceiptKey) (record proven : OperationRecord) (rest : list StoredReceipt)
      (verified : list OperationRecord)
  | F_outcome (verifiers : ReceiptVerifiers) (outcome : OperationRecord) (rest : list StoredReceipt)
      (verified : list OperationRecord)
  | F_highest
  | F_batch (highestRun purged : Z)
  | F_pass (pass : nat)
  | F_timer (timer : nat).

Inductive Source (W : Type) :=
  | Ask (request : BackendRequest W)
  | AskVerifier (record : OperationRecord)
  | Joined (pass : nat)
  | Got (v : Value).

Arguments Ask {W} request.
Arguments AskVerifier {W} record.
Arguments Joined {W} pass.
Arguments Got {W} v.

Record Entry := mkEntry {
  en_key : OperationReceiptKey; en_intent : string; en_record : option OperationRecord; en_lease : nat; en_id : nat;
}.

Record Options := mkOptions {
  o_serverId : string; o_budgets : EffectiveBudgets; o_durable : bool; o_purge : bool; o_highestRun : bool;
  o_retentionMs : Z; o_intervalMs : Z; o_batchSize : Z;
}.

Record OperationReceipts (S : Type) := mkReceipts {
  options : Options; entries : jsmap OperationReceiptKey Entry; scratch : nat; disposed : bool;
  retentionTimer : option nat; armed : list (nat * Z); retentionPass : option nat; next_id : nat; account : S;
}.

Arguments mkReceipts {S} _ _ _ _ _ _ _ _ _.
Arguments options {S} _.
Arguments entries {S} _.
Arguments scratch {S} _.
Arguments disposed {S} _.
Arguments retentionTimer {S} _.
Arguments armed {S} _.
Arguments retentionPass {S} _.
Arguments next_id {S} _.
Arguments account {S} _.

Section receipts.
Context {S : Type} `{LeaseAccount S} {W : Type} (encodeUtf8 : string -> list Z) (intentDigest : string -> string).
Implicit Types (s : OperationReceipts S) (key : OperationReceiptKey) (p : Preparation).

#[local] Abbreviation Call := (list Frame * Source W)%type.

Definition with_entries (es : jsmap OperationReceiptKey Entry) (a : S) s : OperationReceipts S :=
  mkReceipts (options s) es (scratch s) (disposed s) (retentionTimer s) (armed s) (retentionPass s) (next_id s) a.

Definition with_timer (t : option nat) (l : list (nat * Z)) s : OperationReceipts S :=
  mkReceipts (options s) (entries s) (scratch s) (disposed s) t l (retentionPass s) (next_id s) (account s).

Definition with_pass (pass : option nat) s : OperationReceipts S :=
  mkReceipts (options s) (entries s) (scratch s) (disposed s) (retentionTimer s) (armed s) pass (next_id s) (account s).

Definition fresh s : nat * OperationReceipts S :=
  (next_id s, mkReceipts (options s) (entries s) (scratch s) (disposed s) (retentionTimer s) (armed s) (retentionPass s)
                (Datatypes.S (next_id s)) (account s)).

Definition durable s : bool := o_durable (options s).
Definition budgets s : EffectiveBudgets := o_budgets (options s).
Definition bytes_of (text : string) : Z := encoded_bytes encodeUtf8 text.

(** The constructor; [None] is its throw. *)

Definition newOperationReceipts (o : Options) (a : S) : option (OperationReceipts S) :=
  match la_reserve (6 * operationRecordBytes (o_budgets o) + 6 * canonicalIntentBytes (o_budgets o)) a with
  | None => None
  | Some (lease, a) => Some (mkReceipts o [] lease false None [] None 0 a)
  end.

Definition limits s : ReceiptLimits := mkLimits (o_serverId (options s)) (operationRecordBytes (budgets s)).

Definition valid key s : bool :=
  negb (disposed s) && OperationReceiptKeySchema key && seqb (key_serverId key) (o_serverId (options s)).

Definition validate key (record : OperationRecord) s : option OperationRecord :=
  checkedReceiptRecord encodeUtf8 key record (limits s).

(** The committed receipt of a key in memory. *)

Definition committed_entry key s : option Found :=
  match jget key (entries s) with
  | Some e => match en_record e with
              | Some r => Some (F_receipt (mkStored (en_key e) (en_intent e) r))
              | None => None
              end
  | None => None
  end.

Definition committed key s : Source W :=
  if durable s then Ask (B_get key) else Got (V_found (committed_entry key s)).

(** ** Lookup and preparation *)

Definition pending key (canonicalIntent : string) s : option ReceiptLookup :=
  match jget key (entries s) with
  | Some e => match en_record e with
              | Some _ => None
              | None => Some (if seqb (en_intent e) canonicalIntent then L_busy else L_conflict)
              end
  | None => None
  end.

Definition lookup key (canonicalIntent : string) s : Call :=
  if negb (valid key s) || (canonicalIntentBytes (budgets s) <? bytes_of canonicalIntent)
  then ([], Got (V_lookup L_invalid))
  else match pending key canonicalIntent s with
       | Some kind => ([], Got (V_lookup kind))
       | None => ([F_lookup key canonicalIntent], committed key s)
       end.

Definition admission_lookup (kind : ReceiptAdmission) (existing : option StoredReceipt) : ReceiptLookup :=
  match kind, existing with
  | adm_existing, Some r => L_existing (st_record r)
  | adm_existing, None => L_invalid
  | adm_conflict, _ => L_conflict
  | adm_busy, _ => L_busy
  | adm_reserve, _ => L_reserve
  | adm_invalid, _ => L_invalid
  end.

Definition receipt_of (f : option Found) : option StoredReceipt :=
  match f with Some (F_receipt r) => Some r | _ => None end.

Definition lookup_found key (canonicalIntent : string) (f : option Found) s : ReceiptLookup :=
  match isTombstone f with
  | Some t => if seqb (tomb_intentDigest t) (intentDigest canonicalIntent) then L_expired else L_conflict
  | None =>
     match pending key canonicalIntent s, receipt_of f with
     | Some kind, None => kind
     | _, existing =>
        admission_lookup
          (classifyReceiptAdmission encodeUtf8 key canonicalIntent existing (zlen (entries s)) (operationReceipts (budgets s)))
          existing
     end
  end.

Definition prepare key (canonicalIntent : string) s : Call :=
  let '(frames, source) := lookup key canonicalIntent s in (frames ++ [F_prepare key canonicalIntent], source).

Definition prepared key (canonicalIntent : string) s : option Preparation * OperationReceipts S :=
  if disposed s || jhas key (entries s) || (operationReceipts (budgets s) <=? zlen (entries s)) then (None, s)
  else match la_reserve (6 * bytes_of canonicalIntent + 6 * operationRecordBytes (budgets s) + 1024) (account s) with
       | None => (None, s)
       | Some (lease, a) =>
          let '(id, s) := fresh s in
          (Some (mkPreparation key canonicalIntent id lease),
           with_entries (jset key (mkEntry key canonicalIntent None lease id) (entries s)) a s)
       end.

(** [this.entries.get(id) === entry], and its record. *)

Definition current_entry p s : option Entry :=
  match jget (p_key p) (entries s) with
  | Some e => if Nat.eqb (en_id e) (p_entry p) then Some e else None
  | None => None
  end.

Definition drop_entry p s : OperationReceipts S :=
  with_entries (jdelete (p_key p) (entries s)) (la_release (p_lease p) (account s)) s.

Definition uncommitted p s : option Entry :=
  match current_entry p s with
  | Some e => match en_record e with None => Some e | Some _ => None end
  | None => None
  end.

(** [entry.record = record]. *)

Definition set_record key (e : Entry) (record : OperationRecord) s : OperationReceipts S :=
  with_entries (jset key (mkEntry (en_key e) (en_intent e) (Some record) (en_lease e) (en_id e)) (entries s)) (account s) s.

Definition commit p (record : OperationRecord) s : Call * OperationReceipts S :=
  match (if disposed s then None else uncommitted p s) with
  | None => (([], Got (V_bool false)), s)
  | Some e =>
     match validate (en_key e) record s with
     | None => (([], Got (V_bool false)), s)
     | Some checked =>
        if negb (op_revision checked =? 0) || negb (bool_decide (op_state checked = os_accepted))
        then (([], Got (V_bool false)), s)
        else if negb (durable s)
        then (([], Got (V_bool true)),
              set_record (p_key p) e checked s)
        else (([F_commit p], Ask (B_insert (mkStored (en_key e) (en_intent e) checked))), s)
     end
  end.

Definition committed_insert p (inserted : bool) s : bool * OperationReceipts S :=
  match current_entry p s with
  | Some _ => if inserted then (true, drop_entry p s) else (false, s)
  | None => (false, s)
  end.

Definition cancel p s : OperationReceipts S :=
  match uncommitted p s with Some _ => drop_entry p s | None => s end.

(** ** Progress *)

Definition successor key (next : OperationRecord) s : Call :=
  if negb (valid key s) then ([], Got (V_stored None)) else ([F_successor key next], committed key s).

Definition option_member {A} `{EqDecision A} (f : RunRef -> A) (a b : option RunRef) : bool :=
  bool_decide (f <$> a = f <$> b).

Definition is_successor (record next : OperationRecord) : bool :=
  negb (op_revision record =? MAX_SAFE_INTEGER) && (op_revision next =? op_revision record + 1)
  && bool_decide (op_method next = op_method record)
  && option_member run_serverId (op_run next) (op_run record)
  && option_member run_relayInstanceId (op_run next) (op_run record)
  && option_member run_runId (op_run next) (op_run record).

Definition successor_found (next : OperationRecord) (f : option Found) : option StoredReceipt :=
  match receipt_of f with
  | Some current => if is_successor (st_record current) next then Some current else None
  | None => None
  end.

Definition replace_with (current : StoredReceipt) (next : OperationRecord) s : Source W * OperationReceipts S :=
  match (if disposed s then None else validate (st_key current) next s) with
  | None => (Got (V_bool false), s)
  | Some checked =>
     if durable s then (Ask (B_replace (st_key current) (op_revision (st_record current)) checked), s)
     else match jget (st_key current) (entries s) with
          | Some e =>
             match en_record e with
             | Some r =>
                if op_revision r =? op_revision (st_record current)
                then (Got (V_bool true), set_record (st_key current) e checked s)
                else (Got (V_bool false), s)
             | None => (Got (V_bool false), s)
             end
          | None => (Got (V_bool false), s)
          end
  end.

Definition update key (next : OperationRecord) s : Call :=
  let '(frames, source) := successor key next s in (frames ++ [F_update key next], source).

Definition update_found (next : OperationRecord) (current : option StoredReceipt) s : Source W * OperationReceipts S :=
  match current with
  | Some current => if terminal_state (op_state (st_record current)) then (Got (V_bool false), s) else replace_with current next s
  | None => (Got (V_bool false), s)
  end.

Definition recover key (expectedRevision : Z) (next : OperationRecord) s : Call :=
  let '(frames, source) := successor key next s in (frames ++ [F_recover key expectedRevision next], source).

Definition recover_found (expectedRevision : Z) (next : OperationRecord) (current : option StoredReceipt) s
    : Source W * OperationReceipts S :=
  match current with
  | Some current =>
     if negb (bool_decide (op_state (st_record current) = os_requires_attention))
        || negb (op_revision (st_record current) =? expectedRevision) || negb (recovery_state (op_state next))
     then (Got (V_bool false), s) else replace_with current next s
  | None => (Got (V_bool false), s)
  end.

(** ** Reading and writing *)

Definition write (request : DatabaseWriteRequest W) s : Call :=
  if negb (durable s) || negb (valid (dw_key request) s)
  then ([], Got (V_written (wr_error (domainErrorOf CAPABILITY_UNAVAILABLE))))
  else ([], Ask (B_write request (limits s))).

Definition read key s : Call :=
  if negb (valid key s) then ([], Got (V_read read_null)) else ([F_read key], committed key s).

Definition read_found (f : option Found) : ReadResult :=
  match f with
  | Some (F_tombstone _) => read_expired
  | Some (F_receipt r) => read_record (st_record r)
  | None => read_null
  end.

Definition get key s : Call := let '(frames, source) := read key s in (frames ++ [F_get key], source).

Definition get_read (r : ReadResult) : option OperationRecord := match r with read_record r => Some r | _ => None end.

Definition count s : Z := zlen (entries s).

(** ** Retention *)

Definition scheduleRetention (ms : Z) s : OperationReceipts S :=
  if disposed s then s
  else let '(timer, s) := fresh s in with_timer (Some timer) (armed s ++ [(timer, ms)]) s.

Definition startRetention s : OperationReceipts S :=
  if disposed s || match retentionTimer s with Some _ => true | None => false end || negb (durable s && o_purge (options s))
  then s else scheduleRetention 0 s.

(** The next batch of a pass, at the wall-clock time [now]. *)

Definition next_batch (now highestRun purged : Z) s : Call :=
  if disposed s then ([], Got (V_number purged))
  else ([F_batch highestRun purged],
        Ask (B_purge (mkPurge now (o_retentionMs (options s)) (o_batchSize (options s)) highestRun))).

Definition runRetentionPass (now : Z) s : Call :=
  if negb (durable s && o_purge (options s)) || disposed s then ([], Got (V_number 0))
  else if o_highestRun (options s) then ([F_highest], Ask B_highestRun)
  else next_batch now 0 0 s.

(** The pass to join, and the task of the new one when none was running. *)

Definition purgeExpired (now : Z) s : Source W * option Call * OperationReceipts S :=
  match retentionPass s with
  | Some pass => (Joined pass, None, s)
  | None =>
     let '(pass, s) := fresh s in
     let '(frames, source) := runRetentionPass now s in
     (Joined pass, Some (frames ++ [F_pass pass], source), with_pass (Some pass) s)
  end.

(** ** Startup verification *)

Definition in_state (state : OperationState) (record : OperationRecord) : OperationRecord :=
  mkOperation (op_operationId record) (op_method record) (op_revision record + 1) state (op_run record)
    (op_result record) (op_progress record) (op_error record).

Definition unproven (record : OperationRecord) : OperationRecord :=
  mkOperation (op_operationId record) (op_method record) (op_revision record + 1) os_requires_attention (op_run record)
    (op_result record) (op_progress record) (Some (error_object RESULT_UNKNOWN acc_unknown false None)).

Definition recoverInterrupted (verifiers : ReceiptVerifiers) s : Call :=
  if negb (durable s) || disposed s then ([], Got (V_records [])) else ([F_unfinished verifiers], Ask B_unfinished).

Definition next_receipt (verifiers : ReceiptVerifiers) (rest : list StoredReceipt) (verified : list OperationRecord) s
    : Call * OperationReceipts S :=
  match rest with
  | [] => (([], Got (V_records verified)), startRetention s)
  | r :: rest => (([F_found verifiers (st_key r) rest verified], committed (st_key r) s), s)
  end.

Definition verify (verifiers : ReceiptVerifiers) key (record : OperationRecord) (rest : list StoredReceipt)
    (verified : list OperationRecord) : Call :=
  ([F_verified verifiers key record rest verified],
   if verifiers (op_method record) then AskVerifier record else Got (V_proven None)).

Definition await_update key (next : OperationRecord) (frame : Frame) s : Call * OperationReceipts S :=
  let '(frames, source) := update key next s in ((frames ++ [frame], source), s).

Definition attention (verifiers : ReceiptVerifiers) key (record : OperationRecord) (rest : list StoredReceipt)
    (verified : list OperationRecord) s : Call * OperationReceipts S :=
  let outcome := unproven record in await_update key outcome (F_outcome verifiers outcome rest verified) s.

Definition found_unfinished (verifiers : ReceiptVerifiers) key (rest : list StoredReceipt) (verified : list OperationRecord)
    (f : option Found) s : Call * OperationReceipts S :=
  match receipt_of f with
  | None => next_receipt verifiers rest verified s
  | Some r =>
     let current := st_record r in
     if terminal_state (op_state current) then next_receipt verifiers rest verified s
     else if bool_decide (op_state current = os_recovering) then (verify verifiers key current rest verified, s)
     else let record := in_state os_recovering current in
          await_update key record (F_recovering verifiers key record rest verified) s
  end.

Definition verifier_answer (verifiers : ReceiptVerifiers) key (record : OperationRecord) (rest : list StoredReceipt)
    (verified : list OperationRecord) (proven : option OperationRecord) s : Call * OperationReceipts S :=
  if disposed s then (([], Got (V_records verified)), startRetention s)
  else match proven with
       | Some proven => await_update key proven (F_proven verifiers key record proven rest verified) s
       | None => attention verifiers key record rest verified s
       end.

Definition returned (v : Value) s : Call * OperationReceipts S := (([], Got v), s).

(** ** The turn of a frame

    The method of the innermost frame goes on with the value it awaited; what
    follows is put in front of the other frames.  A rejection the method does
    not catch rejects its own promise. *)

Definition run_frame (now : Z) (f : Frame) (v : Value) s : Call * OperationReceipts S :=
  match f, v with
  | F_lookup key intent, V_found found => returned (V_lookup (lookup_found key intent found s)) s
  | F_lookup _ _, V_failed => returned (V_lookup L_invalid) s
  | F_prepare key intent, V_lookup L_reserve => let '(p, s) := prepared key intent s in returned (V_preparation p) s
  | F_prepare _ _, V_lookup _ => returned (V_preparation None) s
  | F_commit p, V_bool inserted => let '(b, s) := committed_insert p inserted s in returned (V_bool b) s
  | F_successor _ next, V_found found => returned (V_stored (successor_found next found)) s
  | F_update _ next, V_stored current => let '(source, s) := update_found next current s in (([], source), s)
  | F_recover _ expected next, V_stored current => let '(source, s) := recover_found expected next current s in (([], source), s)
  | F_read _, V_found found => returned (V_read (read_found found)) s
  | F_get _, V_read r => returned (V_record (get_read r)) s
  | F_unfinished verifiers, V_list l => next_receipt verifiers l [] s
  | F_found verifiers key rest verified, V_found found => found_unfinished verifiers key rest verified found s
  | F_recovering verifiers key record rest verified, V_bool true => (verify verifiers key record rest verified, s)
  | F_verified verifiers key record rest verified, V_proven proven => verifier_answer verifiers key record rest verified proven s
  | F_verified verifiers key record rest verified, V_failed => verifier_answer verifiers key record rest verified None s
  | F_proven verifiers key record proven rest verified, V_bool true => next_receipt verifiers rest (verified ++ [proven]) s
  | F_proven verifiers key record proven rest verified, V_bool false => attention verifiers key record rest verified s
  | F_outcome verifiers outcome rest verified, V_bool true => next_receipt verifiers rest (verified ++ [outcome]) s
  | F_highest, V_number highestRun => (next_batch now highestRun 0 s, s)
  | F_batch highestRun purged, V_batch b =>
     if pb_more b then (next_batch now highestRun (purged + pb_purged b) s, s)
     else returned (V_number (purged + pb_purged b)) s
  | F_pass pass, v => returned v (with_pass None s)
  | F_timer timer, v =>
     returned v (if bool_decide (retentionTimer s = Some timer) then scheduleRetention (o_intervalMs (options s)) s else s)
  | _, _ => returned V_failed s
  end.

Definition dispose s : OperationReceipts S :=
  if disposed s then s
  else
    let armed' := match retentionTimer s with
                  | Some t => List.filter (fun x => negb (Nat.eqb x.1 t)) (armed s)
                  | None => armed s
                  end in
    mkReceipts (options s) [] (scratch s) true None armed' (retentionPass s) (next_id s)
      (la_release (scratch s) (release_all (en_lease <$> jvalues (entries s)) (account s))).

End receipts.
