(* ===== verification/ReceiptSystem.v ===== *)
(** * Receipts at run time: the calls in flight, the database and its other users

    A state is the [OperationReceipts] object, its calls in flight, the database
    behind it, and what is remembered of the past: the results given to callers,
    which call's request made a key accepted, and the bytes others have charged
    to the shared account.  A step is one synchronous
    stretch of the program: a call, a turn of a suspended call, a request run by
    the store (its answer may be lost, or the request never run), an answer of a
    verifier, a timer; or a step of the other users of the database and of the
    byte account. *)

From S2P Require Import Prelude Json Protocol Errors Pipe Operations JsMap LeaseAccount.
From S2P Require Import StoreTables ReceiptStore ReceiptSafety ReceiptRetention ReceiptBackend OperationReceipts.

Section system.
Context {S : Type} `{LeaseAccount S} {B W : Type} {encodeUtf8 : string -> list Z} {intentDigest : string -> string}
  `{RB : ReceiptBackend B W encodeUtf8 intentDigest}.

Inductive Method :=
  | M_lookup (key : OperationReceiptKey) (canonicalIntent : string)
  | M_prepare (key : OperationReceiptKey) (canonicalIntent : string)
  | M_commit (p : Preparation) (record : OperationRecord)
  | M_update (key : OperationReceiptKey) (next : OperationRecord)
  | M_recover (key : OperationReceiptKey) (expectedRevision : Z) (next : OperationRecord)
  | M_write (request : DatabaseWriteRequest W)
  | M_get (key : OperationReceiptKey)
  | M_read (key : OperationReceiptKey)
  | M_recoverInterrupted (verifiers : ReceiptVerifiers)
  | M_purgeExpired
  | M_retentionPass
  | M_timer (timer : nat).

Record Task := mkTask { tk_method : Method; tk_frames : list Frame; tk_source : Source W }.

Record System := mkSystem {
  app : OperationReceipts S; tasks : gmap nat Task; backend : B;
  results : list (nat * Method * Value); accepted : list (nat * OperationReceiptKey); others : Z;
}.

Implicit Types (x : System).

(** The synchronous part of a call. *)

Definition start (m : Method) (s : OperationReceipts S) : list Frame * Source W * OperationReceipts S :=
  match m with
  | M_lookup key intent => (lookup encodeUtf8 key intent s, s)
  | M_prepare key intent => (prepare encodeUtf8 key intent s, s)
  | M_commit p record => commit encodeUtf8 p record s
  | M_update key next => (update key next s, s)
  | M_recover key expected next => (recover key expected next s, s)
  | M_write request => (write request s, s)
  | M_get key => (get key s, s)
  | M_read key => (read key s, s)
  | M_recoverInterrupted verifiers => (recoverInterrupted verifiers s, s)
  | _ => (([], Got V_failed), s)
  end.

Definition with_app (s : OperationReceipts S) x : System := mkSystem s (tasks x) (backend x) (results x) (accepted x) (others x).

Definition put_task (tid : nat) (t : Task) x : System :=
  mkSystem (app x) (<[tid := t]> (tasks x)) (backend x) (results x) (accepted x) (others x).

Definition with_backend (b : B) x : System := mkSystem (app x) (tasks x) b (results x) (accepted x) (others x).

Definition log_accepted (tid : nat) (key : option OperationReceiptKey) x : System :=
  mkSystem (app x) (tasks x) (backend x) (results x)
    (match key with Some key => (tid, key) :: accepted x | None => accepted x end) (others x).

(** The pass a joined call waits for ends with a value. *)

Definition settle_pass (pass : nat) (v : Value) (t : Task) : Task :=
  match tk_source t with
  | Joined p => if Nat.eqb p pass then mkTask (tk_method t) (tk_frames t) (Got v) else t
  | _ => t
  end.

Definition settle_joined (f : Frame) (v : Value) x : System :=
  match f with
  | F_pass pass => mkSystem (app x) (settle_pass pass v <$> tasks x) (backend x) (results x) (accepted x) (others x)
  | _ => x
  end.

Definition value_of (a : option BackendAnswer) : Value :=
  match a with
  | Some (A_found f) => V_found f
  | Some (A_bool b) => V_bool b
  | Some (A_list l) => V_list l
  | Some (A_batch b) => V_batch b
  | Some (A_number n) => V_number n
  | Some (A_written r) => V_written r
  | None => V_failed
  end.

(** The key a request made accepted. *)

Definition accepts (request : BackendRequest W) (a : option BackendAnswer) : option OperationReceiptKey :=
  match request, a with
  | B_insert stored, Some (A_bool true) => Some (st_key stored)
  | B_write request _, Some (A_written (wr_operation _ true)) => Some (dw_key request)
  | _, _ => None
  end.

(** A memory commit is accepted in its own call. *)

Definition accepts_now (m : Method) (source : Source W) : option OperationReceiptKey :=
  match m, source with
  | M_commit p _, Got (V_bool true) => Some (p_key p)
  | _, _ => None
  end.

Definition add_calls (tid : nat) (t : Task) (pass : option (nat * (list Frame * Source W))) x : System :=
  let x := put_task tid t x in
  match pass with
  | Some (tid', (frames, source)) => put_task tid' (mkTask M_retentionPass frames source) x
  | None => x
  end.

(** The handle of a timer that has fired, or was cleared. *)

Definition disarm (timer : nat) (s : OperationReceipts S) : OperationReceipts S :=
  with_timer (retentionTimer s) (List.filter (fun y => negb (Nat.eqb y.1 timer)) (armed s)) s.

(** The leases the object holds, and what they are charged. *)

Definition entry_bytes (s : OperationReceipts S) (e : Entry) : Z :=
  6 * bytes_of encodeUtf8 (en_intent e) + 6 * operationRecordBytes (budgets s) + 1024.

Definition leases (s : OperationReceipts S) : list (nat * Z) :=
  if disposed s then []
  else (scratch s, 6 * operationRecordBytes (budgets s) + 6 * canonicalIntentBytes (budgets s))
       :: ((fun e => (en_lease e, entry_bytes s e)) <$> jvalues (entries s)).

(** A call's identity is its own. *)

Definition unused (tid : nat) x : Prop := tasks x !! tid = None /\ Forall (fun r => r.1.1 <> tid) (results x).

(** What an event of the system may do to receipts: the object's own progress,
    a database write of its own or of the others. *)

Inductive Event := E_progress | E_write.

Definition event_of (request : BackendRequest W) : Event := match request with B_write _ _ => E_write | _ => E_progress end.

Inductive step : Event -> System -> System -> Prop :=
  | step_call m tid frames source s' x :
      unused tid x ->
      match m with
      | M_commit p _ => exists tid' m', (tid', m', V_preparation (Some p)) ∈ results x
      | M_purgeExpired | M_retentionPass | M_timer _ => False
      | _ => True
      end ->
      start m (app x) = (frames, source, s') ->
      step E_progress x (log_accepted tid (accepts_now m source) (put_task tid (mkTask m frames source) (with_app s' x)))
  | step_purgeExpired tid tid' now source pass s' x :
      unused tid x -> unused tid' x -> tid <> tid' ->
      purgeExpired now (app x) = (source, pass, s') ->
      step E_progress x (add_calls tid (mkTask M_purgeExpired [] source) ((fun c => (tid', c)) <$> pass) (with_app s' x))
  | step_timer timer ms tid tid' now source pass s' x :
      (timer, ms) ∈ armed (app x) -> unused tid x -> unused tid' x -> tid <> tid' ->
      retentionTimer (app x) = Some timer ->
      purgeExpired now (disarm timer (app x)) = (source, pass, s') ->
      step E_progress x (add_calls tid (mkTask (M_timer timer) [F_timer timer] source) ((fun c => (tid', c)) <$> pass) (with_app s' x))
  | step_stale_timer timer ms x :
      (timer, ms) ∈ armed (app x) -> retentionTimer (app x) <> Some timer ->
      step E_progress x (with_app (disarm timer (app x)) x)
  | step_cancel p tid m x :
      (tid, m, V_preparation (Some p)) ∈ results x -> step E_progress x (with_app (cancel p (app x)) x)
  | step_dispose x : step E_progress x (with_app (dispose (app x)) x)
  | step_turn tid now m f frames v frames' source s' x :
      tasks x !! tid = Some (mkTask m (f :: frames) (Got v)) ->
      run_frame encodeUtf8 intentDigest now f v (app x) = (frames', source, s') ->
      step E_progress x (settle_joined f v (put_task tid (mkTask m (frames' ++ frames) source) (with_app s' x)))
  | step_return tid m v x :
      tasks x !! tid = Some (mkTask m [] (Got v)) ->
      step E_progress x (mkSystem (app x) (delete tid (tasks x)) (backend x) ((tid, m, v) :: results x) (accepted x) (others x))
  | step_exec tid at_ m frames request answer b lost x :
      tasks x !! tid = Some (mkTask m frames (Ask request)) ->
      rb_run at_ request (backend x) = (answer, b) ->
      step (event_of request) x
        (log_accepted tid (accepts request answer)
           (put_task tid (mkTask m frames (Got (if lost : bool then V_failed else value_of answer))) (with_backend b x)))
  | step_refused tid m frames request x :
      tasks x !! tid = Some (mkTask m frames (Ask request)) ->
      step E_progress x (put_task tid (mkTask m frames (Got V_failed)) x)
  | step_verifier tid m frames record v x :
      tasks x !! tid = Some (mkTask m frames (AskVerifier record)) ->
      (v = V_failed \/ exists proven, v = V_proven proven) ->
      step E_progress x (put_task tid (mkTask m frames (Got v)) x)
  | step_database b x :
      rb_ok b -> (forall k, evolves intentDigest (rb_view (backend x) k) (rb_view b k)) ->
      step E_write x (with_backend b x)
  | step_account a x :
      la_ok a -> (forall l n, (l, n) ∈ leases (app x) -> la_charge a l = la_charge (account (app x)) l) ->
      step E_progress x
        (mkSystem (with_entries (entries (app x)) a (app x)) (tasks x) (backend x) (results x) (accepted x)
           (others x + (la_used a - la_used (account (app x))))).

(** From a new object over a consistent store. *)

Definition initial (o : Options) (a : S) (b : B) : option System :=
  (fun s => mkSystem s ∅ b [] [] (la_used a)) <$> newOperationReceipts o a.

Definition steps : System -> System -> Prop := rtc (fun x y => exists e, step e x y).

Definition reachable (o : Options) (x : System) : Prop :=
  exists a b x0, la_ok a /\ rb_ok b /\ initial o a b = Some x0 /\ steps x0 x.

End system.
