(* ===== verification/ReceiptContracts.v ===== *)
(** * The contracts of suspended calls (operation-receipts.ts)

    The life of a key, what later states keep, and the contract of every method:
    a call is a stack of frames; a frame says what it takes from the promise it
    awaits and what it gives to the frame that awaits it.  Both are statements
    about the present state that later states keep, so a suspended call stays
    right whatever runs meanwhile. *)

From S2P Require Import Prelude Json Protocol Errors Pipe Operations JsMap LeaseAccount.
From S2P Require Import StoreTables ReceiptStore ReceiptSafety ReceiptRetention ReceiptBackend OperationReceipts ReceiptSystem.

Lemma terminal_ended st : terminal_state st = false -> ended_state st = false.
Proof. by destruct st. Qed.

Lemma is_successor_spec r next : is_successor r next = true ->
  op_revision next = op_revision r + 1 /\ op_method next = op_method r /\ op_run next = op_run r.
Proof.
  unfold is_successor, option_member. rewrite !andb_true_iff, !bool_decide_eq_true, Z.eqb_eq.
  intros [[[[[_ Hr] Hm] H1] H2] H3]. split_and!; [done | done |].
  destruct (op_run r) as [[]|], (op_run next) as [[]|]; cbn in *; congruence.
Qed.

Section contracts.
Context {S : Type} `{LeaseAccount S} {B W : Type} {encodeUtf8 : string -> list Z} {intentDigest : string -> string}
  `{RB : !ReceiptBackend B W encodeUtf8 intentDigest}.
Implicit Types (s : OperationReceipts S) (x y : System (S := S) (B := B) (W := W)) (key : OperationReceiptKey) (p : Preparation).

(** ** The life of a key

    An unused key is accepted at revision 0; a receipt that is not terminal gets
    its successor; one that requires attention is continued or abandoned; an
    ended one is replaced by its tombstone. *)

Definition allowed (r next : OperationRecord) : Prop :=
  is_successor r next = true
  /\ (terminal_state (op_state r) = false
      \/ op_state r = os_requires_attention /\ recovery_state (op_state next) = true).

Definition life (a b : option Found) : Prop :=
  a = b \/ match a, b with
           | None, Some (F_receipt r) => op_revision (st_record r) = 0 /\ op_state (st_record r) = os_accepted
           | Some (F_receipt r), Some (F_receipt r') =>
              st_key r' = st_key r /\ st_canonicalIntent r' = st_canonicalIntent r /\ allowed (st_record r) (st_record r')
           | Some (F_receipt r), Some (F_tombstone t) =>
              ended_state (op_state (st_record r)) = true /\ moves intentDigest a b
           | _, _ => False
           end.

Lemma allowed_live r next : allowed r next -> ended_state (op_state r) = false.
Proof. intros [_ [Ht|[-> _]]]; [by apply terminal_ended | done]. Qed.

Lemma life_evolves a b : life a b -> evolves intentDigest a b.
Proof.
  intros [->|Hl]; [by left | right]. destruct a as [[r|t]|], b as [[r'|t']|]; try done; cbn in *.
  - destruct Hl as (Hk & Hi & Ha). pose proof (allowed_live _ _ Ha) as He. destruct Ha as [Hs _].
    apply is_successor_spec in Hs as (Hr & Hm & _). split_and!; try done. lia.
  - apply Hl.
Qed.

#[local] Instance life_refl : Reflexive life.
Proof. by left. Qed.

Definition visible x key : option Found :=
  if durable (app x) then rb_view (backend x) key else committed_entry key (app x).

(** Receipts kept in memory are gone with [dispose]. *)

Definition stable x : bool := durable (app x) || negb (disposed (app x)).

(** ** One step of the object *)

Definition same_entry (e e' : Entry) : Prop :=
  en_id e' = en_id e /\ en_key e' = en_key e /\ en_intent e' = en_intent e /\ en_lease e' = en_lease e.

Record app_next s s' : Prop := mk_app_next {
  an_options : options s' = options s;
  an_disposed : disposed s = true -> disposed s' = true;
  an_next : (next_id s <= next_id s')%nat;
  an_entries : forall key e', jget key (entries s') = Some e' ->
    (next_id s <= en_id e')%nat \/ exists e, jget key (entries s) = Some e /\ same_entry e e';
  an_visible : durable s = false -> disposed s' = false -> forall key, life (committed_entry key s) (committed_entry key s');
}.

Record app_ok (foreign : Z) s : Prop := mk_app_ok {
  ao_wf : jwf (entries s);
  ao_entry : forall key e, jget key (entries s) = Some e ->
    en_key e = key /\ (en_id e < next_id s)%nat /\ (durable s = true -> en_record e = None);
  ao_disposed : disposed s = true -> entries s = [];
  ao_count : zlen (entries s) <= Z.max 0 (operationReceipts (budgets s));
  ao_ledger : ledger foreign (account s) (leases (encodeUtf8 := encodeUtf8) s);
}.

Lemma app_next_refl s : app_next s s.
Proof.
  constructor; try done. intros key e Hk. right. exists e. split; [done |]. unfold same_entry. auto.
Qed.

(** What does not touch the entries. *)

Record quiet s s' : Prop := mk_quiet {
  q_options : options s' = options s; q_entries : entries s' = entries s; q_scratch : scratch s' = scratch s;
  q_disposed : disposed s' = disposed s; q_account : account s' = account s; q_next : (next_id s <= next_id s')%nat;
}.

Lemma quiet_refl s : quiet s s.
Proof. by constructor. Qed.

Lemma quiet_trans s1 s2 s3 : quiet s1 s2 -> quiet s2 s3 -> quiet s1 s3.
Proof. intros [] []. constructor; try congruence. lia. Qed.

Lemma quiet_next s s' : quiet s s' -> app_next s s'.
Proof.
  intros [Ho He _ Hd _ Hn]. constructor; [done | congruence | done | |].
  - intros key e. rewrite He. apply (app_next_refl s).
  - intros _ _ key. unfold committed_entry. by rewrite He.
Qed.

Lemma receipt_quiet_ok foreign s s' : quiet s s' -> app_ok foreign s -> app_ok foreign s'.
Proof.
  intros [Ho He Hsc Hd Ha Hn] [H1 H2 H3 H4 H5].
  constructor; unfold budgets, durable, leases, entry_bytes, budgets in *; rewrite ?He, ?Ho, ?Hsc, ?Hd, ?Ha; auto.
  intros key e Hk. destruct (H2 key e Hk) as (? & ? & ?). split_and!; [done | lia | done].
Qed.

Lemma quiet_timer t l s : quiet s (with_timer t l s).
Proof. by constructor. Qed.

Lemma quiet_pass pass s : quiet s (with_pass pass s).
Proof. by constructor. Qed.

Lemma quiet_fresh s : quiet s (fresh s).2.
Proof. constructor; cbn; try done. lia. Qed.

Lemma quiet_schedule ms s : quiet s (scheduleRetention ms s).
Proof.
  unfold scheduleRetention. destruct (disposed s); [apply quiet_refl |]. cbn.
  eapply quiet_trans; [apply quiet_fresh | apply quiet_timer].
Qed.

Lemma quiet_start s : quiet s (startRetention s).
Proof. unfold startRetention. destruct (_ || _); [apply quiet_refl | apply quiet_schedule]. Qed.

Lemma quiet_disarm t s : quiet s (disarm t s).
Proof. apply quiet_timer. Qed.

Lemma quiet_purge now s : quiet s (purgeExpired (W := W) now s).2.
Proof.
  unfold purgeExpired. destruct (retentionPass s); [apply quiet_refl |]. cbn [fresh]. destruct (runRetentionPass _ _) as [fs src].
  cbn [snd]. eapply quiet_trans; [apply quiet_fresh | apply quiet_pass].
Qed.

Create HintDb quiet.

#[local] Hint Resolve quiet_refl quiet_timer quiet_pass quiet_schedule quiet_start quiet_disarm quiet_purge : quiet.

(** *** The entries *)

Lemma leases_open s : disposed s = false ->
  leases (encodeUtf8 := encodeUtf8) s
  = (scratch s, 6 * operationRecordBytes (budgets s) + 6 * canonicalIntentBytes (budgets s))
    :: ((fun e => (en_lease e, entry_bytes (encodeUtf8 := encodeUtf8) s e)) <$> jvalues (entries s)).
Proof. unfold leases. by intros ->. Qed.

Lemma set_record_ok foreign key e record s : app_ok foreign s -> jget key (entries s) = Some e -> durable s = false ->
  app_ok foreign (set_record key e record s).
Proof.
  intros [H1 H2 H3 H4 H5] He Hd. assert (Hds : disposed s = false).
  { destruct (disposed s); [| done]. by rewrite H3 in He. }
  constructor; cbn [entries set_record with_entries].
  - by apply jwf_set.
  - intros key' e'. rewrite jget_set. case_decide as Hk; [intros [= <-] | apply H2]. subst key'. cbn.
    destruct (H2 key e He) as (? & ? & _). split_and!; [done.. |]. unfold durable, set_record in *. cbn. congruence.
  - cbn. congruence.
  - unfold zlen. destruct (jset_split key e (mkEntry (en_key e) (en_intent e) (Some record) (en_lease e) (en_id e)) _ He)
      as (m1 & m2 & Hm & ->). unfold zlen in H4. rewrite Hm in H4. rewrite length_app in *. exact H4.
  - rewrite leases_open in * by done. cbn [account with_entries set_record].
    destruct (jset_split key e (mkEntry (en_key e) (en_intent e) (Some record) (en_lease e) (en_id e)) _ He)
      as (m1 & m2 & Hm & Hm'). rewrite Hm in H5. unfold set_record. cbn [entries with_entries scratch]. rewrite Hm'.
    unfold jvalues in *. rewrite !fmap_app in *. exact H5.
Qed.

Lemma set_record_next key e record s : jget key (entries s) = Some e -> en_key e = key ->
  life (committed_entry key s) (Some (F_receipt (mkStored key (en_intent e) record))) ->
  app_next s (set_record key e record s).
Proof.
  intros He Hkey Hlife. constructor; [done | done | cbn; lia | |].
  - intros key' e'. cbn [entries set_record with_entries]. rewrite jget_set. case_decide as Hk; intros Hj.
    + injection Hj as <-. subst key'. right. exists e. split; [done |]. done.
    + right. exists e'. split; [done |]. unfold same_entry. auto.
  - intros _ _ k. unfold committed_entry at 2. cbn [entries set_record with_entries]. rewrite jget_set. case_decide as Hk.
    + subst k. cbn. by rewrite Hkey.
    + by left.
Qed.

Lemma receipt_drop_entry_ok foreign p e s : app_ok foreign s -> jget (p_key p) (entries s) = Some e -> en_lease e = p_lease p ->
  app_ok foreign (drop_entry p s).
Proof.
  intros [H1 H2 H3 H4 H5] He Hl. assert (Hds : disposed s = false).
  { destruct (disposed s); [| done]. by rewrite H3 in He. }
  constructor; cbn [entries drop_entry with_entries].
  - by apply jwf_delete.
  - intros key' e'. rewrite jget_delete by done. case_decide; [done | apply H2].
  - cbn. congruence.
  - pose proof (jdelete_split _ _ _ H1 He) as (m1 & m2 & Hm & ->). unfold zlen in *. rewrite Hm in H4.
    rewrite length_app in *. cbn [length] in H4. change (budgets (drop_entry p s)) with (budgets s). lia.
  - rewrite leases_open in * by done. cbn [account with_entries drop_entry entries scratch].
    rewrite (jvalues_delete_perm _ _ _ H1 He), fmap_cons in H5.
    rewrite Permutation_swap, Hl in H5. by apply ledger_release in H5.
Qed.

Lemma drop_entry_next p e s : jwf (entries s) -> jget (p_key p) (entries s) = Some e -> (durable s = false -> en_record e = None) ->
  app_next s (drop_entry p s).
Proof.
  intros Hwf He Hr. constructor; [done | done | cbn; lia | |].
  - intros key e'. cbn [entries drop_entry with_entries]. rewrite jget_delete by done. case_decide; [done |]. intros Hj.
    right. exists e'. split; [done |]. unfold same_entry. auto.
  - intros Hd _ key. left. unfold committed_entry. cbn [entries drop_entry with_entries]. rewrite jget_delete by done.
    case_decide as Hk; [| done]. subst key. rewrite He. by rewrite Hr.
Qed.

Lemma prepared_ok foreign key intent s o s' : app_ok foreign s ->
  prepared encodeUtf8 key intent s = (o, s') ->
  app_ok foreign s' /\ app_next s s'
  /\ match o with
     | Some p => p_key p = key /\ p_intent p = intent /\ (p_entry p < next_id s')%nat
                 /\ jget key (entries s') = Some (mkEntry key intent None (p_lease p) (p_entry p))
                 /\ forall key' e, jget key' (entries s') = Some e -> en_id e = p_entry p -> key' = key
     | None => True
     end.
Proof.
  intros Hok. unfold prepared. destruct (disposed s) eqn:Hds; cbn [orb].
  { intros [= <- <-]. auto using app_next_refl. }
  destruct (jhas key (entries s)) eqn:Hh; cbn [orb].
  { intros [= <- <-]. auto using app_next_refl. }
  destruct (_ <=? _) eqn:Hc.
  { intros [= <- <-]. auto using app_next_refl. }
  destruct (la_reserve _ _) as [[lease a]|] eqn:Er; [| intros [= <- <-]; auto using app_next_refl].
  intros [= <- <-]. unfold jhas in Hh. destruct (jget key (entries s)) eqn:Hj; [done |]. apply Z.leb_gt in Hc.
  destruct Hok as [H1 H2 H3 H4 H5]. set (e := mkEntry key intent None lease (next_id s)).
  split; [| split].
  - constructor; cbn [entries with_entries].
    + by apply jwf_set.
    + intros key' e'. rewrite jget_set. case_decide as Hk; cbn [next_id with_entries].
      * intros [= <-]. subst key'. cbn. split_and!; [done | lia | done].
      * intros Hj'. destruct (H2 key' e' Hj') as (? & ? & ?). split_and!; [done | lia | done].
    + cbn. congruence.
    + rewrite jkeys_set_new by done. unfold zlen, budgets in *. rewrite length_app. cbn. lia.
    + rewrite leases_open in * by done. cbn [account with_entries entries scratch]. rewrite jkeys_set_new by done.
      unfold jvalues. rewrite fmap_app, fmap_app. cbn [fmap list_fmap snd].
      pose proof (ledger_reserve _ _ _ _ _ _ H5 Er) as Hl.
      change (budgets (with_entries _ a _)) with (budgets s). unfold entry_bytes in *.
      change (budgets (with_entries _ a _)) with (budgets s). cbn [en_lease en_intent e].
      rewrite app_comm_cons, Permutation_app_comm. exact Hl.
  - constructor; [done | done | cbn; lia | |].
    + intros key' e'. cbn [entries with_entries]. rewrite jget_set. case_decide as Hk; intros Hj'.
      * injection Hj' as <-. left. cbn. lia.
      * right. exists e'. split; [done |]. unfold same_entry. auto.
    + intros _ _ key'. left. unfold committed_entry. cbn [entries with_entries]. rewrite jget_set. case_decide as Hk; [| done].
      subst key'. by rewrite Hj.
  - cbn [p_key p_intent p_entry p_lease next_id with_entries entries]. split_and!; [done | done | lia | |].
    + rewrite jget_set. by rewrite decide_True.
    + intros key' e'. rewrite jget_set. case_decide as Hk; [done |]. intros Hj' Hid.
      destruct (H2 key' e' Hj') as (_ & ? & _). lia.
Qed.

Lemma receipt_dispose_ok foreign s : app_ok foreign s -> app_ok foreign (dispose s) /\ app_next s (dispose s).
Proof.
  intros Hok. unfold dispose. destruct (disposed s) eqn:Hds; [auto using app_next_refl |].
  destruct Hok as [H1 H2 H3 H4 H5]. split.
  - constructor; cbn [entries account]; [by apply NoDup_nil_2 | done | done | apply Z.le_max_l |].
    unfold leases. cbn [disposed]. rewrite leases_open in H5 by done.
    rewrite (Permutation_cons_append _ (scratch s, _)) in H5. apply ledger_release_all in H5.
    rewrite fmap_app, <- list_fmap_compose in H5. unfold release_all in *. rewrite foldl_app in H5. exact H5.
  - constructor; cbn; [done | done | lia | done | done].
Qed.

(** ** Later states *)

Record later x y : Prop := mk_later {
  lt_options : options (app y) = options (app x);
  lt_disposed : disposed (app x) = true -> disposed (app y) = true;
  lt_next : (next_id (app x) <= next_id (app y))%nat;
  lt_entries : forall key e', jget key (entries (app y)) = Some e' ->
    (next_id (app x) <= en_id e')%nat \/ exists e, jget key (entries (app x)) = Some e /\ same_entry e e';
  lt_visible : stable y = true -> forall key, evolves intentDigest (visible x key) (visible y key);
  lt_accepted : forall a, a ∈ accepted x -> a ∈ accepted y;
}.

Lemma receipt_later_refl x : later x x.
Proof.
  constructor; try done. intros key e He. right. exists e. split; [done |]. unfold same_entry. auto.
Qed.

Lemma later_durable x y : later x y -> durable (app y) = durable (app x).
Proof. intros Hl. unfold durable. by rewrite (lt_options _ _ Hl). Qed.

Lemma later_stable x y : later x y -> stable y = true -> stable x = true.
Proof.
  intros Hl. unfold stable. rewrite (later_durable _ _ Hl). destruct (durable (app x)); [done |]. cbn.
  destruct (disposed (app x)) eqn:E; [| done]. by rewrite (lt_disposed _ _ Hl E).
Qed.

(** The object makes a step, or the database. *)

Lemma later_app x y : app_next (app x) (app y) -> backend y = backend x -> (forall a, a ∈ accepted x -> a ∈ accepted y) -> later x y.
Proof.
  intros [Ho Hd Hn He Hv] Hb Ha. constructor; try done. intros Hst key. unfold visible, stable, durable in *.
  rewrite Ho, Hb in *. destruct (o_durable _) eqn:Edur; [reflexivity |]. cbn in Hst. apply negb_true_iff in Hst.
  by apply life_evolves, Hv.
Qed.

Lemma later_backend x y : app y = app x -> (forall key, evolves intentDigest (rb_view (backend x) key) (rb_view (backend y) key)) ->
  (forall a, a ∈ accepted x -> a ∈ accepted y) -> later x y.
Proof.
  intros Ha Hv Hacc. destruct (receipt_later_refl x) as [H1 H2 H3 H4 _ _]. constructor; rewrite ?Ha; try done.
  intros _ key. unfold visible. rewrite Ha. destruct (durable _); [apply Hv | reflexivity].
Qed.

(** ** What later states keep *)

Definition prep_ok x p : Prop :=
  (p_entry p < next_id (app x))%nat
  /\ forall key e, jget key (entries (app x)) = Some e -> en_id e = p_entry p ->
       key = p_key p /\ en_key e = p_key p /\ en_intent e = p_intent p /\ en_lease e = p_lease p.

Definition found_key_ok key (f : Found) : Prop := match f with F_receipt r => st_key r = key | F_tombstone _ => True end.

Definition seen x key (f : option Found) : Prop :=
  match f with
  | Some g => found_key_ok key g /\ (stable x = true -> evolves intentDigest f (visible x key))
  | None => True
  end.

#[local] Arguments seen : simpl never.

Definition record_at x key (r : OperationRecord) : Prop :=
  exists stored, st_record stored = r /\ seen x key (Some (F_receipt stored)).

Definition lookup_ok x key (intent : string) (l : ReceiptLookup) : Prop :=
  match l with
  | L_existing r => exists stored, st_record stored = r /\ st_canonicalIntent stored = intent /\ seen x key (Some (F_receipt stored))
  | L_expired => exists t, tomb_intentDigest t = intentDigest intent /\ seen x key (Some (F_tombstone t))
  | _ => True
  end.

Definition read_ok x key (r : ReadResult) : Prop :=
  match r with
  | read_record r => record_at x key r
  | read_expired => exists t, seen x key (Some (F_tombstone t))
  | read_null => True
  end.

Definition stored_ok x key (next : OperationRecord) (o : option StoredReceipt) : Prop :=
  match o with
  | Some r => is_successor (st_record r) next = true /\ seen x key (Some (F_receipt r))
  | None => True
  end.

Definition written_ok x tid key (w : DatabaseWriteResult) : Prop :=
  match w with wr_operation o true => (tid, key) ∈ accepted x /\ record_at x key o | _ => True end.

Lemma prep_later x y p : later x y -> prep_ok x p -> prep_ok y p.
Proof.
  intros Hl [Hn He]. split; [pose proof (lt_next _ _ Hl); lia |]. intros key e' Hk Hid.
  destruct (lt_entries _ _ Hl key e' Hk) as [?|(e & Hk' & Hi & H1 & H2 & H3)]; [lia |].
  rewrite H1, H2, H3. apply (He key e Hk'). congruence.
Qed.

Lemma seen_later x y key f : later x y -> seen x key f -> seen y key f.
Proof.
  intros Hl. destruct f as [g|]; [| done]. intros [Hk Hs]. split; [done |]. intros Hy.
  etransitivity; [apply Hs; by eapply later_stable | by apply (lt_visible _ _ Hl)].
Qed.

Lemma record_later x y key r : later x y -> record_at x key r -> record_at y key r.
Proof. intros Hl (st & ? & ?). exists st. eauto using seen_later. Qed.

Create HintDb later.

#[local] Hint Resolve prep_later seen_later record_later lt_accepted : later.

Lemma lookup_later x y key intent l : later x y -> lookup_ok x key intent l -> lookup_ok y key intent l.
Proof.
  intros Hl. destruct l; try done; cbn; [intros (st & ? & ? & ?); exists st | intros (t & ? & ?); exists t];
    split_and?; try done; by eapply seen_later.
Qed.

Lemma read_later x y key r : later x y -> read_ok x key r -> read_ok y key r.
Proof. intros Hl. destruct r; cbn; [by apply record_later | intros (t & ?); exists t; by eapply seen_later | done]. Qed.

Lemma stored_later x y key next o : later x y -> stored_ok x key next o -> stored_ok y key next o.
Proof. intros Hl. destruct o; [| done]. intros [? ?]. split; [done | by eapply seen_later]. Qed.

Lemma written_later x y tid key w : later x y -> written_ok x tid key w -> written_ok y tid key w.
Proof. intros Hl. destruct w as [o []| |]; try done. intros [? ?]. split; [by eapply lt_accepted | by eapply record_later]. Qed.

#[local] Hint Resolve lookup_later read_later stored_later written_later : later.

(** ** Contracts *)

(** What a frame gives to the one that awaits it. *)

Definition gives x (tid : nat) (f : Frame) (v : Value) : Prop :=
  match f, v with
  | F_lookup key intent, V_lookup l => lookup_ok x key intent l
  | F_prepare key intent, V_preparation (Some p) => prep_ok x p /\ p_key p = key /\ p_intent p = intent
  | F_prepare _ _, V_preparation None => True
  | F_commit p, V_bool b => b = true -> (tid, p_key p) ∈ accepted x
  | F_successor key next, V_stored o => stored_ok x key next o
  | F_update key next, V_bool b | F_recover key _ next, V_bool b => b = true -> record_at x key next
  | F_read key, V_read r => read_ok x key r
  | F_get key, V_record o => match o with Some r => record_at x key r | None => True end
  | (F_unfinished _ | F_found _ _ _ _ | F_recovering _ _ _ _ _ | F_verified _ _ _ _ _ | F_proven _ _ _ _ _ _ | F_outcome _ _ _ _),
    V_records _ => True
  | (F_highest | F_batch _ _ | F_pass _ | F_timer _), V_number _ => True
  | (F_lookup _ _ | F_prepare _ _), _ => False
  | _, V_failed => True
  | _, _ => False
  end.

(** What a frame takes from the promise it awaits, and what stays true of it
    while it waits. *)

Definition takes x (f : Frame) (tid : nat) (v : Value) : Prop :=
  match f, v with
  | F_lookup key _, V_found o | F_successor key _, V_found o | F_read key, V_found o | F_found _ key _ _, V_found o => seen x key o
  | F_prepare key intent, V_lookup l => lookup_ok x key intent l
  | F_commit p, V_bool b => b = true -> (tid, p_key p) ∈ accepted x
  | F_update key next, V_stored o | F_recover key _ next, V_stored o => stored_ok x key next o
  | F_get key, V_read r => read_ok x key r
  | F_unfinished _, V_list _ => True
  | (F_recovering _ _ _ _ _ | F_proven _ _ _ _ _ _ | F_outcome _ _ _ _), V_bool _ => True
  | F_verified _ _ _ _ _, V_proven _ => True
  | (F_highest | F_pass _ | F_timer _), V_number _ => True
  | F_batch _ _, V_batch _ => True
  | F_prepare _ _, _ => False
  | _, V_failed => True
  | _, _ => False
  end.

Definition holds x (f : Frame) : Prop :=
  match f with
  | F_commit p => prep_ok x p /\ durable (app x) = true
  | F_highest | F_batch _ _ => durable (app x) = true
  | _ => True
  end.

(** What a request may answer, and when it may be asked. *)

Definition outcome x (tid : nat) (request : BackendRequest W) (v : Value) : Prop :=
  v = V_failed \/
  match request, v with
  | B_get key, V_found o => seen x key o
  | B_insert stored, V_bool b => b = true -> (tid, st_key stored) ∈ accepted x
  | B_replace key _ record, V_bool b => b = true -> record_at x key record
  | B_unfinished, V_list _ | B_purge _, V_batch _ | B_highestRun, V_number _ => True
  | B_write request _, V_written w => written_ok x tid (dw_key request) w
  | _, _ => False
  end.

Definition replaceable x key (expected : Z) (record : OperationRecord) : Prop :=
  OperationRecordSchema record = true /\ op_operationId record = key_operationId key
  /\ exists r, revision_of r = expected /\ allowed (st_record r) record /\ seen x key (Some (F_receipt r)).

Definition request_ok x (request : BackendRequest W) : Prop :=
  durable (app x) = true
  /\ match request with
     | B_insert stored => insertable stored /\ op_revision (st_record stored) = 0 /\ op_state (st_record stored) = os_accepted
     | B_replace key expected record => replaceable x key expected record
     | _ => True
     end.

Definition awaits (Q : System -> Value -> Prop) (tid : nat) (frames : list Frame) x (v : Value) : Prop :=
  match frames with f :: _ => takes x f tid v | [] => Q x v end.

Fixpoint linked (Q : System -> Value -> Prop) (tid : nat) (frames : list Frame) : Prop :=
  match frames with
  | f :: rest => (forall y v, gives y tid f v -> awaits Q tid rest y v) /\ linked Q tid rest
  | [] => True
  end.

Definition source_ok (P : System -> Value -> Prop) (tid : nat) (source : Source W) x : Prop :=
  match source with
  | Got v => P x v
  | Ask request => request_ok x request /\ forall y v, outcome y tid request v -> P y v
  | AskVerifier _ => forall y v, (v = V_failed \/ exists o, v = V_proven o) -> P y v
  | Joined _ => forall y v, (v = V_failed \/ exists n, v = V_number n) -> P y v
  end.

Record call_ok (Q : System -> Value -> Prop) (tid : nat) x (c : list Frame * Source W) : Prop := mk_call_ok {
  co_linked : linked Q tid c.1;
  co_holds : Forall (holds x) c.1;
  co_source : source_ok (awaits Q tid c.1) tid c.2 x;
}.

(** *** Contracts last *)

Definition lasting (Q : System -> Value -> Prop) : Prop := forall x y v, later x y -> Q x v -> Q y v.

Lemma takes_later tid f : lasting (fun x v => takes x f tid v).
Proof. intros x y v Hl. destruct f, v; cbn; eauto with later. Qed.

Lemma gives_later tid f : lasting (fun x v => gives x tid f v).
Proof.
  intros x y v Hl. destruct f, v; cbn; eauto with later;
    repeat match goal with |- match ?o with _ => _ end -> _ => destruct o end; eauto with later.
  intros (? & ? & ?). eauto with later.
Qed.

Lemma holds_later x y f : later x y -> holds x f -> holds y f.
Proof. intros Hl. destruct f; cbn; rewrite ?(later_durable _ _ Hl); try done. intros [? ?]. eauto with later. Qed.

Lemma awaits_later Q tid frames : lasting Q -> lasting (awaits Q tid frames).
Proof. intros HQ. destruct frames as [|f rest]; [exact HQ | apply (takes_later tid f)]. Qed.

Lemma replaceable_later x y key expected record : later x y -> replaceable x key expected record -> replaceable y key expected record.
Proof. intros Hl (? & ? & r & ? & ? & ?). split_and!; [done..|]. exists r. eauto with later. Qed.

Lemma request_later x y request : later x y -> request_ok x request -> request_ok y request.
Proof.
  intros Hl [Hd Hr]. split; [by rewrite (later_durable _ _ Hl) |]. destruct request; try done. by eapply replaceable_later.
Qed.

Lemma source_later P tid source x y : lasting P -> later x y -> source_ok P tid source x -> source_ok P tid source y.
Proof.
  intros HP Hl. destruct source; cbn; [| done | done | by apply HP].
  intros [? ?]. split; [by eapply request_later | done].
Qed.

Lemma call_later Q tid x y c : lasting Q -> later x y -> call_ok Q tid x c -> call_ok Q tid y c.
Proof.
  intros HQ Hl [H1 H2 H3]. constructor; [done | | by eapply source_later; [apply awaits_later | |]].
  eapply Forall_impl; [exact H2 |]. intros f. by apply holds_later.
Qed.

(** *** Calls compose *)

Lemma linked_app P Q tid fs rest : (forall y v, P y v -> awaits Q tid rest y v) -> linked P tid fs -> linked Q tid rest ->
  linked Q tid (fs ++ rest).
Proof.
  intros HP Hl Hr. induction fs as [|f fs IH]; [done |]. destruct Hl as [Hf Hl]. split; [| by apply IH].
  intros y v Hg. specialize (Hf y v Hg). destruct fs; [by apply HP | exact Hf].
Qed.

Lemma source_impl P Q tid source x : (forall y v, P y v -> Q y v) -> source_ok P tid source x -> source_ok Q tid source x.
Proof.
  intros HP. destruct source; cbn; [intros [? Ho]; split; [done |] | intros Ho | intros Ho | by apply HP]; intros y v Hv; by apply HP, Ho.
Qed.

Lemma call_app P Q tid x fs source rest : (forall y v, P y v -> awaits Q tid rest y v) -> linked Q tid rest -> Forall (holds x) rest ->
  call_ok P tid x (fs, source) -> call_ok Q tid x (fs ++ rest, source).
Proof.
  intros HP Hr Hh [H1 H2 H3]. cbn [fst snd] in *. constructor; cbn [fst snd].
  - by eapply linked_app.
  - by apply Forall_app.
  - eapply source_impl; [| exact H3]. intros y v. destruct fs; [apply HP | done].
Qed.

Lemma call_got Q tid x v : Q x v -> call_ok Q tid x ([], Got v).
Proof. intros Hv. by constructor. Qed.

Lemma call_frame Q tid x f source : (forall y v, gives y tid f v -> Q y v) -> holds x f ->
  source_ok (fun y v => takes y f tid v) tid source x -> call_ok Q tid x ([f], source).
Proof. intros Hg Hh Hs. constructor; [by split | by repeat constructor | exact Hs]. Qed.

Lemma call_impl P Q tid x c : (forall y v, P y v -> Q y v) -> call_ok P tid x c -> call_ok Q tid x c.
Proof.
  intros HP Hc. destruct c as [fs source]. rewrite <- (app_nil_r fs). by eapply call_app.
Qed.

(** ** The methods *)

Lemma committed_ok P tid key x : rb_ok (backend x) -> app_ok (others x) (app x) ->
  (forall y v, (v = V_failed \/ exists o, v = V_found o /\ seen y key o) -> P y v) ->
  source_ok P tid (committed key (app x)) x.
Proof.
  intros Hb Hok HP. unfold committed. destruct (durable (app x)) eqn:Hd.
  - split; [by split |]. intros y v [->|Hv]; apply HP; [by left | right]. destruct v; try done. eauto.
  - apply HP. right. eexists. split; [done |]. unfold committed_entry.
    destruct (jget key (entries (app x))) as [e|] eqn:He; [| done]. destruct (en_record e) eqn:Hr; [| done].
    destruct (ao_entry _ _ Hok key e He) as (Hk & _). split; [done |]. intros _. left. unfold visible, committed_entry.
    by rewrite Hd, He, Hr.
Qed.

Lemma lookup_found_ok x key intent f : seen x key f -> lookup_ok x key intent (lookup_found encodeUtf8 intentDigest key intent f (app x)).
Proof.
  intros Hs. unfold lookup_found. destruct f as [[r|t]|]; cbn [isTombstone receipt_of].
  - assert (HL : lookup_ok x key intent
      (admission_lookup (classifyReceiptAdmission encodeUtf8 key intent (Some r) (zlen (entries (app x))) (operationReceipts (budgets (app x))))
         (Some r))).
    { unfold classifyReceiptAdmission. destruct (_ || _); [done |]. destruct (negb _); [done |].
      destruct (seqb _ _) eqn:E; [| done]. cbn. exists r. split_and!; [done | by apply String.eqb_eq | done]. }
    by destruct (pending key intent (app x)).
  - destruct (seqb _ _) eqn:E; [| done]. cbn. exists t. split; [by apply String.eqb_eq | done].
  - unfold pending. destruct (jget key (entries (app x))) as [e|] eqn:He; [destruct (en_record e); [| by destruct (seqb _ _)] |].
    all: unfold admission_lookup; by destruct (classifyReceiptAdmission _ _ _ _ _ _).
Qed.

Section calls.
Context (tid : nat) (x : System (S := S) (B := B) (W := W)) (Hb : rb_ok (backend x)) (Hok : app_ok (others x) (app x)).

#[local] Abbreviation ends_with f := (fun y v => gives y tid f v).

Lemma lookup_call key intent : call_ok (ends_with (F_lookup key intent)) tid x (lookup encodeUtf8 key intent (app x)).
Proof.
  unfold lookup. destruct (_ || _); [by apply call_got |].
  destruct (pending key intent (app x)) as [k|] eqn:E.
  - apply call_got. unfold pending in E. destruct (jget _ _) as [e|]; [| done]. destruct (en_record e); [done |].
    destruct (seqb _ _); injection E as <-; done.
  - apply call_frame; [done | done |]. apply committed_ok; [done | done |].
    intros y v [->|(o & -> & Hs)]; done.
Qed.

Lemma prepare_call key intent : call_ok (ends_with (F_prepare key intent)) tid x (prepare encodeUtf8 key intent (app x)).
Proof.
  unfold prepare. pose proof (lookup_call key intent) as Hl. destruct (lookup _ _ _ _) as [fs source].
  eapply call_app; [| | | exact Hl]; [| split; [done | done] | by repeat constructor].
  intros y v Hg. by destruct v.
Qed.

Lemma successor_call key next : call_ok (ends_with (F_successor key next)) tid x (successor key next (app x)).
Proof.
  unfold successor. destruct (negb _); [by apply call_got |]. apply call_frame; [done | done |].
  apply committed_ok; [done | done |]. intros y v [->|(o & -> & Hs)]; done.
Qed.

Lemma update_call key next : call_ok (ends_with (F_update key next)) tid x (update key next (app x)).
Proof.
  unfold update. pose proof (successor_call key next) as Hl. destruct (successor _ _ _) as [fs source].
  eapply call_app; [| | | exact Hl]; [| split; [done | done] | by repeat constructor].
  intros y v Hg. by destruct v.
Qed.

Lemma recover_call key expected next : call_ok (ends_with (F_recover key expected next)) tid x (recover key expected next (app x)).
Proof.
  unfold recover. pose proof (successor_call key next) as Hl. destruct (successor _ _ _) as [fs source].
  eapply call_app; [| | | exact Hl]; [| split; [done | done] | by repeat constructor].
  intros y v Hg. by destruct v.
Qed.

Lemma read_call key : call_ok (ends_with (F_read key)) tid x (read key (app x)).
Proof.
  unfold read. destruct (negb _); [by apply call_got |]. apply call_frame; [done | done |].
  apply committed_ok; [done | done |]. intros y v [->|(o & -> & Hs)]; done.
Qed.

Lemma get_call key : call_ok (ends_with (F_get key)) tid x (get key (app x)).
Proof.
  unfold get. pose proof (read_call key) as Hl. destruct (read _ _) as [fs source].
  eapply call_app; [| | | exact Hl]; [| split; [done | done] | by repeat constructor].
  intros y v Hg. by destruct v.
Qed.

(** Frames of [recoverInterrupted]. *)

Definition recovering_value (v : Value) : Prop := match v with V_records _ | V_failed => True | _ => False end.

Definition recovering_frame (f : Frame) : Prop :=
  match f with
  | F_recovering _ _ _ _ _ | F_proven _ _ _ _ _ _ | F_outcome _ _ _ _ => True
  | _ => False
  end.

#[local] Abbreviation recovers := (fun (_ : System) v => recovering_value v).

Lemma await_update_call key next f : recovering_frame f -> call_ok recovers tid x (await_update key next f (app x)).1.
Proof.
  intros Hf. unfold await_update. pose proof (update_call key next) as Hl. destruct (update _ _ _) as [fs source]. cbn [fst].
  eapply call_app; [| | | exact Hl].
  - intros y v Hg. destruct f, v; done.
  - split; [| done]. intros y v Hg. destruct f, v; done.
  - constructor; [by destruct f | done].
Qed.

Lemma verify_call verifiers key record rest verified : call_ok recovers tid x (verify verifiers key record rest verified).
Proof.
  apply call_frame; [intros y []; done | done |]. destruct (verifiers _); [| done]. intros y v [->|[o ->]]; done.
Qed.

Lemma next_receipt_call verifiers rest verified : call_ok recovers tid x (next_receipt verifiers rest verified (app x)).1.
Proof.
  unfold next_receipt. destruct rest as [|r rest]; [by apply call_got |]. cbn [fst].
  apply call_frame; [intros y []; done | done |].
  apply committed_ok; [done | done |]. intros y v [->|(o & -> & Hs)]; done.
Qed.

Lemma found_unfinished_call verifiers key rest verified f :
  call_ok recovers tid x (found_unfinished verifiers key rest verified f (app x)).1.
Proof.
  unfold found_unfinished. destruct (receipt_of f); [| apply next_receipt_call].
  destruct (terminal_state _); [apply next_receipt_call |].
  destruct (bool_decide _); [apply verify_call | by apply await_update_call].
Qed.

Lemma verifier_answer_call verifiers key record rest verified proven :
  call_ok recovers tid x (verifier_answer verifiers key record rest verified proven (app x)).1.
Proof.
  unfold verifier_answer. destruct (disposed _); [by apply call_got |]. by destruct proven; apply await_update_call.
Qed.

Definition pass_value (v : Value) : Prop := match v with V_number _ | V_failed => True | _ => False end.

Lemma next_batch_call now highestRun purged : durable (app x) = true ->
  call_ok (fun _ v => pass_value v) tid x (next_batch now highestRun purged (app x)).
Proof.
  intros Hd. unfold next_batch. destruct (disposed _); [by apply call_got |].
  apply call_frame; [intros y []; done | done |]. split; [by split |]. intros y v [->|Hv]; [done | by destruct v].
Qed.

End calls.

(** ** Turns

    What a synchronous stretch leaves: the object, and what the call goes on
    with. *)

Definition turn_ok (P : System -> Value -> Prop) (tid : nat) x (c : list Frame * Source W * OperationReceipts S) : Prop :=
  app_ok (others x) c.2 /\ app_next (app x) c.2
  /\ forall y, app y = c.2 -> backend y = backend x -> later x y -> call_ok P tid y c.1.

Lemma turn_quiet P tid x c s' : app_ok (others x) (app x) -> quiet (app x) s' -> lasting P -> call_ok P tid x c -> turn_ok P tid x (c, s').
Proof.
  intros Hok Hq HP Hc. split_and!; cbn [fst snd].
  - by eapply receipt_quiet_ok.
  - by apply quiet_next.
  - intros y _ _ Hl. by eapply call_later.
Qed.

Lemma turn_impl P Q tid x c : (forall y v, P y v -> Q y v) -> turn_ok P tid x c -> turn_ok Q tid x c.
Proof. intros HP (? & ? & Hc). split_and!; [done | done |]. intros y Hy Hb Hl. eapply call_impl; [exact HP | auto]. Qed.

Lemma turn_got (P : System -> Value -> Prop) tid x v s' : app_ok (others x) (app x) -> quiet (app x) s' -> lasting P -> P x v ->
  turn_ok P tid x (([], Got v), s').
Proof. intros Hok Hq HP Hv. apply turn_quiet; [done..|]. by apply call_got. Qed.

Section turns.
Context (tid : nat) (x : System (S := S) (B := B) (W := W)) (Hb : rb_ok (backend x)) (Hok : app_ok (others x) (app x)).

#[local] Abbreviation ends_with f := (fun y v => gives y tid f v).

#[local] Ltac refused := apply turn_got; [done | by auto with quiet | apply gives_later | done].

Lemma validate_spec key record s r : validate encodeUtf8 key record s = Some r ->
  r = record /\ OperationRecordSchema r = true /\ op_operationId r = key_operationId key.
Proof. unfold validate. intros (? & ? & ? & _)%checked_record. split_and!; assumption. Qed.

Lemma memory_receipt key e r : durable (app x) = false -> jget key (entries (app x)) = Some e -> en_record e = Some r ->
  stable x = true -> forall stored, seen x key (Some (F_receipt stored)) -> op_revision r = op_revision (st_record stored) ->
  stored = mkStored key (en_intent e) r.
Proof.
  intros Hd He Hr Hst stored [Hk Hs] Hrev. specialize (Hs Hst). cbn in Hk. unfold visible, committed_entry in Hs.
  destruct (ao_entry _ _ Hok key e He) as (Hek & _). rewrite Hd, He, Hr, Hek in Hs.
  apply evolves_revision in Hs as (_ & _ & _ & [Hs|Hs]); [done |]. cbn in Hs. lia.
Qed.

Lemma replace_turn key current next : seen x key (Some (F_receipt current)) -> allowed (st_record current) next ->
  let '(source, s') := replace_with encodeUtf8 current next (app x) in
  turn_ok (ends_with (F_update key next)) tid x (([], source), s').
Proof.
  intros Hs Ha. pose proof Hs as [Hkey _]. cbn in Hkey. unfold replace_with. rewrite Hkey.
  destruct (disposed (app x)) eqn:Hds; [refused |].
  destruct (validate _ _ _ _) as [checked|] eqn:Hv; [| refused].
  apply validate_spec in Hv as (-> & Hsch & Hid). destruct (durable (app x)) eqn:Hd.
  - apply turn_quiet; [done | auto with quiet | apply gives_later |]. constructor; [done | constructor |]. cbn.
    split; [split; [done |] | intros y v [->|Hv]; [done | by destruct v]].
    split_and!; [done | done |]. exists current. done.
  - destruct (jget key (entries (app x))) as [e|] eqn:He; [| refused].
    destruct (en_record e) as [r|] eqn:Hr; [| refused].
    destruct (op_revision r =? _) eqn:Hrev; [| refused].
    apply Z.eqb_eq in Hrev. destruct (ao_entry _ _ Hok key e He) as (Hek & _).
    assert (Hst : stable x = true) by (unfold stable; by rewrite Hd, Hds).
    pose proof (memory_receipt key e r Hd He Hr Hst current Hs Hrev) as ->. cbn in Ha.
    split_and!; cbn [fst snd].
    + by apply set_record_ok.
    + apply set_record_next; [done | done |]. right. unfold committed_entry. rewrite He, Hr, Hek. done.
    + intros y Hy _ _. apply call_got. intros _. exists (mkStored key (en_intent e) next). split; [done |].
      split; [done |]. intros _. left. unfold visible, committed_entry, durable in *. rewrite Hy.
      cbn [set_record options with_entries entries]. rewrite Hd, jget_set, decide_True by done. cbn. by rewrite Hek.
Qed.

Lemma update_turn key next o : stored_ok x key next o ->
  let '(source, s') := update_found encodeUtf8 next o (app x) in
  turn_ok (ends_with (F_update key next)) tid x (([], source), s').
Proof.
  intros Hs. unfold update_found. destruct o as [current|]; [| refused].
  destruct Hs as [Hsucc Hs]. destruct (terminal_state _) eqn:Ht; [refused |].
  apply replace_turn; [done |]. split; [done | by left].
Qed.

Lemma recover_turn key expected next o : stored_ok x key next o ->
  let '(source, s') := recover_found encodeUtf8 expected next o (app x) in
  turn_ok (ends_with (F_recover key expected next)) tid x (([], source), s').
Proof.
  intros Hs. unfold recover_found. destruct o as [current|]; [| refused].
  destruct Hs as [Hsucc Hs]. destruct (_ || _) eqn:Ht; [refused |].
  apply orb_false_iff in Ht as [[Ha%negb_false_iff _]%orb_false_iff Hr%negb_false_iff]. apply bool_decide_eq_true in Ha.
  apply (replace_turn key); [done |]. split; [done | by right].
Qed.

(** The preparation of a reservation. *)

Lemma prepared_turn key intent :
  let '(p, s') := prepared encodeUtf8 key intent (app x) in
  turn_ok (ends_with (F_prepare key intent)) tid x (([], Got (V_preparation p)), s').
Proof.
  destruct (prepared _ _ _ _) as [p s'] eqn:E. destruct (prepared_ok _ _ _ _ _ _ Hok E) as (Hs & Hn & Hp).
  split_and!; [done | done |]. intros y Hy _ _. cbn [fst snd] in *. apply call_got. destruct p as [p|]; [| done].
  destruct Hp as (Hk & Hi & Hlt & Hj & Huniq). split_and!; [| done | done]. split; rewrite Hy; [done |].
  intros key' e Hj' Hid. specialize (Huniq key' e Hj' Hid). subst key'. rewrite Hj in Hj'. injection Hj' as <-. cbn.
  by rewrite Hk, Hi.
Qed.

Lemma current_spec p e : prep_ok x p -> current_entry p (app x) = Some e ->
  jget (p_key p) (entries (app x)) = Some e /\ en_lease e = p_lease p /\ en_intent e = p_intent p /\ en_key e = p_key p.
Proof.
  intros [_ Hp] He. unfold current_entry in He. destruct (jget (p_key p) _) as [e'|] eqn:Hj; [| done].
  destruct (Nat.eqb_spec (en_id e') (p_entry p)) as [Hid|]; [| done]. injection He as <-.
  destruct (Hp _ _ Hj Hid) as (_ & ? & ? & ?). done.
Qed.

Lemma drop_turn p e v P : prep_ok x p -> current_entry p (app x) = Some e -> (durable (app x) = false -> en_record e = None) ->
  lasting P -> P x v -> turn_ok P tid x (([], Got v), drop_entry p (app x)).
Proof.
  intros Hp He Hr HP Hv. apply current_spec in He as (Hj & Hl & _); [| done]. split_and!; cbn [fst snd].
  - by eapply receipt_drop_entry_ok.
  - eapply drop_entry_next; [apply Hok | exact Hj | done].
  - intros y _ _ Hlat. apply call_got. by eapply HP.
Qed.

Lemma commit_turn p record : prep_ok x p ->
  forall y, app y = (commit (W := W) encodeUtf8 p record (app x)).2 -> backend y = backend x ->
  app_ok (others x) (app y) /\ app_next (app x) (app y)
  /\ (later x y -> (forall key, accepts_now (M_commit p record) (commit (W := W) encodeUtf8 p record (app x)).1.2 = Some key ->
                    (tid, key) ∈ accepted y) ->
      call_ok (ends_with (F_commit p)) tid y (commit (W := W) encodeUtf8 p record (app x)).1)
  /\ (forall key, accepts_now (M_commit p record) (commit (W := W) encodeUtf8 p record (app x)).1.2 = Some key ->
        durable (app x) = false /\ disposed (app x) = false /\ visible x key = None /\ visible y key <> None).
Proof.
  intros Hp y Hy Hby. unfold commit in *. destruct (disposed (app x)) eqn:Hds.
  { cbn in Hy |- *. rewrite Hy. split_and!; [done | apply app_next_refl | | done]. intros _ _. by apply call_got. }
  unfold uncommitted in *. destruct (current_entry p (app x)) as [e|] eqn:He.
  2: { cbn in Hy |- *. rewrite Hy. split_and!; [done | apply app_next_refl | | done]. intros _ _. by apply call_got. }
  destruct (en_record e) as [r|] eqn:Hr.
  { cbn in Hy |- *. rewrite Hy. split_and!; [done | apply app_next_refl | | done]. intros _ _. by apply call_got. }
  destruct (current_spec p e Hp He) as (Hj & Hl & Hi & Hk). rewrite Hk in *.
  destruct (validate _ _ _ _) as [checked|] eqn:Hv.
  2: { cbn in Hy |- *. rewrite Hy. split_and!; [done | apply app_next_refl | | done]. intros _ _. by apply call_got. }
  apply validate_spec in Hv as (-> & Hsch & Hid).
  destruct (negb _ || _) eqn:Hacc.
  { cbn in Hy |- *. rewrite Hy. split_and!; [done | apply app_next_refl | | done]. intros _ _. by apply call_got. }
  apply orb_false_iff in Hacc as [Hrev%negb_false_iff Hst%negb_false_iff].
  apply Z.eqb_eq in Hrev. apply bool_decide_eq_true in Hst.
  destruct (durable (app x)) eqn:Hd; cbn [negb] in *; cbn [fst snd] in *.
  - rewrite Hy. split_and!; [done | apply app_next_refl | | done]. intros Hlat _.
    apply call_frame; [done | |].
    + split; [by eapply prep_later | by rewrite (later_durable _ _ Hlat)].
    + cbn. split; [split; [by rewrite (later_durable _ _ Hlat) | done] |].
      intros z v [->|Hv]; [done | by destruct v].
  - rewrite Hy. split_and!.
    + by apply set_record_ok.
    + apply set_record_next; [done | done |]. right. unfold committed_entry. by rewrite Hj, Hr.
    + intros _ Ha. apply call_got. intros _. by apply Ha.
    + intros key [= <-]. split_and!; [done | done | |]; unfold visible, committed_entry, durable in *.
      * by rewrite Hd, Hj, Hr.
      * rewrite Hy. cbn [set_record options with_entries entries]. by rewrite Hd, jget_set, decide_True by done.
Qed.

Lemma committed_turn p inserted : holds x (F_commit p) -> takes x (F_commit p) tid (V_bool inserted) ->
  let '(b, s') := committed_insert p inserted (app x) in turn_ok (ends_with (F_commit p)) tid x (([], Got (V_bool b)), s').
Proof.
  intros [Hp Hd] Ht. unfold committed_insert. destruct (current_entry p (app x)) as [e|] eqn:He; [| refused].
  destruct inserted; [| refused]. eapply drop_turn; [done | done | congruence | apply gives_later | done].
Qed.

Definition recovery_frame (f : Frame) : bool :=
  match f with
  | F_unfinished _ | F_found _ _ _ _ | F_recovering _ _ _ _ _ | F_verified _ _ _ _ _ | F_proven _ _ _ _ _ _ | F_outcome _ _ _ _ => true
  | _ => false
  end.

Lemma lasting_const (P : Value -> Prop) : lasting (fun _ v => P v).
Proof. by intros ? ? ?. Qed.

Lemma next_receipt_quiet verifiers rest verified : quiet (app x) (next_receipt (W := W) verifiers rest verified (app x)).2.
Proof. unfold next_receipt. destruct rest; auto with quiet. Qed.

Lemma found_unfinished_quiet verifiers key rest verified f :
  quiet (app x) (found_unfinished (W := W) verifiers key rest verified f (app x)).2.
Proof.
  unfold found_unfinished, await_update. destruct (receipt_of f); [| apply next_receipt_quiet].
  destruct (terminal_state _); [apply next_receipt_quiet |]. destruct (bool_decide _); [auto with quiet |].
  destruct (update _ _ _). auto with quiet.
Qed.

Lemma verifier_answer_quiet verifiers key record rest verified proven :
  quiet (app x) (verifier_answer (W := W) verifiers key record rest verified proven (app x)).2.
Proof.
  unfold verifier_answer, attention, await_update. destruct (disposed _); [auto with quiet |].
  destruct proven; destruct (update _ _ _); auto with quiet.
Qed.

Lemma turn_of_quiet P c : lasting P -> quiet (app x) c.2 -> call_ok P tid x c.1 -> turn_ok P tid x c.
Proof. destruct c as [c s']. intros HP Hq Hc. by apply turn_quiet. Qed.

Lemma recovery_turn now f v : recovery_frame f = true -> takes x f tid v ->
  turn_ok (fun _ v => recovering_value v) tid x (run_frame encodeUtf8 intentDigest now f v (app x)).
Proof.
  intros Hf Ht. apply turn_of_quiet; [apply lasting_const | |].
  - destruct f; try done; destruct v; try done; cbn [run_frame]; try (by auto with quiet);
      try (destruct b; try (by auto with quiet));
      try first [ apply next_receipt_quiet | apply found_unfinished_quiet | apply verifier_answer_quiet ].
    unfold attention, await_update. destruct (update _ _ _). auto with quiet.
  - destruct f; try done; destruct v; try done; cbn [run_frame]; try (by apply call_got); try destruct b; try (by apply call_got);
      first [ by apply next_receipt_call | by apply found_unfinished_call | by apply verifier_answer_call
            | apply verify_call | idtac ].
    by apply await_update_call.
Qed.

Lemma receipt_pass_turn now f v : match f with F_highest | F_batch _ _ => True | _ => False end -> holds x f -> takes x f tid v ->
  turn_ok (fun _ v => pass_value v) tid x (run_frame encodeUtf8 intentDigest now f v (app x)).
Proof.
  intros Hf Hh Ht. apply turn_of_quiet; [apply lasting_const | |]; destruct f; try done; destruct v; try done; cbn [run_frame];
    try destruct (pb_more _); auto with quiet; try (by apply call_got); by apply next_batch_call.
Qed.

Lemma frame_turn now f v : holds x f -> takes x f tid v ->
  turn_ok (ends_with f) tid x (run_frame encodeUtf8 intentDigest now f v (app x)).
Proof.
  intros Hh Ht. destruct (recovery_frame f) eqn:Hrec.
  { eapply turn_impl; [| by apply recovery_turn]. intros y w Hw. by destruct f, w. }
  destruct f; try done; try (eapply turn_impl; [| by apply receipt_pass_turn]; intros y w Hw; by destruct w);
    destruct v; try done; cbn [run_frame]; try refused.
  - apply turn_got; [done | auto with quiet | apply gives_later |]. by apply lookup_found_ok.
  - destruct l; try refused. pose proof (prepared_turn key canonicalIntent) as H'. by destruct (prepared _ _ _ _).
  - pose proof (committed_turn p b Hh Ht) as H'. by destruct (committed_insert _ _ _).
  - apply turn_got; [done | auto with quiet | apply gives_later |]. cbn. unfold successor_found.
    destruct f as [[r|]|]; [| done | done]. cbn. by destruct (is_successor _ _) eqn:E.
  - pose proof (update_turn key next s Ht) as H'. by destruct (update_found _ _ _ _).
  - pose proof (recover_turn key expectedRevision next s Ht) as H'. by destruct (recover_found _ _ _ _ _).
  - apply turn_got; [done | auto with quiet | apply gives_later |]. cbn. unfold read_found.
    destruct f as [[r|t]|]; [by exists r | by exists t | done].
  - apply turn_got; [done | auto with quiet | apply gives_later |]. cbn. destruct r; done.
  - apply turn_got; [done | | apply gives_later | done]. case_bool_decide; auto with quiet.
  - apply turn_got; [done | | apply gives_later | done]. case_bool_decide; auto with quiet.
Qed.

(** The result of a method. *)

Definition outer (m : Method (W := W)) : Frame :=
  match m with
  | M_lookup key intent => F_lookup key intent
  | M_prepare key intent => F_prepare key intent
  | M_commit p _ => F_commit p
  | M_update key next => F_update key next
  | M_recover key expected next => F_recover key expected next
  | M_get key => F_get key
  | M_read key => F_read key
  | M_recoverInterrupted verifiers => F_unfinished verifiers
  | M_write _ | M_purgeExpired | M_retentionPass => F_pass 0
  | M_timer timer => F_timer timer
  end.

Definition settles y (tid' : nat) (m : Method (W := W)) (v : Value) : Prop :=
  match m with
  | M_write request => v = V_failed \/ exists w, v = V_written w /\ written_ok y tid' (dw_key request) w
  | _ => gives y tid' (outer m) v
  end.

Lemma result_later tid' m : lasting (fun y v => settles y tid' m v).
Proof.
  intros y z v Hl. destruct m; try apply (gives_later tid' (outer _) y z v Hl).
  cbn. intros [->|(w & -> & Hw)]; [by left | right]. eauto with later.
Qed.

Lemma write_call request : call_ok (fun y v => settles y tid (M_write request) v) tid x (write request (app x)).
Proof.
  unfold write. destruct (negb _ || _) eqn:E; [apply call_got; right; by eexists |].
  apply orb_false_iff in E as [Hd%negb_false_iff _]. constructor; [done | constructor |]. cbn.
  split; [by split |]. intros y v [->|Hv]; [by left | right]. destruct v; try done. eauto.
Qed.

Lemma recoverInterrupted_call verifiers :
  call_ok (ends_with (F_unfinished verifiers)) tid x (recoverInterrupted verifiers (app x)).
Proof.
  unfold recoverInterrupted. destruct (_ || _) eqn:E; [by apply call_got |].
  apply orb_false_iff in E as [Hd%negb_false_iff _]. apply call_frame; [done | done |].
  split; [by split |]. intros y v [->|Hv]; [done | by destruct v].
Qed.

Lemma start_turn m : (match m with M_commit p _ => prep_ok x p | _ => True end) ->
  forall y, app y = (start (encodeUtf8 := encodeUtf8) m (app x)).2 -> backend y = backend x ->
  let c := (start (encodeUtf8 := encodeUtf8) m (app x)).1 in
  app_ok (others x) (app y) /\ app_next (app x) (app y)
  /\ (later x y -> (forall key, accepts_now m c.2 = Some key -> (tid, key) ∈ accepted y) ->
      match m with M_purgeExpired | M_retentionPass | M_timer _ => False | _ => True end ->
      call_ok (fun z v => settles z tid m v) tid y c)
  /\ (forall key, accepts_now m c.2 = Some key ->
        durable (app x) = false /\ disposed (app x) = false /\ visible x key = None /\ visible y key <> None).
Proof.
  intros Hm y Hy Hby. destruct m.
  3: { destruct (commit_turn p record Hm y Hy Hby) as (H1 & H2 & H3 & H4). split_and!; auto. }
  all: cbn [start fst snd] in *; rewrite Hy; split_and!; [done | apply app_next_refl | | done]; intros Hl _ Hex; try done.
  all: eapply call_later; [apply (result_later tid) | exact Hl |].
  - apply lookup_call; done.
  - apply prepare_call; done.
  - apply update_call; done.
  - apply recover_call; done.
  - apply write_call.
  - apply get_call; done.
  - apply read_call; done.
  - apply recoverInterrupted_call.
Qed.

(** The pass a timer or a caller joins. *)

Lemma purgeExpired_turn now :
  let '(source, pass, s') := purgeExpired (W := W) now (app x) in
  (exists pass, source = Joined pass)
  /\ match pass with Some c => call_ok (fun _ v => pass_value v) tid x c | None => True end.
Proof.
  unfold purgeExpired. destruct (retentionPass (app x)) as [pass|]; [by eauto |]. cbn [fresh].
  set (s1 := mkReceipts _ _ _ _ _ _ _ _ _).
  assert (Hr : call_ok (fun _ v => pass_value v) tid x (runRetentionPass now s1)).
  { unfold runRetentionPass. change (durable s1) with (durable (app x)). change (disposed s1) with (disposed (app x)).
    destruct (negb _ || _) eqn:E; [by apply call_got |].
    apply orb_false_iff in E as [Hd%negb_false_iff _]. apply andb_true_iff in Hd as [Hd _].
    destruct (o_highestRun _).
    - apply call_frame; [intros y []; done | done |]. split; [by split |]. intros y v [->|Hv]; [done | by destruct v].
    - apply (next_batch_call tid x now 0 0 Hd). }
  destruct (runRetentionPass now s1) as [fs source]. split; [by eauto |].
  eapply call_app; [| | | exact Hr]; [intros y []; done | | by repeat constructor].
  split; [| done]. intros y []; done.
Qed.

End turns.

End contracts.
