(* ===== verification/ReceiptInvariant.v ===== *)
(** * What holds of receipts in every reachable state

    The requests a call may ask, what they answer and leave, and the invariant
    of the system of ReceiptSystem.v, kept by every step. *)

From S2P Require Import Prelude Json Protocol Errors Pipe Operations JsMap LeaseAccount.
From S2P Require Import StoreTables ReceiptStore ReceiptSafety ReceiptRetention ReceiptBackend OperationReceipts ReceiptSystem ReceiptContracts.

Section invariant.
Context {S : Type} `{LeaseAccount S} {B W : Type} {encodeUtf8 : string -> list Z} {intentDigest : string -> string}
  `{RB : !ReceiptBackend B W encodeUtf8 intentDigest}.
Implicit Types (s : OperationReceipts S) (x y : System (S := S) (B := B) (W := W)) (key : OperationReceiptKey) (p : Preparation).

#[local] Abbreviation life := (life (intentDigest := intentDigest)).
#[local] Abbreviation app_next := (app_next (intentDigest := intentDigest)).
#[local] Abbreviation app_ok := (app_ok (encodeUtf8 := encodeUtf8)).

(** ** Requests *)

Lemma view_visible x key : durable (app x) = true -> visible x key = rb_view (backend x) key.
Proof. unfold visible. by intros ->. Qed.

Lemma seen_view x key f : durable (app x) = true -> rb_ok (backend x) -> rb_view (backend x) key = f -> seen x key f.
Proof.
  intros Hd Hb <-. destruct (rb_view (backend x) key) as [g|] eqn:E; [| done]. split.
  - destruct g as [r|t]; [| done]. exact (rb_view_key (backend x) key r Hb E).
  - intros _. left. by rewrite view_visible.
Qed.

Definition keeps (request : BackendRequest W) : option Found -> option Found -> Prop :=
  match request with B_write _ _ => evolves intentDigest | _ => life end.

Lemma receipt_keeps_refl request a : keeps request a a.
Proof. destruct request; first [by left | reflexivity]. Qed.

Lemma keeps_evolves request a b : keeps request a b -> evolves intentDigest a b.
Proof. destruct request; first [apply life_evolves | done]. Qed.

Definition exec_ok (tid : nat) x (request : BackendRequest W) (answer : option BackendAnswer) (b : B) : Prop :=
  rb_ok b
  /\ (forall key, keeps request (rb_view (backend x) key) (rb_view b key))
  /\ (forall key, accepts request answer = Some key -> rb_view (backend x) key = None /\ rb_view b key <> None)
  /\ forall y, app y = app x -> backend y = b -> (forall key, accepts request answer = Some key -> (tid, key) ∈ accepted y) ->
       outcome y tid request (value_of answer).

Section exec.
Context (tid : nat) (x : System (S := S) (B := B) (W := W)) (Hb : rb_ok (backend x)) (Hd : durable (app x) = true).

Lemma exec_same request answer : accepts request answer = None ->
  (forall y, app y = app x -> backend y = backend x -> outcome y tid request (value_of answer)) ->
  exec_ok tid x request answer (backend x).
Proof.
  intros Ha Ho. split_and!; [done | intros; apply receipt_keeps_refl | by rewrite Ha |]. intros y Hy Hby _. by apply Ho.
Qed.

Lemma exec_insert at_ stored : insertable stored -> op_revision (st_record stored) = 0 -> op_state (st_record stored) = os_accepted ->
  let '(answer, b) := rb_run at_ (B_insert stored) (backend x) in exec_ok tid x (B_insert stored) answer b.
Proof.
  intros Hi Hrev Hst. pose proof (rb_insert_ok at_ stored (backend x) Hb Hi) as H'. destruct (rb_run _ _ _) as [answer b].
  destruct H' as (Hb' & [(-> & Hnone & Hv)|(-> & Ha & Hv)]).
  - split_and!; [done | | |].
    + intros key. rewrite Hv. case_decide as Hk; [| by left]. subst key. right. by rewrite Hnone.
    + intros key [= <-]. split; [done |]. rewrite Hv. by rewrite decide_True.
    + intros y _ _ Hacc. right. intros _. by apply Hacc.
  - apply exec_same; [by destruct Ha as [->| ->] |]. intros y _ _. destruct Ha as [->| ->]; [by right | by left].
Qed.

Lemma exec_replace at_ key expected record : replaceable x key expected record ->
  let '(answer, b) := rb_run at_ (B_replace key expected record) (backend x) in
  exec_ok tid x (B_replace key expected record) answer b.
Proof.
  intros (Hsch & Hid & r0 & Hrev & Ha & Hseen).
  assert (Hcur : forall r, rb_view (backend x) key = Some (F_receipt r) -> revision_of r = expected -> r = r0).
  { intros r Hr Hrr. destruct Hseen as [_ Hs]. rewrite view_visible, Hr in Hs by done.
    specialize (Hs ltac:(unfold stable; by rewrite Hd)). apply evolves_revision in Hs as (_ & _ & _ & [?|?]); [done |].
    unfold revision_of in *. lia. }
  opose proof (rb_replace_ok at_ key expected record (backend x) Hb Hsch Hid _) as H'.
  { intros r Hr Hrr. rewrite (Hcur r Hr Hrr). destruct Ha as [Hs _]. by apply is_successor_spec in Hs as (_ & ? & _). }
  destruct (rb_run _ _ _) as [answer b]. destruct H' as (Hb' & [(r & -> & Hr & Hrr & Hv)|(-> & -> & _)]).
  - pose proof (Hcur r Hr Hrr) as ->. pose proof (rb_view_key _ _ _ Hb Hr) as Hk. split_and!; [done | | done |].
    + intros k. rewrite Hv. case_decide as Hkk; [| by left]. subst k. right. by rewrite Hr.
    + intros y Hy Hby _. right. intros _. exists (mkStored key (st_canonicalIntent r0) record). split; [done |].
      apply seen_view; [by rewrite Hy | by rewrite Hby |]. rewrite Hby, Hv. by rewrite decide_True.
  - apply exec_same; [done |]. intros y _ _. by right.
Qed.

Lemma exec_write at_ request limits :
  let '(answer, b) := rb_run at_ (B_write request limits) (backend x) in exec_ok tid x (B_write request limits) answer b.
Proof.
  pose proof (rb_write_ok at_ request limits (backend x) Hb) as H'. destruct (rb_run _ _ _) as [answer b].
  destruct H' as (Hb' & Hev & [(r & -> & Hnone & Hv)|(-> & Ha)]).
  - split_and!; [done | done | |].
    + intros key [= <-]. split; [done |]. by rewrite Hv.
    + intros y Hy Hby Hacc. right. split; [by apply Hacc |]. exists (mkStored (dw_key request) (dw_canonicalIntent request) r).
      split; [done |]. apply seen_view; [by rewrite Hy | by rewrite Hby |]. by rewrite Hby.
  - destruct Ha as [->|(w & -> & Hw)].
    + apply exec_same; [done |]. intros y _ _. by left.
    + apply exec_same; [| intros y _ _; right]; destruct w as [o []| |]; try done; by destruct (Hw o).
Qed.

Lemma exec_request at_ request answer b : request_ok x request -> rb_run at_ request (backend x) = (answer, b) ->
  exec_ok tid x request answer b.
Proof.
  intros [_ Hr] E. destruct request.
  - rewrite rb_get_ok in E by done. injection E as <- <-. apply exec_same; [done |]. intros y Hy Hby. right.
    apply seen_view; [by rewrite Hy | by rewrite Hby | by rewrite Hby].
  - destruct Hr as (? & ? & ?). pose proof (exec_insert at_ stored) as H'. rewrite E in H'. by apply H'.
  - pose proof (exec_replace at_ key expectedRevision record Hr) as H'. by rewrite E in H'.
  - destruct (rb_unfinished_ok at_ (backend x) Hb) as (l & Hl & _). rewrite Hl in E. injection E as <- <-.
    apply exec_same; [done |]. intros y _ _. by right.
  - pose proof (rb_purge_ok at_ args (backend x) Hb) as H'. rewrite E in H'. destruct H' as (Hb' & Hk & Ha).
    split_and!; [done | | by destruct Ha as [->|[? ->]] |].
    + intros key. destruct (Hk key) as [->|(r & t & -> & He & -> & Hev)]; [by left | right]. split; [done |].
      by destruct Hev as [|Hev].
    + intros y _ _ _. destruct Ha as [->|[batch ->]]; [by left | by right].
  - destruct (rb_highestRun_ok at_ (backend x) Hb) as (n & Hn). rewrite Hn in E. injection E as <- <-.
    apply exec_same; [done |]. intros y _ _. by right.
  - pose proof (exec_write at_ request limits) as H'. by rewrite E in H'.
Qed.

End exec.

(** ** The invariant of the system *)

Definition task_ok x (tid : nat) (t : Task (W := W)) : Prop :=
  call_ok (fun y v => settles y tid (tk_method t) v) tid x (tk_frames t, tk_source t).

Record sys_ok x : Prop := mk_sys_ok {
  so_app : app_ok (others x) (app x);
  so_backend : rb_ok (backend x);
  so_tasks : forall tid t, tasks x !! tid = Some t -> task_ok x tid t;
  so_results : forall tid m v, (tid, m, v) ∈ results x -> settles x tid m v;
  so_once : NoDup (accepted x).*2;
  so_used : forall tid key, (tid, key) ∈ accepted x -> stable x = true -> visible x key <> None;
}.

(** What a step may accept. *)

Definition accepting x y : Prop :=
  accepted y = accepted x
  \/ exists tid key, accepted y = (tid, key) :: accepted x /\ stable x = true /\ visible x key = None /\ visible y key <> None.

Lemma accepting_mono x y : accepting x y -> forall a, a ∈ accepted x -> a ∈ accepted y.
Proof. intros [->|(tid & key & -> & _)] a Ha; [done | by right]. Qed.

Lemma task_later x y tid t : later x y -> task_ok x tid t -> task_ok y tid t.
Proof. intros Hl. apply call_later; [apply result_later | done]. Qed.

Lemma sys_next x y : sys_ok x -> later x y -> app_ok (others y) (app y) -> rb_ok (backend y) -> accepting x y ->
  (forall tid t, tasks y !! tid = Some t -> tasks x !! tid = Some t \/ task_ok y tid t) ->
  (forall tid m v, (tid, m, v) ∈ results y -> (tid, m, v) ∈ results x \/ settles y tid m v) ->
  sys_ok y.
Proof.
  intros [H1 H2 H3 H4 H5 H6] Hl Happ Hback Hacc Htasks Hres. constructor; [done | done | | | |].
  - intros tid t Ht. destruct (Htasks tid t Ht) as [Hx|?]; [| done]. eapply task_later; eauto.
  - intros tid m v Hr. destruct (Hres tid m v Hr) as [Hx|?]; [| done]. eapply (result_later tid m); eauto.
  - destruct Hacc as [->|(tid & key & -> & Hst & Hnone & _)]; [done |]. cbn. constructor; [| done].
    intros ([tid' key'] & -> & Hin)%list_elem_of_fmap. by apply (H6 tid' key').
  - intros tid key Hin Hst. assert (Hold : (tid, key) ∈ accepted x -> visible y key <> None).
    { intros Hx. eapply evolves_used; [by apply (lt_visible _ _ Hl) |]. apply (H6 tid); [done | by eapply later_stable]. }
    destruct Hacc as [Ha|(tid' & key' & Ha & _ & _ & Hu)]; rewrite Ha in Hin; [by apply Hold |].
    apply elem_of_cons in Hin as [[= -> ->]|Hin]; [done | by apply Hold].
Qed.

(** One task changes. *)

Lemma lookup_put (ts : gmap nat (Task (W := W))) tid t y :
  forall tid' t', <[tid := t]> ts !! tid' = Some t' -> task_ok y tid t -> ts !! tid' = Some t' \/ task_ok y tid' t'.
Proof.
  intros tid' t' [[<- <-]|[_ Ht]]%lookup_insert_Some Hok; [by right | by left].
Qed.

Lemma sys_app x s' : sys_ok x -> app_ok (others x) s' -> app_next (app x) s' -> sys_ok (with_app s' x) /\ later x (with_app s' x).
Proof.
  intros Hx Hs Hn. assert (Hl : later x (with_app s' x)) by by apply later_app.
  split; [| done]. eapply sys_next; [done | done | done | apply Hx | by left | by left | by left].
Qed.

Lemma sys_put x tid t : sys_ok x -> task_ok x tid t -> sys_ok (put_task tid t x) /\ later x (put_task tid t x).
Proof.
  intros Hx Ht. assert (Hl : later x (put_task tid t x)) by by apply later_app; [apply app_next_refl | |].
  split; [| done]. eapply sys_next; [done | done | apply Hx | apply Hx | by left | | by left].
  intros tid' t' H'. cbn in H'. by eapply lookup_put; [exact H' | eapply task_later].
Qed.

Lemma sys_add x tid t pass : sys_ok x -> task_ok x tid t ->
  match pass with Some (tid', c) => task_ok x tid' (mkTask M_retentionPass c.1 c.2) | None => True end ->
  sys_ok (add_calls tid t pass x).
Proof.
  intros Hx Ht Hp. destruct (sys_put x tid t Hx Ht) as [Hy Hl]. destruct pass as [[tid' [fs source]]|]; [| exact Hy].
  cbn [add_calls]. apply sys_put; [done |]. by eapply task_later.
Qed.

(** Ending a pass answers the calls that joined it. *)

Lemma receipt_settle_ok x tid pass v t : (v = V_failed \/ exists n, v = V_number n) -> task_ok x tid t -> task_ok x tid (settle_pass pass v t).
Proof.
  intros Hv Ht. unfold settle_pass. destruct t as [m fs source]. cbn [tk_source tk_method tk_frames].
  destruct source as [| |p|]; try done. destruct (Nat.eqb _ _); [| done].
  destruct Ht as [H1 H2 H3]. constructor; [done | done |]. by apply H3.
Qed.

Lemma sys_settle x f v tid : sys_ok x -> holds x f -> takes x f tid v -> sys_ok (settle_joined f v x) /\ later x (settle_joined f v x).
Proof.
  intros Hx _ Ht. assert (Hl : later x (settle_joined f v x)) by (apply later_app; [destruct f; apply app_next_refl | by destruct f | by destruct f]).
  split; [| done]. destruct f; try done. cbn [settle_joined] in *.
  eapply sys_next; [done | done | apply Hx | apply Hx | by left | | by left].
  intros tid' t' H'. cbn in H'. rewrite lookup_fmap in H'. destruct (tasks x !! tid') as [t|] eqn:E; [| done]. injection H' as <-.
  right. apply receipt_settle_ok; [cbn in Ht; destruct v; try done; [right; by eexists | by left] |].
  eapply task_later; [exact Hl |]. by apply (so_tasks x Hx).
Qed.

(** ** Every step keeps it *)

Definition event_life (e : Event) : option Found -> option Found -> Prop :=
  match e with E_progress => life | E_write => evolves intentDigest end.

Definition step_ok (e : Event) x y : Prop :=
  sys_ok y /\ later x y /\ accepting x y
  /\ (stable y = true -> forall key, event_life e (visible x key) (visible y key)).

Lemma life_app x y : app_next (app x) (app y) -> backend y = backend x -> stable y = true ->
  forall key, life (visible x key) (visible y key).
Proof.
  intros [Ho _ _ _ Hv] Hb Hst key. unfold visible, stable, durable in *. rewrite Ho, Hb in *. destruct (o_durable _); [by left |].
  apply Hv; [done |]. by apply negb_true_iff.
Qed.

Lemma life_same x y : (forall key, visible y key = visible x key) -> forall key, life (visible x key) (visible y key).
Proof. intros Hv key. left. by rewrite Hv. Qed.

(** A step of the object alone: the state it leaves, then the bookkeeping of the tasks. *)

Lemma step_of_app x y s' : sys_ok x -> app_next (app x) s' -> later x y -> sys_ok y -> app y = s' -> backend y = backend x ->
  accepted y = accepted x -> step_ok E_progress x y.
Proof.
  intros Hx Hn Hl Hy Happ Hb Ha. split_and!; [done | done | by left |]. intros Hst. apply life_app; by rewrite ?Happ.
Qed.

Lemma prep_known x tid m p : sys_ok x -> (tid, m, V_preparation (Some p)) ∈ results x -> prep_ok x p.
Proof. intros Hx Hin. pose proof (so_results x Hx tid m _ Hin) as Hr. destruct m; try done; [apply Hr |]. by destruct Hr as [|(? & ? & _)]. Qed.

Lemma call_step x m tid fs source s' : sys_ok x ->
  match m with
  | M_commit p _ => exists tid' m', (tid', m', V_preparation (Some p)) ∈ results x
  | M_purgeExpired | M_retentionPass | M_timer _ => False
  | _ => True
  end ->
  start (encodeUtf8 := encodeUtf8) m (app x) = (fs, source, s') ->
  step_ok E_progress x (log_accepted tid (accepts_now m source) (put_task tid (mkTask m fs source) (with_app s' x))).
Proof.
  intros Hx Hm E. set (y := log_accepted _ _ _).
  assert (Hp : match m with M_commit p _ => prep_ok x p | _ => True end).
  { destruct m; try done. destruct Hm as (tid' & m' & Hin). by eapply prep_known. }
  pose proof (start_turn tid x (so_backend x Hx) (so_app x Hx) m Hp y) as H'. rewrite E in H'. cbn [fst snd] in H'.
  specialize (H' eq_refl eq_refl). destruct H' as (Hok & Hn & Hcall & Hacc). cbn [accepted log_accepted put_task with_app] in Hcall.
  assert (Hay : accepting x y).
  { unfold accepting. subst y. cbn [accepted log_accepted put_task with_app]. destruct (accepts_now m source) as [key|]; [right | by left].
    destruct (Hacc key eq_refl) as (Hd & Hds & Hnone & Hu). exists tid, key. split_and!; [done | | done | done].
    unfold stable. by rewrite Hd, Hds. }
  assert (Hl : later x y) by (apply later_app; [done | done | by apply accepting_mono]).
  split_and!; [| done | done | intros Hst; by apply life_app].
  eapply sys_next; [done | done | done | apply Hx | done | | by left].
  intros tid' t' H'. cbn [tasks log_accepted put_task with_app y] in H'. apply lookup_insert_Some in H' as [[<- <-]|[_ H']]; [right | by left].
  apply Hcall; [done | | by destruct m]. intros key Hk. subst y. cbn [accepted log_accepted]. rewrite Hk. left.
Qed.

Definition joins (m : Method (W := W)) (fs : list Frame) : Prop :=
  match m, fs with
  | M_purgeExpired, [] => True
  | M_timer timer, [F_timer timer'] => timer = timer'
  | _, _ => False
  end.

Lemma joined_task x tid m fs pass : joins m fs -> task_ok x tid (mkTask m fs (Joined pass)).
Proof.
  intros Hj. destruct m; try done; [destruct fs; [| done] | destruct fs as [|[] [|]]; try done; cbn in Hj; subst].
  - constructor; [done | constructor |]. intros y v [->|[n ->]]; done.
  - constructor; [split; [done | done] | by repeat constructor |]. intros y v [->|[n ->]]; done.
Qed.

Lemma purge_step x tid tid' now m fs source pass s0 s' : sys_ok x -> quiet (app x) s0 -> joins m fs ->
  purgeExpired now s0 = (source, pass, s') ->
  step_ok E_progress x (add_calls tid (mkTask m fs source) ((fun c => (tid', c)) <$> pass) (with_app s' x)).
Proof.
  intros Hx Hq Hj E. assert (Hq' : quiet (app x) s').
  { eapply quiet_trans; [exact Hq |]. pose proof (quiet_purge (W := W) now s0) as H'. by rewrite E in H'. }
  destruct (sys_app x s0 Hx) as [Hx0 Hl0]; [by eapply receipt_quiet_ok, Hx | by apply quiet_next |].
  destruct (sys_app x s' Hx) as [Hx' Hl']; [by eapply receipt_quiet_ok, Hx | by apply quiet_next |].
  pose proof (purgeExpired_turn tid' (with_app s0 x) now) as Hp.
  cbn [app with_app] in Hp. rewrite E in Hp. destruct Hp as [[ps ->] Hp].
  set (y := add_calls _ _ _ _).
  assert (Hy : sys_ok y).
  { apply sys_add; [done | by apply joined_task |]. destruct pass as [c|]; [| done]. cbn.
    assert (Hc : call_ok (fun z v => settles z tid' M_retentionPass v) tid' (with_app s0 x) c).
    { eapply call_impl; [| exact Hp]. intros z v Hv. by destruct v. }
    destruct c as [fs' src']. cbn [fst snd]. eapply call_later; [apply (result_later tid') | | exact Hc].
    apply later_app; [| done | done]. apply quiet_next. pose proof (quiet_purge (W := W) now s0) as H'. by rewrite E in H'. }
  assert (Hsame : app y = s' /\ backend y = backend x /\ accepted y = accepted x).
  { subst y. destruct pass as [[? ?]|]; done. }
  destruct Hsame as (Happ & Hby & Hacc). eapply (step_of_app x y s'); try done; [by apply quiet_next |].
  apply later_app; [rewrite Happ; by apply quiet_next | done | by rewrite Hacc].
Qed.

Lemma turn_step x tid now m f fs v fs' source s' : sys_ok x -> tasks x !! tid = Some (mkTask m (f :: fs) (Got v)) ->
  run_frame encodeUtf8 intentDigest now f v (app x) = (fs', source, s') ->
  step_ok E_progress x (settle_joined f v (put_task tid (mkTask m (fs' ++ fs) source) (with_app s' x))).
Proof.
  intros Hx Ht E. pose proof (so_tasks x Hx tid _ Ht) as [Hlink Hhold Hsrc]. cbn [tk_method tk_frames tk_source fst snd] in *.
  apply Forall_cons in Hhold as [Hh Hhold]. destruct Hlink as [Hg Hlink]. cbn in Hsrc.
  pose proof (frame_turn tid x (so_backend x Hx) (so_app x Hx) now f v Hh Hsrc) as H'. rewrite E in H'.
  destruct H' as (Hok & Hn & Hcall). cbn [fst snd] in *.
  destruct (sys_app x s' Hx Hok Hn) as [Hx' Hl'].
  specialize (Hcall (with_app s' x) eq_refl eq_refl Hl').
  assert (Ht' : task_ok (with_app s' x) tid (mkTask m (fs' ++ fs) source)).
  { eapply call_app; [exact Hg | exact Hlink | | exact Hcall].
    eapply Forall_impl; [exact Hhold |]. intros g. by apply holds_later. }
  destruct (sys_put _ tid _ Hx' Ht') as [Hy Hl2]. set (y := put_task _ _ _) in *.
  assert (Hly : later x y) by (apply later_app; done).
  destruct (sys_settle y f v tid Hy) as [Hz Hlz]; [by eapply holds_later | by eapply (takes_later tid f) |].
  set (z := settle_joined f v y) in *. assert (Hsame : app z = s' /\ backend z = backend x /\ accepted z = accepted x) by by destruct f.
  destruct Hsame as (Happ & Hbz & Hacc). eapply (step_of_app x z s'); try done. apply later_app; [by rewrite Happ | done | by rewrite Hacc].
Qed.

Lemma exec_step x tid at_ m fs request answer b lost : sys_ok x -> tasks x !! tid = Some (mkTask m fs (Ask request)) ->
  rb_run at_ request (backend x) = (answer, b) ->
  step_ok (event_of request) x
    (log_accepted tid (accepts request answer)
       (put_task tid (mkTask m fs (Got (if lost : bool then V_failed else value_of answer))) (with_backend b x))).
Proof.
  intros Hx Ht E. pose proof (so_tasks x Hx tid _ Ht) as [Hlink Hhold Hsrc]. cbn [tk_method tk_frames tk_source fst snd] in *.
  cbn in Hsrc. destruct Hsrc as [Hreq Hout]. pose proof (proj1 Hreq) as Hd.
  destruct (exec_request tid x (so_backend x Hx) Hd at_ request answer b Hreq E) as (Hb & Hkeep & Hacc & Ho).
  set (y := log_accepted _ _ _). assert (Hvis : forall key, visible y key = rb_view b key) by (intros key; by apply view_visible).
  assert (Hay : accepting x y).
  { unfold accepting. subst y. cbn [accepted log_accepted put_task with_backend].
    destruct (accepts request answer) as [key|]; [right | by left].
    destruct (Hacc key eq_refl) as (Hnone & Hu). exists tid, key. split_and!; [done | | | by rewrite Hvis].
    - unfold stable. by rewrite Hd.
    - by rewrite view_visible. }
  assert (Hl : later x y).
  { apply later_backend; [done | | by apply accepting_mono]. intros key. eapply keeps_evolves, Hkeep. }
  split_and!; [| done | done |].
  - eapply sys_next; [done | done | apply Hx | done | done | | by left].
    intros tid' t' H'. cbn [tasks log_accepted put_task with_backend y] in H'. apply lookup_insert_Some in H' as [[<- <-]|[_ H']]; [right | by left].
    constructor; cbn [fst snd tk_frames tk_source tk_method]; [done | eapply Forall_impl; [exact Hhold | intros g; by apply holds_later] |].
    apply (Hout y). destruct lost; [by left |]. apply Ho; [done | done |].
    intros key Hk. subst y. cbn [accepted log_accepted]. rewrite Hk. left.
  - intros _ key. rewrite Hvis, view_visible by done. specialize (Hkeep key). by destruct request.
Qed.

Lemma receipt_answer_step x tid m fs source v : sys_ok x -> tasks x !! tid = Some (mkTask m fs source) ->
  (forall y P, source_ok P tid source y -> P y v) ->
  step_ok E_progress x (put_task tid (mkTask m fs (Got v)) x).
Proof.
  intros Hx Ht Hv. pose proof (so_tasks x Hx tid _ Ht) as [Hlink Hhold Hsrc]. cbn [tk_method tk_frames tk_source fst snd] in *.
  destruct (sys_put x tid (mkTask m fs (Got v)) Hx) as [Hy Hl].
  { constructor; [done | done |]. cbn. by apply Hv. }
  eapply (step_of_app x _ (app x)); try done. apply app_next_refl.
Qed.

Lemma app_step x s' : sys_ok x -> app_ok (others x) s' -> app_next (app x) s' -> step_ok E_progress x (with_app s' x).
Proof. intros Hx Hs Hn. destruct (sys_app x s' Hx Hs Hn) as [Hy Hl]. by apply (step_of_app x _ s'). Qed.

Lemma cancel_step x p : sys_ok x -> prep_ok x p -> step_ok E_progress x (with_app (cancel p (app x)) x).
Proof.
  intros Hx Hp. unfold cancel, uncommitted. destruct (current_entry p (app x)) as [e|] eqn:He.
  2: { apply app_step; [done | apply Hx | apply app_next_refl]. }
  destruct (en_record e) eqn:Hr; [apply app_step; [done | apply Hx | apply app_next_refl] |].
  destruct (current_spec x p e Hp He) as (Hj & Hl & _). apply app_step; [done | |].
  - eapply receipt_drop_entry_ok; [apply Hx | exact Hj | done].
  - eapply drop_entry_next; [apply Hx | exact Hj | done].
Qed.

Lemma return_step x tid m v : sys_ok x -> tasks x !! tid = Some (mkTask m [] (Got v)) ->
  step_ok E_progress x (mkSystem (app x) (delete tid (tasks x)) (backend x) ((tid, m, v) :: results x) (accepted x) (others x)).
Proof.
  intros Hx Ht. set (y := mkSystem _ _ _ _ _ _). assert (Hl : later x y) by (apply later_app; [apply app_next_refl | done | done]).
  eapply (step_of_app x y (app x)); try done; [apply app_next_refl |].
  eapply sys_next; [done | done | apply Hx | apply Hx | by left | |].
  - intros tid' t' H'. left. cbn in H'. by apply lookup_delete_Some in H' as [_ ?].
  - intros tid' m' v' [[= -> -> ->]|Hin]%elem_of_cons; [right | by left].
    destruct (so_tasks x Hx tid _ Ht) as [_ _ Hv]. by eapply (result_later tid m).
Qed.

Lemma account_step x a : sys_ok x -> la_ok a ->
  (forall l n, (l, n) ∈ leases (encodeUtf8 := encodeUtf8) (app x) -> la_charge a l = la_charge (account (app x)) l) ->
  step_ok E_progress x
    (mkSystem (with_entries (entries (app x)) a (app x)) (tasks x) (backend x) (results x) (accepted x)
       (others x + (la_used a - la_used (account (app x))))).
Proof.
  intros Hx Ha Hc. set (y := mkSystem _ _ _ _ _ _).
  assert (Hn : app_next (app x) (app y)).
  { constructor; [done | done | done | | intros _ _ key; by left]. intros key e' He. right. exists e'. split; [done |]. unfold same_entry. auto. }
  assert (Hl : later x y) by by apply later_app. eapply (step_of_app x y); try done.
  pose proof (so_app x Hx) as [H1 H2 H3 H4 H5].
  eapply sys_next; [done | done | | apply Hx | by left | by left | by left]. constructor; [done | done | done | done |].
  by apply ledger_interfere.
Qed.

Lemma step_keeps e x y : sys_ok x -> step (encodeUtf8 := encodeUtf8) (intentDigest := intentDigest) e x y -> step_ok e x y.
Proof.
  intros Hx Hstep. destruct Hstep.
  - by apply call_step.
  - eapply (purge_step x _ _ _ M_purgeExpired []); [done | apply quiet_refl | done | done].
  - eapply (purge_step x _ _ _ (M_timer timer) [F_timer timer]); [done | apply quiet_disarm | done | done].
  - apply app_step; [done | eapply receipt_quiet_ok; [apply quiet_disarm | apply Hx] | apply quiet_next, quiet_disarm].
  - apply cancel_step; [done | by eapply prep_known].
  - destruct (receipt_dispose_ok (intentDigest := intentDigest) (others x) (app x) (so_app x Hx)). by apply app_step.
  - by eapply turn_step.
  - by apply return_step.
  - by eapply exec_step.
  - eapply receipt_answer_step; [done | done |]. intros z P [_ HP]. apply HP. by left.
  - eapply receipt_answer_step; [done | done |]. intros z P HP. by apply HP.
  - split_and!; [| | by left |].
    + eapply sys_next; [done | by apply later_backend | apply Hx | done | by left | by left | by left].
    + by apply later_backend.
    + intros _ key. unfold visible. cbn [with_backend app backend event_life]. destruct (durable _); [auto | by left].
  - by apply account_step.
Qed.

Lemma initial_ok o a b x : la_ok a -> rb_ok b -> initial o a b = Some x -> sys_ok x.
Proof.
  intros Ha Hb E. unfold initial, newOperationReceipts in E. destruct (la_reserve _ _) as [[lease a']|] eqn:Er; [| done].
  injection E as <-. constructor; cbn; [| done | by intros | by intros ? ? ? ?%elem_of_nil | constructor | by intros ? ? ?%elem_of_nil].
  constructor; cbn; [by apply NoDup_nil_2 | done | done | apply Z.le_max_l |].
  unfold leases. cbn. eapply ledger_reserve; [by apply ledger_nil | done].
Qed.

Lemma steps_ok x y : sys_ok x -> steps (encodeUtf8 := encodeUtf8) (intentDigest := intentDigest) x y -> sys_ok y.
Proof. intros Hx Hs. induction Hs as [|x y z [e Hxy] _ IH]; [done |]. apply IH. by apply (step_keeps e x y). Qed.

(** Over many steps a key's life only moves on. *)

Lemma steps_evolve x y : sys_ok x -> steps (encodeUtf8 := encodeUtf8) (intentDigest := intentDigest) x y ->
  options (app y) = options (app x) /\ (stable y = true -> stable x = true)
  /\ (stable y = true -> forall key, evolves intentDigest (visible x key) (visible y key)).
Proof.
  intros Hx Hs. induction Hs as [x|x y z [e Hxy] _ IH]; [done |].
  destruct (step_keeps e x y Hx Hxy) as (Hy & Hl & _ & _). destruct (IH Hy) as (Ho & Hst & Hv). split_and!.
  - rewrite Ho. apply Hl.
  - intros Hz. eapply later_stable; [exact Hl | by apply Hst].
  - intros Hz key. etransitivity; [| by apply Hv]. apply (lt_visible _ _ Hl). by apply Hst.
Qed.

Lemma reachable_ok o x : reachable (encodeUtf8 := encodeUtf8) (intentDigest := intentDigest) o x -> sys_ok x.
Proof. intros (a & b & x0 & Ha & Hb & Hi & Hs). eapply steps_ok; [| exact Hs]. by eapply initial_ok. Qed.

End invariant.
