(* ===== verification/ReceiptPasses.v ===== *)
(** * Retention passes

    Which tasks run, or wait for, a retention pass, and the timer that starts
    the next one: the invariant behind "passes never overlap". *)

From S2P Require Import Prelude Json Protocol Errors Pipe Operations JsMap LeaseAccount.
From S2P Require Import StoreTables ReceiptStore ReceiptSafety ReceiptRetention ReceiptBackend OperationReceipts ReceiptSystem.

Section passes.
Context {S : Type} `{LeaseAccount S} {B W : Type} {encodeUtf8 : string -> list Z} {intentDigest : string -> string}
  `{RB : !ReceiptBackend B W encodeUtf8 intentDigest}.
Implicit Types (s : OperationReceipts S) (x y : System (S := S) (B := B) (W := W)) (t : Task (W := W)).

Definition plain_frame (f : Frame) : bool :=
  match f with F_highest | F_batch _ _ | F_pass _ | F_timer _ => false | _ => true end.

Definition plain_source (source : Source W) : bool :=
  match source with Ask (B_purge _) | Ask B_highestRun | Joined _ => false | _ => true end.

(** A task of another method, one that joined a pass, the pass itself, and the
    callback of a timer. *)

Definition plain_call (c : list Frame * Source W) : Prop := forallb plain_frame c.1 = true /\ plain_source c.2 = true.

Definition pass_call (pass : nat) (c : list Frame * Source W) : Prop :=
  match c with
  | ([F_pass p], Got _) | ([F_highest; F_pass p], (Ask B_highestRun | Got _))
  | ([F_batch _ _; F_pass p], (Ask (B_purge _) | Got _)) => p = pass
  | _ => False
  end.

Definition runs (pass : nat) t : Prop := pass_call pass (tk_frames t, tk_source t).

Inductive kind_ok (s : OperationReceipts S) t : Prop :=
  | kind_plain : plain_call (tk_frames t, tk_source t) -> kind_ok s t
  | kind_joined pass : retentionPass s = Some pass -> tk_frames t = [] \/ (exists timer, tk_frames t = [F_timer timer]) ->
      tk_source t = Joined pass -> kind_ok s t
  | kind_timer timer v : tk_frames t = [F_timer timer] -> tk_source t = Got v -> kind_ok s t
  | kind_pass pass : retentionPass s = Some pass -> runs pass t -> kind_ok s t.

(** The timer: at most one is armed, the current one, and its callback has not
    run; a disposed object has none. *)

Definition timers_ok x : Prop :=
  (forall timer, retentionTimer (app x) = Some timer -> (timer < next_id (app x))%nat)
  /\ (forall tid t timer, tasks x !! tid = Some t -> F_timer timer ∈ tk_frames t -> (timer < next_id (app x))%nat)
  /\ (armed (app x) = [] \/ exists timer ms, armed (app x) = [(timer, ms)] /\ retentionTimer (app x) = Some timer
        /\ forall tid t, tasks x !! tid = Some t -> F_timer timer ∉ tk_frames t)
  /\ (disposed (app x) = true -> armed (app x) = [] /\ retentionTimer (app x) = None).

Record passes_ok x : Prop := mk_passes_ok {
  po_kind : forall tid t, tasks x !! tid = Some t -> kind_ok (app x) t;
  po_unique : forall tid tid' t t' pass pass', tasks x !! tid = Some t -> tasks x !! tid' = Some t' ->
    runs pass t -> runs pass' t' -> tid = tid';
  po_running : forall pass, retentionPass (app x) = Some pass -> exists tid t, tasks x !! tid = Some t /\ runs pass t;
  po_timers : timers_ok x;
}.

(** ** What the methods leave *)

(** The fields retention uses, unchanged; the timer only moves in [startRetention]. *)

Definition same_pass s s' : Prop := retentionPass s' = retentionPass s.

Lemma plain_app (fs rest : list Frame) source : plain_call (fs, source) -> forallb plain_frame rest = true -> plain_call (fs ++ rest, source).
Proof. intros [Hf Hs] Hr. split; [| done]. cbn in *. by rewrite forallb_app, Hf, Hr. Qed.

Lemma committed_plain key s : plain_source (committed key s : Source W) = true.
Proof. unfold committed. by destruct (durable s). Qed.

Lemma lookup_plain key intent s : plain_call (lookup encodeUtf8 key intent s).
Proof.
  unfold lookup. destruct (_ || _); [done |]. destruct (pending _ _ _); [done |]. split; [done | apply committed_plain].
Qed.

Lemma successor_plain key next s : plain_call (successor key next s).
Proof. unfold successor. destruct (negb _); [done |]. split; [done | apply committed_plain]. Qed.

Lemma update_plain key next s : plain_call (update key next s).
Proof. unfold update. pose proof (successor_plain key next s). destruct (successor _ _ _). by apply plain_app. Qed.

Lemma read_plain key s : plain_call (read key s).
Proof. unfold read. destruct (negb _); [done |]. split; [done | apply committed_plain]. Qed.

Lemma start_plain (m : Method (W := W)) s : plain_call (start (encodeUtf8 := encodeUtf8) m s).1.
Proof.
  destruct m; cbn [start fst].
  - apply lookup_plain.
  - unfold prepare. pose proof (lookup_plain key canonicalIntent s). destruct (lookup _ _ _ _). by apply plain_app.
  - unfold commit. destruct (if disposed s then None else _); [| done]. destruct (validate _ _ _ _); [| done].
    destruct (_ || _); [done |]. by destruct (negb _).
  - apply update_plain.
  - unfold recover. pose proof (successor_plain key next s). destruct (successor _ _ _). by apply plain_app.
  - unfold write. by destruct (_ || _).
  - unfold get. pose proof (read_plain key s). destruct (read _ _). by apply plain_app.
  - apply read_plain.
  - unfold recoverInterrupted. by destruct (_ || _).
  - done.
  - done.
  - done.
Qed.

(** What a step of the object does to its timer. *)

Inductive timer_move s s' : Prop :=
  | timer_same : retentionTimer s' = retentionTimer s -> armed s' = armed s -> timer_move s s'
  | timer_new ms : disposed s = false -> retentionTimer s' = Some (next_id s) -> armed s' = armed s ++ [(next_id s, ms)] ->
      (next_id s < next_id s')%nat -> retentionTimer s = None \/ armed s = [] -> timer_move s s'.

Record moved s s' : Prop := mk_moved {
  mv_pass : retentionPass s' = retentionPass s; mv_disposed : disposed s' = disposed s;
  mv_next : (next_id s <= next_id s')%nat; mv_timer : timer_move s s';
}.

Lemma moved_refl s : moved s s.
Proof. constructor; try done. by apply timer_same. Qed.

Lemma start_moved (m : Method (W := W)) s : moved s (start (encodeUtf8 := encodeUtf8) m s).2.
Proof.
  destruct m; cbn [start snd]; try apply moved_refl.
  unfold commit. destruct (if disposed s then None else _); [| apply moved_refl]. destruct (validate _ _ _ _); [| apply moved_refl].
  destruct (_ || _); [apply moved_refl |]. destruct (negb _); [| apply moved_refl]. constructor; try done. by apply timer_same.
Qed.

Lemma startRetention_moved s : moved s (startRetention s).
Proof.
  unfold startRetention. destruct (disposed s) eqn:Hd; [apply moved_refl |]. cbn [orb].
  destruct (retentionTimer s) eqn:Ht; [apply moved_refl |]. cbn [orb]. destruct (negb _); [apply moved_refl |].
  unfold scheduleRetention. rewrite Hd. cbn. constructor; try done; cbn; [lia |].
  eapply timer_new; [done | done | done | cbn; lia | by left].
Qed.

Lemma next_receipt_plain verifiers rest verified s :
  plain_call (next_receipt (W := W) verifiers rest verified s).1 /\ moved s (next_receipt (W := W) verifiers rest verified s).2.
Proof.
  unfold next_receipt. destruct rest; cbn [fst snd]; (split; [|]); [done | apply startRetention_moved | | apply moved_refl].
  split; [done | apply committed_plain].
Qed.

Lemma await_update_plain key next f s : plain_frame f = true ->
  plain_call (await_update (W := W) key next f s).1 /\ moved s (await_update (W := W) key next f s).2.
Proof.
  intros Hf. unfold await_update. pose proof (update_plain key next s) as Hu. destruct (update _ _ _). cbn [fst snd].
  split; [| apply moved_refl]. apply plain_app; [done |]. cbn. by rewrite Hf.
Qed.

Lemma verify_plain verifiers key record rest verified : plain_call (verify (W := W) verifiers key record rest verified).
Proof. unfold verify. split; [done |]. cbn. by destruct (verifiers _). Qed.

Lemma found_unfinished_plain verifiers key rest verified f s :
  plain_call (found_unfinished (W := W) verifiers key rest verified f s).1
  /\ moved s (found_unfinished (W := W) verifiers key rest verified f s).2.
Proof.
  unfold found_unfinished. destruct (receipt_of f); [| apply next_receipt_plain].
  destruct (terminal_state _); [apply next_receipt_plain |].
  destruct (bool_decide _); [split; [apply verify_plain | apply moved_refl] | by apply await_update_plain].
Qed.

Lemma verifier_answer_plain verifiers key record rest verified proven s :
  plain_call (verifier_answer (W := W) verifiers key record rest verified proven s).1
  /\ moved s (verifier_answer (W := W) verifiers key record rest verified proven s).2.
Proof.
  unfold verifier_answer. destruct (disposed s); [split; [done | apply startRetention_moved] |].
  unfold attention. by destruct proven; apply await_update_plain.
Qed.

Lemma replace_plain current next s :
  plain_source (replace_with (W := W) encodeUtf8 current next s).1 = true
  /\ moved s (replace_with (W := W) encodeUtf8 current next s).2.
Proof.
  unfold replace_with. destruct (if disposed s then None else _); [| split; [done | apply moved_refl]].
  destruct (durable s); [split; [done | apply moved_refl] |].
  destruct (jget _ _) as [e|]; [| split; [done | apply moved_refl]].
  destruct (en_record e) as [r|]; [| split; [done | apply moved_refl]].
  destruct (_ =? _); [| split; [done | apply moved_refl]]. split; [done |]. constructor; try done. by apply timer_same.
Qed.

Lemma returned_plain v s : plain_call (returned (S := S) (W := W) v s).1 /\ moved s (returned (W := W) v s).2.
Proof. split; [done | apply moved_refl]. Qed.

Lemma run_plain now f v s : plain_frame f = true ->
  plain_call (run_frame (W := W) encodeUtf8 intentDigest now f v s).1
  /\ moved s (run_frame (W := W) encodeUtf8 intentDigest now f v s).2.
Proof.
  intros Hf. destruct f; try done; destruct v; try apply returned_plain; cbn [run_frame].
  - destruct l; try apply returned_plain. unfold prepared. destruct (_ || _); [apply returned_plain |].
    destruct (la_reserve _ _) as [[lease a]|]; [| apply returned_plain]. cbn. split; [done |].
    constructor; try done; cbn; [lia | by apply timer_same].
  - unfold committed_insert. destruct (current_entry _ _); [| apply returned_plain]. destruct b; [| apply returned_plain].
    split; [done |]. constructor; try done. by apply timer_same.
  - unfold update_found. destruct s0; [| split; [done | apply moved_refl]]. destruct (terminal_state _); [split; [done | apply moved_refl] |].
    pose proof (replace_plain s0 next s) as [Hp Hm]. destruct (replace_with _ _ _ _). by split.
  - unfold recover_found. destruct s0; [| split; [done | apply moved_refl]]. destruct (_ || _); [split; [done | apply moved_refl] |].
    pose proof (replace_plain s0 next s) as [Hp Hm]. destruct (replace_with _ _ _ _). by split.
  - apply next_receipt_plain.
  - apply found_unfinished_plain.
  - destruct b; [| apply returned_plain]. split; [apply verify_plain | apply moved_refl].
  - apply verifier_answer_plain.
  - apply verifier_answer_plain.
  - destruct b; [apply next_receipt_plain | by apply await_update_plain].
  - destruct b; [apply next_receipt_plain | apply returned_plain].
Qed.

(** ** Bookkeeping of the tasks *)

Lemma plain_not_runs pass t : plain_call (tk_frames t, tk_source t) -> ~ runs pass t.
Proof.
  intros [Hf Hs] Hr. unfold runs, pass_call in Hr. cbn in *. destruct (tk_frames t) as [|f fs]; [done |]. destruct f; try done.
Qed.

Lemma kind_same s s' t : retentionPass s' = retentionPass s -> kind_ok s t -> kind_ok s' t.
Proof.
  intros Hp [Hk|pass Hk Hf Hs|timer v Hf Hs|pass Hk Hr].
  - by apply kind_plain.
  - eapply kind_joined; [by rewrite Hp | done | done].
  - by eapply kind_timer.
  - eapply kind_pass; [by rewrite Hp | done].
Qed.

(** A state whose tasks are those of [x] but for one that does not run a pass,
    and did not. *)

Lemma passes_next x y tid t : passes_ok x -> retentionPass (app y) = retentionPass (app x) -> timers_ok y ->
  (forall tid', tid' <> tid -> tasks y !! tid' = tasks x !! tid') -> tasks y !! tid = Some t \/ tasks y !! tid = None ->
  (forall pass t', tasks x !! tid = Some t' -> ~ runs pass t') ->
  (tasks y !! tid = Some t -> kind_ok (app y) t /\ forall pass, ~ runs pass t) ->
  passes_ok y.
Proof.
  intros [H1 H2 H3 _] Hp Ht Ho Hn Hold Hnew. constructor; [| | | done].
  - intros tid' t' Ht'. destruct (decide (tid' = tid)) as [->|Hne].
    + destruct Hn as [Hn|Hn]; [| congruence]. assert (t' = t) as -> by congruence. by apply Hnew.
    + rewrite Ho in Ht' by done. eapply kind_same; [done | by eapply H1].
  - intros a b ta tb pa pb Ha Hb Hra Hrb.
    assert (Hx : forall c tc pc, tasks y !! c = Some tc -> runs pc tc -> tasks x !! c = Some tc).
    { intros c tc pc Hc Hr. destruct (decide (c = tid)) as [->|Hne]; [| by rewrite <- Ho].
      destruct Hn as [Hn|Hn]; [| congruence]. assert (tc = t) as -> by congruence.
      destruct (Hnew Hn) as [_ Hnr]. by destruct (Hnr pc). }
    eapply (H2 a b); [by eapply Hx | by eapply Hx | done | done].
  - intros pass Hpass. rewrite Hp in Hpass. destruct (H3 pass Hpass) as (c & tc & Hc & Hr). exists c, tc. split; [| done].
    rewrite Ho; [done |]. intros ->. by destruct (Hold pass tc Hc).
Qed.

Lemma timers_next x y : timers_ok x -> moved (app x) (app y) ->
  (forall tid t timer, tasks y !! tid = Some t -> F_timer timer ∈ tk_frames t ->
     exists tid' t', tasks x !! tid' = Some t' /\ F_timer timer ∈ tk_frames t') ->
  timers_ok y.
Proof.
  intros (H1 & H2 & H3 & H4) [_ Hd Hn Ht] Hf. destruct Ht as [Ht Ha|ms Hds Ht Ha Hlt Hnone].
  - split_and!.
    + intros timer E. rewrite Ht in E. specialize (H1 timer E). lia.
    + intros tid t timer E Hin. destruct (Hf tid t timer E Hin) as (tid' & t' & E' & Hin'). specialize (H2 tid' t' timer E' Hin'). lia.
    + rewrite Ha, Ht. destruct H3 as [?|(timer & ms & ? & ? & Hno)]; [by left | right]. exists timer, ms. split_and!; [done | done |].
      intros tid t E Hin. destruct (Hf tid t timer E Hin) as (tid' & t' & E' & Hin'). by apply (Hno tid' t').
    + rewrite Hd, Ha, Ht. done.
  - split_and!.
    + intros timer E. rewrite Ht in E. injection E as <-. done.
    + intros tid t timer E Hin. destruct (Hf tid t timer E Hin) as (tid' & t' & E' & Hin'). specialize (H2 tid' t' timer E' Hin'). lia.
    + right. exists (next_id (app x)), ms. split_and!; [| done |].
      * rewrite Ha. destruct H3 as [->|(timer & ms' & Harm & E & _)]; [done |]. destruct Hnone as [|Hnil]; [congruence | by rewrite Hnil].
      * intros tid t E Hin. destruct (Hf tid t _ E Hin) as (tid' & t' & E' & Hin'). specialize (H2 tid' t' _ E' Hin'). lia.
    + intros E. congruence.
Qed.

Lemma plain_no_timer c timer : plain_call c -> F_timer timer ∉ c.1.
Proof.
  intros [Hf _] Hin. apply list_elem_of_In in Hin. rewrite forallb_forall in Hf. by specialize (Hf _ Hin).
Qed.

(** The tasks of [y] are those of [x] but [tid], whose frames hold no timer. *)

Lemma timers_put x y tid fs : timers_ok x -> moved (app x) (app y) ->
  (forall tid' t', tasks y !! tid' = Some t' -> tid' <> tid -> tasks x !! tid' = Some t') ->
  (forall t, tasks y !! tid = Some t -> tk_frames t = fs) ->
  (forall timer, F_timer timer ∈ fs -> exists t', tasks x !! tid = Some t' /\ F_timer timer ∈ tk_frames t') ->
  timers_ok y.
Proof.
  intros Hx Hm Ho Ht Hf. eapply timers_next; [exact Hx | exact Hm |]. intros tid' t' timer E Hin.
  destruct (decide (tid' = tid)) as [->|Hne].
  - rewrite (Ht _ E) in Hin. destruct (Hf timer Hin) as (t0 & ? & ?). by exists tid, t0.
  - exists tid', t'. split; [by apply Ho | done].
Qed.

(** One task becomes another that runs no pass. *)

Lemma passes_put x y tid t : passes_ok x -> moved (app x) (app y) -> tasks y = <[tid := t]> (tasks x) ->
  (forall pass t', tasks x !! tid = Some t' -> ~ runs pass t') ->
  kind_ok (app y) t -> (forall pass, ~ runs pass t) ->
  (forall timer, F_timer timer ∈ tk_frames t -> exists t', tasks x !! tid = Some t' /\ F_timer timer ∈ tk_frames t') ->
  passes_ok y.
Proof.
  intros Hx Hm Hy Hold Hk Hnr Hf. eapply (passes_next x y tid t); [done | apply Hm | | | left | done | done].
  - eapply (timers_put x y tid (tk_frames t)); [apply Hx | done | | | done]; rewrite Hy.
    + intros tid' t' E Hne. by rewrite lookup_insert_ne in E.
    + intros t' E. rewrite lookup_insert_eq in E. by injection E as <-.
  - intros tid' Hne. by rewrite Hy, lookup_insert_ne.
  - by rewrite Hy, lookup_insert_eq.
Qed.

(** The task of the running pass goes on. *)

Lemma passes_go x y tid t t' pass : passes_ok x -> moved (app x) (app y) -> tasks y = <[tid := t']> (tasks x) ->
  tasks x !! tid = Some t -> runs pass t -> runs pass t' -> passes_ok y.
Proof.
  intros Hx Hm Hy Ht Hr Hr'. pose proof (po_kind x Hx tid t Ht) as Hk.
  assert (Hp : retentionPass (app x) = Some pass).
  { destruct Hk as [Hpl|p Hp Hf Hs|timer v Hf Hs|p Hp Hrp].
    - by apply (plain_not_runs pass t) in Hpl.
    - unfold runs, pass_call in Hr. rewrite Hs in Hr. destruct Hf as [Hf|[tm Hf]]; by rewrite Hf in Hr.
    - unfold runs, pass_call in Hr. by rewrite Hf in Hr.
    - assert (p = pass) as <-; [| done]. unfold runs, pass_call in Hr, Hrp.
      destruct (tk_frames t) as [|[] [|[] [|]]]; try done; destruct (tk_source t) as [[]| | |]; try done; congruence. }
  pose proof (mv_pass _ _ Hm) as Hpy. rewrite Hp in Hpy. constructor.
  - intros tid0 t0 E. rewrite Hy in E. apply lookup_insert_Some in E as [[<- <-]|[Hne E]].
    + by eapply kind_pass.
    + eapply kind_same; [apply Hm | by eapply (po_kind x Hx)].
  - intros a b ta tb pa pb Ha Hb Hra Hrb.
    assert (Hxx : forall c tc pc, tasks y !! c = Some tc -> runs pc tc -> exists tc' pc', tasks x !! c = Some tc' /\ runs pc' tc').
    { intros c tc pc Hc Hrc. rewrite Hy in Hc. apply lookup_insert_Some in Hc as [[<- <-]|[Hne Hc]]; eauto. }
    destruct (Hxx a ta pa Ha Hra) as (? & ? & ? & ?). destruct (Hxx b tb pb Hb Hrb) as (? & ? & ? & ?). by eapply (po_unique x Hx).
  - intros p E. rewrite Hpy in E. injection E as <-. exists tid, t'. split; [by rewrite Hy, lookup_insert_eq | done].
  - eapply (timers_put x y tid (tk_frames t')); [apply Hx | done | | |]; rewrite ?Hy.
    + intros tid' t0 E Hne. by rewrite lookup_insert_ne in E.
    + intros t0 E. rewrite lookup_insert_eq in E. by injection E as <-.
    + intros timer Hin. exfalso. unfold runs, pass_call in Hr'.
      destruct (tk_frames t') as [|[] [|[] [|]]]; try done; repeat (apply elem_of_cons in Hin as [?|Hin]; [done |]); by apply elem_of_nil in Hin.
Qed.

Lemma passes_same x y : passes_ok x -> retentionPass (app y) = retentionPass (app x) -> tasks y = tasks x -> timers_ok y -> passes_ok y.
Proof.
  intros [H1 H2 H3 _] Hp Ht Hti. constructor; rewrite ?Ht; [| done | by rewrite Hp | done].
  intros tid t E. eapply kind_same; [done | by eapply H1].
Qed.

Lemma passes_moved x y : passes_ok x -> moved (app x) (app y) -> tasks y = tasks x -> passes_ok y.
Proof.
  intros Hx Hm Ht. eapply passes_same; [exact Hx | apply Hm | done |]. eapply timers_next; [apply Hx | done |].
  rewrite Ht. eauto.
Qed.

(** Starting or joining a pass. *)

Definition callback x (fs : list Frame) : Prop :=
  fs = [] \/ exists timer, fs = [F_timer timer] /\ (timer < next_id (app x))%nat /\ armed (app x) = [].

Lemma timers_purge x y fs tid : timers_ok x -> callback x fs ->
  retentionTimer (app y) = retentionTimer (app x) -> armed (app y) = armed (app x) -> disposed (app y) = disposed (app x) ->
  (next_id (app x) <= next_id (app y))%nat ->
  (forall tid' t timer, tasks y !! tid' = Some t -> F_timer timer ∈ tk_frames t ->
     tid' = tid /\ tk_frames t = fs \/ exists t', tasks x !! tid' = Some t' /\ F_timer timer ∈ tk_frames t') ->
  timers_ok y.
Proof.
  intros (H1 & H2 & H3 & H4) Hc Ht Ha Hd Hn Hf. split_and!.
  - intros timer E. rewrite Ht in E. specialize (H1 timer E). lia.
  - intros tid' t timer E Hin. destruct (Hf tid' t timer E Hin) as [[-> Hfs]|(t' & E' & Hin')].
    + rewrite Hfs in Hin. destruct Hc as [->|(tm & -> & Hlt & _)]; [by apply elem_of_nil in Hin |].
      apply list_elem_of_singleton in Hin. injection Hin as ->. lia.
    + specialize (H2 tid' t' timer E' Hin'). lia.
  - rewrite Ha, Ht. destruct H3 as [?|(timer & ms & Harm & Hret & Hno)]; [by left | right]. exists timer, ms. split_and!; [done | done |].
    intros tid' t E Hin. destruct (Hf tid' t timer E Hin) as [[-> Hfs]|(t' & E' & Hin')]; [| by eapply Hno].
    rewrite Hfs in Hin. destruct Hc as [->|(tm & -> & _ & Hnil)]; [by apply elem_of_nil in Hin | congruence].
  - rewrite Hd, Ha, Ht. done.
Qed.

Lemma no_timer_in_pass pass c timer : pass_call pass c -> F_timer timer ∉ c.1.
Proof.
  destruct c as [fs source]. unfold pass_call. intros Hp Hin. cbn in Hin.
  destruct fs as [|[] [|[] [|]]]; try done; repeat (apply elem_of_cons in Hin as [?|Hin]; [done |]); by apply elem_of_nil in Hin.
Qed.

Lemma joined_not_runs pass pass' m fs : fs = [] \/ (exists timer, fs = [F_timer timer]) -> ~ runs pass (mkTask m fs (Joined pass')).
Proof. unfold runs. intros [->|[timer ->]]; cbn; tauto. Qed.

Lemma callback_frames x fs : callback x fs -> fs = [] \/ (exists timer, fs = [F_timer timer]).
Proof. intros [?|(timer & ? & _)]; eauto. Qed.

Lemma pass_begins now s : retentionPass s = None ->
  exists fs source, purgeExpired (W := W) now s
    = (Joined (next_id s), Some (fs, source), with_pass (Some (next_id s)) (fresh s).2) /\ pass_call (next_id s) (fs, source).
Proof.
  intros Hn. unfold purgeExpired. rewrite Hn. cbn [fresh snd]. set (s1 := mkReceipts _ _ _ _ _ _ _ _ _).
  unfold runRetentionPass. destruct (_ || _); [by eexists _, _ |]. destruct (o_highestRun _); [by eexists _, _ |].
  unfold next_batch. destruct (disposed _); by eexists _, _.
Qed.

Lemma purge_passes x tid tid' m fs now source pass s' : passes_ok x -> callback x fs ->
  tasks x !! tid = None -> tasks x !! tid' = None -> tid <> tid' ->
  purgeExpired now (app x) = (source, pass, s') ->
  passes_ok (add_calls tid (mkTask m fs source) ((fun c => (tid', c)) <$> pass) (with_app s' x)).
Proof.
  intros Hx Hc Ht Ht' Hne E. pose proof (callback_frames x fs Hc) as Hfs. destruct (retentionPass (app x)) as [p|] eqn:Hp.
  - unfold purgeExpired in E. rewrite Hp in E. injection E as <- <- <-. cbn.
    eapply (passes_next x _ tid (mkTask m fs (Joined p))); [done | done | | | | by rewrite Ht |].
    + eapply timers_purge; [apply Hx | exact Hc | done | done | done | done |]. cbn. intros tid0 t0 timer [[<- <-]|[_ E]]%lookup_insert_Some Hin; eauto.
    + intros tid0 Hne0. cbn. by rewrite lookup_insert_ne.
    + left. cbn. by rewrite lookup_insert_eq.
    + intros _. split; [by eapply kind_joined | intros q; by apply joined_not_runs].
  - destruct (pass_begins now (app x) Hp) as (fs' & source' & E' & Hpc). rewrite E' in E. injection E as <- <- <-. cbn.
    set (p := next_id (app x)) in *. set (y := put_task _ _ _).
    assert (Hl : forall a t, tasks y !! a = Some t ->
      a = tid' /\ t = mkTask M_retentionPass fs' source' \/ a = tid /\ t = mkTask m fs (Joined p) \/ tasks x !! a = Some t).
    { intros a t. cbn. intros [[<- <-]|[_ [[<- <-]|[_ ?]]%lookup_insert_Some]]%lookup_insert_Some; auto. }
    assert (Hnone : forall a t q, tasks x !! a = Some t -> ~ runs q t).
    { intros a t q Ha Hr. destruct (po_kind x Hx a t Ha) as [Hpl|q' Hq _ _|timer v Hf Hs|q' Hq _]; [| congruence | | congruence].
      - by eapply plain_not_runs.
      - unfold runs in Hr. by rewrite Hf in Hr. }
    constructor.
    + intros a t Ha. destruct (Hl a t Ha) as [[-> ->]|[[-> ->]|Hxa]].
      * by eapply kind_pass.
      * by eapply kind_joined.
      * destruct (po_kind x Hx a t Hxa) as [Hpl|q Hq _ _|timer v Hf Hs|q Hq _]; [by apply kind_plain | congruence | by eapply kind_timer | congruence].
    + intros a b ta tb pa pb Ha Hb Hra Hrb. assert (Hrun : forall c tc pc, tasks y !! c = Some tc -> runs pc tc -> c = tid').
      { intros c tc pc Hcc Hrc. destruct (Hl c tc Hcc) as [[-> _]|[[_ ->]|Hxc]]; [done | by apply joined_not_runs in Hrc | by destruct (Hnone c tc pc Hxc)]. }
      rewrite (Hrun a ta pa Ha Hra). by rewrite (Hrun b tb pb Hb Hrb).
    + intros q Hq. cbn in Hq. injection Hq as <-. eexists tid', _. split; [cbn; by rewrite lookup_insert_eq | done].
    + eapply timers_purge; [apply Hx | exact Hc | done | done | done | cbn; lia |].
      intros a t timer Ha Hin. destruct (Hl a t Ha) as [[-> ->]|[[-> ->]|Hxa]]; [| by left | right; eauto].
      by apply (no_timer_in_pass p (fs', source')) in Hin.
Qed.

Lemma timer_passes x timer ms : timers_ok x -> (timer, ms) ∈ armed (app x) ->
  timers_ok (with_app (disarm timer (app x)) x) /\ armed (disarm timer (app x)) = [] /\ retentionTimer (app x) = Some timer
  /\ (timer < next_id (app x))%nat.
Proof.
  intros (H1 & H2 & H3 & H4) Hin. destruct H3 as [Hnil|(timer' & ms' & Harm & Hret & Hno)]; [by rewrite Hnil in Hin; apply elem_of_nil in Hin |].
  rewrite Harm in Hin. apply list_elem_of_singleton in Hin. injection Hin as -> ->.
  assert (Hd : armed (disarm timer' (app x)) = []) by (cbn; rewrite Harm; cbn; by rewrite Nat.eqb_refl).
  split_and!; [| done | done | by apply H1]. split_and!; [done | done | by left |].
  intros Hds. destruct (H4 Hds). split; [done | done].
Qed.

(** ** Turns *)

Lemma plain_turn x tid now m f fs v fs' source s' : passes_ok x -> tasks x !! tid = Some (mkTask m (f :: fs) (Got v)) ->
  plain_frame f = true -> forallb plain_frame fs = true ->
  run_frame encodeUtf8 intentDigest now f v (app x) = (fs', source, s') ->
  passes_ok (put_task tid (mkTask m (fs' ++ fs) source) (with_app s' x)).
Proof.
  intros Hx Ht Hpf Hpfs E. pose proof (run_plain now f v (app x) Hpf) as [Hc Hm]. rewrite E in Hc, Hm. cbn [fst snd] in Hc, Hm.
  assert (Hpl : plain_call (fs' ++ fs, source)) by by apply plain_app.
  eapply passes_put; [exact Hx | exact Hm | done | | by apply kind_plain | intros q; by apply plain_not_runs |].
  - intros q t' E'. rewrite Ht in E'. injection E' as <-. apply plain_not_runs. split; [| done]. cbn. by rewrite Hpf.
  - intros timer Hin. by apply (plain_no_timer _ timer) in Hpl.
Qed.

Lemma timer_turn x tid m timer v : passes_ok x -> tasks x !! tid = Some (mkTask m [F_timer timer] (Got v)) ->
  passes_ok (put_task tid (mkTask m [] (Got v))
    (with_app (if bool_decide (retentionTimer (app x) = Some timer) then scheduleRetention (o_intervalMs (options (app x))) (app x)
               else app x) x)).
Proof.
  intros Hx Ht.
  eapply passes_put; [exact Hx | | done | | by apply kind_plain | intros q; by apply plain_not_runs | cbn; intros tm Hin; by apply elem_of_nil in Hin].
  - cbn [app with_app put_task]. case_bool_decide as Hret; [| apply moved_refl]. unfold scheduleRetention.
    destruct (disposed (app x)) eqn:Hd; [apply moved_refl |]. cbn. constructor; try done; cbn; [lia |].
    eapply timer_new; [done | done | done | cbn; lia | right].
    destruct (po_timers x Hx) as (_ & _ & [?|(tm & ms & _ & Hret' & Hno)] & _); [done |].
    assert (tm = timer) as -> by congruence. destruct (Hno tid _ Ht). cbn. left.
  - intros q t' E'. rewrite Ht in E'. injection E' as <-. unfold runs. cbn. tauto.
Qed.

(** A task that neither runs nor waits for a pass. *)

Definition idle t : Prop :=
  plain_call (tk_frames t, tk_source t) \/ exists timer v, tk_frames t = [F_timer timer] /\ tk_source t = Got v.

Lemma idle_kind s t : idle t -> kind_ok s t /\ forall q, ~ runs q t.
Proof.
  intros [Hp|(timer & v & Hf & Hs)].
  - split; [by apply kind_plain | intros q; by apply plain_not_runs].
  - split; [by eapply kind_timer |]. intros q Hr. unfold runs in Hr. by rewrite Hf in Hr.
Qed.

Lemma settled_idle x tid t0 pass v a t : passes_ok x -> retentionPass (app x) = Some pass ->
  tasks x !! tid = Some t0 -> runs pass t0 -> a <> tid -> tasks x !! a = Some t -> idle (settle_pass pass v t).
Proof.
  intros Hx Hp Ht Hr Hne Ha. assert (Hnr : forall q, ~ runs q t) by (intros q Hq; destruct Hne; by eapply (po_unique x Hx a tid)).
  destruct t as [m fs src]. destruct (po_kind x Hx a _ Ha) as [Hpl|q Hq Hf Hs|timer w Hf Hs|q Hq Hrq]; cbn in *.
  - left. unfold settle_pass. cbn. destruct src; try exact Hpl. by destruct Hpl.
  - subst src. assert (q = pass) as -> by congruence. unfold settle_pass. cbn. rewrite Nat.eqb_refl.
    destruct Hf as [->|[timer ->]]; [by left | right; by eexists _, _].
  - subst. right. by eexists _, _.
  - by destruct (Hnr q).
Qed.

Lemma passes_end x y tid t0 pass v m w : passes_ok x -> retentionPass (app x) = Some pass ->
  tasks x !! tid = Some t0 -> runs pass t0 -> app y = with_pass None (app x) ->
  tasks y = settle_pass pass v <$> <[tid := mkTask m [] (Got w)]> (tasks x) -> passes_ok y.
Proof.
  intros Hx Hp Ht Hr Happ Hy.
  assert (Hl : forall a t, tasks y !! a = Some t ->
    idle t /\ forall timer, F_timer timer ∈ tk_frames t -> exists t', tasks x !! a = Some t' /\ F_timer timer ∈ tk_frames t').
  { intros a t E. rewrite Hy, lookup_fmap in E. destruct (decide (tid = a)) as [<-|Hne].
    - rewrite lookup_insert_eq in E. injection E as <-. split; [by left |]. cbn. by intros timer ?%elem_of_nil.
    - rewrite lookup_insert_ne in E by done. destruct (tasks x !! a) as [t1|] eqn:Ea; [| done]. injection E as <-.
      split; [apply (settled_idle x tid t0 pass v a t1); [exact Hx | exact Hp | exact Ht | exact Hr | congruence | exact Ea] |]. intros timer Hin. exists t1. split; [done |]. unfold settle_pass in Hin.
      destruct (tk_source t1); try done. by destruct (Nat.eqb _ _). }
  constructor.
  - intros a t E. by apply idle_kind, (Hl a t E).
  - intros a b ta tb pa pb Ha Hb Hra. by destruct (proj2 (idle_kind (app x) ta (proj1 (Hl a ta Ha))) pa).
  - rewrite Happ. done.
  - eapply (timers_next (with_app (with_pass None (app x)) x)); [apply Hx | rewrite Happ; apply moved_refl |].
    intros a t timer E Hin. destruct (proj2 (Hl a t E) timer Hin) as (t' & ? & ?). by exists a, t'.
Qed.

Lemma pass_task_turn x tid now m f fs v fs' source s' pass : passes_ok x -> tasks x !! tid = Some (mkTask m (f :: fs) (Got v)) ->
  retentionPass (app x) = Some pass -> runs pass (mkTask m (f :: fs) (Got v)) ->
  run_frame encodeUtf8 intentDigest now f v (app x) = (fs', source, s') ->
  passes_ok (settle_joined f v (put_task tid (mkTask m (fs' ++ fs) source) (with_app s' x))).
Proof.
  intros Hx Ht Hp Hr E. pose proof Hr as Hr'. unfold runs in Hr'. cbn in Hr'. destruct f; try done.
  - destruct fs as [|[] []]; try done. subst. eapply (passes_go x _ tid _ _ pass); [exact Hx | | done | exact Ht | exact Hr |].
    + destruct v; cbn in E; unfold next_batch in E; try destruct (disposed _); injection E as <- <- <-; apply moved_refl.
    + destruct v; cbn in E; unfold next_batch in E; try destruct (disposed _); by injection E as <- <- <-.
  - destruct fs as [|[] []]; try done. subst. eapply (passes_go x _ tid _ _ pass); [exact Hx | | done | exact Ht | exact Hr |].
    + destruct v; cbn in E; unfold next_batch in E; try destruct (pb_more _); try destruct (disposed _);
        injection E as <- <- <-; apply moved_refl.
    + destruct v; cbn in E; unfold next_batch in E; try destruct (pb_more _); try destruct (disposed _); by injection E as <- <- <-.
  - destruct fs; [| done]. subst. cbn in E. injection E as <- <- <-. by eapply passes_end.
Qed.

Lemma turn_passes x tid now m f fs v fs' source s' : passes_ok x -> tasks x !! tid = Some (mkTask m (f :: fs) (Got v)) ->
  run_frame encodeUtf8 intentDigest now f v (app x) = (fs', source, s') ->
  passes_ok (settle_joined f v (put_task tid (mkTask m (fs' ++ fs) source) (with_app s' x))).
Proof.
  intros Hx Ht E. destruct (po_kind x Hx tid _ Ht) as [Hpl|p Hp Hf Hs|timer w Hf Hs|p Hp Hr].
  - destruct Hpl as [Hpl _]. cbn in Hpl. apply andb_true_iff in Hpl as [Hpf Hpfs].
    replace (settle_joined f v _) with (put_task tid (mkTask m (fs' ++ fs) source) (with_app s' x)) by by destruct f.
    by eapply plain_turn.
  - done.
  - injection Hf as -> ->. cbn in E. injection E as <- <- <-. by apply timer_turn.
  - by eapply pass_task_turn.
Qed.

(** An answer arrives. *)

Lemma answer_passes x y tid m fs source v : passes_ok x -> app y = app x -> tasks y = <[tid := mkTask m fs (Got v)]> (tasks x) ->
  tasks x !! tid = Some (mkTask m fs source) -> (forall pass, source <> Joined pass) -> passes_ok y.
Proof.
  intros Hx Happ Hy Ht Hs. assert (Hm : moved (app x) (app y)) by (rewrite Happ; apply moved_refl).
  destruct (po_kind x Hx tid _ Ht) as [Hpl|p Hp Hf Hs'|timer w Hf Hs'|p Hp Hr]; cbn in *.
  - assert (Hpl' : plain_call (fs, Got v)) by (by destruct Hpl).
    eapply passes_put; [exact Hx | exact Hm | exact Hy | | by apply kind_plain | intros q; by apply plain_not_runs |].
    + intros q t' E. rewrite Ht in E. injection E as <-. by apply plain_not_runs.
    + intros timer Hin. by apply (plain_no_timer _ timer) in Hpl'.
  - by destruct (Hs p).
  - subst. eapply passes_put; [exact Hx | exact Hm | exact Hy | | by eapply kind_timer | |].
    + intros q t' E. rewrite Ht in E. injection E as <-. unfold runs. cbn. tauto.
    + intros q. unfold runs. cbn. tauto.
    + intros tm Hin. eauto.
  - eapply (passes_go x y tid _ _ p); [exact Hx | exact Hm | exact Hy | exact Ht | exact Hr |].
    unfold runs in *. cbn in *. destruct fs as [|[] [|[] []]]; try done; by destruct source as [[]| | |].
Qed.

Lemma step_passes e x y : passes_ok x -> step (encodeUtf8 := encodeUtf8) (intentDigest := intentDigest) e x y -> passes_ok y.
Proof.
  intros Hx Hs. destruct Hs.
  - match goal with Hu : unused _ _ |- _ => destruct Hu as [Hnone _] end.
    pose proof (start_plain m (app x)) as Hpl. pose proof (start_moved m (app x)) as Hm.
    match goal with Es : start _ _ = _ |- _ => rewrite Es in Hpl, Hm end. cbn [fst snd] in Hpl, Hm.
    eapply (passes_put x _ tid (mkTask m frames source)); [exact Hx | exact Hm | done | intros q t' E; congruence | by apply kind_plain | intros q; by apply plain_not_runs |].
    intros timer Hin. by apply (plain_no_timer _ timer) in Hpl.
  - match goal with Hu : unused _ _, Hu' : unused _ _ |- _ => destruct Hu as [Hnone _], Hu' as [Hnone' _] end.
    eapply purge_passes; [done | by left | done | done | done | done].
  - match goal with Hu : unused _ _, Hu' : unused _ _ |- _ => destruct Hu as [Hnone _], Hu' as [Hnone' _] end.
    match goal with Hin : (_, _) ∈ armed _ |- _ => destruct (timer_passes x timer ms (po_timers x Hx) Hin) as (Hti & Harm & Hret & Hlt) end.
    eapply (purge_passes (with_app (disarm timer (app x)) x)); [| | exact Hnone | exact Hnone' | done | done].
    + by eapply passes_same.
    + right. by exists timer.
  - match goal with Hin : (_, _) ∈ armed _ |- _ => destruct (timer_passes x timer ms (po_timers x Hx) Hin) as (_ & _ & Hret & _) end. done.
  - eapply passes_moved; [exact Hx | | done]. cbn. unfold cancel. destruct (uncommitted _ _); [| apply moved_refl].
    constructor; try done. by apply timer_same.
  - eapply passes_same; [exact Hx | | done |]; cbn; unfold dispose; destruct (disposed (app x)) eqn:Hd; try done.
    + apply Hx.
    + destruct (po_timers x Hx) as (H1 & H2 & H3 & _). unfold timers_ok. cbn.
      assert (Harm : match retentionTimer (app x) with
               | Some t => List.filter (fun z => negb (Nat.eqb z.1 t)) (armed (app x)) | None => armed (app x) end = []).
      { destruct H3 as [->|(timer & ms & -> & -> & _)]; [by destruct (retentionTimer _) |]. cbn. by rewrite Nat.eqb_refl. }
      split_and!; [done | done | by left | done].
  - by eapply turn_passes.
  - eapply (passes_next x _ tid (mkTask m [] (Got v))); [done | done | | | right; cbn; by rewrite lookup_delete_eq | |].
    + eapply timers_next; [apply Hx | apply moved_refl |]. cbn. intros tid' t timer [_ E]%lookup_delete_Some Hin. eauto.
    + intros tid' Hne. cbn. by rewrite lookup_delete_ne.
    + intros q t' E. assert (t' = mkTask m [] (Got v)) as -> by congruence. unfold runs. cbn. tauto.
    + cbn. by rewrite lookup_delete_eq.
  - by eapply answer_passes.
  - by eapply answer_passes.
  - by eapply answer_passes.
  - eapply passes_moved; [exact Hx | apply moved_refl | done].
  - eapply passes_moved; [exact Hx | | done]. constructor; try done. by apply timer_same.
Qed.

Lemma initial_passes o a b x : initial o a b = Some x -> passes_ok x.
Proof.
  unfold initial, newOperationReceipts. destruct (la_reserve _ _) as [[lease a']|]; [| done]. intros [= <-].
  constructor; cbn; [done | done | done |]. split_and!; cbn; [done | done | by left | done].
Qed.

Lemma reachable_passes o x : reachable (encodeUtf8 := encodeUtf8) (intentDigest := intentDigest) o x -> passes_ok x.
Proof.
  intros (a & b & x0 & Ha & Hb & Hi & Hs). apply initial_passes in Hi. induction Hs as [|x y z [e Hxy] _ IH]; [done |].
  apply IH. by eapply step_passes.
Qed.

End passes.
