(* ===== verification/ReceiptRuns.v ===== *)
(** * Executions of the receipts, computed

    A schedule is a list of moves; [play] runs it.  A run that ends is an
    execution of the system of ReceiptSystem.v, so a state computed from a
    schedule over the SQLite store is reachable. *)

From S2P Require Import Prelude Json Protocol Errors Pipe Operations OperationBounds JsMap LeaseAccount Retained.
From S2P Require Import StoreTables ReceiptStore ReceiptSafety ReceiptProperties ReceiptRetention ReceiptBackend OperationReceipts ReceiptSystem.

Section runs.
Context {S : Type} `{LeaseAccount S} {B W : Type} {encodeUtf8 : string -> list Z} {intentDigest : string -> string}
  `{RB : !ReceiptBackend B W encodeUtf8 intentDigest}.
Implicit Types (x y : System (S := S) (B := B) (W := W)).

(** What a scheduler may do next. *)

Inductive Move :=
  | Mv_call (tid : nat) (m : Method (W := W))
  | Mv_commit (tid prepared : nat) (record : OperationRecord)
  | Mv_purge (tid tid' : nat) (now : Z)
  | Mv_timer (timer tid tid' : nat) (now : Z)
  | Mv_cancel (prepared : nat)
  | Mv_dispose
  | Mv_turn (tid : nat) (now : Z)
  | Mv_return (tid : nat)
  | Mv_exec (tid : nat) (at_ : Z) (lost : bool)
  | Mv_refuse (tid : nat)
  | Mv_verify (tid : nat) (proven : option OperationRecord)
  | Mv_throw (tid : nat).

Definition is_unused (tid : nat) x : bool :=
  match tasks x !! tid with None => forallb (fun r => negb (Nat.eqb r.1.1 tid)) (results x) | Some _ => false end.

(** The preparation a call returned. *)

Definition preparation_of (tid : nat) x : option (Method (W := W) * Preparation) :=
  match List.find (fun r => Nat.eqb r.1.1 tid) (results x) with
  | Some (_, m, V_preparation (Some p)) => Some (m, p)
  | _ => None
  end.

Definition call_with (m : Method (W := W)) (tid : nat) x : System :=
  let '(frames, source, s') := start (encodeUtf8 := encodeUtf8) m (app x) in
  log_accepted tid (accepts_now m source) (put_task tid (mkTask m frames source) (with_app s' x)).

Definition purge_with (m : Method (W := W)) (frames : list Frame) (s : OperationReceipts S) (tid tid' : nat) (now : Z) x : System :=
  let '(source, pass, s') := purgeExpired now s in
  add_calls tid (mkTask m frames source) ((fun c => (tid', c)) <$> pass) (with_app s' x).

Definition play_move (mv : Move) x : option System :=
  match mv with
  | Mv_call tid m =>
     match m with
     | M_commit _ _ | M_purgeExpired | M_retentionPass | M_timer _ => None
     | _ => if is_unused tid x then Some (call_with m tid x) else None
     end
  | Mv_commit tid prepared record =>
     match preparation_of prepared x with
     | Some (_, p) => if is_unused tid x then Some (call_with (M_commit p record) tid x) else None
     | None => None
     end
  | Mv_purge tid tid' now =>
     if is_unused tid x && is_unused tid' x && negb (Nat.eqb tid tid') then Some (purge_with M_purgeExpired [] (app x) tid tid' now x)
     else None
  | Mv_timer timer tid tid' now =>
     if existsb (fun a => Nat.eqb a.1 timer) (armed (app x)) && is_unused tid x && is_unused tid' x && negb (Nat.eqb tid tid')
        && bool_decide (retentionTimer (app x) = Some timer)
     then Some (purge_with (M_timer timer) [F_timer timer] (disarm timer (app x)) tid tid' now x)
     else None
  | Mv_cancel prepared =>
     match preparation_of prepared x with Some (_, p) => Some (with_app (cancel p (app x)) x) | None => None end
  | Mv_dispose => Some (with_app (dispose (app x)) x)
  | Mv_turn tid now =>
     match tasks x !! tid with
     | Some (mkTask m (f :: frames) (Got v)) =>
        let '(frames', source, s') := run_frame encodeUtf8 intentDigest now f v (app x) in
        Some (settle_joined f v (put_task tid (mkTask m (frames' ++ frames) source) (with_app s' x)))
     | _ => None
     end
  | Mv_return tid =>
     match tasks x !! tid with
     | Some (mkTask m [] (Got v)) =>
        Some (mkSystem (app x) (delete tid (tasks x)) (backend x) ((tid, m, v) :: results x) (accepted x) (others x))
     | _ => None
     end
  | Mv_exec tid at_ lost =>
     match tasks x !! tid with
     | Some (mkTask m frames (Ask request)) =>
        let '(answer, b) := rb_run at_ request (backend x) in
        Some (log_accepted tid (accepts request answer)
                (put_task tid (mkTask m frames (Got (if lost then V_failed else value_of answer))) (with_backend b x)))
     | _ => None
     end
  | Mv_refuse tid =>
     match tasks x !! tid with
     | Some (mkTask m frames (Ask _)) => Some (put_task tid (mkTask m frames (Got V_failed)) x)
     | _ => None
     end
  | Mv_verify tid proven =>
     match tasks x !! tid with
     | Some (mkTask m frames (AskVerifier _)) => Some (put_task tid (mkTask m frames (Got (V_proven proven))) x)
     | _ => None
     end
  | Mv_throw tid =>
     match tasks x !! tid with
     | Some (mkTask m frames (AskVerifier _)) => Some (put_task tid (mkTask m frames (Got V_failed)) x)
     | _ => None
     end
  end.

Fixpoint play (mvs : list Move) x : option System :=
  match mvs with
  | [] => Some x
  | mv :: rest => match play_move mv x with Some y => play rest y | None => None end
  end.

Lemma is_unused_spec tid x : is_unused tid x = true -> unused tid x.
Proof.
  unfold is_unused, unused. destruct (tasks x !! tid); [done |]. intros Hf. split; [done |].
  rewrite forallb_forall in Hf. apply Forall_forall. intros r Hr. apply list_elem_of_In in Hr. specialize (Hf r Hr).
  by apply negb_true_iff, Nat.eqb_neq in Hf.
Qed.

Lemma preparation_spec tid x m p : preparation_of tid x = Some (m, p) -> (tid, m, V_preparation (Some p)) ∈ results x.
Proof.
  unfold preparation_of. destruct (List.find _ _) as [[[tid' m'] v]|] eqn:E; [| done]. apply find_some in E as [Hin Hid].
  apply Nat.eqb_eq in Hid. cbn in Hid. subst tid'. destruct v; try done. destruct p0; [| done]. intros [= <- <-].
  by apply list_elem_of_In.
Qed.

#[local] Abbreviation step := (step (encodeUtf8 := encodeUtf8) (intentDigest := intentDigest)).

Lemma called_step m tid x : unused tid x ->
  match m with
  | M_commit p _ => exists tid' m', (tid', m', V_preparation (Some p)) ∈ results x
  | M_purgeExpired | M_retentionPass | M_timer _ => False
  | _ => True
  end -> step E_progress x (call_with m tid x).
Proof. intros Hu Hm. unfold call_with. destruct (start m (app x)) as [[fs src] s'] eqn:E. by econstructor. Qed.

Lemma play_move_step mv x y : play_move mv x = Some y -> exists e, step e x y.
Proof.
  destruct mv; cbn [play_move].
  - intros E. exists E_progress. destruct m; try done; destruct (is_unused tid x) eqn:Hu; try done; injection E as <-;
      (apply called_step; [by apply is_unused_spec | done]).
  - destruct (preparation_of _ _) as [[m p]|] eqn:Hp; [| done]. destruct (is_unused tid x) eqn:Hu; [| done]. intros [= <-].
    exists E_progress. apply called_step; [by apply is_unused_spec | eexists _, _; by apply preparation_spec].
  - destruct (_ && _) eqn:Hu; [| done]. intros [= <-]. rewrite !andb_true_iff in Hu. destruct Hu as [[H1 H2] H3].
    apply negb_true_iff, Nat.eqb_neq in H3. exists E_progress. unfold purge_with. destruct (purgeExpired _ _) as [[src ps] s'] eqn:E.
    eapply step_purgeExpired; [by apply is_unused_spec | by apply is_unused_spec | done | done].
  - destruct (_ && _) eqn:Hu; [| done]. intros [= <-]. rewrite !andb_true_iff in Hu. destruct Hu as [[[[H0 H1] H2] H3] H4].
    apply negb_true_iff, Nat.eqb_neq in H3. apply bool_decide_eq_true in H4.
    apply existsb_exists in H0 as ([t ms] & Hin & Ht). apply Nat.eqb_eq in Ht. cbn in Ht. subst t. apply list_elem_of_In in Hin.
    exists E_progress. unfold purge_with. destruct (purgeExpired _ _) as [[src ps] s'] eqn:E.
    eapply step_timer; [exact Hin | by apply is_unused_spec | by apply is_unused_spec | done | done | done].
  - destruct (preparation_of _ _) as [[m p]|] eqn:Hp; [| done]. intros [= <-]. exists E_progress. econstructor. by apply preparation_spec.
  - intros [= <-]. exists E_progress. constructor.
  - destruct (tasks x !! tid) as [[m [|f fs] source]|] eqn:E; [done | | done]. destruct source; try done.
    destruct (run_frame _ _ _ _ _ _) as [[fs' src] s'] eqn:Er. intros [= <-]. exists E_progress. by econstructor.
  - destruct (tasks x !! tid) as [[m [] []]|] eqn:E; try done. intros [= <-]. exists E_progress. by econstructor.
  - destruct (tasks x !! tid) as [[m fs []]|] eqn:E; try done. destruct (rb_run _ _ _) as [answer b] eqn:Er. intros [= <-].
    eexists. by econstructor.
  - destruct (tasks x !! tid) as [[m fs []]|] eqn:E; try done. intros [= <-]. exists E_progress. by econstructor.
  - destruct (tasks x !! tid) as [[m fs []]|] eqn:E; try done. intros [= <-]. exists E_progress. econstructor; [done |]. right. eauto.
  - destruct (tasks x !! tid) as [[m fs []]|] eqn:E; try done. intros [= <-]. exists E_progress. econstructor; [done |]. by left.
Qed.

Lemma play_steps mvs x y : play mvs x = Some y -> steps (encodeUtf8 := encodeUtf8) (intentDigest := intentDigest) x y.
Proof.
  revert x. induction mvs as [|mv mvs IH]; intros x; cbn; [by intros [= <-]; constructor |].
  destruct (play_move mv x) as [z|] eqn:E; [| done]. intros Hp. eapply rtc_l; [by eapply play_move_step | by apply IH].
Qed.

End runs.

(** ** A server over an empty store *)

#[export] Instance demo_backend : ReceiptBackend (Connection unit) unit latin_utf8 demo_digest :=
  sqlite_backend latin_utf8 demo_digest demo_write "instance" (fun s => demo_digest_length s) (demo_write_respects demo_digest).

#[export] Instance demo_account : LeaseAccount RuntimeRetainedBytes.t := RuntimeRetainedBytes.account false.

Definition demo_options (durable : bool) : Options := mkOptions "server" M0_LIMITS durable true true RECEIPT_RETENTION_MS 3600000 256.

Definition demo_system (durable : bool) : option (System (S := RuntimeRetainedBytes.t) (B := Connection unit) (W := unit)) :=
  initial (demo_options durable) RuntimeRetainedBytes.demo_runtime empty_store.

Definition demo_play (durable : bool) (mvs : list Move) : option System :=
  match demo_system durable with
  | Some x => play (encodeUtf8 := latin_utf8) (intentDigest := demo_digest) mvs x
  | None => None
  end.

Lemma demo_play_reachable durable mvs x : demo_play durable mvs = Some x ->
  reachable (encodeUtf8 := latin_utf8) (intentDigest := demo_digest) (demo_options durable) x.
Proof.
  unfold demo_play. destruct (demo_system durable) as [x0|] eqn:E; [| done]. intros Hp.
  exists RuntimeRetainedBytes.demo_runtime, empty_store, x0.
  split_and!; [apply RuntimeRetainedBytes.demo_runtime_ok | apply empty_store_ok | exact E | by eapply play_steps].
Qed.

Definition demo_record (revision : Z) (state : OperationState) : OperationRecord :=
  mkOperation "op-1" w_config_set revision state None None None None.

(** Reserve a key, commit its acceptance, bring it to its end and look it up. *)

Definition demo_accept : list (Move (W := unit)) :=
  [Mv_call 0 (M_prepare (demo_key "op-1") "intent"); Mv_exec 0 1 false; Mv_turn 0 1; Mv_turn 0 1; Mv_return 0;
   Mv_commit 1 0 (demo_record 0 os_accepted); Mv_exec 1 2 false; Mv_turn 1 2; Mv_return 1].

Definition demo_finish : list (Move (W := unit)) :=
  [Mv_call 2 (M_update (demo_key "op-1") (demo_record 1 os_running)); Mv_exec 2 3 false; Mv_turn 2 3; Mv_turn 2 3;
   Mv_exec 2 3 false; Mv_return 2;
   Mv_call 3 (M_lookup (demo_key "op-1") "intent"); Mv_exec 3 4 false; Mv_turn 3 4; Mv_return 3].

(** The state a schedule leads to. *)

Definition demo_blank (durable : bool) : System (S := RuntimeRetainedBytes.t) (B := Connection unit) (W := unit) :=
  mkSystem (mkReceipts (demo_options durable) [] 0 false None [] None 0 RuntimeRetainedBytes.demo_runtime) ∅ empty_store [] [] 0.

Definition demo_state (mvs : list Move) : System := default (demo_blank true) (demo_play true mvs).

Definition ran (mvs : list (Move (W := unit))) : bool := match demo_play true mvs with Some _ => true | None => false end.

Lemma demo_state_reachable mvs : ran mvs = true ->
  reachable (encodeUtf8 := latin_utf8) (intentDigest := demo_digest) (demo_options true) (demo_state mvs).
Proof. unfold ran, demo_state. destruct (demo_play true mvs) as [x|] eqn:E; [| done]. intros _. by eapply demo_play_reachable. Qed.
