(* ===== verification/ReceiptGuarantees.v ===== *)
(** * What operation receipts guarantee

    The theorems about every execution of the system of ReceiptSystem.v: the
    reservations and their bytes, the life of a key, acceptance at most once, the
    truth of the answers, and retention passes that never overlap. *)

From S2P Require Import Prelude Json Protocol Errors Pipe Operations OperationBounds JsMap LeaseAccount Retained.
From S2P Require Import StoreTables ReceiptStore ReceiptSafety ReceiptProperties ReceiptRetention ReceiptBackend OperationReceipts.
From S2P Require Import ReceiptSystem ReceiptContracts ReceiptInvariant ReceiptPasses ReceiptRuns.

Section guarantees.
Context {S : Type} `{LeaseAccount S} {B W : Type} {encodeUtf8 : string -> list Z} {intentDigest : string -> string}
  `{RB : !ReceiptBackend B W encodeUtf8 intentDigest}.
Implicit Types (x y : System (S := S) (B := B) (W := W)) (key : OperationReceiptKey) (p : Preparation).

#[local] Abbreviation step := (step (encodeUtf8 := encodeUtf8) (intentDigest := intentDigest)).
#[local] Abbreviation reachable := (reachable (encodeUtf8 := encodeUtf8) (intentDigest := intentDigest)).
#[local] Abbreviation leases := (leases (encodeUtf8 := encodeUtf8)).

Lemma reachable_options o x : reachable o x -> options (app x) = o.
Proof.
  intros (a & b & x0 & Ha & Hb & Hi & Hs). pose proof (initial_ok o a b x0 Ha Hb Hi) as Hok.
  destruct (steps_evolve x0 x Hok Hs) as (-> & _). unfold initial, newOperationReceipts in Hi.
  destruct (la_reserve _ _) as [[lease a']|]; [| done]. by injection Hi as <-.
Qed.

Lemma reachable_step o x e y : reachable o x -> step e x y -> reachable o y.
Proof.
  intros (a & b & x0 & Ha & Hb & Hi & Hs) Hst. exists a, b, x0. split_and!; [done..|]. eapply rtc_r; [exact Hs | by exists e].
Qed.

(** C38: the account is charged exactly the scratch lease and one lease per
    reservation, sized for its intent and its record; there is at most one
    reservation per key and at most the budget of them, with a database each is
    still uncommitted, and a disposed object holds nothing. *)
Theorem receipts_exact o x : reachable o x ->
  let s := app x in
  ledger (others x) (account s) (leases s)
  /\ zlen (entries s) <= Z.max 0 (operationReceipts (o_budgets o))
  /\ NoDup (jkeys (entries s))
  /\ (forall key e, jget key (entries s) = Some e -> en_key e = key /\ (o_durable o = true -> en_record e = None))
  /\ (disposed s = true -> entries s = [] /\ la_used (account s) = others x).
Proof.
  intros Hr s. pose proof (reachable_options o x Hr) as Ho. pose proof (so_app x (reachable_ok o x Hr)) as [H1 H2 H3 H4 H5].
  unfold budgets, durable in *. rewrite Ho in *. split_and!; [done | done | done | |].
  - intros key e He. destruct (H2 key e He) as (? & _ & ?). done.
  - intros Hd. split; [by apply H3 |]. pose proof (ledger_used _ _ _ H5) as Hu. unfold ReceiptSystem.leases in Hu.
    subst s. rewrite Hd, lsum_nil in Hu. lia.
Qed.

(** C3: whatever runs meanwhile, a key's life only moves forward.  Apart from
    database writes, a step accepts an unused key at revision 0, gives a receipt
    its successor, or replaces an ended one by its tombstone; succeeded, failed
    and cancelled never change, and requires_attention is only continued or
    abandoned. *)
Theorem receipt_life o x e y : reachable o x -> step e x y -> stable y = true ->
  forall key, event_life (intentDigest := intentDigest) e (visible x key) (visible y key).
Proof. intros Hr Hs. by apply (step_keeps e x y (reachable_ok o x Hr) Hs). Qed.

(** ** Identities of calls *)

Record ids_ok x : Prop := mk_ids_ok {
  io_results : NoDup ((fun r => r.1.1) <$> results x);
  io_tasks : forall r, r ∈ results x -> tasks x !! r.1.1 = None;
}.

Lemma ids_next x y : ids_ok x -> results y = results x ->
  (forall tid, tasks y !! tid <> None -> tasks x !! tid <> None \/ unused tid x) -> ids_ok y.
Proof.
  intros [H1 H2] Hr Ht. constructor; rewrite Hr; [done |]. intros r Hin. destruct (tasks y !! r.1.1) eqn:E; [| done].
  destruct (Ht r.1.1) as [Hx|[_ Hu]]; [congruence | by rewrite H2 in Hx |]. rewrite Forall_forall in Hu. by destruct (Hu r Hin).
Qed.

Lemma put_known (ts : gmap nat (Task (W := W))) tid t tid' : <[tid := t]> ts !! tid' <> None -> tid' = tid \/ ts !! tid' <> None.
Proof. destruct (decide (tid = tid')) as [->|Hne]; [by left |]. rewrite lookup_insert_ne by done. by right. Qed.

Lemma ids_add x tid tid' t pass s' : ids_ok x -> unused tid x -> unused tid' x ->
  ids_ok (add_calls tid t ((fun c => (tid', c)) <$> pass) (with_app s' x)).
Proof.
  intros Hx Hu Hu'. eapply ids_next; [exact Hx | by destruct pass as [[? ?]|] |]. intros tid0.
  destruct pass as [[? ?]|]; cbn; [intros [->|Hp]%put_known; [by right |]; revert Hp |]; intros [->|?]%put_known; auto.
Qed.

Lemma ids_step e x y : ids_ok x -> step e x y -> ids_ok y.
Proof.
  intros Hx Hs. destruct Hs; try (eapply ids_next; [exact Hx | done |]; intros tid0; cbn; try (by left)).
  - intros [->|?]%put_known; auto.
  - by eapply ids_add.
  - by eapply ids_add.
  - eapply ids_next; [exact Hx | by destruct f |]. intros tid0 Hn. left.
    assert (Hn' : <[tid := mkTask m (frames' ++ frames) source]> (tasks x) !! tid0 <> None).
    { destruct f; try exact Hn. cbn in Hn. rewrite lookup_fmap in Hn. by destruct (<[_ := _]> _ !! tid0). }
    apply put_known in Hn' as [->|?]; [congruence | done].
  - destruct Hx as [H1 H2]. constructor; cbn.
    + constructor; [| done]. intros (r & Hr & Hin)%list_elem_of_fmap. pose proof (H2 r Hin) as Hn. cbn in Hr. rewrite <- Hr in Hn. congruence.
    + intros r [->|Hin]%elem_of_cons; cbn; [by rewrite lookup_delete_eq |]. apply lookup_delete_None. right. by apply H2.
  - intros [->|?]%put_known; left; [congruence | done].
  - intros [->|?]%put_known; left; [congruence | done].
  - intros [->|?]%put_known; left; [congruence | done].
Qed.

Lemma reachable_ids o x : reachable o x -> ids_ok x.
Proof.
  intros (a & b & x0 & Ha & Hb & Hi & Hs). assert (H0 : ids_ok x0).
  { unfold initial in Hi. destruct (newOperationReceipts _ _); [| done]. injection Hi as <-. constructor; cbn; [constructor | by intros ? ?%elem_of_nil]. }
  clear -Hs H0. induction Hs as [|x y z [e Hxy] _ IH]; [done |]. apply IH. by eapply ids_step.
Qed.

(** ** Acceptance *)

(** The key whose operation a caller is told to have been accepted by its call. *)

Definition success (m : Method (W := W)) (v : Value) : option OperationReceiptKey :=
  match m, v with
  | M_commit p _, V_bool true => Some (p_key p)
  | M_write request, V_written (wr_operation _ true) => Some (dw_key request)
  | _, _ => None
  end.

Lemma NoDup_fmap_elem {A C} (f : A -> C) (l : list A) a b : NoDup (f <$> l) -> a ∈ l -> b ∈ l -> f a = f b -> a = b.
Proof.
  intros Hn (i & Hi)%list_elem_of_lookup (j & Hj)%list_elem_of_lookup Hf.
  assert (i = j) as ->; [| congruence].
  eapply NoDup_lookup; [exact Hn | by rewrite list_lookup_fmap, Hi | by rewrite list_lookup_fmap, Hj, Hf].
Qed.

(** C2: a key is accepted at most once, in whatever order calls, answers, lost
    answers and retries come: at most one call is ever told that it committed
    the acceptance of a key, it is the one whose request did so, and from then
    on the key counts as used. *)
Theorem accepted_once o x : reachable o x ->
  NoDup (accepted x).*2
  /\ (forall tid key, (tid, key) ∈ accepted x -> stable x = true -> visible x key <> None)
  /\ (forall tid m v key, (tid, m, v) ∈ results x -> success m v = Some key -> (tid, key) ∈ accepted x)
  /\ (forall r r' key, r ∈ results x -> r' ∈ results x ->
        success r.1.2 r.2 = Some key -> success r'.1.2 r'.2 = Some key -> r = r').
Proof.
  intros Hr. pose proof (reachable_ok o x Hr) as Hok. pose proof (reachable_ids o x Hr) as Hids.
  assert (Hlog : forall tid m v key, (tid, m, v) ∈ results x -> success m v = Some key -> (tid, key) ∈ accepted x).
  { intros tid m v key Hin Hs. pose proof (so_results x Hok tid m v Hin) as Hres. destruct m; try done; cbn in Hs.
    - destruct v as [| | |[]| | | | | | | | | |]; try done. injection Hs as <-. by apply Hres.
    - destruct Hres as [->|(w & -> & Hw)]; [done |]. destruct w as [op []| |]; try done. injection Hs as <-. apply Hw. }
  split_and!; [apply Hok | apply Hok | exact Hlog |].
  intros [[tid m] v] [[tid' m'] v'] key Hin Hin' Hs Hs'. cbn in Hs, Hs'.
  assert (tid = tid') as <-.
  { assert (Heq : (tid, key) = (tid', key)); [| congruence].
    eapply (NoDup_fmap_elem snd); [apply (so_once x Hok) | by eapply Hlog | by eapply Hlog | done]. }
  eapply (NoDup_fmap_elem (fun r => r.1.1)); [apply Hids | done | done | done].
Qed.

(** ** Answers *)

(** What a result says of its key now: the receipt it names is the key's, or its
    present receipt or tombstone descends from it. *)

Definition was_receipt x key (record : OperationRecord) : Prop :=
  exists stored, st_record stored = record /\ st_key stored = key
    /\ evolves intentDigest (Some (F_receipt stored)) (visible x key).

Definition answer_holds x (m : Method (W := W)) (v : Value) : Prop :=
  match m, v with
  | M_lookup key intent, V_lookup (L_existing r) =>
     exists stored, st_record stored = r /\ st_key stored = key /\ st_canonicalIntent stored = intent
       /\ evolves intentDigest (Some (F_receipt stored)) (visible x key)
  | M_lookup key intent, V_lookup L_expired =>
     exists t, visible x key = Some (F_tombstone t) /\ tomb_intentDigest t = intentDigest intent
  | M_read key, V_read (read_record r) | M_get key, V_record (Some r)
  | M_update key r, V_bool true | M_recover key _ r, V_bool true => was_receipt x key r
  | M_read key, V_read read_expired => exists t, visible x key = Some (F_tombstone t)
  | M_write request, V_written (wr_operation r true) => was_receipt x (dw_key request) r
  | _, _ => True
  end.

Lemma was_receipt_of x key r : stable x = true -> record_at x key r -> was_receipt x key r.
Proof. intros Hst (stored & Hr & Hk & Hs). exists stored. auto. Qed.

Lemma seen_tombstone x key t : stable x = true -> seen x key (Some (F_tombstone t)) -> visible x key = Some (F_tombstone t).
Proof. intros Hst [_ Hs]. by apply evolves_tombstone in Hs. Qed.

(** C5: every positive answer was true and stays so: the receipt that lookup,
    read or get returned, or that update, recover or a database write says it
    stored, is a state the key went through, of that very key and, for lookup,
    intent; and an answer that the receipt expired names the key's tombstone. *)
Theorem answers_sound o x tid m v : reachable o x -> (tid, m, v) ∈ results x -> stable x = true -> answer_holds x m v.
Proof.
  intros Hr Hin Hst. pose proof (so_results x (reachable_ok o x Hr) tid m v Hin) as Hres.
  destruct m; try done; cbn in Hres.
  - destruct v; try done. destruct l; try done; cbn in *.
    + destruct Hres as (stored & ? & ? & Hk & Hs). exists stored. auto.
    + destruct Hres as (t & Ht & Hs). exists t. split; [by apply seen_tombstone | done].
  - destruct v as [| | |[]| | | | | | | | | |]; try done. by apply was_receipt_of, Hres.
  - destruct v as [| | |[]| | | | | | | | | |]; try done. by apply was_receipt_of, Hres.
  - destruct Hres as [->|(w & -> & Hw)]; [done |]. destruct w as [op []| |]; try done. by apply was_receipt_of, Hw.
  - destruct v; try done. destruct r; [| done]. by apply was_receipt_of.
  - destruct v; try done. destruct r; try done; cbn in *.
    + by apply was_receipt_of.
    + destruct Hres as [t Ht]. exists t. by apply seen_tombstone.
Qed.

(** ** Types *)

Definition returns (m : Method (W := W)) (v : Value) : bool :=
  match m, v with
  | M_lookup _ _, V_lookup _ | M_prepare _ _, V_preparation _ => true
  | (M_commit _ _ | M_update _ _ | M_recover _ _ _), (V_bool _ | V_failed) => true
  | M_write _, (V_written _ | V_failed) | M_get _, (V_record _ | V_failed) | M_read _, (V_read _ | V_failed) => true
  | M_recoverInterrupted _, (V_records _ | V_failed) => true
  | (M_purgeExpired | M_retentionPass | M_timer _), (V_number _ | V_failed) => true
  | _, _ => false
  end.

Definition expects (f : Frame) (v : Value) : bool :=
  match f, v with
  | F_prepare _ _, V_lookup _ => true
  | F_prepare _ _, _ => false
  | _, V_failed => true
  | (F_lookup _ _ | F_successor _ _ | F_read _ | F_found _ _ _ _), V_found _ => true
  | (F_commit _ | F_recovering _ _ _ _ _ | F_proven _ _ _ _ _ _ | F_outcome _ _ _ _), V_bool _ => true
  | (F_update _ _ | F_recover _ _ _), V_stored _ => true
  | F_get _, V_read _ => true
  | F_unfinished _, V_list _ => true
  | F_verified _ _ _ _ _, V_proven _ => true
  | (F_highest | F_pass _ | F_timer _), V_number _ => true
  | F_batch _ _, V_batch _ => true
  | _, _ => false
  end.

(** C39: every promise settles with a value of the type its awaiter expects, or a
    rejection; lookup and prepare never reject, and a request reaches the
    database only when there is one. *)
Theorem calls_typed o x : reachable o x ->
  (forall tid m v, (tid, m, v) ∈ results x -> returns m v = true)
  /\ (forall tid m f frames v, tasks x !! tid = Some (mkTask m (f :: frames) (Got v)) -> expects f v = true)
  /\ (forall tid m frames request, tasks x !! tid = Some (mkTask m frames (Ask request)) -> o_durable o = true).
Proof.
  intros Hr. pose proof (reachable_ok o x Hr) as Hok. split_and!.
  - intros tid m v Hin. pose proof (so_results x Hok tid m v Hin) as Hres. destruct m, v; try done; destruct Hres as [|(? & ? & _)]; done.
  - intros tid m f frames v Ht. destruct (so_tasks x Hok tid _ Ht) as [_ _ Hsrc]. cbn in Hsrc. by destruct f, v.
  - intros tid m frames request Ht. destruct (so_tasks x Hok tid _ Ht) as [_ _ Hsrc]. cbn in Hsrc.
    destruct Hsrc as [[Hd _] _]. unfold durable in Hd. by rewrite (reachable_options o x Hr) in Hd.
Qed.

(** ** Retention *)

Definition retention_request (request : BackendRequest W) : bool :=
  match request with B_purge _ | B_highestRun => true | _ => false end.

Lemma asks_runs x tid t request : passes_ok x -> tasks x !! tid = Some t -> tk_source t = Ask request -> retention_request request = true ->
  exists pass, runs pass t.
Proof.
  intros Hx Ht Hs Hr. destruct (po_kind x Hx tid t Ht) as [[_ Hpl]|p _ _ Hs'|timer v _ Hs'|p _ Hrun]; [| congruence | congruence | by exists p].
  cbn in Hpl. rewrite Hs in Hpl. by destruct request.
Qed.

(** Retention passes never overlap: at most one task asks for a purge or its
    high-water mark, a call that joined a pass waits for the one that is
    running, at most one timer is armed, and a disposed object has none. *)
Theorem passes_exclusive o x : reachable o x ->
  (forall tid tid' t t' request request', tasks x !! tid = Some t -> tasks x !! tid' = Some t' ->
     tk_source t = Ask request -> tk_source t' = Ask request' ->
     retention_request request = true -> retention_request request' = true -> tid = tid')
  /\ (forall tid t pass, tasks x !! tid = Some t -> tk_source t = Joined pass ->
        retentionPass (app x) = Some pass /\ exists tid' t', tasks x !! tid' = Some t' /\ runs pass t')
  /\ (length (armed (app x)) <= 1)%nat
  /\ (disposed (app x) = true -> armed (app x) = [] /\ retentionTimer (app x) = None).
Proof.
  intros Hr. pose proof (reachable_passes o x Hr) as Hx. split_and!.
  - intros tid tid' t t' request request' Ht Ht' Hs Hs' Hq Hq'.
    destruct (asks_runs x tid t request Hx Ht Hs Hq) as [p Hp]. destruct (asks_runs x tid' t' request' Hx Ht' Hs' Hq') as [p' Hp'].
    by eapply (po_unique x Hx).
  - intros tid t pass Ht Hs.
    assert (Hp : retentionPass (app x) = Some pass).
    { destruct (po_kind x Hx tid t Ht) as [[_ Hpl]|p Hp _ Hs'|timer v _ Hs'|p _ Hrun]; [| congruence | congruence |].
      - cbn in Hpl. by rewrite Hs in Hpl.
      - unfold runs in Hrun. rewrite Hs in Hrun. by destruct (tk_frames t) as [|[] [|[] []]]. }
    split; [done |]. by apply (po_running x Hx).
  - destruct (po_timers x Hx) as (_ & _ & [->|(timer & ms & -> & _)] & _); cbn; lia.
  - apply (po_timers x Hx).
Qed.

End guarantees.

(** ** On the SQLite store *)

(** A reservation in flight: its lease beside the scratch lease. *)

Lemma receipts_exact_witness :
  let x := demo_state (take 5 demo_accept) in
  zlen (leases (encodeUtf8 := latin_utf8) (app x)) = 2 /\ ledger (others x) (account (app x)) (leases (encodeUtf8 := latin_utf8) (app x)).
Proof.
  split; [by vm_compute |].
  apply (receipts_exact (demo_options true) (demo_state (take 5 demo_accept))), demo_state_reachable. by vm_compute.
Defined.

(** The step in which the database stores the running record. *)

Definition before_update : list (Move (W := unit)) := demo_accept ++ take 4 demo_finish.
Definition after_update : list (Move (W := unit)) := demo_accept ++ take 5 demo_finish.

Lemma update_step : exists e, step (encodeUtf8 := latin_utf8) (intentDigest := demo_digest) e (demo_state before_update) (demo_state after_update).
Proof.
  unfold demo_state, before_update, after_update.
  destruct (demo_play true (demo_accept ++ take 4 demo_finish)) as [x|] eqn:E; [| by vm_compute in E].
  destruct (demo_play true (demo_accept ++ take 5 demo_finish)) as [y|] eqn:E'; [| by vm_compute in E'].
  apply (play_move_step (Mv_exec 2 3 false)). vm_compute in E, E'. injection E as <-. injection E' as <-. by vm_compute.
Qed.

Lemma receipt_life_witness :
  let x := demo_state before_update in let y := demo_state after_update in
  visible x (demo_key "op-1") <> visible y (demo_key "op-1")
  /\ exists e, event_life (intentDigest := demo_digest) e (visible x (demo_key "op-1")) (visible y (demo_key "op-1")).
Proof.
  split; [by vm_compute |]. destruct update_step as [e He]. exists e.
  apply (receipt_life (demo_options true) (demo_state before_update) e (demo_state after_update)); [| exact He | by vm_compute].
  apply demo_state_reachable. by vm_compute.
Defined.

Lemma accepted_once_witness :
  let x := demo_state (demo_accept ++ demo_finish) in accepted x = [(1%nat, demo_key "op-1")] /\ NoDup (accepted x).*2.
Proof.
  split; [by vm_compute |].
  apply (accepted_once (demo_options true) (demo_state (demo_accept ++ demo_finish))), demo_state_reachable. by vm_compute.
Defined.

Lemma answers_sound_witness :
  answer_holds (intentDigest := demo_digest) (demo_state (demo_accept ++ demo_finish)) (M_lookup (demo_key "op-1") "intent")
    (V_lookup (L_existing (demo_record 1 os_running))).
Proof.
  apply (answers_sound (demo_options true) (demo_state (demo_accept ++ demo_finish)) 3);
    [apply demo_state_reachable; by vm_compute | | by vm_compute].
  apply list_elem_of_lookup. exists 0%nat. by vm_compute.
Defined.

Lemma calls_typed_witness :
  results (demo_state demo_accept) <> []
  /\ returns (W := unit) (M_prepare (demo_key "op-1") "intent")
       (V_preparation (Some (mkPreparation (demo_key "op-1") "intent" 0 1))) = true.
Proof.
  split; [by vm_compute |].
  apply (proj1 (calls_typed (demo_options true) (demo_state demo_accept) ltac:(apply demo_state_reachable; by vm_compute))) with (tid := 0%nat).
  apply list_elem_of_lookup. exists 1%nat. by vm_compute.
Defined.

(** Two calls of one pass: the second joins it. *)

Definition demo_passes : list (Move (W := unit)) := [Mv_purge 0 1 7; Mv_purge 2 3 8].

Lemma passes_exclusive_witness :
  let x := demo_state demo_passes in
  retentionPass (app x) = Some 0%nat /\ exists tid t, tasks x !! tid = Some t /\ runs 0 t.
Proof.
  apply (passes_exclusive (demo_options true) (demo_state demo_passes) ltac:(apply demo_state_reachable; by vm_compute))
    with (tid := 2%nat) (t := mkTask M_purgeExpired [] (Joined 0)); by vm_compute.
Defined.

(** Commit may answer false although the acceptance was written: when the
    reservation is cancelled, or the object disposed, while the insert is in
    flight.  The comment of [commit] says nothing is written then. *)
Theorem refused_commit_written :
  exists o (x : System (S := RuntimeRetainedBytes.t) (B := Connection unit) (W := unit)) tid p record,
    reachable (encodeUtf8 := latin_utf8) (intentDigest := demo_digest) o x
    /\ (tid, M_commit p record, V_bool false) ∈ results x /\ (tid, p_key p) ∈ accepted x
    /\ visible x (p_key p) = Some (F_receipt (mkStored (p_key p) (p_intent p) record)).
Proof.
  pose (mvs := take 6 demo_accept ++ [Mv_cancel 0; Mv_exec 1 2 false; Mv_turn 1 2; Mv_return 1] : list (Move (W := unit))).
  exists (demo_options true), (demo_state mvs), 1%nat, (mkPreparation (demo_key "op-1") "intent" 0 1), (demo_record 0 os_accepted).
  split_and!; [apply demo_state_reachable; by vm_compute | | | by vm_compute].
  - apply list_elem_of_lookup. exists 0%nat. by vm_compute.
  - apply list_elem_of_lookup. exists 0%nat. by vm_compute.
Qed.
