(* ===== verification/ReceiptRecovery.v ===== *)
(** * Startup verification

    [recoverInterrupted] runs once before any request is served.  Alone, it ends
    whatever the store and the verifiers do, and when it resolves nothing is left
    accepted, running or recovering but what a verifier proved to be so. *)

From S2P Require Import Prelude Json Protocol Errors Pipe Operations JsMap LeaseAccount Retained.
From S2P Require Import StoreTables ReceiptStore ReceiptSafety ReceiptRetention ReceiptBackend OperationReceipts.
From S2P Require Import ReceiptSystem ReceiptContracts ReceiptInvariant ReceiptPasses ReceiptRuns.

Lemma terminal_finished st : terminal_state st = true -> unfinished_state st = false.
Proof. by destruct st. Qed.

Section recovery.
Context {S : Type} `{LeaseAccount S} {B W : Type} {encodeUtf8 : string -> list Z} {intentDigest : string -> string}
  `{RB : !ReceiptBackend B W encodeUtf8 intentDigest}.
Implicit Types (s : OperationReceipts S) (x y : System (S := S) (B := B) (W := W)) (b : B) (key : OperationReceiptKey).

(** A step of the task and of no other. *)

Definition own (tid : nat) (mv : Move (W := W)) : Prop :=
  match mv with
  | Mv_turn t _ | Mv_exec t _ _ | Mv_refuse t | Mv_verify t _ | Mv_throw t => t = tid
  | _ => False
  end.

Definition solo (tid : nat) x y : Prop :=
  exists mv, own tid mv /\ play_move (encodeUtf8 := encodeUtf8) (intentDigest := intentDigest) mv x = Some y.

(** An answer of a verifier: the receipt it was asked about, as its record was
    then, and the record it proved. *)

Record VerifierProof := mkProof { pf_key : OperationReceiptKey; pf_asked : OperationRecord; pf_proven : OperationRecord }.

(** What a move of the task adds to them. *)

Definition proofs_of (tid : nat) (mv : Move (W := W)) x : list VerifierProof :=
  match mv, tasks x !! tid with
  | Mv_verify _ (Some proven), Some (mkTask _ [F_verified _ key _ _ _] (AskVerifier asked)) => [mkProof key asked proven]
  | _, _ => []
  end.

(** The runs of the task, with what the verifiers proved in them. *)

Inductive solo_run (tid : nat) x : list VerifierProof -> System (S := S) (B := B) (W := W) -> Prop :=
  | sr_start : solo_run tid x [] x
  | sr_move proofs y mv z : solo_run tid x proofs y -> own tid mv ->
      play_move (encodeUtf8 := encodeUtf8) (intentDigest := intentDigest) mv y = Some z ->
      solo_run tid x (proofs ++ proofs_of tid mv y) z.

Section proofs.
Context (proofs : list VerifierProof).

(** A verifier, asked about the receipt of a key while it was recovering,
    answered the record. *)

Definition proved key (record : OperationRecord) : Prop :=
  exists asked, op_state asked = os_recovering /\ mkProof key asked record ∈ proofs.

(** What may still be unfinished: the receipts to come, and what was proven. *)

Definition covered b (keys : list OperationReceiptKey) (verified : list OperationRecord) : Prop :=
  forall key r, rb_view b key = Some (F_receipt r) -> unfinished_state (op_state (st_record r)) = true ->
    key ∈ keys \/ st_record r ∈ verified /\ proved key (st_record r).

Definition stored_as b key (record : OperationRecord) : Prop :=
  exists intent, rb_view b key = Some (F_receipt (mkStored key intent record)).

(** A frame that awaits an update of [key] to a record. *)

Definition ends (record : OperationRecord) : Prop := unfinished_state (op_state record) = false.

Inductive updating b : Frame -> OperationReceiptKey -> OperationRecord -> Prop :=
  | up_recovering verifiers key record rest verified :
      covered b (key :: (st_key <$> rest)) verified -> op_state record = os_recovering -> updating b (F_recovering verifiers key record rest verified) key record
  | up_proven verifiers key record proven rest verified :
      covered b (key :: (st_key <$> rest)) verified -> proved key proven ->
      updating b (F_proven verifiers key record proven rest verified) key proven
  | up_outcome verifiers key outcome rest verified :
      covered b (key :: (st_key <$> rest)) verified -> ends outcome -> updating b (F_outcome verifiers outcome rest verified) key outcome.

(** A frame that rejects with what it awaits. *)

Definition rejecting (f : Frame) : bool :=
  match f with
  | F_unfinished _ | F_found _ _ _ _ | F_recovering _ _ _ _ _ | F_proven _ _ _ _ _ _ | F_outcome _ _ _ _
  | F_successor _ _ | F_update _ _ => true
  | _ => false
  end.

Inductive recovering b : list Frame -> Source W -> Prop :=
  | rc_ask verifiers : recovering b [F_unfinished verifiers] (Ask B_unfinished)
  | rc_list verifiers l : covered b (st_key <$> l) [] -> recovering b [F_unfinished verifiers] (Got (V_list l))
  | rc_find verifiers key rest verified :
      covered b (key :: (st_key <$> rest)) verified -> recovering b [F_found verifiers key rest verified] (Ask (B_get key))
  | rc_found verifiers key rest verified :
      covered b (key :: (st_key <$> rest)) verified -> recovering b [F_found verifiers key rest verified] (Got (V_found (rb_view b key)))
  | rc_verify verifiers key record rest verified source :
      covered b (key :: (st_key <$> rest)) verified ->
      op_state record = os_recovering ->
      source = AskVerifier record \/ source = Got V_failed \/ source = Got (V_proven None)
      \/ (exists proven, source = Got (V_proven (Some proven)) /\ proved key proven) ->
      recovering b [F_verified verifiers key record rest verified] source
  | rc_read key next f : updating b f key next ->
      recovering b [F_successor key next; F_update key next; f] (Ask (B_get key))
  | rc_read_done key next f : updating b f key next ->
      recovering b [F_successor key next; F_update key next; f] (Got (V_found (rb_view b key)))
  | rc_current key next f o : updating b f key next -> (forall r, o = Some r -> rb_view b key = Some (F_receipt r)) ->
      recovering b [F_update key next; f] (Got (V_stored o))
  | rc_replace key next f r : updating b f key next -> rb_view b key = Some (F_receipt r) ->
      recovering b [f] (Ask (B_replace key (op_revision (st_record r)) next))
  | rc_replaced key next f (done : bool) : updating b f key next -> (done = true -> stored_as b key next) ->
      recovering b [f] (Got (V_bool done))
  | rc_end verified : covered b [] verified -> recovering b [] (Got (V_records verified))
  | rc_failed frames : forallb rejecting frames = true -> recovering b frames (Got V_failed).

Lemma next_receipt_recovering b verifiers rest verified s : durable s = true -> covered b (st_key <$> rest) verified ->
  let c := next_receipt (W := W) verifiers rest verified s in recovering b c.1.1 c.1.2.
Proof.
  intros Hd Hc. unfold next_receipt. destruct rest as [|r rest]; cbn [fst snd].
  - by apply rc_end.
  - unfold committed. rewrite Hd. by apply rc_find.
Qed.

Lemma await_update_recovering b key next f s : durable s = true -> updating b f key next ->
  let c := await_update (W := W) key next f s in recovering b c.1.1 c.1.2.
Proof.
  intros Hd Hu. unfold await_update, update, successor. destruct (negb _); cbn [fst snd Datatypes.app].
  - by eapply rc_current.
  - unfold committed. rewrite Hd. by eapply rc_read.
Qed.

Lemma covered_drop b key keys verified : covered b (key :: keys) verified ->
  (forall r, rb_view b key = Some (F_receipt r) -> unfinished_state (op_state (st_record r)) = true ->
     st_record r ∈ verified /\ proved key (st_record r)) ->
  covered b keys verified.
Proof.
  intros Hc Hk k r Hr Hu. destruct (Hc k r Hr Hu) as [[->|?]%elem_of_cons|?]; [right; by eapply Hk | by left | by right].
Qed.

Lemma covered_more b keys verified more : covered b keys verified -> covered b keys (verified ++ more).
Proof. intros Hc k r Hr Hu. destruct (Hc k r Hr Hu) as [?|[? ?]]; [by left | right]. split; [apply elem_of_app; by left | done]. Qed.

(** An update that was stored leaves its key with the record, which is proven or
    ends the operation. *)

Lemma covered_stored b key record rest verified : covered b (key :: rest) verified -> stored_as b key record ->
  proved key record \/ ends record -> covered b rest (verified ++ [record]).
Proof.
  intros Hc [intent Hs] Hp. eapply covered_drop; [by apply covered_more |]. intros r Hr Hu. rewrite Hs in Hr. injection Hr as <-.
  cbn in Hu. destruct Hp as [Hp|Hp]; [| unfold ends in Hp; congruence]. split; [apply elem_of_app; right; by left | done].
Qed.

Lemma verify_recovering b verifiers key record rest verified : covered b (key :: (st_key <$> rest)) verified ->
  op_state record = os_recovering ->
  let c := verify (W := W) verifiers key record rest verified in recovering b c.1 c.2.
Proof.
  intros Hc Hs. unfold verify. cbn. apply rc_verify; [done | done |]. destruct (verifiers _); [by left | by right; right; left].
Qed.

Lemma found_recovering b verifiers key rest verified s : durable s = true -> covered b (key :: (st_key <$> rest)) verified ->
  let c := found_unfinished (W := W) verifiers key rest verified (rb_view b key) s in recovering b c.1.1 c.1.2.
Proof.
  intros Hd Hc. unfold found_unfinished. destruct (rb_view b key) as [[r|t]|] eqn:E; cbn [receipt_of].
  - destruct (terminal_state (op_state (st_record r))) eqn:Ht.
    + apply next_receipt_recovering; [done |]. eapply covered_drop; [exact Hc |]. intros r' Hr' Hu. rewrite E in Hr'. injection Hr' as <-.
      by rewrite terminal_finished in Hu.
    + destruct (bool_decide _) eqn:Eb.
      * apply bool_decide_eq_true in Eb. by apply verify_recovering.
      * apply await_update_recovering; [done |]. by apply up_recovering.
  - apply next_receipt_recovering; [done |]. eapply covered_drop; [exact Hc |]. intros r' Hr' Hu. congruence.
  - apply next_receipt_recovering; [done |]. eapply covered_drop; [exact Hc |]. intros r' Hr' Hu. congruence.
Qed.

Lemma answer_recovering b verifiers key record rest verified proven s : durable s = true -> disposed s = false ->
  covered b (key :: (st_key <$> rest)) verified -> (forall p, proven = Some p -> proved key p) ->
  let c := verifier_answer (W := W) verifiers key record rest verified proven s in recovering b c.1.1 c.1.2.
Proof.
  intros Hd Hds Hc Hp. unfold verifier_answer. rewrite Hds. destruct proven as [proven|].
  - apply await_update_recovering; [done |]. apply up_proven; auto.
  - unfold attention. apply await_update_recovering; [done |]. by apply up_outcome.
Qed.

(** An update frame once the store has answered. *)

Lemma updated_recovering b now f key next (stored : bool) s : durable s = true -> updating b f key next ->
  (stored = true -> stored_as b key next) ->
  let c := run_frame (W := W) encodeUtf8 intentDigest now f (V_bool stored) s in recovering b c.1.1 c.1.2.
Proof.
  intros Hd Hu Hs. destruct Hu as [verifiers key record rest verified Hc Hst|verifiers key record proven rest verified Hc Hp|verifiers key outcome rest verified Hc He];
    destruct stored; cbn [run_frame]; try (by apply rc_failed).
  - by apply verify_recovering.
  - apply next_receipt_recovering; [done |]. eapply covered_stored; [exact Hc | by apply Hs | by left].
  - unfold attention. apply await_update_recovering; [done |]. by apply up_outcome.
  - apply next_receipt_recovering; [done |]. eapply covered_stored; [exact Hc | by apply Hs | by right].
Qed.

Lemma current_recovering b f key next o s : durable s = true -> disposed s = false -> updating b f key next ->
  (forall r, o = Some r -> rb_view b key = Some (F_receipt r)) -> rb_ok b ->
  let c := update_found (W := W) encodeUtf8 next o s in recovering b [f] c.1.
Proof.
  intros Hd Hds Hu Ho Hb. unfold update_found. destruct o as [r|]; [| by eapply rc_replaced].
  destruct (terminal_state _); [by eapply rc_replaced |]. unfold replace_with. rewrite Hds, Hd.
  pose proof (rb_view_key b key r Hb (Ho r eq_refl)) as <-.
  destruct (validate _ _ _ _) as [checked|] eqn:Hv; [| by eapply rc_replaced].
  apply (validate_spec (encodeUtf8 := encodeUtf8)) in Hv as (-> & _). cbn. eapply rc_replace; [done | by apply Ho].
Qed.

Lemma updating_rejects b f key next : updating b f key next -> rejecting f = true.
Proof. by destruct 1. Qed.

(** ** The task alone *)

Record alone (tid : nat) x : Prop := mk_alone {
  al_ok : sys_ok x;
  al_durable : durable (app x) = true;
  al_open : disposed (app x) = false;
  al_task : exists verifiers fs source,
    tasks x !! tid = Some (mkTask (M_recoverInterrupted verifiers) fs source) /\ recovering (backend x) fs source;
}.

Lemma turn_recovering x tid now (verifiers : ReceiptVerifiers) f fs v fs' source s' : alone tid x ->
  recovering (backend x) (f :: fs) (Got v) ->
  run_frame encodeUtf8 intentDigest now f v (app x) = (fs', source, s') ->
  recovering (backend x) (fs' ++ fs) source
  /\ tasks (settle_joined f v (put_task tid (mkTask (M_recoverInterrupted verifiers) (fs' ++ fs) source) (with_app s' x))) !! tid
     = Some (mkTask (M_recoverInterrupted verifiers) (fs' ++ fs) source).
Proof.
  intros [Hok Hd Hds _] Hr E. pose proof (so_backend x Hok) as Hb. split.
  2: { destruct f; try (cbn; by rewrite lookup_insert_eq). inversion Hr; subst; try done;
         match goal with Hu : updating _ _ _ _ |- _ => inversion Hu end. }
  inversion Hr as [|vs l Hc|vs k rest verified Hc|vs k rest verified Hc|vs k record rest verified src Hc Hst Hsrc|k next g Hu|k next g Hu
                  |k next g o Hu Ho|k next g r Hu Hv|k next g stored Hu Hs|verified Hc|frames Hf]; subst.
  - pose proof (next_receipt_recovering (backend x) vs l [] (app x) Hd Hc) as Hn. cbn in E. rewrite E in Hn. by rewrite app_nil_r.
  - pose proof (found_recovering (backend x) vs k rest verified (app x) Hd Hc) as Hn. cbn in E. rewrite E in Hn. by rewrite app_nil_r.
  - assert (Ha : exists proven, (forall p, proven = Some p -> proved k p)
        /\ verifier_answer vs k record rest verified proven (app x) = (fs', source, s')).
    { destruct Hsrc as [?|[[= ->]|[[= ->]|(proven & [= ->] & Hp)]]]; [done | by exists None | by exists None |].
      exists (Some proven). split; [by intros p [= <-] | done]. }
    destruct Ha as (proven & Hp & Ha).
    pose proof (answer_recovering (backend x) vs k record rest verified proven (app x) Hd Hds Hc Hp) as Hn.
    rewrite Ha in Hn. by rewrite app_nil_r.
  - cbn in E. injection E as <- <- <-. cbn. eapply rc_current; [exact Hu |].
    unfold successor_found. intros r. destruct (rb_view (backend x) k) as [[r'|]|]; cbn; try done. destruct (is_successor _ _); [by intros [= ->] | done].
  - pose proof (current_recovering (backend x) g k next o (app x) Hd Hds Hu Ho Hb) as Hn. cbn in E.
    destruct (update_found _ _ _ _) as [src s0] eqn:Eu. injection E as <- <- <-. exact Hn.
  - pose proof (updated_recovering (backend x) now f k next stored (app x) Hd Hu Hs) as Hn. rewrite E in Hn. by rewrite app_nil_r.
  - cbn in Hf. apply andb_true_iff in Hf as [Hf Hfs]. destruct f; try done; cbn in E; injection E as <- <- <-; by apply rc_failed.
Qed.

Lemma recovering_plain b f fs v : recovering b (f :: fs) (Got v) -> plain_frame f = true.
Proof.
  intros Hr. inversion Hr as [|vs l Hc|vs k rest verified Hc|vs k rest verified Hc|vs k record rest verified src Hc Hst Hsrc|k next g Hu|k next g Hu
                  |k next g o Hu Ho|k next g r Hu Hv|k next g stored Hu Hs|verified Hc|frames Hf]; subst; try done.
  - by destruct Hu.
  - cbn in Hf. apply andb_true_iff in Hf as [Hf _]. by destruct f.
Qed.

(** What the store answers. *)

Lemma exec_recovering x tid at_ fs request answer b : alone tid x -> recovering (backend x) fs (Ask request) -> request_ok x request ->
  rb_run at_ request (backend x) = (answer, b) -> recovering b fs (Got (value_of answer)).
Proof.
  intros [Hok Hd Hds _] Hr [_ Hreq] E. pose proof (so_backend x Hok) as Hb.
  inversion Hr as [vs|vs l Hc|vs k rest verified Hc|vs k rest verified Hc|vs k record rest verified src Hc Hst Hsrc|k next g Hu|k next g Hu
                  |k next g o Hu Ho|k next g r Hu Hv|k next g stored Hu Hs|verified Hc|frames Hf]; subst.
  - destruct (rb_unfinished_ok at_ (backend x) Hb) as (l & Hl & _ & Hin). rewrite Hl in E. injection E as <- <-.
    apply rc_list. intros key r Hv Hu. left. apply list_elem_of_fmap. exists r.
    pose proof (rb_view_key (backend x) key r Hb Hv) as Hk. split; [done |]. apply Hin. by rewrite Hk.
  - rewrite rb_get_ok in E by done. injection E as <- <-. by apply rc_found.
  - by destruct Hsrc as [?|[?|[?|(? & ? & ?)]]].
  - rewrite rb_get_ok in E by done. injection E as <- <-. by apply rc_read_done.
  - destruct Hreq as (Hsch & Hid & r0 & Hrev & Ha & Hseen).
    assert (Hcur : forall r', rb_view (backend x) k = Some (F_receipt r') -> revision_of r' = op_revision (st_record r) -> op_method next = op_method (st_record r')).
    { intros r' Hr' Hrr. assert (r' = r) as -> by congruence. destruct Hseen as [_ Hs]. rewrite view_visible, Hv in Hs by done.
      specialize (Hs ltac:(unfold stable; by rewrite Hd)). apply evolves_revision in Hs as (_ & _ & Hm & _). rewrite Hm.
      destruct Ha as [Hsucc _]. by apply is_successor_spec in Hsucc as (_ & ? & _). }
    pose proof (rb_replace_ok at_ k (op_revision (st_record r)) next (backend x) Hb Hsch Hid Hcur) as H'. rewrite E in H'.
    destruct H' as (Hb' & [(r' & -> & Hr' & _ & Hv')|(-> & -> & _)]); [| by eapply rc_replaced].
    assert (Hsto : stored_as b k next) by (exists (st_canonicalIntent r'); rewrite Hv'; by rewrite decide_True).
    assert (Hcov : forall rest verified, covered (backend x) (k :: rest) verified -> covered b (k :: rest) verified).
    { intros rest verified Hc key r1 Hr1 Hu1. rewrite Hv' in Hr1. case_decide as Hk; [left; subst; by left | by eapply Hc]. }
    eapply (rc_replaced b k next); [| done]. destruct Hu; [apply up_recovering | apply up_proven | apply up_outcome]; auto.
Qed.

Lemma ask_rejecting b fs request : recovering b fs (Ask request) -> forallb rejecting fs = true.
Proof.
  intros Hr. inversion Hr as [vs|vs l Hc|vs k rest verified Hc|vs k rest verified Hc|vs k record rest verified src Hc Hst Hsrc|k next g Hu|k next g Hu
                  |k next g o Hu Ho|k next g r Hu Hv|k next g stored Hu Hs|verified Hc|frames Hf]; subst; try done.
  - by destruct Hsrc as [?|[?|[?|(? & ? & ?)]]].
  - cbn. by rewrite (updating_rejects _ _ _ _ Hu).
  - cbn. by rewrite (updating_rejects _ _ _ _ Hu).
Qed.

(** A verifier is asked about a receipt that is recovering. *)

Lemma verifier_asked b fs record : recovering b fs (AskVerifier record) ->
  exists vs key rest verified, fs = [F_verified vs key record rest verified] /\ op_state record = os_recovering.
Proof.
  intros Hr. inversion Hr as [vs|vs l Hc|vs k rest verified Hc|vs k rest verified Hc|vs k record' rest verified src Hc Hst Hsrc|k next g Hu|k next g Hu
                  |k next g o Hu Ho|k next g r Hu Hw|k next g stored Hu Hs|verified Hc|frames Hf]; subst.
  destruct Hsrc as [[= ->]|[?|[?|(? & ? & ?)]]]; [by eexists _, _, _, _ | done..].
Qed.

Lemma verifier_recovering b fs record v : recovering b fs (AskVerifier record) ->
  v = V_failed \/ v = V_proven None
  \/ (exists vs key rest verified p, fs = [F_verified vs key record rest verified] /\ v = V_proven (Some p) /\ proved key p) ->
  recovering b fs (Got v).
Proof.
  intros Hr Hv. inversion Hr as [vs|vs l Hc|vs k rest verified Hc|vs k rest verified Hc|vs k record' rest verified src Hc Hst Hsrc|k next g Hu|k next g Hu
                  |k next g o Hu Ho|k next g r Hu Hw|k next g stored Hu Hs|verified Hc|frames Hf]; subst.
  apply rc_verify; [done | done |]. right. destruct Hv as [->|[->|(vs' & key & rest' & verified' & p & [= <- <- <- <- <-] & -> & Hp)]];
    [by left | by right; left | right; right; by exists p].
Qed.

End proofs.

(** More is proven as the run goes on. *)

Lemma proved_mono pf pf' key record : pf ⊆ pf' -> proved pf key record -> proved pf' key record.
Proof. intros Hs (asked & Ha & Hp). exists asked. split; [done | by apply Hs]. Qed.

Lemma covered_mono pf pf' b keys verified : pf ⊆ pf' -> covered pf b keys verified -> covered pf' b keys verified.
Proof.
  intros Hs Hc key r Hr Hu. destruct (Hc key r Hr Hu) as [?|[? ?]]; [by left | right; split; [done | by eapply proved_mono]].
Qed.

Lemma updating_mono pf pf' b f key next : pf ⊆ pf' -> updating pf b f key next -> updating pf' b f key next.
Proof.
  intros Hs []; [apply up_recovering | apply up_proven | apply up_outcome]; eauto using covered_mono, proved_mono.
Qed.

Lemma recovering_mono pf pf' b fs source : pf ⊆ pf' -> recovering pf b fs source -> recovering pf' b fs source.
Proof.
  intros Hs []; try (econstructor; eauto using covered_mono, updating_mono; fail).
  eapply rc_verify; [by eapply covered_mono | done |].
  match goal with Hsrc : _ \/ _ |- _ => destruct Hsrc as [?|[?|[?|(proven & ? & ?)]]] end; auto.
  do 3 right. exists proven. split; [done | by eapply proved_mono].
Qed.

Lemma alone_mono pf pf' tid x : pf ⊆ pf' -> alone pf tid x -> alone pf' tid x.
Proof.
  intros Hs [H1 H2 H3 (vs & fs & source & Ht & Hr)]. constructor; [done.. |]. exists vs, fs, source.
  split; [done | by eapply recovering_mono].
Qed.

Lemma solo_alone pf tid x mv y : alone pf tid x -> own tid mv ->
  play_move (encodeUtf8 := encodeUtf8) (intentDigest := intentDigest) mv x = Some y -> alone (pf ++ proofs_of tid mv x) tid y.
Proof.
  intros Hal Hown Hp. pose proof Hal as [Hok Hd Hds (vs & fs & source & Ht & Hr)].
  destruct (play_move_step mv x y Hp) as [e Hstep]. destruct (step_keeps e x y Hok Hstep) as (Hy & Hl & _ & _).
  assert (Hdy : durable (app y) = true) by (by rewrite (later_durable _ _ Hl)).
  destruct mv; try done; cbn in Hown; subst tid0; cbn [play_move] in Hp; unfold proofs_of; rewrite Ht in *; rewrite ?app_nil_r.
  - destruct fs as [|f fs]; [done |]. destruct source as [| | |v]; try done.
    destruct (run_frame _ _ _ _ _ _) as [[fs' source] s'] eqn:E. injection Hp as <-.
    destruct (turn_recovering pf x tid now vs f fs v fs' source s' Hal Hr E) as [Hr' Ht'].
    assert (Happ : forall y0, app (settle_joined f v y0) = app y0) by (by destruct f).
    assert (Hback : forall y0, backend (settle_joined f v y0) = backend y0) by (by destruct f).
    constructor; [done | done | | exists vs, (fs' ++ fs), source; split; [exact Ht' |]; by rewrite Hback].
    rewrite Happ. cbn. pose proof (run_plain (W := W) (encodeUtf8 := encodeUtf8) (intentDigest := intentDigest) now f v (app x) (recovering_plain _ _ _ _ _ Hr)) as [_ Hm]. rewrite E in Hm.
    pose proof (mv_disposed _ _ Hm) as Hdd. cbn in Hdd. by rewrite Hdd.
  - destruct source as [request| | |]; try (by destruct fs). destruct (rb_run _ _ _) as [answer b] eqn:E. injection Hp as <-.
    constructor; [done | done | done |]. exists vs, fs. eexists. split; [cbn; by rewrite lookup_insert_eq |]. cbn.
    destruct (so_tasks x Hok tid _ Ht) as [_ _ [Hreq _]].
    destruct lost; [apply rc_failed; by eapply ask_rejecting | by eapply exec_recovering].
  - destruct source as [request| | |]; try (by destruct fs). injection Hp as <-.
    constructor; [done | done | done |]. exists vs, fs. eexists. split; [cbn; by rewrite lookup_insert_eq |]. cbn.
    apply rc_failed. by eapply ask_rejecting.
  - destruct source as [|record| |]; try (by destruct fs). injection Hp as <-.
    destruct (verifier_asked _ _ _ _ Hr) as (vs' & key & rest & verified & -> & Hst).
    constructor; [done | done | done |]. exists vs. eexists _, _. split; [cbn; by rewrite lookup_insert_eq |]. cbn [backend put_task].
    eapply verifier_recovering; [eapply recovering_mono; [| exact Hr] |]; [by intros ? ?; apply elem_of_app; left |].
    destruct proven as [p|]; [right; right | by right; left]. exists vs', key, rest, verified, p. split_and!; [done | done |].
    exists record. split; [done |]. apply elem_of_app. right. by left.
  - destruct source as [|record| |]; try (by destruct fs). injection Hp as <-.
    constructor; [done | done | done |]. exists vs, fs. eexists. split; [cbn; by rewrite lookup_insert_eq |]. cbn.
    eapply verifier_recovering; [exact Hr | by left].
Qed.

Lemma solo_run_alone pf tid x proofs y : alone pf tid x -> solo_run tid x proofs y -> alone (pf ++ proofs) tid y.
Proof.
  intros Hal. induction 1 as [|proofs y mv z _ IH Hown Hp]; [by rewrite app_nil_r |].
  rewrite (assoc_L (++)). by eapply solo_alone.
Qed.

(** ** It ends *)

Definition base (g : Frame) : nat :=
  match g with
  | F_recovering _ _ _ rest _ => 32 * length rest + 20
  | F_proven _ _ _ _ rest _ => 32 * length rest + 10
  | F_outcome _ _ rest _ => 32 * length rest + 1
  | _ => 0
  end.

Definition waits (source : Source W) : nat := match source with Got _ => 0 | _ => 1 end.

(** The turns and answers still to come, once the unfinished receipts are known. *)

Definition weight (fs : list Frame) (source : Source W) : nat :=
  match fs, source with
  | [F_verified _ _ _ rest _], _ => 32 * length rest + 16 + waits source
  | _, Got V_failed => length fs
  | [F_unfinished _], Got (V_list l) => 32 * length l + 1
  | [F_found _ _ rest _], _ => 32 * length rest + 30 + waits source
  | [F_successor _ _; F_update _ _; g], _ => base g + 3 + waits source
  | [F_update _ _; g], _ => base g + 2
  | [g], _ => base g + waits source
  | _, _ => 0
  end.

Definition asking (fs : list Frame) (source : Source W) : bool :=
  match fs, source with [F_unfinished _], Ask _ => true | _, _ => false end.

Definition lighter (c c' : list Frame * Source W) : Prop := (weight c.1 c.2 < weight c'.1 c'.2)%nat /\ asking c.1 c.2 = false.

Lemma next_receipt_lighter verifiers rest verified s n : durable s = true -> (32 * length rest < n)%nat ->
  let c := next_receipt (W := W) verifiers rest verified s in (weight c.1.1 c.1.2 < n)%nat /\ asking c.1.1 c.1.2 = false.
Proof.
  intros Hd Hn. unfold next_receipt. destruct rest as [|r rest]; cbn [fst snd]; [cbn in *; split; [lia | done] |].
  unfold committed. rewrite Hd. cbn in *. split; [lia | done].
Qed.

Lemma await_update_lighter key next f s n : durable s = true -> (base f + 4 < n)%nat ->
  let c := await_update (W := W) key next f s in (weight c.1.1 c.1.2 < n)%nat /\ asking c.1.1 c.1.2 = false.
Proof.
  intros Hd Hn. unfold await_update, update, successor. destruct (negb _); cbn [fst snd Datatypes.app weight asking].
  - split; [lia | done].
  - unfold committed. rewrite Hd. cbn. split; [lia | done].
Qed.

Lemma verify_lighter verifiers key record rest verified n : (32 * length rest + 17 < n)%nat ->
  let c := verify (W := W) verifiers key record rest verified in (weight c.1 c.2 < n)%nat /\ asking c.1 c.2 = false.
Proof. intros Hn. unfold verify. cbn. destruct (verifiers _); cbn; (split; [lia | done]). Qed.

Lemma weight_failed fs : forallb rejecting fs = true -> weight fs (Got V_failed) = length fs.
Proof. intros Hf. unfold weight. repeat case_match; simplify_eq; try done. Qed.

Lemma turn_lighter pf x tid now f fs v : alone pf tid x -> recovering pf (backend x) (f :: fs) (Got v) ->
  let c := run_frame (W := W) encodeUtf8 intentDigest now f v (app x) in
  (weight (c.1.1 ++ fs) c.1.2 < weight (f :: fs) (Got v))%nat /\ asking (c.1.1 ++ fs) c.1.2 = false.
Proof.
  intros [Hok Hd Hds _] Hr.
  inversion Hr as [|vs l Hc|vs k rest verified Hc|vs k rest verified Hc|vs k record rest verified src Hc Hst Hsrc|k next g Hu|k next g Hu
                  |k next g o Hu Ho|k next g r Hu Hv|k next g stored Hu Hs|verified Hc|frames Hf]; subst.
  - cbn [run_frame]. pose proof (next_receipt_lighter vs l [] (app x) (32 * length l + 1) Hd ltac:(lia)) as Hn.
    destruct (next_receipt _ _ _ _) as [[fs' src] s']. cbn [fst snd] in *. by rewrite app_nil_r.
  - cbn [run_frame]. unfold found_unfinished. set (n := weight _ (Got _)).
    assert (Hnext : let c := next_receipt (W := W) vs rest verified (app x) in (weight (c.1.1 ++ []) c.1.2 < n)%nat /\ asking (c.1.1 ++ []) c.1.2 = false).
    { pose proof (next_receipt_lighter vs rest verified (app x) n Hd ltac:(subst n; cbn -[Nat.mul]; lia)) as Hn.
      destruct (next_receipt _ _ _ _) as [[fs' src] s']. cbn [fst snd] in *. by rewrite app_nil_r. }
    destruct (receipt_of _) as [r|]; [| exact Hnext]. destruct (terminal_state _); [exact Hnext |]. destruct (bool_decide _).
    + pose proof (verify_lighter vs k (st_record r) rest verified n ltac:(subst n; cbn -[Nat.mul]; lia)) as Hn.
      destruct (verify _ _ _ _ _) as [fs' src]. cbn [fst snd] in *. by rewrite app_nil_r.
    + set (g := F_recovering _ _ _ _ _). pose proof (await_update_lighter k (in_state os_recovering (st_record r)) g (app x) n Hd ltac:(subst n; cbn -[Nat.mul]; lia)) as Hn.
      destruct (await_update _ _ _ _) as [[fs' src] s']. cbn [fst snd] in *. by rewrite app_nil_r.
  - set (n := weight _ (Got _)). assert (Ha : forall proven, let c := verifier_answer (W := W) vs k record rest verified proven (app x) in
      (weight (c.1.1 ++ []) c.1.2 < n)%nat /\ asking (c.1.1 ++ []) c.1.2 = false).
    { intros proven. unfold verifier_answer. rewrite Hds. destruct proven as [proven|].
      - pose proof (await_update_lighter k proven (F_proven vs k record proven rest verified) (app x) n Hd ltac:(subst n; cbn -[Nat.mul]; lia)) as Hn.
        destruct (await_update _ _ _ _) as [[fs' src] s']. cbn [fst snd] in *. by rewrite app_nil_r.
      - unfold attention. pose proof (await_update_lighter k (unproven record) (F_outcome vs (unproven record) rest verified) (app x) n Hd ltac:(subst n; cbn -[Nat.mul]; lia)) as Hn.
        destruct (await_update _ _ _ _) as [[fs' src] s']. cbn [fst snd] in *. by rewrite app_nil_r. }
    destruct Hsrc as [?|[[= ->]|[[= ->]|(proven & [= ->] & _)]]]; [done | apply (Ha None) | apply (Ha None) | apply (Ha (Some proven))].
  - cbn. split; [lia | done].
  - cbn [run_frame]. destruct (update_found _ _ _ _) as [src s'] eqn:E. change ((weight [g] src < base g + 2)%nat /\ asking [g] src = false).
    assert (Hv : (weight [g] src <= base g + 1)%nat /\ asking [g] src = false); [| destruct Hv; split; [lia | done]].
    destruct Hu; (split; [| done]); destruct src as [| | |[]]; cbn -[Nat.mul]; lia.
  - destruct Hu as [vs key record rest verified Hc Hst|vs key record proven rest verified Hc Hp|vs key outcome rest verified Hc He];
      cbn [run_frame]; set (n := weight _ (Got _)); destruct stored; try (cbn; split; [lia | done]).
    + pose proof (verify_lighter vs key record rest verified n ltac:(subst n; cbn -[Nat.mul]; lia)) as Hn.
      destruct (verify _ _ _ _ _) as [fs' src]. cbn [fst snd] in *. by rewrite app_nil_r.
    + pose proof (next_receipt_lighter vs rest (verified ++ [proven]) (app x) n Hd ltac:(subst n; cbn -[Nat.mul]; lia)) as Hn.
      destruct (next_receipt _ _ _ _) as [[fs' src] s']. cbn [fst snd] in *. by rewrite app_nil_r.
    + unfold attention. pose proof (await_update_lighter key (unproven record) (F_outcome vs (unproven record) rest verified) (app x) n Hd ltac:(subst n; cbn -[Nat.mul]; lia)) as Hn.
      destruct (await_update _ _ _ _) as [[fs' src] s']. cbn [fst snd] in *. by rewrite app_nil_r.
    + pose proof (next_receipt_lighter vs rest (verified ++ [outcome]) (app x) n Hd ltac:(subst n; cbn -[Nat.mul]; lia)) as Hn.
      destruct (next_receipt _ _ _ _) as [[fs' src] s']. cbn [fst snd] in *. by rewrite app_nil_r.
  - cbn in Hf. apply andb_true_iff in Hf as [Hf Hfs].
    assert (Hrun : run_frame (W := W) encodeUtf8 intentDigest now f V_failed (app x) = (([], Got V_failed), app x)) by by destruct f.
    rewrite Hrun. cbn [fst snd Datatypes.app]. split; [| by destruct fs as [|[] [|]]].
    rewrite (weight_failed fs Hfs), (weight_failed (f :: fs)) by (cbn; by rewrite Hf). cbn. lia.
Qed.

Lemma answer_lighter pf b fs source v : recovering pf b fs source -> (forall w, source <> Got w) -> asking fs source = false ->
  (weight fs (Got v) < weight fs source)%nat.
Proof.
  intros Hr Hs Ha.
  inversion Hr as [vs|vs l Hc|vs k rest verified Hc|vs k rest verified Hc|vs k record rest verified src Hc Hst Hsrc|k next g Hu|k next g Hu
                  |k next g o Hu Ho|k next g r Hu Hv|k next g stored Hu Hsto|verified Hc|frames Hf]; subst; try done;
    try (by destruct (Hs _ eq_refl)).
  - destruct v; cbn -[Nat.mul]; lia.
  - destruct Hsrc as [->|[->|[->|(proven & -> & _)]]]; [destruct v; cbn -[Nat.mul]; lia | by destruct (Hs _ eq_refl)..].
  - destruct Hu, v; cbn -[Nat.mul]; lia.
  - destruct Hu, v; cbn -[Nat.mul]; lia.
Qed.

Definition mu (tid : nat) x : nat :=
  match tasks x !! tid with Some t => weight (tk_frames t) (tk_source t) | None => 0 end.

Definition asks (tid : nat) x : bool :=
  match tasks x !! tid with Some t => asking (tk_frames t) (tk_source t) | None => false end.

Lemma got_not_asking fs v : asking fs (Got v) = false.
Proof. by destruct fs as [|[] [|]]. Qed.

Lemma solo_lighter pf tid x y : alone pf tid x -> solo tid x y -> asks tid y = false /\ (asks tid x = true \/ (mu tid y < mu tid x)%nat).
Proof.
  intros Hal (mv & Hown & Hp). pose proof Hal as [Hok Hd Hds (vs & fs & source & Ht & Hr)]. unfold asks, mu. rewrite Ht. cbn [tk_frames tk_source].
  assert (Hans : forall v, (forall w, source <> Got w) ->
    tasks y !! tid = Some (mkTask (M_recoverInterrupted vs) fs (Got v)) ->
    match tasks y !! tid with Some t => asking (tk_frames t) (tk_source t) | None => false end = false
    /\ (asking fs source = true
        \/ (match tasks y !! tid with Some t => weight (tk_frames t) (tk_source t) | None => 0 end < weight fs source)%nat)).
  { intros v Hs ->. cbn. split; [apply got_not_asking |]. destruct (asking fs source) eqn:Ea; [by left | right; by eapply answer_lighter]. }
  destruct mv; try done; cbn in Hown; subst tid0; cbn [play_move] in Hp; rewrite Ht in Hp.
  - destruct fs as [|f fs]; [done |]. destruct source as [| | |v]; try done.
    pose proof (turn_lighter pf x tid now f fs v Hal Hr) as [Hw Ha].
    destruct (run_frame _ _ _ _ _ _) as [[fs' source] s'] eqn:E. injection Hp as <-.
    destruct (turn_recovering pf x tid now vs f fs v fs' source s' Hal Hr E) as [Hr' Ht'].
    rewrite Ht'. cbn [fst snd tk_frames tk_source] in *. split; [done | by right].
  - destruct source as [request| | |]; try (by destruct fs). destruct (rb_run _ _ _) as [answer b] eqn:E. injection Hp as <-.
    eapply Hans; [done | cbn; by rewrite lookup_insert_eq].
  - destruct source as [request| | |]; try (by destruct fs). injection Hp as <-. eapply Hans; [done | cbn; by rewrite lookup_insert_eq].
  - destruct source as [|record| |]; try (by destruct fs). injection Hp as <-. eapply Hans; [done | cbn; by rewrite lookup_insert_eq].
  - destruct source as [|record| |]; try (by destruct fs). injection Hp as <-. eapply Hans; [done | cbn; by rewrite lookup_insert_eq].
Qed.

Lemma solo_acc pf tid x : alone pf tid x -> Acc (fun y x => solo tid x y) x.
Proof.
  assert (Hnext : forall pf x y, alone pf tid x -> solo tid x y -> exists pf', alone pf' tid y).
  { intros pf0 x0 y Hal (mv & Hown & Hp). eexists. by eapply solo_alone. }
  assert (Hknown : forall n pf x, alone pf tid x -> asks tid x = false -> (mu tid x <= n)%nat -> Acc (fun y x => solo tid x y) x).
  { induction n as [|n IH]; intros pf0 x0 Hal Ha Hm; constructor; intros y Hy; destruct (solo_lighter pf0 tid x0 y Hal Hy) as [Hay [?|Hlt]];
      try congruence; [lia |]. destruct (Hnext pf0 x0 y Hal Hy) as [pf' Hal']. by apply (IH pf'); [| | lia]. }
  intros Hal. destruct (asks tid x) eqn:Ha; [| by eapply (Hknown (mu tid x) pf)].
  constructor. intros y Hy. destruct (solo_lighter pf tid x y Hal Hy) as [Hay _]. destruct (Hnext pf x y Hal Hy) as [pf' Hal'].
  by eapply (Hknown (mu tid y) pf').
Qed.

(** A task that has not ended can go on. *)

Lemma solo_goes_on pf tid x : alone pf tid x ->
  (exists y, solo tid x y) \/ exists m v, tasks x !! tid = Some (mkTask m [] (Got v)).
Proof.
  intros [Hok Hd Hds (vs & fs & source & Ht & Hr)]. destruct source as [request|record|pass|v].
  - left. destruct (rb_run 0 request (backend x)) as [answer b] eqn:E. eexists. exists (Mv_exec tid 0 false). split; [done |].
    cbn. rewrite Ht, E. done.
  - left. eexists. exists (Mv_throw tid). split; [done |]. cbn. by rewrite Ht.
  - exfalso. inversion Hr; subst. match goal with Hs : _ \/ _ |- _ => destruct Hs as [?|[?|[?|(? & ? & ?)]]]; done end.
  - destruct fs as [|f fs]; [right; eauto | left]. destruct (run_frame (W := W) encodeUtf8 intentDigest 0 f v (app x)) as [[fs' src] s'] eqn:E.
    eexists. exists (Mv_turn tid 0). split; [done |]. cbn. by rewrite Ht, E.
Qed.

Lemma ended_stays tid y z m v : tasks y !! tid = Some (mkTask m [] (Got v)) -> ~ solo tid y z.
Proof.
  intros Ht (mv & Hown & Hp). destruct mv; try done; cbn in Hown; subst; cbn [play_move] in Hp; by rewrite Ht in Hp.
Qed.

Lemma alone_start o x tid verifiers : reachable (encodeUtf8 := encodeUtf8) (intentDigest := intentDigest) o x -> durable (app x) = true ->
  disposed (app x) = false -> unused tid x -> alone [] tid (call_with (encodeUtf8 := encodeUtf8) (M_recoverInterrupted verifiers) tid x).
Proof.
  intros Hr Hd Hds Hu. pose proof (reachable_ok o x Hr) as Hok.
  pose proof (called_step (encodeUtf8 := encodeUtf8) (intentDigest := intentDigest) (M_recoverInterrupted verifiers) tid x Hu I) as Hs.
  assert (E : start (encodeUtf8 := encodeUtf8) (M_recoverInterrupted verifiers) (app x) = (([F_unfinished verifiers], Ask (W := W) B_unfinished), app x))
    by (cbn [start]; unfold recoverInterrupted; by rewrite Hd, Hds).
  destruct (step_keeps _ _ _ Hok Hs) as (Hy & _). unfold call_with in *. rewrite E in *.
  constructor; [done | done | done |]. exists verifiers. eexists _, _. split; [cbn; by rewrite lookup_insert_eq | apply rc_ask].
Qed.

(** C4: startup verification ends, whatever the store and the verifiers do: it
    cannot run for ever and is never stuck before its end; and when it resolves,
    each receipt still accepted, running or recovering is one of the records it
    returned and is the record that a verifier, asked in this run about that
    receipt while it was recovering, answered as proven.  What no verifier proves
    has ended. *)
Theorem recovery_complete o x tid verifiers :
  reachable (encodeUtf8 := encodeUtf8) (intentDigest := intentDigest) o x -> durable (app x) = true ->
  disposed (app x) = false -> unused tid x ->
  let x0 := call_with (encodeUtf8 := encodeUtf8) (M_recoverInterrupted verifiers) tid x in
  Acc (fun z y => solo tid y z) x0
  /\ forall proofs y, solo_run tid x0 proofs y ->
       (exists z, solo tid y z)
       \/ exists m v, tasks y !! tid = Some (mkTask m [] (Got v))
            /\ (v = V_failed
                \/ exists verified, v = V_records verified
                     /\ forall key r, visible y key = Some (F_receipt r) -> unfinished_state (op_state (st_record r)) = true ->
                          st_record r ∈ verified
                          /\ exists asked, op_state asked = os_recovering /\ mkProof key asked (st_record r) ∈ proofs).
Proof.
  intros Hr Hd Hds Hu x0. pose proof (alone_start o x tid verifiers Hr Hd Hds Hu) as Hal. split; [by apply (solo_acc []) |].
  intros proofs y Hrun. pose proof (solo_run_alone [] tid _ proofs y Hal Hrun) as Haly. cbn [Datatypes.app] in Haly.
  destruct (solo_goes_on proofs tid y Haly) as [?|(m & v & Ht)]; [by left | right]. exists m, v. split; [done |].
  destruct Haly as [_ Hdy _ (vs & fs & source & Ht' & Hrec)]. rewrite Ht in Ht'. injection Ht' as -> <- <-.
  inversion Hrec as [| | | | | | | | | |verified Hc|]; subst; [right | by left]. exists verified. split; [done |].
  intros key r Hv Hun. rewrite view_visible in Hv by done. destruct (Hc key r Hv Hun) as [Hin|?]; [by apply elem_of_nil in Hin | done].
Qed.

(** Schedules of the task alone. *)

Definition owned (tid : nat) (mv : Move (W := W)) : bool :=
  match mv with
  | Mv_turn t _ | Mv_exec t _ _ | Mv_refuse t | Mv_verify t _ | Mv_throw t => (t =? tid)%nat
  | _ => false
  end.

Fixpoint solo_play (tid : nat) (mvs : list (Move (W := W))) (proofs : list VerifierProof) x
    : option (list VerifierProof * System (S := S) (B := B) (W := W)) :=
  match mvs with
  | [] => Some (proofs, x)
  | mv :: mvs =>
     if owned tid mv
     then match play_move (encodeUtf8 := encodeUtf8) (intentDigest := intentDigest) mv x with
          | Some y => solo_play tid mvs (proofs ++ proofs_of tid mv x) y
          | None => None
          end
     else None
  end.

Lemma solo_play_runs tid x0 mvs proofs x c : solo_run tid x0 proofs x -> solo_play tid mvs proofs x = Some c ->
  solo_run tid x0 c.1 c.2.
Proof.
  revert proofs x. induction mvs as [|mv mvs IH]; intros proofs x Hr; cbn; [by intros [= <-] |].
  destruct (owned tid mv) eqn:Eo; [| done]. destruct (play_move _ _) as [y|] eqn:E; [| done].
  apply IH. eapply sr_move; [exact Hr | | exact E]. destruct mv; cbn in *; try done; by apply Nat.eqb_eq in Eo.
Qed.

End recovery.

(** An operation accepted by an instance that stopped.  Its verifier proves that
    it is still running, so it stays so; without a verifier it ends up requiring
    attention. *)

Definition demo_asked : list (Move (W := unit)) :=
  [Mv_exec 9 5 false; Mv_turn 9 5; Mv_exec 9 5 false; Mv_turn 9 5; Mv_exec 9 5 false; Mv_turn 9 5; Mv_turn 9 5; Mv_exec 9 5 false;
   Mv_turn 9 5].

Definition demo_written : list (Move (W := unit)) :=
  [Mv_turn 9 5; Mv_exec 9 5 false; Mv_turn 9 5; Mv_turn 9 5; Mv_exec 9 5 false; Mv_turn 9 5].

Definition demo_proved : list (Move (W := unit)) := demo_asked ++ Mv_verify 9 (Some (demo_record 2 os_running)) :: demo_written.

Definition demo_unproved : list (Move (W := unit)) := demo_asked ++ demo_written.

Definition demo_recovery (verifier : bool) : System :=
  call_with (encodeUtf8 := latin_utf8) (M_recoverInterrupted (fun _ => verifier)) 9 (demo_state demo_accept).

Definition demo_end (verifier : bool) (mvs : list (Move (W := unit))) : list VerifierProof * System :=
  default ([], demo_recovery verifier)
    (solo_play (encodeUtf8 := latin_utf8) (intentDigest := demo_digest) 9 mvs [] (demo_recovery verifier)).

Lemma demo_end_run verifier mvs :
  solo_run (encodeUtf8 := latin_utf8) (intentDigest := demo_digest) 9 (demo_recovery verifier) (demo_end verifier mvs).1 (demo_end verifier mvs).2.
Proof.
  unfold demo_end. destruct (solo_play _ _ _ _) as [c|] eqn:E; [| apply sr_start].
  eapply solo_play_runs; [apply sr_start | exact E].
Qed.

Definition demo_stored (x : System (S := RuntimeRetainedBytes.t) (B := Connection unit) (W := unit)) : option OperationRecord :=
  match visible x (demo_key "op-1") with Some (F_receipt r) => Some (st_record r) | _ => None end.

Lemma demo_proved_end : exists r verified,
  visible (demo_end true demo_proved).2 (demo_key "op-1") = Some (F_receipt r) /\ st_record r = demo_record 2 os_running
  /\ tasks (demo_end true demo_proved).2 !! 9%nat = Some (mkTask (M_recoverInterrupted (fun _ => true)) [] (Got (V_records verified))).
Proof. eexists _, _. split; [vm_compute; reflexivity|]. split; vm_compute; reflexivity. Qed.

Lemma recovery_complete_witness :
  Acc (fun z y => solo (encodeUtf8 := latin_utf8) (intentDigest := demo_digest) 9 y z) (demo_recovery true)
  /\ (exists asked, op_state asked = os_recovering
        /\ mkProof (demo_key "op-1") asked (demo_record 2 os_running) ∈ (demo_end true demo_proved).1)
  /\ op_state <$> demo_stored (demo_end false demo_unproved).2 = Some os_requires_attention
  /\ (demo_end false demo_unproved).1 = [].
Proof.
  assert (Hr : reachable (encodeUtf8 := latin_utf8) (intentDigest := demo_digest) (demo_options true) (demo_state demo_accept))
    by (apply demo_state_reachable; by vm_compute).
  assert (Hu : unused 9 (demo_state demo_accept)) by (apply is_unused_spec; by vm_compute).
  destruct (recovery_complete (demo_options true) (demo_state demo_accept) 9 (fun _ => true) Hr eq_refl eq_refl Hu) as [Hacc Hrun].
  split; [exact Hacc|]. split; [|split; by vm_compute].
  destruct demo_proved_end as (r & verified & Hv & Hrec & Ht).
  destruct (Hrun (demo_end true demo_proved).1 (demo_end true demo_proved).2 (demo_end_run true demo_proved)) as [[z Hz]|(m & v & Hm & Hcase)].
  - destruct (ended_stays _ _ _ _ _ Ht Hz).
  - rewrite Ht in Hm. injection Hm as <- <-. destruct Hcase as [E|(l & _ & Hall)]; [discriminate E|].
    assert (Hopen : unfinished_state (op_state (st_record r)) = true) by (rewrite Hrec; reflexivity).
    destruct (Hall _ r Hv Hopen) as [_ Hproof]. rewrite Hrec in Hproof. exact Hproof.
Defined.
