(* ===== verification/ConnectionDelivery.v ===== *)
(** * Delivery to one connection (apps/server/src/terminal/terminal-connection-delivery.ts)

    The queue of frames of one client connection, on its way to the transport.
    Three callbacks of the delivery may call it again before they return: the
    transport's write, [options.failed], and the release of a prepaid
    reservation, which belongs to the route that handed it in.  The model keeps
    what is suspended in them on an explicit [stack]: a method runs until it
    returns or calls one of them, any method may be called meanwhile, and
    [resume] continues the callback on top.  [current], [eligible], [handoff],
    [prepare], [admitted] and the encoder do not call the delivery; what they
    answer is given with the operation. *)

From S2P Require Import Prelude Json Protocol JsMap Retained RuntimeOwnership Frame Errors Terminal TerminalJson.

Module B := Retained.RuntimeRetainedBytes.

(** ** Data *)

Definition PREPAID_DELIVERY_OVERHEAD : Z := 512 + 256.

Definition ARENA_BYTES : Z := 2 * MAX_FRAME_BYTES + 6 * MAX_METADATA_BYTES.

(** [fe_id] names the closure [current]. *)

Record DeliveryFence := mkFence { fe_id : nat; route : string; attempt : Z }.

(** The [record] of an item: its own lease of 512 bytes, or the reservation of
    [n] bytes, named [k], that the caller prepaid. *)

Inductive ItemRecord :=
  | Own (l : nat)
  | Prepaid (k : nat) (n : Z).

Record Item := mkItem {
  it_id : nat; it_bytes : list Z; backing : option nat; record : ItemRecord; control : bool;
  fence : option DeliveryFence; admission : option nat;
}.

Definition prepaid (i : Item) : bool := match record i with Prepaid _ _ => true | Own _ => false end.

Definition length_of (i : Item) : Z := zlen (it_bytes i).

(** The suspended callbacks ([W_]) and what continues once the call above
    returned ([I_]). *)

Inductive Frame :=
  | W_write (generation : nat)                 (* options.transport.write *)
  | W_failed                                   (* options.failed *)
  | W_record                                   (* record.release() of a prepaid item *)
  | I_flush                                    (* the loop of flush and its finally *)
  | I_admit (f : option DeliveryFence)         (* admit, after flush *)
  | I_refused                                  (* admit, before it returns false *)
  | I_encoded                                  (* admit, the finally of the encoding *)
  | I_cancel (index : nat) (f : option DeliveryFence) (* cancel, the indices below [index] *)
  | I_close                                    (* close, after cancel *)
  | I_fail                                     (* fail, after close *)
  | I_release                                  (* release, after record.release() *)
  | I_settled (error : bool) (f : option DeliveryFence) (* write's callback, after release *)
  | I_transport                                (* transportReleased, after close *)
  | I_release_all (ids : list nat).            (* transportReleased, the items left *)

Definition is_callback (f : Frame) : bool := match f with W_write _ | W_failed | W_record => true | _ => false end.

Inductive Effect :=
  | Taken (k : nat)                            (* a prepaid reservation was handed in *)
  | GivenBack (k : nat)                        (* and given back *)
  | Queued (id : nat) (r : option string)
  | Wrote (i : Item)
  | Answered (ok : bool)                       (* admit returned *)
  | Raised.                                    (* a method threw *)

Record Delivery := mkDelivery {
  queue : list Item; handed : list Item; queuedBytes : Z; physicalBytes : Z; ordinaryBytes : Z;
  prepaidItems : Z; prepaidBytes : Z; blocked : bool; flushing : bool; encoding : bool; closedState : bool;
  drainGeneration : nat; released : bool; arena : nat; account : B.t; next_item : nat; stack : list Frame; trace : list Effect;
}.

(** What the callbacks that do not call back answer at this moment. *)

Record World := mkWorld { w_current : nat -> bool; w_eligible : nat -> bool; w_handoff : nat -> bool }.

Definition fence_current (w : World) (f : option DeliveryFence) : bool :=
  match f with Some f => w_current w (fe_id f) | None => true end.

(** ** Field updates *)

Definition set_lists (q h : list Item) (s : Delivery) : Delivery :=
  mkDelivery q h (queuedBytes s) (physicalBytes s) (ordinaryBytes s) (prepaidItems s) (prepaidBytes s) (blocked s)
    (flushing s) (encoding s) (closedState s) (drainGeneration s) (released s) (arena s) (account s) (next_item s) (stack s) (trace s).

Definition set_bytes (q p o : Z) (s : Delivery) : Delivery :=
  mkDelivery (queue s) (handed s) q p o (prepaidItems s) (prepaidBytes s) (blocked s)
    (flushing s) (encoding s) (closedState s) (drainGeneration s) (released s) (arena s) (account s) (next_item s) (stack s) (trace s).

Definition set_prepaid (i b : Z) (s : Delivery) : Delivery :=
  mkDelivery (queue s) (handed s) (queuedBytes s) (physicalBytes s) (ordinaryBytes s) i b (blocked s)
    (flushing s) (encoding s) (closedState s) (drainGeneration s) (released s) (arena s) (account s) (next_item s) (stack s) (trace s).

Definition set_flags (bl fl en cl : bool) (s : Delivery) : Delivery :=
  mkDelivery (queue s) (handed s) (queuedBytes s) (physicalBytes s) (ordinaryBytes s) (prepaidItems s) (prepaidBytes s) bl
    fl en cl (drainGeneration s) (released s) (arena s) (account s) (next_item s) (stack s) (trace s).

Definition next_generation (s : Delivery) : Delivery :=
  mkDelivery (queue s) (handed s) (queuedBytes s) (physicalBytes s) (ordinaryBytes s) (prepaidItems s) (prepaidBytes s) (blocked s)
    (flushing s) (encoding s) (closedState s) (S (drainGeneration s)) (released s) (arena s) (account s) (next_item s) (stack s) (trace s).

Definition set_account (a : B.t) (s : Delivery) : Delivery :=
  mkDelivery (queue s) (handed s) (queuedBytes s) (physicalBytes s) (ordinaryBytes s) (prepaidItems s) (prepaidBytes s) (blocked s)
    (flushing s) (encoding s) (closedState s) (drainGeneration s) (released s) (arena s) a (next_item s) (stack s) (trace s).

Definition set_released (a : B.t) (s : Delivery) : Delivery :=
  mkDelivery (queue s) (handed s) (queuedBytes s) (physicalBytes s) (ordinaryBytes s) (prepaidItems s) (prepaidBytes s) (blocked s)
    (flushing s) (encoding s) (closedState s) (drainGeneration s) true (arena s) a (next_item s) (stack s) (trace s).

Definition set_stack (st : list Frame) (s : Delivery) : Delivery :=
  mkDelivery (queue s) (handed s) (queuedBytes s) (physicalBytes s) (ordinaryBytes s) (prepaidItems s) (prepaidBytes s) (blocked s)
    (flushing s) (encoding s) (closedState s) (drainGeneration s) (released s) (arena s) (account s) (next_item s) st (trace s).

Definition emit (e : Effect) (s : Delivery) : Delivery :=
  mkDelivery (queue s) (handed s) (queuedBytes s) (physicalBytes s) (ordinaryBytes s) (prepaidItems s) (prepaidBytes s) (blocked s)
    (flushing s) (encoding s) (closedState s) (drainGeneration s) (released s) (arena s) (account s) (next_item s) (stack s) (trace s ++ [e]).

Definition bump (s : Delivery) : Delivery :=
  mkDelivery (queue s) (handed s) (queuedBytes s) (physicalBytes s) (ordinaryBytes s) (prepaidItems s) (prepaidBytes s) (blocked s)
    (flushing s) (encoding s) (closedState s) (drainGeneration s) (released s) (arena s) (account s) (S (next_item s)) (stack s) (trace s).

Definition set_blocked (b : bool) (s : Delivery) : Delivery := set_flags b (flushing s) (encoding s) (closedState s) s.

Definition set_flushing (b : bool) (s : Delivery) : Delivery := set_flags (blocked s) b (encoding s) (closedState s) s.

Definition set_encoding (b : bool) (s : Delivery) : Delivery := set_flags (blocked s) (flushing s) b (closedState s) s.

Definition set_closed (s : Delivery) : Delivery := set_flags (blocked s) (flushing s) (encoding s) true s.

(** The end of a callback. *)

Inductive Settled (A : Type) :=
  | Returned (a : A)
  | Threw.

Arguments Returned {A} a.
Arguments Threw {A}.

(** ** Calls

    A call returns, waits for a callback, or throws. *)

Inductive Out :=
  | Done (s : Delivery)
  | Wait (fs : list Frame) (s : Delivery)
  | Throw (s : Delivery).

(** [o], then [k]; [f] stands for [k] on the stack. *)

Definition andThen (o : Out) (f : Frame) (k : Delivery -> Out) : Out :=
  match o with
  | Done s => k s
  | Wait fs s => Wait (fs ++ [f]) s
  | Throw s => Throw s
  end.

(** [releaseArena]. *)

Definition releaseArena (s : Delivery) : Delivery :=
  if negb (closedState s) || match handed s with [] => false | _ => true end || encoding s || flushing s || released s
  then s else set_released (B.release (arena s) (account s)) s.

Definition release_record (r : ItemRecord) (s : Delivery) : Out :=
  match r with
  | Own l => Done (set_account (B.release l (account s)) s)
  | Prepaid k _ => Wait [W_record] (emit (GivenBack k) s)
  end.

Definition release_backing (b : option nat) (s : Delivery) : Delivery :=
  match b with Some h => set_account (B.releaseBacking h (account s)) s | None => s end.

Definition unaccount (i : Item) (was_handed : bool) (s : Delivery) : Delivery :=
  if prepaid i then set_prepaid (prepaidItems s - 1) (prepaidBytes s - length_of i) s
  else if was_handed then set_bytes (queuedBytes s) (physicalBytes s - length_of i) (ordinaryBytes s) s
  else set_bytes (queuedBytes s - length_of i) (physicalBytes s) (ordinaryBytes s) s.

Definition less_ordinary (i : Item) (s : Delivery) : Delivery :=
  if control i then s else set_bytes (queuedBytes s) (physicalBytes s) (ordinaryBytes s - length_of i) s.

(** [cancel]: takes the item at [index] out of the queue. *)

Definition drop_queued (index : nat) (i : Item) (s : Delivery) : Delivery :=
  release_backing (backing i) (less_ordinary i (unaccount i false (set_lists (delete index (queue s)) (handed s) s))).

Definition cancels (f : option DeliveryFence) (i : Item) : bool :=
  match f with
  | None => true
  | Some f => match fence i with Some g => seqb (route g) (route f) && (attempt g =? attempt f) | None => false end
  end.

(** The loop of [cancel] over the indices below [n].  What a prepaid
    reservation's owner does may shorten the queue, and reading an index it no
    longer has throws. *)

Fixpoint cancel_loop (n : nat) (f : option DeliveryFence) (s : Delivery) : Out :=
  match n with
  | O => Done s
  | S index =>
     match queue s !! index with
     | None => Throw s
     | Some i =>
        if negb (cancels f i) then cancel_loop index f s
        else match release_record (record i) (drop_queued index i s) with
             | Done s => cancel_loop index f s
             | Wait fs s => Wait (fs ++ [I_cancel index f]) s
             | Throw s => Throw s
             end
     end
  end.

Definition cancel (f : option DeliveryFence) (s : Delivery) : Out := cancel_loop (length (queue s)) f s.

Definition close (s : Delivery) : Out :=
  if closedState s then Done s
  else andThen (cancel None (next_generation (set_closed s))) I_close (fun s => Done (releaseArena s)).

Definition fail (s : Delivery) : Out :=
  if closedState s then Done s else andThen (close s) I_fail (fun s => Wait [W_failed] s).

(** [next]: the first item that may go, where an item waits for the earlier ones
    of its route.  The empty route is no route. *)

Definition routed (i : Item) : option string :=
  match fence i with Some f => if seqb (route f) "" then None else Some (route f) | None => None end.

Fixpoint next_from (w : World) (q : list Item) (seen : list string) (index : nat) : option nat :=
  match q with
  | [] => None
  | i :: q =>
     match routed i with
     | Some r =>
        if bool_decide (r ∈ seen) then next_from w q seen (S index)
        else if fence_current w (fence i) && match admission i with Some a => w_eligible w a | None => true end
        then Some index else next_from w q (r :: seen) (S index)
     | None =>
        if fence_current w (fence i) && match admission i with Some a => w_eligible w a | None => true end
        then Some index else next_from w q seen (S index)
     end
  end.

Definition next (w : World) (s : Delivery) : option nat := next_from w (queue s) [] 0.

Definition hand (index : nat) (i : Item) (s : Delivery) : Delivery :=
  let s := set_lists (delete index (queue s)) (handed s ++ [i]) s in
  if prepaid i then s else set_bytes (queuedBytes s - length_of i) (physicalBytes s + length_of i) (ordinaryBytes s) s.

Definition flush_end (s : Delivery) : Delivery := releaseArena (set_flushing false s).

Definition flush_loop (w : World) (s : Delivery) : Out :=
  if closedState s || blocked s then Done (flush_end s)
  else match next w s ≫= (fun index => pair index <$> queue s !! index) with
       | None => Done (flush_end s)
       | Some (index, i) =>
          if negb match admission i with Some a => w_handoff w a | None => true end then Done (flush_end s)
          else let s := hand index i s in Wait [W_write (drainGeneration s); I_flush] (emit (Wrote i) s)
       end.

Definition flush (w : World) (s : Delivery) : Out :=
  if closedState s || blocked s || flushing s then Done s else flush_loop w (set_flushing true s).

(** [release] of an item the transport holds. *)

Definition drop_handed (i : Item) (s : Delivery) : Delivery :=
  release_backing (backing i)
    (less_ordinary i (unaccount i true (set_lists (queue s) (List.filter (fun x => negb (Nat.eqb (it_id x) (it_id i))) (handed s)) s))).

Definition release (i : Item) (s : Delivery) : Out :=
  andThen (release_record (record i) (drop_handed i s)) I_release (fun s => Done (releaseArena s)).

Definition find_handed (id : nat) (s : Delivery) : option Item := List.find (fun i => Nat.eqb (it_id i) id) (handed s).

Definition after_settled (w : World) (error : bool) (f : option DeliveryFence) (s : Delivery) : Out :=
  if error && fence_current w f then fail s else Done s.

(** The callback given to [transport.write]; nothing the second time. *)

Definition settle (w : World) (id : nat) (error : bool) (s : Delivery) : Out :=
  match find_handed id s with
  | None => Done s
  | Some i => andThen (release i s) (I_settled error (fence i)) (after_settled w error (fence i))
  end.

Fixpoint release_all (ids : list nat) (s : Delivery) : Out :=
  match ids with
  | [] => Done (releaseArena s)
  | id :: ids =>
     match find_handed id s with
     | None => release_all ids s
     | Some i =>
        match release i s with
        | Done s => release_all ids s
        | Wait fs s => Wait (fs ++ [I_release_all ids]) s
        | Throw s => Throw s
        end
     end
  end.

Definition release_handed (s : Delivery) : Out := release_all (map it_id (handed s)) s.

Definition transportReleased (s : Delivery) : Out := andThen (close s) I_transport release_handed.

Definition wake (w : World) (s : Delivery) : Out := flush w s.

Definition drain (w : World) (s : Delivery) : Out := flush w (set_blocked false (next_generation s)).

(** ** Admission *)

Section delivery.
Context (encodeUtf8 : string -> list Z) (budgets : EffectiveBudgets) (connection : ConnectionRef) (itemLimit : Z).

(** [options] and the answers of the callbacks it calls: [encoded] whether
    [options.encodeUtf8] returns, with the identity of the frame's buffer then,
    [prepare] and [admitted] only when present, and [prepared] what the other
    callbacks answer once [prepare] is done.  The message is an object with the
    members of its schema and no others. *)

Record Admission := mkAdmission {
  ad_metadata : TerminalMetadata; ad_payload : list Z; ad_bufferBytes : Z; ad_control : bool;
  ad_fence : option DeliveryFence; ad_prepaid : option (nat * Z);
  ad_encoded : Settled nat; ad_prepare : option (Settled (option nat)); ad_prepared : World; ad_admitted : option (Settled unit);
}.

Definition frame_class (m : TerminalMetadata) : Z :=
  match m with TM_error _ => 4 | TM_result _ => 2 | TM_event _ | TM_command _ => 3 end.

Definition ordinary_items (l : list Item) : Z := zlen (List.filter (fun i => negb (control i)) l).

(** The checks before anything is taken. *)

Definition admit_refused (w : World) (x : Admission) (s : Delivery) : bool :=
  closedState s || encoding s || negb (fence_current w (ad_fence x)) || (MAX_FRAME_BYTES <? ad_bufferBytes x)
  || (negb (bool_decide (is_Some (ad_prepaid x))) && (itemLimit <=? zlen (queue s) + zlen (handed s) - prepaidItems s))
  || (negb (ad_control x) && (itemLimit - 4 <=? ordinary_items (queue s) + ordinary_items (handed s))).

Definition answer (ok : bool) (s : Delivery) : Out := Done (emit (Answered ok) s).

(** Gives back the item's record and answers [false]. *)

Definition refuse (r : ItemRecord) (s : Delivery) : Out := andThen (release_record r s) I_refused (answer false).

(** [validateTerminalFrame], the text of the checked message in UTF-8, and
    [encodeTerminalFrame]. *)

Definition encode_item (x : Admission) : option (list Z * nat) :=
  let kind := frame_class (ad_metadata x) in
  match validateTerminalFrame kind 0 (zlen (ad_payload x)) (TerminalMetadata_json (ad_metadata x)) (Some (ad_metadata x))
          (Some connection), ad_encoded x with
  | inr value, Returned buffer =>
     match encodeFrame TERMINAL_LANE TERMINAL_REVISION kind (encodeUtf8 (stringify (TerminalMetadata_json value)))
             (ad_payload x) with
     | inr bytes => Some (bytes, buffer)
     | inl _ => None
     end
  | _, _ => None
  end.

Definition encoded_end (s : Delivery) : Delivery := releaseArena (set_encoding false s).

(** The checks of the encoded frame. *)

Definition frame_refused (w : World) (x : Admission) (bytes : list Z) (s : Delivery) : bool :=
  closedState s || negb (fence_current w (ad_fence x))
  || match ad_prepaid x with
     | Some (_, n) => n <? zlen bytes + PREPAID_DELIVERY_OVERHEAD
     | None =>
        (outboundConnectionBytes budgets + reservedControlBytes budgets - queuedBytes s - physicalBytes s <? zlen bytes)
        || (negb (ad_control x) && (outboundConnectionBytes budgets - ordinaryBytes s <? zlen bytes))
     end.

Definition push (x : Admission) (bytes : list Z) (b : option nat) (r : ItemRecord) (a : option nat) (s : Delivery) : Delivery :=
  let i := mkItem (next_item s) bytes b r (ad_control x) (ad_fence x) a in
  let s := set_lists (queue s ++ [i]) (handed s) (bump s) in
  let s := if prepaid i then set_prepaid (prepaidItems s + 1) (prepaidBytes s + zlen bytes) s
           else set_bytes (queuedBytes s + zlen bytes) (physicalBytes s) (ordinaryBytes s) s in
  let s := if control i then s else set_bytes (queuedBytes s) (physicalBytes s) (ordinaryBytes s + zlen bytes) s in
  emit (Queued (it_id i) (routed i)) s.

Definition answer_admit (w : World) (f : option DeliveryFence) (s : Delivery) : Out :=
  answer (negb (closedState s) && fence_current w f) s.

(** From [options.admitted] on; [w] is what the callbacks answer after it. *)

Definition admit_pushed (w : World) (x : Admission) (s : Delivery) : Out :=
  match ad_admitted x with
  | Some Threw => andThen (close s) I_refused (answer false)
  | _ =>
     if closedState s || negb (fence_current w (ad_fence x))
     then andThen (cancel (ad_fence x) s) I_refused (answer false)
     else andThen (flush w s) (I_admit (ad_fence x)) (answer_admit w (ad_fence x))
  end.

(** From [retainBacking] on. *)

Definition admit_encoded (w w' : World) (x : Admission) (bytes : list Z) (buffer : nat) (r : ItemRecord) (s : Delivery) : Out :=
  if frame_refused w x bytes s then refuse r s
  else
    match (match r with
           | Prepaid _ _ => Some (None, s)
           | Own _ => match B.retainBacking buffer (zlen bytes) (ad_control x) (account s) with
                      | Some (h, a) => Some (Some h, set_account a s)
                      | None => None
                      end
           end) with
    | None => refuse r s
    | Some (b, s) =>
       match (match ad_prepare x with
              | Some (Returned (Some a)) => Some (Some a)
              | Some _ => None
              | None => Some None
              end) with
       | None => refuse r (release_backing b s)
       | Some a =>
          if closedState s || negb (fence_current (ad_prepared x) (ad_fence x)) then refuse r (release_backing b s)
          else admit_pushed w' x (push x bytes b r a s)
       end
    end.

Definition admit_recorded (w w' : World) (x : Admission) (r : ItemRecord) (s : Delivery) : Out :=
  match encode_item x with
  | None => andThen (release_record r (set_encoding true s)) I_encoded (fun s => answer false (encoded_end s))
  | Some (bytes, buffer) => admit_encoded w w' x bytes buffer r (encoded_end (set_encoding true s))
  end.

Definition admit_frame (w w' : World) (x : Admission) (s : Delivery) : Out :=
  match ad_prepaid x with
  | Some (k, n) =>
     let s := emit (Taken k) s in
     if admit_refused w x s then refuse (Prepaid k n) s else admit_recorded w w' x (Prepaid k n) s
  | None =>
     if admit_refused w x s then answer false s
     else match B.reserve 512 (ad_control x) (account s) with
          | None => answer false s
          | Some (l, a) => admit_recorded w w' x (Own l) (set_account a s)
          end
  end.

(** ** Returning from a callback *)

Definition exec (w : World) (f : Frame) (s : Delivery) : Out :=
  match f with
  | W_write _ | W_failed | W_record => Done s
  | I_flush => flush_loop w s
  | I_admit f => answer_admit w f s
  | I_refused => answer false s
  | I_encoded => answer false (encoded_end s)
  | I_cancel index f => cancel_loop index f s
  | I_close => Done (releaseArena s)
  | I_fail => Wait [W_failed] s
  | I_release => Done (releaseArena s)
  | I_settled e f => after_settled w e f s
  | I_transport => release_handed s
  | I_release_all ids => release_all ids s
  end.

(** What an exception still runs of a method it leaves: the [finally] blocks. *)

Definition leave (f : Frame) (s : Delivery) : Delivery :=
  match f with I_flush => flush_end s | I_encoded => encoded_end s | _ => s end.

(** Goes on down to the next suspended callback, or to the end. *)

Fixpoint unwind (w : World) (st : list Frame) (o : Out) : Delivery :=
  match o, st with
  | Wait fs s, _ => set_stack (fs ++ st) s
  | Done s, [] => set_stack [] s
  | Done s, f :: rest => if is_callback f then set_stack st s else unwind w rest (exec w f s)
  | Throw s, [] => set_stack [] (emit Raised s)
  | Throw s, f :: rest => if is_callback f then set_stack st (emit Raised s) else unwind w rest (Throw (leave f s))
  end.

(** A call of a method, in any callback or outside. *)

Inductive Call :=
  | C_admit (w' : World) (x : Admission)
  | C_cancel (f : option DeliveryFence)
  | C_wake
  | C_drain
  | C_close
  | C_settle (id : nat) (error : bool)
  | C_transportReleased.

Definition body (w : World) (c : Call) (s : Delivery) : Out :=
  match c with
  | C_admit w' x => admit_frame w w' x s
  | C_cancel f => cancel f s
  | C_wake => wake w s
  | C_drain => drain w s
  | C_close => close s
  | C_settle id e => settle w id e s
  | C_transportReleased => transportReleased s
  end.

Definition perform (w : World) (c : Call) (s : Delivery) : Delivery := unwind w (stack s) (body w c s).

(** What a suspended callback ends with. *)

Inductive Answer :=
  | A_written (x : Settled bool)
  | A_called (x : Settled unit).

Definition after_write (generation : nat) (writable : bool) (s : Delivery) : Delivery :=
  if negb writable && Nat.eqb generation (drainGeneration s) then set_blocked true s else s.

Definition resume (w : World) (x : Answer) (s : Delivery) : option Delivery :=
  match stack s, x with
  | W_write g :: rest, A_written (Returned writable) => Some (unwind w rest (Done (after_write g writable s)))
  | W_write _ :: rest, A_written Threw => Some (unwind w rest (fail s))
  | (W_failed | W_record) :: rest, A_called (Returned _) => Some (unwind w rest (Done s))
  | (W_failed | W_record) :: rest, A_called Threw => Some (unwind w rest (Throw s))
  | _, _ => None
  end.

Record DeliverySnapshot := mkSnapshot {
  sn_queuedBytes : Z; sn_physicalBytes : Z; sn_ordinaryBytes : Z; sn_prepaidItems : Z; sn_prepaidBytes : Z;
  sn_queued : Z; sn_handed : Z; sn_closed : bool;
}.

Definition snapshot (s : Delivery) : DeliverySnapshot :=
  mkSnapshot (queuedBytes s) (physicalBytes s) (ordinaryBytes s) (prepaidItems s) (prepaidBytes s)
    (zlen (queue s)) (zlen (handed s)) (closedState s).

(** The constructor; [None] when it throws. *)

Definition newDelivery (a : B.t) : option Delivery :=
  if negb (ConnectionRefSchema connection) || negb (isSafeInteger itemLimit) || (itemLimit <? 5)
     || (postNEvents budgets + pendingWorkerCommands budgets + 4 <? itemLimit)
  then None
  else match B.reserve ARENA_BYTES false a with
       | None => None
       | Some (l, a) => Some (mkDelivery [] [] 0 0 0 0 0 false false false false 0 false l a 0 [] [])
       end.

End delivery.
