(* ===== verification/ConnectionInvariant.v ===== *)
(** * What a connection's delivery always satisfies

    The invariant of ConnectionDelivery.v, whatever its callbacks do: exact byte
    and item counts within the budgets, exactly the leases of the items it
    keeps, one return for every prepaid reservation, and per route the order of
    admission. *)

From S2P Require Import Prelude Json Protocol JsMap LeaseAccount Retained RuntimeOwnership Frame Errors Terminal TerminalJson ConnectionDelivery.

(** ** Sums and resources *)

Definition queue_bytes (i : Item) : Z := if prepaid i then 0 else length_of i.

Definition ordinary_bytes (i : Item) : Z := if control i then 0 else length_of i.

Definition prepaid_one (i : Item) : Z := if prepaid i then 1 else 0.

Definition prepaid_bytes (i : Item) : Z := if prepaid i then length_of i else 0.

Definition plain_ordinary (i : Item) : Z := if prepaid i then 0 else ordinary_bytes i.

Definition own_lease (i : Item) : option (nat * Z) := match record i with Own l => Some (l, 512) | Prepaid _ _ => None end.

Definition prepaid_key (i : Item) : option nat := match record i with Prepaid k _ => Some k | Own _ => None end.

Definition items (s : Delivery) : list Item := queue s ++ handed s.

Definition arena_leases (s : Delivery) : list (nat * Z) := if released s then [] else [(arena s, ARENA_BYTES)].

Definition delivery_leases (s : Delivery) : list (nat * Z) := omap own_lease (items s) ++ arena_leases s.

Definition delivery_handles (s : Delivery) : list nat := omap backing (items s).

(** ** What the trace says *)

Definition taken_of (e : Effect) : option nat := match e with Taken k => Some k | _ => None end.

Definition given_of (e : Effect) : option nat := match e with GivenBack k => Some k | _ => None end.

Definition wrote_of (e : Effect) : option Item := match e with Wrote i => Some i | _ => None end.

Definition taken (t : list Effect) : list nat := omap taken_of t.

Definition given_back (t : list Effect) : list nat := omap given_of t.

Definition wrote (t : list Effect) : list Item := omap wrote_of t.

Definition route_id (r : string) (i : Item) : option nat :=
  match routed i with Some r' => if decide (r' = r) then Some (it_id i) else None | None => None end.

Definition route_ids (r : string) (l : list Item) : list nat := omap (route_id r) l.

Definition queued_of (r : string) (e : Effect) : option nat :=
  match e with Queued id (Some r') => if decide (r' = r) then Some id else None | _ => None end.

Definition route_queued (r : string) (t : list Effect) : list nat := omap (queued_of r) t.

Section invariant.
Context (encodeUtf8 : string -> list Z) (budgets : EffectiveBudgets) (connection : ConnectionRef) (itemLimit : Z).

(** The bytes of an item are the frame of a message that is valid here: its class,
    its text and its payload. *)

Definition framed (i : Item) : Prop :=
  exists m payload,
    validateTerminalFrame (frame_class m) 0 (zlen payload) (TerminalMetadata_json m) (Some m) (Some connection) = inr m
    /\ encodeFrame TERMINAL_LANE TERMINAL_REVISION (frame_class m) (encodeUtf8 (stringify (TerminalMetadata_json m))) payload
       = inr (it_bytes i).

Record core_ok (s : Delivery) : Prop := mk_core_ok {
  dc_queued : queuedBytes s = lsum queue_bytes (queue s);
  dc_physical : physicalBytes s = lsum queue_bytes (handed s);
  dc_ordinary : ordinaryBytes s = lsum ordinary_bytes (items s);
  dc_prepaid : prepaidItems s = lsum prepaid_one (items s) /\ prepaidBytes s = lsum prepaid_bytes (items s);
  dc_bytes : queuedBytes s + physicalBytes s <= Z.max 0 (outboundConnectionBytes budgets + reservedControlBytes budgets);
  dc_plain : lsum plain_ordinary (items s) <= Z.max 0 (outboundConnectionBytes budgets);
  dc_items : zlen (items s) - prepaidItems s <= Z.max 0 itemLimit /\ ordinary_items (items s) <= Z.max 0 (itemLimit - 4);
  dc_ids : NoDup (map it_id (items s)) /\ Forall (fun i => (it_id i < next_item s)%nat) (items s);
  dc_queued_ids : forall r, StronglySorted lt (route_queued r (trace s)) /\ Forall (fun id => (id < next_item s)%nat) (route_queued r (trace s));
  dc_routes : forall r, sublist (route_ids r (wrote (trace s)) ++ route_ids r (queue s)) (route_queued r (trace s));
  dc_framed : Forall framed (items s) /\ Forall framed (wrote (trace s));
}.

(** With the resources: the leases of the items, and of a record that an
    admission holds ([held] leases, [users] handles, [keys] prepaid). *)

Record resources (fl fh : Z) (held : list (nat * Z)) (users keys : list nat) (s : Delivery) : Prop := mk_resources {
  rs_owns : owns fl fh (held ++ delivery_leases s) (users ++ delivery_handles s) (account s);
  rs_core : core_ok s;
  rs_given : taken (trace s) ≡ₚ keys ++ given_back (trace s) ++ omap prepaid_key (items s);
}.

Definition delivery_ok (fl fh : Z) (s : Delivery) : Prop := resources fl fh [] [] [] s.

Ltac split_ok := constructor; [| constructor |].

(** Changes that the invariant does not see. *)

Lemma flags_ok fl fh ls hs ks s bl f e c : resources fl fh ls hs ks s -> resources fl fh ls hs ks (set_flags bl f e c s).
Proof. intros [? []]. by split_ok. Qed.

Lemma generation_ok fl fh s : delivery_ok fl fh s -> delivery_ok fl fh (next_generation s).
Proof. intros [? []]. by split_ok. Qed.

Lemma stack_ok fl fh s st : delivery_ok fl fh s -> delivery_ok fl fh (set_stack st s).
Proof. intros [? []]. by split_ok. Qed.

Lemma quiet_ok fl fh s e : match e with Answered _ | Raised => True | _ => False end ->
  delivery_ok fl fh s -> delivery_ok fl fh (emit e s).
Proof.
  intros He [H1 [H2 H3 H4 H5 H6 H7 H8 H9 H10 H11 H12] H13].
  assert (E : wrote (trace s ++ [e]) = wrote (trace s) /\ taken (trace s ++ [e]) = taken (trace s)
     /\ given_back (trace s ++ [e]) = given_back (trace s) /\ (forall r, route_queued r (trace s ++ [e]) = route_queued r (trace s))).
  { unfold wrote, taken, given_back, route_queued. split_and!; intros; rewrite omap_snoc; destruct e; try done; by rewrite app_nil_r. }
  destruct E as (E1 & E2 & E3 & E4).
  split_ok; cbn [trace emit]; rewrite ?E1, ?E2, ?E3; try done; intros r; rewrite E4; auto.
Qed.

Lemma release_arena_ok fl fh ls hs ks s : resources fl fh ls hs ks s -> resources fl fh ls hs ks (releaseArena s).
Proof.
  intros Hok. unfold releaseArena. destruct (negb _ || _ || _ || _ || released s) eqn:Hr; [done |].
  apply orb_false_iff in Hr as [_ Hr]. destruct Hok as [H1 [H2 H3 H4 H5 H6 H7 H8 H9 H10 H11 H12] H13]. split_ok; try done.
  unfold delivery_leases, arena_leases in *. cbn [released set_released account items queue handed]. rewrite Hr in H1.
  eapply (owns_release _ _ _ _ _ _ ARENA_BYTES). eapply owns_proper; [| reflexivity | reflexivity | exact H1].
  change (items (set_released (B.release (arena s) (account s)) s)) with (items s).
  rewrite app_nil_r, app_assoc. apply Permutation_cons_append.
Qed.

(** ** Removing an item *)

Definition out_state (o : Out) : Delivery := match o with Done s | Wait _ s | Throw s => s end.

Definition out_ok (fl fh : Z) (o : Out) : Prop := delivery_ok fl fh (out_state o).

Lemma andThen_ok fl fh o f k : out_ok fl fh o -> (forall s, delivery_ok fl fh s -> out_ok fl fh (k s)) -> out_ok fl fh (andThen o f k).
Proof. intros Ho Hk. destruct o; cbn; [by apply Hk | done | done]. Qed.

(** The leases of a removed item are given back; the caller names the account
    and the rest of the state. *)

Lemma omap_perm {A C} (f : A -> option C) l k : l ≡ₚ k -> omap f l ≡ₚ omap f k.
Proof. intros E. by rewrite E. Qed.

Lemma owns_item fl fh i l rest s : omap own_lease l ≡ₚ omap own_lease (i :: rest) -> omap backing l ≡ₚ omap backing (i :: rest) ->
  forall extra, owns fl fh (omap own_lease l ++ extra) (omap backing l) s ->
  owns fl fh (omap own_lease rest ++ extra) (omap backing rest)
    (match record i with Own k => B.release k | Prepaid _ _ => id end
       (match backing i with Some h => B.releaseBacking h s | None => s end)).
Proof.
  intros E1 E2 extra Ho. rewrite E1, E2 in Ho. cbn [omap list_omap] in Ho.
  assert (Hb : owns fl fh (omap own_lease (i :: rest) ++ extra) (omap backing rest)
     (match backing i with Some h => B.releaseBacking h s | None => s end)).
  { destruct (backing i); [by apply owns_releaseBacking | done]. }
  cbn [omap list_omap] in Hb. unfold own_lease at 1 in Hb. destruct (record i); [| done]. by eapply owns_release.
Qed.

Lemma sublist_omap {A C} (f : A -> option C) l k : sublist l k -> sublist (omap f l) (omap f k).
Proof. induction 1 as [|x l k _ IH|x l k _ IH]; cbn; [done | |]; destruct (f x); by constructor || done. Qed.

Lemma Permutation_zlen {A} (l k : list A) : l ≡ₚ k -> zlen l = zlen k.
Proof. intros E. unfold zlen. by rewrite E. Qed.

Lemma sum_item (f : Item -> Z) i l rest : l ≡ₚ i :: rest -> lsum f l = f i + lsum f rest.
Proof. intros E. by rewrite (lsum_perm f _ _ E), lsum_cons. Qed.

(** [s'] is [s] without item [i], whose resources are given back. *)

Record removed (i : Item) (s s' : Delivery) : Prop := mk_removed {
  rm_items : items s ≡ₚ i :: items s';
  rm_queue : sublist (queue s') (queue s);
  rm_sums : queuedBytes s' + lsum queue_bytes (queue s) = queuedBytes s + lsum queue_bytes (queue s')
     /\ physicalBytes s' + lsum queue_bytes (handed s) = physicalBytes s + lsum queue_bytes (handed s');
  rm_ordinary : ordinaryBytes s' = ordinaryBytes s - ordinary_bytes i;
  rm_prepaid : prepaidItems s' = prepaidItems s - prepaid_one i /\ prepaidBytes s' = prepaidBytes s - prepaid_bytes i;
  rm_account : account s' = match record i with Own k => B.release k | Prepaid _ _ => id end
                  (match backing i with Some h => B.releaseBacking h (account s) | None => account s end);
  rm_rest : released s' = released s /\ arena s' = arena s /\ next_item s' = next_item s;
  rm_trace : trace s' = trace s ++ match record i with Own _ => [] | Prepaid k _ => [GivenBack k] end;
}.

Lemma length_of_nonneg i : 0 <= length_of i.
Proof. unfold length_of. apply zlen_nonneg. Qed.

Lemma removed_bytes i s s' fl fh : delivery_ok fl fh s -> removed i s s' ->
  queuedBytes s' = lsum queue_bytes (queue s') /\ physicalBytes s' = lsum queue_bytes (handed s')
  /\ queuedBytes s' + physicalBytes s' <= queuedBytes s + physicalBytes s.
Proof.
  intros Hok Hrm. destruct (rm_sums _ _ _ Hrm) as [S1 S2]. rewrite (dc_queued _ (rs_core _ _ _ _ _ _ Hok)) in S1. rewrite (dc_physical _ (rs_core _ _ _ _ _ _ Hok)) in S2.
  assert (Hsum : lsum queue_bytes (items s) = queue_bytes i + lsum queue_bytes (items s')) by apply sum_item, Hrm.
  unfold items in Hsum. rewrite !lsum_app in Hsum. pose proof (length_of_nonneg i).
  assert (0 <= queue_bytes i) by (unfold queue_bytes; case_match; lia).
  rewrite (dc_queued _ (rs_core _ _ _ _ _ _ Hok)), (dc_physical _ (rs_core _ _ _ _ _ _ Hok)). lia.
Qed.

Lemma removed_trace i s s' : removed i s s' ->
  wrote (trace s') = wrote (trace s) /\ taken (trace s') = taken (trace s)
  /\ given_back (trace s') = given_back (trace s) ++ match prepaid_key i with Some k => [k] | None => [] end
  /\ (forall r, route_queued r (trace s') = route_queued r (trace s)).
Proof.
  intros Hrm. rewrite (rm_trace _ _ _ Hrm). unfold wrote, taken, given_back, route_queued, prepaid_key.
  destruct (record i) as [l|k n]; rewrite ?app_nil_r, ?omap_app; cbn; rewrite ?app_nil_r; split_and!; try done.
  intros r. rewrite omap_app. cbn. by rewrite app_nil_r.
Qed.

Lemma ordinary_items_sum l : ordinary_items l = lsum (fun i => if control i then 0 else 1) l.
Proof.
  unfold ordinary_items. induction l as [|x l IH]; [done |]. rewrite lsum_cons. cbn [List.filter]. cbv beta.
  destruct (control x); cbn [negb]; rewrite ?zlen_cons, IH; lia.
Qed.

Lemma ordinary_items_perm i l rest : l ≡ₚ i :: rest -> ordinary_items rest <= ordinary_items l.
Proof. intros E. rewrite !ordinary_items_sum, (sum_item _ _ _ _ E). cbv beta. destruct (control i); lia. Qed.

Lemma ordinary_items_same l k : l ≡ₚ k -> ordinary_items l <= ordinary_items k.
Proof. intros E. rewrite !ordinary_items_sum, (lsum_perm _ _ _ E). done. Qed.

Lemma removed_ok fl fh i s s' : delivery_ok fl fh s -> removed i s s' -> delivery_ok fl fh s'.
Proof.
  intros Hok Hrm. destruct (removed_bytes _ _ _ _ _ Hok Hrm) as (Q1 & Q2 & Q3).
  destruct (removed_trace _ _ _ Hrm) as (T1 & T2 & T3 & T4).
  destruct Hok as [H1 [H2 H3 H4 [H5 H5'] H6 H7 [H8 H8'] [H9 H9'] H10 H11 [H12 H12']] H13].
  destruct Hrm as [E1 E2 _ E4 [E5 E5'] E6 (E7 & E7' & E7'') _].
  pose proof (length_of_nonneg i). assert (Hsub : forall P, Forall P (items s) -> Forall P (items s')).
  { intros P HP. rewrite E1 in HP. by apply Forall_cons in HP as [_ HP]. }
  split_ok; try done.
  - unfold delivery_leases, delivery_handles, arena_leases in *. rewrite E6, E7, E7'.
    eapply owns_item; [by apply omap_perm | by apply omap_perm | exact H1].
  - rewrite E4, H4, (sum_item _ _ _ _ E1). lia.
  - rewrite E5, E5', H5, H5'. rewrite !(sum_item _ _ _ _ E1). lia.
  - lia.
  - rewrite (sum_item _ _ _ _ E1) in H7. assert (0 <= plain_ordinary i); [| lia].
    unfold plain_ordinary, ordinary_bytes. destruct (prepaid i), (control i); lia.
  - split; [| by etrans; [eapply ordinary_items_perm |]]. rewrite E5. rewrite (Permutation_zlen _ _ E1), zlen_cons in H8.
    unfold prepaid_one. destruct (prepaid i); lia.
  - rewrite E1 in H9. apply NoDup_cons in H9 as [_ H9]. rewrite E7''. auto.
  - intros r. rewrite T4, E7''. apply H10.
  - intros r. rewrite T1, T4. etrans; [| apply H11]. apply sublist_app; [done |]. by apply sublist_omap.
  - rewrite T1. auto.
  - rewrite T2, T3, H13, E1. cbn [omap list_omap]. destruct (prepaid_key i); [| by rewrite app_nil_r].
    by rewrite <- app_assoc.
Qed.

Lemma filter_id_perm l i : NoDup (map it_id l) -> i ∈ l ->
  l ≡ₚ i :: List.filter (fun x => negb (Nat.eqb (it_id x) (it_id i))) l.
Proof.
  induction l as [|x l IH]; [by intros _ ?%elem_of_nil |]. cbn [map List.filter]. intros [Hn Hnd]%NoDup_cons [->|Hin]%elem_of_cons.
  - rewrite Nat.eqb_refl. cbn [negb]. apply perm_skip. rewrite filter_all; [done |].
    intros y Hy. apply negb_true_iff, Nat.eqb_neq. intros E. apply Hn. rewrite <- E. by apply list_elem_of_fmap_2.
  - assert (Hne : it_id x <> it_id i) by (intros E; apply Hn; rewrite E; by apply list_elem_of_fmap_2).
    apply Nat.eqb_neq in Hne. rewrite Hne. cbn [negb]. rewrite perm_swap. apply perm_skip. by apply IH.
Qed.

Lemma queue_bytes_eq i : queue_bytes i = match record i with Prepaid _ _ => 0 | Own _ => length_of i end.
Proof. unfold queue_bytes, prepaid. by destruct (record i). Qed.

Ltac record_fields := cbn [items queue handed queuedBytes physicalBytes ordinaryBytes prepaidItems prepaidBytes account released arena
  next_item trace set_account emit set_bytes set_prepaid set_lists].

Lemma drop_queued_removed index i s : queue s !! index = Some i ->
  removed i s (out_state (release_record (record i) (drop_queued index i s))).
Proof.
  intros Hi. pose proof (delete_Permutation _ _ _ Hi) as Hp. pose proof (lsum_perm queue_bytes _ _ Hp) as Hs. rewrite lsum_cons in Hs.
  unfold drop_queued, release_backing, less_ordinary, unaccount, release_record, prepaid.
  rewrite queue_bytes_eq in Hs.
  constructor; unfold items, ordinary_bytes, prepaid_one, prepaid_bytes, prepaid;
    destruct (record i), (control i), (backing i); cbn [out_state]; record_fields; rewrite ?app_nil_r; try done;
    try exact (Permutation_app_tail (handed s) Hp); try apply sublist_delete; try (split; lia); lia.
Qed.

Lemma drop_handed_removed i s : NoDup (map it_id (handed s)) -> i ∈ handed s ->
  removed i s (out_state (release_record (record i) (drop_handed i s))).
Proof.
  intros Hnd Hi. pose proof (filter_id_perm _ _ Hnd Hi) as Hp. pose proof (lsum_perm queue_bytes _ _ Hp) as Hs. rewrite lsum_cons in Hs.
  unfold drop_handed, release_backing, less_ordinary, unaccount, release_record, prepaid.
  rewrite queue_bytes_eq in Hs.
  constructor; unfold items, ordinary_bytes, prepaid_one, prepaid_bytes, prepaid;
    destruct (record i), (control i), (backing i); cbn [out_state]; record_fields; rewrite ?app_nil_r; try done;
    try (etrans; [exact (Permutation_app_head (queue s) Hp) | by rewrite <- Permutation_middle]); try (split; lia); lia.
Qed.

(** ** Calls *)

Lemma cancel_loop_ok fl fh n f s : delivery_ok fl fh s -> out_ok fl fh (cancel_loop n f s).
Proof.
  revert s. induction n as [|n IH]; intros s Hok; cbn [cancel_loop]; [done |].
  destruct (queue s !! n) as [i|] eqn:Hi; [| done]. case_if; [by apply IH |].
  pose proof (removed_ok _ _ _ _ _ Hok (drop_queued_removed n i s Hi)) as Hr.
  destruct (release_record _ _); cbn [out_state] in Hr; [by apply IH | done | done].
Qed.

Lemma close_ok fl fh s : delivery_ok fl fh s -> out_ok fl fh (close s).
Proof.
  intros Hok. unfold close. case_if; [done |]. apply andThen_ok.
  - by apply cancel_loop_ok, generation_ok, flags_ok.
  - intros s' Hs'. by apply release_arena_ok.
Qed.

Lemma fail_ok fl fh s : delivery_ok fl fh s -> out_ok fl fh (fail s).
Proof. intros Hok. unfold fail. case_if; [done |]. apply andThen_ok; [by apply close_ok | done]. Qed.

Lemma find_handed_elem id s i : find_handed id s = Some i -> i ∈ handed s /\ it_id i = id.
Proof. unfold find_handed. intros E. apply find_some in E as [H1 H2%Nat.eqb_eq]. by rewrite list_elem_of_In. Qed.

Lemma handed_ids fl fh s : delivery_ok fl fh s -> NoDup (map it_id (handed s)).
Proof. intros Hok. destruct (dc_ids _ (rs_core _ _ _ _ _ _ Hok)) as [H _]. unfold items in H. rewrite map_app in H. by apply NoDup_app in H as (_ & _ & H). Qed.

Lemma release_ok fl fh i s : delivery_ok fl fh s -> i ∈ handed s -> out_ok fl fh (release i s).
Proof.
  intros Hok Hi. unfold release. apply andThen_ok; [| intros; by apply release_arena_ok].
  eapply removed_ok; [exact Hok |]. apply drop_handed_removed; [by eapply handed_ids | done].
Qed.

Lemma after_settled_ok fl fh w e f s : delivery_ok fl fh s -> out_ok fl fh (after_settled w e f s).
Proof. intros Hok. unfold after_settled. case_if; [by apply fail_ok | done]. Qed.

Lemma settle_item_ok fl fh w id e s : delivery_ok fl fh s -> out_ok fl fh (settle w id e s).
Proof.
  intros Hok. unfold settle. destruct (find_handed id s) as [i|] eqn:E; [| done]. apply find_handed_elem in E as [E _].
  apply andThen_ok; [by apply release_ok | intros; by apply after_settled_ok].
Qed.

Lemma release_items_ok fl fh ids s : delivery_ok fl fh s -> out_ok fl fh (release_all ids s).
Proof.
  revert s. induction ids as [|id ids IH]; intros s Hok; cbn [release_all]; [by apply release_arena_ok |].
  destruct (find_handed id s) as [i|] eqn:E; [| by apply IH]. apply find_handed_elem in E as [E _].
  pose proof (release_ok _ _ _ _ Hok E) as Hr. destruct (release i s); [by apply IH | done | done].
Qed.

(** ** Handing over *)

Definition may_go (w : World) (i : Item) : bool :=
  fence_current w (fence i) && match admission i with Some a => w_eligible w a | None => true end.

Lemma next_from_spec w q seen k n : next_from w q seen k = Some n ->
  exists pre i post, q = pre ++ i :: post /\ n = (k + length pre)%nat /\ may_go w i = true
    /\ (forall r, routed i = Some r -> (r ∉ seen) /\ Forall (fun x => routed x <> Some r) pre).
Proof.
  revert seen k. induction q as [|x q IH]; intros seen k; cbn [next_from]; [done |].
  assert (Hskip : forall seen', (forall r, routed x = Some r -> r ∈ seen') -> (forall r, r ∈ seen -> r ∈ seen') ->
     next_from w q seen' (S k) = Some n ->
     exists pre i post, x :: q = pre ++ i :: post /\ n = (k + length pre)%nat /\ may_go w i = true
       /\ (forall r, routed i = Some r -> (r ∉ seen) /\ Forall (fun x => routed x <> Some r) pre)).
  { intros seen' Hx Hsub E. apply IH in E as (pre & i & post & -> & -> & Hgo & Hr).
    exists (x :: pre), i, post. cbn [app length]. split_and!; [done | lia | done |].
    intros r Hri. destruct (Hr r Hri) as [H1 H2]. split; [by intros Hin%Hsub |]. constructor; [by intros Hxr%Hx | done]. }
  assert (Htake : may_go w x = true -> Some k = Some n -> (forall r, routed x = Some r -> r ∉ seen) ->
     exists pre i post, x :: q = pre ++ i :: post /\ n = (k + length pre)%nat /\ may_go w i = true
       /\ (forall r, routed i = Some r -> (r ∉ seen) /\ Forall (fun x => routed x <> Some r) pre)).
  { intros Hgo [= <-] Hseen. exists [], x, q. split_and!; [done | cbn; lia | done |]. intros r Hr. split; [by apply Hseen | done]. }
  destruct (routed x) as [r|] eqn:Hrx.
  - destruct (bool_decide (r ∈ seen)) eqn:Hs.
    + apply bool_decide_eq_true in Hs. apply Hskip; [by intros ? [= <-] | done].
    + apply bool_decide_eq_false in Hs. destruct (fence_current _ _ && _) eqn:Hgo.
      * intros E. apply Htake; [done | done |]. by intros ? [= <-].
      * apply Hskip; [intros ? [= <-]; left | by right].
  - destruct (fence_current _ _ && _) eqn:Hgo; [intros E; by apply Htake | by apply Hskip].
Qed.

Lemma route_ids_app r l k : route_ids r (l ++ k) = route_ids r l ++ route_ids r k.
Proof. apply omap_app. Qed.

Lemma route_ids_none r l : Forall (fun x => routed x <> Some r) l -> route_ids r l = [].
Proof.
  induction 1 as [|x l Hx _ IH]; [done |]. unfold route_ids in *. cbn [omap list_omap]. unfold route_id at 1.
  destruct (routed x) as [r'|]; [rewrite decide_False by congruence |]; done.
Qed.

Lemma delete_middle {A} (l1 : list A) x l2 : delete (length l1) (l1 ++ x :: l2) = l1 ++ l2.
Proof. induction l1 as [|y l1 IH]; [done |]. cbn. by f_equal. Qed.

Lemma hand_ok fl fh w n i s : delivery_ok fl fh s -> next w s = Some n -> queue s !! n = Some i ->
  delivery_ok fl fh (emit (Wrote i) (hand n i s)).
Proof.
  intros Hok E Hi. unfold next in E. apply next_from_spec in E as (pre & i' & post & Hq & -> & Hgo & Hr). cbn [Nat.add] in *.
  rewrite Hq, list_lookup_middle in Hi by done. injection Hi as ->.
  assert (Hp : queue (hand (length pre) i s) = pre ++ post /\ handed (hand (length pre) i s) = handed s ++ [i]).
  { unfold hand. rewrite Hq, delete_middle. by destruct (prepaid i). }
  destruct Hp as [Q1 Q2].
  assert (Hperm : items (hand (length pre) i s) ≡ₚ items s).
  { unfold items. rewrite Q1, Q2, Hq, <- !app_assoc. apply Permutation_app_head. cbn [app]. rewrite app_assoc.
    symmetry. apply Permutation_cons_append. }
  assert (Hlen : length_of i = queue_bytes i + prepaid_bytes i) by (unfold queue_bytes, prepaid_bytes; destruct (prepaid i); lia).
  assert (Hsum : queuedBytes (hand (length pre) i s) = queuedBytes s - queue_bytes i
      /\ physicalBytes (hand (length pre) i s) = physicalBytes s + queue_bytes i
      /\ ordinaryBytes (hand (length pre) i s) = ordinaryBytes s
      /\ prepaidItems (hand (length pre) i s) = prepaidItems s /\ prepaidBytes (hand (length pre) i s) = prepaidBytes s
      /\ account (hand (length pre) i s) = account s /\ released (hand (length pre) i s) = released s
      /\ arena (hand (length pre) i s) = arena s /\ next_item (hand (length pre) i s) = next_item s
      /\ trace (hand (length pre) i s) = trace s).
  { unfold hand, queue_bytes. destruct (prepaid i); cbn; split_and!; (done || lia). }
  destruct Hsum as (S1 & S2 & S3 & S4 & S5 & S6 & S7 & S8 & S9 & S10).
  set (s' := hand (length pre) i s) in *. clearbody s'.
  destruct Hok as [H1 [H2 H3 H4 [H5 H5'] H6 H7 [H8 H8'] [H9 H9'] H10 H11 [H12 H12']] H13].
  assert (T : wrote (trace s' ++ [Wrote i]) = wrote (trace s) ++ [i] /\ taken (trace s' ++ [Wrote i]) = taken (trace s)
     /\ given_back (trace s' ++ [Wrote i]) = given_back (trace s)
     /\ (forall r, route_queued r (trace s' ++ [Wrote i]) = route_queued r (trace s))).
  { rewrite S10. unfold wrote, taken, given_back, route_queued. split_and!; intros; rewrite omap_snoc; cbn; by rewrite ?app_nil_r. }
  destruct T as (T1 & T2 & T3 & T4).
  split_ok; cbn [account queuedBytes physicalBytes ordinaryBytes prepaidItems prepaidBytes queue handed next_item trace emit];
    rewrite ?S1, ?S2, ?S3, ?S4, ?S5, ?S6, ?S9, ?T1, ?T2, ?T3; change (items (emit (Wrote i) s')) with (items s').
  - unfold delivery_leases, delivery_handles, arena_leases in *. cbn [released arena emit]. rewrite S7, S8.
    change (items (emit (Wrote i) s')) with (items s').
    eapply owns_proper; [| | reflexivity | exact H1]; by rewrite Hperm.
  - rewrite H2, Q1, Hq, lsum_remove. lia.
  - rewrite H3, Q2, lsum_app, lsum_cons, lsum_nil. lia.
  - by rewrite H4, (lsum_perm _ _ _ Hperm).
  - rewrite H5, H5'. by rewrite !(lsum_perm _ _ _ Hperm).
  - lia.
  - by rewrite (lsum_perm _ _ _ Hperm).
  - rewrite (Permutation_zlen _ _ Hperm). split; [done |]. 
    etrans; [apply (ordinary_items_same _ _ Hperm) | done].
  - by rewrite Hperm.
  - intros r. rewrite T4. apply H10.
  - intros r. rewrite T4, route_ids_app, Q1, route_ids_app, <- app_assoc. specialize (H11 r). rewrite Hq in H11.
    change (pre ++ i :: post) with (pre ++ [i] ++ post) in H11. rewrite !route_ids_app in H11.
    destruct (decide (routed i = Some r)) as [Hri|Hri].
    + destruct (Hr r Hri) as [_ Hpre]. rewrite (route_ids_none _ _ Hpre) in *. exact H11.
    + replace (route_ids r [i]) with (@nil nat) in * by (symmetry; by apply route_ids_none, Forall_singleton). exact H11.
  - split; [by rewrite Hperm |]. apply Forall_app. split; [done |]. apply Forall_singleton.
    rewrite Forall_forall in H12. apply H12. unfold items. rewrite Hq. apply elem_of_app. left. apply elem_of_app. right. left.
  - by rewrite Hperm.
Qed.

Lemma flush_end_ok fl fh s : delivery_ok fl fh s -> delivery_ok fl fh (flush_end s).
Proof. intros Hok. by apply release_arena_ok, flags_ok. Qed.

Lemma flush_loop_ok fl fh w s : delivery_ok fl fh s -> out_ok fl fh (flush_loop w s).
Proof.
  intros Hok. unfold flush_loop. case_if; [by apply flush_end_ok |].
  destruct (next w s) as [n|] eqn:En; cbn [mbind option_bind]; [| by apply flush_end_ok].
  destruct (queue s !! n) as [i|] eqn:Ei; cbn [fmap option_fmap option_map]; [| by apply flush_end_ok].
  case_if; [by apply flush_end_ok | by eapply hand_ok].
Qed.

Lemma flush_ok fl fh w s : delivery_ok fl fh s -> out_ok fl fh (flush w s).
Proof. intros Hok. unfold flush. case_if; [done |]. by apply flush_loop_ok, flags_ok. Qed.

(** ** Admission *)

(** What an admission holds while its record is not yet an item's. *)

Definition pending_leases (r : ItemRecord) : list (nat * Z) := match r with Own l => [(l, 512)] | Prepaid _ _ => [] end.

Definition pending_keys (r : ItemRecord) : list nat := match r with Own _ => [] | Prepaid k _ => [k] end.

Definition users (b : option nat) : list nat := match b with Some h => [h] | None => [] end.

Definition holding (fl fh : Z) (r : ItemRecord) (b : option nat) (s : Delivery) : Prop :=
  resources fl fh (pending_leases r) (users b) (pending_keys r) s.

Lemma take_own fl fh c s l a : delivery_ok fl fh s -> B.reserve 512 c (account s) = Some (l, a) ->
  holding fl fh (Own l) None (set_account a s).
Proof. intros [H1 [] H3] E. split_ok; try done. by eapply owns_reserve. Qed.

Lemma take_prepaid fl fh k n s : delivery_ok fl fh s -> holding fl fh (Prepaid k n) None (emit (Taken k) s).
Proof.
  intros [H1 [H2 H3 H4 H5 H6 H7 H8 H9 H10 H11 H12] H13].
  assert (E : wrote (trace s ++ [Taken k]) = wrote (trace s) /\ taken (trace s ++ [Taken k]) = taken (trace s) ++ [k]
     /\ given_back (trace s ++ [Taken k]) = given_back (trace s) /\ (forall r, route_queued r (trace s ++ [Taken k]) = route_queued r (trace s))).
  { unfold wrote, taken, given_back, route_queued. split_and!; intros; rewrite omap_snoc; cbn; by rewrite ?app_nil_r. }
  destruct E as (E1 & E2 & E3 & E4).
  split_ok; cbn [trace emit]; rewrite ?E1, ?E2, ?E3; try done; try (intros r; rewrite E4; auto).
  rewrite <- Permutation_cons_append. cbn [pending_keys app]. apply perm_skip. exact H13.
Qed.

Lemma release_record_ok fl fh r s : holding fl fh r None s -> out_ok fl fh (release_record r s).
Proof.
  intros [H1 [H2 H3 H4 H5 H6 H7 H8 H9 H10 H11 H12] H13]. destruct r as [l|k n]; unfold out_ok; cbn [release_record out_state].
  - split_ok; try done. exact (owns_release _ _ _ _ _ _ _ H1).
  - assert (E : wrote (trace s ++ [GivenBack k]) = wrote (trace s) /\ taken (trace s ++ [GivenBack k]) = taken (trace s)
       /\ given_back (trace s ++ [GivenBack k]) = given_back (trace s) ++ [k]
       /\ (forall r, route_queued r (trace s ++ [GivenBack k]) = route_queued r (trace s))).
    { unfold wrote, taken, given_back, route_queued. split_and!; intros; rewrite omap_snoc; cbn; by rewrite ?app_nil_r. }
    destruct E as (E1 & E2 & E3 & E4).
    split_ok; cbn [trace emit]; rewrite ?E1, ?E2, ?E3; try done; try (intros r; rewrite E4; auto).
    rewrite H13. cbn [pending_keys app]. rewrite <- app_assoc. cbn [app]. apply Permutation_middle.
Qed.

Lemma answer_ok fl fh ok s : delivery_ok fl fh s -> out_ok fl fh (answer ok s).
Proof. intros Hok. by apply quiet_ok. Qed.

Lemma refuse_ok fl fh r s : holding fl fh r None s -> out_ok fl fh (refuse r s).
Proof. intros Hh. apply andThen_ok; [by apply release_record_ok | intros; by apply answer_ok]. Qed.

Lemma retain_holding fl fh r buffer n c s h a : holding fl fh r None s -> B.retainBacking buffer n c (account s) = Some (h, a) ->
  holding fl fh r (Some h) (set_account a s).
Proof. intros [H1 [] H3] E. split_ok; try done. by eapply owns_retain. Qed.

Lemma backing_holding fl fh r b s : holding fl fh r b s -> holding fl fh r None (release_backing b s).
Proof. intros Hh. destruct b as [h|]; [| done]. destruct Hh as [H1 [] H3]. split_ok; try done. by apply owns_releaseBacking. Qed.

Lemma encoding_holding fl fh r b s : holding fl fh r b s -> holding fl fh r b (encoded_end (set_encoding true s)).
Proof. intros Hh. by apply release_arena_ok, flags_ok, flags_ok. Qed.

Lemma lsum_le {A} (f g : A -> Z) l : (forall x, f x <= g x) -> lsum f l <= lsum g l.
Proof. intros Hfg. induction l as [|x l IH]; [done |]. rewrite !lsum_cons. specialize (Hfg x). lia. Qed.

Lemma push_ok fl fh x bytes b r a s : holding fl fh r b s ->
  (forall l, r = Own l -> zlen (items s) - prepaidItems s < itemLimit
     /\ zlen bytes <= outboundConnectionBytes budgets + reservedControlBytes budgets - queuedBytes s - physicalBytes s
     /\ (ad_control x = false -> zlen bytes <= outboundConnectionBytes budgets - ordinaryBytes s)) ->
  (ad_control x = false -> ordinary_items (items s) < itemLimit - 4) ->
  (forall i, it_bytes i = bytes -> framed i) ->
  delivery_ok fl fh (push x bytes b r a s).
Proof.
  intros Hh Hown Hord Hfr. set (i := mkItem (next_item s) bytes b r (ad_control x) (ad_fence x) a).
  assert (Hq : queue (push x bytes b r a s) = queue s ++ [i] /\ handed (push x bytes b r a s) = handed s
     /\ queuedBytes (push x bytes b r a s) = queuedBytes s + queue_bytes i
     /\ physicalBytes (push x bytes b r a s) = physicalBytes s
     /\ ordinaryBytes (push x bytes b r a s) = ordinaryBytes s + ordinary_bytes i
     /\ prepaidItems (push x bytes b r a s) = prepaidItems s + prepaid_one i
     /\ prepaidBytes (push x bytes b r a s) = prepaidBytes s + prepaid_bytes i
     /\ account (push x bytes b r a s) = account s /\ released (push x bytes b r a s) = released s
     /\ arena (push x bytes b r a s) = arena s /\ next_item (push x bytes b r a s) = S (next_item s)
     /\ trace (push x bytes b r a s) = trace s ++ [Queued (next_item s) (routed i)]).
  { unfold push, queue_bytes, ordinary_bytes, prepaid_one, prepaid_bytes, prepaid, length_of. cbv zeta. fold i. cbn [record i control it_bytes].
    destruct r, (ad_control x); cbn; split_and!; (done || lia). }
  destruct Hq as (Q1 & Q2 & Q3 & Q4 & Q5 & Q6 & Q7 & Q8 & Q9 & Q10 & Q11 & Q12).
  set (s' := push x bytes b r a s) in *. clearbody s'.
  assert (Hp : items s' ≡ₚ i :: items s).
  { unfold items. rewrite Q1, Q2, <- app_assoc. cbn [app]. by rewrite <- Permutation_middle. }
  destruct Hh as [H1 [H2 H3 H4 [H5 H5'] H6 H7 [H8 H8'] [H9 H9'] H10 H11 [H12 H12']] H13].
  assert (T : wrote (trace s') = wrote (trace s) /\ taken (trace s') = taken (trace s) /\ given_back (trace s') = given_back (trace s)
     /\ (forall k, route_queued k (trace s') = route_queued k (trace s) ++ match route_id k i with Some n => [n] | None => [] end)).
  { rewrite Q12. unfold wrote, taken, given_back, route_queued. split_and!; intros; rewrite omap_snoc; cbn; by rewrite ?app_nil_r. }
  destruct T as (T1 & T2 & T3 & T4).
  assert (Hpl : lsum plain_ordinary (items s) <= ordinaryBytes s).
  { rewrite H4. apply lsum_le. intros y. unfold plain_ordinary, ordinary_bytes. pose proof (length_of_nonneg y). repeat case_match; lia. }
  assert (Hr : prepaid i = match r with Own _ => false | Prepaid _ _ => true end) by done.
  assert (Hlen : length_of i = zlen bytes) by done. pose proof (zlen_nonneg bytes).
  assert (Hid : forall k n, route_id k i = Some n -> n = next_item s).
  { intros k n. unfold route_id. destruct (routed i); [| done]. case_decide; [| done]. by intros [= <-]. }
  split_ok.
  - unfold delivery_leases, delivery_handles, arena_leases in *. rewrite Q8, Q9, Q10. cbn [app].
    eapply owns_proper; [| | reflexivity | exact H1].
    + rewrite (omap_perm own_lease _ _ Hp). cbn [omap list_omap]. unfold own_lease at 1, pending_leases. cbn [record i]. by destruct r.
    + rewrite (omap_perm backing _ _ Hp). cbn [omap list_omap]. cbn [backing i]. by destruct b.
  - rewrite Q3, H2, Q1, lsum_app, lsum_cons, lsum_nil. lia.
  - by rewrite Q4, Q2.
  - rewrite Q5, H4, (sum_item _ _ _ _ Hp). lia.
  - rewrite Q6, Q7, H5, H5'. rewrite !(sum_item _ _ _ _ Hp). lia.
  - rewrite Q3, Q4. unfold queue_bytes. rewrite Hr, Hlen. destruct r as [l|]; [| lia]. destruct (Hown l eq_refl) as (_ & Hb & _). lia.
  - rewrite (sum_item _ _ _ _ Hp). unfold plain_ordinary at 1, ordinary_bytes. rewrite Hr, Hlen. cbn [control i].
    destruct r as [l|]; [| lia]. destruct (ad_control x); [lia |]. destruct (Hown l eq_refl) as (_ & _ & Hb). specialize (Hb eq_refl). lia.
  - rewrite (Permutation_zlen _ _ Hp), zlen_cons, Q6. unfold prepaid_one. rewrite Hr. split.
    + destruct r as [l|]; [| lia]. destruct (Hown l eq_refl) as (Hb & _). lia.
    + rewrite ordinary_items_sum, (sum_item _ _ _ _ Hp), <- ordinary_items_sum. cbn [control i].
      destruct (ad_control x); [lia |]. specialize (Hord eq_refl). lia.
  - rewrite (Permutation_map it_id Hp), Q11. split.
    + cbn [map]. constructor; [| done]. intros Hin. apply list_elem_of_fmap in Hin as (y & E & Hy).
      rewrite Forall_forall in H9'. specialize (H9' y Hy). cbn in E. lia.
    + rewrite Hp. constructor; [cbn; lia |]. eapply Forall_impl; [exact H9' |]. intros y Hy. cbn in Hy. lia.
  - intros k. rewrite T4, Q11. destruct (H10 k) as [S1 S2]. destruct (route_id k i) as [n|] eqn:E; cycle 1.
    + rewrite app_nil_r. split; [done |]. eapply Forall_impl; [exact S2 |]. intros y Hy. cbn in Hy. lia.
    + apply Hid in E. subst n. split; [by apply sorted_snoc_nat |]. apply Forall_app. split; [| by constructor; [lia |]].
      eapply Forall_impl; [exact S2 |]. intros y Hy. cbn in Hy. lia.
  - intros k. rewrite T1, T4, Q1, route_ids_app, app_assoc. apply sublist_app; [apply H11 |].
    unfold route_ids. cbn [omap list_omap]. by destruct (route_id k i).
  - rewrite Hp, T1. split; [| done]. constructor; [by apply Hfr | done].
  - rewrite T2, T3, H13. rewrite (omap_perm prepaid_key _ _ Hp). cbn [omap list_omap app]. unfold prepaid_key at 2, pending_keys.
    cbn [record i]. destruct r; [done |]. cbn [app]. by rewrite <- Permutation_middle.
Qed.

Lemma cancel_ok fl fh f s : delivery_ok fl fh s -> out_ok fl fh (cancel f s).
Proof. apply cancel_loop_ok. Qed.

Lemma admit_pushed_ok fl fh w x s : delivery_ok fl fh s -> out_ok fl fh (admit_pushed w x s).
Proof.
  intros Hok. unfold admit_pushed.
  assert (Hrest : out_ok fl fh (if closedState s || negb (fence_current w (ad_fence x))
     then andThen (cancel (ad_fence x) s) I_refused (answer false)
     else andThen (flush w s) (I_admit (ad_fence x)) (answer_admit w (ad_fence x)))).
  { case_if; (apply andThen_ok; [by apply cancel_ok || by apply flush_ok | intros; by apply answer_ok]). }
  destruct (ad_admitted x) as [[|]|]; try exact Hrest.
  apply andThen_ok; [by apply close_ok | intros; by apply answer_ok].
Qed.

(** The checks that an admission passed before it took anything. *)

Definition room (x : Admission) (s : Delivery) : Prop :=
  (ad_prepaid x = None -> zlen (items s) - prepaidItems s < itemLimit)
  /\ (ad_control x = false -> ordinary_items (items s) < itemLimit - 4).

Lemma admit_room w x s : admit_refused itemLimit w x s = false -> room x s.
Proof.
  unfold admit_refused. rewrite !orb_false_iff. intros ((_ & H1) & H2).
  unfold room, items. rewrite zlen_app, ordinary_items_sum, lsum_app, <- !ordinary_items_sum. split.
  - intros E. rewrite E in H1. cbn in H1. apply Z.leb_gt in H1. lia.
  - intros E. rewrite E in H2. cbn in H2. apply Z.leb_gt in H2. lia.
Qed.

Lemma encoded_end_same s : items (encoded_end (set_encoding true s)) = items s /\ prepaidItems (encoded_end (set_encoding true s)) = prepaidItems s.
Proof. unfold encoded_end, releaseArena. by case_match. Qed.

Definition record_of (x : Admission) (r : ItemRecord) : Prop :=
  match r with Own _ => ad_prepaid x = None | Prepaid k n => ad_prepaid x = Some (k, n) end.

Lemma admit_encoded_ok fl fh w w' x bytes buffer r s : holding fl fh r None s -> room x s -> record_of x r ->
  (forall i, it_bytes i = bytes -> framed i) -> out_ok fl fh (admit_encoded budgets w w' x bytes buffer r s).
Proof.
  intros Hh [Hr1 Hr2] Hx Hfr. unfold admit_encoded. destruct (frame_refused budgets w x bytes s) eqn:Hf; [by apply refuse_ok |].
  assert (Hpush : forall b a s', holding fl fh r b s' -> items s' = items s -> prepaidItems s' = prepaidItems s ->
     queuedBytes s' = queuedBytes s -> physicalBytes s' = physicalBytes s -> ordinaryBytes s' = ordinaryBytes s ->
     out_ok fl fh (admit_pushed w' x (push x bytes b r a s'))).
  { intros b a s' Hh' E1 E2 E3 E4 E5. apply admit_pushed_ok, push_ok; [done | | by rewrite E1 | done].
    intros l ->. rewrite E1, E2, E3, E4, E5. cbn in Hx. split; [by apply Hr1 |].
    unfold frame_refused in Hf. rewrite Hx in Hf. apply orb_false_iff in Hf as [_ Hf]. apply orb_false_iff in Hf as [Hf1 Hf2].
    split; [by apply Z.ltb_ge in Hf1 |]. intros Hc. rewrite Hc in Hf2. by apply Z.ltb_ge in Hf2. }
  destruct r as [l|k n].
  - destruct (B.retainBacking _ _ _ _) as [[h a]|] eqn:E; [| by apply refuse_ok].
    pose proof (retain_holding _ _ _ _ _ _ _ _ _ Hh E) as Hh'.
    destruct (match ad_prepare x with Some _ => _ | None => _ end) as [adm|]; [case_if; [by apply refuse_ok, (backing_holding _ _ _ (Some h)) | by apply Hpush] | by apply refuse_ok, (backing_holding _ _ _ (Some h))].
  - destruct (match ad_prepare x with Some _ => _ | None => _ end) as [adm|]; [case_if; [by apply refuse_ok | by apply Hpush] | by apply refuse_ok].
Qed.

(** A message passes as it is. *)

Lemma validate_same kind metadataBytes payloadBytes tree m c value :
  validateTerminalFrame kind metadataBytes payloadBytes tree (Some m) c = inr value -> value = m.
Proof. unfold validateTerminalFrame. intros H. repeat case_match; by simplify_eq. Qed.

Lemma encode_framed x bytes buffer : encode_item encodeUtf8 connection x = Some (bytes, buffer) -> forall i, it_bytes i = bytes -> framed i.
Proof.
  unfold encode_item. intros E i Hi. destruct (validateTerminalFrame _ _ _ _ _ _) as [|v] eqn:Hv; [done |].
  pose proof (validate_same _ _ _ _ _ _ _ Hv) as ->.
  destruct (ad_encoded x) as [buf|]; [| done]. destruct (encodeFrame _ _ _ _ _) as [|bs] eqn:He; [done |]. injection E as -> ->.
  exists (ad_metadata x), (ad_payload x). by rewrite Hi.
Qed.

Lemma admit_recorded_ok fl fh w w' x r s : holding fl fh r None s -> room x s -> record_of x r ->
  out_ok fl fh (admit_recorded encodeUtf8 budgets connection w w' x r s).
Proof.
  intros Hh Hroom Hx. unfold admit_recorded. destruct (encode_item encodeUtf8 connection x) as [[bytes buffer]|] eqn:E.
  - destruct (encoded_end_same s) as [E1 E2]. apply admit_encoded_ok; [by apply encoding_holding | | done | by eapply encode_framed].
    unfold room. by rewrite E1, E2.
  - apply andThen_ok; [by apply release_record_ok, flags_ok |]. intros s' Hs'. by apply answer_ok, release_arena_ok, flags_ok.
Qed.

Lemma admit_frame_ok fl fh w w' x s : delivery_ok fl fh s -> out_ok fl fh (admit_frame encodeUtf8 budgets connection itemLimit w w' x s).
Proof.
  intros Hok. unfold admit_frame. destruct (ad_prepaid x) as [[k n]|] eqn:Hx.
  - pose proof (take_prepaid _ _ k n _ Hok) as Hh. destruct (admit_refused _ _ _ _) eqn:Hr; [by apply refuse_ok |].
    apply admit_recorded_ok; [done | by eapply admit_room | done].
  - destruct (admit_refused _ _ _ _) eqn:Hr; [by apply answer_ok |].
    destruct (B.reserve _ _ _) as [[l a]|] eqn:E; [| by apply answer_ok].
    apply admit_recorded_ok; [by eapply take_own | exact (admit_room _ _ _ Hr) | done].
Qed.

(** ** Methods and callbacks *)

Lemma exec_ok fl fh w f s : delivery_ok fl fh s -> out_ok fl fh (exec w f s).
Proof.
  intros Hok. destruct f; cbn [exec]; try done.
  - by apply flush_loop_ok.
  - by apply answer_ok.
  - by apply answer_ok.
  - by apply answer_ok, release_arena_ok, flags_ok.
  - by apply cancel_loop_ok.
  - by apply release_arena_ok.
  - by apply release_arena_ok.
  - by apply after_settled_ok.
  - by apply release_items_ok.
  - by apply release_items_ok.
Qed.

Lemma leave_ok fl fh f s : delivery_ok fl fh s -> delivery_ok fl fh (leave f s).
Proof. intros Hok. destruct f; cbn [leave]; try done; by apply release_arena_ok, flags_ok. Qed.

Lemma unwind_ok fl fh w st o : out_ok fl fh o -> delivery_ok fl fh (unwind w st o).
Proof.
  revert o. induction st as [|f st IH]; intros o Ho; (destruct o as [s|fs s|s]; cbn [unwind]; [| by apply stack_ok |]).
  - by apply stack_ok.
  - by apply stack_ok, quiet_ok.
  - case_if; [by apply stack_ok |]. by apply IH, exec_ok.
  - case_if; [by apply stack_ok, quiet_ok |]. by apply IH, leave_ok.
Qed.

Lemma perform_ok fl fh w c s : delivery_ok fl fh s -> delivery_ok fl fh (perform encodeUtf8 budgets connection itemLimit w c s).
Proof.
  intros Hok. apply unwind_ok. destruct c; cbn [body].
  - by apply admit_frame_ok.
  - by apply cancel_ok.
  - by apply flush_ok.
  - by apply flush_ok, flags_ok, generation_ok.
  - by apply close_ok.
  - by apply settle_item_ok.
  - apply andThen_ok; [by apply close_ok |]. intros s' Hs'. by apply release_items_ok.
Qed.

Lemma delivery_resume_ok fl fh w x s s' : delivery_ok fl fh s -> resume w x s = Some s' -> delivery_ok fl fh s'.
Proof.
  intros Hok. unfold resume.
  destruct (stack s) as [|[] rest]; try done; destruct x as [[]|[]]; try done; intros [= <-]; apply unwind_ok; try done.
  - unfold after_write. case_if; [by apply flags_ok | done].
  - by apply fail_ok.
Qed.

Lemma new_delivery_ok a s : B.ok a -> B.backed a -> newDelivery budgets connection itemLimit a = Some s ->
  delivery_ok (plain_leases a) (live_handles a) s /\ stack s = [] /\ trace s = [].
Proof.
  intros H1 H2. unfold newDelivery. case_if; [done |]. destruct (B.reserve _ _ _) as [[l b]|] eqn:E; [| done]. intros [= <-].
  split; [| done]. split_ok; try (cbn; done); try (cbn; rewrite ?lsum_nil; lia).
  - eapply owns_reserve; [| exact E]. constructor; [done | done |]. constructor; try constructor; unfold zlen; cbn; lia.
  - unfold ordinary_items, items, zlen. cbn. lia.
  - split; [apply NoDup_nil_2 | done].
  - intros r. split; constructor.
Qed.

(** ** Executions

    The first two components count what the other owners of the account hold;
    they use it on their own ([ds_account]). *)

Inductive delivery_step : Z * Z * Delivery -> Z * Z * Delivery -> Prop :=
  | ds_perform w c fl fh s : delivery_step (fl, fh, s) (fl, fh, perform encodeUtf8 budgets connection itemLimit w c s)
  | ds_resume w x s' fl fh s : resume w x s = Some s' -> delivery_step (fl, fh, s) (fl, fh, s')
  | ds_account fl fh fl' fh' s a : owns fl' fh' (delivery_leases s) (delivery_handles s) a ->
      delivery_step (fl, fh, s) (fl', fh', set_account a s).

Definition delivery_reachable (x : Z * Z * Delivery) : Prop :=
  exists a s, B.ok a /\ B.backed a /\ newDelivery budgets connection itemLimit a = Some s
    /\ rtc delivery_step (plain_leases a, live_handles a, s) x.

Lemma delivery_step_ok x y : delivery_ok x.1.1 x.1.2 x.2 -> delivery_step x y -> delivery_ok y.1.1 y.1.2 y.2.
Proof.
  intros Hok Hst. revert Hok. destruct Hst; cbn [fst snd]; intros Hok.
  - by apply perform_ok.
  - by eapply delivery_resume_ok.
  - destruct Hok as [_ [] ?]. by split_ok.
Qed.

(** An invariant of the steps that holds at first holds for what is reachable. *)

Lemma delivery_invariant (P : Z * Z * Delivery -> Prop) :
  (forall a s, B.ok a -> B.backed a -> newDelivery budgets connection itemLimit a = Some s -> P (plain_leases a, live_handles a, s)) ->
  (forall x y, P x -> delivery_step x y -> P y) -> forall x, delivery_reachable x -> P x.
Proof.
  intros Hinit Hstep x (a & s & H1 & H2 & Hn & Hr). eapply rtc_invariant; [| exact Hstep | exact Hr]. by apply Hinit.
Qed.

Lemma delivery_reachable_ok x : delivery_reachable x -> delivery_ok x.1.1 x.1.2 x.2.
Proof.
  apply (delivery_invariant (fun x => delivery_ok x.1.1 x.1.2 x.2)); [| by intros; eapply delivery_step_ok].
  intros a s H1 H2 Hn. by apply (new_delivery_ok a s H1 H2 Hn).
Qed.

(** ** What is handed to the transport

    [writes ws s s']: the trace of [s] is continued, a closed delivery stays
    closed, and what is written was eligible at one of the moments [ws] and
    while the delivery was open. *)

Definition gated (w : World) (i : Item) : Prop :=
  may_go w i = true /\ match admission i with Some a => w_handoff w a = true | None => True end.

Definition writes (ws : list World) (s s' : Delivery) : Prop :=
  exists es, trace s' = trace s ++ es /\ (closedState s = true -> closedState s' = true)
    /\ forall i, Wrote i ∈ es -> closedState s = false /\ exists w, w ∈ ws /\ gated w i.

Lemma writes_quiet ws s s' es : trace s' = trace s ++ es -> (closedState s = true -> closedState s' = true) ->
  Forall (fun e => wrote_of e = None) es -> writes ws s s'.
Proof.
  intros Ht Hc Hq. exists es. split_and!; [done | done |]. intros i Hi. rewrite Forall_forall in Hq. by apply Hq in Hi.
Qed.

Lemma writes_same ws s s' : trace s' = trace s -> (closedState s = true -> closedState s' = true) -> writes ws s s'.
Proof. intros Ht Hc. apply (writes_quiet ws s s' []); [by rewrite app_nil_r | done | constructor]. Qed.

Lemma writes_trans ws a b c : writes ws a b -> writes ws b c -> writes ws a c.
Proof.
  intros (e1 & E1 & C1 & W1) (e2 & E2 & C2 & W2). exists (e1 ++ e2). split_and!; [by rewrite E2, E1, app_assoc | auto |].
  intros i [Hi|Hi]%elem_of_app; [by apply W1 |]. destruct (W2 i Hi) as [Hb Hg]. split; [| done].
  destruct (closedState a) eqn:Ha; [| done]. by rewrite (C1 eq_refl) in Hb.
Qed.

Lemma writes_then ws s o f k : writes ws s (out_state o) -> (forall s', writes ws s' (out_state (k s'))) ->
  writes ws s (out_state (andThen o f k)).
Proof. intros Ho Hk. destruct o; cbn [andThen out_state] in *; [by eapply writes_trans | done | done]. Qed.

Lemma writes_arena ws s : writes ws s (releaseArena s).
Proof. apply writes_same; unfold releaseArena; by case_match. Qed.

Lemma writes_record ws r s : writes ws s (out_state (release_record r s)).
Proof.
  destruct r as [l|k n]; cbn [release_record out_state]; [by apply writes_same |].
  apply (writes_quiet _ _ _ [GivenBack k]); [done | done | by repeat constructor].
Qed.

Lemma writes_backing ws b s : writes ws s (release_backing b s).
Proof. destruct b; by apply writes_same. Qed.

Lemma writes_drop ws n i s : writes ws s (drop_queued n i s).
Proof.
  eapply writes_trans; [| apply writes_backing]. apply writes_same; unfold less_ordinary, unaccount; by destruct (control i), (prepaid i).
Qed.

Lemma writes_cancel_loop ws n f s : writes ws s (out_state (cancel_loop n f s)).
Proof.
  revert s. induction n as [|n IH]; intros s; cbn [cancel_loop]; [by apply writes_same |].
  destruct (queue s !! n) as [i|]; [| by apply writes_same]. case_if; [apply IH |].
  assert (Hw : writes ws s (out_state (release_record (record i) (drop_queued n i s)))).
  { eapply writes_trans; [apply writes_drop | apply writes_record]. }
  destruct (release_record _ _); cbn [out_state] in *; [eapply writes_trans; [exact Hw | apply IH] | done | done].
Qed.

Lemma writes_close ws s : writes ws s (out_state (close s)).
Proof.
  unfold close. destruct (closedState s) eqn:Hc; [by apply writes_same |]. apply writes_then; [| apply writes_arena].
  eapply writes_trans; [| apply writes_cancel_loop]. by apply writes_same.
Qed.

Lemma writes_fail ws s : writes ws s (out_state (fail s)).
Proof.
  unfold fail. case_if; [by apply writes_same |]. apply writes_then; [apply writes_close |]. intros s'. by apply writes_same.
Qed.

Lemma writes_answer ws ok s : writes ws s (out_state (answer ok s)).
Proof. apply (writes_quiet _ _ _ [Answered ok]); [done | done | by repeat constructor]. Qed.

Lemma writes_flags ws s bl fl en : writes ws s (set_flags bl fl en (closedState s) s).
Proof. by apply writes_same. Qed.

Lemma writes_flush_loop ws w s : w ∈ ws -> writes ws s (out_state (flush_loop w s)).
Proof.
  intros Hw. unfold flush_loop.
  assert (Hend : writes ws s (flush_end s)) by (eapply writes_trans; [apply (writes_flags ws s) | apply writes_arena]).
  destruct (closedState s) eqn:Hc; cbn [orb]; [exact Hend |]. destruct (blocked s); [exact Hend |].
  destruct (next w s) as [n|] eqn:En; cbn [mbind option_bind]; [| exact Hend].
  destruct (queue s !! n) as [i|] eqn:Ei; cbn [fmap option_fmap option_map]; [| exact Hend].
  destruct (negb _) eqn:Hh; [exact Hend |]. apply negb_false_iff in Hh. cbn [out_state].
  exists [Wrote i]. split_and!; [by unfold hand; destruct (prepaid i) | unfold hand; destruct (prepaid i); cbn; congruence |].
  intros j [= ->]%list_elem_of_singleton. split; [done |]. exists w. split; [done |].
  unfold next in En. apply next_from_spec in En as (pre & i' & post & Hq & -> & Hgo & _).
  rewrite Hq, list_lookup_middle in Ei by done. injection Ei as ->. split; [done |]. by destruct (admission i).
Qed.

Lemma writes_flush ws w s : w ∈ ws -> writes ws s (out_state (flush w s)).
Proof.
  intros Hw. unfold flush. case_if; [by apply writes_same |]. eapply writes_trans; [apply (writes_flags ws s) | by apply writes_flush_loop].
Qed.

Lemma writes_release ws i s : writes ws s (out_state (release i s)).
Proof.
  unfold release. apply writes_then; [| apply writes_arena]. eapply writes_trans; [| apply writes_record].
  eapply writes_trans; [| apply writes_backing]. apply writes_same; unfold less_ordinary, unaccount; by destruct (control i), (prepaid i).
Qed.

Lemma writes_after ws w e f s : writes ws s (out_state (after_settled w e f s)).
Proof. unfold after_settled. case_if; [apply writes_fail | by apply writes_same]. Qed.

Lemma writes_settle ws w id e s : writes ws s (out_state (settle w id e s)).
Proof.
  unfold settle. destruct (find_handed id s); [| by apply writes_same]. apply writes_then; [apply writes_release | apply writes_after].
Qed.

Lemma writes_release_all ws ids s : writes ws s (out_state (release_all ids s)).
Proof.
  revert s. induction ids as [|id ids IH]; intros s; cbn [release_all]; [apply writes_arena |].
  destruct (find_handed id s) as [i|]; [| apply IH]. pose proof (writes_release ws i s) as Hw.
  destruct (release i s); cbn [out_state] in *; [eapply writes_trans; [exact Hw | apply IH] | done | done].
Qed.

Lemma writes_refuse ws r s : writes ws s (out_state (refuse r s)).
Proof. apply writes_then; [apply writes_record | apply writes_answer]. Qed.

Lemma writes_encoded_end ws s : writes ws s (encoded_end s).
Proof. eapply writes_trans; [apply (writes_flags ws s) | apply writes_arena]. Qed.

Lemma writes_push ws x bytes b r a s : writes ws s (push x bytes b r a s).
Proof.
  set (i := mkItem (next_item s) bytes b r (ad_control x) (ad_fence x) a).
  apply (writes_quiet _ _ _ [Queued (next_item s) (routed i)]); [| | by repeat constructor];
    unfold push; cbv zeta; fold i; by destruct (prepaid i), (control i).
Qed.

Lemma writes_pushed ws w x s : w ∈ ws -> writes ws s (out_state (admit_pushed w x s)).
Proof.
  intros Hw. unfold admit_pushed.
  assert (Hrest : writes ws s (out_state (if closedState s || negb (fence_current w (ad_fence x))
     then andThen (cancel (ad_fence x) s) I_refused (answer false)
     else andThen (flush w s) (I_admit (ad_fence x)) (answer_admit w (ad_fence x))))).
  { destruct (closedState s || _); apply writes_then; [apply writes_cancel_loop | apply writes_answer | by apply writes_flush | intros; apply writes_answer]. }
  destruct (ad_admitted x) as [[|]|]; try exact Hrest.
  apply writes_then; [apply writes_close | apply writes_answer].
Qed.

Lemma writes_admit ws w w' x s : w' ∈ ws -> writes ws s (out_state (admit_frame encodeUtf8 budgets connection itemLimit w w' x s)).
Proof.
  intros Hw.
  assert (Hpush : forall bytes b r a s', writes ws s s' -> writes ws s (out_state (admit_pushed w' x (push x bytes b r a s')))).
  { intros. eapply writes_trans; [eassumption |]. eapply writes_trans; [apply writes_push | by apply writes_pushed]. }
  assert (Hrec : forall r s', writes ws s s' -> writes ws s (out_state (admit_recorded encodeUtf8 budgets connection w w' x r s'))).
  { intros r s' Hs. unfold admit_recorded. destruct (encode_item encodeUtf8 connection x) as [[bytes buffer]|].
    - assert (Hs' : writes ws s (encoded_end (set_encoding true s'))).
      { eapply writes_trans; [exact Hs |]. eapply writes_trans; [apply (writes_flags ws s') | apply writes_encoded_end]. }
      set (s2 := encoded_end _) in *. clearbody s2. unfold admit_encoded. case_if; [eapply writes_trans; [exact Hs' | apply writes_refuse] |].
      destruct (match r with Own _ => _ | Prepaid _ _ => _ end) as [[b s3]|] eqn:E; [| eapply writes_trans; [exact Hs' | apply writes_refuse]].
      assert (Hs3 : writes ws s s3).
      { destruct r; [destruct (B.retainBacking _ _ _ _) as [[]|]; [| done]; injection E as <- <- | by injection E as <- <-].
        eapply writes_trans; [exact Hs' |]. by apply writes_same. }
      destruct (match ad_prepare x with Some _ => _ | None => _ end) as [a|]; [case_if; [| by apply Hpush] |];
        (eapply writes_trans; [| apply writes_refuse]; eapply writes_trans; [exact Hs3 | apply writes_backing]).
    - eapply writes_trans; [exact Hs |]. apply writes_then.
      + eapply writes_trans; [apply (writes_flags ws s') | apply writes_record].
      + intros s2. eapply writes_trans; [apply writes_encoded_end | apply writes_answer]. }
  unfold admit_frame. destruct (ad_prepaid x) as [[k n]|].
  - assert (Ht : writes ws s (emit (Taken k) s)) by (apply (writes_quiet _ _ _ [Taken k]); [done | done | by repeat constructor]).
    case_if; [eapply writes_trans; [exact Ht | apply writes_refuse] | by apply Hrec].
  - case_if; [apply writes_answer |]. destruct (B.reserve _ _ _) as [[l a]|]; [| apply writes_answer]. apply Hrec. by apply writes_same.
Qed.

Lemma writes_transport ws s : writes ws s (out_state (transportReleased s)).
Proof. apply writes_then; [apply writes_close | intros; apply writes_release_all]. Qed.

Lemma writes_exec ws w f s : w ∈ ws -> writes ws s (out_state (exec w f s)).
Proof.
  intros Hw. destruct f; cbn [exec]; try (by apply writes_same).
  - by apply writes_flush_loop.
  - apply writes_answer.
  - apply writes_answer.
  - eapply writes_trans; [apply writes_encoded_end | apply writes_answer].
  - apply writes_cancel_loop.
  - apply writes_arena.
  - apply writes_arena.
  - apply writes_after.
  - apply writes_release_all.
  - apply writes_release_all.
Qed.

Lemma writes_leave ws f s : writes ws s (leave f s).
Proof.
  destruct f; cbn [leave]; try (by apply writes_same); [| apply writes_encoded_end].
  eapply writes_trans; [apply (writes_flags ws s) | apply writes_arena].
Qed.

Lemma writes_stack ws st s : writes ws s (set_stack st s).
Proof. by apply writes_same. Qed.

Lemma writes_unwind ws w st s o : w ∈ ws -> writes ws s (out_state o) -> writes ws s (unwind w st o).
Proof.
  intros Hw. revert o. induction st as [|f st IH]; intros o Ho; (destruct o as [s'|fs s'|s']; cbn [unwind out_state] in *;
    [| by eapply writes_trans; [exact Ho | apply writes_stack] |]).
  - eapply writes_trans; [exact Ho | apply writes_stack].
  - eapply writes_trans; [exact Ho |]. by apply (writes_quiet _ _ _ [Raised]); [| | repeat constructor].
  - case_if; [eapply writes_trans; [exact Ho | apply writes_stack] |]. apply IH. eapply writes_trans; [exact Ho | by apply writes_exec].
  - case_if; [eapply writes_trans; [exact Ho |]; by apply (writes_quiet _ _ _ [Raised]); [| | repeat constructor] |].
    apply IH. cbn [out_state]. eapply writes_trans; [exact Ho | apply writes_leave].
Qed.

Definition call_worlds (w : World) (c : Call) : list World := match c with C_admit w' _ => [w; w'] | _ => [w] end.

Lemma writes_perform w c s : writes (call_worlds w c) s (perform encodeUtf8 budgets connection itemLimit w c s).
Proof.
  assert (Hw : w ∈ call_worlds w c) by (destruct c; cbn [call_worlds]; left).
  apply writes_unwind; [done |]. destruct c; cbn [body call_worlds] in *.
  - apply writes_admit. right. left.
  - apply writes_cancel_loop.
  - by apply writes_flush.
  - eapply writes_trans; [| by apply writes_flush]. by apply writes_same.
  - apply writes_close.
  - apply writes_settle.
  - apply writes_transport.
Qed.

Lemma writes_resume w x s s' : resume w x s = Some s' -> writes [w] s s'.
Proof.
  assert (Hw : w ∈ [w]) by left. unfold resume.
  destruct (stack s) as [|[] rest]; try done; destruct x as [[]|[]]; try done; intros [= <-]; apply writes_unwind; try done; try (by apply writes_same).
  - unfold after_write. cbn [out_state]. case_if; by apply writes_same.
  - apply writes_fail.
Qed.

End invariant.
