(* ===== verification/ConnectionProperties.v ===== *)
(** * What a connection's delivery guarantees

    The suspended callbacks of a closed delivery still lead to the release of
    its arena, and what an execution of ConnectionDelivery.v guarantees: exact
    accounts, the order of each route, fenced writes, and that nothing is left
    once it is closed.  The last section is an execution, and one where an
    exception leaves the closed delivery with an item for good. *)

From S2P Require Import Prelude Json Protocol JsMap LeaseAccount Retained RuntimeOwnership Frame Errors Terminal Pipe TerminalJson.
From S2P Require Import ConnectionDelivery ConnectionInvariant.

(** ** What the suspended callbacks will still do *)

Definition is_flush (f : Frame) : bool := match f with I_flush => true | _ => false end.

Definition is_encoded (f : Frame) : bool := match f with I_encoded => true | _ => false end.

Definition count_frames (p : Frame -> bool) (F : list Frame) : nat := length (List.filter p F).

(** The frames that try to release the arena. *)

Definition arena_frame (f : Frame) : bool :=
  match f with I_flush | I_encoded | I_close | I_release | I_transport | I_release_all _ => true | _ => false end.

Record frames_ok (F : list Frame) (s : Delivery) : Prop := mk_frames_ok {
  fl_flush : count_frames is_flush F = Nat.b2n (flushing s);
  fl_encoded : count_frames is_encoded F = Nat.b2n (encoding s);
}.

(** Of a closed delivery: the queue is empty or about to be emptied, and the
    arena is released, still needed, or about to be released. *)

Record closing (F : list Frame) (s : Delivery) : Prop := mk_closing {
  cl_queue : queue s = [] \/ exists n, I_cancel n None ∈ F /\ (length (queue s) <= n)%nat;
  cl_arena : released s = true \/ handed s <> [] \/ exists f, f ∈ F /\ arena_frame f = true;
}.

Record coming (F : list Frame) (s : Delivery) : Prop := mk_coming {
  co_flags : frames_ok F s;
  co_closing : closedState s = true -> Raised ∈ trace s \/ closing F s;
}.

(** The same of the outcome of a call above the frames [F]. *)

Definition out_coming (F : list Frame) (o : Out) : Prop :=
  match o with Done s => coming F s | Wait fs s => coming (fs ++ F) s | Throw s => frames_ok F s end.

Lemma count_app p F G : count_frames p (F ++ G) = (count_frames p F + count_frames p G)%nat.
Proof. unfold count_frames. by rewrite List.filter_app, length_app. Qed.

Definition neutral (f : Frame) : bool := negb (is_flush f) && negb (is_encoded f).

Lemma count_neutral f F : neutral f = true ->
  count_frames is_flush (f :: F) = count_frames is_flush F /\ count_frames is_encoded (f :: F) = count_frames is_encoded F.
Proof. unfold neutral, count_frames. cbn [List.filter]. by destruct (is_flush f), (is_encoded f). Qed.

Lemma frames_neutral f F s : neutral f = true -> frames_ok (f :: F) s <-> frames_ok F s.
Proof. intros [E1 E2]%(count_neutral f F). split; intros []; constructor; by rewrite ?E1, ?E2 in *. Qed.

Lemma frames_same F s s' : flushing s' = flushing s -> encoding s' = encoding s -> frames_ok F s -> frames_ok F s'.
Proof. intros E1 E2 []. constructor; by rewrite ?E1, ?E2. Qed.

(** Adding a frame. *)

Lemma closing_add f F s : closing F s -> closing (f :: F) s.
Proof.
  intros [[Hq|(n & Hn & Hl)] Ha]; constructor; [by left | | right; exists n; split; [by right | done] |];
    (destruct Ha as [Ha|[Ha|(g & Hg & Ha)]]; [by left | by right; left | right; right; exists g; split; [by right | done]]).
Qed.

Lemma coming_add f F s : neutral f = true -> coming F s -> coming (f :: F) s.
Proof.
  intros Hf [H1 H2]. constructor; [by apply frames_neutral |]. intros Hc. destruct (H2 Hc) as [Hr|Hr]; [by left | right].
  by apply closing_add.
Qed.

(** Dropping a frame that stands for nothing of this. *)

Definition inert (f : Frame) : bool := negb (arena_frame f) && match f with I_cancel _ None => false | _ => true end.

Lemma closing_drop f F s : inert f = true -> closing (f :: F) s -> closing F s.
Proof.
  intros Hf [Hq Ha]. unfold inert in Hf. apply andb_true_iff in Hf as [Hf1 Hf2]. constructor.
  - destruct Hq as [Hq|(n & [<-|Hn]%elem_of_cons & Hl)]; [by left | done | right; by exists n].
  - destruct Ha as [Ha|[Ha|(g & [->|Hg]%elem_of_cons & Ha)]]; [by left | by right; left | by rewrite Ha in Hf1 |].
    right; right. by exists g.
Qed.

Lemma inert_neutral f : inert f = true -> neutral f = true.
Proof. by destruct f. Qed.

Lemma coming_drop f F s : inert f = true -> coming (f :: F) s -> coming F s.
Proof.
  intros Hf [H1 H2]. constructor; [by apply (frames_neutral f), H1; apply inert_neutral |].
  intros Hc. destruct (H2 Hc) as [Hr|Hr]; [by left | right]. by eapply closing_drop.
Qed.

(** A frame that stands for the arena, dropped as it releases it. *)

Lemma flags_frames F s : frames_ok F s -> (flushing s = true -> exists f, f ∈ F /\ arena_frame f = true)
  /\ (encoding s = true -> exists f, f ∈ F /\ arena_frame f = true).
Proof.
  assert (Hex : forall p, (forall f, p f = true -> arena_frame f = true) -> count_frames p F = 1%nat ->
     exists f, f ∈ F /\ arena_frame f = true).
  { intros p Hp Hn. unfold count_frames in Hn. destruct (List.filter p F) as [|f l] eqn:E; [done |]. exists f.
    assert (Hf : f ∈ List.filter p F) by (rewrite E; left). rewrite list_elem_of_In in Hf. apply List.filter_In in Hf as [Hf Hpf].
    split; [by apply list_elem_of_In | by apply Hp]. }
  intros [E1 E2]. split; intros E; [apply (Hex is_flush) | apply (Hex is_encoded)]; try (by intros []); by rewrite ?E1, ?E2, E.
Qed.

Lemma release_arena_end F s : frames_ok F s -> closedState s = true ->
  released (releaseArena s) = true \/ handed (releaseArena s) <> [] \/ exists f, f ∈ F /\ arena_frame f = true.
Proof.
  intros Hf Hc. destruct (flags_frames F s Hf) as [H1 H2]. unfold releaseArena. rewrite Hc. cbn [negb orb].
  destruct (handed s) as [|i l] eqn:Hh; cbn [orb]; [| right; left; by rewrite Hh].
  destruct (encoding s); cbn [orb]; [right; right; by apply H2 |]. destruct (flushing s); cbn [orb]; [right; right; by apply H1 |].
  left. by destruct (released s) eqn:Hr.
Qed.

Lemma arena_same s : flushing (releaseArena s) = flushing s /\ encoding (releaseArena s) = encoding s /\ queue (releaseArena s) = queue s
  /\ trace (releaseArena s) = trace s /\ closedState (releaseArena s) = closedState s /\ handed (releaseArena s) = handed s.
Proof. unfold releaseArena. by case_match. Qed.

(** [s'] differs from [s], which the frames [f :: F] lead on, in flags only. *)

Lemma coming_arena F G s : frames_ok F s -> (closedState s = true -> Raised ∈ trace s \/ closing G s) ->
  (forall n, I_cancel n None ∈ G -> I_cancel n None ∈ F) -> coming F (releaseArena s).
Proof.
  intros Hf Hc HG. destruct (arena_same s) as (E1 & E2 & E3 & E4 & E5 & _). constructor; [by apply (frames_same F s) |].
  rewrite E4, E5. intros Hcl. destruct (Hc Hcl) as [Hr|[Hq _]]; [by left | right]. constructor; [| by apply release_arena_end].
  rewrite E3. destruct Hq as [Hq|(n & Hn & Hl)]; [by left | right; exists n; auto].
Qed.

(** ** Methods *)

(** [s'] keeps the flags of [s], its arena and, up to a shorter queue, its items. *)

Record later (s s' : Delivery) : Prop := mk_later {
  la_flags : flushing s' = flushing s /\ encoding s' = encoding s /\ closedState s' = closedState s;
  la_arena : released s' = released s /\ handed s' = handed s;
  la_queue : (length (queue s') <= length (queue s))%nat;
  la_trace : exists es, trace s' = trace s ++ es;
}.

Lemma later_trans a b c : later a b -> later b c -> later a c.
Proof.
  intros [(A1 & A2 & A3) [A4 A5] A6 [e1 A7]] [(B1 & B2 & B3) [B4 B5] B6 [e2 B7]].
  constructor; [split_and! | split | lia | exists (e1 ++ e2); by rewrite B7, A7, app_assoc]; congruence.
Qed.

Lemma later_record r s : later s (out_state (release_record r s)).
Proof. destruct r as [l|k n]; cbn; constructor; try done; [exists []; by rewrite app_nil_r | by exists [GivenBack k]]. Qed.

Lemma later_drop n i s : queue s !! n = Some i -> later s (drop_queued n i s) /\ length (queue s) = S (length (queue (drop_queued n i s))).
Proof.
  intros Hi. assert (Hl : length (delete n (queue s)) = (length (queue s) - 1)%nat) by (apply length_delete; by rewrite Hi).
  assert (Hpos : (0 < length (queue s))%nat) by (apply lookup_lt_Some in Hi; lia).
  unfold drop_queued, release_backing, less_ordinary, unaccount.
  destruct (backing i), (control i), (prepaid i); cbn; (split; [constructor; cbn; try done; [rewrite Hl; lia | exists []; by rewrite app_nil_r] | rewrite Hl; lia]).
Qed.

Lemma later_raised s s' : later s s' -> Raised ∈ trace s -> Raised ∈ trace s'.
Proof. intros [_ _ _ [es E]] Hr. rewrite E. apply elem_of_app. by left. Qed.

Lemma coming_later F s s' : later s s' -> coming F s -> coming F s'.
Proof.
  intros Hl [H1 H2]. pose proof (later_raised _ _ Hl) as Hraise. destruct Hl as [(A1 & A2 & A3) [A4 A5] A6 _].
  constructor; [by apply (frames_same F s) |]. rewrite A3. intros Hc. destruct (H2 Hc) as [Hr|[Hq Ha]]; [by left; auto | right].
  constructor; [| by rewrite A4, A5]. destruct Hq as [Hq|(n & Hn & Hl)]; [left | right; exists n; split; [done | lia]].
  rewrite Hq in A6. destruct (queue s'); [done | cbn in A6; lia].
Qed.

Lemma later_refl s : later s s.
Proof. constructor; try done. exists []. by rewrite app_nil_r. Qed.

(** The index of a [cancel] under way may fall with the queue. *)

Lemma coming_index n n' f F s s' : later s s' -> coming (I_cancel n f :: F) s ->
  (f = None -> (length (queue s) <= n)%nat -> (length (queue s') <= n')%nat) -> coming (I_cancel n' f :: F) s'.
Proof.
  intros Hla [H1 H2] Hn. pose proof (later_raised _ _ Hla) as Hraise. destruct Hla as [(A1 & A2 & A3) [A4 A5] A6 _].
  constructor; [apply frames_neutral; [done |]; apply frames_neutral in H1; [by apply (frames_same F s) | done] |].
  rewrite A3. intros Hc. destruct (H2 Hc) as [Hr|[Hq Ha]]; [by left; auto | right]. constructor.
  - destruct Hq as [Hq|(m & [E|Hm]%elem_of_cons & Hl)].
    + left. rewrite Hq in A6. destruct (queue s'); [done | cbn in A6; lia].
    + injection E as -> E. right. exists n'. split; [rewrite E; left | auto].
    + right; exists m; split; [by right | lia].
  - rewrite A4, A5. destruct Ha as [Ha|[Ha|(g & [->|Hg]%elem_of_cons & Ha)]]; [by left | by right; left | done | right; right].
    exists g. split; [by right | done].
Qed.

Lemma coming_cancelled f F s : coming (I_cancel 0 f :: F) s -> coming F s.
Proof.
  intros [H1 H2]. constructor; [by apply frames_neutral in H1 |]. intros Hc. destruct (H2 Hc) as [Hr|[Hq Ha]]; [by left | right].
  constructor.
  - destruct Hq as [Hq|(m & [E|Hm]%elem_of_cons & Hl)]; [by left | | right; by exists m].
    injection E as -> E. left. destruct (queue s); [done | cbn in Hl; lia].
  - destruct Ha as [Ha|[Ha|(g & [->|Hg]%elem_of_cons & Ha)]]; [by left | by right; left | done | right; right]. by exists g.
Qed.

Lemma cancel_loop_coming n f F s : coming (I_cancel n f :: F) s -> out_coming F (cancel_loop n f s).
Proof.
  revert s. induction n as [|n IH]; intros s Hc; cbn [cancel_loop]; [by eapply coming_cancelled |].
  destruct (queue s !! n) as [i|] eqn:Hi; [| by apply (frames_neutral (I_cancel (S n) f)), Hc].
  destruct (negb (cancels f i)) eqn:Hf.
  { apply IH. eapply coming_index; [apply later_refl | exact Hc |]. intros ->. done. }
  destruct (later_drop n i s Hi) as [Hl Hlen].
  assert (Hnext : coming (I_cancel n f :: F) (out_state (release_record (record i) (drop_queued n i s)))).
  { eapply coming_later; [apply later_record |]. eapply coming_index; [exact Hl | exact Hc | lia]. }
  destruct (record i) as [l|k m]; cbn [release_record out_state] in *; [by apply IH |].
  cbn [out_coming app]. by apply coming_add.
Qed.

Lemma out_then F o f k : neutral f = true -> out_coming (f :: F) o -> (forall s, coming (f :: F) s -> out_coming F (k s)) ->
  out_coming F (andThen o f k).
Proof.
  intros Hf Ho Hk. destruct o as [s|fs s|s]; cbn [andThen out_coming] in *; [by apply Hk | by rewrite <- app_assoc | by apply (frames_neutral f)].
Qed.

Lemma coming_release f F s : neutral f = true -> arena_frame f = true -> coming (f :: F) s -> coming F (releaseArena s).
Proof.
  intros Hf Ha [H1 H2]. apply (coming_arena F (f :: F)); [by apply (frames_neutral f) | done |].
  intros n [<-|Hn]%elem_of_cons; [done | done].
Qed.

Lemma close_coming F s : coming F s -> out_coming F (close s).
Proof.
  intros Hc. unfold close. destruct (closedState s) eqn:Hcl; [done |]. apply out_then; [done | | by intros; apply (coming_release I_close)].
  apply cancel_loop_coming. destruct Hc as [[H1 H2] _]. constructor; [by constructor |]. intros _. right. constructor.
  - right. exists (length (queue s)). split; [left | done].
  - right. right. exists I_close. split; [right; left | done].
Qed.

Lemma fail_coming F s : coming F s -> out_coming F (fail s).
Proof.
  intros Hc. unfold fail. destruct (closedState s); [done |]. apply out_then; [done | by apply close_coming, coming_add |].
  intros s' Hs'. cbn [out_coming app]. apply coming_add; [done |]. by apply (coming_drop I_fail).
Qed.

(** The frame of [flush], as it ends. *)

Lemma flush_end_frames F s : frames_ok (I_flush :: F) s -> frames_ok F (set_flushing false s).
Proof.
  intros [H1 H2]. unfold count_frames in *. cbn [List.filter is_flush is_encoded length] in *.
  constructor; cbn [flushing encoding set_flushing set_flags]; unfold count_frames; [destruct (flushing s); cbn in *; lia | done].
Qed.

Lemma flush_end_coming F s : coming (I_flush :: F) s -> coming F (flush_end s).
Proof.
  intros [H1 H2]. apply (coming_arena F (I_flush :: F)); [by apply flush_end_frames | | by intros n [[=]|Hn]%elem_of_cons].
  intros Hc. destruct (H2 Hc) as [Hr|[Hq Ha]]; [by left | right; by constructor].
Qed.

Lemma encoded_end_frames F s : frames_ok (I_encoded :: F) s -> frames_ok F (set_encoding false s).
Proof.
  intros [H1 H2]. unfold count_frames in *. cbn [List.filter is_flush is_encoded length] in *.
  constructor; cbn [flushing encoding set_encoding set_flags]; unfold count_frames; [done | destruct (encoding s); cbn in *; lia].
Qed.

Lemma encoded_end_coming F s : coming (I_encoded :: F) s -> coming F (encoded_end s).
Proof.
  intros [H1 H2]. apply (coming_arena F (I_encoded :: F)); [by apply encoded_end_frames | | by intros n [[=]|Hn]%elem_of_cons].
  intros Hc. destruct (H2 Hc) as [Hr|[Hq Ha]]; [by left | right; by constructor].
Qed.

Lemma hand_same n i s : flushing (hand n i s) = flushing s /\ encoding (hand n i s) = encoding s /\ closedState (hand n i s) = closedState s.
Proof. unfold hand. by destruct (prepaid i). Qed.

Lemma flush_loop_coming F w s : coming (I_flush :: F) s -> out_coming F (flush_loop w s).
Proof.
  intros Hc. pose proof (flush_end_coming F s Hc) as Hend. unfold flush_loop. destruct (closedState s) eqn:Hcl; [done |].
  destruct (blocked s); [done |]. cbn [orb]. destruct (next w s) as [n|]; cbn [mbind option_bind]; [| done].
  destruct (queue s !! n) as [i|]; cbn [fmap option_fmap option_map]; [| done]. destruct (negb _); [done |]. cbn [out_coming app].
  destruct (hand_same n i s) as (E1 & E2 & E3). apply coming_add; [done |]. constructor; [by apply (frames_same _ s), Hc |].
  cbn [closedState emit]. by rewrite E3, Hcl.
Qed.

Lemma flush_coming F w s : coming F s -> out_coming F (flush w s).
Proof.
  intros Hc. unfold flush. destruct (closedState s) eqn:Hcl; [done |]. destruct (blocked s); [done |]. cbn [orb].
  destruct (flushing s) eqn:Hf; [done |]. apply flush_loop_coming. constructor; [| by cbn; rewrite Hcl].
  destruct Hc as [[H1 H2] _]. rewrite Hf in H1. constructor; unfold count_frames in *; cbn in *; lia.
Qed.

(** An item that the transport held is gone, its frame [I_release] pending. *)

Lemma release_coming F i s : coming F s -> out_coming F (release i s).
Proof.
  intros [H1 H2]. unfold release. apply out_then; [done | | by intros; apply (coming_release I_release)].
  assert (Hdrop : flushing (drop_handed i s) = flushing s /\ encoding (drop_handed i s) = encoding s
     /\ closedState (drop_handed i s) = closedState s /\ queue (drop_handed i s) = queue s /\ trace (drop_handed i s) = trace s).
  { unfold drop_handed, release_backing, less_ordinary, unaccount. by destruct (backing i), (control i), (prepaid i). }
  destruct Hdrop as (E1 & E2 & E3 & E4 & E5).
  assert (Hs : coming (I_release :: F) (drop_handed i s)).
  { constructor; [apply frames_neutral; [done |]; by apply (frames_same F s) |]. rewrite E3, E5. intros Hc.
    destruct (H2 Hc) as [Hr|[Hq _]]; [by left | right]. constructor.
    - rewrite E4. destruct Hq as [Hq|(n & Hn & Hl)]; [by left | right; exists n; split; [by right | done]].
    - right. right. exists I_release. split; [left | done]. }
  clear -Hs. set (s' := drop_handed i s) in *. clearbody s'. pose proof (coming_later _ _ _ (later_record (record i) s') Hs) as Hr.
  destruct (record i) as [l|k m]; cbn [release_record out_state out_coming app] in *; [done | by apply coming_add].
Qed.

Lemma after_coming F w e f s : coming F s -> out_coming F (after_settled w e f s).
Proof. intros Hc. unfold after_settled. destruct (e && _); [by apply fail_coming | done]. Qed.

Lemma settle_coming F w id e s : coming F s -> out_coming F (settle w id e s).
Proof.
  intros Hc. unfold settle. destruct (find_handed id s) as [i|]; [| done].
  apply out_then; [done | by apply release_coming, coming_add |]. intros s' Hs'. apply after_coming. by apply (coming_drop (I_settled e (fence i))).
Qed.

Lemma release_all_coming F ids s : coming (I_release_all ids :: F) s -> out_coming F (release_all ids s).
Proof.
  revert s. induction ids as [|id ids IH]; intros s Hc; cbn [release_all]; [by apply (coming_release (I_release_all [])) |].
  assert (Hc' : coming (I_release_all ids :: F) s).
  { destruct Hc as [H1 H2]. constructor; [apply frames_neutral; [done |]; by apply frames_neutral in H1 |].
    intros Hcl. destruct (H2 Hcl) as [Hr|[Hq Ha]]; [by left | right]. constructor.
    - destruct Hq as [Hq|(n & [|Hn]%elem_of_cons & Hl)]; [by left | done | right; exists n; split; [by right | done]].
    - destruct Ha as [Ha|[Ha|_]]; [by left | by right; left | right; right]. exists (I_release_all ids). split; [left | done]. }
  destruct (find_handed id s) as [i|]; [| by apply IH]. pose proof (release_coming _ i s Hc') as Hr.
  destruct (release i s) as [s'|fs s'|s']; cbn [out_coming] in *; [by apply IH | by rewrite <- app_assoc | by apply (frames_neutral (I_release_all ids))].
Qed.

Lemma release_handed_coming F s : coming (I_transport :: F) s -> out_coming F (release_handed s).
Proof.
  intros [H1 H2]. apply release_all_coming. constructor; [apply frames_neutral; [done |]; by apply frames_neutral in H1 |].
  intros Hcl. destruct (H2 Hcl) as [Hr|[Hq Ha]]; [by left | right]. constructor.
  - destruct Hq as [Hq|(n & [|Hn]%elem_of_cons & Hl)]; [by left | done | right; exists n; split; [by right | done]].
  - right. right. eexists. split; [left | done].
Qed.

Lemma out_record F r s : coming F s -> out_coming F (release_record r s).
Proof.
  intros Hc. pose proof (coming_later _ _ _ (later_record r s) Hc) as Hr.
  destruct r as [l|k m]; cbn [release_record out_state out_coming app] in *; [done | by apply coming_add].
Qed.

Lemma answer_coming F ok s : coming F s -> out_coming F (answer ok s).
Proof. apply coming_later. constructor; try done. by exists [Answered ok]. Qed.

Lemma refuse_coming F r s : coming F s -> out_coming F (refuse r s).
Proof.
  intros Hc. apply out_then; [done | by apply out_record, coming_add |]. intros s' Hs'. by apply answer_coming, (coming_drop I_refused).
Qed.

Lemma coming_open F s s' : coming F s -> closedState s' = false -> flushing s' = flushing s -> encoding s' = encoding s -> coming F s'.
Proof. intros [H1 _] Hc E1 E2. constructor; [by apply (frames_same F s) | congruence]. Qed.

Lemma cancel_coming F f s : coming F s -> out_coming F (cancel f s).
Proof. intros Hc. by apply cancel_loop_coming, coming_add. Qed.

Lemma pushed_coming F w x s : coming F s -> out_coming F (admit_pushed w x s).
Proof.
  intros Hc. unfold admit_pushed.
  assert (Hcancel : out_coming F (andThen (cancel (ad_fence x) s) I_refused (answer false))).
  { apply out_then; [done | by apply cancel_coming, coming_add | intros; by apply answer_coming, (coming_drop I_refused)]. }
  assert (Hflush : out_coming F (andThen (flush w s) (I_admit (ad_fence x)) (answer_admit w (ad_fence x)))).
  { apply out_then; [done | by apply flush_coming, coming_add | intros; by apply answer_coming, (coming_drop (I_admit (ad_fence x)))]. }
  destruct (ad_admitted x) as [[|]|]; try (by destruct (closedState s || _)).
  apply out_then; [done | by apply close_coming, coming_add |]. intros s' Hs'. by apply answer_coming, (coming_drop I_refused).
Qed.

Section admission.
Context (encodeUtf8 : string -> list Z) (budgets : EffectiveBudgets) (connection : ConnectionRef) (itemLimit : Z).

Lemma encoded_coming F w w' x bytes buffer r s : closedState s = false -> coming F s ->
  out_coming F (admit_encoded budgets w w' x bytes buffer r s).
Proof.
  intros Hcl Hc. unfold admit_encoded. destruct (frame_refused _ _ _ _ _); [by apply refuse_coming |].
  destruct (match r with Own _ => _ | Prepaid _ _ => _ end) as [[b s']|] eqn:E; [| by apply refuse_coming].
  assert (Hs : flushing s' = flushing s /\ encoding s' = encoding s /\ closedState s' = false).
  { destruct r; [destruct (B.retainBacking _ _ _ _) as [[]|]; [| done]; by injection E as <- <- | by injection E as <- <-]. }
  destruct Hs as (E1 & E2 & E3).
  assert (Hpush : forall a, out_coming F (admit_pushed w' x (push x bytes b r a s'))).
  { intros a. apply pushed_coming. apply (coming_open F s); [done | | |]; unfold push; cbv zeta;
      set (i := mkItem _ _ _ _ _ _ _); by destruct (prepaid i), (control i). }
  destruct (match ad_prepare x with Some _ => _ | None => _ end) as [a|]; [case_if; [| apply Hpush] |]; apply refuse_coming; by apply (coming_open F s); [| destruct b..].
Qed.

Lemma recorded_coming F w w' x r s : closedState s = false -> encoding s = false -> coming F s ->
  out_coming F (admit_recorded encodeUtf8 budgets connection w w' x r s).
Proof.
  intros Hcl He Hc. unfold admit_recorded.
  assert (Henc : coming (I_encoded :: F) (set_encoding true s)).
  { constructor; [| cbn; congruence]. destruct Hc as [[H1 H2] _]. rewrite He in H2.
    constructor; unfold count_frames in *; cbn in *; lia. }
  destruct (encode_item encodeUtf8 connection x) as [[bytes buffer]|].
  - apply encoded_coming; [| by apply encoded_end_coming]. unfold encoded_end. by destruct (arena_same (set_encoding false (set_encoding true s))) as (_ & _ & _ & _ & -> & _).
  - destruct r as [l|k m]; cbn [release_record andThen].
    + apply answer_coming, encoded_end_coming. apply (coming_later _ _ _ (later_record (Own l) _) Henc).
    + cbn [out_coming app]. apply coming_add; [done |]. apply (coming_later _ _ _ (later_record (Prepaid k m) _) Henc).
Qed.

Lemma admit_coming F w w' x s : coming F s -> out_coming F (admit_frame encodeUtf8 budgets connection itemLimit w w' x s).
Proof.
  intros Hc. unfold admit_frame.
  assert (Hopen : forall s, admit_refused itemLimit w x s = false -> closedState s = false /\ encoding s = false).
  { intros s'. unfold admit_refused. rewrite !orb_false_iff. by intros (((((? & ?) & _) & _) & _) & _). }
  destruct (ad_prepaid x) as [[k n]|].
  - assert (Ht : coming F (emit (Taken k) s)) by (eapply coming_later; [| exact Hc]; constructor; try done; by exists [Taken k]).
    destruct (admit_refused _ _ _ _) eqn:Hr; [by apply refuse_coming |]. apply Hopen in Hr as [H1 H2]. by apply recorded_coming.
  - destruct (admit_refused _ _ _ _) eqn:Hr; [by apply answer_coming |]. apply Hopen in Hr as [H1 H2].
    destruct (B.reserve _ _ _) as [[l a]|]; [| by apply answer_coming]. by apply recorded_coming; [| | apply (coming_open F s)].
Qed.

Lemma exec_coming F w f s : is_callback f = false -> coming (f :: F) s -> out_coming F (exec w f s).
Proof.
  intros Hf Hc. destruct f; cbn [exec] in *; try done.
  - by apply flush_loop_coming.
  - by apply answer_coming, (coming_drop (I_admit f)).
  - by apply answer_coming, (coming_drop I_refused).
  - by apply answer_coming, encoded_end_coming.
  - by apply cancel_loop_coming.
  - by apply (coming_release I_close).
  - cbn [out_coming app]. by apply coming_add, (coming_drop I_fail).
  - by apply (coming_release I_release).
  - by apply after_coming, (coming_drop (I_settled error f)).
  - by apply release_handed_coming.
  - by apply release_all_coming.
Qed.

Lemma leave_frames F f s : is_callback f = false -> frames_ok (f :: F) s -> frames_ok F (leave f s).
Proof.
  intros Hf H. destruct f; cbn [leave] in *; try done; try (by apply frames_neutral in H).
  - apply flush_end_frames in H. unfold flush_end. destruct (arena_same (set_flushing false s)) as (E1 & E2 & _). by apply (frames_same F (set_flushing false s)).
  - apply encoded_end_frames in H. unfold encoded_end. destruct (arena_same (set_encoding false s)) as (E1 & E2 & _). by apply (frames_same F (set_encoding false s)).
Qed.

Lemma raised_coming F s : frames_ok F s -> coming F (emit Raised s).
Proof. intros H. constructor; [by apply (frames_same F s) |]. intros _. left. cbn. apply elem_of_app. right. left. Qed.

Lemma stack_coming F s : coming F s -> coming (stack (set_stack F s)) (set_stack F s).
Proof. intros [H1 H2]. constructor; [by apply (frames_same F s) |]. intros Hc. destruct (H2 Hc) as [Hr|[Hq Ha]]; [by left | right; by constructor]. Qed.

Lemma unwind_coming w st o : out_coming st o -> coming (stack (unwind w st o)) (unwind w st o).
Proof.
  revert o. induction st as [|f st IH]; intros o Ho; (destruct o as [s|fs s|s]; cbn [unwind out_coming] in *; [| by apply stack_coming |]).
  - by apply stack_coming.
  - by apply stack_coming, raised_coming.
  - destruct (is_callback f) eqn:Hf; [by apply stack_coming |]. by apply IH, exec_coming.
  - destruct (is_callback f) eqn:Hf; [by apply stack_coming, raised_coming |]. apply IH. by apply leave_frames.
Qed.

Lemma perform_coming w c s : coming (stack s) s -> coming (stack (perform encodeUtf8 budgets connection itemLimit w c s)) (perform encodeUtf8 budgets connection itemLimit w c s).
Proof.
  intros Hc. apply unwind_coming. destruct c; cbn [body].
  - by apply admit_coming.
  - by apply cancel_coming.
  - by apply flush_coming.
  - apply flush_coming. destruct Hc as [[H1 H2] H3]. constructor; [by constructor |]. intros Hcl. destruct (H3 Hcl) as [Hr|[]]; [by left | right; by constructor].
  - by apply close_coming.
  - by apply settle_coming.
  - apply out_then; [done | by apply close_coming, coming_add | by apply release_handed_coming].
Qed.

Lemma resume_coming w x s s' : coming (stack s) s -> resume w x s = Some s' -> coming (stack s') s'.
Proof.
  intros Hc. unfold resume. destruct (stack s) as [|f rest] eqn:Hst; [done |].
  destruct f; try done; destruct x as [[]|[]]; try done; intros [= <-]; apply unwind_coming; cbn [out_coming].
  - apply (coming_drop (W_write generation)) in Hc; [| done]. unfold after_write. destruct (negb a && _); [| done].
    destruct Hc as [[H1 H2] H3]. constructor; [by constructor |]. intros Hcl. destruct (H3 Hcl) as [Hr|[]]; [by left | right; by constructor].
  - by apply fail_coming, (coming_drop (W_write generation)).
  - by apply (coming_drop W_failed).
  - by apply (frames_neutral W_failed), Hc.
  - by apply (coming_drop W_record).
  - by apply (frames_neutral W_record), Hc.
Qed.

Lemma reachable_coming x : delivery_reachable encodeUtf8 budgets connection itemLimit x -> coming (stack x.2) x.2.
Proof.
  apply (delivery_invariant encodeUtf8 budgets connection itemLimit (fun x => coming (stack x.2) x.2)).
  - intros a s H1 H2 Hn. destruct (new_delivery_ok encodeUtf8 _ _ _ a s H1 H2 Hn) as (_ & Hst & _). cbn [snd]. rewrite Hst.
    unfold newDelivery in Hn. case_match; [done |]. destruct (B.reserve _ _ _) as [[]|]; [| done]. injection Hn as <-.
    constructor; [by constructor | done].
  - intros y z Hc Hs. destruct Hs as [w c fl fh s|w a s' fl fh s Hr|fl fh fl' fh' s a Ho]; cbn [snd] in *.
    + by apply perform_coming.
    + by eapply resume_coming.
    + destruct Hc as [[H1 H2] H3]. constructor; [by constructor |]. intros Hcl. destruct (H3 Hcl) as [Hr|[]]; [by left | right; by constructor].
Qed.

End admission.

(** ** Guarantees *)

Section guarantees.
Context (encodeUtf8 : string -> list Z) (budgets : EffectiveBudgets) (connection : ConnectionRef) (itemLimit : Z).

Lemma limit_positive x : delivery_reachable encodeUtf8 budgets connection itemLimit x -> 5 <= itemLimit.
Proof.
  intros (a & s & _ & _ & Hn & _). unfold newDelivery in Hn.
  destruct (negb (ConnectionRefSchema connection) || _ || _ || _) eqn:E; [done |]. rewrite !orb_false_iff in E.
  destruct E as [[_ E] _]. by apply Z.ltb_ge in E.
Qed.

(** C28: at every moment of every execution, whatever the callbacks of the
    delivery call meanwhile, the counters of the delivery are the sums over the
    items it keeps, these items respect the item limit and the byte budgets of
    the connection, and the delivery owns exactly one lease per dynamic item,
    the arena's and one handle per retained buffer in the runtime's account.
    The prepaid reservations handed in are those given back, each once, and
    those of the items it keeps. *)
Theorem delivery_exact fl fh s : delivery_reachable encodeUtf8 budgets connection itemLimit (fl, fh, s) ->
  queuedBytes s = lsum queue_bytes (queue s) /\ physicalBytes s = lsum queue_bytes (handed s)
  /\ ordinaryBytes s = lsum ordinary_bytes (queue s ++ handed s)
  /\ prepaidItems s = lsum prepaid_one (queue s ++ handed s) /\ prepaidBytes s = lsum prepaid_bytes (queue s ++ handed s)
  /\ queuedBytes s + physicalBytes s <= Z.max 0 (outboundConnectionBytes budgets + reservedControlBytes budgets)
  /\ zlen (queue s) + zlen (handed s) - prepaidItems s <= itemLimit
  /\ ordinary_items (queue s ++ handed s) <= itemLimit - 4
  /\ owns fl fh (delivery_leases s) (delivery_handles s) (account s)
  /\ taken (trace s) ≡ₚ given_back (trace s) ++ omap prepaid_key (queue s ++ handed s).
Proof.
  intros Hr. pose proof (limit_positive _ Hr). apply delivery_reachable_ok in Hr as [H1 [H2 H3 H4 [H5 H5'] H6 _ [H8 H8'] _ _ _ _] H13].
  cbn [fst snd] in *. unfold items in *. rewrite zlen_app in H8. split_and!; try done; lia.
Qed.

(** C26: the items of one route are handed to the transport in the order in
    which they were admitted, each at most once, and one that waits was
    admitted after all that were handed over. *)
Theorem route_order fl fh s r : delivery_reachable encodeUtf8 budgets connection itemLimit (fl, fh, s) ->
  StronglySorted lt (route_queued r (trace s))
  /\ sublist (route_ids r (wrote (trace s)) ++ route_ids r (queue s)) (route_queued r (trace s)).
Proof. intros Hr. apply delivery_reachable_ok in Hr as [_ Hc _]. split; [apply Hc | apply Hc]. Qed.

(** C21: bytes go to the transport only while the delivery is open, only for an
    item whose fence is current, that is eligible and whose handoff succeeds at
    that moment, and they are the frame of a message that is valid for this
    connection: of its class, with the UTF-8 text of the message as metadata and
    its payload. *)
Theorem handoff_fenced fl fh s : delivery_reachable encodeUtf8 budgets connection itemLimit (fl, fh, s) ->
  Forall (framed encodeUtf8 connection) (wrote (trace s))
  /\ (forall w c, writes (call_worlds w c) s (perform encodeUtf8 budgets connection itemLimit w c s))
  /\ (forall w x s', resume w x s = Some s' -> writes [w] s s').
Proof.
  intros Hr. split_and!; [by apply delivery_reachable_ok in Hr as [_ [_ _ _ _ _ _ _ _ _ _ [_ H]] _] | intros; apply writes_perform | intros; by eapply writes_resume].
Qed.

(** C27: once a closed delivery is back from all its callbacks and the transport
    has ended every write, nothing is left, unless a method threw: the queue is
    empty, the arena is released, every reservation that was prepaid is given
    back, and the account holds exactly what the other owners hold. *)
Theorem closed_releases fl fh s : delivery_reachable encodeUtf8 budgets connection itemLimit (fl, fh, s) ->
  closedState s = true -> stack s = [] -> handed s = [] -> (Raised ∉ trace s) ->
  queue s = [] /\ released s = true /\ taken (trace s) ≡ₚ given_back (trace s) /\ owns fl fh [] [] (account s)
  /\ queuedBytes s = 0 /\ physicalBytes s = 0 /\ ordinaryBytes s = 0 /\ prepaidItems s = 0 /\ prepaidBytes s = 0.
Proof.
  intros Hr Hc Hst Hh Hra. pose proof (reachable_coming _ _ _ _ _ Hr) as [_ Hco]. cbn [snd] in Hco.
  destruct (Hco Hc) as [|[Hq Ha]]; [done |]. rewrite Hst in *.
  assert (Hq' : queue s = []) by (destruct Hq as [Hq|(n & Hn%elem_of_nil & _)]; done).
  assert (Ha' : released s = true) by (destruct Ha as [Ha|[Ha|(f & Hf%elem_of_nil & _)]]; done).
  apply delivery_reachable_ok in Hr as [H1 [H2 H3 H4 [H5 H5'] _ _ _ _ _ _ _] H13]. cbn [fst snd] in *.
  unfold delivery_leases, delivery_handles, arena_leases, items in *. rewrite Hq', Hh, Ha' in *. cbn in *. rewrite app_nil_r in H13.
  split_and!; done.
Qed.

End guarantees.

(** ** Two executions *)

Section delivery_demo.

Definition cd_connection : ConnectionRef := mkConnection "conn" 1.

Definition cd_run : RunRef := mkRun "server" "relay" "run-1".

Definition cd_message : TerminalMetadata := TM_result (mkResult "r-1" cd_run (R_applied_ack (mkSubscription cd_run cd_connection "sub" "view") 3)).

(** Everything is current; what [ready] says decides the rest. *)

Definition cd_world (ready : bool) : World := mkWorld (fun _ => true) (fun _ => ready) (fun _ => true).

Definition cd_fence : DeliveryFence := mkFence 0 "route" 1.

Definition cd_admit (buffer : nat) (f : option DeliveryFence) (p : option (nat * Z)) : Call :=
  C_admit (cd_world false) (mkAdmission cd_message [] 0 true f p (Returned buffer) (Some (Returned (Some 0%nat))) (cd_world false) None).

Definition cd_new : Delivery :=
  match newDelivery M0_LIMITS cd_connection 8 B.demo_runtime with
  | Some s => s
  | None => mkDelivery [] [] 0 0 0 0 0 false false false false 0 false 0 B.demo_runtime 0 [] []
  end.

Definition cd_start : Z * Z := (plain_leases B.demo_runtime, live_handles B.demo_runtime).

Definition cd_do (w : World) (c : Call) (s : Delivery) : Delivery := perform latin_utf8 M0_LIMITS cd_connection 8 w c s.

Definition cd_go (w : World) (x : Answer) (s : Delivery) : Delivery := default s (resume w x s).

Lemma cd_new_reachable : delivery_reachable latin_utf8 M0_LIMITS cd_connection 8 (cd_start, cd_new).
Proof.
  destruct (B.runtime_reachable_ok 1000000 1000 B.demo_runtime) as [H1 H2].
  { eapply B.reachable_intro; [reflexivity | apply rtc_refl]. }
  exists B.demo_runtime, cd_new. split_and!; [done | done | by vm_compute | apply rtc_refl].
Qed.

Lemma cd_do_reachable w c s : delivery_reachable latin_utf8 M0_LIMITS cd_connection 8 (cd_start, s) ->
  delivery_reachable latin_utf8 M0_LIMITS cd_connection 8 (cd_start, cd_do w c s).
Proof.
  intros (a & s0 & H1 & H2 & Hn & Hr). exists a, s0. split_and!; try done. eapply rtc_r; [exact Hr |].
  exact (ds_perform latin_utf8 M0_LIMITS cd_connection 8 w c cd_start.1 cd_start.2 s).
Qed.

Lemma cd_go_reachable w x s : delivery_reachable latin_utf8 M0_LIMITS cd_connection 8 (cd_start, s) ->
  delivery_reachable latin_utf8 M0_LIMITS cd_connection 8 (cd_start, cd_go w x s).
Proof.
  intros Hs. unfold cd_go. destruct (resume w x s) as [s'|] eqn:E; [| done]. cbn [default].
  destruct Hs as (a & s0 & H1 & H2 & Hn & Hr). exists a, s0. split_and!; try done. eapply rtc_r; [exact Hr |].
  exact (ds_resume latin_utf8 M0_LIMITS cd_connection 8 w x s' cd_start.1 cd_start.2 s E).
Qed.

(** Two results of a route wait, and with them a prepaid one; the first is
    written, and while its write is under way the transport says it is full. *)

Definition cd_waiting : Delivery :=
  cd_do (cd_world false) (cd_admit 9 None (Some (5%nat, 4000)))
    (cd_do (cd_world false) (cd_admit 8 (Some cd_fence) None) (cd_do (cd_world false) (cd_admit 7 (Some cd_fence) None) cd_new)).

Definition cd_written : Delivery :=
  cd_go (cd_world true) (A_written (Returned false)) (cd_do (cd_world true) C_wake cd_waiting).

Lemma cd_waiting_reachable : delivery_reachable latin_utf8 M0_LIMITS cd_connection 8 (cd_start, cd_waiting).
Proof. do 3 apply cd_do_reachable. apply cd_new_reachable. Qed.

Lemma cd_written_reachable : delivery_reachable latin_utf8 M0_LIMITS cd_connection 8 (cd_start, cd_written).
Proof. apply cd_go_reachable, cd_do_reachable, cd_waiting_reachable. Qed.

(** The delivery closes, the owner of the prepaid result returns, and the
    transport ends the write. *)

Definition cd_ended : Delivery :=
  cd_do (cd_world true) (C_settle 0 false)
    (cd_go (cd_world true) (A_called (Returned tt)) (cd_do (cd_world true) C_close cd_written)).

Lemma cd_ended_reachable : delivery_reachable latin_utf8 M0_LIMITS cd_connection 8 (cd_start, cd_ended).
Proof. apply cd_do_reachable, cd_go_reachable, cd_do_reachable, cd_written_reachable. Qed.

Lemma delivery_exact_witness : zlen (queue cd_written) = 2 /\ zlen (handed cd_written) = 1 /\ queuedBytes cd_written = 326
  /\ taken (trace cd_written) = [5%nat] /\ given_back (trace cd_written) = []
  /\ taken (trace cd_written) ≡ₚ given_back (trace cd_written) ++ omap prepaid_key (queue cd_written ++ handed cd_written).
Proof. do 5 (split; [by vm_compute |]). apply (delivery_exact _ _ _ _ _ _ _ cd_written_reachable). Defined.

Lemma route_order_witness : route_queued "route" (trace cd_written) = [0; 1]%nat /\ route_ids "route" (wrote (trace cd_written)) = [0]%nat
  /\ sublist (route_ids "route" (wrote (trace cd_written)) ++ route_ids "route" (queue cd_written)) (route_queued "route" (trace cd_written)).
Proof. do 2 (split; [by vm_compute |]). apply (route_order _ _ _ _ _ _ _ "route" cd_written_reachable). Defined.

Lemma handoff_fenced_witness :
  map (fun i => zdrop 16 (it_bytes i)) (wrote (trace cd_written)) = [latin_utf8 (stringify (TerminalMetadata_json cd_message))]
  /\ Forall (framed latin_utf8 cd_connection) (wrote (trace cd_written))
  /\ writes [cd_world true] cd_waiting (cd_do (cd_world true) C_wake cd_waiting).
Proof.
  split; [by vm_compute |]. destruct (handoff_fenced _ _ _ _ _ _ _ cd_written_reachable) as [H1 _]. split; [exact H1 |].
  destruct (handoff_fenced _ _ _ _ _ _ _ cd_waiting_reachable) as (_ & H2 & _). exact (H2 (cd_world true) C_wake).
Defined.

Definition raised (t : list Effect) : bool := existsb (fun e => match e with Raised => true | _ => false end) t.

Lemma has_raised t : raised t = true -> Raised ∈ t.
Proof. intros (e & He & E)%existsb_exists. destruct e; try done. by apply list_elem_of_In. Qed.

Lemma not_raised t : raised t = false -> Raised ∉ t.
Proof.
  intros E Hin%list_elem_of_In. assert (H : raised t = true) by (apply existsb_exists; by exists Raised). congruence.
Qed.

Lemma closed_releases_witness : queue cd_ended = [] /\ released cd_ended = true
  /\ owns cd_start.1 cd_start.2 [] [] (account cd_ended).
Proof.
  assert (Hr : Raised ∉ trace cd_ended) by (apply not_raised; by vm_compute).
  assert (E : closedState cd_ended = true /\ stack cd_ended = [] /\ handed cd_ended = []) by (do 2 (split; [by vm_compute |]); by vm_compute).
  destruct E as (E1 & E2 & E3).
  destruct (closed_releases _ _ _ _ _ _ _ cd_ended_reachable E1 E2 E3 Hr) as (H1 & H2 & _ & H4 & _). exact (conj H1 (conj H2 H4)).
Defined.

(** The queue holds an unfenced item, one of a route and a prepaid one.  [close]
    gives the prepaid reservation back first; its owner, told in that callback,
    cancels the route's item, so the index that [cancel] goes on with is past
    the end of the queue. *)

Definition cd_queued : Delivery :=
  cd_do (cd_world false) (cd_admit 9 None (Some (5%nat, 4000)))
    (cd_do (cd_world false) (cd_admit 8 (Some cd_fence) None) (cd_do (cd_world false) (cd_admit 7 None None) cd_new)).

Definition cd_thrown : Delivery :=
  cd_go (cd_world true) (A_called (Returned tt))
    (cd_do (cd_world true) (C_cancel (Some cd_fence)) (cd_do (cd_world true) C_close cd_queued)).

(** [close] can throw and leave the delivery closed with an item in its
    queue, its lease and its arena still held; closing it again does nothing.
    The loop of [cancel] indexes a queue that the release of a prepaid
    reservation may shorten. *)
Theorem close_leaves_items : exists x, delivery_reachable latin_utf8 M0_LIMITS cd_connection 8 x /\
  closedState x.2 = true /\ stack x.2 = [] /\ handed x.2 = [] /\ Raised ∈ trace x.2
  /\ zlen (queue x.2) = 1 /\ released x.2 = false
  /\ forall w, perform latin_utf8 M0_LIMITS cd_connection 8 w C_close x.2 = x.2.
Proof.
  exists (cd_start, cd_thrown). split; [apply cd_go_reachable; do 5 apply cd_do_reachable; apply cd_new_reachable |].
  cbn [snd]. do 3 (split; [by vm_compute |]). split; [apply has_raised; by vm_compute |].
  do 2 (split; [by vm_compute |]). intros w. vm_compute. reflexivity.
Qed.

End delivery_demo.
