(* ===== verification/ControlArbiter.v ===== *)
(** * The control arbiter (apps/server/src/terminal/control-arbiter.ts)

    One arbiter per runtime decides the order of the control, input and
    programmatic commands of every run.  A run's queue is drained by one
    asynchronous loop; the model keeps the point where that loop is suspended
    ([phase]) and one function per stretch of code between two awaits.  Any
    other operation may come between two stretches; what a stretch reads from
    the runtime and from the route ([World]) does not change within it.

    Objects shared by reference are found by their key: a job's run by its run
    id and a job's counter by its subscription, which is sound because a run
    leaves the map only after its queue is empty and a counter only after its
    last job left the queue.  Calls of the runtime and settled promises are
    appended to [trace]. *)

From S2P Require Import Prelude Json Protocol JsMap Retained RuntimeOwnership Errors Terminal Pipe.

Module B := Retained.RuntimeRetainedBytes.

(** ** Data *)

(** The commands the arbiter takes, a part of [TerminalCommand]. *)

Inductive ControlBody :=
  | Focus (focusSeq : Z) (geometry : Geometry) (appearance : option Appearance)
  | Blur (epoch : Z)
  | Resize (epoch : Z) (geometry : Geometry)
  | SetAppearance (epoch : Z) (appearance : Appearance)
  | Input (epoch inputSeq : Z).

Record ControlCommand := mkControl {
  cc_requestId : string; cc_run : RunRef; cc_subscription : SubscriptionRef; cc_body : ControlBody;
}.

Definition terminal_command (c : ControlCommand) : TerminalCommand :=
  let s := cc_subscription c in
  mkCommand (cc_requestId c) (cc_run c)
    match cc_body c with
    | Focus q g a => K_focus s q g a
    | Blur e => K_blur s e
    | Resize e g => K_resize s e g
    | SetAppearance e a => K_appearance s e a
    | Input e q => K_input s e q
    end.

Inductive Reply :=
  | Answer (r : TerminalResult)
  | Refusal (e : TerminalError).

(** The route's context: [cx_id] names its closures. *)

Record ControlRouteContext := mkContext {
  cx_id : nat; cx_subscription : SubscriptionRef; cx_worker : WorkerRef; cx_requestId : string; cx_releaseId : string;
}.

(** What one stretch of code reads: [pool.get(run)?.worker],
    [registry.get(run)?.status.status] and the context's closures. *)

Record World := mkWorld {
  w_placement : RunRef -> option WorkerRef;
  w_entry : RunRef -> option RunLifecycle;
  w_current : nat -> bool;
  w_installed : nat -> option Z -> bool;
  w_earlierPending : nat -> bool;
}.

Inductive Cleanup := cl_none | cl_pending | cl_unknown.

#[export] Instance Cleanup_eq : EqDecision Cleanup.
Proof. solve_decision. Defined.

(** [lease] is the lease's identity in the runtime's account. *)

Record Counter := mkCounter {
  ct_ref : SubscriptionRef; ct_worker : WorkerRef; ct_focus : Z; ct_input : Z; grantEpoch : Z; grantAtSeq : Z;
  retired : bool; ct_releaseId : string; cleanup : Cleanup; cleanupEpoch : Z; ct_lease : nat;
}.

Record Boundary := mkBoundary { b_epoch : Z; b_holder : option ControlHolder; b_geometry : Geometry; b_atSeq : Z }.

#[export] Instance Boundary_eq : EqDecision Boundary.
Proof. solve_decision. Defined.

Record ProgramCommand := mkProgram {
  pg_worker : WorkerRef; pg_run : RunRef; pg_requestId : string; pg_operationId : string; pg_epoch : Z;
  pg_textBytes : Z; pg_submit : bool;
}.

(** A [ByteReservation]: a plain lease with its bytes, or a user of a backing. *)

Inductive Reservation :=
  | Lease (l : nat) (n : Z)
  | BackingUser (h : nat).

Inductive JobKind :=
  | Control (command : ControlCommand) (context : ControlRouteContext)
  | Programmatic (command : ProgramCommand) (cancelled : option string) (accept : bool).

(** [accept] of a programmatic job records that the callback is present. *)

Record Job := mkJob {
  job_id : nat; job_kind : JobKind; payload : list Z; leases : list Reservation; ready : bool; dispatched : bool;
}.

(** A settled promise of an async function. *)

Inductive Settled (A : Type) :=
  | Returned (a : A)
  | Threw.

Arguments Returned {A} a.
Arguments Threw {A}.

(** Where the run's [drain] is suspended. *)

Inductive Phase :=
  | Idle                                                  (* not running *)
  | Executing                                             (* running, between two awaits *)
  | AwaitStatus                                           (* boundary: runtime.getStatus *)
  | AwaitBoundary (failure : Settled (option DomainError)) (* perform: boundary(job), settled *)
  | AwaitDispatch (boundary : Boundary)                   (* perform: the runtime's result *)
  | AwaitPerform (reply : Settled Reply)                  (* drain: perform(job), settled *)
  | AwaitProgramStatus                                    (* performProgrammatic: runtime.getStatus *)
  | AwaitAccept                                           (* performProgrammatic: job.accept() *)
  | AwaitProgramDispatch                                  (* performProgrammatic: writeProgrammatic *)
  | AwaitProgram (receipt : Settled TabInputReceipt)      (* drain: performProgrammatic, settled *)
  | AwaitRelease (index : nat) (boundary : Boundary)      (* cleanup: runtime.setControl *)
  | AwaitCleanup.                                         (* drain: cleanup(run), settled *)

Record Run := mkRunState {
  r_ref : RunRef; r_worker : WorkerRef; r_boundary : option Boundary; uncertain : bool; queue : list Job;
  programFailure : option string; counters : jsmap SubscriptionRef Counter; phase : Phase; r_lease : nat;
}.

Definition running (r : Run) : bool := match phase r with Idle => false | _ => true end.

Inductive Effect :=
  | JobAdmitted (run : string) (job : nat)
  | StatusRead (run : string) (c : PipeCommand)
  | Dispatched (run : string) (job : nat) (c : PipeCommand) (bytes : list Z)
  | AcceptCalled (run : string) (job : nat)
  | ControlReleased (run : string) (c : PipeCommand)
  | Replied (run : string) (job : nat) (reply : Reply)
  | Receipted (run : string) (job : nat) (receipt : TabInputReceipt).

Record ControlArbiter := mkArbiter {
  runs : jsmap string Run; pending : Z; disposed : bool; account : B.t; next_job : nat; trace : list Effect;
}.

Definition newControlArbiter (s : B.t) : ControlArbiter := mkArbiter [] 0 false s 0 [].

(** ** Field updates *)

Definition set_boundary (b : Boundary) (r : Run) : Run :=
  mkRunState (r_ref r) (r_worker r) (Some b) (uncertain r) (queue r) (programFailure r) (counters r) (phase r) (r_lease r).

Definition set_uncertain (u : bool) (r : Run) : Run :=
  mkRunState (r_ref r) (r_worker r) (r_boundary r) u (queue r) (programFailure r) (counters r) (phase r) (r_lease r).

Definition set_queue (q : list Job) (r : Run) : Run :=
  mkRunState (r_ref r) (r_worker r) (r_boundary r) (uncertain r) q (programFailure r) (counters r) (phase r) (r_lease r).

Definition set_programFailure (p : option string) (r : Run) : Run :=
  mkRunState (r_ref r) (r_worker r) (r_boundary r) (uncertain r) (queue r) p (counters r) (phase r) (r_lease r).

Definition set_counters (c : jsmap SubscriptionRef Counter) (r : Run) : Run :=
  mkRunState (r_ref r) (r_worker r) (r_boundary r) (uncertain r) (queue r) (programFailure r) c (phase r) (r_lease r).

Definition set_phase (p : Phase) (r : Run) : Run :=
  mkRunState (r_ref r) (r_worker r) (r_boundary r) (uncertain r) (queue r) (programFailure r) (counters r) p (r_lease r).

Definition set_ready (j : Job) : Job := mkJob (job_id j) (job_kind j) (payload j) (leases j) true (dispatched j).

Definition set_dispatched (j : Job) : Job := mkJob (job_id j) (job_kind j) (payload j) (leases j) (ready j) true.

Definition set_focus (n : Z) (c : Counter) : Counter :=
  mkCounter (ct_ref c) (ct_worker c) n (ct_input c) (grantEpoch c) (grantAtSeq c) (retired c) (ct_releaseId c)
    (cleanup c) (cleanupEpoch c) (ct_lease c).

Definition set_input (n : Z) (c : Counter) : Counter :=
  mkCounter (ct_ref c) (ct_worker c) (ct_focus c) n (grantEpoch c) (grantAtSeq c) (retired c) (ct_releaseId c)
    (cleanup c) (cleanupEpoch c) (ct_lease c).

Definition set_grant (e q : Z) (c : Counter) : Counter :=
  mkCounter (ct_ref c) (ct_worker c) (ct_focus c) (ct_input c) e q (retired c) (ct_releaseId c)
    (cleanup c) (cleanupEpoch c) (ct_lease c).

Definition set_retired (c : Counter) : Counter :=
  mkCounter (ct_ref c) (ct_worker c) (ct_focus c) (ct_input c) (grantEpoch c) (grantAtSeq c) true (ct_releaseId c)
    (cleanup c) (cleanupEpoch c) (ct_lease c).

Definition set_cleanup (s : Cleanup) (c : Counter) : Counter :=
  mkCounter (ct_ref c) (ct_worker c) (ct_focus c) (ct_input c) (grantEpoch c) (grantAtSeq c) (retired c) (ct_releaseId c)
    s (cleanupEpoch c) (ct_lease c).

Definition set_cleanup_epoch (e : Z) (c : Counter) : Counter :=
  mkCounter (ct_ref c) (ct_worker c) (ct_focus c) (ct_input c) (grantEpoch c) (grantAtSeq c) (retired c) (ct_releaseId c)
    (cleanup c) e (ct_lease c).

Definition set_runs (rs : jsmap string Run) (a : ControlArbiter) : ControlArbiter :=
  mkArbiter rs (pending a) (disposed a) (account a) (next_job a) (trace a).

Definition set_account (s : B.t) (a : ControlArbiter) : ControlArbiter :=
  mkArbiter (runs a) (pending a) (disposed a) s (next_job a) (trace a).

Definition set_pending (n : Z) (a : ControlArbiter) : ControlArbiter :=
  mkArbiter (runs a) n (disposed a) (account a) (next_job a) (trace a).

Definition emit (e : Effect) (a : ControlArbiter) : ControlArbiter :=
  mkArbiter (runs a) (pending a) (disposed a) (account a) (next_job a) (trace a ++ [e]).

(** Changes the run [id]; nothing when there is none. *)

Definition modify (id : string) (f : Run -> Run) (a : ControlArbiter) : ControlArbiter :=
  match jget id (runs a) with
  | Some r => set_runs (jset id (f r) (runs a)) a
  | None => a
  end.

(** Changes the counter of [s] in a run. *)

Definition modify_counter (s : SubscriptionRef) (f : Counter -> Counter) (r : Run) : Run :=
  match jget s (counters r) with
  | Some c => set_counters (jset s (f c) (counters r)) r
  | None => r
  end.

(** ** Helpers of the source *)

Definition holder (r : SubscriptionRef) : ControlHolder :=
  mkHolder (sub_connection r) (sub_viewId r) (sub_subscriptionId r).

Definition matches (value : option ControlHolder) (r : SubscriptionRef) : bool :=
  match value with
  | None => false
  | Some h =>
     sameConnectionRef (holder_connection h) (sub_connection r) && seqb (holder_viewId h) (sub_viewId r)
     && seqb (holder_subscriptionId h) (sub_subscriptionId r)
  end.

Definition notSent (command : ProgramCommand) (reason : string) (unk : bool) : TabInputReceipt :=
  {| rcpt_text := inputPartReceipt (pg_textBytes command) 0 (if unk then pg_textBytes command else 0) (Some reason);
     rcpt_submit := if pg_submit command then Some (inputPartReceipt 1 0 (if unk then 1 else 0) (Some reason)) else None |}.

Definition error (command : ControlCommand) (e : DomainError) : TerminalError :=
  mkTerminalError (cc_requestId command) (cc_run command) (command_type (terminal_command command)) e.

Definition refuse (command : ControlCommand) (kind : DomainErrorKind) : Reply := Refusal (error command (domainErrorOf kind)).

Definition is_input (command : ControlCommand) : bool := match cc_body command with Input _ _ => true | _ => false end.

(** [domainError("RESULT_UNKNOWN", "unknown", input ? "input" : undefined)]. *)

Definition unknown_error (subject : bool) : DomainError := error_object RESULT_UNKNOWN acc_unknown subject None.

Definition release_reservation (s : B.t) (x : Reservation) : B.t :=
  match x with Lease l _ => B.release l s | BackingUser h => B.releaseBacking h s end.

Definition release_reservations (xs : list Reservation) (s : B.t) : B.t := foldl release_reservation s xs.

(** A run's boundary as a status or a control fact reports it. *)

Definition status_boundary (status : RunStatus) (parsed : Z) : Boundary :=
  mkBoundary (rs_controlEpoch status) (rs_controlHolder status) (rs_geometry status) parsed.

(** The live status an accepted status result carries, with its parsed sequence. *)

Definition live_status (result : RuntimeResult) : option (RunStatus * Z) :=
  match result with
  | RError _ => None
  | RResult r =>
     if negb (bool_decide (res_outcome r = accepted)) then None
     else match res_runStatus r with
          | None => None
          | Some status =>
             if negb (bool_decide (rs_status status = live)) then None
             else match rs_parsedSeq status with Some q => Some (status, q) | None => None end
          end
  end.

Definition status_command (w : WorkerRef) (r : RunRef) (requestId : string) : PipeCommand :=
  mkPipe w r (requestId +:+ ".s") C_status.

Definition program_pipe (c : ProgramCommand) : PipeCommand :=
  mkPipe (pg_worker c) (pg_run c) (pg_requestId c) (C_programmatic (pg_operationId c) (pg_epoch c) (pg_textBytes c) (pg_submit c)).

(** JavaScript's truth of an optional string. *)

Definition truthy (o : option string) : bool := match o with Some (String _ _) => true | _ => false end.

(** ** Admission *)

Section arbiter.
Context (budgets : EffectiveBudgets).

(** The [Uint8Array] of an input: its buffer, the buffer's length and its bytes. *)

Record InputBytes := mkBytes { ib_buffer : nat; ib_bufferBytes : Z; ib_bytes : list Z }.

Definition new_run (ref : RunRef) (worker : WorkerRef) (l : nat) : Run := mkRunState ref worker None false [] None [] Idle l.

Definition new_counter (context : ControlRouteContext) (l : nat) : Counter :=
  mkCounter (cx_subscription context) (cx_worker context) 0 0 0 0 false (cx_releaseId context) cl_none 0 l.

Definition command_geometry (c : ControlCommand) : option Geometry :=
  match cc_body c with Focus _ g _ | Resize _ g => Some g | _ => None end.

Definition control_appearance (c : ControlCommand) : option Appearance :=
  match cc_body c with Focus _ _ a => a | SetAppearance _ a => Some a | _ => None end.

(** [run], or a new one with its lease; the flag says that it is new. *)

Definition take_run (ref : RunRef) (worker : WorkerRef) (a : ControlArbiter)
    : DomainErrorKind + (bool * Run * B.t) :=
  match jget (run_runId ref) (runs a) with
  | Some r => inr (false, r, account a)
  | None =>
     if maxRuns budgets <=? zlen (runs a) then inl BUSY
     else match B.reserve 8192 false (account a) with
          | None => inl BUSY
          | Some (l, s) => inr (true, new_run ref worker l, s)
          end
  end.

Definition rollback_run (newRun : bool) (r : Run) (s : B.t) : B.t := if newRun then B.release (r_lease r) s else s.

Definition take_counter (context : ControlRouteContext) (newRun : bool) (r : Run) (s : B.t)
    : (DomainErrorKind * B.t) + (bool * Counter * B.t) :=
  match jget (cx_subscription context) (counters r) with
  | Some c => inr (false, c, s)
  | None =>
     if authenticatedSockets budgets * subscriptionsPerConnection budgets <=? zlen (counters r)
     then inl (BUSY, rollback_run newRun r s)
     else match B.reserve 4096 false s with
          | None => inl (BUSY, rollback_run newRun r s)
          | Some (l, s) => inr (true, new_counter context l, s)
          end
  end.

Definition rollback (newRun newCounter : bool) (r : Run) (c : Counter) (s : B.t) : B.t :=
  rollback_run newRun r (if newCounter then B.release (ct_lease c) s else s).

(** The leases of a new job and the copy of its bytes; [None] is [BUSY] with
    what was taken given back. *)

Definition take_job (is_inp : bool) (bytes : InputBytes) (s : B.t) : (list Reservation * list Z * B.t) + B.t :=
  match B.reserve 1024 false s with
  | None => inr s
  | Some (l, s) =>
     if negb is_inp then inl ([Lease l 1024], [], s)
     else
       match B.retainBacking (ib_buffer bytes) (ib_bufferBytes bytes) false s with
       | None => inr (release_reservations [Lease l 1024] s)
       | Some (h, s) =>
          let n := zlen (ib_bytes bytes) + 256 in
          match B.reserve n false s with
          | None => inr (release_reservations [Lease l 1024; BackingUser h] s)
          | Some (l', s) => inl ([Lease l 1024; BackingUser h; Lease l' n], ib_bytes bytes, s)
          end
       end
  end.

(** The checks before any state is touched. *)

Definition admit_checks (w : World) (command : ControlCommand) (context : ControlRouteContext) (bytes : InputBytes)
    (a : ControlArbiter) : option DomainErrorKind :=
  let byteLength := zlen (ib_bytes bytes) in
  if disposed a || negb (w_current w (cx_id context)) then Some STALE_CONNECTION
  else if negb (w_earlierPending w (cx_id context)) && negb (w_installed w (cx_id context) None) then Some RESYNC_REQUIRED
  else if match command_geometry command with
          | Some g => (maxCols budgets <? cols g) || (maxRows budgets <? rows g)
          | None => false
          end then Some INVALID_SIZE
  else if negb (optional_ok valid_appearance (control_appearance command)) then Some CAPABILITY_UNAVAILABLE
  else if (if is_input command
           then (byteLength <? 1) || (Z.min 65536 (inputQueueBytes budgets) <? byteLength)
                || (MAX_FRAME_BYTES <? ib_bufferBytes bytes)
           else negb (byteLength =? 0)) then Some INPUT_REJECTED
  else if pendingWorkerCommands budgets <=? pending a then Some BUSY
  else match jget (run_runId (cc_run command)) (runs a) with
       | Some r =>
          if negb (sameRunRef (r_ref r) (cc_run command)) || negb (sameWorkerRef (r_worker r) (cx_worker context))
          then Some WORKER_UNAVAILABLE else None
       | None => None
       end.

Definition counter_exhausted (command : ControlCommand) (c : Counter) : bool :=
  retired c
  || match cc_body command with
     | Focus q _ _ => q <=? ct_focus c
     | Input _ q => q <=? ct_input c
     | _ => false
     end.

Definition advance_counter (command : ControlCommand) (c : Counter) : Counter :=
  match cc_body command with
  | Focus q _ _ => set_focus q c
  | Input _ q => set_input q c
  | _ => c
  end.

(** Puts a job at the end of the run's queue. *)

Definition enqueue (id : string) (r : Run) (kind : JobKind) (bytes : list Z) (ls : list Reservation) (a : ControlArbiter)
    : nat * ControlArbiter :=
  let j := mkJob (next_job a) kind bytes ls false false in
  let r := set_queue (queue r ++ [j]) r in
  (next_job a,
   emit (JobAdmitted id (next_job a))
     (mkArbiter (jset id r (runs a)) (pending a + 1) (disposed a) (account a) (S (next_job a)) (trace a))).

(** [admit]: the code asks [context.current()] again once the leases are taken. *)

Definition admit_control (w : World) (command : ControlCommand) (context : ControlRouteContext) (bytes : InputBytes)
    (a : ControlArbiter) : (DomainErrorKind + nat) * ControlArbiter :=
  match admit_checks w command context bytes a with
  | Some kind => (inl kind, a)
  | None =>
     match take_run (cc_run command) (cx_worker context) a with
     | inl kind => (inl kind, a)
     | inr (newRun, r, s) =>
        match take_counter context newRun r s with
        | inl (kind, s) => (inl kind, set_account s a)
        | inr (newCounter, c, s) =>
           if counter_exhausted command c
           then (inl COUNTER_EXHAUSTED, set_account (rollback newRun newCounter r c s) a)
           else
             match take_job (is_input command) bytes s with
             | inr s => (inl BUSY, set_account (rollback newRun newCounter r c s) a)
             | inl (ls, copy, s) =>
                if negb (w_current w (cx_id context))
                then (inl STALE_CONNECTION,
                      set_account (rollback newRun newCounter r c (release_reservations ls s)) a)
                else
                  let r := set_counters (jset (cx_subscription context) (advance_counter command c) (counters r)) r in
                  let '(j, a) := enqueue (run_runId (cc_run command)) r (Control command context) copy ls (set_account s a) in
                  (inr j, a)
             end
        end
     end
  end.

Definition is_program (j : Job) : bool := match job_kind j with Programmatic _ _ _ => true | Control _ _ => false end.

Definition program_submits (j : Job) : bool := match job_kind j with Programmatic c _ _ => pg_submit c | Control _ _ => false end.

Definition number (b : bool) : Z := if b then 1 else 0.

Definition queued_programs (q : list Job) : Z := zlen (List.filter is_program q).

Definition queued_bytes (q : list Job) : Z := lsum (fun j => zlen (payload j) + number (program_submits j)) q.

Definition admit_programmatic (w : World) (command : ProgramCommand) (bytes : list Z) (a : ControlArbiter)
    : (DomainErrorKind + nat) * ControlArbiter :=
  let found := jget (run_runId (pg_run command)) (runs a) in
  if disposed a
     || match w_placement w (pg_run command) with
        | None => true
        | Some worker => negb (sameWorkerRef worker (pg_worker command))
        end
  then (inl WORKER_UNAVAILABLE, a)
  else if match found with
          | Some r => negb (sameRunRef (r_ref r) (pg_run command)) || negb (sameWorkerRef (r_worker r) (pg_worker command))
          | None => false
          end then (inl WORKER_UNAVAILABLE, a)
  else if (pendingWorkerCommands budgets <=? pending a)
          || (TAB_SEND_PENDING_PER_RUN <=? match found with Some r => queued_programs (queue r) | None => 0 end)
          || (inputQueueBytes budgets <?
              zlen bytes + number (pg_submit command) + match found with Some r => queued_bytes (queue r) | None => 0 end)
  then (inl BUSY, a)
  else if match found with Some r => truthy (programFailure r) | None => false end then (inl INPUT_REJECTED, a)
  else
    match take_run (pg_run command) (pg_worker command) a with
    | inl kind => (inl kind, a)
    | inr (newRun, r, s) =>
       let n := 2048 + 2 * zlen bytes in
       match B.reserve n false s with
       | None => (inl BUSY, set_account (rollback_run newRun r s) a)
       | Some (l, s) =>
          let '(j, a) := enqueue (run_runId (pg_run command)) r (Programmatic command None false) bytes [Lease l n] (set_account s a) in
          (inr j, a)
       end
    end.

(** ** The loop of one run *)

Definition job_current (w : World) (command : ControlCommand) (context : ControlRouteContext) (r : Run) (a : ControlArbiter) : bool :=
  negb (disposed a)
  && negb (match jget (cx_subscription context) (counters r) with Some c => retired c | None => false end)
  && w_current w (cx_id context)
  && match w_placement w (cc_run command) with
     | Some worker => sameWorkerRef worker (cx_worker context)
     | None => false
     end.

Definition program_current (w : World) (command : ProgramCommand) (a : ControlArbiter) : bool :=
  negb (disposed a)
  && match w_placement w (pg_run command) with
     | Some worker => sameWorkerRef worker (pg_worker command)
     | None => false
     end
  && match w_entry w (pg_run command) with
     | Some status => negb (bool_decide (status = exited))
     | None => false
     end.

Definition suspend (id : string) (p : Phase) (a : ControlArbiter) : ControlArbiter := modify id (set_phase p) a.

(** [perform] up to its first await, which is in [boundary] when a status is read. *)

Definition start_perform (w : World) (id : string) (r : Run) (command : ControlCommand) (context : ControlRouteContext)
    (a : ControlArbiter) : ControlArbiter :=
  if negb (job_current w command context r a) then suspend id (AwaitPerform (Returned (refuse command STALE_CONNECTION))) a
  else if negb (w_installed w (cx_id context) None)
  then suspend id (AwaitPerform (Returned (refuse command RESYNC_REQUIRED))) a
  else match r_boundary r with
       | Some _ =>
          if negb (uncertain r) then suspend id (AwaitBoundary (Returned None)) a
          else suspend id AwaitStatus (emit (StatusRead id (status_command (r_worker r) (r_ref r) (cx_requestId context))) a)
       | None => suspend id AwaitStatus (emit (StatusRead id (status_command (r_worker r) (r_ref r) (cx_requestId context))) a)
       end.

(** [performProgrammatic] up to its first await. *)

Definition start_program (w : World) (id : string) (r : Run) (command : ProgramCommand) (cancelled : option string)
    (a : ControlArbiter) : ControlArbiter :=
  let done receipt := suspend id (AwaitProgram (Returned receipt)) a in
  if truthy cancelled || truthy (programFailure r)
  then done (notSent command (default (default EmptyString (programFailure r)) cancelled) false)
  else if negb (program_current w command a) then done (notSent command "run-not-live" false)
  else suspend id AwaitProgramStatus
         (emit (StatusRead id (status_command (pg_worker command) (pg_run command) (pg_requestId command))) a).

Definition start_job (w : World) (id : string) (r : Run) (j : Job) (a : ControlArbiter) : ControlArbiter :=
  match job_kind j with
  | Control command context => start_perform w id r command context a
  | Programmatic command cancelled _ => start_program w id r command cancelled a
  end.

(** [cleanup] from the counter at [index] on: until the next release is sent, or
    to its end.  [rest] is the part of the map not yet visited. *)

Definition release_command (r : Run) (c : Counter) (b : Boundary) : PipeCommand :=
  mkPipe (ct_worker c) (r_ref r) (ct_releaseId c) (C_set_control (b_epoch b) (b_epoch b) None (b_geometry b) None).

Fixpoint cleanup_scan (w : World) (id : string) (rest : jsmap SubscriptionRef Counter) (index : nat) (a : ControlArbiter)
    : ControlArbiter :=
  match rest with
  | [] => suspend id AwaitCleanup a
  | (s, c) :: rest =>
     if negb (bool_decide (cleanup c = cl_pending)) then cleanup_scan w id rest (S index) a
     else match jget id (runs a) with
          | None => a
          | Some r =>
             let dropped := cleanup_scan w id rest (S index) (modify id (modify_counter s (set_cleanup cl_none)) a) in
             match r_boundary r with
             | None => dropped
             | Some b =>
                if negb (matches (b_holder b) (ct_ref c)) || negb (b_epoch b =? cleanupEpoch c) then dropped
                else if uncertain r || disposed a then cleanup_scan w id rest (S index) a
                else match w_placement w (r_ref r) with
                     | None => cleanup_scan w id rest (S index) a
                     | Some worker =>
                        if negb (sameWorkerRef worker (ct_worker c)) then cleanup_scan w id rest (S index) a
                        else suspend id (AwaitRelease index b) (emit (ControlReleased id (release_command r c b)) a)
                     end
             end
          end
     end.

Definition cleanup_from (w : World) (id : string) (index : nat) (a : ControlArbiter) : ControlArbiter :=
  match jget id (runs a) with
  | None => a
  | Some r => cleanup_scan w id (drop index (counters r)) index a
  end.

(** [release(run)]. *)

Definition release_run (id : string) (a : ControlArbiter) : ControlArbiter :=
  match jget id (runs a) with
  | None => a
  | Some r =>
     let s := foldl (fun s c => B.release (ct_lease c) s) (account a) (jvalues (counters r)) in
     set_account (B.release (r_lease r) s) (set_runs (jdelete id (runs a)) a)
  end.

(** [prune(run)]: its guard [run.running] is false where it is called. *)

Definition names_counter (s : SubscriptionRef) (j : Job) : bool :=
  match job_kind j with Control _ context => bool_decide (cx_subscription context = s) | Programmatic _ _ _ => false end.

Definition prunable (r : Run) (s : SubscriptionRef) (c : Counter) : bool :=
  retired c && negb (bool_decide (cleanup c = cl_pending)) && negb (existsb (names_counter s) (queue r)).

Definition prune (id : string) (a : ControlArbiter) : ControlArbiter :=
  if disposed a then a
  else match jget id (runs a) with
       | None => a
       | Some r =>
          if running r then a
          else
            let gone := List.filter (fun sc => prunable r sc.1 sc.2) (counters r) in
            let kept := List.filter (fun sc => negb (prunable r sc.1 sc.2)) (counters r) in
            set_account (foldl (fun s sc => B.release (ct_lease sc.2) s) (account a) gone)
              (set_runs (jset id (set_counters kept r) (runs a)) a)
       end.

(** The [finally] block of [drain]; a new [drain] it starts runs up to its
    first await. *)

Definition finish_drain (w : World) (id : string) (a : ControlArbiter) : ControlArbiter :=
  let a := suspend id Idle a in
  match jget id (runs a) with
  | None => a
  | Some r =>
     if disposed a && match queue r with [] => true | _ => false end then release_run id a
     else match queue r with
          | j :: _ => if ready j then start_job w id r j (suspend id Executing a) else prune id a
          | [] => prune id a
          end
  end.

(** The head of the [while] loop, up to the next await. *)

Definition drain_loop (w : World) (id : string) (a : ControlArbiter) : ControlArbiter :=
  match jget id (runs a) with
  | None => a
  | Some r =>
     match queue r with
     | [] => cleanup_from w id 0 a
     | j :: _ => if ready j then start_job w id r j a else finish_drain w id a
     end
  end.

Definition drain (w : World) (id : string) (a : ControlArbiter) : ControlArbiter :=
  match jget id (runs a) with
  | None => a
  | Some r => if running r then a else drain_loop w id (suspend id Executing a)
  end.

(** Takes the settled head out of the queue and gives its leases back. *)

Definition shift_job (id : string) (r : Run) (j : Job) (rest : list Job) (a : ControlArbiter) : ControlArbiter :=
  mkArbiter (jset id (set_phase Executing (set_queue rest r)) (runs a)) (pending a - 1) (disposed a)
    (release_reservations (leases j) (account a)) (next_job a) (trace a).

(** [drain] after [await this.perform(job)]. *)

Definition settle_control (w : World) (id : string) (reply : Settled Reply) (a : ControlArbiter) : ControlArbiter :=
  match jget id (runs a) with
  | None => a
  | Some r =>
     match queue r with
     | j :: rest =>
        match job_kind j with
        | Control command context =>
           let '(r, answer) :=
             match reply with
             | Returned answer => (r, answer)
             | Threw => (set_uncertain true r, Refusal (error command (unknown_error (is_input command))))
             end in
           drain_loop w id (emit (Replied id (job_id j) answer) (shift_job id r j rest a))
        | Programmatic _ _ _ => a
        end
     | [] => a
     end
  end.

Definition complete_receipt (receipt : TabInputReceipt) : bool :=
  part_is part_written (rcpt_text receipt) && optional_ok (part_is part_written) (rcpt_submit receipt).

Definition failure_reason (receipt : TabInputReceipt) : string :=
  match part_reason (rcpt_text receipt) with
  | Some s => s
  | None => match rcpt_submit receipt ≫= part_reason with Some s => s | None => "earlier-input-not-complete" end
  end.

(** [drain] after [await this.performProgrammatic(job)]. *)

Definition settle_program (w : World) (id : string) (receipt : Settled TabInputReceipt) (a : ControlArbiter) : ControlArbiter :=
  match jget id (runs a) with
  | None => a
  | Some r =>
     match queue r with
     | j :: rest =>
        match job_kind j with
        | Programmatic command _ _ =>
           let input := match receipt with
                        | Returned input => input
                        | Threw => notSent command "runtime-result-unknown" (dispatched j)
                        end in
           let failure := if complete_receipt input then programFailure r
                          else Some (default (failure_reason input) (programFailure r)) in
           let failure := if existsb is_program rest then failure else None in
           drain_loop w id
             (emit (Receipted id (job_id j) input) (shift_job id (set_programFailure failure r) j rest a))
        | Control _ _ => a
        end
     | [] => a
     end
  end.

(** ** Resuming after an await *)

(** [boundary(job)] once the status is read. *)

Definition resume_status (w : World) (id : string) (result : Settled RuntimeResult) (r : Run) (command : ControlCommand)
    (context : ControlRouteContext) (a : ControlArbiter) : ControlArbiter :=
  let fail e := suspend id (AwaitBoundary (Returned (Some e))) a in
  match result with
  | Threw => suspend id (AwaitBoundary Threw) a
  | Returned result =>
     if negb (job_current w command context r a) then fail (domainErrorOf STALE_CONNECTION)
     else match result with
          | RError e => fail (perr_error e)
          | RResult _ =>
             match live_status result with
             | None => fail (domainErrorOf WORKER_UNAVAILABLE)
             | Some (status, parsed) =>
                if match r_boundary r with Some b => parsed <? b_atSeq b | None => false end
                then fail (domainErrorOf STALE_CONTROL)
                else suspend id (AwaitBoundary (Returned None))
                       (modify id (fun r => set_uncertain false (set_boundary (status_boundary status parsed) r)) a)
             end
          end
  end.

(** The pipe command of a control command, or the refusal. *)

Definition pipe_of (w : World) (command : ControlCommand) (context : ControlRouteContext) (r : Run) (c : Counter)
    (b : Boundary) : DomainErrorKind + PipeCommand :=
  let pipe body := inr (mkPipe (r_worker r) (r_ref r) (cx_requestId context) body) in
  let s := cx_subscription context in
  let granted e := matches (b_holder b) s && (b_epoch b =? e) && (grantEpoch c =? e) in
  let current := w_installed w (cx_id context) (Some (Z.max (b_atSeq b) (grantAtSeq c))) in
  match cc_body command with
  | Focus _ g a =>
     if b_epoch b =? MAX_SAFE_INTEGER then inl COUNTER_EXHAUSTED
     else pipe (C_set_control (b_epoch b) (b_epoch b + 1) (Some (holder s)) g a)
  | Blur e =>
     if negb (granted e) then inl STALE_CONTROL
     else pipe (C_set_control (b_epoch b) (b_epoch b) None (b_geometry b) None)
  | Input e q =>
     if negb (granted e) then inl STALE_CONTROL
     else if negb current then inl RESYNC_REQUIRED else pipe (C_input s e q)
  | Resize e g =>
     if negb (granted e) then inl STALE_CONTROL
     else if negb current then inl RESYNC_REQUIRED else pipe (C_resize s e g)
  | SetAppearance e ap =>
     if negb (granted e) then inl STALE_CONTROL
     else if negb current then inl RESYNC_REQUIRED else pipe (C_appearance s e ap)
  end.

(** The sequence the final fence asks the route to have installed. *)

Definition fence_seq (command : ControlCommand) (b : Boundary) : option Z :=
  match cc_body command with Focus _ _ _ | Blur _ => None | _ => Some (b_atSeq b) end.

Definition mark_dispatched (r : Run) : Run :=
  match queue r with j :: rest => set_queue (set_dispatched j :: rest) r | [] => r end.

(** [perform] once [boundary(job)] settled, up to the dispatch. *)

Definition resume_boundary (w : World) (id : string) (failure : Settled (option DomainError)) (r : Run) (j : Job)
    (command : ControlCommand) (context : ControlRouteContext) (a : ControlArbiter) : ControlArbiter :=
  let reply x := suspend id (AwaitPerform (Returned x)) a in
  match failure with
  | Threw => suspend id (AwaitPerform Threw) a
  | Returned (Some e) => reply (Refusal (error command e))
  | Returned None =>
     if negb (job_current w command context r a) then reply (refuse command STALE_CONNECTION)
     else match r_boundary r, jget (cx_subscription context) (counters r) with
          | Some b, Some c =>
             match pipe_of w command context r c b with
             | inl kind => reply (refuse command kind)
             | inr pipe =>
                if negb (job_current w command context r a) || negb (w_installed w (cx_id context) (fence_seq command b))
                then reply (refuse command STALE_CONNECTION)
                else suspend id (AwaitDispatch b)
                       (emit (Dispatched id (job_id j) pipe (payload j)) (modify id mark_dispatched a))
             end
          | _, _ => a
          end
  end.

(** [failure(result, command)]. *)

Definition result_failure (result : RuntimeResult) (command : ControlCommand) : option DomainError :=
  match result with
  | RError e => Some (perr_error e)
  | RResult r =>
     match res_outcome r with
     | accepted => None
     | unknown => Some (unknown_error (is_input command))
     | rejected => Some (domainErrorOf STALE_CONTROL)
     end
  end.

Definition input_written (command : ControlCommand) (q : Z) (bytes : list Z) (r : PipeResult) : option Z :=
  match res_writtenBytes r with
  | None => None
  | Some n => if (n =? 0) || (zlen bytes <? n) || negb (bool_decide (res_inputSeq r = Some q)) then None else Some n
  end.

(** The boundary after an accepted command that is not an input. *)

Definition accepted_boundary (command : ControlCommand) (context : ControlRouteContext) (b : Boundary) (q : Z) : Boundary :=
  match cc_body command with
  | Focus _ g _ => mkBoundary (b_epoch b + 1) (Some (holder (cx_subscription context))) g q
  | Blur _ => mkBoundary (b_epoch b) None (b_geometry b) q
  | Resize _ g => mkBoundary (b_epoch b) (b_holder b) g q
  | _ => mkBoundary (b_epoch b) (b_holder b) (b_geometry b) q
  end.

(** A grant to a retired subscription is given up once the queue is empty. *)

Definition record_grant (e q : Z) (c : Counter) : Counter :=
  let c := set_grant e q c in
  if retired c then set_cleanup_epoch e (set_cleanup cl_pending c) else c.

Definition accept_boundary (command : ControlCommand) (context : ControlRouteContext) (b : Boundary) (q : Z) (r : Run) : Run :=
  let next := accepted_boundary command context b q in
  let r := set_boundary next r in
  match cc_body command with
  | Focus _ _ _ => modify_counter (cx_subscription context) (record_grant (b_epoch next) q) r
  | _ => r
  end.

Definition answer_body (command : ControlCommand) (context : ControlRouteContext) (e q : Z) : ResultBody :=
  let s := cx_subscription context in
  match cc_body command with
  | Focus _ _ _ => R_focus s e q
  | Blur _ => R_blur s e q
  | Resize _ _ => R_resize s e q
  | SetAppearance _ _ => R_appearance s e q
  | Input _ i => R_input s e i q
  end.

Definition answer (command : ControlCommand) (context : ControlRouteContext) (e q : Z) : Reply :=
  Answer (mkResult (cc_requestId command) (cc_run command) (answer_body command context e q)).

(** [perform] once the runtime answered; [b] is the boundary it dispatched under. *)

Definition resume_dispatch (w : World) (id : string) (result : Settled RuntimeResult) (b : Boundary) (r : Run) (j : Job)
    (command : ControlCommand) (context : ControlRouteContext) (a : ControlArbiter) : ControlArbiter :=
  let reply x a := suspend id (AwaitPerform (Returned x)) a in
  match result with
  | Threw => suspend id (AwaitPerform Threw) a
  | Returned result =>
     match result_failure result command, result with
     | Some e, _ =>
        let doubt := negb (is_input command)
                     && (bool_decide (err_acceptance e = acc_unknown) || bool_decide (err_kind e = STALE_CONTROL)) in
        reply (Refusal (error command e)) (if doubt then modify id (set_uncertain true) a else a)
     | None, RError _ => reply (refuse command RESULT_UNKNOWN) a
     | None, RResult res =>
        match cc_body command with
        | Input e q =>
           match input_written command q (payload j) res with
           | None => reply (Refusal (error command (unknown_error true))) a
           | Some n => reply (answer command context e n) a
           end
        | _ =>
           match res_atSeq res with
           | None => reply (Refusal (error command (unknown_error false))) (modify id (set_uncertain true) a)
           | Some q =>
              if q <? b_atSeq b
              then reply (Refusal (error command (unknown_error false))) (modify id (set_uncertain true) a)
              else if match r_boundary r with Some now => q <? b_atSeq now | None => false end
              then reply (refuse command STALE_CONTROL) a
              else
                let r' := accept_boundary command context b q r in
                let a := modify id (fun _ => r') a in
                if negb (job_current w command context r' a) then reply (refuse command STALE_CONNECTION) a
                else reply (answer command context (b_epoch (accepted_boundary command context b q)) q) a
           end
        end
     end
  end.

(** [performProgrammatic] once the status is read. *)

Definition resume_program_status (w : World) (id : string) (result : Settled RuntimeResult) (r : Run) (j : Job)
    (command : ProgramCommand) (has_accept : bool) (a : ControlArbiter) : ControlArbiter :=
  let done reason a := suspend id (AwaitProgram (Returned (notSent command reason false))) a in
  match result with
  | Threw => suspend id (AwaitProgram Threw) a
  | Returned result =>
     if negb (program_current w command a) then done "control-unverifiable" a
     else match live_status result with
          | None => done "control-unverifiable" a
          | Some (status, parsed) =>
             if match r_boundary r with Some b => parsed <? b_atSeq b | None => false end
             then done "control-unverifiable" a
             else
               let a := modify id (fun r => set_uncertain false (set_boundary (status_boundary status parsed) r)) a in
               if defined (rs_controlHolder status) then done "controller-present" a
               else if negb (rs_controlEpoch status =? pg_epoch command) then done "stale-control" a
               else if negb has_accept then done "receipt-not-confirmed" a
               else suspend id AwaitAccept (emit (AcceptCalled id (job_id j)) a)
          end
  end.

(** [performProgrammatic] once the durable intent is accepted or not. *)

Definition resume_accept (w : World) (id : string) (result : Settled bool) (j : Job) (command : ProgramCommand)
    (a : ControlArbiter) : ControlArbiter :=
  match result with
  | Threw => suspend id (AwaitProgram Threw) a
  | Returned false => suspend id (AwaitProgram (Returned (notSent command "receipt-not-confirmed" false))) a
  | Returned true =>
     if negb (program_current w command a)
     then suspend id (AwaitProgram (Returned (notSent command "run-not-live" false))) a
     else suspend id AwaitProgramDispatch
            (emit (Dispatched id (job_id j) (program_pipe command) (payload j)) (modify id mark_dispatched a))
  end.

Definition program_receipt (command : ProgramCommand) (result : RuntimeResult) : TabInputReceipt :=
  match result with
  | RError e =>
     notSent command (kind_name (err_kind (perr_error e))) (bool_decide (err_acceptance (perr_error e) = acc_unknown))
  | RResult r => match res_input r with Some input => input | None => notSent command "runtime-result-unknown" true end
  end.

Definition resume_program_dispatch (id : string) (result : Settled RuntimeResult) (command : ProgramCommand)
    (a : ControlArbiter) : ControlArbiter :=
  match result with
  | Threw => suspend id (AwaitProgram Threw) a
  | Returned result => suspend id (AwaitProgram (Returned (program_receipt command result))) a
  end.

(** [cleanup] once a release was answered.  [run.boundary === boundary] implies
    the comparison of sequences it is joined with. *)

Definition busy_error (e : DomainError) : bool :=
  bool_decide (err_acceptance e = acc_not_accepted) && bool_decide (err_kind e = BUSY).

Definition released_boundary (b : Boundary) (q : Z) : Boundary := mkBoundary (b_epoch b) None (b_geometry b) q.

Definition settle_release (s : SubscriptionRef) (b : Boundary) (result : Settled RuntimeResult) (r : Run) : Run :=
  let doubt := set_uncertain true (modify_counter s (set_cleanup cl_unknown) r) in
  match result with
  | Threw => doubt
  | Returned (RError e) => if busy_error (perr_error e) then r else doubt
  | Returned (RResult res) =>
     match res_atSeq res with
     | Some q =>
        if bool_decide (res_outcome res = accepted) && (b_atSeq b <=? q)
        then let r := modify_counter s (set_cleanup cl_none) r in
             if match r_boundary r with Some now => b_atSeq now <=? q | None => true end
             then set_boundary (released_boundary b q) r else r
        else doubt
     | None => doubt
     end
  end.

Definition resume_release (w : World) (id : string) (index : nat) (b : Boundary) (result : Settled RuntimeResult)
    (r : Run) (a : ControlArbiter) : ControlArbiter :=
  match counters r !! index with
  | None => a
  | Some (s, _) => cleanup_from w id (S index) (modify id (settle_release s b result) a)
  end.

(** What a suspended loop is resumed with: a turn of the microtask queue once
    its own promise settled, the runtime's answer, or the answer of [accept]. *)

Inductive Resumption :=
  | Turn
  | RuntimeAnswered (result : Settled RuntimeResult)
  | AcceptAnswered (result : Settled bool).

(** [None] when the loop of run [id] does not wait for this. *)

Definition resume (w : World) (id : string) (x : Resumption) (a : ControlArbiter) : option ControlArbiter :=
  match jget id (runs a) with
  | None => None
  | Some r =>
     let head := head (queue r) in
     match phase r, x, job_kind <$> head, head with
     | AwaitStatus, RuntimeAnswered result, Some (Control command context), _ =>
        Some (resume_status w id result r command context a)
     | AwaitBoundary failure, Turn, Some (Control command context), Some j =>
        Some (resume_boundary w id failure r j command context a)
     | AwaitDispatch b, RuntimeAnswered result, Some (Control command context), Some j =>
        Some (resume_dispatch w id result b r j command context a)
     | AwaitPerform reply, Turn, _, _ => Some (settle_control w id reply a)
     | AwaitProgramStatus, RuntimeAnswered result, Some (Programmatic command _ has_accept), Some j =>
        Some (resume_program_status w id result r j command has_accept a)
     | AwaitAccept, AcceptAnswered result, Some (Programmatic command _ _), Some j =>
        Some (resume_accept w id result j command a)
     | AwaitProgramDispatch, RuntimeAnswered result, Some (Programmatic command _ _), _ =>
        Some (resume_program_dispatch id result command a)
     | AwaitProgram receipt, Turn, _, _ => Some (settle_program w id receipt a)
     | AwaitRelease index b, RuntimeAnswered result, _, _ => Some (resume_release w id index b result r a)
     | AwaitCleanup, Turn, _, _ => Some (finish_drain w id a)
     | _, _, _, _ => None
     end
  end.

(** ** Operations of the owner *)

Definition modify_job (j : nat) (f : Job -> Job) (r : Run) : Run :=
  set_queue (map (fun x => if Nat.eqb (job_id x) j then f x else x) (queue r)) r.

Definition execute (w : World) (id : string) (j : nat) (a : ControlArbiter) : ControlArbiter :=
  drain w id (modify id (modify_job j set_ready) a).

Definition accept_job (j : Job) : Job :=
  match job_kind j with
  | Programmatic c cancelled _ =>
     mkJob (job_id j) (Programmatic c cancelled true) (payload j) (leases j) true (dispatched j)
  | Control _ _ => j
  end.

Definition executeProgrammatic (w : World) (id : string) (j : nat) (a : ControlArbiter) : ControlArbiter :=
  drain w id (modify id (modify_job j accept_job) a).

Definition cancel_job (reason : string) (j : Job) : Job :=
  match job_kind j with
  | Programmatic c _ has_accept =>
     mkJob (job_id j) (Programmatic c (Some reason) has_accept) (payload j) (leases j) true (dispatched j)
  | Control _ _ => j
  end.

Definition cancelProgrammatic (w : World) (id : string) (j : nat) (reason : string) (a : ControlArbiter) : ControlArbiter :=
  drain w id (modify id (modify_job j (cancel_job reason)) a).

Definition ready_if_named (s : SubscriptionRef) (j : Job) : Job := if names_counter s j then set_ready j else j.

Definition schedule_cleanup (r : Run) (s : SubscriptionRef) : Run :=
  match r_boundary r with
  | Some b => if matches (b_holder b) s
              then modify_counter s (fun c => set_cleanup_epoch (b_epoch b) (set_cleanup cl_pending c)) r else r
  | None => r
  end.

Definition retire (w : World) (s : SubscriptionRef) (a : ControlArbiter) : ControlArbiter :=
  let id := run_runId (sub_run s) in
  match jget id (runs a) with
  | None => a
  | Some r =>
     match jget s (counters r) with
     | None => a
     | Some c =>
        if negb (sameSubscriptionRef (ct_ref c) s) then a
        else
          let r := modify_counter s set_retired r in
          let r := set_queue (map (ready_if_named s) (queue r)) r in
          drain w id (modify id (fun _ => schedule_cleanup r s) a)
     end
  end.

Definition tick (w : World) (a : ControlArbiter) : ControlArbiter := foldl (fun a id => drain w id a) a (jkeys (runs a)).

Definition dispose_run (w : World) (a : ControlArbiter) (id : string) : ControlArbiter :=
  let a := modify id (fun r => set_queue (map set_ready (queue r)) r) a in
  match jget id (runs a) with
  | None => a
  | Some r => if negb (running r) && match queue r with [] => true | _ => false end then release_run id a else drain w id a
  end.

(** The listener goes with the arbiter: [on_event] is not called once disposed. *)

Definition dispose (w : World) (a : ControlArbiter) : ControlArbiter :=
  if disposed a then a
  else foldl (dispose_run w) (mkArbiter (runs a) (pending a) true (account a) (next_job a) (trace a)) (jkeys (runs a)).

(** The listener of the constructor, on one event of the runtime. *)

Definition observe_fact (seq : Z) (fact : RunFact) (r : Run) : Run :=
  if match r_boundary r with Some b => seq <=? b_atSeq b | None => false end then r
  else match fact with
       | control e h g => set_boundary (mkBoundary e h g seq) r
       | resize g _ =>
          match r_boundary r with
          | Some b => set_boundary (mkBoundary (b_epoch b) (b_holder b) g seq) r
          | None => r
          end
       | exit _ _ => set_uncertain true r
       | output | appearance _ => r
       end.

Definition on_event (event : PipeEvent) (a : ControlArbiter) : ControlArbiter :=
  let id := run_runId (pe_run event) in
  match jget id (runs a), pe_terminal event with
  | Some r, TRun fact =>
     if negb (sameRunRef (r_ref r) (pe_run event)) || negb (sameWorkerRef (r_worker r) (pe_worker event)) then a
     else modify id (observe_fact (ev_seq fact) (ev_fact fact)) a
  | _, _ => a
  end.

Record Snapshot := mkSnapshot {
  sn_pending : Z; sn_runs : Z; sn_boundary : option Boundary; sn_uncertain : option bool; sn_counters : option Z; sn_cleanup : Z;
}.

Definition snapshot (id : string) (a : ControlArbiter) : Snapshot :=
  let r := jget id (runs a) in
  mkSnapshot (pending a) (zlen (runs a)) (r ≫= r_boundary) (uncertain <$> r) ((fun r => zlen (counters r)) <$> r)
    match r with
    | Some r => zlen (List.filter (fun c => bool_decide (cleanup c = cl_pending)) (jvalues (counters r)))
    | None => 0
    end.

End arbiter.
