(* ===== verification/ArbiterInvariant.v ===== *)
(** * What every reachable arbiter satisfies

    The invariant of ControlArbiter.v: the leases of the runs, counters and
    queued jobs are exactly what the arbiter owns in the runtime's account, the
    loop of a run is suspended at a point that fits the head of its queue, and
    the jobs of a run are settled in the order of their admission, each
    dispatched at most once. *)

From S2P Require Import Prelude Json Protocol JsMap LeaseAccount Retained RuntimeOwnership Errors Terminal Pipe ControlArbiter.

(** ** Resources *)

Definition reservation_lease (x : Reservation) : option (nat * Z) := match x with Lease l n => Some (l, n) | BackingUser _ => None end.

Definition reservation_handle (x : Reservation) : option nat := match x with Lease _ _ => None | BackingUser h => Some h end.

Definition leases_of (xs : list Reservation) : list (nat * Z) := omap reservation_lease xs.

Definition handles_of (xs : list Reservation) : list nat := omap reservation_handle xs.

Definition counter_leases (cs : jsmap SubscriptionRef Counter) : list (nat * Z) := map (fun sc => (ct_lease sc.2, 4096)) cs.

Definition queue_reservations (q : list Job) : list Reservation := q ≫= leases.

Definition run_leases (r : Run) : list (nat * Z) :=
  (r_lease r, 8192) :: counter_leases (counters r) ++ leases_of (queue_reservations (queue r)).

Definition run_handles (r : Run) : list nat := handles_of (queue_reservations (queue r)).

Definition arbiter_leases (a : ControlArbiter) : list (nat * Z) := jvalues (runs a) ≫= run_leases.

Definition arbiter_handles (a : ControlArbiter) : list nat := jvalues (runs a) ≫= run_handles.

(** ** The order of a run's jobs *)

Definition admitted_of (id : string) (e : Effect) : option nat :=
  match e with JobAdmitted i j => if decide (i = id) then Some j else None | _ => None end.

Definition settled_of (id : string) (e : Effect) : option nat :=
  match e with
  | Replied i j _ | Receipted i j _ => if decide (i = id) then Some j else None
  | _ => None
  end.

Definition sent_of (id : string) (e : Effect) : option nat :=
  match e with Dispatched i j _ _ => if decide (i = id) then Some j else None | _ => None end.

Definition admitted (id : string) (t : list Effect) : list nat := omap (admitted_of id) t.

Definition settled (id : string) (t : list Effect) : list nat := omap (settled_of id) t.

Definition sent (id : string) (t : list Effect) : list nat := omap (sent_of id) t.

Definition queued (id : string) (a : ControlArbiter) : list Job :=
  match jget id (runs a) with Some r => queue r | None => [] end.

Definition in_flight (q : list Job) : list Job := List.filter dispatched q.

(** ** The invariant *)

Definition undispatched (q : list Job) : Prop := Forall (fun j => dispatched j = false) q.

Definition head_is (p : Job -> Prop) (q : list Job) : Prop := exists j rest, q = j :: rest /\ p j /\ undispatched rest.

Definition control_job (d : option bool) (j : Job) : Prop :=
  is_program j = false /\ match d with Some d => dispatched j = d | None => True end.

Definition program_job (d : option bool) (j : Job) : Prop :=
  is_program j = true /\ match d with Some d => dispatched j = d | None => True end.

Definition phase_ok (r : Run) : Prop :=
  match phase r with
  | Idle | Executing | AwaitCleanup => undispatched (queue r)
  | AwaitStatus => head_is (control_job (Some false)) (queue r)
  | AwaitBoundary f =>
     head_is (control_job (Some false)) (queue r) /\ (f = Returned None -> is_Some (r_boundary r))
  | AwaitDispatch b =>
     head_is (control_job (Some true)) (queue r) /\ exists now, r_boundary r = Some now /\ b_atSeq b <= b_atSeq now
  | AwaitPerform _ => head_is (control_job None) (queue r)
  | AwaitProgramStatus | AwaitAccept =>
     head_is (program_job (Some false)) (queue r) /\ truthy (programFailure r) = false
  | AwaitProgramDispatch => head_is (program_job (Some true)) (queue r)
  | AwaitProgram _ => head_is (program_job None) (queue r)
  | AwaitRelease index b =>
     undispatched (queue r) /\ (index < length (counters r))%nat
     /\ exists now, r_boundary r = Some now /\ b_atSeq b <= b_atSeq now
  end.

Definition names_known (r : Run) : Prop :=
  forall j command context, j ∈ queue r -> job_kind j = Control command context ->
    is_Some (jget (cx_subscription context) (counters r)).

Record run_ok (id : string) (r : Run) : Prop := mk_run_ok {
  ro_id : run_runId (r_ref r) = id;
  ro_wf : jwf (counters r);
  ro_refs : forall s c, jget s (counters r) = Some c -> ct_ref c = s;
  ro_names : names_known r;
  ro_phase : phase_ok r;
  ro_failure : is_Some (programFailure r) -> existsb is_program (queue r) = true;
}.

Record ordered (id : string) (q : list Job) (t : list Effect) (next : nat) : Prop := mk_ordered {
  od_fifo : admitted id t = settled id t ++ map job_id q;
  od_sent : sublist (sent id t) (settled id t ++ map job_id (in_flight q));
  od_sorted : StronglySorted lt (admitted id t);
  od_next : Forall (fun j => (j < next)%nat) (admitted id t);
}.

Section invariant.
Context (budgets : EffectiveBudgets).

Definition counter_cap : Z := Z.max 0 (authenticatedSockets budgets * subscriptionsPerConnection budgets).

Record arbiter_ok (fl fh : Z) (a : ControlArbiter) : Prop := mk_arbiter_ok {
  ao_owns : owns fl fh (arbiter_leases a) (arbiter_handles a) (account a);
  ao_wf : jwf (runs a);
  ao_runs : forall id r, jget id (runs a) = Some r -> run_ok id r /\ zlen (counters r) <= counter_cap;
  ao_pending : pending a = lsum (fun r => zlen (queue r)) (jvalues (runs a));
  ao_limits : zlen (runs a) <= Z.max 0 (maxRuns budgets) /\ pending a <= Z.max 0 (pendingWorkerCommands budgets);
  ao_order : forall id, ordered id (queued id a) (trace a) (next_job a);
}.

(** ** Changing one run *)

(** What the ledger and the order read of a run. *)

Definition queue_sig (q : list Job) : list (nat * list Reservation * bool) := map (fun j => (job_id j, leases j, dispatched j)) q.

Record same_shape (r r' : Run) : Prop := mk_shape {
  sh_lease : r_lease r' = r_lease r;
  sh_counters : counter_leases (counters r') = counter_leases (counters r);
  sh_queue : queue_sig (queue r') = queue_sig (queue r);
}.

Lemma same_shape_refl r : same_shape r r.
Proof. done. Qed.

Lemma sig_ids q q' : queue_sig q' = queue_sig q -> map job_id q' = map job_id q.
Proof.
  intros E. assert (H : forall q, map job_id q = map (fun x => x.1.1) (queue_sig q)).
  { intros l. unfold queue_sig. by rewrite map_map. }
  by rewrite !H, E.
Qed.

Lemma sig_reservations q q' : queue_sig q' = queue_sig q -> queue_reservations q' = queue_reservations q.
Proof.
  revert q'. induction q as [|j q IH]; intros [|j' q'] E; try done. injection E as E1 E2 E3 E.
  unfold queue_reservations. cbn [mbind list_bind]. rewrite E2. f_equal. by apply IH.
Qed.

Lemma sig_in_flight q q' : queue_sig q' = queue_sig q -> map job_id (in_flight q') = map job_id (in_flight q).
Proof.
  revert q'. induction q as [|j q IH]; intros [|j' q'] E; try done. injection E as E1 E2 E3 E.
  unfold in_flight. cbn [List.filter]. rewrite E3. fold (in_flight q) (in_flight q').
  destruct (dispatched j); cbn [map]; rewrite (IH q' E); [by rewrite E1 | done].
Qed.

Lemma sig_length q q' : queue_sig q' = queue_sig q -> zlen q' = zlen q.
Proof. intros E. rewrite <- (zlen_map job_id q'), <- (zlen_map job_id q). by rewrite (sig_ids _ _ E). Qed.

Lemma shape_leases r r' : same_shape r r' -> run_leases r' = run_leases r /\ run_handles r' = run_handles r.
Proof.
  intros [H1 H2 H3]. unfold run_leases, run_handles. by rewrite H1, H2, (sig_reservations _ _ H3).
Qed.

Lemma shape_counters r r' : same_shape r r' -> zlen (counters r') = zlen (counters r).
Proof.
  intros [_ H _]. unfold counter_leases in H.
  rewrite <- (zlen_map (fun sc : SubscriptionRef * Counter => (ct_lease sc.2, 4096)) (counters r')).
  by rewrite H, zlen_map.
Qed.

(** The arbiter's resources, with those of one run in front. *)

Lemma values_bind {B} (f : Run -> list B) id r r' (m : jsmap string Run) : jget id m = Some r ->
  exists rest, jvalues m ≫= f ≡ₚ f r ++ rest /\ jvalues (jset id r' m) ≫= f ≡ₚ f r' ++ rest
    /\ (jwf m -> jvalues (jdelete id m) ≫= f ≡ₚ rest).
Proof.
  intros E. destruct (jset_split id r r' m E) as (m1 & m2 & Hm & Hs).
  exists ((jvalues m1 ≫= f) ++ (jvalues m2 ≫= f)). split_and!.
  - rewrite Hm. unfold jvalues. rewrite fmap_app, bind_app. cbn. rewrite !app_assoc. apply Permutation_app_tail.
    apply Permutation_app_comm.
  - rewrite Hs. unfold jvalues. rewrite fmap_app, bind_app. cbn. rewrite !app_assoc. apply Permutation_app_tail.
    apply Permutation_app_comm.
  - intros Hwf. rewrite <- bind_app. unfold jvalues. rewrite <- fmap_app.
    destruct (jdelete_split id r m Hwf E) as (k1 & k2 & Hk & Hd). rewrite Hd.
    assert (Hp : k1 ++ (id, r) :: k2 ≡ₚ m1 ++ (id, r) :: m2) by (by rewrite <- Hk, <- Hm).
    rewrite <- !Permutation_middle in Hp. apply Permutation_cons_inv in Hp. by rewrite Hp.
Qed.

Lemma runs_lookup id r a : jget id (runs a) = Some r -> queued id a = queue r.
Proof. unfold queued. by intros ->. Qed.

(** The arbiter after run [id] became [r'], with the new account, count and trace. *)

Lemma arb_update_ok fl fh a id r r' s n nx t : arbiter_ok fl fh a -> jget id (runs a) = Some r ->
  run_ok id r' -> zlen (counters r') <= counter_cap ->
  (forall L H, owns fl fh (run_leases r ++ L) (run_handles r ++ H) (account a) ->
               owns fl fh (run_leases r' ++ L) (run_handles r' ++ H) s) ->
  n = pending a - zlen (queue r) + zlen (queue r') -> n <= Z.max 0 (pendingWorkerCommands budgets) ->
  ordered id (queue r') t nx -> (forall k, k <> id -> ordered k (queued k a) t nx) ->
  arbiter_ok fl fh (mkArbiter (jset id r' (runs a)) n (disposed a) s nx t).
Proof.
  intros [I1 I2 I3 I4 I5 I6] Hr Hok Hcap Howns Hn Hmax Hord Hothers.
  destruct (values_bind run_leases id r r' _ Hr) as (rl & L1 & L2 & _).
  destruct (values_bind run_handles id r r' _ Hr) as (rh & K1 & K2 & _).
  constructor; cbn [runs pending account trace next_job].
  - unfold arbiter_leases, arbiter_handles in *. cbn [runs].
    eapply owns_proper; [exact L2 | exact K2 | reflexivity |]. apply Howns.
    eapply owns_proper; [symmetry; exact L1 | symmetry; exact K1 | reflexivity | exact I1].
  - by apply jwf_set.
  - intros k x. rewrite jget_set. case_decide as Hk; [| by apply I3]. intros [= <-]. by subst k.
  - rewrite (jsum_set_old _ _ _ _ _ Hr). lia.
  - rewrite jset_size_old by eauto. split; [lia | done].
  - intros k. unfold queued in *. cbn [runs]. rewrite jget_set. case_decide as Hk; [by subst k | by apply Hothers].
Qed.

(** Replaces the run [id], its shape kept. *)

Lemma replace_ok fl fh a id r r' : arbiter_ok fl fh a -> jget id (runs a) = Some r ->
  run_ok id r' -> same_shape r r' -> arbiter_ok fl fh (set_runs (jset id r' (runs a)) a).
Proof.
  intros Ha Hr Hok Hsh. destruct (shape_leases _ _ Hsh) as [Hl Hh]. eapply arb_update_ok; try done.
  - rewrite (shape_counters _ _ Hsh). apply (ao_runs _ _ _ Ha _ _ Hr).
  - by rewrite Hl, Hh.
  - rewrite (sig_length _ _ (sh_queue _ _ Hsh)). lia.
  - apply (ao_limits _ _ _ Ha).
  - pose proof (ao_order _ _ _ Ha id) as [H1 H2 H3 H4]. rewrite (runs_lookup _ _ _ Hr) in *. constructor; try done.
    + by rewrite (sig_ids _ _ (sh_queue _ _ Hsh)).
    + by rewrite (sig_in_flight _ _ (sh_queue _ _ Hsh)).
  - intros k _. apply (ao_order _ _ _ Ha).
Qed.

Lemma modify_ok fl fh a id f : arbiter_ok fl fh a ->
  (forall r, jget id (runs a) = Some r -> run_ok id r -> run_ok id (f r) /\ same_shape r (f r)) ->
  arbiter_ok fl fh (modify id f a).
Proof.
  intros Hok Hf. unfold modify. destruct (jget id (runs a)) as [r|] eqn:Hr; [| done].
  destruct (Hf r eq_refl (proj1 (ao_runs _ _ _ Hok _ _ Hr))) as [H1 H2]. by eapply replace_ok.
Qed.

Lemma jget_modify id f a k : jget k (runs (modify id f a)) = if decide (k = id) then f <$> jget id (runs a) else jget k (runs a).
Proof.
  unfold modify. destruct (jget id (runs a)) as [r|] eqn:Hr.
  - cbn [runs set_runs]. rewrite jget_set. by case_decide.
  - case_decide as Hk; [by subst k | done].
Qed.

(** A status read or a release changes nothing the order reads. *)

Definition quiet (e : Effect) : Prop := match e with StatusRead _ _ | ControlReleased _ _ | AcceptCalled _ _ => True | _ => False end.

Lemma order_quiet id q t n e : quiet e -> ordered id q t n -> ordered id q (t ++ [e]) n.
Proof.
  intros He [H1 H2 H3 H4].
  assert (E : admitted id (t ++ [e]) = admitted id t /\ settled id (t ++ [e]) = settled id t /\ sent id (t ++ [e]) = sent id t).
  { unfold admitted, settled, sent. rewrite !omap_snoc. destruct e; try done; cbn; by rewrite !app_nil_r. }
  destruct E as (E1 & E2 & E3). constructor; rewrite ?E1, ?E2, ?E3; done.
Qed.

Lemma emit_ok fl fh a e : quiet e -> arbiter_ok fl fh a -> arbiter_ok fl fh (emit e a).
Proof. intros He [I1 I2 I3 I4 I5 I6]. constructor; try done. intros id. apply order_quiet; [done | apply I6]. Qed.

(** ** Dispatching and settling the head *)

Lemma ordered_other k id q t n e : k <> id ->
  match e with JobAdmitted i _ | Replied i _ _ | Receipted i _ _ | Dispatched i _ _ _ => i = id | _ => True end ->
  ordered k q t n -> ordered k q (t ++ [e]) n.
Proof.
  intros Hk He [H1 H2 H3 H4].
  assert (E : admitted k (t ++ [e]) = admitted k t /\ settled k (t ++ [e]) = settled k t /\ sent k (t ++ [e]) = sent k t).
  { unfold admitted, settled, sent. rewrite !omap_snoc.
    destruct e; cbn [admitted_of settled_of sent_of]; try subst; rewrite ?decide_False by congruence; by rewrite !app_nil_r. }
  destruct E as (E1 & E2 & E3). constructor; rewrite ?E1, ?E2, ?E3; done.
Qed.

Lemma in_flight_none q : undispatched q -> in_flight q = [].
Proof. intros Hq. by apply filter_none. Qed.

Lemma dispatch_ok fl fh a id r j rest p c bytes : arbiter_ok fl fh a -> jget id (runs a) = Some r ->
  queue r = j :: rest -> dispatched j = false -> undispatched rest ->
  run_ok id (set_phase p (mark_dispatched r)) ->
  arbiter_ok fl fh (suspend id p (emit (Dispatched id (job_id j) c bytes) (modify id mark_dispatched a))).
Proof.
  intros Ha Hr Hq Hj Hrest Hok.
  unfold suspend, modify at 2. rewrite Hr. unfold modify. cbn [runs emit set_runs].
  rewrite jget_set, decide_True by done. rewrite jset_set. unfold set_runs. cbn [runs pending disposed account next_job trace emit].
  eapply arb_update_ok; try done.
  - unfold mark_dispatched. rewrite Hq. apply (ao_runs _ _ _ Ha _ _ Hr).
  - intros L H. unfold mark_dispatched, run_leases, run_handles. rewrite Hq. done.
  - unfold mark_dispatched. rewrite Hq. cbn [queue set_phase set_queue]. rewrite !zlen_cons. lia.
  - apply (ao_limits _ _ _ Ha).
  - pose proof (ao_order _ _ _ Ha id) as [H1 H2 H3 H4]. rewrite (runs_lookup _ _ _ Hr), Hq in *.
    unfold mark_dispatched. rewrite Hq. cbn [queue set_phase set_queue]. unfold in_flight in H2. cbn [List.filter] in H2.
    rewrite Hj in H2. fold (in_flight rest) in H2. rewrite (in_flight_none _ Hrest) in H2.
    constructor; unfold admitted, settled, sent in *; rewrite ?omap_snoc; cbn [admitted_of settled_of sent_of]; rewrite ?app_nil_r; try done.
    rewrite decide_True by done. unfold in_flight. cbn [List.filter set_dispatched dispatched]. fold (in_flight rest).
    rewrite (in_flight_none _ Hrest). cbn [map job_id]. rewrite app_nil_r in H2. by apply sublist_app.
  - intros k Hk. by apply (ordered_other k id), (ao_order _ _ _ Ha).
Qed.

Lemma omap_cons {A B} (f : A -> option B) x l : omap f (x :: l) = match f x with Some y => y :: omap f l | None => omap f l end.
Proof. done. Qed.

(** Giving back a job's reservations, whichever they are. *)

Lemma owns_release_reservations fl fh L H xs s :
  owns fl fh (leases_of xs ++ L) (handles_of xs ++ H) s -> owns fl fh L H (release_reservations xs s).
Proof.
  revert s. induction xs as [|x xs IH]; intros s Ho; [done |].
  unfold release_reservations. cbn [foldl]. apply IH. unfold leases_of, handles_of in *. rewrite !omap_cons in Ho.
  destruct x as [l n|h]; cbn [reservation_lease reservation_handle app release_reservation] in *.
  - by eapply owns_release.
  - by apply owns_releaseBacking.
Qed.

Lemma queue_reservations_cons j q : queue_reservations (j :: q) = leases j ++ queue_reservations q.
Proof. done. Qed.

Lemma owns_shift fl fh r r' j rest L H s : queue r = j :: rest -> queue r' = rest -> r_lease r' = r_lease r ->
  counters r' = counters r ->
  owns fl fh (run_leases r ++ L) (run_handles r ++ H) s ->
  owns fl fh (run_leases r' ++ L) (run_handles r' ++ H) (release_reservations (leases j) s).
Proof.
  intros Hq Hq' Hl Hc Ho. apply owns_release_reservations. unfold run_leases, run_handles in *.
  rewrite Hq, queue_reservations_cons in Ho. rewrite Hq', Hl, Hc. unfold leases_of, handles_of in *. rewrite !omap_app in Ho.
  eapply owns_proper; [| | reflexivity | exact Ho].
  - cbn [app]. rewrite <- Permutation_middle. apply perm_skip. rewrite <- !app_assoc. rewrite !app_assoc.
    do 2 apply Permutation_app_tail. apply Permutation_app_comm.
  - by rewrite app_assoc.
Qed.

Lemma settle_ok fl fh a id r r0 j rest e : arbiter_ok fl fh a -> jget id (runs a) = Some r ->
  queue r = j :: rest -> undispatched rest -> r_lease r0 = r_lease r -> counters r0 = counters r ->
  run_ok id (set_phase Executing (set_queue rest r0)) ->
  match e with Replied i k _ | Receipted i k _ => i = id /\ k = job_id j | _ => False end ->
  arbiter_ok fl fh (emit e (shift_job id r0 j rest a)).
Proof.
  intros Ha Hr Hq Hrest Hl Hc Hok He. unfold shift_job, emit. cbn [runs pending disposed account next_job trace].
  pose proof (ao_limits _ _ _ Ha) as [_ Hmax]. eapply arb_update_ok; try done.
  - cbn [counters set_phase set_queue]. rewrite Hc. apply (ao_runs _ _ _ Ha _ _ Hr).
  - intros L H Ho. by eapply (owns_shift _ _ r).
  - cbn [queue set_phase set_queue]. rewrite Hq, zlen_cons. lia.
  - lia.
  - pose proof (ao_order _ _ _ Ha id) as [H1 H2 H3 H4]. rewrite (runs_lookup _ _ _ Hr), Hq in *.
    cbn [queue set_phase set_queue].
    assert (E : admitted id (trace a ++ [e]) = admitted id (trace a)
        /\ settled id (trace a ++ [e]) = settled id (trace a) ++ [job_id j] /\ sent id (trace a ++ [e]) = sent id (trace a)).
    { unfold admitted, settled, sent. rewrite !omap_snoc.
      destruct e; try done; destruct He as [-> ->]; cbn [admitted_of settled_of sent_of]; rewrite decide_True by done; by rewrite !app_nil_r. }
    destruct E as (E1 & E2 & E3). constructor; rewrite ?E1, ?E2, ?E3; try done.
    + rewrite H1. cbn [map]. by rewrite <- app_assoc.
    + etrans; [exact H2 |]. rewrite (in_flight_none _ Hrest). unfold in_flight. cbn [List.filter]. fold (in_flight rest).
      rewrite (in_flight_none _ Hrest). rewrite app_nil_r. destruct (dispatched j); cbn [map app]; [done |].
      rewrite app_nil_r. by apply sublist_inserts_r.
  - intros k Hk. apply (ordered_other k id); [done | | apply (ao_order _ _ _ Ha)].
    destruct e; try done; by destruct He as [-> _].
Qed.

(** ** Dropping retired counters, and the run *)

Lemma owns_release_counters fl fh (gone : jsmap SubscriptionRef Counter) L H s :
  owns fl fh (counter_leases gone ++ L) H s -> owns fl fh L H (foldl (fun s sc => B.release (ct_lease sc.2) s) s gone).
Proof.
  revert s. induction gone as [|[k c] gone IH]; intros s Ho; [done |]. cbn [foldl]. apply IH.
  eapply (owns_release _ _ _ _ _ _ 4096). exact Ho.
Qed.

Lemma filter_split {A} (p : A -> bool) l : l ≡ₚ List.filter p l ++ List.filter (fun x => negb (p x)) l.
Proof.
  induction l as [|x l IH]; [done |]. cbn. destruct (p x); cbn; [by rewrite <- IH |].
  rewrite <- Permutation_middle. by rewrite <- IH.
Qed.

Lemma names_counter_true s j command context : job_kind j = Control command context ->
  cx_subscription context = s -> names_counter s j = true.
Proof. unfold names_counter. intros ->. intros ->. by apply bool_decide_eq_true_2. Qed.

Lemma arb_prune_ok fl fh a id : arbiter_ok fl fh a -> arbiter_ok fl fh (prune id a).
Proof.
  intros Ha. unfold prune. destruct (disposed a) eqn:Hd; [done |]. destruct (jget id (runs a)) as [r|] eqn:Hr; [| done].
  destruct (running r) eqn:Hrun; [done |]. cbv zeta.
  set (p := fun sc : SubscriptionRef * Counter => prunable r sc.1 sc.2).
  set (kept := List.filter (fun sc => negb (p sc)) (counters r)).
  destruct (ao_runs _ _ _ Ha _ _ Hr) as [[R1 R2 R3 R4 R5 R6] Hcap].
  unfold set_account, set_runs. cbn [runs pending disposed account next_job trace]. eapply arb_update_ok; try done.
  - constructor; cbn [r_ref counters queue phase set_counters]; try done.
    + by apply jwf_filter.
    + intros s c Hs. apply jget_filter in Hs as [Hs _]; [| done]. by apply R3.
    + intros j command context Hj Hk. cbn [queue set_counters counters] in *. destruct (R4 j command context Hj Hk) as [c Hc].
      exists c. apply jget_filter; [done |]. split; [done |]. unfold p, prunable. cbn [fst snd].
      assert (E : existsb (names_counter (cx_subscription context)) (queue r) = true).
      { apply existsb_exists. exists j. split; [by apply list_elem_of_In | by eapply names_counter_true]. }
      rewrite E. cbn. by rewrite andb_false_r.
    + unfold phase_ok in *. cbn [phase queue set_counters counters r_boundary]. unfold running in Hrun. by destruct (phase r).
  - cbn [counters set_counters]. etrans; [| exact Hcap]. apply zlen_sublist, filter_sublist.
  - intros L H Ho. apply owns_release_counters. unfold run_leases, run_handles in *.
    cbn [r_lease counters queue set_counters]. eapply owns_proper; [| reflexivity | reflexivity | exact Ho].
    assert (Hp : counter_leases (counters r) ≡ₚ counter_leases (List.filter p (counters r)) ++ counter_leases kept).
    { unfold counter_leases. rewrite <- map_app. apply Permutation_map. apply filter_split. }
    cbn [app]. rewrite Hp. rewrite <- Permutation_middle. apply perm_skip. by rewrite !app_assoc.
  - cbn [queue set_counters]. lia.
  - apply (ao_limits _ _ _ Ha).
  - cbn [queue set_counters]. rewrite <- (runs_lookup _ _ _ Hr). apply (ao_order _ _ _ Ha).
  - intros k _. apply (ao_order _ _ _ Ha).
Qed.

Lemma foldl_values s (m : jsmap SubscriptionRef Counter) :
  foldl (fun s c => B.release (ct_lease c) s) s (jvalues m) = foldl (fun s sc => B.release (ct_lease sc.2) s) s m.
Proof. revert s. induction m as [|[k c] m IH]; intros s; [done |]. cbn [jvalues fmap list_fmap foldl]. apply IH. Qed.

Lemma release_run_ok fl fh a id : arbiter_ok fl fh a -> queued id a = [] -> arbiter_ok fl fh (release_run id a).
Proof.
  intros Ha Hq. unfold release_run. destruct (jget id (runs a)) as [r|] eqn:Hr; [| done].
  rewrite (runs_lookup _ _ _ Hr) in Hq. destruct Ha as [I1 I2 I3 I4 I5 I6].
  destruct (values_bind run_leases id r r _ Hr) as (rl & L1 & _ & L3).
  destruct (values_bind run_handles id r r _ Hr) as (rh & K1 & _ & K3).
  cbv zeta. rewrite foldl_values. constructor; cbn [runs pending account trace next_job set_account set_runs].
  - unfold arbiter_leases, arbiter_handles in *. cbn [runs set_account set_runs].
    eapply owns_proper; [exact (L3 I2) | exact (K3 I2) | reflexivity |].
    assert (Ho : owns fl fh (run_leases r ++ rl) (run_handles r ++ rh) (account a)).
    { eapply owns_proper; [symmetry; exact L1 | symmetry; exact K1 | reflexivity | exact I1]. }
    unfold run_leases, run_handles in Ho. rewrite Hq in Ho. cbn in Ho. rewrite app_nil_r in Ho.
    eapply owns_release. apply owns_release_counters.
    eapply owns_proper; [| reflexivity | reflexivity | exact Ho]. cbn [app]. by rewrite <- Permutation_middle.
  - by apply jwf_delete.
  - intros k x Hk. apply (I3 k x). rewrite jget_delete in Hk by done. by case_decide.
  - rewrite (jsum_delete _ _ _ _ I2 Hr), Hq, zlen_nil. lia.
  - pose proof (jdelete_size id (runs a)). split; [| apply I5]. etrans; [exact H | apply I5].
  - intros k. specialize (I6 k). unfold queued in *. cbn [runs set_account set_runs]. rewrite jget_delete by done.
    case_decide as Hk; [| done]. subst k. by rewrite Hr, Hq in I6.
Qed.

(** ** The loop *)

Lemma suspend_ok fl fh a id r p : arbiter_ok fl fh a -> jget id (runs a) = Some r ->
  phase_ok (set_phase p r) -> arbiter_ok fl fh (suspend id p a).
Proof.
  intros Ha Hr Hp. apply modify_ok; [done |]. intros r' Hr' [R1 R2 R3 R4 R5 R6].
  rewrite Hr in Hr'. injection Hr' as <-. split; [by constructor | done].
Qed.

Lemma emit_runs e a : runs (emit e a) = runs a.
Proof. done. Qed.

Lemma head_is_intro (p : Job -> Prop) j rest : p j -> undispatched rest -> head_is p (j :: rest).
Proof. intros. by exists j, rest. Qed.

(** Two states of a run that the start of a job does not tell apart. *)

Definition alike (r r' : Run) : Prop :=
  queue r' = queue r /\ r_boundary r' = r_boundary r /\ programFailure r' = programFailure r.

Lemma start_job_ok fl fh w id r r' j rest a : arbiter_ok fl fh a -> jget id (runs a) = Some r' -> alike r r' ->
  queue r = j :: rest -> undispatched (queue r) -> arbiter_ok fl fh (start_job w id r j a).
Proof.
  intros Ha Hr (A1 & A2 & A3) Hq Hu. rewrite Hq in Hu. apply Forall_cons in Hu as [Hj Hrest].
  assert (Hc : is_program j = false -> head_is (control_job (Some false)) (queue r')).
  { intros. rewrite A1, Hq. by apply head_is_intro. }
  assert (Hc' : is_program j = false -> head_is (control_job None) (queue r')).
  { intros. rewrite A1, Hq. by apply head_is_intro. }
  assert (Hp : is_program j = true -> head_is (program_job (Some false)) (queue r')).
  { intros. rewrite A1, Hq. by apply head_is_intro. }
  assert (Hp' : is_program j = true -> head_is (program_job None) (queue r')).
  { intros. rewrite A1, Hq. by apply head_is_intro. }
  unfold start_job, is_program in *. destruct (job_kind j) as [command context|command cancelled acc].
  - unfold start_perform. case_if; [by eapply suspend_ok; [| | apply Hc'] |].
    case_if; [by eapply suspend_ok; [| | apply Hc'] |].
    destruct (r_boundary r) as [b|] eqn:Hb; [case_if |].
    + eapply suspend_ok; [done | done |]. split; [by apply Hc |]. intros _. cbn. rewrite A2. eauto.
    + eapply suspend_ok; [by apply emit_ok | done | by apply Hc].
    + eapply suspend_ok; [by apply emit_ok | done | by apply Hc].
  - unfold start_program. destruct (truthy cancelled || truthy (programFailure r)) eqn:Ht;
      [by eapply suspend_ok; [| | apply Hp'] |].
    case_if; [by eapply suspend_ok; [| | apply Hp'] |].
    eapply suspend_ok; [by apply emit_ok | done |]. apply orb_false_iff in Ht as [_ Ht].
    split; [by apply Hp |]. cbn. by rewrite A3.
Qed.

Lemma modify_counter_ok id s f r : (forall c, ct_lease (f c) = ct_lease c /\ ct_ref (f c) = ct_ref c) ->
  run_ok id r -> run_ok id (modify_counter s f r) /\ same_shape r (modify_counter s f r).
Proof.
  intros Hf [R1 R2 R3 R4 R5 R6]. unfold modify_counter. destruct (jget s (counters r)) as [c|] eqn:Hc; [| done].
  destruct (Hf c) as [Hl Href].
  assert (Hlen : length (jset s (f c) (counters r)) = length (counters r)).
  { pose proof (jset_size_old s (f c) (counters r) ltac:(eauto)) as H. unfold zlen in H. lia. }
  split; constructor; cbn; try done.
  - by apply jwf_set.
  - intros k x. rewrite jget_set. case_decide as Hk; [| apply R3]. intros [= <-]. subst k. rewrite Href. by apply R3.
  - intros j command context Hj Hk. cbn [counters set_counters queue] in *. rewrite jget_set.
    case_decide; [eauto |]. by apply (R4 j command).
  - unfold phase_ok in *. cbn. rewrite Hlen. exact R5.
  - destruct (jset_split s c (f c) (counters r) Hc) as (m1 & m2 & -> & ->). unfold counter_leases.
    rewrite !map_app. cbn. by rewrite Hl.
Qed.

(** What [cleanup] needs of the run it works on. *)

Definition cleaning (id : string) (n : nat) (a : ControlArbiter) : Prop :=
  exists r, jget id (runs a) = Some r /\ undispatched (queue r) /\ length (counters r) = n.

Lemma cleaning_modify id s f n a : cleaning id n a ->
  (forall c, ct_lease (f c) = ct_lease c /\ ct_ref (f c) = ct_ref c) -> cleaning id n (modify id (modify_counter s f) a).
Proof.
  intros (r & Hr & Hu & Hn) Hf. exists (modify_counter s f r). rewrite jget_modify, decide_True, Hr by done.
  split; [done |]. unfold modify_counter. destruct (jget s (counters r)) as [c|] eqn:Hc; [| done]. cbn. split; [done |].
  pose proof (jset_size_old s (f c) (counters r) ltac:(eauto)) as H. unfold zlen in H. lia.
Qed.

Lemma keep_cleanup x c : ct_lease (set_cleanup x c) = ct_lease c /\ ct_ref (set_cleanup x c) = ct_ref c.
Proof. done. Qed.

Lemma cleanup_scan_ok fl fh w id rest index a : arbiter_ok fl fh a -> cleaning id (index + length rest) a ->
  arbiter_ok fl fh (cleanup_scan w id rest index a).
Proof.
  revert index a. induction rest as [|[s c] rest IH]; intros index a Ha (r & Hr & Hu & Hn); cbn [cleanup_scan].
  - by eapply suspend_ok.
  - cbn [length] in Hn. replace (index + S (length rest))%nat with (S index + length rest)%nat in Hn by lia.
    assert (Hcl : cleaning id (S index + length rest) a) by (by exists r).
    case_if; [by apply IH |]. rewrite Hr.
    assert (Hdrop : arbiter_ok fl fh (cleanup_scan w id rest (S index) (modify id (modify_counter s (set_cleanup cl_none)) a))).
    { apply IH; [| by apply cleaning_modify]. apply modify_ok; [done |]. intros. by apply modify_counter_ok. }
    destruct (r_boundary r) as [b|] eqn:Hb; [| done]. case_if; [done |]. case_if; [by apply IH |].
    destruct (w_placement w (r_ref r)) as [worker|]; [| by apply IH]. case_if; [by apply IH |].
    eapply suspend_ok; [by apply emit_ok | done |]. unfold phase_ok. cbn. split_and!; [done | lia |].
    exists b. split; [done | lia].
Qed.

Lemma cleanup_from_ok fl fh w id index n a : arbiter_ok fl fh a -> cleaning id n a -> (index <= n)%nat ->
  arbiter_ok fl fh (cleanup_from w id index a).
Proof.
  intros Ha (r & Hr & Hu & Hn) Hi. unfold cleanup_from. rewrite Hr. apply cleanup_scan_ok; [done |].
  exists r. split_and!; [done | done |]. rewrite length_drop. lia.
Qed.

Lemma finish_drain_ok fl fh w id r a : arbiter_ok fl fh a -> jget id (runs a) = Some r -> undispatched (queue r) ->
  arbiter_ok fl fh (finish_drain w id a).
Proof.
  intros Ha Hr Hu. unfold finish_drain. cbv zeta.
  assert (Hs : arbiter_ok fl fh (suspend id Idle a)) by (by eapply suspend_ok).
  assert (Hrs : jget id (runs (suspend id Idle a)) = Some (set_phase Idle r)).
  { unfold suspend. by rewrite jget_modify, decide_True, Hr. }
  rewrite Hrs. cbn [queue set_phase]. destruct (queue r) as [|j rest] eqn:Hq.
  - destruct (disposed _); cbn [andb]; [| by apply arb_prune_ok]. apply release_run_ok; [done |].
    by rewrite (runs_lookup _ _ _ Hrs).
  - rewrite andb_false_r. case_if; [| by apply arb_prune_ok].
    eapply (start_job_ok _ _ _ _ (set_phase Idle r) (set_phase Executing (set_phase Idle r)) j rest); [| | done | done |].
    + eapply suspend_ok; [done | exact Hrs | unfold phase_ok; cbn; by rewrite Hq].
    + unfold suspend at 1. by rewrite jget_modify, decide_True, Hrs.
    + cbn. by rewrite Hq.
Qed.

Lemma drain_loop_ok fl fh w id r a : arbiter_ok fl fh a -> jget id (runs a) = Some r -> undispatched (queue r) ->
  arbiter_ok fl fh (drain_loop w id a).
Proof.
  intros Ha Hr Hu. unfold drain_loop. rewrite Hr. destruct (queue r) as [|j rest] eqn:Hq.
  - eapply (cleanup_from_ok _ _ _ _ _ (length (counters r))); [done | | lia]. exists r. by rewrite Hq.
  - case_if; [eapply start_job_ok; try done; by rewrite Hq |]. eapply finish_drain_ok; [done | done |]. by rewrite Hq.
Qed.

Lemma drain_ok fl fh w id a : arbiter_ok fl fh a -> arbiter_ok fl fh (drain w id a).
Proof.
  intros Ha. unfold drain. destruct (jget id (runs a)) as [r|] eqn:Hr; [| done]. destruct (running r) eqn:Hrun; [done |].
  assert (Hu : undispatched (queue r)).
  { pose proof (ro_phase _ _ (proj1 (ao_runs _ _ _ Ha _ _ Hr))) as Hp. unfold running, phase_ok in *. by destruct (phase r). }
  eapply (drain_loop_ok _ _ _ _ (set_phase Executing r)); [by eapply suspend_ok | | done].
  unfold suspend. by rewrite jget_modify, decide_True, Hr.
Qed.

(** ** Resuming *)

Lemma names_tail r j rest : names_known r -> queue r = j :: rest ->
  forall i command context, i ∈ rest -> job_kind i = Control command context -> is_Some (jget (cx_subscription context) (counters r)).
Proof. intros Hn Hq i command context Hi Hk. eapply (Hn i command context); [| done]. rewrite Hq. by right. Qed.

Lemma lookup_after_settle id r0 j rest e a : jget id (runs a) = Some r0 \/ True ->
  jget id (runs (emit e (shift_job id r0 j rest a))) = Some (set_phase Executing (set_queue rest r0)).
Proof. intros _. unfold emit, shift_job. cbn [runs]. rewrite jget_set. by rewrite decide_True. Qed.

Lemma settle_control_ok fl fh w id x r a : arbiter_ok fl fh a -> jget id (runs a) = Some r -> phase r = AwaitPerform x ->
  arbiter_ok fl fh (settle_control w id x a).
Proof.
  intros Ha Hr Hp. destruct (proj1 (ao_runs _ _ _ Ha _ _ Hr)) as [R1 R2 R3 R4 R5 R6]. unfold phase_ok in R5. rewrite Hp in R5.
  destruct R5 as (j & rest & Hq & [Hj _] & Hrest). unfold settle_control. rewrite Hr, Hq.
  unfold is_program in Hj. destruct (job_kind j) as [command context|] eqn:Hk; [| done].
  set (pair := match x with Returned answer => _ | Threw => _ end).
  assert (Hpair : exists r0 rep, pair = (r0, rep) /\ (r0 = r \/ r0 = set_uncertain true r)).
  { unfold pair. destruct x; eauto. }
  destruct Hpair as (r0 & rep & -> & Hr0). eapply drain_loop_ok; [| by apply lookup_after_settle; right | done].
  eapply settle_ok; try done; [by destruct Hr0 as [->| ->] | by destruct Hr0 as [->| ->] |].
  assert (Hf : is_Some (programFailure r) -> existsb is_program rest = true).
  { intros Hf%R6. rewrite Hq in Hf. cbn in Hf. unfold is_program in Hf at 1. by rewrite Hk in Hf. }
  destruct Hr0 as [->| ->]; constructor; cbn; try done; exact (names_tail r j rest R4 Hq).
Qed.

Lemma settle_program_ok fl fh w id x r a : arbiter_ok fl fh a -> jget id (runs a) = Some r -> phase r = AwaitProgram x ->
  arbiter_ok fl fh (settle_program w id x a).
Proof.
  intros Ha Hr Hp. destruct (proj1 (ao_runs _ _ _ Ha _ _ Hr)) as [R1 R2 R3 R4 R5 R6]. unfold phase_ok in R5. rewrite Hp in R5.
  destruct R5 as (j & rest & Hq & [Hj _] & Hrest). unfold settle_program. rewrite Hr, Hq.
  unfold is_program in Hj. destruct (job_kind j) as [|command cancelled acc] eqn:Hk; [done |]. cbv zeta.
  eapply drain_loop_ok; [| by apply lookup_after_settle; right | done].
  eapply settle_ok; try done. constructor; cbn; try done; [exact (names_tail r j rest R4 Hq) |].
  destruct (existsb is_program rest); [done |]. by intros [? ?].
Qed.


(** A phase whose head is the same job. *)

Lemma modify_suspend id f p a r : jget id (runs a) = Some r ->
  jget id (runs (modify id f a)) = Some (f r) /\ suspend id p (modify id f a) = modify id (fun r => set_phase p (f r)) a.
Proof.
  intros Hr. rewrite jget_modify, decide_True, Hr by done. split; [done |].
  unfold suspend, modify. rewrite Hr. cbn [runs set_runs]. rewrite jget_set, decide_True by done.
  rewrite jset_set. done.
Qed.

Lemma run_fields id r b u p : run_ok id r ->
  phase_ok (set_phase p (set_uncertain u (set_boundary b r))) ->
  run_ok id (set_phase p (set_uncertain u (set_boundary b r))).
Proof. intros [R1 R2 R3 R4 R5 R6] Hp. by constructor. Qed.

Lemma status_ok fl fh w id result r j rest command context a : arbiter_ok fl fh a -> jget id (runs a) = Some r ->
  queue r = j :: rest -> control_job (Some false) j -> undispatched rest ->
  arbiter_ok fl fh (resume_status w id result r command context a).
Proof.
  intros Ha Hr Hq Hj Hu. pose proof (proj1 (ao_runs _ _ _ Ha _ _ Hr)) as Hok.
  assert (Hh : head_is (control_job (Some false)) (queue r)) by (exists j, rest; done).
  assert (Hfail : forall f, f <> Returned None -> arbiter_ok fl fh (suspend id (AwaitBoundary f) a)).
  { intros f Hf. eapply suspend_ok; [done | done |]. by split. }
  unfold resume_status. destruct result as [result|]; [| by apply Hfail]. cbv zeta. case_if; [by apply Hfail |].
  destruct result as [res|e]; [| by apply Hfail]. destruct (live_status _) as [[status parsed]|]; [| by apply Hfail].
  destruct (match r_boundary r with Some b => _ | None => _ end) eqn:Hs; [by apply Hfail |].
  destruct (modify_suspend id (fun r => set_uncertain false (set_boundary (status_boundary status parsed) r))
    (AwaitBoundary (Returned None)) a r Hr) as [_ ->].
  apply modify_ok; [done |]. intros r' Hr' Hok'. rewrite Hr in Hr'. injection Hr' as <-. split; [| done].
  apply run_fields; [done |]. split; [done |]. intros _. by eexists.
Qed.

Lemma boundary_ok fl fh w id failure r j rest command context a : arbiter_ok fl fh a -> jget id (runs a) = Some r ->
  queue r = j :: rest -> control_job (Some false) j -> undispatched rest -> 
  arbiter_ok fl fh (resume_boundary w id failure r j command context a).
Proof.
  intros Ha Hr Hq Hj Hu. pose proof (proj1 (ao_runs _ _ _ Ha _ _ Hr)) as Hok.
  assert (Hfail : forall x, arbiter_ok fl fh (suspend id (AwaitPerform x) a)).
  { intros x. eapply suspend_ok; [done | done |]. exists j, rest. split_and!; [done | | done]. split; [apply Hj | done]. }
  unfold resume_boundary. cbv zeta. destruct failure as [[e|]|]; [apply Hfail | | apply Hfail]. case_if; [apply Hfail |].
  destruct (r_boundary r) as [b|] eqn:Hb; [| done]. destruct (jget _ (counters r)) as [c|]; [| done].
  destruct (pipe_of _ _ _ _ _ _) as [kind|pipe]; [apply Hfail |]. case_if; [apply Hfail |].
  destruct Hj as [Hj1 Hj2]. eapply dispatch_ok; try done. destruct Hok as [R1 R2 R3 R4 R5 R6].
  unfold mark_dispatched. rewrite Hq. constructor; cbn; try done.
  - intros i cm cx Hi Hk. cbn [queue set_phase set_queue counters] in *.
    apply elem_of_cons in Hi as [->|Hi]; [apply (R4 j cm cx); [rewrite Hq; left | done] | apply (R4 i cm cx); [rewrite Hq; by right | done]].
  - unfold phase_ok. cbn. split; [| exists b; split; [done | lia]]. by apply head_is_intro.
  - intros Hf%R6. rewrite Hq in Hf. exact Hf.
Qed.

Lemma uncertain_ok id r u : run_ok id r -> run_ok id (set_uncertain u r) /\ same_shape r (set_uncertain u r).
Proof. intros [R1 R2 R3 R4 R5 R6]. split; [by constructor | done]. Qed.

(** A grant, or a boundary that is not older, keeps every phase's demands. *)

Lemma boundary_run_ok id r b : run_ok id r -> (forall now, r_boundary r = Some now -> b_atSeq now <= b_atSeq b) ->
  run_ok id (set_boundary b r) /\ same_shape r (set_boundary b r).
Proof.
  intros [R1 R2 R3 R4 R5 R6] Hb. split; [| done]. constructor; try done. unfold phase_ok in *. cbn.
  destruct (phase r); try done.
  - destruct R5 as [H1 _]. split; [done |]. by eexists.
  - destruct R5 as [H1 (now & Hnow & Hle)]. split; [done |]. exists b. split; [done |]. specialize (Hb _ Hnow). lia.
  - destruct R5 as (H1 & H2 & now & Hnow & Hle). split_and!; [done | done |]. exists b. split; [done |]. specialize (Hb _ Hnow). lia.
Qed.

Lemma keep_grant e q c : ct_lease (record_grant e q c) = ct_lease c /\ ct_ref (record_grant e q c) = ct_ref c.
Proof. unfold record_grant. by destruct (retired (set_grant e q c)). Qed.

Lemma shape_trans r1 r2 r3 : same_shape r1 r2 -> same_shape r2 r3 -> same_shape r1 r3.
Proof. intros [H1 H2 H3] [H4 H5 H6]. by constructor; etrans. Qed.

Lemma accept_run_ok id command context b q r : run_ok id r ->
  (forall now, r_boundary r = Some now -> b_atSeq now <= q) ->
  run_ok id (accept_boundary command context b q r) /\ same_shape r (accept_boundary command context b q r).
Proof.
  intros Hok Hb. unfold accept_boundary.
  assert (Hq : b_atSeq (accepted_boundary command context b q) = q) by (unfold accepted_boundary; by destruct (cc_body command)).
  destruct (boundary_run_ok id r (accepted_boundary command context b q) Hok) as [H1 H2]; [by rewrite Hq |].
  destruct (cc_body command); try done.
  destruct (modify_counter_ok id (cx_subscription context) (record_grant (b_epoch (accepted_boundary command context b q)) q) _
    (keep_grant _ _) H1) as [H3 H4]. split; [done | by eapply shape_trans].
Qed.

Lemma accept_queue command context b q r : queue (accept_boundary command context b q r) = queue r.
Proof.
  unfold accept_boundary, modify_counter. destruct (cc_body command); try done.
  by destruct (jget (cx_subscription context) _).
Qed.

Lemma dispatched_ok fl fh w id result b r j rest command context a : arbiter_ok fl fh a -> jget id (runs a) = Some r ->
  queue r = j :: rest -> control_job (Some true) j -> undispatched rest ->
  arbiter_ok fl fh (resume_dispatch w id result b r j command context a).
Proof.
  intros Ha Hr Hq Hj Hu. pose proof (proj1 (ao_runs _ _ _ Ha _ _ Hr)) as Hok.
  assert (Hh : forall r', queue r' = queue r -> head_is (control_job None) (queue r')).
  { intros r' ->. exists j, rest. split_and!; [done | | done]. split; [apply Hj | done]. }
  assert (Hreply : forall x, arbiter_ok fl fh (suspend id (AwaitPerform x) a)).
  { intros x. eapply suspend_ok; [done | done |]. exact (Hh r eq_refl). }
  assert (Hdoubt : forall x, arbiter_ok fl fh (suspend id (AwaitPerform x) (modify id (set_uncertain true) a))).
  { intros x. destruct (modify_suspend id (set_uncertain true) (AwaitPerform x) a r Hr) as [E _].
    eapply suspend_ok; [| exact E |].
    - apply modify_ok; [done |]. intros. by apply uncertain_ok.
    - exact (Hh (set_uncertain true r) eq_refl). }
  unfold resume_dispatch. destruct result as [result|]; [| apply Hreply]. cbv zeta.
  destruct (result_failure result command) as [e|]; [case_if; [apply Hdoubt | apply Hreply] |].
  destruct result as [res|]; [| apply Hreply].
  assert (Hnext : arbiter_ok fl fh
     match res_atSeq res with
     | Some q =>
        if q <? b_atSeq b
        then suspend id (AwaitPerform (Returned (Refusal (error command (unknown_error false))))) (modify id (set_uncertain true) a)
        else if match r_boundary r with Some now => q <? b_atSeq now | None => false end
        then suspend id (AwaitPerform (Returned (refuse command STALE_CONTROL))) a
        else let r' := accept_boundary command context b q r in
             let a := modify id (fun _ => r') a in
             if negb (job_current w command context r' a)
             then suspend id (AwaitPerform (Returned (refuse command STALE_CONNECTION))) a
             else suspend id (AwaitPerform (Returned (answer command context (b_epoch (accepted_boundary command context b q)) q))) a
     | None => suspend id (AwaitPerform (Returned (Refusal (error command (unknown_error false))))) (modify id (set_uncertain true) a)
     end).
  { destruct (res_atSeq res) as [q|]; [| apply Hdoubt]. case_if; [apply Hdoubt |].
    destruct (match r_boundary r with Some now => q <? b_atSeq now | None => false end) eqn:Hlt; [apply Hreply |]. cbv zeta.
    destruct (accept_run_ok id command context b q r Hok) as [K1 K2].
    { intros now Hnow. rewrite Hnow in Hlt. by apply Z.ltb_ge in Hlt. }
    assert (Hm : arbiter_ok fl fh (modify id (fun _ => accept_boundary command context b q r) a)).
    { apply modify_ok; [done |]. intros r' Hr' _. rewrite Hr in Hr'. by injection Hr' as <-. }
    assert (Hrm : jget id (runs (modify id (fun _ => accept_boundary command context b q r) a))
                  = Some (accept_boundary command context b q r)).
    { by rewrite jget_modify, decide_True, Hr. }
    case_if; (eapply suspend_ok; [exact Hm | exact Hrm |]; exact (Hh _ (accept_queue command context b q r))). }
  destruct (cc_body command); try exact Hnext. destruct (input_written _ _ _ _); apply Hreply.
Qed.

Lemma program_status_ok fl fh w id result r j rest command acc a : arbiter_ok fl fh a -> jget id (runs a) = Some r ->
  queue r = j :: rest -> program_job (Some false) j -> undispatched rest -> truthy (programFailure r) = false ->
  arbiter_ok fl fh (resume_program_status w id result r j command acc a).
Proof.
  intros Ha Hr Hq Hj Hu Hf. pose proof (proj1 (ao_runs _ _ _ Ha _ _ Hr)) as Hok.
  assert (Hh : forall r', queue r' = queue r -> head_is (program_job None) (queue r')).
  { intros r' ->. exists j, rest. split_and!; [done | | done]. split; [apply Hj | done]. }
  assert (Hdone : forall x, arbiter_ok fl fh (suspend id (AwaitProgram x) a)).
  { intros x. eapply suspend_ok; [done | done |]. exact (Hh r eq_refl). }
  unfold resume_program_status. destruct result as [result|]; [| apply Hdone]. cbv zeta. case_if; [apply Hdone |].
  destruct (live_status result) as [[status parsed]|]; [| apply Hdone].
  destruct (match r_boundary r with Some b => _ | None => _ end) eqn:Hs; [apply Hdone |].
  set (f := fun r => set_uncertain false (set_boundary (status_boundary status parsed) r)).
  assert (Hb : forall now, r_boundary r = Some now -> b_atSeq now <= parsed).
  { intros now Hnow. rewrite Hnow in Hs. by apply Z.ltb_ge in Hs. }
  assert (Hm : arbiter_ok fl fh (modify id f a)).
  { apply modify_ok; [done |]. intros r' Hr' Hok'. rewrite Hr in Hr'. injection Hr' as <-. unfold f.
    destruct (boundary_run_ok id r (status_boundary status parsed) Hok') as [K1 K2]; [exact Hb |].
    destruct (uncertain_ok id _ false K1) as [K3 K4]. split; [exact K3 | by eapply shape_trans]. }
  assert (Hrm : jget id (runs (modify id f a)) = Some (f r)) by (by rewrite jget_modify, decide_True, Hr).
  assert (Hdone' : forall x, arbiter_ok fl fh (suspend id (AwaitProgram x) (modify id f a))).
  { intros x. eapply suspend_ok; [exact Hm | exact Hrm |]. exact (Hh (f r) eq_refl). }
  case_if; [apply Hdone' |]. case_if; [apply Hdone' |]. case_if; [apply Hdone' |].
  eapply suspend_ok; [by apply emit_ok | exact Hrm |]. split; [exists j, rest; done | exact Hf].
Qed.

Lemma program_accept_ok fl fh w id result r j rest command a : arbiter_ok fl fh a -> jget id (runs a) = Some r ->
  queue r = j :: rest -> program_job (Some false) j -> undispatched rest ->
  arbiter_ok fl fh (resume_accept w id result j command a).
Proof.
  intros Ha Hr Hq Hj Hu. pose proof (proj1 (ao_runs _ _ _ Ha _ _ Hr)) as Hok.
  assert (Hdone : forall x, arbiter_ok fl fh (suspend id (AwaitProgram x) a)).
  { intros x. eapply suspend_ok; [done | done |]. exists j, rest. split_and!; [done | | done]. split; [apply Hj | done]. }
  unfold resume_accept. destruct result as [[]|]; [| apply Hdone | apply Hdone]. case_if; [apply Hdone |].
  destruct Hj as [Hj1 Hj2]. eapply dispatch_ok; try done. destruct Hok as [R1 R2 R3 R4 R5 R6].
  unfold mark_dispatched. rewrite Hq. constructor; cbn; try done.
  - intros i cm cx Hi Hk. cbn [queue set_phase set_queue counters] in *.
    apply elem_of_cons in Hi as [->|Hi]; [apply (R4 j cm cx); [rewrite Hq; left | done] | apply (R4 i cm cx); [rewrite Hq; by right | done]].
  - by apply head_is_intro.
  - intros Hf%R6. rewrite Hq in Hf. exact Hf.
Qed.

Lemma settle_release_ok id s b result r : run_ok id r ->
  run_ok id (settle_release s b result r) /\ same_shape r (settle_release s b result r).
Proof.
  intros Hok. assert (Hd : run_ok id (set_uncertain true (modify_counter s (set_cleanup cl_unknown) r))
      /\ same_shape r (set_uncertain true (modify_counter s (set_cleanup cl_unknown) r))).
  { destruct (modify_counter_ok id s (set_cleanup cl_unknown) r (keep_cleanup _) Hok) as [K1 K2].
    destruct (uncertain_ok id _ true K1) as [K3 K4]. split; [done | by eapply shape_trans]. }
  unfold settle_release. destruct result as [[res|e]|]; [| by case_if | done].
  destruct (res_atSeq res) as [q|]; [| done]. case_if; [| done]. cbv zeta.
  destruct (modify_counter_ok id s (set_cleanup cl_none) r (keep_cleanup _) Hok) as [K1 K2].
  destruct (match r_boundary _ with Some now => _ | None => _ end) eqn:Hle; [| done].
  destruct (boundary_run_ok id _ (released_boundary b q) K1) as [K3 K4].
  { intros now Hnow. rewrite Hnow in Hle. by apply Z.leb_le in Hle. }
  split; [done | by eapply shape_trans].
Qed.

Lemma resume_ok fl fh w id x a a' : arbiter_ok fl fh a -> resume w id x a = Some a' -> arbiter_ok fl fh a'.
Proof.
  intros Ha. unfold resume. destruct (jget id (runs a)) as [r|] eqn:Hr; [| done].
  pose proof (proj1 (ao_runs _ _ _ Ha _ _ Hr)) as Hok. pose proof (ro_phase _ _ Hok) as Hph. unfold phase_ok in Hph.
  cbv zeta. destruct (phase r) as [| | |f|b|y| | | |y|i b|] eqn:Hp; destruct x as [|result|result]; try done.
  - destruct Hph as (j & rest & Hq & Hj & Hu). rewrite Hq. cbn [head fmap option_fmap option_map].
    destruct (job_kind j); [| done]. intros [= <-]. by eapply status_ok.
  - destruct Hph as [(j & rest & Hq & Hj & Hu) _]. rewrite Hq. cbn [head fmap option_fmap option_map].
    destruct (job_kind j); [| done]. intros [= <-]. by eapply boundary_ok.
  - destruct Hph as [(j & rest & Hq & Hj & Hu) _]. rewrite Hq. cbn [head fmap option_fmap option_map].
    destruct (job_kind j); [| done]. intros [= <-]. by eapply dispatched_ok.
  - intros [= <-]. by eapply settle_control_ok.
  - destruct Hph as [(j & rest & Hq & Hj & Hu) Hf]. rewrite Hq. cbn [head fmap option_fmap option_map].
    destruct (job_kind j); [done |]. intros [= <-]. by eapply program_status_ok.
  - destruct Hph as [(j & rest & Hq & Hj & Hu) Hf]. rewrite Hq. cbn [head fmap option_fmap option_map].
    destruct (job_kind j); [done |]. intros [= <-]. by eapply program_accept_ok.
  - destruct Hph as (j & rest & Hq & Hj & Hu). rewrite Hq. cbn [head fmap option_fmap option_map].
    destruct (job_kind j); [done |]. intros [= <-]. unfold resume_program_dispatch.
    destruct result; (eapply suspend_ok; [done | done |]; exists j, rest; split_and!; [done | | done]; split; [apply Hj | done]).
  - intros [= <-]. by eapply settle_program_ok.
  - intros [= <-]. destruct Hph as (Hu & Hi & _). unfold resume_release.
    destruct (counters r !! i) as [[s c]|]; [| done].
    eapply (cleanup_from_ok _ _ _ _ _ (length (counters r))); [| | lia].
    + apply modify_ok; [done |]. intros. by apply settle_release_ok.
    + destruct (settle_release_ok id s b result r Hok) as [_ Hsh].
      exists (settle_release s b result r). rewrite jget_modify, decide_True, Hr by done. split; [done |]. split.
      * replace (queue (settle_release s b result r)) with (queue r); [done |]. unfold settle_release, modify_counter.
        destruct result as [[res|e]|]; repeat (case_if || case_match); done.
      * pose proof (shape_counters _ _ Hsh) as E. unfold zlen in E. lia.
  - intros [= <-]. by eapply finish_drain_ok.
Qed.

(** ** The operations of the owner *)

Record keeps (f : Job -> Job) : Prop := mk_keeps {
  kp_id : forall j, job_id (f j) = job_id j;
  kp_leases : forall j, leases (f j) = leases j;
  kp_dispatched : forall j, dispatched (f j) = dispatched j;
  kp_program : forall j, is_program (f j) = is_program j;
  kp_control : forall j c x, job_kind (f j) = Control c x -> job_kind j = Control c x;
}.

Lemma keeps_undispatched f q : keeps f -> undispatched q -> undispatched (map f q).
Proof. intros Hf. induction 1; constructor; [by rewrite (kp_dispatched _ Hf) | done]. Qed.

Lemma keeps_head f p q : keeps f -> (forall j, p j -> p (f j)) -> head_is p q -> head_is p (map f q).
Proof.
  intros Hf Hp (j & rest & -> & Hj & Hu). exists (f j), (map f rest). split_and!; [done | by apply Hp | by apply keeps_undispatched].
Qed.

Lemma keeps_control f d j : keeps f -> control_job d j -> control_job d (f j).
Proof. intros Hf [H1 H2]. split; [by rewrite (kp_program _ Hf) | by rewrite (kp_dispatched _ Hf)]. Qed.

Lemma keeps_programs f d j : keeps f -> program_job d j -> program_job d (f j).
Proof. intros Hf [H1 H2]. split; [by rewrite (kp_program _ Hf) | by rewrite (kp_dispatched _ Hf)]. Qed.

Lemma map_queue_ok id f r : keeps f -> run_ok id r ->
  run_ok id (set_queue (map f (queue r)) r) /\ same_shape r (set_queue (map f (queue r)) r).
Proof.
  intros Hf [R1 R2 R3 R4 R5 R6]. split; constructor; cbn; try done.
  - intros j c x Hj Hk. cbn [queue set_queue counters] in *. apply list_elem_of_fmap in Hj as (i & -> & Hi).
    apply (R4 i c x Hi). by apply (kp_control _ Hf).
  - unfold phase_ok in *. cbn [phase queue set_queue r_boundary programFailure counters].
    pose proof (fun d => keeps_control f d) as Kc. pose proof (fun d => keeps_programs f d) as Kp.
    destruct (phase r); try (by apply keeps_undispatched); try (destruct R5 as [R5 R5']; split; [| done]);
      try (apply keeps_head; [done | auto | done]); try (by apply keeps_undispatched).
  - intros Hfail%R6. apply existsb_exists in Hfail as (j & Hj & Hp). apply existsb_exists. exists (f j).
    split; [by apply in_map | by rewrite (kp_program _ Hf)].
  - unfold queue_sig. rewrite map_map. apply map_ext. intros j.
    by rewrite (kp_id _ Hf), (kp_leases _ Hf), (kp_dispatched _ Hf).
Qed.

Lemma keeps_named f (n : nat) : keeps f -> keeps (fun x => if Nat.eqb (job_id x) n then f x else x).
Proof.
  intros [H1 H2 H3 H4 H5]. constructor; intros j; destruct (Nat.eqb (job_id j) n); try done. apply H5.
Qed.

Lemma keeps_ready : keeps set_ready.
Proof. constructor; done. Qed.

Lemma keeps_accept : keeps accept_job.
Proof.
  constructor; intros j; unfold accept_job, is_program; destruct (job_kind j) eqn:E; cbn; rewrite ?E; intros; congruence.
Qed.

Lemma keeps_cancel reason : keeps (cancel_job reason).
Proof.
  constructor; intros j; unfold cancel_job, is_program; destruct (job_kind j) eqn:E; cbn; rewrite ?E; intros; congruence.
Qed.

Lemma keeps_ready_named s : keeps (ready_if_named s).
Proof. constructor; intros j; unfold ready_if_named; destruct (names_counter s j); done. Qed.

Lemma job_drain_ok fl fh w id j f a : arbiter_ok fl fh a -> keeps f ->
  arbiter_ok fl fh (drain w id (modify id (modify_job j f) a)).
Proof.
  intros Ha Hf. apply drain_ok, modify_ok; [done |]. intros r _ Hok. apply map_queue_ok; [by apply keeps_named | done].
Qed.

Lemma schedule_ok id s r : run_ok id r -> run_ok id (schedule_cleanup r s) /\ same_shape r (schedule_cleanup r s).
Proof.
  intros Hok. unfold schedule_cleanup. destruct (r_boundary r) as [b|]; [| done]. case_if; [| done]. by apply modify_counter_ok.
Qed.

Lemma arb_retire_ok fl fh w s a : arbiter_ok fl fh a -> arbiter_ok fl fh (retire w s a).
Proof.
  intros Ha. unfold retire. cbv zeta. destruct (jget _ (runs a)) as [r|] eqn:Hr; [| done].
  destruct (jget s (counters r)) as [c|]; [| done]. case_if; [done |].
  apply drain_ok, modify_ok; [done |]. intros r' Hr' Hok. rewrite Hr in Hr'. injection Hr' as <-.
  destruct (modify_counter_ok _ s set_retired r ltac:(done) Hok) as [K1 K2].
  destruct (map_queue_ok _ (ready_if_named s) _ (keeps_ready_named s) K1) as [K3 K4].
  destruct (schedule_ok _ s _ K3) as [K5 K6]. split; [done |]. do 2 (eapply shape_trans; [done |]). done.
Qed.

Lemma foldl_ok fl fh (f : ControlArbiter -> string -> ControlArbiter) ids a :
  (forall a id, arbiter_ok fl fh a -> arbiter_ok fl fh (f a id)) -> arbiter_ok fl fh a -> arbiter_ok fl fh (foldl f a ids).
Proof. intros Hf. revert a. induction ids as [|id ids IH]; intros a Ha; cbn [foldl]; auto. Qed.

Lemma tick_ok fl fh w a : arbiter_ok fl fh a -> arbiter_ok fl fh (tick w a).
Proof. intros Ha. unfold tick. apply foldl_ok; [| done]. intros. by apply drain_ok. Qed.

Lemma dispose_run_ok fl fh w a id : arbiter_ok fl fh a -> arbiter_ok fl fh (dispose_run w a id).
Proof.
  intros Ha. unfold dispose_run. cbv zeta.
  assert (Hm : arbiter_ok fl fh (modify id (fun r => set_queue (map set_ready (queue r)) r) a)).
  { apply modify_ok; [done |]. intros r _ Hok. apply map_queue_ok; [apply keeps_ready | done]. }
  destruct (jget id _) as [r|] eqn:Hr; [| done]. destruct (queue r) eqn:Hq; [| rewrite andb_false_r; by apply drain_ok].
  case_if; [| by apply drain_ok]. apply release_run_ok; [done |]. by rewrite (runs_lookup _ _ _ Hr).
Qed.

Lemma arb_dispose_ok fl fh w a : arbiter_ok fl fh a -> arbiter_ok fl fh (dispose w a).
Proof.
  intros Ha. unfold dispose. case_if; [done |]. apply foldl_ok; [intros; by apply dispose_run_ok |].
  destruct Ha. by constructor.
Qed.

Lemma on_event_ok fl fh event a : arbiter_ok fl fh a -> arbiter_ok fl fh (on_event event a).
Proof.
  intros Ha. unfold on_event. cbv zeta. destruct (jget _ (runs a)) as [r0|]; [| done].
  destruct (pe_terminal event) as [fact| | | | | |]; try done. case_if; [done |]. apply modify_ok; [done |].
  intros r _ Hok. unfold observe_fact. destruct (match r_boundary r with Some b => _ | None => _ end) eqn:Hs; [done |].
  assert (Hb : forall now, r_boundary r = Some now -> b_atSeq now <= ev_seq fact).
  { intros now Hnow. rewrite Hnow in Hs. apply Z.leb_gt in Hs. lia. }
  destruct (ev_fact fact); try done.
  - destruct (r_boundary r) as [b|] eqn:Hr; [| done]. apply boundary_run_ok; [done |]. rewrite Hr. exact Hb.
  - by apply boundary_run_ok.
  - by apply uncertain_ok.
Qed.

(** ** Admission *)

Lemma leases_app xs ys : leases_of (xs ++ ys) = leases_of xs ++ leases_of ys.
Proof. unfold leases_of. by rewrite omap_app. Qed.

Lemma handles_app xs ys : handles_of (xs ++ ys) = handles_of xs ++ handles_of ys.
Proof. unfold handles_of. by rewrite omap_app. Qed.

Lemma undispatched_snoc q j : undispatched q -> dispatched j = false -> undispatched (q ++ [j]).
Proof. intros Hq Hj. apply Forall_app. split; [done |]. by constructor. Qed.

Lemma head_snoc p q j : head_is p q -> dispatched j = false -> head_is p (q ++ [j]).
Proof. intros (x & rest & -> & Hx & Hu) Hj. exists x, (rest ++ [j]). split_and!; [done | done | by apply undispatched_snoc]. Qed.

Lemma enqueue_run_ok id r j : run_ok id r -> dispatched j = false ->
  (forall c x, job_kind j = Control c x -> is_Some (jget (cx_subscription x) (counters r))) ->
  run_ok id (set_queue (queue r ++ [j]) r).
Proof.
  intros [R1 R2 R3 R4 R5 R6] Hj Hc. constructor; try done.
  - intros i c x Hi Hk. cbn [queue set_queue counters] in *. apply elem_of_app in Hi as [Hi|Hi]; [by eapply R4 |].
    apply list_elem_of_singleton in Hi as ->. by eapply Hc.
  - unfold phase_ok in *. cbn [phase queue set_queue r_boundary programFailure counters].
    destruct (phase r); try (by apply undispatched_snoc); try (destruct R5 as [R5 R5']; split; [| done]);
      try (by apply head_snoc); try (by apply undispatched_snoc).
  - intros Hf%R6. cbn [queue set_queue]. by rewrite existsb_app, Hf.
Qed.

Lemma order_admit id q t j : ordered id q t (job_id j) -> dispatched j = false ->
  ordered id (q ++ [j]) (t ++ [JobAdmitted id (job_id j)]) (S (job_id j)).
Proof.
  intros [H1 H2 H3 H4] Hj.
  assert (E : admitted id (t ++ [JobAdmitted id (job_id j)]) = admitted id t ++ [job_id j]
      /\ settled id (t ++ [JobAdmitted id (job_id j)]) = settled id t /\ sent id (t ++ [JobAdmitted id (job_id j)]) = sent id t).
  { unfold admitted, settled, sent. rewrite !omap_snoc. cbn [admitted_of settled_of sent_of].
    rewrite decide_True by done. by rewrite !app_nil_r. }
  destruct E as (E1 & E2 & E3). constructor; rewrite ?E1, ?E2, ?E3.
  - rewrite H1, map_app. cbn. by rewrite <- app_assoc.
  - unfold in_flight. rewrite List.filter_app. cbn [List.filter]. rewrite Hj, app_nil_r. exact H2.
  - by apply sorted_snoc_nat.
  - apply Forall_app. split; [| by repeat constructor]. eapply Forall_impl; [exact H4 |]. cbn. lia.
Qed.

Lemma order_next id q t n m : ordered id q t n -> (n <= m)%nat -> ordered id q t m.
Proof. intros [H1 H2 H3 H4] Hn. constructor; try done. eapply Forall_impl; [exact H4 |]. cbn. lia. Qed.

Definition base_leases (id : string) (a : ControlArbiter) : list (nat * Z) :=
  match jget id (runs a) with Some r => run_leases r | None => [] end.

Definition base_handles (id : string) (a : ControlArbiter) : list nat :=
  match jget id (runs a) with Some r => run_handles r | None => [] end.

(** The values of the map after [id] is set, whether it was there or not. *)

Lemma values_set {B} (f : Run -> list B) id r (m : jsmap string Run) : exists rest,
  jvalues m ≫= f ≡ₚ match jget id m with Some r0 => f r0 | None => [] end ++ rest
  /\ jvalues (jset id r m) ≫= f ≡ₚ f r ++ rest.
Proof.
  destruct (jget id m) as [r0|] eqn:E.
  - destruct (values_bind f id r0 r m E) as (rest & H1 & H2 & _). by exists rest.
  - exists (jvalues m ≫= f). split; [done |]. rewrite jkeys_set_new by done. unfold jvalues.
    rewrite fmap_app, bind_app. cbn. rewrite app_nil_r. apply Permutation_app_comm.
Qed.

Lemma enqueue_ok fl fh a id r kind bytes ls s dl : arbiter_ok fl fh a ->
  run_ok id r -> queue r = queued id a -> zlen (counters r) <= counter_cap ->
  pending a < pendingWorkerCommands budgets -> (jget id (runs a) = None -> zlen (runs a) < maxRuns budgets) ->
  (forall c x, kind = Control c x -> is_Some (jget (cx_subscription x) (counters r))) ->
  run_leases r ≡ₚ dl ++ base_leases id a ->
  owns fl fh (leases_of ls ++ dl ++ arbiter_leases a) (handles_of ls ++ arbiter_handles a) s ->
  arbiter_ok fl fh (enqueue id r kind bytes ls (set_account s a)).2.
Proof.
  intros [I1 I2 I3 I4 I5 I6] Hok Hq Hcap Hpend Hmax Hkind Hdl Howns.
  unfold enqueue. cbn [snd next_job set_account trace runs pending disposed account].
  set (j := mkJob (next_job a) kind bytes ls false false).
  assert (Hj : run_ok id (set_queue (queue r ++ [j]) r)) by (apply enqueue_run_ok; [done | done |]; intros c x; apply Hkind).
  destruct (values_set run_leases id (set_queue (queue r ++ [j]) r) (runs a)) as (rl & L1 & L2).
  destruct (values_set run_handles id (set_queue (queue r ++ [j]) r) (runs a)) as (rh & K1 & K2).
  assert (Hrl : run_leases (set_queue (queue r ++ [j]) r) ≡ₚ leases_of ls ++ run_leases r).
  { unfold run_leases. cbn [r_lease counters queue set_queue]. unfold queue_reservations. rewrite bind_app. cbn [mbind list_bind].
    rewrite app_nil_r, leases_app. cbn [leases j]. cbn [app]. rewrite <- Permutation_middle. apply perm_skip.
    rewrite app_assoc. apply Permutation_app_comm. }
  assert (Hrh : run_handles (set_queue (queue r ++ [j]) r) ≡ₚ handles_of ls ++ base_handles id a).
  { unfold run_handles. cbn [queue set_queue]. unfold queue_reservations. rewrite bind_app. cbn [mbind list_bind].
    rewrite app_nil_r, handles_app. cbn [leases j].
    replace (handles_of (queue r ≫= leases)) with (base_handles id a); [apply Permutation_app_comm |].
    rewrite Hq. unfold base_handles, queued, run_handles, queue_reservations. by destruct (jget id (runs a)). }
  constructor; cbn [runs pending account trace next_job emit].
  - unfold arbiter_leases, arbiter_handles in *. cbn [runs emit].
    eapply owns_proper; [rewrite L2, Hrl, Hdl; reflexivity | rewrite K2, Hrh; reflexivity | reflexivity |].
    eapply owns_proper; [| | reflexivity | exact Howns].
    + rewrite <- !app_assoc. do 2 apply Permutation_app_head. by symmetry.
    + rewrite <- !app_assoc. apply Permutation_app_head. by symmetry.
  - by apply jwf_set.
  - intros k x. rewrite jget_set. case_decide as Hk; [| by apply I3]. intros [= <-]. by subst k.
  - destruct (jget id (runs a)) as [r0|] eqn:Hr.
    + rewrite (jsum_set_old _ _ _ _ _ Hr). cbn [queue set_queue]. rewrite Hq. unfold queued. rewrite Hr.
      rewrite zlen_app, zlen_cons, zlen_nil. lia.
    + rewrite (jsum_set_new _ _ _ _ Hr). cbn [queue set_queue]. rewrite Hq. unfold queued. rewrite Hr. cbn. change (zlen [j]) with 1. lia.
  - split; [| lia]. destruct (jget id (runs a)) as [r0|] eqn:Hr; [rewrite jset_size_old by eauto; apply I5 |].
    rewrite jset_size_new by done. specialize (Hmax eq_refl). lia.
  - intros k. unfold queued at 1. cbn [runs emit]. rewrite jget_set. case_decide as Hk.
    + subst k. cbn [queue set_queue]. rewrite Hq. apply (order_admit id (queued id a) (trace a) j); [apply I6 | done].
    + apply (ordered_other k id); [done | done |]. eapply order_next; [apply I6 | lia].
Qed.

Definition run_extra (newRun : bool) (r : Run) : list (nat * Z) := if newRun then [(r_lease r, 8192)] else [].

Definition counter_extra (newCounter : bool) (c : Counter) : list (nat * Z) := if newCounter then [(ct_lease c, 4096)] else [].

Lemma new_run_ok ref worker l : run_ok (run_runId ref) (new_run ref worker l).
Proof.
  constructor; try done.
  - apply NoDup_nil_2.
  - by intros j c x ?%elem_of_nil.
  - by constructor.
  - by intros [? ?].
Qed.

Lemma counter_cap_nonneg : 0 <= counter_cap.
Proof. unfold counter_cap. lia. Qed.

Lemma take_run_ok fl fh ref worker a newRun r s : arbiter_ok fl fh a -> take_run budgets ref worker a = inr (newRun, r, s) ->
  let id := run_runId ref in
  owns fl fh (run_extra newRun r ++ arbiter_leases a) (arbiter_handles a) s
  /\ run_ok id r /\ queue r = queued id a /\ run_leases r ≡ₚ run_extra newRun r ++ base_leases id a
  /\ (jget id (runs a) = None -> zlen (runs a) < maxRuns budgets) /\ zlen (counters r) <= counter_cap.
Proof.
  intros Ha. cbv zeta. unfold take_run, base_leases, queued. destruct (jget (run_runId ref) (runs a)) as [r0|] eqn:Hr.
  - intros [= <- <- <-]. cbn [run_extra app]. split_and!; try done; [apply (ao_owns _ _ _ Ha) | apply (ao_runs _ _ _ Ha _ _ Hr) .. ].
  - case_if; [done |]. destruct (B.reserve 8192 false (account a)) as [[l s']|] eqn:Hl; [| done]. intros [= <- <- <-].
    cbn [run_extra app r_lease new_run]. split_and!; try done.
    + eapply owns_reserve; [apply (ao_owns _ _ _ Ha) | exact Hl].
    + apply new_run_ok.
    + intros _. apply Z.leb_gt. done.
    + cbn. pose proof counter_cap_nonneg. unfold zlen. cbn. lia.
Qed.

Lemma rollback_run_owns fl fh newRun r X H s :
  owns fl fh (run_extra newRun r ++ X) H s -> owns fl fh X H (rollback_run newRun r s).
Proof. destruct newRun; cbn; [apply owns_release | done]. Qed.

Lemma rollback_owns fl fh newRun newCounter r c X H s :
  owns fl fh (counter_extra newCounter c ++ run_extra newRun r ++ X) H s -> owns fl fh X H (rollback newRun newCounter r c s).
Proof.
  intros Ho. unfold rollback. apply rollback_run_owns. destruct newCounter; cbn in *; [by eapply owns_release | done].
Qed.

Lemma take_counter_ok fl fh context newRun r s X H newCounter c s' :
  owns fl fh X H s -> take_counter budgets context newRun r s = inr (newCounter, c, s') ->
  owns fl fh (counter_extra newCounter c ++ X) H s'
  /\ match jget (cx_subscription context) (counters r) with
     | Some c0 => newCounter = false /\ c = c0
     | None => newCounter = true /\ ct_ref c = cx_subscription context /\ zlen (counters r) < counter_cap
     end.
Proof.
  intros Ho. unfold take_counter. destruct (jget _ (counters r)) as [c0|]; [by intros [= <- <- <-] |].
  case_if; [done |]. destruct (B.reserve 4096 false s) as [[l s1]|] eqn:Hl; [| done]. intros [= <- <- <-].
  split; [by eapply owns_reserve |]. split_and!; [done | done |]. unfold counter_cap. lia.
Qed.

Lemma take_counter_refused fl fh context newRun r s X H kind s' :
  owns fl fh (run_extra newRun r ++ X) H s -> take_counter budgets context newRun r s = inl (kind, s') -> owns fl fh X H s'.
Proof.
  intros Ho. unfold take_counter. destruct (jget _ (counters r)); [done |].
  case_if; [intros [= <- <-]; by apply rollback_run_owns |].
  destruct (B.reserve 4096 false s) as [[l s1]|]; [done |]. intros [= <- <-]. by apply rollback_run_owns.
Qed.

Lemma take_job_ok fl fh is_inp bytes s X H : owns fl fh X H s ->
  match take_job is_inp bytes s with
  | inl (ls, _, s') => owns fl fh (leases_of ls ++ X) (handles_of ls ++ H) s'
  | inr s' => owns fl fh X H s'
  end.
Proof.
  intros Ho. unfold take_job. destruct (B.reserve 1024 false s) as [[l s1]|] eqn:E1; [| done].
  pose proof (owns_reserve _ _ _ _ _ _ _ _ _ Ho E1) as O1. destruct is_inp; cbn [negb]; [| done].
  destruct (B.retainBacking _ _ false s1) as [[h s2]|] eqn:E2.
  - pose proof (owns_retain _ _ _ _ _ _ _ _ _ _ O1 E2) as O2. cbv zeta.
    destruct (B.reserve _ false s2) as [[l' s3]|] eqn:E3.
    + pose proof (owns_reserve _ _ _ _ _ _ _ _ _ O2 E3) as O3. unfold leases_of, handles_of. cbn.
      eapply owns_proper; [| reflexivity | reflexivity | exact O3]. apply perm_swap.
    + by apply (owns_release_reservations _ _ X H [Lease l 1024; BackingUser h]).
  - by apply (owns_release_reservations _ _ X H [Lease l 1024]).
Qed.

Lemma advance_keeps command c : ct_lease (advance_counter command c) = ct_lease c /\ ct_ref (advance_counter command c) = ct_ref c.
Proof. unfold advance_counter. by destruct (cc_body command). Qed.

(** The run with the job's counter in place. *)

Lemma counter_run_ok id r s newCounter c f : run_ok id r -> zlen (counters r) <= counter_cap ->
  match jget s (counters r) with
  | Some c0 => newCounter = false /\ c = c0
  | None => newCounter = true /\ ct_ref c = s /\ zlen (counters r) < counter_cap
  end -> (ct_lease (f c) = ct_lease c /\ ct_ref (f c) = ct_ref c) ->
  let r' := set_counters (jset s (f c) (counters r)) r in
  run_ok id r' /\ zlen (counters r') <= counter_cap /\ run_leases r' ≡ₚ counter_extra newCounter c ++ run_leases r.
Proof.
  intros [R1 R2 R3 R4 R5 R6] Hcap Hc [Hl Href]. cbv zeta.
  assert (Hlen : (length (counters r) <= length (jset s (f c) (counters r)))%nat /\ zlen (jset s (f c) (counters r)) <= counter_cap
     /\ counter_leases (jset s (f c) (counters r)) ≡ₚ counter_extra newCounter c ++ counter_leases (counters r)).
  { destruct (jget s (counters r)) as [c0|] eqn:E.
    - destruct Hc as [-> ->]. pose proof (jset_size_old s (f c0) (counters r) ltac:(eauto)) as Hs. unfold zlen in *.
      split_and!; [lia | lia |]. destruct (jset_split s c0 (f c0) (counters r) E) as (m1 & m2 & -> & ->).
      unfold counter_leases. rewrite !map_app. cbn. by rewrite Hl.
    - destruct Hc as (-> & _ & Hlt). pose proof (jset_size_new s (f c) (counters r) E) as Hs. unfold zlen in *.
      split_and!; [lia | lia |]. rewrite jkeys_set_new by done. unfold counter_leases. rewrite map_app. cbn. rewrite Hl.
      symmetry. apply Permutation_cons_append. }
  destruct Hlen as (Hn & Hz & Hp). split_and!.
  - constructor; cbn; try done.
    + by apply jwf_set.
    + intros k x. rewrite jget_set. case_decide as Hk; [| apply R3]. intros [= <-]. subst k. rewrite Href.
      destruct (jget s (counters r)) as [c0|] eqn:E; [destruct Hc as [_ ->]; by apply R3 | by destruct Hc as (_ & -> & _)].
    + intros j cm cx Hj Hk. cbn [counters set_counters queue] in *. rewrite jget_set. case_decide; [eauto |]. by eapply R4.
    + unfold phase_ok in *. cbn [phase queue set_counters r_boundary programFailure counters].
      destruct (phase r); try done. destruct R5 as (? & ? & ?). split_and!; [done | lia | done].
  - exact Hz.
  - unfold run_leases. cbn [r_lease counters queue set_counters]. rewrite Hp. cbn [app].
    rewrite <- Permutation_middle. by rewrite <- app_assoc.
Qed.

Lemma account_ok fl fh a s : arbiter_ok fl fh a -> owns fl fh (arbiter_leases a) (arbiter_handles a) s -> arbiter_ok fl fh (set_account s a).
Proof. intros [] Ho. by constructor. Qed.

Lemma admit_control_ok fl fh w command context bytes a : arbiter_ok fl fh a ->
  arbiter_ok fl fh (admit_control budgets w command context bytes a).2.
Proof.
  intros Ha. unfold admit_control. destruct (admit_checks budgets w command context bytes a) as [kind|] eqn:Hchk; [done |].
  destruct (take_run budgets (cc_run command) (cx_worker context) a) as [kind|[[newRun r] s]] eqn:Hrun; [done |].
  destruct (take_run_ok _ _ _ _ _ _ _ _ Ha Hrun) as (O1 & Hok & Hq & Hl & Hmax & Hcap).
  destruct (take_counter budgets context newRun r s) as [[kind s1]|[[newCounter c] s1]] eqn:Hc.
  { apply account_ok; [done |]. by eapply take_counter_refused. }
  destruct (take_counter_ok _ _ _ _ _ _ _ _ _ _ _ O1 Hc) as [O2 Hcf].
  case_if; [apply account_ok; [done | by apply rollback_owns] |].
  pose proof (take_job_ok fl fh (is_input command) bytes s1 _ _ O2) as O3.
  destruct (take_job _ bytes s1) as [[[ls copy] s2]|s2]; [| apply account_ok; [done | by apply rollback_owns]].
  case_if; [apply account_ok; [done |]; apply rollback_owns; by apply owns_release_reservations |].
  destruct (counter_run_ok _ r (cx_subscription context) newCounter c (advance_counter command) Hok Hcap Hcf (advance_keeps _ _))
    as (K1 & K2 & K3). cbv zeta.
  set (r' := set_counters _ r) in *.
  pose proof (enqueue_ok fl fh a (run_runId (cc_run command)) r' (Control command context) copy ls s2
    (counter_extra newCounter c ++ run_extra newRun r) Ha K1 Hq K2) as He.
  destruct (enqueue _ r' _ copy ls (set_account s2 a)) as [j a']. apply He; clear He.
  - unfold admit_checks in Hchk. cbv zeta in Hchk.
    repeat match type of Hchk with (if ?b then _ else _) = None => destruct b eqn:?; [discriminate Hchk |] end. lia.
  - done.
  - intros cm cx [= <- <-]. unfold r'. cbn [counters set_counters]. rewrite jget_set, decide_True by done. eauto.
  - rewrite K3, Hl. by rewrite app_assoc.
  - rewrite <- !app_assoc. exact O3.
Qed.

Lemma admit_programmatic_ok fl fh w command bytes a : arbiter_ok fl fh a ->
  arbiter_ok fl fh (admit_programmatic budgets w command bytes a).2.
Proof.
  intros Ha. unfold admit_programmatic. cbv zeta. case_if; [done |]. case_if; [done |].
  destruct (_ || _ || _) eqn:Hbusy; [done |]. case_if; [done |].
  destruct (take_run budgets (pg_run command) (pg_worker command) a) as [kind|[[newRun r] s]] eqn:Hrun; [done |].
  destruct (take_run_ok _ _ _ _ _ _ _ _ Ha Hrun) as (O1 & Hok & Hq & Hl & Hmax & Hcap).
  destruct (B.reserve _ false s) as [[l s1]|] eqn:E; [| apply account_ok; [done | by apply rollback_run_owns]].
  pose proof (owns_reserve _ _ _ _ _ _ _ _ _ O1 E) as O2.
  pose proof (enqueue_ok fl fh a (run_runId (pg_run command)) r (Programmatic command None false) bytes
    [Lease l (2048 + 2 * zlen bytes)] s1 (run_extra newRun r) Ha Hok Hq Hcap) as He.
  destruct (enqueue _ r _ bytes _ (set_account s1 a)) as [j a']. apply He; clear He; try done.
  bool_hyps. lia.
Qed.

End invariant.
