(* ===== verification/ArbiterProperties.v ===== *)
(** * The arbiter's guarantees

    Executions of ControlArbiter.v as a step relation, and what holds in every
    reachable state and of every step: the ledger, the order of jobs, the fence
    before each dispatch, the monotone boundary, progress of each run's loop and
    the shape of the replies. *)

From S2P Require Import Prelude Json Protocol JsMap LeaseAccount Retained RuntimeOwnership Errors Frame Terminal Pipe.
From S2P Require Import ControlArbiter ArbiterInvariant.

(** ** What one operation on a run may change *)

Definition bmono (r r' : Run) : Prop :=
  forall b, r_boundary r = Some b -> exists b', r_boundary r' = Some b' /\ b_atSeq b <= b_atSeq b'.

(** Only run [id] changes, its boundary does not go back, and the trace grows
    by effects in [P]. *)

Record moves (id : string) (P : Effect -> Prop) (a a' : ControlArbiter) : Prop := mk_moves {
  mv_frame : forall k, k <> id -> jget k (runs a') = jget k (runs a);
  mv_gone : jget id (runs a) = None -> jget id (runs a') = None;
  mv_kept : disposed a = false -> is_Some (jget id (runs a)) -> is_Some (jget id (runs a'));
  mv_disposed : disposed a' = disposed a;
  mv_trace : exists es, trace a' = trace a ++ es /\ Forall P es;
  mv_boundary : forall r r', jget id (runs a) = Some r -> jget id (runs a') = Some r' -> bmono r r';
}.

Lemma bmono_refl r : bmono r r.
Proof. intros b Hb. exists b. split; [done | lia]. Qed.

Lemma bmono_trans r1 r2 r3 : bmono r1 r2 -> bmono r2 r3 -> bmono r1 r3.
Proof. intros H1 H2 b Hb. destruct (H1 b Hb) as (b' & Hb' & Hle). destruct (H2 b' Hb') as (b'' & Hb'' & Hle'). exists b''. split; [done | lia]. Qed.

Lemma bmono_same r r' : r_boundary r' = r_boundary r -> bmono r r'.
Proof. intros E b Hb. exists b. rewrite E. split; [done | lia]. Qed.

Lemma moves_refl id P a : moves id P a a.
Proof.
  constructor; try done; [exists []; by rewrite app_nil_r |]. intros r r' -> [= <-]. apply bmono_refl.
Qed.

Lemma moves_trans id P a b c : moves id P a b -> moves id P b c -> moves id P a c.
Proof.
  intros [F1 G1 K1 D1 (e1 & T1 & A1) B1] [F2 G2 K2 D2 (e2 & T2 & A2) B2]. constructor.
  - intros k Hk. by rewrite F2, F1.
  - auto.
  - intros Hd Hr. apply K2; [by rewrite D1 | auto].
  - by rewrite D2.
  - exists (e1 ++ e2). split; [by rewrite T2, T1, app_assoc | by apply Forall_app].
  - intros r r'' Hr Hr''. destruct (jget id (runs b)) as [r'|] eqn:E; [| by rewrite G2 in Hr''].
    eapply bmono_trans; eauto.
Qed.

Lemma moves_weaken id (P Q : Effect -> Prop) a b : (forall e, P e -> Q e) -> moves id P a b -> moves id Q a b.
Proof.
  intros HPQ [F G K D (es & T & A) B]. constructor; try done. exists es. split; [done |]. by eapply Forall_impl.
Qed.

Lemma moves_modify id P f a : (forall r, jget id (runs a) = Some r -> bmono r (f r)) -> moves id P a (modify id f a).
Proof.
  intros Hf. constructor.
  - intros k Hk. by rewrite jget_modify, decide_False.
  - intros E. by rewrite jget_modify, decide_True, E.
  - intros _ [r Hr]. rewrite jget_modify, decide_True, Hr by done. eauto.
  - unfold modify. by destruct (jget id (runs a)).
  - exists []. rewrite app_nil_r. unfold modify. by destruct (jget id (runs a)).
  - intros r r' Hr. rewrite jget_modify, decide_True, Hr by done. intros [= <-]. by apply Hf.
Qed.

Lemma moves_suspend id P p a : moves id P a (suspend id p a).
Proof. apply moves_modify. intros. by apply bmono_same. Qed.

Lemma moves_emit id (P : Effect -> Prop) e a : P e -> moves id P a (emit e a).
Proof.
  intros He. constructor; try done; [exists [e]; split; [done | by constructor] |].
  intros r r' Hr Hr'. change (jget id (runs a) = Some r') in Hr'. rewrite Hr in Hr'. injection Hr' as <-. apply bmono_refl.
Qed.

(** Builds a [moves] fact from the parts of a composite operation. *)

Ltac moves_step :=
  match goal with
  | |- moves _ _ ?a ?a => apply moves_refl
  | |- moves _ _ _ (suspend _ _ _) => eapply moves_trans; [| apply moves_suspend]
  | |- moves _ _ _ (emit _ _) => eapply moves_trans; [| by apply moves_emit]
  end.

Lemma modify_counter_boundary s f r : r_boundary (modify_counter s f r) = r_boundary r.
Proof. unfold modify_counter. by destruct (jget s (counters r)). Qed.

Lemma start_job_moves w id r j a : moves id quiet a (start_job w id r j a).
Proof.
  unfold start_job, start_perform, start_program. destruct (job_kind j).
  - case_if; [by repeat moves_step |]. case_if; [by repeat moves_step |].
    destruct (r_boundary r); [case_if |]; by repeat moves_step.
  - case_if; [by repeat moves_step |]. case_if; by repeat moves_step.
Qed.

Lemma cleanup_scan_moves w id rest index a : moves id quiet a (cleanup_scan w id rest index a).
Proof.
  revert index a. induction rest as [|[s c] rest IH]; intros index a; cbn [cleanup_scan]; [by repeat moves_step |].
  case_if; [apply IH |]. destruct (jget id (runs a)) as [r|]; [| apply moves_refl].
  assert (Hdrop : moves id quiet a (cleanup_scan w id rest (S index) (modify id (modify_counter s (set_cleanup cl_none)) a))).
  { eapply moves_trans; [| apply IH]. apply moves_modify. intros. apply bmono_same, modify_counter_boundary. }
  destruct (r_boundary r); [| done]. case_if; [done |]. case_if; [apply IH |].
  destruct (w_placement w (r_ref r)); [| apply IH]. case_if; [apply IH | by repeat moves_step].
Qed.

Lemma cleanup_from_moves w id index a : moves id quiet a (cleanup_from w id index a).
Proof. unfold cleanup_from. destruct (jget id (runs a)); [apply cleanup_scan_moves | apply moves_refl]. Qed.

Lemma prune_moves id P a : moves id P a (prune id a).
Proof.
  unfold prune. case_if; [apply moves_refl |]. destruct (jget id (runs a)) as [r|] eqn:Hr; [| apply moves_refl].
  case_if; [apply moves_refl |]. cbv zeta. constructor; cbn [runs disposed trace set_account set_runs]; try done.
  - intros k Hk. by rewrite jget_set, decide_False.
  - by rewrite Hr.
  - intros _ _. rewrite jget_set, decide_True by done. eauto.
  - exists []. by rewrite app_nil_r.
  - intros r1 r2 Hr1. rewrite Hr in Hr1. injection Hr1 as <-. rewrite jget_set, decide_True by done.
    intros [= <-]. by apply bmono_same.
Qed.

Lemma release_run_moves id P a : jwf (runs a) -> disposed a = true -> moves id P a (release_run id a).
Proof.
  intros Hwf Hdisp. unfold release_run. destruct (jget id (runs a)) as [r|] eqn:Hr; [| apply moves_refl]. cbv zeta.
  constructor; cbn [runs disposed trace set_account set_runs]; try done.
  - intros k Hk. by rewrite jget_delete, decide_False.
  - by rewrite Hr.
  - by rewrite Hdisp.
  - exists []. by rewrite app_nil_r.
  - intros r1 r2 _. by rewrite jget_delete, decide_True.
Qed.

Lemma modify_wf id f a : jwf (runs a) -> jwf (runs (modify id f a)).
Proof. intros Hwf. unfold modify. destruct (jget id (runs a)); [by apply jwf_set | done]. Qed.

Lemma finish_drain_moves w id a : jwf (runs a) -> moves id quiet a (finish_drain w id a).
Proof.
  intros Hwf. unfold finish_drain. cbv zeta. eapply moves_trans; [apply (moves_suspend id quiet Idle) |].
  destruct (jget id (runs (suspend id Idle a))) as [r|]; [| apply moves_refl].
  destruct (disposed (suspend id Idle a) && _) eqn:Hd.
  { apply andb_true_iff in Hd as [Hd _]. apply release_run_moves; [by apply modify_wf | done]. }
  destruct (queue r) as [|j rest]; [apply prune_moves |]. case_if; [| apply prune_moves].
  eapply moves_trans; [apply (moves_suspend id quiet Executing) | apply start_job_moves].
Qed.

Lemma drain_loop_moves w id a : jwf (runs a) -> moves id quiet a (drain_loop w id a).
Proof.
  intros Hwf. unfold drain_loop. destruct (jget id (runs a)) as [r|]; [| apply moves_refl].
  destruct (queue r) as [|j rest]; [apply cleanup_from_moves |]. case_if; [apply start_job_moves | by apply finish_drain_moves].
Qed.

Lemma drain_moves w id a : jwf (runs a) -> moves id quiet a (drain w id a).
Proof.
  intros Hwf. unfold drain. destruct (jget id (runs a)) as [r|]; [| apply moves_refl]. case_if; [apply moves_refl |].
  eapply moves_trans; [apply (moves_suspend id quiet Executing) |]. apply drain_loop_moves. by apply modify_wf.
Qed.

(** ** Progress: a ready head is never left asleep *)

Definition head_ready (r : Run) : bool := match queue r with j :: _ => ready j | [] => false end.

(** Between two operations a run's loop is never in the middle of a stretch,
    and it only ends when the head may not start. *)

Definition rests (r : Run) : bool :=
  match phase r with Idle => negb (head_ready r) | Executing => false | _ => true end.

Definition awake (id : string) (a : ControlArbiter) : Prop :=
  forall r, jget id (runs a) = Some r -> rests r = true.

Lemma suspend_awake id p a : match p with Idle | Executing => False | _ => True end -> awake id (suspend id p a).
Proof.
  intros Hp r. unfold suspend. rewrite jget_modify, decide_True by done.
  destruct (jget id (runs a)); [| done]. intros [= <-]. unfold rests. cbn [phase set_phase]. by destruct p.
Qed.

Lemma start_job_awake w id r j a : awake id (start_job w id r j a).
Proof.
  unfold start_job, start_perform, start_program. destruct (job_kind j).
  - case_if; [by apply suspend_awake |]. case_if; [by apply suspend_awake |].
    destruct (r_boundary r); [case_if |]; by apply suspend_awake.
  - case_if; [by apply suspend_awake |]. case_if; by apply suspend_awake.
Qed.

Lemma cleanup_scan_awake w id rest index a : is_Some (jget id (runs a)) -> awake id (cleanup_scan w id rest index a).
Proof.
  revert index a. induction rest as [|[s c] rest IH]; intros index a Hr; cbn [cleanup_scan]; [by apply suspend_awake |].
  case_if; [by apply IH |]. destruct (jget id (runs a)) as [r|] eqn:E; [| by destruct Hr].
  assert (Hdrop : awake id (cleanup_scan w id rest (S index) (modify id (modify_counter s (set_cleanup cl_none)) a))).
  { apply IH. rewrite jget_modify, decide_True, E by done. eauto. }
  destruct (r_boundary r); [| done]. case_if; [done |]. case_if; [apply IH; by rewrite E |].
  destruct (w_placement w (r_ref r)); [| apply IH; by rewrite E]. case_if; [apply IH; by rewrite E | by apply suspend_awake].
Qed.

Lemma cleanup_from_awake w id index a : awake id (cleanup_from w id index a).
Proof.
  unfold cleanup_from. destruct (jget id (runs a)) as [r|] eqn:E; [apply cleanup_scan_awake; by rewrite E |].
  intros r. by rewrite E.
Qed.

Lemma prune_awake id a : awake id a -> awake id (prune id a).
Proof.
  intros Ha. unfold prune. case_if; [done |]. destruct (jget id (runs a)) as [r|] eqn:Hr; [| done]. case_if; [done |].
  cbv zeta. intros r'. cbn [runs set_account set_runs]. rewrite jget_set, decide_True by done. intros [= <-].
  exact (Ha r Hr).
Qed.

Lemma finish_drain_awake w id a : jwf (runs a) -> awake id (finish_drain w id a).
Proof.
  intros Hwf. unfold finish_drain. cbv zeta. destruct (jget id (runs (suspend id Idle a))) as [r|] eqn:Hr; [| by intros x; rewrite Hr].
  case_if.
  - unfold release_run. rewrite Hr. cbv zeta. intros x. cbn [runs set_account set_runs].
    rewrite jget_delete, decide_True; [done | done | by apply modify_wf].
  - assert (Hp : head_ready r = false -> awake id (prune id (suspend id Idle a))).
    { intros Hh. apply prune_awake. intros x Hx. rewrite Hr in Hx. injection Hx as <-. unfold rests.
      unfold suspend in Hr. rewrite jget_modify, decide_True in Hr by done. destruct (jget id (runs a)); [| done].
      injection Hr as <-. cbn [phase set_phase]. by rewrite Hh. }
    unfold head_ready in Hp. destruct (queue r) as [|j rest]; [by apply Hp |].
    destruct (ready j); [apply start_job_awake | by apply Hp].
Qed.

Lemma drain_loop_awake w id a : jwf (runs a) -> awake id (drain_loop w id a).
Proof.
  intros Hwf. unfold drain_loop. destruct (jget id (runs a)) as [r|] eqn:Hr; [| by intros x; rewrite Hr].
  destruct (queue r) as [|j rest]; [apply cleanup_from_awake |]. case_if; [apply start_job_awake | by apply finish_drain_awake].
Qed.

Lemma drain_awake w id a : jwf (runs a) -> (forall r, jget id (runs a) = Some r -> phase r <> Executing) -> awake id (drain w id a).
Proof.
  intros Hwf Hex. unfold drain. destruct (jget id (runs a)) as [r|] eqn:Hr; [| by intros x; rewrite Hr].
  destruct (running r) eqn:Hrun; [| apply drain_loop_awake; by apply modify_wf].
  intros x Hx. rewrite Hr in Hx. injection Hx as <-. unfold running in Hrun. specialize (Hex r eq_refl). unfold rests.
  by destruct (phase r).
Qed.

(** ** The fence before a dispatch *)

Definition command_epoch (command : ControlCommand) : option Z :=
  match cc_body command with Focus _ _ _ => None | Blur e | Resize e _ | SetAppearance e _ | Input e _ => Some e end.

(** The body a command may be dispatched with under boundary [b]. *)

Definition authorised_body (command : ControlCommand) (s : SubscriptionRef) (b : Boundary) : PipeBody :=
  match cc_body command with
  | Focus _ g ap => C_set_control (b_epoch b) (b_epoch b + 1) (Some (holder s)) g ap
  | Blur _ => C_set_control (b_epoch b) (b_epoch b) None (b_geometry b) None
  | Input e q => C_input s e q
  | Resize e g => C_resize s e g
  | SetAppearance e ap => C_appearance s e ap
  end.

(** The route that sends the command holds the control it claims. *)

Definition authorised (command : ControlCommand) (context : ControlRouteContext) (r : Run) (b : Boundary) (c : PipeCommand) : Prop :=
  let s := cx_subscription context in
  r_boundary r = Some b
  /\ c = mkPipe (r_worker r) (r_ref r) (cx_requestId context) (authorised_body command s b)
  /\ match command_epoch command with
     | None => b_epoch b <> MAX_SAFE_INTEGER
     | Some e => b_holder b = Some (holder s) /\ b_epoch b = e
                 /\ exists ct, jget s (counters r) = Some ct /\ grantEpoch ct = e /\ retired ct = false
     end.

Definition dispatchable (w : World) (a : ControlArbiter) (r : Run) (j : Job) (c : PipeCommand) : Prop :=
  match job_kind j with
  | Control command context =>
     job_current w command context r a = true
     /\ exists b, authorised command context r b c /\ w_installed w (cx_id context) (fence_seq command b) = true
  | Programmatic command _ _ =>
     program_current w command a = true /\ truthy (programFailure r) = false /\ c = program_pipe command
  end.

(** An effect of one stretch of run [id]'s loop, seen from the state before it:
    a dispatch is the head's own, for the first time and behind its fence. *)

Definition fenced (w : World) (id : string) (a : ControlArbiter) (e : Effect) : Prop :=
  match e with
  | Dispatched i n c bytes =>
     i = id /\ exists r j rest, jget id (runs a) = Some r /\ queue r = j :: rest /\ job_id j = n /\ dispatched j = false
       /\ bytes = payload j /\ dispatchable w a r j c
  | Replied i n _ | Receipted i n _ =>
     i = id /\ exists r j rest, jget id (runs a) = Some r /\ queue r = j :: rest /\ job_id j = n
  | JobAdmitted _ _ => False
  | _ => True
  end.

Lemma quiet_fenced w id a e : quiet e -> fenced w id a e.
Proof. by destruct e. Qed.

Lemma matches_holder h s : matches h s = true <-> h = Some (holder s).
Proof.
  unfold matches, holder. destruct h as [[c v i]|]; cbn; [| done].
  rewrite !andb_true_iff, sameConnectionRef_eq, !seqb_eq. split; [by intros [[-> ->] ->] | by intros [= -> -> ->]].
Qed.

Lemma pipe_of_authorised w command context r c b pipe a : r_boundary r = Some b ->
  jget (cx_subscription context) (counters r) = Some c -> job_current w command context r a = true ->
  pipe_of w command context r c b = inr pipe -> authorised command context r b pipe.
Proof.
  intros Hb Hc Hcur. assert (Hret : retired c = false).
  { unfold job_current in Hcur. rewrite Hc in Hcur. by bool_hyps. }
  assert (Hg : forall e, matches (b_holder b) (cx_subscription context) && (b_epoch b =? e) && (grantEpoch c =? e) = true ->
     b_holder b = Some (holder (cx_subscription context)) /\ b_epoch b = e
     /\ exists ct, jget (cx_subscription context) (counters r) = Some ct /\ grantEpoch ct = e /\ retired ct = false).
  { intros e Hm. bool_hyps. split_and!; [by apply matches_holder | lia |]. exists c. split_and!; [done | lia | done]. }
  unfold pipe_of, authorised, authorised_body, command_epoch. cbv zeta. destruct (cc_body command) as [q g ap|e|e g|e ap|e q].
  - destruct (Z.eqb_spec (b_epoch b) MAX_SAFE_INTEGER); [done |]. intros [= <-]. done.
  - destruct (matches _ _ && _ && _) eqn:Hm; [| done]. intros [= <-]. do 2 (split; [done |]). by apply Hg.
  - destruct (matches _ _ && _ && _) eqn:Hm; [| done]. cbn [negb]. case_if; [done |]. intros [= <-]. do 2 (split; [done |]). by apply Hg.
  - destruct (matches _ _ && _ && _) eqn:Hm; [| done]. cbn [negb]. case_if; [done |]. intros [= <-]. do 2 (split; [done |]). by apply Hg.
  - destruct (matches _ _ && _ && _) eqn:Hm; [| done]. cbn [negb]. case_if; [done |]. intros [= <-]. do 2 (split; [done |]). by apply Hg.
Qed.

(** ** What one resumption may change *)

Lemma status_moves w id result r command context a P : jget id (runs a) = Some r ->
  moves id P a (resume_status w id result r command context a).
Proof.
  intros Hr. unfold resume_status. destruct result as [result|]; [| by repeat moves_step]. cbv zeta.
  case_if; [by repeat moves_step |]. destruct result as [res|e]; [| by repeat moves_step].
  destruct (live_status _) as [[status parsed]|]; [| by repeat moves_step].
  destruct (match r_boundary r with Some b => _ | None => _ end) eqn:Hs; [by repeat moves_step |].
  moves_step. apply moves_modify. intros r' Hr' b Hb. rewrite Hr in Hr'. injection Hr' as <-. rewrite Hb in Hs.
  eexists. split; [reflexivity |]. cbn. by apply Z.ltb_ge in Hs.
Qed.

Lemma mark_dispatched_same r : bmono r (mark_dispatched r).
Proof. apply bmono_same. unfold mark_dispatched. by destruct (queue r). Qed.

Lemma boundary_moves w id failure r j rest command context a : jget id (runs a) = Some r ->
  queue r = j :: rest -> job_kind j = Control command context -> dispatched j = false ->
  moves id (fenced w id a) a (resume_boundary w id failure r j command context a).
Proof.
  intros Hr Hq Hk Hd. unfold resume_boundary. cbv zeta.
  destruct failure as [[e|]|]; [by repeat moves_step | | by repeat moves_step]. case_if; [by repeat moves_step |].
  destruct (r_boundary r) as [b|] eqn:Hb; [| apply moves_refl].
  destruct (jget _ (counters r)) as [c|] eqn:Hc; [| apply moves_refl].
  destruct (pipe_of w command context r c b) as [kind|pipe] eqn:Hp; [by repeat moves_step |].
  case_if; [by repeat moves_step |]. bool_hyps. moves_step. eapply moves_trans; [| apply moves_emit].
  - apply moves_modify. intros. apply mark_dispatched_same.
  - split; [done |]. exists r, j, rest. split_and!; try done. unfold dispatchable. rewrite Hk. split; [done |].
    exists b. split; [by eapply pipe_of_authorised | done].
Qed.

Lemma accept_bmono command context b q r : (forall now, r_boundary r = Some now -> b_atSeq now <= q) ->
  bmono r (accept_boundary command context b q r).
Proof.
  intros Hq x Hx. exists (accepted_boundary command context b q).
  assert (Hs : b_atSeq (accepted_boundary command context b q) = q) by (unfold accepted_boundary; by destruct (cc_body command)).
  split; [| rewrite Hs; by apply Hq]. unfold accept_boundary. destruct (cc_body command); try done.
  by rewrite modify_counter_boundary.
Qed.

Lemma dispatched_moves w id result b r j command context a P : jget id (runs a) = Some r ->
  moves id P a (resume_dispatch w id result b r j command context a).
Proof.
  intros Hr. unfold resume_dispatch. destruct result as [result|]; [| by repeat moves_step]. cbv zeta.
  assert (Hdoubt : moves id P a (modify id (set_uncertain true) a)) by (apply moves_modify; intros; by apply bmono_same).
  destruct (result_failure result command) as [e|]; [moves_step; case_if; [done | apply moves_refl] |].
  destruct result as [res|]; [| by repeat moves_step].
  assert (Hnext : forall q, match r_boundary r with Some now => q <? b_atSeq now | None => false end = false ->
    moves id P a (modify id (fun _ => accept_boundary command context b q r) a)).
  { intros q Hlt. apply moves_modify. intros r' Hr'. rewrite Hr in Hr'. injection Hr' as <-. apply accept_bmono.
    intros now Hnow. rewrite Hnow in Hlt. by apply Z.ltb_ge in Hlt. }
  destruct (cc_body command); try (destruct (input_written _ _ _ _); by repeat moves_step);
    (destruct (res_atSeq res) as [q|]; [| by moves_step]; case_if; [by moves_step |];
     destruct (match r_boundary r with Some now => _ | None => _ end) eqn:Hlt; [by repeat moves_step |];
     case_if; moves_step; by apply Hnext).
Qed.

Lemma program_status_moves w id result r j command acc a : jget id (runs a) = Some r ->
  moves id quiet a (resume_program_status w id result r j command acc a).
Proof.
  intros Hr. unfold resume_program_status. destruct result as [result|]; [| by repeat moves_step]. cbv zeta.
  case_if; [by repeat moves_step |]. destruct (live_status result) as [[status parsed]|]; [| by repeat moves_step].
  destruct (match r_boundary r with Some b => _ | None => _ end) eqn:Hs; [by repeat moves_step |].
  set (f := fun r => set_uncertain false (set_boundary (status_boundary status parsed) r)).
  assert (Hf : moves id quiet a (modify id f a)).
  { apply moves_modify. intros r' Hr' b Hb. rewrite Hr in Hr'. injection Hr' as <-. rewrite Hb in Hs.
    eexists. split; [reflexivity |]. cbn. by apply Z.ltb_ge in Hs. }
  case_if; [by moves_step |]. case_if; [by moves_step |]. case_if; [by moves_step |]. by repeat moves_step.
Qed.

Lemma accept_moves w id result r j rest command cancelled acc a : jget id (runs a) = Some r ->
  queue r = j :: rest -> job_kind j = Programmatic command cancelled acc -> dispatched j = false ->
  truthy (programFailure r) = false ->
  moves id (fenced w id a) a (resume_accept w id result j command a).
Proof.
  intros Hr Hq Hk Hd Hf. unfold resume_accept. destruct result as [[]|]; [| by repeat moves_step | by repeat moves_step].
  case_if; [by repeat moves_step |]. bool_hyps. moves_step. eapply moves_trans; [| apply moves_emit].
  - apply moves_modify. intros. apply mark_dispatched_same.
  - split; [done |]. exists r, j, rest. split_and!; try done. unfold dispatchable. by rewrite Hk.
Qed.

Lemma settle_release_boundary s b result r : bmono r (settle_release s b result r).
Proof.
  assert (Hd : bmono r (set_uncertain true (modify_counter s (set_cleanup cl_unknown) r))).
  { apply bmono_same. cbn. apply modify_counter_boundary. }
  unfold settle_release. destruct result as [[res|e]|]; [| case_if; [apply bmono_refl | done] | done].
  destruct (res_atSeq res) as [q|]; [| done]. case_if; [| done]. cbv zeta. rewrite modify_counter_boundary.
  destruct (match r_boundary r with Some now => _ | None => _ end) eqn:Hle;
    [| apply bmono_same, modify_counter_boundary].
  intros x Hx. rewrite Hx in Hle. eexists. split; [reflexivity |]. cbn. by apply Z.leb_le in Hle.
Qed.

Lemma shift_moves id P r r0 j rest a : jget id (runs a) = Some r -> r_boundary r0 = r_boundary r ->
  moves id P a (shift_job id r0 j rest a).
Proof.
  intros Hr Hb. constructor; cbn [runs disposed trace shift_job]; try done.
  - intros k Hk. by rewrite jget_set, decide_False.
  - by rewrite Hr.
  - intros _ _. rewrite jget_set, decide_True by done. eauto.
  - exists []. by rewrite app_nil_r.
  - intros r1 r2 Hr1. rewrite Hr in Hr1. injection Hr1 as <-. rewrite jget_set, decide_True by done. intros [= <-].
    by apply bmono_same.
Qed.

Lemma settle_control_moves w id x r a : jwf (runs a) -> jget id (runs a) = Some r ->
  moves id (fenced w id a) a (settle_control w id x a).
Proof.
  intros Hwf Hr. unfold settle_control. rewrite Hr. destruct (queue r) as [|j rest] eqn:Hq; [apply moves_refl |].
  destruct (job_kind j) as [command context|]; [| apply moves_refl].
  set (pair := match x with Returned answer => _ | Threw => _ end).
  assert (Hpair : exists r0 rep, pair = (r0, rep) /\ r_boundary r0 = r_boundary r).
  { unfold pair. destruct x; by eauto. }
  destruct Hpair as (r0 & rep & -> & Hb).
  eapply (moves_trans _ _ _ (emit (Replied id (job_id j) rep) (shift_job id r0 j rest a))).
  - eapply moves_trans; [by apply (shift_moves id (fenced w id a) r r0 j rest) |]. apply moves_emit. split; [done |]. by exists r, j, rest.
  - eapply moves_weaken; [intros e; apply quiet_fenced |]. apply drain_loop_moves. cbn [runs emit shift_job]. by apply jwf_set.
Qed.

Lemma settle_program_moves w id x r a : jwf (runs a) -> jget id (runs a) = Some r ->
  moves id (fenced w id a) a (settle_program w id x a).
Proof.
  intros Hwf Hr. unfold settle_program. rewrite Hr. destruct (queue r) as [|j rest] eqn:Hq; [apply moves_refl |].
  destruct (job_kind j) as [|command cancelled acc]; [apply moves_refl |]. cbv zeta.
  set (input := match x with Returned input => _ | Threw => _ end). set (r0 := set_programFailure _ r).
  eapply (moves_trans _ _ _ (emit (Receipted id (job_id j) input) (shift_job id r0 j rest a))).
  - eapply moves_trans; [by apply (shift_moves id (fenced w id a) r r0 j rest) |]. apply moves_emit. split; [done |]. by exists r, j, rest.
  - eapply moves_weaken; [intros e; apply quiet_fenced |]. apply drain_loop_moves. cbn [runs emit shift_job]. by apply jwf_set.
Qed.

Lemma resume_moves fl fh budgets w id x a a' : arbiter_ok budgets fl fh a -> resume w id x a = Some a' ->
  moves id (fenced w id a) a a'.
Proof.
  intros Ha. pose proof (ao_wf _ _ _ _ Ha) as Hwf. unfold resume. destruct (jget id (runs a)) as [r|] eqn:Hr; [| done].
  pose proof (ro_phase _ _ (proj1 (ao_runs _ _ _ _ Ha _ _ Hr))) as Hph. unfold phase_ok in Hph.
  assert (Hq : forall p, moves id quiet a p -> moves id (fenced w id a) a p).
  { intros p. apply moves_weaken, quiet_fenced. }
  cbv zeta. destruct (phase r) as [| | |f|b|y| | | |y|i b|] eqn:Hp; destruct x as [|result|result]; try done.
  - destruct Hph as (j & rest & Hqu & _ & _). rewrite Hqu. cbn [head fmap option_fmap option_map].
    destruct (job_kind j); [| done]. intros [= <-]. by apply status_moves.
  - destruct Hph as [(j & rest & Hqu & [_ Hd] & _) _]. rewrite Hqu. cbn [head fmap option_fmap option_map].
    destruct (job_kind j) eqn:Hk; [| done]. intros [= <-]. by eapply boundary_moves.
  - destruct Hph as [(j & rest & Hqu & _ & _) _]. rewrite Hqu. cbn [head fmap option_fmap option_map].
    destruct (job_kind j); [| done]. intros [= <-]. by apply dispatched_moves.
  - intros [= <-]. by eapply settle_control_moves.
  - destruct Hph as [(j & rest & Hqu & _ & _) _]. rewrite Hqu. cbn [head fmap option_fmap option_map].
    destruct (job_kind j); [done |]. intros [= <-]. by apply Hq, program_status_moves.
  - destruct Hph as [(j & rest & Hqu & [_ Hd] & _) Hf]. rewrite Hqu. cbn [head fmap option_fmap option_map].
    destruct (job_kind j) eqn:Hk; [done |]. intros [= <-]. by eapply accept_moves.
  - destruct Hph as (j & rest & Hqu & _ & _). rewrite Hqu. cbn [head fmap option_fmap option_map].
    destruct (job_kind j); [done |]. intros [= <-]. unfold resume_program_dispatch. destruct result; by repeat moves_step.
  - intros [= <-]. by eapply settle_program_moves.
  - intros [= <-]. unfold resume_release. destruct (counters r !! i) as [[s c]|]; [| apply moves_refl].
    apply Hq. eapply moves_trans; [| apply cleanup_from_moves]. apply moves_modify. intros. apply settle_release_boundary.
  - intros [= <-]. by apply Hq, finish_drain_moves.
Qed.

Lemma resume_awake fl fh budgets w id x a a' : arbiter_ok budgets fl fh a -> resume w id x a = Some a' -> awake id a'.
Proof.
  intros Ha. pose proof (ao_wf _ _ _ _ Ha) as Hwf. unfold resume. destruct (jget id (runs a)) as [r|] eqn:Hr; [| done].
  pose proof (ro_phase _ _ (proj1 (ao_runs _ _ _ _ Ha _ _ Hr))) as Hph. unfold phase_ok in Hph.
  cbv zeta. destruct (phase r) as [| | |f|b|y| | | |y|i b|] eqn:Hp; destruct x as [|result|result]; try done.
  - destruct Hph as (j & rest & -> & _ & _). cbn [head fmap option_fmap option_map].
    destruct (job_kind j); [| done]. intros [= <-]. unfold resume_status. cbv zeta.
    repeat (case_match; try (by apply suspend_awake)).
  - destruct Hph as [(j & rest & -> & _ & _) _]. cbn [head fmap option_fmap option_map].
    destruct (job_kind j); [| done]. intros [= <-]. unfold resume_boundary. cbv zeta.
    repeat (case_match; try (by apply suspend_awake)); intros r' Hr'; rewrite Hr in Hr'; injection Hr' as <-; unfold rests; by rewrite Hp.
  - destruct Hph as [(j & rest & -> & _ & _) _]. cbn [head fmap option_fmap option_map].
    destruct (job_kind j); [| done]. intros [= <-]. unfold resume_dispatch. cbv zeta.
    repeat (case_match; try (by apply suspend_awake)).
  - intros [= <-]. destruct Hph as (j & rest & Hq & [Hj _] & _). unfold settle_control. rewrite Hr, Hq.
    unfold is_program in Hj. destruct (job_kind j); [| done]. case_match; apply drain_loop_awake; by apply jwf_set.
  - destruct Hph as [(j & rest & -> & _ & _) _]. cbn [head fmap option_fmap option_map].
    destruct (job_kind j); [done |]. intros [= <-]. unfold resume_program_status. cbv zeta.
    repeat (case_match; try (by apply suspend_awake)).
  - destruct Hph as [(j & rest & -> & _ & _) _]. cbn [head fmap option_fmap option_map].
    destruct (job_kind j); [done |]. intros [= <-]. unfold resume_accept.
    repeat (case_match; try (by apply suspend_awake)).
  - destruct Hph as (j & rest & -> & _ & _). cbn [head fmap option_fmap option_map].
    destruct (job_kind j); [done |]. intros [= <-]. unfold resume_program_dispatch. case_match; by apply suspend_awake.
  - intros [= <-]. destruct Hph as (j & rest & Hq & [Hj _] & _). unfold settle_program. rewrite Hr, Hq.
    unfold is_program in Hj. destruct (job_kind j); [done |]. cbv zeta. apply drain_loop_awake; by apply jwf_set.
  - intros [= <-]. destruct Hph as (_ & Hi & _). unfold resume_release.
    destruct (counters r !! i) as [[s c]|] eqn:E; [apply cleanup_from_awake |].
    apply lookup_ge_None in E. unfold jsmap in *. lia.
  - intros [= <-]. by apply finish_drain_awake.
Qed.

(** ** Executions

    The first two components count the plain leases and the live handles of
    the other owners of the account, who use it on their own ([as_account]). *)

Section executions.
Context (budgets : EffectiveBudgets).

Inductive arbiter_step (w : World) : Z * Z * ControlArbiter -> Z * Z * ControlArbiter -> Prop :=
  | as_admit command context bytes fl fh a :
      arbiter_step w (fl, fh, a) (fl, fh, (admit_control budgets w command context bytes a).2)
  | as_admit_programmatic command bytes fl fh a :
      arbiter_step w (fl, fh, a) (fl, fh, (admit_programmatic budgets w command bytes a).2)
  | as_execute id j fl fh a : arbiter_step w (fl, fh, a) (fl, fh, execute w id j a)
  | as_executeProgrammatic id j fl fh a : arbiter_step w (fl, fh, a) (fl, fh, executeProgrammatic w id j a)
  | as_cancel id j reason fl fh a : arbiter_step w (fl, fh, a) (fl, fh, cancelProgrammatic w id j reason a)
  | as_retire s fl fh a : arbiter_step w (fl, fh, a) (fl, fh, retire w s a)
  | as_tick fl fh a : arbiter_step w (fl, fh, a) (fl, fh, tick w a)
  | as_dispose fl fh a : arbiter_step w (fl, fh, a) (fl, fh, dispose w a)
  | as_event event fl fh a : disposed a = false -> arbiter_step w (fl, fh, a) (fl, fh, on_event event a)
  | as_resume id x a' fl fh a : resume w id x a = Some a' -> arbiter_step w (fl, fh, a) (fl, fh, a')
  | as_account fl fh fl' fh' a s : owns fl' fh' (arbiter_leases a) (arbiter_handles a) s ->
      arbiter_step w (fl, fh, a) (fl', fh', set_account s a).

Definition some_step (x y : Z * Z * ControlArbiter) : Prop := exists w, arbiter_step w x y.

Definition arbiter_reachable (s : B.t) (x : Z * Z * ControlArbiter) : Prop :=
  B.ok s /\ B.backed s /\ rtc some_step (plain_leases s, live_handles s, newControlArbiter s) x.

Lemma step_ok x y : arbiter_ok budgets x.1.1 x.1.2 x.2 -> some_step x y -> arbiter_ok budgets y.1.1 y.1.2 y.2.
Proof.
  intros Hok [w Hst]. revert Hok. destruct Hst; cbn [fst snd]; intros Hok.
  - by apply admit_control_ok.
  - by apply admit_programmatic_ok.
  - apply job_drain_ok; [done | apply keeps_ready].
  - apply job_drain_ok; [done | apply keeps_accept].
  - apply job_drain_ok; [done | apply keeps_cancel].
  - by apply arb_retire_ok.
  - by apply tick_ok.
  - by apply arb_dispose_ok.
  - by apply on_event_ok.
  - by eapply resume_ok.
  - destruct Hok. by constructor.
Qed.

Lemma arb_new_ok s : B.ok s -> B.backed s -> arbiter_ok budgets (plain_leases s) (live_handles s) (newControlArbiter s).
Proof.
  intros H1 H2. constructor; cbn; try done.
  - constructor; [done | done |]. constructor; try constructor; unfold zlen; cbn; lia.
  - apply NoDup_nil_2.
  - unfold zlen. cbn. lia.
  - intros id. constructor; cbn; constructor.
Qed.

Lemma arbiter_reachable_ok s x : arbiter_reachable s x -> arbiter_ok budgets x.1.1 x.1.2 x.2.
Proof.
  intros (Hs & Hb & Hr). apply (rtc_invariant some_step (fun x => arbiter_ok budgets x.1.1 x.1.2 x.2) _ _) in Hr;
    [done | by apply arb_new_ok | apply step_ok].
Qed.

(** *** What one operation may change *)

Record advances (P : Effect -> Prop) (a a' : ControlArbiter) : Prop := mk_advances {
  ad_boundary : forall id r r', jget id (runs a) = Some r -> jget id (runs a') = Some r' -> bmono r r';
  ad_gone : forall id, jget id (runs a') = None -> jget id (runs a) = None \/ disposed a' = true;
  ad_disposed : disposed a = true -> disposed a' = true;
  ad_trace : exists es, trace a' = trace a ++ es /\ Forall P es;
  ad_awake : (forall id, awake id a) -> forall id, awake id a';
}.

Lemma advances_refl P a : advances P a a.
Proof.
  constructor; try done; [| by left | exists []; by rewrite app_nil_r].
  intros id r r' Hr Hr'. rewrite Hr in Hr'. injection Hr' as <-. apply bmono_refl.
Qed.

Lemma advances_same P a a' : runs a' = runs a -> trace a' = trace a -> (disposed a = true -> disposed a' = true) -> advances P a a'.
Proof.
  intros Hr Ht Hd. constructor; try done.
  - intros id r r' H1 H2. rewrite Hr, H1 in H2. injection H2 as <-. apply bmono_refl.
  - intros id. rewrite Hr. by left.
  - exists []. by rewrite app_nil_r.
  - intros Haw id r. rewrite Hr. apply Haw.
Qed.

Lemma moves_advances id P a a' : moves id P a a' -> (awake id a -> awake id a') -> advances P a a'.
Proof.
  intros [F G K D T B] Haw. constructor; try done.
  - intros k r r' Hr Hr'. destruct (decide (k = id)) as [->|Hk]; [by apply B |].
    rewrite F, Hr in Hr' by done. injection Hr' as <-. apply bmono_refl.
  - intros k Hk'. destruct (decide (k = id)) as [->|Hk]; [| left; by rewrite <- F].
    destruct (disposed a) eqn:Hd; [by right | left]. destruct (jget id (runs a)) as [r|] eqn:Hr; [| done].
    destruct (K eq_refl ltac:(eauto)) as [r' Hr']. congruence.
  - by rewrite D.
  - intros Hall k. destruct (decide (k = id)) as [->|Hk]; [auto |]. intros r Hr. rewrite F in Hr by done. exact (Hall k r Hr).
Qed.

(** A change of the run followed by a drain. *)

Lemma awake_executing id a r : awake id a -> jget id (runs a) = Some r -> phase r <> Executing.
Proof. intros Haw Hr Hp. specialize (Haw r Hr). unfold rests in Haw. by rewrite Hp in Haw. Qed.

Lemma modify_executing id f a : awake id a -> (forall r, jget id (runs a) = Some r -> bmono r (f r) /\ phase (f r) = phase r) ->
  forall r, jget id (runs (modify id f a)) = Some r -> phase r <> Executing.
Proof.
  intros Haw Hf r. rewrite jget_modify, decide_True by done. destruct (jget id (runs a)) as [r0|] eqn:Hr; [| done].
  intros [= <-]. rewrite (proj2 (Hf r0 eq_refl)). by eapply awake_executing.
Qed.

Lemma modify_drain_advances (w : World) id f a : jwf (runs a) ->
  (forall r, jget id (runs a) = Some r -> bmono r (f r) /\ phase (f r) = phase r) ->
  advances quiet a (drain w id (modify id f a)).
Proof.
  intros Hwf Hf. apply (moves_advances id).
  - eapply moves_trans; [apply moves_modify; intros; by apply Hf | apply drain_moves; by apply modify_wf].
  - intros Haw. apply drain_awake; [by apply modify_wf |]. by apply modify_executing.
Qed.

(** No run appears; admissions alone create runs. *)

Definition shrinks (a a' : ControlArbiter) : Prop := forall id, jget id (runs a) = None -> jget id (runs a') = None.

Lemma moves_shrinks id P a a' : moves id P a a' -> shrinks a a'.
Proof. intros [F G _ _ _ _] k Hk. destruct (decide (k = id)) as [->|Hne]; [by apply G | by rewrite F]. Qed.

Lemma advances_trans P a b c : shrinks b c -> advances P a b -> advances P b c -> advances P a c.
Proof.
  intros Hsh [B1 G1 D1 (e1 & T1 & A1) W1] [B2 G2 D2 (e2 & T2 & A2) W2]. constructor.
  - intros k r r'' Hr Hr''. destruct (jget k (runs b)) as [r'|] eqn:E; [eapply bmono_trans; eauto |].
    rewrite (Hsh k E) in Hr''. done.
  - intros k Hk. destruct (G2 k Hk) as [Hb|Hd]; [| by right]. destruct (G1 k Hb) as [Ha|Hd]; [by left | right; by apply D2].
  - auto.
  - exists (e1 ++ e2). split; [by rewrite T2, T1, app_assoc | by apply Forall_app].
  - auto.
Qed.

Lemma foldl_advances (f : ControlArbiter -> string -> ControlArbiter) (I : ControlArbiter -> Prop) ids a :
  (forall a id, I a -> I (f a id) /\ advances quiet a (f a id) /\ shrinks a (f a id)) ->
  I a -> advances quiet a (foldl f a ids) /\ shrinks a (foldl f a ids).
Proof.
  intros Hf. revert a. induction ids as [|id ids IH]; intros a Ha; cbn [foldl]; [split; [apply advances_refl | by intros k] |].
  destruct (Hf a id Ha) as (H1 & H2 & H3). destruct (IH _ H1) as [H4 H5]. split.
  - by eapply advances_trans.
  - intros k Hk. auto.
Qed.

Lemma drain_advances w id a : jwf (runs a) -> advances quiet a (drain w id a) /\ shrinks a (drain w id a).
Proof.
  intros Hwf. pose proof (drain_moves w id a Hwf) as Hm. split; [| by eapply moves_shrinks].
  eapply moves_advances; [exact Hm |]. intros Haw.
  apply drain_awake; [done |]. intros r. by apply awake_executing.
Qed.

Lemma dispose_run_advances fl fh w a id : arbiter_ok budgets fl fh a -> disposed a = true ->
  advances quiet a (dispose_run w a id) /\ shrinks a (dispose_run w a id).
Proof.
  intros Ha Hd. pose proof (ao_wf _ _ _ _ Ha) as Hwf. unfold dispose_run. cbv zeta.
  set (f := fun r => set_queue (map set_ready (queue r)) r).
  assert (Hm : moves id quiet a (modify id f a)) by (apply moves_modify; intros; by apply bmono_same).
  assert (Hdr : moves id quiet a (drain w id (modify id f a))).
  { eapply moves_trans; [exact Hm |]. apply drain_moves. by apply modify_wf. }
  assert (Hda : awake id a -> awake id (drain w id (modify id f a))).
  { intros Haw. apply drain_awake; [by apply modify_wf |]. apply modify_executing; [done |]. intros. split; [by apply bmono_same | done]. }
  destruct (jget id (runs (modify id f a))) as [r|] eqn:Hr.
  - case_if; [| split; [by eapply moves_advances | by eapply moves_shrinks]].
    assert (Hre : moves id quiet a (release_run id (modify id f a))).
    { eapply moves_trans; [exact Hm |]. apply release_run_moves; [by apply modify_wf | by rewrite (mv_disposed _ _ _ _ Hm)]. }
    split; [eapply moves_advances; [exact Hre |] | by eapply moves_shrinks].
    unfold release_run. rewrite Hr. cbv zeta. intros _ x. cbn [runs set_account set_runs].
    rewrite jget_delete, decide_True; [done | done | by apply modify_wf].
  - split; [eapply moves_advances; [exact Hm |] | by eapply moves_shrinks]. intros _ x. by rewrite Hr.
Qed.

(** An admission leaves every other run and adds one job at the end of its own. *)

Lemma enqueue_advances id r kind bytes ls a a0 : runs a = runs a0 -> trace a = trace a0 -> disposed a = disposed a0 ->
  match jget id (runs a0) with
  | Some r0 => r_boundary r = r_boundary r0 /\ phase r = phase r0 /\ queue r = queue r0
  | None => queue r = [] /\ phase r = Idle
  end ->
  advances (fun e => match e with JobAdmitted _ _ => True | _ => False end) a0 (enqueue id r kind bytes ls a).2.
Proof.
  intros Er Et Ed Hr. unfold enqueue. constructor; cbn [snd emit runs trace disposed]; rewrite ?Er, ?Et, ?Ed; try done.
  - intros k r1 r2 H1. rewrite jget_set. case_decide as Hk; [subst k | rewrite H1; intros [= <-]; apply bmono_refl].
    rewrite H1 in Hr. destruct Hr as (Hb & _). intros [= <-]. by apply bmono_same.
  - intros k. rewrite jget_set. case_decide; [done | by left].
  - exists [JobAdmitted id (next_job a)]. split; [done | by repeat constructor].
  - intros Hall k x. cbn [runs emit]. rewrite jget_set. case_decide as Hk; [subst k | apply Hall]. intros [= <-].
    specialize (Hall id). unfold awake in Hall. unfold rests, head_ready. cbn [phase queue set_queue].
    destruct (jget id (runs a0)) as [r0|]; [destruct Hr as (_ & -> & ->) | destruct Hr as [-> ->]; done].
    specialize (Hall r0 eq_refl). unfold rests, head_ready in Hall. destruct (phase r0); try done. by destruct (queue r0).
Qed.

Lemma take_run_old ref worker a n r s : take_run budgets ref worker a = inr (n, r, s) ->
  match jget (run_runId ref) (runs a) with Some r0 => r = r0 | None => queue r = [] /\ phase r = Idle end.
Proof.
  unfold take_run. destruct (jget (run_runId ref) (runs a)); [by intros [= _ <- _] |].
  case_if; [done |]. destruct (B.reserve _ _ _) as [[]|]; [| done]. by intros [= _ <- _].
Qed.

Lemma admit_control_advances w command context bytes a :
  advances (fun e => match e with JobAdmitted _ _ => True | _ => False end) a (admit_control budgets w command context bytes a).2.
Proof.
  unfold admit_control. destruct (admit_checks _ _ _ _ _ _); [apply advances_refl |].
  destruct (take_run _ _ _ _) as [k|[[n r] s]] eqn:Ht; [apply advances_refl |]. apply take_run_old in Ht.
  destruct (take_counter _ _ _ _ _) as [[k s']|[[nc c] s']]; [by apply advances_same |].
  case_if; [by apply advances_same |]. destruct (take_job _ _ _) as [[[ls copy] s'']|s'']; [| by apply advances_same].
  case_if; [by apply advances_same |]. cbn [enqueue].
  refine (enqueue_advances (run_runId (cc_run command)) (set_counters _ r) _ _ _ (set_account s'' a) a eq_refl eq_refl eq_refl _).
  destruct (jget _ (runs a)); [by subst r | exact Ht].
Qed.

Lemma admit_programmatic_advances w command bytes a :
  advances (fun e => match e with JobAdmitted _ _ => True | _ => False end) a (admit_programmatic budgets w command bytes a).2.
Proof.
  unfold admit_programmatic. do 4 (case_if; [apply advances_refl |]).
  destruct (take_run _ _ _ _) as [k|[[n r] s]] eqn:Ht; [apply advances_refl |]. apply take_run_old in Ht. cbv zeta.
  destruct (B.reserve _ _ _) as [[l s']|]; [| by apply advances_same]. cbn [enqueue].
  refine (enqueue_advances (run_runId (pg_run command)) r _ _ _ (set_account s' a) a eq_refl eq_refl eq_refl _).
  destruct (jget _ (runs a)); [by subst r | exact Ht].
Qed.

Lemma observe_fact_advances q fact r : bmono r (observe_fact q fact r) /\ phase (observe_fact q fact r) = phase r
  /\ queue (observe_fact q fact r) = queue r.
Proof.
  unfold observe_fact. destruct (r_boundary r) as [b|] eqn:Hb.
  - destruct (q <=? b_atSeq b) eqn:E; [by split; [apply bmono_refl |] |]. apply Z.leb_gt in E.
    destruct fact; split; try done; try (by apply bmono_same); intros x Hx; rewrite Hb in Hx; injection Hx as <-;
      eexists; (split; [reflexivity | cbn; lia]).
  - destruct fact; split; try done; try (by apply bmono_same); intros x Hx; by rewrite Hb in Hx.
Qed.

Lemma on_event_advances event a : advances quiet a (on_event event a).
Proof.
  unfold on_event. cbv zeta. destruct (jget _ (runs a)) as [r|] eqn:Hr; [| apply advances_refl].
  destruct (pe_terminal event); try apply advances_refl. case_if; [apply advances_refl |].
  set (id := run_runId (pe_run event)) in *. set (f := observe_fact _ _).
  assert (Hf : forall r, bmono r (f r) /\ phase (f r) = phase r /\ queue (f r) = queue r) by (intros; apply observe_fact_advances).
  assert (Hm : moves id quiet a (modify id f a)) by (apply moves_modify; intros; apply Hf).
  pose proof (moves_shrinks _ _ _ _ Hm). destruct Hm as [F G K D T B0]. constructor; try done.
  - intros k r1 r2. rewrite jget_modify. case_decide as Hk; [| intros -> [= <-]; apply bmono_refl].
    subst k. rewrite Hr. intros [= <-] [= <-]. apply Hf.
  - intros k Hk. left. destruct (decide (k = id)) as [->|Hne]; [| by rewrite <- F].
    rewrite jget_modify, decide_True, Hr in Hk by done. done.
  - by rewrite D.
  - intros Hall k x. rewrite jget_modify. case_decide as Hk; [| apply Hall]. subst k. rewrite Hr. intros [= <-].
    destruct (Hf r) as (_ & Hp & Hq). unfold rests, head_ready. rewrite Hp, Hq. apply (Hall id r Hr).
Qed.

Lemma advances_weaken (P Q : Effect -> Prop) a a' : (forall e, P e -> Q e) -> advances P a a' -> advances Q a a'.
Proof. intros H [B0 G D (es & T & A) W]. constructor; try done. exists es. split; [done |]. by eapply Forall_impl. Qed.

(** What one step appends to the trace: an admission, or what one run's loop does. *)

Definition step_effect (w : World) (a : ControlArbiter) (e : Effect) : Prop :=
  match e with JobAdmitted _ _ => True | _ => exists id, fenced w id a e end.

Lemma quiet_step w a e : quiet e -> step_effect w a e.
Proof. intros He. destruct e; try done; by exists run. Qed.

Lemma fenced_step w id a e : fenced w id a e -> step_effect w a e.
Proof. destruct e; try done; intros H; by exists id. Qed.

Lemma map_ready_bmono (f : list Job -> list Job) r : bmono r (set_queue (f (queue r)) r).
Proof. by apply bmono_same. Qed.

Lemma retire_run_bmono s r q : bmono r (schedule_cleanup (set_queue q (modify_counter s set_retired r)) s).
Proof.
  apply bmono_same. unfold schedule_cleanup. cbn [r_boundary set_queue].
  destruct (r_boundary (modify_counter s set_retired r)); [case_if |]; rewrite ?modify_counter_boundary; cbn [r_boundary set_queue];
    apply modify_counter_boundary.
Qed.

Lemma modify_counter_phase s f r : phase (modify_counter s f r) = phase r.
Proof. unfold modify_counter. by destruct (jget s (counters r)). Qed.

Lemma retire_run_phase s r q : phase (schedule_cleanup (set_queue q (modify_counter s set_retired r)) s) = phase r.
Proof.
  unfold schedule_cleanup. destruct (r_boundary _); [case_if |]; rewrite ?modify_counter_phase; cbn [phase set_queue];
    apply modify_counter_phase.
Qed.

Lemma step_advances w x y : arbiter_ok budgets x.1.1 x.1.2 x.2 -> arbiter_step w x y ->
  advances (step_effect w x.2) x.2 y.2.
Proof.
  intros Hok Hst. revert Hok. destruct Hst; cbn [fst snd]; intros Hok; pose proof (ao_wf _ _ _ _ Hok) as Hwf.
  - eapply advances_weaken, admit_control_advances. by intros [].
  - eapply advances_weaken, admit_programmatic_advances. by intros [].
  - eapply advances_weaken; [apply quiet_step |]. apply modify_drain_advances; [done |]. intros. split; [by apply bmono_same | done].
  - eapply advances_weaken; [apply quiet_step |]. apply modify_drain_advances; [done |]. intros. split; [by apply bmono_same | done].
  - eapply advances_weaken; [apply quiet_step |]. apply modify_drain_advances; [done |]. intros. split; [by apply bmono_same | done].
  - eapply advances_weaken; [apply quiet_step |]. unfold retire. cbv zeta.
    destruct (jget (run_runId (sub_run s)) (runs a)) as [r|] eqn:Hr; [| apply advances_refl].
    destruct (jget s (counters r)); [| apply advances_refl]. case_if; [apply advances_refl |].
    apply modify_drain_advances; [done |]. intros r' Hr'. rewrite Hr in Hr'. injection Hr' as <-.
    split; [apply retire_run_bmono | apply retire_run_phase].
  - eapply advances_weaken; [apply quiet_step |]. unfold tick.
    apply (foldl_advances _ (arbiter_ok budgets fl fh)); [| done]. intros b id Hb.
    split; [by apply drain_ok |]. apply drain_advances. apply Hb.
  - eapply advances_weaken; [apply quiet_step |]. unfold dispose. destruct (disposed a) eqn:Hd; [apply advances_refl |].
    set (a0 := mkArbiter _ _ _ _ _ _).
    assert (H0 : arbiter_ok budgets fl fh a0) by (destruct Hok; by constructor).
    destruct (foldl_advances (dispose_run w) (fun b => arbiter_ok budgets fl fh b /\ disposed b = true) (jkeys (runs a)) a0) as [H1 H2].
    + intros b id [Hb Hbd]. destruct (dispose_run_advances fl fh w b id Hb Hbd) as [H1 H2]. split_and!; try done.
      * by apply dispose_run_ok.
      * by apply (ad_disposed _ _ _ H1).
    + done.
    + eapply advances_trans; [exact H2 | | exact H1]. by apply advances_same.
  - eapply advances_weaken; [apply quiet_step |]. apply on_event_advances.
  - eapply advances_weaken; [apply (fenced_step w id) |]. eapply moves_advances; [by eapply resume_moves |]. intros Haw.
    revert H. by eapply resume_awake.
  - by apply advances_same.
Qed.

(** *** How many resumptions a started job takes *)

Definition stretches (p : Phase) : nat :=
  match p with
  | AwaitStatus | AwaitProgramStatus => 4
  | AwaitBoundary _ | AwaitAccept => 3
  | AwaitDispatch _ | AwaitProgramDispatch => 2
  | AwaitPerform _ | AwaitProgram _ => 1
  | Idle | Executing | AwaitRelease _ _ | AwaitCleanup => 0
  end.

Definition job_ids (id : string) (q : list nat) (a : ControlArbiter) : Prop :=
  exists r, jget id (runs a) = Some r /\ map job_id (queue r) = q.

(** Run [id] has the queue [q] and needs fewer than [n] resumptions, but some. *)

Definition closer (id : string) (q : list nat) (n : nat) (a : ControlArbiter) : Prop :=
  exists r, jget id (runs a) = Some r /\ map job_id (queue r) = q /\ (0 < stretches (phase r) < n)%nat.

Lemma job_ids_modify id q f a : (forall r, map job_id (queue (f r)) = map job_id (queue r)) -> job_ids id q a -> job_ids id q (modify id f a).
Proof. intros Hf (r & Hr & Hq). exists (f r). by rewrite jget_modify, decide_True, Hr, Hf. Qed.

Lemma suspend_closer id q n p a : (0 < stretches p < n)%nat -> job_ids id q a -> closer id q n (suspend id p a).
Proof. intros Hp (r & Hr & Hq). exists (set_phase p r). unfold suspend. by rewrite jget_modify, decide_True, Hr. Qed.

Lemma mark_dispatched_ids r : map job_id (queue (mark_dispatched r)) = map job_id (queue r).
Proof. unfold mark_dispatched. destruct (queue r) eqn:E; [by rewrite E | done]. Qed.

Lemma modify_counter_queue s f r : queue (modify_counter s f r) = queue r.
Proof. unfold modify_counter. by destruct (jget s (counters r)). Qed.

Lemma accept_boundary_queue command context b q r : queue (accept_boundary command context b q r) = queue r.
Proof. unfold accept_boundary. cbv zeta. destruct (cc_body command); [by rewrite modify_counter_queue | ..]; done. Qed.

Ltac closer_step :=
  first
    [ apply suspend_closer; [cbn; lia |]
    | apply job_ids_modify; [intros; first [apply mark_dispatched_ids | by rewrite accept_boundary_queue | done] |]
    | match goal with |- job_ids _ _ (emit _ _) => change (job_ids ?i ?q (emit ?e ?a)) with (job_ids i q a) end
    | done ].

Lemma settled_app id t t' : settled id (t ++ t') = settled id t ++ settled id t'.
Proof. apply omap_app. Qed.

Lemma trace_settled P a a' id n : (exists es, trace a' = trace a ++ es /\ Forall P es) ->
  n ∈ settled id (trace a) -> n ∈ settled id (trace a').
Proof. intros (es & -> & _) Hn. rewrite settled_app. apply elem_of_app. by left. Qed.

Lemma settle_control_settles w id x a r j rest command context : jwf (runs a) -> jget id (runs a) = Some r -> queue r = j :: rest ->
  job_kind j = Control command context -> job_id j ∈ settled id (trace (settle_control w id x a)).
Proof.
  intros Hwf Hr Hq Hk. unfold settle_control. rewrite Hr, Hq, Hk.
  destruct x as [answer|]; cbv zeta;
    (eapply trace_settled; [eapply mv_trace, (drain_loop_moves w id); by apply jwf_set |]);
    cbn [trace emit shift_job]; rewrite settled_app; apply elem_of_app; right; unfold settled; cbn;
    rewrite decide_True by done; by apply list_elem_of_singleton.
Qed.

Lemma settle_program_settles w id x a r j rest command c acc : jwf (runs a) -> jget id (runs a) = Some r -> queue r = j :: rest ->
  job_kind j = Programmatic command c acc -> job_id j ∈ settled id (trace (settle_program w id x a)).
Proof.
  intros Hwf Hr Hq Hk. unfold settle_program. rewrite Hr, Hq, Hk. cbv zeta.
  eapply trace_settled; [eapply mv_trace, (drain_loop_moves w id); by apply jwf_set |].
  cbn [trace emit shift_job]. rewrite settled_app. apply elem_of_app. right. unfold settled. cbn.
  rewrite decide_True by done. by apply list_elem_of_singleton.
Qed.

Lemma resume_closer fl fh w id x a a' r j rest : arbiter_ok budgets fl fh a -> jget id (runs a) = Some r -> queue r = j :: rest ->
  (0 < stretches (phase r))%nat -> resume w id x a = Some a' ->
  job_id j ∈ settled id (trace a') \/ closer id (map job_id (queue r)) (stretches (phase r)) a'.
Proof.
  intros Ha Hr Hq Hn. pose proof (ao_wf _ _ _ _ Ha) as Hwf. unfold resume. rewrite Hr.
  destruct (ao_runs _ _ _ _ Ha _ _ Hr) as [[_ _ _ Hnames Hph _] _]. unfold phase_ok in Hph. unfold names_known in Hnames.
  assert (Hids : job_ids id (map job_id (queue r)) a) by (by exists r).
  revert Hn Hph. cbv zeta. rewrite Hq in *. cbn [head fmap option_fmap option_map].
  destruct (phase r) as [| | |f|b|y| | | |y|i b|] eqn:Hp; cbn [stretches]; intros Hn Hph; try lia;
    destruct x as [|result|result]; try done; destruct (job_kind j) as [command context|command c acc] eqn:Hk; try done; intros [= <-].
  - right. unfold resume_status. cbv zeta. repeat case_match; repeat closer_step.
  - right. destruct Hph as [_ Hb]. unfold resume_boundary. cbv zeta.
    destruct f as [[e|]|]; [by repeat closer_step | | by repeat closer_step]. destruct (Hb eq_refl) as [b' ->].
    destruct (Hnames j command context) as [ct ->]; [left | done |]. repeat case_match; repeat closer_step.
  - right. unfold resume_dispatch. cbv zeta. repeat case_match; repeat closer_step.
    all: eexists; rewrite jget_modify, decide_True, Hr by done; split; [reflexivity | by rewrite accept_boundary_queue, Hq].
  - left. by eapply settle_control_settles.
  - destruct Hph as (j' & rest' & Hj' & [Hc _] & _). injection Hj' as <- <-. unfold is_program in Hc. by rewrite Hk in Hc.
  - right. unfold resume_program_status. cbv zeta. repeat case_match; repeat closer_step.
  - right. unfold resume_accept. cbv zeta. repeat case_match; repeat closer_step.
  - right. unfold resume_program_dispatch. repeat case_match; repeat closer_step.
  - destruct Hph as (j' & rest' & Hj' & [Hc _] & _). injection Hj' as <- <-. unfold is_program in Hc. by rewrite Hk in Hc.
  - left. by eapply settle_program_settles.
Qed.

(** A loop that is suspended takes the answer it waits for. *)

Lemma resume_accepts fl fh w id a r : arbiter_ok budgets fl fh a -> awake id a -> jget id (runs a) = Some r -> phase r <> Idle ->
  exists x, is_Some (resume w id x a).
Proof.
  intros Ha Haw Hr Hp. pose proof (awake_executing _ _ _ Haw Hr) as Hex.
  pose proof (ro_phase _ _ (proj1 (ao_runs _ _ _ _ Ha _ _ Hr))) as Hph. unfold phase_ok in Hph. unfold resume. rewrite Hr. cbv zeta.
  assert (Hc : forall d, head_is (control_job d) (queue r) -> exists j rest command context, queue r = j :: rest /\ job_kind j = Control command context).
  { intros d (j & rest & Hq & [Hj _] & _). unfold is_program in Hj. destruct (job_kind j) eqn:E; [| done]. eauto 10. }
  assert (Hg : forall d, head_is (program_job d) (queue r) -> exists j rest command c acc, queue r = j :: rest /\ job_kind j = Programmatic command c acc).
  { intros d (j & rest & Hq & [Hj _] & _). unfold is_program in Hj. destruct (job_kind j) eqn:E; [done |]. eauto 10. }
  destruct (phase r) as [| | |f|b|y| | | |y|i b|]; try done.
  - apply Hc in Hph as (j & rest & cm & cx & -> & Hk). exists (RuntimeAnswered Threw). cbn. rewrite Hk. eauto.
  - destruct Hph as [Hph _]. apply Hc in Hph as (j & rest & cm & cx & -> & Hk). exists Turn. cbn. rewrite Hk. eauto.
  - destruct Hph as [Hph _]. apply Hc in Hph as (j & rest & cm & cx & -> & Hk). exists (RuntimeAnswered Threw). cbn. rewrite Hk. eauto.
  - exists Turn. eauto.
  - destruct Hph as [Hph _]. apply Hg in Hph as (j & rest & cm & c & acc & -> & Hk). exists (RuntimeAnswered Threw). cbn. rewrite Hk. eauto.
  - destruct Hph as [Hph _]. apply Hg in Hph as (j & rest & cm & c & acc & -> & Hk). exists (AcceptAnswered Threw). cbn. rewrite Hk. eauto.
  - apply Hg in Hph as (j & rest & cm & c & acc & -> & Hk). exists (RuntimeAnswered Threw). cbn. rewrite Hk. eauto.
  - exists Turn. eauto.
  - exists (RuntimeAnswered Threw). eauto.
  - exists Turn. eauto.
Qed.

(** *** Every other step leaves a suspended loop and its queue in place *)

Definition still (id : string) (a a' : ControlArbiter) : Prop :=
  forall r, jget id (runs a) = Some r -> running r = true ->
    exists r' more, jget id (runs a') = Some r' /\ phase r' = phase r /\ map job_id (queue r') = map job_id (queue r) ++ more.

Lemma still_same id a a' : jget id (runs a') = jget id (runs a) -> still id a a'.
Proof. intros E r Hr _. exists r, []. by rewrite E, app_nil_r. Qed.

Lemma still_trans id a b c : still id a b -> still id b c -> still id a c.
Proof.
  intros H1 H2 r Hr Hrun. destruct (H1 r Hr Hrun) as (r' & m1 & Hr' & Hp & Hq).
  destruct (H2 r' Hr') as (r'' & m2 & Hr'' & Hp' & Hq'); [unfold running in *; by rewrite Hp |].
  exists r'', (m1 ++ m2). split_and!; [done | by rewrite Hp' | by rewrite Hq', Hq, app_assoc].
Qed.

Lemma still_modify id k f a :
  (forall r, jget k (runs a) = Some r -> phase (f r) = phase r /\ map job_id (queue (f r)) = map job_id (queue r)) ->
  still id a (modify k f a).
Proof.
  intros Hf r Hr _. exists (if decide (id = k) then f r else r), []. rewrite jget_modify, app_nil_r.
  case_decide as Hk; [| done]. subst k. rewrite Hr. destruct (Hf r Hr). done.
Qed.

Lemma still_drain w id k a : jwf (runs a) -> still id a (drain w k a).
Proof.
  intros Hwf. destruct (decide (id = k)) as [->|Hk].
  - intros r Hr Hrun. exists r, []. unfold drain. by rewrite Hr, Hrun, app_nil_r.
  - apply still_same. by apply (mv_frame _ _ _ _ (drain_moves w k a Hwf)).
Qed.

Lemma still_modify_drain w id k f a : jwf (runs a) ->
  (forall r, jget k (runs a) = Some r -> phase (f r) = phase r /\ map job_id (queue (f r)) = map job_id (queue r)) ->
  still id a (drain w k (modify k f a)).
Proof. intros Hwf Hf. eapply still_trans; [by apply still_modify |]. apply still_drain. by apply modify_wf. Qed.

Lemma still_foldl id (f : ControlArbiter -> string -> ControlArbiter) (I : ControlArbiter -> Prop) ids a :
  (forall a k, I a -> I (f a k) /\ still id a (f a k)) -> I a -> still id a (foldl f a ids).
Proof.
  intros Hf. revert a. induction ids as [|k ids IH]; intros a Ha; cbn [foldl]; [by apply still_same |].
  destruct (Hf a k Ha). eapply still_trans; [eassumption | by apply IH].
Qed.

Lemma map_ids f q : (forall j, job_id (f j) = job_id j) -> map job_id (map f q) = map job_id q.
Proof. intros Hf. rewrite map_map. apply map_ext. intros. apply Hf. Qed.

Lemma modify_job_ids n f r : (forall j, job_id (f j) = job_id j) -> map job_id (queue (modify_job n f r)) = map job_id (queue r).
Proof. intros Hf. apply map_ids. intros j. destruct (Nat.eqb _ _); [apply Hf | done]. Qed.

Lemma still_modify_job w id k n f a : jwf (runs a) -> (forall j, job_id (f j) = job_id j) ->
  still id a (drain w k (modify k (modify_job n f) a)).
Proof. intros Hwf Hf. apply still_modify_drain; [done |]. intros r _. split; [done | by apply modify_job_ids]. Qed.

Lemma schedule_cleanup_queue s r : queue (schedule_cleanup r s) = queue r.
Proof. unfold schedule_cleanup. destruct (r_boundary r); [case_if |]; rewrite ?modify_counter_queue; done. Qed.

Lemma still_enqueue id k r kind bytes ls a a0 : runs a = runs a0 ->
  match jget k (runs a0) with Some r0 => phase r = phase r0 /\ queue r = queue r0 | None => True end ->
  still id a0 (enqueue k r kind bytes ls a).2.
Proof.
  intros Er Hr r1 H1 Hrun. unfold enqueue. cbn [snd emit runs]. rewrite Er, jget_set. case_decide as Hk.
  - subst k. rewrite H1 in Hr. destruct Hr as [Hp Hq]. eexists _, _. split; [done |]. cbn [phase queue set_queue].
    split; [done |]. by rewrite Hq, map_app.
  - exists r1, []. by rewrite H1, app_nil_r.
Qed.

Lemma still_admit_control id w command context bytes a : still id a (admit_control budgets w command context bytes a).2.
Proof.
  unfold admit_control. destruct (admit_checks _ _ _ _ _ _); [by apply still_same |].
  destruct (take_run _ _ _ _) as [k|[[n r] s]] eqn:Ht; [by apply still_same |]. apply take_run_old in Ht.
  destruct (take_counter _ _ _ _ _) as [[k s']|[[nc c] s']]; [by apply still_same |].
  case_if; [by apply still_same |]. destruct (take_job _ _ _) as [[[ls copy] s'']|s'']; [| by apply still_same].
  case_if; [by apply still_same |]. cbn [enqueue].
  refine (still_enqueue id (run_runId (cc_run command)) (set_counters _ r) _ _ _ (set_account s'' a) a eq_refl _).
  destruct (jget _ (runs a)); [by subst r | done].
Qed.

Lemma still_admit_programmatic id w command bytes a : still id a (admit_programmatic budgets w command bytes a).2.
Proof.
  unfold admit_programmatic. do 4 (case_if; [by apply still_same |]).
  destruct (take_run _ _ _ _) as [k|[[n r] s]] eqn:Ht; [by apply still_same |]. apply take_run_old in Ht. cbv zeta.
  destruct (B.reserve _ _ _) as [[l s']|]; [| by apply still_same]. cbn [enqueue].
  refine (still_enqueue id (run_runId (pg_run command)) r _ _ _ (set_account s' a) a eq_refl _).
  destruct (jget _ (runs a)); [by subst r | done].
Qed.

Lemma modify_disposed k f a : disposed (modify k f a) = disposed a.
Proof. unfold modify. by destruct (jget k (runs a)). Qed.

Lemma still_dispose_run w id k a : jwf (runs a) -> disposed a = true -> still id a (dispose_run w a k).
Proof.
  intros Hwf Hd. unfold dispose_run. cbv zeta. set (f := fun r => set_queue (map set_ready (queue r)) r).
  assert (Hm : still id a (modify k f a)) by (apply still_modify; intros; split; [done | by apply map_ids]).
  destruct (jget k (runs (modify k f a))) as [r|] eqn:Hr; [| done]. eapply still_trans; [exact Hm |].
  case_if; [| by apply still_drain, modify_wf]. destruct (decide (id = k)) as [->|Hk].
  - intros r' Hr' Hrun. rewrite Hr in Hr'. injection Hr' as <-. match goal with H : negb _ && _ = true |- _ => by rewrite Hrun in H end.
  - apply still_same, (mv_frame _ _ _ _ (release_run_moves k quiet (modify k f a) (modify_wf _ _ _ Hwf)
      (eq_trans (modify_disposed k f a) Hd))). done.
Qed.

Lemma step_still w id x y : arbiter_ok budgets x.1.1 x.1.2 x.2 -> arbiter_step w x y ->
  (exists z, x.1 = y.1 /\ resume w id z x.2 = Some y.2) \/ still id x.2 y.2.
Proof.
  intros Hok Hst. revert Hok. destruct Hst; cbn [fst snd]; intros Hok; pose proof (ao_wf _ _ _ _ Hok) as Hwf.
  - right. apply still_admit_control.
  - right. apply still_admit_programmatic.
  - right. by apply still_modify_job.
  - right. apply still_modify_job; [done |]. intros i. unfold accept_job. by destruct (job_kind i).
  - right. apply still_modify_job; [done |]. intros i. unfold cancel_job. by destruct (job_kind i).
  - right. unfold retire. cbv zeta. destruct (jget _ (runs a)) as [r|] eqn:Hr; [| by apply still_same].
    destruct (jget s (counters r)); [| by apply still_same]. case_if; [by apply still_same |].
    apply still_modify_drain; [done |]. intros r' Hr'. rewrite Hr in Hr'. injection Hr' as <-.
    split; [by apply retire_run_phase |]. rewrite schedule_cleanup_queue. cbn [queue set_queue]. rewrite modify_counter_queue.
    apply map_ids. intros i. unfold ready_if_named. by case_match.
  - right. unfold tick. apply (still_foldl id _ (arbiter_ok budgets fl fh)); [| done]. intros b k Hb.
    split; [by apply drain_ok | apply still_drain, Hb].
  - right. unfold dispose. destruct (disposed a) eqn:Hd; [by apply still_same |].
    eapply (still_trans id a (mkArbiter (runs a) (pending a) true (account a) (next_job a) (trace a))); [by apply still_same |].
    apply (still_foldl id _ (fun b => arbiter_ok budgets fl fh b /\ disposed b = true)).
    + intros b k [Hb Hbd]. split; [split; [by apply dispose_run_ok |] | apply still_dispose_run; [apply Hb | done]].
      apply (dispose_run_advances fl fh w b k Hb Hbd). done.
    + split; [| done]. destruct Hok; by constructor.
  - right. unfold on_event. cbv zeta. destruct (jget _ (runs a)) as [r|]; [| by apply still_same].
    destruct (pe_terminal event) as [e| | | | | |]; try (by apply still_same). case_if; [by apply still_same |].
    apply still_modify. intros r' _. destruct (observe_fact_advances (ev_seq e) (ev_fact e) r') as (_ & H1 & H2). by rewrite H1, H2.
  - destruct (decide (id = id0)) as [->|Hk]; [left; by exists x | right].
    apply still_same. by apply (mv_frame _ _ _ _ (resume_moves _ _ _ _ _ _ _ _ Hok H)).
  - right. by apply still_same.
Qed.

Lemma reachable_awake s x : arbiter_reachable s x -> arbiter_ok budgets x.1.1 x.1.2 x.2 /\ forall id, awake id x.2.
Proof.
  intros (Hs & Hb & Hr).
  apply (rtc_invariant some_step (fun x => arbiter_ok budgets x.1.1 x.1.2 x.2 /\ forall id, awake id x.2) _ _) in Hr; [done | |].
  - split; [by apply arb_new_ok |]. intros id r. done.
  - intros y z [Hok Haw] Hst. split; [by eapply step_ok |]. destruct Hst as [w Hst].
    by apply (ad_awake _ _ _ (step_advances w y z Hok Hst)).
Qed.

Lemma sorted_nodup l : StronglySorted lt l -> NoDup l.
Proof.
  induction 1 as [|x l _ IH Hx]; constructor; [| done]. intros Hin. rewrite Forall_forall in Hx. specialize (Hx x Hin). lia.
Qed.

(** Only the head of a queue can be in flight. *)

Lemma phase_tail r j rest : phase_ok r -> queue r = j :: rest -> undispatched rest.
Proof.
  intros Hph Hq.
  assert (Hh : forall p, head_is p (queue r) -> undispatched rest).
  { intros p (j' & rest' & E & _ & Hu). rewrite Hq in E. by injection E as <- <-. }
  assert (Hu : undispatched (queue r) -> undispatched rest) by (rewrite Hq; unfold undispatched; intros H; by apply Forall_cons in H as [_ H]).
  unfold phase_ok in Hph. destruct (phase r);
    first [by apply Hu | by eapply Hh | destruct Hph as [Hph _]; first [by apply Hu | by eapply Hh]].
Qed.

Lemma disposed_stays x y : arbiter_ok budgets x.1.1 x.1.2 x.2 -> rtc some_step x y -> disposed x.2 = true -> disposed y.2 = true.
Proof.
  intros Hok Hxy Hd.
  apply (rtc_invariant some_step (fun x => arbiter_ok budgets x.1.1 x.1.2 x.2 /\ disposed x.2 = true) _ _) in Hxy; [by destruct Hxy | done |].
  intros u v [Hu Hud] Hst. split; [by eapply step_ok |]. destruct Hst as [w Hst].
  by apply (ad_disposed _ _ _ (step_advances w u v Hu Hst)).
Qed.

(** ** The properties *)

(** C18: At every moment the counter [pending] is the number of queued jobs of
    all runs, neither it nor the numbers of runs and of a run's counters exceed
    their budgets, and the leases and backing handles the arbiter holds in the
    runtime's account are exactly those of its runs, counters and queued jobs:
    they are live, distinct, and all there is besides the other owners'. *)
Theorem arbiter_exact s fl fh a : arbiter_reachable s (fl, fh, a) ->
  pending a = lsum (fun r => zlen (queue r)) (jvalues (runs a))
  /\ pending a <= Z.max 0 (pendingWorkerCommands budgets) /\ zlen (runs a) <= Z.max 0 (maxRuns budgets)
  /\ (forall id r, jget id (runs a) = Some r ->
       zlen (counters r) <= Z.max 0 (authenticatedSockets budgets * subscriptionsPerConnection budgets))
  /\ Forall (plain_lease (account a)) (arbiter_leases a) /\ NoDup (arbiter_leases a).*1
  /\ Forall (live_handle (account a)) (arbiter_handles a) /\ NoDup (arbiter_handles a)
  /\ plain_leases (account a) = fl + zlen (arbiter_leases a) /\ live_handles (account a) = fh + zlen (arbiter_handles a).
Proof.
  intros H%arbiter_reachable_ok. destruct H as [[_ _ [H1 H2 H3 H4 H5 H6]] _ H7 H8 [H9 H10] _]. cbn [fst snd] in *.
  split; [done |]. split; [done |]. split; [done |]. split; [intros id r Hr; apply (H7 id r Hr) |]. done.
Qed.

(** C16: The jobs of a run are settled in the order of their admission, each at
    most once: at every moment the admitted jobs are the settled ones followed
    by the queue.  A job is sent to the worker at most once, in the same order,
    and only the head of the queue can be in flight. *)
Theorem arbiter_order s fl fh a id : arbiter_reachable s (fl, fh, a) ->
  admitted id (trace a) = settled id (trace a) ++ map job_id (queued id a)
  /\ NoDup (admitted id (trace a))
  /\ sublist (sent id (trace a)) (admitted id (trace a)) /\ NoDup (sent id (trace a))
  /\ (in_flight (queued id a) = [] \/ exists j rest, queued id a = j :: rest /\ in_flight (queued id a) = [j]).
Proof.
  intros H%arbiter_reachable_ok. cbn [fst snd] in *. pose proof (ao_order _ _ _ _ H id) as [H1 H2 H3 _].
  assert (Hnd : NoDup (admitted id (trace a))) by by apply sorted_nodup.
  assert (Hsub : sublist (sent id (trace a)) (admitted id (trace a))).
  { etrans; [exact H2 |]. rewrite H1. apply sublist_app; [done |]. apply (sublist_fmap job_id). apply filter_sublist. }
  split_and!; [done | done | done | by eapply sublist_NoDup |].
  unfold queued in *. destruct (jget id (runs a)) as [r|] eqn:Hr; [| by left].
  destruct (queue r) as [|j rest] eqn:Hq; [by left |].
  pose proof (phase_tail _ _ _ (ro_phase _ _ (proj1 (ao_runs _ _ _ _ H _ _ Hr))) Hq) as Hu.
  unfold in_flight. cbn [List.filter]. fold (in_flight rest). rewrite (in_flight_none _ Hu).
  destruct (dispatched j); [right; eauto | by left].
Qed.

(** C15: A job is dispatched to the worker only by the step of its own run's
    loop that finds it at the head of the queue and not yet dispatched, with the
    bytes it was admitted with, and behind its fence: the connection and the
    placement are current at that moment and the counter is not retired; a blur,
    resize, appearance or input carries the epoch of the run's boundary, which
    names its subscription as holder and was granted to it; and the route has
    installed the boundary's sequence.  A programmatic write is dispatched only
    while no earlier one of its group failed.  Nothing else is dispatched, and a
    job is answered only by its own run's loop while it is the head. *)
Theorem dispatch_fenced s w fl fh a y : arbiter_reachable s (fl, fh, a) -> arbiter_step w (fl, fh, a) y ->
  exists es, trace y.2 = trace a ++ es
    /\ forall e, e ∈ es -> match e with JobAdmitted _ _ => True | _ => exists id, fenced w id a e end.
Proof.
  intros Hre Hst. apply arbiter_reachable_ok in Hre.
  destruct (ad_trace _ _ _ (step_advances w _ y Hre Hst)) as (es & H1 & H2). exists es. split; [exact H1 |].
  rewrite Forall_forall in H2. exact H2.
Qed.

(** C19: The boundary the arbiter knows of a run never goes back: no operation,
    no answer of the runtime and no event, however late, replaces it by one of
    an older sequence or forgets it.  And no run leaves the map before the
    arbiter is disposed. *)
Theorem boundary_monotone s x y : arbiter_reachable s x -> rtc some_step x y ->
  disposed y.2 = false ->
  forall id r, jget id (runs x.2) = Some r -> exists r', jget id (runs y.2) = Some r' /\
    forall b, r_boundary r = Some b -> exists b', r_boundary r' = Some b' /\ b_atSeq b <= b_atSeq b'.
Proof.
  intros Hre Hxy. apply arbiter_reachable_ok in Hre. revert Hre.
  induction Hxy as [x|x y z Hst Hxy IH]; intros Hre Hd id r Hr.
  - exists r. split; [done |]. intros b Hb. exists b. split; [done | lia].
  - pose proof (step_ok _ _ Hre Hst) as Hre'. destruct Hst as [w Hst].
    destruct (step_advances w x y Hre Hst) as [B0 G D _ _].
    destruct (jget id (runs y.2)) as [r1|] eqn:Hr1.
    + destruct (IH Hre' Hd id r1 Hr1) as (r' & Hr' & Hb'). exists r'. split; [done |]. intros b Hb.
      destruct (B0 id r r1 Hr Hr1 b Hb) as (b1 & Hb1 & Hle). destruct (Hb' b1 Hb1) as (b' & Hb'' & Hle'). exists b'. split; [done | lia].
    + destruct (G id Hr1) as [Hn|Hdis]; [congruence |].
      rewrite (disposed_stays _ _ Hre' Hxy Hdis) in Hd. done.
Qed.

(** An execution in which the loop of run [id] is resumed [n] times (or more). *)

Inductive exec (id : string) : nat -> Z * Z * ControlArbiter -> Z * Z * ControlArbiter -> Prop :=
  | exec_end x : exec id 0 x x
  | exec_resume w n z l a a' y : resume w id z a = Some a' -> exec id n (l, a') y -> exec id (S n) (l, a) y
  | exec_other w n x y z : arbiter_step w x y -> exec id n y z -> exec id n x z.

Lemma settled_grows x y id n : arbiter_ok budgets x.1.1 x.1.2 x.2 -> some_step x y ->
  n ∈ settled id (trace x.2) -> n ∈ settled id (trace y.2).
Proof.
  intros Hok [w Hst] Hn. eapply trace_settled; [| exact Hn]. exact (ad_trace _ _ _ (step_advances w x y Hok Hst)).
Qed.

(** A job in progress, and what brings it closer to its end. *)

Definition progressing (id : string) (n : nat) (job : nat) (x : Z * Z * ControlArbiter) : Prop :=
  job ∈ settled id (trace x.2)
  \/ exists r j rest, jget id (runs x.2) = Some r /\ queue r = j :: rest /\ job_id j = job /\ (0 < stretches (phase r) <= n)%nat.

Lemma progressing_resume w id z l a a' n job : arbiter_ok budgets l.1 l.2 a -> resume w id z a = Some a' ->
  progressing id (S n) job (l, a) -> progressing id n job (l, a').
Proof.
  intros Hok Hre [Hn|(r & j & rest & Hr & Hq & Hj & Hs)].
  - left. destruct l as [fl fh]. by apply (settled_grows (fl, fh, a) (fl, fh, a')); [| exists w; eapply as_resume |].
  - destruct (resume_closer _ _ _ _ _ _ _ _ _ _ Hok Hr Hq (proj1 Hs) Hre) as [Hn|(r' & Hr' & Hq' & Hs')]; [left; by subst job |].
    right. rewrite Hq in Hq'. destruct (queue r') as [|j' rest'] eqn:E; [done |]. injection Hq' as Hj' Hrest.
    exists r', j', rest'. split_and!; [done | done | by rewrite Hj' | lia | lia].
Qed.

Lemma progressing_step w id x y n job : arbiter_ok budgets x.1.1 x.1.2 x.2 -> arbiter_step w x y ->
  progressing id n job x -> progressing id n job y.
Proof.
  intros Hok Hst Hp. assert (Hgrow : job ∈ settled id (trace x.2) -> progressing id n job y).
  { intros Hn. left. eapply settled_grows; [done | by exists w | done]. }
  destruct (step_still w id x y Hok Hst) as [(z & El & Hre)|Hstill].
  - destruct x as [l a], y as [l' a']. cbn [fst snd] in *. subst l'.
    assert (Hn : progressing id (S n) job (l, a)).
    { destruct Hp as [Hn|(r & j & rest & H1 & H2 & H3 & H4 & H5)]; [by left | right; exists r, j, rest; split_and!; try done; lia]. }
    by eapply progressing_resume.
  - destruct Hp as [Hn|(r & j & rest & Hr & Hq & Hj & Hs)]; [by apply Hgrow |].
    destruct (Hstill r Hr) as (r' & more & Hr' & Hph & Hq'); [unfold running; destruct (phase r); try done; cbn in Hs; lia |].
    right. rewrite Hq in Hq'. destruct (queue r') as [|j' rest'] eqn:E; [done |]. injection Hq' as Hj' Hrest.
    exists r', j', rest'. rewrite Hph. split_and!; [done | done | by rewrite Hj' | lia | lia].
Qed.

(** C17: The loop of a run never sleeps on a ready job and never waits for what
    cannot come: when it is not running the head of the queue may not start,
    and when it is suspended it accepts the answer it waits for.  A job whose
    turn has come is answered: in every execution that resumes the loop as many
    times as the job has awaits left (four at most), whatever happens in
    between, it is settled. *)
Theorem arbiter_progress s x : arbiter_reachable s x -> forall id r, jget id (runs x.2) = Some r ->
  match phase r with
  | Idle => match queue r with j :: _ => ready j = false | [] => True end
  | _ => forall w, exists z, is_Some (resume w id z x.2)
  end
  /\ forall j rest y, queue r = j :: rest -> (0 < stretches (phase r))%nat ->
      exec id (stretches (phase r)) x y -> job_id j ∈ settled id (trace y.2).
Proof.
  intros Hre id r Hr. apply reachable_awake in Hre as [Hok Haw]. split.
  - pose proof (Haw id r Hr) as Hrest. unfold rests, head_ready in Hrest.
    destruct (phase r) eqn:Hp; try (intros w; eapply resume_accepts; [done | apply Haw | exact Hr | by rewrite Hp]).
    destruct (queue r); [done |]. by apply negb_true_iff in Hrest.
  - intros j rest y Hq Hs Hex.
    assert (Hp : progressing id (stretches (phase r)) (job_id j) x) by (right; exists r, j, rest; split_and!; (done || lia)).
    assert (Hgoal : progressing id 0 (job_id j) y).
    { revert Hok Hp. generalize (stretches (phase r)) as n, (job_id j) as job, Hex. clear. intros n job Hex.
      induction Hex as [x|w n z l a a' y Hre Hex IH|w n x y z Hst Hex IH]; intros Hok Hp; [done | |].
      - apply IH; [by eapply resume_ok | by eapply progressing_resume].
      - apply IH; [eapply step_ok; [exact Hok | by exists w] | by eapply progressing_step]. }
    destruct Hgoal as [Hn|(? & ? & ? & _ & _ & _ & H1 & H2)]; [done | lia].
Qed.

End executions.

(** ** Replies *)

(** A reply a client takes as the answer to its command. *)

Definition reply_fits (command : ControlCommand) (reply : Reply) : bool :=
  match reply with
  | Answer r => validateTerminalResultForCommand (terminal_command command) r
  | Refusal e =>
     seqb (te_requestId e) (cc_requestId command) && sameRunRef (te_run e) (cc_run command)
     && bool_decide (te_commandType e = command_type (terminal_command command))
     && matchingRefs (TM_error e) (Some (sub_connection (cc_subscription command)))
  end.

Lemma input_type command : bool_decide (command_type (terminal_command command) = t_input) = is_input command.
Proof. unfold command_type, terminal_command, is_input. by destruct (cc_body command). Qed.

Lemma refusal_fits command e : error_consistent (is_input command) e = true -> reply_fits command (Refusal (error command e)) = true.
Proof.
  intros He. unfold reply_fits, error, matchingRefs. cbn. rewrite input_type, He, (proj2 (seqb_eq _ _) eq_refl).
  rewrite (proj2 (sameRunRef_eq _ _) eq_refl). by rewrite bool_decide_eq_true_2.
Qed.

Lemma answer_fits command context e q : cx_subscription context = cc_subscription command ->
  match cc_body command with Blur i | Resize i _ | SetAppearance i _ | Input i _ => e = i | Focus _ _ _ => True end ->
  reply_fits command (answer command context e q) = true.
Proof.
  intros Hs He. assert (Hx : forall s, sameSubscriptionRef s s = true) by (intros; by apply sameSubscriptionRef_eq).
  unfold reply_fits, answer, answer_body, validateTerminalResultForCommand, terminal_command. rewrite Hs.
  destruct (cc_body command); cbn in *; rewrite (proj2 (seqb_eq _ _) eq_refl), (proj2 (sameRunRef_eq _ _) eq_refl), Hx;
    cbn; rewrite ?bool_decide_eq_true_2 by done; subst; cbn; by rewrite ?Z.eqb_refl.
Qed.

Lemma refuse_fits command kind : kind <> RESULT_UNKNOWN -> err_code (domainErrorOf kind) = ERROR_CODES kind ->
  err_kind (domainErrorOf kind) = kind -> err_subject (domainErrorOf kind) = false -> reply_fits command (refuse command kind) = true.
Proof.
  intros Hk H1 H2 H3. apply refusal_fits. unfold error_consistent. rewrite H1, H2, H3, Z.eqb_refl.
  rewrite bool_decide_eq_false_2 by done. by rewrite andb_false_r.
Qed.

Lemma unknown_fits command : reply_fits command (Refusal (error command (unknown_error (is_input command)))) = true.
Proof. apply refusal_fits. by destruct (is_input command). Qed.

(** [drain]'s answer once [perform] settled. *)

Definition final_reply (command : ControlCommand) (reply : Settled Reply) : Reply :=
  match reply with Returned x => x | Threw => Refusal (error command (unknown_error (is_input command))) end.

(** Whatever the runtime answers to a dispatched command, the command gets a
    reply that the client's validation takes as the answer to it: a result of
    its type, run, subscription, epoch and sequence, or an error of its request
    in which a lost input, and nothing else, carries the input subject. *)
Theorem dispatch_reply_valid w id result b r j command context a :
  cx_subscription context = cc_subscription command ->
  match command_epoch command with Some e => b_epoch b = e | None => True end ->
  match result with Returned (RError e) => error_consistent (is_input command) (perr_error e) = true | _ => True end ->
  exists reply a', resume_dispatch w id result b r j command context a = suspend id (AwaitPerform reply) a'
    /\ reply_fits command (final_reply command reply) = true.
Proof.
  intros Hs He Herr. unfold resume_dispatch. cbv zeta.
  destruct result as [result|]; [| exists Threw; eexists; split; [reflexivity | apply unknown_fits]].
  destruct result as [res|e]; cbn [result_failure].
  2:{ exists (Returned (Refusal (error command (perr_error e)))); eexists. split; [reflexivity | by apply refusal_fits]. }
  destruct (res_outcome res).
  - assert (Hunk : is_input command = false -> reply_fits command (Refusal (error command (unknown_error false))) = true).
    { intros Hi. rewrite <- Hi at 1. apply unknown_fits. }
    assert (Hin : is_input command = true -> reply_fits command (Refusal (error command (unknown_error true))) = true).
    { intros Hi. rewrite <- Hi at 1. apply unknown_fits. }
    unfold command_epoch in He. unfold is_input in Hunk, Hin.
    destruct (cc_body command) eqn:Hb; repeat case_match; (eexists _, _; split; [reflexivity |]);
      try (by apply refuse_fits); try (by apply Hunk); try (by apply Hin);
      (apply answer_fits; [done |]; unfold accepted_boundary; rewrite Hb; done).
  - exists (Returned (refuse command STALE_CONTROL)); eexists. split; [reflexivity | by apply refuse_fits].
  - exists (Returned (Refusal (error command (unknown_error (is_input command))))); eexists. split; [reflexivity | apply unknown_fits].
Qed.

(** The unknown result of the status read an input needs first comes without the
    input subject; the arbiter passes it on as the input's answer, which no
    client validation and no delivery accepts. *)

Lemma status_loss_reply_refused w id e r j command context a connection : is_input command = true ->
  err_kind (perr_error e) = RESULT_UNKNOWN -> err_subject (perr_error e) = false ->
  job_current w command context r a = true ->
  resume_status w id (Returned (RError e)) r command context a = suspend id (AwaitBoundary (Returned (Some (perr_error e)))) a
  /\ resume_boundary w id (Returned (Some (perr_error e))) r j command context a
     = suspend id (AwaitPerform (Returned (Refusal (error command (perr_error e))))) a
  /\ matchingRefs (TM_error (error command (perr_error e))) connection = false.
Proof.
  intros Hi Hk Hs Hcur. split; [unfold resume_status; by rewrite Hcur |]. split; [done |].
  unfold matchingRefs. cbn [metadata_run metadata_subscription error te_error te_commandType]. rewrite input_type.
  unfold error_consistent. rewrite Hk, Hs, Hi. cbn. by rewrite !andb_false_r.
Qed.

(** ** An execution: a focus, and an input that waits behind it *)

Section arbiter_demo.

Definition arb_run : RunRef := mkRun "server" "relay" "run-1".

Definition arb_worker : WorkerRef := mkWorker "server" "relay" "worker" "boot".

Definition arb_subscription : SubscriptionRef := mkSubscription arb_run (mkConnection "conn" 1) "sub" "view".

Definition arb_context : ControlRouteContext := mkContext 0 arb_subscription arb_worker "internal" "release".

Definition arb_world : World :=
  mkWorld (fun _ => Some arb_worker) (fun _ => Some live) (fun _ => true) (fun _ _ => true) (fun _ => false).

Definition arb_focus : ControlCommand := mkControl "r-1" arb_run arb_subscription (Focus 1 (mkGeometry 80 24) None).

Definition arb_input : ControlCommand := mkControl "r-2" arb_run arb_subscription (Input 1 1).

Definition arb_bytes : InputBytes := mkBytes 7 1 [97].

Definition arb_status : RunStatus := mkRunStatus arb_run live (mkGeometry 80 24) 0 None (Some 5) (Some 5) Protocol.ready None None None.

Definition arb_result (q : option Z) (st : option RunStatus) : Settled RuntimeResult :=
  Returned (RResult (mkPipeResult arb_worker arb_run "internal" ct_set_control accepted None None q None None None st None)).

Definition arb_first : ControlArbiter :=
  (admit_control M0_LIMITS arb_world arb_focus arb_context (mkBytes 0 0 []) (newControlArbiter B.demo_runtime)).2.

Definition arb_admitted : ControlArbiter := (admit_control M0_LIMITS arb_world arb_input arb_context arb_bytes arb_first).2.

Definition arb_executed : ControlArbiter := execute arb_world "run-1" 0 arb_admitted.

Definition arb_started : ControlArbiter := execute arb_world "run-1" 1 arb_executed.

Definition arb_resume (x : Resumption) (a : ControlArbiter) : ControlArbiter := default a (resume arb_world "run-1" x a).

Definition arb_fenced : ControlArbiter := arb_resume (RuntimeAnswered (arb_result None (Some arb_status))) arb_started.

Definition arb_dispatched : ControlArbiter := arb_resume Turn arb_fenced.

Definition arb_answered : ControlArbiter := arb_resume (RuntimeAnswered (arb_result (Some 6) None)) arb_dispatched.

Definition arb_replied : ControlArbiter := arb_resume Turn arb_answered.

Definition arb_start : Z * Z * ControlArbiter :=
  (plain_leases B.demo_runtime, live_handles B.demo_runtime, newControlArbiter B.demo_runtime).

Definition at_arb (a : ControlArbiter) : Z * Z * ControlArbiter := (arb_start.1, a).

Lemma arb_resumed x a : is_Some (resume arb_world "run-1" x a) -> arbiter_step M0_LIMITS arb_world (at_arb a) (at_arb (arb_resume x a)).
Proof. intros [a' E]. apply (as_resume _ _ "run-1" x). unfold arb_resume. by rewrite E. Qed.

Lemma arb_steps : rtc (some_step M0_LIMITS) arb_start (at_arb arb_started)
  /\ rtc (some_step M0_LIMITS) (at_arb arb_started) (at_arb arb_dispatched)
  /\ rtc (some_step M0_LIMITS) (at_arb arb_dispatched) (at_arb arb_replied).
Proof.
  split_and!.
  - eapply (rtc_l _ _ (at_arb arb_first)); [exists arb_world; exact (as_admit M0_LIMITS arb_world _ _ _ _ _ _) |].
    eapply (rtc_l _ _ (at_arb arb_admitted)); [exists arb_world; exact (as_admit M0_LIMITS arb_world _ _ _ _ _ _) |].
    eapply (rtc_l _ _ (at_arb arb_executed)); [exists arb_world; exact (as_execute M0_LIMITS arb_world _ _ _ _ _) |].
    apply rtc_once. exists arb_world. exact (as_execute M0_LIMITS arb_world _ _ _ _ _).
  - eapply (rtc_l _ _ (at_arb arb_fenced)); [exists arb_world; apply (arb_resumed (RuntimeAnswered _)); vm_compute; eauto |].
    apply rtc_once. exists arb_world. apply (arb_resumed Turn). vm_compute; eauto.
  - eapply (rtc_l _ _ (at_arb arb_answered)); [exists arb_world; apply (arb_resumed (RuntimeAnswered _)); vm_compute; eauto |].
    apply rtc_once. exists arb_world. apply (arb_resumed Turn). vm_compute; eauto.
Qed.

Lemma arb_reachable : arbiter_reachable M0_LIMITS B.demo_runtime (at_arb arb_started)
  /\ arbiter_reachable M0_LIMITS B.demo_runtime (at_arb arb_dispatched)
  /\ arbiter_reachable M0_LIMITS B.demo_runtime (at_arb arb_replied).
Proof.
  destruct (B.runtime_reachable_ok 1000000 1000 B.demo_runtime) as [H1 H2].
  { eapply B.reachable_intro; [reflexivity | apply rtc_refl]. }
  destruct arb_steps as (S1 & S2 & S3). split_and!; (split; [done |]; split; [done |]);
    [exact S1 | by etrans | by etrans; [etrans |]].
Qed.

Lemma arbiter_exact_witness : pending arb_replied = 1 /\ pending arb_replied = lsum (fun r => zlen (queue r)) (jvalues (runs arb_replied))
  /\ (arbiter_leases arb_replied).*1 = [0; 1; 3; 5]%nat /\ (arbiter_leases arb_replied).*2 = [8192; 4096; 1024; 257].
Proof.
  split; [by vm_compute |]. split; [| split; by vm_compute].
  destruct (arbiter_exact _ _ _ _ _ (proj2 (proj2 arb_reachable))) as (H & _). exact H.
Defined.

Lemma arbiter_order_witness : admitted "run-1" (trace arb_replied) = [0; 1]%nat /\ settled "run-1" (trace arb_replied) = [0]%nat
  /\ admitted "run-1" (trace arb_replied) = settled "run-1" (trace arb_replied) ++ map job_id (queued "run-1" arb_replied).
Proof.
  split; [by vm_compute |]. split; [by vm_compute |].
  destruct (arbiter_order _ _ _ _ _ "run-1" (proj2 (proj2 arb_reachable))) as (H & _). exact H.
Defined.

Lemma dispatch_fenced_witness : sent "run-1" (trace arb_dispatched) = [0]%nat /\
  exists es, trace arb_dispatched = trace arb_fenced ++ es /\ forall e, e ∈ es ->
    match e with JobAdmitted _ _ => True | _ => exists id, fenced arb_world id arb_fenced e end.
Proof.
  split; [by vm_compute |].
  assert (Hf : arbiter_reachable M0_LIMITS B.demo_runtime (at_arb arb_fenced)).
  { destruct (proj1 arb_reachable) as (H1 & H2 & H3). split; [done |]. split; [done |].
    eapply rtc_r; [exact H3 |]. exists arb_world. apply arb_resumed. vm_compute. eauto. }
  apply (dispatch_fenced _ _ _ _ _ _ (at_arb arb_dispatched) Hf). apply (arb_resumed Turn). vm_compute. eauto.
Defined.

Lemma boundary_monotone_witness : exists r', jget "run-1" (runs arb_replied) = Some r' /\
  forall b, Some (status_boundary arb_status 5) = Some b -> exists b', r_boundary r' = Some b' /\ b_atSeq b <= b_atSeq b'.
Proof.
  destruct arb_steps as (_ & _ & S3).
  destruct (jget "run-1" (runs arb_dispatched)) as [r|] eqn:E; [| by vm_compute in E].
  destruct (boundary_monotone _ _ _ _ (proj1 (proj2 arb_reachable)) S3 eq_refl "run-1" r E) as (r' & H1 & H2).
  exists r'. split; [exact H1 |]. vm_compute in E. injection E as <-. exact H2.
Defined.

Lemma arbiter_progress_witness : 0%nat ∈ settled "run-1" (trace arb_replied).
Proof.
  destruct (jget "run-1" (runs arb_dispatched)) as [r|] eqn:E; [| by vm_compute in E].
  destruct (queue r) as [|j rest] eqn:Hq; [vm_compute in E; injection E as <-; done |].
  assert (Hn : stretches (phase r) = 2%nat /\ job_id j = 0%nat).
  { vm_compute in E. injection E as <-. injection Hq as <- _. done. }
  destruct Hn as [Hn Hj]. rewrite <- Hj.
  refine (proj2 (arbiter_progress _ _ _ (proj1 (proj2 arb_reachable)) "run-1" r E) j rest (at_arb arb_replied) Hq _ _).
  - rewrite Hn. lia.
  - rewrite Hn. eapply (exec_resume _ _ arb_world 1 (RuntimeAnswered (arb_result (Some 6) None)) arb_start.1 arb_dispatched arb_answered).
    + by vm_compute.
    + eapply (exec_resume _ _ arb_world 0 Turn arb_start.1 arb_answered arb_replied); [by vm_compute | apply exec_end].
Defined.

Lemma dispatch_reply_valid_witness : exists reply a',
  resume_dispatch arb_world "run-1" (arb_result (Some 6) None) (status_boundary arb_status 5) (new_run arb_run arb_worker 0)
    (mkJob 0 (Control arb_focus arb_context) [] [] true true) arb_focus arb_context arb_dispatched = suspend "run-1" (AwaitPerform reply) a'
  /\ reply_fits arb_focus (final_reply arb_focus reply) = true.
Proof. apply (dispatch_reply_valid _ _ (arb_result (Some 6) None)); done. Defined.

End arbiter_demo.
