(* ===== verification/ClientControl.v ===== *)
(** * The client's control authority (packages/client/src/terminal-control.ts)

    A focus result is only a candidate grant until its ordered control fact is
    parsed; the grant ends when an observed fact contradicts it, and is carried
    across a resize recovery until the baseline reports the authority.  Control
    facts are objects of the caller: [canonicalFacts] maps the identity of an
    observed object to the copy made of it. *)

From S2P Require Import Prelude Json Protocol.

Record ControlFact := mkControlFact {
  cf_run : RunRef;
  cf_seq : Z;
  cf_epoch : Z;
  cf_holder : option ControlHolder;
  cf_geometry : Geometry;
}.

Record Grant := mkGrant {
  ref : SubscriptionRef;
  viewGeneration : Z;
  grant_intent : Z;
  epoch : Z;
  atSeq : Z;
}.

Definition heldBy (r : SubscriptionRef) (fact : ControlFact) : bool :=
  match cf_holder fact with
  | None => false
  | Some holder =>
     sameConnectionRef (holder_connection holder) (sub_connection r)
     && seqb (holder_viewId holder) (sub_viewId r)
     && seqb (holder_subscriptionId holder) (sub_subscriptionId r)
  end.

Definition contradicts (grantEpoch grantAtSeq : Z) (r : SubscriptionRef) (fact : ControlFact) : bool :=
  if grantEpoch <? cf_epoch fact then true
  else if cf_epoch fact =? grantEpoch then negb (heldBy r fact)
  else grantAtSeq <=? cf_seq fact.

Record TerminalControl := mkControl {
  intent : Z;
  foreground : bool;
  target : bool;
  pending : option Z;
  grant : option Grant;
  observed : option ControlFact;
  applied : option ControlFact;
  canonicalFacts : gmap nat ControlFact;
  reconnectFocus : bool;
  exited : bool;
  recovering : bool;
  carried : option Grant;
  carriedIntent : option Z;
  restoredGeneration : Z;
  targetLosses : Z;
}.

Definition newTerminalControl : TerminalControl :=
  mkControl 0 false false None None None None ∅ false false false None None 0 0.

(** Field updates. *)

Definition set_intent (v : Z) (s : TerminalControl) : TerminalControl :=
  mkControl v (foreground s) (target s) (pending s) (grant s) (observed s) (applied s)
    (canonicalFacts s) (reconnectFocus s) (exited s) (recovering s) (carried s) (carriedIntent s)
    (restoredGeneration s) (targetLosses s).

Definition set_foreground (v : bool) (s : TerminalControl) : TerminalControl :=
  mkControl (intent s) v (target s) (pending s) (grant s) (observed s) (applied s)
    (canonicalFacts s) (reconnectFocus s) (exited s) (recovering s) (carried s) (carriedIntent s)
    (restoredGeneration s) (targetLosses s).

Definition set_target (v : bool) (s : TerminalControl) : TerminalControl :=
  mkControl (intent s) (foreground s) v (pending s) (grant s) (observed s) (applied s)
    (canonicalFacts s) (reconnectFocus s) (exited s) (recovering s) (carried s) (carriedIntent s)
    (restoredGeneration s) (targetLosses s).

Definition set_pending (v : option Z) (s : TerminalControl) : TerminalControl :=
  mkControl (intent s) (foreground s) (target s) v (grant s) (observed s) (applied s)
    (canonicalFacts s) (reconnectFocus s) (exited s) (recovering s) (carried s) (carriedIntent s)
    (restoredGeneration s) (targetLosses s).

Definition set_grant (v : option Grant) (s : TerminalControl) : TerminalControl :=
  mkControl (intent s) (foreground s) (target s) (pending s) v (observed s) (applied s)
    (canonicalFacts s) (reconnectFocus s) (exited s) (recovering s) (carried s) (carriedIntent s)
    (restoredGeneration s) (targetLosses s).

Definition set_observed (v : option ControlFact) (s : TerminalControl) : TerminalControl :=
  mkControl (intent s) (foreground s) (target s) (pending s) (grant s) v (applied s)
    (canonicalFacts s) (reconnectFocus s) (exited s) (recovering s) (carried s) (carriedIntent s)
    (restoredGeneration s) (targetLosses s).

Definition set_applied (v : option ControlFact) (s : TerminalControl) : TerminalControl :=
  mkControl (intent s) (foreground s) (target s) (pending s) (grant s) (observed s) v
    (canonicalFacts s) (reconnectFocus s) (exited s) (recovering s) (carried s) (carriedIntent s)
    (restoredGeneration s) (targetLosses s).

Definition set_canonicalFacts (v : gmap nat ControlFact) (s : TerminalControl) : TerminalControl :=
  mkControl (intent s) (foreground s) (target s) (pending s) (grant s) (observed s) (applied s) v
    (reconnectFocus s) (exited s) (recovering s) (carried s) (carriedIntent s)
    (restoredGeneration s) (targetLosses s).

Definition set_reconnectFocus (v : bool) (s : TerminalControl) : TerminalControl :=
  mkControl (intent s) (foreground s) (target s) (pending s) (grant s) (observed s) (applied s)
    (canonicalFacts s) v (exited s) (recovering s) (carried s) (carriedIntent s)
    (restoredGeneration s) (targetLosses s).

Definition set_exited (v : bool) (s : TerminalControl) : TerminalControl :=
  mkControl (intent s) (foreground s) (target s) (pending s) (grant s) (observed s) (applied s)
    (canonicalFacts s) (reconnectFocus s) v (recovering s) (carried s) (carriedIntent s)
    (restoredGeneration s) (targetLosses s).

Definition set_recovering (v : bool) (s : TerminalControl) : TerminalControl :=
  mkControl (intent s) (foreground s) (target s) (pending s) (grant s) (observed s) (applied s)
    (canonicalFacts s) (reconnectFocus s) (exited s) v (carried s) (carriedIntent s)
    (restoredGeneration s) (targetLosses s).

Definition set_carried (v : option Grant) (s : TerminalControl) : TerminalControl :=
  mkControl (intent s) (foreground s) (target s) (pending s) (grant s) (observed s) (applied s)
    (canonicalFacts s) (reconnectFocus s) (exited s) (recovering s) v (carriedIntent s)
    (restoredGeneration s) (targetLosses s).

Definition set_carriedIntent (v : option Z) (s : TerminalControl) : TerminalControl :=
  mkControl (intent s) (foreground s) (target s) (pending s) (grant s) (observed s) (applied s)
    (canonicalFacts s) (reconnectFocus s) (exited s) (recovering s) (carried s) v
    (restoredGeneration s) (targetLosses s).

Definition set_restoredGeneration (v : Z) (s : TerminalControl) : TerminalControl :=
  mkControl (intent s) (foreground s) (target s) (pending s) (grant s) (observed s) (applied s)
    (canonicalFacts s) (reconnectFocus s) (exited s) (recovering s) (carried s) (carriedIntent s) v
    (targetLosses s).

Definition set_targetLosses (v : Z) (s : TerminalControl) : TerminalControl :=
  mkControl (intent s) (foreground s) (target s) (pending s) (grant s) (observed s) (applied s)
    (canonicalFacts s) (reconnectFocus s) (exited s) (recovering s) (carried s) (carriedIntent s)
    (restoredGeneration s) v.

Implicit Types s : TerminalControl.

(** [invalidate] and the resets built on it. *)

Definition invalidate s : TerminalControl :=
  let s := set_intent (default (-1) (nextCounter (intent s))) s in
  let s := set_pending None s in
  let s := set_grant None s in
  let s := set_recovering false s in
  let s := set_carried None s in
  set_carriedIntent None s.

Definition resetForRecovery s : TerminalControl :=
  set_applied None (set_observed None (invalidate s)).

Definition setTarget (fg tg : bool) s : TerminalControl :=
  let s := set_target (fg && tg) (set_foreground fg s) in
  if negb (target s) then invalidate (set_targetLosses (targetLosses s + 1) s) else s.

Definition wantsFocus s : bool := foreground s && target s.

Definition heldEpoch s : option Z :=
  match grant s with Some g => Some (epoch g) | None => epoch <$> carried s end.

Definition heldIntent s : option Z :=
  match grant s with Some g => Some (grant_intent g) | None => grant_intent <$> carried s end.

Definition carriesGrant s : bool := match carried s with Some _ => true | None => false end.

Definition rulesOut (e : Z) (r : SubscriptionRef) s : bool :=
  match observed s with
  | None => false
  | Some o => (e <? cf_epoch o) || ((cf_epoch o =? e) && negb (heldBy r o))
  end.

Definition has_epoch (e : Z) (g : option Grant) : bool :=
  match g with Some g => epoch g =? e | None => false end.

Definition keepsGrant (e : Z) s : bool := has_epoch e (grant s) || has_epoch e (carried s).

Definition is_intent (i : Z) (o : option Z) : bool := match o with Some j => j =? i | None => false end.

Definition carriesFocus (i : Z) s : bool := is_intent i (carriedIntent s) && wantsFocus s && negb (exited s).

Definition grant_contradicted (g : Grant) (r : SubscriptionRef) (o : option ControlFact) : bool :=
  match o with Some f => contradicts (epoch g) (atSeq g) r f | None => false end.

Definition holds (r : SubscriptionRef) (vg : Z) s : bool :=
  match grant s with
  | None => false
  | Some g =>
     wantsFocus s && negb (exited s) && sameSubscriptionRef (ref g) r && (viewGeneration g =? vg)
     && negb (grant_contradicted g r (observed s))
  end.

Definition beginFocus s : option Z * TerminalControl :=
  if negb (wantsFocus s) || exited s then (None, s)
  else match nextCounter (intent s) with
       | None => (None, s)
       | Some next =>
          (Some next,
           set_carriedIntent None (set_carried None (set_grant None (set_pending (Some next) (set_intent next s)))))
       end.

Definition acceptFocus (i : Z) (r : SubscriptionRef) (vg e at_ : Z) s : bool * TerminalControl :=
  let isCarried := is_intent i (carriedIntent s) in
  if (negb (is_intent i (pending s)) && negb isCarried) || negb (wantsFocus s) || exited s then (false, s)
  else if match observed s with Some o => contradicts e at_ r o | None => false end then (false, s)
  else if isCarried then
    let s := set_carriedIntent None s in
    if recovering s then (true, set_carried (Some (mkGrant r vg i e at_)) s)
    else (true, set_grant (Some (mkGrant r (restoredGeneration s) i e at_)) s)
  else (true, set_grant (Some (mkGrant r vg i e at_)) (set_pending None s)).

Definition failFocus (i : Z) s : TerminalControl :=
  let s := if is_intent i (pending s) then set_pending None s else s in
  if is_intent i (carriedIntent s) then set_carriedIntent None s else s.

Definition lost (g : option Grant) (r : SubscriptionRef) (fact : ControlFact) : bool :=
  match g with Some g => contradicts (epoch g) (atSeq g) r fact | None => false end.

(** [observe(fact, ref)]: [obj] is the identity of the caller's object. *)

Definition observe (obj : nat) (fact : ControlFact) (r : SubscriptionRef) s : bool * TerminalControl :=
  let stale :=
    match observed s with
    | None => false
    | Some p => (cf_epoch fact <? cf_epoch p) || ((cf_epoch fact =? cf_epoch p) && (cf_seq fact <? cf_seq p))
    end in
  if stale then (false, s)
  else
    let s := set_observed (Some fact) (set_canonicalFacts (<[obj := fact]> (canonicalFacts s)) s) in
    let s := if lost (grant s) r fact then set_pending None (set_grant None s) else s in
    let s := if lost (carried s) r fact then set_carried None s else s in
    (true, s).

Definition apply (obj : nat) s : option ControlFact * TerminalControl :=
  match canonicalFacts s !! obj with
  | None => (None, s)
  | Some c =>
     if match applied s with None => true | Some a => cf_epoch a <=? cf_epoch c end
     then (Some c, set_applied (Some c) s) else (None, s)
  end.

Definition ready (r : SubscriptionRef) (vg appliedSeq : Z) s : bool :=
  match grant s, applied s with
  | Some g, Some a =>
     wantsFocus s && negb (exited s) && sameSubscriptionRef (ref g) r && (viewGeneration g =? vg)
     && (atSeq g <=? appliedSeq) && (cf_epoch a =? epoch g) && heldBy r a
     && match observed s with
        | None => true
        | Some o => (cf_epoch o =? epoch g) && heldBy r o
        end
  | _, _ => false
  end.

Definition currentEpoch (r : SubscriptionRef) (vg appliedSeq : Z) s : option Z :=
  if ready r vg appliedSeq s then epoch <$> grant s else None.

Definition suspendForRecovery s : TerminalControl :=
  let g := grant s in
  let p := match pending s with Some i => Some i | None => carriedIntent s end in
  let s := resetForRecovery s in
  if negb (wantsFocus s) || exited s then s
  else set_carriedIntent (match g with Some _ => None | None => p end) (set_carried g (set_recovering true s)).

Definition set_view (g : Grant) (vg : Z) : Grant := mkGrant (ref g) vg (grant_intent g) (epoch g) (atSeq g).

Definition restore (control : BaselineControl) (at_ : Z) (run : RunRef) (geometry : Geometry)
    (r : SubscriptionRef) (vg : Z) s : TerminalControl :=
  let canonical := mkControlFact run at_ (bc_epoch control) (bc_holder control) geometry in
  let newer := match observed s with
               | None => true
               | Some o => (cf_epoch o <? cf_epoch canonical)
                           || ((cf_epoch canonical =? cf_epoch o) && (cf_seq o <=? cf_seq canonical))
               end in
  let s := if newer then set_observed (Some canonical) s else s in
  let s := set_applied (Some canonical) s in
  let c := carried s in
  let s := set_restoredGeneration vg (set_carried None (set_recovering false s)) in
  match c with
  | None => s
  | Some g =>
     if negb (wantsFocus s) || exited s || negb (sameSubscriptionRef (ref g) r) then s
     else if contradicts (epoch g) (atSeq g) r canonical || grant_contradicted g r (observed s) then s
     else set_grant (Some (set_view g vg)) s
  end.

Definition finishRecovery s : TerminalControl :=
  if negb (recovering s) then s
  else set_carriedIntent None (set_carried None (set_recovering false s)).

Definition connectionLost s : TerminalControl := resetForRecovery (set_reconnectFocus (wantsFocus s) s).

Definition takeReconnectFocus s : bool * TerminalControl :=
  (reconnectFocus s && wantsFocus s, set_reconnectFocus false s).

Definition replaceView s : TerminalControl :=
  resetForRecovery (set_reconnectFocus false (set_target false (set_foreground false s))).

Definition exit s : TerminalControl := resetForRecovery (set_exited true s).

Definition dispose s : TerminalControl := set_exited true (replaceView s).

(** ** The server's authority

    The server decides control in a log of facts with increasing sequences: a
    grant raises the epoch, and within an epoch the holder stays or is dropped.
    [auth log q] is the authority at sequence [q]. *)

Definition Authority : Type := Z * option ControlHolder.

Definition fact_authority (f : ControlFact) : Authority := (cf_epoch f, cf_holder f).

Definition succeeds (a b : Authority) : Prop := a.1 < b.1 \/ (b.1 = a.1 /\ (b.2 = a.2 \/ b.2 = None)).

Inductive authority_log : Z -> Authority -> list ControlFact -> Prop :=
  | log_nil q a : authority_log q a []
  | log_cons q a f log : q < cf_seq f -> succeeds a (fact_authority f) ->
      authority_log (cf_seq f) (fact_authority f) log -> authority_log q a (f :: log).

Fixpoint auth_from (a : Authority) (log : list ControlFact) (q : Z) : Authority :=
  match log with
  | [] => a
  | f :: rest => auth_from (if cf_seq f <=? q then fact_authority f else a) rest q
  end.

Definition auth (log : list ControlFact) (q : Z) : Authority := auth_from (0, None) log q.

Definition valid_log (log : list ControlFact) : Prop := authority_log (-1) (0, None) log.

Definition holder_of (r : SubscriptionRef) : ControlHolder :=
  mkHolder (sub_connection r) (sub_viewId r) (sub_subscriptionId r).

(** [r] holds [e] at [q]; it was granted [e] at [at_]; a fact reports the log. *)

Definition holds_at (log : list ControlFact) (r : SubscriptionRef) (e q : Z) : Prop :=
  auth log q = (e, Some (holder_of r)).

Definition granted (log : list ControlFact) (r : SubscriptionRef) (e at_ : Z) : Prop :=
  holds_at log r e at_ /\ (auth log (at_ - 1)).1 < e.

Definition true_fact (log : list ControlFact) (f : ControlFact) : Prop :=
  auth log (cf_seq f) = fact_authority f.

#[global] Instance succeeds_preorder : PreOrder succeeds.
Proof.
  split; [intros [e h]; right; auto |].
  intros [e1 h1] [e2 h2] [e3 h3] H1 H2. unfold succeeds in *. cbn in *.
  destruct H1 as [H1|[-> H1]], H2 as [H2|[-> H2]]; try (left; lia). right. split; [done |].
  destruct H2 as [->| ->]; auto.
Qed.

Lemma auth_before q0 b log a q : authority_log q0 b log -> q <= q0 -> auth_from a log q = a.
Proof.
  induction 1 as [|q0 b f log Hq _ _ IH]; intros Hle; [done |]. cbn. case_if; [lia |]. apply IH. lia.
Qed.

Lemma auth_after q0 a log q : authority_log q0 a log -> succeeds a (auth_from a log q).
Proof.
  induction 1 as [|q0 a f log Hq Hs Hl IH]; [done |]. cbn. case_if; [by etrans |].
  rewrite (auth_before _ _ _ _ _ Hl); [done | lia].
Qed.

Lemma auth_mono_from q0 a log q1 q2 : authority_log q0 a log -> q1 <= q2 ->
  succeeds (auth_from a log q1) (auth_from a log q2).
Proof.
  intros Hl Hq. induction Hl as [|q0 a f log Hq0 Hs Hl IH]; [done |]. cbn.
  destruct (cf_seq f <=? q1) eqn:E1, (cf_seq f <=? q2) eqn:E2; try lia; [done | |].
  - rewrite (auth_before _ _ _ _ q1 Hl) by lia. etrans; [exact Hs | by eapply auth_after].
  - by rewrite !(auth_before _ _ _ _ _ Hl) by lia.
Qed.

Lemma auth_mono log q1 q2 : valid_log log -> q1 <= q2 -> succeeds (auth log q1) (auth log q2).
Proof. apply auth_mono_from. Qed.

Lemma auth_epoch_lt log q1 q2 : valid_log log -> (auth log q1).1 < (auth log q2).1 -> q1 < q2.
Proof.
  intros Hl Hlt. destruct (Z.lt_ge_cases q1 q2) as [|Hge]; [done |].
  destruct (auth_mono log q2 q1 Hl Hge) as [|[? _]]; lia.
Qed.

(** Once a grant ended it never holds again. *)

Lemma ended_forever log r e q1 q2 : valid_log log -> e <= (auth log q1).1 -> ~ holds_at log r e q1 ->
  q1 <= q2 -> ~ holds_at log r e q2.
Proof.
  unfold holds_at. intros Hl He Hn Hq Hh. pose proof (auth_mono log q1 q2 Hl Hq) as Hm. rewrite Hh in Hm.
  destruct (auth log q1) as [e1 h1]. unfold succeeds in Hm. cbn in *.
  destruct Hm as [|[<- [E|E]]]; [lia | | done]. apply Hn. by rewrite E.
Qed.

Lemma heldBy_holder r f : heldBy r f = true <-> cf_holder f = Some (holder_of r).
Proof.
  unfold heldBy, holder_of. destruct (cf_holder f) as [[c v i]|]; cbn; [| done].
  rewrite !andb_true_iff, sameConnectionRef_eq, !seqb_eq. split; [by intros [[-> ->] ->] | by intros [= -> -> ->]].
Qed.

Lemma granted_after log r e at_ q : valid_log log -> granted log r e at_ -> at_ <= q -> e <= (auth log q).1.
Proof.
  intros Hl [Hh _] Hq. pose proof (auth_mono log at_ q Hl Hq) as Hm. unfold holds_at in Hh. rewrite Hh in Hm.
  unfold succeeds in Hm. cbn in Hm. lia.
Qed.

Lemma granted_before log r e at_ q : valid_log log -> granted log r e at_ -> q < at_ -> (auth log q).1 < e.
Proof.
  intros Hl [_ Hlt] Hq. pose proof (auth_mono log q (at_ - 1) Hl ltac:(lia)) as Hm.
  unfold succeeds in Hm. lia.
Qed.

(** The rule of [contradicts] is exact: a fact of the log rules a grant out when
    and only when the grant had begun and ended by that fact. *)

Lemma contradicts_ended log r e at_ f : valid_log log -> granted log r e at_ -> true_fact log f ->
  contradicts e at_ r f = true <-> at_ <= cf_seq f /\ ~ holds_at log r e (cf_seq f).
Proof.
  intros Hl Hg Hf. unfold true_fact, fact_authority in Hf. unfold contradicts, holds_at. rewrite Hf.
  pose proof (granted_before log r e at_ (cf_seq f) Hl Hg) as Hb.
  pose proof (granted_after log r e at_ (cf_seq f) Hl Hg) as Ha. rewrite Hf in Ha, Hb. cbn in Ha, Hb.
  destruct (e <? cf_epoch f) eqn:E1; [| destruct (cf_epoch f =? e) eqn:E2].
  - split; [| done]. intros _. split; [lia |]. intros [= ? _]. lia.
  - rewrite negb_true_iff, <- not_true_iff_false, heldBy_holder. assert (cf_epoch f = e) as -> by lia.
    split; [intros Hn; split; [lia | congruence] | intros [_ Hn] E; apply Hn; by rewrite E].
  - split; [intros ?; lia | intros [? _]; lia].
Qed.

(** Lexicographic freshness of facts is freshness of their sequences. *)

Definition older (f p : ControlFact) : bool :=
  (cf_epoch f <? cf_epoch p) || ((cf_epoch f =? cf_epoch p) && (cf_seq f <? cf_seq p)).

Lemma older_seq log f p : valid_log log -> true_fact log f -> true_fact log p ->
  older f p = (cf_seq f <? cf_seq p).
Proof.
  unfold true_fact, fact_authority, older. intros Hl Hf Hp.
  pose proof (auth_epoch_lt log (cf_seq f) (cf_seq p) Hl) as H1.
  pose proof (auth_epoch_lt log (cf_seq p) (cf_seq f) Hl) as H2. rewrite Hf, Hp in H1, H2. cbn in H1, H2. lia.
Qed.

(** ** Histories

    What the terminal was told: each call that reports the server's authority or
    hands a fact on is an event.  [delivered] are the facts and baselines since
    the last reset, [applications] the facts applied since the last reset or
    baseline, [copies] the copy made of each caller's object when its fact was
    last taken in, and [spared] the grants held when a baseline arrived, which
    [restore] does not judge. *)

Inductive ControlEvent :=
  | Ev_fact (obj : nat) (f : ControlFact) (accepted : bool)
  | Ev_apply (obj : nat) (answer : option ControlFact)
  | Ev_baseline (f : ControlFact) (held : option Grant)
  | Ev_reset
  | Ev_other.

Implicit Types h : list ControlEvent.

Definition deliver (l : list ControlFact) (e : ControlEvent) : list ControlFact :=
  match e with
  | Ev_fact _ f _ => l ++ [f]
  | Ev_baseline f _ => l ++ [f]
  | Ev_reset => []
  | Ev_apply _ _ | Ev_other => l
  end.

Definition delivered h : list ControlFact := fold_left deliver h [].

Definition record_application (l : list ControlFact) (e : ControlEvent) : list ControlFact :=
  match e with
  | Ev_apply _ (Some c) => l ++ [c]
  | Ev_baseline f _ => [f]
  | Ev_reset => []
  | Ev_apply _ None | Ev_fact _ _ _ | Ev_other => l
  end.

Definition applications h : list ControlFact := fold_left record_application h [].

Definition copy_fact (m : gmap nat ControlFact) (e : ControlEvent) : gmap nat ControlFact :=
  match e with Ev_fact obj f true => <[obj := f]> m | _ => m end.

Definition copies h : gmap nat ControlFact := fold_left copy_fact h ∅.

Definition spared (g : Grant) (b : ControlFact) h : Prop := Ev_baseline b (Some g) ∈ h.

(** ** Runs against a truthful server

    Every focus result is a grant of the log, every control fact and baseline
    reports its authority; all else (order, delays, repetition, view switches,
    losses) is arbitrary. *)

Section runs.
Context (log : list ControlFact) (Hlog : valid_log log).

Inductive happens : TerminalControl -> ControlEvent -> TerminalControl -> Prop :=
  | s_setTarget s fg tg : happens s Ev_other (setTarget fg tg s)
  | s_beginFocus s : happens s Ev_other (beginFocus s).2
  | s_acceptFocus s i r vg e at_ : granted log r e at_ -> happens s Ev_other (acceptFocus i r vg e at_ s).2
  | s_failFocus s i : happens s Ev_other (failFocus i s)
  | s_observe s obj f r : true_fact log f ->
      happens s (Ev_fact obj f (observe obj f r s).1) (observe obj f r s).2
  | s_apply s obj : happens s (Ev_apply obj (apply obj s).1) (apply obj s).2
  | s_invalidate s : happens s Ev_other (invalidate s)
  | s_suspend s : happens s Ev_reset (suspendForRecovery s)
  | s_restore s c at_ run g r vg : auth log at_ = (bc_epoch c, bc_holder c) ->
      happens s (Ev_baseline (mkControlFact run at_ (bc_epoch c) (bc_holder c) g) (grant s))
        (restore c at_ run g r vg s)
  | s_finish s : happens s Ev_other (finishRecovery s)
  | s_reset s : happens s Ev_reset (resetForRecovery s)
  | s_lost s : happens s Ev_reset (connectionLost s)
  | s_take s : happens s Ev_other (takeReconnectFocus s).2
  | s_replace s : happens s Ev_reset (replaceView s)
  | s_exit s : happens s Ev_reset (exit s)
  | s_dispose s : happens s Ev_reset (dispose s).

Inductive history : list ControlEvent -> TerminalControl -> Prop :=
  | h_new : history [] newTerminalControl
  | h_step h s e t : history h s -> happens s e t -> history (h ++ [e]) t.

Definition reachable (s : TerminalControl) : Prop := exists h, history h s.

Definition grant_ok (g : option Grant) : Prop :=
  forall x, g = Some x -> granted log (ref x) (epoch x) (atSeq x).

Definition fact_ok (f : option ControlFact) : Prop := forall x, f = Some x -> true_fact log x.

Record truthful (s : TerminalControl) : Prop := mk_truthful {
  tf_grant : grant_ok (grant s);
  tf_carried : grant_ok (carried s);
  tf_observed : fact_ok (observed s);
  tf_applied : fact_ok (applied s);
  tf_canonical : map_Forall (fun _ f => true_fact log f) (canonicalFacts s);
}.

Lemma grant_ok_none : grant_ok None.
Proof. by intros x. Qed.

Lemma fact_ok_none : fact_ok None.
Proof. by intros x. Qed.

Lemma grant_ok_some g : granted log (ref g) (epoch g) (atSeq g) -> grant_ok (Some g).
Proof. by intros H x [= <-]. Qed.

Lemma fact_ok_some f : true_fact log f -> fact_ok (Some f).
Proof. by intros H x [= <-]. Qed.

#[local] Hint Resolve grant_ok_none fact_ok_none grant_ok_some fact_ok_some : core.

Lemma reset_truthful s : map_Forall (fun _ f => true_fact log f) (canonicalFacts s) -> truthful (resetForRecovery s).
Proof. intros Hc. constructor; cbn; auto. Qed.

Lemma invalidate_truthful s : truthful s -> truthful (invalidate s).
Proof. intros []. constructor; cbn; auto. Qed.

Lemma observe_truthful s obj f r : true_fact log f -> truthful s -> truthful (observe obj f r s).2.
Proof.
  intros Hf [Hg Hca Ho Ha Hc]. unfold observe. case_if; [by constructor |]. cbn [snd].
  assert (Hc' : map_Forall (fun _ f => true_fact log f) (<[obj := f]> (canonicalFacts s)))
    by (apply map_Forall_insert_2; done).
  cbn. repeat (case_if; cbn); constructor; cbn; auto.
Qed.

Lemma acceptFocus_truthful s i r vg e at_ : granted log r e at_ -> truthful s ->
  truthful (acceptFocus i r vg e at_ s).2.
Proof.
  intros Hgr [Hg Hca Ho Ha Hc]. unfold acceptFocus. case_if; [by constructor |].
  destruct (match observed s with Some o => _ | None => _ end); [by constructor |].
  case_if; [cbn; case_if |]; constructor; cbn; auto.
Qed.

Lemma restore_truthful s c at_ run g r vg : auth log at_ = (bc_epoch c, bc_holder c) -> truthful s ->
  truthful (restore c at_ run g r vg s).
Proof.
  intros Hat [Hg Hca Ho Ha Hc]. unfold restore.
  set (canonical := mkControlFact run at_ (bc_epoch c) (bc_holder c) g).
  assert (Hcan : true_fact log canonical) by done.
  set (newer := match observed s with Some o => _ | None => _ end).
  destruct newer; cbn; destruct (carried s) as [k|] eqn:Ek; repeat case_if; constructor; cbn; rewrite ?Ek; auto.
  all: apply grant_ok_some; cbn; by apply Hca.
Qed.

Lemma happens_truthful s e t : truthful s -> happens s e t -> truthful t.
Proof.
  intros Ht Hst. revert Ht. destruct Hst; intros Ht; eauto using observe_truthful, acceptFocus_truthful,
    restore_truthful, invalidate_truthful, reset_truthful, tf_canonical; pose proof Ht as [Hg Hca Ho Ha Hc].
  - unfold setTarget. case_if; constructor; cbn; auto.
  - unfold beginFocus. case_if; [done |]. destruct (nextCounter (intent s)); [constructor; cbn; auto | done].
  - unfold failFocus. repeat case_if; by constructor.
  - unfold apply. destruct (canonicalFacts s !! obj) as [c|] eqn:E; [| done].
    destruct (match applied s with Some a => _ | None => _ end); [| done].
    constructor; cbn; auto. apply fact_ok_some. by apply (map_Forall_lookup_1 _ _ _ _ Hc E).
  - unfold suspendForRecovery. case_if; constructor; cbn; auto.
  - unfold finishRecovery. case_if; constructor; cbn; auto.
  - constructor; cbn; auto.
  - by constructor.
  - constructor; cbn; auto.
  - constructor; cbn; auto.
  - constructor; cbn; auto.
Qed.

Lemma history_truthful h s : history h s -> truthful s.
Proof.
  induction 1 as [|h s e t _ IH Hst]; [| by eapply happens_truthful].
  constructor; cbn; auto. apply map_Forall_empty.
Qed.

Lemma reachable_truthful s : reachable s -> truthful s.
Proof. intros [h Hr]. by eapply history_truthful. Qed.

Lemma control_step s e t : reachable s -> happens s e t -> reachable t.
Proof. intros [h Hr] Hst. eexists. by eapply h_step. Qed.

(** A reported fact that finds a grant over contradicts it for any subscription. *)

Lemma contradicts_any r r' e at_ f : granted log r e at_ -> true_fact log f -> at_ <= cf_seq f ->
  contradicts e at_ r' f = false -> holds_at log r e (cf_seq f).
Proof.
  intros Hg Hf Hle Hc. pose proof (granted_after log r e at_ (cf_seq f) Hlog Hg Hle) as Hge.
  unfold true_fact, holds_at, fact_authority in *. rewrite Hf in Hge |- *. unfold contradicts in Hc. cbn in Hge.
  repeat case_if; try lia. apply negb_false_iff, heldBy_holder in Hc. assert (cf_epoch f = e) as E by lia.
  destruct Hg as [Hh _]. pose proof (auth_mono log at_ (cf_seq f) Hlog Hle) as Hm. unfold holds_at in Hh.
  rewrite Hf, Hh in Hm. unfold succeeds in Hm. cbn in Hm. rewrite E, Hc in *.
  destruct Hm as [|[_ [->|?]]]; [lia | done | done].
Qed.

(** What a baseline leaves behind. *)

Definition latest_of (o : option ControlFact) (f : ControlFact) : ControlFact :=
  match o with Some p => if older f p then p else f | None => f end.

Lemma restore_cases s c at_ run gm r vg :
  let canonical := mkControlFact run at_ (bc_epoch c) (bc_holder c) gm in
  let t := restore c at_ run gm r vg s in
  observed t = Some (latest_of (observed s) canonical) /\ applied t = Some canonical
  /\ canonicalFacts t = canonicalFacts s
  /\ (grant t = grant s
      \/ exists k, carried s = Some k /\ ref k = r /\ grant t = Some (set_view k vg)
         /\ contradicts (epoch k) (atSeq k) r (latest_of (observed s) canonical) = false).
Proof.
  intros canonical t. subst t. unfold restore. fold canonical.
  assert (Hnew : match observed s with
                 | None => true
                 | Some o => (cf_epoch o <? cf_epoch canonical)
                             || ((cf_epoch canonical =? cf_epoch o) && (cf_seq o <=? cf_seq canonical))
                 end = match observed s with Some o => negb (older canonical o) | None => true end).
  { destruct (observed s) as [o|]; [| done]. unfold older. lia. }
  rewrite Hnew. clear Hnew. clearbody canonical.
  destruct s as [i fg tg pe gr ob ap cf rf ex re ca ci rg tl]. cbn -[sameSubscriptionRef].
  unfold latest_of, grant_contradicted, wantsFocus.
  destruct ob as [o|]; [destruct (older canonical o) |]; cbn -[sameSubscriptionRef];
    (destruct ca as [k|]; [| by auto]); cbn -[sameSubscriptionRef];
    (destruct (sameSubscriptionRef (ref k) r) eqn:Er; [apply sameSubscriptionRef_eq in Er |]); cbn;
    repeat (case_if; cbn); split_and!; try done; auto;
    right; exists k; split_and!; try done; by repeat match goal with H : _ || _ = false |- _ => apply orb_false_iff in H as [? ?] end.
Qed.

(** ** What the state knows of its history *)

Definition latest_known h s : Prop :=
  match observed s with
  | None => delivered h = []
  | Some o => o ∈ delivered h /\ forall f, f ∈ delivered h -> cf_seq f <= cf_seq o
  end.

Definition outlived h (g : Grant) : Prop :=
  exists b, spared g b h /\ atSeq g <= cf_seq b /\ ~ holds_at log (ref g) (epoch g) (cf_seq b).

Definition grant_known h s : Prop := forall g o, grant s = Some g -> observed s = Some o -> atSeq g <= cf_seq o ->
  holds_at log (ref g) (epoch g) (cf_seq o) \/ outlived h g.

Definition epoch_le (a b : ControlFact) : Prop := cf_epoch a <= cf_epoch b.

Record told h s : Prop := mk_told {
  td_latest : latest_known h s;
  td_grant : grant_known h s;
  td_applied : applied s = last (applications h);
  td_sorted : StronglySorted epoch_le (applications h);
  td_copies : canonicalFacts s = copies h;
  td_taken : forall obj c, copies h !! obj = Some c -> Ev_fact obj c true ∈ h;
  td_answers : forall obj c, Ev_apply obj (Some c) ∈ h -> Ev_fact obj c true ∈ h;
}.

Lemma delivered_snoc h e : delivered (h ++ [e]) = deliver (delivered h) e.
Proof. unfold delivered. by rewrite fold_left_app. Qed.

Lemma applications_snoc h e : applications (h ++ [e]) = record_application (applications h) e.
Proof. unfold applications. by rewrite fold_left_app. Qed.

Lemma copies_snoc h e : copies (h ++ [e]) = copy_fact (copies h) e.
Proof. unfold copies. by rewrite fold_left_app. Qed.

Lemma outlived_snoc h e g : outlived h g -> outlived (h ++ [e]) g.
Proof. intros (b & Hb & ?). exists b. split; [| done]. apply elem_of_app. by left. Qed.

Lemma earlier h e x : x ∈ h -> x ∈ h ++ [e].
Proof. intros ?. apply elem_of_app. by left. Qed.

Lemma newest h (e : ControlEvent) : e ∈ h ++ [e].
Proof. apply elem_of_app. right. by apply list_elem_of_singleton. Qed.

#[local] Hint Resolve outlived_snoc earlier newest : core.

Lemma taken_snoc h e : (forall obj c, copies h !! obj = Some c -> Ev_fact obj c true ∈ h) ->
  forall obj c, copies (h ++ [e]) !! obj = Some c -> Ev_fact obj c true ∈ h ++ [e].
Proof.
  intros Ht obj c. rewrite copies_snoc. destruct e as [o f []| | | |]; cbn; auto.
  destruct (decide (o = obj)) as [->|Hne]; [rewrite lookup_insert_eq; intros [= ->]; auto |].
  rewrite lookup_insert_ne by done. auto.
Qed.

Lemma answers_snoc h e : (forall obj c, Ev_apply obj (Some c) ∈ h -> Ev_fact obj c true ∈ h) ->
  (forall obj c, e = Ev_apply obj (Some c) -> Ev_fact obj c true ∈ h) ->
  forall obj c, Ev_apply obj (Some c) ∈ h ++ [e] -> Ev_fact obj c true ∈ h ++ [e].
Proof. intros Ha He obj c [Hi|Hi]%elem_of_app; [auto |]. apply list_elem_of_singleton in Hi. eauto. Qed.

Lemma told_other h s t : told h s -> observed t = observed s -> applied t = applied s ->
  canonicalFacts t = canonicalFacts s ->
  (forall g, grant t = Some g -> grant s = Some g
     \/ forall o, observed s = Some o -> atSeq g <= cf_seq o -> holds_at log (ref g) (epoch g) (cf_seq o)) ->
  told (h ++ [Ev_other]) t.
Proof.
  intros [Hl Hg Ha Hs Hc Ht Hn] Eo Ea Ec Hgt. constructor.
  - unfold latest_known. rewrite delivered_snoc, Eo. exact Hl.
  - intros g o E1 E2 Hle. rewrite Eo in E2. destruct (Hgt g E1) as [E|E]; [| by left; apply E].
    destruct (Hg g o E E2 Hle); auto.
  - by rewrite applications_snoc, Ea.
  - by rewrite applications_snoc.
  - by rewrite copies_snoc, Ec.
  - by apply taken_snoc.
  - by apply answers_snoc.
Qed.

Lemma told_reset h s t : told h s -> observed t = None -> applied t = None -> grant t = None ->
  canonicalFacts t = canonicalFacts s -> told (h ++ [Ev_reset]) t.
Proof.
  intros [Hl Hg Ha Hs Hc Ht Hn] Eo Ea Eg Ec. constructor.
  - unfold latest_known. by rewrite delivered_snoc, Eo.
  - intros g o E1. congruence.
  - by rewrite applications_snoc, Ea.
  - rewrite applications_snoc. constructor.
  - by rewrite copies_snoc, Ec.
  - by apply taken_snoc.
  - by apply answers_snoc.
Qed.

Lemma latest_upto h s f : latest_known h s -> fact_ok (observed s) -> true_fact log f ->
  let o := latest_of (observed s) f in
  o ∈ delivered h ++ [f] /\ forall x, x ∈ delivered h ++ [f] -> cf_seq x <= cf_seq o.
Proof.
  intros Hl Ho Hf o. subst o. unfold latest_known, latest_of in *.
  assert (Hend : f ∈ delivered h ++ [f]) by (apply elem_of_app; right; by apply list_elem_of_singleton).
  destruct (observed s) as [p|].
  - rewrite (older_seq log f p) by auto. destruct Hl as [Hp Hmax]. case_if; split; try done.
    + apply elem_of_app. by left.
    + intros x [Hx|Hx%list_elem_of_singleton]%elem_of_app; [auto | subst; lia].
    + intros x [Hx%Hmax|Hx%list_elem_of_singleton]%elem_of_app; [lia | by subst].
  - rewrite Hl in *. split; [done |]. intros x Hx%list_elem_of_singleton. by subst.
Qed.

Lemma observe_cases s obj f r : fact_ok (observed s) -> true_fact log f ->
  let t := (observe obj f r s).2 in
  observed t = Some (latest_of (observed s) f) /\ applied t = applied s
  /\ canonicalFacts t = (if (observe obj f r s).1 then <[obj := f]> (canonicalFacts s) else canonicalFacts s)
  /\ (t = s \/ observed t = Some f /\ (grant t = None \/ grant t = grant s /\ lost (grant s) r f = false)).
Proof.
  intros Ho Hf. unfold observe, latest_of. destruct (observed s) as [p|] eqn:E.
  - fold (older f p). destruct (older f p) eqn:Eo; [by auto |]. cbn [fst snd].
    destruct s; cbn in *; subst. destruct (lost grant0 r f) eqn:El; cbn; case_if; cbn; split_and!; auto.
  - cbn [fst snd]. destruct s; cbn in *; subst. destruct (lost grant0 r f) eqn:El; cbn; case_if; cbn; split_and!; auto.
Qed.

Lemma told_observe h s obj f r : truthful s -> true_fact log f -> told h s ->
  told (h ++ [Ev_fact obj f (observe obj f r s).1]) (observe obj f r s).2.
Proof.
  intros [Hgo _ Hfo _ _] Hf [Hl Hg Ha Hs Hc Ht Hn].
  destruct (observe_cases s obj f r Hfo Hf) as (Eo & Ea & Ec & Eg). set (t := (observe obj f r s).2) in *.
  constructor.
  - unfold latest_known. rewrite delivered_snoc, Eo. cbn. by apply (latest_upto h s f).
  - intros g o E1 E2 Hle. destruct Eg as [E|(E & [E3|[E3 E4]])]; [| congruence |].
    + rewrite E in *. destruct (Hg g o E1 E2 Hle); auto.
    + left. rewrite E in E2. injection E2 as [= <-]. rewrite E3 in E1. rewrite E1 in E4. cbn in E4.
      by apply (contradicts_any _ r _ (atSeq g)); auto.
  - by rewrite applications_snoc, Ea.
  - by rewrite applications_snoc.
  - rewrite copies_snoc, Ec, Hc. cbn. by destruct ((observe obj f r s).1).
  - by apply taken_snoc.
  - by apply answers_snoc.
Qed.

Lemma sorted_snoc l a : StronglySorted epoch_le l -> (forall x, x ∈ l -> cf_epoch x <= cf_epoch a) ->
  StronglySorted epoch_le (l ++ [a]).
Proof.
  induction 1 as [|x l Hs IH Hx]; intros Hle; cbn; [repeat constructor |]. constructor.
  - apply IH. intros y Hy. apply Hle. by apply list_elem_of_further.
  - apply Forall_app. split; [done |]. constructor; [| done]. apply Hle, list_elem_of_here.
Qed.

Lemma sorted_last l a x : StronglySorted epoch_le l -> last l = Some a -> x ∈ l -> cf_epoch x <= cf_epoch a.
Proof.
  induction 1 as [|y l Hs IH Hy]; intros Hla Hx; [done |]. apply elem_of_cons in Hx.
  destruct l as [|z l]; [injection Hla as [= ->]; destruct Hx as [->|Hx%not_elem_of_nil]; [lia | done] |].
  destruct Hx as [->|Hx]; [| by apply IH]. rewrite Forall_forall in Hy. apply Hy.
  change (last (z :: l) = Some a) in Hla. apply last_Some in Hla as [l' ->]. apply elem_of_app. right. by apply list_elem_of_singleton.
Qed.

Lemma told_apply h s obj : told h s -> told (h ++ [Ev_apply obj (apply obj s).1]) (apply obj s).2.
Proof.
  intros [Hl Hg Ha Hs Hc Ht Hn]. unfold apply. rewrite Hc. destruct (copies h !! obj) as [c|] eqn:Eq.
  2:{ constructor; cbn [fst snd]; rewrite ?applications_snoc; try done.
      3: by rewrite copies_snoc.
      - unfold latest_known. rewrite delivered_snoc. exact Hl.
      - intros g o E1 E2 Hle. destruct (Hg g o E1 E2 Hle); auto.
      - by apply taken_snoc.
      - by apply answers_snoc. }
  destruct (match applied s with None => true | Some a => _ end) eqn:E; constructor; cbn [fst snd];
    rewrite ?applications_snoc; cbn; try done.
  all: try by rewrite copies_snoc.
  all: try (unfold latest_known; rewrite delivered_snoc; exact Hl).
  all: try (intros g o E1 E2 Hle; destruct (Hg g o E1 E2 Hle); auto).
  all: try by apply taken_snoc.
  all: try by apply answers_snoc.
  - by rewrite last_snoc.
  - apply sorted_snoc; [done |]. intros x Hx. rewrite Ha in E. destruct (last (applications h)) as [a|] eqn:El.
    + pose proof (sorted_last _ _ _ Hs El Hx). lia.
    + apply last_None in El. rewrite El in Hx. by apply not_elem_of_nil in Hx.
  - apply answers_snoc; [done |]. intros o d [= <- <-]. auto.
Qed.

Lemma holds_at_dec r e q : Decision (holds_at log r e q).
Proof. unfold holds_at, Authority. solve_decision. Qed.

Lemma told_restore h s c at_ run gm r vg : auth log at_ = (bc_epoch c, bc_holder c) -> truthful s -> told h s ->
  told (h ++ [Ev_baseline (mkControlFact run at_ (bc_epoch c) (bc_holder c) gm) (grant s)]) (restore c at_ run gm r vg s).
Proof.
  intros Hat [Hgo Hco Hfo _ _] [Hl Hg Ha Hs Hc Ht Hn].
  destruct (restore_cases s c at_ run gm r vg) as (Eo & Ea & Ec & Eg).
  set (canonical := mkControlFact run at_ (bc_epoch c) (bc_holder c) gm) in *.
  set (t := restore c at_ run gm r vg s) in *. assert (Hf : true_fact log canonical) by exact Hat.
  pose proof (latest_upto h s canonical Hl Hfo Hf) as Hup. constructor.
  - unfold latest_known. rewrite delivered_snoc, Eo. exact Hup.
  - intros g o E1 E2 Hle. rewrite Eo in E2. injection E2 as [= <-].
    destruct Eg as [Eg|(k & E3 & E4 & E5 & E6)].
    + rewrite Eg in E1. unfold latest_of in *. destruct (observed s) as [p|] eqn:Ep; [destruct (older canonical p) |].
      { destruct (Hg g p E1 Ep Hle); auto. }
      all: destruct (holds_at_dec (ref g) (epoch g) (cf_seq canonical)); [by left | right];
        exists canonical; split_and!; try done; unfold spared; rewrite E1; auto.
    + left. rewrite E1 in E5. injection E5 as [= ->]. cbn in *. subst r.
      apply (contradicts_any _ (ref k) _ (atSeq k)); auto.
      unfold latest_of. destruct (observed s) as [p|]; [case_if; auto | done].
  - by rewrite applications_snoc, Ea.
  - rewrite applications_snoc. repeat constructor.
  - by rewrite copies_snoc, Ec.
  - by apply taken_snoc.
  - by apply answers_snoc.
Qed.

Lemma told_accept h s i r vg e at_ : granted log r e at_ -> truthful s -> told h s ->
  told (h ++ [Ev_other]) (acceptFocus i r vg e at_ s).2.
Proof.
  intros Hgr [_ _ Hfo _ _] Htold. unfold acceptFocus.
  case_if; [by apply (told_other h s); auto |].
  destruct (match observed s with Some o => contradicts e at_ r o | None => false end) eqn:E.
  { apply (told_other h s); auto. }
  assert (Hok : forall o, observed s = Some o -> at_ <= cf_seq o -> holds_at log r e (cf_seq o)).
  { intros o Eo Hle. rewrite Eo in E. apply (contradicts_any r r e at_ o); auto. }
  repeat (case_if; cbn [snd]); apply (told_other h s); auto; cbn; intros g [= <-]; right; cbn; auto.
Qed.

Lemma history_told h s : history h s -> told h s.
Proof.
  induction 1 as [|h s e t Hh IH Hst].
  { constructor; cbn; try done; try constructor. intros ? ? ?%not_elem_of_nil. done. }
  pose proof (history_truthful h s Hh) as Htr. revert Htr IH.
  destruct Hst; intros Htr IH; eauto using told_observe, told_apply, told_restore, told_accept;
    try (apply (told_reset h s); done).
  - apply (told_other h s); auto; unfold setTarget; case_if; cbn; auto; done.
  - apply (told_other h s); auto; unfold beginFocus; case_if; cbn; auto;
      destruct (nextCounter (intent s)); cbn; auto; done.
  - apply (told_other h s); auto; unfold failFocus; repeat case_if; cbn; auto.
  - apply (told_other h s); auto; done.
  - apply (told_reset h s); auto; unfold suspendForRecovery; case_if; done.
  - apply (told_other h s); auto; unfold finishRecovery; case_if; cbn; auto.
  - apply (told_other h s); auto.
Qed.

End runs.

(** ** Properties *)

(** The rule of [contradicts] is exact against any server log: a reported
    fact contradicts a grant when and only when the grant had begun and was over
    by that fact, and a grant that is over at a sequence stays over. *)
Theorem contradicts_exact (log : list ControlFact) (r : SubscriptionRef) (e at_ : Z) (f : ControlFact) :
  valid_log log -> granted log r e at_ -> true_fact log f ->
  (contradicts e at_ r f = true <-> at_ <= cf_seq f /\ ~ holds_at log r e (cf_seq f))
  /\ (contradicts e at_ r f = true -> forall q, cf_seq f <= q -> ~ holds_at log r e q).
Proof.
  intros Hl Hg Hf. pose proof (contradicts_ended log r e at_ f Hl Hg Hf) as Hc. split; [exact Hc |].
  intros [Hle Hn]%Hc q Hq. eapply ended_forever; [exact Hl | | exact Hn | exact Hq].
  by apply (granted_after log r e at_).
Qed.

Lemma true_fact_holds log r e f : true_fact log f ->
  (cf_epoch f =? e) && heldBy r f = true <-> holds_at log r e (cf_seq f).
Proof.
  unfold true_fact, holds_at, fact_authority. intros ->. rewrite andb_true_iff, heldBy_holder, Z.eqb_eq.
  split; [by intros [-> ->] | by intros [= -> ->]].
Qed.

Lemma ready_iff (log : list ControlFact) (s : TerminalControl) (r : SubscriptionRef) (vg q : Z) :
  valid_log log -> reachable log s ->
  ready r vg q s = true <->
    wantsFocus s = true /\ exited s = false
    /\ exists g a, grant s = Some g /\ ref g = r /\ viewGeneration g = vg /\ atSeq g <= q
       /\ granted log r (epoch g) (atSeq g)
       /\ applied s = Some a /\ holds_at log r (epoch g) (cf_seq a)
       /\ (forall o, observed s = Some o -> holds_at log r (epoch g) (cf_seq o)).
Proof.
  intros Hl Hr. destruct (reachable_truthful log s Hr) as [Hg _ Ho Ha _]. unfold ready.
  destruct (grant s) as [g|] eqn:Eg; [| split; [done | by intros (_ & _ & ? & ? & [=] & _)]].
  destruct (applied s) as [a|] eqn:Ea; [| split; [done | by intros (_ & _ & ? & ? & _ & _ & _ & _ & _ & [=] & _)]].
  pose proof (true_fact_holds log r (epoch g) a (Ha a eq_refl)) as Hha.
  assert (Hho : match observed s with None => true | Some o => (cf_epoch o =? epoch g) && heldBy r o end = true
      <-> forall o, observed s = Some o -> holds_at log r (epoch g) (cf_seq o)).
  { destruct (observed s) as [o|] eqn:Eo; [| by split].
    rewrite (true_fact_holds log r (epoch g) o (Ho o eq_refl)). split; [by intros ? ? [= <-] | by eauto]. }
  rewrite andb_true_iff, Hho, <- !andb_assoc, !andb_true_iff. rewrite andb_true_iff in Hha.
  rewrite negb_true_iff, sameSubscriptionRef_eq, Z.eqb_eq, Z.leb_le. split.
  - intros ((H1 & H2 & H3 & H4 & H5 & H6 & H7) & H8). split_and!; [done | done |]. exists g, a.
    split_and!; try done; [by rewrite <- H3; apply Hg | by apply Hha].
  - intros (H1 & H2 & g' & a' & [= <-] & H3 & H4 & H5 & _ & [= <-] & H6 & H7).
    apply Hha in H6 as [H6 H8]. by split_and!.
Qed.

(** What the history says of the parts of the state. *)

Lemma stale_iff log h s obj f r : valid_log log -> true_fact log f -> fact_ok log (observed s) -> latest_known h s ->
  (observe obj f r s).1 = false <-> exists o, o ∈ delivered h /\ cf_seq f < cf_seq o.
Proof.
  intros Hl Hf Ho Hk. unfold observe, latest_known in *. destruct (observed s) as [p|].
  - fold (older f p). rewrite (older_seq log f p) by auto. destruct Hk as [Hp Hmax]. case_if; cbn.
    + split; [intros _; exists p; split; [done | lia] | done].
    + split; [done |]. intros (o & Hin%Hmax & ?). lia.
  - cbn. rewrite Hk. split; [done |]. intros (o & Hin%not_elem_of_nil & _). done.
Qed.

Lemma grant_upto log h s g f : valid_log log -> truthful log s -> told log h s -> grant s = Some g ->
  f ∈ delivered h -> atSeq g <= cf_seq f -> holds_at log (ref g) (epoch g) (cf_seq f) \/ outlived log h g.
Proof.
  intros Hl Htr Htd Hg Hin Hle. pose proof (td_latest _ _ _ Htd) as Hk. unfold latest_known in Hk.
  destruct (observed s) as [o|] eqn:Eo; [| rewrite Hk in Hin; by apply not_elem_of_nil in Hin].
  destruct Hk as [_ Hmax]. specialize (Hmax f Hin).
  destruct (td_grant _ _ _ Htd g o Hg Eo ltac:(lia)) as [Ho|]; [left | by right].
  destruct (holds_at_dec log (ref g) (epoch g) (cf_seq f)) as [|Hn]; [done | exfalso].
  eapply (ended_forever log (ref g) (epoch g) (cf_seq f) (cf_seq o)); [done | | done | done | done].
  apply (granted_after log (ref g) _ (atSeq g)); [done | | done]. by apply (tf_grant _ _ Htr).
Qed.

Lemma apply_iff log h s obj c : told log h s -> copies h !! obj = Some c ->
  (apply obj s).1 = Some c <-> forall a, a ∈ applications h -> cf_epoch a <= cf_epoch c.
Proof.
  intros Htd Hc. unfold apply. rewrite (td_copies _ _ _ Htd), Hc, (td_applied _ _ _ Htd).
  pose proof (td_sorted _ _ _ Htd) as Hs. destruct (last (applications h)) as [a|] eqn:El.
  - destruct (cf_epoch a <=? cf_epoch c) eqn:E; cbn.
    + split; [| done]. intros _ x Hx. pose proof (sorted_last _ _ _ Hs El Hx). lia.
    + split; [done |]. intros Hall. apply last_Some in El as [l' El].
      assert (cf_epoch a <= cf_epoch c); [| lia]. apply Hall. rewrite El. apply elem_of_app. right. by apply list_elem_of_singleton.
  - apply last_None in El. rewrite El. cbn. split; [| done]. intros _ x Hx%not_elem_of_nil. done.
Qed.

Lemma observe_drops log s obj f g : valid_log log -> truthful log s -> true_fact log f -> grant s = Some g ->
  (observe obj f (ref g) s).1 = true ->
  grant (observe obj f (ref g) s).2 = None <-> atSeq g <= cf_seq f /\ ~ holds_at log (ref g) (epoch g) (cf_seq f).
Proof.
  intros Hl Htr Hf Hg Ht. rewrite <- (contradicts_ended log) by (try done; by apply (tf_grant _ _ Htr)).
  unfold observe in *. case_if; [done |]. cbn. rewrite Hg. cbn [lost].
  destruct (contradicts (epoch g) (atSeq g) (ref g) f); cbn; case_if; cbn; rewrite ?Hg; done.
Qed.

(** C32: whatever the terminal was told before: the control fact it takes as
    the latest is the one of greatest sequence among all that reached it since
    its last reset, and [observe] refuses exactly the facts a delivered one
    overtakes; a grant it holds was granted by the server, no fact delivered
    since finds it over unless that was the authority of a baseline that arrived
    while this same grant was already held (then [ready] still answers no), and
    observing a fact for the granted subscription drops it exactly when the
    server had ended it by then; the applied fact is the last one handed out,
    applied facts never go back an epoch between two baselines, each is the copy
    of an observed fact, and a fact is refused only for its older epoch; and the
    subscription is ready exactly when it wants focus, the server granted it the
    epoch it will stamp, and both that applied and that latest fact still find
    it holding the epoch. *)
Theorem ready_authority (log : list ControlFact) (h : list ControlEvent) (s : TerminalControl)
    (r : SubscriptionRef) (vg q : Z) :
  valid_log log -> history log h s ->
  match observed s with
  | None => delivered h = []
  | Some o => o ∈ delivered h /\ forall f, f ∈ delivered h -> cf_seq f <= cf_seq o
  end
  /\ (forall obj f, true_fact log f ->
        (observe obj f r s).1 = false <-> exists o, o ∈ delivered h /\ cf_seq f < cf_seq o)
  /\ (forall g, grant s = Some g -> granted log (ref g) (epoch g) (atSeq g)
        /\ (forall f, f ∈ delivered h -> atSeq g <= cf_seq f ->
              holds_at log (ref g) (epoch g) (cf_seq f)
              \/ exists b, spared g b h /\ atSeq g <= cf_seq b /\ ~ holds_at log (ref g) (epoch g) (cf_seq b))
        /\ (forall obj f, true_fact log f -> (observe obj f (ref g) s).1 = true ->
              grant (observe obj f (ref g) s).2 = None
              <-> atSeq g <= cf_seq f /\ ~ holds_at log (ref g) (epoch g) (cf_seq f)))
  /\ applied s = last (applications h) /\ StronglySorted epoch_le (applications h)
  /\ (forall obj c, Ev_apply obj (Some c) ∈ h -> Ev_fact obj c true ∈ h)
  /\ (forall obj c, copies h !! obj = Some c ->
        (apply obj s).1 = Some c <-> forall a, a ∈ applications h -> cf_epoch a <= cf_epoch c)
  /\ (ready r vg q s = true <->
        wantsFocus s = true /\ exited s = false
        /\ exists g a, grant s = Some g /\ ref g = r /\ viewGeneration g = vg /\ atSeq g <= q
           /\ granted log r (epoch g) (atSeq g)
           /\ applied s = Some a /\ holds_at log r (epoch g) (cf_seq a)
           /\ (forall o, observed s = Some o -> holds_at log r (epoch g) (cf_seq o))).
Proof.
  intros Hl Hh. pose proof (history_truthful log h s Hh) as Htr. pose proof (history_told log Hl h s Hh) as Htd.
  split_and!.
  - exact (td_latest _ _ _ Htd).
  - intros obj f Hf. apply (stale_iff log); auto using tf_observed, td_latest. all: by destruct Htr, Htd.
  - intros g Hg. split_and!; [by apply (tf_grant _ _ Htr) | |].
    + intros f Hin Hle. exact (grant_upto log h s g f Hl Htr Htd Hg Hin Hle).
    + intros obj f Hf. by apply observe_drops.
  - exact (td_applied _ _ _ Htd).
  - exact (td_sorted _ _ _ Htd).
  - exact (td_answers _ _ _ Htd).
  - intros obj c Hc. by apply (apply_iff log).
  - apply ready_iff; [done | by exists h].
Qed.

Lemma observe_fields s obj f r s' : observe obj f r s = (true, s') ->
  observed s' = Some f /\ grant s' = (if lost (grant s) r f then None else grant s)
  /\ carried s' = (if lost (carried s) r f then None else carried s).
Proof.
  unfold observe. case_if; [done |]. intros [= <-]. cbn.
  destruct (lost (grant s) r f); cbn; destruct (lost (carried s) r f); done.
Qed.

Lemma observe_fresh log s obj f r : valid_log log -> true_fact log f -> fact_ok log (observed s) ->
  match observe obj f r s with
  | (false, s') => s' = s /\ exists o, observed s = Some o /\ cf_seq f < cf_seq o
  | (true, _) => forall o, observed s = Some o -> cf_seq o <= cf_seq f
  end.
Proof.
  intros Hl Hf Ho. unfold observe. destruct (observed s) as [o|]; [| done].
  fold (older f o). rewrite (older_seq log f o Hl Hf (Ho o eq_refl)).
  destruct (cf_seq f <? cf_seq o) eqn:E; [split; [done |]; exists o; split; [done | lia] |].
  intros ? [= <-]. lia.
Qed.

Lemma lost_iff (g : option Grant) x (b : bool) (P : Prop) : g = Some x -> (b = true <-> P) ->
  ((if b then None else g) = None <-> P) /\ ((if b then None else g) = None \/ (if b then None else g) = Some x).
Proof. intros -> <-. destruct b; naive_solver. Qed.

(** observing a control fact refuses exactly the facts older than the last
    one, and otherwise revokes the held or carried grant exactly when the server
    had ended it by that fact. *)
Theorem observe_exact (log : list ControlFact) (s : TerminalControl) (obj : nat) (f : ControlFact)
    (r : SubscriptionRef) (g : Grant) :
  valid_log log -> reachable log s -> true_fact log f -> ref g = r ->
  grant s = Some g \/ carried s = Some g ->
  match observe obj f r s with
  | (false, s') => s' = s /\ exists o, observed s = Some o /\ cf_seq f < cf_seq o
  | (true, s') =>
     observed s' = Some f /\ (forall o, observed s = Some o -> cf_seq o <= cf_seq f)
     /\ (grant s = Some g ->
         (grant s' = None <-> atSeq g <= cf_seq f /\ ~ holds_at log r (epoch g) (cf_seq f))
         /\ (grant s' = None \/ grant s' = Some g))
     /\ (carried s = Some g ->
         (carried s' = None <-> atSeq g <= cf_seq f /\ ~ holds_at log r (epoch g) (cf_seq f))
         /\ (carried s' = None \/ carried s' = Some g))
  end.
Proof.
  intros Hl Hr Hf <- Hgc. destruct (reachable_truthful log s Hr) as [Hg Hca Ho _ _].
  assert (Hgr : granted log (ref g) (epoch g) (atSeq g)) by (destruct Hgc; auto).
  pose proof (contradicts_ended log (ref g) (epoch g) (atSeq g) f Hl Hgr Hf) as Hce.
  pose proof (observe_fresh log s obj f (ref g) Hl Hf Ho) as Hfresh.
  destruct (observe obj f (ref g) s) as [[] s'] eqn:E; [| done].
  destruct (observe_fields _ _ _ _ _ E) as (E1 & -> & ->). split_and!; [done | done | |];
    intros Hx; rewrite Hx; by apply lost_iff.
Qed.

Lemma restore_fields s c at_ run gm r vg g : carried s = Some g -> wantsFocus s = true -> exited s = false ->
  ref g = r ->
  let canonical := mkControlFact run at_ (bc_epoch c) (bc_holder c) gm in
  let latest := match observed s with
                | Some o => if older canonical o then o else canonical
                | None => canonical
                end in
  let s' := restore c at_ run gm r vg s in
  observed s' = Some latest /\ applied s' = Some canonical /\ carried s' = None /\ recovering s' = false
  /\ grant s' = (if contradicts (epoch g) (atSeq g) r canonical || contradicts (epoch g) (atSeq g) r latest
                 then grant s else Some (set_view g vg)).
Proof.
  intros Hc Hw He <- canonical latest. unfold restore. fold canonical.
  assert (Hnew : match observed s with
                 | None => true
                 | Some o => (cf_epoch o <? cf_epoch canonical)
                             || ((cf_epoch canonical =? cf_epoch o) && (cf_seq o <=? cf_seq canonical))
                 end = match observed s with Some o => negb (older canonical o) | None => true end).
  { destruct (observed s) as [o|]; [| done]. unfold older. lia. }
  rewrite Hnew. clear Hnew. unfold wantsFocus in *. subst latest.
  assert (Hsame : sameSubscriptionRef (ref g) (ref g) = true) by (by apply sameSubscriptionRef_eq).
  destruct (observed s) as [o|] eqn:Eo; [destruct (older canonical o) |]; cbn -[canonical sameSubscriptionRef];
    rewrite ?Hc; cbn -[canonical sameSubscriptionRef]; rewrite ?Hw, ?He, ?Hsame; cbn -[canonical];
    unfold grant_contradicted; cbn -[canonical]; rewrite ?Eo; case_if; cbn; rewrite ?Eo; done.
Qed.

(** a completed baseline reinstates a carried grant, bound to the new view,
    exactly when neither the baseline's authority nor the latest fact observed
    meanwhile finds it over; otherwise the carried grant is dropped. *)
Theorem restore_exact (log : list ControlFact) (s : TerminalControl) (c : BaselineControl) (at_ : Z) (run : RunRef)
    (gm : Geometry) (r : SubscriptionRef) (vg : Z) (g : Grant) :
  valid_log log -> reachable log s -> auth log at_ = (bc_epoch c, bc_holder c) ->
  carried s = Some g -> ref g = r -> wantsFocus s = true -> exited s = false -> grant s = None ->
  let s' := restore c at_ run gm r vg s in
  let last := match observed s with Some o => Z.max at_ (cf_seq o) | None => at_ end in
  carried s' = None /\ recovering s' = false /\ (grant s' = None \/ grant s' = Some (set_view g vg))
  /\ (grant s' = Some (set_view g vg) <-> last < atSeq g \/ holds_at log r (epoch g) last).
Proof.
  intros Hl Hr Hat Hc Href Hw He Hgn s' last.
  destruct (restore_fields s c at_ run gm r vg g Hc Hw He Href) as (_ & _ & H3 & H4 & H5). fold s' in H3, H4, H5.
  set (canonical := mkControlFact run at_ (bc_epoch c) (bc_holder c) gm) in *.
  set (latest := match observed s with Some o => if older canonical o then o else canonical | None => canonical end) in *.
  destruct (reachable_truthful log s Hr) as [_ Hca Ho _ _].
  assert (Hgr : granted log r (epoch g) (atSeq g)) by (rewrite <- Href; by apply Hca).
  assert (Hcf : true_fact log canonical) by exact Hat.
  assert (Hlf : true_fact log latest /\ cf_seq latest = last).
  { subst latest last. destruct (observed s) as [o|]; [| done]. specialize (Ho o eq_refl).
    rewrite (older_seq log canonical o) by done. cbn. case_if; [split; [done | lia] |]. split; [done |]. cbn. lia. }
  destruct Hlf as [Hlf Hls]. assert (Hle : at_ <= last) by (subst last; destruct (observed s); lia).
  pose proof (contradicts_ended log r (epoch g) (atSeq g) latest Hl Hgr Hlf) as Hcl. rewrite Hls in Hcl.
  assert (Hor : contradicts (epoch g) (atSeq g) r canonical || contradicts (epoch g) (atSeq g) r latest
      = contradicts (epoch g) (atSeq g) r latest).
  { destruct (contradicts (epoch g) (atSeq g) r canonical) eqn:E; [| done].
    apply (contradicts_ended log) in E as [E1 E2]; [| done..]. symmetry. apply Hcl. cbn in E1, E2.
    split; [lia |]. eapply ended_forever; [exact Hl | | exact E2 | exact Hle]. by apply (granted_after log r _ (atSeq g)). }
  rewrite Hor, Hgn in H5. split_and!; [done | done | rewrite H5; case_if; auto |]. rewrite H5.
  destruct (contradicts (epoch g) (atSeq g) r latest).
  - split; [done |]. intros Hn. destruct Hcl as [Hcl _]. specialize (Hcl eq_refl).
    destruct Hn; [lia | tauto].
  - split; [intros _ | done]. destruct (Z.lt_ge_cases last (atSeq g)) as [|Hge]; [by left | right].
    unfold holds_at in *. destruct (decide (auth log last = (epoch g, Some (holder_of r)))) as [|Hn]; [done |].
    destruct Hcl as [_ Hcl]. discriminate Hcl. done.
Qed.

(** Input typed before a loss of the grant is never sent under another
    one: whenever a step drops the grant, the intent version that queued input
    carries has moved on (or is exhausted), unless an observed control fact
    contradicts the grant. *)
Theorem grant_loss_cancels_input (log : list ControlFact) (s s' : TerminalControl) (ev : ControlEvent) (g : Grant) :
  happens log s ev s' -> grant s = Some g -> grant s' = None ->
  intent s' <> intent s \/ intent s = -1
  \/ exists f r, observed s' = Some f /\ contradicts (epoch g) (atSeq g) r f = true.
Proof.
  assert (Hnext : forall n : Z, default (-1) (nextCounter n) <> n \/ n = -1).
  { intros n. unfold nextCounter. case_if; cbn; lia. }
  intros Hst Hg Hg'. destruct Hst; try (cbn in Hg'; congruence);
    try (cbn; destruct (Hnext (intent s)); by auto).
  - unfold setTarget in *. case_if; cbn in *; [destruct (Hnext (intent s)); by auto | congruence].
  - unfold beginFocus in *. case_if; cbn in *; [congruence |].
    destruct (nextCounter (intent s)) as [n|] eqn:E; cbn in *; [| congruence]. left.
    unfold nextCounter in E. case_if; invert E. lia.
  - exfalso. revert Hg'. unfold acceptFocus. repeat (case_if; cbn); congruence.
  - exfalso. revert Hg'. unfold failFocus. repeat (case_if; cbn); congruence.
  - right; right. destruct (observe obj f r s) as [[] s'] eqn:E; cbn [snd] in *.
    + destruct (observe_fields _ _ _ _ _ E) as (E1 & E2 & _). exists f, r. split; [done |].
      rewrite Hg in E2. cbn in E2. rewrite E2 in Hg'. by case_if.
    + exfalso. unfold observe in E. case_if; congruence.
  - exfalso. revert Hg'. unfold apply. destruct (canonicalFacts s !! obj); [| cbn; congruence].
    destruct (match applied s with Some a => _ | None => _ end); cbn; congruence.
  - unfold suspendForRecovery. case_if; cbn; destruct (Hnext (intent s)); by auto.
  - exfalso. revert Hg'. unfold restore.
    destruct (match observed s with Some o => _ | None => true end); cbn;
      destruct (carried s) as [k|]; cbn; repeat (case_if; cbn); congruence.
  - exfalso. revert Hg'. unfold finishRecovery. case_if; cbn; congruence.
Qed.

(** A subscription granted epoch 1 at sequence 3, lost to another at 9. *)

Definition demo_ref : SubscriptionRef :=
  {| sub_run := mkRun "server" "relay" "run"; sub_connection := mkConnection "conn" 1;
     sub_subscriptionId := "sub"; sub_viewId := "view" |}.

Definition demo_other : ControlHolder := mkHolder (mkConnection "conn2" 1) "view2" "sub2".

Definition demo_fact (q e : Z) (h : option ControlHolder) : ControlFact :=
  mkControlFact (mkRun "server" "relay" "run") q e h (mkGeometry 80 24).

Definition demo_log : list ControlFact :=
  [demo_fact 3 1 (Some (holder_of demo_ref)); demo_fact 9 2 (Some demo_other)].

Lemma demo_log_valid : valid_log demo_log.
Proof.
  apply log_cons; [cbn; lia | left; cbn; lia |]. apply log_cons; [cbn; lia | left; cbn; lia | apply log_nil].
Qed.

Lemma demo_granted : granted demo_log demo_ref 1 3.
Proof. split; [reflexivity | vm_compute; reflexivity]. Qed.

Definition demo_focused : TerminalControl :=
  (acceptFocus 1 demo_ref 4 1 3 (beginFocus (setTarget true true newTerminalControl)).2).2.

Definition demo_ready : TerminalControl :=
  (apply 0 (observe 0 (demo_fact 3 1 (Some (holder_of demo_ref))) demo_ref demo_focused).2).2.

Lemma demo_focused_history : history demo_log [Ev_other; Ev_other; Ev_other] demo_focused.
Proof.
  apply (h_step _ [Ev_other; Ev_other] (beginFocus (setTarget true true newTerminalControl)).2);
    [| apply s_acceptFocus, demo_granted].
  apply (h_step _ [Ev_other] (setTarget true true newTerminalControl)); [| apply s_beginFocus].
  apply (h_step _ [] newTerminalControl); [apply h_new | apply s_setTarget].
Qed.

Definition demo_granting : ControlFact := demo_fact 3 1 (Some (holder_of demo_ref)).

Definition demo_history : list ControlEvent :=
  [Ev_other; Ev_other; Ev_other; Ev_fact 0 demo_granting true; Ev_apply 0 (Some demo_granting)].

Lemma demo_ready_history : history demo_log demo_history demo_ready.
Proof.
  apply (h_step _ [Ev_other; Ev_other; Ev_other; Ev_fact 0 demo_granting true]
    (observe 0 demo_granting demo_ref demo_focused).2); [| exact (s_apply demo_log (observe 0 demo_granting demo_ref demo_focused).2 0)].
  apply (h_step _ [Ev_other; Ev_other; Ev_other] demo_focused); [apply demo_focused_history |].
  exact (s_observe demo_log demo_focused 0 demo_granting demo_ref eq_refl).
Qed.

Lemma demo_focused_reachable : reachable demo_log demo_focused.
Proof. eexists. apply demo_focused_history. Qed.

Lemma demo_ready_reachable : reachable demo_log demo_ready.
Proof. eexists. apply demo_ready_history. Qed.

Lemma contradicts_exact_witness :
  contradicts 1 3 demo_ref (demo_fact 9 2 (Some demo_other)) = true
  /\ forall q, 9 <= q -> ~ holds_at demo_log demo_ref 1 q.
Proof.
  destruct (contradicts_exact demo_log demo_ref 1 3 (demo_fact 9 2 (Some demo_other)) demo_log_valid demo_granted
    eq_refl) as [_ H].
  assert (E : contradicts 1 3 demo_ref (demo_fact 9 2 (Some demo_other)) = true) by (vm_compute; reflexivity).
  split; [exact E | exact (H E)].
Defined.

Lemma ready_authority_witness :
  ready demo_ref 4 3 demo_ready = true /\ delivered demo_history = [demo_granting]
  /\ (exists g, grant demo_ready = Some g /\ granted demo_log demo_ref (epoch g) (atSeq g))
  /\ (observe 1 (demo_fact 2 0 None) demo_ref demo_ready).1 = false
  /\ grant (observe 1 (demo_fact 9 2 (Some demo_other)) demo_ref demo_ready).2 = None
  /\ applied demo_ready = Some demo_granting.
Proof.
  assert (E : ready demo_ref 4 3 demo_ready = true) by (vm_compute; reflexivity).
  destruct (ready_authority demo_log demo_history demo_ready demo_ref 4 3 demo_log_valid demo_ready_history)
    as (_ & Hstale & Hgrant & Happ & _ & _ & _ & Hready).
  destruct (proj1 Hready E) as (_ & _ & g & a & Hg & _ & _ & _ & Hgr & _).
  split; [exact E |]. split; [reflexivity |]. split; [exists g; split; assumption |]. split; [| split].
  - apply Hstale; [reflexivity |]. exists demo_granting. split; [apply list_elem_of_here | reflexivity].
  - destruct (Hgrant (mkGrant demo_ref 4 1 1 3) eq_refl) as (_ & _ & Hdrop).
    apply (Hdrop 1%nat (demo_fact 9 2 (Some demo_other)) eq_refl); [vm_compute; reflexivity |].
    split; [vm_compute; discriminate |]. intros Hh. vm_compute in Hh. discriminate Hh.
  - exact Happ.
Defined.

Lemma observe_exact_witness :
  (observe 1 (demo_fact 9 2 (Some demo_other)) demo_ref demo_ready).1 = true
  /\ observed (observe 1 (demo_fact 9 2 (Some demo_other)) demo_ref demo_ready).2
     = Some (demo_fact 9 2 (Some demo_other)).
Proof.
  pose proof (observe_exact demo_log demo_ready 1 (demo_fact 9 2 (Some demo_other)) demo_ref
    (mkGrant demo_ref 4 1 1 3) demo_log_valid demo_ready_reachable eq_refl eq_refl ltac:(left; vm_compute; reflexivity)) as H.
  assert (E : (observe 1 (demo_fact 9 2 (Some demo_other)) demo_ref demo_ready).1 = true) by (vm_compute; reflexivity).
  split; [exact E |]. revert H E. generalize (observe 1 (demo_fact 9 2 (Some demo_other)) demo_ref demo_ready).
  intros [[] s'] H E; [exact (proj1 H) | discriminate E].
Defined.

Lemma restore_exact_witness :
  carried (suspendForRecovery demo_focused) = Some (mkGrant demo_ref 4 1 1 3)
  /\ grant (restore (mkBaselineControl 1 (Some (holder_of demo_ref))) 5 (mkRun "server" "relay" "run")
       (mkGeometry 80 24) demo_ref 7 (suspendForRecovery demo_focused)) = Some (mkGrant demo_ref 7 1 1 3).
Proof.
  assert (E : carried (suspendForRecovery demo_focused) = Some (mkGrant demo_ref 4 1 1 3)) by (vm_compute; reflexivity).
  split; [exact E |].
  assert (Hr : reachable demo_log (suspendForRecovery demo_focused))
    by (eapply control_step; [exact demo_focused_reachable | apply s_suspend]).
  destruct (restore_exact demo_log (suspendForRecovery demo_focused) (mkBaselineControl 1 (Some (holder_of demo_ref))) 5
    (mkRun "server" "relay" "run") (mkGeometry 80 24) demo_ref 7 (mkGrant demo_ref 4 1 1 3)
    demo_log_valid Hr eq_refl E eq_refl eq_refl eq_refl eq_refl) as (_ & _ & _ & H).
  apply H. right. reflexivity.
Defined.

Lemma grant_loss_cancels_input_witness :
  grant (setTarget true false demo_ready) = None
  /\ (intent (setTarget true false demo_ready) <> intent demo_ready \/ intent demo_ready = -1
      \/ exists f r, observed (setTarget true false demo_ready) = Some f /\ contradicts 1 3 r f = true).
Proof.
  split; [reflexivity |].
  exact (grant_loss_cancels_input demo_log demo_ready (setTarget true false demo_ready) Ev_other (mkGrant demo_ref 4 1 1 3)
    (s_setTarget _ _ true false) eq_refl eq_refl).
Defined.
