(* ===== verification/ClientLane.v ===== *)
(** * The client's terminal lane (packages/client/src/terminal-delivery.ts)

    One [TerminalLane] correlates the commands of a connection with their
    replies and is the only path by which they enter the socket.  Almost every
    line of it can run foreign code: the callbacks of the sender ([beforeSend],
    [onHandoff], [onSettled]), the socket, the scheduler, the route and preview
    receivers, the owner, the follow-up work; and foreign code may call the
    lane again before it returns.  The lane is therefore a machine with a
    control stack: a [Task] is a piece of the lane's code still to run,
    [TCall c] is foreign code running in the middle of it.  [run] executes the
    piece on top, [enterLane] starts an operation while foreign code runs (or
    from the event loop, when the stack is empty), [resume] is the return of
    foreign code, with a value or by throwing.  Commands are objects ([objects],
    by the number of the [send] call that made them) which the pending map, the
    queue, the timers and the stack share.  [trace] is history: no operation
    reads it.  The contracts of the foreign code are in [may_enter] and in the
    answers [resume] accepts: a [beforeSend] check calls nothing (section 4.4.2
    of docs/terminal-architecture.md and its uses in terminal-controller.ts and
    terminal-preview.ts), the owner's [binding], [socket] and [invalid] and the
    codec do not throw but for [encode] and [decodeFatal], which may. *)

From S2P Require Import Prelude Json JsMap Protocol Errors Frame Terminal.

Definition RECENT_RETIRED_REFS : Z := 256.

Inductive LocalErrorReason :=
  | le_invalid_options | le_invalid_state | le_invalid_request | le_disposed | le_capacity | le_credential
  | le_timeout | le_transport | le_invalid_response | le_response_too_large | le_instance_binding
  | le_operation_conflict.

(** The errors of an outcome: the [ClientError]s the lane makes are all local. *)

Inductive OutcomeError :=
  | localError (reason : LocalErrorReason)
  | remoteError (e : DomainError).

Inductive CommandFailure := mkCommandFailure { f_error : OutcomeError; f_uncertain : bool }.

Inductive CommandOutcome :=
  | OutcomeOk (result : TerminalResult)
  | OutcomeFailed (failure : CommandFailure) (sent : bool).

(** What [finish] is given: a result, or a failure it completes with [sent]. *)

Inductive Completion :=
  | Succeeded (result : TerminalResult)
  | FailedWith (failure : CommandFailure).

(** The three callbacks of a sender are foreign code: what the lane knows of one
    is whether it was given. *)

Record PendingCommand := mkPending {
  command : TerminalCommand;
  bytes : list Z;
  onHandoff : bool;
  onSettled : bool;
  beforeSend : bool;
  timer : bool;
  attempting : bool;
  handedOff : bool;
  handoffNotified : bool;
  settled : bool;
}.

Definition routeKey (r : SubscriptionRef) : string :=
  stringify (JArr [JStr (run_serverId (sub_run r)); JStr (run_relayInstanceId (sub_run r)); JStr (run_runId (sub_run r));
    JStr (conn_connectionId (sub_connection r)); JNum (conn_generation (sub_connection r));
    JStr (sub_subscriptionId r); JStr (sub_viewId r)]).

Inductive Disposition := not_sent | handed_off | disposition_unknown.

Inductive PreviewRoute := route_active | route_obsolete | route_unrouteable.

(** Follow-up work: a caller's, by a name it chose, or the disposal of a timer. *)

Inductive Work :=
  | WForeign (name : nat)
  | WDispose (n : nat).

(** Foreign code the lane calls. *)

Inductive Foreign :=
  | CRefused (n : nat) (outcome : CommandOutcome)
  | CSetTimer (n : nat)
  | CTimerDispose (n : nat)
  | CBeforeSend (n : nat)
  | CSocketSend (n : nat)
  | CHandoff (n : nat)
  | CSettled (n : nat) (outcome : CommandOutcome)
  | CInvalid
  | CRoute (receiver : nat) (event : ExternalTerminalEvent) (payload : list Z)
  | CPreview (event : ExternalTerminalEvent) (payload : list Z)
  | CPreviewReply (reply : TerminalMetadata)
  | CWork (work : Work)
  | COpaqueId (generation next : Z).

Inductive Answer :=
  | Done
  | Threw
  | Eligible (yes : bool)
  | Sent (disposition : Disposition)
  | Routed (route : PreviewRoute)
  | Supplied (id : string).

(** The sweeps over a snapshot of the pending commands. *)

Inductive Sweep :=
  | SwControl (r : SubscriptionRef)
  | SwUnsent (r : SubscriptionRef) (types : list TerminalCommandType)
  | SwClose (reason : LocalErrorReason).

Inductive Task :=
  | TCall (c : Foreign)
  | TExit
  | TRunFollowUps
  | TFollowLoop
  | TQueue (n : nat)
  | TFlush
  | TFlushLoop
  | TFlushNext
  | TSocket (n : nat)
  | TNotify (n : nat)
  | TFinish (n : nat) (completion : Completion)
  | TSettled (n : nat) (outcome : CommandOutcome)
  | TResolve (n : nat) (outcome : CommandOutcome)
  | TEach (snapshot : list nat) (sweep : Sweep)
  | TCloseEnd
  | TInvalid
  | TRelease (lease : Z).

(** What a run of the lane does, for the theorems: [ESend] a [send] call admitted
    its command, [EEntered] the command entered [socket.send], [EOutcome] the
    outcome of the call is decided, [EResolved] its promise is resolved. *)

Inductive Event :=
  | ESend (n : nat) (c : TerminalCommand)
  | EQueued (n : nat) (c : TerminalCommand)
  | EEntered (n : nat) (c : TerminalCommand)
  | EHandoff (n : nat)
  | EOutcome (n : nat) (outcome : CommandOutcome)
  | EResolved (n : nat) (outcome : CommandOutcome)
  | ERequestId (id : option string)
  | EFocusSeq (key : string) (answer : option (option Z))
  | EInputSeq (key : string) (answer : option (option Z))
  | ERegistered (key : string) (accepted : bool)
  | ERetired (key : string)
  | EClosed
  | EReserved (bytes : Z)
  | EReleased (bytes : Z)
  | EUnderflow.

Record Lane := mkLane {
  objects : gmap nat PendingCommand;
  next : nat;
  pending : jsmap string nat;
  routes : jsmap string nat;
  retiredRefs : list string;
  outbound : list nat;
  heldPreviewReservations : list string;
  flushing : bool;
  retainedOutboundBytes : Z;
  retainedIngressBytes : Z;
  requestSequence : Z;
  focusSequences : jsmap string Z;
  inputSequences : jsmap string Z;
  lastSentRoute : option string;
  depth : nat;
  followUps : list Work;
  runningFollowUps : bool;
  owner_binding : option EffectiveBudgets;
  owner_socket : bool;
  stack : list Task;
  trace : list Event;
}.

Definition set_objects (v : gmap nat PendingCommand) (w : Lane) : Lane :=
  mkLane v (next w) (pending w) (routes w) (retiredRefs w) (outbound w) (heldPreviewReservations w) (flushing w)
    (retainedOutboundBytes w) (retainedIngressBytes w) (requestSequence w) (focusSequences w) (inputSequences w)
    (lastSentRoute w) (depth w) (followUps w) (runningFollowUps w) (owner_binding w) (owner_socket w) (stack w)
    (trace w).

Definition set_next (v : nat) (w : Lane) : Lane :=
  mkLane (objects w) v (pending w) (routes w) (retiredRefs w) (outbound w) (heldPreviewReservations w) (flushing w)
    (retainedOutboundBytes w) (retainedIngressBytes w) (requestSequence w) (focusSequences w) (inputSequences w)
    (lastSentRoute w) (depth w) (followUps w) (runningFollowUps w) (owner_binding w) (owner_socket w) (stack w)
    (trace w).

Definition set_pending (v : jsmap string nat) (w : Lane) : Lane :=
  mkLane (objects w) (next w) v (routes w) (retiredRefs w) (outbound w) (heldPreviewReservations w) (flushing w)
    (retainedOutboundBytes w) (retainedIngressBytes w) (requestSequence w) (focusSequences w) (inputSequences w)
    (lastSentRoute w) (depth w) (followUps w) (runningFollowUps w) (owner_binding w) (owner_socket w) (stack w)
    (trace w).

Definition set_routes (v : jsmap string nat) (w : Lane) : Lane :=
  mkLane (objects w) (next w) (pending w) v (retiredRefs w) (outbound w) (heldPreviewReservations w) (flushing w)
    (retainedOutboundBytes w) (retainedIngressBytes w) (requestSequence w) (focusSequences w) (inputSequences w)
    (lastSentRoute w) (depth w) (followUps w) (runningFollowUps w) (owner_binding w) (owner_socket w) (stack w)
    (trace w).

Definition set_retiredRefs (v : list string) (w : Lane) : Lane :=
  mkLane (objects w) (next w) (pending w) (routes w) v (outbound w) (heldPreviewReservations w) (flushing w)
    (retainedOutboundBytes w) (retainedIngressBytes w) (requestSequence w) (focusSequences w) (inputSequences w)
    (lastSentRoute w) (depth w) (followUps w) (runningFollowUps w) (owner_binding w) (owner_socket w) (stack w)
    (trace w).

Definition set_outbound (v : list nat) (w : Lane) : Lane :=
  mkLane (objects w) (next w) (pending w) (routes w) (retiredRefs w) v (heldPreviewReservations w) (flushing w)
    (retainedOutboundBytes w) (retainedIngressBytes w) (requestSequence w) (focusSequences w) (inputSequences w)
    (lastSentRoute w) (depth w) (followUps w) (runningFollowUps w) (owner_binding w) (owner_socket w) (stack w)
    (trace w).

Definition set_heldPreviewReservations (v : list string) (w : Lane) : Lane :=
  mkLane (objects w) (next w) (pending w) (routes w) (retiredRefs w) (outbound w) v (flushing w)
    (retainedOutboundBytes w) (retainedIngressBytes w) (requestSequence w) (focusSequences w) (inputSequences w)
    (lastSentRoute w) (depth w) (followUps w) (runningFollowUps w) (owner_binding w) (owner_socket w) (stack w)
    (trace w).

Definition set_flushing (v : bool) (w : Lane) : Lane :=
  mkLane (objects w) (next w) (pending w) (routes w) (retiredRefs w) (outbound w) (heldPreviewReservations w) v
    (retainedOutboundBytes w) (retainedIngressBytes w) (requestSequence w) (focusSequences w) (inputSequences w)
    (lastSentRoute w) (depth w) (followUps w) (runningFollowUps w) (owner_binding w) (owner_socket w) (stack w)
    (trace w).

Definition set_retainedOutboundBytes (v : Z) (w : Lane) : Lane :=
  mkLane (objects w) (next w) (pending w) (routes w) (retiredRefs w) (outbound w) (heldPreviewReservations w)
    (flushing w) v (retainedIngressBytes w) (requestSequence w) (focusSequences w) (inputSequences w)
    (lastSentRoute w) (depth w) (followUps w) (runningFollowUps w) (owner_binding w) (owner_socket w) (stack w)
    (trace w).

Definition set_retainedIngressBytes (v : Z) (w : Lane) : Lane :=
  mkLane (objects w) (next w) (pending w) (routes w) (retiredRefs w) (outbound w) (heldPreviewReservations w)
    (flushing w) (retainedOutboundBytes w) v (requestSequence w) (focusSequences w) (inputSequences w)
    (lastSentRoute w) (depth w) (followUps w) (runningFollowUps w) (owner_binding w) (owner_socket w) (stack w)
    (trace w).

Definition set_requestSequence (v : Z) (w : Lane) : Lane :=
  mkLane (objects w) (next w) (pending w) (routes w) (retiredRefs w) (outbound w) (heldPreviewReservations w)
    (flushing w) (retainedOutboundBytes w) (retainedIngressBytes w) v (focusSequences w) (inputSequences w)
    (lastSentRoute w) (depth w) (followUps w) (runningFollowUps w) (owner_binding w) (owner_socket w) (stack w)
    (trace w).

Definition set_focusSequences (v : jsmap string Z) (w : Lane) : Lane :=
  mkLane (objects w) (next w) (pending w) (routes w) (retiredRefs w) (outbound w) (heldPreviewReservations w)
    (flushing w) (retainedOutboundBytes w) (retainedIngressBytes w) (requestSequence w) v (inputSequences w)
    (lastSentRoute w) (depth w) (followUps w) (runningFollowUps w) (owner_binding w) (owner_socket w) (stack w)
    (trace w).

Definition set_inputSequences (v : jsmap string Z) (w : Lane) : Lane :=
  mkLane (objects w) (next w) (pending w) (routes w) (retiredRefs w) (outbound w) (heldPreviewReservations w)
    (flushing w) (retainedOutboundBytes w) (retainedIngressBytes w) (requestSequence w) (focusSequences w) v
    (lastSentRoute w) (depth w) (followUps w) (runningFollowUps w) (owner_binding w) (owner_socket w) (stack w)
    (trace w).

Definition set_lastSentRoute (v : option string) (w : Lane) : Lane :=
  mkLane (objects w) (next w) (pending w) (routes w) (retiredRefs w) (outbound w) (heldPreviewReservations w)
    (flushing w) (retainedOutboundBytes w) (retainedIngressBytes w) (requestSequence w) (focusSequences w)
    (inputSequences w) v (depth w) (followUps w) (runningFollowUps w) (owner_binding w) (owner_socket w) (stack w)
    (trace w).

Definition set_depth (v : nat) (w : Lane) : Lane :=
  mkLane (objects w) (next w) (pending w) (routes w) (retiredRefs w) (outbound w) (heldPreviewReservations w)
    (flushing w) (retainedOutboundBytes w) (retainedIngressBytes w) (requestSequence w) (focusSequences w)
    (inputSequences w) (lastSentRoute w) v (followUps w) (runningFollowUps w) (owner_binding w) (owner_socket w)
    (stack w) (trace w).

Definition set_followUps (v : list Work) (w : Lane) : Lane :=
  mkLane (objects w) (next w) (pending w) (routes w) (retiredRefs w) (outbound w) (heldPreviewReservations w)
    (flushing w) (retainedOutboundBytes w) (retainedIngressBytes w) (requestSequence w) (focusSequences w)
    (inputSequences w) (lastSentRoute w) (depth w) v (runningFollowUps w) (owner_binding w) (owner_socket w)
    (stack w) (trace w).

Definition set_runningFollowUps (v : bool) (w : Lane) : Lane :=
  mkLane (objects w) (next w) (pending w) (routes w) (retiredRefs w) (outbound w) (heldPreviewReservations w)
    (flushing w) (retainedOutboundBytes w) (retainedIngressBytes w) (requestSequence w) (focusSequences w)
    (inputSequences w) (lastSentRoute w) (depth w) (followUps w) v (owner_binding w) (owner_socket w) (stack w)
    (trace w).

Definition set_owner_binding (v : option EffectiveBudgets) (w : Lane) : Lane :=
  mkLane (objects w) (next w) (pending w) (routes w) (retiredRefs w) (outbound w) (heldPreviewReservations w)
    (flushing w) (retainedOutboundBytes w) (retainedIngressBytes w) (requestSequence w) (focusSequences w)
    (inputSequences w) (lastSentRoute w) (depth w) (followUps w) (runningFollowUps w) v (owner_socket w) (stack w)
    (trace w).

Definition set_owner_socket (v : bool) (w : Lane) : Lane :=
  mkLane (objects w) (next w) (pending w) (routes w) (retiredRefs w) (outbound w) (heldPreviewReservations w)
    (flushing w) (retainedOutboundBytes w) (retainedIngressBytes w) (requestSequence w) (focusSequences w)
    (inputSequences w) (lastSentRoute w) (depth w) (followUps w) (runningFollowUps w) (owner_binding w) v (stack w)
    (trace w).

Definition set_stack (v : list Task) (w : Lane) : Lane :=
  mkLane (objects w) (next w) (pending w) (routes w) (retiredRefs w) (outbound w) (heldPreviewReservations w)
    (flushing w) (retainedOutboundBytes w) (retainedIngressBytes w) (requestSequence w) (focusSequences w)
    (inputSequences w) (lastSentRoute w) (depth w) (followUps w) (runningFollowUps w) (owner_binding w)
    (owner_socket w) v (trace w).

Definition set_trace (v : list Event) (w : Lane) : Lane :=
  mkLane (objects w) (next w) (pending w) (routes w) (retiredRefs w) (outbound w) (heldPreviewReservations w)
    (flushing w) (retainedOutboundBytes w) (retainedIngressBytes w) (requestSequence w) (focusSequences w)
    (inputSequences w) (lastSentRoute w) (depth w) (followUps w) (runningFollowUps w) (owner_binding w)
    (owner_socket w) (stack w) v.


Definition newLane : Lane :=
  mkLane ∅ 0 [] [] [] [] [] false 0 0 0 [] [] None 0 [] false None false [] [].

Definition log (e : Event) (w : Lane) : Lane := set_trace (trace w ++ [e]) w.

Definition push (tasks : list Task) (w : Lane) : Lane := set_stack (tasks ++ stack w) w.

Definition update_object (n : nat) (f : PendingCommand -> PendingCommand) (w : Lane) : Lane :=
  set_objects (alter f n (objects w)) w.

(** Field updates of a command. *)

Definition set_timer (p : PendingCommand) : PendingCommand :=
  mkPending (command p) (bytes p) (onHandoff p) (onSettled p) (beforeSend p) true
    (attempting p) (handedOff p) (handoffNotified p) (settled p).

Definition set_attempting (p : PendingCommand) : PendingCommand :=
  mkPending (command p) (bytes p) (onHandoff p) (onSettled p) (beforeSend p) (timer p)
    true (handedOff p) (handoffNotified p) (settled p).

Definition set_handedOff (p : PendingCommand) : PendingCommand :=
  mkPending (command p) (bytes p) (onHandoff p) (onSettled p) (beforeSend p) (timer p)
    (attempting p) true true (settled p).

Definition set_settled (p : PendingCommand) : PendingCommand :=
  mkPending (command p) (bytes p) (onHandoff p) (onSettled p) (beforeSend p) (timer p)
    (attempting p) (handedOff p) (handoffNotified p) true.

Definition fails (reason : LocalErrorReason) : CommandFailure := mkCommandFailure (localError reason) false.

Definition ordinary (c : TerminalCommand) : bool :=
  match command_type c with t_input | t_preview => true | _ => false end.

(** [domainError("RESULT_UNKNOWN", "unknown", subject)], which never throws. *)

Definition result_unknown (c : TerminalCommand) : OutcomeError :=
  remoteError (error_object RESULT_UNKNOWN acc_unknown (bool_decide (command_type c = t_input)) None).

Definition encodeTerminalFrame (frameClass : Z) (metadata payload : list Z) : ProtocolResult (list Z) :=
  encodeFrame TERMINAL_LANE TERMINAL_REVISION frameClass metadata payload.

Definition outbound_cap (b : EffectiveBudgets) : Z := outboundConnectionBytes b + reservedControlBytes b.

Definition pending_objects (w : Lane) : list PendingCommand := omap (fun n => objects w !! n) (jvalues (pending w)).

(** The check of the deadline timer, of [flush] and of [close]: a command that
    may have been handed off ends with an unknown result. *)

Definition expired (p : PendingCommand) (reason : LocalErrorReason) : CommandFailure :=
  let uncertain := attempting p || handedOff p in
  mkCommandFailure (if uncertain then result_unknown (command p) else localError reason) uncertain.

(** ** Sequence numbers and request IDs *)

Definition nextSeq (counters : jsmap string Z) (key : string) (w : Lane) : option (option Z) * jsmap string Z :=
  if negb (jhas key (routes w)) then (None, counters)
  else match nextCounter (default 0 (jget key counters)) with
       | Some next => (Some (Some next), jset key next counters)
       | None => (Some None, counters)
       end.

Definition nextFocusSeq (r : SubscriptionRef) (w : Lane) : Lane :=
  let '(answer, counters) := nextSeq (focusSequences w) (routeKey r) w in
  log (EFocusSeq (routeKey r) answer) (set_focusSequences counters w).

Definition nextInputSeq (r : SubscriptionRef) (w : Lane) : Lane :=
  let '(answer, counters) := nextSeq (inputSequences w) (routeKey r) w in
  log (EInputSeq (routeKey r) answer) (set_inputSequences counters w).

Definition request_suffix (generation next : Z) : string :=
  ".t" +:+ pretty generation +:+ "." +:+ pretty next.

(** [nextRequestId] up to the supplier, and after it. *)

Definition nextRequestId (generation : Z) (w : Lane) : Lane :=
  let next := requestSequence w + 1 in
  if negb (isSafeInteger next) then log (ERequestId None) w
  else push [TCall (COpaqueId generation next)] (set_requestSequence next w).

Definition requestId_of (supplied : string) (generation next : Z) : option string :=
  if negb (OpaqueIdSchema supplied) then None
  else let suffix := request_suffix generation next in
       Some (String.substring 0 (Z.to_nat (128 - slen suffix)) supplied +:+ suffix).

(** ** Routes *)

Definition register (r : SubscriptionRef) (receiver : nat) (w : Lane) : Lane :=
  let key := routeKey r in
  if jhas key (routes w) || bool_decide (key ∈ retiredRefs w) then log (ERegistered key false) w
  else log (ERegistered key true) (set_routes (jset key receiver (routes w)) w).

(** The [while] loop of [retire]: the oldest refs leave until one more fits. *)

Definition evict (refs : list string) : list string := zdrop (zlen refs - (RECENT_RETIRED_REFS - 1)) refs.

Definition retire (r : SubscriptionRef) (w : Lane) : Lane :=
  let key := routeKey r in
  let w := set_routes (jdelete key (routes w)) w in
  let w := set_focusSequences (jdelete key (focusSequences w)) w in
  let w := set_inputSequences (jdelete key (inputSequences w)) w in
  let w := log (ERetired key) w in
  if bool_decide (key ∈ retiredRefs w) then w
  else set_retiredRefs (evict (retiredRefs w) ++ [key]) w.

(** ** Ingress leases *)

Definition reserveIngress (n : Z) (w : Lane) : bool * Lane :=
  let cap := match owner_binding w with Some b => outbound_cap b | None => 0 end in
  if (cap =? 0) || negb (isSafeInteger n) || (n <? 0) || (cap <? retainedIngressBytes w + n) then (false, w)
  else (true, set_retainedIngressBytes (retainedIngressBytes w + n) w).

Definition releaseIngress (n : Z) (w : Lane) : Lane :=
  let w := set_retainedIngressBytes (retainedIngressBytes w - n) w in
  if retainedIngressBytes w <? 0 then log EUnderflow w else w.

(** ** Follow-up work and lane entries *)

Definition afterward (work : Work) (w : Lane) : Lane :=
  let w := set_followUps (followUps w ++ [work]) w in
  if (depth w =? 0)%nat then push [TRunFollowUps] w else w.

Definition enter (body : list Task) (w : Lane) : Lane := push (body ++ [TExit]) (set_depth (S (depth w)) w).

(** ** The order in which queued commands are handed over *)

Definition queue_key (c : TerminalCommand) : string :=
  match command_subscription c with
  | Some r => routeKey r
  | None => "request:" +:+ tc_requestId c
  end.

Fixpoint first_by_route (keys : list string) (index : nat) (m : jsmap string nat) : jsmap string nat :=
  match keys with
  | [] => m
  | key :: keys => first_by_route keys (S index) (if jhas key m then m else jset key index m)
  end.

Section take.
Context (outbound : list PendingCommand) (lastSentRoute : option string).

Definition unsettled_at (index : nat) : bool :=
  match outbound !! index with Some p => negb (settled p) | None => false end.

Definition control_at (index : nat) : bool :=
  match outbound !! index with Some p => negb (ordinary (command p)) | None => false end.

Definition candidates : list (string * nat) :=
  List.filter (fun e => unsettled_at e.2) (first_by_route (map (fun p => queue_key (command p)) outbound) 0 []).

Definition pool : list (string * nat) :=
  let preferred := List.filter (fun e => negb (bool_decide (Some e.1 = lastSentRoute))) candidates in
  match preferred with [] => candidates | _ => preferred end.

Definition next_index : nat :=
  match List.find (fun e => control_at e.2) pool with
  | Some e => e.2
  | None => match pool with e :: _ => e.2 | [] => O end
  end.
End take.

Definition outbound_objects (w : Lane) : list PendingCommand := omap (fun n => objects w !! n) (outbound w).

Definition takeNextOutbound (w : Lane) : option nat * Lane :=
  let index := next_index (outbound_objects w) (lastSentRoute w) in
  (outbound w !! index, set_outbound (take index (outbound w) ++ drop (S index) (outbound w)) w).

(** ** Settlement *)

Definition outcome_of (p : PendingCommand) (completion : Completion) : CommandOutcome :=
  match completion with
  | Succeeded result => OutcomeOk result
  | FailedWith failure => OutcomeFailed failure (attempting p || handedOff p)
  end.

Definition transfers (p : PendingCommand) (outcome : CommandOutcome) : bool :=
  bool_decide (command_type (command p) = t_preview)
  && match outcome with
     | OutcomeOk (mkResult _ _ (R_preview p_transfer _ _)) => true
     | _ => false
     end.

Definition finish_command (n : nat) (completion : Completion) (w : Lane) : Lane :=
  match objects w !! n with
  | None => w
  | Some p =>
     if settled p then w
     else
       let outcome := outcome_of p completion in
       let id := tc_requestId (command p) in
       let w := update_object n set_settled w in
       let w := if transfers p outcome
                then set_heldPreviewReservations
                       (if bool_decide (id ∈ heldPreviewReservations w) then heldPreviewReservations w
                        else heldPreviewReservations w ++ [id]) w
                else w in
       let w := set_pending (jdelete id (pending w)) w in
       let w := set_retainedOutboundBytes (retainedOutboundBytes w - zlen (bytes p)) w in
       let w := log (EOutcome n outcome) w in
       push ((if onSettled p then [TCall (CSettled n outcome)] else []) ++ [TSettled n outcome]) w
  end.

(** The rest of [finish], after [onSettled]. *)

Definition finish_settled (n : nat) (outcome : CommandOutcome) (w : Lane) : Lane :=
  match objects w !! n with
  | None => w
  | Some p =>
     let w := push [TResolve n outcome] w in
     if timer p then afterward (WDispose n) w else w
  end.

Definition notify_handoff (n : nat) (w : Lane) : Lane :=
  match objects w !! n with
  | None => w
  | Some p =>
     let w := update_object n set_handedOff w in
     if handoffNotified p then w
     else let w := log (EHandoff n) w in
          if onHandoff p then push [TCall (CHandoff n)] w else w
  end.

(** One iteration of a sweep. *)

Definition unsent (p : PendingCommand) : bool := negb (attempting p) && negb (handedOff p).

Definition sweep_one (sweep : Sweep) (p : PendingCommand) : option CommandFailure :=
  match sweep with
  | SwControl r =>
     match tc_body (command p) with
     | K_applied_ack s _ | K_baseline_progress s _ _ =>
        if unsent p && seqb (routeKey s) (routeKey r) then Some (fails le_invalid_state) else None
     | _ => None
     end
  | SwUnsent r types =>
     match command_subscription (command p) with
     | Some s =>
        if sameSubscriptionRef s r && bool_decide (command_type (command p) ∈ types) && unsent p
        then Some (fails le_invalid_state) else None
     | None => None
     end
  | SwClose reason => Some (expired p reason)
  end.

Section lane.
(** [codec.encode(JSON.stringify(command))], which may throw, and
    [JSON.parse(codec.decodeFatal(metadata))] with the message the tree spells. *)
Context (encode : TerminalCommand -> option (list Z)).
Context (parse : list Z -> option (json * option TerminalMetadata)).

(** ** send *)

Definition reject (n : nat) (notify : bool) (reason : LocalErrorReason) (w : Lane) : Lane :=
  let outcome := OutcomeFailed (fails reason) false in
  push ((if notify then [TCall (CRefused n outcome)] else []) ++ [TResolve n outcome]) (log (EOutcome n outcome) w).

Definition slots_used (w : Lane) : Z := zlen (pending w) + zlen (heldPreviewReservations w).

Definition ordinary_used (w : Lane) : Z :=
  zlen (heldPreviewReservations w) + zlen (List.filter (fun p => ordinary (command p)) (pending_objects w)).

(** The refusals of [sendInside], and the encoded frame of an admitted command. *)

Definition admission (c : TerminalCommand) (payload : list Z) (w : Lane) : LocalErrorReason + list Z :=
  match owner_binding w with
  | None => inl le_invalid_state
  | Some budgets =>
     let id := tc_requestId c in
     let is_input := bool_decide (command_type c = t_input) in
     if negb (owner_socket w) then inl le_invalid_state
     else if jhas id (pending w) || bool_decide (id ∈ heldPreviewReservations w)
             || (pendingWorkerCommands M0_LIMITS <=? slots_used w)
     then inl le_capacity
     else if ordinary c && (pendingWorkerCommands M0_LIMITS - 32 <=? ordinary_used w) then inl le_capacity
     else if (negb is_input && negb (zlen payload =? 0)) || (is_input && (zlen payload =? 0))
             || (MAX_PAYLOAD_BYTES <? zlen payload)
     then inl le_invalid_request
     else match encode c with
          | None => inl le_invalid_request
          | Some metadata =>
             match encodeTerminalFrame 1 metadata payload with
             | inl _ => inl le_invalid_request
             | inr frame =>
                if (outbound_cap budgets <? retainedOutboundBytes w + zlen frame)
                   || (ordinary c && (outboundConnectionBytes budgets <? retainedOutboundBytes w + zlen frame))
                then inl le_capacity
                else inr frame
             end
          end
  end.

Definition sendInside (n : nat) (c : TerminalCommand) (handoff notify check : bool) (payload : list Z) (w : Lane) : Lane :=
  match admission c payload w with
  | inl reason => reject n notify reason w
  | inr frame =>
     let p := mkPending c frame handoff notify check false false false false false in
     let w := set_objects (<[n := p]> (objects w)) w in
     let w := set_pending (jset (tc_requestId c) n (pending w)) w in
     let w := set_retainedOutboundBytes (retainedOutboundBytes w + zlen frame) w in
     push [TCall (CSetTimer n)] (log (ESend n c) w)
  end.

(** ** receive *)

Definition read_frame (message : list Z) : option ByteFrame :=
  match read (newFrameDecoder TERMINAL_LANE TERMINAL_REVISION) message with
  | Some (r, d) =>
     match status r, frames r, (finish d).1 with
     | error, _, _ => None
     | _, [frame], inr _ => if consumedBytes r =? zlen message then Some frame else None
     | _, _, _ => None
     end
  | None => None
  end.

Definition is_preview_reply (value : TerminalMetadata) : bool :=
  match value with
  | TM_result r => bool_decide (result_command r = t_preview)
  | TM_error e => bool_decide (te_commandType e = t_preview)
  | _ => false
  end.

(** A reply (kind 2 or 4) with the request ID it names. *)

Definition receive_reply (id : string) (value : TerminalMetadata) (w : Lane) : list Task :=
  let unmatched := if is_preview_reply value then [TCall (CPreviewReply value)] else [] in
  match jget id (pending w) with
  | None => unmatched
  | Some n =>
     match objects w !! n with
     | None => []
     | Some p =>
        if settled p then unmatched
        else match value with
             | TM_error e =>
                if negb (bool_decide (te_commandType e = command_type (command p)))
                   || negb (sameRunRef (te_run e) (tc_run (command p)))
                then [TInvalid]
                else [TFinish n (FailedWith (mkCommandFailure (remoteError (te_error e))
                        (bool_decide (err_acceptance (te_error e) = acc_unknown))))]
             | TM_result r =>
                if negb (validateTerminalResultForCommand (command p) r) then [TInvalid]
                else [TNotify n; TFinish n (Succeeded r)]
             | _ => []
             end
     end
  end.

Definition receive_frame (frame : ByteFrame) (connection : ConnectionRef) (w : Lane) : list Task :=
  match parse (frame_metadata frame) with
  | None => [TInvalid]
  | Some (tree, typed) =>
     match validateTerminalFrame (frame_kind frame) (zlen (frame_metadata frame)) (zlen (frame_payload frame))
             tree typed (Some connection) with
     | inl _ => [TInvalid]
     | inr value =>
        if frame_kind frame =? 1 then [TInvalid]
        else match value with
             | TM_event event =>
                match externalEventSubscription event with
                | None => [TCall (CPreview event (frame_payload frame))]
                | Some r =>
                   match jget (routeKey r) (routes w) with
                   | Some receiver => [TCall (CRoute receiver event (frame_payload frame))]
                   | None => []
                   end
                end
             | TM_result r => receive_reply (tr_requestId r) value w
             | TM_error e => receive_reply (te_requestId e) value w
             | TM_command _ => [TInvalid]
             end
     end
  end.

Definition receiveInside (message : list Z) (connection : ConnectionRef) (w : Lane) : Lane :=
  match owner_binding w with
  | None => push [TInvalid] w
  | Some budgets =>
     if (zlen message <? 1) || (outbound_cap budgets <? zlen message) then push [TInvalid] w
     else
       let frameLease := zlen message * 3 + MAX_METADATA_BYTES * 3 in
       let '(reserved, w) := reserveIngress frameLease w in
       if negb reserved then push [TInvalid] w
       else
         let tasks := match read_frame message with
                      | Some frame => receive_frame frame connection w
                      | None => [TInvalid]
                      end in
         push (tasks ++ [TRelease frameLease]) w
  end.

(** ** Operations *)

Inductive LaneOp :=
  | OSend (c : TerminalCommand) (handoff notify check : bool) (payload : list Z)
  | ORegister (r : SubscriptionRef) (receiver : nat)
  | ORetire (r : SubscriptionRef)
  | OCancelUnsentControl (r : SubscriptionRef)
  | OCancelUnsent (r : SubscriptionRef) (types : list TerminalCommandType)
  | OCancelPreview (requestId : string)
  | OReserveIngress (n : Z)
  | OReleaseIngress (n : Z)
  | OReceive (message : list Z) (connection : ConnectionRef)
  | OClose (reason : LocalErrorReason)
  | OAfterward (name : nat)
  | ONextRequestId (generation : Z)
  | ONextFocusSeq (r : SubscriptionRef)
  | ONextInputSeq (r : SubscriptionRef)
  | OTimer (n : nat)
  | OOwner (binding : option EffectiveBudgets) (socket : bool).

(** A lane entry: the body runs between [depth++] and the [finally] of [enter]. *)

Definition entered (body : Lane -> Lane) (w : Lane) : Lane :=
  body (push [TExit] (set_depth (S (depth w)) w)).

Definition close_routes (w : Lane) : Lane :=
  let w := set_retiredRefs [] (set_routes [] w) in
  set_lastSentRoute None (set_inputSequences [] (set_focusSequences [] w)).

Definition perform (op : LaneOp) (w : Lane) : Lane :=
  match op with
  | OSend c handoff notify check payload =>
     let n := next w in
     entered (sendInside n c handoff notify check payload) (set_next (S n) w)
  | ORegister r receiver => register r receiver w
  | ORetire r => retire r w
  | OCancelUnsentControl r => entered (push [TEach (jvalues (pending w)) (SwControl r)]) w
  | OCancelUnsent r types => entered (push [TEach (jvalues (pending w)) (SwUnsent r types)]) w
  | OCancelPreview id =>
     entered (fun w =>
       let w := set_heldPreviewReservations (List.filter (fun k => negb (seqb k id)) (heldPreviewReservations w)) w in
       match jget id (pending w) with
       | None => w
       | Some n =>
          match objects w !! n with
          | Some p =>
             if bool_decide (command_type (command p) = t_preview)
             then push [TFinish n (FailedWith (mkCommandFailure (localError le_invalid_state)
                                                 (attempting p || handedOff p)))] w
             else w
          | None => w
          end
       end) w
  | OReserveIngress n =>
     let '(reserved, w) := reserveIngress n w in if reserved then log (EReserved n) w else w
  | OReleaseIngress n => releaseIngress n (log (EReleased n) w)
  | OReceive message connection => entered (receiveInside message connection) w
  | OClose reason =>
     entered (fun w => push [TEach (jvalues (pending w)) (SwClose reason); TCloseEnd] (log EClosed (close_routes w))) w
  | OAfterward name => afterward (WForeign name) w
  | ONextRequestId generation => nextRequestId generation w
  | ONextFocusSeq r => nextFocusSeq r w
  | ONextInputSeq r => nextInputSeq r w
  | OTimer n =>
     match objects w !! n with
     | Some p => entered (push [TFinish n (FailedWith (expired p le_timeout))]) w
     | None => w
     end
  | OOwner binding socket => set_owner_socket socket (set_owner_binding binding w)
  end.

(** Who may call the lane: the event loop, and the foreign code the lane runs but
    for a [beforeSend] check. *)

Definition may_enter (w : Lane) : bool :=
  match stack w with
  | [] => true
  | TCall (CBeforeSend _) :: _ => false
  | TCall _ :: _ => true
  | _ => false
  end.

Definition enterLane (op : LaneOp) (w : Lane) : option Lane := if may_enter w then Some (perform op w) else None.

(** ** The return of foreign code *)

Definition resume (a : Answer) (w : Lane) : option Lane :=
  match stack w with
  | TCall c :: rest =>
     let w := set_stack rest w in
     let returns tasks := Some (push tasks w) in
     match c, a with
     | CRefused _ _, Done | CSettled _ _, Done | CHandoff _, Done | CRoute _ _ _, Done | CWork _, Done
     | CInvalid, Done | CTimerDispose _, Done => Some w
     | CRefused _ _, Threw | CSettled _ _, Threw | CHandoff _, Threw | CRoute _ _ _, Threw
     | CPreview _ _, Threw | CPreviewReply _, Threw | CWork (WForeign _), Threw => returns [TInvalid]
     | CWork (WDispose _), Threw | CTimerDispose _, Threw => Some w
     | CSetTimer n, Done =>
        let w := update_object n set_timer w in
        match objects w !! n with
        | Some p => Some (push (if settled p then [TCall (CTimerDispose n); TQueue n] else [TQueue n]) w)
        | None => Some w
        end
     | CSetTimer n, Threw => returns [TFinish n (FailedWith (fails le_invalid_state))]
     | CBeforeSend n, Eligible true => returns [TSocket n]
     | CBeforeSend n, Eligible false | CBeforeSend n, Threw => returns [TFinish n (FailedWith (fails le_invalid_state))]
     | CSocketSend n, (Sent _ | Threw) =>
        match objects w !! n with
        | Some p =>
           if settled p then Some w
           else match a with
                | Sent handed_off => returns [TNotify n]
                | _ => returns [TFinish n (FailedWith (mkCommandFailure (result_unknown (command p)) true))]
                end
        | None => Some w
        end
     | CPreview _ _, Routed route | CPreviewReply _, Routed route =>
        match route with route_unrouteable => returns [TInvalid] | _ => Some w end
     | COpaqueId generation next, Supplied id => Some (log (ERequestId (requestId_of id generation next)) w)
     | COpaqueId _ _, Threw => Some (log (ERequestId None) w)
     | _, _ => None
     end
  | _ => None
  end.

(** ** The lane's own code *)

Definition run (w : Lane) : option Lane :=
  match stack w with
  | [] | TCall _ :: _ => None
  | task :: rest =>
     let w := set_stack rest w in
     Some match task with
          | TCall _ => w
          | TExit =>
             let w := set_depth (pred (depth w)) w in
             if (depth w =? 0)%nat then push [TRunFollowUps] w else w
          | TRunFollowUps => if runningFollowUps w then w else push [TFollowLoop] (set_runningFollowUps true w)
          | TFollowLoop =>
             match followUps w with
             | [] => set_runningFollowUps false w
             | work :: works => push [TCall (CWork work); TFollowLoop] (set_followUps works w)
             end
          | TQueue n =>
             match objects w !! n with
             | Some p =>
                if settled p then w
                else push [TFlush] (log (EQueued n (command p)) (set_outbound (outbound w ++ [n]) w))
             | None => w
             end
          | TFlush => if flushing w then w else push [TFlushLoop] (set_flushing true w)
          | TFlushLoop =>
             match outbound w with
             | [] => set_flushing false w
             | _ => push [TRunFollowUps; TFlushNext] w
             end
          | TFlushNext =>
             match outbound w with
             | [] => set_flushing false w
             | _ =>
                let '(taken, w) := takeNextOutbound (push [TFlushLoop] w) in
                match taken with
                | None => w
                | Some n =>
                   match objects w !! n with
                   | None => w
                   | Some p =>
                      if settled p then w
                      else push [if beforeSend p then TCall (CBeforeSend n) else TSocket n] w
                   end
                end
             end
          | TSocket n =>
             match objects w !! n with
             | None => w
             | Some p =>
                if negb (owner_socket w) then push [TFinish n (FailedWith (fails le_transport))] w
                else
                  let w := update_object n set_attempting w in
                  let w := match command_subscription (command p) with
                           | Some r => set_lastSentRoute (Some (routeKey r)) w
                           | None => w
                           end in
                  push [TCall (CSocketSend n)] (log (EEntered n (command p)) w)
             end
          | TNotify n => notify_handoff n w
          | TFinish n completion => finish_command n completion w
          | TSettled n outcome => finish_settled n outcome w
          | TResolve n outcome => log (EResolved n outcome) w
          | TEach [] _ => w
          | TEach (n :: snapshot) sweep =>
             let w := push [TEach snapshot sweep] w in
             match objects w !! n with
             | Some p =>
                match sweep_one sweep p with
                | Some failure => push [TFinish n (FailedWith failure)] w
                | None => w
                end
             | None => w
             end
          | TCloseEnd => set_outbound [] (set_heldPreviewReservations [] w)
          | TInvalid => push [TCall CInvalid] w
          | TRelease lease => releaseIngress lease w
          end
  end.

Inductive step : Lane -> Lane -> Prop :=
  | step_run w w' : run w = Some w' -> step w w'
  | step_enter op w w' : enterLane op w = Some w' -> step w w'
  | step_resume a w w' : resume a w = Some w' -> step w w'.

Definition reachable (w : Lane) : Prop := rtc step newLane w.
(** ** Schedules: what foreign code does, with the lane's own code run in between *)

Inductive Move :=
  | Enter (op : LaneOp)
  | Return (a : Answer).

Fixpoint settle (fuel : nat) (w : Lane) : Lane :=
  match fuel with
  | O => w
  | S fuel => match run w with Some w' => settle fuel w' | None => w end
  end.

Definition move (m : Move) (w : Lane) : option Lane :=
  match m with
  | Enter op => enterLane op w
  | Return a => resume a w
  end.

Fixpoint play (fuel : nat) (moves : list Move) (w : Lane) : option Lane :=
  match moves with
  | [] => Some w
  | m :: moves => match move m w with Some w' => play fuel moves (settle fuel w') | None => None end
  end.
End lane.
