(* ===== verification/ClientLaneInvariant.v ===== *)
(** * What holds between any two steps of the terminal lane

    The lane's own code always comes back to foreign code or to the event loop
    ([run_decreases], [settle_suspends]); and the facts that every step keeps
    about the shape of the control stack, the commands and the accounts. *)

From S2P Require Import Prelude Json JsMap Protocol Errors Frame Terminal ClientLane.

Ltac lane_simpl := cbn [objects next pending routes retiredRefs outbound heldPreviewReservations flushing
  retainedOutboundBytes retainedIngressBytes requestSequence focusSequences inputSequences lastSentRoute depth
  followUps runningFollowUps owner_binding owner_socket stack trace
  set_objects set_next set_pending set_routes set_retiredRefs set_outbound set_heldPreviewReservations set_flushing
  set_retainedOutboundBytes set_retainedIngressBytes set_requestSequence set_focusSequences set_inputSequences
  set_lastSentRoute set_depth set_followUps set_runningFollowUps set_owner_binding set_owner_socket set_stack
  set_trace log push update_object Datatypes.app takeNextOutbound fst snd] in *.

(** ** The lane's own code ends *)

Definition task_weight (t : Task) : nat :=
  match t with
  | TCall _ => 0
  | TFollowLoop | TResolve _ _ | TCloseEnd | TInvalid | TRelease _ | TNotify _ | TFlushNext => 1
  | TRunFollowUps => 2
  | TExit => 3
  | TFlushLoop => 4
  | TFlush | TSettled _ _ => 5
  | TFinish _ _ => 6
  | TSocket _ => 7
  | TQueue _ => 17
  | TEach l _ => 7 * length l + 1
  end.

Definition tasks_weight (l : list Task) : nat := list_sum (map task_weight l).

Definition lane_weight (w : Lane) : nat :=
  tasks_weight (stack w) + length (followUps w) + 11 * length (outbound w).

Lemma tasks_weight_cons t l : tasks_weight (t :: l) = (task_weight t + tasks_weight l)%nat.
Proof. done. Qed.

Lemma tasks_weight_app l k : tasks_weight (l ++ k) = (tasks_weight l + tasks_weight k)%nat.
Proof. unfold tasks_weight. rewrite map_app, list_sum_app. done. Qed.

Lemma remove_length {A} (l : list A) i x : l !! i = Some x -> length (take i l ++ drop (S i) l) = pred (length l).
Proof.
  intros H. pose proof (lookup_lt_Some _ _ _ H). rewrite length_app, length_take, length_drop. lia.
Qed.

(** ** What is taken out of the queue *)

Lemma first_by_route_spec keys index m key i :
  jget key (first_by_route keys index m) = Some i ->
  jget key m = Some i \/ (jget key m = None /\ exists j, i = (index + j)%nat /\ keys !! j = Some key
                          /\ forall j', (j' < j)%nat -> keys !! j' <> Some key).
Proof.
  revert index m. induction keys as [|k keys IH]; intros index m H; cbn in H; [by left|].
  apply IH in H as [H|(Hn & j & -> & Hj & Hfirst)].
  - unfold jhas in H. destruct (jget k m) eqn:E; [by left|]. rewrite jget_set in H. case_decide; [|by left].
    subst. right. simplify_eq. split; [done|]. exists O. split_and!; [lia|done|lia].
  - right. unfold jhas in Hn. destruct (jget k m) eqn:E.
    + split; [done|]. exists (S j). split_and!; [lia|done|]. intros [|j'] Hj'; cbn; [congruence|]. apply Hfirst. lia.
    + rewrite jget_set in Hn. case_decide; [done|]. split; [done|]. exists (S j).
      split_and!; [lia|done|]. intros [|j'] Hj'; cbn; [congruence|]. apply Hfirst. lia.
Qed.

Lemma first_by_route_wf keys index m : jwf m -> jwf (first_by_route keys index m).
Proof.
  revert index m. induction keys as [|k keys IH]; intros index m Hm; cbn; [done|].
  apply IH. case_match; [done|]. by apply jwf_set.
Qed.

(** An index is the first of its key in the queue. *)

Definition first_of (l : list PendingCommand) (i : nat) : Prop :=
  exists p, l !! i = Some p /\
    forall j q, (j < i)%nat -> l !! j = Some q -> queue_key (command q) <> queue_key (command p).

Lemma candidates_first l e : e ∈ candidates l -> first_of l e.2 /\
  (exists p, l !! e.2 = Some p /\ e.1 = queue_key (command p)).
Proof.
  unfold candidates. rewrite list_elem_of_In. intros [He _]%filter_In. apply list_elem_of_In in He.
  destruct e as [k i]. apply jget_elem in He; [|apply first_by_route_wf; apply NoDup_nil_2].
  apply first_by_route_spec in He as [He|(_ & j & -> & Hj & Hfirst)]; [done|]. cbn in *.
  rewrite list_lookup_fmap in Hj. destruct (l !! j) as [p|] eqn:E; [|done]. simplify_eq/=.
  split; [|by exists p]. exists p. split; [done|]. intros j' q Hlt Hq Hk.
  apply (Hfirst j' Hlt). rewrite list_lookup_fmap, Hq. cbn. by rewrite Hk.
Qed.

Lemma pool_candidates l last e : e ∈ pool l last -> e ∈ candidates l.
Proof.
  unfold pool. cbn zeta. set (f := List.filter _ (candidates l)). intros H.
  assert (e ∈ candidates l \/ e ∈ f) as [?|Hf] by (destruct f; auto); [done|].
  apply list_elem_of_In, filter_In in Hf as [Hf _]. by apply list_elem_of_In.
Qed.

Lemma next_index_first l last : l <> [] -> first_of l (next_index l last).
Proof.
  intros Hl. unfold next_index. destruct (List.find _ _) as [e|] eqn:E.
  - apply find_some in E as [E _]. apply list_elem_of_In, pool_candidates, candidates_first in E. tauto.
  - destruct (pool l last) as [|e p] eqn:Ep.
    + destruct l as [|p l]; [done|]. exists p. split; [done|]. lia.
    + apply (candidates_first _ e), (pool_candidates _ last). rewrite Ep. left.
Qed.

Lemma next_index_lt w : outbound w <> [] ->
  (next_index (outbound_objects w) (lastSentRoute w) < length (outbound w))%nat.
Proof.
  intros Hne. destruct (outbound_objects w) as [|p l] eqn:E.
  - cbn. destruct (outbound w); [done|cbn; lia].
  - destruct (next_index_first (outbound_objects w) (lastSentRoute w)) as (q & Hq & _); [by rewrite E|].
    rewrite <- E. apply lookup_lt_Some in Hq. eapply Nat.lt_le_trans; [exact Hq|]. unfold outbound_objects. clear.
    induction (outbound w) as [|n ns IH]; cbn; [lia|]. case_match; cbn; lia.
Qed.

Ltac weigh := repeat (case_match; simplify_eq); lane_simpl; rewrite ?tasks_weight_app, ?tasks_weight_cons, ?length_app in *;
  cbn [task_weight length] in *; try lia.

Lemma finish_weight n c w : (lane_weight (finish_command n c w) <= lane_weight w + 5)%nat.
Proof. unfold finish_command, lane_weight. weigh. Qed.

Lemma finish_settled_weight n o w : (lane_weight (finish_settled n o w) <= lane_weight w + 4)%nat.
Proof. unfold finish_settled, afterward, lane_weight. weigh. Qed.

Lemma run_decreases w w' : run w = Some w' -> (lane_weight w' < lane_weight w)%nat.
Proof.
  unfold run. destruct (stack w) as [|t rest] eqn:Es; [done|].
  destruct t; intros [= <-]; try done;
    lazymatch goal with
    | |- context [finish_command ?n ?c ?w'] => pose proof (finish_weight n c w')
    | |- context [finish_settled ?n ?c ?w'] => pose proof (finish_settled_weight n c w')
    | _ => idtac
    end;
    unfold lane_weight, notify_handoff, releaseIngress in *; rewrite Es; cbn [takeNextOutbound];
    repeat match goal with |- context [match ?x with [] => _ | _ => _ end] => destruct x eqn:? end;
    try solve [weigh; repeat match goal with H : _ = _ |- _ => rewrite H end; cbn [length]; lia].
  assert (Hne : outbound w <> []) by congruence.
  pose proof (next_index_lt w Hne) as Hlt.
  change (outbound_objects (push [TFlushLoop] (set_stack rest w))) with (outbound_objects w).
  lane_simpl. destruct (lookup_lt_is_Some_2 _ _ Hlt) as [m Hm]. pose proof (remove_length _ _ _ Hm) as Hr.
  replace (n :: l) with (outbound w) in * by done. rewrite Hm.
  repeat case_match; lane_simpl; rewrite ?tasks_weight_cons; cbn [task_weight]; lia.
Qed.

Definition suspended (w : Lane) : Prop := match stack w with [] | TCall _ :: _ => True | _ => False end.

Lemma run_none w : run w = None <-> suspended w.
Proof. unfold run, suspended. destruct (stack w) as [|[] rest]; split; done. Qed.

Lemma settle_suspends fuel w : (lane_weight w <= fuel)%nat -> suspended (settle fuel w).
Proof.
  revert w. induction fuel as [|fuel IH]; intros w Hw; cbn.
  - destruct (run w) as [w'|] eqn:E; [|by apply run_none]. apply run_decreases in E. lia.
  - destruct (run w) as [w'|] eqn:E; [|by apply run_none]. apply IH. apply run_decreases in E. lia.
Qed.

(** ** The cases of a step *)

Section cases.
Context (encode : TerminalCommand -> option (list Z)) (parse : list Z -> option (json * option TerminalMetadata)).

(** What [receiveInside] leaves to do about a frame. *)

Inductive receives (w : Lane) : list Task -> Prop :=
  | receives_nothing : receives w []
  | receives_invalid : receives w [TInvalid]
  | receives_event r event payload : receives w [TCall (CRoute r event payload)]
  | receives_preview event payload : receives w [TCall (CPreview event payload)]
  | receives_preview_reply reply : receives w [TCall (CPreviewReply reply)]
  | receives_error n p e : jget (te_requestId e) (pending w) = Some n -> objects w !! n = Some p -> settled p = false ->
      receives w [TFinish n (FailedWith (mkCommandFailure (remoteError (te_error e))
                                           (bool_decide (err_acceptance (te_error e) = acc_unknown))))]
  | receives_result n p r : jget (tr_requestId r) (pending w) = Some n -> objects w !! n = Some p -> settled p = false ->
      validateTerminalResultForCommand (command p) r = true ->
      receives w [TNotify n; TFinish n (Succeeded r)].

Lemma receive_frame_receives frame connection w : receives w (receive_frame parse frame connection w).
Proof.
  unfold receive_frame, receive_reply. repeat case_match; try constructor; simplify_eq; cbn in *; try congruence.
  all: repeat match goal with H : negb _ = false |- _ => apply negb_false_iff in H end.
  all: eauto using receives_error, receives_result.
Qed.

Lemma receiveInside_cases message connection w w' :
  receiveInside parse message connection w = w' ->
  w' = push [TInvalid] w \/
  exists tasks lease, receives w tasks /\ 0 < lease
    /\ (exists b, owner_binding w = Some b /\ retainedIngressBytes w + lease <= outbound_cap b)
    /\ w' = push (tasks ++ [TRelease lease]) (set_retainedIngressBytes (retainedIngressBytes w + lease) w).
Proof.
  unfold receiveInside, reserveIngress. intros <-.
  destruct (owner_binding w) as [b|] eqn:Eb; [|by left]. case_match eqn:Em; [by left|].
  match goal with |- context [if ?b then (false, _) else _] => destruct b eqn:Ec end; cbn; [by left|]. right.
  assert (0 < zlen message) by (apply orb_false_iff in Em as [Em _]; lia).
  refine (ex_intro _ _ (ex_intro _ _ (conj _ (conj _ (conj _ eq_refl))))).
  - case_match; [|constructor]. pose proof (receive_frame_receives b0 connection
      (set_retainedIngressBytes (retainedIngressBytes w + (zlen message * 3 + MAX_METADATA_BYTES * 3)) w)) as Hr.
    inversion Hr; econstructor; eauto.
  - unfold MAX_METADATA_BYTES. lia.
  - exists b. split; [done|]. apply orb_false_iff in Ec as [_ Ec]. lia.
Qed.

(** What an admitted command satisfies. *)

Lemma admission_admits c payload w frame : admission encode c payload w = inr frame ->
  exists budgets, owner_binding w = Some budgets /\ owner_socket w = true
  /\ jget (tc_requestId c) (pending w) = None /\ (tc_requestId c ∉ heldPreviewReservations w)
  /\ slots_used w < pendingWorkerCommands M0_LIMITS
  /\ (ordinary c = true -> ordinary_used w < pendingWorkerCommands M0_LIMITS - 32)
  /\ retainedOutboundBytes w + zlen frame <= outbound_cap budgets
  /\ (ordinary c = true -> retainedOutboundBytes w + zlen frame <= outboundConnectionBytes budgets).
Proof.
  unfold admission. destruct (owner_binding w) as [b|]; [|done]. intros H.
  repeat case_match; simplify_eq. bool_hyps. exists b.
  unfold jhas in *. repeat case_match; simplify_eq; bool_hyps.
  split_and!; try done; try lia; try (apply negb_false_iff; done); intros; try lia.
  all: destruct (ordinary c); cbn in *; bool_hyps; try done; try lia.
Qed.

End cases.

(** The cases of a step, each with the state it leads to spelled out. *)

Ltac goal_match :=
  match goal with
  | |- context [match ?x with _ => _ end] =>
     lazymatch x with context [match _ with _ => _ end] => fail | _ => destruct x eqn:? end
  end.

Ltac unfold_ops := unfold entered, sendInside, reject, register, retire, close_routes, nextFocusSeq, nextInputSeq,
  nextSeq, nextRequestId, reserveIngress, releaseIngress, notify_handoff, finish_command, finish_settled, afterward in *.

Ltac step_cases H :=
  let Es := fresh "Es" in
  let Em := fresh "Em" in
  destruct H as [w w' H|op w w' H|a w w' H];
  [ unfold run in H; destruct (stack w) as [|t rest] eqn:Es; [done|]; destruct t; try done; injection H as <-
  | unfold enterLane in H; destruct (may_enter w) eqn:Em; [|done]; injection H as <-; destruct op; cbn [perform]
  | unfold resume in H; destruct (stack w) as [|[c| | | | | | | | | | | | | | | |] rest] eqn:Es; try done;
    destruct c, a; try done; lane_simpl;
    repeat match type of H with
    | context [match ?x with _ => _ end] =>
       lazymatch x with context [match _ with _ => _ end] => fail | _ => destruct x eqn:? end
    end; try done; injection H as <- ];
  unfold_ops;
  try match goal with
  | |- context [receiveInside ?pa ?m ?c ?w0] =>
     let tasks := fresh "tasks" in
     let lease := fresh "lease" in
     let Hr := fresh "Hr" in
     destruct (receiveInside_cases pa m c w0 _ eq_refl) as [->|(tasks & lease & Hr & ? & (? & ? & ?) & ->)]; [|destruct Hr]
  end;
  repeat (goal_match; simplify_eq); lane_simpl.

Section lane.
Context (encode : TerminalCommand -> option (list Z)) (parse : list Z -> option (json * option TerminalMetadata)).

(** ** The shape of the stack *)

Definition count (f : Task -> bool) (l : list Task) : nat := length (List.filter f l).

Definition is_exit (t : Task) : bool := match t with TExit => true | _ => false end.
Definition is_flushing (t : Task) : bool := match t with TFlushLoop | TFlushNext => true | _ => false end.
Definition is_following (t : Task) : bool := match t with TFollowLoop => true | _ => false end.
Definition is_flush (t : Task) : bool := match t with TFlush => true | _ => false end.
Definition is_follow_ups (t : Task) : bool := match t with TRunFollowUps => true | _ => false end.

Record stack_ok (w : Lane) : Prop := mkStackOk {
  ok_depth : depth w = count is_exit (stack w);
  ok_flushing : count is_flushing (stack w) = (if flushing w then 1 else 0)%nat;
  ok_following : count is_following (stack w) = (if runningFollowUps w then 1 else 0)%nat;
  ok_outbound : outbound w <> [] -> flushing w = true \/ existsb is_flush (stack w) = true;
  ok_followUps : followUps w <> [] ->
    runningFollowUps w = true \/ (0 < depth w)%nat \/ existsb is_follow_ups (stack w) = true;
}.

Lemma count_cons f t l : count f (t :: l) = ((if f t then 1 else 0) + count f l)%nat.
Proof. unfold count. cbn. by case_match. Qed.

Ltac count_simpl := rewrite ?count_cons in *;
  cbn [is_exit is_flushing is_following is_flush is_follow_ups existsb orb] in *.

Lemma stack_ok_step w w' : step encode parse w w' -> stack_ok w -> stack_ok w'.
Proof.
  intros H Hok. destruct Hok as [H1 H2 H3 H4 H5]. step_cases H; try rewrite Es in *.
  all: constructor; lane_simpl; count_simpl; try first [done | assumption | lia | tauto].
  all: repeat match goal with H : (_ =? _)%nat = _ |- _ => first [apply Nat.eqb_eq in H | apply Nat.eqb_neq in H] end.
  all: destruct (flushing w) eqn:?; try solve [lia | congruence].
  all: destruct (runningFollowUps w) eqn:?; try solve [lia | congruence].
  all: try solve [intros; intuition (try congruence; try lia)].
Qed.

(** ** The commands and the accounts *)

Definition core_of (p : PendingCommand) : TerminalCommand * list Z * bool := (command p, bytes p, settled p).

Definition core (w : Lane) : gmap nat (TerminalCommand * list Z * bool) := core_of <$> objects w.

Definition frame_bytes_of (m : gmap nat (TerminalCommand * list Z * bool)) (n : nat) : Z :=
  match m !! n with Some (_, b, _) => zlen b | None => 0 end.

Definition ordinary_of (m : gmap nat (TerminalCommand * list Z * bool)) (n : nat) : Z :=
  match m !! n with Some (c, _, _) => if ordinary c then 1 else 0 | None => 0 end.

(** The invariant is one of the parts of the state it speaks of, so that a step
    which leaves those alone has nothing to prove. *)

Record commands_ok (m : gmap nat (TerminalCommand * list Z * bool)) (next : nat) (pending : jsmap string nat)
    (retained : Z) (held : list string) : Prop := mkCommandsOk {
  co_next : forall n x, m !! n = Some x -> (n < next)%nat;
  co_pending : forall n c b, m !! n = Some (c, b, false) -> jget (tc_requestId c) pending = Some n;
  co_live : forall id n, jget id pending = Some n -> exists c b, m !! n = Some (c, b, false) /\ tc_requestId c = id;
  co_wf : jwf pending;
  co_bytes : retained = lsum (frame_bytes_of m) (jvalues pending);
  co_slots : zlen pending + zlen held <= pendingWorkerCommands M0_LIMITS;
  co_ordinary : zlen held + lsum (ordinary_of m) (jvalues pending) <= pendingWorkerCommands M0_LIMITS - 32;
}.

Definition kept (f : PendingCommand -> PendingCommand) : Prop := forall p, core_of (f p) = core_of p.

Lemma core_alter f n (m : gmap nat PendingCommand) : kept f -> core_of <$> alter f n m = core_of <$> m.
Proof.
  intros Hf. apply map_eq. intros k. rewrite !lookup_fmap, lookup_alter.
  case_decide; [subst|done]. destruct (m !! k); cbn; [by rewrite Hf|done].
Qed.

Lemma timer_kept : kept set_timer. Proof. done. Qed.
Lemma attempting_kept : kept set_attempting. Proof. done. Qed.
Lemma handedOff_kept : kept set_handedOff. Proof. done. Qed.

Definition settle_core (x : TerminalCommand * list Z * bool) : TerminalCommand * list Z * bool := (x.1, true).

Lemma core_settle n (m : gmap nat PendingCommand) : core_of <$> alter set_settled n m = alter settle_core n (core_of <$> m).
Proof.
  apply map_eq. intros k. rewrite lookup_fmap, !lookup_alter, !lookup_fmap.
  destruct (decide (n = k)); [|done]. subst. by destruct (m !! k).
Qed.

Lemma commands_values m next pending retained held n : commands_ok m next pending retained held ->
  n ∈ jvalues pending -> is_Some (m !! n).
Proof.
  intros Hok Hn.
  assert (Hall : Forall (fun n => is_Some (m !! n)) (jvalues pending)).
  { apply jvalues_Forall; [apply Hok|]. intros id k Hk. apply Hok in Hk as (c & b & -> & _). by eexists. }
  rewrite Forall_forall in Hall. auto.
Qed.

Lemma commands_send m next pending retained held c b :
  commands_ok m next pending retained held ->
  jget (tc_requestId c) pending = None ->
  zlen pending + zlen held < pendingWorkerCommands M0_LIMITS ->
  (ordinary c = true -> zlen held + lsum (ordinary_of m) (jvalues pending) < pendingWorkerCommands M0_LIMITS - 32) ->
  commands_ok (<[next := (c, b, false)]> m) (S next) (jset (tc_requestId c) next pending) (retained + zlen b) held.
Proof.
  intros Hok Hnew Hs Ho. pose proof Hok as [H1 H2 H3 H4 H5 H6 H7].
  assert (Hfresh : m !! next = None) by (destruct (m !! next) eqn:E; [apply H1 in E; lia|done]).
  assert (Hold : forall k, k ∈ jvalues pending -> <[next := (c, b, false)]> m !! k = m !! k).
  { intros k Hk. eapply commands_values in Hk; [|done]. apply lookup_insert_ne. intros ->. rewrite Hfresh in Hk. by destruct Hk. }
  split.
  - intros k x [[<- _]|[_ Hk]]%lookup_insert_Some; [lia|]. apply H1 in Hk. lia.
  - intros k c' b' [[<- [= <- <-]]|[Hne Hk]]%lookup_insert_Some; rewrite jget_set; case_decide as Hid; try done.
    + apply H2 in Hk. congruence.
    + by eapply H2.
  - intros id k. rewrite jget_set. case_decide as Hid; [intros [= <-]; exists c, b; by rewrite lookup_insert_eq|].
    intros Hk. apply H3 in Hk as (c' & b' & Hk & <-). exists c', b'. split; [|done]. rewrite lookup_insert_ne; [done|].
    intros ->. congruence.
  - by apply jwf_set.
  - rewrite jsum_set_new, H5 by done. unfold frame_bytes_of at 3. rewrite lookup_insert_eq. f_equal.
    apply lsum_ext. intros k Hk. unfold frame_bytes_of. by rewrite Hold.
  - rewrite jset_size_new by done. lia.
  - rewrite jsum_set_new by done. unfold ordinary_of at 2. rewrite lookup_insert_eq.
    rewrite (lsum_ext _ (ordinary_of m)); [|intros k Hk; unfold ordinary_of; by rewrite Hold].
    destruct (ordinary c); [specialize (Ho eq_refl)|]; lia.
Qed.

Lemma commands_finish m next pending retained held n c b held' :
  commands_ok m next pending retained held -> m !! n = Some (c, b, false) ->
  zlen held' <= zlen held + (if ordinary c then 1 else 0) ->
  commands_ok (alter settle_core n m) next (jdelete (tc_requestId c) pending) (retained - zlen b) held'.
Proof.
  intros Hok Hn Hh. pose proof Hok as [H1 H2 H3 H4 H5 H6 H7]. pose proof (H2 _ _ _ Hn) as Hp.
  assert (Hsame : forall k x, alter settle_core n m !! k = Some x -> exists y, m !! k = Some y /\ y.1 = x.1 /\ (x.2 = false -> y = x /\ k <> n)).
  { intros k x. rewrite lookup_alter. case_decide as Hk; [|intros ->; exists x; auto].
    subst. rewrite Hn. cbn. intros [= <-]. by eexists. }
  assert (Hframe : forall k, frame_bytes_of (alter settle_core n m) k = frame_bytes_of m k /\
                             ordinary_of (alter settle_core n m) k = ordinary_of m k).
  { intros k. unfold frame_bytes_of, ordinary_of. rewrite lookup_alter. case_decide; [subst|done].
    by destruct (m !! k) as [[[??]?]|]. }
  assert (Hsize : zlen (jdelete (tc_requestId c) pending) = zlen pending - 1).
  { pose proof (jvalues_delete_perm _ _ _ H4 Hp) as Hperm. apply (f_equal zlen) in Hperm || apply Permutation_length in Hperm.
    unfold zlen. unfold jvalues in Hperm. cbn in Hperm. rewrite !length_fmap in Hperm. lia. }
  split.
  - intros k x Hk. apply Hsame in Hk as (y & Hy & _). eauto.
  - intros k c' b' Hk. apply Hsame in Hk as (y & Hy & _ & Hf). destruct (Hf eq_refl) as [-> Hne].
    rewrite jget_delete by done. apply H2 in Hy. case_decide as Hid; [|done]. rewrite Hid in Hy. congruence.
  - intros id k. rewrite jget_delete by done. case_decide as Hid; [done|]. intros Hk.
    apply H3 in Hk as (c' & b' & Hk & <-). exists c', b'. split; [|done]. rewrite lookup_alter_ne; [done|].
    intros ->. rewrite Hn in Hk. congruence.
  - by apply jwf_delete.
  - rewrite (lsum_ext _ (frame_bytes_of m)) by (intros; apply Hframe).
    rewrite (jsum_delete _ _ n) by done. unfold frame_bytes_of at 2. rewrite Hn. lia.
  - case_match; lia.
  - rewrite (lsum_ext _ (ordinary_of m)) by (intros; apply Hframe).
    rewrite (jsum_delete _ _ n) by done. unfold ordinary_of at 2. rewrite Hn. lia.
Qed.

Definition store_ok (w : Lane) : Prop :=
  commands_ok (core w) (next w) (pending w) (retainedOutboundBytes w) (heldPreviewReservations w).

Lemma ordinary_used_sum w :
  ordinary_used w = zlen (heldPreviewReservations w) + lsum (ordinary_of (core w)) (jvalues (pending w)).
Proof.
  unfold ordinary_used, pending_objects. f_equal. induction (jvalues (pending w)) as [|n l IH]; [done|].
  rewrite lsum_cons. unfold ordinary_of at 1, core. rewrite lookup_fmap. cbn.
  destruct (objects w !! n) as [p|]; cbn; [|by rewrite IH].
  destruct (ordinary (command p)); rewrite ?zlen_cons, IH; unfold core; lia.
Qed.

Lemma commands_unheld m next pending retained held held' : zlen held' <= zlen held ->
  commands_ok m next pending retained held -> commands_ok m next pending retained held'.
Proof. intros H []. split; try done; lia. Qed.

Lemma commands_next m next next' pending retained held : (next <= next')%nat ->
  commands_ok m next pending retained held -> commands_ok m next' pending retained held.
Proof. intros H [H1 ??????]. split; try done. intros n x Hn. apply H1 in Hn. lia. Qed.

Lemma core_lookup w n p : objects w !! n = Some p -> core w !! n = Some (command p, bytes p, settled p).
Proof. intros H. unfold core. by rewrite lookup_fmap, H. Qed.

Lemma transfers_ordinary p o : transfers p o = true -> ordinary (command p) = true.
Proof. unfold transfers, ordinary. intros [->%bool_decide_eq_true _]%andb_true_iff. done. Qed.

Lemma store_finish w n p held' : store_ok w -> objects w !! n = Some p -> settled p = false ->
  zlen held' <= zlen (heldPreviewReservations w) + (if ordinary (command p) then 1 else 0) ->
  commands_ok (alter settle_core n (core w)) (next w) (jdelete (tc_requestId (command p)) (pending w))
    (retainedOutboundBytes w - zlen (bytes p)) held'.
Proof. intros Hok Hn Hs Hh. eapply commands_finish; eauto. by rewrite (core_lookup _ _ _ Hn), Hs. Qed.

Lemma store_send w c payload frame : store_ok w -> admission encode c payload w = inr frame ->
  commands_ok (<[next w := (c, frame, false)]> (core w)) (S (next w)) (jset (tc_requestId c) (next w) (pending w))
    (retainedOutboundBytes w + zlen frame) (heldPreviewReservations w).
Proof.
  intros Hok (budgets & _ & _ & Hnew & _ & Hs & Ho & _)%admission_admits.
  apply commands_send; try done. intros Hc%Ho. rewrite ordinary_used_sum in Hc. lia.
Qed.

Lemma store_ok_step w w' : step encode parse w w' -> store_ok w -> store_ok w'.
Proof.
  intros H Hok. unfold store_ok in *. step_cases H; unfold core in *; lane_simpl;
    rewrite ?core_settle, ?(core_alter _ _ _ timer_kept), ?(core_alter _ _ _ attempting_kept), ?(core_alter _ _ _ handedOff_kept).
  all: try exact Hok.
  all: try (eapply store_finish; try done; rewrite ?zlen_app, ?zlen_cons, ?zlen_nil;
            first [by rewrite (transfers_ordinary p (outcome_of p completion)) by done
                  | case_match; lia | erewrite transfers_ordinary by done; lia]).
  all: try (eapply commands_next; [|exact Hok]; lia).
  all: try (eapply commands_unheld; [|exact Hok]; first [apply zlen_sublist, filter_sublist | apply zlen_nonneg]).
  rewrite fmap_insert. by apply (store_send w c payload).
Qed.

(** ** Where a command may be *)

(** Tasks that are only ever on top of the stack: the lane pushes them last and
    runs them next, and nobody calls the lane from a [beforeSend] check. *)

Definition top_only (t : Task) : bool :=
  match t with TSocket _ | TCall (CBeforeSend _) | TFinish _ (FailedWith _) => true | _ => false end.

Definition deep_ok (w : Lane) : Prop := forallb (fun t => negb (top_only t)) (tail (stack w)) = true.

Lemma deep_enter w : may_enter w = true -> deep_ok w -> forallb (fun t => negb (top_only t)) (stack w) = true.
Proof. unfold may_enter, deep_ok. destruct (stack w) as [|[[]| | | | | | | | | | | | | | | |] rest]; cbn; done. Qed.

Lemma deep_ok_step w w' : step encode parse w w' -> deep_ok w -> deep_ok w'.
Proof.
  intros H Hok. unfold deep_ok in *. step_cases H; try rewrite Es in *; cbn in Hok |- *.
  all: try exact Hok.
  all: try (pose proof (deep_enter w Em Hok) as He; rewrite ?He; done).
  all: try (destruct rest; cbn in Hok |- *; [done|]; by apply andb_true_iff in Hok as [_ ?]).
Qed.
End lane.
