(* ===== verification/ClientLaneLife.v ===== *)
(** * The life of a command in the terminal lane

    For every [send] call, what the flags of its command, the queue and the
    control stack say of it agrees with what the history records: it enters
    the socket once at most, its outcome is decided once, and its promise is
    resolved with that outcome.  [lane_ok] collects the invariants of
    ClientLaneInvariant.v and this one for every reachable state. *)

From S2P Require Import Prelude Json JsMap Protocol Errors Frame Terminal ClientLane ClientLaneInvariant.

Section lane.
Context (encode : TerminalCommand -> option (list Z)) (parse : list Z -> option (json * option TerminalMetadata)).

(** ** The life of a command

    What the flags of a command, the queue and the stack say of it agrees with
    what has been done about it. *)

Definition enters (n : nat) (e : Event) : bool := match e with EEntered m _ => (m =? n)%nat | _ => false end.
Definition hands (n : nat) (e : Event) : bool := match e with EHandoff m => (m =? n)%nat | _ => false end.
Definition is_close (e : Event) : bool := match e with EClosed => true | _ => false end.

Definition outcome_at (n : nat) (e : Event) : option CommandOutcome :=
  match e with EOutcome m o => if (m =? n)%nat then Some o else None | _ => None end.

Definition resolved_at (n : nat) (e : Event) : option CommandOutcome :=
  match e with EResolved m o => if (m =? n)%nat then Some o else None | _ => None end.

Definition waits (n : nat) (t : Task) : bool :=
  match t with TQueue m | TSocket m | TCall (CBeforeSend m) | TCall (CSetTimer m) => (m =? n)%nat | _ => false end.

Definition resolves (n : nat) (t : Task) : option CommandOutcome :=
  match t with TSettled m o | TResolve m o => if (m =? n)%nat then Some o else None | _ => None end.

Definition finishes (n : nat) (t : Task) : bool := match t with TFinish m _ => (m =? n)%nat | _ => false end.
Definition settles (n : nat) (t : Task) : bool := match t with TSettled m _ => (m =? n)%nat | _ => false end.
Definition sets_timer (n : nat) (t : Task) : bool := match t with TCall (CSetTimer m) => (m =? n)%nat | _ => false end.
Definition sends (n : nat) (t : Task) : bool := match t with TCall (CSocketSend m) => (m =? n)%nat | _ => false end.
Definition notifies (n : nat) (t : Task) : bool := match t with TNotify m => (m =? n)%nat | _ => false end.

(** A result that is about to settle a command is one its request accepts. *)

Definition finish_ok (n : nat) (c : TerminalCommand) (t : Task) : bool :=
  match t with TFinish m (Succeeded r) => negb (m =? n)%nat || validateTerminalResultForCommand c r | _ => true end.

Definition waiting (n : nat) (tasks : list Task) (queue : list nat) : nat :=
  (count (waits n) tasks + length (List.filter (fun m => (m =? n)%nat) queue))%nat.

Definition occurs (f : Event -> bool) (tr : list Event) : nat := length (List.filter f tr).

(** A local error proves the command never entered [send]; the cancellation of a
    preview is the exception. *)

Definition local_unsent (p : PendingCommand) (f : CommandFailure) : Prop :=
  match f_error f with
  | localError _ => attempting p = false \/ command_type (command p) = t_preview
  | remoteError _ => True
  end.

Definition outcome_ok (p : PendingCommand) (o : CommandOutcome) : Prop :=
  match o with
  | OutcomeOk r => validateTerminalResultForCommand (command p) r = true
  | OutcomeFailed f sent =>
     (sent = false -> attempting p = false) /\ (sent = true -> attempting p || handedOff p = true) /\ local_unsent p f
  end.

Record life_ok (n : nat) (p : PendingCommand) (tr : list Event) (tasks : list Task) (queue : list nat) : Prop := mkLife {
  l_entered : occurs (enters n) tr = Nat.b2n (attempting p);
  l_handoff : occurs (hands n) tr = Nat.b2n (handedOff p);
  l_notified : handoffNotified p = handedOff p;
  l_waiting : (waiting n tasks queue + Nat.b2n (attempting p) <= 1)%nat;
  l_open : settled p = false -> omap (outcome_at n) tr = [];
  l_settled : settled p = true -> exists o, omap (outcome_at n) tr = [o] /\ outcome_ok p o;
  l_resolved : omap (resolved_at n) tr ++ omap (resolves n) tasks ≡ₚ omap (outcome_at n) tr;
  l_finish : forallb (finish_ok n (command p)) tasks = true;
  l_queued : settled p = false -> attempting p = true \/ (0 < waiting n tasks queue)%nat
               \/ existsb (finishes n) tasks = true \/ existsb is_close tr = true;
  l_timed : settled p = false -> timer p = true \/ existsb (sets_timer n) tasks = true \/ existsb (finishes n) tasks = true;
  l_handed : settled p = false -> attempting p = true -> handedOff p = true \/ existsb (sends n) tasks = true
               \/ existsb (notifies n) tasks = true \/ existsb (finishes n) tasks = true;
}.

Record absent_ok (n next : nat) (tr : list Event) (tasks : list Task) (queue : list nat) : Prop := mkAbsent {
  a_entered : occurs (enters n) tr = O;
  a_handoff : occurs (hands n) tr = O;
  a_waiting : waiting n tasks queue = O;
  a_resolved : omap (resolved_at n) tr ++ omap (resolves n) tasks ≡ₚ omap (outcome_at n) tr;
  a_settling : existsb (settles n) tasks = false;
  a_finish : existsb (finishes n) tasks = false;
  a_timer : existsb (sets_timer n) tasks = false;
  a_refused : (n < next)%nat -> exists reason, omap (outcome_at n) tr = [OutcomeFailed (fails reason) false];
  a_new : (next <= n)%nat -> omap (outcome_at n) tr = [];
}.

Definition view_ok (o : option PendingCommand) (n next : nat) (tr : list Event) (tasks : list Task) (queue : list nat) : Prop :=
  match o with Some p => life_ok n p tr tasks queue | None => absent_ok n next tr tasks queue end.

Definition life (w : Lane) (n : nat) : Prop :=
  view_ok (objects w !! n) n (next w) (trace w) (stack w) (outbound w).

Definition top_task_ok (m : gmap nat PendingCommand) (tasks : list Task) : Prop :=
  match tasks with
  | TSocket n :: _ | TCall (CBeforeSend n) :: _ => exists p, m !! n = Some p /\ settled p = false
  | TFinish n (FailedWith f) :: _ => forall p, m !! n = Some p -> local_unsent p f
  | _ => True
  end.

Definition top_ok (w : Lane) : Prop := top_task_ok (objects w) (stack w).

(** How the measures grow. *)

Lemma occurs_snoc f tr e : occurs f (tr ++ [e]) = (occurs f tr + Nat.b2n (f e))%nat.
Proof. unfold occurs. rewrite List.filter_app, length_app. cbn. by destruct (f e). Qed.

Lemma omap_snoc_event {B} (f : Event -> option B) tr e :
  omap f (tr ++ [e]) = omap f tr ++ match f e with Some x => [x] | None => [] end.
Proof. rewrite omap_app. cbn. by destruct (f e). Qed.

Lemma omap_task_cons {B} (f : Task -> option B) t tasks :
  omap f (t :: tasks) = match f t with Some x => x :: omap f tasks | None => omap f tasks end.
Proof. done. Qed.

Lemma existsb_snoc (f : Event -> bool) tr e : existsb f (tr ++ [e]) = existsb f tr || f e.
Proof. rewrite existsb_app. cbn. by rewrite orb_false_r. Qed.

Lemma waiting_task n t tasks queue : waiting n (t :: tasks) queue = (Nat.b2n (waits n t) + waiting n tasks queue)%nat.
Proof. unfold waiting. rewrite count_cons. destruct (waits n t); cbn; lia. Qed.

Lemma waiting_queue n m tasks queue : waiting n tasks (queue ++ [m]) = (Nat.b2n (m =? n)%nat + waiting n tasks queue)%nat.
Proof. unfold waiting. rewrite List.filter_app, length_app. cbn. destruct (m =? n)%nat; cbn; lia. Qed.

Lemma waiting_taken n m tasks queue i : queue !! i = Some m ->
  (waiting n tasks (take i queue ++ drop (S i) queue) + Nat.b2n (m =? n)%nat)%nat = waiting n tasks queue.
Proof.
  intros H. unfold waiting. rewrite <- (take_drop_middle _ _ _ H) at 3. rewrite !List.filter_app, !length_app.
  cbn. destruct (m =? n)%nat; cbn; lia.
Qed.

Lemma waiting_nil n tasks queue : (waiting n tasks [] <= waiting n tasks queue)%nat.
Proof. unfold waiting. cbn. lia. Qed.

Ltac live_simpl :=
  rewrite ?occurs_snoc, ?omap_snoc_event, ?omap_task_cons, ?existsb_snoc, ?waiting_task, ?waiting_queue, ?app_nil_r in *;
  cbn [enters hands is_close outcome_at resolved_at waits resolves finishes settles sets_timer sends notifies finish_ok
       existsb forallb Nat.b2n orb andb negb Nat.add command bytes onHandoff onSettled beforeSend timer attempting handedOff
       handoffNotified settled set_timer set_attempting set_handedOff set_settled] in *;
  rewrite ?Nat.eqb_refl, ?orb_false_r, ?orb_true_r, ?app_nil_r in *; cbn [orb andb negb Nat.b2n Nat.add] in *.

(** What is not about a command changes nothing for it. *)

Definition quiet (n : nat) (t : Task) : bool :=
  match t with
  | TQueue m | TSocket m | TNotify m | TFinish m _ | TSettled m _ | TResolve m _ | TCall (CSetTimer m)
  | TCall (CBeforeSend m) | TCall (CSocketSend m) => negb (m =? n)%nat
  | _ => true
  end.

Definition quiet_event (n : nat) (e : Event) : bool :=
  match e with
  | EEntered m _ | EHandoff m | EOutcome m _ | EResolved m _ => negb (m =? n)%nat
  | EClosed => false
  | _ => true
  end.

Lemma quiet_measures n t : quiet n t = true ->
  waits n t = false /\ resolves n t = None /\ finishes n t = false /\ settles n t = false
  /\ sets_timer n t = false /\ sends n t = false /\ notifies n t = false /\ (forall c, finish_ok n c t = true).
Proof.
  intros H. destruct t as [[]| | | | | | | | | |? []| | | | | |]; cbn in *; bool_hyps; rewrite ?H; done.
Qed.

Lemma view_quiet o n next tr t tasks queue : quiet n t = true ->
  view_ok o n next tr (t :: tasks) queue <-> view_ok o n next tr tasks queue.
Proof.
  intros (H1 & H2 & H3 & H4 & H5 & H6 & H7 & H8)%quiet_measures.
  destruct o as [p|]; cbn; (split; intros []; split);
    rewrite ?waiting_task, ?omap_task_cons in *; cbn [existsb forallb] in *;
    rewrite ?H1, ?H2, ?H3, ?H4, ?H5, ?H6, ?H7, ?H8 in *; done.
Qed.

Lemma view_event o n next tr e tasks queue : quiet_event n e = true ->
  view_ok o n next (tr ++ [e]) tasks queue <-> view_ok o n next tr tasks queue.
Proof.
  intros He.
  assert (H : enters n e = false /\ hands n e = false /\ is_close e = false /\ outcome_at n e = None /\ resolved_at n e = None).
  { destruct e; cbn in *; bool_hyps; rewrite ?He; done. }
  destruct H as (H1 & H2 & H3 & H4 & H5).
  destruct o as [p|]; cbn; (split; intros []; split);
    rewrite ?occurs_snoc, ?omap_snoc_event, ?existsb_snoc in *;
    rewrite ?H1, ?H2, ?H3, ?H4, ?H5, ?app_nil_r, ?Nat.add_0_r, ?orb_false_r in *; done.
Qed.

Lemma view_queue o n next tr tasks queue queue' : waiting n tasks queue' = waiting n tasks queue ->
  view_ok o n next tr tasks queue' <-> view_ok o n next tr tasks queue.
Proof. intros H. destruct o as [p|]; cbn; (split; intros []; split); rewrite ?H in *; done. Qed.

Lemma view_next o n next tr tasks queue : n <> next ->
  view_ok o n (S next) tr tasks queue <-> view_ok o n next tr tasks queue.
Proof.
  intros H. destruct o as [p|]; cbn; [done|]. split; intros []; split; try done.
  - intros Hn. apply a_refused0. lia.
  - intros Hn. apply a_new0. lia.
  - intros Hn. apply a_refused0. lia.
  - intros Hn. apply a_new0. lia.
Qed.

Lemma view_closed o n next tr tasks queue : view_ok o n next tr tasks queue -> view_ok o n next (tr ++ [EClosed]) tasks queue.
Proof.
  destruct o as [p|]; cbn; intros []; split; rewrite ?occurs_snoc, ?omap_snoc_event, ?existsb_snoc;
    cbn [enters hands is_close outcome_at resolved_at Nat.b2n]; rewrite ?app_nil_r, ?Nat.add_0_r, ?orb_true_r; auto.
Qed.

Ltac hush_side := cbn [quiet quiet_event]; first [reflexivity | apply negb_true_iff, Nat.eqb_neq; congruence].

Ltac hush := repeat first [rewrite view_quiet by hush_side | rewrite view_event by hush_side | rewrite view_next by congruence].

Ltac hush_in H := repeat first [rewrite view_quiet in H by hush_side | rewrite view_event in H by hush_side].

(** The measures of a queue a command was taken from. *)

Lemma view_taken o n next tr tasks queue m i : queue !! i = Some m -> m <> n ->
  view_ok o n next tr tasks (take i queue ++ drop (S i) queue) <-> view_ok o n next tr tasks queue.
Proof.
  intros Hm Hne. apply view_queue. pose proof (waiting_taken n m tasks queue i Hm) as H.
  rewrite (proj2 (Nat.eqb_neq _ _) Hne) in H. cbn in H. lia.
Qed.

Lemma finish_absent n c tasks : existsb (finishes n) tasks = false -> forallb (finish_ok n c) tasks = true.
Proof.
  induction tasks as [|t tasks IH]; cbn; [done|]. intros [Ht H]%orb_false_iff. rewrite IH by done.
  destruct t as [| | | | | | | | | |m []| | | | | |]; cbn in *; try done. by rewrite Ht.
Qed.

Lemma perm_later {A} (a b c : list A) x : a ++ b ≡ₚ c -> a ++ x :: b ≡ₚ c ++ [x].
Proof. intros <-. rewrite <- Permutation_middle, Permutation_cons_append. done. Qed.

Lemma perm_earlier {A} (a b c : list A) x : a ++ x :: b ≡ₚ c -> (a ++ [x]) ++ b ≡ₚ c.
Proof. intros <-. by rewrite <- app_assoc. Qed.

Lemma life_exists w n : life w n -> (0 < waiting n (stack w) (outbound w))%nat -> is_Some (objects w !! n).
Proof. unfold life, view_ok. destruct (objects w !! n); [by eexists|]. intros []. lia. Qed.

Lemma waiting_in n tasks queue : n ∈ queue -> (0 < waiting n tasks queue)%nat.
Proof.
  intros (i & Hi)%list_elem_of_lookup. pose proof (waiting_taken n n tasks queue i Hi) as H.
  rewrite Nat.eqb_refl in H. cbn in H. lia.
Qed.

Lemma store_fresh w : store_ok w -> objects w !! next w = None.
Proof.
  intros Hs. destruct (objects w !! next w) as [p|] eqn:E; [|done].
  apply core_lookup, (co_next _ _ _ _ _ Hs) in E. lia.
Qed.

Ltac life_auto :=
  split; live_simpl; bool_hyps;
  try solve [assumption | lia | tauto | congruence | intros; congruence | by apply perm_later | by apply perm_earlier].

Definition closing_ok (w : Lane) : Prop :=
  existsb (fun t => match t with TCloseEnd => true | _ => false end) (stack w) = true -> existsb is_close (trace w) = true.

Lemma life_settle n p completion tr tasks queue : settled p = false ->
  match completion with FailedWith f => local_unsent p f | _ => True end ->
  life_ok n p tr (TFinish n completion :: tasks) queue ->
  life_ok n (set_settled p) (tr ++ [EOutcome n (outcome_of p completion)])
    (TSettled n (outcome_of p completion) :: tasks) queue.
Proof.
  intros Hs Ht []. specialize (l_open0 Hs). life_auto.
  - intros _. rewrite l_open0. exists (outcome_of p completion). split; [done|].
    destruct completion as [r|f]; cbn; [done|].
    split_and!; [|done|done]. by intros [? ?]%orb_false_iff.
Qed.

Lemma life_attempt n p tr c tasks queue : settled p = false -> life_ok n p tr (TSocket n :: tasks) queue ->
  life_ok n (set_attempting p) (tr ++ [EEntered n c]) (TCall (CSocketSend n) :: tasks) queue.
Proof.
  intros Hs []. specialize (l_open0 Hs). live_simpl.
  assert (attempting p = false) as Ha by (destruct (attempting p); cbn in *; [lia|done]).
  rewrite Ha in *. life_auto.
Qed.

Lemma outcome_handedOff p o : outcome_ok p o -> outcome_ok (set_handedOff p) o.
Proof. destruct o as [r|f sent]; cbn; [done|]. intros (H1 & H2 & H3). split_and!; try done. by rewrite orb_true_r. Qed.

Lemma life_handoff n p tr tasks queue : life_ok n p tr (TNotify n :: tasks) queue ->
  life_ok n (set_handedOff p) (if handoffNotified p then tr else tr ++ [EHandoff n]) tasks queue.
Proof.
  intros []. destruct (handoffNotified p) eqn:E; rewrite <- l_notified0 in *; life_auto.
  all: intros (o & Ho & Hok)%l_settled0; exists o; split; [done|by apply outcome_handedOff].
Qed.

Lemma view_cleared o n next tr tasks queue : existsb is_close tr = true ->
  view_ok o n next tr tasks queue -> view_ok o n next tr tasks [].
Proof.
  intros Hc. pose proof (waiting_nil n tasks queue). destruct o as [p|]; cbn; intros []; split; try done; try lia.
  auto.
Qed.

Lemma absent_refused n next tr tasks queue reason : (next <= n)%nat -> absent_ok n next tr tasks queue ->
  absent_ok n (S n) (tr ++ [EOutcome n (OutcomeFailed (fails reason) false)])
    (TResolve n (OutcomeFailed (fails reason) false) :: TExit :: tasks) queue.
Proof.
  intros Hn []. specialize (a_new0 Hn). life_auto.
  intros _. rewrite a_new0. by exists reason.
Qed.

Lemma life_created n next c frame handoff notify check tr tasks queue : (next <= n)%nat -> absent_ok n next tr tasks queue ->
  life_ok n (mkPending c frame handoff notify check false false false false false) tr
    (TCall (CSetTimer n) :: TExit :: tasks) queue.
Proof. intros Hn []. specialize (a_new0 Hn). life_auto. by apply finish_absent. Qed.

Lemma life_step w w' n : step encode parse w w' -> top_ok w -> store_ok w -> closing_ok w ->
  (forall n, life w n) -> life w' n.
Proof.
  intros H Ht Hs Hc Hl. pose proof (Hl n) as Hn. pose proof (store_fresh w Hs) as Hnext.
  assert (Hout : forall m, m ∈ outbound w -> is_Some (objects w !! m)) by (intros; eapply life_exists, waiting_in; eauto).
  pose proof (next_index_lt w) as Hlt. unfold life, top_ok, closing_ok in *.
  step_cases H; try rewrite Es in *; cbn [top_task_ok] in Ht; hush; hush_in Hn; rewrite ?lookup_alter_ne by congruence; try exact Hn.
  all: repeat match goal with |- context [outbound_objects (push ?ts (set_stack ?r ?w0))] =>
         change (outbound_objects (push ts (set_stack r w0))) with (outbound_objects w0) in * end.
  all: try (rewrite view_taken by done; exact Hn).
  all: repeat match goal with E : outbound ?w = _ |- context [outbound ?w] => rewrite E end; try exact Hn.
  (* what was taken is a command of the queue *)
  all: try match goal with
       | E : (?a :: ?l) !! next_index _ _ = None |- _ =>
          exfalso; apply lookup_ge_None in E; specialize (Hlt ltac:(congruence)); lia
       | E : (?a :: ?l) !! ?i = Some ?m, En : objects ?w0 !! ?m = None |- _ =>
          exfalso; destruct (Hout m) as [? Hx]; [by eapply list_elem_of_lookup_2|congruence]
       | E : ?q !! ?i = Some ?m, _ : stack _ = _ :: ?rest |- view_ok _ ?k _ _ _ (take ?i ?q ++ drop (S ?i) ?q) =>
          pose proof (waiting_taken k m rest q i E) as Hw; generalize dependent (take i q ++ drop (S i) q); intros q' Hw
       end.
  all: try match goal with
       | m : nat |- view_ok _ ?k _ _ _ _ => lazymatch m with k => fail | _ => destruct (decide (m = k)) as [Heq|Hne] end
       | |- view_ok _ ?k (S ?x) _ _ _ => destruct (decide (x = k)) as [Heq|Hne]
       end; try rewrite Heq in *.
  all: hush; hush_in Hn; rewrite ?lookup_alter_ne, ?lookup_insert_ne by congruence; try exact Hn.
  all: try (rewrite view_queue by (rewrite waiting_queue; rewrite (proj2 (Nat.eqb_neq _ _)) by done; done); exact Hn).
  all: rewrite ?lookup_alter_eq, ?lookup_insert_eq.
  all: try by apply view_closed.
  all: try (eapply view_cleared; [|exact Hn]; by apply Hc).
  all: try (match goal with Hw : (waiting _ _ ?q' + _)%nat = _ |- _ =>
         rewrite (proj2 (Nat.eqb_neq _ _)) in Hw by done; rewrite Nat.add_0_r in Hw; rewrite (view_queue _ _ _ _ _ _ _ Hw); exact Hn end).
  all: destruct (objects w !! n) as [q|] eqn:Eq; simplify_eq; cbn [view_ok fmap option_fmap option_map] in *.
  all: try match goal with |- life_ok _ (set_settled _) _ _ _ => apply life_settle; [done|destruct completion; [done|by apply Ht]|exact Hn] end.
  all: try (eapply absent_refused; [done|exact Hn]).
  all: try (eapply life_created; [done|exact Hn]).
  all: try (destruct Ht as (? & ? & ?); simplify_eq; by apply life_attempt).
  all: try (apply life_handoff in Hn; repeat match goal with E : handoffNotified _ = _ |- _ => rewrite E in Hn end; exact Hn).
  all: try (destruct Hn; life_auto; fail).
  - destruct Hn; life_auto.
    match goal with Hv : validateTerminalResultForCommand _ _ = true |- _ => by rewrite Hv, l_finish0 end.
  - exfalso. match goal with E : alter _ _ _ !! _ = None |- _ => rewrite lookup_alter_eq, Eq in E; done end.
Qed.

Lemma closing_ok_step w w' : step encode parse w w' -> closing_ok w -> closing_ok w'.
Proof.
  intros H Hc. unfold closing_ok in *. step_cases H; try rewrite Es in *; rewrite ?existsb_snoc; cbn [existsb orb is_close] in *;
    rewrite ?orb_true_r, ?orb_false_r; try done; auto.
Qed.

Lemma waits_unsent w n p : life w n -> objects w !! n = Some p -> (0 < waiting n (stack w) (outbound w))%nat ->
  attempting p = false.
Proof. unfold life, view_ok. intros Hn E Hw. rewrite E in Hn. destruct Hn. destruct (attempting p); cbn in *; [lia|done]. Qed.

Lemma fails_unsent p reason : attempting p = false -> local_unsent p (fails reason).
Proof. intros H. by left. Qed.

Lemma expired_unsent p reason : local_unsent p (expired p reason).
Proof. unfold local_unsent, expired. cbn. destruct (attempting p) eqn:E; cbn; [done|]. destruct (handedOff p); cbn; auto. Qed.

Lemma sweep_unsent sweep p f : sweep_one sweep p = Some f -> local_unsent p f.
Proof.
  unfold sweep_one, unsent. intros H. repeat case_match; simplify_eq; bool_hyps; try apply expired_unsent; by apply fails_unsent.
Qed.

Lemma top_plain m tasks : forallb (fun t => negb (top_only t)) tasks = true -> top_task_ok m tasks.
Proof. destruct tasks as [|[[]| | | | | | | | | |? []| | | | | |] tasks]; cbn; done. Qed.

Lemma top_ok_step w w' : step encode parse w w' -> deep_ok w -> top_ok w -> (forall n, life w n) -> top_ok w'.
Proof.
  intros H Hd Ht Hl.
  assert (Hu : forall n p, objects w !! n = Some p -> (0 < waiting n (stack w) (outbound w))%nat -> attempting p = false)
    by (intros; eapply waits_unsent; eauto).
  pose proof (deep_enter w) as He. unfold top_ok, deep_ok in *.
  step_cases H; try rewrite Es in *; cbn [top_task_ok tail] in *; try done; try (apply top_plain; first [done|by apply He]).
  all: try by eexists.
  all: intros q Hq; simplify_eq; try apply expired_unsent; try (eapply sweep_unsent; done).
  all: try (apply fails_unsent, (Hu n); [done|rewrite waiting_task; cbn [waits Nat.b2n]; rewrite Nat.eqb_refl; cbn; lia]).
  right. by eapply bool_decide_eq_true_1.
Qed.

(** ** Everything that holds *)

Record lane_ok (w : Lane) : Prop := mkLaneOk {
  ok_stack : stack_ok w;
  ok_store : store_ok w;
  ok_deep : deep_ok w;
  ok_top : top_ok w;
  ok_closing : closing_ok w;
  ok_life : forall n, life w n;
}.

Lemma lane_ok_new : lane_ok newLane.
Proof.
  split.
  - by split.
  - split; try done; intros; try done. apply NoDup_nil_2.
  - done.
  - done.
  - done.
  - intros n. split; try done. cbn. lia.
Qed.

Lemma lane_ok_step w w' : step encode parse w w' -> lane_ok w -> lane_ok w'.
Proof.
  intros H []. split; eauto using stack_ok_step, store_ok_step, deep_ok_step, top_ok_step, closing_ok_step, life_step.
Qed.

Lemma lane_reachable_ok w : reachable encode parse w -> lane_ok w.
Proof.
  intros Hr. eapply rtc_invariant; [apply lane_ok_new| |exact Hr]. intros x y Hx Hxy. by eapply lane_ok_step.
Qed.
End lane.
