(* ===== verification/ClientLaneOrder.v ===== *)
(** * The order in which the terminal lane hands commands over

    On one route commands enter the socket in the order they were queued
    ([order_ok]); when [flush] comes to take the next one, the follow-up work
    registered so far has been done, unless the flush itself runs inside
    follow-up work ([follow_ok]). *)

From S2P Require Import Prelude Json JsMap Protocol Errors Frame Terminal ClientLane ClientLaneInvariant ClientLaneLife.

(** ** Follow-up work runs before a command is taken *)

Definition is_next (t : Task) : bool := match t with TFlushNext => true | _ => false end.
Definition runs_follow_ups (t : Task) : bool := match t with TRunFollowUps | TFollowLoop => true | _ => false end.

(** Only the running of follow-up work is ever directly above [TFlushNext]. *)

Fixpoint guarded (above : bool) (tasks : list Task) : bool :=
  match tasks with
  | [] => true
  | t :: tasks => (negb (is_next t) || above) && guarded (runs_follow_ups t) tasks
  end.

Definition taking (t : Task) : bool :=
  match t with TFlushNext | TSocket _ | TCall (CBeforeSend _) => true | _ => false end.

Record follow_ok (w : Lane) : Prop := mkFollowOk {
  fo_guarded : guarded true (stack w) = true;
  fo_done : match stack w with
            | t :: _ => taking t = true -> runningFollowUps w = true \/ followUps w = []
            | [] => True
            end;
}.

Section lane.
Context (encode : TerminalCommand -> option (list Z)) (parse : list Z -> option (json * option TerminalMetadata)).

Lemma guarded_weaken tasks : guarded false tasks = true -> guarded true tasks = true.
Proof. destruct tasks as [|t tasks]; cbn; [done|]. by destruct (is_next t). Qed.

Lemma guarded_enter w : may_enter w = true -> guarded true (stack w) = true -> guarded false (stack w) = true.
Proof. unfold may_enter. destruct (stack w) as [|[[]| | | | | | | | | | | | | | | |] rest]; cbn; done. Qed.

Lemma guarded_top tasks (P : Prop) : guarded false tasks = true ->
  forallb (fun t => negb (top_only t)) tasks = true ->
  match tasks with t :: _ => taking t = true -> P | [] => True end.
Proof. destruct tasks as [|[[]| | | | | | | | | | | | | | | |] rest]; cbn; done. Qed.

Lemma follow_ok_step w w' : step encode parse w w' -> deep_ok w -> follow_ok w -> follow_ok w'.
Proof.
  intros H Hd [Hg Ht]. pose proof (deep_enter w) as He. pose proof (guarded_enter w) as Hge. unfold deep_ok in *.
  step_cases H; try rewrite Es in *; cbn [guarded is_next runs_follow_ups negb orb andb tail taking] in *.
  all: try (specialize (He Em Hd); specialize (Hge Em Hg); clear Hd).
  all: constructor; lane_simpl; cbn [guarded is_next runs_follow_ups negb orb andb taking].
  all: try first [done | assumption | by apply guarded_weaken | by apply Ht | by auto].
  all: try (eapply guarded_top; [|done]; first [assumption | by apply guarded_weaken]).
  all: try (destruct rest; auto; fail).
  all: try (eapply guarded_top; [by apply guarded_enter | by apply deep_enter]).
Qed.

(** ** Commands of a route enter the socket in the order they were queued *)

Definition queued_on (k : string) (e : Event) : option nat :=
  match e with EQueued n c => if seqb (queue_key c) k then Some n else None | _ => None end.

Definition entered_on (k : string) (e : Event) : option nat :=
  match e with EEntered n c => if seqb (queue_key c) k then Some n else None | _ => None end.

Definition key_is (m : gmap nat (TerminalCommand * list Z * bool)) (k : string) (n : nat) : bool :=
  match m !! n with Some (c, _, _) => seqb (queue_key c) k | None => false end.

(** The command being handed over, if it is of the route. *)

Definition top_on (m : gmap nat (TerminalCommand * list Z * bool)) (k : string) (tasks : list Task) : list nat :=
  match tasks with
  | TSocket n :: _ | TCall (CBeforeSend n) :: _ => if key_is m k n then [n] else []
  | _ => []
  end.

Definition route_sequence (m : gmap nat (TerminalCommand * list Z * bool)) (k : string) (tr : list Event)
    (tasks : list Task) (queue : list nat) : Prop :=
  sublist (omap (entered_on k) tr ++ top_on m k tasks ++ List.filter (key_is m k) queue) (omap (queued_on k) tr).

Definition order_ok (w : Lane) : Prop := forall k, route_sequence (core w) k (trace w) (stack w) (outbound w).

Lemma top_on_plain m k tasks : forallb (fun t => negb (top_only t)) tasks = true -> top_on m k tasks = [].
Proof. destruct tasks as [|[[]| | | | | | | | | | | | | | | |] rest]; cbn; done. Qed.

Lemma key_is_settle m k n i : key_is (alter settle_core n m) k i = key_is m k i.
Proof.
  unfold key_is. rewrite lookup_alter. case_decide; [subst|done]. by destruct (m !! i) as [[[c b] s]|].
Qed.

Lemma route_ext m m' k tr tasks queue : (forall n, key_is m' k n = key_is m k n) ->
  route_sequence m k tr tasks queue -> route_sequence m' k tr tasks queue.
Proof.
  intros H. unfold route_sequence. rewrite (List.filter_ext _ _ H queue).
  destruct tasks as [|[[]| | | | | | | | | | | | | | | |] rest]; cbn; rewrite ?H; done.
Qed.

Lemma route_insert m k n x tr tasks queue : n ∉ queue -> forallb (fun t => negb (top_only t)) tasks = true ->
  route_sequence m k tr tasks queue -> route_sequence (<[n := x]> m) k tr tasks queue.
Proof.
  intros Hn Ht. unfold route_sequence. rewrite !top_on_plain by done. intros H.
  rewrite (List.filter_ext_in (key_is (<[n := x]> m) k) (key_is m k)); [done|].
  intros i Hi%list_elem_of_In. unfold key_is. rewrite lookup_insert_ne; [done|]. intros ->. done.
Qed.

(** A step that hands nothing over leaves the route's sequence alone. *)

Lemma route_plain m k tr tasks tasks' queue : top_on m k tasks' = [] ->
  route_sequence m k tr tasks queue -> route_sequence m k tr tasks' queue.
Proof.
  intros Ht. unfold route_sequence. rewrite Ht. intros H. etrans; [|exact H].
  apply sublist_app; [done|]. cbn. by apply sublist_inserts_l.
Qed.

Lemma route_event m k tr e tasks queue : queued_on k e = None -> entered_on k e = None ->
  route_sequence m k tr tasks queue -> route_sequence m k (tr ++ [e]) tasks queue.
Proof. intros H1 H2. unfold route_sequence. by rewrite !omap_snoc_event, H1, H2, !app_nil_r. Qed.

Lemma route_queued m k n c b s tr tasks queue : m !! n = Some (c, b, s) ->
  route_sequence m k tr (TQueue n :: tasks) queue ->
  route_sequence m k (tr ++ [EQueued n c]) (TFlush :: tasks) (queue ++ [n]).
Proof.
  intros Hn. unfold route_sequence. cbn [top_on]. rewrite !omap_snoc_event. cbn [queued_on entered_on].
  rewrite List.filter_app. cbn [List.filter Datatypes.app]. replace (key_is m k n) with (seqb (queue_key c) k) by (unfold key_is; by rewrite Hn).
  rewrite app_nil_r, app_assoc. intros H. apply sublist_app; [done|]. by case_match.
Qed.

Lemma route_entered m k n c b s tr tasks queue : m !! n = Some (c, b, s) ->
  route_sequence m k tr (TSocket n :: tasks) queue ->
  route_sequence m k (tr ++ [EEntered n c]) (TCall (CSocketSend n) :: tasks) queue.
Proof.
  intros Hn. unfold route_sequence. cbn [top_on]. rewrite !omap_snoc_event. cbn [queued_on entered_on].
  replace (key_is m k n) with (seqb (queue_key c) k) by (unfold key_is; by rewrite Hn).
  rewrite app_nil_r. intros H. case_match; rewrite <- ?app_assoc; cbn; by rewrite ?app_nil_r in *.
Qed.

(** The command taken is the first of its route in the queue. *)

Definition first_on_route (m : gmap nat (TerminalCommand * list Z * bool)) (queue : list nat) (i n : nat) : Prop :=
  queue !! i = Some n /\ forall j k, (j < i)%nat -> key_is m k n = true -> forall n', queue !! j = Some n' -> key_is m k n' = false.

Lemma filter_taken m k queue i n : first_on_route m queue i n ->
  List.filter (key_is m k) queue = (if key_is m k n then [n] else []) ++ List.filter (key_is m k) (take i queue ++ drop (S i) queue).
Proof.
  intros [Hn Hfirst]. rewrite <- (take_drop_middle _ _ _ Hn) at 1. rewrite !List.filter_app. cbn.
  destruct (key_is m k n) eqn:E; [|done].
  rewrite (filter_none _ (take i queue)); [done|]. apply Forall_lookup. intros j n' Hj.
  pose proof (lookup_lt_Some _ _ _ Hj) as Hlt. rewrite length_take in Hlt. rewrite lookup_take_lt in Hj by lia.
  eapply Hfirst; eauto. lia.
Qed.

Lemma route_taken m k tr queue i n tasks tasks' : first_on_route m queue i n ->
  top_on m k tasks = [] -> top_on m k tasks' = [] \/ top_on m k tasks' = (if key_is m k n then [n] else []) ->
  route_sequence m k tr tasks queue -> route_sequence m k tr tasks' (take i queue ++ drop (S i) queue).
Proof.
  intros Hf Ht Ht'. unfold route_sequence. rewrite (filter_taken _ _ _ _ _ Hf), Ht. intros H.
  etrans; [|exact H]. apply sublist_app; [done|]. cbn. destruct Ht' as [-> | ->]; [|done]. by apply sublist_inserts_l.
Qed.

Lemma omap_lookup_all {A B} (f : A -> option B) (l : list A) j : (forall a, a ∈ l -> is_Some (f a)) ->
  omap f l !! j = l !! j ≫= f.
Proof.
  revert j. induction l as [|a l IH]; intros j H; [done|]. cbn.
  destruct (H a) as [b Hb]; [left|]. rewrite Hb. destruct j as [|j]; cbn; [done|]. apply IH. intros. apply H. by right.
Qed.

Lemma taken_first w n : (forall m, m ∈ outbound w -> is_Some (objects w !! m)) ->
  outbound w !! next_index (outbound_objects w) (lastSentRoute w) = Some n ->
  first_on_route (core_of <$> objects w) (outbound w) (next_index (outbound_objects w) (lastSentRoute w)) n.
Proof.
  intros Hall Hn. split; [done|]. intros j k Hj Hk n' Hn'.
  assert (Hobj : forall j, outbound_objects w !! j = outbound w !! j ≫= fun n => objects w !! n) by (intros; by apply omap_lookup_all).
  destruct (next_index_first (outbound_objects w) (lastSentRoute w)) as (p & Hp & Hfirst).
  { intros E. specialize (Hobj (next_index (outbound_objects w) (lastSentRoute w))). rewrite Hn in Hobj. cbn in Hobj.
    destruct (Hall n) as [p Hp]; [by eapply list_elem_of_lookup_2|]. rewrite E, Hp in Hobj. done. }
  rewrite Hobj, Hn in Hp. cbn in Hp. unfold key_is in *. rewrite !lookup_fmap, ?Hp in *. cbn in Hk.
  destruct (Hall n') as [p' Hp']; [by eapply list_elem_of_lookup_2|]. rewrite Hp'. cbn.
  apply String.eqb_neq. apply String.eqb_eq in Hk. subst k. eapply Hfirst; [done|]. by rewrite Hobj, Hn'.
Qed.

Lemma order_ok_step w w' : step encode parse w w' -> deep_ok w -> store_ok w -> (forall n, life w n) -> order_ok w -> order_ok w'.
Proof.
  intros H Hd Hs Hl Hok k. specialize (Hok k). pose proof (deep_enter w) as He.
  assert (Hall : forall m, m ∈ outbound w -> is_Some (objects w !! m)) by (intros; eapply life_exists, waiting_in; eauto).
  pose proof (taken_first w) as Hfirst. pose proof (next_index_lt w) as Hlt.
  pose proof (core_lookup w) as Hcore. unfold deep_ok, core in *.
  step_cases H; try rewrite Es in *; cbn [tail] in *;
    rewrite ?core_settle, ?(core_alter _ _ _ timer_kept), ?(core_alter _ _ _ attempting_kept), ?(core_alter _ _ _ handedOff_kept).
  all: try exact Hok.
  all: try (eapply route_ext; [intros; apply key_is_settle|]).
  all: repeat match goal with |- context [outbound_objects (push ?ts (set_stack ?r ?w0))] =>
         change (outbound_objects (push ts (set_stack r w0))) with (outbound_objects w0) in * end.
  all: repeat match goal with E : outbound ?w0 = _ |- context [outbound ?w0] => rewrite E end.
  all: try (eapply route_queued; [by apply Hcore|exact Hok]).
  all: try (eapply route_entered; [by apply Hcore|exact Hok]).
  all: try (repeat (apply route_event; [done|done|]);
            eapply route_plain; [|exact Hok]; first [done | apply top_on_plain; cbn [forallb top_only negb andb]; first [done|apply He; done]]).
  all: try (eapply route_taken; [by apply Hfirst| | |exact Hok]; [done|auto]).
  all: try (exfalso; match goal with E : _ !! next_index _ _ = None |- _ => apply lookup_ge_None in E; specialize (Hlt ltac:(congruence)); lia end).
  - rewrite <- (app_nil_r []). unfold route_sequence in *. rewrite (top_on_plain _ _ rest) by done. cbn.
    rewrite app_nil_r. etrans; [|exact Hok]. by apply sublist_inserts_r.
  - apply route_event; [done|done|]. rewrite fmap_insert. apply route_insert; [|by cbn; apply deep_enter|].
    + intros Hin. apply Hall in Hin. rewrite (store_fresh w Hs) in Hin. by destruct Hin.
    + eapply route_plain; [done|exact Hok].
Qed.

Lemma order_ok_new : order_ok newLane.
Proof. intros k. constructor. Qed.

Lemma follow_ok_new : follow_ok newLane.
Proof. by split. Qed.

Lemma lane_reachable_order w : reachable encode parse w -> lane_ok w /\ follow_ok w /\ order_ok w.
Proof.
  intros Hr. eapply (rtc_invariant _ (fun w => lane_ok w /\ follow_ok w /\ order_ok w)); [| |exact Hr].
  - eauto using lane_ok_new, follow_ok_new, order_ok_new.
  - intros x y (Hx & Hf & Ho) Hxy. split_and!; [by eapply lane_ok_step|..]; destruct Hx.
    + by eapply follow_ok_step.
    + by eapply order_ok_step.
Qed.
End lane.
