(* ===== verification/ClientLaneRoutes.v ===== *)
(** * Routes, counters, request IDs and ingress leases of the terminal lane

    The history read as a book: [routed] and [issued] say which routes are
    registered and which sequence number each got last.  The lane's maps are
    that book ([book_ok]); every answer the lane gave agrees with the book of
    its moment ([answers_ok]); the ingress account is the sum of what is leased
    ([ingress_ok]); request IDs are pairwise different ([ids_ok]). *)

From S2P Require Import Prelude Json JsMap Protocol Errors Frame Terminal ClientLane ClientLaneInvariant.

(** ** The book of routes and sequence numbers *)

Definition routed_after (key : string) (before : bool) (e : Event) : bool :=
  match e with
  | ERegistered k true => if seqb k key then true else before
  | ERetired k => if seqb k key then false else before
  | EClosed => false
  | _ => before
  end.

Definition routed (key : string) (tr : list Event) : bool := foldl (routed_after key) false tr.

(** The number an answer gives, for the focus or for the input counter. *)

Definition focus_number (e : Event) : option (string * option (option Z)) :=
  match e with EFocusSeq k answer => Some (k, answer) | _ => None end.

Definition input_number (e : Event) : option (string * option (option Z)) :=
  match e with EInputSeq k answer => Some (k, answer) | _ => None end.

Definition issued_after (number : Event -> option (string * option (option Z))) (key : string) (before : Z) (e : Event) : Z :=
  match number e with
  | Some (k, Some (Some n)) => if seqb k key then n else before
  | _ => match e with
         | ERetired k => if seqb k key then 0 else before
         | EClosed => 0
         | _ => before
         end
  end.

Definition issued number (key : string) (tr : list Event) : Z := foldl (issued_after number key) 0 tr.

(** What a counter should answer: nothing for a ref that is not routed,
    otherwise one more than last time, or exhaustion. *)

Definition next_answer number (key : string) (tr : list Event) : option (option Z) :=
  if routed key tr then Some (if issued number key tr =? MAX_SAFE_INTEGER then None else Some (issued number key tr + 1))
  else None.

Definition answer_ok (tr : list Event) (e : Event) : Prop :=
  match e with
  | EFocusSeq key answer => answer = next_answer focus_number key tr
  | EInputSeq key answer => answer = next_answer input_number key tr
  | ERegistered key accepted => accepted = true -> routed key tr = false
  | _ => True
  end.

Definition answers_ok (w : Lane) : Prop := all_ok answer_ok (trace w).

Definition counter_ok number (tr : list Event) (routes : jsmap string nat) (counters : jsmap string Z) : Prop :=
  jwf counters
  /\ (forall key, default 0 (jget key counters) = issued number key tr)
  /\ (forall key n, jget key counters = Some n -> jhas key routes = true /\ 1 <= n <= MAX_SAFE_INTEGER).

Record book_of (tr : list Event) (routes : jsmap string nat) (focus input : jsmap string Z) (retired : list string) : Prop :=
  mkBook {
  bk_wf : jwf routes;
  bk_routes : forall key, jhas key routes = routed key tr;
  bk_focus : counter_ok focus_number tr routes focus;
  bk_input : counter_ok input_number tr routes input;
  bk_retired : zlen retired <= RECENT_RETIRED_REFS;
  bk_nodup : NoDup retired;
  bk_disjoint : forall key, key ∈ retired -> jhas key routes = false;
}.

Definition book_ok (w : Lane) : Prop :=
  book_of (trace w) (routes w) (focusSequences w) (inputSequences w) (retiredRefs w).

(** ** Ingress leases *)

Definition owner_bytes (e : Event) : Z :=
  match e with EReserved n => n | EReleased n => - n | _ => 0 end.

Definition lease_of (t : Task) : Z := match t with TRelease n => n | _ => 0 end.

(** An underflow is the owner's: it released more than it had reserved. *)

Definition underflow_ok (tr : list Event) (e : Event) : Prop :=
  match e with EUnderflow => lsum owner_bytes tr < 0 | _ => True end.

Record ingress_ok (w : Lane) : Prop := mkIngressOk {
  in_exact : retainedIngressBytes w = lsum owner_bytes (trace w) + lsum lease_of (stack w);
  in_leases : forallb (fun t => 0 <=? lease_of t) (stack w) = true;
  in_underflow : all_ok underflow_ok (trace w);
}.

Lemma leases_nonneg tasks : forallb (fun t => 0 <=? lease_of t) tasks = true -> 0 <= lsum lease_of tasks.
Proof.
  induction tasks as [|t tasks IH]; cbn; [done|]. intros [Ht H]%andb_true_iff. rewrite lsum_cons.
  specialize (IH H). lia.
Qed.

Section lane.
Context (encode : TerminalCommand -> option (list Z)) (parse : list Z -> option (json * option TerminalMetadata)).

Lemma ingress_ok_step w w' : step encode parse w w' -> ingress_ok w -> ingress_ok w'.
Proof.
  intros H [H1 H2 H3]. pose proof (leases_nonneg (stack w) H2) as H4.
  step_cases H; try rewrite Es in *; rewrite ?lsum_cons in *; cbn [forallb lease_of] in *.
  all: constructor; lane_simpl; rewrite ?lsum_app, ?lsum_cons, ?lsum_nil; cbn [owner_bytes lease_of forallb].
  all: rewrite ?H2; try first [assumption | done | lia].
  all: repeat (apply all_ok_snoc; [|cbn; rewrite ?lsum_app, ?lsum_cons, ?lsum_nil; cbn [owner_bytes]; first [done | lia]]); try done.
  all: apply andb_true_iff in H2 as [? H2]; pose proof (leases_nonneg _ H2); try done.
  apply all_ok_snoc; [done|]. cbn. lia.
Qed.

(** ** The byte limits of the two accounts

    A step that adds to an account stays within the limit of the binding of that
    moment; only the owner, by "releasing" a negative number, can lift
    [retainedIngressBytes] past it. *)

Lemma outbound_growth w w' : step encode parse w w' -> retainedOutboundBytes w < retainedOutboundBytes w' ->
  exists b c, owner_binding w = Some b /\ trace w' = trace w ++ [ESend (next w) c]
  /\ retainedOutboundBytes w' <= outbound_cap b
  /\ (ordinary c = true -> retainedOutboundBytes w' <= outboundConnectionBytes b).
Proof.
  intros H. step_cases H; intros Hlt; try lia; try (pose proof (zlen_nonneg (bytes p)); lia).
  all: match goal with Ha : admission _ _ _ _ = inr ?f |- _ => apply admission_admits in Ha as (b & Hb & _ & _ & _ & _ & _ & H1 & H2) end.
  all: exists b, c; split_and!; done.
Qed.

Lemma ingress_growth w w' : step encode parse w w' -> ingress_ok w -> retainedIngressBytes w < retainedIngressBytes w' ->
  (exists b, owner_binding w = Some b /\ retainedIngressBytes w' <= outbound_cap b)
  \/ exists n tr, n < 0 /\ trace w' = trace w ++ EReleased n :: tr.
Proof.
  intros H [_ Hl _]. step_cases H; try rewrite Es in Hl; cbn [forallb lease_of] in Hl; intros Hlt; try lia.
  all: try (apply andb_true_iff in Hl as [? _]; lia).
  all: try (left; eexists; split; [done|bool_hyps; lia]).
  all: right; exists n; rewrite <- ?(assoc_L (++)); eexists; split; [lia|done].
Qed.

(** ** The lane's maps are the book *)

Lemma routed_snoc key tr e : routed key (tr ++ [e]) = routed_after key (routed key tr) e.
Proof. unfold routed. by rewrite foldl_app. Qed.

Lemma issued_snoc number key tr e : issued number key (tr ++ [e]) = issued_after number key (issued number key tr) e.
Proof. unfold issued. by rewrite foldl_app. Qed.

Lemma jhas_spec {K V} `{EqDecision K} (k : K) (m : jsmap K V) : jhas k m = true <-> is_Some (jget k m).
Proof. unfold jhas. destruct (jget k m); split; done. Qed.

Lemma jhas_set {K V} `{EqDecision K} (k k' : K) (v : V) m : jhas k (jset k' v m) = bool_decide (k = k') || jhas k m.
Proof. unfold jhas. rewrite jget_set. by case_decide; case_bool_decide. Qed.

Lemma jhas_delete {K V} `{EqDecision K} (k k' : K) (m : jsmap K V) : jwf m ->
  jhas k (jdelete k' m) = negb (bool_decide (k = k')) && jhas k m.
Proof. intros Hm. unfold jhas. rewrite jget_delete by done. by case_decide; case_bool_decide. Qed.

Lemma seqb_decide a b : seqb a b = bool_decide (b = a).
Proof. unfold seqb. destruct (String.eqb_spec a b); case_bool_decide; congruence. Qed.

Lemma counter_quiet number tr routes routes' counters e :
  (forall key, issued_after number key (issued number key tr) e = issued number key tr) ->
  (forall key, jhas key routes = true -> jhas key routes' = true) ->
  counter_ok number tr routes counters -> counter_ok number (tr ++ [e]) routes' counters.
Proof.
  intros He Hr (H1 & H2 & H3). split_and!; [done|..].
  - intros key. by rewrite issued_snoc, He.
  - intros key n Hn. apply H3 in Hn as [Hn ?]. eauto.
Qed.

Lemma counter_routes number tr routes routes' counters :
  (forall key, jhas key routes = true -> jhas key routes' = true) ->
  counter_ok number tr routes counters -> counter_ok number tr routes' counters.
Proof. intros Hr (H1 & H2 & H3). split_and!; [done..|]. intros key n Hn. apply H3 in Hn as [Hn ?]. eauto. Qed.

Lemma counter_retired number tr routes counters k : number (ERetired k) = None -> jwf routes ->
  counter_ok number tr routes counters ->
  counter_ok number (tr ++ [ERetired k]) (jdelete k routes) (jdelete k counters).
Proof.
  intros Hn Hwf (H1 & H2 & H3). split_and!; [by apply jwf_delete|..].
  - intros key. rewrite issued_snoc, jget_delete by done. unfold issued_after. rewrite Hn, seqb_decide.
    case_decide; case_bool_decide; try done; apply H2.
  - intros key n. rewrite jget_delete, jhas_delete by done. case_decide; [done|]. intros [-> ?]%H3. split; [|done].
    by rewrite bool_decide_eq_false_2.
Qed.

Lemma counter_closed number tr routes counters : number EClosed = None -> counter_ok number tr routes counters ->
  counter_ok number (tr ++ [EClosed]) [] [].
Proof.
  intros Hn _. split; [apply NoDup_nil_2|split; [|done]]. intros key. rewrite issued_snoc. unfold issued_after.
  by rewrite Hn.
Qed.

(** A sequence number handed out, and what the caller is told. *)

Lemma counter_issued number (make : string -> option (option Z) -> Event) tr w counters key :
  (forall k a, number (make k a) = Some (k, a)) -> (forall k, jhas k (routes w) = routed k tr) ->
  (forall k a key', issued_after number key' (issued number key' tr) (make k (Some a)) =
     match a with Some n => if seqb k key' then n else issued number key' tr | None => issued number key' tr end) ->
  (forall k key', issued_after number key' (issued number key' tr) (make k None) = issued number key' tr) ->
  counter_ok number tr (routes w) counters ->
  (nextSeq counters key w).1 = next_answer number key tr
  /\ counter_ok number (tr ++ [make key (nextSeq counters key w).1]) (routes w)
       (nextSeq counters key w).2.
Proof.
  intros Hmake Hbook Hsome Hnone Hok. pose proof Hok as (H1 & H2 & H3).
  unfold nextSeq, next_answer. rewrite <- Hbook. destruct (jhas key (routes w)) eqn:Eh; cbn [negb].
  2:{ split; [done|]. cbn. eapply counter_quiet; [apply Hnone|done|done]. }
  rewrite H2. assert (Hrange : 0 <= issued number key tr <= MAX_SAFE_INTEGER).
  { rewrite <- H2. destruct (jget key counters) eqn:E; cbn; [apply H3 in E; lia|unfold MAX_SAFE_INTEGER; lia]. }
  unfold nextCounter. replace (SequenceSchema (issued number key tr)) with true
    by (symmetry; unfold SequenceSchema; apply andb_true_iff; lia).
  cbn [negb orb]. destruct (issued number key tr =? MAX_SAFE_INTEGER) eqn:E; cbn.
  - split; [done|]. eapply counter_quiet; [apply (Hsome key None)|done|done].
  - split; [done|]. split_and!; [by apply jwf_set|..].
    + intros k. rewrite jget_set, issued_snoc, Hsome, seqb_decide. case_decide; case_bool_decide; try done; apply H2.
    + intros k n. rewrite jget_set. case_decide; [|apply H3]. intros [= <-]. subst k. split; [done|]. apply Z.eqb_neq in E. lia.
Qed.

Definition book_event (e : Event) : bool :=
  match e with
  | ERegistered _ true | ERetired _ | EClosed | EFocusSeq _ (Some (Some _)) | EInputSeq _ (Some (Some _)) => false
  | _ => true
  end.

Lemma book_quiet tr routes focus input retired e : book_event e = true ->
  book_of tr routes focus input retired -> book_of (tr ++ [e]) routes focus input retired.
Proof.
  intros He []. assert (Hr : forall key, routed_after key (routed key tr) e = routed key tr).
  { intros key. destruct e as [| | | | | | | | |? []| | | | |]; done. }
  split; try done.
  - intros key. by rewrite routed_snoc, Hr.
  - eapply counter_quiet; [|done|done]. intros key.
    destruct e as [| | | | | | |? [[]|]|? [[]|]|? []| | | | |]; done.
  - eapply counter_quiet; [|done|done]. intros key.
    destruct e as [| | | | | | |? [[]|]|? [[]|]|? []| | | | |]; done.
Qed.

Lemma book_registered tr routes focus input retired key receiver : key ∉ retired ->
  book_of tr routes focus input retired ->
  book_of (tr ++ [ERegistered key true]) (jset key receiver routes) focus input retired.
Proof.
  intros Hk []. assert (Hmono : forall k, jhas k routes = true -> jhas k (jset key receiver routes) = true).
  { intros k Hr. rewrite jhas_set, Hr. by rewrite orb_true_r. }
  split; try done.
  - by apply jwf_set.
  - intros k. rewrite routed_snoc, jhas_set, <- bk_routes0. cbn. rewrite seqb_decide. by case_bool_decide.
  - by eapply counter_quiet; [|exact Hmono|].
  - by eapply counter_quiet; [|exact Hmono|].
  - intros k Hr. rewrite jhas_set, bk_disjoint0 by done. rewrite bool_decide_eq_false_2; [done|]. by intros ->.
Qed.

Lemma evict_room (l : list string) : zlen (evict l) <= RECENT_RETIRED_REFS - 1 /\ sublist (evict l) l.
Proof.
  unfold evict, zdrop, zlen, RECENT_RETIRED_REFS. rewrite length_drop. split; [lia|]. apply sublist_drop.
Qed.

Lemma book_retired tr routes focus input retired key :
  book_of tr routes focus input retired ->
  book_of (tr ++ [ERetired key]) (jdelete key routes) (jdelete key focus) (jdelete key input)
    (if bool_decide (key ∈ retired) then retired else evict retired ++ [key]).
Proof.
  intros []. pose proof (evict_room retired) as [He Hsub]. split.
  - by apply jwf_delete.
  - intros k. rewrite routed_snoc, jhas_delete, <- bk_routes0 by done. cbn. rewrite seqb_decide. by case_bool_decide.
  - by apply counter_retired.
  - by apply counter_retired.
  - case_bool_decide; [done|]. rewrite zlen_app, zlen_cons, zlen_nil. lia.
  - case_bool_decide as Hk; [done|]. apply NoDup_app. split_and!; [by eapply sublist_NoDup| |apply NoDup_singleton].
    intros x Hx ->%list_elem_of_singleton. apply Hk. by eapply elem_of_sublist.
  - assert (Hall : forall k, k ∈ (if bool_decide (key ∈ retired) then retired else evict retired ++ [key]) -> k ∈ retired \/ k = key).
    { intros k. case_bool_decide; [by left|]. rewrite elem_of_app, list_elem_of_singleton. intros [Hk|Hk]; [|by right].
      left. by eapply elem_of_sublist. }
    intros k [Hk%bk_disjoint0| ->]%Hall; rewrite jhas_delete by done; [rewrite Hk; by rewrite andb_false_r|].
    by rewrite bool_decide_eq_true_2.
Qed.

Lemma book_closed tr routes focus input retired : book_of tr routes focus input retired ->
  book_of (tr ++ [EClosed]) [] [] [] [].
Proof.
  intros []. split; try done.
  - apply NoDup_nil_2.
  - intros key. by rewrite routed_snoc.
  - by eapply counter_closed.
  - by eapply counter_closed.
  - apply NoDup_nil_2.
Qed.

Lemma book_focus w key : book_ok w ->
  (nextSeq (focusSequences w) key w).1 = next_answer focus_number key (trace w)
  /\ book_of (trace w ++ [EFocusSeq key (nextSeq (focusSequences w) key w).1]) (routes w)
       (nextSeq (focusSequences w) key w).2 (inputSequences w) (retiredRefs w).
Proof.
  intros []. destruct (counter_issued focus_number EFocusSeq (trace w) w (focusSequences w) key) as [Ha Hc]; try done.
  split; [done|]. split; try done.
  - intros k. by rewrite routed_snoc.
  - by eapply counter_quiet.
Qed.

Lemma book_input w key : book_ok w ->
  (nextSeq (inputSequences w) key w).1 = next_answer input_number key (trace w)
  /\ book_of (trace w ++ [EInputSeq key (nextSeq (inputSequences w) key w).1]) (routes w) (focusSequences w)
       (nextSeq (inputSequences w) key w).2 (retiredRefs w).
Proof.
  intros []. destruct (counter_issued input_number EInputSeq (trace w) w (inputSequences w) key) as [Ha Hc]; try done.
  split; [done|]. split; try done.
  - intros k. by rewrite routed_snoc.
  - by eapply counter_quiet.
Qed.

Lemma book_ok_step w w' : step encode parse w w' -> book_ok w -> book_ok w'.
Proof.
  intros H Hok. unfold book_ok in *.
  step_cases H; try exact Hok; try (repeat (apply book_quiet; [done|]); exact Hok).
  all: try (by eapply book_closed).
  all: try (match goal with E : _ || _ = false |- _ => apply orb_false_iff in E as [? ?%bool_decide_eq_false] end;
            by apply book_registered).
  all: try (pose proof (book_retired _ _ _ _ _ (routeKey r) Hok) as Hb;
            match goal with E : bool_decide _ = _ |- _ => by rewrite E in Hb end).
  all: first [ pose proof (book_focus w (routeKey r) Hok) as [_ Hb] | pose proof (book_input w (routeKey r) Hok) as [_ Hb] ];
       unfold nextSeq in Hb; repeat match goal with E : negb _ = _ |- _ => rewrite E in Hb | E : nextCounter _ = _ |- _ => rewrite E in Hb end; try exact Hb.
  all: pose proof (book_input w (routeKey r) Hok) as [_ Hi]; unfold nextSeq in Hi;
       repeat match goal with E : negb _ = _ |- _ => rewrite E in Hi | E : nextCounter _ = _ |- _ => rewrite E in Hi end; exact Hi.
Qed.

Lemma answers_ok_step w w' : step encode parse w w' -> book_ok w -> answers_ok w -> answers_ok w'.
Proof.
  intros H Hok Ha. unfold answers_ok in *.
  step_cases H; try exact Ha; repeat (apply all_ok_snoc); try done.
  all: cbn [answer_ok]; intros.
  all: try (match goal with E : _ || _ = false |- _ => apply orb_false_iff in E as [E _] end;
            by rewrite <- (bk_routes _ _ _ _ _ Hok)).
  all: first [ pose proof (book_focus w (routeKey r) Hok) as [Hb _] | pose proof (book_input w (routeKey r) Hok) as [Hb _] ];
       unfold nextSeq in Hb; repeat match goal with E : negb _ = _ |- _ => rewrite E in Hb | E : nextCounter _ = _ |- _ => rewrite E in Hb end; try exact Hb.
  all: pose proof (book_input w (routeKey r) Hok) as [Hi _]; unfold nextSeq in Hi;
       repeat match goal with E : negb _ = _ |- _ => rewrite E in Hi | E : nextCounter _ = _ |- _ => rewrite E in Hi end; exact Hi.
Qed.
End lane.

(** ** Request IDs *)

(** The text after the last dot. *)

Fixpoint after_dot (s : string) : option string :=
  match s with
  | EmptyString => None
  | String c rest =>
     match after_dot rest with
     | Some t => Some t
     | None => if (Ascii.nat_of_ascii c =? 46)%nat then Some rest else None
     end
  end.

Lemma after_dot_app s d : after_dot d = None -> after_dot (s +:+ "." +:+ d) = Some d.
Proof.
  intros Hd. induction s as [|c s IH].
  - change (after_dot (String (Ascii.ascii_of_nat 46) d) = Some d). cbn [after_dot]. by rewrite Hd.
  - change (after_dot (String c (s +:+ "." +:+ d)) = Some d). cbn [after_dot]. by rewrite IH.
Qed.

Definition dotless (c : Ascii.ascii) : bool := negb (Ascii.nat_of_ascii c =? 46)%nat.

Lemma after_dot_none s : string_all dotless s = true -> after_dot s = None.
Proof.
  induction s as [|c s IH]; cbn; [done|]. intros [Hc Hs]%andb_true_iff. rewrite IH by done. unfold dotless in Hc.
  by destruct (_ =? 46)%nat.
Qed.

Lemma pretty_N_go_all (p : Ascii.ascii -> bool) x s : (forall d, p (pretty_N_char d) = true) ->
  string_all p s = true -> string_all p (pretty_N_go x s) = true.
Proof.
  intros Hp. revert s. induction (N.lt_wf_0 x) as [x _ IH]. intros s Hs.
  destruct (decide (x = 0%N)) as [->|Hx]; [by rewrite pretty_N_go_0|].
  rewrite pretty_N_go_step by lia. apply IH; [apply N.div_lt; lia|]. cbn. by rewrite Hp.
Qed.

Lemma pretty_all (p : Ascii.ascii -> bool) (n : Z) : (forall d, p (pretty_N_char d) = true) ->
  p (Ascii.ascii_of_nat 45) = true -> p (Ascii.ascii_of_nat 48) = true -> string_all p (pretty n) = true.
Proof.
  intros Hp Hminus Hzero. destruct n as [|q|q].
  - change (pretty 0) with (String (Ascii.ascii_of_nat 48) EmptyString). cbn [string_all]. by rewrite Hzero.
  - change (pretty (Z.pos q)) with (pretty_N_go (N.pos q) EmptyString). by apply pretty_N_go_all.
  - change (pretty (Z.neg q)) with (String (Ascii.ascii_of_nat 45) (pretty_N_go (N.pos q) EmptyString)). cbn [string_all].
    rewrite Hminus. by apply pretty_N_go_all.
Qed.

Lemma after_dot_request supplied generation next id : requestId_of supplied generation next = Some id ->
  after_dot id = Some (pretty next).
Proof.
  unfold requestId_of, request_suffix. destruct (negb _); [done|]. intros [= <-].
  set (prefix := String.substring 0 _ supplied).
  replace (prefix +:+ ".t" +:+ pretty generation +:+ "." +:+ pretty next)
    with ((prefix +:+ ".t" +:+ pretty generation) +:+ "." +:+ pretty next) by (by rewrite !append_assoc).
  apply after_dot_app, after_dot_none, pretty_all; [|done|done].
  intros d. unfold dotless, pretty_N_char. by repeat case_match.
Qed.

Definition issued_tail (e : Event) : option string :=
  match e with ERequestId (Some id) => after_dot id | _ => None end.

Definition issued_id (e : Event) : option string :=
  match e with ERequestId (Some id) => Some id | _ => None end.

Definition reserved_tail (t : Task) : option string :=
  match t with TCall (COpaqueId _ next) => Some (pretty next) | _ => None end.

(** Every suffix was reserved once: by a call of the supplier that still runs, or
    by an ID already issued. *)

Definition tails (w : Lane) : list string := omap issued_tail (trace w) ++ omap reserved_tail (stack w).

Definition ids_of (sequence : Z) (used : list string) : Prop :=
  0 <= sequence <= MAX_SAFE_INTEGER /\ NoDup used /\ (forall s, s ∈ used -> exists n : Z, s = pretty n /\ n <= sequence).

Definition ids_ok (w : Lane) : Prop := ids_of (requestSequence w) (tails w).

Lemma ids_release sequence used kept : sublist kept used -> ids_of sequence used -> ids_of sequence kept.
Proof.
  intros Hs (H1 & H2 & H3). split_and!; [lia|lia|by eapply sublist_NoDup|].
  intros s Hk. apply H3. by eapply elem_of_sublist.
Qed.

Lemma ids_perm sequence used kept : kept ≡ₚ used -> ids_of sequence used -> ids_of sequence kept.
Proof. intros Hp (H1 & H2 & H3). split_and!; [lia|lia|by rewrite Hp|]. intros s. rewrite Hp. auto. Qed.

Lemma ids_reserve sequence used1 used2 : isSafeInteger (sequence + 1) = true -> ids_of sequence (used1 ++ used2) ->
  ids_of (sequence + 1) (used1 ++ pretty (sequence + 1) :: used2).
Proof.
  intros Hsafe ([H1 H2] & H3 & H4). unfold isSafeInteger in Hsafe.
  assert (Hnew : pretty (sequence + 1) ∉ used1 ++ used2).
  { intros (n & Hn%(inj pretty) & Hle)%H4. lia. }
  assert (Hold : forall s, s ∈ used1 ++ pretty (sequence + 1) :: used2 -> s = pretty (sequence + 1) \/ s ∈ used1 ++ used2).
  { intros s. rewrite <- Permutation_middle, elem_of_cons. done. }
  split_and!; [lia|lia| |].
  - rewrite <- Permutation_middle. by apply NoDup_cons.
  - intros s [-> |Hs]%Hold; [by exists (sequence + 1)|]. apply H4 in Hs as (n & -> & Hn). exists n. split; [done|lia].
Qed.

Section lane.
Context (encode : TerminalCommand -> option (list Z)) (parse : list Z -> option (json * option TerminalMetadata)).

Lemma ids_ok_step w w' : step encode parse w w' -> ids_ok w -> ids_ok w'.
Proof.
  intros H Hok. unfold ids_ok, tails in *. step_cases H; try rewrite Es in *;
    rewrite ?omap_task_cons, ?omap_app in *; cbn [reserved_tail issued_tail omap list_omap] in *; rewrite ?app_nil_r; try exact Hok.
  - apply ids_reserve; [by apply negb_false_iff|done].
  - eapply ids_release; [|exact Hok]. apply sublist_app; [done|]. by apply sublist_cons.
  - destruct (requestId_of id generation next) as [i|] eqn:Ei.
    + rewrite (after_dot_request _ _ _ _ Ei), <- app_assoc. exact Hok.
    + rewrite app_nil_r. eapply ids_release; [|exact Hok]. apply sublist_app; [done|]. by apply sublist_cons.
Qed.

(** An issued ID ends with its suffix. *)

Definition dotted_event (e : Event) : bool :=
  match e with ERequestId (Some id) => bool_decide (is_Some (after_dot id)) | _ => true end.

Definition dotted (w : Lane) : Prop := forallb dotted_event (trace w) = true.

Lemma dotted_step w w' : step encode parse w w' -> dotted w -> dotted w'.
Proof.
  intros H Hok. unfold dotted in *. step_cases H; try exact Hok; rewrite ?forallb_app, ?Hok; try done.
  destruct (requestId_of id generation next) as [i|] eqn:Ei; [|done]. cbn. rewrite (after_dot_request _ _ _ _ Ei). done.
Qed.

Lemma issued_nodup tr : forallb dotted_event tr = true -> NoDup (omap issued_tail tr) -> NoDup (omap issued_id tr).
Proof.
  induction tr as [|e tr IH]; cbn; [done|]. intros [He Htr]%andb_true_iff.
  destruct e as [| | | | | |[id|]| | | | | | | |]; cbn in *; auto.
  apply bool_decide_eq_true in He as [t Ht]. rewrite Ht. intros [Hnew Hrest]%NoDup_cons. apply NoDup_cons. split; [|auto].
  intros ([| | | | | |[i|]| | | | | | | |] & Hin & Hi)%list_elem_of_omap; simplify_eq/=. apply Hnew, list_elem_of_omap.
  by exists (ERequestId (Some id)).
Qed.

(** ** Everything the book says, in every reachable state *)

Record books (w : Lane) : Prop := mkBooks {
  books_book : book_ok w;
  books_answers : answers_ok w;
  books_ingress : ingress_ok w;
  books_ids : ids_ok w;
  books_dotted : dotted w;
}.

Lemma books_new : books newLane.
Proof.
  split; try done.
  - split; try done; try apply NoDup_nil_2; (split; [apply NoDup_nil_2|done]).
  - apply all_ok_nil.
  - split; try done. apply all_ok_nil.
  - split; [done|]. split; [apply NoDup_nil_2|]. intros s Hs. by apply elem_of_nil in Hs.
Qed.

Lemma books_step w w' : step encode parse w w' -> books w -> books w'.
Proof.
  intros H []. split; eauto using book_ok_step, answers_ok_step, ingress_ok_step, ids_ok_step, dotted_step.
Qed.

Lemma lane_reachable_books w : reachable encode parse w -> books w.
Proof.
  intros Hr. eapply rtc_invariant; [apply books_new| |exact Hr]. intros x y Hx Hxy. by eapply books_step.
Qed.
End lane.
