(* ===== verification/ClientLaneProperties.v ===== *)
(** * What the client's terminal lane guarantees

    The theorems about packages/client/src/terminal-delivery.ts, for every state
    the lane reaches, whatever the foreign code it calls answers, throws or
    calls back, and however replies, deadlines and cancellations interleave.
    The witnesses are schedules ([play]) of a lane whose codec is a concrete
    function. *)

From S2P Require Import Prelude Json JsMap Protocol Errors Frame Terminal.
From S2P Require Import ClientLane ClientLaneInvariant ClientLaneLife ClientLaneOrder ClientLaneRoutes.

(** ** Schedules reach what they play *)

Section lane.
Context (encode : TerminalCommand -> option (list Z)) (parse : list Z -> option (json * option TerminalMetadata)).

Lemma settle_steps fuel w : rtc (step encode parse) w (settle fuel w).
Proof.
  revert w. induction fuel as [|fuel IH]; intros w; cbn; [done|].
  destruct (run w) as [w'|] eqn:E; [|done]. eapply rtc_l; [by apply step_run|apply IH].
Qed.

Lemma play_reaches fuel moves w w' : play encode parse fuel moves w = Some w' -> rtc (step encode parse) w w'.
Proof.
  revert w. induction moves as [|m moves IH]; intros w; cbn; [by intros [= ->]|].
  destruct (move encode parse m w) as [w1|] eqn:Em; [|done]. intros H%IH.
  eapply rtc_l; [|etrans; [apply settle_steps|exact H]]. destruct m; [by eapply step_enter|by eapply step_resume].
Qed.

Lemma outcome_in (tr : list Event) n o : EOutcome n o ∈ tr <-> o ∈ omap (outcome_at n) tr.
Proof.
  rewrite list_elem_of_omap. split.
  - intros H. exists (EOutcome n o). cbn. by rewrite Nat.eqb_refl.
  - intros (e & He & Ho). destruct e; try done. cbn in Ho. destruct (Nat.eqb_spec n0 n); [|done]. by simplify_eq.
Qed.

(** What the history says of a [send] call. *)

Lemma life_outcomes w n : life w n ->
  (omap (outcome_at n) (trace w) = [] \/ exists o, omap (outcome_at n) (trace w) = [o])
  /\ forall o, o ∈ omap (outcome_at n) (trace w) ->
       match objects w !! n with
       | Some p => settled p = true /\ outcome_ok p o
       | None => exists reason, o = OutcomeFailed (fails reason) false
       end.
Proof.
  unfold life, view_ok. destruct (objects w !! n) as [p|].
  - intros [? ? ? ? Hopen Hsettled]. destruct (settled p).
    + destruct Hsettled as (o & -> & Ho); [done|]. split; [eauto|]. by intros ? ->%list_elem_of_singleton.
    + rewrite Hopen by done. split; [by left|]. by intros ? ?%elem_of_nil.
  - intros [? ? ? ? ? ? ? Hrefused Hnew]. destruct (decide (next w <= n)%nat).
    + rewrite Hnew by done. split; [by left|]. by intros ? ?%elem_of_nil.
    + destruct Hrefused as [reason ->]; [lia|]. split; [eauto|]. intros ? ->%list_elem_of_singleton. eauto.
Qed.

Lemma life_entered w n : life w n ->
  occurs (enters n) (trace w) = match objects w !! n with Some p => Nat.b2n (attempting p) | None => O end
  /\ occurs (hands n) (trace w) = match objects w !! n with Some p => Nat.b2n (handedOff p) | None => O end.
Proof. unfold life, view_ok. by destruct (objects w !! n) as [p|]; intros []. Qed.

Lemma life_resolved w n : life w n ->
  omap (resolved_at n) (trace w) ++ omap (resolves n) (stack w) ≡ₚ omap (outcome_at n) (trace w).
Proof. unfold life, view_ok. by destruct (objects w !! n) as [p|]; intros []. Qed.

(** C22: in every reachable state, whatever foreign code answered, threw or called
    back, the command of a [send] call has entered [socket.send] at most once and
    its handover was announced at most once; its outcome was decided at most
    once, and its promise, if resolved, has that outcome.  A success is a result
    that the command's request accepts; a failure that says [sent: false] belongs
    to a command that never entered the socket, and so does a failure with a
    local error, unless it cancels a preview. *)
Theorem lane_sent_once w n : reachable encode parse w ->
  (occurs (enters n) (trace w) <= 1)%nat /\ (occurs (hands n) (trace w) <= 1)%nat
  /\ (length (omap (outcome_at n) (trace w)) <= 1)%nat
  /\ omap (resolved_at n) (trace w) ⊆+ omap (outcome_at n) (trace w)
  /\ forall o, EOutcome n o ∈ trace w ->
       match o with
       | OutcomeOk r => exists p, objects w !! n = Some p /\ validateTerminalResultForCommand (command p) r = true
       | OutcomeFailed f sent =>
          (sent = false -> occurs (enters n) (trace w) = O)
          /\ (match f_error f with localError _ => true | remoteError _ => false end = true ->
              occurs (enters n) (trace w) = O \/ exists p, objects w !! n = Some p /\ command_type (command p) = t_preview)
       end.
Proof.
  intros Hr%lane_reachable_ok. pose proof (ok_life _ Hr n) as Hn. pose proof (life_entered w n Hn) as [He Hh].
  pose proof (life_outcomes w n Hn) as [Hlen Hout]. pose proof (life_resolved w n Hn) as Hres. split_and!.
  - rewrite He. destruct (objects w !! n) as [p|]; [destruct (attempting p); cbn|]; lia.
  - rewrite Hh. destruct (objects w !! n) as [p|]; [destruct (handedOff p); cbn|]; lia.
  - destruct Hlen as [-> |[o ->]]; cbn; lia.
  - rewrite <- Hres. by apply submseteq_inserts_r.
  - intros o Ho%outcome_in%Hout. rewrite He. destruct (objects w !! n) as [p|].
    + destruct Ho as [_ Ho]. destruct o as [r|f sent]; [by exists p|]. destruct Ho as (H1 & _ & H3). split.
      * intros ->. by rewrite H1.
      * unfold local_unsent in H3. destruct (f_error f); [|done]. intros _. destruct H3 as [-> | H3]; [by left|right].
        by exists p.
    + destruct Ho as [reason ->]. split; [done|]. by left.
Qed.

(** C25: the accounts of the lane are exact in every reachable state.
    [retainedOutboundBytes] is the sum of the frames of the pending commands, a
    request ID is in [pending] exactly while a command of it is unsettled,
    commands and held previews fill at most 256 slots and inputs, previews and
    held previews at most 224 of them.  [retainedIngressBytes] is what owner and
    view calls still lease plus the leases of the messages being received, and
    the account underflowed only where the owner had released more than it
    leased.  Both byte limits hold: whichever step comes next, it adds to
    [retainedOutboundBytes] only by admitting a command, and then the account is
    within the outbound and reserved bytes of the binding, without the reserved
    ones for an input or a preview; and it adds to [retainedIngressBytes] only
    within that limit too, unless the owner releases a negative number. *)
Theorem lane_exact w : reachable encode parse w ->
  retainedOutboundBytes w = lsum (fun p => zlen (bytes p)) (pending_objects w)
  /\ (forall id n, jget id (pending w) = Some n <->
        exists p, objects w !! n = Some p /\ settled p = false /\ tc_requestId (command p) = id)
  /\ slots_used w <= 256 /\ ordinary_used w <= 224
  /\ retainedIngressBytes w = lsum owner_bytes (trace w) + lsum lease_of (stack w)
  /\ (forall tr1 tr2, trace w = tr1 ++ EUnderflow :: tr2 -> lsum owner_bytes tr1 < 0)
  /\ (forall w', step encode parse w w' ->
        (retainedOutboundBytes w < retainedOutboundBytes w' ->
           exists b c, owner_binding w = Some b /\ trace w' = trace w ++ [ESend (next w) c]
           /\ retainedOutboundBytes w' <= outboundConnectionBytes b + reservedControlBytes b
           /\ (command_type c = t_input \/ command_type c = t_preview ->
                 retainedOutboundBytes w' <= outboundConnectionBytes b))
        /\ (retainedIngressBytes w < retainedIngressBytes w' ->
              (exists b, owner_binding w = Some b
                 /\ retainedIngressBytes w' <= outboundConnectionBytes b + reservedControlBytes b)
              \/ exists n tr, n < 0 /\ trace w' = trace w ++ EReleased n :: tr)).
Proof.
  intros Hr. pose proof (ok_store _ (lane_reachable_ok _ _ _ Hr)) as Hs.
  pose proof (books_ingress _ (lane_reachable_books _ _ _ Hr)) as Hbook. pose proof Hbook as [Hin _ Hunder]. pose proof Hs as [_ H2 H3 _ H5 H6 H7]. split_and!.
  - rewrite H5. unfold pending_objects. clear. induction (jvalues (pending w)) as [|n l IH]; [done|].
    rewrite lsum_cons, IH. unfold frame_bytes_of at 1, core. rewrite lookup_fmap. cbn [omap list_omap].
    destruct (objects w !! n) as [p|]; cbn; [by rewrite lsum_cons|done].
  - intros id n. split.
    + intros (c & b & Hn & Hid)%H3. unfold core in Hn. rewrite lookup_fmap in Hn.
      destruct (objects w !! n) as [p|]; [|done]. cbn in Hn. exists p. unfold core_of in Hn. by simplify_eq.
    + intros (p & Hn & Hset & <-). apply core_lookup in Hn. rewrite Hset in Hn. by eapply H2.
  - exact H6.
  - rewrite ordinary_used_sum. exact H7.
  - exact Hin.
  - intros tr1 tr2 Htr. exact (Hunder tr1 EUnderflow tr2 Htr).
  - intros w' Hw. split; [|by apply (ingress_growth _ _ _ _ Hw)]. intros Hlt.
    destruct (outbound_growth _ _ _ _ Hw Hlt) as (b & c & Hb & Ht & H8 & H9). exists b, c. split_and!; try done.
    intros Hc. apply H9. unfold ordinary. by destruct Hc as [-> | ->].
Qed.

(** C23: commands of one route enter the socket in the order they were queued, in
    every reachable state; and when [flush] comes to take the next command,
    everything registered as follow-up work so far has been done, unless the
    flush itself runs inside follow-up work. *)
Theorem lane_order w : reachable encode parse w ->
  (forall route, sublist (omap (entered_on route) (trace w)) (omap (queued_on route) (trace w)))
  /\ (forall rest, stack w = TFlushNext :: rest -> runningFollowUps w = true \/ followUps w = []).
Proof.
  intros (_ & Hf & Ho)%lane_reachable_order. split.
  - intros k. etrans; [|exact (Ho k)]. by apply sublist_inserts_r.
  - intros rest Hs. pose proof (fo_done _ Hf) as Hd. rewrite Hs in Hd. by apply Hd.
Qed.

(** C24: the lane's own code always ends: from every reachable state [lane_weight]
    steps lead back to foreign code or to the event loop.  Back in the event loop
    nothing is left behind: no entry is open, nothing is flushing or queued, all
    follow-up work was done, every outcome decided so far has resolved its
    promise, and a command that is still unsettled has its deadline timer and was
    handed to the socket, unless the lane was closed. *)
Theorem lane_comes_to_rest w : reachable encode parse w ->
  suspended (settle (lane_weight w) w)
  /\ (stack w = [] ->
      depth w = O /\ flushing w = false /\ runningFollowUps w = false /\ followUps w = [] /\ outbound w = []
      /\ (forall n, omap (resolved_at n) (trace w) ≡ₚ omap (outcome_at n) (trace w))
      /\ forall n p, objects w !! n = Some p -> settled p = false ->
           timer p = true /\ (occurs (enters n) (trace w) = 1%nat /\ occurs (hands n) (trace w) = 1%nat
                              \/ existsb is_close (trace w) = true)).
Proof.
  intros Hr%lane_reachable_ok. split; [by apply settle_suspends|]. intros Hs.
  destruct (ok_stack _ Hr) as [H1 H2 H3 H4 H5]. rewrite Hs in *. cbn in H1, H2, H3, H4, H5.
  destruct (flushing w); [done|]. destruct (runningFollowUps w); [done|]. split_and!; try done.
  - destruct (followUps w); [done|]. destruct H5 as [?|[?|?]]; [done|done|lia|done].
  - destruct (outbound w); [done|]. by destruct H4 as [?|?].
  - intros n. pose proof (life_resolved w n (ok_life _ Hr n)) as Hres. rewrite Hs in Hres. cbn in Hres.
    by rewrite app_nil_r in Hres.
  - intros n p Hp Hset. pose proof (ok_life _ Hr n) as Hn. pose proof (life_entered w n Hn) as [He Hh]. rewrite Hp in He, Hh.
    assert (Hq : outbound w = []) by (destruct (outbound w); [done|by destruct H4 as [?|?]]).
    unfold life, view_ok in Hn. rewrite Hp, Hs, Hq in Hn. destruct Hn as [? ? ? ? ? ? ? ? Hqueued Htimed Hhanded].
    cbn in Hqueued, Htimed, Hhanded. split; [by destruct (Htimed Hset) as [?|[?|?]]|].
    destruct (Hqueued Hset) as [Ha|[Ha|[Ha|Ha]]]; [|lia|done|by right]. left.
    destruct (Hhanded Hset Ha) as [Hd|[Hd|[Hd|Hd]]]; [|done..]. by rewrite He, Hh, Ha, Hd.
Qed.

(** Routes and counters are what the history says, in every reachable state: a
    route is registered exactly while it was and neither [retire] nor [close]
    followed; every sequence number ever answered was one more than the one
    before for the route ([null] when exhausted, [undefined] without a route); a
    route has a counter only while it is registered; a registration was accepted
    only for a route that was not registered; at most 256 retired refs are
    remembered and none of them is registered; and no request ID was issued
    twice. *)
Theorem lane_book w : reachable encode parse w ->
  (forall key, jhas key (routes w) = routed key (trace w))
  /\ (forall tr1 e tr2, trace w = tr1 ++ e :: tr2 -> answer_ok tr1 e)
  /\ (forall key, jhas key (focusSequences w) || jhas key (inputSequences w) = true -> jhas key (routes w) = true)
  /\ zlen (retiredRefs w) <= RECENT_RETIRED_REFS
  /\ (forall key, key ∈ retiredRefs w -> jhas key (routes w) = false)
  /\ NoDup (omap issued_id (trace w)).
Proof.
  intros [[] Ha _ (_ & Hids & _) Hd]%lane_reachable_books. split_and!; try done.
  - intros key [H|H]%orb_true_iff; apply jhas_spec in H as [n Hn]; [apply bk_focus in Hn|apply bk_input in Hn]; tauto.
  - apply issued_nodup; [done|]. unfold tails in Hids. by apply NoDup_app in Hids as [? _].
Qed.
End lane.

(** ** Schedules *)

Definition cl_run : RunRef := mkRun "s" "r" "u".
Definition cl_connection : ConnectionRef := mkConnection "c" 1.
Definition cl_ref (view : string) : SubscriptionRef := mkSubscription cl_run cl_connection "sub" view.
Definition cl_blur (id view : string) : TerminalCommand := mkCommand id cl_run (K_blur (cl_ref view) 1).
Definition cl_encode (c : TerminalCommand) : option (list Z) := Some [1; slen (tc_requestId c)].

Definition cl_parse (metadata : list Z) : option (json * option TerminalMetadata) :=
  Some (JObj [], Some (TM_result (mkResult "first" cl_run (R_blur (cl_ref "v") 1 4)))).

Definition cl_reply : list Z := match encodeFrame TERMINAL_LANE TERMINAL_REVISION 2 [9] [] with inr b => b | inl _ => [] end.

(** A command is sent; the socket, entered with it, sends two more; the deadline
    of one of them passes; the handover registers follow-up work, which runs
    before the next command is taken; the socket takes that one badly; the reply
    to the first command arrives, and its settlement is announced. *)

Definition cl_moves : list Move :=
  [ Enter (OOwner (Some M0_LIMITS) true); Enter (ORegister (cl_ref "v") 7); Enter (ONextFocusSeq (cl_ref "v"));
    Enter (ONextRequestId 1); Return (Supplied "id"); Enter (OReserveIngress 5);
    Enter (OSend (cl_blur "first" "v") true true true []); Return Done; Return (Eligible true);
    Enter (OSend (cl_blur "second" "w") false false false []); Return Done;
    Enter (OSend (cl_blur "third" "v") false false false []); Return Done;
    Enter (OTimer 1%nat);
    Return (Sent handed_off); Enter (OAfterward 3%nat); Return Done; Return Done; Return Done;
    Return (Sent not_sent); Return Done;
    Enter (OReceive cl_reply cl_connection) ].

(** The rest: the settlement callback returns, the timer is disposed of. *)

Definition cl_moves_rest : list Move := cl_moves ++ [Return Done; Return Done].

(** Follow-up work sends two commands; the handover of the first registers more. *)

Definition cl_moves_late : list Move :=
  [ Enter (OOwner (Some M0_LIMITS) true); Enter (OAfterward 0%nat);
    Enter (OSend (cl_blur "first" "v") true false false []); Return Done; Return (Sent handed_off);
    Enter (OAfterward 1%nat); Return Done;
    Enter (OSend (cl_blur "second" "v") false false false []); Return Done ].

Definition cl_play (moves : list Move) : Lane := default newLane (play cl_encode cl_parse 200 moves newLane).

Lemma cl_play_reachable moves : reachable cl_encode cl_parse (cl_play moves).
Proof.
  unfold cl_play. destruct (play cl_encode cl_parse 200 moves newLane) as [w|] eqn:E; cbn; [|apply rtc_refl].
  by eapply play_reaches.
Qed.


(** Before the first command, and as it is admitted. *)

Definition cl_before : Lane := cl_play (firstn 6 cl_moves).
Definition cl_first : LaneOp := OSend (cl_blur "first" "v") true true true [].
Definition cl_admitted : Lane := default newLane (enterLane cl_encode cl_parse cl_first cl_before).

Definition cl_busy : Lane := cl_play (firstn 12 cl_moves).
Definition cl_mid : Lane := cl_play cl_moves.
Definition cl_rest : Lane := cl_play cl_moves_rest.
Definition cl_late : Lane := cl_play cl_moves_late.

(** The flush is about to take the third command: the last follow-up work has
    just returned. *)

Definition cl_taking : Lane := settle 1 (default newLane (resume Done (cl_play (firstn 18 cl_moves)))).

Lemma cl_taking_reachable : reachable cl_encode cl_parse cl_taking.
Proof.
  unfold cl_taking. destruct (resume Done (cl_play (firstn 18 cl_moves))) as [w|] eqn:E; [|apply rtc_refl].
  cbn [default]. unfold reachable; etrans; [apply cl_play_reachable|]. eapply rtc_l; [by eapply step_resume|apply settle_steps].
Qed.

Lemma lane_sent_once_witness :
  (occurs (enters 0) (trace cl_rest), occurs (enters 1) (trace cl_rest), occurs (enters 2) (trace cl_rest)) = (1, 0, 1)%nat
  /\ map (fun n => length (omap (outcome_at n) (trace cl_rest))) [0; 1; 2]%nat = [1; 1; 1]%nat
  /\ omap (resolved_at 0) (trace cl_rest) ⊆+ omap (outcome_at 0) (trace cl_rest)
  /\ (occurs (enters 1) (trace cl_rest) <= 1)%nat.
Proof.
  do 2 (split; [by vm_compute|]).
  destruct (lane_sent_once _ _ _ 0%nat (cl_play_reachable cl_moves_rest)) as (_ & _ & _ & H & _). split; [exact H|].
  exact (proj1 (lane_sent_once _ _ _ 1%nat (cl_play_reachable cl_moves_rest))).
Defined.

Lemma lane_exact_witness :
  retainedOutboundBytes cl_busy = 54 /\ retainedIngressBytes cl_mid = 12344
  /\ retainedOutboundBytes cl_busy = lsum (fun p => zlen (bytes p)) (pending_objects cl_busy)
  /\ retainedIngressBytes cl_mid = lsum owner_bytes (trace cl_mid) + lsum lease_of (stack cl_mid)
  /\ enterLane cl_encode cl_parse cl_first cl_before = Some cl_admitted
  /\ retainedOutboundBytes cl_before < retainedOutboundBytes cl_admitted
  /\ exists b c, owner_binding cl_before = Some b /\ trace cl_admitted = trace cl_before ++ [ESend (next cl_before) c]
     /\ retainedOutboundBytes cl_admitted <= outboundConnectionBytes b + reservedControlBytes b.
Proof.
  do 2 (split; [by vm_compute|]).
  destruct (lane_exact _ _ _ (cl_play_reachable (firstn 12 cl_moves))) as (H1 & _). split; [exact H1|].
  destruct (lane_exact _ _ _ (cl_play_reachable cl_moves)) as (_ & _ & _ & _ & H2 & _). split; [exact H2|].
  assert (He : enterLane cl_encode cl_parse cl_first cl_before = Some cl_admitted) by (by vm_compute).
  assert (Hg : retainedOutboundBytes cl_before < retainedOutboundBytes cl_admitted) by (by vm_compute).
  split; [exact He|]. split; [exact Hg|].
  assert (Hr : reachable cl_encode cl_parse cl_before) by apply cl_play_reachable.
  destruct (lane_exact cl_encode cl_parse cl_before Hr) as (_ & _ & _ & _ & _ & _ & H3).
  destruct (H3 cl_admitted (step_enter cl_encode cl_parse cl_first cl_before cl_admitted He)) as [H4 _].
  destruct (H4 Hg) as (b & c & Hb & Ht & Hc & _).
  exact (ex_intro _ b (ex_intro _ c (conj Hb (conj Ht Hc)))).
Defined.

(** The follow-up work has been done when the lane takes the third command; in
    [cl_late] the second command entered the socket before the work the first
    one's handover registered, since both were sent by follow-up work. *)

Lemma lane_order_witness :
  omap (queued_on (routeKey (cl_ref "v"))) (trace cl_rest) = [0; 2]%nat
  /\ sublist (omap (entered_on (routeKey (cl_ref "v"))) (trace cl_rest)) [0; 2]%nat
  /\ outbound cl_taking <> [] /\ (runningFollowUps cl_taking = true \/ followUps cl_taking = [])
  /\ omap (entered_on (routeKey (cl_ref "v"))) (trace cl_late) = [0; 1]%nat /\ followUps cl_late = [WForeign 1].
Proof.
  split; [by vm_compute|]. split; [|split; [by vm_compute|split; [|split; [by vm_compute|by vm_compute]]]].
  - exact (proj1 (lane_order _ _ _ (cl_play_reachable cl_moves_rest)) (routeKey (cl_ref "v"))).
  - refine (proj2 (lane_order _ _ _ cl_taking_reachable) [TExit] _). by vm_compute.
Defined.

Lemma lane_comes_to_rest_witness :
  stack cl_rest = [] /\ suspended (settle (lane_weight cl_taking) cl_taking)
  /\ followUps cl_rest = [] /\ outbound cl_rest = [] /\ depth cl_rest = O
  /\ omap (resolved_at 1) (trace cl_rest) ≡ₚ omap (outcome_at 1) (trace cl_rest).
Proof.
  split; [by vm_compute|]. split; [exact (proj1 (lane_comes_to_rest _ _ _ cl_taking_reachable))|].
  destruct (proj2 (lane_comes_to_rest _ _ _ (cl_play_reachable cl_moves_rest))) as (H1 & _ & _ & H2 & H3 & H4 & _);
    [by vm_compute|]. exact (conj H2 (conj H3 (conj H1 (H4 1%nat)))).
Defined.

Lemma lane_book_witness :
  jhas (routeKey (cl_ref "v")) (routes cl_rest) = true /\ omap issued_id (trace cl_rest) = ["id.t1.1"]
  /\ routed (routeKey (cl_ref "v")) (trace cl_rest) = true /\ NoDup (omap issued_id (trace cl_rest)).
Proof.
  do 2 (split; [by vm_compute|]).
  destruct (lane_book _ _ _ (cl_play_reachable cl_moves_rest)) as (H1 & _ & _ & _ & _ & H2). split; [|exact H2].
  rewrite <- H1. by vm_compute.
Defined.

(** The exception of [lane_order] is real: in [cl_late] the second command is in
    the socket and the work that the handover of the first one registered still
    waits, which the comment of [depth] and section 4.4.5 exclude. *)

Lemma follow_up_overtaken :
  reachable cl_encode cl_parse cl_late
  /\ omap (entered_on (routeKey (cl_ref "v"))) (trace cl_late) = [0; 1]%nat
  /\ occurs (hands 0) (trace cl_late) = 1%nat /\ followUps cl_late = [WForeign 1].
Proof. split; [apply cl_play_reachable|]. split; [by vm_compute|]. split; by vm_compute. Qed.
