(* ===== verification/RunRegistry.v ===== *)
(** * The run registry (apps/server/src/terminal/run-registry.ts)

    One entry per run the runtime reserved: its worker, the last confirmed
    status and its lease.  The business observer is a callback: [notices] is the
    sequence of its calls, and [throws] says which of them raise. *)

From S2P Require Import Prelude Json Protocol JsMap LeaseAccount Retained Composition.

Record Entry := mkEntry {
  run : RunRef;
  worker : WorkerRef;
  status : RunStatus;
  capacityOwned : bool;
  dispatched : bool;
  lease : nat;
}.

Inductive Notice :=
  | changed (run : RunRef) (worker : WorkerRef) (status : option RunStatus)
  | uncertain.

Record RunRegistry (S : Type) := mkRegistry {
  composition : RuntimeComposition;
  maxRuns : Z;
  entries : jsmap string Entry;
  businessObserver : bool;
  notices : list Notice;
  bytes : S;
}.

Arguments mkRegistry {S} _ _ _ _ _ _.
Arguments composition {S} _.
Arguments maxRuns {S} _.
Arguments entries {S} _.
Arguments businessObserver {S} _.
Arguments notices {S} _.
Arguments bytes {S} _.

Inductive RegistryError := invalid_run_limit | observer_already_owned.

Definition with_status (e : Entry) (st : RunStatus) : Entry :=
  mkEntry (run e) (worker e) st (capacityOwned e) (dispatched e) (lease e).

Definition set_life (st : RunStatus) (life : RunLifecycle) (rec : RunRecovery) (code : option Z)
    (sig : option string) : RunStatus :=
  mkRunStatus (rs_run st) life (rs_geometry st) (rs_controlEpoch st) (rs_controlHolder st)
    (rs_receivedSeq st) (rs_parsedSeq st) rec (rs_reason st) code sig.

Section operations.
Context {S : Type} `{LeaseAccount S}.
Context (throws : Notice -> bool).
Implicit Types s : RunRegistry S.

Definition newRunRegistry (c : RuntimeComposition) (max : Z) (b : S) : RegistryError + RunRegistry S :=
  if negb (isSafeInteger max) || (max <? 1) || (Protocol.maxRuns (comp_budgets c) <? max)
  then inl invalid_run_limit else inr (mkRegistry c max [] false [] b).

Definition observeBusiness (observer : bool) s : RegistryError + RunRegistry S :=
  if observer && businessObserver s then inl observer_already_owned
  else inr (mkRegistry (composition s) (maxRuns s) (entries s) observer (notices s) (bytes s)).

Definition set_entries (es : jsmap string Entry) s : RunRegistry S :=
  mkRegistry (composition s) (maxRuns s) es (businessObserver s) (notices s) (bytes s).

Definition set_bytes (b : S) s : RunRegistry S :=
  mkRegistry (composition s) (maxRuns s) (entries s) (businessObserver s) (notices s) b.

Definition notify (e : Entry) (removed : bool) s : RunRegistry S :=
  if businessObserver s then
    let n := changed (run e) (worker e) (if removed then None else Some (status e)) in
    mkRegistry (composition s) (maxRuns s) (entries s) (businessObserver s)
      (notices s ++ n :: if throws n then [uncertain] else []) (bytes s)
  else s.

Definition reserve (r : RunRef) (w : WorkerRef) (g : Geometry) s : bool * RunRegistry S :=
  if negb (ownsRun (composition s) r) || negb (ownsWorker (composition s) w)
     || jhas (run_runId r) (entries s) || (maxRuns s <=? zlen (entries s))
  then (false, s)
  else
    let st := mkRunStatus r unverifiable g 0 None None None unavailable None None None in
    if negb (RunStatusSchema st) then (false, s)
    else match la_reserve 8192 (bytes s) with
         | None => (false, s)
         | Some (l, b) =>
            let e := mkEntry r w st true false l in
            (true, notify e false (set_bytes b (set_entries (jset (run_runId r) e (entries s)) s)))
         end.

Definition get (r : RunRef) s : option (WorkerRef * RunStatus * bool) :=
  match jget (run_runId r) (entries s) with
  | Some e => if sameRunRef r (run e) then Some (worker e, status e, capacityOwned e) else None
  | None => None
  end.

(** The entry of a run on a worker, as every later operation looks it up. *)

Definition find (r : RunRef) (w : WorkerRef) s : option Entry :=
  match jget (run_runId r) (entries s) with
  | Some e => if sameRunRef (run e) r && sameWorkerRef (worker e) w then Some e else None
  | None => None
  end.

Definition is_exited (st : RunStatus) : bool := bool_decide (rs_status st = exited).

Definition put (e : Entry) s : RunRegistry S := set_entries (jset (run_runId (run e)) e (entries s)) s.

Definition observe (w : WorkerRef) (st : RunStatus) s : bool * RunRegistry S :=
  if negb (RunStatusSchema st) then (false, s)
  else match find (rs_run st) w s with
       | None => (false, s)
       | Some e =>
          if is_exited (status e) && negb (is_exited st) then (false, s)
          else if is_exited (status e)
                  && (default (-1) (rs_parsedSeq st) <? default (-1) (rs_parsedSeq (status e)))
          then (true, s)
          else let e := with_status e st in (true, notify e false (put e s))
       end.

Definition observeExit (w : WorkerRef) (r : RunRef) (code : option Z) (sig : option string) s : bool * RunRegistry S :=
  match find r w s with
  | None => (false, s)
  | Some e =>
     if is_exited (status e) then (true, s)
     else
       let st := set_life (status e) exited (rs_recovery (status e)) code sig in
       if negb (RunStatusSchema st) then (false, s)
       else let e := with_status e st in (true, notify e false (put e s))
  end.

Definition lose_contact (w : WorkerRef) (id : string) s : RunRegistry S :=
  match jget id (entries s) with
  | None => s
  | Some e =>
     if sameWorkerRef (worker e) w && negb (is_exited (status e)) then
       let st := set_life (status e) unverifiable unavailable (rs_exitCode (status e)) (rs_signal (status e)) in
       let e := with_status e st in notify e false (set_entries (jset id e (entries s)) s)
     else s
  end.

Definition contactLost (w : WorkerRef) s : RunRegistry S :=
  foldl (fun s id => lose_contact w id s) s (jkeys (entries s)).

Definition isDispatched (r : RunRef) s : bool :=
  match jget (run_runId r) (entries s) with
  | Some e => sameRunRef r (run e) && dispatched e
  | None => false
  end.

Definition markDispatched (r : RunRef) (w : WorkerRef) s : bool * RunRegistry S :=
  match find r w s with
  | None => (false, s)
  | Some e => (true, put (mkEntry (run e) (worker e) (status e) (capacityOwned e) true (lease e)) s)
  end.

(** Drops an entry: deleted, notified, its lease released. *)

Definition remove_entry (e : Entry) s : RunRegistry S :=
  let s := notify e true (set_entries (jdelete (run_runId (run e)) (entries s)) s) in
  set_bytes (la_release (lease e) (bytes s)) s.

Definition cancelReservation (r : RunRef) (w : WorkerRef) s : bool * RunRegistry S :=
  match find r w s with
  | None => (false, s)
  | Some e => if dispatched e then (false, s) else (true, remove_entry e s)
  end.

Definition retireRefusedSpawn (r : RunRef) (w : WorkerRef) s : bool * RunRegistry S :=
  match find r w s with
  | None => (false, s)
  | Some e =>
     if negb (dispatched e) || negb (bool_decide (rs_status (status e) = unverifiable)) then (false, s)
     else (true, remove_entry e s)
  end.

Definition releaseCapacity (r : RunRef) (w : WorkerRef) s : bool * RunRegistry S :=
  match find r w s with
  | None => (false, s)
  | Some e =>
     if negb (capacityOwned e) then (false, s)
     else (true, put (mkEntry (run e) (worker e) (status e) false (dispatched e) (lease e)) s)
  end.

Definition list_runs s : list RunStatus := status <$> jvalues (entries s).

Definition count s : Z := zlen (entries s).

Definition dispose s : RunRegistry S :=
  set_entries [] (set_bytes (release_all (lease <$> jvalues (entries s)) (bytes s)) s).

End operations.

(** ** Invariant *)

Section invariant.
Context {S : Type} `{LeaseAccount S}.
Context (throws : Notice -> bool).
Implicit Types s : RunRegistry S.

Record entry_ok (c : RuntimeComposition) (k : string) (e : Entry) : Prop := mk_entry_ok {
  e_key : k = run_runId (run e);
  e_run : rs_run (status e) = run e;
  e_owned : ownsRun c (run e) = true /\ ownsWorker c (worker e) = true;
  e_schema : RunStatusSchema (status e) = true;
}.

Definition leases (es : jsmap string Entry) : list (nat * Z) := (fun e => (lease e, 8192)) <$> jvalues es.

Record ok (foreign : Z) s : Prop := mk_registry_ok {
  r_ledger : ledger foreign (bytes s) (leases (entries s));
  r_wf : jwf (entries s);
  r_size : zlen (entries s) <= maxRuns s;
  r_max : 1 <= maxRuns s <= Protocol.maxRuns (comp_budgets (composition s));
  r_entries : forall k e, jget k (entries s) = Some e -> entry_ok (composition s) k e;
}.

Lemma leases_sum s : lsum snd (leases (entries s)) = 8192 * count s.
Proof.
  unfold count, leases, jvalues. induction (entries s) as [|[k e] l IH]; [done |].
  cbn [fmap list_fmap]. rewrite lsum_cons, zlen_cons. cbn in *. lia.
Qed.

Lemma notify_fields e removed s :
  let s' := notify throws e removed s in
  composition s' = composition s /\ maxRuns s' = maxRuns s /\ entries s' = entries s
  /\ businessObserver s' = businessObserver s /\ bytes s' = bytes s.
Proof. unfold notify. by case_if. Qed.

Lemma notify_ok foreign e removed s : ok foreign s -> ok foreign (notify throws e removed s).
Proof.
  intros [H1 H2 H3 H4 H5]. destruct (notify_fields e removed s) as (E1 & E2 & E3 & _ & E5).
  constructor; rewrite ?E1, ?E2, ?E3, ?E5; done.
Qed.

Lemma find_Some r w s e : find r w s = Some e ->
  jget (run_runId r) (entries s) = Some e /\ run e = r /\ worker e = w.
Proof.
  unfold find. destruct (jget _ _) as [e'|]; [| done]. case_if; [| done]. intros [= ->]. bool_hyps.
  by autorewrite with coveref in *.
Qed.

(** Replacing an entry by one with the same identity and lease. *)

Lemma update_ok foreign k e e' s : ok foreign s -> jget k (entries s) = Some e -> lease e' = lease e ->
  entry_ok (composition s) k e' -> ok foreign (set_entries (jset k e' (entries s)) s).
Proof.
  intros [H1 H2 H3 H4 H5] He Hl Hok. constructor; cbn [entries bytes maxRuns composition set_entries set_bytes].
  - unfold leases. rewrite (jvalues_map (fun e => (lease e, 8192)) k e) by (rewrite ?Hl; done). done.
  - by apply jwf_set.
  - rewrite jset_size_old; [done | by eexists].
  - done.
  - intros k' x. rewrite jget_set. case_decide; [intros [= <-]; by subst | apply H5].
Qed.

Lemma put_ok foreign r w e e' s : ok foreign s -> find r w s = Some e -> run e' = run e -> worker e' = worker e ->
  lease e' = lease e -> rs_run (status e') = run e -> RunStatusSchema (status e') = true -> ok foreign (put e' s).
Proof.
  intros Ho (He & <- & <-)%find_Some Hr Hw Hl Hs Hsch. unfold put. rewrite Hr.
  apply (update_ok foreign _ e); [done | done | done |].
  destruct (r_entries _ _ Ho _ _ He) as [_ _ [H1 H2] _]. constructor; rewrite ?Hr, ?Hw; auto.
Qed.

Lemma registry_reserve_ok foreign r w g s : ok foreign s -> ok foreign (reserve throws r w g s).2.
Proof.
  intros Ho. unfold reserve. destruct (negb (ownsRun _ r) || _ || _ || _) eqn:Eg; [done |].
  set (st := mkRunStatus _ _ _ _ _ _ _ _ _ _ _). destruct (RunStatusSchema st) eqn:Est; [| done]. cbn [negb].
  destruct (la_reserve 8192 (bytes s)) as [[l b]|] eqn:El; [| done]. cbn [snd]. apply notify_ok.
  bool_hyps. destruct Ho as [H1' H2' H3' H4' H5'].
  assert (Hnew : jget (run_runId r) (entries s) = None)
    by (unfold jhas in *; destruct (jget _ (entries s)); done).
  constructor; cbn [entries bytes maxRuns composition set_entries set_bytes].
  - unfold leases. rewrite jkeys_set_new by done. unfold jvalues. rewrite !fmap_app. cbn.
    rewrite <- Permutation_cons_append. by apply (ledger_reserve _ (bytes s)).
  - by apply jwf_set.
  - rewrite jset_size_new by done. lia.
  - done.
  - intros k x. rewrite jget_set. case_decide; [| apply H5']. intros [= <-]. by constructor.
Qed.

Lemma observe_ok foreign w st s : ok foreign s -> ok foreign (observe throws w st s).2.
Proof.
  intros Ho. unfold observe. destruct (RunStatusSchema st) eqn:Est; [| done]. cbn [negb].
  destruct (find (rs_run st) w s) as [e|] eqn:Ef; [| done]. do 2 (case_if; [done |]). cbn [snd].
  apply notify_ok. pose proof (find_Some _ _ _ _ Ef) as (_ & Hr & _). by eapply put_ok.
Qed.

Lemma set_life_schema st life rec code sig : RunStatusSchema st = true -> optional_ok isSafeInteger code = true ->
  optional_ok (fun x => slen x <=? 64) sig = true -> RunStatusSchema (set_life st life rec code sig) = true.
Proof.
  intros Hs Hc Hg. unfold RunStatusSchema in *.
  apply andb_true_iff in Hs as [Hs _]. apply andb_true_iff in Hs as [Hs _].
  apply andb_true_iff. split; [apply andb_true_iff; split; [exact Hs | exact Hc] | exact Hg].
Qed.

Lemma schema_exit st : RunStatusSchema st = true ->
  optional_ok isSafeInteger (rs_exitCode st) = true /\ optional_ok (fun x => slen x <=? 64) (rs_signal st) = true.
Proof. unfold RunStatusSchema. intros [[_ H1]%andb_true_iff H2]%andb_true_iff. done. Qed.

Lemma observeExit_ok foreign w r code sig s : ok foreign s -> ok foreign (observeExit throws w r code sig s).2.
Proof.
  intros Ho. unfold observeExit. destruct (find r w s) as [e|] eqn:Ef; [| done]. case_if; [done |].
  destruct (RunStatusSchema (set_life _ _ _ _ _)) eqn:Esch; [| done]. cbn [negb snd]. apply notify_ok.
  pose proof (find_Some _ _ _ _ Ef) as (He & _ & _).
  eapply put_ok; [done | exact Ef | done.. | | exact Esch]. exact (e_run _ _ _ (r_entries _ _ Ho _ _ He)).
Qed.

Lemma lose_contact_ok foreign w id s : ok foreign s -> ok foreign (lose_contact throws w id s).
Proof.
  intros Ho. unfold lose_contact. destruct (jget id (entries s)) as [e|] eqn:He; [| done]. case_if; [| done].
  apply notify_ok. destruct (r_entries _ _ Ho _ _ He) as [H1 H2 H3 H4]. apply (update_ok foreign id e); [done.. |].
  destruct (schema_exit _ H4). constructor; [done | done | done |]. by apply set_life_schema.
Qed.

Lemma contactLost_ok foreign w s : ok foreign s -> ok foreign (contactLost throws w s).
Proof.
  unfold contactLost. generalize (jkeys (entries s)) as ids. intros ids. revert s.
  induction ids as [|id ids IH]; intros s Ho; [done |]. cbn. by apply IH, lose_contact_ok.
Qed.

Lemma remove_entry_ok foreign r w e s : ok foreign s -> find r w s = Some e -> ok foreign (remove_entry throws e s).
Proof.
  intros [H1 H2 H3 H4 H5] (He & <- & <-)%find_Some. unfold remove_entry.
  match goal with |- context [notify throws e true ?x] => destruct (notify_fields e true x) as (E1 & E2 & E3 & _ & E5) end.
  cbn in E1, E2, E3, E5. constructor; cbn [entries bytes maxRuns composition set_entries set_bytes]; rewrite ?E1, ?E2, ?E3, ?E5.
  - apply (ledger_release _ _ _ (lease e) 8192). unfold leases in *.
    change ((lease e, 8192) :: ?l) with ((fun e => (lease e, 8192)) e :: l).
    rewrite <- fmap_cons, <- (jvalues_delete_perm _ e) by done. done.
  - by apply jwf_delete.
  - pose proof (jdelete_size (run_runId (run e)) (entries s)). lia.
  - done.
  - intros k x. rewrite jget_delete by done. case_decide; [done | apply H5].
Qed.

Lemma markDispatched_ok foreign r w s : ok foreign s -> ok foreign (markDispatched r w s).2.
Proof.
  intros Ho. unfold markDispatched. destruct (find r w s) as [e|] eqn:Ef; [| done]. cbn [snd].
  pose proof (find_Some _ _ _ _ Ef) as (He & _ & _). destruct (r_entries _ _ Ho _ _ He).
  by eapply put_ok.
Qed.

Lemma releaseCapacity_ok foreign r w s : ok foreign s -> ok foreign (releaseCapacity r w s).2.
Proof.
  intros Ho. unfold releaseCapacity. destruct (find r w s) as [e|] eqn:Ef; [| done]. case_if; [done |]. cbn [snd].
  pose proof (find_Some _ _ _ _ Ef) as (He & _ & _). destruct (r_entries _ _ Ho _ _ He).
  by eapply put_ok.
Qed.

Lemma cancelReservation_ok foreign r w s : ok foreign s -> ok foreign (cancelReservation throws r w s).2.
Proof.
  intros Ho. unfold cancelReservation. destruct (find r w s) as [e|] eqn:Ef; [| done].
  case_if; [done | by eapply remove_entry_ok].
Qed.

Lemma retireRefusedSpawn_ok foreign r w s : ok foreign s -> ok foreign (retireRefusedSpawn throws r w s).2.
Proof.
  intros Ho. unfold retireRefusedSpawn. destruct (find r w s) as [e|] eqn:Ef; [| done].
  case_if; [done | by eapply remove_entry_ok].
Qed.

Lemma dispose_ok foreign s : ok foreign s -> ok foreign (dispose s).
Proof.
  intros [H1 H2 H3 H4 H5]. constructor; cbn; try done; [| by constructor | unfold zlen; cbn; lia].
  pose proof (ledger_release_all _ _ _ H1) as Hl. unfold leases in Hl. rewrite <- list_fmap_compose in Hl. exact Hl.
Qed.

(** One operation on runs; [s_env] is another owner of the byte account. *)

Inductive run_step : Z * RunRegistry S -> Z * RunRegistry S -> Prop :=
  | s_reserve f r w g s : run_step (f, s) (f, (reserve throws r w g s).2)
  | s_observe f w st s : run_step (f, s) (f, (observe throws w st s).2)
  | s_observeExit f w r code sig s : run_step (f, s) (f, (observeExit throws w r code sig s).2)
  | s_contactLost f w s : run_step (f, s) (f, contactLost throws w s)
  | s_markDispatched f r w s : run_step (f, s) (f, (markDispatched r w s).2)
  | s_cancel f r w s : run_step (f, s) (f, (cancelReservation throws r w s).2)
  | s_retire f r w s : run_step (f, s) (f, (retireRefusedSpawn throws r w s).2)
  | s_releaseCapacity f r w s : run_step (f, s) (f, (releaseCapacity r w s).2)
  | s_env f s b : la_ok b ->
      (forall l n, (l, n) ∈ leases (entries s) -> la_charge b l = la_charge (bytes s) l) ->
      run_step (f, s) (f + (la_used b - la_used (bytes s)), set_bytes b s).

(** Any operation: an observer may also be attached or detached on the way, and
    the runtime's disposal drops every entry, unannounced. *)

Inductive step : Z * RunRegistry S -> Z * RunRegistry S -> Prop :=
  | s_run x y : run_step x y -> step x y
  | s_observer f o s s' : observeBusiness o s = inr s' -> step (f, s) (f, s')
  | s_dispose f s : step (f, s) (f, dispose s).

Lemma registry_step_ok x y : ok x.1 x.2 -> step x y -> ok y.1 y.2.
Proof.
  intros Ho Hst. revert Ho. destruct Hst as [x y Hst|f o s s' E|f s]; [| |apply dispose_ok].
  2:{ unfold observeBusiness in E. case_if; [done|]. injection E as <-. by intros []. }
  destruct Hst; cbn [fst snd]; eauto using registry_reserve_ok, observe_ok, observeExit_ok,
    contactLost_ok, markDispatched_ok, cancelReservation_ok, retireRefusedSpawn_ok, releaseCapacity_ok.
  intros [R1 R2 R3 R4 R5]. constructor; try done. by apply ledger_interfere.
Qed.

Definition reachable (c : RuntimeComposition) (max : Z) (b : S) (observer : bool) (x : Z * RunRegistry S) : Prop :=
  exists s0 s1, newRunRegistry c max b = inr s0 /\ observeBusiness observer s0 = inr s1
    /\ rtc step (la_used b, s1) x.

(** As far as the runtime has not disposed of the registry nor changed its
    observer. *)

Definition undisposed (c : RuntimeComposition) (max : Z) (b : S) (observer : bool) (x : Z * RunRegistry S) : Prop :=
  exists s0 s1, newRunRegistry c max b = inr s0 /\ observeBusiness observer s0 = inr s1
    /\ rtc run_step (la_used b, s1) x.

Lemma undisposed_reachable c max b o x : undisposed c max b o x -> reachable c max b o x.
Proof.
  intros (s0 & s1 & E0 & E1 & Hr). exists s0, s1. split_and!; [done..|]. clear -Hr.
  induction Hr; [constructor|]. eapply rtc_l; [by apply s_run|done].
Qed.

Lemma registry_reachable_ok c max b o x : la_ok b -> reachable c max b o x -> ok x.1 x.2.
Proof.
  intros Hb (s0 & s1 & E0 & E1 & Hr).
  apply (rtc_invariant step (fun x => ok x.1 x.2) (la_used b, s1) x); [| exact registry_step_ok | done].
  unfold newRunRegistry in E0. case_if; [done |]. injection E0 as <-. unfold observeBusiness in E1.
  cbn in E1. rewrite andb_false_r in E1. injection E1 as <-. bool_hyps.
  constructor; cbn; try done; [by apply ledger_nil | by constructor | unfold zlen; cbn; lia | lia].
Qed.

(** ** The observer's view

    A client that applies the notices it receives rebuilds the registry. *)

Definition Fact : Type := RunRef * WorkerRef * RunStatus.

Definition fact_of (e : Entry) : Fact := (run e, worker e, status e).

Definition apply_notice (m : jsmap string Fact) (n : Notice) : jsmap string Fact :=
  match n with
  | changed r w (Some st) => jset (run_runId r) (r, w, st) m
  | changed r w None => jdelete (run_runId r) m
  | uncertain => m
  end.

Definition mirror (ns : list Notice) : jsmap string Fact := foldl apply_notice [] ns.

Definition mirrors s : Prop :=
  jwf (mirror (notices s)) /\ forall k, jget k (mirror (notices s)) = fact_of <$> jget k (entries s).

Lemma mirror_notify e removed s : businessObserver s = true ->
  mirror (notices (notify throws e removed s))
  = apply_notice (mirror (notices s)) (changed (run e) (worker e) (if removed then None else Some (status e))).
Proof.
  intros Hob. unfold notify, mirror. rewrite Hob. cbn [notices]. rewrite foldl_app. cbn [foldl]. by destruct (throws _).
Qed.

(** Reporting the entry just stored keeps the mirror; so does its removal. *)

Lemma mirrors_put e s : businessObserver s = true -> mirrors s ->
  mirrors (notify throws e false (set_entries (jset (run_runId (run e)) e (entries s)) s)).
Proof.
  intros Hob [Hwf Hm]. unfold mirrors. rewrite mirror_notify by done. cbn [apply_notice].
  change (notices (set_entries _ s)) with (notices s). split; [by apply jwf_set |]. intros k.
  destruct (notify_fields e false (set_entries (jset (run_runId (run e)) e (entries s)) s)) as (_ & _ & E3 & _).
  rewrite E3. cbn [entries set_entries]. rewrite !jget_set, Hm. by case_decide.
Qed.

Lemma mirrors_remove foreign e s : businessObserver s = true -> ok foreign s -> mirrors s ->
  mirrors (remove_entry throws e s).
Proof.
  intros Hob Ho [Hwf Hm]. unfold mirrors, remove_entry. cbn [notices set_bytes entries].
  rewrite mirror_notify by done. cbn [apply_notice]. change (notices (set_entries _ s)) with (notices s).
  split; [by apply jwf_delete |]. intros k.
  match goal with |- context [notify throws e true ?x] => destruct (notify_fields e true x) as (_ & _ & E3 & _) end.
  rewrite E3. cbn [entries set_entries]. rewrite !jget_delete, Hm by (done || apply Ho). by case_decide.
Qed.

(** Changes the observer is not told about do not change the facts. *)

Lemma mirrors_silent k e e' s : jget k (entries s) = Some e -> fact_of e' = fact_of e -> mirrors s ->
  mirrors (set_entries (jset k e' (entries s)) s).
Proof.
  intros He Hf [Hwf Hm]. split; [done |]. intros k'. cbn. rewrite jget_set, Hm.
  case_decide; [subst | done]. rewrite He. cbn. by rewrite Hf.
Qed.

Lemma lose_contact_mirrors foreign w id s : ok foreign s -> businessObserver s = true -> mirrors s ->
  businessObserver (lose_contact throws w id s) = true /\ mirrors (lose_contact throws w id s).
Proof.
  intros Ho Hob Hm. unfold lose_contact. destruct (jget id (entries s)) as [e|] eqn:He; [| done]. case_if; [| done].
  match goal with |- context [notify throws ?x false ?y] => destruct (notify_fields x false y) as (_ & _ & _ & -> & _) end.
  split; [done |]. rewrite (e_key _ _ _ (r_entries _ _ Ho _ _ He)).
  by apply (mirrors_put (with_status e _)).
Qed.

Lemma contactLost_mirrors foreign w s : ok foreign s -> businessObserver s = true -> mirrors s ->
  businessObserver (contactLost throws w s) = true /\ mirrors (contactLost throws w s).
Proof.
  unfold contactLost. generalize (jkeys (entries s)) as ids. intros ids. revert s.
  induction ids as [|id ids IH]; intros s Ho Hob Hm; [done |]. cbn.
  destruct (lose_contact_mirrors foreign w id s Ho Hob Hm). apply IH; [by apply lose_contact_ok | done..].
Qed.

Lemma put_mirrors e s : businessObserver s = true -> mirrors s ->
  businessObserver (notify throws e false (put e s)) = true /\ mirrors (notify throws e false (put e s)).
Proof.
  intros Hob Hm. destruct (notify_fields e false (put e s)) as (_ & _ & _ & -> & _). split; [done |].
  by apply mirrors_put.
Qed.

Lemma put_silent foreign e e' s : ok foreign s -> jget (run_runId (run e)) (entries s) = Some e ->
  fact_of e' = fact_of e -> mirrors s -> mirrors (put e' s).
Proof.
  intros Ho He Hf Hm. unfold put. assert (run e' = run e) as -> by (unfold fact_of in Hf; congruence).
  by apply (mirrors_silent _ e).
Qed.

Lemma remove_mirrors foreign r w e s : ok foreign s -> businessObserver s = true -> mirrors s ->
  find r w s = Some e ->
  businessObserver (remove_entry throws e s) = true /\ mirrors (remove_entry throws e s).
Proof.
  intros Ho Hob Hm _. split; [| by eapply mirrors_remove]. unfold remove_entry. cbn [businessObserver set_bytes].
  match goal with |- context [notify throws e true ?x] => destruct (notify_fields e true x) as (_ & _ & _ & -> & _) end.
  done.
Qed.

Lemma step_mirrors x y : ok x.1 x.2 -> businessObserver x.2 = true -> mirrors x.2 -> run_step x y ->
  businessObserver y.2 = true /\ mirrors y.2.
Proof.
  intros Ho Hob Hm Hst. revert Ho Hob Hm. destruct Hst; cbn [fst snd]; intros Ho Hob Hm.
  - unfold reserve. case_if; [done |]. case_if; [done |]. destruct (la_reserve 8192 (bytes s)) as [[l b]|]; [| done].
    cbn [snd]. match goal with |- context [notify throws ?e false ?x] => destruct (notify_fields e false x) as (_ & _ & _ & -> & _) end.
    split; [done |]. by apply (mirrors_put (mkEntry r w _ true false l) (set_bytes b s)).
  - unfold observe. case_if; [done |]. destruct (find _ w s) as [e|]; [| done]. do 2 (case_if; [done |]).
    by apply put_mirrors.
  - unfold observeExit. destruct (find r w s) as [e|]; [| done]. do 2 (case_if; [done |]). by apply put_mirrors.
  - by eapply contactLost_mirrors.
  - unfold markDispatched. destruct (find r w s) as [e|] eqn:Ef; [| done].
    apply find_Some in Ef as (He & <- & _). split; [done |]. by eapply (put_silent _ e).
  - unfold cancelReservation. destruct (find r w s) as [e|] eqn:Ef; [| done]. case_if; [done |].
    by eapply remove_mirrors.
  - unfold retireRefusedSpawn. destruct (find r w s) as [e|] eqn:Ef; [| done]. case_if; [done |].
    by eapply remove_mirrors.
  - unfold releaseCapacity. destruct (find r w s) as [e|] eqn:Ef; [| done]. case_if; [done |].
    apply find_Some in Ef as (He & <- & _). split; [done |]. by eapply (put_silent _ e).
  - done.
Qed.

(** ** How an entry may change *)

Record entry_later (e e' : Entry) : Prop := mk_later {
  l_identity : run e' = run e /\ worker e' = worker e /\ lease e' = lease e;
  l_exited : is_exited (status e) = true -> is_exited (status e') = true
    /\ default (-1) (rs_parsedSeq (status e)) <= default (-1) (rs_parsedSeq (status e'));
  l_dispatched : dispatched e = true -> dispatched e' = true;
  l_capacity : capacityOwned e' = true -> capacityOwned e = true;
}.

#[global] Instance entry_later_preorder : PreOrder entry_later.
Proof.
  split; [by intros e; constructor; repeat split; intros; auto; lia |].
  intros a b c [(A1 & A2 & A3) A4 A5 A6] [(B1 & B2 & B3) B4 B5 B6]. constructor; [split_and!; congruence | | auto..].
  intros [Hb Hab]%A4. destruct (B4 Hb) as [Hc Hbc]. split; [done | lia].
Qed.

(** The only ways an entry disappears. *)

Definition removable (e : Entry) : Prop := dispatched e = false \/ rs_status (status e) = unverifiable.

Definition evolves (es es' : jsmap string Entry) : Prop :=
  forall k e, jget k es = Some e ->
    match jget k es' with Some e' => entry_later e e' | None => removable e end.

Lemma evolves_refl es : evolves es es.
Proof. intros k e He. rewrite He. reflexivity. Qed.

Lemma evolves_set k e e' es : jget k es = Some e -> entry_later e e' -> evolves es (jset k e' es).
Proof.
  intros He Hl k' x Hx. rewrite jget_set. case_decide as Hk; [subst; congruence |]. rewrite Hx. reflexivity.
Qed.

Lemma evolves_delete k e es : jwf es -> jget k es = Some e -> removable e -> evolves es (jdelete k es).
Proof.
  intros Hwf He Hr k' x Hx. rewrite jget_delete by done. case_decide as Hk; [subst; congruence |].
  rewrite Hx. reflexivity.
Qed.

Lemma evolves_new k e es : jget k es = None -> evolves es (jset k e es).
Proof.
  intros He k' x Hx. rewrite jget_set. case_decide as Hk; [subst; congruence |]. rewrite Hx. reflexivity.
Qed.

Lemma put_evolves r w e e' s : find r w s = Some e -> entry_later e e' -> evolves (entries s) (entries (put e' s)).
Proof.
  intros (He & <- & _)%find_Some Hl. pose proof (l_identity _ _ Hl) as (Hr & _). unfold put. rewrite Hr.
  by apply (evolves_set _ e).
Qed.

Lemma notify_entries e removed s : entries (notify throws e removed s) = entries s.
Proof. apply notify_fields. Qed.

Lemma remove_evolves foreign r w e s : ok foreign s -> find r w s = Some e -> removable e ->
  evolves (entries s) (entries (remove_entry throws e s)).
Proof.
  intros Ho (He & <- & _)%find_Some Hr. unfold remove_entry. cbn [entries set_bytes]. rewrite notify_entries.
  apply (evolves_delete _ e); [apply Ho | done..].
Qed.

Lemma contactLost_evolves w s : forall k e, jget k (entries s) = Some e ->
  exists e', jget k (entries (contactLost throws w s)) = Some e' /\ entry_later e e'.
Proof.
  unfold contactLost. generalize (jkeys (entries s)) as ids. intros ids. revert s.
  induction ids as [|id ids IH]; intros s k e He; cbn; [by exists e |].
  assert (H1 : exists e', jget k (entries (lose_contact throws w id s)) = Some e' /\ entry_later e e').
  { unfold lose_contact. destruct (jget id (entries s)) as [x|] eqn:Hx; [| by exists e]. case_if; [| by exists e].
    rewrite notify_entries. cbn [entries set_entries]. rewrite jget_set. case_decide as Hk; [| by exists e].
    subst id. rewrite He in Hx. injection Hx as <-. eexists. split; [done |]. bool_hyps.
    constructor; cbn; [done | congruence | done | done]. }
  destruct H1 as (e1 & H1 & Hl1). destruct (IH _ k e1 H1) as (e2 & H2 & Hl2). exists e2. split; [done | by etrans].
Qed.

Lemma step_evolves x y : ok x.1 x.2 -> run_step x y -> evolves (entries x.2) (entries y.2).
Proof.
  intros Ho Hst. revert Ho. destruct Hst; cbn [fst snd]; intros Ho; [| | | | | | | |apply evolves_refl].
  - unfold reserve. destruct (negb (ownsRun _ r) || _ || _ || _) eqn:Eg; [apply evolves_refl |].
    case_if; [apply evolves_refl |]. destruct (la_reserve 8192 (bytes s)) as [[l b]|]; [| apply evolves_refl].
    cbn [snd]. rewrite notify_entries. apply evolves_new. bool_hyps. unfold jhas in *.
    by destruct (jget _ (entries s)).
  - unfold observe. case_if; [apply evolves_refl |]. destruct (find _ w s) as [e|] eqn:Ef; [| apply evolves_refl].
    destruct (is_exited (status e)) eqn:Ex; cbn [andb]; [case_if; [apply evolves_refl |];
      case_if; [apply evolves_refl |] |]; cbn [snd]; rewrite notify_entries; eapply put_evolves; try done;
      constructor; cbn; try done; try congruence. intros _. split; [by bool_hyps | lia].
  - unfold observeExit. destruct (find r w s) as [e|] eqn:Ef; [| apply evolves_refl].
    destruct (is_exited (status e)) eqn:Ex; [apply evolves_refl |]. case_if; [apply evolves_refl |].
    cbn [snd]. rewrite notify_entries. eapply put_evolves; [done |]. constructor; cbn; congruence || done.
  - intros k e He. destruct (contactLost_evolves w s k e He) as (e' & -> & Hl). done.
  - unfold markDispatched. destruct (find r w s) as [e|] eqn:Ef; [| apply evolves_refl].
    eapply put_evolves; [done |]. by constructor.
  - unfold cancelReservation. destruct (find r w s) as [e|] eqn:Ef; [| apply evolves_refl].
    destruct (dispatched e) eqn:Ed; [apply evolves_refl |]. eapply remove_evolves; [done.. | by left].
  - unfold retireRefusedSpawn. destruct (find r w s) as [e|] eqn:Ef; [| apply evolves_refl].
    case_if; [apply evolves_refl |]. bool_hyps. eapply remove_evolves; [done.. | by right].
  - unfold releaseCapacity. destruct (find r w s) as [e|] eqn:Ef; [| apply evolves_refl].
    case_if; [apply evolves_refl |]. eapply put_evolves; [done |]. bool_hyps. by constructor.
Qed.

End invariant.

(** ** Properties *)

Section properties.
Context {S : Type} `{LeaseAccount S}.

(** The registry never exceeds its run limit nor the validated budget, holds
    exactly one lease of 8192 bytes per entry, and every entry is keyed by its
    run, belongs to this instance, and carries a status of that run that
    satisfies the wire schema. *)
Theorem registry_bounded (throws : Notice -> bool) (c : RuntimeComposition) (max : Z) (b : S) (o : bool)
    (f : Z) (s : RunRegistry S) :
  la_ok b -> reachable throws c max b o (f, s) ->
  count s <= maxRuns s <= Protocol.maxRuns (comp_budgets (composition s))
  /\ la_used (bytes s) = f + 8192 * count s
  /\ (forall k e, jget k (entries s) = Some e ->
        k = run_runId (run e) /\ rs_run (status e) = run e /\ ownsRun (composition s) (run e) = true
        /\ ownsWorker (composition s) (worker e) = true /\ RunStatusSchema (status e) = true
        /\ la_charge (bytes s) (lease e) = Some 8192).
Proof.
  intros Hb Hr. destruct (registry_reachable_ok throws _ _ _ _ _ Hb Hr) as [H1 H2 H3 H4 H5]. cbn [fst snd] in *.
  split_and!; [done | lia | |].
  - by rewrite (ledger_used _ _ _ H1), leases_sum.
  - intros k e He. destruct (H5 k e He) as [G1 G2 [G3 G4] G5]. split_and!; try done.
    apply (ledger_live _ _ _ H1). unfold leases. apply list_elem_of_fmap. exists e. split; [done |].
    apply list_elem_of_fmap. exists (k, e). split; [done |]. by apply jget_elem.
Qed.

(** An observer attached from the start that applies the notices it was
    sent, in order, holds exactly the registry's facts, whatever it throws,
    until the registry is disposed of. *)
Theorem registry_observer_mirror (throws : Notice -> bool) (c : RuntimeComposition) (max : Z) (b : S)
    (f : Z) (s : RunRegistry S) :
  la_ok b -> undisposed throws c max b true (f, s) ->
  forall k, jget k (mirror (notices s)) = fact_of <$> jget k (entries s).
Proof.
  intros Hb Hr. pose proof (registry_reachable_ok (S := S) throws) as Hok. destruct Hr as (s0 & s1 & E0 & E1 & Hr).
  assert (Hinv : ok (f, s).1 (f, s).2 /\ businessObserver (f, s).2 = true /\ mirrors (f, s).2); [| apply Hinv].
  apply (rtc_invariant (run_step throws) (fun x => ok x.1 x.2 /\ businessObserver x.2 = true /\ mirrors x.2)
    (la_used b, s1) (f, s)); [| | done].
  - split; [apply (Hok c max b true (la_used b, s1) Hb); exists s0, s1; split_and!; [done | done | constructor] |].
    unfold newRunRegistry in E0. case_if; [done |]. injection E0 as <-. injection E1 as <-.
    split; [done |]. split; [by constructor | done].
  - intros x y (Ho & Hob & Hm) Hst. split; [eapply registry_step_ok; [done | by apply s_run] |]. by eapply step_mirrors.
Qed.

(** C36: in one step, of any operation, an entry keeps its run, worker and lease;
    an exited run stays exited and its parsed sequence never goes back; dispatch
    and the release of capacity are irrevocable; and an entry disappears only if
    it was not dispatched, if its last status is unverifiable, or if the step is
    the disposal of the registry, which releases the lease of every entry. *)
Theorem registry_lifecycle (throws : Notice -> bool) (c : RuntimeComposition) (max : Z) (b : S) (o : bool)
    (f f' : Z) (s s' : RunRegistry S) :
  la_ok b -> reachable throws c max b o (f, s) -> step throws (f, s) (f', s') ->
  forall k e, jget k (entries s) = Some e ->
  match jget k (entries s') with
  | Some e' => entry_later e e'
  | None => dispatched e = false \/ rs_status (status e) = unverifiable
            \/ s' = dispose s /\ la_used (bytes s') = la_used (bytes s) - 8192 * count s
  end.
Proof.
  intros Hb Hr Hst k e He. pose proof (registry_reachable_ok throws c max b o (f, s) Hb Hr) as Hok.
  inversion Hst as [x y Hrun|f0 o0 s0 s1 Hob|f0 s0]; subst.
  - pose proof (step_evolves throws (f, s) (f', s') Hok Hrun k e He) as Hev. cbn [fst snd] in Hev.
    destruct (jget k (entries s')); [done|]. destruct Hev as [?|?]; auto.
  - unfold observeBusiness in Hob. case_if; [done|]. injection Hob as <-. cbn [entries]. by rewrite He.
  - cbn [entries dispose set_entries jget]. right. right. split; [done|].
    pose proof (ledger_used _ _ _ (r_ledger _ _ Hok)) as H1.
    pose proof (ledger_used _ _ _ (r_ledger _ _ (dispose_ok _ _ Hok))) as H2. cbn [fst snd] in *.
    rewrite leases_sum in H1. unfold leases in H2. cbn in H2. rewrite lsum_nil in H2. cbn [dispose set_entries set_bytes bytes]. lia.
Qed.

End properties.

(** A composition, a run reserved on a worker, dispatched and reported live. *)

#[local] Instance demo_account : LeaseAccount RuntimeRetainedBytes.t := RuntimeRetainedBytes.account false.

Lemma registry_demo_ok : la_ok RuntimeRetainedBytes.demo_runtime.
Proof. exact RuntimeRetainedBytes.demo_runtime_ok. Qed.

Definition no_throw (n : Notice) : bool := false.

Definition demo_composition : RuntimeComposition := mkComposition "server" "relay" M0_LIMITS.

Definition demo_run : RunRef := mkRun "server" "relay" "run".

Definition demo_worker : WorkerRef := mkWorker "server" "relay" "worker" "boot".

Definition demo_registry : RunRegistry RuntimeRetainedBytes.t :=
  mkRegistry demo_composition 4 [] true [] RuntimeRetainedBytes.demo_runtime.

Definition demo_live : RunStatus :=
  mkRunStatus demo_run live (mkGeometry 80 24) 0 None (Some 3) (Some 3) ready None None None.

Definition demo_reserved : RunRegistry RuntimeRetainedBytes.t :=
  (markDispatched demo_run demo_worker
    (reserve no_throw demo_run demo_worker (mkGeometry 80 24) demo_registry).2).2.

Definition demo_lost : RunRegistry RuntimeRetainedBytes.t :=
  contactLost no_throw demo_worker (observe no_throw demo_worker demo_live demo_reserved).2.

Lemma demo_reserved_undisposed :
  undisposed no_throw demo_composition 4 RuntimeRetainedBytes.demo_runtime true (0, demo_reserved).
Proof.
  exists (mkRegistry demo_composition 4 [] false [] RuntimeRetainedBytes.demo_runtime), demo_registry.
  split; [reflexivity |]. split; [reflexivity |].
  eapply rtc_l; [apply s_reserve |]. apply rtc_once, s_markDispatched.
Qed.

Lemma demo_lost_undisposed :
  undisposed no_throw demo_composition 4 RuntimeRetainedBytes.demo_runtime true (0, demo_lost).
Proof.
  destruct demo_reserved_undisposed as (s0 & s1 & E0 & E1 & Hr). exists s0, s1. split; [exact E0 |].
  split; [exact E1 |]. eapply rtc_r; [eapply rtc_r; [exact Hr | apply s_observe] | apply s_contactLost].
Qed.

(** A dispatched run that was reported live and then lost contact has an
    unverifiable status again, so a refusal that arrives afterwards drops it. *)

Lemma lost_live_run_is_dropped :
  (observe no_throw demo_worker demo_live demo_reserved).1 = true
  /\ (retireRefusedSpawn no_throw demo_run demo_worker demo_lost).1 = true
  /\ count (retireRefusedSpawn no_throw demo_run demo_worker demo_lost).2 = 0.
Proof. vm_compute. auto. Qed.

Lemma registry_bounded_witness :
  count demo_reserved = 1 /\ la_used (bytes demo_reserved) = 0 + 8192 * count demo_reserved.
Proof.
  split; [vm_compute; reflexivity |].
  destruct (registry_bounded no_throw demo_composition 4 RuntimeRetainedBytes.demo_runtime true 0 demo_reserved
    registry_demo_ok (undisposed_reachable _ _ _ _ _ _ demo_reserved_undisposed)) as (_ & Hu & _). exact Hu.
Defined.

Lemma registry_observer_mirror_witness :
  length (notices demo_lost) = 3%nat
  /\ forall k, jget k (mirror (notices demo_lost)) = fact_of <$> jget k (entries demo_lost).
Proof.
  split; [vm_compute; reflexivity |].
  exact (registry_observer_mirror no_throw demo_composition 4 RuntimeRetainedBytes.demo_runtime 0 demo_lost
    registry_demo_ok demo_lost_undisposed).
Defined.

Lemma registry_lifecycle_witness :
  exists e, jget "run" (entries demo_lost) = Some e
  /\ match jget "run" (entries (releaseCapacity demo_run demo_worker demo_lost).2) with
     | Some e' => entry_later e e'
     | None => dispatched e = false \/ rs_status (status e) = unverifiable
               \/ (releaseCapacity demo_run demo_worker demo_lost).2 = dispose demo_lost
                   /\ la_used (bytes (releaseCapacity demo_run demo_worker demo_lost).2)
                      = la_used (bytes demo_lost) - 8192 * count demo_lost
     end.
Proof.
  destruct (jget "run" (entries demo_lost)) as [e|] eqn:E; [| vm_compute in E; discriminate].
  exists e. split; [reflexivity |].
  exact (registry_lifecycle no_throw demo_composition 4 RuntimeRetainedBytes.demo_runtime true 0 0 demo_lost
    (releaseCapacity demo_run demo_worker demo_lost).2 registry_demo_ok
    (undisposed_reachable _ _ _ _ _ _ demo_lost_undisposed)
    (s_run _ _ _ (s_releaseCapacity _ _ _ _ _)) "run" e E).
Defined.

(** The disposal of a registry with a live run is the exception. *)

Lemma dispose_drops_live_runs :
  count (observe no_throw demo_worker demo_live demo_reserved).2 = 1
  /\ list_runs (observe no_throw demo_worker demo_live demo_reserved).2 = [demo_live]
  /\ count (dispose (observe no_throw demo_worker demo_live demo_reserved).2) = 0.
Proof. vm_compute. auto. Qed.
