(* ===== verification/WorkerPool.v ===== *)
(** * The worker pool (apps/server/src/terminal/worker-pool.ts)

    Places each run on the least loaded ready worker.  A session is an object of
    another component: the pool reads the worker it serves, whether it belongs
    to the same composition, and whether it is ready at the time of a call,
    which is the argument [ready]. *)

From S2P Require Import Prelude Json Protocol JsMap LeaseAccount Retained Composition.

Record Session := mkSession { session_id : nat; session_worker : WorkerRef; session_same_composition : bool }.

Record Placement := mkPlacement { p_worker : WorkerRef; p_session : Session; p_run : RunRef }.

Record WorkerEntry := mkWorkerEntry {
  worker : WorkerRef;
  session : Session;
  runs : list string;
  lease : nat;
}.

Record WorkerPool (S : Type) := mkPool {
  composition : RuntimeComposition;
  maxWorkers : Z;
  runsPerWorker : Z;
  workers : list WorkerEntry;
  placements : jsmap string Placement;
  bytes : S;
}.

Arguments mkPool {S} _ _ _ _ _ _.
Arguments composition {S} _.
Arguments maxWorkers {S} _.
Arguments runsPerWorker {S} _.
Arguments workers {S} _.
Arguments placements {S} _.
Arguments bytes {S} _.

Definition SESSION_CONTROL_RESERVE : Z := 6 * (6 * MAX_METADATA_BYTES + 2048) + 64 * 1024.

Inductive PoolError := invalid_pool_limits.

Definition maxRuns_of (c : RuntimeComposition) : Z := maxRuns (comp_budgets c).

Section operations.
Context {S : Type} `{LeaseAccount S}.
Implicit Types s : WorkerPool S.

Definition newWorkerPool (c : RuntimeComposition) (controlReserve mw rpw : Z) (b : S) : PoolError + WorkerPool S :=
  if (controlReserve <? mw * SESSION_CONTROL_RESERVE) || negb (isSafeInteger mw) || (mw <? 1) || (maxRuns_of c <? mw)
     || negb (isSafeInteger rpw) || (rpw <? 1) || (maxRuns_of c <? rpw)
  then inl invalid_pool_limits else inr (mkPool c mw rpw [] [] b).

Definition accepts (x : Session) s : bool :=
  session_same_composition x && ownsWorker (composition s) (session_worker x).

Definition add (x : Session) s : bool * WorkerPool S :=
  if negb (accepts x s) || (maxWorkers s <=? zlen (workers s))
     || existsb (fun e => seqb (worker_workerId (worker e)) (worker_workerId (session_worker x))) (workers s)
  then (false, s)
  else match la_reserve 4096 (bytes s) with
       | None => (false, s)
       | Some (l, b) =>
          (true, mkPool (composition s) (maxWorkers s) (runsPerWorker s)
                   (workers s ++ [mkWorkerEntry (session_worker x) x [] l]) (placements s) b)
       end.

(** The candidates of [reserve] and its selection loop. *)

Definition eligible (ready : nat -> bool) (r : RunRef) (rpw : Z) (e : WorkerEntry) : bool :=
  negb (negb (ready (session_id (session e)))
        || negb (seqb (worker_serverId (worker e)) (run_serverId r))
        || negb (seqb (worker_relayInstanceId (worker e)) (run_relayInstanceId r))
        || (rpw <=? zlen (runs e))).

Fixpoint select (ready : nat -> bool) (r : RunRef) (rpw : Z) (selected : option (nat * WorkerEntry))
    (index : nat) (es : list WorkerEntry) : option (nat * WorkerEntry) :=
  match es with
  | [] => selected
  | e :: rest =>
     let selected :=
       if negb (eligible ready r rpw e) then selected
       else match selected with
            | None => Some (index, e)
            | Some (_, best) => if zlen (runs e) <? zlen (runs best) then Some (index, e) else selected
            end in
     select ready r rpw selected (Datatypes.S index) rest
  end.

Definition add_run (id : string) (e : WorkerEntry) : WorkerEntry :=
  mkWorkerEntry (worker e) (session e) (if bool_decide (id ∈ runs e) then runs e else runs e ++ [id]) (lease e).

Definition delete_run (id : string) (e : WorkerEntry) : WorkerEntry :=
  mkWorkerEntry (worker e) (session e) (List.filter (fun x => negb (String.eqb x id)) (runs e)) (lease e).

Definition reserve (ready : nat -> bool) (r : RunRef) s : option Placement * WorkerPool S :=
  if jhas (run_runId r) (placements s) || (maxRuns_of (composition s) <=? zlen (placements s)) then (None, s)
  else match select ready r (runsPerWorker s) None 0 (workers s) with
       | None => (None, s)
       | Some (i, e) =>
          let p := mkPlacement (worker e) (session e) r in
          (Some p,
           mkPool (composition s) (maxWorkers s) (runsPerWorker s)
             (<[i := add_run (run_runId r) e]> (workers s)) (jset (run_runId r) p (placements s)) (bytes s))
       end.

Definition get (r : RunRef) s : option Placement :=
  match jget (run_runId r) (placements s) with
  | Some p =>
     if seqb (run_serverId (p_run p)) (run_serverId r)
        && seqb (run_relayInstanceId (p_run p)) (run_relayInstanceId r) then Some p else None
  | None => None
  end.

(** [release]; [None] is the TypeError of [find(...)!] finding no worker. *)

Definition release (r : RunRef) (w : WorkerRef) s : option (bool * WorkerPool S) :=
  match get r s with
  | None => Some (false, s)
  | Some p =>
     if negb (sameWorkerRef (p_worker p) w) then Some (false, s)
     else match list_find (fun e => sameWorkerRef (worker e) w = true) (workers s) with
          | None => None
          | Some (i, e) =>
             Some (true,
               mkPool (composition s) (maxWorkers s) (runsPerWorker s)
                 (<[i := delete_run (run_runId r) e]> (workers s)) (jdelete (run_runId r) (placements s)) (bytes s))
          end
  end.

Definition sessions s : list Session := session <$> workers s.

Record PoolSnapshot := mkPoolSnapshot { snap_workers : Z; snap_runs : Z; snap_readyWorkers : Z }.

Definition snapshot (ready : nat -> bool) s : PoolSnapshot :=
  mkPoolSnapshot (zlen (workers s)) (zlen (placements s))
    (zlen (List.filter (fun e => ready (session_id (session e))) (workers s))).

Definition dispose s : WorkerPool S :=
  mkPool (composition s) (maxWorkers s) (runsPerWorker s) [] [] (release_all (lease <$> workers s) (bytes s)).

End operations.

(** ** Selection *)

Definition best_of (ready : nat -> bool) (r : RunRef) (rpw : Z) (es : list WorkerEntry)
    (selected : option (nat * WorkerEntry)) : Prop :=
  match selected with
  | None => forall e, e ∈ es -> eligible ready r rpw e = false
  | Some (i, b) => es !! i = Some b /\ eligible ready r rpw b = true
      /\ forall j e, es !! j = Some e -> eligible ready r rpw e = true ->
           zlen (runs b) <= zlen (runs e) /\ ((j < i)%nat -> zlen (runs b) < zlen (runs e))
  end.

Lemma best_of_snoc ready r rpw es e selected : best_of ready r rpw es selected ->
  best_of ready r rpw (es ++ [e])
    (if negb (eligible ready r rpw e) then selected
     else match selected with
          | None => Some (length es, e)
          | Some (_, best) => if zlen (runs e) <? zlen (runs best) then Some (length es, e) else selected
          end).
Proof.
  intros Hb. destruct (eligible ready r rpw e) eqn:He; cbn [negb].
  - assert (Hnew : forall (P : forall j x, es !! j = Some x -> eligible ready r rpw x = true -> zlen (runs e) < zlen (runs x)),
      best_of ready r rpw (es ++ [e]) (Some (length es, e))).
    { intros P. split; [by rewrite lookup_app_r, Nat.sub_diag by lia |]. split; [done |].
      intros j x Hj Hx. apply lookup_app_Some in Hj as [Hj|[Hge Hj]].
      - specialize (P j x Hj Hx). split; [lia | done].
      - apply list_lookup_singleton_Some in Hj as [Hj <-]. split; [lia | lia]. }
    destruct selected as [[i b]|].
    + destruct Hb as (H1 & H2 & H3). case_if.
      * apply Hnew. intros j x Hj Hx. destruct (H3 j x Hj Hx). lia.
      * split; [by apply lookup_app_l_Some |]. split; [done |]. intros j x Hj Hx.
        apply lookup_app_Some in Hj as [Hj|[Hge Hj]]; [by apply (H3 j x) |].
        apply list_lookup_singleton_Some in Hj as [Hj <-]. apply lookup_lt_Some in H1. split; lia.
    + apply Hnew. intros j x Hj Hx. apply list_elem_of_lookup_2 in Hj. apply Hb in Hj. congruence.
  - destruct selected as [[i b]|]; cbn in *.
    + destruct Hb as (H1 & H2 & H3). split; [by apply lookup_app_l_Some |]. split; [done |]. intros j x Hj Hx.
      apply lookup_app_Some in Hj as [Hj|[Hge Hj]]; [by apply (H3 j x) |].
      apply list_lookup_singleton_Some in Hj as [_ <-]. congruence.
    + intros x Hx. apply elem_of_app in Hx as [Hx| ->%list_elem_of_singleton]; auto.
Qed.

Lemma select_best ready r rpw es pre selected : best_of ready r rpw pre selected ->
  best_of ready r rpw (pre ++ es) (select ready r rpw selected (length pre) es).
Proof.
  revert pre selected. induction es as [|e es IH]; intros pre selected Hb; cbn [select]; [by rewrite app_nil_r |].
  rewrite cons_middle, app_assoc. replace (Datatypes.S (length pre)) with (length (pre ++ [e])) by (rewrite length_app; cbn; lia).
  apply IH. by apply best_of_snoc.
Qed.

(** ** Invariant *)

Section invariant.
Context {S : Type} `{LeaseAccount S}.
Implicit Types s : WorkerPool S.

Definition leases (es : list WorkerEntry) : list (nat * Z) := (fun e => (lease e, 4096)) <$> es.

Definition worker_ids (es : list WorkerEntry) : list string := (fun e => worker_workerId (worker e)) <$> es.

Record ok (foreign : Z) s : Prop := mk_pool_ok {
  w_ledger : ledger foreign (bytes s) (leases (workers s));
  w_max : zlen (workers s) <= maxWorkers s;
  w_unique : NoDup (worker_ids (workers s));
  w_load : Forall (fun e => NoDup (runs e) /\ zlen (runs e) <= runsPerWorker s) (workers s);
  w_wf : jwf (placements s);
  w_total : zlen (placements s) <= maxRuns_of (composition s);
  w_key : forall k p, jget k (placements s) = Some p -> k = run_runId (p_run p);
  w_placed : forall k e, e ∈ workers s ->
    (k ∈ runs e <-> exists p, jget k (placements s) = Some p /\ p_worker p = worker e);
  w_home : forall k p, jget k (placements s) = Some p ->
    exists e, e ∈ workers s /\ worker e = p_worker p /\ session e = p_session p;
  w_limits : 1 <= maxWorkers s /\ 1 <= runsPerWorker s /\ 1 <= maxRuns_of (composition s);
}.

(** Entries of the pool are determined by their worker. *)

Lemma worker_entry_unique es i j e e' : NoDup (worker_ids es) -> es !! i = Some e -> es !! j = Some e' ->
  worker_workerId (worker e) = worker_workerId (worker e') -> i = j.
Proof.
  intros Hnd Hi Hj E. apply (proj1 (NoDup_alt _) Hnd i j (worker_workerId (worker e))); unfold worker_ids;
    rewrite list_lookup_fmap; [by rewrite Hi | by rewrite Hj, E].
Qed.

Lemma ids_insert es i e e' : es !! i = Some e -> worker e' = worker e -> worker_ids (<[i := e']> es) = worker_ids es.
Proof.
  intros Hi Hw. unfold worker_ids. rewrite list_fmap_insert, Hw. apply list_insert_id. by rewrite list_lookup_fmap, Hi.
Qed.

Lemma leases_insert es i e e' : es !! i = Some e -> lease e' = lease e -> leases (<[i := e']> es) = leases es.
Proof.
  intros Hi Hw. unfold leases. rewrite list_fmap_insert, Hw. apply list_insert_id. by rewrite list_lookup_fmap, Hi.
Qed.

Lemma id_absent (es : list WorkerEntry) id :
  existsb (fun e => seqb (worker_workerId (worker e)) id) es = false ->
  forall e, e ∈ es -> worker_workerId (worker e) <> id.
Proof.
  intros Hx e He Hid. assert (Ht : existsb (fun e => seqb (worker_workerId (worker e)) id) es = true); [| congruence].
  apply existsb_exists. exists e. by rewrite <- list_elem_of_In, seqb_eq.
Qed.

Lemma pool_add_ok foreign x s : ok foreign s -> ok foreign (add x s).2.
Proof.
  intros Ho. unfold add. destruct (negb (accepts x s) || _ || _) eqn:Eg; [done |].
  destruct (la_reserve 4096 (bytes s)) as [[l b]|] eqn:El; [| done]. cbn [snd]. bool_hyps.
  destruct Ho as [H1' H2' H3' H4' H5' H6' H7' H8' H9' H10']. constructor; cbn [bytes workers placements maxWorkers
    composition runsPerWorker]; try done.
  - unfold leases. rewrite fmap_app. cbn. rewrite <- Permutation_cons_append. by apply (ledger_reserve _ (bytes s)).
  - rewrite zlen_app, zlen_cons, zlen_nil. lia.
  - unfold worker_ids. rewrite fmap_app. apply NoDup_app. split_and!; [done | | apply NoDup_singleton].
    intros id (e & -> & He)%list_elem_of_fmap Hid%list_elem_of_singleton. by eapply id_absent.
  - apply Forall_app. split; [done |]. constructor; [| done]. cbn. split; [constructor | unfold zlen; cbn; lia].
  - intros k e [He|He]%elem_of_app; [by apply H8' |]. apply list_elem_of_singleton in He as ->. cbn. split.
    + by intros ?%elem_of_nil.
    + intros (p & Hp & Hw). exfalso. destruct (H9' k p Hp) as (e & He & Hew & _).
      eapply id_absent; [done | exact He | by rewrite Hew, Hw].
  - intros k p Hp. destruct (H9' k p Hp) as (e & He & Hw). exists e. split; [by apply elem_of_app; left | done].
Qed.

(** Replacing the entry of one worker: what membership in the new list means. *)

Lemma elem_insert (es : list WorkerEntry) i x e : NoDup (worker_ids es) -> es !! i = Some e -> worker x = worker e ->
  forall y, y ∈ <[i := x]> es -> y = x \/ (y ∈ es /\ worker y <> worker e).
Proof.
  intros Hnd Hi Hx y [j Hj]%list_elem_of_lookup_1. apply list_lookup_insert_Some in Hj as [(<- & <- & _)|[Hne Hj]]; [by left |].
  right. split; [by eapply list_elem_of_lookup_2 |]. intros E. apply Hne.
  eapply (worker_entry_unique es); [done | exact Hi | exact Hj | by rewrite E].
Qed.

Lemma insert_home (es : list WorkerEntry) i x e : es !! i = Some e -> worker x = worker e -> session x = session e ->
  forall y, y ∈ es -> exists y', y' ∈ <[i := x]> es /\ worker y' = worker y /\ session y' = session y.
Proof.
  intros Hi Hw Hs y [j Hj]%list_elem_of_lookup_1. destruct (decide (i = j)) as [<-|Hne].
  - assert (y = e) as -> by congruence. exists x. split; [| done].
    apply list_elem_of_lookup_2 with i. apply list_lookup_insert_eq. by apply lookup_lt_Some in Hi.
  - exists y. split; [| done]. apply list_elem_of_lookup_2 with j. by rewrite list_lookup_insert_ne.
Qed.

Lemma pool_reserve_ok foreign ready r s : ok foreign s -> ok foreign (reserve ready r s).2.
Proof.
  intros Ho. unfold reserve. case_if; [done |].
  pose proof (select_best ready r (runsPerWorker s) (workers s) [] None) as Hb.
  cbn [app length] in Hb. specialize (Hb ltac:(by intros ? ?%elem_of_nil)).
  destruct (select _ _ _ _ _ _) as [[i e]|]; [| done]. cbn [snd]. destruct Hb as (Hi & He & _). bool_hyps.
  assert (Hnew : jget (run_runId r) (placements s) = None)
    by (unfold jhas in *; destruct (jget (run_runId r) (placements s)); done).
  destruct Ho as [H1' H2' H3' H4' H5' H6' H7' H8' H9' H10'].
  assert (Hin : e ∈ workers s) by (by eapply list_elem_of_lookup_2).
  assert (Hfresh : forall y, y ∈ workers s -> run_runId r ∉ runs y).
  { intros y Hy Hr. apply (H8' _ y Hy) in Hr as (p & Hp & _). congruence. }
  unfold eligible in He. bool_hyps.
  constructor; cbn [bytes workers placements maxWorkers composition runsPerWorker]; try done.
  - by rewrite (leases_insert _ i e).
  - by rewrite zlen_insert.
  - by rewrite (ids_insert _ i e).
  - apply Forall_insert; [done |]. unfold add_run. cbn. rewrite bool_decide_eq_false_2 by auto.
    destruct (Forall_lookup_1 _ _ _ _ H4' Hi). rewrite zlen_app, zlen_cons, zlen_nil. split; [| lia].
    apply NoDup_app. split_and!; [done | | apply NoDup_singleton]. intros y Hy ->%list_elem_of_singleton.
    by apply (Hfresh e).
  - by apply jwf_set.
  - rewrite jset_size_new by done. lia.
  - intros k p. rewrite jget_set. case_decide; [by intros [= <-]; subst | apply H7'].
  - intros k y Hy. rewrite jget_set. apply (elem_insert _ i (add_run (run_runId r) e) e) in Hy; [| done..].
    destruct Hy as [->|[Hy Hne]].
    + unfold add_run. cbn. rewrite bool_decide_eq_false_2 by auto. rewrite elem_of_app, list_elem_of_singleton.
      case_decide as Hk; [subst; split; [by eexists | by right] |]. rewrite <- (H8' k e Hin). tauto.
    + rewrite (H8' k y Hy). case_decide as Hk; [| done]. subst. split.
      * intros (p & Hp & _). congruence.
      * intros (p & [= <-] & Hw). cbn in Hw. congruence.
  - intros k p. rewrite jget_set.
    assert (Hh := insert_home (workers s) i (add_run (run_runId r) e) e Hi eq_refl eq_refl).
    case_decide as Hk; [intros [= <-]; by apply Hh |]. intros Hp. destruct (H9' k p Hp) as (y & Hy & Hw & Hss).
    destruct (Hh y Hy) as (y' & ? & ? & ?). exists y'. split_and!; congruence.
Qed.

(** [release] always finds the worker of a placement. *)

Lemma release_found foreign r w s p : ok foreign s -> get r s = Some p -> p_worker p = w ->
  jget (run_runId r) (placements s) = Some p
  /\ exists i e, list_find (fun e => sameWorkerRef (worker e) w = true) (workers s) = Some (i, e)
     /\ workers s !! i = Some e /\ worker e = w.
Proof.
  intros Ho Hg <-. unfold get in Hg. destruct (jget _ _) as [p'|] eqn:Hp; [| done]. case_if; [| done].
  injection Hg as ->. split; [done |]. destruct (w_home _ _ Ho _ _ Hp) as (e & He & Hw & _).
  destruct (list_find_elem_of (fun e => sameWorkerRef (worker e) (p_worker p) = true) (workers s) e He) as [[i x] Hx];
    [by apply sameWorkerRef_eq |].
  exists i, x. split; [done |]. apply list_find_Some in Hx as (Hi & Hs & _). by apply sameWorkerRef_eq in Hs.
Qed.

Lemma delete_run_spec k id e : k ∈ runs (delete_run id e) <-> k ∈ runs e /\ k <> id.
Proof.
  unfold delete_run. cbn. rewrite !list_elem_of_In, filter_In, negb_true_iff, String.eqb_neq. done.
Qed.

Lemma sublist_filter {A} (f : A -> bool) (l : list A) : sublist (List.filter f l) l.
Proof. induction l as [|x l IH]; cbn; [done |]. case_if; by constructor. Qed.

Lemma pool_release_ok foreign r w s b s' : ok foreign s -> release r w s = Some (b, s') -> ok foreign s'.
Proof.
  intros Ho. unfold release. destruct (get r s) as [p|] eqn:Hg; [| by intros [= _ <-]].
  destruct (sameWorkerRef (p_worker p) w) eqn:Hsw; cbn [negb]; [| by intros [= _ <-]].
  apply sameWorkerRef_eq in Hsw. destruct (release_found foreign r w s p Ho Hg Hsw) as (Hp & i & e & -> & Hi & Hw).
  intros [= _ <-]. destruct Ho as [H1' H2' H3' H4' H5' H6' H7' H8' H9' H10'].
  assert (Hin : e ∈ workers s) by (by eapply list_elem_of_lookup_2).
  constructor; cbn [bytes workers placements maxWorkers composition runsPerWorker]; try done.
  - by rewrite (leases_insert _ i e).
  - by rewrite zlen_insert.
  - by rewrite (ids_insert _ i e).
  - apply Forall_insert; [done |]. destruct (Forall_lookup_1 _ _ _ _ H4' Hi) as [Hnd Hle]. unfold delete_run. cbn.
    split; [eapply sublist_NoDup; [exact Hnd | apply sublist_filter] |].
    pose proof (zlen_sublist _ _ (sublist_filter (fun x => negb (String.eqb x (run_runId r))) (runs e))). lia.
  - by apply jwf_delete.
  - pose proof (jdelete_size (run_runId r) (placements s)). lia.
  - intros k q. rewrite jget_delete by done. case_decide; [done | apply H7'].
  - intros k y Hy. rewrite jget_delete by done. apply (elem_insert _ i (delete_run (run_runId r) e) e) in Hy; [| done..].
    destruct Hy as [->|[Hy Hne]].
    + rewrite delete_run_spec, (H8' k e Hin). cbn. case_decide as Hk.
      * split; [by intros [_ ?] | by intros (? & ? & _)].
      * tauto.
    + rewrite (H8' k y Hy). case_decide as Hk; [| done]. subst k. split; [| by intros (? & ? & _)].
      intros (q & Hq & Hqw). congruence.
  - intros k q. rewrite jget_delete by done. case_decide; [done |]. intros Hq.
    destruct (H9' k q Hq) as (y & Hy & Hyw & Hss).
    destruct (insert_home (workers s) i (delete_run (run_runId r) e) e Hi eq_refl eq_refl y Hy) as (y' & ? & ? & ?).
    exists y'. split_and!; congruence.
Qed.

Lemma pool_dispose_ok foreign s : ok foreign s -> ok foreign (dispose s).
Proof.
  intros [H1' H2' H3' H4' H5' H6' H7' H8' H9' H10'].
  constructor; cbn; try done; try (by constructor); try (unfold zlen; cbn; lia).
  - pose proof (ledger_release_all _ _ _ H1') as Hl. unfold leases in Hl. rewrite <- list_fmap_compose in Hl. exact Hl.
  - by intros k e ?%elem_of_nil.
Qed.

Inductive step : Z * WorkerPool S -> Z * WorkerPool S -> Prop :=
  | s_add f x s : step (f, s) (f, (add x s).2)
  | s_reserve f ready r s : step (f, s) (f, (reserve ready r s).2)
  | s_release f r w s b s' : release r w s = Some (b, s') -> step (f, s) (f, s')
  | s_dispose f s : step (f, s) (f, dispose s)
  | s_env f s b : la_ok b ->
      (forall l n, (l, n) ∈ leases (workers s) -> la_charge b l = la_charge (bytes s) l) ->
      step (f, s) (f + (la_used b - la_used (bytes s)),
        mkPool (composition s) (maxWorkers s) (runsPerWorker s) (workers s) (placements s) b).

Definition reachable (c : RuntimeComposition) (ctl mw rpw : Z) (b : S) (x : Z * WorkerPool S) : Prop :=
  exists s0, newWorkerPool c ctl mw rpw b = inr s0 /\ rtc step (la_used b, s0) x.

Lemma pool_step_ok x y : ok x.1 x.2 -> step x y -> ok y.1 y.2.
Proof.
  intros Ho Hst. revert Ho. destruct Hst; cbn [fst snd]; eauto using pool_add_ok, pool_reserve_ok, pool_release_ok, pool_dispose_ok.
  intros [R1 R2 R3 R4 R5 R6 R7 R8 R9 R10]. constructor; try done. by apply ledger_interfere.
Qed.

Lemma pool_reachable_ok c ctl mw rpw b x : la_ok b -> reachable c ctl mw rpw b x -> ok x.1 x.2.
Proof.
  intros Hb (s0 & E & Hr).
  apply (rtc_invariant step (fun x => ok x.1 x.2) (la_used b, s0) x); [| exact pool_step_ok | done].
  unfold newWorkerPool in E. case_if; [done |]. injection E as <-. bool_hyps.
  constructor; cbn; try done; try (by constructor); try (unfold zlen; cbn; lia).
  - by apply ledger_nil.
  - by intros k e ?%elem_of_nil.
Qed.

(** ** Properties *)

(** The pool's books agree in every reachable state: workers are distinct
    and within their limit, each holds one lease of 4096 bytes and at most
    [runsPerWorker] runs, and a run is listed on a worker exactly when it is
    placed there, so no run is ever on two workers. *)
Theorem pool_consistent (c : RuntimeComposition) (ctl mw rpw : Z) (b : S) (f : Z) (s : WorkerPool S) :
  la_ok b -> reachable c ctl mw rpw b (f, s) ->
  zlen (workers s) <= maxWorkers s /\ NoDup (worker_ids (workers s))
  /\ zlen (placements s) <= maxRuns_of (composition s)
  /\ la_used (bytes s) = f + 4096 * zlen (workers s)
  /\ (forall e, e ∈ workers s -> NoDup (runs e) /\ zlen (runs e) <= runsPerWorker s)
  /\ (forall k e, e ∈ workers s ->
        (k ∈ runs e <-> exists p, jget k (placements s) = Some p /\ p_worker p = worker e))
  /\ (forall k p, jget k (placements s) = Some p -> k = run_runId (p_run p)
        /\ exists e, e ∈ workers s /\ worker e = p_worker p /\ session e = p_session p /\ k ∈ runs e).
Proof.
  intros Hb Hr. destruct (pool_reachable_ok _ _ _ _ _ _ Hb Hr) as [R1 R2 R3 R4 R5 R6 R7 R8 R9 R10]. cbn [fst snd] in *.
  split_and!; try done.
  - rewrite (ledger_used _ _ _ R1). f_equal. unfold leases. clear.
    induction (workers s) as [|e l IH]; [done |]. cbn [fmap list_fmap]. rewrite lsum_cons, zlen_cons. cbn in *. lia.
  - by apply Forall_forall.
  - intros k p Hp. split; [by apply R7 |]. destruct (R9 k p Hp) as (e & He & Hw & Hs). exists e. split_and!; try done.
    apply (R8 k e He). by exists p.
Qed.

(** [reserve] places a run on a ready worker of its instance with the
    fewest runs, the earliest added among equals, and refuses exactly when the
    run is placed already, the run budget is spent or no worker is eligible. *)
Theorem reserve_least_loaded (s : WorkerPool S) (ready : nat -> bool) (r : RunRef) :
  match reserve ready r s with
  | (Some p, s') =>
     exists i e, workers s !! i = Some e /\ p_worker p = worker e /\ p_session p = session e /\ p_run p = r
     /\ eligible ready r (runsPerWorker s) e = true
     /\ (forall j e', workers s !! j = Some e' -> eligible ready r (runsPerWorker s) e' = true ->
           zlen (runs e) <= zlen (runs e') /\ ((j < i)%nat -> zlen (runs e) < zlen (runs e')))
     /\ workers s' = <[i := add_run (run_runId r) e]> (workers s)
     /\ get r s' = Some p
  | (None, s') => s' = s
     /\ (is_Some (jget (run_runId r) (placements s)) \/ maxRuns_of (composition s) <= zlen (placements s)
         \/ forall e, e ∈ workers s -> eligible ready r (runsPerWorker s) e = false)
  end.
Proof.
  unfold reserve, jhas. destruct (jget (run_runId r) (placements s)) as [p|] eqn:Hp; cbn [orb].
  { split; [done |]. left. by eexists. }
  case_if; [split; [done |]; right; left; lia |].
  pose proof (select_best ready r (runsPerWorker s) (workers s) [] None) as Hbest.
  cbn [app length] in Hbest. specialize (Hbest ltac:(by intros ? ?%elem_of_nil)).
  destruct (select _ _ _ _ _ _) as [[i e]|]; [| split; [done |]; by right; right].
  destruct Hbest as (Hi & He & Hmin). exists i, e. split_and!; try done.
  unfold get. cbn [placements]. rewrite jget_set, decide_True by done. cbn. by rewrite !seqb_refl.
Qed.

(** [release] never fails to find the worker of a placement, and a
    successful release followed by a reservation of the same run is possible
    again: the run is on no worker. *)
Theorem release_total (c : RuntimeComposition) (ctl mw rpw : Z) (b : S) (f : Z) (s : WorkerPool S)
    (r : RunRef) (w : WorkerRef) :
  la_ok b -> reachable c ctl mw rpw b (f, s) ->
  exists done s', release r w s = Some (done, s')
  /\ (done = true <-> exists p, get r s = Some p /\ p_worker p = w)
  /\ (done = false -> s' = s)
  /\ (done = true -> get r s' = None /\ zlen (workers s') = zlen (workers s)
        /\ forall e, e ∈ workers s' -> run_runId r ∉ runs e).
Proof.
  intros Hb Hr. pose proof (pool_reachable_ok _ _ _ _ _ _ Hb Hr) as Ho. cbn [fst snd] in Ho.
  destruct (release r w s) as [[d s']|] eqn:E.
  - exists d, s'. split; [done |]. pose proof (pool_release_ok f r w s d s' Ho E) as Ho'. revert E. unfold release.
    destruct (get r s) as [p|] eqn:Hg; [| intros [= <- <-]; split_and!; [split; [done | by intros (? & ? & _)] | done | done]].
    destruct (sameWorkerRef (p_worker p) w) eqn:Hsw; cbn [negb].
    + apply sameWorkerRef_eq in Hsw. destruct (release_found f r w s p Ho Hg Hsw) as (Hp & i & e & -> & Hi & Hw).
      intros [= <- <-]. split; [split; [intros _; by exists p | done] |]. split; [done |]. intros _.
      assert (Hn : jget (run_runId r) (jdelete (run_runId r) (placements s)) = None)
        by (rewrite jget_delete by apply Ho; by rewrite decide_True).
      cbn [workers]. rewrite zlen_insert. split_and!; [unfold get; cbn [placements]; by rewrite Hn | done |].
      intros x Hx Hin. apply (w_placed _ _ Ho' _ _ Hx) in Hin as (q & Hq & _). cbn [placements] in Hq. congruence.
    + intros [= <- <-]. split_and!; [| done | done]. split; [done |]. intros (q & [= <-] & Hq).
      apply sameWorkerRef_eq in Hq. congruence.
  - exfalso. revert E. unfold release. destruct (get r s) as [p|] eqn:Hg; [| done].
    destruct (sameWorkerRef (p_worker p) w) eqn:Hsw; [| done]. apply sameWorkerRef_eq in Hsw.
    destruct (release_found f r w s p Ho Hg Hsw) as (_ & i & e & -> & _). done.
Qed.

End invariant.

(** Two workers and one run placed on the first. *)

#[local] Instance demo_account : LeaseAccount RuntimeRetainedBytes.t := RuntimeRetainedBytes.account false.

Lemma pool_demo_ok : la_ok RuntimeRetainedBytes.demo_runtime.
Proof. exact RuntimeRetainedBytes.demo_runtime_ok. Qed.

Definition demo_pool : WorkerPool RuntimeRetainedBytes.t :=
  mkPool (mkComposition "server" "relay" M0_LIMITS) 2 4 [] [] RuntimeRetainedBytes.demo_runtime.

Definition demo_session (n : nat) (id : string) : Session := mkSession n (mkWorker "server" "relay" id "boot") true.

Definition demo_run : RunRef := mkRun "server" "relay" "run".

Definition demo_placed : WorkerPool RuntimeRetainedBytes.t :=
  (reserve (fun _ => true) demo_run (add (demo_session 1 "b") (add (demo_session 0 "a") demo_pool).2).2).2.

Lemma demo_placed_reachable :
  reachable (mkComposition "server" "relay" M0_LIMITS) 1000000 2 4 RuntimeRetainedBytes.demo_runtime (0, demo_placed).
Proof.
  exists demo_pool. split; [reflexivity |]. eapply rtc_l; [apply s_add |]. eapply rtc_l; [apply s_add |].
  apply rtc_once, s_reserve.
Qed.

Lemma pool_consistent_witness :
  map (fun e => length (runs e)) (workers demo_placed) = [1; 0]%nat
  /\ la_used (bytes demo_placed) = 0 + 4096 * zlen (workers demo_placed).
Proof.
  split; [vm_compute; reflexivity |].
  destruct (pool_consistent (mkComposition "server" "relay" M0_LIMITS) 1000000 2 4 RuntimeRetainedBytes.demo_runtime 0
    demo_placed pool_demo_ok demo_placed_reachable) as (_ & _ & _ & Hu & _). exact Hu.
Defined.

Lemma release_total_witness :
  is_Some (get demo_run demo_placed)
  /\ exists done s', release demo_run (mkWorker "server" "relay" "a" "boot") demo_placed = Some (done, s').
Proof.
  split; [vm_compute; eexists; reflexivity |].
  destruct (release_total (mkComposition "server" "relay" M0_LIMITS) 1000000 2 4 RuntimeRetainedBytes.demo_runtime 0
    demo_placed demo_run (mkWorker "server" "relay" "a" "boot") pool_demo_ok demo_placed_reachable)
    as (d & s' & E & _). exists d, s'. exact E.
Defined.
