(* ===== verification/InputNotices.v ===== *)
(** * Rejection aggregates (packages/client/src/input-notices.ts)

    Inputs rejected at admission are folded into an aggregate of finite size:
    one group per closed source and error class, with saturating counters.  The
    aggregate refines the list of rejections it was given. *)

From S2P Require Import Prelude JsMap.

Inductive Source := keyboard | paste | mouse | renderer | malformed.

#[global] Instance Source_eq_dec : EqDecision Source.
Proof. solve_decision. Defined.

Inductive RejectionClass :=
  | invalid_request | invalid_state | disposed | capacity | timeout
  | counter_exhausted | input_rejected | other.

#[global] Instance RejectionClass_eq_dec : EqDecision RejectionClass.
Proof. solve_decision. Defined.

Definition SOURCES : list Source := [keyboard; paste; mouse; renderer; malformed].

Definition LOCAL_CLASSES : list RejectionClass := [invalid_request; invalid_state; disposed; capacity; timeout].

Definition REJECTION_SLOTS : Z := 32.

Definition saturatingAdd (a b : Z) : Z := Z.min MAX_SAFE_INTEGER (a + b).

(** Sources and error reasons reach the module as strings. *)

Definition rejectionSource (source : string) : Source :=
  if String.eqb source "keyboard" then keyboard
  else if String.eqb source "paste" then paste
  else if String.eqb source "mouse" then mouse
  else malformed.

Definition class_name (c : RejectionClass) : string :=
  match c with
  | invalid_request => "invalid-request" | invalid_state => "invalid-state" | disposed => "disposed"
  | capacity => "capacity" | timeout => "timeout" | counter_exhausted => "counter-exhausted"
  | input_rejected => "input-rejected" | other => "other"
  end.

(** A client error has a category and a reason, a domain error a kind. *)

Inductive RejectionError :=
  | client_error (category reason : string)
  | domain_error (kind : string).

Definition rejectionClass (error : RejectionError) : RejectionClass :=
  match error with
  | client_error category reason =>
     let reason := if String.eqb category "local" then Some reason else None in
     match List.find (fun known => match reason with Some r => String.eqb (class_name known) r | None => false end)
             LOCAL_CLASSES with
     | Some known => known
     | None => other
     end
  | domain_error kind =>
     if String.eqb kind "COUNTER_EXHAUSTED" then counter_exhausted
     else if String.eqb kind "INPUT_REJECTED" then input_rejected
     else other
  end.

Record Group := mkGroup { g_count : Z; knownBytes : Z; unknownLengthCount : Z }.

(** The key of a group is the pair of its source and class, which the code
    writes as [`${source}/${error}`]. *)

Definition Key : Type := Source * RejectionClass.

Record RejectionAggregate := mkAggregate { count : Z; groups : jsmap Key Group }.

Definition newRejectionAggregate : RejectionAggregate := mkAggregate 0 [].

Definition add (source : Source) (error : RejectionClass) (bytes : option Z) (a : RejectionAggregate)
    : RejectionAggregate :=
  let key := (source, error) in
  let g := default (mkGroup 0 0 0) (jget key (groups a)) in
  let g := mkGroup (saturatingAdd (g_count g) 1)
             (match bytes with None => knownBytes g | Some b => saturatingAdd (knownBytes g) b end)
             (match bytes with None => saturatingAdd (unknownLengthCount g) 1 | Some _ => unknownLengthCount g end) in
  mkAggregate (saturatingAdd (count a) 1) (jset key g (groups a)).

Definition CLASSES : list RejectionClass := LOCAL_CLASSES ++ [counter_exhausted; input_rejected; other].

Record FrozenGroup := mkFrozen { f_source : Source; f_error : RejectionClass; f_group : Group }.

Record InputRejections := mkRejections { r_count : Z; r_groups : list FrozenGroup }.

Definition freeze (a : RejectionAggregate) : InputRejections :=
  mkRejections (count a)
    (source ← SOURCES; error ← CLASSES;
     match jget (source, error) (groups a) with Some g => [mkFrozen source error g] | None => [] end).

(** ** The rejections an aggregate stands for *)

Record Rejection := mkRejection { rj_source : Source; rj_error : RejectionClass; rj_bytes : option Z }.

Definition rj_key (r : Rejection) : Key := (rj_source r, rj_error r).

Definition add_all (h : list Rejection) : RejectionAggregate :=
  foldl (fun a r => add (rj_source r) (rj_error r) (rj_bytes r) a) newRejectionAggregate h.

Definition saturate (n : Z) : Z := Z.min MAX_SAFE_INTEGER n.

Definition of_key (k : Key) (h : list Rejection) : list Rejection :=
  List.filter (fun r => bool_decide (rj_key r = k)) h.

Definition unknown_length (r : Rejection) : Z := match rj_bytes r with None => 1 | Some _ => 0 end.

Definition summary (h : list Rejection) : Group :=
  mkGroup (saturate (zlen h)) (saturate (lsum (fun r => default 0 (rj_bytes r)) h)) (saturate (lsum unknown_length h)).

(** The group of a key, if any rejection has it. *)

Definition group_of (k : Key) (h : list Rejection) : option Group :=
  match of_key k h with [] => None | _ => Some (summary (of_key k h)) end.

Definition summarize (h : list Rejection) : InputRejections :=
  mkRejections (saturate (zlen h))
    (source ← SOURCES; error ← CLASSES;
     match group_of (source, error) h with Some g => [mkFrozen source error g] | None => [] end).

Definition lengths_ok (h : list Rejection) : Prop := Forall (fun r => 0 <= default 0 (rj_bytes r)) h.

Lemma saturating_step n m : 0 <= m -> saturatingAdd (saturate n) m = saturate (n + m).
Proof. unfold saturatingAdd, saturate, MAX_SAFE_INTEGER. lia. Qed.

Lemma of_key_snoc k h r : of_key k (h ++ [r]) = of_key k h ++ if decide (rj_key r = k) then [r] else [].
Proof.
  unfold of_key. rewrite List.filter_app. f_equal. cbn. destruct (decide (rj_key r = k)).
  - by rewrite bool_decide_eq_true_2.
  - by rewrite bool_decide_eq_false_2.
Qed.

Lemma summary_snoc h r : 0 <= default 0 (rj_bytes r) ->
  summary (h ++ [r]) =
  mkGroup (saturatingAdd (g_count (summary h)) 1)
    (match rj_bytes r with None => knownBytes (summary h) | Some b => saturatingAdd (knownBytes (summary h)) b end)
    (match rj_bytes r with
     | None => saturatingAdd (unknownLengthCount (summary h)) 1
     | Some _ => unknownLengthCount (summary h)
     end).
Proof.
  intros Hb. unfold summary. cbn [g_count knownBytes unknownLengthCount].
  rewrite zlen_app, !lsum_app, !lsum_cons, !lsum_nil, zlen_cons, zlen_nil. unfold unknown_length at 2.
  destruct (rj_bytes r) as [b|]; cbn in Hb |- *; rewrite !saturating_step by lia; f_equal; f_equal; lia.
Qed.

Lemma group_of_default k h : default (mkGroup 0 0 0) (group_of k h) = summary (of_key k h).
Proof. unfold group_of. by destruct (of_key k h). Qed.

Lemma group_of_snoc k h r : group_of k (h ++ [r]) =
  if decide (rj_key r = k) then Some (summary (of_key k h ++ [r])) else group_of k h.
Proof.
  unfold group_of. rewrite of_key_snoc. case_decide; [| by rewrite app_nil_r].
  by destruct (of_key k h).
Qed.

Lemma aggregate_spec h : lengths_ok h ->
  count (add_all h) = saturate (zlen h) /\ forall k, jget k (groups (add_all h)) = group_of k h.
Proof.
  induction h as [|r h IH] using rev_ind; [by split |]. intros [Hh Hr]%Forall_app.
  apply Forall_cons in Hr as [Hr _]. destruct (IH Hh) as [Hc Hg]. unfold add_all. rewrite foldl_app. cbn [foldl].
  fold (add_all h). unfold add. cbn [count groups]. split.
  - rewrite Hc, zlen_app, zlen_cons, zlen_nil, saturating_step by lia. done.
  - intros k. rewrite jget_set, group_of_snoc, Hg.
    fold (rj_key r). destruct (decide (k = rj_key r)) as [->|Hne].
    + rewrite decide_True by done. by rewrite group_of_default, <- summary_snoc.
    + by rewrite decide_False by congruence.
Qed.

Definition all_keys : list Key := source ← SOURCES; error ← CLASSES; [(source, error)].

Definition frozen (f : Key -> option Group) (k : Key) : option FrozenGroup :=
  match f k with Some g => Some (mkFrozen k.1 k.2 g) | None => None end.

Lemma bind_omap (f : Key -> option Group) (ss : list Source) (cs : list RejectionClass) :
  (source ← ss; error ← cs; match f (source, error) with Some g => [mkFrozen source error g] | None => [] end)
  = omap (frozen f) (source ← ss; error ← cs; [(source, error)]).
Proof.
  assert (Hin : forall s cs, (error ← cs; match f (s, error) with Some g => [mkFrozen s error g] | None => [] end)
    = omap (frozen f) (error ← cs; [(s, error)])).
  { intros s cs'. induction cs' as [|c cs' IH]; [done |]. cbn. unfold frozen at 1. cbn.
    destruct (f (s, c)); cbn; by rewrite <- IH. }
  induction ss as [|s ss IH]; [done |]. cbn [mbind list_bind]. rewrite omap_app. by rewrite Hin, IH.
Qed.

Lemma freeze_groups h : lengths_ok h ->
  r_groups (freeze (add_all h)) = omap (frozen (fun k => group_of k h)) all_keys.
Proof.
  intros Hh. destruct (aggregate_spec h Hh) as [_ Hg]. unfold freeze. cbn [r_groups].
  rewrite (bind_omap (fun k => jget k (groups (add_all h)))). apply list_omap_ext.
  apply Forall_Forall2_diag, Forall_true. intros k. unfold frozen. by rewrite Hg.
Qed.

Lemma key_total k : lsum (fun x => if decide (k = x) then 1 else 0) all_keys = 1.
Proof. destruct k as [[] []]; vm_compute; reflexivity. Qed.

Lemma keys_total h : lsum (fun k => zlen (of_key k h)) all_keys = zlen h.
Proof.
  induction h as [|r h IH] using rev_ind.
  { rewrite lsum_zero; [done |]. by apply Forall_true. }
  rewrite zlen_app, zlen_cons, zlen_nil, <- IH. rewrite <- (key_total (rj_key r)).
  generalize all_keys as ks. intros ks. induction ks as [|k ks IHk]; [done |].
  rewrite !lsum_cons, IHk, of_key_snoc. rewrite zlen_app. case_decide; rewrite ?zlen_cons, ?zlen_nil; lia.
Qed.

Lemma of_key_le k h : zlen (of_key k h) <= zlen h.
Proof.
  unfold of_key. induction h as [|r h IH]; [done |]. cbn. case_if; rewrite ?zlen_cons; lia.
Qed.

(** The aggregate refines the rejections it absorbed: whatever their
    number, the frozen notice reports the saturated totals of each source and
    class, in the fixed order, and nothing else. *)
Theorem aggregate_refines (h : list Rejection) :
  lengths_ok h -> freeze (add_all h) = summarize h.
Proof.
  intros Hh. pose proof (freeze_groups h Hh) as Hg. destruct (aggregate_spec h Hh) as [Hc _].
  unfold summarize. rewrite (bind_omap (fun k => group_of k h)). change (source ← SOURCES; _) with all_keys.
  rewrite <- Hg, <- Hc. reflexivity.
Qed.

(** a notice never grows beyond one group per source and class, every
    counter in it is a safe integer, and while the total has not saturated the
    counts of the groups add up to it. *)
Theorem aggregate_bounded (h : list Rejection) :
  lengths_ok h ->
  zlen (r_groups (freeze (add_all h))) <= 40
  /\ Forall (fun g => 1 <= g_count (f_group g) <= MAX_SAFE_INTEGER
              /\ 0 <= knownBytes (f_group g) <= MAX_SAFE_INTEGER
              /\ 0 <= unknownLengthCount (f_group g) <= g_count (f_group g))
      (r_groups (freeze (add_all h)))
  /\ (zlen h <= MAX_SAFE_INTEGER ->
      lsum (fun g => g_count (f_group g)) (r_groups (freeze (add_all h))) = r_count (freeze (add_all h))).
Proof.
  intros Hh. rewrite (freeze_groups h Hh). split_and!.
  - change 40 with (zlen all_keys). generalize all_keys as ks. intros ks.
    induction ks as [|k ks IH]; [done |]. cbn. destruct (frozen _ k); rewrite ?zlen_cons; lia.
  - apply Forall_forall. intros g (k & _ & Hk)%list_elem_of_omap. unfold frozen, group_of in Hk.
    destruct (of_key k h) as [|r l] eqn:E; [done |]. injection Hk as <-. cbn [f_group]. rewrite <- E.
    assert (Hlen : 1 <= zlen (of_key k h)) by (rewrite E, zlen_cons; pose proof (zlen_nonneg l); lia).
    assert (Hu : 0 <= lsum unknown_length (of_key k h) <= zlen (of_key k h)).
    { clear. induction (of_key k h) as [|x l IH]; [done |]. rewrite lsum_cons, zlen_cons.
      unfold unknown_length at 1 3. destruct (rj_bytes x); lia. }
    assert (Hb : 0 <= lsum (fun r => default 0 (rj_bytes r)) (of_key k h)).
    { apply lsum_nonneg. intros x [Hx _]%list_elem_of_In%filter_In. 
      apply (proj1 (Forall_forall _ _) Hh). by apply list_elem_of_In. }
    unfold summary, saturate, MAX_SAFE_INTEGER. cbn [g_count knownBytes unknownLengthCount]. lia.
  - intros Hmax. destruct (aggregate_spec h Hh) as [Hc _]. change (r_count (freeze _)) with (count (add_all h)).
    rewrite Hc. transitivity (zlen h); [| unfold saturate; lia]. rewrite <- (keys_total h).
    generalize all_keys as ks. intros ks. induction ks as [|k ks IH]; [done |]. rewrite lsum_cons, <- IH.
    cbn [omap list_omap]. unfold frozen at 1, group_of at 1. destruct (of_key k h) as [|r l] eqn:E; cbn [f_group].
    + rewrite zlen_nil. done.
    + rewrite lsum_cons. cbn [f_group]. rewrite <- E. cbn [summary g_count]. unfold saturate.
      pose proof (of_key_le k h). lia.
Qed.

Definition demo_rejections : list Rejection :=
  [mkRejection keyboard capacity (Some 4); mkRejection paste capacity (Some 9);
   mkRejection keyboard capacity (Some 6); mkRejection malformed other None].

Lemma demo_lengths_ok : lengths_ok demo_rejections.
Proof. repeat constructor; cbn; lia. Qed.

Lemma aggregate_refines_witness :
  zlen (r_groups (summarize demo_rejections)) = 3 /\ freeze (add_all demo_rejections) = summarize demo_rejections.
Proof. split; [vm_compute; reflexivity | exact (aggregate_refines demo_rejections demo_lengths_ok)]. Defined.

Lemma aggregate_bounded_witness :
  r_count (freeze (add_all demo_rejections)) = 4 /\ zlen (r_groups (freeze (add_all demo_rejections))) <= 40.
Proof. split; [vm_compute; reflexivity | exact (proj1 (aggregate_bounded demo_rejections demo_lengths_ok))]. Defined.
