(* ===== verification/Notifier.v ===== *)
(** * Observer delivery (packages/client/src/notifier.ts)

    State markers, notices and aggregates wait in one FIFO and are delivered in
    rounds of at most [DELIVERY_QUANTUM] entries, each on a task of its own.
    Observers are arbitrary: [react h l d] is what listener [l] does with the
    notifier when it is given [d] after the deliveries [h], as a list of calls; what it throws is
    swallowed by [invoke], so a listener that throws just stops calling.  The
    producer's state is a [world] that the calls may change; [snap] is its
    serialized snapshot ([None] when [snapshot] or [JSON.stringify] throws) and
    [idle] its [closeWhenIdle] predicate ([None] when it throws).  The [freeze] of an
    aggregate, which [round] calls outside any [try], is taken not to throw.  [accepted],
    [handled] and [log] are history: no operation reads them but the observers. *)

From S2P Require Import Prelude.

Definition DELIVERY_QUANTUM : Z := 64.

Section notifier.
Context {N X W : Type}.
Context (snap : W -> option string) (idle : W -> option bool) (has_aggregate : bool).

(** An aggregate is the list of the unreserved notices folded into it. *)

Inductive Entry :=
  | e_state
  | e_notice (notice : N) (delivered : option nat)
  | e_aggregate (aggregate : list X).

Inductive Delivery :=
  | d_state (key : string)
  | d_notice (notice : N)
  | d_aggregate (aggregate : list X).

(** The calls a producer or an observer may make.  A subscription is named by
    its position among all subscriptions made.  A [Step] is a call that runs no
    callback before it returns; [c_world] is the caller changing its own state. *)

Inductive Step :=
  | c_markState
  | c_fold (item : X)
  | c_onState (listener : nat)
  | c_onNotice (listener : nat)
  | c_unsubscribe (subscription : nat)
  | c_closeWhenIdle
  | c_poke
  | c_world (f : W -> W).

Inductive Call :=
  | c_step (step : Step)
  | c_pushNotice (notice : N) (delivered : option nat).

(** What a listener does with a delivery, and what the [delivered] callback with
    a given name does: it releases its reservation and may [poke]. *)

Context (react : list (nat * Delivery) -> nat -> Delivery -> list Call) (settle : nat -> list Step).

Record Subscription := mkSubscription { to_state : bool; listener : nat; active : bool }.

Record Notifier := mkNotifier {
  queue : list Entry;
  stateListeners : list nat;
  noticeListeners : list nat;
  subscriptions : list Subscription;
  markerQueued : bool;
  lastDelivered : option string;
  scheduled : bool;
  closing : bool;
  closed : bool;
  world : W;
  accepted : list N;
  handled : list Entry;
  released : list nat;
  log : list (nat * Delivery);
}.

Definition newNotifier (w : W) : Notifier :=
  mkNotifier [] [] [] [] false None false false false w [] [] [] [].

Implicit Types s : Notifier.

Definition set_queue (q : list Entry) s : Notifier :=
  mkNotifier q (stateListeners s) (noticeListeners s) (subscriptions s) (markerQueued s) (lastDelivered s)
    (scheduled s) (closing s) (closed s) (world s) (accepted s) (handled s) (released s) (log s).

Definition set_listeners (ls ns : list nat) (subs : list Subscription) s : Notifier :=
  mkNotifier (queue s) ls ns subs (markerQueued s) (lastDelivered s)
    (scheduled s) (closing s) (closed s) (world s) (accepted s) (handled s) (released s) (log s).

Definition set_marker (b : bool) s : Notifier :=
  mkNotifier (queue s) (stateListeners s) (noticeListeners s) (subscriptions s) b (lastDelivered s)
    (scheduled s) (closing s) (closed s) (world s) (accepted s) (handled s) (released s) (log s).

Definition set_last (k : option string) s : Notifier :=
  mkNotifier (queue s) (stateListeners s) (noticeListeners s) (subscriptions s) (markerQueued s) k
    (scheduled s) (closing s) (closed s) (world s) (accepted s) (handled s) (released s) (log s).

Definition set_flags (sch clg cld : bool) s : Notifier :=
  mkNotifier (queue s) (stateListeners s) (noticeListeners s) (subscriptions s) (markerQueued s) (lastDelivered s)
    sch clg cld (world s) (accepted s) (handled s) (released s) (log s).

Definition set_world (w : W) s : Notifier :=
  mkNotifier (queue s) (stateListeners s) (noticeListeners s) (subscriptions s) (markerQueued s) (lastDelivered s)
    (scheduled s) (closing s) (closed s) w (accepted s) (handled s) (released s) (log s).

Definition set_history (a : list N) (h : list Entry) (r : list nat) (l : list (nat * Delivery)) s : Notifier :=
  mkNotifier (queue s) (stateListeners s) (noticeListeners s) (subscriptions s) (markerQueued s) (lastDelivered s)
    (scheduled s) (closing s) (closed s) (world s) a h r l.

Definition pending s : Z := zlen (queue s).

Definition listenerCount s : Z := zlen (stateListeners s).

(** [schedule()]: asks the scheduler for a turn; [round] runs on it. *)

Definition schedule s : Notifier :=
  if scheduled s || closed s then s else set_flags true (closing s) (closed s) s.

Definition markState s : Notifier :=
  if closed s then s
  else
    let s := if negb (markerQueued s) then set_queue (queue s ++ [e_state]) (set_marker true s) else s in
    schedule s.

(** [tailAggregate()] and the caller recording one item in the result. *)

Definition fold_tail (x : X) s : Notifier :=
  if closed s || negb has_aggregate then s
  else match last (queue s) with
       | Some (e_aggregate a) => set_queue (removelast (queue s) ++ [e_aggregate (a ++ [x])]) s
       | _ => schedule (set_queue (queue s ++ [e_aggregate [x]]) s)
       end.

Definition set_add (l : nat) (ls : list nat) : list nat := if bool_decide (l ∈ ls) then ls else ls ++ [l].

Definition set_delete (l : nat) (ls : list nat) : list nat := List.filter (fun x => negb (Nat.eqb x l)) ls.

Definition subscribe (st : bool) (l : nat) s : Notifier :=
  if closed s || closing s
  then set_listeners (stateListeners s) (noticeListeners s) (subscriptions s ++ [mkSubscription st l false]) s
  else
    set_listeners (if st then set_add l (stateListeners s) else stateListeners s)
      (if st then noticeListeners s else set_add l (noticeListeners s))
      (subscriptions s ++ [mkSubscription st l true]) s.

Definition unsubscribe (id : nat) s : Notifier :=
  match subscriptions s !! id with
  | None => s
  | Some sub =>
     if negb (active sub) then s
     else
       set_listeners (if to_state sub then set_delete (listener sub) (stateListeners s) else stateListeners s)
         (if to_state sub then noticeListeners s else set_delete (listener sub) (noticeListeners s))
         (<[id := mkSubscription (to_state sub) (listener sub) false]> (subscriptions s)) s
  end.

Definition tryClose s : Notifier :=
  if negb (closing s) || closed s || negb (zlen (queue s) =? 0) || scheduled s then s
  else if default true (idle (world s))
       then set_listeners [] [] (subscriptions s) (set_flags (scheduled s) (closing s) true s)
       else s.

Definition closeWhenIdle s : Notifier :=
  tryClose (schedule (set_flags (scheduled s) true (closed s) s)).

Definition poke s : Notifier := if closing s then schedule s else s.

Definition step (c : Step) s : Notifier :=
  match c with
  | c_markState => markState s
  | c_fold x => fold_tail x s
  | c_onState l => subscribe true l s
  | c_onNotice l => subscribe false l s
  | c_unsubscribe id => unsubscribe id s
  | c_closeWhenIdle => closeWhenIdle s
  | c_poke => poke s
  | c_world f => set_world (f (world s)) s
  end.

Definition steps (cs : list Step) s : Notifier := foldl (fun s c => step c s) s cs.

Definition run_delivered (d : option nat) s : Notifier :=
  match d with
  | Some id => steps (settle id) (set_history (accepted s) (handled s) (released s ++ [id]) (log s) s)
  | None => s
  end.

Definition pushNotice (n : N) (d : option nat) s : Notifier :=
  if closed s then run_delivered d s
  else
    let s := set_history (accepted s ++ [n]) (handled s) (released s) (log s) s in
    schedule (set_queue (queue s ++ [e_notice n d]) s).

Definition exec (c : Call) s : Notifier :=
  match c with
  | c_step c => step c s
  | c_pushNotice n d => pushNotice n d s
  end.

Definition exec_all (cs : list Call) s : Notifier := foldl (fun s c => exec c s) s cs.

Definition invoke (l : nat) (d : Delivery) s : Notifier :=
  exec_all (react (log s) l d) (set_history (accepted s) (handled s) (released s) (log s ++ [(l, d)]) s).

(** Delivery to the listeners of the round that are still subscribed. *)

Definition deliverState (ls : list nat) s : Notifier :=
  match snap (world s) with
  | None => s
  | Some key =>
     if bool_decide (lastDelivered s = Some key) then s
     else foldl (fun s l => if bool_decide (l ∈ stateListeners s) then invoke l (d_state key) s else s)
            (set_last (Some key) s) ls
  end.

Definition deliverNotice (ls : list nat) (d : Delivery) s : Notifier :=
  foldl (fun s l => if bool_decide (l ∈ noticeListeners s) then invoke l d s else s) s ls.

Definition handle (states notices : list nat) (e : Entry) s : Notifier :=
  match e with
  | e_state => deliverState states (set_marker false s)
  | e_notice n d => run_delivered d (deliverNotice notices (d_notice n) s)
  | e_aggregate a => deliverNotice notices (d_aggregate a) s
  end.

Fixpoint round_loop (count : nat) (states notices : list nat) s : Notifier :=
  match count with
  | O => s
  | S count =>
     match queue s with
     | [] => s
     | e :: rest =>
        let s := set_queue rest (set_history (accepted s) (handled s ++ [e]) (released s) (log s) s) in
        round_loop count states notices (handle states notices e s)
     end
  end.

Definition round s : Notifier :=
  let s := set_flags false (closing s) (closed s) s in
  if closed s then s
  else
    let s := round_loop (Z.to_nat (Z.min DELIVERY_QUANTUM (zlen (queue s)))) (stateListeners s) (noticeListeners s) s in
    if negb (zlen (queue s) =? 0) then schedule s else tryClose s.

(** ** Invariant *)

Definition is_state (e : Entry) : bool := match e with e_state => true | _ => false end.

Definition is_aggregate (e : Entry) : bool := match e with e_aggregate _ => true | _ => false end.

Definition notices (es : list Entry) : list N := omap (fun e => match e with e_notice n _ => Some n | _ => None end) es.

Definition slots (es : list Entry) : list nat :=
  omap (fun e => match e with e_notice _ d => d | _ => None end) es.

Definition markers (es : list Entry) : Z := lsum (fun e => if is_state e then 1 else 0) es.

Definition tail_aggregate (es : list Entry) : bool :=
  match last es with Some e => is_aggregate e | None => false end.

(** No two aggregates follow each other. *)

Fixpoint separated (es : list Entry) : Prop :=
  match es with
  | [] => True
  | e :: rest => (is_aggregate e = true -> match rest with f :: _ => is_aggregate f = false | [] => True end)
      /\ separated rest
  end.

(** An entry waiting in the queue changes only by items folded into it. *)

Definition entry_grows (e e' : Entry) : Prop :=
  match e, e' with
  | e_aggregate a, e_aggregate b => exists items, b = a ++ items
  | _, _ => e' = e
  end.

Record inv s : Prop := mk_inv {
  v_marker : markers (queue s) = if markerQueued s then 1 else 0;
  v_separated : separated (queue s);
  v_fifo : notices (handled s) ++ notices (queue s) = accepted s;
  v_closed : closed s = true -> queue s = [];
}.

(** What calls and deliveries may do between two removals from the queue. *)

Record grows s s' : Prop := mk_grows {
  g_queue : exists kept added, queue s' = kept ++ added /\ Forall2 entry_grows (queue s) kept;
  g_handled : handled s' = handled s;
  g_closed : closed s' = closed s;
  g_released : exists late, released s' = released s ++ late /\ (closed s = false -> late = []);
  g_scheduled : scheduled s = true -> scheduled s' = true;
  g_wake : queue s = [] \/ scheduled s = true -> queue s' = [] \/ scheduled s' = true;
  g_inv : inv s -> inv s';
}.

Lemma entry_grows_refl e : entry_grows e e.
Proof. destruct e; cbn; try done. exists []. by rewrite app_nil_r. Qed.

Lemma entry_grows_trans e1 e2 e3 : entry_grows e1 e2 -> entry_grows e2 e3 -> entry_grows e1 e3.
Proof.
  destruct e1, e2; cbn; try (by intros [=]); try (by intros [= -> ->]); try (by intros ->); intros [i ->].
  destruct e3; try done. intros [j ->]. exists (i ++ j). by rewrite app_assoc.
Qed.

Lemma grows_list_refl es : Forall2 entry_grows es es.
Proof. induction es; constructor; auto using entry_grows_refl. Qed.

Lemma grows_list_trans l1 l2 l3 : Forall2 entry_grows l1 l2 -> Forall2 entry_grows l2 l3 -> Forall2 entry_grows l1 l3.
Proof.
  intros H. revert l3. induction H as [|x y l1 l2 Hxy _ IH]; intros l3 H2; inversion H2; subst; constructor; auto.
  by eapply entry_grows_trans.
Qed.

#[local] Instance grows_preorder : PreOrder grows.
Proof.
  split.
  - intros s. constructor; try done.
    + exists (queue s), []. split; [by rewrite app_nil_r | apply grows_list_refl].
    + exists []. by rewrite app_nil_r.
  - intros a b c [(k1 & n1 & E1 & F1) H2 H3 (l1 & R1 & L1) H4 H5 H6] [(k2 & n2 & E2 & F2) G2 G3 (l2 & R2 & L2) G4 G5 G6].
    constructor; try congruence; auto.
    + rewrite E1 in F2. apply Forall2_app_inv_l in F2 as (k3 & k4 & F3 & F4 & ->).
      exists k3, (k4 ++ n2). rewrite app_assoc. split; [done | by eapply grows_list_trans].
    + exists (l1 ++ l2). rewrite R2, R1, app_assoc. split; [done |]. intros Hc.
      rewrite (L1 Hc), (L2 ltac:(congruence)). done.
Qed.

Lemma separated_snoc es e : separated es -> (tail_aggregate es = true -> is_aggregate e = false) -> separated (es ++ [e]).
Proof.
  induction es as [|x es IH]; intros Hs Ht; cbn; [done |]. destruct Hs as [Hx Hs]. split.
  - intros Ha. destruct es as [|y es]; cbn; [| by apply Hx]. apply Ht. unfold tail_aggregate. cbn. done.
  - apply IH; [done |]. intros Hl. apply Ht. unfold tail_aggregate in *. destruct es; [done |]. by cbn in *.
Qed.

Lemma markers_app l1 l2 : markers (l1 ++ l2) = markers l1 + markers l2.
Proof. apply lsum_app. Qed.

Lemma notices_app l1 l2 : notices (l1 ++ l2) = notices l1 ++ notices l2.
Proof. apply omap_app. Qed.

(** Adding one entry at the end. *)

Lemma schedule_queue s : queue (schedule s) = queue s.
Proof. unfold schedule. by case_if. Qed.

Lemma schedule_fields s : handled (schedule s) = handled s /\ closed (schedule s) = closed s
  /\ released (schedule s) = released s /\ accepted (schedule s) = accepted s
  /\ markerQueued (schedule s) = markerQueued s.
Proof. unfold schedule. by case_if. Qed.

Lemma schedule_wakes s : closed s = false -> scheduled (schedule s) = true.
Proof. intros Hc. unfold schedule. rewrite Hc. case_if; [| done]. by bool_hyps; destruct (scheduled s). Qed.

Lemma push_grows s s' e : closed s = false ->
  queue s' = queue s ++ [e] -> handled s' = handled s -> closed s' = closed s -> released s' = released s ->
  scheduled s' = true ->
  (inv s -> markers (queue s') = (if markerQueued s' then 1 else 0) /\ accepted s' = accepted s ++ notices [e]
     /\ (tail_aggregate (queue s) = true -> is_aggregate e = false)) ->
  grows s s'.
Proof.
  intros Hcl E1 E2 E3 E4 E5 Hinv. constructor; try done.
  - exists (queue s), [e]. split; [done | apply grows_list_refl].
  - exists []. by rewrite app_nil_r.
  - by right.
  - intros Hi. destruct (Hinv Hi) as (H1 & H2 & H3). destruct Hi as [I1 I2 I3 I4]. constructor; [done | | | congruence].
    + rewrite E1. by apply separated_snoc.
    + rewrite E1, E2, H2, <- I3, notices_app. by rewrite app_assoc.
Qed.

(** Updates that leave the queue and its history alone. *)

Lemma quiet_grows s s' : queue s' = queue s -> handled s' = handled s -> closed s' = closed s ->
  released s' = released s -> accepted s' = accepted s -> markerQueued s' = markerQueued s ->
  (scheduled s = true -> scheduled s' = true) -> grows s s'.
Proof.
  intros E1 E2 E3 E4 E5 E6 E7. constructor; try done.
  - exists (queue s), []. rewrite E1, app_nil_r. split; [done | apply grows_list_refl].
  - exists []. by rewrite app_nil_r.
  - rewrite E1. intros [|]; auto.
  - intros [I1 I2 I3 I4]. constructor; rewrite ?E1, ?E2, ?E3, ?E5, ?E6; done.
Qed.

Lemma schedule_grows s : grows s (schedule s).
Proof.
  destruct (schedule_fields s) as (H1 & H2 & H3 & H4 & H5). apply quiet_grows; auto using schedule_queue.
  intros Hs. unfold schedule. by rewrite Hs.
Qed.

Lemma markState_grows s : grows s (markState s).
Proof.
  unfold markState. destruct (closed s) eqn:Hc; [reflexivity |].
  destruct (markerQueued s) eqn:Hm; cbn [negb]; [apply schedule_grows |].
  set (s1 := set_queue _ _). destruct (schedule_fields s1) as (H1 & H2 & H3 & H4 & H5).
  apply (push_grows s _ e_state); rewrite ?schedule_queue; try done.
  - by apply schedule_wakes.
  - intros [I1 _ _ _]. rewrite H4, H5. cbn [queue s1 set_queue markerQueued set_marker accepted notices omap list_omap].
    rewrite markers_app, I1, Hm, app_nil_r. done.
Qed.

Lemma separated_replace es a b : separated (es ++ [e_aggregate a]) -> separated (es ++ [e_aggregate b]).
Proof.
  induction es as [|x es IH]; [done |]. intros [Hx Hs]. split; [| by apply IH].
  intros Ha. specialize (Hx Ha). destruct es; [exact Hx | exact Hx].
Qed.

Lemma fold_tail_grows x s : grows s (fold_tail x s).
Proof.
  unfold fold_tail. destruct (closed s) eqn:Hc; [reflexivity |]. destruct has_aggregate; [| reflexivity]. cbn [orb negb].
  assert (Hopen : tail_aggregate (queue s) = false -> grows s (schedule (set_queue (queue s ++ [e_aggregate [x]]) s))).
  { intros Ht. set (s1 := set_queue _ _). destruct (schedule_fields s1) as (H1 & H2 & H3 & H4 & H5).
    apply (push_grows s _ (e_aggregate [x])); rewrite ?schedule_queue; try done.
    - by apply schedule_wakes.
    - intros [I1 _ _ _]. rewrite H4, H5. cbn [queue s1 set_queue markerQueued accepted].
      rewrite markers_app, I1, Ht. split_and!; [| by rewrite app_nil_r | done].
      unfold markers. rewrite lsum_cons, lsum_nil. cbn. lia. }
  unfold tail_aggregate in Hopen.
  destruct (last (queue s)) as [[|n d|a]|] eqn:Hl; try by apply Hopen.
  apply last_Some in Hl as [q Hq]. rewrite Hq, removelast_last. constructor; try done.
  - exists (q ++ [e_aggregate (a ++ [x])]), []. rewrite app_nil_r. split; [done |]. rewrite Hq.
    apply Forall2_app; [apply grows_list_refl |]. constructor; [| done]. by exists [x].
  - exists []. by rewrite app_nil_r.
  - rewrite Hq. intros [H|H]; [by destruct q | by right].
  - intros [I1 I2 I3 I4]. rewrite Hq in *. constructor; cbn [queue set_queue markerQueued handled accepted closed].
    + rewrite <- I1, !markers_app. done.
    + by eapply separated_replace.
    + rewrite <- I3, !notices_app. done.
    + congruence.
Qed.

Lemma subscribe_grows st l s : grows s (subscribe st l s).
Proof. unfold subscribe. by case_if; apply quiet_grows. Qed.

Lemma unsubscribe_grows id s : grows s (unsubscribe id s).
Proof.
  unfold unsubscribe. destruct (subscriptions s !! id) as [sub|]; [| reflexivity]. case_if; [reflexivity |].
  by apply quiet_grows.
Qed.

Lemma tryClose_busy s : closed s = true \/ scheduled s = true -> tryClose s = s.
Proof. intros [H|H]; unfold tryClose; rewrite H; by rewrite ?orb_true_r. Qed.

Lemma closeWhenIdle_grows s : grows s (closeWhenIdle s).
Proof.
  unfold closeWhenIdle. set (s1 := set_flags _ _ _ _). rewrite tryClose_busy.
  - etransitivity; [| apply schedule_grows]. by apply quiet_grows.
  - destruct (closed s1) eqn:Hc; [left | right; by apply schedule_wakes].
    destruct (schedule_fields s1) as (_ & H & _). congruence.
Qed.

Lemma step_grows c s : grows s (step c s).
Proof.
  destruct c; cbn [step]; auto using markState_grows, fold_tail_grows, subscribe_grows,
    unsubscribe_grows, closeWhenIdle_grows.
  - unfold poke. case_if; [apply schedule_grows | reflexivity].
  - by apply quiet_grows.
Qed.

Lemma foldl_grows {A} (f : Notifier -> A -> Notifier) ls s : (forall t l, grows t (f t l)) -> grows s (foldl f s ls).
Proof.
  intros Hf. revert s. induction ls as [|l ls IH]; intros s; cbn [foldl]; [reflexivity |].
  etransitivity; [apply Hf | apply IH].
Qed.

Lemma steps_grow cs s : grows s (steps cs s).
Proof. apply foldl_grows. intros t c. apply step_grows. Qed.

(** The callback of a notice that is dropped because the notifier is closed. *)

Lemma run_delivered_grows d s : closed s = true -> grows s (run_delivered d s).
Proof.
  intros Hc. destruct d as [id|]; [| reflexivity]. cbn [run_delivered].
  etransitivity; [| apply steps_grow]. constructor; try done.
  - exists (queue s), []. split; [by rewrite app_nil_r | apply grows_list_refl].
  - exists [id]. split; [done | congruence].
  - intros []. by constructor.
Qed.

Lemma pushNotice_grows n d s : grows s (pushNotice n d s).
Proof.
  unfold pushNotice. destruct (closed s) eqn:Hc; [by apply run_delivered_grows |].
  set (s1 := set_queue _ _). destruct (schedule_fields s1) as (H1 & H2 & H3 & H4 & H5).
  apply (push_grows s _ (e_notice n d)); rewrite ?schedule_queue; try done.
  - by apply schedule_wakes.
  - intros [I1 _ _ _]. rewrite H4, H5. cbn [queue s1 set_queue markerQueued set_history accepted].
    rewrite markers_app, I1. split_and!; [| done | done]. unfold markers. rewrite lsum_cons, lsum_nil. cbn. lia.
Qed.

Lemma exec_grows c s : grows s (exec c s).
Proof. destruct c; cbn [exec]; auto using step_grows, pushNotice_grows. Qed.

Lemma exec_all_grows cs s : grows s (exec_all cs s).
Proof. apply foldl_grows. intros t c. apply exec_grows. Qed.

Lemma invoke_grows l d s : grows s (invoke l d s).
Proof. unfold invoke. etransitivity; [| apply exec_all_grows]. by apply quiet_grows. Qed.

Lemma deliverNotice_grows ls d s : grows s (deliverNotice ls d s).
Proof. apply foldl_grows. intros t l. case_if; [apply invoke_grows | reflexivity]. Qed.

Lemma deliverState_grows ls s : grows s (deliverState ls s).
Proof.
  unfold deliverState. destruct (snap (world s)); [| reflexivity]. case_if; [reflexivity |].
  etransitivity; [| apply foldl_grows; intros t l; case_if; [apply invoke_grows | reflexivity]].
  by apply quiet_grows.
Qed.

(** ** A round *)

Lemma separated_tail e es : separated (e :: es) -> separated es.
Proof. by intros [_ H]. Qed.

(** What delivering the entry [e] at the head of the queue does. *)

Record took (e : Entry) s s' : Prop := mk_took {
  t_queue : exists kept added, queue s' = kept ++ added /\ Forall2 entry_grows (tail (queue s)) kept;
  t_handled : handled s' = handled s ++ [e];
  t_closed : closed s' = closed s;
  t_released : released s' = released s ++ slots [e];
  t_inv : inv s';
}.

Lemma popped_inv e rest s : inv s -> queue s = e :: rest ->
  let s1 := set_queue rest (set_history (accepted s) (handled s ++ [e]) (released s) (log s) s) in
  inv (if is_state e then set_marker false s1 else s1).
Proof.
  intros [I1 I2 I3 I4] Hq s1. rewrite Hq in *.
  assert (Hc : closed s = false) by (destruct (closed s); [by specialize (I4 eq_refl) | done]).
  change (e :: rest) with ([e] ++ rest) in I1, I3. rewrite markers_app in I1. rewrite notices_app, app_assoc in I3.
  apply separated_tail in I2.
  assert (Hm : 0 <= markers rest) by (apply lsum_nonneg; intros x; by destruct (is_state x)).
  unfold markers in I1 at 1. rewrite lsum_cons, lsum_nil in I1.
  destruct e; cbn [is_state] in *; constructor;
    cbn [queue s1 set_queue set_marker set_history markerQueued handled accepted closed];
    try done; try congruence; try (by rewrite notices_app); try lia.
  destruct (markerQueued s); lia.
Qed.

Lemma handle_took states nts e rest s : inv s -> closed s = false -> queue s = e :: rest ->
  took e s (handle states nts e (set_queue rest (set_history (accepted s) (handled s ++ [e]) (released s) (log s) s))).
Proof.
  intros Hi Hc Hq. pose proof (popped_inv e rest s Hi Hq) as Hp. cbv zeta in Hp. set (s1 := set_queue _ _) in *.
  assert (H1 : handled s1 = handled s ++ [e] /\ closed s1 = false /\ released s1 = released s /\ queue s1 = rest) by done.
  destruct H1 as (H1 & H2 & H3 & H4). clearbody s1.
  assert (Hgrow : forall t t', grows t t' -> queue t = rest -> handled t = handled s ++ [e] -> closed t = false ->
    released t = released s ++ slots [e] -> inv t -> took e s t').
  { intros t t' [G1 G2 G3 (late & G4 & G4') G5 G6 G7] T1 T2 T3 T4 T5. constructor; try congruence; auto.
    - rewrite Hq. cbn [tail]. by rewrite <- T1.
    - by rewrite G4, (G4' T3), app_nil_r. }
  destruct e as [|n d|a]; cbn [handle is_state] in *.
  - apply (Hgrow (set_marker false s1)); try done; [apply deliverState_grows | by rewrite app_nil_r].
  - destruct (deliverNotice_grows nts (d_notice n) s1) as [(k & ad & G1 & G1') G2 G3 (late & G4 & G4') G5 G6 G7].
    set (s2 := deliverNotice _ _ _) in *. rewrite (G4' H2), app_nil_r in G4. destruct d as [id|]; cbn [run_delivered].
    + set (s3 := set_history _ _ _ _ _). destruct (steps_grow (settle id) s3) as [(k' & ad' & K1 & K1') K2 K3 (l' & K4 & K4') _ _ K7].
      change (queue s3) with (queue s2) in K1'. rewrite G1 in K1'. apply Forall2_app_inv_l in K1' as (k1 & k2 & F1 & F2 & ->).
      constructor.
      * exists k1, (k2 ++ ad'). rewrite app_assoc, Hq. split; [done |]. rewrite H4 in G1'. by eapply grows_list_trans.
      * rewrite K2. unfold s3. cbn [handled set_history]. congruence.
      * rewrite K3. unfold s3. cbn [closed set_history]. congruence.
      * rewrite K4, K4', app_nil_r; [unfold s3; cbn [released set_history]; by rewrite G4, H3 |].
        unfold s3. cbn [closed set_history]. congruence.
      * apply K7. destruct (G7 Hp). by constructor.
    + constructor; [| congruence | congruence | rewrite G4, H3; by rewrite app_nil_r | auto].
      exists k, ad. rewrite Hq. by rewrite <- H4.
  - apply (Hgrow s1); try done; [apply deliverNotice_grows | by rewrite app_nil_r].
Qed.

Lemma round_loop_exact count states nts s : inv s -> closed s = false -> (count <= length (queue s))%nat ->
  let s' := round_loop count states nts s in
  inv s' /\ closed s' = false /\ exists taken kept added,
    handled s' = handled s ++ taken /\ Forall2 entry_grows (take count (queue s)) taken
    /\ queue s' = kept ++ added /\ Forall2 entry_grows (drop count (queue s)) kept
    /\ released s' = released s ++ slots taken.
Proof.
  revert s. induction count as [|count IH]; intros s Hi Hc Hl; cbn [round_loop].
  - split_and!; [done | done |]. exists [], (queue s), []. rewrite !app_nil_r. split_and!; try done.
    apply grows_list_refl.
  - destruct (queue s) as [|e rest] eqn:Hq; [cbn in Hl; lia |].
    destruct (handle_took states nts e rest s Hi Hc Hq) as [(k & ad & T1 & T1') T2 T3 T4 T5].
    set (s1 := handle _ _ _ _) in *. rewrite Hq in T1'. cbn [tail] in T1'.
    pose proof (Forall2_length _ _ _ T1') as Hlen. cbn in Hl.
    destruct (IH s1 T5) as (I1 & I2 & taken & kept & added & L1 & L2 & L3 & L4 & L5);
      [congruence | rewrite T1, length_app; lia |].
    split_and!; [done | done |]. rewrite T1 in L2, L4. rewrite take_app_le in L2 by lia. rewrite drop_app_le in L4 by lia.
    apply Forall2_app_inv_l in L4 as (k1 & k2 & F1 & F2 & ->).
    exists (e :: taken), k1, (k2 ++ added). rewrite L1, L5, T2, T4, L3, <- !app_assoc. cbn [take drop app].
    split_and!; try done.
    + constructor; [apply entry_grows_refl |]. eapply grows_list_trans; [| exact L2]. by apply Forall2_take.
    + eapply grows_list_trans; [| exact F1]. by apply Forall2_drop.
    + unfold slots. cbn [omap list_omap]. by destruct e as [|n [d|]|a].
Qed.

(** ** Executions: calls made outside a round, and rounds when their turn comes *)

Inductive event (s : Notifier) : Notifier -> Prop :=
  | ev_call c : event s (exec c s)
  | ev_round : scheduled s = true -> event s (round s).

Inductive reachable (w : W) : Notifier -> Prop :=
  | reach_new : reachable w (newNotifier w)
  | reach_event s s' : reachable w s -> event s s' -> reachable w s'.

Record settled s : Prop := mk_settled {
  d_inv : inv s;
  d_wake : queue s = [] \/ scheduled s = true;
  d_released : exists late, released s = slots (handled s) ++ late /\ (closed s = false -> late = []);
}.

Lemma tryClose_same s : queue (tryClose s) = queue s /\ handled (tryClose s) = handled s
  /\ released (tryClose s) = released s /\ accepted (tryClose s) = accepted s
  /\ markerQueued (tryClose s) = markerQueued s /\ scheduled (tryClose s) = scheduled s
  /\ (closed (tryClose s) = true -> closed s = true \/ queue s = []).
Proof.
  unfold tryClose. destruct (negb (closing s) || _ || _ || _) eqn:Hb; [split_and!; auto |].
  destruct (default true (idle (world s))); [| split_and!; auto]. split_and!; auto.
  intros _. right. destruct (queue s) eqn:Hq; [done |]. exfalso.
  assert (Hz : (zlen (e :: l) =? 0) = false) by (apply Z.eqb_neq; unfold zlen; cbn; lia).
  rewrite Hz in Hb. cbn in Hb. by rewrite orb_true_r in Hb.
Qed.

Lemma tryClose_inv s : inv s -> inv (tryClose s).
Proof.
  intros [I1 I2 I3 I4]. destruct (tryClose_same s) as (H1 & H2 & H3 & H4 & H5 & H6 & H7).
  constructor; rewrite ?H1, ?H2, ?H4, ?H5; try done. intros Hc. destruct (H7 Hc); auto.
Qed.

Lemma zlen_zero_nil {A} (l : list A) : (zlen l =? 0) = true -> l = [].
Proof. destruct l; [done |]. unfold zlen. cbn. by intros ?%Z.eqb_eq. Qed.

(** What a round leaves behind. *)

Lemma round_taken s : inv s -> closed s = false ->
  let k := Z.to_nat (Z.min DELIVERY_QUANTUM (zlen (queue s))) in
  inv (round s) /\ (queue (round s) = [] \/ scheduled (round s) = true) /\ exists taken kept added,
    handled (round s) = handled s ++ taken /\ Forall2 entry_grows (take k (queue s)) taken
    /\ queue (round s) = kept ++ added /\ Forall2 entry_grows (drop k (queue s)) kept
    /\ released (round s) = released s ++ slots taken.
Proof.
  intros Hi Hc k. unfold round. cbv zeta.
  set (s0 := set_flags false (closing s) (closed s) s). change (queue s0) with (queue s).
  change (closed s0) with (closed s). rewrite Hc. fold k.
  assert (Hi0 : inv s0) by (destruct Hi; by constructor).
  destruct (round_loop_exact k (stateListeners s0) (noticeListeners s0) s0 Hi0 Hc) as (L1 & L2 & taken & kept & added & L);
    [change (queue s0) with (queue s); unfold k, zlen; lia |].
  set (s1 := round_loop _ _ _ _) in *. destruct (zlen (queue s1) =? 0) eqn:Hz; cbn [negb].
  - apply zlen_zero_nil in Hz. destruct (tryClose_same s1) as (H1 & H2 & H3 & H4 & H5 & H6 & H7).
    split_and!; [by apply tryClose_inv | left; congruence |]. exists taken, kept, added. rewrite H1, H2, H3. exact L.
  - destruct (schedule_fields s1) as (H2 & H3 & H4 & H5 & H6). split_and!.
    + by apply (g_inv _ _ (schedule_grows s1)).
    + right. by apply schedule_wakes.
    + exists taken, kept, added. rewrite schedule_queue, H2, H4. exact L.
Qed.

Lemma slots_app l1 l2 : slots (l1 ++ l2) = slots l1 ++ slots l2.
Proof. apply omap_app. Qed.

Lemma event_settled s s' : settled s -> event s s' -> settled s'.
Proof.
  intros [Hi Hw (late & Hr & Hl)] [c|Hs].
  - destruct (exec_grows c s) as [G1 G2 G3 (more & G4 & G4') G5 G6 G7]. constructor; [auto | auto |].
    exists (late ++ more). rewrite G4, Hr, G2, app_assoc. split; [done |]. rewrite G3. intros Hc.
    by rewrite (Hl Hc), (G4' Hc).
  - destruct (closed s) eqn:Hc.
    + unfold round. cbn [closed set_flags]. rewrite Hc. pose proof (v_closed _ Hi Hc) as Hq.
      constructor; [destruct Hi; by constructor | by left |]. exists late. split; [done |]. cbn. congruence.
    + destruct (round_taken s Hi Hc) as (R1 & R2 & taken & kept & added & R3 & _ & _ & _ & R4).
      constructor; [done | done |]. exists []. rewrite R4, R3, Hr, (Hl eq_refl), slots_app, !app_nil_r. done.
Qed.

Lemma reachable_settled w s : reachable w s -> settled s.
Proof.
  induction 1 as [|s s' _ IH Hev]; [| by eapply event_settled].
  constructor; [by constructor | by left |]. by exists [].
Qed.

(** The queue length of the source's header comment: one marker, the notices and
    one aggregate more than these. *)

Definition head_aggregate (es : list Entry) : Z :=
  match es with e :: _ => if is_aggregate e then 1 else 0 | [] => 0 end.

Lemma separated_length es : separated es ->
  zlen es <= 2 * (markers es + zlen (notices es)) + head_aggregate es.
Proof.
  induction es as [|e es IH]; [done |]. intros [He Hs]. specialize (IH Hs).
  change (e :: es) with ([e] ++ es). rewrite markers_app, notices_app, !zlen_app. unfold markers at 1.
  rewrite lsum_cons, lsum_nil. unfold head_aggregate in IH |- *.
  destruct e as [|n d|a]; unfold zlen in *; cbn [is_state is_aggregate app notices omap list_omap length Z.of_nat] in *.
  1, 2: destruct es as [|f es]; [lia | destruct (is_aggregate f); lia].
  destruct es as [|f es]; [lia |]. rewrite (He eq_refl) in IH. lia.
Qed.

(** What the round hands to observers that make no calls. *)

Fixpoint told (key : option string) (states nts : list nat) (last : option string) (es : list Entry)
    : list (nat * Delivery) :=
  match es with
  | [] => []
  | e_state :: es =>
     match key with
     | None => told key states nts last es
     | Some k => if bool_decide (last = Some k) then told key states nts last es
                 else map (fun l => (l, d_state k)) states ++ told key states nts (Some k) es
     end
  | e_notice n _ :: es => map (fun l => (l, d_notice n)) nts ++ told key states nts last es
  | e_aggregate a :: es => map (fun l => (l, d_aggregate a)) nts ++ told key states nts last es
  end.

Section silent.
Context (Hreact : forall h l d, react h l d = []) (Hsettle : forall id, settle id = []).

Definition add_log (l : list (nat * Delivery)) s : Notifier := set_history (accepted s) (handled s) (released s) (log s ++ l) s.

Lemma add_log_nil s : add_log [] s = s.
Proof. destruct s. unfold add_log, set_history. cbn. by rewrite app_nil_r. Qed.

Lemma add_log_app l1 l2 s : add_log l2 (add_log l1 s) = add_log (l1 ++ l2) s.
Proof. destruct s. unfold add_log, set_history. cbn. by rewrite app_assoc. Qed.

Lemma invoke_silent l d s : invoke l d s = add_log [(l, d)] s.
Proof. unfold invoke. by rewrite Hreact. Qed.

Lemma fold_silent (reg : Notifier -> list nat) d ls s : (forall t x, reg (add_log x t) = reg t) -> ls ⊆ reg s ->
  foldl (fun s l => if bool_decide (l ∈ reg s) then invoke l d s else s) s ls = add_log (map (fun l => (l, d)) ls) s.
Proof.
  intros Hreg. revert s. induction ls as [|l ls IH]; intros s Hin; cbn [foldl map]; [by rewrite add_log_nil |].
  rewrite bool_decide_eq_true_2 by (apply Hin; left). rewrite invoke_silent, IH, add_log_app; [done |].
  rewrite Hreg. intros x Hx. apply Hin. by right.
Qed.

Lemma round_loop_silent count s : (count <= length (queue s))%nat ->
  let s' := round_loop count (stateListeners s) (noticeListeners s) s in
  queue s' = drop count (queue s) /\ scheduled s' = scheduled s
  /\ log s' = log s ++ told (snap (world s)) (stateListeners s) (noticeListeners s) (lastDelivered s) (take count (queue s)).
Proof.
  cut (forall sl nl, (count <= length (queue s))%nat -> sl = stateListeners s -> nl = noticeListeners s ->
    let s' := round_loop count sl nl s in queue s' = drop count (queue s) /\ scheduled s' = scheduled s
    /\ log s' = log s ++ told (snap (world s)) sl nl (lastDelivered s) (take count (queue s))).
  { intros H Hl. by apply H. }
  revert s. induction count as [|count IH]; intros s sl nl Hl -> ->; cbn [round_loop].
  - by rewrite take_0, drop_0, app_nil_r.
  - destruct (queue s) as [|e rest] eqn:Hq; [cbn in Hl; lia |]. cbn in Hl. cbn [take drop told].
    set (s1 := set_queue _ _).
    assert (H1 : stateListeners s1 = stateListeners s /\ noticeListeners s1 = noticeListeners s /\ queue s1 = rest
      /\ scheduled s1 = scheduled s /\ log s1 = log s /\ world s1 = world s /\ lastDelivered s1 = lastDelivered s) by done.
    clearbody s1. destruct H1 as (H1 & H2 & H3 & H4 & H5 & H6 & H7).
    assert (Hgo : forall t x, stateListeners t = stateListeners s1 -> noticeListeners t = noticeListeners s1 ->
      queue t = rest -> scheduled t = scheduled s -> log t = log s ++ x -> world t = world s ->
      forall tl, x ++ told (snap (world s)) (stateListeners s) (noticeListeners s) (lastDelivered t) (take count rest) = tl ->
      let s' := round_loop count (stateListeners s) (noticeListeners s) t in queue s' = drop count rest
      /\ scheduled s' = scheduled s /\ log s' = log s ++ tl).
    { intros t x T1 T2 T3 T4 T5 T6 tl <-. destruct (IH t (stateListeners s) (noticeListeners s)) as (I1 & I2 & I3);
        [rewrite T3; lia | congruence | congruence |]. cbv zeta. rewrite I1, I2, I3, T3, T4, T5, T6, <- app_assoc. done. }
    destruct e as [|n d|a]; cbn [handle].
    + unfold deliverState. cbn [world set_marker lastDelivered]. rewrite H6, H7.
      destruct (snap (world s)) as [k|] eqn:Hk; [case_bool_decide as Hlast |].
      * apply (Hgo _ []); cbn; rewrite ?app_nil_r; congruence.
      * rewrite (fold_silent stateListeners) by (cbn; try done; by rewrite H1).
        apply (Hgo _ (map (fun l => (l, d_state k)) (stateListeners s))); cbn; congruence.
      * apply (Hgo _ []); cbn; rewrite ?app_nil_r; congruence.
    + unfold deliverNotice. rewrite (fold_silent noticeListeners) by (try done; by rewrite H2).
      replace (run_delivered d (add_log _ s1)) with
        (set_history (accepted s1) (handled s1) (released s1 ++ match d with Some id => [id] | None => [] end)
           (log s1 ++ map (fun l => (l, d_notice n)) (noticeListeners s)) s1).
      2: { destruct d as [id|]; cbn [run_delivered]; [rewrite Hsettle; done |]. unfold add_log. by rewrite app_nil_r. }
      apply (Hgo _ (map (fun l => (l, d_notice n)) (noticeListeners s))); cbn; congruence.
    + unfold deliverNotice. rewrite (fold_silent noticeListeners) by (try done; by rewrite H2).
      apply (Hgo _ (map (fun l => (l, d_aggregate a)) (noticeListeners s))); cbn; congruence.
Qed.

End silent.

(** C34: Notices leave the queue in the order they were accepted and none is lost:
    those handled followed by those waiting are exactly those accepted while the
    notifier was open.  The reservations released are those of the handled
    notices, in order, and beyond them only those of notices dropped after
    close.  A non-empty queue always has a turn scheduled.  At most one state
    marker waits, and the queue is no longer than 1 + notices + (1 + notices + 1),
    the bound of the file's header. *)
Theorem notifier_exact w s : reachable w s ->
  notices (handled s) ++ notices (queue s) = accepted s
  /\ (exists late, released s = slots (handled s) ++ late /\ (closed s = false -> late = []))
  /\ (queue s = [] \/ scheduled s = true)
  /\ markers (queue s) <= 1
  /\ zlen (queue s) <= (1 + zlen (notices (queue s))) + (1 + zlen (notices (queue s)) + 1).
Proof.
  intros Hr. destruct (reachable_settled w s Hr) as [[I1 I2 I3 I4] Hw Hd]. split_and!; try done.
  - rewrite I1. by destruct (markerQueued s).
  - pose proof (separated_length _ I2) as Hl. rewrite I1 in Hl.
    assert (head_aggregate (queue s) <= 1) by (unfold head_aggregate; destruct (queue s) as [|e ?]; [lia | by destruct e]).
    destruct (markerQueued s); lia.
Qed.

(** Whatever the observers do, a round of an open notifier delivers exactly the
    entries queued before it, at most [DELIVERY_QUANTUM], in order; the others
    and whatever is pushed meanwhile stay queued for a later turn, which is
    scheduled.  Entries waiting only grow by items folded into an aggregate.
    Each delivered notice releases its own reservation. *)
Theorem round_exact w s : reachable w s -> closed s = false -> exists taken kept added,
  handled (round s) = handled s ++ taken
  /\ queue (round s) = kept ++ added
  /\ zlen taken = Z.min DELIVERY_QUANTUM (zlen (queue s))
  /\ Forall2 entry_grows (queue s) (taken ++ kept)
  /\ released (round s) = released s ++ slots taken
  /\ (queue (round s) = [] \/ scheduled (round s) = true).
Proof.
  intros Hr Hc. destruct (reachable_settled w s Hr) as [Hi _ _].
  destruct (round_taken s Hi Hc) as (_ & R2 & taken & kept & added & R3 & R4 & R5 & R6 & R7).
  exists taken, kept, added. split_and!; try done.
  - pose proof (Forall2_length _ _ _ R4) as Hl. rewrite length_take in Hl.
    unfold zlen, DELIVERY_QUANTUM in *. lia.
  - rewrite <- (take_drop (Z.to_nat (Z.min DELIVERY_QUANTUM (zlen (queue s)))) (queue s)). by apply Forall2_app.
Qed.

(** To observers that make no calls, a round hands every notice and aggregate
    it delivers, once to each notice listener and in queue order, and the
    current snapshot to each state listener at a marker only when it differs
    from the last one delivered. *)
Theorem silent_round_told s : (forall h l d, react h l d = []) -> (forall id, settle id = []) -> closed s = false ->
  let k := Z.to_nat (Z.min DELIVERY_QUANTUM (zlen (queue s))) in
  log (round s) = log s ++ told (snap (world s)) (stateListeners s) (noticeListeners s) (lastDelivered s) (take k (queue s))
  /\ queue (round s) = drop k (queue s).
Proof.
  intros H1 H2 Hc k. unfold round. cbv zeta. set (s0 := set_flags false (closing s) (closed s) s).
  change (closed s0) with (closed s). rewrite Hc. change (queue s0) with (queue s). fold k.
  destruct (round_loop_silent H1 H2 k s0) as (L1 & _ & L3); [change (queue s0) with (queue s); unfold k, zlen; lia |].
  set (s1 := round_loop _ _ _ _) in *.
  assert (Hlog : log (if negb (zlen (queue s1) =? 0) then schedule s1 else tryClose s1) = log s1).
  { case_if; [unfold schedule; by case_if |]. unfold tryClose. case_if; [done |]. by case_if. }
  rewrite Hlog, L3. split; [done |]. case_if; [rewrite schedule_queue; exact L1 |].
  destruct (tryClose_same s1) as (Hq & _). rewrite Hq. exact L1.
Qed.

End notifier.

Arguments Notifier : clear implicits.
Arguments Delivery : clear implicits.
Arguments Call : clear implicits.
Arguments Entry : clear implicits.
Arguments Step : clear implicits.

(** ** A notifier at work

    The observer answers the first notice with a notice of its own. *)

Section demo.

Definition demo_react (h : list (nat * Delivery nat nat)) (l : nat) (d : Delivery nat nat) : list (Call nat nat bool) :=
  match d with d_notice 1%nat => [c_pushNotice 3%nat (Some 9%nat)] | _ => [] end.

Definition demo_calls : list (Call nat nat bool) :=
  [c_step (c_onState 0); c_step (c_onNotice 1); c_pushNotice 1%nat (Some 7%nat); c_step c_markState;
   c_step (c_fold 4%nat); c_step (c_fold 5%nat); c_step (c_world negb); c_step c_closeWhenIdle].

Definition demo_snap (w : bool) : option string := Some (if w then "live" else "gone")%string.

Definition demo_settle (id : nat) : list (Step nat bool) := [c_poke].

Definition demo_start : Notifier nat nat bool := foldl (fun s c => exec Some true demo_settle c s) (newNotifier true) demo_calls.

Definition demo_round (s : Notifier nat nat bool) : Notifier nat nat bool := round demo_snap Some true demo_react demo_settle s.

Lemma demo_reachable : reachable demo_snap Some true demo_react demo_settle true demo_start.
Proof.
  unfold demo_start, demo_calls. cbn [foldl]. repeat (eapply reach_event; [| apply ev_call]). apply reach_new.
Qed.

Lemma demo_reachable_round : reachable demo_snap Some true demo_react demo_settle true (demo_round demo_start).
Proof. eapply reach_event; [apply demo_reachable | by apply ev_round]. Qed.

Lemma notifier_exact_witness :
  notices (handled (demo_round demo_start)) = [1%nat] /\ notices (queue (demo_round demo_start)) = [3%nat]
  /\ released (demo_round demo_start) = [7%nat]
  /\ notices (handled (demo_round demo_start)) ++ notices (queue (demo_round demo_start)) = accepted (demo_round demo_start).
Proof.
  split; [by vm_compute |]. split; [by vm_compute |]. split; [by vm_compute |].
  destruct (notifier_exact _ _ _ _ _ _ _ demo_reachable_round) as (H & _). exact H.
Defined.

Lemma round_exact_witness :
  queue demo_start = [e_notice 1%nat (Some 7%nat); e_state; e_aggregate [4%nat; 5%nat]]
  /\ exists taken kept added, handled (demo_round demo_start) = handled demo_start ++ taken
    /\ queue (demo_round demo_start) = kept ++ added /\ zlen taken = 3.
Proof.
  split; [by vm_compute |].
  destruct (round_exact demo_snap Some true demo_react demo_settle true demo_start demo_reachable)
    as (taken & kept & added & H1 & H2 & H3 & _); [by vm_compute |].
  exists taken, kept, added. split; [exact H1 |]. split; [exact H2 |]. rewrite H3. by vm_compute.
Defined.

Definition silent_react (h : list (nat * Delivery nat nat)) (l : nat) (d : Delivery nat nat) : list (Call nat nat bool) := [].

Definition silent_settle (id : nat) : list (Step nat bool) := [].

Lemma silent_round_told_witness :
  log (round demo_snap Some true silent_react silent_settle demo_start)
    = [(1%nat, d_notice 1%nat); (0%nat, d_state "gone"%string); (1%nat, d_aggregate [4%nat; 5%nat])].
Proof.
  destruct (silent_round_told demo_snap Some true silent_react silent_settle demo_start) as (H & _);
    [done | done | by vm_compute |]. rewrite H. by vm_compute.
Defined.

End demo.
