(* ===== verification/BusinessMirror.v ===== *)
(** * The client's mirror of business facts (packages/client/src/business-mirror.ts)

    [BusinessMirror] keeps the records of one confirmed view of the server: a
    complete paged snapshot, then consecutive change frames.  A record holds
    the fields the mirror reads; the remaining fields of its schema are the
    opaque [rest], already parsed.  [encodedBytes value] is
    [codec.encode(JSON.stringify(value)).byteLength] with the [codec] port given by
    the host, [None] when it throws.  The calls the mirror makes on its own
    [Notifier] are recorded, in order, in [effects]. *)

From S2P Require Import Prelude Json Protocol Operations JsMap Notifier.

(** ** Business events (packages/protocol/src/business-events.ts) *)

Inductive BusinessKind := k_repo | k_task | k_tab | k_run | k_operation | k_config | k_runtime.

#[export] Instance BusinessKind_eq : EqDecision BusinessKind.
Proof. solve_decision. Defined.

Definition BUSINESS_KINDS : list BusinessKind := [k_repo; k_task; k_tab; k_run; k_operation; k_config; k_runtime].

Definition kind_name (k : BusinessKind) : string :=
  match k with
  | k_repo => "repo" | k_task => "task" | k_tab => "tab" | k_run => "run"
  | k_operation => "operation" | k_config => "config" | k_runtime => "runtime"
  end.

Definition snapshotItems : Z := 65536.
Definition snapshotBytes : Z := 16 * 1024 * 1024.
Definition journalItems : Z := 4096.

Definition BusinessFilter : Type := option (list BusinessKind).

Definition BusinessFilterSchema (f : BusinessFilter) : bool :=
  match f with Some ks => (1 <=? zlen ks) && (zlen ks <=? zlen BUSINESS_KINDS) | None => true end.

Definition includes (ks : list BusinessKind) (k : BusinessKind) : bool := bool_decide (k ∈ ks).

Definition normalizedBusinessKinds (f : BusinessFilter) : list BusinessKind :=
  List.filter (fun k => match f with Some ks => includes ks k | None => true end) BUSINESS_KINDS.

Definition businessFilterIdentity (f : BusinessFilter) : string := comma_join (map kind_name (normalizedBusinessKinds f)).

Record BusinessCursor := mkCursor {
  bcu_serverId : string; bcu_relayInstanceId : string; bcu_streamId : string;
  bcu_sequence : Z; bcu_filter : string;
}.

Definition BusinessCursorSchema (c : BusinessCursor) : bool :=
  OpaqueIdSchema (bcu_serverId c) && OpaqueIdSchema (bcu_relayInstanceId c) && OpaqueIdSchema (bcu_streamId c)
  && SequenceSchema (bcu_sequence c) && (1 <=? slen (bcu_filter c)) && (slen (bcu_filter c) <=? 128).

Definition sameBusinessCursor (a b : BusinessCursor) : bool :=
  seqb (bcu_serverId a) (bcu_serverId b) && seqb (bcu_relayInstanceId a) (bcu_relayInstanceId b)
  && seqb (bcu_streamId a) (bcu_streamId b) && seqb (bcu_filter a) (bcu_filter b)
  && (bcu_sequence a =? bcu_sequence b).

Inductive RunLifecycle := lc_starting | lc_running | lc_exited | lc_stopped_with_server | lc_interrupted.

Inductive RecordBody :=
  | repo_record (repoId : string) (revision : Z) (rest : json)
  | task_record (taskId : string) (revision : Z) (rest : json)
  | tab_record (tabId : string) (revision : Z) (latestRun : option RunRef) (rest : json)
  | run_record (run : RunRef) (tabId : option string) (lifecycle : RunLifecycle) (startedAtMs : Z) (rest : json)
  | operation_record (operationId : string) (revision : Z) (state : OperationState) (rest : json)
  | config_record (revision : Z) (rest : json)
  | runtime_record (run : RunRef) (rest : json).

Record BusinessRecord := mkRecord { b_id : string; b_record : RecordBody }.

Definition b_kind (v : BusinessRecord) : BusinessKind :=
  match b_record v with
  | repo_record _ _ _ => k_repo | task_record _ _ _ => k_task | tab_record _ _ _ _ => k_tab
  | run_record _ _ _ _ _ => k_run | operation_record _ _ _ _ => k_operation
  | config_record _ _ => k_config | runtime_record _ _ => k_runtime
  end.

(** ["revision" in value.record], and its value. *)

Definition b_revision (v : BusinessRecord) : option Z :=
  match b_record v with
  | repo_record _ r _ | task_record _ r _ | tab_record _ r _ _ | operation_record _ r _ _ | config_record r _ => Some r
  | run_record _ _ _ _ _ | runtime_record _ _ => None
  end.

Definition record_id_ok (id : string) : bool := (1 <=? slen id) && (slen id <=? 512).

(** [/^[A-Za-z0-9][A-Za-z0-9._-]{0,39}$/] *)

Definition BusinessRecordSchema (v : BusinessRecord) : bool :=
  match b_record v with
  | repo_record rid r _ | task_record rid r _ => record_id_ok (b_id v) && ResourceIdSchema rid && SequenceSchema r
  | tab_record rid r latest _ =>
     record_id_ok (b_id v) && ResourceIdSchema rid && SequenceSchema r && optional_ok RunRefSchema latest
  | run_record run tab _ at_ _ =>
     record_id_ok (b_id v) && RunRefSchema run && optional_ok ResourceIdSchema tab && SequenceSchema at_
  | operation_record op r _ _ => record_id_ok (b_id v) && OpaqueIdSchema op && SequenceSchema r
  | config_record r _ => (seqb (b_id v) "server" || seqb (b_id v) "entry") && SequenceSchema r
  | runtime_record run _ => record_id_ok (b_id v) && RunRefSchema run
  end.

Inductive BusinessChange :=
  | ch_upsert (value : BusinessRecord)
  | ch_delete (kind : BusinessKind) (id : string).

Definition BusinessChangeSchema (c : BusinessChange) : bool :=
  match c with ch_upsert v => BusinessRecordSchema v | ch_delete _ id => record_id_ok id end.

Inductive BusinessFrame :=
  | f_snapshot_begin (snapshotId : string)
  | f_snapshot_page (snapshotId : string) (page : Z) (records : list BusinessRecord)
  | f_snapshot_end (snapshotId : string) (pages : Z) (cursor : BusinessCursor)
  | f_ready (cursor : BusinessCursor)
  | f_changes (after cursor : BusinessCursor) (changes : list BusinessChange)
  | f_reset (reason : string)
  | f_error (reason : string).

Definition BUSINESS_RESET_REASONS : list string :=
  ["identity"; "generation"; "filter"; "gap"; "overflow"; "publication-uncertain"; "unavailable"]%string.

Definition BusinessFrameSchema (f : BusinessFrame) : bool :=
  match f with
  | f_snapshot_begin sid => OpaqueIdSchema sid
  | f_snapshot_page sid page rs =>
     OpaqueIdSchema sid && SequenceSchema page && forallb BusinessRecordSchema rs && (zlen rs <=? snapshotItems)
  | f_snapshot_end sid pages c => OpaqueIdSchema sid && SequenceSchema pages && BusinessCursorSchema c
  | f_ready c => BusinessCursorSchema c
  | f_changes after c chs =>
     BusinessCursorSchema after && BusinessCursorSchema c && forallb BusinessChangeSchema chs && (zlen chs <=? journalItems)
  | f_reset reason => existsb (seqb reason) BUSINESS_RESET_REASONS
  | f_error reason => existsb (seqb reason) ["snapshot-too-large"; "busy"; "unavailable"]%string
  end.

Definition businessRunId (run : RunRef) : string :=
  stringify (JArr [JStr (run_relayInstanceId run); JStr (run_runId run)]).

(** ** The mirror *)

Record BusinessIdentity := mkIdentity { bi_serverId : string; bi_relayInstanceId : string }.

Inductive MirrorStatus := ms_idle | ms_stale | ms_snapshot | ms_current | ms_disposed.

#[export] Instance MirrorStatus_eq : EqDecision MirrorStatus.
Proof. solve_decision. Defined.

Record MirrorEntry := mkMirrorEntry { me_value : BusinessRecord; me_bytes : Z }.

Definition Records : Type := jsmap string MirrorEntry.

Record Stage := mkStage { sg_id : string; sg_page : Z; sg_records : Records; sg_bytes : Z }.

Inductive MirrorResult := m_ok | m_failed (reason : string).

Record BusinessMirror := mkMirror {
  status : MirrorStatus;
  version : Z;
  identity : option BusinessIdentity;
  target : option BusinessIdentity;
  cursor : option BusinessCursor;
  records : Records;
  bytes : Z;
  stage : option Stage;
  initialized : bool;
  ready : bool;
  lastError : option string;
  bm_filter : BusinessFilter;
  kinds : list BusinessKind;
  effects : list (Step Empty_set unit);
}.

Definition newBusinessMirror (filter : option BusinessFilter) : option BusinessMirror :=
  let f := default None filter in
  if BusinessFilterSchema f
  then Some (mkMirror ms_idle 0 None None None [] 2 None false false None f (normalizedBusinessKinds f) [])
  else None.

Definition set_view (id : option BusinessIdentity) (c : option BusinessCursor) (rs : Records) (n : Z) (m : BusinessMirror) : BusinessMirror :=
  mkMirror (status m) (version m) id (target m) c rs n (stage m) (initialized m) (ready m) (lastError m)
    (bm_filter m) (kinds m) (effects m).

Definition set_stage (st : MirrorStatus) (sg : option Stage) (m : BusinessMirror) : BusinessMirror :=
  mkMirror st (version m) (identity m) (target m) (cursor m) (records m) (bytes m) sg (initialized m) (ready m)
    (lastError m) (bm_filter m) (kinds m) (effects m).

Definition set_phase (init rdy : bool) (err : option string) (m : BusinessMirror) : BusinessMirror :=
  mkMirror (status m) (version m) (identity m) (target m) (cursor m) (records m) (bytes m) (stage m) init rdy err
    (bm_filter m) (kinds m) (effects m).

Definition set_target (t : option BusinessIdentity) (m : BusinessMirror) : BusinessMirror :=
  mkMirror (status m) (version m) (identity m) t (cursor m) (records m) (bytes m) (stage m) (initialized m) (ready m)
    (lastError m) (bm_filter m) (kinds m) (effects m).

Definition call (c : Step Empty_set unit) (m : BusinessMirror) : BusinessMirror :=
  mkMirror (status m) (version m) (identity m) (target m) (cursor m) (records m) (bytes m) (stage m) (initialized m)
    (ready m) (lastError m) (bm_filter m) (kinds m) (effects m ++ [c]).

Definition changed (m : BusinessMirror) : BusinessMirror :=
  call c_markState
    (mkMirror (status m) (version m + 1) (identity m) (target m) (cursor m) (records m) (bytes m) (stage m)
       (initialized m) (ready m) (lastError m) (bm_filter m) (kinds m) (effects m)).

Record MirrorSnapshot := mkMirrorSnapshot {
  ss_status : MirrorStatus; ss_version : Z; ss_identity : option BusinessIdentity; ss_cursor : option BusinessCursor;
  ss_records : list BusinessRecord; ss_bytes : Z; ss_stagingItems : Z; ss_lastError : option string;
}.

Definition snapshot (m : BusinessMirror) : MirrorSnapshot :=
  mkMirrorSnapshot (status m) (version m) (identity m) (cursor m) (map me_value (jvalues (records m))) (bytes m)
    (match stage m with Some sg => zlen (sg_records sg) | None => 0 end) (lastError m).

(** [onState] with the number of listeners its notifier already has. *)

Definition onState (listeners : Z) (l : nat) : option (Step Empty_set unit) :=
  if 64 <=? listeners then None else Some (c_onState l).

Definition stale (reason : string) (discardCursor : bool) (m : BusinessMirror) : BusinessMirror :=
  if bool_decide (status m = ms_disposed) then m
  else
    let m := set_stage ms_stale None m in
    let m := set_phase (initialized m) false (Some reason) m in
    changed (if discardCursor then set_view (identity m) None (records m) (bytes m) m else m).

Definition fail (reason : string) (m : BusinessMirror) : MirrorResult * BusinessMirror :=
  (m_failed reason, stale reason true m).

Definition resumeCursor (t : BusinessIdentity) (m : BusinessMirror) : option BusinessCursor :=
  match cursor m with
  | Some c => if seqb (bcu_serverId c) (bi_serverId t) && seqb (bcu_relayInstanceId c) (bi_relayInstanceId t)
              then Some c else None
  | None => None
  end.

Definition begin_mirror (t : BusinessIdentity) (since : option BusinessCursor) (m : BusinessMirror)
    : MirrorResult * BusinessMirror :=
  if bool_decide (status m = ms_disposed) then (m_failed "disposed", m)
  else if negb (OpaqueIdSchema (bi_serverId t)) || negb (OpaqueIdSchema (bi_relayInstanceId t)) then fail "identity" m
  else
    let resumable := resumeCursor t m in
    let refused := match since, resumable with
                   | Some s, Some r => negb (sameBusinessCursor s r)
                   | Some _, None => true
                   | None, _ => false
                   end in
    if refused then fail "cursor" m
    else
      let m := set_target (Some t) m in
      let m := set_view (identity m) since (records m) (bytes m) m in
      let m := set_stage ms_stale None m in
      let m := set_phase (match since with Some _ => true | None => false end) false None m in
      (m_ok, changed m).

Definition dispose (m : BusinessMirror) : BusinessMirror :=
  if bool_decide (status m = ms_disposed) then m
  else
    let m := set_stage ms_disposed None m in
    let m := set_view (identity m) None [] 2 m in
    call c_closeWhenIdle (changed m).

(** *** Frames *)

Definition record_key (k : BusinessKind) (id : string) : string := stringify (JArr [JStr (kind_name k); JStr id]).

Definition key (v : BusinessRecord) : string := record_key (b_kind v) (b_id v).

Definition bound (t : BusinessIdentity) (f : BusinessFilter) (c : BusinessCursor) : bool :=
  seqb (bcu_serverId c) (bi_serverId t) && seqb (bcu_relayInstanceId c) (bi_relayInstanceId t)
  && seqb (bcu_filter c) (businessFilterIdentity f).

Definition validRecord (ks : list BusinessKind) (t : BusinessIdentity) (v : BusinessRecord) : bool :=
  if negb (includes ks (b_kind v)) then false
  else match b_record v with
       | run_record run _ _ _ _ => seqb (b_id v) (businessRunId run) && seqb (run_serverId run) (bi_serverId t)
       | runtime_record run _ =>
          seqb (b_id v) (businessRunId run) && seqb (run_serverId run) (bi_serverId t)
          && seqb (run_relayInstanceId run) (bi_relayInstanceId t)
       | repo_record repoId _ _ => seqb (b_id v) repoId
       | task_record taskId _ _ => seqb (b_id v) taskId
       | tab_record tabId _ _ _ => seqb (b_id v) tabId
       | operation_record operationId _ _ _ => seqb (b_id v) operationId
       | config_record _ _ => true
       end.

Definition finalOperation (s : OperationState) : bool :=
  match s with os_succeeded | os_failed | os_cancelled => true | _ => false end.

Definition activeRun (l : RunLifecycle) : bool := match l with lc_starting | lc_running => true | _ => false end.

(** An identifier that is truthy: neither [null] nor the empty string. *)

Definition truthy (o : option string) : option string :=
  match o with Some EmptyString => None | _ => o end.

Definition started (v : BusinessRecord) : Z := match b_record v with run_record _ _ _ at_ _ => at_ | _ => 0 end.

(** The first loop of [pruneHistory]: the maps [latest] and [newest]. *)

Definition scan (acc : jsmap string string * jsmap string BusinessRecord) (v : BusinessRecord)
    : jsmap string string * jsmap string BusinessRecord :=
  let (latest, newest) := acc in
  match b_record v with
  | tab_record _ _ (Some run) _ => (jset (b_id v) (businessRunId run) latest, newest)
  | run_record _ tabId _ at_ _ =>
     match truthy tabId with
     | Some t => match jget t newest with
                 | Some prior => if started prior <=? at_ then (latest, jset t v newest) else (latest, newest)
                 | None => (latest, jset t v newest)
                 end
     | None => (latest, newest)
     end
  | _ => (latest, newest)
  end.

Definition fill (latest : jsmap string string) (newest : jsmap string BusinessRecord) : jsmap string string :=
  foldl (fun acc '(tab, v) => if jhas tab acc then acc else jset tab (b_id v) acc) latest newest.

Definition pruned (latest : jsmap string string) (v : BusinessRecord) : bool :=
  match b_record v with
  | operation_record _ _ state _ => finalOperation state
  | run_record _ tabId lifecycle _ _ =>
     negb (activeRun lifecycle)
     && match truthy tabId with
        | Some t => negb (bool_decide (jget t latest = Some (b_id v)))
        | None => true
        end
  | _ => false
  end.

Definition pruneHistory (rs : Records) : Records :=
  let (latest, newest) := foldl scan ([], []) (map me_value (jvalues rs)) in
  let latest := fill latest newest in
  List.filter (fun kv => negb (pruned latest (me_value kv.2))) rs.

Definition view_bytes (rs : Records) : Z := 2 + Z.max 0 (zlen rs - 1) + lsum me_bytes (jvalues rs).

Definition over_capacity (items n : Z) : bool := (snapshotItems <? items) || (snapshotBytes <? n).

Section mirror.
Context (encodedBytes : BusinessRecord -> option Z).

(** The loop of a snapshot page. *)

Fixpoint page_loop (ks : list BusinessKind) (t : BusinessIdentity) (values : list BusinessRecord) (sg : Stage)
    : string + Stage :=
  match values with
  | [] => inr sg
  | value :: rest =>
     if negb (validRecord ks t value) || jhas (key value) (sg_records sg) then inl "snapshot-record"%string
     else match encodedBytes value with
          | None => inl "invalid-state"%string
          | Some n =>
             let total := sg_bytes sg + (n + (if zlen (sg_records sg) =? 0 then 0 else 1)) in
             let rs := jset (key value) (mkMirrorEntry value n) (sg_records sg) in
             if over_capacity (zlen rs) total then inl "capacity"%string
             else page_loop ks t rest (mkStage (sg_id sg) (sg_page sg) rs total)
          end
  end.

(** The loop of a change frame. *)

Fixpoint change_loop (ks : list BusinessKind) (t : BusinessIdentity) (changes : list BusinessChange) (next : Records)
    : string + Records :=
  match changes with
  | [] => inr next
  | ch_delete kind id :: rest =>
     if negb (includes ks kind) then inl "filter"%string
     else change_loop ks t rest (jdelete (record_key kind id) next)
  | ch_upsert value :: rest =>
     if negb (validRecord ks t value) then inl "record"%string
     else
       let older := match jget (key value) next with
                    | Some previous => match b_revision (me_value previous), b_revision value with
                                       | Some p, Some r => r <? p
                                       | _, _ => false
                                       end
                    | None => false
                    end in
       if older then change_loop ks t rest next
       else match encodedBytes value with
            | None => inl "invalid-state"%string
            | Some n => change_loop ks t rest (jset (key value) (mkMirrorEntry value n) next)
            end
  end.

Definition accept_page (t : BusinessIdentity) (snapshotId : string) (page : Z) (values : list BusinessRecord)
    (m : BusinessMirror) : string + BusinessMirror :=
  match stage m with
  | None => inl "snapshot-order"%string
  | Some sg =>
     if negb (seqb (sg_id sg) snapshotId) || negb (sg_page sg =? page) then inl "snapshot-order"%string
     else match page_loop (kinds m) t values sg with
          | inl reason => inl reason
          | inr sg => inr (set_stage (status m) (Some (mkStage (sg_id sg) (sg_page sg + 1) (sg_records sg) (sg_bytes sg))) m)
          end
  end.

Definition accept_end (t : BusinessIdentity) (snapshotId : string) (pages : Z) (c : BusinessCursor)
    (m : BusinessMirror) : string + BusinessMirror :=
  match stage m with
  | None => inl "snapshot-order"%string
  | Some sg =>
     if negb (seqb (sg_id sg) snapshotId) || negb (sg_page sg =? pages) then inl "snapshot-order"%string
     else
       let m := set_view (Some t) (Some c) (sg_records sg) (sg_bytes sg) m in
       let m := set_stage ms_stale None m in
       inr (set_phase true (ready m) (lastError m) m)
  end.

Definition with_sequence (c : BusinessCursor) (n : Z) : BusinessCursor :=
  mkCursor (bcu_serverId c) (bcu_relayInstanceId c) (bcu_streamId c) n (bcu_filter c).

Definition accept_changes (t : BusinessIdentity) (after c : BusinessCursor) (changes : list BusinessChange)
    (m : BusinessMirror) : string + BusinessMirror :=
  match cursor m with
  | Some current =>
     if negb (initialized m) || negb (sameBusinessCursor after current)
        || negb (bcu_sequence c =? bcu_sequence current + 1)
        || negb (sameBusinessCursor (with_sequence c (bcu_sequence current)) current)
     then inl "gap"%string
     else match change_loop (kinds m) t changes (records m) with
          | inl reason => inl reason
          | inr next =>
             let next := pruneHistory next in
             let n := view_bytes next in
             if over_capacity (zlen next) n then inl "capacity"%string
             else inr (set_view (identity m) (Some c) next n m)
          end
  | None => inl "gap"%string
  end.

Definition accept_ready (c : BusinessCursor) (m : BusinessMirror) : string + BusinessMirror :=
  match cursor m with
  | Some current =>
     if ready m || negb (initialized m) || negb (sameBusinessCursor c current) then inl "ready"%string
     else inr (set_phase (initialized m) true (lastError m) (set_stage ms_current (stage m) m))
  | None => inl "ready"%string
  end.

Definition frame_cursor (f : BusinessFrame) : option BusinessCursor :=
  match f with
  | f_snapshot_end _ _ c | f_ready c | f_changes _ c _ => Some c
  | _ => None
  end.

Definition accept_frame (t : BusinessIdentity) (f : BusinessFrame) (m : BusinessMirror) : string + BusinessMirror :=
  match f with
  | f_reset reason | f_error reason => inl reason
  | f_snapshot_begin sid =>
     if initialized m || match stage m with Some _ => true | None => false end then inl "snapshot-order"%string
     else inr (set_stage ms_snapshot (Some (mkStage sid 0 [] 2)) m)
  | f_snapshot_page sid page values => accept_page t sid page values m
  | f_snapshot_end sid pages c => accept_end t sid pages c m
  | f_changes after c changes => accept_changes t after c changes m
  | f_ready c => accept_ready c m
  end.

Definition accept (f : BusinessFrame) (m : BusinessMirror) : MirrorResult * BusinessMirror :=
  if bool_decide (status m = ms_disposed) then (m_failed "disposed", m)
  else match target m with
       | None => fail "identity" m
       | Some t =>
          if negb (BusinessFrameSchema f) then fail "frame" m
          else
            match f, frame_cursor f with
            | (f_reset reason | f_error reason), _ => fail reason m
            | _, Some c => if negb (bound t (bm_filter m) c) then fail "cursor" m
                           else match accept_frame t f m with
                                | inl reason => fail reason m
                                | inr m => (m_ok, changed m)
                                end
            | _, None => match accept_frame t f m with
                         | inl reason => fail reason m
                         | inr m => (m_ok, changed m)
                         end
            end
       end.

(** ** The view promised: plain records, without keys or sizes *)

Definition view (rs : Records) : list BusinessRecord := map me_value (jvalues rs).

Fixpoint find_key (k : string) (vs : list BusinessRecord) : option BusinessRecord :=
  match vs with
  | [] => None
  | u :: rest => if decide (k = key u) then Some u else find_key k rest
  end.

Fixpoint put (v : BusinessRecord) (vs : list BusinessRecord) : list BusinessRecord :=
  match vs with
  | [] => [v]
  | u :: rest => if decide (key v = key u) then v :: rest else u :: put v rest
  end.

Fixpoint drop_key (k : string) (vs : list BusinessRecord) : list BusinessRecord :=
  match vs with
  | [] => []
  | u :: rest => if decide (k = key u) then rest else u :: drop_key k rest
  end.

(** [v] is older than what the view holds under its key. *)

Definition outdated (vs : list BusinessRecord) (v : BusinessRecord) : bool :=
  match find_key (key v) vs with
  | Some u => match b_revision u, b_revision v with Some p, Some r => r <? p | _, _ => false end
  | None => false
  end.

Definition spec_change (vs : list BusinessRecord) (c : BusinessChange) : list BusinessRecord :=
  match c with
  | ch_delete k id => drop_key (record_key k id) vs
  | ch_upsert v => if outdated vs v then vs else put v vs
  end.

(** The latest run of a tab: the one its row names, else the last observed to
    start, the later in the view winning a tie. *)

Definition tab_step (t : string) (acc : option string) (v : BusinessRecord) : option string :=
  match b_record v with
  | tab_record _ _ (Some run) _ => if decide (t = b_id v) then Some (businessRunId run) else acc
  | _ => acc
  end.

Definition run_step (t : string) (acc : option BusinessRecord) (v : BusinessRecord) : option BusinessRecord :=
  match b_record v with
  | run_record _ tabId _ at_ _ =>
     if decide (truthy tabId = Some t)
     then match acc with Some p => if started p <=? at_ then Some v else acc | None => Some v end
     else acc
  | _ => acc
  end.

Definition tab_latest (vs : list BusinessRecord) (t : string) : option string := foldl (tab_step t) None vs.

Definition newest_run (vs : list BusinessRecord) (t : string) : option BusinessRecord := foldl (run_step t) None vs.

Definition latest_run (vs : list BusinessRecord) (t : string) : option string :=
  match tab_latest vs t with Some id => Some id | None => b_id <$> newest_run vs t end.

(** What stays: unresolved operations, active runs, the latest run of each tab,
    and every record of another kind. *)

Definition kept (vs : list BusinessRecord) (v : BusinessRecord) : bool :=
  match b_record v with
  | operation_record _ _ state _ => negb (finalOperation state)
  | run_record _ tabId lifecycle _ _ =>
     activeRun lifecycle
     || match truthy tabId with
        | Some t => bool_decide (latest_run vs t = Some (b_id v))
        | None => false
        end
  | _ => true
  end.

Definition spec_changes (vs : list BusinessRecord) (changes : list BusinessChange) : list BusinessRecord :=
  let vs := foldl spec_change vs changes in List.filter (kept vs) vs.

(** Views that a set of frames supports: every page of a snapshot, in order and
    up to its end, then change frames each following the one before. *)

Inductive pages_of (sent : list BusinessFrame) (sid : string) : Z -> list BusinessRecord -> Prop :=
  | pages_none : pages_of sent sid 0 []
  | pages_more n vs values : pages_of sent sid n vs -> f_snapshot_page sid n values ∈ sent ->
      pages_of sent sid (n + 1) (vs ++ values).

Inductive view_at (sent : list BusinessFrame) : BusinessCursor -> list BusinessRecord -> Prop :=
  | view_snapshot sid pages c vs : pages_of sent sid pages vs -> f_snapshot_end sid pages c ∈ sent -> view_at sent c vs
  | view_changes after changes vs : view_at sent after vs ->
      f_changes after (with_sequence after (bcu_sequence after + 1)) changes ∈ sent ->
      view_at sent (with_sequence after (bcu_sequence after + 1)) (spec_changes vs changes).

Lemma pages_mono sent sent' sid n vs : sent ⊆ sent' -> pages_of sent sid n vs -> pages_of sent' sid n vs.
Proof. intros Hs. induction 1; econstructor; eauto. Qed.

Lemma view_mono sent sent' c vs : sent ⊆ sent' -> view_at sent c vs -> view_at sent' c vs.
Proof.
  intros Hs. induction 1 as [sid pages c vs Hp He|after changes vs _ IH Hc].
  - eapply view_snapshot; [by eapply pages_mono | by apply Hs].
  - apply view_changes; [done | by apply Hs].
Qed.

(** ** Maps and their views *)

Definition keyed (rs : Records) : Prop := Forall (fun kv => kv.1 = key (me_value kv.2)) rs.

Lemma view_set v n rs : keyed rs -> view (jset (key v) (mkMirrorEntry v n) rs) = put v (view rs).
Proof.
  unfold view, jvalues. induction 1 as [|[k e] rs Hk _ IH]; cbn in *; [done |]. subst k.
  case_decide; cbn; [done |]. by rewrite IH.
Qed.

Lemma view_delete k rs : keyed rs -> view (jdelete k rs) = drop_key k (view rs).
Proof.
  unfold view, jvalues. induction 1 as [|[k0 e] rs Hk _ IH]; cbn in *; [done |]. subst k0.
  case_decide; cbn; [done |]. by rewrite IH.
Qed.

Lemma view_get k rs : keyed rs -> me_value <$> jget k rs = find_key k (view rs).
Proof.
  unfold view, jvalues. induction 1 as [|[k0 e] rs Hk _ IH]; cbn in *; [done |]. subst k0. by case_decide.
Qed.

Lemma view_put_new v vs : find_key (key v) vs = None -> put v vs = vs ++ [v].
Proof. induction vs as [|u vs IH]; cbn; [done |]. case_decide; [done |]. intros H1. by rewrite IH. Qed.

Lemma keyed_set v n rs : keyed rs -> keyed (jset (key v) (mkMirrorEntry v n) rs).
Proof. induction 1 as [|[k e] rs Hk Hr IH]; cbn; [by repeat constructor |]. case_decide; by constructor. Qed.

Lemma Forall_jdelete (P : string * MirrorEntry -> Prop) k rs : Forall P rs -> Forall P (jdelete k rs).
Proof. induction 1 as [|[k0 e] rs Hk Hr IH]; cbn; [done |]. case_decide; [done |]. by constructor. Qed.

Lemma Forall_jset (P : string * MirrorEntry -> Prop) k e rs : P (k, e) -> Forall P rs -> Forall P (jset k e rs).
Proof. intros HP. induction 1 as [|[k0 e0] rs Hk Hr IH]; cbn; [by repeat constructor |]. case_decide; by constructor. Qed.

Lemma Forall_filter_b {A} (P : A -> Prop) (f : A -> bool) l : Forall P l -> Forall P (List.filter f l).
Proof. induction 1 as [|x l Hx _ IH]; cbn; [done |]. destruct (f x); [by constructor | done]. Qed.

Lemma view_filter (f : BusinessRecord -> bool) rs :
  view (List.filter (fun kv => f (me_value kv.2)) rs) = List.filter f (view rs).
Proof. unfold view, jvalues. induction rs as [|[k e] rs IH]; cbn; [done |]. destruct (f (me_value e)); cbn; by rewrite IH. Qed.

(** *** The loops of [pruneHistory] *)

Lemma scan_spec vs :
  let '(latest, newest) := foldl scan ([], []) vs in
  jwf newest /\ forall t, jget t latest = tab_latest vs t /\ jget t newest = newest_run vs t.
Proof.
  induction vs as [|v vs IH] using rev_ind; [split; [constructor | done] |].
  assert (Hl : forall t, tab_latest (vs ++ [v]) t = tab_step t (tab_latest vs t) v) by (intros; apply foldl_snoc).
  assert (Hr : forall t, newest_run (vs ++ [v]) t = run_step t (newest_run vs t) v) by (intros; apply foldl_snoc).
  rewrite foldl_snoc. destruct (foldl scan ([], []) vs) as [latest newest]. destruct IH as [Hwf IH].
  unfold scan, tab_step, run_step in *.
  destruct (b_record v) as [| |? ? [run|] ?|run tabId lc at_ rest| | |];
    try by (split; [done |]; intros t; rewrite Hl, Hr; apply IH).
  - split; [done |]. intros t. rewrite Hl, Hr, jget_set. destruct (IH t) as [I1 I2]. split; [| done]. by rewrite I1.
  - destruct (truthy tabId) as [t0|] eqn:Ht.
    2: { split; [done |]. intros t. rewrite Hl, Hr, decide_False by congruence. apply IH. }
    destruct (IH t0) as [_ I0]. destruct (jget t0 newest) as [prior|] eqn:Hp; [destruct (started prior <=? at_) eqn:Hle |].
    all: split; [by auto using jwf_set |]; intros t; rewrite Hl, Hr; destruct (IH t) as [I1 I2]; rewrite ?jget_set; split; [done |].
    all: destruct (decide (t = t0)) as [->|Hn]; [| rewrite ?decide_False by congruence; exact I2].
    all: rewrite (decide_True (P := Some t0 = Some t0)) by done; rewrite <- ?I0; rewrite ?Hle; congruence.
Qed.

Lemma fill_spec latest newest t : jwf newest ->
  jget t (fill latest newest) = match jget t latest with Some id => Some id | None => b_id <$> jget t newest end.
Proof.
  unfold fill. revert latest. induction newest as [|[t0 v] newest IH]; intros latest Hwf; cbn [foldl].
  - by destruct (jget t latest).
  - apply NoDup_cons in Hwf as [Hn Hwf]. rewrite IH by done. cbn [jget].
    assert (Hnone : t = t0 -> jget t newest = None) by (intros ->; by apply jget_none).
    unfold jhas. destruct (jget t0 latest) as [id0|] eqn:H0; rewrite ?jget_set; case_decide as Ht; try done.
    + subst t0. by rewrite H0.
    + subst t0. by rewrite H0.
Qed.

Lemma view_prune rs : view (pruneHistory rs) = List.filter (kept (view rs)) (view rs).
Proof.
  unfold pruneHistory. fold (view rs). pose proof (scan_spec (view rs)) as Hs.
  destruct (foldl scan ([], []) (view rs)) as [latest newest]. destruct Hs as [Hwf Hs].
  rewrite (view_filter (fun v => negb (pruned (fill latest newest) v))). apply filter_ext. intros v. unfold pruned, kept.
  destruct (b_record v) as [| | |run tabId lc at_ rest| | |]; try done.
  rewrite negb_andb, negb_involutive. f_equal. destruct (truthy tabId) as [t|]; [| done].
  rewrite negb_involutive, fill_spec by done. unfold latest_run. destruct (Hs t) as [-> ->]. done.
Qed.

(** ** Invariant *)

(** A map of valid records, each under its key, measured by its encoding. *)

Record view_ok (valid : BusinessRecord -> bool) (rs : Records) (n : Z) : Prop := mk_view_ok {
  o_wf : jwf rs;
  o_entries : Forall (fun kv => kv.1 = key (me_value kv.2) /\ encodedBytes (me_value kv.2) = Some (me_bytes kv.2)
                /\ valid (me_value kv.2) = true) rs;
  o_bytes : n = view_bytes rs;
  o_items : zlen rs <= snapshotItems;
  o_limit : n <= snapshotBytes;
}.

Lemma o_keyed valid rs n : view_ok valid rs n -> keyed rs.
Proof. intros [_ H _ _ _]. eapply Forall_impl; [exact H |]. by intros [] (? & _). Qed.

Lemma view_ok_nil valid : view_ok valid [] 2.
Proof. constructor; try done. apply NoDup_nil_2. Qed.

Lemma over_capacity_false items n : over_capacity items n = false -> items <= snapshotItems /\ n <= snapshotBytes.
Proof. unfold over_capacity. intros [H1%Z.ltb_ge H2%Z.ltb_ge]%orb_false_iff. done. Qed.

Lemma jhas_false {V} k (rs : jsmap string V) : jhas k rs = false -> jget k rs = None.
Proof. unfold jhas. by destruct (jget k rs). Qed.

Lemma page_loop_ok ks t values sg sg' :
  view_ok (validRecord ks t) (sg_records sg) (sg_bytes sg) -> page_loop ks t values sg = inr sg' ->
  view_ok (validRecord ks t) (sg_records sg') (sg_bytes sg') /\ sg_id sg' = sg_id sg /\ sg_page sg' = sg_page sg
  /\ view (sg_records sg') = view (sg_records sg) ++ values.
Proof.
  revert sg. induction values as [|v values IH]; intros sg Hok; cbn [page_loop].
  - intros [= <-]. by rewrite app_nil_r.
  - destruct (negb (validRecord ks t v) || _) eqn:Hv; [done |]. apply orb_false_iff in Hv as [Hv Hnew].
    apply negb_false_iff in Hv. apply jhas_false in Hnew. destruct (encodedBytes v) as [n|] eqn:He; [| done].
    destruct (over_capacity _ _) eqn:Hc; [done |]. apply over_capacity_false in Hc as [Hc1 Hc2]. intros Hloop.
    pose proof (o_keyed _ _ _ Hok) as Hkeyed. destruct Hok as [O1 O2 O3 O4 O5].
    apply IH in Hloop as (H1 & H2 & H3 & H4); [| cbn [sg_records sg_bytes]; constructor; try done].
    + split_and!; try done. rewrite H4. cbn [sg_records]. rewrite view_set by done. rewrite view_put_new, <- app_assoc; [done |].
      rewrite <- view_get by done. by rewrite Hnew.
    + by apply jwf_set.
    + by apply Forall_jset.
    + rewrite O3. unfold view_bytes. rewrite jset_size_new, jsum_set_new by done. cbn [me_bytes].
      pose proof (zlen_nonneg (sg_records sg)). destruct (zlen (sg_records sg) =? 0) eqn:Hz; lia.
Qed.

(** A change frame keeps the map valid; sizes are recomputed after pruning. *)

Record map_ok (valid : BusinessRecord -> bool) (rs : Records) : Prop := mk_map_ok {
  p_wf : jwf rs;
  p_entries : Forall (fun kv => kv.1 = key (me_value kv.2) /\ encodedBytes (me_value kv.2) = Some (me_bytes kv.2)
                /\ valid (me_value kv.2) = true) rs;
}.

Lemma p_keyed valid rs : map_ok valid rs -> keyed rs.
Proof. intros [_ H]. eapply Forall_impl; [exact H |]. by intros [] (? & _). Qed.

Lemma change_loop_ok ks t changes next next' :
  map_ok (validRecord ks t) next -> change_loop ks t changes next = inr next' ->
  map_ok (validRecord ks t) next' /\ view next' = foldl spec_change (view next) changes.
Proof.
  revert next. induction changes as [|[v|k id] changes IH]; intros next Hok; cbn [change_loop foldl spec_change].
  - by intros [= <-].
  - destruct (validRecord ks t v) eqn:Hv; [| done]. cbn [negb]. unfold outdated.
    rewrite <- (view_get (key v) next) by (by eapply p_keyed).
    set (older := match jget (key v) next with Some _ => _ | None => _ end).
    replace (match me_value <$> jget (key v) next with Some u => _ | None => false end) with older
      by (unfold older; by destruct (jget (key v) next)).
    destruct older; [by apply IH |]. destruct (encodedBytes v) as [n|] eqn:He; [| done]. intros Hloop.
    apply IH in Hloop as [H1 H2].
    + split; [done |]. rewrite H2, view_set; [done |]. by eapply p_keyed.
    + destruct Hok. constructor; [by apply jwf_set | by apply Forall_jset].
  - destruct (includes ks k); [| done]. cbn [negb]. intros Hloop. apply IH in Hloop as [H1 H2].
    + split; [done |]. rewrite H2, view_delete; [done |]. by eapply p_keyed.
    + destruct Hok. constructor; [by apply jwf_delete | by apply Forall_jdelete].
Qed.

Lemma prune_ok valid rs : map_ok valid rs -> map_ok valid (pruneHistory rs).
Proof.
  intros [P1 P2]. unfold pruneHistory. destruct (foldl scan _ _) as [latest newest].
  constructor; [by apply jwf_filter | by apply Forall_filter_b].
Qed.

(** *** Reachable mirrors *)

Inductive Op :=
  | op_begin (t : BusinessIdentity) (since : option BusinessCursor)
  | op_stale (reason : string) (discardCursor : bool)
  | op_accept (f : BusinessFrame)
  | op_dispose.

Definition apply_op (m : BusinessMirror) (o : Op) : BusinessMirror :=
  match o with
  | op_begin t since => (begin_mirror t since m).2
  | op_stale reason d => stale reason d m
  | op_accept f => (accept f m).2
  | op_dispose => dispose m
  end.

Definition frames (ops : list Op) : list BusinessFrame :=
  omap (fun o => match o with op_accept f => Some f | _ => None end) ops.

Definition of_cursor (c : BusinessCursor) : BusinessIdentity := mkIdentity (bcu_serverId c) (bcu_relayInstanceId c).

Definition marks (cs : list (Step Empty_set unit)) : Z :=
  lsum (fun c => match c with c_markState => 1 | _ => 0 end) cs.

Definition identity_valid (m : BusinessMirror) (v : BusinessRecord) : bool :=
  match identity m with Some t => validRecord (kinds m) t v | None => false end.

Record mirror_ok (sent : list BusinessFrame) (m : BusinessMirror) : Prop := mk_mirror_ok {
  i_view : view_ok (identity_valid m) (records m) (bytes m);
  i_stage : forall sg, stage m = Some sg -> initialized m = false /\ exists t, target m = Some t
      /\ view_ok (validRecord (kinds m) t) (sg_records sg) (sg_bytes sg)
      /\ pages_of sent (sg_id sg) (sg_page sg) (view (sg_records sg));
  i_cursor : forall c, cursor m = Some c -> identity m = Some (of_cursor c) /\ target m = Some (of_cursor c)
      /\ bcu_filter c = businessFilterIdentity (bm_filter m) /\ view_at sent c (view (records m));
  i_ready : ready m = true -> initialized m = true /\ (status m = ms_current \/ status m = ms_disposed);
  i_current : status m = ms_current -> ready m = true /\ is_Some (cursor m);
  i_disposed : status m = ms_disposed -> cursor m = None /\ stage m = None /\ records m = [];
  i_marks : version m = marks (effects m);
}.

Lemma mirror_mono sent sent' m : sent ⊆ sent' -> mirror_ok sent m -> mirror_ok sent' m.
Proof.
  intros Hs [H1 H2 H3 H4 H5 H6 H7]. constructor; try done.
  - intros sg Hsg. destruct (H2 sg Hsg) as (A & t & B & C & D). split; [done |]. exists t. eauto using pages_mono.
  - intros c Hc. destruct (H3 c Hc) as (A & B & C & D). eauto using view_mono.
Qed.

Lemma sameBusinessCursor_eq a b : sameBusinessCursor a b = true -> a = b.
Proof.
  unfold sameBusinessCursor. rewrite !andb_true_iff. intros ((((H1 & H2) & H3) & H4) & H5%Z.eqb_eq).
  apply seqb_eq in H1, H2, H3, H4. destruct a, b; cbn in *. congruence.
Qed.

Lemma marks_snoc cs c : marks (cs ++ [c]) = marks cs + match c with c_markState => 1 | _ => 0 end.
Proof. unfold marks. rewrite lsum_app, lsum_cons, lsum_nil. lia. Qed.

(** [changed] only counts. *)

Lemma changed_ok sent m : mirror_ok sent m -> mirror_ok sent (changed m).
Proof. intros []. constructor; try done. cbn [version effects changed call]. rewrite marks_snoc. lia. Qed.

Lemma stale_ok sent reason d m : mirror_ok sent m -> mirror_ok sent (stale reason d m).
Proof.
  intros Hok. unfold stale. case_bool_decide as Hd; [done |]. apply changed_ok. destruct Hok as [H1 H2 H3 H4 H5 H6 H7].
  destruct d; constructor; done.
Qed.

Lemma begin_ok sent t since m : mirror_ok sent m -> mirror_ok sent (begin_mirror t since m).2.
Proof.
  intros Hok. unfold begin_mirror. case_bool_decide as Hd; [done |].
  destruct (negb _ || negb _); [by apply stale_ok |].
  destruct (match since with Some s => _ | None => false end) eqn:Hr; [by apply stale_ok |]. cbn [snd]. apply changed_ok.
  destruct Hok as [H1 H2 H3 H4 H5 H6 H7]. constructor; try done.
  cbn. intros c ->. unfold resumeCursor in Hr. destruct (cursor m) as [c0|] eqn:Hc; [| done].
  destruct (_ && _) eqn:Ht; [| done]. apply negb_false_iff, sameBusinessCursor_eq in Hr as <-.
  apply andb_true_iff in Ht as [Ht1%seqb_eq Ht2%seqb_eq]. destruct (H3 c eq_refl) as (A & B & C & D).
  split_and!; try done. unfold of_cursor. rewrite Ht1, Ht2. by destruct t.
Qed.

Lemma bound_of_cursor t f c : bound t f c = true -> t = of_cursor c /\ bcu_filter c = businessFilterIdentity f.
Proof.
  unfold bound. rewrite !andb_true_iff. intros [[H1%seqb_eq H2%seqb_eq] H3%seqb_eq]. split; [| done].
  unfold of_cursor. rewrite H1, H2. by destruct t.
Qed.

Lemma view_ok_valid v1 v2 rs n : (forall v, v1 v = v2 v) -> view_ok v1 rs n -> view_ok v2 rs n.
Proof.
  intros Hv [O1 O2 O3 O4 O5]. constructor; try done. eapply Forall_impl; [exact O2 |]. intros kv (A & B & C).
  by rewrite <- Hv.
Qed.

Lemma accept_page_ok sent t sid page values m m' : mirror_ok sent m -> target m = Some t ->
  f_snapshot_page sid page values ∈ sent -> accept_page t sid page values m = inr m' -> mirror_ok sent m'.
Proof.
  intros [H1 H2 H3 H4 H5 H6 H7] Ht Hin. unfold accept_page. destruct (stage m) as [sg|] eqn:Hsg; [| done].
  destruct (negb _ || negb _) eqn:Hord; [done |].
  apply orb_false_iff in Hord as [Hid%negb_false_iff%seqb_eq Hpage%negb_false_iff%Z.eqb_eq].
  destruct (page_loop (kinds m) t values sg) as [|sg'] eqn:Hloop; [done |]. intros [= <-].
  destruct (H2 sg eq_refl) as (Hinit & t' & Ht' & Hv & Hp). assert (t' = t) as -> by congruence.
  destruct (page_loop_ok _ _ _ _ _ Hv Hloop) as (L1 & L2 & L3 & L4). constructor; try done.
  - intros sg'' [= <-]. split; [done |]. exists t. split_and!; try done. cbn [sg_id sg_page sg_records]. rewrite L2, L3, L4.
    apply pages_more; [done |]. by rewrite Hid, Hpage.
  - cbn. intros Hd. by destruct (H6 Hd) as (_ & ? & _).
Qed.

Lemma accept_end_ok sent t sid pages c m m' : mirror_ok sent m -> target m = Some t -> status m <> ms_disposed ->
  bound t (bm_filter m) c = true -> f_snapshot_end sid pages c ∈ sent -> accept_end t sid pages c m = inr m' ->
  mirror_ok sent m'.
Proof.
  intros [H1 H2 H3 H4 H5 H6 H7] Ht Hd Hb Hin. unfold accept_end. destruct (stage m) as [sg|] eqn:Hsg; [| done].
  destruct (negb _ || negb _) eqn:Hord; [done |].
  apply orb_false_iff in Hord as [Hid%negb_false_iff%seqb_eq Hpage%negb_false_iff%Z.eqb_eq]. intros [= <-].
  destruct (H2 sg eq_refl) as (Hinit & t' & Ht' & Hv & Hp). assert (t' = t) as -> by congruence.
  apply bound_of_cursor in Hb as [-> Hf]. constructor; try done.
  - intros c' [= <-]. split_and!; try done. eapply view_snapshot; [exact Hp |]. by rewrite Hid, Hpage.
  - cbn. intros Hr. destruct (H4 Hr) as [? _]. congruence.
Qed.

Lemma accept_changes_ok sent t after c changes m m' : mirror_ok sent m -> target m = Some t -> status m <> ms_disposed ->
  f_changes after c changes ∈ sent -> accept_changes t after c changes m = inr m' -> mirror_ok sent m'.
Proof.
  intros [H1 H2 H3 H4 H5 H6 H7] Ht Hd Hin. unfold accept_changes. destruct (cursor m) as [cur|] eqn:Hc; [| done].
  destruct (negb _ || _ || _ || _) eqn:Hgap; [done |].
  apply orb_false_iff in Hgap as [Hgap Hsame%negb_false_iff%sameBusinessCursor_eq].
  apply orb_false_iff in Hgap as [Hgap Hseq%negb_false_iff%Z.eqb_eq].
  apply orb_false_iff in Hgap as [Hinit%negb_false_iff Hafter%negb_false_iff%sameBusinessCursor_eq]. subst after.
  destruct (change_loop (kinds m) t changes (records m)) as [|next] eqn:Hloop; [done |].
  destruct (over_capacity _ _) eqn:Hcap; [done |]. apply over_capacity_false in Hcap as [Hcap1 Hcap2]. intros [= <-].
  destruct (H3 cur eq_refl) as (A & B & C & D). assert (t = of_cursor cur) as -> by congruence.
  assert (Hnext : c = with_sequence cur (bcu_sequence cur + 1)).
  { destruct c as [a1 a2 a3 a4 a5], cur as [b1 b2 b3 b4 b5]. unfold with_sequence in *. cbn in *. congruence. }
  assert (Hmap : map_ok (validRecord (kinds m) (of_cursor cur)) (records m)).
  { destruct H1 as [O1 O2 _ _ _]. unfold identity_valid in O2. rewrite A in O2. by constructor. }
  apply change_loop_ok in Hloop as [L1 L2]; [| done]. apply prune_ok in L1. constructor; try done.
  - cbn. apply (view_ok_valid (validRecord (kinds m) (of_cursor cur))).
    + intros v. unfold identity_valid. cbn. by rewrite A.
    + destruct L1. by constructor.
  - intros c' [= <-]. cbn [records set_view identity target bm_filter]. rewrite view_prune, L2, Hnext. split_and!; try done.
    apply view_changes; [done |]. by rewrite <- Hnext.
  - intros Hcur. destruct (H5 Hcur) as [? _]. by split.
Qed.

Lemma accept_ready_ok sent c m m' : mirror_ok sent m -> status m <> ms_disposed -> accept_ready c m = inr m' -> mirror_ok sent m'.
Proof.
  intros [H1 H2 H3 H4 H5 H6 H7] Hd. unfold accept_ready. destruct (cursor m) as [cur|] eqn:Hc; [| done].
  destruct (ready m || _ || _) eqn:Hgap; [done |]. intros [= <-].
  apply orb_false_iff in Hgap as [Hgap _]. apply orb_false_iff in Hgap as [_ Hinit%negb_false_iff].
  constructor; try done.
  - cbn. rewrite Hc. exact H3.
  - intros _. split; [done | by left].
Qed.

Lemma accept_frame_ok sent t f m m' : mirror_ok sent m -> target m = Some t -> status m <> ms_disposed ->
  (forall c, frame_cursor f = Some c -> bound t (bm_filter m) c = true) -> f ∈ sent ->
  accept_frame t f m = inr m' -> mirror_ok sent m'.
Proof.
  intros Hok Ht Hd Hb Hin. destruct f as [sid|sid page values|sid pages c|c|after c changes|r|r]; cbn [accept_frame]; try done.
  - destruct (initialized m) eqn:Hinit; [done |]. destruct (stage m) as [sg|] eqn:Hsg; [done |]. intros [= <-].
    destruct Hok as [H1 H2 H3 H4 H5 H6 H7]. constructor; try done.
    + intros sg' [= <-]. split; [done |]. exists t. split_and!; [done | apply view_ok_nil | constructor].
    + cbn. intros Hr. destruct (H4 Hr). congruence.
  - by apply accept_page_ok.
  - apply accept_end_ok; try done. by apply Hb.
  - by apply accept_ready_ok.
  - by apply accept_changes_ok.
Qed.

Lemma accept_ok sent f m : mirror_ok sent m -> mirror_ok (sent ++ [f]) (accept f m).2.
Proof.
  intros Hok. apply (mirror_mono sent (sent ++ [f])) in Hok; [| intros x; rewrite elem_of_app; by left].
  assert (Hin : f ∈ sent ++ [f]) by (apply elem_of_app; right; by left). set (s' := sent ++ [f]) in *. clearbody s'.
  unfold accept. case_bool_decide as Hd; [done |]. destruct (target m) as [t|] eqn:Ht; [| by apply stale_ok].
  destruct (BusinessFrameSchema f); [| by apply stale_ok]. cbn [negb].
  assert (Hfr : (forall c, frame_cursor f = Some c -> bound t (bm_filter m) c = true) ->
    mirror_ok s' (match accept_frame t f m with inl reason => fail reason m | inr m => (m_ok, changed m) end).2).
  { intros Hb. destruct (accept_frame t f m) as [r|m'] eqn:Hf; [by apply stale_ok |]. cbn [snd]. apply changed_ok.
    by eapply accept_frame_ok. }
  destruct f; cbn [frame_cursor] in *; try by apply stale_ok.
  all: try by apply Hfr.
  all: destruct (bound _ _ _) eqn:Hb; cbn [negb]; [| by apply stale_ok]; apply Hfr; by intros ? [= <-].
Qed.

Lemma new_ok filter m : newBusinessMirror filter = Some m -> mirror_ok [] m.
Proof. unfold newBusinessMirror. destruct (BusinessFilterSchema _); [| done]. intros [= <-]. constructor; try done. apply view_ok_nil. Qed.

Lemma run_ok sent ops m : mirror_ok sent m -> mirror_ok (sent ++ frames ops) (foldl apply_op m ops).
Proof.
  revert sent m. induction ops as [|o ops IH]; intros sent m Hok; cbn [foldl].
  - by rewrite app_nil_r.
  - unfold frames. destruct o as [t since|reason d|f|]; cbn [omap list_omap apply_op].
    + by apply IH, begin_ok.
    + by apply IH, stale_ok.
    + change (mirror_ok (sent ++ ([f] ++ frames ops)) (foldl apply_op (accept f m).2 ops)). rewrite app_assoc. apply IH. by apply accept_ok.
    + apply IH. unfold dispose. case_bool_decide; [done |]. destruct Hok as [H1 H2 H3 H4 H5 H6 H7].
      constructor; try done.
      * apply view_ok_nil.
      * cbn. intros Hr. split; [by apply H4 | by right].
      * cbn [version effects changed call]. rewrite !marks_snoc. unfold set_view, set_stage. cbn [version effects]. lia.
Qed.

(** *** Revisions *)

Lemma record_key_kind k id k' id' : record_key k id = record_key k' id' -> k = k'.
Proof. unfold record_key. cbn. destruct k, k'; cbn; by intros [=]. Qed.

Lemma revision_by_key u v : key u = key v -> is_Some (b_revision u) -> is_Some (b_revision v).
Proof.
  intros Hk%record_key_kind. unfold b_kind, b_revision in *. destruct (b_record u), (b_record v); cbn; try done;
    intros _; by eexists.
Qed.

Lemma find_put k v vs : find_key k (put v vs) = if decide (k = key v) then Some v else find_key k vs.
Proof.
  induction vs as [|u vs IH]; cbn [find_key put drop_key List.filter map]; [done |]. destruct (decide (key v = key u)) as [Hu|Hu]; cbn [find_key put drop_key].
  - rewrite <- Hu. by destruct (decide (k = key v)).
  - rewrite IH. destruct (decide (k = key u)) as [E1|], (decide (k = key v)) as [E2|]; congruence.
Qed.

Lemma find_drop k k' vs : k' <> k -> find_key k (drop_key k' vs) = find_key k vs.
Proof.
  intros Hk. induction vs as [|u vs IH]; cbn [find_key put drop_key List.filter map]; [done |]. destruct (decide (k' = key u)) as [Hu|Hu]; cbn [find_key put drop_key].
  - by rewrite decide_False by congruence.
  - by rewrite IH.
Qed.

Lemma find_key_key k vs u : find_key k vs = Some u -> k = key u.
Proof. induction vs as [|w vs IH]; cbn [find_key put drop_key List.filter map]; [done |]. case_decide; [by intros [= <-] | done]. Qed.

Lemma find_none k vs : find_key k vs = None <-> k ∉ map key vs.
Proof.
  induction vs as [|u vs IH]; cbn [find_key put drop_key List.filter map]; [split; [by intros _ ?%elem_of_nil | done] |].
  rewrite not_elem_of_cons, <- IH. case_decide; [split; [done | by intros []] |]. split; [by split | by intros []].
Qed.

Lemma find_filter f k vs v : NoDup (map key vs) -> find_key k (List.filter f vs) = Some v -> find_key k vs = Some v.
Proof.
  induction vs as [|u vs IH]; cbn [find_key put drop_key List.filter map]; [done |]. intros [Hn Hd]%NoDup_cons. case_decide as Hk.
  - subst k. destruct (f u); cbn [find_key put drop_key List.filter map]; [by rewrite decide_True by done |]. intros Hv%IH; [| done].
    exfalso. by rewrite (proj2 (find_none _ _) Hn) in Hv.
  - destruct (f u); cbn [find_key put drop_key List.filter map]; [rewrite decide_False by done |]; by apply IH.
Qed.

Lemma view_keys rs : keyed rs -> map key (view rs) = jkeys rs.
Proof. unfold view, jvalues, jkeys. induction 1 as [|[k e] rs Hk _ IH]; cbn in *; [done |]. by rewrite Hk, IH. Qed.

Definition at_least (k : string) (p : Z) (vs : list BusinessRecord) : Prop :=
  exists u q, find_key k vs = Some u /\ b_revision u = Some q /\ p <= q.

Lemma spec_change_revision k p vs c : at_least k p vs -> (forall kind id, c = ch_delete kind id -> record_key kind id <> k) ->
  at_least k p (spec_change vs c).
Proof.
  intros (u & q & Hu & Hq & Hp) Hc. destruct c as [v|kind id]; cbn [spec_change].
  - unfold outdated. destruct (decide (k = key v)) as [->|Hk].
    + rewrite Hu, Hq. pose proof (find_key_key _ _ _ Hu) as Hkey.
      destruct (revision_by_key u v (eq_sym Hkey)) as [r Hr]; [by eexists |]. rewrite Hr.
      destruct (r <? q) eqn:Hlt; [by exists u, q |]. exists v, r. rewrite find_put, decide_True by done.
      split_and!; [done | done | lia].
    + destruct (match find_key (key v) vs with Some _ => _ | None => false end); [by exists u, q |].
      exists u, q. by rewrite find_put, decide_False.
  - exists u, q. rewrite find_drop; [done |]. by apply Hc.
Qed.

Lemma spec_changes_revision k p vs changes :
  at_least k p vs -> (forall kind id, ch_delete kind id ∈ changes -> record_key kind id <> k) ->
  at_least k p (foldl spec_change vs changes).
Proof.
  revert vs. induction changes as [|c changes IH]; intros vs Hp Hc; cbn [foldl]; [done |]. apply IH.
  - apply spec_change_revision; [done |]. intros kind id ->. apply Hc. by left.
  - intros kind id Hin. apply Hc. by right.
Qed.

(** ** Properties *)

(** C33: Whatever frames arrive, lost, repeated, reordered or from several
    connections, a mirror that has a cursor holds exactly the view of some
    complete snapshot among the frames it was given followed by change frames
    that each continue the one before, and that view is the one at the cursor.
    Its records are of the instance and the filter the cursor names. *)
Theorem mirror_view filter m0 ops c : newBusinessMirror filter = Some m0 ->
  let m := foldl apply_op m0 ops in cursor m = Some c ->
  view_at (frames ops) c (view (records m)) /\ identity m = Some (of_cursor c)
  /\ bcu_filter c = businessFilterIdentity (bm_filter m).
Proof.
  intros H0 m Hc. pose proof (run_ok [] ops m0 (new_ok _ _ H0)) as [_ _ Hi _ _ _ _].
  by destruct (Hi c Hc) as (A & _ & B & C).
Qed.

(** In every reachable mirror the confirmed records and the records being
    staged each lie under their own key, passed validation, and are measured
    exactly as the array that would encode them; both respect the item and
    byte limits, also at the intermediate pages.  A stage exists only before the
    first snapshot of a target is complete, [current] implies a resumable
    cursor, and a disposed mirror keeps no records.  The observers are marked
    once per version. *)
Theorem mirror_consistent filter m0 ops : newBusinessMirror filter = Some m0 ->
  let m := foldl apply_op m0 ops in
  view_ok (identity_valid m) (records m) (bytes m)
  /\ (forall sg, stage m = Some sg -> initialized m = false /\ exists t, target m = Some t
        /\ view_ok (validRecord (kinds m) t) (sg_records sg) (sg_bytes sg))
  /\ (status m = ms_current -> ready m = true /\ initialized m = true /\ is_Some (cursor m) /\ stage m = None)
  /\ (status m = ms_disposed -> cursor m = None /\ stage m = None /\ records m = [])
  /\ version m = marks (effects m).
Proof.
  intros H0 m. pose proof (run_ok [] ops m0 (new_ok _ _ H0)) as [H1 H2 H3 H4 H5 H6 H7]. fold m in H1, H2, H3, H4, H5, H6, H7.
  split_and!; try done.
  - intros sg Hsg. destruct (H2 sg Hsg) as (A & t & B & C & _). split; [done |]. by exists t.
  - intros Hs. destruct (H5 Hs) as [Hr Hc]. destruct (H4 Hr) as [Hi _]. split_and!; try done.
    destruct (stage m) as [sg|] eqn:Hsg; [| done]. destruct (H2 sg eq_refl) as [? _]. congruence.
Qed.

(** A refused frame never touches the confirmed records: they, their size and
    the instance they belong to stay, while the cursor, the partial stage and
    readiness are dropped and the mirror is [stale] with the reason, so that
    nothing can be resumed from it. *)
Theorem accept_refused f m reason m' t : status m <> ms_disposed -> accept f m = (m_failed reason, m') ->
  records m' = records m /\ bytes m' = bytes m /\ identity m' = identity m
  /\ cursor m' = None /\ stage m' = None /\ ready m' = false /\ status m' = ms_stale
  /\ lastError m' = Some reason /\ version m' = version m + 1 /\ resumeCursor t m' = None.
Proof.
  intros Hd. unfold accept. rewrite bool_decide_eq_false_2 by done.
  assert (Hfail : forall r, fail r m = (m_failed reason, m') ->
    records m' = records m /\ bytes m' = bytes m /\ identity m' = identity m
    /\ cursor m' = None /\ stage m' = None /\ ready m' = false /\ status m' = ms_stale
    /\ lastError m' = Some reason /\ version m' = version m + 1 /\ resumeCursor t m' = None).
  { intros r. unfold fail, stale. rewrite bool_decide_eq_false_2 by done. by intros [= <- <-]. }
  destruct (target m); [| apply Hfail]. destruct (BusinessFrameSchema f); [| apply Hfail]. cbn [negb].
  destruct f; cbn [frame_cursor]; try apply Hfail.
  all: try destruct (bound _ _ _); try apply Hfail; cbn [negb].
  all: destruct (accept_frame _ _ m); [apply Hfail | done].
Qed.

(** A change frame never replaces a record with an older revision: a record
    that it does not delete and that is still held afterwards has a revision
    at least as high as before. *)
Theorem revisions_monotone filter m0 ops after c changes m' k u v p r : newBusinessMirror filter = Some m0 ->
  let m := foldl apply_op m0 ops in
  accept (f_changes after c changes) m = (m_ok, m') ->
  (forall kind id, ch_delete kind id ∈ changes -> record_key kind id <> k) ->
  find_key k (view (records m)) = Some u -> find_key k (view (records m')) = Some v ->
  b_revision u = Some p -> b_revision v = Some r -> p <= r.
Proof.
  intros H0 m Hacc Hdel Hu Hv Hp Hr. pose proof (run_ok [] ops m0 (new_ok _ _ H0)) as Hok. fold m in Hok.
  unfold accept in Hacc. case_bool_decide; [done |]. destruct (target m) as [t|] eqn:Ht; [| done].
  destruct (BusinessFrameSchema _); [| done]. cbn [negb frame_cursor] in Hacc. destruct (bound _ _ _); [| done].
  cbn [negb accept_frame] in Hacc. destruct (accept_changes t after c changes m) as [|m1] eqn:Hch; [done |].
  injection Hacc as <-. unfold accept_changes in Hch. destruct (cursor m) as [cur|] eqn:Hc; [| done].
  destruct (negb _ || _ || _ || _); [done |].
  destruct (change_loop (kinds m) t changes (records m)) as [|next] eqn:Hloop; [done |].
  destruct (over_capacity _ _); [done |]. injection Hch as <-.
  destruct Hok as [[O1 O2 _ _ _] _ H3 _ _ _ _]. destruct (H3 cur Hc) as (A & B & _).
  assert (t = of_cursor cur) as -> by congruence. unfold identity_valid in O2. rewrite A in O2.
  apply change_loop_ok in Hloop as [[L1 L1'] L2]; [| by constructor].
  change (find_key k (view (pruneHistory next)) = Some v) in Hv. rewrite view_prune in Hv.
  assert (Hkeyed : keyed next) by (eapply Forall_impl; [exact L1' |]; by intros [] (? & _)).
  apply find_filter in Hv; [| rewrite view_keys by done; exact L1].
  destruct (spec_changes_revision k p (view (records m)) changes) as (w & q & W1 & W2 & W3); [| done |].
  - exists u, p. split_and!; [done | done | lia].
  - rewrite <- L2 in W1. assert (w = v) as -> by congruence. assert (q = r) as -> by congruence. done.
Qed.

End mirror.

(** ** A mirror at work *)

Section mirror_demo.

Definition sample_size (v : BusinessRecord) : option Z := Some (20 + slen (b_id v)).

Definition sample_identity : BusinessIdentity := mkIdentity "server" "relay".

Definition sample_cursor (n : Z) : BusinessCursor :=
  mkCursor "server" "relay" "stream" n (businessFilterIdentity None).

Definition sample_task (revision : Z) : BusinessRecord := mkRecord "t1" (task_record "t1" revision JNull).

Definition sample_ref (id : string) : RunRef := mkRun "server" "relay" id.

Definition sample_run (id : string) (lifecycle : RunLifecycle) (at_ : Z) : BusinessRecord :=
  mkRecord (businessRunId (sample_ref id)) (run_record (sample_ref id) (Some "tab"%string) lifecycle at_ JNull).

Definition sample_operation (state : OperationState) : BusinessRecord := mkRecord "op" (operation_record "op" 3 state JNull).

Definition sample_ops : list Op :=
  [op_begin sample_identity None; op_accept (f_snapshot_begin "snap");
   op_accept (f_snapshot_page "snap" 0 [sample_task 4; sample_run "r1" lc_running 10]);
   op_accept (f_snapshot_page "snap" 1 [sample_operation os_running]);
   op_accept (f_snapshot_end "snap" 2 (sample_cursor 7)); op_accept (f_ready (sample_cursor 7))].

Definition sample_changes : list BusinessChange :=
  [ch_upsert (sample_task 3); ch_upsert (sample_run "r1" lc_exited 10); ch_upsert (sample_run "r2" lc_running 11);
   ch_upsert (sample_operation os_succeeded)].

Definition sample_frame : BusinessFrame := f_changes (sample_cursor 7) (sample_cursor 8) sample_changes.

Definition sample_new : BusinessMirror :=
  mkMirror ms_idle 0 None None None [] 2 None false false None None (normalizedBusinessKinds None) [].

Definition sample_mirror : BusinessMirror := foldl (apply_op sample_size) sample_new sample_ops.

Definition sample_later : BusinessMirror := foldl (apply_op sample_size) sample_new (sample_ops ++ [op_accept sample_frame]).

Lemma sample_created : newBusinessMirror None = Some sample_new.
Proof. by vm_compute. Qed.

(** The exited run gives way to the tab's newer one, the finished operation goes,
    and the older task revision is ignored. *)

Lemma mirror_view_witness :
  view (records sample_later) = [sample_task 4; sample_run "r2" lc_running 11]
  /\ view_at (frames (sample_ops ++ [op_accept sample_frame])) (sample_cursor 8) (view (records sample_later)).
Proof.
  split; [by vm_compute |].
  destruct (mirror_view sample_size None sample_new (sample_ops ++ [op_accept sample_frame]) (sample_cursor 8) sample_created)
    as (H & _); [by vm_compute |]. exact H.
Defined.

Lemma mirror_consistent_witness :
  status sample_mirror = ms_current /\ zlen (records sample_mirror) = 3
  /\ view_ok sample_size (identity_valid sample_mirror) (records sample_mirror) (bytes sample_mirror).
Proof.
  split; [by vm_compute |]. split; [by vm_compute |].
  destruct (mirror_consistent sample_size None sample_new sample_ops sample_created) as (H & _). exact H.
Defined.

Lemma accept_refused_witness :
  exists m', accept sample_size (f_ready (sample_cursor 6)) sample_mirror = (m_failed "ready", m')
  /\ records m' = records sample_mirror /\ resumeCursor sample_identity m' = None.
Proof.
  eexists. split; [by vm_compute |].
  match goal with |- records ?m' = _ /\ _ =>
    destruct (accept_refused sample_size (f_ready (sample_cursor 6)) sample_mirror "ready" m' sample_identity)
      as (H1 & _ & _ & _ & _ & _ & _ & _ & _ & H2); [by vm_compute | by vm_compute |]
  end.
  split; [exact H1 | exact H2].
Defined.

Lemma revisions_monotone_witness :
  find_key (key (sample_task 4)) (view (records sample_later)) = Some (sample_task 4) /\ 4 <= 4.
Proof.
  split; [by vm_compute |].
  apply (revisions_monotone sample_size None sample_new sample_ops (sample_cursor 7) (sample_cursor 8) sample_changes
    sample_later (key (sample_task 4)) (sample_task 4) (sample_task 4) 4 4 sample_created).
  - by vm_compute.
  - intros kind id Hin. repeat (apply elem_of_cons in Hin as [Hin|Hin]; [done |]). by apply elem_of_nil in Hin.
  - by vm_compute.
  - by vm_compute.
  - done.
  - done.
Defined.

End mirror_demo.
