(* ===== verification/PreviewCache.v ===== *)
(** * The server's preview cache (apps/server/src/terminal/preview-cache.ts)

    One committed picture per run.  An entry owns a metadata lease and the
    backing of its bytes; a reader retains both again until it is released, so
    a replaced or disposed picture stays valid for its readers.  A [Uint8Array]
    is its array buffer's name with its bytes ([Vt]).  The run registry is
    given to each operation as its lookup [get], so that the theorems hold
    whatever the registry does in between; [readers] is the store of the reader
    objects handed out. *)

From S2P Require Import Prelude Protocol JsMap LeaseAccount Retained RuntimeOwnership.
Import RuntimeRetainedBytes.

Definition METADATA : Z := 4096.

Record Vt := mkVt { vt_buffer : nat; vt_bytes : list Z }.

Definition byteLength (v : Vt) : Z := zlen (vt_bytes v).

Record PictureFields := mkFields {
  pf_run : RunRef; pf_worker : WorkerRef; pf_version : Z; pf_atSeq : Z; pf_geometry : Geometry;
  pf_generatedAtMs : Z; pf_checkedAtMs : Z; pf_stale : bool; pf_status : RunStatus;
}.

Record PreviewPicture := mkPicture { fields : PictureFields; vt : Vt }.

Record OwnedPreviewBytes := mkOwned { owned_vt : Vt; owned_backing : nat }.

Record Entry := mkEntry { picture : PreviewPicture; backing : nat; metadata : nat }.

Record PreviewReader := mkReader { reader_picture : PreviewPicture; reader_backing : nat; reader_metadata : nat; held : bool }.

Definition Lookup : Type := RunRef -> option (WorkerRef * RunStatus * bool).

Record PreviewCache := mkCache {
  budgets : EffectiveBudgets;
  entries : jsmap string Entry;
  committedBytes : Z;
  closed : bool;
  account : t;
  readers : list PreviewReader;
}.

Definition newPreviewCache (b : EffectiveBudgets) (s : t) : PreviewCache := mkCache b [] 0 false s [].

Definition set_entries (es : jsmap string Entry) (n : Z) (c : PreviewCache) : PreviewCache :=
  mkCache (budgets c) es n (closed c) (account c) (readers c).

Definition set_account (s : t) (c : PreviewCache) : PreviewCache :=
  mkCache (budgets c) (entries c) (committedBytes c) (closed c) s (readers c).

Definition set_readers (rs : list PreviewReader) (c : PreviewCache) : PreviewCache :=
  mkCache (budgets c) (entries c) (committedBytes c) (closed c) (account c) rs.

Definition run_of (e : Entry) : RunRef := pf_run (fields (picture e)).

Definition length_of (e : Entry) : Z := byteLength (vt (picture e)).

Definition entry (get : Lookup) (r : RunRef) (c : PreviewCache) : option Entry :=
  match jget (run_runId r) (entries c), get r with
  | Some e, Some (worker, _, _) =>
     if sameRunRef (run_of e) r && sameWorkerRef (pf_worker (fields (picture e))) worker then Some e else None
  | _, _ => None
  end.

(** What [old?.backing.release()] and [old?.metadata.release()] do. *)

Definition release_entry (e : Entry) (s : t) : t := release (metadata e) (releaseBacking (backing e) s).

Definition commit (get : Lookup) (p : PictureFields) (o : OwnedPreviewBytes) (c : PreviewCache) : bool * PreviewCache :=
  let old := jget (run_runId (pf_run p)) (entries c) in
  let old_length := match old with Some e => length_of e | None => 0 end in
  let n := byteLength (owned_vt o) in
  match get (pf_run p) with
  | None => (false, c)
  | Some (worker, _, _) =>
     if closed c || negb (sameWorkerRef worker (pf_worker p)) || (n <? 1) || (previewBytesPerRun (budgets c) <? n)
        || (match old with None => maxRuns (budgets c) <=? zlen (entries c) | Some _ => false end)
        || (previewGlobalBytes (budgets c) <? committedBytes c - old_length + n)
     then (false, c)
     else match reserve METADATA false (account c) with
          | None => (false, c)
          | Some (lease, s) =>
             let next := mkEntry (mkPicture p (owned_vt o)) (owned_backing o) lease in
             let s := match old with Some e => release_entry e s | None => s end in
             (true, set_account s (set_entries (jset (run_runId (pf_run p)) next (entries c))
                                     (committedBytes c + (n - old_length)) c))
          end
  end.

Definition acquire (get : Lookup) (r : RunRef) (c : PreviewCache) : option nat * PreviewCache :=
  match entry get r c with
  | None => (None, c)
  | Some e =>
     if closed c then (None, c)
     else match reserve METADATA false (account c) with
          | None => (None, c)
          | Some (lease, s) =>
             match retainBacking (vt_buffer (vt (picture e))) (length_of e) false s with
             | None => (None, set_account (release lease s) c)
             | Some (h, s) =>
                (Some (length (readers c)),
                 set_readers (readers c ++ [mkReader (picture e) h lease true]) (set_account s c))
             end
          end
  end.

Definition release_reader (id : nat) (c : PreviewCache) : PreviewCache :=
  match readers c !! id with
  | Some r =>
     if negb (held r) then c
     else set_readers (<[id := mkReader (reader_picture r) (reader_backing r) (reader_metadata r) false]> (readers c))
            (set_account (release (reader_metadata r) (releaseBacking (reader_backing r) (account c))) c)
  | None => c
  end.

Definition sameGeometry (a b : Geometry) : bool := (cols a =? cols b) && (rows a =? rows b).

Definition is_unverifiable (s : RunStatus) : bool := bool_decide (rs_status s = unverifiable).

Definition exited_status (s : RunStatus) : bool := bool_decide (rs_status s = exited).

Definition matches (get : Lookup) (r : RunRef) (worker : WorkerRef) (status : RunStatus) (c : PreviewCache) : bool :=
  match entry get r c, get r with
  | Some e, Some (_, observed, _) =>
     let f := fields (picture e) in
     negb (is_unverifiable observed)
     && negb (exited_status observed && negb (exited_status status))
     && bool_decide (rs_parsedSeq observed = rs_parsedSeq status)
     && sameGeometry (rs_geometry observed) (rs_geometry status)
     && sameWorkerRef (pf_worker f) worker
     && negb (is_unverifiable status)
     && match rs_parsedSeq status with
        | None => false
        | Some parsed => (pf_version f =? parsed) && (pf_atSeq f =? parsed)
        end
     && sameGeometry (pf_geometry f) (rs_geometry status)
  | _, _ => false
  end.

Definition refresh_fields (checkedAtMs : Z) (status : RunStatus) (f : PictureFields) : PictureFields :=
  mkFields (pf_run f) (pf_worker f) (pf_version f) (pf_atSeq f) (pf_geometry f) (pf_generatedAtMs f) checkedAtMs false status.

Definition stale_fields (f : PictureFields) : PictureFields :=
  mkFields (pf_run f) (pf_worker f) (pf_version f) (pf_atSeq f) (pf_geometry f) (pf_generatedAtMs f) (pf_checkedAtMs f) true (pf_status f).

Definition with_fields (f : PictureFields) (e : Entry) : Entry := mkEntry (mkPicture f (vt (picture e))) (backing e) (metadata e).

Definition put_entry (e : Entry) (c : PreviewCache) : PreviewCache :=
  set_entries (jset (run_runId (run_of e)) e (entries c)) (committedBytes c) c.

Definition checked (get : Lookup) (r : RunRef) (status : RunStatus) (checkedAtMs : Z) (c : PreviewCache) : bool * PreviewCache :=
  match entry get r c with
  | None => (false, c)
  | Some e =>
     if negb (matches get r (pf_worker (fields (picture e))) status c) then (false, c)
     else (true, put_entry (with_fields (refresh_fields checkedAtMs status (fields (picture e))) e) c)
  end.

Definition stale (get : Lookup) (r : RunRef) (c : PreviewCache) : PreviewCache :=
  match entry get r c with
  | None => c
  | Some e => put_entry (with_fields (stale_fields (fields (picture e))) e) c
  end.

Record PreviewInfo := mkPreviewInfo {
  pi_version : option Z; pi_generatedAtMs : option Z; pi_checkedAtMs : option Z; pi_stale : bool; pi_byteLength : Z;
}.

Record RunRecord := mkRunRecord {
  rr_run : RunRef; rr_status : RunLifecycle; rr_geometry : Geometry; rr_controlEpoch : Z;
  rr_controlHolder : option ControlHolder; rr_preview : PreviewInfo;
}.

Definition getRecord (get : Lookup) (r : RunRef) (c : PreviewCache) : option RunRecord :=
  match get r with
  | None => None
  | Some (_, status, _) =>
     let pic := picture <$> entry get r c in
     let is_stale := match pic with
       | None => true
       | Some p =>
          pf_stale (fields p) || is_unverifiable status
          || match rs_parsedSeq status with Some parsed => pf_atSeq (fields p) <? parsed | None => false end
          || negb (cols (rs_geometry status) =? cols (pf_geometry (fields p)))
          || negb (rows (rs_geometry status) =? rows (pf_geometry (fields p)))
       end in
     Some (mkRunRecord r (rs_status status) (rs_geometry status) (rs_controlEpoch status) (rs_controlHolder status)
       (mkPreviewInfo ((fun p => pf_version (fields p)) <$> pic) ((fun p => pf_generatedAtMs (fields p)) <$> pic)
          ((fun p => pf_checkedAtMs (fields p)) <$> pic) is_stale
          (match pic with Some p => byteLength (vt p) | None => 0 end)))
  end.

Definition snapshot (c : PreviewCache) : Z * Z * bool := (zlen (entries c), committedBytes c, closed c).

Definition dispose (c : PreviewCache) : PreviewCache :=
  if closed c then c
  else mkCache (budgets c) [] 0 true (foldl (fun s e => release_entry e s) (account c) (jvalues (entries c))) (readers c).

(** *** [list]: one page of the runs, in the order of [localeCompare] *)

Section listing.
Context (localeCompare : string -> string -> Z).

(** [Array.prototype.sort] is stable: [x] goes after its equals. *)

Fixpoint insert_status (x : RunStatus) (l : list RunStatus) : list RunStatus :=
  match l with
  | [] => [x]
  | y :: rest => if localeCompare (run_runId (rs_run x)) (run_runId (rs_run y)) <? 0
                 then x :: l else y :: insert_status x rest
  end.

Definition sort_statuses (l : list RunStatus) : list RunStatus := foldl (fun acc x => insert_status x acc) [] l.

Definition beyond (afterRunId : option string) (s : RunStatus) : bool :=
  match afterRunId with
  | None | Some EmptyString => true
  | Some id => 0 <? localeCompare (run_runId (rs_run s)) id
  end.

Definition list_page (get : Lookup) (registry : list RunStatus) (limit : Z) (afterRunId : option string) (c : PreviewCache)
    : option (list (option RunRecord) * option string) :=
  if negb (1 <=? limit) || (listPage M0_LIMITS <? limit) || negb (optional_ok OpaqueIdSchema afterRunId)
     || (listPage (budgets c) <? limit)
  then None
  else
    let selected := List.filter (beyond afterRunId) (sort_statuses registry) in
    let page := take (Z.to_nat limit) selected in
    Some (map (fun s => getRecord get (rs_run s) c) page,
          if zlen page <? zlen selected then (fun s => run_runId (rs_run s)) <$> last page else None).

(** A client that follows [nextAfterRunId] until there is none. *)

Fixpoint all_pages (fuel : nat) (get : Lookup) (registry : list RunStatus) (limit : Z) (afterRunId : option string)
    (c : PreviewCache) : option (list (option RunRecord)) :=
  match list_page get registry limit afterRunId c with
  | None => None
  | Some (runs, None) => Some runs
  | Some (runs, Some next) =>
     match fuel with
     | O => None
     | S fuel => (fun more => runs ++ more) <$> all_pages fuel get registry limit (Some next) c
     end
  end.

(** [localeCompare] orders the identifiers of the protocol totally. *)

Record orders_ids : Prop := mk_orders_ids {
  order_refl : forall a, localeCompare a a = 0;
  order_anti : forall a b, localeCompare a b < 0 <-> 0 < localeCompare b a;
  order_trans : forall a b c, localeCompare a b < 0 -> localeCompare b c < 0 -> localeCompare a c < 0;
  order_total : forall a b, OpaqueIdSchema a = true -> OpaqueIdSchema b = true -> localeCompare a b = 0 -> a = b;
}.

Context (Horder : orders_ids).

Definition id_of (s : RunStatus) : string := run_runId (rs_run s).

Definition ordered (l : list RunStatus) : Prop := StronglySorted (fun a b => localeCompare (id_of a) (id_of b) < 0) l.

Lemma insert_perm x l : insert_status x l ≡ₚ x :: l.
Proof. induction l as [|y l IH]; cbn; [done |]. case_if; [done |]. rewrite IH. by constructor. Qed.

Lemma sort_perm l : sort_statuses l ≡ₚ l.
Proof.
  unfold sort_statuses. enough (forall acc, foldl (fun acc x => insert_status x acc) acc l ≡ₚ acc ++ l) as H by apply (H []).
  induction l as [|x l IH]; intros acc; cbn; [by rewrite app_nil_r |]. rewrite IH, insert_perm. cbn.
  by rewrite <- Permutation_middle.
Qed.

Lemma insert_ordered x l : ordered l -> Forall (fun y => OpaqueIdSchema (id_of y) = true) (x :: l) ->
  id_of x ∉ map id_of l -> ordered (insert_status x l).
Proof.
  destruct Horder as [O1 O2 O3 O4]. induction l as [|y l IH]; intros Hs Hids Hx; cbn; [by repeat constructor |].
  apply Forall_cons in Hids as [Hxi Hids]. apply Forall_cons in Hids as [Hyi Hids].
  apply StronglySorted_inv in Hs as [Hs Hy]. cbn in Hx. apply not_elem_of_cons in Hx as [Hxy Hx].
  fold (id_of x) (id_of y). destruct (localeCompare (id_of x) (id_of y) <? 0) eqn:Hlt.
  - constructor; [by constructor |]. constructor; [lia |]. eapply Forall_impl; [exact Hy |]. cbn. intros z. apply O3. lia.
  - constructor.
    + apply IH; [done | by constructor | done].
    + rewrite Forall_forall in *. intros z Hz. rewrite insert_perm in Hz. apply elem_of_cons in Hz as [->|Hz]; [| by apply Hy].
      apply O2. destruct (Z.eq_dec (localeCompare (id_of x) (id_of y)) 0) as [He|He]; [| lia].
      exfalso. apply Hxy. by apply O4.
Qed.

Lemma sort_ordered l : NoDup (map id_of l) -> Forall (fun y => OpaqueIdSchema (id_of y) = true) l -> ordered (sort_statuses l).
Proof.
  unfold sort_statuses. induction l as [|x l IH] using rev_ind; [by repeat constructor |]. intros Hn Hids.
  rewrite map_app in Hn. apply NoDup_app in Hn as (Hn & Hd & _). apply Forall_app in Hids as [Hids Hx].
  rewrite foldl_snoc. apply insert_ordered; [by apply IH | |].
  - apply Forall_cons in Hx as [Hx _]. constructor; [done |]. fold (sort_statuses l). by rewrite sort_perm.
  - fold (sort_statuses l). rewrite sort_perm. intros Hin. apply (Hd _ Hin). by left.
Qed.

(** After the [k]-th run of an ordered list come exactly those behind it. *)

Lemma beyond_drop l k x : ordered l -> l !! k = Some x -> OpaqueIdSchema (id_of x) = true ->
  List.filter (beyond (Some (id_of x))) l = drop (S k) l.
Proof.
  destruct Horder as [O1 O2 O3 O4]. intros Hs Hk Hx.
  assert (Hb : forall s, beyond (Some (id_of x)) s = (0 <? localeCompare (id_of s) (id_of x))).
  { intros s. unfold beyond. destruct (id_of x); [done | done]. }
  rewrite (filter_ext _ _ Hb l). clear Hb. revert k Hk. induction l as [|y l IH]; intros k Hk; [done |].
  apply StronglySorted_inv in Hs as [Hs Hy]. cbn. destruct k as [|k].
  - injection Hk as ->. rewrite O1. cbn. rewrite drop_0. apply filter_all.
    rewrite Forall_forall in Hy. intros z Hz. apply Z.ltb_lt, O2. by apply Hy.
  - cbn in Hk. assert (Hlt : localeCompare (id_of y) (id_of x) < 0).
    { rewrite Forall_forall in Hy. apply Hy. apply list_elem_of_lookup. by exists k. }
    destruct (0 <? localeCompare (id_of y) (id_of x)) eqn:E; [lia |]. by apply IH.
Qed.

Lemma list_page_from get registry limit after c k :
  1 <= limit <= Z.min (listPage M0_LIMITS) (listPage (budgets c)) -> optional_ok OpaqueIdSchema after = true ->
  List.filter (beyond after) (sort_statuses registry) = drop k (sort_statuses registry) ->
  let page := take (Z.to_nat limit) (drop k (sort_statuses registry)) in
  list_page get registry limit after c
  = Some (map (fun s => getRecord get (rs_run s) c) page,
      if zlen page <? zlen (drop k (sort_statuses registry)) then id_of <$> last page else None).
Proof.
  intros Hl Ha Hf page. unfold list_page. rewrite Ha, Hf.
  destruct (1 <=? limit) eqn:E1; [| lia]. destruct (listPage M0_LIMITS <? limit) eqn:E2; [lia |].
  destruct (listPage (budgets c) <? limit) eqn:E3; [lia |]. done.
Qed.

Lemma last_lookup_drop {A} (l : list A) k n : (1 <= n)%nat -> (k + n <= length l)%nat ->
  last (take n (drop k l)) = l !! (k + n - 1)%nat.
Proof.
  intros Hn Hk. rewrite last_lookup, length_take, length_drop.
  rewrite lookup_take, lookup_drop by lia. rewrite decide_True by lia. f_equal. lia.
Qed.

Lemma all_pages_from get registry limit c fuel after k :
  NoDup (map id_of registry) -> Forall (fun y => OpaqueIdSchema (id_of y) = true) registry ->
  1 <= limit <= Z.min (listPage M0_LIMITS) (listPage (budgets c)) -> optional_ok OpaqueIdSchema after = true ->
  List.filter (beyond after) (sort_statuses registry) = drop k (sort_statuses registry) ->
  (length registry <= k + fuel)%nat ->
  all_pages fuel get registry limit after c = Some (map (fun s => getRecord get (rs_run s) c) (drop k (sort_statuses registry))).
Proof.
  intros Hn Hids Hl. assert (Hlen : length (sort_statuses registry) = length registry) by (by rewrite sort_perm).
  revert after k. induction fuel as [|fuel IH]; intros after k Ha Hf Hk; cbn [all_pages];
    rewrite (list_page_from _ _ _ _ _ k) by done; cbv zeta.
  - rewrite (drop_ge (sort_statuses registry) k) by lia. by rewrite take_nil.
  - set (l := sort_statuses registry) in *. assert (Hn1 : (1 <= Z.to_nat limit)%nat) by lia. set (n := Z.to_nat limit) in *. clearbody n.
    destruct (zlen (take n (drop k l)) <? zlen (drop k l)) eqn:Hlt.
    + assert (Hb : (k + n < length l)%nat) by (apply Z.ltb_lt in Hlt; unfold zlen in Hlt; rewrite length_take, length_drop in Hlt; lia).
      rewrite last_lookup_drop by lia. destruct (lookup_lt_is_Some_2 l (k + n - 1)) as [x Hx]; [lia |]. rewrite Hx.
      cbn [fmap option_fmap option_map]. assert (Hopaque : OpaqueIdSchema (id_of x) = true).
      { rewrite Forall_forall in Hids. apply Hids. rewrite <- (sort_perm registry).
        apply list_elem_of_lookup. by exists (k + n - 1)%nat. }
      rewrite (IH (Some (id_of x)) (k + n)%nat); [| done | | lia].
      * cbn. rewrite <- map_app, <- drop_drop, take_drop. done.
      * rewrite (beyond_drop l (k + n - 1) x); [f_equal; lia | by apply sort_ordered | done | done].
    + apply Z.ltb_ge in Hlt. rewrite take_ge; [done |]. unfold zlen in Hlt. rewrite length_take in Hlt. lia.
Qed.

(** Following [nextAfterRunId] from the first page lists every run of the
    registry exactly once, in the order of their identifiers, and it ends; no
    page is longer than the limit asked for. *)
Theorem pages_complete get registry limit c :
  NoDup (map id_of registry) -> Forall (fun y => OpaqueIdSchema (id_of y) = true) registry ->
  1 <= limit <= Z.min (listPage M0_LIMITS) (listPage (budgets c)) ->
  exists sorted, sorted ≡ₚ registry /\ ordered sorted
    /\ all_pages (length registry) get registry limit None c = Some (map (fun s => getRecord get (rs_run s) c) sorted)
    /\ (forall after runs next, list_page get registry limit after c = Some (runs, next) -> zlen runs <= limit).
Proof.
  intros Hn Hids Hl. exists (sort_statuses registry). split_and!; [apply sort_perm | by apply sort_ordered | |].
  - rewrite (all_pages_from _ _ _ _ _ None 0) by (try done; try lia; rewrite drop_0; by apply filter_all). by rewrite drop_0.
  - intros after runs next. unfold list_page. case_if; [done |]. intros [= <- _]. rewrite zlen_map. unfold zlen.
    rewrite length_take. lia.
Qed.

End listing.

(** ** Invariant *)

Definition held_readers (rs : list PreviewReader) : list PreviewReader := List.filter held rs.

Definition metadata_lease (e : Entry) : nat * Z := (metadata e, METADATA).

Definition reader_lease (r : PreviewReader) : nat * Z := (reader_metadata r, METADATA).

Definition cache_leases (c : PreviewCache) : list (nat * Z) :=
  map metadata_lease (jvalues (entries c)) ++ map reader_lease (held_readers (readers c)).

(** The cache's handles, and handles [xs] of others that are being followed. *)

Definition cache_handles (xs : list nat) (c : PreviewCache) : list nat :=
  map backing (jvalues (entries c)) ++ map reader_backing (held_readers (readers c)) ++ xs.

Record cache_ok (fl fh : Z) (xs : list nat) (c : PreviewCache) : Prop := mk_cache_ok {
  h_owns : owns fl fh (cache_leases c) (cache_handles xs c) (account c);
  h_wf : jwf (entries c);
  h_entries : Forall (fun kv => kv.1 = run_runId (run_of kv.2) /\ 1 <= length_of kv.2 <= previewBytesPerRun (budgets c)) (entries c);
  h_bytes : committedBytes c = lsum length_of (jvalues (entries c));
  h_limit : committedBytes c <= Z.max 0 (previewGlobalBytes (budgets c));
  h_count : zlen (entries c) <= Z.max 0 (maxRuns (budgets c));
  h_closed : closed c = true -> entries c = [] /\ committedBytes c = 0;
}.

Lemma owns_release_entry fl fh ls hs s e :
  owns fl fh (metadata_lease e :: ls) (backing e :: hs) s -> owns fl fh ls hs (release_entry e s).
Proof. intros Ho. unfold release_entry. by eapply owns_release, owns_releaseBacking. Qed.

Lemma owns_release_entries fl fh ls hs es s :
  owns fl fh (map metadata_lease es ++ ls) (map backing es ++ hs) s ->
  owns fl fh ls hs (foldl (fun s e => release_entry e s) s es).
Proof.
  revert s. induction es as [|e es IH]; intros s Ho; cbn [foldl]; [done |]. apply IH. by apply owns_release_entry.
Qed.

(** Putting an entry in the map trades the old entry's resources for the new one's. *)

Lemma jset_trade {B} (f : Entry -> B) (k : string) e es : jwf es ->
  map f (jvalues (jset k e es)) ++ (match jget k es with Some old => [f old] | None => [] end) ≡ₚ f e :: map f (jvalues es).
Proof.
  intros Hwf. destruct (jget k es) as [old|] eqn:Hk.
  - destruct (jset_split k old e es Hk) as (m1 & m2 & -> & ->). unfold jvalues. rewrite !fmap_app. cbn.
    rewrite ?map_app. cbn.
    generalize (f <$> m1.*2) (f <$> m2.*2). intros la lb. rewrite <- (Permutation_middle la lb (f e)), <- (Permutation_middle la lb (f old)). cbn. constructor.
    by rewrite (Permutation_app_comm (la ++ lb) [f old]).
  - rewrite jkeys_set_new by done. unfold jvalues. rewrite !fmap_app. cbn. rewrite app_nil_r.
    by rewrite Permutation_app_comm.
Qed.

Lemma jset_entries (P : string * Entry -> Prop) k e es : P (k, e) -> Forall P es -> Forall P (jset k e es).
Proof. intros HP. induction 1 as [|[k0 e0] es Hk Hr IH]; cbn; [by repeat constructor |]. case_decide; by constructor. Qed.

Lemma commit_ok get p o c fl fh xs b c' : cache_ok fl fh xs c -> live_handle (account c) (owned_backing o) ->
  owned_backing o ∉ cache_handles xs c -> commit get p o c = (b, c') ->
  if b then cache_ok fl (fh - 1) xs c' else c' = c.
Proof.
  intros Hok Hlive Hfree. unfold commit. destruct (get (pf_run p)) as [[[w st] cap]|]; [| by intros [= <- <-]].
  set (key := run_runId (pf_run p)). set (n := byteLength (owned_vt o)).
  destruct (closed c || _ || _ || _ || _ || _) eqn:Hguard; [by intros [= <- <-] |].
  repeat (apply orb_false_iff in Hguard as [Hguard ?]).
  destruct (reserve METADATA false (account c)) as [[lease s]|] eqn:Hres; [| by intros [= <- <-]].
  intros [= <- <-]. destruct Hok as [I1 I2 I3 I4 I5 I6 I7].
  assert (Howns : owns fl (fh - 1) ((lease, METADATA) :: cache_leases c) (owned_backing o :: cache_handles xs c) s).
  { eapply owns_reserve; [| exact Hres]. by apply owns_take. }
  set (next := mkEntry (mkPicture p (owned_vt o)) (owned_backing o) lease).
  assert (Hold : forall old, jget key (entries c) = Some old -> 1 <= length_of old).
  { intros old Hk. apply jget_elem in Hk; [| done]. rewrite Forall_forall in I3. destruct (I3 _ Hk) as [_ Hl]. cbn in Hl. lia. }
  constructor; cbn [account entries readers committedBytes budgets closed set_account set_entries].
  - unfold cache_leases, cache_handles in *. cbn [entries readers set_account set_entries].
    pose proof (jset_trade metadata_lease key next (entries c) I2) as T1.
    pose proof (jset_trade backing key next (entries c) I2) as T2.
    change (metadata_lease next) with (lease, METADATA) in T1. change (backing next) with (owned_backing o) in T2.
    destruct (jget key (entries c)) as [old|] eqn:Hk.
    + apply owns_release_entry. rewrite !app_comm_cons in Howns. rewrite <- T1, <- T2 in Howns.
      rewrite <- !app_assoc in Howns. cbn [app] in Howns.
      rewrite <- (Permutation_middle (map metadata_lease _) _ (metadata_lease old)),
        <- (Permutation_middle (map backing _) _ (backing old)) in Howns. exact Howns.
    + rewrite app_nil_r in T1, T2. rewrite T1, T2. exact Howns.
  - by apply jwf_set.
  - apply jset_entries; [| done]. split; [done |]. change (1 <= n <= previewBytesPerRun (budgets c)). lia.
  - destruct (jget key (entries c)) as [old|] eqn:Hk.
    + rewrite (jsum_set_old _ _ _ _ _ Hk). change (length_of next) with n. lia.
    + rewrite (jsum_set_new _ _ _ _ Hk). change (length_of next) with n. lia.
  - lia.
  - destruct (jget key (entries c)) as [old|] eqn:Hk.
    + rewrite jset_size_old by (by eexists). done.
    + rewrite jset_size_new by done. lia.
  - congruence.
Qed.

Lemma acquire_ok get r c fl fh xs : cache_ok fl fh xs c -> cache_ok fl fh xs (acquire get r c).2.
Proof.
  intros Hok. unfold acquire. destruct (entry get r c) as [e|]; [| done]. destruct (closed c) eqn:Hc; [done |].
  destruct (reserve METADATA false (account c)) as [[lease s]|] eqn:Hres; [| done].
  destruct Hok as [I1 I2 I3 I4 I5 I6 I7]. pose proof (owns_reserve _ _ _ _ _ _ _ _ _ I1 Hres) as Howns.
  destruct (retainBacking _ _ false s) as [[h s']|] eqn:Hret; cbn [snd].
  - constructor; try done. apply (owns_retain _ _ _ _ _ _ _ _ _ _ Howns) in Hret.
    unfold cache_leases, cache_handles, held_readers in *. cbn [entries readers account set_readers set_account].
    rewrite List.filter_app, !map_app. cbn [List.filter held map reader_lease reader_metadata reader_backing].
    eapply owns_proper; [| | done | exact Hret].
    + rewrite app_assoc. by rewrite Permutation_app_comm.
    + rewrite <- app_assoc. cbn [app]. by rewrite <- !Permutation_middle.
  - constructor; try done. by eapply owns_release.
Qed.

Lemma held_split rs id r : rs !! id = Some r -> held r = true ->
  held_readers rs ≡ₚ r :: held_readers (<[id := mkReader (reader_picture r) (reader_backing r) (reader_metadata r) false]> rs).
Proof.
  intros Hr Hh. unfold held_readers. rewrite insert_take_drop by (by apply lookup_lt_Some in Hr).
  rewrite <- (take_drop_middle rs id r Hr) at 1. rewrite !List.filter_app. cbn [List.filter held]. rewrite Hh.
  by rewrite <- Permutation_middle.
Qed.

Lemma release_reader_ok id c fl fh xs : cache_ok fl fh xs c -> cache_ok fl fh xs (release_reader id c).
Proof.
  intros [I1 I2 I3 I4 I5 I6 I7]. unfold release_reader. destruct (readers c !! id) as [r|] eqn:Hr; [| done].
  destruct (held r) eqn:Hh; [| done]. cbn [negb]. constructor; try done.
  unfold cache_leases, cache_handles in *. cbn [entries readers account set_readers set_account].
  apply (owns_release _ _ _ _ _ _ METADATA), owns_releaseBacking. pose proof (held_split _ _ _ Hr Hh) as Hp.
  eapply owns_proper; [| | done | exact I1]; rewrite Hp; cbn; by rewrite <- Permutation_middle.
Qed.

Lemma entry_key get r c e : entry get r c = Some e -> jget (run_runId r) (entries c) = Some e.
Proof.
  unfold entry. destruct (jget _ (entries c)) as [x|]; [| done]. destruct (get r) as [[[w st] cap]|]; [| done].
  case_if; [| done]. by intros [= ->].
Qed.

(** Replacing the fields of a picture, but not its run, bytes or resources. *)

Lemma put_fields_ok get r c e f fl fh xs : cache_ok fl fh xs c -> entry get r c = Some e -> pf_run f = run_of e ->
  cache_ok fl fh xs (put_entry (with_fields f e) c).
Proof.
  intros [I1 I2 I3 I4 I5 I6 I7] He%entry_key Hf. unfold put_entry.
  assert (Hin : (run_runId r, e) ∈ entries c) by (by apply jget_elem).
  pose proof I3 as Hall. rewrite Forall_forall in Hall. destruct (Hall _ Hin) as [Hkey Hlen]. cbn in Hkey.
  assert (Hk : run_runId (run_of (with_fields f e)) = run_runId r) by (unfold run_of, with_fields; cbn; by rewrite Hf, <- Hkey).
  rewrite Hk. constructor; cbn [account entries readers committedBytes budgets closed set_entries].
  - unfold cache_leases, cache_handles in *. cbn [account entries readers set_entries].
    pose proof (jvalues_map metadata_lease (run_runId r) e (with_fields f e) (entries c) He eq_refl) as T1.
    pose proof (jvalues_map backing (run_runId r) e (with_fields f e) (entries c) He eq_refl) as T2.
    change (map metadata_lease (jvalues (jset (run_runId r) (with_fields f e) (entries c)))) with
      (metadata_lease <$> jvalues (jset (run_runId r) (with_fields f e) (entries c))).
    change (map backing (jvalues (jset (run_runId r) (with_fields f e) (entries c)))) with
      (backing <$> jvalues (jset (run_runId r) (with_fields f e) (entries c))).
    rewrite T1, T2. exact I1.
  - by apply jwf_set.
  - apply jset_entries; [| done]. split; [symmetry; exact Hk | exact Hlen].
  - rewrite (jsum_set_old _ _ _ _ _ He). change (length_of (with_fields f e)) with (length_of e). lia.
  - done.
  - rewrite jset_size_old by (by eexists). done.
  - intros Hc. destruct (I7 Hc) as [Hnil _]. rewrite Hnil in Hin. by apply elem_of_nil in Hin.
Qed.

Lemma dispose_cache_ok c fl fh xs : cache_ok fl fh xs c -> cache_ok fl fh xs (dispose c).
Proof.
  intros Hok. unfold dispose. destruct (closed c) eqn:Hc; [exact Hok |]. destruct Hok as [I1 I2 I3 I4 I5 I6 I7].
  constructor; cbn [account entries readers committedBytes budgets closed]; try done.
  - unfold cache_leases, cache_handles in *. cbn [entries readers jvalues fmap list_fmap map app].
    by apply owns_release_entries.
  - by apply NoDup_nil_2.
  - lia.
  - unfold zlen. cbn. lia.
Qed.

(** ** Executions

    [f] counts the live backing handles of the other owners of the account, who
    may give one to the cache ([commit]) but also use the account on their own
    ([step_account]), as long as they release only what is theirs. *)

Inductive cache_step (xs : list nat) : Z * Z * PreviewCache -> Z * Z * PreviewCache -> Prop :=
  | step_commit get p o b fl fh c c' : live_handle (account c) (owned_backing o) -> owned_backing o ∉ cache_handles xs c ->
      commit get p o c = (b, c') -> cache_step xs (fl, fh, c) (fl, if b then fh - 1 else fh, c')
  | step_acquire get r fl fh c : cache_step xs (fl, fh, c) (fl, fh, (acquire get r c).2)
  | step_release_reader id fl fh c : cache_step xs (fl, fh, c) (fl, fh, release_reader id c)
  | step_checked get r st now fl fh c : cache_step xs (fl, fh, c) (fl, fh, (checked get r st now c).2)
  | step_stale get r fl fh c : cache_step xs (fl, fh, c) (fl, fh, stale get r c)
  | step_dispose fl fh c : cache_step xs (fl, fh, c) (fl, fh, dispose c)
  | step_account fl fh fl' fh' c s : owns fl' fh' (cache_leases c) (cache_handles xs c) s ->
      cache_step xs (fl, fh, c) (fl', fh', set_account s c).

Definition cache_reachable (b : EffectiveBudgets) (s : t) (x : Z * Z * PreviewCache) : Prop :=
  ok s /\ backed s /\ rtc (cache_step []) (plain_leases s, live_handles s, newPreviewCache b s) x.

Lemma cache_step_ok xs x y : cache_ok x.1.1 x.1.2 xs x.2 -> cache_step xs x y -> cache_ok y.1.1 y.1.2 xs y.2.
Proof.
  intros Hok Hst. revert Hok.
  destruct Hst as [get p o b fl fh c c' Hl Hf Hc|get r fl fh c|id fl fh c|get r st now fl fh c|get r fl fh c|fl fh c|fl fh fl' fh' c s Ho];
    cbn [fst snd]; intros Hok.
  - pose proof (commit_ok _ _ _ _ _ _ _ _ _ Hok Hl Hf Hc) as Hb. destruct b; [done | by subst].
  - by apply acquire_ok.
  - by apply release_reader_ok.
  - unfold checked. destruct (entry get r c) as [e|] eqn:He; [| done]. case_if; [done |]. by eapply put_fields_ok.
  - unfold stale. destruct (entry get r c) as [e|] eqn:He; [| done]. by eapply put_fields_ok.
  - by apply dispose_cache_ok.
  - destruct Hok. by constructor.
Qed.

Lemma cache_reachable_ok b s x : cache_reachable b s x -> cache_ok x.1.1 x.1.2 [] x.2.
Proof.
  intros (Hs & Hb & Hr). apply (rtc_invariant (cache_step []) (fun x => cache_ok x.1.1 x.1.2 [] x.2) _ _) in Hr;
    [done | | intros; by eapply cache_step_ok].
  constructor; cbn; try done; try (by apply NoDup_nil_2); try lia.
  - constructor; [done | done |]. constructor; try constructor; unfold zlen; cbn; lia.
  - unfold zlen. cbn. lia.
Qed.

Lemma cache_step_budgets xs x y : cache_step xs x y -> budgets y.2 = budgets x.2.
Proof.
  intros [get p o b fl fh c c' Hl Hf Hc|get r fl fh c|id fl fh c|get r st now fl fh c|get r fl fh c|fl fh c|fl fh fl' fh' c s Ho]; cbn.
  - unfold commit in Hc. destruct (get (pf_run p)) as [[[w st] cap]|]; [case_if |]; try (by injection Hc as _ <-).
    destruct (reserve METADATA false (account c)) as [[l s]|]; by injection Hc as _ <-.
  - unfold acquire. destruct (entry get r c); [case_if |]; try done. destruct (reserve METADATA _ _) as [[l s]|]; [| done].
    by destruct (retainBacking _ _ _ _) as [[h s']|].
  - unfold release_reader. destruct (readers c !! id) as [rd|]; [| done]. by case_if.
  - unfold checked. destruct (entry get r c); [| done]. by case_if.
  - unfold stale. by destruct (entry get r c).
  - unfold dispose. by case_if.
  - done.
Qed.

Lemma cache_reachable_budgets b s x : cache_reachable b s x -> budgets x.2 = b.
Proof.
  intros (_ & _ & Hr). apply (rtc_invariant (cache_step []) (fun x => budgets x.2 = b) _ _) in Hr; [done | done |].
  intros y z Hy Hyz. by rewrite (cache_step_budgets _ _ _ Hyz).
Qed.

(** In every reachable cache, [committedBytes] is exactly the sum of the
    committed pictures and stays within the global budget, every picture is
    within the run's budget and under its own run, and there are at most
    [maxRuns].  Each entry and each unreleased reader owns one live metadata
    lease and one live backing handle, all distinct, and besides them the
    account holds only those of its other owners: nothing leaks, whichever
    operations fail. *)
Theorem preview_cache_exact b s fl fh c : cache_reachable b s (fl, fh, c) ->
  committedBytes c = lsum length_of (jvalues (entries c))
  /\ committedBytes c <= Z.max 0 (previewGlobalBytes b) /\ zlen (entries c) <= Z.max 0 (maxRuns b)
  /\ (forall k e, jget k (entries c) = Some e -> k = run_runId (run_of e) /\ 1 <= length_of e <= previewBytesPerRun b)
  /\ Forall (plain_lease (account c)) (cache_leases c) /\ NoDup (cache_leases c).*1
  /\ Forall (live_handle (account c)) (cache_handles [] c) /\ NoDup (cache_handles [] c)
  /\ plain_leases (account c) = fl + zlen (cache_leases c)
  /\ live_handles (account c) = fh + zlen (cache_handles [] c).
Proof.
  intros Hr. pose proof (cache_reachable_budgets _ _ _ Hr) as Hb. cbn in Hb. subst b.
  apply cache_reachable_ok in Hr as [[_ _ [O1 O2 O3 O4 O5 O6]] I2 I3 I4 I5 I6 I7]. cbn in *.
  split_and!; try done. intros k e He. apply (jget_elem k e _ I2) in He. rewrite Forall_forall in I3. by apply (I3 (k, e)).
Qed.

(** ** A cache at work *)

Section cache_demo.

Definition demo_run_ref : RunRef := mkRun "server" "relay" "run-1".

Definition demo_worker_ref : WorkerRef := mkWorker "server" "relay" "worker" "boot".

Definition demo_run_status : RunStatus :=
  mkRunStatus demo_run_ref live (mkGeometry 80 24) 0 None (Some 5) (Some 5) ready None None None.

Definition demo_lookup : Lookup := fun r =>
  if sameRunRef r demo_run_ref then Some (demo_worker_ref, demo_run_status, true) else None.

Definition demo_fields : PictureFields :=
  mkFields demo_run_ref demo_worker_ref 5 5 (mkGeometry 80 24) 1000 1001 false demo_run_status.

Definition demo_vt : Vt := mkVt 3 [27; 91; 72].

(** The owner of the bytes retains their buffer, and commits the picture. *)

Definition demo_retained : t :=
  match retainBacking 3 (byteLength demo_vt) false demo_runtime with Some (_, s) => s | None => demo_runtime end.

Definition demo_cache : PreviewCache := set_account demo_retained (newPreviewCache M0_LIMITS demo_runtime).

Definition demo_owned : OwnedPreviewBytes := mkOwned demo_vt 0.

Definition demo_committed : PreviewCache := (commit demo_lookup demo_fields demo_owned demo_cache).2.

Definition demo_read : PreviewCache := (acquire demo_lookup demo_run_ref demo_committed).2.

Lemma demo_owns : owns 0 0 [] [] demo_runtime.
Proof.
  destruct (runtime_reachable_ok 1000000 1000 demo_runtime) as [H1 H2].
  { eapply reachable_intro; [reflexivity | apply rtc_refl]. }
  constructor; [done | done |]. constructor; try constructor; by vm_compute.
Qed.

Lemma demo_owns_retained : owns 0 1 [] [] demo_retained /\ live_handle demo_retained 0.
Proof.
  assert (E : retainBacking 3 (byteLength demo_vt) false demo_runtime = Some (0%nat, demo_retained)) by (by vm_compute).
  pose proof (owns_retain _ _ _ _ _ _ _ _ _ _ demo_owns E) as Ho. by apply owns_give in Ho as (? & ? & _).
Qed.

Lemma demo_read_reachable : cache_reachable M0_LIMITS demo_runtime (0, 0, demo_read).
Proof.
  destruct demo_owns as [H1 H2 _]. destruct demo_owns_retained as [Ho Hl]. split; [done |]. split; [done |].
  eapply (rtc_l _ _ (0, 1, demo_cache)); [by apply step_account |].
  eapply (rtc_l _ _ (0, 0, demo_committed)).
  - apply (step_commit [] demo_lookup demo_fields demo_owned true 0 1 demo_cache demo_committed Hl).
    + by intros ?%elem_of_nil.
    + by vm_compute.
  - apply rtc_once. apply step_acquire.
Qed.

Lemma preview_cache_exact_witness :
  committedBytes demo_read = 3 /\ cache_handles [] demo_read = [0%nat; 1%nat]
  /\ committedBytes demo_read = lsum length_of (jvalues (entries demo_read)).
Proof.
  split; [by vm_compute |]. split; [by vm_compute |].
  destruct (preview_cache_exact _ _ _ _ _ demo_read_reachable) as (H & _). exact H.
Defined.

(** A total order of identifiers, for the listing: that of their encodings. *)

Definition demo_compare (a b : string) : Z := Z.pos (encode a) - Z.pos (encode b).

Lemma demo_orders : orders_ids demo_compare.
Proof.
  constructor; unfold demo_compare; intros; try lia. apply (inj encode). lia.
Qed.

Definition demo_registry : list RunStatus :=
  map (fun id => mkRunStatus (mkRun "server" "relay" id) live (mkGeometry 80 24) 0 None None None ready None None None)
    ["run-2"; "run-1"; "run-3"]%string.

Lemma pages_complete_witness :
  exists sorted, sorted ≡ₚ demo_registry
    /\ all_pages demo_compare 3 demo_lookup demo_registry 2 None demo_committed
       = Some (map (fun s => getRecord demo_lookup (rs_run s) demo_committed) sorted).
Proof.
  destruct (pages_complete demo_compare demo_orders demo_lookup demo_registry 2 demo_committed)
    as (sorted & H1 & _ & H2 & _).
  - apply (bool_decide_unpack _). by vm_compute.
  - by repeat constructor.
  - by vm_compute.
  - exists sorted. split; [exact H1 | exact H2].
Defined.

End cache_demo.
