(* ===== verification/PreviewTransfer.v ===== *)
(** * Preview transfers (apps/server/src/terminal/preview-transfer.ts)

    [PreviewCollector] gathers the three events of one preview sent by a worker
    and, when the command's result arrives, commits the picture to the cache;
    [publishPreview] sends a picture to a client as the same three events.  The
    callbacks [current] and [claimId] are what they return when an event is
    handled.  The collector and the cache share the runtime's account, so a
    collector's operation works on the pair of both. *)

From S2P Require Import Prelude Protocol JsMap LeaseAccount Retained RuntimeOwnership Terminal Pipe PreviewCache.
Import RuntimeRetainedBytes.
Import PreviewCache.

Definition is_preview (e : TerminalEvent) : bool :=
  match e with TPreviewStart _ | TPreviewChunk _ _ _ _ | TPreviewEnd _ _ _ _ _ => true | _ => false end.

(** ** The collector *)

Record PreviewCollector := mkCollector {
  c_run : RunRef; c_worker : WorkerRef; c_requestId : string; c_status : RunStatus;
  start : option PreviewStart; owned_bytes : option OwnedPreviewBytes;
  ended : bool; invalid : bool; sealed : bool;
}.

Definition newPreviewCollector (r : RunRef) (w : WorkerRef) (requestId : string) (status : RunStatus) : PreviewCollector :=
  mkCollector r w requestId status None None false false false.

Definition set_progress (st : option PreviewStart) (o : option OwnedPreviewBytes) (en inv : bool) (p : PreviewCollector)
    : PreviewCollector :=
  mkCollector (c_run p) (c_worker p) (c_requestId p) (c_status p) st o en inv (sealed p).

Definition invalidate (p : PreviewCollector) : PreviewCollector :=
  set_progress (start p) (owned_bytes p) (ended p) true p.

Definition set_sealed (p : PreviewCollector) : PreviewCollector :=
  mkCollector (c_run p) (c_worker p) (c_requestId p) (c_status p) (start p) (owned_bytes p) (ended p) (invalid p) true.

(** [preview-start] is taken when it matches the status the refresh asked for. *)

Definition start_ok (b : EffectiveBudgets) (claimId : string -> bool) (payload : list Z) (s : PreviewStart)
    (p : PreviewCollector) : bool :=
  match start p with Some _ => false | None => true end
  && (zlen payload =? 0) && (ps_chunkCount s =? 1) && (ps_vtBytes s <=? previewBytesPerRun b)
  && (cols (ps_geometry s) <=? maxCols b) && (rows (ps_geometry s) <=? maxRows b)
  && sameGeometry (ps_geometry s) (rs_geometry (c_status p))
  && (ps_atSeq s =? ps_version s)
  && match rs_parsedSeq (c_status p) with Some parsed => parsed <=? ps_atSeq s | None => true end
  && claimId (ps_previewId s).

(** The chunk's bytes are copied into a buffer of their own, [buffer], while a
    scratch lease covers the copy. *)

Definition take_chunk (buffer : nat) (payload : list Z) (p : PreviewCollector) (s : t) : PreviewCollector * t :=
  match reserve (zlen payload + 256) false s with
  | None => (invalidate p, s)
  | Some (scratch, s) =>
     let v := mkVt buffer payload in
     match retainBacking buffer (byteLength v) false s with
     | None => (invalidate p, release scratch s)
     | Some (h, s) => (set_progress (start p) (Some (mkOwned v h)) (ended p) (invalid p) p, release scratch s)
     end
  end.

Definition on_start (b : EffectiveBudgets) (claimId : string -> bool) (payload : list Z) (st : PreviewStart)
    (p : PreviewCollector) : PreviewCollector :=
  if start_ok b claimId payload st p then set_progress (Some st) (owned_bytes p) (ended p) (invalid p) p else invalidate p.

(** The event names the transfer under way. *)

Definition same_transfer (previewId : string) (version : Z) (p : PreviewCollector) : option PreviewStart :=
  match start p with
  | Some st => if seqb (ps_previewId st) previewId && (ps_version st =? version) then Some st else None
  | None => None
  end.

Definition on_chunk (st : PreviewStart) (ordinal : Z) (buffer : nat) (payload : list Z) (p : PreviewCollector) (s : t)
    : PreviewCollector * t :=
  if match owned_bytes p with Some _ => true | None => false end || ended p || negb (ordinal =? 0)
     || negb (zlen payload =? ps_vtBytes st)
  then (invalidate p, s)
  else take_chunk buffer payload p s.

Definition on_end (st : PreviewStart) (totalBytes atSeq : Z) (payload : list Z) (p : PreviewCollector) : PreviewCollector :=
  if match owned_bytes p with None => true | Some _ => false end || ended p || negb (zlen payload =? 0)
     || negb (totalBytes =? ps_vtBytes st) || negb (atSeq =? ps_atSeq st)
  then invalidate p
  else set_progress (start p) (owned_bytes p) true (invalid p) p.

Definition collect (b : EffectiveBudgets) (current : bool) (claimId : string -> bool) (buffer : nat)
    (e : PipeEvent) (payload : list Z) (p : PreviewCollector) (s : t) : PreviewCollector * t :=
  if sealed p || negb current || negb (sameRunRef (pe_run e) (c_run p)) || negb (is_preview (pe_terminal e)) then (p, s)
  else if invalid p then (p, s)
  else if match pe_subscription e with Some _ => true | None => false end
          || negb (sameWorkerRef (pe_worker e) (c_worker p)) || negb (sameRunRef (event_run (pe_terminal e)) (c_run p))
  then (invalidate p, s)
  else
    match pe_terminal e with
    | TPreviewStart st => (on_start b claimId payload st p, s)
    | TPreviewChunk _ id version ordinal =>
       match same_transfer id version p with
       | Some st => on_chunk st ordinal buffer payload p s
       | None => (invalidate p, s)
       end
    | TPreviewEnd _ id version totalBytes atSeq =>
       match same_transfer id version p with
       | Some st => (on_end st totalBytes atSeq payload p, s)
       | None => (invalidate p, s)
       end
    | _ => (p, s)
    end.

Definition disposeBytes (p : PreviewCollector) (s : t) : PreviewCollector * t :=
  match owned_bytes p with
  | Some o => (set_progress (start p) None (ended p) (invalid p) p, releaseBacking (owned_backing o) s)
  | None => (p, s)
  end.

Definition dispose_collector (p : PreviewCollector) (s : t) : PreviewCollector * t := disposeBytes (set_sealed p) s.

Definition picture_fields (st : PreviewStart) (checkedAtMs : Z) (p : PreviewCollector) : PictureFields :=
  mkFields (c_run p) (c_worker p) (ps_version st) (ps_atSeq st) (ps_geometry st) (ps_generatedAtMs st) checkedAtMs false (c_status p).

(** The tests of [seal] before it looks at what was collected. *)

Definition result_ok (current : bool) (r : RuntimeResult) (p : PreviewCollector) : bool :=
  current && negb (invalid p)
  && match r with
     | RResult res =>
        bool_decide (res_outcome res = accepted) && bool_decide (res_commandType res = ct_preview_refresh)
        && seqb (res_requestId res) (c_requestId p)
        && sameWorkerRef (res_worker res) (c_worker p) && sameRunRef (res_run res) (c_run p)
     | RError _ => false
     end.

Definition proof_ok (proof : option (WorkerRef * RunStatus * bool)) (p : PreviewCollector) : bool :=
  match proof with
  | None => false
  | Some (w, st, _) =>
     negb (is_unverifiable st) && sameWorkerRef w (c_worker p) && sameGeometry (rs_geometry st) (rs_geometry (c_status p))
     && negb (exited_status st && negb (exited_status (c_status p)))
  end.

Definition result_version (r : RuntimeResult) : option Z :=
  match r with RResult res => res_previewVersion res | RError _ => None end.

(** [result.previewVersion !== this.status.parsedSeq]: [undefined] differs from [null]. *)

Definition version_is_parsed (r : RuntimeResult) (p : PreviewCollector) : bool :=
  match result_version r, rs_parsedSeq (c_status p) with Some v, Some parsed => v =? parsed | _, _ => false end.

Definition seal_body (current : bool) (get : Lookup) (r : RuntimeResult) (checkedAtMs : Z) (p : PreviewCollector)
    (c : PreviewCache) : bool * PreviewCollector * PreviewCache :=
  if negb (result_ok current r p) || negb (proof_ok (get (c_run p)) p) then (false, p, c)
  else
    match start p with
    | None =>
       if negb (version_is_parsed r p) || negb (matches get (c_run p) (c_worker p) (c_status p) c) then (false, p, c)
       else let (b, c) := checked get (c_run p) (c_status p) checkedAtMs c in (b, p, c)
    | Some st =>
       match owned_bytes p with
       | None => (false, p, c)
       | Some o =>
          if negb (ended p) || negb (bool_decide (result_version r = Some (ps_version st))) then (false, p, c)
          else if match get (c_run p) with
                  | Some (_, proof, _) => match rs_parsedSeq proof with Some parsed => ps_atSeq st <? parsed | None => false end
                  | None => false
                  end
          then (false, p, c)
          else
            let (b, c) := commit get (picture_fields st checkedAtMs p) o c in
            (b, if b then set_progress (start p) None (ended p) (invalid p) p else p, c)
       end
    end.

Definition seal (current : bool) (get : Lookup) (r : RuntimeResult) (checkedAtMs : Z) (p : PreviewCollector) (c : PreviewCache)
    : bool * PreviewCollector * PreviewCache :=
  if sealed p then (false, p, c)
  else
    let '(b, p, c) := seal_body current get r checkedAtMs (set_sealed p) c in
    let (p, s) := disposeBytes p (account c) in
    (b, p, set_account s c).

(** ** Publishing a picture to a client *)

Inductive Published :=
  | published_event (e : ExternalTerminalEvent)
  | preview_result (requestId : string) (run : RunRef) (transfer : bool) (version : Z) (previewId : option string).

(** What [publishPreview] needs of a [TerminalConnectionDelivery] and of its fence. *)

Class DeliveryPort (D : Type) := {
  admit_item : Published -> list Z -> bool -> D -> bool * D;
  cancel : D -> D;
  fence_current : D -> bool;
}.

Section publish.
Context {D : Type} `{DeliveryPort D}.

(** The [for] loop over the three events: [false] when one was refused, which
    cancels the fence's queued items. *)

Fixpoint admit_all (items : list (Published * list Z)) (d : D) : bool * D :=
  match items with
  | [] => (true, d)
  | (m, payload) :: rest =>
     match admit_item m payload false d with
     | (true, d) => admit_all rest d
     | (false, d) => (false, cancel d)
     end
  end.

Definition transfer_events (previewId : string) (p : PreviewPicture) : list (Published * list Z) :=
  let f := fields p in
  let n := byteLength (vt p) in
  [(published_event (XPreviewStart (mkPreviewStart (pf_run f) previewId (pf_version f) (pf_atSeq f) (pf_geometry f)
       (pf_generatedAtMs f) n 1)), []);
   (published_event (XPreviewChunk (pf_run f) previewId (pf_version f) 0), vt_bytes (vt p));
   (published_event (XPreviewEnd (pf_run f) previewId (pf_version f) n (pf_atSeq f)), [])].

Definition publishPreview (reader : PreviewReader) (requestId : string) (knownVersion : option Z) (previewId : string) (d : D)
    : option Published * D :=
  let p := reader_picture reader in
  let f := fields p in
  let transfer := negb (bool_decide (knownVersion = Some (pf_version f))) in
  let reply := preview_result requestId (pf_run f) transfer (pf_version f) (if transfer then Some previewId else None) in
  if pf_stale f || negb (fence_current d) then (None, d)
  else
    let '(sent, d) := if transfer then admit_all (transfer_events previewId p) d else (true, d) in
    if negb sent then (None, d)
    else match admit_item reply [] true d with
         | (false, d) => (None, cancel d)
         | (true, d) => (if fence_current d then Some reply else None, d)
         end.

End publish.

(** ** What the collector was given *)

Definition relevant (current : bool) (e : PipeEvent) (p : PreviewCollector) : bool :=
  current && sameRunRef (pe_run e) (c_run p) && is_preview (pe_terminal e).

(** The events a collector was given for its run, in order, and where it stands;
    the account is used by others in between. *)

Inductive collected (b : EffectiveBudgets) (r : RunRef) (w : WorkerRef) (requestId : string) (status : RunStatus)
    : list (PipeEvent * list Z) -> PreviewCollector -> Prop :=
  | collected_new : collected b r w requestId status [] (newPreviewCollector r w requestId status)
  | collected_event h p current claimId buffer e payload s p' s' :
      collected b r w requestId status h p -> collect b current claimId buffer e payload p s = (p', s') ->
      collected b r w requestId status (if relevant current e p then h ++ [(e, payload)] else h) p'.

Lemma collected_relevant b r w requestId status h p current claimId buffer e payload s p' s' :
  collected b r w requestId status h p -> relevant current e p = true ->
  collect b current claimId buffer e payload p s = (p', s') ->
  collected b r w requestId status (h ++ [(e, payload)]) p'.
Proof. intros Hc Hr E. pose proof (collected_event _ _ _ _ _ _ _ _ _ _ _ _ _ _ _ Hc E) as H. by rewrite Hr in H. Qed.

Definition start_event (w : WorkerRef) (st : PreviewStart) : PipeEvent := mkPipeEvent w (ps_run st) None (TPreviewStart st).

Definition chunk_event (w : WorkerRef) (st : PreviewStart) : PipeEvent :=
  mkPipeEvent w (ps_run st) None (TPreviewChunk (ps_run st) (ps_previewId st) (ps_version st) 0).

Definition end_event (w : WorkerRef) (st : PreviewStart) : PipeEvent :=
  mkPipeEvent w (ps_run st) None (TPreviewEnd (ps_run st) (ps_previewId st) (ps_version st) (ps_vtBytes st) (ps_atSeq st)).

(** A valid collector was given exactly the beginning of one transfer. *)

Definition transcript (p : PreviewCollector) : list (PipeEvent * list Z) :=
  match start p with
  | None => []
  | Some st =>
     (start_event (c_worker p) st, [])
     :: match owned_bytes p with
        | None => []
        | Some o => (chunk_event (c_worker p) st, vt_bytes (owned_vt o))
                    :: if ended p then [(end_event (c_worker p) st, [])] else []
        end
  end.

Record collector_ok (b : EffectiveBudgets) (p : PreviewCollector) : Prop := mk_collector_ok {
  k_start : forall st, start p = Some st -> ps_run st = c_run p /\ ps_vtBytes st <= previewBytesPerRun b
      /\ ps_atSeq st = ps_version st
      /\ (forall parsed, rs_parsedSeq (c_status p) = Some parsed -> parsed <= ps_atSeq st)
      /\ cols (ps_geometry st) = cols (rs_geometry (c_status p)) /\ rows (ps_geometry st) = rows (rs_geometry (c_status p));
  k_owned : forall o, owned_bytes p = Some o -> exists st, start p = Some st /\ byteLength (owned_vt o) = ps_vtBytes st;
  k_ended : ended p = true -> is_Some (owned_bytes p);
}.

Lemma zlen_nil_inv {A} (l : list A) : (zlen l =? 0) = true -> l = [].
Proof. destruct l; [done |]. unfold zlen. cbn. by intros ?%Z.eqb_eq. Qed.

Lemma start_ok_spec b claimId payload st p : start_ok b claimId payload st p = true ->
  start p = None /\ payload = [] /\ ps_vtBytes st <= previewBytesPerRun b /\ ps_atSeq st = ps_version st
  /\ (forall parsed, rs_parsedSeq (c_status p) = Some parsed -> parsed <= ps_atSeq st)
  /\ cols (ps_geometry st) = cols (rs_geometry (c_status p)) /\ rows (ps_geometry st) = rows (rs_geometry (c_status p)).
Proof.
  unfold start_ok, sameGeometry. rewrite !andb_true_iff.
  intros (((((((((H1 & H2%zlen_nil_inv) & H3) & H4) & H5) & H6) & (H7 & H8)) & H9) & H10) & H11).
  destruct (start p); [done |]. split_and!; try done; try lia. intros parsed Hp. rewrite Hp in H10. lia.
Qed.

Definition same_task (p p' : PreviewCollector) : Prop :=
  c_run p' = c_run p /\ c_worker p' = c_worker p /\ c_requestId p' = c_requestId p /\ c_status p' = c_status p
  /\ sealed p' = sealed p.

Lemma collect_fixed b current claimId buffer e payload p s p' s' : collect b current claimId buffer e payload p s = (p', s') ->
  same_task p p'.
Proof.
  unfold collect, on_start, on_chunk, on_end, take_chunk. intros E.
  repeat match type of E with
         | context [if ?x then _ else _] => destruct x
         | context [match ?x with _ => _ end] => destruct x
         end; by injection E as <- _.
Qed.

Lemma same_transfer_Some id version p st : same_transfer id version p = Some st ->
  start p = Some st /\ ps_previewId st = id /\ ps_version st = version.
Proof.
  unfold same_transfer. destruct (start p) as [st'|]; [| done]. case_if; [| done]. intros [= <-].
  match goal with H : _ && _ = true |- _ => apply andb_true_iff in H as [H1%seqb_eq H2%Z.eqb_eq] end. done.
Qed.

(** Each kind of event extends the transcript, or leaves the collector invalid. *)

Lemma on_start_ok b claimId payload st p : collector_ok b p -> invalid (on_start b claimId payload st p) = false ->
  ps_run st = c_run p -> let p' := on_start b claimId payload st p in
  collector_ok b p' /\ transcript p' = transcript p ++ [(start_event (c_worker p) st, payload)].
Proof.
  intros [K1 K2 K3] Hi Hrun. unfold on_start in *. destruct (start_ok b claimId payload st p) eqn:Hst; [| done].
  apply start_ok_spec in Hst as (S1 & -> & S3 & S4 & S5 & S6 & S7).
  assert (Hnone : owned_bytes p = None).
  { destruct (owned_bytes p) as [o|] eqn:Ho; [| done]. destruct (K2 o eq_refl) as (st' & ? & _). congruence. }
  assert (Hended : ended p = false).
  { destruct (ended p) eqn:He; [| done]. destruct (K3 eq_refl) as [o Ho]. congruence. }
  split.
  - constructor; cbn; [intros st' [= <-]; by split_and! | intros o; congruence | congruence].
  - unfold transcript. cbn. by rewrite S1, Hnone.
Qed.

Lemma on_chunk_ok b st ordinal buffer payload p s p' s' : collector_ok b p -> start p = Some st ->
  on_chunk st ordinal buffer payload p s = (p', s') -> invalid p' = false ->
  ordinal = 0 /\ collector_ok b p' /\ transcript p' = transcript p ++ [(chunk_event (c_worker p) st, payload)].
Proof.
  intros [K1 K2 K3] Hst E Hi. unfold on_chunk in E.
  destruct (match owned_bytes p with Some _ => true | None => false end || _ || _ || _) eqn:Hch; [by injection E as <- _ |].
  repeat apply orb_false_iff in Hch as [Hch ?]. destruct (owned_bytes p) as [o|] eqn:Ho; [done |].
  assert (zlen payload = ps_vtBytes st) by lia. assert (ended p = false) as He by (destruct (ended p); done).
  unfold take_chunk in E. destruct (reserve _ _ s) as [[scratch s1]|]; [| by injection E as <- _].
  destruct (retainBacking _ _ _ s1) as [[h s2]|]; [| by injection E as <- _]. injection E as <- _. split_and!; [lia | |].
  - constructor; cbn; [done | intros o [= <-]; by exists st | by eexists].
  - unfold transcript. cbn. by rewrite Hst, Ho, He.
Qed.

Lemma on_end_ok b st total at_ payload p : collector_ok b p -> start p = Some st ->
  let p' := on_end st total at_ payload p in invalid p' = false ->
  payload = [] /\ total = ps_vtBytes st /\ at_ = ps_atSeq st
  /\ collector_ok b p' /\ transcript p' = transcript p ++ [(end_event (c_worker p) st, [])].
Proof.
  intros [K1 K2 K3] Hst p' Hi. unfold p', on_end in *. clear p'.
  destruct (match owned_bytes p with Some _ => false | None => true end || _ || _ || _ || _) eqn:Hch; [done |].
  repeat apply orb_false_iff in Hch as [Hch ?]. destruct (owned_bytes p) as [o|] eqn:Ho; [| done].
  assert (ended p = false) as He by (destruct (ended p); done). split_and!; [| lia | lia | |].
  - apply zlen_nil_inv. by destruct (zlen payload =? 0).
  - constructor; cbn; [done | exact K2 | by eexists].
  - unfold transcript. cbn. by rewrite Hst, Ho, He.
Qed.

(** One event of the collector's run, when it leaves the collector valid. *)

Lemma collect_grows b current claimId buffer e payload p s p' s' :
  collect b current claimId buffer e payload p s = (p', s') -> sealed p = false -> relevant current e p = true ->
  invalid p' = false -> collector_ok b p ->
  invalid p = false /\ collector_ok b p' /\ transcript p' = transcript p ++ [(e, payload)].
Proof.
  unfold collect, relevant. intros E Hs Hr Hi Hok. apply andb_true_iff in Hr as [Hr Hp]. apply andb_true_iff in Hr as [Hc Hr].
  rewrite Hs, Hc, Hr, Hp in E. cbn [negb orb] in E. destruct (invalid p) eqn:Hinv; [injection E as <- _; congruence |].
  split; [done |].
  destruct (match pe_subscription e with Some _ => true | None => false end || _ || _) eqn:Hbind; [by injection E as <- _ |].
  apply orb_false_iff in Hbind as [Hbind Hrun%negb_false_iff]. apply orb_false_iff in Hbind as [Hsub Hw%negb_false_iff].
  apply sameRunRef_eq in Hr, Hrun. apply sameWorkerRef_eq in Hw.
  destruct e as [ew er esub et]. cbn [pe_worker pe_run pe_subscription pe_terminal] in *. destruct esub; [done |]. subst ew er.
  destruct et as [ev|run d|ch|be|st|run id version ordinal|run id version total at_]; try done; cbn [event_run] in Hrun.
  - injection E as <- _. destruct (on_start_ok _ _ _ _ _ Hok Hi Hrun) as [H1 H2]. split; [done |].
    rewrite H2. unfold start_event. by rewrite Hrun.
  - destruct (same_transfer id version p) as [st|] eqn:Hst; [| by injection E as <- _].
    apply same_transfer_Some in Hst as (Hst & <- & <-). destruct (k_start _ _ Hok st Hst) as (Hrun' & _).
    destruct (on_chunk_ok _ _ _ _ _ _ _ _ _ Hok Hst E Hi) as (-> & H1 & H2). split; [done |].
    rewrite H2. unfold chunk_event. by rewrite Hrun', Hrun.
  - destruct (same_transfer id version p) as [st|] eqn:Hst; [| by injection E as <- _].
    apply same_transfer_Some in Hst as (Hst & <- & <-). destruct (k_start _ _ Hok st Hst) as (Hrun' & _).
    injection E as <- _. destruct (on_end_ok _ _ _ _ _ _ Hok Hst Hi) as (-> & -> & -> & H1 & H2). split; [done |].
    rewrite H2. unfold end_event. by rewrite Hrun', Hrun.
Qed.

Lemma collect_irrelevant b current claimId buffer e payload p s :
  relevant current e p = false -> collect b current claimId buffer e payload p s = (p, s).
Proof.
  unfold collect, relevant. intros Hr. destruct (sealed p); [done |]. destruct current; [| done].
  destruct (sameRunRef _ _); [| done]. destruct (is_preview _); [done |]. done.
Qed.

Lemma collected_ok b r w requestId status h p : collected b r w requestId status h p ->
  same_task (newPreviewCollector r w requestId status) p /\ (invalid p = false -> collector_ok b p /\ h = transcript p).
Proof.
  induction 1 as [|h p current claimId buffer e payload s p' s' Hc [Hsame IH] E].
  - split; [done |]. intros _. split; [| done]. by constructor.
  - pose proof (collect_fixed _ _ _ _ _ _ _ _ _ _ E) as Hf. split.
    { unfold same_task in *. cbn in *. intuition congruence. }
    intros Hi. destruct (relevant current e p) eqn:Hr.
    + assert (Hs : sealed p = false) by (by destruct Hsame as (_ & _ & _ & _ & ->)).
      destruct (invalid p) eqn:Hinv.
      { destruct (collect_grows _ _ _ _ _ _ _ _ _ _ E Hs Hr Hi) as (? & _); [| congruence].
        exfalso. unfold collect in E. rewrite Hinv in E. case_if; injection E as <- _; congruence. }
      destruct (IH eq_refl) as [Hok ->]. destruct (collect_grows _ _ _ _ _ _ _ _ _ _ E Hs Hr Hi Hok) as (_ & ? & ->). done.
    + rewrite (collect_irrelevant _ _ _ _ _ _ _ _ Hr) in E. injection E as <- _. by apply IH.
Qed.

(** ** The collector's bytes *)

Definition coll (p : PreviewCollector) : list nat :=
  match owned_bytes p with Some o => [owned_backing o] | None => [] end.

Lemma with_account fl fh xs fl' fh' xs' c s : cache_ok fl fh xs c ->
  owns fl' fh' (cache_leases c) (cache_handles xs' c) s -> cache_ok fl' fh' xs' (set_account s c).
Proof. intros [I1 I2 I3 I4 I5 I6 I7] Ho. by constructor. Qed.

Lemma handles_cons h xs c : cache_handles (h :: xs) c ≡ₚ h :: cache_handles xs c.
Proof. unfold cache_handles. by rewrite <- !Permutation_middle. Qed.

Lemma take_chunk_owns fl fh c buffer payload p p' s' : cache_ok fl fh (coll p) c -> owned_bytes p = None ->
  take_chunk buffer payload p (account c) = (p', s') -> cache_ok fl fh (coll p') (set_account s' c).
Proof.
  intros Hok Ho E. pose proof (h_owns _ _ _ _ Hok) as Hw. unfold take_chunk in E. unfold coll in Hw. rewrite Ho in Hw.
  destruct (reserve _ _ (account c)) as [[scratch s1]|] eqn:Hres.
  2: { injection E as <- <-. apply (with_account _ _ _ _ _ _ _ _ Hok). unfold coll. cbn. by rewrite Ho. }
  pose proof (owns_reserve _ _ _ _ _ _ _ _ _ Hw Hres) as Hw1.
  destruct (retainBacking _ _ _ s1) as [[h s2]|] eqn:Hret; injection E as <- <-;
    apply (with_account _ _ _ _ _ _ _ _ Hok); unfold coll; cbn; rewrite ?Ho.
  - rewrite handles_cons. eapply owns_release. eapply owns_retain; [exact Hw1 | exact Hret].
  - eapply owns_release. exact Hw1.
Qed.

Lemma collect_owns fl fh c b current claimId buffer e payload p p' s' : cache_ok fl fh (coll p) c ->
  collect b current claimId buffer e payload p (account c) = (p', s') -> cache_ok fl fh (coll p') (set_account s' c).
Proof.
  intros Hok E. assert (Hsame : forall q, coll q = coll p -> cache_ok fl fh (coll q) (set_account (account c) c)).
  { intros q ->. destruct Hok. by constructor. }
  unfold collect in E. destruct (sealed p || _ || _ || _); [injection E as <- <-; by apply Hsame |].
  destruct (invalid p); [injection E as <- <-; by apply Hsame |].
  destruct (_ || _ || _); [injection E as <- <-; by apply Hsame |].
  destruct (pe_terminal e) as [ev|run d|ch|be|st|run id version ordinal|run id version total at_];
    try (injection E as <- <-; by apply Hsame).
  - injection E as <- <-. apply Hsame. unfold on_start. by destruct (start_ok _ _ _ _ _).
  - destruct (same_transfer id version p) as [st|]; [| injection E as <- <-; by apply Hsame]. unfold on_chunk in E.
    destruct (match owned_bytes p with Some _ => true | None => false end || _ || _ || _) eqn:Hch;
      [injection E as <- <-; by apply Hsame |].
    repeat apply orb_false_iff in Hch as [Hch _]. destruct (owned_bytes p) as [o|] eqn:Ho; [done |].
    by eapply take_chunk_owns.
  - destruct (same_transfer id version p) as [st|]; injection E as <- <-; apply Hsame; [| done].
    unfold on_end. by case_if.
Qed.

Lemma disposeBytes_owns fl fh c p p' s' : cache_ok fl fh (coll p) c -> disposeBytes p (account c) = (p', s') ->
  owned_bytes p' = None /\ cache_ok fl fh [] (set_account s' c).
Proof.
  intros Hok E. unfold disposeBytes in E. destruct (owned_bytes p) as [o|] eqn:Ho; injection E as <- <-.
  - split; [done |]. pose proof (h_owns _ _ _ _ Hok) as Hw. apply (with_account _ _ _ _ _ _ _ _ Hok).
    unfold coll in Hw. rewrite Ho, handles_cons in Hw. by apply owns_releaseBacking.
  - split; [done |]. unfold coll in Hok. rewrite Ho in Hok. destruct Hok. by constructor.
Qed.

Lemma coll_sealed p : coll (set_sealed p) = coll p.
Proof. done. Qed.

Lemma seal_body_owns fl fh c current get r now p b p' c' : cache_ok fl fh (coll p) c ->
  seal_body current get r now p c = (b, p', c') -> cache_ok fl fh (coll p') c' /\ sealed p' = sealed p.
Proof.
  intros Hok E. unfold seal_body in E. destruct (negb _ || negb _); [by injection E as <- <- <- |].
  destruct (start p) as [st|] eqn:Hst.
  - destruct (owned_bytes p) as [o|] eqn:Ho; [| by injection E as <- <- <-].
    destruct (negb (ended p) || _); [by injection E as <- <- <- |].
    destruct (match get (c_run p) with Some _ => _ | None => _ end); [by injection E as <- <- <- |].
    destruct (commit get _ o c) as [d c1] eqn:Hc. injection E as <- <- <-. unfold coll in Hok. rewrite Ho in Hok.
    pose proof (h_owns _ _ _ _ Hok) as Hw. rewrite handles_cons in Hw. apply owns_give in Hw as (Hw & Hl & Hn).
    assert (Hgiven : cache_ok fl (fh + 1) [] c) by (destruct Hok; by constructor).
    pose proof (commit_ok _ _ _ _ _ _ _ _ _ Hgiven Hl Hn Hc) as Hd. destruct d; [| subst c1; unfold coll; by rewrite Ho].
    replace (fh + 1 - 1) with fh in Hd by lia. done.
  - destruct (negb _ || negb _); [by injection E as <- <- <- |].
    destruct (checked get _ _ now c) as [d c1] eqn:Hc. injection E as <- <- <-. split; [| done].
    unfold checked in Hc. destruct (entry get (c_run p) c) as [e|] eqn:He; [| by injection Hc as _ <-].
    case_if; injection Hc as _ <-; [done |]. by eapply put_fields_ok.
Qed.

Lemma seal_owns fl fh c current get r now p b p' c' : cache_ok fl fh (coll p) c -> (sealed p = true -> coll p = []) ->
  seal current get r now p c = (b, p', c') -> sealed p' = true /\ coll p' = [] /\ cache_ok fl fh [] c'.
Proof.
  intros Hok Hs E. unfold seal in E. destruct (sealed p) eqn:Hse.
  - injection E as <- <- <-. rewrite Hs in Hok by done. by rewrite Hs.
  - destruct (seal_body current get r now (set_sealed p) c) as [[d p1] c1] eqn:Hb. rewrite <- coll_sealed in Hok.
    destruct (seal_body_owns _ _ _ _ _ _ _ _ _ _ _ Hok Hb) as [Hok1 Hs1].
    destruct (disposeBytes p1 (account c1)) as [p2 s2] eqn:Hd. injection E as <- <- <-.
    destruct (disposeBytes_owns _ _ _ _ _ _ Hok1 Hd) as [H1 H2]. split_and!; [| unfold coll; by rewrite H1 | done].
    unfold disposeBytes in Hd. destruct (owned_bytes p1); by injection Hd as <- _.
Qed.

(** *** Executions of a collector and its cache, with everyone else at work *)

Definition state : Type := Z * Z * PreviewCollector * PreviewCache.

Inductive transfer_step : state -> state -> Prop :=
  | tr_collect b current claimId buffer e payload fl fh p c p' s' :
      collect b current claimId buffer e payload p (account c) = (p', s') ->
      transfer_step (fl, fh, p, c) (fl, fh, p', set_account s' c)
  | tr_seal current get r now fl fh p c b p' c' : seal current get r now p c = (b, p', c') ->
      transfer_step (fl, fh, p, c) (fl, fh, p', c')
  | tr_dispose fl fh p c p' s' : dispose_collector p (account c) = (p', s') ->
      transfer_step (fl, fh, p, c) (fl, fh, p', set_account s' c)
  | tr_other fl fh p c fl' fh' c' : cache_step (coll p) (fl, fh, c) (fl', fh', c') ->
      transfer_step (fl, fh, p, c) (fl', fh', p, c').

Definition transfer_inv (x : state) : Prop :=
  let '(fl, fh, p, c) := x in cache_ok fl fh (coll p) c /\ (sealed p = true -> coll p = []).

Lemma transfer_step_ok x y : transfer_inv x -> transfer_step x y -> transfer_inv y.
Proof.
  intros Hi Hst. revert Hi. destruct Hst as [b current claimId buffer e payload fl fh p c p' s' E|current get r now fl fh p c b p' c' E
    |fl fh p c p' s' E|fl fh p c fl' fh' c' E]; intros [Hok Hs]; cbn.
  - split; [by eapply collect_owns |]. pose proof (collect_fixed _ _ _ _ _ _ _ _ _ _ E) as (_ & _ & _ & _ & Hse).
    rewrite Hse. intros Hse'. unfold collect in E. rewrite Hse' in E. cbn in E. injection E as <- _. by apply Hs.
  - destruct (seal_owns _ _ _ _ _ _ _ _ _ _ _ Hok Hs E) as (H1 & H2 & H3). by rewrite H2.
  - unfold dispose_collector in E. rewrite <- coll_sealed in Hok.
    destruct (disposeBytes_owns _ _ _ _ _ _ Hok E) as [H1 H2]. unfold coll. by rewrite H1.
  - split; [| done]. exact (cache_step_ok _ (fl, fh, c) (fl', fh', c') Hok E).
Qed.

(** ** Properties *)

(** The collector never leaks a picture's bytes: in any interleaving with the
    cache, its readers and the other owners of the account, it owns at most the
    one live backing it copied, distinct from the cache's, and once it is sealed
    or disposed it owns none; a committed picture's backing has passed to the
    cache, and every other one has been released. *)
Theorem transfer_no_leak b s r w requestId status fl0 fh0 c0 fl fh p c : cache_reachable b s (fl0, fh0, c0) ->
  rtc transfer_step (fl0, fh0, newPreviewCollector r w requestId status, c0) (fl, fh, p, c) ->
  (sealed p = true -> owned_bytes p = None)
  /\ Forall (live_handle (account c)) (coll p ++ cache_handles [] c) /\ NoDup (coll p ++ cache_handles [] c)
  /\ live_handles (account c) = fh + zlen (coll p) + zlen (cache_handles [] c)
  /\ plain_leases (account c) = fl + zlen (cache_leases c).
Proof.
  intros Hc Hr. apply (rtc_invariant transfer_step transfer_inv _ _) in Hr; [| | apply transfer_step_ok].
  - destruct Hr as [Hok Hs]. pose proof (h_owns _ _ _ _ Hok) as Hw.
    assert (Hp : cache_handles (coll p) c ≡ₚ coll p ++ cache_handles [] c).
    { unfold coll. destruct (owned_bytes p); [by rewrite handles_cons | done]. }
    rewrite Hp in Hw. destruct Hw as [_ _ [O1 O2 O3 O4 O5 O6]]. rewrite zlen_app in O6. split_and!; [| done | done | lia | done].
    intros Hse. specialize (Hs Hse). unfold coll in Hs. by destruct (owned_bytes p).
  - split; [| done]. exact (cache_reachable_ok _ _ _ Hc).
Qed.

(** A preview is accepted only for what the worker really sent: when [seal]
    succeeds, the collector's run was given either nothing at all, and the
    cached picture was already the version the status reports, or exactly one
    start, its chunk and its end, of one transfer with the announced bytes, and
    the cache now holds these very bytes under the version that the start, the
    sequence and the result agree on. *)
Theorem seal_sound b r w requestId status h p current get res now c p' c' :
  collected b r w requestId status h p -> seal current get res now p c = (true, p', c') ->
  (h = [] /\ matches get r w status c = true /\ result_version res = rs_parsedSeq status)
  \/ (exists st payload e, h = [(start_event w st, []); (chunk_event w st, payload); (end_event w st, [])]
        /\ ps_run st = r /\ zlen payload = ps_vtBytes st /\ ps_vtBytes st <= previewBytesPerRun b
        /\ result_version res = Some (ps_version st) /\ ps_version st = ps_atSeq st
        /\ jget (run_runId r) (entries c') = Some e /\ vt_bytes (vt (picture e)) = payload
        /\ pf_version (fields (picture e)) = ps_version st /\ pf_stale (fields (picture e)) = false).
Proof.
  intros Hc E. destruct (collected_ok _ _ _ _ _ _ _ Hc) as [(E1 & E2 & E3 & E4 & E5) Hvalid]. cbn in E1, E2, E3, E4, E5.
  unfold seal in E. rewrite E5 in E. destruct (seal_body current get res now (set_sealed p) c) as [[d p1] c1] eqn:Hb.
  destruct (disposeBytes p1 (account c1)) as [p2 s2] eqn:Hd. injection E as -> <- <-.
  unfold seal_body in Hb. destruct (negb _ || negb _) eqn:Hres; [done |].
  apply orb_false_iff in Hres as [Hres%negb_false_iff _]. unfold result_ok in Hres. rewrite !andb_true_iff in Hres.
  destruct Hres as [[_ Hinv%negb_true_iff] _]. destruct (Hvalid Hinv) as [[K1 K2 K3] ->].
  cbn [start set_sealed owned_bytes ended c_run c_worker c_status] in Hb. unfold transcript.
  rewrite E1, E2, E4 in Hb. rewrite E1, E4 in K1. rewrite E2. destruct (start p) as [st|] eqn:Hst.
  - right. destruct (owned_bytes p) as [o|] eqn:Ho; [| done]. destruct (ended p); [| done]. cbn [negb orb] in Hb.
    destruct (bool_decide _) eqn:Hver; [| done]. apply bool_decide_eq_true in Hver. cbn [negb] in Hb.
    destruct (match get r with Some _ => _ | None => _ end); [done |].
    destruct (commit get _ o c) as [d c2] eqn:Hcom. injection Hb as -> _ <-.
    destruct (K1 st eq_refl) as (Q1 & Q2 & Q3 & _). destruct (K2 o eq_refl) as (st' & [= <-] & Q4).
    unfold commit in Hcom. destruct (get _) as [[[ww wst] cap]|]; [| done]. case_if; [done |].
    destruct (reserve METADATA false (account c)) as [[lease s]|]; [| done]. injection Hcom as <-.
    eexists st, (vt_bytes (owned_vt o)), _. split_and!; [done | done | done | done | done | done | | | |].
    + cbn [entries set_account set_entries]. rewrite E1, jget_set, decide_True by done. reflexivity.
    + reflexivity.
    + reflexivity.
    + reflexivity.
  - left. destruct (negb _ || negb _) eqn:Hm; [done |].
    apply orb_false_iff in Hm as [Hv%negb_false_iff Hm%negb_false_iff]. split_and!; [done | done |].
    unfold version_is_parsed in Hv. cbn in Hv. rewrite E4 in Hv. destruct (result_version res), (rs_parsedSeq status); try done.
    f_equal. lia.
Qed.

Section published.
Context {D : Type} `{DeliveryPort D}.

(** The delivery admitted these items, in this order. *)

Inductive admitted : list (Published * list Z * bool) -> D -> D -> Prop :=
  | admitted_nil d : admitted [] d d
  | admitted_cons m payload ctl rest d d1 d2 : admit_item m payload ctl d = (true, d1) -> admitted rest d1 d2 ->
      admitted ((m, payload, ctl) :: rest) d d2.

(** It admitted some of them and refused the next, after which it was cancelled. *)

Definition refused_after (items : list (Published * list Z * bool)) (d d' : D) : Prop :=
  exists before m payload ctl after d1 d2, items = before ++ (m, payload, ctl) :: after
    /\ admitted before d d1 /\ admit_item m payload ctl d1 = (false, d2) /\ d' = cancel d2.

Definition transfers (knownVersion : option Z) (rd : PreviewReader) : bool :=
  negb (bool_decide (knownVersion = Some (pf_version (fields (reader_picture rd))))).

Definition reply_of (rd : PreviewReader) (requestId : string) (knownVersion : option Z) (previewId : string) : Published :=
  let f := fields (reader_picture rd) in
  let tr := transfers knownVersion rd in
  preview_result requestId (pf_run f) tr (pf_version f) (if tr then Some previewId else None).

(** What is to be sent: the transfer, when the client lacks the version, and then
    the reply, which alone is a control item. *)

Definition to_send (rd : PreviewReader) (requestId : string) (knownVersion : option Z) (previewId : string)
    : list (Published * list Z * bool) :=
  (if transfers knownVersion rd
   then map (fun x => (x.1, x.2, false)) (transfer_events previewId (reader_picture rd)) else [])
  ++ [(reply_of rd requestId knownVersion previewId, [], true)].

Lemma admitted_app l1 l2 d d1 d2 : admitted l1 d d1 -> admitted l2 d1 d2 -> admitted (l1 ++ l2) d d2.
Proof. intros H1. revert l2. induction H1; intros l2 H2; [done |]. cbn. econstructor; eauto. Qed.

Lemma admit_all_spec items d :
  let l := map (fun x => (x.1, x.2, false)) items in
  match admit_all items d with
  | (true, d') => admitted l d d'
  | (false, d') => refused_after l d d'
  end.
Proof.
  revert d. induction items as [|[m payload] items IH]; intros d; cbn; [constructor |].
  destruct (admit_item m payload false d) as [[|] d1] eqn:Ha.
  - specialize (IH d1). cbn in IH. destruct (admit_all items d1) as [[|] d2]; [by econstructor |].
    destruct IH as (before & m' & payload' & ctl & after & d3 & d4 & -> & H1 & H2 & ->).
    exists ((m, payload, false) :: before), m', payload', ctl, after, d3, d4. split_and!; [done | by econstructor | done | done].
  - exists [], m, payload, false, (map (fun x => (x.1, x.2, false)) items), d, d1. split_and!; [done | constructor | done | done].
Qed.

(** Publishing is all or nothing towards the client's fence: either the
    picture is stale or its fence already gone and nothing is handed to the
    delivery; or the items, the whole transfer and then the reply, were all
    admitted in order, and the reply is returned exactly when the fence still
    stands; or one item was refused, no later one was offered, and the fence's
    items were cancelled.  An unchanged version sends only the reply. *)
Theorem publish_exact rd requestId knownVersion previewId d :
  let '(res, d') := publishPreview rd requestId knownVersion previewId d in
  let items := to_send rd requestId knownVersion previewId in
  (res = None /\ d' = d /\ (pf_stale (fields (reader_picture rd)) = true \/ fence_current d = false))
  \/ (pf_stale (fields (reader_picture rd)) = false /\ fence_current d = true
      /\ ((admitted items d d' /\ res = if fence_current d' then Some (reply_of rd requestId knownVersion previewId) else None)
          \/ (refused_after items d d' /\ res = None))).
Proof.
  unfold publishPreview, to_send, reply_of, transfers. cbv zeta. set (tr := negb (bool_decide _)).
  destruct (pf_stale _); [left; cbn; by auto |]. destruct (fence_current d) eqn:Hf; [| left; cbn; by auto]. cbn [negb orb].
  set (reply := preview_result _ _ _ _ _).
  assert (Hlast : forall l d1, admitted l d d1 ->
    let '(res, d') := match admit_item reply [] true d1 with
                      | (false, d2) => (None, cancel d2)
                      | (true, d2) => (if fence_current d2 then Some reply else None, d2)
                      end in
    (admitted (l ++ [(reply, [], true)]) d d' /\ res = if fence_current d' then Some reply else None)
    \/ (refused_after (l ++ [(reply, [], true)]) d d' /\ res = None)).
  { intros l d1 Hl. destruct (admit_item reply [] true d1) as [[|] d2] eqn:Ha.
    - left. split; [| done]. eapply admitted_app; [exact Hl |]. econstructor; [exact Ha | constructor].
    - right. split; [| done]. by exists l, reply, [], true, [], d1, d2. }
  destruct tr.
  - pose proof (admit_all_spec (transfer_events previewId (reader_picture rd)) d) as Hall. cbv zeta in Hall.
    destruct (admit_all _ d) as [[|] d1]; cbn [negb].
    + specialize (Hlast _ d1 Hall). destruct (admit_item reply [] true d1) as [[|] d2]; right; split_and!; done.
    + right. split_and!; [done | done |]. right. split; [| done].
      destruct Hall as (before & m & payload & ctl & after & d3 & d4 & -> & H1 & H2 & ->).
      exists before, m, payload, ctl, (after ++ [(reply, [], true)]), d3, d4. by rewrite <- app_assoc.
  - cbn [negb]. specialize (Hlast [] d (admitted_nil d)). destruct (admit_item reply [] true d) as [[|] d2]; right; split_and!; done.
Qed.

End published.

(** ** A transfer at work *)

Section transfer_demo.

Definition sample_start : PreviewStart := mkPreviewStart demo_run_ref "p1" 7 7 (mkGeometry 80 24) 1000 3 1.

Definition sample_bytes : list Z := [27; 91; 74].

Definition sample_inputs : list (PipeEvent * list Z) :=
  [(start_event demo_worker_ref sample_start, []); (chunk_event demo_worker_ref sample_start, sample_bytes);
   (end_event demo_worker_ref sample_start, [])].

Definition sample_new_collector : PreviewCollector := newPreviewCollector demo_run_ref demo_worker_ref "req" demo_run_status.

Definition feed (x : PreviewCollector * t) (i : PipeEvent * list Z) : PreviewCollector * t :=
  collect M0_LIMITS true (fun _ => true) 9 i.1 i.2 x.1 x.2.

Definition sample_fed : PreviewCollector * t := foldl feed (sample_new_collector, PreviewCache.account demo_read) sample_inputs.

Definition sample_result : RuntimeResult :=
  RResult (mkPipeResult demo_worker_ref demo_run_ref "req" ct_preview_refresh accepted None None None None None None None (Some 7)).

Definition sample_sealed : bool * PreviewCollector * PreviewCache :=
  seal true demo_lookup sample_result 2000 sample_fed.1 (set_account sample_fed.2 demo_read).

Lemma sample_collected :
  collected M0_LIMITS demo_run_ref demo_worker_ref "req" demo_run_status sample_inputs sample_fed.1.
Proof.
  set (x1 := feed (sample_new_collector, PreviewCache.account demo_read) (start_event demo_worker_ref sample_start, [])).
  set (x2 := feed x1 (chunk_event demo_worker_ref sample_start, sample_bytes)).
  apply (collected_relevant _ _ _ _ _ [(start_event demo_worker_ref sample_start, []); (chunk_event demo_worker_ref sample_start, sample_bytes)]
    x2.1 true (fun _ => true) 9 (end_event demo_worker_ref sample_start) [] x2.2 _ sample_fed.2); [| by vm_compute | by vm_compute].
  apply (collected_relevant _ _ _ _ _ [(start_event demo_worker_ref sample_start, [])]
    x1.1 true (fun _ => true) 9 (chunk_event demo_worker_ref sample_start) sample_bytes x1.2 _ x2.2); [| by vm_compute | by vm_compute].
  by apply (collected_relevant _ _ _ _ _ [] sample_new_collector true (fun _ => true) 9 (start_event demo_worker_ref sample_start) []
    (PreviewCache.account demo_read) _ x1.2 (collected_new _ _ _ _ _)); vm_compute.
Qed.

Lemma seal_sound_witness :
  sample_sealed.1.1 = true /\ exists st payload, sample_inputs
    = [(start_event demo_worker_ref st, []); (chunk_event demo_worker_ref st, payload); (end_event demo_worker_ref st, [])]
    /\ zlen payload = ps_vtBytes st.
Proof.
  split; [by vm_compute |].
  destruct (seal_sound _ _ _ _ _ _ _ true demo_lookup sample_result 2000 (set_account sample_fed.2 demo_read)
    sample_sealed.1.2 sample_sealed.2 sample_collected) as [(H & _)|(st & payload & e & H1 & _ & H2 & _)].
  - by vm_compute.
  - discriminate H.
  - exists st, payload. split; [exact H1 | exact H2].
Defined.

Lemma sample_steps : rtc transfer_step (0, 0, sample_new_collector, demo_read) (0, 0, sample_sealed.1.2, sample_sealed.2).
Proof.
  set (x1 := feed (sample_new_collector, PreviewCache.account demo_read) (start_event demo_worker_ref sample_start, [])).
  set (x2 := feed x1 (chunk_event demo_worker_ref sample_start, sample_bytes)).
  eapply (rtc_l _ _ (0, 0, x1.1, set_account x1.2 demo_read)).
  { apply (tr_collect M0_LIMITS true (fun _ => true) 9 (start_event demo_worker_ref sample_start) []). by vm_compute. }
  eapply (rtc_l _ _ (0, 0, x2.1, set_account x2.2 demo_read)).
  { apply (tr_collect M0_LIMITS true (fun _ => true) 9 (chunk_event demo_worker_ref sample_start) sample_bytes
      0 0 x1.1 (set_account x1.2 demo_read)). by vm_compute. }
  eapply (rtc_l _ _ (0, 0, sample_fed.1, set_account sample_fed.2 demo_read)).
  { apply (tr_collect M0_LIMITS true (fun _ => true) 9 (end_event demo_worker_ref sample_start) []
      0 0 x2.1 (set_account x2.2 demo_read)). by vm_compute. }
  apply rtc_once. apply (tr_seal true demo_lookup sample_result 2000 0 0 _ _ sample_sealed.1.1). by vm_compute.
Qed.

Lemma transfer_no_leak_witness :
  sealed sample_sealed.1.2 = true /\ owned_bytes sample_sealed.1.2 = None
  /\ live_handles (PreviewCache.account sample_sealed.2) = zlen (cache_handles [] sample_sealed.2).
Proof.
  split; [by vm_compute |].
  destruct (transfer_no_leak _ _ _ _ _ _ _ _ _ _ _ _ _ demo_read_reachable sample_steps) as (H1 & _ & _ & H2 & _).
  split; [apply H1; by vm_compute |]. rewrite H2. by vm_compute.
Defined.

End transfer_demo.
