(* ===== verification/AuthStore.v ===== *)
(** * Device authorization in the store (apps/server/src/store/sql/auth.ts, migration 006)

    The tables of invitations and devices by their primary keys, and every
    operation on them: the reads, the redemption of an invitation, the use and
    the promotion of a device token, and the writes that run inside
    [receipts.write].  A hash is the list of its bytes.  An operation is a
    function on the tables; [None] is a constraint of the schema that aborts
    it. *)

From stdpp Require Import sorting.
From S2P Require Import Prelude Json Protocol Errors Operations StoreTables ReceiptStore.

(** ** Rows *)

Inductive EntryKind := entry_loopback | entry_ssh | entry_tsnet.

#[export] Instance EntryKind_eq : EqDecision EntryKind.
Proof. solve_decision. Defined.

Inductive InvitationState := inv_open | inv_redeemed | inv_cancelled | inv_expired.

#[export] Instance InvitationState_eq : EqDecision InvitationState.
Proof. solve_decision. Defined.

Record InvitationRow := mkInvitationRow {
  iv_inviteId : string; iv_state : InvitationState; iv_secretHash : option (list Z); iv_createdAt : Z;
  iv_expiresAt : Z; iv_createdBy : option string; iv_pairingPort : Z; iv_wrongSecrets : Z;
  iv_redeemedDevice : option string; iv_endedAt : option Z;
}.

Record DeviceRow := mkDeviceRow {
  dv_deviceId : string; dv_revision : Z; dv_name : string; dv_inviteId : string; dv_tokenHash : list Z;
  dv_pendingTokenHash : option (list Z); dv_createdAt : Z; dv_lastUsedAt : option Z; dv_lastEntry : option EntryKind;
  dv_revokedAt : option Z;
}.

Record AuthTables := mkAuthTables { invitations : gmap string InvitationRow; devices : gmap string DeviceRow }.

(** What the operations answer. *)

Record StoredDeviceCredential := mkCredential {
  sd_deviceId : string; sd_tokenHash : list Z; sd_pendingTokenHash : option (list Z); sd_revoked : bool;
  sd_lastUsedAt : option Z; sd_lastEntry : option EntryKind;
}.

Record OpenInvitation := mkOpenInvitation { oi_inviteId : string; oi_expiresAt : Z; oi_pairingPort : Z }.

Record InvitationRecord := mkInvitationRecord {
  ir_inviteId : string; ir_state : InvitationState; ir_createdAt : Z; ir_expiresAt : Z; ir_createdBy : option string;
  ir_redeemedDevice : option string;
}.

Record DeviceRecord := mkDeviceRecord {
  dr_deviceId : string; dr_revision : Z; dr_name : string; dr_createdAt : Z; dr_inviteId : string;
  dr_lastUsedAt : option Z; dr_lastEntry : option EntryKind; dr_neverConnected : bool; dr_revokedAt : option Z;
}.

(** [AUTH_LIMITS] of protocol/src/auth.ts. *)

Definition invitationWrongSecrets : Z := 5.

Definition listedInvitations : nat := 64.

Definition listedDevices : nat := 256.

Definition sameHash (a b : list Z) : bool := bool_decide (a = b).

Definition effectiveState (row : InvitationRow) (at_ : Z) : InvitationState :=
  if bool_decide (iv_state row = inv_open) && (iv_expiresAt row <=? at_) then inv_expired else iv_state row.

Definition invitationRecord (row : InvitationRow) (at_ : Z) : InvitationRecord :=
  mkInvitationRecord (iv_inviteId row) (effectiveState row at_) (iv_createdAt row) (iv_expiresAt row) (iv_createdBy row)
    (iv_redeemedDevice row).

Definition deviceRecord (row : DeviceRow) : DeviceRecord :=
  mkDeviceRecord (dv_deviceId row) (dv_revision row) (dv_name row) (dv_createdAt row) (dv_inviteId row)
    (dv_lastUsedAt row) (dv_lastEntry row) (negb (bool_decide (is_Some (dv_lastUsedAt row)))) (dv_revokedAt row).

Definition deviceCredential (row : DeviceRow) : StoredDeviceCredential :=
  mkCredential (dv_deviceId row) (dv_tokenHash row) (dv_pendingTokenHash row)
    (bool_decide (is_Some (dv_revokedAt row))) (dv_lastUsedAt row) (dv_lastEntry row).

(** ** Ordered queries

    [ORDER BY] a list of columns ends with the primary key, so the order of a
    result does not depend on the order of the table. *)

Definition before {A} (columns : A -> A -> comparison) (x y : A) : Prop :=
  match columns x y with Gt => False | _ => True end.

#[export] Instance before_decision {A} (columns : A -> A -> comparison) x y : Decision (before columns x y).
Proof. unfold before. destruct (columns x y); apply _. Defined.

Definition order_by {A} (columns : A -> A -> comparison) (rows : list A) : list A := merge_sort (before columns) rows.

Definition then_by (first second : comparison) : comparison := match first with Eq => second | _ => first end.

Definition is_open_at (at_ : Z) (row : InvitationRow) : bool :=
  bool_decide (iv_state row = inv_open) && (at_ <? iv_expiresAt row).

Definition invitation_rows (t : AuthTables) : list InvitationRow := map snd (map_to_list (invitations t)).

Definition device_rows (t : AuthTables) : list DeviceRow := map snd (map_to_list (devices t)).

Definition openInvitations (at_ : Z) (t : AuthTables) : list OpenInvitation :=
  map (fun row => mkOpenInvitation (iv_inviteId row) (iv_expiresAt row) (iv_pairingPort row))
    (order_by (fun x y => then_by (iv_expiresAt x ?= iv_expiresAt y) (String.compare (iv_inviteId x) (iv_inviteId y)))
       (List.filter (is_open_at at_) (invitation_rows t))).

Definition auth_load (at_ : Z) (t : AuthTables) : list StoredDeviceCredential * list OpenInvitation :=
  (map deviceCredential (order_by (fun x y => String.compare (dv_deviceId x) (dv_deviceId y)) (device_rows t)),
   openInvitations at_ t).

Definition bool_desc (a b : bool) : comparison := match a, b with true, false => Lt | false, true => Gt | _, _ => Eq end.

Definition invitations_list (at_ : Z) (t : AuthTables) : list InvitationRecord :=
  map (fun row => invitationRecord row at_)
    (take listedInvitations
       (order_by (fun x y => then_by (bool_desc (is_open_at at_ x) (is_open_at at_ y))
                               (then_by (iv_createdAt y ?= iv_createdAt x)
                                  (String.compare (iv_inviteId x) (iv_inviteId y))))
          (invitation_rows t))).

Definition devices_list (includeRevoked : bool) (t : AuthTables) : list DeviceRecord :=
  map deviceRecord
    (take listedDevices
       (order_by (fun x y => then_by (dv_createdAt x ?= dv_createdAt y) (String.compare (dv_deviceId x) (dv_deviceId y)))
          (List.filter (fun row => includeRevoked || negb (bool_decide (is_Some (dv_revokedAt row)))) (device_rows t)))).

(** ** Statements *)

(** The row of an invitation that ends: its secret hash goes with it. *)

Definition ended (state : InvitationState) (at_ : Z) (redeemedDevice : option string) (row : InvitationRow) : InvitationRow :=
  mkInvitationRow (iv_inviteId row) state None (iv_createdAt row) (iv_expiresAt row) (iv_createdBy row)
    (iv_pairingPort row) (iv_wrongSecrets row) redeemedDevice (Some at_).

(** [UPDATE auth_invitations SET state, secret_hash = NULL, ended_at_ms WHERE ...
    AND state = 'open'], which leaves [redeemed_device_id] alone. *)

Definition end_where (selected : InvitationRow -> bool) (state : InvitationState) (at_ : Z)
    (m : gmap string InvitationRow) : gmap string InvitationRow :=
  (fun row => if bool_decide (iv_state row = inv_open) && selected row
              then ended state at_ (iv_redeemedDevice row) row else row) <$> m.

Definition endInvitation (inviteId : string) (state : InvitationState) (at_ : Z) (redeemedDevice : option string)
    (m : gmap string InvitationRow) : gmap string InvitationRow :=
  alter (fun row => if bool_decide (iv_state row = inv_open) then ended state at_ redeemedDevice row else row) inviteId m.

Definition wrong_secret (wrong : Z) (row : InvitationRow) : InvitationRow :=
  mkInvitationRow (iv_inviteId row) (iv_state row) (iv_secretHash row) (iv_createdAt row) (iv_expiresAt row)
    (iv_createdBy row) (iv_pairingPort row) wrong (iv_redeemedDevice row) (iv_endedAt row).

Definition set_token (token : list Z) (pending : option (list Z)) (row : DeviceRow) : DeviceRow :=
  mkDeviceRow (dv_deviceId row) (dv_revision row) (dv_name row) (dv_inviteId row) token pending (dv_createdAt row)
    (dv_lastUsedAt row) (dv_lastEntry row) (dv_revokedAt row).

Definition set_use (at_ : Z) (entry : EntryKind) (row : DeviceRow) : DeviceRow :=
  mkDeviceRow (dv_deviceId row) (dv_revision row) (dv_name row) (dv_inviteId row) (dv_tokenHash row)
    (dv_pendingTokenHash row) (dv_createdAt row) (Some at_) (Some entry) (dv_revokedAt row).

Definition set_name (name : string) (row : DeviceRow) : DeviceRow :=
  mkDeviceRow (dv_deviceId row) (dv_revision row + 1) name (dv_inviteId row) (dv_tokenHash row)
    (dv_pendingTokenHash row) (dv_createdAt row) (dv_lastUsedAt row) (dv_lastEntry row) (dv_revokedAt row).

Definition set_revoked (at_ : Z) (row : DeviceRow) : DeviceRow :=
  mkDeviceRow (dv_deviceId row) (dv_revision row + 1) (dv_name row) (dv_inviteId row) (dv_tokenHash row)
    None (dv_createdAt row) (dv_lastUsedAt row) (dv_lastEntry row) (Some at_).

(** ** Operations *)

Definition invitations_expire (at_ : Z) (t : AuthTables) : Z * AuthTables :=
  let due row := iv_expiresAt row <=? at_ in
  (zlen (List.filter (fun row => bool_decide (iv_state row = inv_open) && due row) (invitation_rows t)),
   mkAuthTables (end_where due inv_expired at_ (invitations t)) (devices t)).

Record RedeemArgs := mkRedeem {
  rq_inviteId : string; rq_secretHash : list Z; rq_at : Z; rq_deviceId : string; rq_name : string; rq_tokenHash : list Z;
}.

Definition new_device (args : RedeemArgs) : DeviceRow :=
  mkDeviceRow (rq_deviceId args) 0 (rq_name args) (rq_inviteId args) (rq_tokenHash args) None (rq_at args) None None None.

(** [auth.redeem]: the answer is the device that was created, if any. *)

Definition redeem (args : RedeemArgs) (t : AuthTables) : option (option string * AuthTables) :=
  let refuse := Some (None, t) in
  match invitations t !! rq_inviteId args with
  | None => refuse
  | Some row =>
     match bool_decide (iv_state row = inv_open), iv_secretHash row with
     | true, Some secret =>
        if bool_decide (effectiveState row (rq_at args) = inv_expired)
        then Some (None, mkAuthTables (endInvitation (rq_inviteId args) inv_expired (rq_at args) None (invitations t)) (devices t))
        else if negb (sameHash secret (rq_secretHash args))
        then
          let wrong := iv_wrongSecrets row + 1 in
          let m := alter (wrong_secret wrong) (rq_inviteId args) (invitations t) in
          let m := if invitationWrongSecrets <=? wrong
                   then endInvitation (rq_inviteId args) inv_cancelled (rq_at args) None m else m in
          Some (None, mkAuthTables m (devices t))
        else match devices t !! rq_deviceId args with
             | Some _ => None
             | None =>
                Some (Some (rq_deviceId args),
                      mkAuthTables (endInvitation (rq_inviteId args) inv_redeemed (rq_at args) (Some (rq_deviceId args)) (invitations t))
                        (<[rq_deviceId args := new_device args]> (devices t)))
             end
     | _, _ => refuse
     end
  end.

Definition devices_touch (deviceId : string) (at_ : Z) (entry : EntryKind) (t : AuthTables) : AuthTables :=
  mkAuthTables (invitations t) (alter (set_use at_ entry) deviceId (devices t)).

Definition promotable (hash : list Z) (row : DeviceRow) : bool :=
  bool_decide (dv_pendingTokenHash row = Some hash) && negb (bool_decide (is_Some (dv_revokedAt row))).

(** [auth.devices.promote] *)

Definition devices_promote (deviceId : string) (hash : list Z) (at_ : Z) (entry : EntryKind) (t : AuthTables)
    : bool * option StoredDeviceCredential * AuthTables :=
  match devices t !! deviceId with
  | None => (false, None, t)
  | Some row =>
     if promotable hash row
     then let row := set_use at_ entry (set_token hash None row) in
          (true, Some (deviceCredential row), mkAuthTables (invitations t) (<[deviceId := row]> (devices t)))
     else (false, Some (deviceCredential row), t)
  end.

(** ** Writes (authWrites) *)

Inductive AuthWrite :=
  | AW_invite_create (inviteId : string) (secretHash : list Z) (at_ expiresAt : Z) (createdBy : option string) (pairingPort : Z)
  | AW_invite_cancel (inviteId : string) (at_ : Z)
  | AW_device_rename (deviceId name : string) (expectedRevision : option Z)
  | AW_device_revoke (deviceId : string) (at_ : Z)
  | AW_device_rotate (deviceId : string) (pendingTokenHash : list Z).

Definition invite_result (inviteId : option string) (deviceId : option string) (expiresAt : option Z) (once : bool)
    : OperationResultData :=
  mkResultData None None None None None None None None None inviteId deviceId expiresAt (if once then Some tt else None)
    None None None.

Definition refusal (kind : DomainErrorKind) (t : AuthTables) : option (Applied * AuthTables) :=
  Some (refused (domainErrorOf kind), t).

Definition unrevoked (deviceId : string) (t : AuthTables) : bool :=
  match devices t !! deviceId with Some row => negb (bool_decide (is_Some (dv_revokedAt row))) | None => false end.

Definition invite_create (inviteId : string) (secretHash : list Z) (at_ expiresAt : Z) (createdBy : option string)
    (pairingPort : Z) (t : AuthTables) : option (Applied * AuthTables) :=
  if match createdBy with Some d => negb (unrevoked d t) | None => false end then refusal DEVICE_REVOKED t
  else match invitations t !! inviteId with
       | Some _ => None
       | None =>
          Some (applied (invite_result (Some inviteId) None (Some expiresAt) true) false,
                mkAuthTables
                  (<[inviteId := mkInvitationRow inviteId inv_open (Some secretHash) at_ expiresAt createdBy pairingPort 0 None None]>
                     (invitations t)) (devices t))
       end.

Definition invite_cancel (inviteId : string) (at_ : Z) (t : AuthTables) : option (Applied * AuthTables) :=
  match invitations t !! inviteId with
  | None => refusal INVITATION_NOT_FOUND t
  | Some row =>
     if negb (bool_decide (effectiveState row at_ = inv_open)) then refusal INVITATION_UNAVAILABLE t
     else Some (applied (invite_result (Some inviteId) None None false) false,
                mkAuthTables (endInvitation inviteId inv_cancelled at_ None (invitations t)) (devices t))
  end.

Definition device_rename (deviceId name : string) (expectedRevision : option Z) (t : AuthTables)
    : option (Applied * AuthTables) :=
  match devices t !! deviceId with
  | None => refusal DEVICE_NOT_FOUND t
  | Some row =>
     if match expectedRevision with Some r => negb (r =? dv_revision row) | None => false end
     then refusal REVISION_CONFLICT t
     else if MAX_SAFE_INTEGER <=? dv_revision row then refusal COUNTER_EXHAUSTED t
     else Some (applied (invite_result None (Some deviceId) None false) false,
                mkAuthTables (invitations t) (<[deviceId := set_name name row]> (devices t)))
  end.

Definition created_by (deviceId : string) (row : InvitationRow) : bool := bool_decide (iv_createdBy row = Some deviceId).

Definition device_revoke (deviceId : string) (at_ : Z) (t : AuthTables) : option (Applied * AuthTables) :=
  match devices t !! deviceId with
  | None => refusal DEVICE_NOT_FOUND t
  | Some row =>
     let finish m :=
       Some (applied (invite_result None (Some deviceId) None false) false,
             mkAuthTables (end_where (created_by deviceId) inv_cancelled at_ (invitations t)) m) in
     match dv_revokedAt row with
     | Some _ => finish (devices t)
     | None =>
        if MAX_SAFE_INTEGER <=? dv_revision row then refusal COUNTER_EXHAUSTED t
        else finish (<[deviceId := set_revoked at_ row]> (devices t))
     end
  end.

Definition device_rotate (deviceId : string) (pendingTokenHash : list Z) (t : AuthTables) : option (Applied * AuthTables) :=
  match devices t !! deviceId with
  | None => refusal DEVICE_REVOKED t
  | Some row =>
     match dv_revokedAt row with
     | Some _ => refusal DEVICE_REVOKED t
     | None =>
        Some (applied (invite_result None (Some deviceId) None true) false,
              mkAuthTables (invitations t)
                (<[deviceId := set_token (dv_tokenHash row) (Some pendingTokenHash) row]> (devices t)))
     end
  end.

Definition authWrites (w : AuthWrite) (t : AuthTables) : option (Applied * AuthTables) :=
  match w with
  | AW_invite_create i h at_ e d p => invite_create i h at_ e d p t
  | AW_invite_cancel i at_ => invite_cancel i at_ t
  | AW_device_rename d name r => device_rename d name r t
  | AW_device_revoke d at_ => device_revoke d at_ t
  | AW_device_rotate d h => device_rotate d h t
  end.

(** The writes as what [receipts.write] applies, where the tables of the
    authorization are what the receipts leave alone. *)

Definition auth_other_write (w : AuthWrite) (db : Connection AuthTables) : option (Applied * Connection AuthTables) :=
  match authWrites w (other db) with
  | None => None
  | Some (answer, t) =>
     Some (answer, mkConnection (operations db) (operation_tombstones db) (operation_processes db)
                     (worktree_attempts db) (worktree_preparations db) (runs db) (runs_last db) (tabs db) (deleting db) t)
  end.

(** ** Every operation that changes the tables, with what it answers *)

Inductive AuthOp :=
  | AO_expire (at_ : Z)
  | AO_redeem (args : RedeemArgs)
  | AO_touch (deviceId : string) (at_ : Z) (entry : EntryKind)
  | AO_promote (deviceId : string) (hash : list Z) (at_ : Z) (entry : EntryKind)
  | AO_write (w : AuthWrite).

(** The tables after an operation: unchanged when it throws or refuses. *)

Definition auth_apply (op : AuthOp) (t : AuthTables) : AuthTables :=
  match op with
  | AO_expire at_ => (invitations_expire at_ t).2
  | AO_redeem args => match redeem args t with Some (_, t') => t' | None => t end
  | AO_touch d at_ e => devices_touch d at_ e t
  | AO_promote d h at_ e => (devices_promote d h at_ e t).2
  | AO_write w => match authWrites w t with Some (applied _ _, t') => t' | _ => t end
  end.

(** The device an operation paired, with its invitation. *)

Definition paired (op : AuthOp) (t : AuthTables) : option (string * string) :=
  match op with
  | AO_redeem args => match redeem args t with Some (Some d, _) => Some (rq_inviteId args, d) | _ => None end
  | _ => None
  end.

(** The invitation whose secret an operation compared and found wrong. *)

Definition guessed (op : AuthOp) (t : AuthTables) : option string :=
  match op with
  | AO_redeem args =>
     match invitations t !! rq_inviteId args with
     | Some row =>
        match iv_secretHash row with
        | Some secret => if bool_decide (effectiveState row (rq_at args) = inv_open) && negb (sameHash secret (rq_secretHash args))
                         then Some (rq_inviteId args) else None
        | None => None
        end
     | None => None
     end
  | _ => None
  end.

Definition no_tables : AuthTables := mkAuthTables ∅ ∅.

Fixpoint auth_run (ops : list AuthOp) (t : AuthTables) : AuthTables :=
  match ops with [] => t | op :: ops => auth_run ops (auth_apply op t) end.

Fixpoint observed {A} (f : AuthOp -> AuthTables -> option A) (ops : list AuthOp) (t : AuthTables) : list A :=
  match ops with
  | [] => []
  | op :: ops => match f op t with Some a => [a] | None => [] end ++ observed f ops (auth_apply op t)
  end.

(** ** The invariant of the tables *)

Record invitation_ok (id : string) (row : InvitationRow) : Prop := mkInvitationOk {
  io_id : iv_inviteId row = id;
  io_secret : is_Some (iv_secretHash row) <-> iv_state row = inv_open;
  io_wrong : 0 <= iv_wrongSecrets row <= invitationWrongSecrets;
  io_survives : iv_state row = inv_open -> iv_wrongSecrets row < invitationWrongSecrets;
  io_ended : is_Some (iv_endedAt row) <-> iv_state row <> inv_open;
  io_redeemed : is_Some (iv_redeemedDevice row) <-> iv_state row = inv_redeemed;
}.

Record device_ok (id : string) (row : DeviceRow) : Prop := mkDeviceOk {
  do_id : dv_deviceId row = id;
  do_revoked : is_Some (dv_revokedAt row) -> dv_pendingTokenHash row = None;
}.

(** The device an invitation admitted, the invitation that admitted a device. *)

Definition redeemed_by (t : AuthTables) (inviteId : string) : option string := invitations t !! inviteId ≫= iv_redeemedDevice.

Definition admitted_with (t : AuthTables) (deviceId : string) : option string := dv_inviteId <$> devices t !! deviceId.

Record tables_ok (t : AuthTables) : Prop := mkTablesOk {
  tk_invitations : forall id row, invitations t !! id = Some row -> invitation_ok id row;
  tk_devices : forall id row, devices t !! id = Some row -> device_ok id row;
  tk_paired : forall i d, redeemed_by t i = Some d <-> admitted_with t d = Some i;
}.
