(* ===== verification/AuthProperties.v ===== *)
(** * What the tables of device authorization keep

    After any operations on empty tables: invitations and devices correspond
    one to one where a redemption made them ([tables_ok]); what an operation
    may do to a row ([invitation_after], [device_after]); an invitation admits
    one device at most and survives fewer than five wrong secrets. *)

From S2P Require Import Prelude Protocol Errors Operations StoreTables ReceiptStore AuthStore.

(** ** What an operation may do to a row *)

Definition invitation_after (row row' : InvitationRow) : Prop :=
  row' = row
  \/ iv_state row = inv_open
     /\ (iv_inviteId row', iv_createdAt row', iv_expiresAt row', iv_createdBy row', iv_pairingPort row')
        = (iv_inviteId row, iv_createdAt row, iv_expiresAt row, iv_createdBy row, iv_pairingPort row)
     /\ iv_wrongSecrets row <= iv_wrongSecrets row' <= iv_wrongSecrets row + 1
     /\ (iv_state row' = inv_open -> iv_secretHash row' = iv_secretHash row)
     /\ (iv_state row' <> inv_open -> iv_secretHash row' = None).

Definition device_after (row row' : DeviceRow) : Prop :=
  (dv_deviceId row', dv_inviteId row', dv_createdAt row') = (dv_deviceId row, dv_inviteId row, dv_createdAt row)
  /\ dv_revision row <= dv_revision row'
  /\ (is_Some (dv_revokedAt row) -> dv_revokedAt row' = dv_revokedAt row)
  /\ (dv_tokenHash row' = dv_tokenHash row
      \/ dv_pendingTokenHash row = Some (dv_tokenHash row') /\ dv_revokedAt row = None /\ dv_pendingTokenHash row' = None).

Lemma invitation_after_refl row : invitation_after row row.
Proof. by left. Qed.

Lemma device_after_refl row : device_after row row.
Proof. split_and!; [done|lia|done|by left]. Qed.

Lemma ended_after state at_ d row : iv_state row = inv_open -> state <> inv_open -> invitation_after row (ended state at_ d row).
Proof. intros H ?. right. split_and!; cbn; try done; lia. Qed.

Lemma wrong_after wrong row : iv_state row = inv_open -> wrong = iv_wrongSecrets row + 1 ->
  invitation_after row (wrong_secret wrong row).
Proof. intros H ->. right. split_and!; cbn; try done; lia. Qed.

Lemma lookup_end_where selected state at_ m id :
  end_where selected state at_ m !! id =
  (fun row => if bool_decide (iv_state row = inv_open) && selected row
              then ended state at_ (iv_redeemedDevice row) row else row) <$> m !! id.
Proof. unfold end_where. apply lookup_fmap. Qed.

Ltac tables_cases :=
  unfold auth_apply, redeem, authWrites, invite_create, invite_cancel, device_rename, device_revoke, device_rotate, refusal,
    devices_promote, devices_touch, invitations_expire, endInvitation in *;
  repeat (case_match; simplify_eq/=); bool_hyps; simplify_eq/=.

Ltac at_row := rewrite ?lookup_end_where, ?lookup_alter, ?lookup_insert in *; repeat (case_decide; simplify_eq/=).

(** An operation may add a row and otherwise moves the rows that are there. *)

Lemma invitation_step op t id row : invitations t !! id = Some row ->
  exists row', invitations (auth_apply op t) !! id = Some row' /\ invitation_after row row'.
Proof.
  intros H. destruct op; tables_cases; at_row; rewrite ?H in *; simplify_eq/=;
    try (eexists; split; [done|]); try apply invitation_after_refl; repeat case_match; bool_hyps; try apply invitation_after_refl;
    try (by apply ended_after); try (by apply wrong_after).
  right. split_and!; cbn; try done; lia.
Qed.

Lemma promotable_spec hash row : promotable hash row = true -> dv_pendingTokenHash row = Some hash /\ dv_revokedAt row = None.
Proof.
  unfold promotable. intros [H1%bool_decide_eq_true H2%negb_true_iff%bool_decide_eq_false]%andb_true_iff.
  split; [done|]. by apply eq_None_not_Some.
Qed.

Lemma device_step op t id row : devices t !! id = Some row ->
  exists row', devices (auth_apply op t) !! id = Some row' /\ device_after row row'.
Proof.
  intros H. destruct op; tables_cases; at_row; rewrite ?H in *; simplify_eq/=;
    eexists; (split; [done|]); split_and!; cbn; try done; try lia; auto; try (intros [? ?]; congruence).
  right. match goal with H : promotable _ _ = true |- _ => by apply promotable_spec in H as [? ?] end.
Qed.

(** ** The invariant *)

Lemma ended_ok id row state at_ d : invitation_ok id row -> state <> inv_open -> is_Some d <-> state = inv_redeemed ->
  invitation_ok id (ended state at_ d row).
Proof.
  intros [] Hs Hd. by split; cbn.
Qed.

Lemma wrong_ok id row : invitation_ok id row -> iv_wrongSecrets row + 1 < invitationWrongSecrets ->
  invitation_ok id (wrong_secret (iv_wrongSecrets row + 1) row).
Proof. intros [] Hw. split; cbn; try done; lia. Qed.

Lemma ended_wrong_ok id row at_ : invitation_ok id row -> iv_state row = inv_open ->
  invitation_ok id (ended inv_cancelled at_ None (wrong_secret (iv_wrongSecrets row + 1) row)).
Proof.
  intros [] Hs. pose proof (io_survives Hs). split; cbn; try done; try lia; split; intros; try done; try (by eexists).
Qed.

Lemma created_ok id secret at_ expiresAt creator port :
  invitation_ok id (mkInvitationRow id inv_open (Some secret) at_ expiresAt creator port 0 None None).
Proof. split; cbn; try done; split; intros; try done; by match goal with H : is_Some None |- _ => destruct H end. Qed.

Lemma open_not_redeemed id row : invitation_ok id row -> iv_state row = inv_open -> iv_redeemedDevice row = None.
Proof.
  intros [] Hs. apply eq_None_not_Some. intros H%io_redeemed. congruence.
Qed.

Lemma rows_ok_step op t id row : (forall id row, invitations t !! id = Some row -> invitation_ok id row) ->
  invitations (auth_apply op t) !! id = Some row -> invitation_ok id row.
Proof.
  intros Hi. destruct op; tables_cases; at_row; intros Hrow; simplify_eq/=; try (eapply Hi; done).
  all: repeat match goal with H : _ <$> _ = Some _ |- _ => apply fmap_Some in H as (? & ? & ->) end; simplify_eq/=.
  all: repeat case_match; bool_hyps; try (by eapply Hi).
  all: try (apply ended_ok; [by eapply Hi|done|]; first [by erewrite open_not_redeemed by eauto | split; [by intros [? ?]|done] | split; [done|by eexists]]).
  - apply ended_wrong_ok; [by eapply Hi|done].
  - apply wrong_ok; [by eapply Hi|lia].
  - apply created_ok.
  - apply created_ok.
Qed.

Lemma device_rows_ok_step op t id row : (forall id row, devices t !! id = Some row -> device_ok id row) ->
  devices (auth_apply op t) !! id = Some row -> device_ok id row.
Proof.
  intros Hd. destruct op; tables_cases; at_row; intros Hrow; simplify_eq/=; try (eapply Hd; done).
  all: repeat match goal with H : _ <$> _ = Some _ |- _ => apply fmap_Some in H as (? & ? & ->) end; simplify_eq/=.
  all: repeat match goal with H : devices _ !! _ = Some _ |- _ => apply Hd in H as [] end.
  all: split; cbn; try done; try by intros [? ?].
  intros [? ?]. congruence.
Qed.

(** Redemption is the only operation that changes who was admitted with what. *)

Lemma redeemed_step op t i : tables_ok t ->
  redeemed_by (auth_apply op t) i =
  match paired op t with Some (i', d) => if decide (i' = i) then Some d else redeemed_by t i | None => redeemed_by t i end.
Proof.
  intros Ht. unfold redeemed_by, paired. destruct op; tables_cases; at_row; try done.
  all: destruct (invitations t !! _) as [row|] eqn:Erow; simplify_eq/=; try done; repeat case_match; bool_hyps; simplify_eq/=; try done.
  all: symmetry; eapply open_not_redeemed; [by eapply tk_invitations|done].
Qed.

Lemma admitted_step op t d :
  admitted_with (auth_apply op t) d =
  match paired op t with Some (i, d') => if decide (d' = d) then Some i else admitted_with t d | None => admitted_with t d end.
Proof.
  unfold admitted_with, paired. destruct op; tables_cases; at_row; try done.
  all: destruct (devices t !! _) as [row|] eqn:Erow; by simplify_eq/=.
Qed.

Lemma paired_fresh op t i d : tables_ok t -> paired op t = Some (i, d) ->
  redeemed_by t i = None /\ admitted_with t d = None /\ (exists row, invitations t !! i = Some row /\ iv_state row = inv_open).
Proof.
  intros Ht. unfold paired, redeemed_by, admitted_with. destruct op; tables_cases; try done. intros [= <- <-].
  repeat match goal with H : _ !! _ = _ |- _ => rewrite H end. cbn. split_and!; [|done|eauto].
  eapply open_not_redeemed; [by eapply tk_invitations|done].
Qed.

Lemma tables_ok_step op t : tables_ok t -> tables_ok (auth_apply op t).
Proof.
  intros Ht. pose proof Ht as [Hi Hd Hp]. split.
  - intros id row. by apply rows_ok_step.
  - intros id row. by apply device_rows_ok_step.
  - intros i d. rewrite redeemed_step, admitted_step by done. destruct (paired op t) as [[i' d']|] eqn:E; [|done].
    apply paired_fresh in E as (Hr & Ha & _); [|done]. repeat case_decide; subst; try done.
    + rewrite <- Hp, Hr. split; intros; simplify_eq.
    + rewrite Hp, Ha. split; intros; simplify_eq.
Qed.

Lemma no_tables_ok : tables_ok no_tables.
Proof. split; cbn; done. Qed.

Lemma auth_run_ok ops t : tables_ok t -> tables_ok (auth_run ops t).
Proof. revert t. induction ops as [|op ops IH]; intros t Ht; cbn; [done|]. by apply IH, tables_ok_step. Qed.

(** ** Histories *)

Lemma run_redeemed ops t i d : redeemed_by t i = Some d -> tables_ok t -> redeemed_by (auth_run ops t) i = Some d.
Proof.
  revert t. induction ops as [|op ops IH]; intros t Hr Ht; cbn; [done|]. apply IH; [|by apply tables_ok_step].
  rewrite redeemed_step by done. destruct (paired op t) as [[i' d']|] eqn:E; [|done].
  apply paired_fresh in E as (H & _); [|done]. case_decide; congruence.
Qed.

(** What a run pairs was not paired before it, and is paired after it. *)

Lemma observed_paired ops t i d : tables_ok t -> (i, d) ∈ observed paired ops t ->
  redeemed_by t i = None /\ admitted_with t d = None /\ redeemed_by (auth_run ops t) i = Some d.
Proof.
  revert t. induction ops as [|op ops IH]; intros t Ht; cbn [observed auth_run]; [by intros ?%elem_of_nil|].
  rewrite elem_of_app. pose proof (tables_ok_step op t Ht) as Ht'. intros [Hin|Hin].
  - destruct (paired op t) as [[i' d']|] eqn:E; [|by apply elem_of_nil in Hin].
    apply list_elem_of_singleton in Hin as [= -> ->]. pose proof (paired_fresh _ _ _ _ Ht E) as (H1 & H2 & _).
    split_and!; try done. apply run_redeemed; [|done]. rewrite redeemed_step, E by done. by case_decide.
  - apply IH in Hin as (H1 & H2 & H3); [|done]. rewrite redeemed_step in H1 by done. rewrite admitted_step in H2.
    split_and!; [| |done].
    + destruct (paired op t) as [[i' d']|] eqn:E; [|done]. by repeat case_decide.
    + destruct (paired op t) as [[i' d']|] eqn:E; [|done]. by repeat case_decide.
Qed.

(** Guesses: what an operation compares, and what it leaves of the allowance. *)

Definition wrong_guesses (t : AuthTables) (id : string) : Z :=
  match invitations t !! id with Some row => iv_wrongSecrets row | None => 0 end.

Definition guesses (id : string) (l : list string) : Z := zlen (List.filter (fun x => seqb x id) l).

Lemma wrong_guesses_bound t id : tables_ok t -> 0 <= wrong_guesses t id <= invitationWrongSecrets.
Proof.
  intros Ht. unfold wrong_guesses. destruct (invitations t !! id) as [row|] eqn:E; [|done].
  exact (io_wrong _ _ (tk_invitations _ Ht _ _ E)).
Qed.

Lemma wrong_guesses_grow op t id : tables_ok t -> wrong_guesses t id <= wrong_guesses (auth_apply op t) id.
Proof.
  intros Ht. destruct (invitations t !! id) as [row|] eqn:E.
  - destruct (invitation_step op t id row E) as (row' & E' & Hrow). unfold wrong_guesses. rewrite E, E'.
    destruct Hrow as [->|(_ & _ & Hrow & _)]; lia.
  - pose proof (wrong_guesses_bound _ id (tables_ok_step op t Ht)). unfold wrong_guesses at 1. rewrite E. lia.
Qed.

Lemma guessed_counts op t id : tables_ok t -> guessed op t = Some id ->
  wrong_guesses (auth_apply op t) id = wrong_guesses t id + 1.
Proof.
  intros Ht. unfold guessed. destruct op as [|args| | |]; try done.
  destruct (invitations t !! rq_inviteId args) as [row|] eqn:E; [|done].
  destruct (iv_secretHash row) as [secret|] eqn:Es; [|done]. case_match eqn:Ec; [|done]. intros [= <-].
  apply andb_true_iff in Ec as [Hopen%bool_decide_eq_true Hwrong]. cbn [auth_apply]. unfold redeem. rewrite E, Es.
  pose proof (io_secret _ _ (tk_invitations _ Ht _ _ E)) as [Ho _]. rewrite Es in Ho. rewrite Ho by (by eexists).
  cbn [bool_decide]. rewrite bool_decide_eq_true_2 by done. rewrite (bool_decide_eq_false_2 (effectiveState _ _ = _)) by congruence.
  rewrite Hwrong. unfold wrong_guesses, endInvitation. cbn [invitations].
  destruct (invitationWrongSecrets <=? _); rewrite ?lookup_alter, ?decide_True, E by done; cbn; [by case_match|done].
Qed.

Lemma guesses_cons id x l : guesses id (x :: l) = (if bool_decide (x = id) then 1 else 0) + guesses id l.
Proof. unfold guesses. cbn [List.filter]. unfold seqb. destruct (String.eqb_spec x id); case_bool_decide; try done; by rewrite zlen_cons. Qed.

Lemma guesses_bounded ops t id : tables_ok t ->
  guesses id (observed guessed ops t) + wrong_guesses t id <= invitationWrongSecrets.
Proof.
  revert t. induction ops as [|op ops IH]; intros t Ht; cbn [observed].
  - pose proof (wrong_guesses_bound t id Ht). change (guesses id []) with 0. lia.
  - specialize (IH _ (tables_ok_step op t Ht)). pose proof (wrong_guesses_grow op t id Ht).
    destruct (guessed op t) as [x|] eqn:E; [|cbn; lia]. cbn [Datatypes.app]. rewrite guesses_cons. case_bool_decide; [|lia].
    subst x. apply guessed_counts in E; [lia|done].
Qed.

(** What was admitted before a run is still admitted after it, and everything
    new was observed. *)

Lemma admitted_observed ops t d i : tables_ok t -> admitted_with (auth_run ops t) d = Some i ->
  admitted_with t d = Some i \/ (i, d) ∈ observed paired ops t.
Proof.
  revert t. induction ops as [|op ops IH]; intros t Ht; cbn [observed auth_run]; [by left|].
  intros [H|H]%IH; [| |by apply tables_ok_step]; [|by right; apply elem_of_app; right].
  rewrite admitted_step in H. destruct (paired op t) as [[i' d']|] eqn:E; [|by left].
  case_decide; [|by left]. simplify_eq. right. left.
Qed.

Lemma observed_nodup {B} (f : string * string -> B) ops t : tables_ok t ->
  (forall p q, f p = f q -> p.1 = q.1 \/ p.2 = q.2) -> NoDup (map f (observed paired ops t)).
Proof.
  intros Ht Hf. revert t Ht. induction ops as [|op ops IH]; intros t Ht; cbn [observed]; [apply NoDup_nil_2|].
  rewrite map_app. pose proof (tables_ok_step op t Ht) as Ht'. destruct (paired op t) as [[i d]|] eqn:E; [|by apply IH].
  apply NoDup_cons. split; [|by apply IH]. intros ([i' d'] & Hp & Hin)%list_elem_of_fmap.
  apply observed_paired in Hin as (H1 & H2 & _); [|done]. rewrite redeemed_step, E in H1 by done. rewrite admitted_step, E in H2.
  apply Hf in Hp as [Hp|Hp]; cbn in Hp; subst; by repeat case_decide.
Qed.

(** C13: after any operations on empty tables an invitation has admitted one device
    at most and a device was admitted by one invitation; the devices that exist
    are exactly those whose redemption was answered, each with the invitation
    that says it redeemed it; and at most 5 wrong secrets were ever compared
    with the secret of an invitation. *)
Theorem invitations_admit_once ops :
  let t := auth_run ops no_tables in
  NoDup (map fst (observed paired ops no_tables)) /\ NoDup (map snd (observed paired ops no_tables))
  /\ (forall i d, (i, d) ∈ observed paired ops no_tables <-> admitted_with t d = Some i)
  /\ (forall i d, redeemed_by t i = Some d <-> admitted_with t d = Some i)
  /\ (forall i, guesses i (observed guessed ops no_tables) <= 5).
Proof.
  pose proof (auth_run_ok ops _ no_tables_ok) as Ht. split_and!.
  - apply observed_nodup; [apply no_tables_ok|]. auto.
  - apply observed_nodup; [apply no_tables_ok|]. auto.
  - intros i d. split.
    + intros (_ & _ & H)%observed_paired; [|apply no_tables_ok]. by apply Ht.
    + intros [H|H]%admitted_observed; [done|done|apply no_tables_ok].
  - apply Ht.
  - intros i. pose proof (guesses_bounded ops _ i no_tables_ok) as H. change (wrong_guesses no_tables i) with 0 in H.
    unfold invitationWrongSecrets in H. lia.
Qed.

(** C14: [auth.redeem] on every branch, after any operations.  It pairs
    the device exactly when the invitation is open at that time and the secret
    is right; then invitation and device are written together.  Otherwise it
    answers the same refusal whatever the reason, creates nothing, and at most
    counts the wrong secret or ends the invitation.  It aborts only when the
    device ID is taken. *)
Theorem redeem_exact args ops :
  let t := auth_run ops no_tables in
  let eligible := exists row, invitations t !! rq_inviteId args = Some row /\ effectiveState row (rq_at args) = inv_open
                              /\ iv_secretHash row = Some (rq_secretHash args) in
  match redeem args t with
  | Some (Some d, t') =>
     eligible /\ d = rq_deviceId args /\ devices t !! d = None
     /\ devices t' = <[d := new_device args]> (devices t)
     /\ (exists row, invitations t !! rq_inviteId args = Some row
                     /\ invitations t' = <[rq_inviteId args := ended inv_redeemed (rq_at args) (Some d) row]> (invitations t))
  | Some (None, t') => ~ eligible /\ devices t' = devices t
                       /\ forall i, i <> rq_inviteId args -> invitations t' !! i = invitations t !! i
  | None => eligible /\ is_Some (devices t !! rq_deviceId args)
  end.
Proof.
  intros t. assert (Ht : tables_ok t) by apply auth_run_ok, no_tables_ok. clearbody t. intros eligible. unfold redeem. destruct (invitations t !! rq_inviteId args) as [row|] eqn:E.
  2:{ split_and!; [|done|done]. intros (row & Hrow & _). congruence. }
  pose proof (tk_invitations _ Ht _ _ E) as Hok.
  destruct (bool_decide (iv_state row = inv_open)) eqn:Eo, (iv_secretHash row) as [secret|] eqn:Es; bool_hyps.
  2:{ exfalso. apply (io_secret _ _ Hok) in Eo as [? ?]. congruence. }
  2:{ exfalso. apply Eo, (io_secret _ _ Hok). by eexists. }
  2:{ split_and!; [|done|done]. intros (row' & Hrow & _ & Hsec). congruence. }
  destruct (bool_decide (effectiveState row (rq_at args) = inv_expired)) eqn:Ee; bool_hyps.
  { split_and!; [|done|].
    - intros (row' & Hrow & Hopen & _). congruence.
    - intros i Hi. cbn. unfold endInvitation. by rewrite lookup_alter_ne. }
  destruct (sameHash secret (rq_secretHash args)) eqn:Eh; cbn [negb]; unfold sameHash in Eh; bool_hyps.
  2:{ split_and!; [|done|].
    - intros (row' & Hrow & _ & Hsec). congruence.
    - intros i Hi. cbn. unfold endInvitation. case_match; by rewrite ?lookup_alter_ne by done. }
  assert (He : eligible).
  { exists row. split_and!; [done| |by rewrite Es, Eh]. unfold effectiveState in *. case_match; congruence. }
  destruct (devices t !! rq_deviceId args) as [dev|] eqn:Ed; [by split|].
  split_and!; try done. exists row. split; [done|]. cbn. unfold endInvitation. apply map_eq. intros k.
  rewrite lookup_alter, lookup_insert. case_decide; subst; [|done]. rewrite E. cbn. by rewrite bool_decide_eq_true_2.
Qed.

(** After any operations the tables are well formed and an operation can only
    move a row forward.  An ended invitation never changes again and holds no
    secret; an open one keeps its secret until it ends and has fewer than 5 wrong
    secrets.  A revocation is for good, drops the pending token and is never
    undone; the token of a device changes only to its pending token, of an
    unrevoked device; nothing is deleted. *)
Theorem auth_rows_forward ops op :
  let t := auth_run ops no_tables in
  tables_ok t
  /\ (forall id row, invitations t !! id = Some row ->
        exists row', invitations (auth_apply op t) !! id = Some row' /\ invitation_after row row')
  /\ (forall id row, devices t !! id = Some row ->
        exists row', devices (auth_apply op t) !! id = Some row' /\ device_after row row').
Proof.
  split_and!; [apply auth_run_ok, no_tables_ok| |]; intros id row.
  - apply invitation_step.
  - apply device_step.
Qed.
