(* ===== verification/AuthDevices.v ===== *)
(** * The device authenticator (apps/server/src/auth/devices.ts, service.ts, connections.ts)

    [DeviceAuthenticator] holds the credentials of the devices in memory beside
    the store, which is the durable source.  The system below is one server, and
    its restarts: requests that present a token, the promotions they wait for,
    the store's queue with calls handed over, executed and answered in order,
    its failure, the redemptions and the writes of [AuthService] with what it
    does in memory once they committed, and the connections of the devices.
    [act] is one synchronous step; steps of different requests interleave
    freely.  [trace] is history: no operation reads it.

    [secretHash] is SHA-256.  A secret is 256 random bits, so a new token's hash
    and a new device ID are guarded to be ones that were never issued. *)

From S2P Require Import Prelude Protocol Errors Operations StoreTables ReceiptStore AuthStore.

Record Entry := mkEntry {
  tokenHash : list Z;
  pendingTokenHash : option (list Z);
  revoked : bool;
  uncertain : bool;
  lastUsedAtMs : option Z;
  lastEntry : option EntryKind;
  persistedAtMs : option Z;
  persistedEntry : option EntryKind;
  writing : bool;
  dirty : bool;
  promoting : option nat;
}.

Definition set_credential (token : list Z) (pending : option (list Z)) (gone unsure : bool) (e : Entry) : Entry :=
  mkEntry token pending gone unsure (lastUsedAtMs e) (lastEntry e) (persistedAtMs e) (persistedEntry e) (writing e) (dirty e)
    (promoting e).

Definition set_used (at_ : option Z) (entry : option EntryKind) (e : Entry) : Entry :=
  mkEntry (tokenHash e) (pendingTokenHash e) (revoked e) (uncertain e) at_ entry (persistedAtMs e) (persistedEntry e)
    (writing e) (dirty e) (promoting e).

Definition set_persisted (at_ : option Z) (entry : option EntryKind) (e : Entry) : Entry :=
  mkEntry (tokenHash e) (pendingTokenHash e) (revoked e) (uncertain e) (lastUsedAtMs e) (lastEntry e) at_ entry
    (writing e) (dirty e) (promoting e).

Definition set_writing (now again : bool) (e : Entry) : Entry :=
  mkEntry (tokenHash e) (pendingTokenHash e) (revoked e) (uncertain e) (lastUsedAtMs e) (lastEntry e) (persistedAtMs e)
    (persistedEntry e) now again (promoting e).

Definition set_promoting (owner : option nat) (e : Entry) : Entry :=
  mkEntry (tokenHash e) (pendingTokenHash e) (revoked e) (uncertain e) (lastUsedAtMs e) (lastEntry e) (persistedAtMs e)
    (persistedEntry e) (writing e) (dirty e) owner.

Inductive DeviceVerdict :=
  | V_device (deviceId : string) (confirm : option (list Z))
  | V_revoked
  | V_unauthenticated.

Inductive ConfirmedVerdict :=
  | C_device (deviceId : string)
  | C_revoked
  | C_unauthenticated
  | C_unavailable.

(** What a transport answers a request that it does not admit. *)

Inductive AdmissionRefusal := refused_revoked | refused_unauthenticated | refused_unavailable.

Inductive CheckResult := k_device | k_revoked | k_unauthenticated | k_confirm.

Definition TOUCH_INTERVAL_MS : Z := 60000.

(** The entry [add] makes of a stored credential. *)

Definition entry_of (c : StoredDeviceCredential) : Entry :=
  mkEntry (sd_tokenHash c) (sd_pendingTokenHash c) (sd_revoked c) false (sd_lastUsedAt c) (sd_lastEntry c)
    (sd_lastUsedAt c) (sd_lastEntry c) false false None.

Definition load (l : list StoredDeviceCredential) (m : gmap string Entry) : gmap string Entry :=
  foldl (fun m c => <[sd_deviceId c := entry_of c]> m) m l.

Definition check (e : Entry) (hash : list Z) : CheckResult :=
  let current := sameHash (tokenHash e) hash in
  let pending := match pendingTokenHash e with Some p => sameHash p hash | None => false end in
  if negb current && negb pending then k_unauthenticated
  else if revoked e then k_revoked
  else if current && negb (uncertain e) then k_device else k_confirm.

(** ** The store as the server sees it *)

(** What [canonicalWriteIntent] keeps of a write: the device a revocation names,
    nothing of a rotation but its method, any text for the other methods. *)

Inductive AuthIntent :=
  | I_revoke (deviceId : string)
  | I_rotate
  | I_other (text : string).

#[export] Instance AuthIntent_eq : EqDecision AuthIntent.
Proof. solve_decision. Defined.

Definition intent_fits (intent : AuthIntent) (w : AuthWrite) : bool :=
  match intent, w with
  | I_revoke d, AW_device_revoke d' _ => seqb d d'
  | I_rotate, AW_device_rotate _ _ => true
  | I_other _, (AW_invite_create _ _ _ _ _ _ | AW_invite_cancel _ _ | AW_device_rename _ _ _) => true
  | _, _ => false
  end.

(** A call with what its caller keeps for the answer: [SC_promote n] of request
    [n], which hands the store the hash of its secret; [SC_write], a call of
    [receipts.write], by the device request [carrier]. *)

Inductive StoreCall :=
  | SC_promote (n : nat) (deviceId secret : string) (at_ : Z) (entry : EntryKind)
  | SC_touch (deviceId : string) (at_ : Z) (entry : EntryKind)
  | SC_redeem (args : RedeemArgs)
  | SC_expire (at_ : Z)
  | SC_write (operationId : string) (intent : AuthIntent) (w : AuthWrite) (carrier : option nat).

Inductive WriteAnswer := wa_committed | wa_existing | wa_error.

Inductive StoreAnswer :=
  | SA_promote (promoted : bool) (device : option StoredDeviceCredential)
  | SA_redeem (deviceId : option string)
  | SA_write (answer : WriteAnswer)
  | SA_done
  | SA_failed (unknown : bool).

(** A request that waits for the promotion of another one. *)

Record Request := mkRequest { rq_device : string; rq_secret : string; rq_entry : EntryKind; rq_owner : nat }.

Record DeviceConnection := mkDeviceConnection { cn_request : nat; cn_device : string; cn_closing : bool }.

Inductive Event :=
  | EIssued (deviceId : string) (hash : list Z)
  | ECurrent (deviceId : string) (hash : list Z)
  | EAdmitted (n : nat) (deviceId : string) (hash : list Z)
  | ERefused (n : nat) (refusal : AdmissionRefusal)
  | ERevoked (deviceId : string) (carrier : option nat)
  | ERestart.

Record Server := mkServer {
  db : AuthTables;
  receipts : gmap string AuthIntent;
  entries : gmap string Entry;
  next_request : nat;
  requests : gmap nat Request;
  queue : list StoreCall;
  flight : list StoreCall;
  answers : list (StoreCall * StoreAnswer);
  rejected : list (StoreCall * bool);
  failed : bool;
  connections : list DeviceConnection;
  trace : list Event;
}.

Definition set_db (v : AuthTables) (r : gmap string AuthIntent) (s : Server) : Server :=
  mkServer v r (entries s) (next_request s) (requests s) (queue s) (flight s) (answers s) (rejected s) (failed s) (connections s) (trace s).

Definition set_entries (v : gmap string Entry) (s : Server) : Server :=
  mkServer (db s) (receipts s) v (next_request s) (requests s) (queue s) (flight s) (answers s) (rejected s) (failed s) (connections s) (trace s).

Definition set_requests (v : gmap nat Request) (s : Server) : Server :=
  mkServer (db s) (receipts s) (entries s) (next_request s) v (queue s) (flight s) (answers s) (rejected s) (failed s) (connections s) (trace s).

Definition set_next (v : nat) (s : Server) : Server :=
  mkServer (db s) (receipts s) (entries s) v (requests s) (queue s) (flight s) (answers s) (rejected s) (failed s) (connections s) (trace s).

Definition set_store (q f : list StoreCall) (a : list (StoreCall * StoreAnswer)) (s : Server) : Server :=
  mkServer (db s) (receipts s) (entries s) (next_request s) (requests s) q f a (rejected s) (failed s) (connections s) (trace s).

Definition set_rejected (l : list (StoreCall * bool)) (s : Server) : Server :=
  mkServer (db s) (receipts s) (entries s) (next_request s) (requests s) (queue s) (flight s) (answers s) l (failed s) (connections s)
    (trace s).

Definition set_failed (s : Server) : Server :=
  mkServer (db s) (receipts s) (entries s) (next_request s) (requests s) (queue s) (flight s) (answers s) (rejected s) true (connections s) (trace s).

Definition set_connections (v : list DeviceConnection) (s : Server) : Server :=
  mkServer (db s) (receipts s) (entries s) (next_request s) (requests s) (queue s) (flight s) (answers s) (rejected s) (failed s) v (trace s).

Definition log (e : Event) (s : Server) : Server :=
  mkServer (db s) (receipts s) (entries s) (next_request s) (requests s) (queue s) (flight s) (answers s) (rejected s) (failed s) (connections s)
    (trace s ++ [e]).

Definition update_entry (d : string) (f : Entry -> Entry) (s : Server) : Server := set_entries (alter f d (entries s)) s.

Definition newServer : Server := mkServer no_tables ∅ ∅ 0 ∅ [] [] [] [] false [] [].

(** [Store.call]: a failed store and a full queue refuse the call at once; its
    promise is rejected, and the call is known not to have run. *)

Definition store_call (c : StoreCall) (busy : bool) (s : Server) : Server :=
  if failed s || busy then set_rejected (rejected s ++ [(c, false)]) s
  else set_store (queue s ++ [c]) (flight s) (answers s) s.

Section authenticator.
Context (secretHash : string -> list Z).

(** The worker executes a call: one transaction.  A write looks its receipt up
    in it, and records it. *)

Definition execute_call (c : StoreCall) (s : Server) : option (StoreAnswer * Server) :=
  match c with
  | SC_promote _ d secret at_ entry =>
     let '(promoted, device, t) := devices_promote d (secretHash secret) at_ entry (db s) in
     let s := set_db t (receipts s) s in
     Some (SA_promote promoted device, if promoted then log (ECurrent d (secretHash secret)) s else s)
  | SC_touch d at_ entry => Some (SA_done, set_db (devices_touch d at_ entry (db s)) (receipts s) s)
  | SC_redeem args =>
     match redeem args (db s) with
     | None => None
     | Some (answer, t) =>
        let s := set_db t (receipts s) s in
        Some (SA_redeem answer, match answer with Some d => log (ECurrent d (rq_tokenHash args)) s | None => s end)
     end
  | SC_expire at_ => Some (SA_done, set_db (invitations_expire at_ (db s)).2 (receipts s) s)
  | SC_write operationId intent w _ =>
     match receipts s !! operationId with
     | Some recorded => Some (SA_write (if decide (recorded = intent) then wa_existing else wa_error), s)
     | None =>
        match authWrites w (db s) with
        | None => None
        | Some (refused _, _) => Some (SA_write wa_error, s)
        | Some (applied _ _, t) => Some (SA_write wa_committed, set_db t (<[operationId := intent]> (receipts s)) s)
        end
     end
  end.

Definition DUMMY_HASH : list Z := secretHash "cove-unknown-device".

Definition verify (m : gmap string Entry) (deviceId secret : string) : DeviceVerdict :=
  let hash := secretHash secret in
  let entry := m !! deviceId in
  let current := sameHash (match entry with Some e => tokenHash e | None => DUMMY_HASH end) hash in
  let pending := sameHash (match entry with Some e => default DUMMY_HASH (pendingTokenHash e) | None => DUMMY_HASH end) hash in
  match entry with
  | None => V_unauthenticated
  | Some e =>
     if negb current && negb pending then V_unauthenticated
     else if revoked e then V_revoked
     else if uncertain e || negb current then V_device deviceId (Some hash) else V_device deviceId None
  end.

(** ** Uses of a device *)

(** The write of the last use; [None] is a device that is unknown here. *)

Definition write (d : string) (busy : bool) (s : Server) : Server :=
  match entries s !! d with
  | None => s
  | Some e =>
     if writing e then update_entry d (set_writing true true) s
     else match lastUsedAtMs e, lastEntry e with
          | Some at_, Some entry => store_call (SC_touch d at_ entry) busy (update_entry d (set_writing true (dirty e)) s)
          | _, _ => s
          end
  end.

Definition touch (d : string) (entry : EntryKind) (now : Z) (busy : bool) (s : Server) : Server :=
  match entries s !! d with
  | None => s
  | Some e =>
     if revoked e then s
     else
       let s := update_entry d (set_used (Some now) (Some entry)) s in
       let due := match persistedAtMs e with
                  | None => true
                  | Some at_ => negb (bool_decide (persistedEntry e = Some entry)) || (TOUCH_INTERVAL_MS <=? now - at_)
                  end in
       if due then write d busy s else s
  end.

(** ** Requests *)

(** A transport admits a verdict that needs no confirmation: the use is recorded
    and the connection registered in the same step. *)

Definition admitRequest (n : nat) (d secret : string) (entry : EntryKind) (now : Z) (busy : bool) (s : Server) : Server :=
  let s := touch d entry now busy (log (EAdmitted n d (secretHash secret)) s) in
  set_connections (connections s ++ [mkDeviceConnection n d false]) s.

Definition refuse (n : nat) (refusal : AdmissionRefusal) (s : Server) : Server := log (ERefused n refusal) s.

(** The request is verified again after its confirmation; a token that still
    needs one is answered UNAVAILABLE. *)

Definition admit_again (n : nat) (d secret : string) (entry : EntryKind) (now : Z) (busy : bool) (s : Server) : Server :=
  match verify (entries s) d secret with
  | V_device d None => admitRequest n d secret entry now busy s
  | V_device _ (Some _) => refuse n refused_unavailable s
  | V_revoked => refuse n refused_revoked s
  | V_unauthenticated => refuse n refused_unauthenticated s
  end.

Definition confirmed (n : nat) (verdict : ConfirmedVerdict) (secret : string) (entry : EntryKind) (now : Z) (busy : bool)
    (s : Server) : Server :=
  let s := set_requests (delete n (requests s)) s in
  match verdict with
  | C_device d => admit_again n d secret entry now busy s
  | C_revoked => refuse n refused_revoked s
  | C_unauthenticated => refuse n refused_unauthenticated s
  | C_unavailable => refuse n refused_unavailable s
  end.

Definition answer (d : string) (k : CheckResult) : ConfirmedVerdict :=
  match k with k_device => C_device d | k_revoked => C_revoked | k_unauthenticated => C_unauthenticated | k_confirm => C_unavailable end.

(** [promote], from its [while] loop on. *)

Definition promote (n : nat) (d secret : string) (entry : EntryKind) (now : Z) (busy : bool) (s : Server) : Server :=
  match entries s !! d with
  | None => confirmed n C_unavailable secret entry now busy s
  | Some e =>
     match promoting e with
     | Some owner => set_requests (<[n := mkRequest d secret entry owner]> (requests s)) s
     | None =>
        match check e (secretHash secret) with
        | k_confirm =>
           store_call (SC_promote n d secret now entry) busy
             (update_entry d (set_promoting (Some n)) (set_requests (delete n (requests s)) s))
        | k => confirmed n (answer d k) secret entry now busy s
        end
     end
  end.

(** A request with a token arrives. *)

Definition present (d secret : string) (entry : EntryKind) (now : Z) (busy : bool) (s : Server) : Server :=
  let n := next_request s in
  let s := set_next (S n) s in
  match verify (entries s) d secret with
  | V_device d None => admitRequest n d secret entry now busy s
  | V_device d (Some _) => promote n d secret entry now busy s
  | V_revoked => refuse n refused_revoked s
  | V_unauthenticated => refuse n refused_unauthenticated s
  end.

(** The waiting request runs on once the promotion it waits for has ended. *)

Definition wake (n : nat) (now : Z) (busy : bool) (s : Server) : option Server :=
  match requests s !! n with
  | Some (mkRequest d secret entry owner) =>
     match entries s !! d with
     | Some e => if bool_decide (promoting e = Some owner) then None else Some (promote n d secret entry now busy s)
     | None => None
     end
  | None => None
  end.

(** ** Answers of the store *)

Definition adopt (c : StoredDeviceCredential) (e : Entry) : Entry :=
  set_credential (sd_tokenHash c) (sd_pendingTokenHash c) (revoked e || sd_revoked c) false e.

Definition end_promotion (d : string) (s : Server) : Server := update_entry d (set_promoting None) s.

(** [runPromotion] after its await, with the [finally] of [promote]. *)

Definition promotion_answered (n : nat) (d secret : string) (at_ : Z) (entry : EntryKind) (a : StoreAnswer)
    (now : Z) (busy : bool) (s : Server) : Server :=
  let ends verdict s := confirmed n verdict secret entry now busy (end_promotion d s) in
  match a with
  | SA_promote promoted (Some c) =>
     let s := update_entry d (adopt c) s in
     let s := if promoted
              then update_entry d (fun e => set_persisted (Some at_) (Some entry) (set_used (Some at_) (Some entry) e)) s
              else s in
     ends (match entries s !! d with Some e => answer d (check e (secretHash secret)) | None => C_unavailable end) s
  | SA_promote _ None => ends C_unauthenticated s
  | SA_failed true =>
     ends C_unavailable (update_entry d (fun e => set_credential (tokenHash e) (pendingTokenHash e) (revoked e) true e) s)
  | _ => ends C_unavailable s
  end.

Definition touch_answered (d : string) (at_ : Z) (entry : EntryKind) (a : StoreAnswer) (busy : bool) (s : Server) : Server :=
  let s := match a with
           | SA_done => update_entry d (fun e => if match persistedAtMs e with Some p => p <=? at_ | None => true end
                                                 then set_persisted (Some at_) (Some entry) e else e) s
           | _ => s
           end in
  match entries s !! d with
  | None => s
  | Some e =>
     let s := update_entry d (set_writing false false) s in
     if dirty e then write d busy s else s
  end.

(** The rest of [redeem]: the new device is known here from now on. *)

Definition redeem_answered (args : RedeemArgs) (a : StoreAnswer) (s : Server) : Server :=
  match a with
  | SA_redeem (Some d) => set_entries (<[d := entry_of (mkCredential d (rq_tokenHash args) None false None None)]> (entries s)) s
  | _ => s
  end.

(** [markRevoked] and [closeDevice]: every connection of the device is closed
    but the request that carries the revocation. *)

Definition markRevoked (d : string) (s : Server) : Server :=
  update_entry d (fun e => set_credential (tokenHash e) None true (uncertain e) e) s.

Definition setPending (d : string) (hash : list Z) (s : Server) : Server :=
  update_entry d (fun e => set_credential (tokenHash e) (Some hash) (revoked e) (uncertain e) e) s.

Definition closeDevice (d : string) (except : option nat) (s : Server) : Server :=
  set_connections
    (map (fun c => if seqb (cn_device c) d && negb (bool_decide (except = Some (cn_request c)))
                   then mkDeviceConnection (cn_request c) (cn_device c) true else c) (connections s)) s.

(** [closeAfterAnswer] and the rest of the carrier are left to [A_closed]. *)

Definition write_answered (intent : AuthIntent) (w : AuthWrite) (carrier : option nat) (a : StoreAnswer) (s : Server) : Server :=
  match intent, w, a with
  | I_revoke d, _, SA_write (wa_committed | wa_existing) => closeDevice d carrier (log (ERevoked d carrier) (markRevoked d s))
  | I_rotate, AW_device_rotate d hash, SA_write wa_committed => setPending d hash s
  | _, _, _ => s
  end.

Definition answered (c : StoreCall) (a : StoreAnswer) (now : Z) (busy : bool) (s : Server) : Server :=
  match c with
  | SC_promote n d secret at_ entry => promotion_answered n d secret at_ entry a now busy s
  | SC_touch d at_ entry => touch_answered d at_ entry a busy s
  | SC_redeem args => redeem_answered args a s
  | SC_expire _ => s
  | SC_write _ intent w carrier => write_answered intent w carrier a s
  end.

(** ** Steps *)

Definition issued_hashes (tr : list Event) : list (list Z) := omap (fun e => match e with EIssued _ h => Some h | _ => None end) tr.

Definition issued_devices (tr : list Event) : list string := omap (fun e => match e with EIssued d _ => Some d | _ => None end) tr.

Inductive Action :=
  | A_present (d secret : string) (entry : EntryKind) (now : Z) (busy : bool)
  | A_wake (n : nat) (now : Z) (busy : bool)
  | A_redeem (args : RedeemArgs) (busy : bool)
  | A_expire (at_ : Z) (busy : bool)
  | A_write (operationId : string) (intent : AuthIntent) (w : AuthWrite) (carrier : option nat) (busy : bool)
  | A_hand
  | A_execute (aborts : bool)
  | A_answer (now : Z) (busy : bool)
  | A_reject (now : Z) (busy : bool)
  | A_fail
  | A_closed (n : nat)
  | A_restart (now : Z).

Definition fresh (hash : list Z) (s : Server) : bool := bool_decide (hash ∉ issued_hashes (trace s)).

Definition act (a : Action) (s : Server) : option Server :=
  match a with
  | A_present d secret entry now busy => Some (present d secret entry now busy s)
  | A_wake n now busy => wake n now busy s
  | A_redeem args busy =>
     if fresh (rq_tokenHash args) s && bool_decide (rq_deviceId args ∉ issued_devices (trace s))
     then Some (store_call (SC_redeem args) busy (log (EIssued (rq_deviceId args) (rq_tokenHash args)) s)) else None
  | A_expire at_ busy => Some (store_call (SC_expire at_) busy s)
  | A_write operationId intent w carrier busy =>
     if negb (intent_fits intent w) then None
     else match w with
          | AW_device_rotate d hash =>
             if fresh hash s then Some (store_call (SC_write operationId intent w carrier) busy (log (EIssued d hash) s)) else None
          | _ => Some (store_call (SC_write operationId intent w carrier) busy s)
          end
  | A_hand =>
     match queue s with
     | c :: rest => if failed s then None else Some (set_store rest (flight s ++ [c]) (answers s) s)
     | [] => None
     end
  | A_execute aborts =>
     match flight s with
     | c :: rest =>
        if failed s then None
        else match (if aborts then None else execute_call c s) with
             | Some (a, s) => Some (set_store (queue s) rest (answers s ++ [(c, a)]) s)
             | None => Some (set_store (queue s) rest (answers s ++ [(c, SA_failed true)]) s)
             end
     | [] => None
     end
  | A_answer now busy =>
     match answers s with
     | (c, a) :: rest => Some (answered c a now busy (set_store (queue s) (flight s) rest s))
     | [] => None
     end
  | A_reject now busy =>
     match rejected s with
     | (c, unknown) :: rest => Some (answered c (SA_failed unknown) now busy (set_rejected rest s))
     | [] => None
     end
  | A_fail =>
     if failed s then None
     else Some (set_failed (set_rejected (rejected s ++ map (fun p => (p.1, true)) (answers s)
                                          ++ map (fun c => (c, true)) (flight s) ++ map (fun c => (c, false)) (queue s))
                              (set_store [] [] [] s)))
  | A_closed n => Some (set_connections (List.filter (fun c => negb (Nat.eqb (cn_request c) n)) (connections s)) s)
  | A_restart now =>
     let t := (invitations_expire now (db s)).2 in
     Some (mkServer t (receipts s) (load (auth_load now t).1 ∅) (next_request s) ∅ [] [] [] [] false [] (trace s ++ [ERestart]))
  end.

Definition step (s s' : Server) : Prop := exists a, act a s = Some s'.

Definition reachable (s : Server) : Prop := rtc step newServer s.

Fixpoint play (l : list Action) (s : Server) : option Server :=
  match l with [] => Some s | a :: l => match act a s with Some s => play l s | None => None end end.

End authenticator.
