(* ===== verification/AuthInvariant.v ===== *)
(** * What the authenticator and the store keep between them

    The copy of the credentials in memory is the store's, up to the answers that
    are still on their way ([synced]); a device's tokens have an order, the one
    in which the store made them current ([tokens]), and the copy moves along it
    and never back; a revocation that was answered holds in memory and in the
    store.  A step that only handles requests is [quiet]. *)

From stdpp Require Import sorting.
From S2P Require Import Prelude Protocol Errors Operations StoreTables ReceiptStore AuthStore AuthProperties AuthDevices.

(** ** The credential of a device, and the order of its tokens *)

Abbreviation Credential := (list Z * option (list Z) * bool)%type.

Definition memory (s : Server) : gmap string Credential :=
  (fun e => (tokenHash e, pendingTokenHash e, revoked e)) <$> entries s.

Definition row_credential (row : DeviceRow) : Credential :=
  (dv_tokenHash row, dv_pendingTokenHash row, bool_decide (is_Some (dv_revokedAt row))).

Definition durable (t : AuthTables) : gmap string Credential := row_credential <$> devices t.

Definition tokens (d : string) (tr : list Event) : list (list Z) :=
  omap (fun e => match e with ECurrent d' h => if seqb d' d then Some h else None | _ => None end) tr.

Definition no_later (l : list (list Z)) (x y : list Z) : Prop :=
  exists i j, l !! i = Some x /\ l !! j = Some y /\ (i <= j)%nat.

Lemma no_later_refl l x : x ∈ l -> no_later l x x.
Proof. intros [i Hi]%list_elem_of_lookup. by exists i, i. Qed.

Lemma no_later_app l k x y : no_later l x y -> no_later (l ++ k) x y.
Proof. intros (i & j & Hi & Hj & ?). exists i, j. split_and!; [by apply lookup_app_l_Some..|done]. Qed.

Lemma no_later_known l x y : no_later l x y -> y ∈ l.
Proof. intros (i & j & _ & Hj & _). by eapply list_elem_of_lookup_2. Qed.

Lemma no_later_last l x y : x ∈ l ++ [y] -> no_later (l ++ [y]) x y.
Proof.
  intros [i Hi]%list_elem_of_lookup. exists i, (length l). split_and!; [done| |].
  - by rewrite lookup_app_r, Nat.sub_diag.
  - apply lookup_lt_Some in Hi. rewrite length_app in Hi. cbn in Hi. lia.
Qed.

Lemma no_later_trans l x y z : NoDup l -> no_later l x y -> no_later l y z -> no_later l x z.
Proof.
  intros Hl (i & j & Hi & Hj & ?) (j' & k & Hj' & Hk & ?). assert (j = j') as -> by (eapply NoDup_lookup; eauto).
  exists i, k. split_and!; [done|done|lia].
Qed.

Lemma no_later_antisym l x y : NoDup l -> no_later l x y -> no_later l y x -> x = y.
Proof.
  intros Hl (i & j & Hi & Hj & ?) (j' & i' & Hj' & Hi' & ?). assert (j = j') as -> by (eapply NoDup_lookup; eauto).
  assert (i = i') as -> by (eapply NoDup_lookup; eauto). assert (i' = j') as -> by lia. congruence.
Qed.

(** ** Answers on their way *)

Definition adopt_credential (c : StoredDeviceCredential) (x : Credential) : Credential :=
  (sd_tokenHash c, sd_pendingTokenHash c, x.2 || sd_revoked c).

Definition revoke_credential (x : Credential) : Credential := (x.1.1, None, true).

Definition await_credential (hash : list Z) (x : Credential) : Credential := (x.1.1, Some hash, x.2).

(** What an answer does to the copy. *)

Definition deliver (x : StoreCall * StoreAnswer) (m : gmap string Credential) : gmap string Credential :=
  match x with
  | (SC_promote _ d _ _ _, SA_promote _ (Some c)) => alter (adopt_credential c) d m
  | (SC_redeem args, SA_redeem (Some d)) => <[d := (rq_tokenHash args, None, false)]> m
  | (SC_write _ (I_revoke d) _ _, SA_write (wa_committed | wa_existing)) => alter revoke_credential d m
  | (SC_write _ I_rotate (AW_device_rotate d h) _, SA_write wa_committed) => alter (await_credential h) d m
  | _ => m
  end.

(** What was true of the store when it gave the answer. *)

Definition fits (tr : list Event) (m : gmap string Credential) (x : StoreCall * StoreAnswer) : Prop :=
  match x with
  | (SC_promote _ d _ _ _, SA_promote _ (Some c)) =>
     exists y : Credential, m !! d = Some y /\ no_later (tokens d tr) y.1.1 (sd_tokenHash c)
  | (SC_redeem args, SA_redeem (Some d)) => m !! d = None /\ rq_tokenHash args ∈ tokens d tr
  | (SC_write _ (I_revoke d) _ _, SA_write (wa_committed | wa_existing)) => is_Some (m !! d)
  | _ => True
  end.

Inductive synced (tr : list Event) : gmap string Credential -> list (StoreCall * StoreAnswer) -> gmap string Credential -> Prop :=
  | synced_nil m : synced tr m [] m
  | synced_cons m x l m' : fits tr m x -> synced tr (deliver x m) l m' -> synced tr m (x :: l) m'.

Lemma synced_snoc tr m l m' x : synced tr m l m' -> fits tr m' x -> synced tr m (l ++ [x]) (deliver x m').
Proof. induction 1 as [|m y l m' Hy H IH]; intros Hx; cbn; constructor; auto. constructor. Qed.

Lemma tokens_snoc d tr e :
  tokens d (tr ++ [e]) = tokens d tr ++ match e with ECurrent d' h => if seqb d' d then [h] else [] | _ => [] end.
Proof. unfold tokens. rewrite omap_app. cbn. destruct e; try done. by destruct (seqb _ _). Qed.

Lemma tokens_app d tr tr' : tokens d (tr ++ tr') = tokens d tr ++ tokens d tr'.
Proof. apply omap_app. Qed.

Lemma fits_later tr tr' m x : fits tr m x -> fits (tr ++ tr') m x.
Proof.
  destruct x as [[n d secret at_ en| | | |o [d| |] w c] [p [c'|]|[d'|]|[]| |]]; cbn; try done; rewrite ?tokens_app.
  - intros (y & Hy & Hl). exists y. split; [done|]. by apply no_later_app.
  - intros [? ?]. split; [done|]. apply elem_of_app. by left.
Qed.

Lemma synced_later tr tr' m l m' : synced tr m l m' -> synced (tr ++ tr') m l m'.
Proof. induction 1; constructor; auto using fits_later. Qed.

(** ** The invariant *)

(** A token that a call not yet executed would give a device. *)

Definition call_token (c : StoreCall) : option (string * list Z) :=
  match c with
  | SC_redeem args => Some (rq_deviceId args, rq_tokenHash args)
  | SC_write _ _ (AW_device_rotate d h) _ => Some (d, h)
  | _ => None
  end.

Definition unexecuted (s : Server) : list (string * list Z) := omap call_token (flight s ++ queue s).

Definition call_fits (c : StoreCall) : Prop :=
  match c with SC_write _ intent w _ => intent_fits intent w = true | _ => True end.

(** A write whose receipt exists did what its intent says. *)

Definition receipt_ok (t : AuthTables) (intent : AuthIntent) : Prop :=
  match intent with
  | I_revoke d => exists y, durable t !! d = Some y /\ y.2 = true
  | _ => True
  end.

Definition admitted_ok (tr : list Event) (e : Event) : Prop :=
  match e with
  | EAdmitted n d h =>
     h ∈ tokens d tr /\ (forall n' h', EAdmitted n' d h' ∈ tr -> no_later (tokens d tr) h' h)
     /\ (forall c, ERevoked d c ∉ tr)
  | _ => True
  end.

(** The tokens by what the store holds: the last one of a device is its current
    one, and the awaited ones were issued and are not current yet. *)

Record book_ok (m : gmap string Credential) (tr : list Event) (u : list (string * list Z)) : Prop := mkBookOk {
  bk_current : forall d, match m !! d with
                         | Some y => exists l, tokens d tr = l ++ [y.1.1]
                         | None => tokens d tr = []
                         end;
  bk_nodup : forall d, NoDup (tokens d tr);
  bk_issued : forall d h, h ∈ tokens d tr -> h ∈ issued_hashes tr;
  bk_pending : forall d y h, m !! d = Some y -> y.1.2 = Some h -> (h ∉ tokens d tr) /\ h ∈ issued_hashes tr;
  bk_calls : NoDup u;
  bk_call : forall d h, (d, h) ∈ u -> h ∈ issued_hashes tr /\ (h ∉ tokens d tr) /\ forall y, m !! d = Some y -> y.1.2 <> Some h;
}.

Record auth_ok (s : Server) : Prop := mkAuthOk {
  ao_tables : tables_ok (db s);
  ao_synced : failed s = false -> synced (trace s) (memory s) (answers s) (durable (db s));
  ao_failed : failed s = true -> answers s = [] /\ flight s = [] /\ queue s = [];
  ao_book : book_ok (durable (db s)) (trace s) (unexecuted s);
  ao_calls : forall c, c ∈ flight s ++ queue s -> call_fits c;
  ao_receipts : forall o intent, receipts s !! o = Some intent -> receipt_ok (db s) intent;
  ao_copy : forall d x, memory s !! d = Some x ->
              x.1.1 ∈ tokens d (trace s) /\ exists y, durable (db s) !! d = Some y /\ (x.2 = true -> y.2 = true);
  ao_admitted : forall n d h, EAdmitted n d h ∈ trace s -> exists x, memory s !! d = Some x /\ no_later (tokens d (trace s)) h x.1.1;
  ao_order : all_ok admitted_ok (trace s);
  ao_revoked : forall d c, ERevoked d c ∈ trace s -> exists x, memory s !! d = Some x /\ x.2 = true;
  ao_connections : forall c, c ∈ connections s -> exists h, EAdmitted (cn_request c) (cn_device c) h ∈ trace s;
  ao_closed : forall c k, c ∈ connections s -> ERevoked (cn_device c) k ∈ trace s ->
                cn_closing c = true \/ ERevoked (cn_device c) (Some (cn_request c)) ∈ trace s;
}.

(** ** Moves that keep it *)

Lemma in_snoc {A} (x : A) l y : x ∈ l ++ [y] -> x ∈ l \/ x = y.
Proof. rewrite elem_of_app, list_elem_of_singleton. done. Qed.

Lemma memory_alter d f s : (forall e, (tokenHash (f e), pendingTokenHash (f e), revoked (f e)) = (tokenHash e, pendingTokenHash e, revoked e)) ->
  memory (update_entry d f s) = memory s.
Proof.
  intros Hf. unfold memory, update_entry. cbn. apply map_eq. intros k. rewrite !lookup_fmap, lookup_alter.
  case_decide; [subst|done]. destruct (entries s !! k); cbn; [by rewrite Hf|done].
Qed.

Lemma memory_lookup s d e : entries s !! d = Some e -> memory s !! d = Some (tokenHash e, pendingTokenHash e, revoked e).
Proof. intros H. unfold memory. by rewrite lookup_fmap, H. Qed.

Lemma ok_requests v s : auth_ok s -> auth_ok (set_requests v s).
Proof. by intros []. Qed.

Lemma ok_next v s : auth_ok s -> auth_ok (set_next v s).
Proof. by intros []. Qed.

Lemma ok_rejected v s : auth_ok s -> auth_ok (set_rejected v s).
Proof. by intros []. Qed.

Lemma ok_entry d f s : (forall e, (tokenHash (f e), pendingTokenHash (f e), revoked (f e)) = (tokenHash e, pendingTokenHash e, revoked e)) ->
  auth_ok s -> auth_ok (update_entry d f s).
Proof. intros Hf []. split; try done; by rewrite memory_alter. Qed.

Lemma ok_call c busy s : call_token c = None -> call_fits c -> auth_ok s -> auth_ok (store_call c busy s).
Proof.
  intros Hc Hf Hok. unfold store_call. destruct (failed s) eqn:Ef; cbn [orb]; [by apply ok_rejected|].
  destruct busy; [by apply ok_rejected|]. destruct Hok. split; try done; cbn [failed set_store]; try congruence.
  - unfold unexecuted in *. cbn [flight queue set_store]. rewrite app_assoc, omap_app. cbn. rewrite Hc, app_nil_r. done.
  - cbn [flight queue set_store]. intros c'. rewrite app_assoc. intros [Hin| ->]%in_snoc; [by apply ao_calls0|done].
Qed.

(** Only a new token current for a device, a refusal or an admission is logged by
    these moves; the book of tokens is left alone by all but the first. *)

Definition plain_event (e : Event) : bool :=
  match e with ERefused _ _ | EAdmitted _ _ _ | ERevoked _ _ | ERestart => true | _ => false end.

Lemma plain_tokens d tr e : plain_event e = true -> tokens d (tr ++ [e]) = tokens d tr.
Proof. intros He. rewrite tokens_snoc. destruct e; try done; by rewrite app_nil_r. Qed.

Lemma plain_issued tr e : plain_event e = true -> issued_hashes (tr ++ [e]) = issued_hashes tr.
Proof. intros He. unfold issued_hashes. rewrite omap_app. cbn. destruct e; try done; by rewrite app_nil_r. Qed.

Lemma plain_book m tr u e : plain_event e = true -> book_ok m tr u -> book_ok m (tr ++ [e]) u.
Proof. intros He []. split; try done; intros d; intros; rewrite ?plain_tokens, ?plain_issued in * by done; eauto. apply bk_current0. Qed.

Lemma ok_log e s : plain_event e = true -> admitted_ok (trace s) e ->
  match e with
  | EAdmitted n d h => exists x, memory s !! d = Some x /\ no_later (tokens d (trace s)) h x.1.1 /\ x.2 = false
  | ERevoked d k => (exists x, memory s !! d = Some x /\ x.2 = true)
                    /\ forall c, c ∈ connections s -> cn_device c = d -> cn_closing c = true \/ k = Some (cn_request c)
  | _ => True
  end -> auth_ok s -> auth_ok (log e s).
Proof.
  intros Hp Ha He Hok. pose proof Hok as []. split; cbn [log db failed answers flight queue receipts connections trace]; try done.
  - intros Hf. by apply synced_later, ao_synced0.
  - by apply plain_book.
  - intros d x. rewrite plain_tokens by done. apply ao_copy0.
  - intros m d h [H|H]%in_snoc; rewrite plain_tokens by done; [by apply (ao_admitted0 m)|]. subst e. by destruct He as (x & ? & ? & _); exists x.
  - by apply all_ok_snoc.
  - intros d c [H|H]%in_snoc; [by eapply ao_revoked0|]. by subst e; destruct He.
  - intros c [h Hc]%ao_connections0. exists h. apply elem_of_app. by left.
  - intros c k Hc [H|H]%in_snoc.
    + destruct (ao_closed0 c k Hc H); [by left|right]. apply elem_of_app. by left.
    + subst e. destruct He as [_ Hall]. destruct (Hall c Hc eq_refl) as [?| ->]; [by left|right]. apply elem_of_app. right. left.
Qed.

Lemma ok_refuse n r s : auth_ok s -> auth_ok (refuse n r s).
Proof. by apply ok_log. Qed.

(** ** Requests *)

Section authenticator.
Context (secretHash : string -> list Z).

Lemma store_call_same c busy s : memory (store_call c busy s) = memory s /\ trace (store_call c busy s) = trace s.
Proof. unfold store_call. by destruct (failed s || busy). Qed.

Lemma write_same d busy s : memory (write d busy s) = memory s /\ trace (write d busy s) = trace s.
Proof.
  unfold write. repeat case_match; try done; [split; [by apply memory_alter|done]|].
  match goal with |- memory (store_call ?c ?b ?s') = _ /\ _ => destruct (store_call_same c b s') as [-> ->] end.
  split; [by apply memory_alter|done].
Qed.

Lemma touch_same d entry now busy s : memory (touch d entry now busy s) = memory s /\ trace (touch d entry now busy s) = trace s.
Proof.
  unfold touch. destruct (entries s !! d) as [e|]; [|done]. destruct (revoked e); [done|]. cbn zeta.
  match goal with |- context [if ?b then _ else _] => destruct b end; [destruct (write_same d busy (update_entry d (set_used (Some now) (Some entry)) s)) as [-> ->]|];
    (split; [by apply memory_alter|done]).
Qed.

Lemma ok_write d busy s : auth_ok s -> auth_ok (write d busy s).
Proof.
  intros Hok. unfold write. repeat case_match; try done; try apply ok_call; try done; by apply ok_entry.
Qed.

Lemma ok_touch d entry now busy s : auth_ok s -> auth_ok (touch d entry now busy s).
Proof.
  intros Hok. unfold touch. destruct (entries s !! d) as [e|]; [|done]. destruct (revoked e); [done|].
  cbn zeta. match goal with |- auth_ok (if ?b then _ else _) => destruct b end; [apply ok_write|]; by apply ok_entry.
Qed.

(** A request is admitted with the current token of an unrevoked device. *)

Lemma ok_admit n d secret entry now busy s :
  (exists p, memory s !! d = Some (secretHash secret, p, false)) ->
  auth_ok s -> auth_ok (admitRequest secretHash n d secret entry now busy s).
Proof.
  intros (p & Hm) Hok. unfold admitRequest.
  assert (Hl : auth_ok (log (EAdmitted n d (secretHash secret)) s)).
  { destruct Hok as [?????? Hcopy Hadm ? Hrev ??]. destruct (Hcopy _ _ Hm) as [Hin _]. cbn in Hin.
    apply ok_log; [done| | |by split].
    - split_and!; [done| |].
      + intros n' h' (x & Hx & Hle)%Hadm. rewrite Hm in Hx. injection Hx as <-. done.
      + intros c (x & Hx & Hr)%Hrev. rewrite Hm in Hx. injection Hx as <-. done.
    - eexists. split_and!; [exact Hm| |done]. by apply no_later_refl. }
  pose proof (ok_touch d entry now busy _ Hl) as Hs.
  assert (Htr : trace (touch d entry now busy (log (EAdmitted n d (secretHash secret)) s)) = trace s ++ [EAdmitted n d (secretHash secret)])
    by apply touch_same.
  assert (Hnew : EAdmitted n d (secretHash secret) ∈ trace s ++ [EAdmitted n d (secretHash secret)])
    by (apply elem_of_app; right; left).
  rewrite <- Htr in Hnew. destruct Hs as [???????? Hord Hrev Hconn Hcl]. split; try done; cbn [connections trace set_connections].
  - intros c [Hc| ->]%in_snoc; [by apply Hconn|]. by exists (secretHash secret).
  - intros c k [Hc| ->]%in_snoc Hk; [by eapply Hcl|]. exfalso. apply Hrev in Hk as (x & Hx & Hr). cbn in Hx.
    rewrite (proj1 (touch_same _ _ _ _ _)) in Hx. change (memory s !! d = Some x) in Hx. rewrite Hm in Hx. by injection Hx as <-.
Qed.


Lemma verify_admits m d secret d' : verify secretHash m d secret = V_device d' None ->
  d' = d /\ exists e, m !! d = Some e /\ tokenHash e = secretHash secret /\ revoked e = false /\ uncertain e = false.
Proof.
  unfold verify. cbn zeta. destruct (m !! d) as [e|]; [|done]. destruct (_ && _); [done|]. destruct (revoked e) eqn:Er; [done|].
  destruct (uncertain e) eqn:Eu; cbn; [done|]. destruct (sameHash (tokenHash e) (secretHash secret)) eqn:Es; cbn; [|done].
  intros [= ->]. split; [done|]. exists e. unfold sameHash in Es. apply bool_decide_eq_true in Es. by split_and!.
Qed.

Lemma verify_device m d secret d' c : verify secretHash m d secret = V_device d' c -> d' = d.
Proof. unfold verify. cbn zeta. destruct (m !! d) as [e|]; [|done]. repeat case_match; intros; by simplify_eq. Qed.

Lemma ok_verified n d secret entry now busy s d' : verify secretHash (entries s) d secret = V_device d' None ->
  auth_ok s -> auth_ok (admitRequest secretHash n d' secret entry now busy s).
Proof.
  intros (-> & e & He & Ht & Hr & _)%verify_admits. apply ok_admit. exists (pendingTokenHash e). rewrite (memory_lookup _ _ _ He).
  by rewrite Ht, Hr.
Qed.

Lemma ok_admit_again n d secret entry now busy s : auth_ok s -> auth_ok (admit_again secretHash n d secret entry now busy s).
Proof.
  intros Hok. unfold admit_again. destruct (verify _ _ d secret) as [d' [c|]| |] eqn:Ev; try by apply ok_refuse.
  by apply (ok_verified _ d).
Qed.

Lemma ok_confirmed n v secret entry now busy s : auth_ok s -> auth_ok (confirmed secretHash n v secret entry now busy s).
Proof.
  intros Hok%(ok_requests (delete n (requests s))). unfold confirmed. destruct v; try by apply ok_refuse. by apply ok_admit_again.
Qed.

Lemma ok_promote n d secret entry now busy s : auth_ok s -> auth_ok (promote secretHash n d secret entry now busy s).
Proof.
  intros Hok. unfold promote. destruct (entries s !! d) as [e|]; [|by apply ok_confirmed].
  destruct (promoting e) as [owner|]; [by apply ok_requests|].
  destruct (check e (secretHash secret)); try by apply ok_confirmed. apply ok_call; [done|done|]. apply ok_entry; [done|]. by apply ok_requests.
Qed.

Lemma ok_present d secret entry now busy s : auth_ok s -> auth_ok (present secretHash d secret entry now busy s).
Proof.
  intros Hok%(ok_next (S (next_request s))). unfold present. cbn zeta.
  destruct (verify secretHash (entries (set_next (S (next_request s)) s)) d secret) as [d' [c|]| |] eqn:Ev; try by apply ok_refuse.
  - by apply ok_promote.
  - by apply (ok_verified _ d).
Qed.

Lemma ok_wake n now busy s s' : wake secretHash n now busy s = Some s' -> auth_ok s -> auth_ok s'.
Proof.
  unfold wake. destruct (requests s !! n) as [[d secret entry owner]|]; [|done]. destruct (entries s !! d) as [e|]; [|done].
  destruct (bool_decide _); [done|]. intros [= <-]. apply ok_promote.
Qed.

(** ** Answers *)

Definition known (tr : list Event) (m : gmap string Credential) : Prop :=
  forall d c, m !! d = Some c -> c.1.1 ∈ tokens d tr.

(** What a move of the copy may do to a credential: a later token, never less
    revoked. *)

Definition moves (l : list (list Z)) (c c' : Credential) : Prop := no_later l c.1.1 c'.1.1 /\ (c.2 = true -> c'.2 = true).

Lemma credential_stays l c : c.1.1 ∈ l -> moves l c c.
Proof. intros H. split; [by apply no_later_refl|done]. Qed.

Lemma credential_moves l x y z : NoDup l -> moves l x y -> moves l y z -> moves l x z.
Proof. intros Hl [? ?] [? ?]. split; [by eapply no_later_trans|auto]. Qed.

Lemma alter_moves tr f d (m : gmap string Credential) k c : known tr m -> (forall x, m !! d = Some x -> moves (tokens d tr) x (f x)) ->
  m !! k = Some c -> exists c', alter f d m !! k = Some c' /\ moves (tokens k tr) c c'.
Proof.
  intros Hk Hf Hc. rewrite lookup_alter. case_decide as E; [subst; rewrite Hc; eexists; split; [done|auto]|].
  exists c. split; [done|]. apply credential_stays. by eapply Hk.
Qed.

Lemma fits_known tr m x : known tr m -> fits tr m x -> known tr (deliver x m).
Proof.
  intros Hk Hx k c.
  destruct x as [[n d secret at_ en| |args| |o [d| |] [| | | |d' h] w] [p [cr|]|[d''|]|[]| |]]; try apply Hk.
  all: try (cbn [deliver]; rewrite lookup_alter; case_decide; [subst|apply Hk];
            intros (y & Hy & ->)%fmap_Some; cbn; by apply (Hk _ y)).
  - cbn [deliver]. rewrite lookup_alter. case_decide; [subst|apply Hk]. intros (y & Hy & ->)%fmap_Some. cbn.
    destruct Hx as (y' & _ & Hl). by eapply no_later_known.
  - cbn [deliver]. rewrite lookup_insert. case_decide; [subst|apply Hk]. intros [= <-]. apply Hx.
Qed.

Lemma deliver_moves tr m x k c : known tr m -> fits tr m x -> m !! k = Some c ->
  exists c', deliver x m !! k = Some c' /\ moves (tokens k tr) c c'.
Proof.
  intros Hk Hx Hc. assert (Hr : moves (tokens k tr) c c) by (apply credential_stays; by eapply Hk).
  destruct x as [[n d secret at_ en| |args| |o [d| |] [| | | |d' h] w] [p [cr|]|[d''|]|[]| |]]; try by exists c.
  all: try (apply (alter_moves tr); [done| |done]; intros y Hy; apply Hk in Hy; split; [by apply no_later_refl|by destruct y as [[] []]]).
  - apply (alter_moves tr); [done| |done]. intros y Hy. destruct Hx as (y' & Hy' & Hl). simplify_eq. split; [done|].
    cbn. by intros ->.
  - destruct Hx as [Hn _]. exists c. cbn [deliver]. rewrite lookup_insert_ne by congruence. done.
Qed.

Lemma synced_moves tr m l m' k c : (forall d, NoDup (tokens d tr)) -> synced tr m l m' -> known tr m -> m !! k = Some c ->
  exists c', m' !! k = Some c' /\ moves (tokens k tr) c c'.
Proof.
  intros Hn Hs. revert c. induction Hs as [m|m x l m' Hx Hs IH]; intros c Hk Hc.
  - exists c. split; [done|]. apply credential_stays. by eapply Hk.
  - destruct (deliver_moves tr m x k c Hk Hx Hc) as (c1 & Hc1 & Hm).
    destruct (IH c1 (fits_known _ _ _ Hk Hx) Hc1) as (c2 & Hc2 & Hm2). exists c2. split; [done|]. by eapply credential_moves.
Qed.

Lemma ok_known s : auth_ok s -> known (trace s) (memory s).
Proof. intros Hok d c Hc. by eapply ao_copy in Hc as [? _]. Qed.

Lemma ok_running s x rest : auth_ok s -> answers s = x :: rest -> failed s = false.
Proof. intros Hok Ha. destruct (failed s) eqn:Ef; [|done]. apply (ao_failed _ Hok) in Ef as [E _]. congruence. Qed.

Lemma ok_head s x rest : auth_ok s -> answers s = x :: rest ->
  fits (trace s) (memory s) x /\ synced (trace s) (deliver x (memory s)) rest (durable (db s)).
Proof.
  intros Hok Ha. pose proof (ao_synced _ Hok (ok_running _ _ _ Hok Ha)) as Hs. rewrite Ha in Hs. by inversion Hs.
Qed.

(** An answer is delivered. *)

Lemma ok_popped s s' x rest : auth_ok s -> answers s = x :: rest ->
  db s' = db s -> receipts s' = receipts s -> failed s' = failed s -> queue s' = queue s -> flight s' = flight s ->
  connections s' = connections s -> trace s' = trace s -> answers s' = rest -> memory s' = deliver x (memory s) -> auth_ok s'.
Proof.
  intros Hok Ha Hd Hr Hf Hq Hfl Hc Ht Ha' Hm. destruct (ok_head _ _ _ Hok Ha) as [Hx Hs].
  pose proof (ok_running _ _ _ Hok Ha) as Hrun. pose proof (ok_known _ Hok) as Hk.
  assert (Hmv : forall d c, memory s !! d = Some c -> exists c', memory s' !! d = Some c' /\ moves (tokens d (trace s)) c c')
    by (intros d c; rewrite Hm; by apply deliver_moves).
  pose proof (bk_nodup _ _ _ (ao_book _ Hok)) as Hn. destruct Hok as [??????? Hadm ? Hrev ??].
  split; unfold unexecuted in *; rewrite ?Hd, ?Hr, ?Hq, ?Hfl, ?Hc, ?Ht, ?Ha'; try done; rewrite ?Hf, ?Hrun; try done.
  - intros _. by rewrite Hm.
  - intros d c Hc'. rewrite Hm in Hc'. split; [by eapply fits_known|].
    destruct (synced_moves _ _ _ _ d c Hn Hs (fits_known _ _ _ Hk Hx) Hc') as (y & Hy & _ & Hyr). by exists y.
  - intros n d h (c & Hc' & Hl)%Hadm. apply Hmv in Hc' as (c' & Hc' & Hl' & _). exists c'. split; [done|]. by eapply no_later_trans.
  - intros d k (c & Hc' & Hl)%Hrev. apply Hmv in Hc' as (c' & Hc' & _ & Hl'). exists c'. by auto.
Qed.

Lemma ok_closeDevice d except s : auth_ok s -> auth_ok (closeDevice d except s).
Proof.
  intros []. split; try done; cbn [closeDevice connections set_connections trace].
  - intros c (c0 & -> & Hc0)%list_elem_of_fmap. specialize (ao_connections0 _ Hc0). by destruct (_ && _).
  - intros c k (c0 & -> & Hc0)%list_elem_of_fmap. specialize (ao_closed0 c0 k Hc0). destruct (_ && _); [by left|done].
Qed.

Lemma closed_device d except s c : c ∈ connections (closeDevice d except s) -> cn_device c = d ->
  cn_closing c = true \/ except = Some (cn_request c).
Proof.
  intros (c0 & -> & Hc0)%list_elem_of_fmap. destruct (seqb (cn_device c0) d) eqn:Ed; cbn.
  - case_bool_decide as E; cbn; [by right|by left].
  - apply String.eqb_neq in Ed. done.
Qed.

Lemma ok_touch_answered d at_ entry a busy s : auth_ok s -> auth_ok (touch_answered d at_ entry a busy s).
Proof.
  intros Hok. unfold touch_answered.
  assert (Hs : forall s', auth_ok s' -> auth_ok match entries s' !! d with
      | Some e => let s'' := update_entry d (set_writing false false) s' in if dirty e then write d busy s'' else s''
      | None => s'
      end).
  { intros s' Hs'. destruct (entries s' !! d) as [e|]; [|done]. cbn zeta. destruct (dirty e); [apply ok_write|]; by apply ok_entry. }
  destruct a; apply Hs; try done. apply ok_entry; [|done]. intros e. destruct (persistedAtMs e) as [p|]; [destruct (_ <=? _)|]; done.
Qed.

(** An answer other than a credential of the store leaves the copy alone. *)

Lemma ok_unconfirmed n d secret at_ entry a now busy s : (forall p c, a <> SA_promote p (Some c)) ->
  auth_ok s -> auth_ok (promotion_answered secretHash n d secret at_ entry a now busy s).
Proof.
  intros Ha Hok. unfold promotion_answered. cbn zeta.
  destruct a as [p [c|]| | | |[]]; [by destruct (Ha p c)|..]; apply ok_confirmed; try (by apply ok_entry).
  by apply ok_entry, ok_entry.
Qed.

Lemma memory_update d f (g : Credential -> Credential) s :
  (forall e, (tokenHash (f e), pendingTokenHash (f e), revoked (f e)) = g (tokenHash e, pendingTokenHash e, revoked e)) ->
  memory (update_entry d f s) = alter g d (memory s).
Proof. intros Hf. unfold memory, update_entry. cbn [entries set_entries]. apply fmap_alter. intros e _. apply Hf. Qed.

Lemma ok_revoked_answer d carrier s : (exists x, memory s !! d = Some x /\ x.2 = true) ->
  auth_ok s -> auth_ok (closeDevice d carrier (log (ERevoked d carrier) s)).
Proof.
  intros Hm Hok. change (auth_ok (log (ERevoked d carrier) (closeDevice d carrier s))).
  apply ok_log; [done|done| |by apply ok_closeDevice]. split; [exact Hm|]. intros c. by apply closed_device.
Qed.

Lemma ok_answered c a now busy s rest : auth_ok s -> answers s = (c, a) :: rest ->
  auth_ok (answered secretHash c a now busy (set_store (queue s) (flight s) rest s)).
Proof.
  intros Hok Ha. destruct (ok_head _ _ _ Hok Ha) as [Hx _].
  assert (Hp : forall s', db s' = db s -> receipts s' = receipts s -> failed s' = failed s -> queue s' = queue s ->
      flight s' = flight s -> connections s' = connections s -> trace s' = trace s -> answers s' = rest ->
      memory s' = deliver (c, a) (memory s) -> auth_ok s') by (intros; by eapply ok_popped).
  set (s0 := set_store (queue s) (flight s) rest s).
  assert (Hq : deliver (c, a) (memory s) = memory s -> auth_ok s0) by (intros E; by apply Hp).
  destruct c as [n d secret at_ en|d at_ en|args| |o intent w carrier]; cbn [answered].
  - destruct a as [p [c|]| | | |[]]; try (apply ok_unconfirmed; [done|by apply Hq]).
    assert (H1 : auth_ok (update_entry d (adopt c) s0)) by (apply Hp; try done; by apply (memory_update _ _ _ s0)).
    unfold promotion_answered. cbn zeta. apply ok_confirmed, ok_entry; [done|]. destruct p; [by apply ok_entry|done].
  - apply ok_touch_answered. by apply Hq.
  - destruct a as [|[d|]| | |]; try by apply Hq. apply Hp; try done. unfold redeem_answered, memory. cbn. by rewrite fmap_insert.
  - by apply Hq.
  - destruct intent as [d| |]; cbn [write_answered]; [| |by apply Hq].
    + assert (Hr : is_Some (memory s !! d) -> deliver (SC_write o (I_revoke d) w carrier, a) (memory s) = alter revoke_credential d (memory s) ->
        auth_ok (closeDevice d carrier (log (ERevoked d carrier) (markRevoked d s0)))).
      { intros [x Hm] He. assert (E : memory (markRevoked d s0) = alter revoke_credential d (memory s)) by by apply (memory_update _ _ _ s0).
        apply ok_revoked_answer; [|apply Hp; try done; by rewrite E, He]. exists (revoke_credential x). split; [|done].
        rewrite E, lookup_alter, decide_True by done. apply fmap_Some. by exists x. }
      destruct a as [| |[]| |]; try (by apply Hq); by apply Hr.
    + destruct w; try by apply Hq. destruct a as [| |[]| |]; try (by apply Hq). apply Hp; try done. by apply (memory_update _ _ _ s0).
Qed.

Lemma ok_rejected_call c unknown now busy s : auth_ok s -> auth_ok (answered secretHash c (SA_failed unknown) now busy s).
Proof.
  intros Hok. destruct c as [n d secret at_ en|d at_ en|args| |o [d| |] w carrier]; cbn [answered]; try done.
  - by apply ok_unconfirmed.
  - by apply ok_touch_answered.
  - by destruct w.
Qed.

(** ** The book of tokens under a call *)

Lemma book_calls m tr u u' : sublist u' u -> book_ok m tr u -> book_ok m tr u'.
Proof.
  intros Hs []. split; try done.
  - by eapply sublist_NoDup.
  - intros d h Hin. apply bk_call0. by eapply elem_of_sublist.
Qed.

Lemma book_revoke m tr u d : book_ok m tr u -> book_ok (alter revoke_credential d m) tr u.
Proof.
  intros []. split; try done.
  - intros k. specialize (bk_current0 k). rewrite lookup_alter. case_decide; [subst|done]. by destruct (m !! k).
  - intros k y h. rewrite lookup_alter. case_decide; [subst|by apply bk_pending0]. intros (x & _ & ->)%fmap_Some. by cbn.
  - intros k h Hin. destruct (bk_call0 k h Hin) as (? & ? & Hp). split_and!; [done..|]. intros y. rewrite lookup_alter.
    case_decide; [subst|apply Hp]. intros (x & _ & ->)%fmap_Some. by cbn.
Qed.

Lemma book_await m tr u d h : book_ok m tr ((d, h) :: u) -> book_ok (alter (await_credential h) d m) tr u.
Proof.
  intros []. destruct (bk_call0 d h) as (Hi & Ht & _); [by left|]. apply NoDup_cons in bk_calls0 as [Hni Hu]. split; try done.
  - intros k. specialize (bk_current0 k). rewrite lookup_alter. case_decide; [subst|done]. by destruct (m !! k).
  - intros k y h'. rewrite lookup_alter. case_decide; [subst|by apply bk_pending0]. intros (x & _ & ->)%fmap_Some. cbn. by intros [= <-].
  - intros k h' Hin. destruct (bk_call0 k h') as (? & ? & Hp); [by right|]. split_and!; [done..|]. intros y. rewrite lookup_alter.
    case_decide; [subst|apply Hp]. intros (x & _ & ->)%fmap_Some. cbn. intros [= <-]. done.
Qed.

Lemma tokens_current d tr h : tokens d (tr ++ [ECurrent d h]) = tokens d tr ++ [h].
Proof. rewrite tokens_snoc. unfold seqb. by rewrite String.eqb_refl. Qed.

Lemma tokens_other d tr k h : d <> k -> tokens k (tr ++ [ECurrent d h]) = tokens k tr.
Proof. intros Hd%String.eqb_neq. rewrite tokens_snoc. unfold seqb. by rewrite Hd, app_nil_r. Qed.

Lemma issued_current tr d h : issued_hashes (tr ++ [ECurrent d h]) = issued_hashes tr.
Proof. unfold issued_hashes. rewrite omap_app. cbn. by rewrite app_nil_r. Qed.

(** A token becomes the current one of a device. *)

Lemma book_current m tr u d h y : (h ∉ tokens d tr) -> h ∈ issued_hashes tr -> y.1 = (h, None) ->
  ((d, h) ∉ u) -> book_ok m tr u -> book_ok (<[d := y]> m) (tr ++ [ECurrent d h]) u.
Proof.
  intros Hn Hi Hy Hu []. pose proof (lookup_insert_eq m d y) as Heq. pose proof (fun k => lookup_insert_ne m d k y) as Hne.
  split; try done; rewrite ?issued_current; intros k; destruct (decide (d = k)) as [<-|Hk];
    rewrite ?tokens_current, ?tokens_other, ?Heq, ?Hne by done; try done.
  - rewrite Hy. by eexists.
  - apply bk_current0.
  - apply NoDup_app. split_and!; [done| |apply NoDup_singleton]. by intros x Hx ->%list_elem_of_singleton.
  - intros h' [?| ->]%in_snoc; [by eapply bk_issued0|done].
  - intros h'. apply bk_issued0.
  - intros y' h' [= <-]. by rewrite Hy.
  - apply bk_pending0.
  - intros h' Hin. destruct (bk_call0 d h' Hin) as (? & ? & _). split_and!; [done| |by intros ? [= <-]; rewrite Hy].
    by intros [?| ->]%in_snoc.
  - apply bk_call0.
Qed.

Lemma book_issue m tr u d h : (h ∉ issued_hashes tr) -> book_ok m tr u ->
  book_ok m (tr ++ [EIssued d h]) u /\ book_ok m (tr ++ [EIssued d h]) (u ++ [(d, h)]).
Proof.
  intros Hn Hb. assert (Ht : forall k, tokens k (tr ++ [EIssued d h]) = tokens k tr) by (intros k; by rewrite tokens_snoc, app_nil_r).
  assert (Hi : issued_hashes (tr ++ [EIssued d h]) = issued_hashes tr ++ [h]) by (unfold issued_hashes; by rewrite omap_app).
  destruct Hb. assert (Hu : forall k h', (k, h') ∈ u -> h' <> h) by (intros k h' Hin ->; apply bk_call0 in Hin as (? & _); done).
  assert (H1 : book_ok m (tr ++ [EIssued d h]) u).
  { split; try done; intros k; rewrite ?Ht.
    - apply bk_current0.
    - apply bk_nodup0.
    - intros h'. rewrite Hi, elem_of_app. eauto.
    - intros y h'. rewrite Hi, ?Ht, elem_of_app. intros Hy Hp. destruct (bk_pending0 k y h' Hy Hp). eauto.
    - intros h' Hin. rewrite Hi, ?Ht, elem_of_app. destruct (bk_call0 k h' Hin) as (? & ? & ?). eauto. }
  split; [done|]. destruct H1. split; try done.
  - apply NoDup_app. split_and!; [done| |apply NoDup_singleton]. intros [k h'] Hin [= -> ->]%list_elem_of_singleton. by apply (Hu d h) in Hin.
  - intros k h' [Hin|[= -> ->]]%in_snoc; [by apply bk_call1|]. rewrite ?Ht, Hi. split_and!.
    + apply elem_of_app. right. by left.
    + by intros ?%bk_issued0.
    + intros y Hy Hp. by destruct (bk_pending0 d y h Hy Hp).
Qed.

(** ** Calls executed *)

Definition executed (s : Server) (t : AuthTables) (r : gmap string AuthIntent) (x : StoreCall * StoreAnswer) (rest : list StoreCall)
    (evs : list Event) : Server :=
  mkServer t r (entries s) (next_request s) (requests s) (queue s) rest (answers s ++ [x]) (rejected s) (failed s) (connections s)
    (trace s ++ evs).

Lemma book_known m tr u : book_ok m tr u -> known tr m.
Proof.
  intros [] d c Hc. specialize (bk_current0 d). rewrite Hc in bk_current0. destruct bk_current0 as [l ->]. apply elem_of_app. right. by left.
Qed.

Lemma known_later tr tr' m : known tr m -> known (tr ++ tr') m.
Proof. intros Hk d c Hc. rewrite tokens_app. apply elem_of_app. left. by eapply Hk. Qed.

Lemma order_app tr evs : (forall e, e ∈ evs -> exists d h, e = ECurrent d h) -> all_ok admitted_ok tr -> all_ok admitted_ok (tr ++ evs).
Proof.
  intros Hev Htr. induction evs as [|e evs IH] using rev_ind; [by rewrite app_nil_r|]. rewrite app_assoc. apply all_ok_snoc.
  - apply IH. intros e' He. apply Hev, elem_of_app. by left.
  - destruct (Hev e) as (d & h & ->); [|done]. apply elem_of_app. right. by left.
Qed.

Lemma ok_executed s t r c a rest evs : auth_ok s -> flight s = c :: rest -> failed s = false ->
  tables_ok t -> durable t = deliver (c, a) (durable (db s)) -> fits (trace s ++ evs) (durable (db s)) (c, a) ->
  (forall e, e ∈ evs -> exists d h, e = ECurrent d h) ->
  book_ok (durable t) (trace s ++ evs) (omap call_token (rest ++ queue s)) ->
  (forall o i, r !! o = Some i -> receipt_ok t i) -> auth_ok (executed s t r (c, a) rest evs).
Proof.
  intros Hok Hfl Hrun Ht Hd Hfits Hev Hb Hr. pose proof (book_known _ _ _ (ao_book _ Hok)) as Hk.
  assert (Hin : forall e, e ∈ trace s ++ evs -> (forall d h, e <> ECurrent d h) -> e ∈ trace s).
  { intros e [?|He]%elem_of_app Hne; [done|]. apply Hev in He as (d & h & ->). by destruct (Hne d h). }
  destruct Hok as [? Hs ?? Hcalls ? Hcopy Hadm Hord Hrev Hconn Hcl].
  split; cbn [executed db failed answers flight queue trace receipts connections]; try done.
  - intros _. change (memory (executed s t r (c, a) rest evs)) with (memory s). rewrite Hd. apply synced_snoc; [|done].
    by apply synced_later, Hs.
  - by rewrite Hrun.
  - intros c' Hin'. apply Hcalls. rewrite Hfl. by right.
  - intros d x Hx. apply Hcopy in Hx as (Hx & y & Hy & Hyr). rewrite tokens_app. split; [apply elem_of_app; by left|].
    destruct (deliver_moves (trace s ++ evs) _ (c, a) d y (known_later _ _ _ Hk) Hfits Hy) as (y' & Hy' & _ & Hm). exists y'. rewrite Hd. auto.
  - intros n d h (x & Hx & Hl)%Hin%Hadm; [|done]. exists x. split; [done|]. rewrite tokens_app. by apply no_later_app.
  - by apply order_app.
  - intros d k He%Hin; [by eapply Hrev|done].
  - intros c0 (h & Hc0)%Hconn. exists h. apply elem_of_app. by left.
  - intros c0 k Hc0 He%Hin; [|done]. destruct (Hcl c0 k Hc0 He); [by left|right]. apply elem_of_app. by left.
Qed.

Lemma ok_unlogged s t r c a rest : auth_ok s -> flight s = c :: rest -> failed s = false ->
  tables_ok t -> durable t = deliver (c, a) (durable (db s)) -> fits (trace s) (durable (db s)) (c, a) ->
  book_ok (durable t) (trace s) (omap call_token (rest ++ queue s)) ->
  (forall o i, r !! o = Some i -> receipt_ok t i) -> auth_ok (set_store (queue s) rest (answers s ++ [(c, a)]) (set_db t r s)).
Proof.
  intros Hok Hfl Hrun Ht Hd Hx Hb Hr.
  assert (E : set_store (queue s) rest (answers s ++ [(c, a)]) (set_db t r s) = executed s t r (c, a) rest [])
    by (unfold executed; by rewrite app_nil_r).
  rewrite E. apply ok_executed; rewrite ?app_nil_r; try done. by intros e ?%elem_of_nil.
Qed.

Lemma ok_rest s c rest : auth_ok s -> flight s = c :: rest ->
  book_ok (durable (db s)) (trace s) (omap call_token (rest ++ queue s)).
Proof.
  intros Hok Hfl. eapply book_calls; [|by apply ao_book]. unfold unexecuted. rewrite Hfl. cbn.
  destruct (call_token c); [by apply sublist_cons|done].
Qed.

Lemma receipts_kept s t : (forall d y, durable (db s) !! d = Some y -> exists y', durable t !! d = Some y' /\ (y.2 = true -> y'.2 = true)) ->
  auth_ok s -> forall o i, receipts s !! o = Some i -> receipt_ok t i.
Proof.
  intros Hm Hok o i Hi. pose proof (ao_receipts _ Hok _ _ Hi) as Hr. destruct i as [d| |]; [|done..].
  destruct Hr as (y & Hy & Hrev). apply Hm in Hy as (y' & Hy' & ?). exists y'. auto.
Qed.

(** A call that leaves every credential alone. *)

Lemma ok_same s t c a rest : auth_ok s -> flight s = c :: rest -> failed s = false -> tables_ok t -> durable t = durable (db s) ->
  deliver (c, a) (durable (db s)) = durable (db s) -> fits (trace s) (durable (db s)) (c, a) ->
  auth_ok (set_store (queue s) rest (answers s ++ [(c, a)]) (set_db t (receipts s) s)).
Proof.
  intros Hok Hfl Hrun Ht Hd He Hx. apply ok_unlogged; try done; rewrite ?Hd, ?He; try done; [by eapply ok_rest|].
  apply receipts_kept; [|done]. intros d y Hy. exists y. by rewrite Hd.
Qed.

Lemma durable_lookup t d : durable t !! d = row_credential <$> devices t !! d.
Proof. apply lookup_fmap. Qed.

Lemma durable_insert i m d row : durable (mkAuthTables i (<[d := row]> m)) = <[d := row_credential row]> (durable (mkAuthTables i m)).
Proof. apply fmap_insert. Qed.

Lemma durable_touch d at_ en t : durable (devices_touch d at_ en t) = durable t.
Proof.
  apply map_eq. intros k. rewrite !durable_lookup. cbn. rewrite lookup_alter. case_decide; [subst|done]. by destruct (devices t !! k).
Qed.

Lemma credential_row t d row : tables_ok t -> devices t !! d = Some row -> sd_deviceId (deviceCredential row) = d.
Proof. intros Ht Hrow. by apply (tk_devices _ Ht) in Hrow as []. Qed.

(** What the store answers about a device it did not promote is what it holds. *)

Lemma adopt_same row : adopt_credential (deviceCredential row) (row_credential row) = row_credential row.
Proof. unfold adopt_credential, row_credential. cbn. by rewrite orb_diag. Qed.

Lemma alter_same {A} (f : A -> A) d (m : gmap string A) : (forall x, m !! d = Some x -> f x = x) -> alter f d m = m.
Proof.
  intros Hf. apply map_eq. intros k. rewrite lookup_alter. case_decide; [subst|done]. destruct (m !! k) eqn:E; cbn; [by rewrite Hf|done].
Qed.

Lemma alter_insert {A} (f : A -> A) d x y (m : gmap string A) : m !! d = Some x -> f x = y -> alter f d m = <[d := y]> m.
Proof.
  intros Hx Hf. apply map_eq. intros k. rewrite lookup_alter, lookup_insert. case_decide; [subst|done]. by rewrite Hx.
Qed.

Lemma ok_unchanged s c a rest : auth_ok s -> flight s = c :: rest -> failed s = false ->
  deliver (c, a) (durable (db s)) = durable (db s) -> fits (trace s) (durable (db s)) (c, a) ->
  auth_ok (set_store (queue s) rest (answers s ++ [(c, a)]) s).
Proof. intros Hok Hfl Hrun Hd Hx. exact (ok_same s (db s) c a rest Hok Hfl Hrun (ao_tables _ Hok) eq_refl Hd Hx). Qed.

Lemma ok_execute_promote n d secret at_ en s rest a s' : auth_ok s -> flight s = SC_promote n d secret at_ en :: rest -> failed s = false ->
  execute_call secretHash (SC_promote n d secret at_ en) s = Some (a, s') ->
  auth_ok (set_store (queue s') rest (answers s' ++ [(SC_promote n d secret at_ en, a)]) s').
Proof.
  intros Hok Hfl Hrun. pose proof (tables_ok_step (AO_promote d (secretHash secret) at_ en) _ (ao_tables _ Hok)) as Ht.
  pose proof (durable_lookup (db s) d) as Hl. pose proof (book_known _ _ _ (ao_book _ Hok)) as Hk.
  unfold execute_call, devices_promote. cbn [auth_apply] in Ht. unfold devices_promote in Ht.
  destruct (devices (db s) !! d) as [row|] eqn:Erow.
  - cbn in Hl. destruct (promotable (secretHash secret) row) eqn:Ep.
    + cbn [snd] in Ht. intros [= <- <-]. apply promotable_spec in Ep as [Hp Hrev].
      set (h := secretHash secret) in *. set (row' := set_use at_ en (set_token h None row)) in *.
      assert (Hc : row_credential row' = (h, None, false)) by (unfold row_credential; cbn; by rewrite Hrev).
      assert (Hc0 : row_credential row = (dv_tokenHash row, Some h, false)) by (unfold row_credential; by rewrite Hp, Hrev).
      destruct (bk_pending _ _ _ (ao_book _ Hok) d _ h Hl) as [Hn Hi]; [by rewrite Hc0|].
      assert (Hd : durable (mkAuthTables (invitations (db s)) (<[d := row']> (devices (db s)))) = <[d := (h, None, false)]> (durable (db s)))
        by (rewrite durable_insert, Hc; done).
      apply (ok_executed s (mkAuthTables (invitations (db s)) (<[d := row']> (devices (db s)))) (receipts s) _ _ rest [ECurrent d h]); try done.
      * rewrite Hd. cbn [deliver]. symmetry. apply (alter_insert _ _ _ _ _ Hl). by rewrite Hc0.
      * exists (row_credential row). split; [done|]. rewrite tokens_current. apply no_later_last. apply elem_of_app. left. by eapply Hk.
      * intros e ->%list_elem_of_singleton. by eexists _, _.
      * rewrite Hd. apply book_current; [done|done|done| |by eapply ok_rest]. intros Hin.
        eapply (bk_call _ _ _ (ok_rest _ _ _ Hok Hfl)) in Hin as (_ & _ & Hin). apply (Hin _ Hl). by rewrite Hc0.
      * apply receipts_kept; [|done]. intros k y Hy. rewrite Hd, lookup_insert. case_decide; [subst|by exists y].
        rewrite Hl, Hc0 in Hy. injection Hy as <-. by eexists.
    + intros [= <- <-]. apply (ok_unchanged s); try done.
      * cbn [deliver]. apply alter_same. intros x Hx. rewrite Hl in Hx. injection Hx as <-. apply adopt_same.
      * exists (row_credential row). split; [done|]. apply no_later_refl. by apply (Hk _ _ Hl).
  - intros [= <- <-]. by apply (ok_unchanged s).
Qed.

Lemma redeemed_device args t d t' : redeem args t = Some (Some d, t') ->
  d = rq_deviceId args /\ devices t !! rq_deviceId args = None
  /\ durable t' = <[rq_deviceId args := (rq_tokenHash args, None, false)]> (durable t).
Proof.
  unfold redeem. intros H. repeat case_match; simplify_eq. split_and!; [done|done|]. by rewrite durable_insert.
Qed.

Lemma refused_devices args t t' : redeem args t = Some (None, t') -> durable t' = durable t.
Proof. unfold redeem. intros H. repeat case_match; by simplify_eq. Qed.

Lemma ok_execute_redeem args s rest a s' : auth_ok s -> flight s = SC_redeem args :: rest -> failed s = false ->
  execute_call secretHash (SC_redeem args) s = Some (a, s') ->
  auth_ok (set_store (queue s') rest (answers s' ++ [(SC_redeem args, a)]) s').
Proof.
  intros Hok Hfl Hrun. pose proof (tables_ok_step (AO_redeem args) _ (ao_tables _ Hok)) as Ht.
  unfold execute_call. cbn [auth_apply] in Ht. destruct (redeem args (db s)) as [[answer t]|] eqn:Er; [|done].
  destruct answer as [d|]; intros [= <- <-].
  - apply redeemed_device in Er as (-> & Hnone & Hd). pose proof (durable_lookup (db s) (rq_deviceId args)) as Hl. rewrite Hnone in Hl. cbn in Hl.
    pose proof (bk_calls _ _ _ (ao_book _ Hok)) as Hnd. destruct (bk_call _ _ _ (ao_book _ Hok) (rq_deviceId args) (rq_tokenHash args)) as (Hi & Hn & _);
      [unfold unexecuted; rewrite Hfl; by left|].
    apply (ok_executed s t (receipts s) _ _ rest [ECurrent (rq_deviceId args) (rq_tokenHash args)]); try done.
    + split; [done|]. rewrite tokens_current. apply elem_of_app. right. by left.
    + intros e ->%list_elem_of_singleton. by eexists _, _.
    + rewrite Hd. apply book_current; [done|done|done| |by eapply ok_rest]. unfold unexecuted in Hnd. rewrite Hfl in Hnd. cbn in Hnd.
      by apply NoDup_cons in Hnd as [? _].
    + apply receipts_kept; [|done]. intros k y Hy. rewrite Hd, lookup_insert_ne by congruence. by exists y.
  - apply (ok_same s t); try done. by rewrite (refused_devices _ _ _ Er).
Qed.

(** What a committed write does to the credentials. *)

Definition written (w : AuthWrite) (m : gmap string Credential) : gmap string Credential :=
  match w with
  | AW_device_revoke d _ => alter revoke_credential d m
  | AW_device_rotate d h => alter (await_credential h) d m
  | _ => m
  end.

Lemma durable_devices i m t : m = devices t -> durable (mkAuthTables i m) = durable t.
Proof. by intros ->. Qed.

Lemma revoke_durable d at_ t a b t' : tables_ok t -> device_revoke d at_ t = Some (applied a b, t') ->
  durable t' = alter revoke_credential d (durable t) /\ is_Some (durable t !! d).
Proof.
  intros Ht. unfold device_revoke, refusal. destruct (devices t !! d) as [row|] eqn:Erow; [|done]. cbn zeta.
  pose proof (durable_lookup t d) as Hl. rewrite Erow in Hl. cbn in Hl.
  destruct (dv_revokedAt row) as [r|] eqn:Er; [|destruct (_ <=? _); [done|]]; intros [= _ _ <-]; (split; [|by rewrite Hl]).
  - rewrite alter_same; [done|]. intros x Hx. rewrite Hl in Hx. injection Hx as <-. unfold revoke_credential, row_credential. cbn.
    rewrite Er, (do_revoked d row); [done|by apply (tk_devices _ Ht)|by rewrite Er].
  - rewrite durable_insert. symmetry. by apply (alter_insert _ _ _ _ _ Hl).
Qed.

Lemma rotate_durable d h t a b t' : device_rotate d h t = Some (applied a b, t') ->
  durable t' = alter (await_credential h) d (durable t).
Proof.
  unfold device_rotate, refusal. destruct (devices t !! d) as [row|] eqn:Erow; [|done].
  pose proof (durable_lookup t d) as Hl. rewrite Erow in Hl. cbn in Hl.
  destruct (dv_revokedAt row) as [r|] eqn:Er; [done|]. intros [= _ _ <-]. rewrite durable_insert. symmetry.
  by apply (alter_insert _ _ _ _ _ Hl).
Qed.

Lemma rename_durable d name r t a b t' : device_rename d name r t = Some (applied a b, t') -> durable t' = durable t.
Proof.
  unfold device_rename, refusal. destruct (devices t !! d) as [row|] eqn:Erow; [|done].
  pose proof (durable_lookup t d) as Hl. rewrite Erow in Hl. cbn in Hl. repeat (destruct (_ : bool); [done|]).
  intros [= _ _ <-]. rewrite durable_insert. by apply insert_id.
Qed.

Lemma write_durable w t a b t' : tables_ok t -> authWrites w t = Some (applied a b, t') -> durable t' = written w (durable t).
Proof.
  intros Ht. destruct w; cbn [authWrites written].
  - unfold invite_create, refusal. intros H. repeat case_match; by simplify_eq.
  - unfold invite_cancel, refusal. intros H. repeat case_match; by simplify_eq.
  - apply rename_durable.
  - intros H. by apply revoke_durable in H as [? _].
  - apply rotate_durable.
Qed.

Lemma write_tables w t a b t' : tables_ok t -> authWrites w t = Some (applied a b, t') -> tables_ok t'.
Proof. intros Ht H. pose proof (tables_ok_step (AO_write w) t Ht) as Hs. cbn in Hs. by rewrite H in Hs. Qed.

Lemma revoked_fixed t d y : tables_ok t -> durable t !! d = Some y -> y.2 = true -> revoke_credential y = y.
Proof.
  intros Ht. rewrite durable_lookup. intros (row & Hrow & ->)%fmap_Some Hr. apply (tk_devices _ Ht) in Hrow as [_ Hp].
  cbn in Hr. apply bool_decide_eq_true in Hr as Hs. unfold revoke_credential, row_credential. cbn. by rewrite (Hp Hs), Hr.
Qed.

Lemma written_kept w m d (y : Credential) : m !! d = Some y -> exists y' : Credential, written w m !! d = Some y' /\ (y.2 = true -> y'.2 = true).
Proof.
  intros Hy. destruct w as [| | |d' at_|d' h]; cbn [written]; try by exists y.
  all: rewrite lookup_alter; case_decide; [subst; rewrite Hy; eexists; split; [done|by cbn]|by exists y].
Qed.

Lemma ok_execute_write o i w k s rest a s' : auth_ok s -> flight s = SC_write o i w k :: rest -> failed s = false ->
  execute_call secretHash (SC_write o i w k) s = Some (a, s') ->
  auth_ok (set_store (queue s') rest (answers s' ++ [(SC_write o i w k, a)]) s').
Proof.
  intros Hok Hfl Hrun. assert (Hi : intent_fits i w = true) by (apply (ao_calls _ Hok (SC_write o i w k)); rewrite Hfl; by left).
  unfold execute_call. destruct (receipts s !! o) as [recorded|] eqn:Er.
  - intros [= <- <-]. case_decide as E; [subst recorded|]; (apply (ok_unchanged s); [done|done|done|..]); try (by destruct i, w).
    + destruct i as [d| |]; try (by destruct w). pose proof (ao_receipts _ Hok _ _ Er) as (y & Hy & Hrev). cbn [deliver].
      apply alter_same. intros x Hx. rewrite Hy in Hx. injection Hx as <-. eapply revoked_fixed; [by apply ao_tables|done|done].
    + destruct i as [d| |]; try (by destruct w). pose proof (ao_receipts _ Hok _ _ Er) as (y & Hy & _). by exists y.
  - destruct (authWrites w (db s)) as [[[data b|e] t]|] eqn:Ew; [| |done]; intros [= <- <-].
    + pose proof (write_durable _ _ _ _ _ (ao_tables _ Hok) Ew) as Hd.
      assert (Hdel : deliver (SC_write o i w k, SA_write wa_committed) (durable (db s)) = written w (durable (db s))).
      { destruct i as [d| |], w; try done. cbn in *. by apply String.eqb_eq in Hi as ->. }
      apply (ok_unlogged s t (<[o := i]> (receipts s))); try done.
      * eapply write_tables; [apply (ao_tables _ Hok)|exact Ew].
      * by rewrite Hd, Hdel.
      * destruct i as [d| |], w; try done. cbn in Hi. apply String.eqb_eq in Hi as ->. by apply revoke_durable in Ew as [_ ?]; [|apply ao_tables].
      * rewrite Hd. pose proof (ok_rest _ _ _ Hok Hfl) as Hb. destruct w; try exact Hb; [by apply book_revoke|].
        apply book_await. pose proof (ao_book _ Hok) as Hb'. unfold unexecuted in Hb'. by rewrite Hfl in Hb'.
      * intros o' i' [[<- <-]|[_ Ho]]%lookup_insert_Some.
        { destruct i as [d| |]; [|done..]. destruct w as [| | |d' at_|]; try done. cbn in Hi. apply String.eqb_eq in Hi as ->.
          cbn in Ew. apply revoke_durable in Ew as [_ [y Hy]]; [|apply ao_tables, Hok]. exists (revoke_credential y). split; [|done].
          rewrite Hd. cbn [written]. rewrite lookup_alter, decide_True by done. apply fmap_Some. by exists y. }
        revert o' i' Ho. apply receipts_kept; [|done]. intros k' y Hy. rewrite Hd. by apply written_kept.
    + apply (ok_unchanged s); try done; by destruct i, w.
Qed.

Lemma durable_expire at_ t : durable (invitations_expire at_ t).2 = durable t.
Proof. done. Qed.

Lemma ok_execute c s rest a s' : auth_ok s -> flight s = c :: rest -> failed s = false -> execute_call secretHash c s = Some (a, s') ->
  auth_ok (set_store (queue s') rest (answers s' ++ [(c, a)]) s').
Proof.
  intros Hok Hfl Hrun He. destruct c as [n d secret at_ en|d at_ en|args|at_|o i w k].
  - by apply (ok_execute_promote _ _ _ _ _ s).
  - injection He as <- <-. apply (ok_same s (devices_touch d at_ en (db s))); try done; [|apply durable_touch].
    by apply (tables_ok_step (AO_touch d at_ en)), ao_tables.
  - by apply (ok_execute_redeem _ s).
  - injection He as <- <-. apply (ok_same s (invitations_expire at_ (db s)).2); try done.
    by apply (tables_ok_step (AO_expire at_)), ao_tables.
  - by apply (ok_execute_write _ _ _ _ s).
Qed.

Lemma ok_aborted c s rest : auth_ok s -> flight s = c :: rest -> failed s = false ->
  auth_ok (set_store (queue s) rest (answers s ++ [(c, SA_failed true)]) s).
Proof. intros Hok Hfl Hrun. apply ok_unchanged; try done; by destruct c as [| | | |? [] [] ?]. Qed.

(** ** The other steps *)

Lemma ok_issued d h s : (h ∉ issued_hashes (trace s)) -> auth_ok s ->
  auth_ok (log (EIssued d h) s) /\ book_ok (durable (db s)) (trace s ++ [EIssued d h]) (unexecuted s ++ [(d, h)]).
Proof.
  intros Hh Hok. destruct (book_issue _ _ _ d h Hh (ao_book _ Hok)) as [Hb1 Hb2]. split; [|done].
  assert (Ht : forall k, tokens k (trace s ++ [EIssued d h]) = tokens k (trace s)) by (intros k; by rewrite tokens_snoc, app_nil_r).
  destruct Hok as [? Hs ????? Hadm Hord Hrev Hconn Hcl].
  split; cbn [log db failed answers flight queue receipts connections trace]; try done.
  - intros Hf. by apply synced_later, Hs.
  - intros k x. rewrite Ht. by apply ao_copy0.
  - intros n k h' [H|?]%in_snoc; [|done]. rewrite Ht. by apply (Hadm n).
  - by apply all_ok_snoc.
  - by intros k c [H%Hrev|?]%in_snoc.
  - intros c [h' Hc]%Hconn. exists h'. apply elem_of_app. by left.
  - intros c k Hc [H|?]%in_snoc; [|done]. destruct (Hcl c k Hc H); [by left|right]. apply elem_of_app. by left.
Qed.

Lemma ok_issued_call d h c busy s : (h ∉ issued_hashes (trace s)) -> call_token c = Some (d, h) -> call_fits c -> auth_ok s ->
  auth_ok (store_call c busy (log (EIssued d h) s)).
Proof.
  intros Hh Hc Hf Hok. destruct (ok_issued d h s Hh Hok) as [H1 Hb]. unfold store_call.
  destruct (failed (log (EIssued d h) s)) eqn:Ef; cbn [orb]; [by apply ok_rejected|]. destruct busy; [by apply ok_rejected|].
  destruct H1. split; try done; cbn [failed set_store]; try congruence.
  - unfold unexecuted in *. cbn [flight queue set_store log trace]. rewrite app_assoc, omap_app. cbn. by rewrite Hc.
  - cbn [flight queue set_store]. intros c'. rewrite app_assoc. intros [Hin| ->]%in_snoc; [by apply ao_calls0|done].
Qed.

Lemma ok_handed c rest s : auth_ok s -> queue s = c :: rest -> failed s = false -> auth_ok (set_store rest (flight s ++ [c]) (answers s) s).
Proof.
  intros [] Hq Hf. split; try done; cbn [failed set_store]; try congruence; unfold unexecuted in *; cbn [flight queue set_store];
    rewrite <- app_assoc; cbn; by rewrite <- Hq.
Qed.

Lemma ok_fail l s : auth_ok s -> auth_ok (set_failed (set_rejected l (set_store [] [] [] s))).
Proof.
  intros []. split; try done.
  - cbn. eapply book_calls; [|exact ao_book0]. apply sublist_nil_l.
  - by intros c ?%elem_of_nil.
Qed.

Lemma in_filter {A} (f : A -> bool) l x : x ∈ List.filter f l -> x ∈ l.
Proof. rewrite !list_elem_of_In, List.filter_In. by intros []. Qed.

Lemma ok_closed n s : auth_ok s ->
  auth_ok (set_connections (List.filter (fun c => negb (Nat.eqb (cn_request c) n)) (connections s)) s).
Proof.
  intros []. split; try done; cbn [connections set_connections].
  - intros c Hc%in_filter. by apply ao_connections0.
  - intros c k Hc%in_filter. by eapply ao_closed0.
Qed.

(** The entries of a restart are the credentials of the store. *)

Lemma load_other l m d : (forall c, c ∈ l -> sd_deviceId c <> d) -> load l m !! d = m !! d.
Proof.
  revert m. induction l as [|c l IH]; intros m Hl; [done|]. cbn. change (load l (<[sd_deviceId c := entry_of c]> m) !! d = m !! d).
  rewrite IH by (intros c' Hc; apply Hl; by right). apply lookup_insert_ne, Hl. by left.
Qed.

Lemma load_in l m c : NoDup (map sd_deviceId l) -> c ∈ l -> load l m !! sd_deviceId c = Some (entry_of c).
Proof.
  revert m. induction l as [|x l IH]; intros m Hn; [by intros ?%elem_of_nil|]. cbn in Hn. apply NoDup_cons in Hn as [Hx Hn].
  change (load (x :: l) m) with (load l (<[sd_deviceId x := entry_of x]> m)). intros [->|Hc]%elem_of_cons; [|by apply IH].
  rewrite load_other; [apply lookup_insert_eq|]. intros c' Hc E. apply Hx. rewrite <- E. by apply list_elem_of_fmap_2.
Qed.

Lemma loaded_rows t now : (auth_load now t).1 ≡ₚ map deviceCredential (device_rows t).
Proof. cbn. apply Permutation_map, merge_sort_Permutation. Qed.

Lemma row_listed t d row : devices t !! d = Some row -> row ∈ device_rows t.
Proof. intros H. unfold device_rows. change row with (d, row).2. apply list_elem_of_fmap_2. by apply elem_of_map_to_list. Qed.

Lemma listed_row t row : tables_ok t -> row ∈ device_rows t -> devices t !! dv_deviceId row = Some row.
Proof.
  intros Ht ([d row'] & -> & H)%list_elem_of_fmap. apply elem_of_map_to_list in H. cbn.
  destruct (tk_devices _ Ht _ _ H) as [E _]. rewrite E. exact H.
Qed.

Lemma listed_ids t : tables_ok t -> map sd_deviceId (map deviceCredential (device_rows t)) = (map_to_list (devices t)).*1.
Proof.
  intros Ht. unfold device_rows. rewrite !List.map_map. apply List.map_ext_in. intros [d row] H%list_elem_of_In%elem_of_map_to_list. cbn.
  by destruct (tk_devices _ Ht _ _ H) as [E _].
Qed.

Lemma load_exact t now : tables_ok t ->
  (fun e => (tokenHash e, pendingTokenHash e, revoked e)) <$> load (auth_load now t).1 ∅ = durable t.
Proof.
  intros Ht. apply map_eq. intros d. rewrite lookup_fmap, durable_lookup.
  assert (Hn : NoDup (map sd_deviceId (auth_load now t).1)).
  { rewrite loaded_rows, listed_ids by done. apply NoDup_fst_map_to_list. }
  destruct (devices t !! d) as [row|] eqn:Erow.
  - assert (Hd : sd_deviceId (deviceCredential row) = d) by (by eapply credential_row). rewrite <- Hd.
    rewrite load_in; [done|done|]. rewrite loaded_rows. by apply list_elem_of_fmap_2, (row_listed _ d).
  - rewrite load_other; [done|]. intros c. rewrite loaded_rows. intros (row & -> & Hrow)%list_elem_of_fmap.
    apply listed_row in Hrow; [|done]. cbn. congruence.
Qed.

Lemma no_later_first l x y : no_later l x y -> x ∈ l.
Proof. intros (i & j & Hi & _). by eapply list_elem_of_lookup_2. Qed.

Lemma ok_restart now s s' : act secretHash (A_restart now) s = Some s' -> auth_ok s -> auth_ok s'.
Proof.
  intros [= <-] Hok. set (t := (invitations_expire now (db s)).2).
  set (s1 := mkServer t (receipts s) (load (auth_load now t).1 ∅) (next_request s) ∅ [] [] [] [] false [] (trace s ++ [ERestart])).
  assert (Ht : tables_ok t) by (apply (tables_ok_step (AO_expire now)), ao_tables, Hok).
  assert (Hd : durable t = durable (db s)) by done.
  pose proof (book_known _ _ _ (ao_book _ Hok)) as Hk.
  assert (Hm : memory s1 = durable t) by (unfold memory; cbn [entries s1]; by apply load_exact).
  pose proof (ao_book _ Hok) as Hb. destruct Hok as [?????? Hcopy Hadm ? Hrev ??].
  change (auth_ok s1). split; rewrite ?Hm; try done; cbn [s1 db trace answers flight queue connections failed]; rewrite ?Hd.
  - intros _. constructor.
  - apply plain_book; [done|]. eapply book_calls; [|exact Hb]. apply sublist_nil_l.
  - by intros c ?%elem_of_nil.
  - intros d x Hx. rewrite plain_tokens by done. split; [by eapply Hk|by exists x].
  - intros n d h [(x & Hx & Hl)%Hadm|?]%in_snoc; [|done]. apply Hcopy in Hx as (_ & y & Hy & _). exists y. split; [done|].
    rewrite plain_tokens by done. pose proof (bk_current _ _ _ Hb d) as Hc. rewrite Hy in Hc. destruct Hc as [l Hl'].
    apply no_later_first in Hl. rewrite Hl' in *. by apply no_later_last.
  - by apply all_ok_snoc.
  - intros d k [(x & Hx & Hr)%Hrev|?]%in_snoc; [|done]. apply Hcopy in Hx as (_ & y & Hy & Hyr). exists y. auto.
  - by intros c ?%elem_of_nil.
  - by intros c k ?%elem_of_nil.
Qed.

Lemma fresh_spec h s : fresh h s = true -> h ∉ issued_hashes (trace s).
Proof. apply bool_decide_eq_true. Qed.

Lemma auth_ok_step a s s' : act secretHash a s = Some s' -> auth_ok s -> auth_ok s'.
Proof.
  intros Ha Hok. destruct a as [d secret en now busy|n now busy|args busy|at_ busy|o i w k busy| |aborts|now busy|now busy| |n|now].
  - injection Ha as <-. by apply ok_present.
  - by eapply ok_wake.
  - cbn in Ha. destruct (fresh _ s) eqn:Ef; cbn in Ha; [|done]. destruct (bool_decide _); [|done]. injection Ha as <-.
    apply ok_issued_call; try done. by apply fresh_spec.
  - injection Ha as <-. by apply ok_call.
  - cbn in Ha. destruct (intent_fits i w) eqn:Ei; cbn in Ha; [|done]. destruct w as [| | | |d h]; try (injection Ha as <-; by apply ok_call).
    destruct (fresh h s) eqn:Ef; [|done]. injection Ha as <-. apply ok_issued_call; try done. by apply fresh_spec.
  - cbn in Ha. destruct (queue s) as [|c rest] eqn:Eq; [done|]. destruct (failed s) eqn:Ef; [done|]. injection Ha as <-. by apply ok_handed.
  - cbn in Ha. destruct (flight s) as [|c rest] eqn:Efl; [done|]. destruct (failed s) eqn:Ef; [done|].
    destruct (if aborts then None else execute_call secretHash c s) as [[x s1]|] eqn:Ee; injection Ha as <-; [|by apply ok_aborted].
    destruct aborts; [done|]. by eapply ok_execute.
  - cbn in Ha. destruct (answers s) as [|[c x] rest] eqn:Ea; [done|]. injection Ha as <-. by apply ok_answered.
  - cbn in Ha. destruct (rejected s) as [|[c u] rest] eqn:Er; [done|]. injection Ha as <-. by apply ok_rejected_call, ok_rejected.
  - cbn in Ha. destruct (failed s); [done|]. injection Ha as <-. by apply ok_fail.
  - injection Ha as <-. by apply ok_closed.
  - by eapply ok_restart.
Qed.

Lemma newServer_ok : auth_ok newServer.
Proof.
  assert (Hd : durable no_tables = ∅) by apply fmap_empty. assert (Hm : memory newServer = ∅) by apply fmap_empty.
  split; rewrite ?Hm; cbn [newServer db trace answers flight queue connections receipts failed app];
    try (by intros; match goal with H : _ ∈ [] |- _ => apply elem_of_nil in H end).
  - apply no_tables_ok.
  - intros _. rewrite Hd. constructor.
  - done.
  - rewrite Hd. split; try (by intros; match goal with H : _ ∈ [] |- _ => apply elem_of_nil in H end); try done; intros; try apply NoDup_nil_2; match goal with H : (_, _) ∈ _ |- _ => by apply elem_of_nil in H end.
  - done.
  - done.
  - apply all_ok_nil.
Qed.

Lemma server_ok s : reachable secretHash s -> auth_ok s.
Proof.
  unfold reachable. intros Hr. remember newServer as s0. assert (Hok : auth_ok s0) by (subst; apply newServer_ok). clear Heqs0.
  induction Hr as [s|s1 s2 s3 [a Ha] _ IH]; [done|]. apply IH. by eapply auth_ok_step.
Qed.

End authenticator.
