(* ===== verification/AuthBooks.v ===== *)
(** * The calls a device has under way

    A device has at most one promotion and one write of its last use with the
    store, and its entry says which: [slots] of the entry are the [claims] of the
    calls that are outstanding.  A request that waits for a promotion waits for
    one that is. *)

From S2P Require Import Prelude Protocol Errors Operations StoreTables ReceiptStore AuthStore AuthProperties AuthDevices AuthInvariant.

(** The calls whose callers wait for an answer. *)

Definition outstanding (s : Server) : list StoreCall := map fst (rejected s) ++ map fst (answers s) ++ flight s ++ queue s.

(** What a call does for a device: [Some n], the promotion of request [n];
    [None], a write of its last use. *)

Definition claim (d : string) (c : StoreCall) : option (option nat) :=
  match c with
  | SC_promote n d' _ _ _ => if decide (d' = d) then Some (Some n) else None
  | SC_touch d' _ _ => if decide (d' = d) then Some None else None
  | _ => None
  end.

Definition claims (d : string) (l : list StoreCall) : list (option nat) := omap (claim d) l.

Definition slots (e : option Entry) : list (option nat) :=
  match e with
  | Some e => (if promoting e is Some n then [Some n] else []) ++ (if writing e then [None] else [])
  | None => []
  end.

(** The books balance but for the call [l] that is being answered. *)

Record books_ok (l : list StoreCall) (s : Server) : Prop := mkBooksOk {
  bo_claims : forall d, claims d (l ++ outstanding s) ≡ₚ slots (entries s !! d);
  bo_waiting : forall n rq, requests s !! n = Some rq -> is_Some (entries s !! rq_device rq);
}.

Lemma claims_perm d l k : l ≡ₚ k -> claims d l ≡ₚ claims d k.
Proof. apply omap_Permutation. Qed.

(** ** Moves *)

Lemma books_same l s s' : outstanding s' ≡ₚ outstanding s -> (forall d, slots (entries s' !! d) = slots (entries s !! d)) ->
  (forall d, is_Some (entries s !! d) -> is_Some (entries s' !! d)) ->
  (forall n rq, requests s' !! n = Some rq -> requests s !! n = Some rq \/ is_Some (entries s !! rq_device rq)) ->
  books_ok l s -> books_ok l s'.
Proof.
  intros Ho Hs He Hr [Hc Hw]. split.
  - intros d. rewrite Hs, <- Hc. apply claims_perm. by rewrite Ho.
  - intros n rq Hn. apply He. destruct (Hr n rq Hn) as [H|H]; [by eapply Hw|done].
Qed.

Lemma books_entry l d f s : (forall e, entries s !! d = Some e -> slots (Some (f e)) = slots (Some e)) -> books_ok l s -> books_ok l (update_entry d f s).
Proof.
  intros Hf. apply books_same; cbn [update_entry set_entries entries requests]; [done| | |by left].
  - intros k. rewrite lookup_alter. case_decide; [subst|done]. destruct (entries s !! k); [by apply Hf|done].
  - intros k Hk. rewrite lookup_alter. case_decide; [subst|done]. by apply fmap_is_Some.
Qed.

Lemma outstanding_call c busy s : outstanding (store_call c busy s) ≡ₚ c :: outstanding s.
Proof.
  unfold store_call, outstanding. destruct (_ || _); cbn.
  - rewrite map_app, <- app_assoc. cbn. by rewrite <- Permutation_middle.
  - rewrite !app_assoc. by rewrite (Permutation_app_comm _ [c]).
Qed.

Lemma call_entries c busy s : entries (store_call c busy s) = entries s /\ requests (store_call c busy s) = requests s.
Proof. unfold store_call. by destruct (_ || _). Qed.

(** A call that claims nothing, and one that was already written down. *)

Lemma books_call l c busy s : books_ok (c :: l) s -> books_ok l (store_call c busy s).
Proof.
  intros [Hc Hw]. destruct (call_entries c busy s) as [E1 E2]. split; rewrite ?E1, ?E2; [|done].
  intros d. rewrite <- Hc. apply claims_perm. rewrite outstanding_call. cbn. by rewrite <- Permutation_middle.
Qed.

Lemma books_add l c s : (forall d, claim d c = None) -> books_ok l s -> books_ok (c :: l) s.
Proof. intros Hn [Hc Hw]. split; [|done]. intros d. unfold claims. cbn. rewrite Hn. apply Hc. Qed.

Lemma books_drop l c s : (forall d, claim d c = None) -> books_ok (c :: l) s -> books_ok l s.
Proof. intros Hn [Hc Hw]. split; [|done]. intros d. specialize (Hc d). unfold claims in Hc. cbn in Hc. by rewrite Hn in Hc. Qed.

(** An entry takes a slot for a call that is about to be made. *)

Lemma books_take l c d f s o : is_Some (entries s !! d) -> claim d c = Some o -> (forall k, k <> d -> claim k c = None) ->
  (forall e, entries s !! d = Some e -> slots (Some (f e)) ≡ₚ o :: slots (Some e)) ->
  books_ok l s -> books_ok (c :: l) (update_entry d f s).
Proof.
  intros [e He] Hd Hne Hf [Hc Hw]. split.
  - intros k. cbn [update_entry set_entries entries]. rewrite lookup_alter. unfold claims. cbn. case_decide as E; [subst k|].
    + rewrite Hd, He. cbn [fmap option_fmap option_map]. rewrite (Hf _ He), <- He. apply Permutation_skip, Hc.
    + rewrite Hne by congruence. apply Hc.
  - intros n rq Hn. apply Hw in Hn. cbn [update_entry set_entries entries]. rewrite lookup_alter. case_decide; [by apply fmap_is_Some|done].
Qed.

(** A call that was answered gives its slot back. *)

Lemma books_give l c d f s o : claim d c = Some o -> (forall k, k <> d -> claim k c = None) ->
  (forall e, entries s !! d = Some e -> o ∈ slots (Some e) -> o :: slots (Some (f e)) ≡ₚ slots (Some e)) ->
  books_ok (c :: l) s -> is_Some (entries s !! d) /\ books_ok l (update_entry d f s).
Proof.
  intros Hd Hne Hf [Hc Hw]. pose proof (Hc d) as Hcd. unfold claims in Hcd. cbn in Hcd. rewrite Hd in Hcd.
  destruct (entries s !! d) as [e|] eqn:He; [|by apply Permutation_nil_r in Hcd].
  split; [done|]. assert (Ho : o ∈ slots (Some e)) by (rewrite <- Hcd; by left). split.
  - intros k. cbn [update_entry set_entries entries]. rewrite lookup_alter. case_decide as E; [subst k|].
    + rewrite He. cbn [fmap option_fmap option_map]. apply (Permutation_cons_inv (a := o)). rewrite (Hf e eq_refl Ho). exact Hcd.
    + specialize (Hc k). unfold claims in Hc. cbn in Hc. by rewrite Hne in Hc by congruence.
  - intros n rq Hn. apply Hw in Hn. cbn [update_entry set_entries entries]. rewrite lookup_alter. case_decide; [by apply fmap_is_Some|done].
Qed.

(** ** Operations *)

Lemma slot_held o e : o ∈ slots (Some e) -> match o with Some n => promoting e = Some n | None => writing e = true end.
Proof.
  cbn. rewrite elem_of_app. destruct (promoting e) as [m|], (writing e);
    rewrite ?list_elem_of_singleton, ?elem_of_nil; intros [H|H]; try done; subst o; done.
Qed.

Section authenticator.
Context (secretHash : string -> list Z).

Ltac quiet := let H := fresh in intros H; destruct H; split; done.

Lemma books_log l e s : books_ok l s -> books_ok l (log e s).
Proof. quiet. Qed.

Lemma books_connections l v s : books_ok l s -> books_ok l (set_connections v s).
Proof. quiet. Qed.

Lemma books_next l v s : books_ok l s -> books_ok l (set_next v s).
Proof. quiet. Qed.

Lemma books_forget l n s : books_ok l s -> books_ok l (set_requests (delete n (requests s)) s).
Proof. apply books_same; try done. cbn. intros m rq [_ Hm]%lookup_delete_Some. by left. Qed.

Lemma books_wait l n rq s : is_Some (entries s !! rq_device rq) -> books_ok l s -> books_ok l (set_requests (<[n := rq]> (requests s)) s).
Proof. intros He. apply books_same; try done. cbn. intros m rq' [[<- <-]|[_ Hm]]%lookup_insert_Some; auto. Qed.

Lemma claim_touch_other d at_ en k : k <> d -> claim k (SC_touch d at_ en) = None.
Proof. intros Hk. cbn. by rewrite decide_False. Qed.

Lemma claim_promote_other n d secret at_ en k : k <> d -> claim k (SC_promote n d secret at_ en) = None.
Proof. intros Hk. cbn. by rewrite decide_False. Qed.

Lemma books_write l d busy s : books_ok l s -> books_ok l (write d busy s).
Proof.
  intros Hb. unfold write. destruct (entries s !! d) as [e|] eqn:He; [|done]. destruct (writing e) eqn:Ew.
  - apply books_entry; [|done]. intros e' H. rewrite He in H. injection H as <-. cbn. by rewrite Ew.
  - destruct (lastUsedAtMs e) as [at_|]; [|done]. destruct (lastEntry e) as [en|]; [|done].
    apply books_call, (books_take _ _ _ _ _ None); [by eexists|cbn; by rewrite decide_True|by apply claim_touch_other| |done].
    intros e' H. rewrite He in H. injection H as <-. cbn. rewrite Ew, app_nil_r. by rewrite Permutation_app_comm.
Qed.

Lemma books_touch l d en now busy s : books_ok l s -> books_ok l (touch d en now busy s).
Proof.
  intros Hb. unfold touch. destruct (entries s !! d) as [e|]; [|done]. destruct (revoked e); [done|]. cbn zeta.
  match goal with |- books_ok l (if ?b then _ else _) => destruct b end; [apply books_write|]; by apply books_entry.
Qed.

Lemma books_admit l n d secret en now busy s : books_ok l s -> books_ok l (admitRequest secretHash n d secret en now busy s).
Proof. intros Hb. unfold admitRequest. cbn zeta. by apply books_connections, books_touch, books_log. Qed.

Lemma books_confirmed l n v secret en now busy s : books_ok l s -> books_ok l (confirmed secretHash n v secret en now busy s).
Proof.
  intros Hb%(books_forget _ n). unfold confirmed. cbn zeta. destruct v; try by apply books_log. unfold admit_again.
  destruct (verify _ _ _ _) as [d [c|]| |]; try by apply books_log. by apply books_admit.
Qed.

Lemma books_promote l n d secret en now busy s : books_ok l s -> books_ok l (promote secretHash n d secret en now busy s).
Proof.
  intros Hb. unfold promote. destruct (entries s !! d) as [e|] eqn:He; [|by apply books_confirmed].
  destruct (promoting e) as [owner|] eqn:Ep; [apply books_wait; [by eexists|done]|].
  destruct (check e (secretHash secret)); try by apply books_confirmed.
  apply books_call, (books_take _ _ _ _ _ (Some n)); [by eexists|cbn; by rewrite decide_True|by apply claim_promote_other| |by apply books_forget].
  intros e' H. cbn in H. rewrite He in H. injection H as <-. cbn. by rewrite Ep.
Qed.

Lemma books_present l d secret en now busy s : books_ok l s -> books_ok l (present secretHash d secret en now busy s).
Proof.
  intros Hb%(books_next _ (S (next_request s))). unfold present. cbn zeta.
  destruct (verify _ _ _ _) as [d' [c|]| |]; try (by apply books_log).
  - by apply books_promote.
  - by apply books_admit.
Qed.

Lemma books_end n d secret at_ en v now busy l s : books_ok (SC_promote n d secret at_ en :: l) s ->
  books_ok l (confirmed secretHash n v secret en now busy (end_promotion d s)).
Proof.
  intros Hb. apply books_confirmed. apply (books_give _ _ d (set_promoting None) _ (Some n)) in Hb as [_ Hb]; [done|..].
  - cbn. by rewrite decide_True.
  - by apply claim_promote_other.
  - intros e _ Hin%slot_held. cbn. by rewrite Hin.
Qed.

Lemma books_promotion_answered n d secret at_ en a now busy l s : books_ok (SC_promote n d secret at_ en :: l) s ->
  books_ok l (promotion_answered secretHash n d secret at_ en a now busy s).
Proof.
  intros Hb. unfold promotion_answered. cbn zeta. destruct a as [p [c|]| | | |[]]; eapply books_end; try exact Hb.
  - destruct p; [apply books_entry; [done|]|]; by apply books_entry.
  - by apply books_entry.
Qed.

Lemma books_touch_answered d at_ en a busy l s : books_ok (SC_touch d at_ en :: l) s -> books_ok l (touch_answered d at_ en a busy s).
Proof.
  intros Hb. unfold touch_answered. cbn zeta. match goal with |- context [entries ?s' !! d] => set (s1 := s') end.
  assert (H1 : books_ok (SC_touch d at_ en :: l) s1).
  { subst s1. destruct a; try done. apply books_entry; [|done]. intros e _. by destruct (persistedAtMs e) as [p|]; [destruct (_ <=? _)|]. }
  apply (books_give _ _ d (set_writing false false) _ None) in H1 as [[e He] H1].
  - rewrite He. destruct (dirty e); [by apply books_write|done].
  - cbn. by rewrite decide_True.
  - by apply claim_touch_other.
  - intros e _ Hin%slot_held. cbn. rewrite Hin, app_nil_r. by rewrite Permutation_app_comm.
Qed.

Lemma books_redeem_answered args a l s : (forall d, a = SA_redeem (Some d) -> entries s !! d = None) ->
  books_ok l s -> books_ok l (redeem_answered args a s).
Proof.
  intros Ha [Hc Hw]. destruct a as [|[d|]| | |]; try done. specialize (Ha d eq_refl). split; cbn [redeem_answered set_entries entries requests].
  - intros k. rewrite lookup_insert. case_decide; [subst k; specialize (Hc d); by rewrite Ha in Hc|apply Hc].
  - intros n rq Hn. rewrite lookup_insert. case_decide; [done|by eapply Hw].
Qed.

Lemma books_write_answered i w k a l s : books_ok l s -> books_ok l (write_answered i w k a s).
Proof.
  intros Hb. unfold write_answered. destruct i as [d| |]; [|destruct w|]; try done.
  - destruct a as [| |[]| |]; try done; apply books_connections, books_log; by apply books_entry.
  - destruct a as [| |[]| |]; try done. by apply books_entry.
Qed.

Lemma books_answered c a now busy l s : (forall args d, c = SC_redeem args -> a = SA_redeem (Some d) -> entries s !! d = None) ->
  books_ok (c :: l) s -> books_ok l (answered secretHash c a now busy s).
Proof.
  intros Ha Hb. destruct c as [n d secret at_ en|d at_ en|args|at_|o i w k]; cbn [answered].
  - by apply books_promotion_answered.
  - by apply books_touch_answered.
  - apply books_redeem_answered; [|by apply (books_drop _ (SC_redeem args))]. intros d E. by apply (Ha args).
  - by apply (books_drop _ (SC_expire at_)).
  - apply books_write_answered. by apply (books_drop _ (SC_write o i w k)).
Qed.

Lemma books_moved l s s' : entries s' = entries s -> requests s' = requests s -> outstanding s ≡ₚ l ++ outstanding s' ->
  books_ok [] s -> books_ok l s'.
Proof.
  intros He Hr Ho [Hc Hw]. split; rewrite ?He, ?Hr; [|done]. intros d. rewrite <- Hc. apply claims_perm. cbn. by rewrite Ho.
Qed.

Lemma execute_moved c s a s' : execute_call secretHash c s = Some (a, s') ->
  (entries s', requests s', rejected s', queue s', answers s') = (entries s, requests s, rejected s, queue s, answers s).
Proof.
  destruct c as [n d secret at_ en|d at_ en|args|at_|o i w k]; cbn [execute_call].
  - destruct (devices_promote _ _ _ _ _) as [[[] c] t]; by intros [= <- <-].
  - by intros [= <- <-].
  - destruct (redeem _ _) as [[[d|] t]|]; [..|done]; by intros [= <- <-].
  - by intros [= <- <-].
  - destruct (receipts s !! o); [by intros [= <- <-]|]. destruct (authWrites _ _) as [[[] t]|]; [..|done]; by intros [= <- <-].
Qed.

Lemma load_idle l d e : load l ∅ !! d = Some e -> promoting e = None /\ writing e = false.
Proof.
  unfold load. cut (forall m : gmap string Entry, (forall d e, m !! d = Some e -> promoting e = None /\ writing e = false) ->
    forall d e, foldl (fun m c => <[sd_deviceId c := entry_of c]> m) m l !! d = Some e -> promoting e = None /\ writing e = false).
  { intros H. by apply H. }
  induction l as [|c l IH]; intros m Hm; [done|]. apply IH. intros k x [[_ <-]|[_ Hx]]%lookup_insert_Some; [done|by eapply Hm].
Qed.

Lemma books_ok_step a s s' : auth_ok s -> act secretHash a s = Some s' -> books_ok [] s -> books_ok [] s'.
Proof.
  intros Hok Ha Hb. destruct a as [d secret en now busy|n now busy|args busy|at_ busy|o i w k busy| |aborts|now busy|now busy| |n|now].
  - injection Ha as <-. by apply books_present.
  - unfold act, wake in Ha. destruct (requests s !! n) as [[d secret en owner]|]; [|done]. destruct (entries s !! d) as [e|]; [|done].
    destruct (bool_decide _); [done|]. injection Ha as <-. by apply books_promote.
  - cbn in Ha. destruct (_ && _); [|done]. injection Ha as <-. by apply books_call, books_add, books_log.
  - injection Ha as <-. by apply books_call, books_add.
  - cbn in Ha. destruct (negb _); [done|]. assert (H : books_ok [SC_write o i w k] s) by (by apply books_add).
    destruct w; try (injection Ha as <-; by apply books_call). destruct (fresh _ s); [|done]. injection Ha as <-.
    by apply books_call, books_log.
  - cbn in Ha. destruct (queue s) as [|c rest] eqn:Eq; [done|]. destruct (failed s); [done|]. injection Ha as <-.
    apply (books_moved [] s); try done. unfold outstanding. cbn. rewrite Eq. by rewrite <- ?app_assoc.
  - cbn in Ha. destruct (flight s) as [|c rest] eqn:Efl; [done|]. destruct (failed s); [done|].
    destruct (if aborts then None else execute_call secretHash c s) as [[x s1]|] eqn:Ee; injection Ha as <-.
    + destruct aborts; [done|]. apply execute_moved in Ee. injection Ee as E1 E2 E3 E4 E5.
      apply (books_moved [] s); try done. unfold outstanding. cbn. rewrite E3, E4, E5, Efl, map_app. cbn. by rewrite <- ?app_assoc.
    + apply (books_moved [] s); try done. unfold outstanding. cbn. rewrite Efl, map_app. cbn. by rewrite <- ?app_assoc.
  - cbn in Ha. destruct (answers s) as [|[c x] rest] eqn:Ea; [done|]. injection Ha as <-. apply books_answered.
    + intros args d -> ->. destruct (ok_head _ _ _ Hok Ea) as [[Hd _] _]. cbn. unfold memory in Hd. rewrite lookup_fmap in Hd.
      by apply fmap_None in Hd.
    + apply (books_moved [c] s); try done. unfold outstanding. cbn. rewrite Ea. cbn. by rewrite <- Permutation_middle.
  - cbn in Ha. destruct (rejected s) as [|[c u] rest] eqn:Er; [done|]. injection Ha as <-. apply books_answered; [done|].
    apply (books_moved [c] s); try done. unfold outstanding. cbn. by rewrite Er.
  - cbn in Ha. destruct (failed s); [done|]. injection Ha as <-. apply (books_moved [] s); try done. unfold outstanding. cbn.
    rewrite !map_app, !List.map_map, !app_nil_r. cbn. by rewrite ?List.map_id, <- ?app_assoc.
  - injection Ha as <-. by apply books_connections.
  - injection Ha as <-. split; [|done]. intros d. cbn [entries]. change (claims d ([] ++ _)) with (@nil (option nat)).
    destruct (load _ _ !! d) as [e|] eqn:He; [|done]. apply load_idle in He as [Hp Hw]. cbn. by rewrite Hp, Hw.
Qed.

Lemma server_books : books_ok [] newServer.
Proof. split; [|done]. intros d. done. Qed.

Lemma reachable_books s : reachable secretHash s -> books_ok [] s.
Proof.
  unfold reachable. intros Hr. remember newServer as s0. assert (Hok : auth_ok s0 /\ books_ok [] s0) by (subst; split; [apply newServer_ok|apply server_books]).
  clear Heqs0. induction Hr as [s|s1 s2 s3 [a Ha] _ IH]; [by destruct Hok|]. destruct Hok as [Hok Hb]. apply IH.
  split; [by eapply auth_ok_step|by eapply books_ok_step].
Qed.

End authenticator.
