(* ===== verification/AuthGuarantees.v ===== *)
(** * What device authorization promises

    The theorems about one server and its restarts: tokens are admitted in the
    order in which the store made them current, a revocation is final, the copy
    in memory is the store's whenever no answer is on its way, and what [verify]
    says tells nothing but the state of the device to the holder of its secret. *)

From S2P Require Import Prelude Protocol Errors Operations StoreTables ReceiptStore AuthStore AuthProperties AuthDevices AuthInvariant AuthBooks.

(** ** A day of one device

    Paired, rotated, restarted and revoked; the examples below are taken from it. *)

Definition byte_hash (secret : string) : list Z := map (fun c => Z.of_N (Ascii.N_of_ascii c)) (String.list_ascii_of_string secret).

Definition served (now : Z) : list Action := [A_hand; A_execute false; A_answer now false].

Definition day : list Action :=
  A_write "op-1" (I_other "auth.invite.create") (AW_invite_create "invite" [1] 0 1000 None 4000) None false :: served 1
  ++ A_redeem (mkRedeem "invite" [1] 10 "phone" "my phone" (byte_hash "first")) false :: served 11
  ++ A_present "phone" "first" entry_ssh 20 false :: served 21
  ++ A_write "op-2" I_rotate (AW_device_rotate "phone" (byte_hash "second")) (Some 0%nat) false :: served 30
  ++ A_present "phone" "second" entry_ssh 40 false :: served 41
  ++ [A_restart 50; A_present "phone" "first" entry_ssh 60 false; A_present "phone" "second" entry_tsnet 61 false]
  ++ A_write "op-3" (I_revoke "phone") (AW_device_revoke "phone" 70) (Some 3%nat) false :: served 70
  ++ served 71.

Definition at_step (k : nat) : Server := default newServer (play byte_hash (take k day) newServer).

Lemma played_reachable secretHash l s s' : play secretHash l s = Some s' -> reachable secretHash s -> reachable secretHash s'.
Proof.
  revert s. induction l as [|a l IH]; intros s H Hs; [by injection H as <-|]. cbn in H. destruct (act secretHash a s) as [s1|] eqn:Ea; [|done].
  apply (IH s1 H). eapply rtc_r; [exact Hs|]. by exists a.
Qed.

Lemma played_default secretHash l s : reachable secretHash s -> reachable secretHash (default s (play secretHash l s)).
Proof. intros Hs. destruct (play secretHash l s) as [s'|] eqn:E; [by eapply played_reachable|done]. Qed.

Lemma at_step_reachable k : reachable byte_hash (at_step k).
Proof. apply played_default, rtc_refl. Qed.

Section authenticator.
Context (secretHash : string -> list Z).

Lemma admitted_split s a n d h b : reachable secretHash s -> trace s = a ++ EAdmitted n d h :: b ->
  admitted_ok a (EAdmitted n d h).
Proof. intros Hs E. exact (ao_order _ (server_ok _ _ Hs) _ _ _ E). Qed.

Lemma current_token d h tr : h ∈ tokens d tr -> ECurrent d h ∈ tr.
Proof.
  intros (e & He & Hh)%list_elem_of_omap. destruct e; try done. destruct (seqb _ _) eqn:E; [|done]. apply String.eqb_eq in E.
  by simplify_eq.
Qed.

Lemma prefix_tokens_nodup s a b d : reachable secretHash s -> trace s = a ++ b -> NoDup (tokens d a).
Proof.
  intros Hs E. pose proof (bk_nodup _ _ _ (ao_book _ (server_ok _ _ Hs)) d) as Hn. rewrite E, tokens_app in Hn.
  by apply NoDup_app in Hn as [? _].
Qed.

(** C8: a device's tokens are admitted in the order in which the store made them
    current, across promotions, lost answers and restarts of the server: a token
    is admitted only after the store committed it as the device's current one,
    and once another token of the device was admitted after it, it is never
    admitted again. *)
Theorem tokens_never_return s a b c n1 n2 d h h' :
  reachable secretHash s -> trace s = a ++ EAdmitted n1 d h :: b ++ EAdmitted n2 d h' :: c ->
  ECurrent d h ∈ a /\ ECurrent d h' ∈ a ++ EAdmitted n1 d h :: b /\ (h <> h' -> forall n, EAdmitted n d h ∉ c).
Proof.
  intros Hs E. assert (E2 : trace s = (a ++ EAdmitted n1 d h :: b) ++ EAdmitted n2 d h' :: c) by (by rewrite <- app_assoc).
  destruct (admitted_split _ _ _ _ _ _ Hs E) as (H1 & _). destruct (admitted_split _ _ _ _ _ _ Hs E2) as (H2 & Hle & _).
  split_and!; [by apply current_token..|]. intros Hne n (c1 & c2 & ->)%list_elem_of_split.
  set (p := a ++ EAdmitted n1 d h :: b) in *.
  assert (E3 : trace s = (p ++ EAdmitted n2 d h' :: c1) ++ EAdmitted n d h :: c2) by (rewrite E2; by rewrite <- app_assoc).
  destruct (admitted_split _ _ _ _ _ _ Hs E3) as (_ & Hle3 & _).
  assert (Hb : no_later (tokens d (p ++ EAdmitted n2 d h' :: c1)) h' h) by (eapply Hle3; apply elem_of_app; right; by left).
  assert (Hf : no_later (tokens d (p ++ EAdmitted n2 d h' :: c1)) h h').
  { rewrite tokens_app. apply no_later_app. eapply Hle. apply elem_of_app. right. by left. }
  apply Hne. eapply no_later_antisym; [|exact Hf|exact Hb]. by eapply prefix_tokens_nodup.
Qed.

(** C9: a revocation is final: after it was answered no request of the device is
    admitted any more, whatever the store answers later and however often the
    server restarts, and every connection the device still has is closing, but
    that of the request that carried the revocation. *)
Theorem revocation_final s d k : reachable secretHash s -> ERevoked d k ∈ trace s ->
  (forall a b n h, trace s = a ++ ERevoked d k :: b -> EAdmitted n d h ∉ b)
  /\ (forall c, c ∈ connections s -> cn_device c = d -> cn_closing c = true \/ ERevoked d (Some (cn_request c)) ∈ trace s)
  /\ forall e, entries s !! d = Some e -> revoked e = true.
Proof.
  intros Hs Hr. pose proof (server_ok _ _ Hs) as Hok. split_and!.
  - intros a b n h E (b1 & b2 & ->)%list_elem_of_split.
    assert (E2 : trace s = (a ++ ERevoked d k :: b1) ++ EAdmitted n d h :: b2) by (rewrite E; by rewrite <- app_assoc).
    destruct (admitted_split _ _ _ _ _ _ Hs E2) as (_ & _ & Hn). apply (Hn k). apply elem_of_app. right. by left.
  - intros c Hc <-. by apply (ao_closed _ Hok c k).
  - intros e He. destruct (ao_revoked _ Hok d k Hr) as (x & Hx & Hxr). rewrite (memory_lookup _ _ _ He) in Hx. by injection Hx as <-.
Qed.

(** C10: the copy of the credentials in memory is the store's: whenever no answer
    of a working store is on its way, every device of the store is known with
    its current token, its pending token and its revocation, and no other
    device is. *)
Theorem copy_exact s : reachable secretHash s -> failed s = false -> answers s = [] -> memory s = durable (db s).
Proof.
  intros Hs Hf Ha. pose proof (ao_synced _ (server_ok _ _ Hs) Hf) as H. rewrite Ha in H. by inversion H.
Qed.

(** What [verify] answers, on every branch: only the holder of the current
    or the pending token of a device learns anything, the same answer being
    given for an unknown device and for a wrong secret; a revoked device's
    holder is told so; the current token is admitted at once unless the copy may
    be stale, and the pending token only after the store confirmed it. *)
Theorem verify_exact m d secret : secretHash secret <> DUMMY_HASH secretHash ->
  verify secretHash m d secret =
  match m !! d with
  | Some e =>
     if decide (tokenHash e = secretHash secret \/ pendingTokenHash e = Some (secretHash secret)) then
       if revoked e then V_revoked
       else V_device d (if decide (tokenHash e = secretHash secret /\ uncertain e = false) then None else Some (secretHash secret))
     else V_unauthenticated
  | None => V_unauthenticated
  end.
Proof.
  intros Hd. unfold verify, sameHash. cbn zeta. destruct (m !! d) as [e|]; [|done].
  assert (Hp : default (DUMMY_HASH secretHash) (pendingTokenHash e) = secretHash secret <-> pendingTokenHash e = Some (secretHash secret))
    by (destruct (pendingTokenHash e); cbn; split; congruence).
  destruct (revoked e), (uncertain e); repeat case_bool_decide; repeat case_decide; cbn; try done; exfalso; intuition congruence.
Qed.

(** ** The calls of a device *)

(** C12: a device has at most one promotion and one write of its last use with
    the store at a time: the calls outstanding for it are, in some order, those
    its entry says.  A request that waits for a promotion either runs on now or
    waits for one that the store still has to answer. *)
Theorem calls_settle s n rq now busy : reachable secretHash s ->
  (forall d, claims d (outstanding s) ≡ₚ slots (entries s !! d))
  /\ (requests s !! n = Some rq ->
      (exists s', wake secretHash n now busy s = Some s')
      \/ exists secret at_ en, SC_promote (rq_owner rq) (rq_device rq) secret at_ en ∈ outstanding s).
Proof.
  intros Hs. destruct (reachable_books _ _ Hs) as [Hc Hw]. split; [exact Hc|]. intros Hn. destruct (Hw _ _ Hn) as [e He].
  unfold wake. rewrite Hn. destruct rq as [d secret en owner]. cbn [rq_device rq_owner] in *. rewrite He. case_bool_decide as Ep; [right|left; by eexists].
  assert (H : Some owner ∈ claims d (outstanding s)) by (rewrite (Hc d), He; cbn [slots]; rewrite Ep; by left).
  unfold claims in H. apply list_elem_of_omap in H as (c & Hin & Hcl). destruct c as [m d' secret' at_ en'|d' at_ en'| | |]; cbn in Hcl; try done; case_decide; simplify_eq.
  by exists secret', at_, en'.
Qed.

(** ** The first use of a rotated token *)

Lemma verify_current m d secret e : m !! d = Some e -> tokenHash e = secretHash secret -> revoked e = false -> uncertain e = false ->
  verify secretHash m d secret = V_device d None.
Proof.
  intros He Ht Hr Hu. unfold verify. cbn zeta. rewrite He, Ht, Hr, Hu. unfold sameHash. by rewrite bool_decide_true.
Qed.

Lemma touch_db d entry now busy s : db (touch d entry now busy s) = db s.
Proof. unfold touch, write, store_call, update_entry. repeat case_match; reflexivity. Qed.

Lemma admitted_current s n d secret en now busy e : entries s !! d = Some e -> tokenHash e = secretHash secret -> revoked e = false ->
  uncertain e = false ->
  let s' := confirmed secretHash n (C_device d) secret en now busy s in
  trace s' = trace s ++ [EAdmitted n d (secretHash secret)] /\ db s' = db s /\ memory s' = memory s.
Proof.
  intros He Ht Hr Hu. cbn zeta. unfold confirmed, admit_again. cbn zeta. rewrite (verify_current _ d secret e) by done.
  unfold admitRequest. cbn [trace db set_connections]. rewrite (proj2 (touch_same _ _ _ _ _)), touch_db. split_and!; [done|done|].
  change (memory (set_connections ?c ?x)) with (memory x). by rewrite (proj1 (touch_same _ _ _ _ _)).
Qed.

Lemma pending_unconfirmed s d row h : auth_ok s -> devices (db s) !! d = Some row -> dv_pendingTokenHash row = Some h ->
  dv_tokenHash row <> h /\ dv_revokedAt row = None.
Proof.
  intros Hok Hrow Hp. pose proof (durable_lookup (db s) d) as Hl. rewrite Hrow in Hl. cbn in Hl. split.
  - intros E. destruct (bk_pending _ _ _ (ao_book _ Hok) d _ h Hl Hp) as [Hn _]. apply Hn. rewrite <- E.
    exact (book_known _ _ _ (ao_book _ Hok) d _ Hl).
  - destruct (dv_revokedAt row) eqn:Er; [|done]. apply (tk_devices _ (ao_tables _ Hok)) in Hrow as [_ H].
    rewrite H in Hp by (by rewrite Er). done.
Qed.

Lemma idle_device s d row : reachable secretHash s -> failed s = false -> outstanding s = [] -> devices (db s) !! d = Some row ->
  exists e, entries s !! d = Some e /\ tokenHash e = dv_tokenHash row /\ pendingTokenHash e = dv_pendingTokenHash row
    /\ revoked e = bool_decide (is_Some (dv_revokedAt row)) /\ promoting e = None.
Proof.
  intros Hs Hf Ho Hrow. unfold outstanding in Ho. apply app_eq_nil in Ho as [Hr Ho]. apply app_eq_nil in Ho as [Ha Ho].
  apply map_eq_nil in Ha. pose proof (ao_synced _ (server_ok _ _ Hs) Hf) as H. rewrite Ha in H.
  assert (Hm : memory s = durable (db s)) by (by inversion H). clear H.
  assert (Hd : memory s !! d = Some (row_credential row)) by (by rewrite Hm, durable_lookup, Hrow).
  unfold memory in Hd. rewrite lookup_fmap in Hd. apply fmap_Some in Hd as (e & He & Hc). exists e. unfold row_credential in Hc.
  injection Hc as H1 H2 H3. split_and!; try done.
  destruct (promoting e) as [n|] eqn:Ep; [|done]. pose proof (bo_claims _ _ (reachable_books _ _ Hs) d) as Hc.
  unfold outstanding in Hc. rewrite Hr, Ha, Ho, He in Hc. cbn in Hc. rewrite Ep in Hc. by apply Permutation_nil_l in Hc.
Qed.

(** C11: the first use of a rotated token completes the rotation: with a working
    store ([failed s = false]) and no other call of the server under way
    ([outstanding s = []]), a request that presents a device's pending token is
    handed to the store, which makes that token the device's current one, with no
    pending token left and the use recorded; the answer puts the same credential
    in memory and admits the request.  Nothing else happens on the way. *)
Theorem rotated_token_admitted s d row secret en now now' busy :
  reachable secretHash s -> failed s = false -> outstanding s = [] ->
  devices (db s) !! d = Some row -> dv_pendingTokenHash row = Some (secretHash secret) ->
  exists s', play secretHash [A_present d secret en now false; A_hand; A_execute false; A_answer now' busy] s = Some s'
    /\ trace s' = trace s ++ [ECurrent d (secretHash secret); EAdmitted (next_request s) d (secretHash secret)]
    /\ devices (db s') = <[d := set_use now en (set_token (secretHash secret) None row)]> (devices (db s))
    /\ memory s' = <[d := (secretHash secret, None, false)]> (memory s).
Proof.
  intros Hs Hf Ho Hrow Hp. destruct (pending_unconfirmed s d row _ (server_ok _ _ Hs) Hrow Hp) as [Hne Hrev].
  destruct (idle_device s d row Hs Hf Ho Hrow) as (e & He & Ht & Hpe & Hr & Hpr).
  assert (Hlists : queue s = [] /\ flight s = [] /\ answers s = []).
  { unfold outstanding in Ho. apply app_eq_nil in Ho as [_ Ho]. apply app_eq_nil in Ho as [Ha Ho]. apply app_eq_nil in Ho as [? ?].
    by apply map_eq_nil in Ha. }
  destruct Hlists as (Hq & Hfl & Ha). set (h := secretHash secret) in *. set (n := next_request s).
  rewrite Hrev in Hr. cbn in Hr.
  assert (H1 : present secretHash d secret en now false s =
      store_call (SC_promote n d secret now en) false
        (update_entry d (set_promoting (Some n)) (set_requests (delete n (requests s)) (set_next (S n) s)))).
  { unfold present. cbn zeta. unfold verify. cbn zeta. cbn [entries set_next]. rewrite He, Ht, Hpe, Hp, Hr. cbn [default].
    fold h. unfold sameHash. rewrite bool_decide_false, bool_decide_true by done. cbn [andb negb]. rewrite orb_true_r.
    unfold promote. cbn [entries set_next]. rewrite He, Hpr. unfold check, sameHash. fold h.
    rewrite Ht, Hpe, Hp, Hr, bool_decide_false, bool_decide_true by done. done. }
  cbn [play act]. rewrite H1. unfold store_call. cbn [failed update_entry set_entries set_requests set_next orb]. rewrite Hf. cbn. rewrite Hq. cbn.
  rewrite Hf, Hfl. cbn. rewrite Hf. cbn. unfold devices_promote. rewrite Hrow. unfold promotable. rewrite Hp, Hrev. fold h.
  rewrite bool_decide_true by done. cbn. rewrite Ha. cbn. eexists. split; [done|].
  rewrite !lookup_alter, !decide_True, He by done. cbn [fmap option_fmap option_map].
  match goal with |- context [check ?x _] => set (e1 := x) end.
  assert (Hk : check e1 (secretHash secret) = k_device).
  { unfold check, sameHash. cbn. rewrite bool_decide_true by done. cbn. by rewrite Hr, Hrev. }
  rewrite Hk. match goal with |- context [confirmed _ _ _ _ _ _ _ ?x] => set (s1 := x) end.
  change (answer d k_device) with (C_device d).
  destruct (admitted_current s1 n d secret en now' busy (set_promoting None e1)) as (-> & -> & ->);
    [cbn; rewrite !lookup_alter, !decide_True, He by done; reflexivity|reflexivity|cbn; by rewrite Hr, Hrev|reflexivity|].
  split_and!; [unfold s1; cbn; by rewrite <- (assoc_L (++))|unfold s1; cbn; done|].
  apply map_eq. intros k. unfold memory, s1. cbn. rewrite lookup_fmap. destruct (decide (k = d)) as [->|Hk'].
  - rewrite !lookup_alter, !decide_True, lookup_insert, decide_True, He by done. cbn. by rewrite Hr, Hrev.
  - by rewrite !lookup_alter_ne, lookup_insert_ne, lookup_fmap by done.
Qed.

End authenticator.

(** ** The theorems on the day of the device *)

Lemma tokens_never_return_witness :
  ECurrent "phone" (byte_hash "second") ∈ take 5 (trace (at_step 30))
  /\ forall n, EAdmitted n "phone" (byte_hash "first") ∉ drop 6 (trace (at_step 30)).
Proof.
  destruct (tokens_never_return byte_hash (at_step 30) (take 2 (trace (at_step 30))) (take 2 (drop 3 (trace (at_step 30))))
              (drop 6 (trace (at_step 30))) 0 1 "phone" (byte_hash "first") (byte_hash "second")) as (_ & H & Hn).
  - apply at_step_reachable.
  - vm_compute. reflexivity.
  - split; [exact H|apply Hn]. discriminate.
Defined.

Lemma revocation_final_witness :
  ERevoked "phone" (Some 3%nat) ∈ trace (at_step 30)
  /\ forall e, entries (at_step 30) !! "phone" = Some e -> revoked e = true.
Proof.
  assert (H : ERevoked "phone" (Some 3%nat) ∈ trace (at_step 30))
    by (apply (list_elem_of_lookup_2 _ 9); vm_compute; reflexivity).
  split; [exact H|]. apply (revocation_final byte_hash (at_step 30) "phone" (Some 3%nat) (at_step_reachable 30) H).
Defined.

Lemma copy_exact_witness :
  memory (at_step 16) = durable (db (at_step 16))
  /\ memory (at_step 16) !! "phone" = Some (byte_hash "first", Some (byte_hash "second"), false).
Proof.
  split; [apply (copy_exact byte_hash); [apply at_step_reachable|vm_compute; reflexivity|vm_compute; reflexivity]|vm_compute; reflexivity].
Defined.

Lemma verify_exact_witness :
  verify byte_hash (entries (at_step 16)) "phone" "second" = V_device "phone" (Some (byte_hash "second"))
  /\ verify byte_hash (entries (at_step 16)) "tablet" "second" = V_unauthenticated.
Proof.
  split; (rewrite (verify_exact byte_hash); [vm_compute; reflexivity|discriminate]).
Defined.

Definition crowd : Server :=
  default (at_step 16) (play byte_hash [A_present "phone" "second" entry_ssh 40 false; A_present "phone" "second" entry_ssh 41 false] (at_step 16)).

Lemma crowd_reachable : reachable byte_hash crowd.
Proof. apply played_default, at_step_reachable. Qed.

Lemma calls_settle_witness : exists rq, requests crowd !! 2%nat = Some rq /\ wake byte_hash 2 50 false crowd = None
  /\ exists secret at_ en, SC_promote (rq_owner rq) (rq_device rq) secret at_ en ∈ outstanding crowd.
Proof.
  eexists. split; [vm_compute; reflexivity|]. split; [vm_compute; reflexivity|].
  destruct (proj2 (calls_settle byte_hash crowd 2 (mkRequest "phone" "second" entry_ssh 1) 50 false crowd_reachable)) as [[s Hs]|H];
    [vm_compute; reflexivity| |exact H]. vm_compute in Hs. discriminate.
Defined.

Lemma rotated_token_admitted_witness :
  exists s', play byte_hash [A_present "phone" "second" entry_ssh 40 false; A_hand; A_execute false; A_answer 41 false] (at_step 16) = Some s'
    /\ trace s' = trace (at_step 16) ++ [ECurrent "phone" (byte_hash "second"); EAdmitted 1 "phone" (byte_hash "second")]
    /\ memory s' = <["phone" := (byte_hash "second", None, false)]> (memory (at_step 16)).
Proof.
  destruct (devices (db (at_step 16)) !! "phone") as [row|] eqn:Hrow; [|vm_compute in Hrow; discriminate].
  destruct (rotated_token_admitted byte_hash (at_step 16) "phone" row "second" entry_ssh 40 41 false) as (s' & H1 & H2 & _ & H3);
    [apply at_step_reachable|vm_compute; reflexivity|vm_compute; reflexivity|exact Hrow| |].
  - vm_compute in Hrow. injection Hrow as <-. vm_compute. reflexivity.
  - exists s'. split; [exact H1|]. split; [exact H2|exact H3].
Defined.
