(* ===== verification/BusinessTables.v ===== *)
(** * The business records of the store (apps/server/src/store/sql/business-events.ts)

    The tables that business records are read from, by their primary keys, and
    the projection of a record out of them: [projectBusinessRecord] with
    [findRepo], [toTask], [toTab], [toRunRecord] and the reads of the two
    configurations.  A text column holding JSON is what it parses to, [None]
    when it does not fit its schema, which makes the projection throw. *)

From S2P Require Import Prelude Json Protocol Operations JsMap BusinessMirror AuthStore.

(** ** Rows (store/migrations/001-initial.ts, 007-entry-service.ts) *)

Record RepoRow := mkRepoRow {
  rp_revision : Z; rp_display_name : string; rp_path : string; rp_main_branch : option string; rp_registered_at : Z;
}.

Record TaskRow := mkTaskRow {
  ta_revision : Z; ta_title : string; ta_slug : string; ta_archived : bool; ta_created_at : Z;
}.

Record WorkspaceRow := mkWorkspaceRow { ws_task : string; ws_revision : Z; ws_entry_path : string }.

Inductive MountSource := src_checkout | src_worktree.

#[export] Instance MountSource_eq : EqDecision MountSource.
Proof. solve_decision. Defined.

Record MountRow := mkMountRow {
  mt_rowid : Z; mt_id : string; mt_workspace : string; mt_name : string; mt_source : MountSource; mt_repo : string; mt_path : string;
  mt_entry_path : option string; mt_state : string; mt_branch : option string; mt_base_commit : option string;
  mt_error : option (option json); mt_created_at : Z;
}.

Record TabRow := mkTabRow {
  tb_task : string; tb_revision : Z; tb_name : string; tb_recipe : option json; tb_cwd : option json; tb_created_at : Z;
  tb_latest : option Z;
}.

Record RunRow := mkRunRow {
  rn_ref : RunRef; rn_tab : option string; rn_lifecycle : BusinessMirror.RunLifecycle; rn_started_at : Z; rn_rest : option json;
}.

Record OperationKey := mkOperationKey { ok_server : string; ok_principal : string; ok_operation : string }.

#[export] Instance OperationKey_eq : EqDecision OperationKey.
Proof. solve_decision. Defined.

#[export] Instance OperationKey_countable : Countable OperationKey.
Proof.
  apply (inj_countable' (fun k => (ok_server k, ok_principal k, ok_operation k)) (fun '(a, b, c) => mkOperationKey a b c)). by intros [].
Defined.

Record OperationText := mkOperationText { ot_operationId : string; ot_revision : Z; ot_state : OperationState; ot_rest : json }.

Record StoredOperation := mkStoredOperation { so_state : OperationState; so_record : option OperationText }.

Record ConfigRow := mkConfigRow { cf_revision : Z; cf_settings : json }.

Record Tables := mkTables {
  repos : gmap string RepoRow;
  tasks : gmap string TaskRow;
  workspaces : gmap string WorkspaceRow;
  mounts : gmap string MountRow;
  tabs : gmap string TabRow;
  runs : gmap Z RunRow;
  operations : gmap OperationKey StoredOperation;
  config : option ConfigRow;
  entry_config : option ConfigRow;
}.

(** ** Queries *)

Definition rows_where {K V} `{Countable K} (P : V -> bool) (m : gmap K V) : list V :=
  map snd (map_to_list (filter (fun kv : K * V => P kv.2 = true) m)).

(** The workspace of a task ([task_id] is unique), the task of a workspace. *)

Definition workspace_of (t : Tables) (taskId : string) : option (string * WorkspaceRow) :=
  head (map_to_list (filter (fun kv : string * WorkspaceRow => seqb (ws_task kv.2) taskId = true) (workspaces t))).

Definition task_of (t : Tables) (workspaceId : string) : option string := ws_task <$> workspaces t !! workspaceId.

Definition mountRows (t : Tables) (workspaceId : string) : list MountRow :=
  order_by (fun x y => then_by (mt_created_at x ?= mt_created_at y) (mt_rowid x ?= mt_rowid y))
    (rows_where (fun row => seqb (mt_workspace row) workspaceId) (mounts t)).

Definition sharedTasks : nat := 128.

Definition at_path (path : string) (row : MountRow) : bool := seqb (mt_path row) path.

Definition is_checkout (row : MountRow) : bool := bool_decide (mt_source row = src_checkout).

Definition sort_ids (l : list string) : list string := order_by String.compare (remove_dups l).

Definition sharedWith (t : Tables) (taskId path : string) : list string :=
  take sharedTasks
    (sort_ids (List.filter (fun other => negb (seqb other taskId))
       (omap (fun row => task_of t (mt_workspace row)) (rows_where (fun row => is_checkout row && at_path path row) (mounts t))))).

(** ** Records *)

Definition jopt (o : option string) : json := match o with Some s => JStr s | None => JNull end.

Definition mount_json (t : Tables) (taskId : string) (row : MountRow) : option json :=
  let shared := if is_checkout row then sharedWith t taskId (mt_path row) else [] in
  let members error :=
    JObj ([("mountId", JStr (mt_id row)); ("name", JStr (mt_name row));
           ("source", JStr (if is_checkout row then "checkout" else "worktree")); ("repoId", JStr (mt_repo row));
           ("path", JStr (mt_path row)); ("entryPath", jopt (mt_entry_path row)); ("state", JStr (mt_state row));
           ("branch", jopt (mt_branch row)); ("baseCommit", jopt (mt_base_commit row));
           ("sharedWithTaskIds", JArr (map JStr shared))] ++ error) in
  match mt_error row with
  | None => Some (members [])
  | Some (Some e) => Some (members [("error", e)])
  | Some None => None
  end.

Fixpoint all_some {A} (l : list (option A)) : option (list A) :=
  match l with
  | [] => Some []
  | Some x :: l => match all_some l with Some xs => Some (x :: xs) | None => None end
  | None :: _ => None
  end.

(** The outcome of a projection: [None], it throws; [Some None], no such record. *)

Definition Projection : Type := option (option BusinessRecord).

Definition present (v : BusinessRecord) : Projection := Some (Some v).

Definition absent_record : Projection := Some None.

Definition project_repo (t : Tables) (id : string) : Projection :=
  match repos t !! id with
  | None => absent_record
  | Some row =>
     present (mkRecord id (repo_record id (rp_revision row)
       (JObj [("displayName", JStr (rp_display_name row)); ("path", JStr (rp_path row)); ("mainBranch", jopt (rp_main_branch row));
              ("registeredAtMs", JNum (rp_registered_at row))])))
  end.

Definition project_task (t : Tables) (id : string) : Projection :=
  match tasks t !! id, workspace_of t id with
  | Some task, Some (workspaceId, ws) =>
     match all_some (map (mount_json t id) (mountRows t workspaceId)) with
     | None => None
     | Some mounts =>
        present (mkRecord id (task_record id (ta_revision task)
          (JObj [("title", JStr (ta_title task)); ("slug", JStr (ta_slug task)); ("archived", JBool (ta_archived task));
                 ("createdAtMs", JNum (ta_created_at task));
                 ("workspace", JObj [("workspaceId", JStr workspaceId); ("revision", JNum (ws_revision ws));
                                     ("entryPath", JStr (ws_entry_path ws)); ("entryState", JStr "unavailable");
                                     ("mounts", JArr mounts)])])))
     end
  | _, _ => absent_record
  end.

Definition run_of (t : Tables) (seq : Z) : option RunRef := rn_ref <$> runs t !! seq.

(** The record of the latest run is built with the tab's. *)

Definition latest_parses (t : Tables) (row : TabRow) : bool :=
  match tb_latest row ≫= (fun seq => runs t !! seq) with Some run => bool_decide (is_Some (rn_rest run)) | None => true end.

Definition project_tab (t : Tables) (id : string) : Projection :=
  match tabs t !! id with
  | None => absent_record
  | Some row =>
     match tb_recipe row, tb_cwd row, latest_parses t row with
     | Some recipe, Some cwd, true =>
        present (mkRecord id (tab_record id (tb_revision row) (tb_latest row ≫= run_of t)
          (JObj [("taskId", JStr (tb_task row)); ("name", JStr (tb_name row)); ("recipe", recipe); ("cwd", cwd);
                 ("createdAtMs", JNum (tb_created_at row))])))
     | _, _, _ => None
     end
  end.

Definition run_record_of (row : RunRow) : option RecordBody :=
  (fun rest => run_record (rn_ref row) (rn_tab row) (rn_lifecycle row) (rn_started_at row) rest) <$> rn_rest row.

Definition run_id (row : RunRow) : string := businessRunId (rn_ref row).

Definition project_run (t : Tables) (id : string) : Projection :=
  match head (rows_where (fun row => seqb (run_id row) id) (runs t)) with
  | None => absent_record
  | Some row => match run_record_of row with Some body => present (mkRecord id body) | None => None end
  end.

Definition operations_named (t : Tables) (id : string) : list StoredOperation :=
  map snd (map_to_list (filter (fun kv : OperationKey * StoredOperation => seqb (ok_operation kv.1) id = true) (operations t))).

Definition project_operation (t : Tables) (id : string) : Projection :=
  match head (operations_named t id) with
  | None => absent_record
  | Some row =>
     match so_record row with
     | Some text => present (mkRecord id (operation_record (ot_operationId text) (ot_revision text) (ot_state text) (ot_rest text)))
     | None => None
     end
  end.

Definition project_config (t : Tables) (id : string) : Projection :=
  match (if seqb id "entry" then entry_config t else config t) with
  | Some row => present (mkRecord (if seqb id "entry" then "entry" else "server") (config_record (cf_revision row) (cf_settings row)))
  | None => None
  end.

Definition projectBusinessRecord (t : Tables) (kind : BusinessKind) (id : string) : Projection :=
  match kind with
  | k_repo => project_repo t id
  | k_task => project_task t id
  | k_tab => project_tab t id
  | k_run => project_run t id
  | k_operation => project_operation t id
  | k_config => project_config t id
  | k_runtime => absent_record
  end.

(** ** The snapshot *)

Inductive SnapshotResult := snap_records (records : list BusinessRecord) | snap_too_large | snap_throws.

Definition latest_seqs (t : Tables) : list Z := omap tb_latest (map snd (map_to_list (tabs t))).

Definition selected_run (t : Tables) (seq : Z) (row : RunRow) : bool :=
  activeRun (rn_lifecycle row) || bool_decide (seq ∈ latest_seqs t).

Definition key_order {V} (m : gmap string V) : list string := order_by String.compare (map fst (map_to_list m)).

(** The keys in the order of the queries. *)

Definition snapshot_keys (t : Tables) : list (BusinessKind * string) :=
  map (pair k_repo) (key_order (repos t))
  ++ map (pair k_task) (key_order (tasks t))
  ++ map (pair k_tab) (key_order (tabs t))
  ++ map (fun p => (k_run, run_id p.2))
       (order_by (fun x y => x.1 ?= y.1) (List.filter (fun p => selected_run t p.1 p.2) (map_to_list (runs t))))
  ++ map (pair k_operation)
       (order_by String.compare
          (map (fun p => ok_operation p.1) (List.filter (fun p => negb (finalOperation (so_state p.2))) (map_to_list (operations t)))))
  ++ match config t with Some _ => [(k_config, "server"%string)] | None => [] end
  ++ match entry_config t with Some _ => [(k_config, "entry"%string)] | None => [] end.

Section snapshot.
Context (recordBytes : BusinessRecord -> Z).

Fixpoint snapshot_loop (t : Tables) (keys : list (BusinessKind * string)) (records : list BusinessRecord) (bytes : Z) : SnapshotResult :=
  match keys with
  | [] => snap_records records
  | (kind, id) :: keys =>
     match projectBusinessRecord t kind id with
     | None => snap_throws
     | Some None => snapshot_loop t keys records bytes
     | Some (Some v) =>
        let bytes := bytes + recordBytes v in
        if (snapshotItems <=? zlen records) || (snapshotBytes <? bytes) then snap_too_large
        else snapshot_loop t keys (records ++ [v]) bytes
     end
  end.

Definition businessSnapshot (t : Tables) : SnapshotResult := snapshot_loop t (snapshot_keys t) [] 0.

End snapshot.
