(* ===== verification/BusinessJournal.v ===== *)
(** * The journal of business changes (apps/server/src/store/business-journal.ts)

    Triggers on the tables note which business records a transaction may have
    changed; [collect] reads them back inside the transaction.  A [Change] is
    one row inserted, updated or deleted; the triggers see the row as it was and
    the tables as they are afterwards. *)

From stdpp Require Import sorting.
From S2P Require Import Prelude Json Protocol Operations JsMap BusinessMirror AuthStore BusinessTables.

Inductive Change :=
  | d_repo (id : string) (row : option RepoRow)
  | d_task (id : string) (row : option TaskRow)
  | d_workspace (id : string) (row : option WorkspaceRow)
  | d_mount (id : string) (row : option MountRow)
  | d_managed_worktree (taskId : string)
  | d_binding (workspaceId : string)
  | d_tab (id : string) (row : option TabRow)
  | d_run (seq : Z) (row : option RunRow)
  | d_operation (key : OperationKey) (row : option StoredOperation)
  | d_config (row : option ConfigRow)
  | d_entry (row : option ConfigRow).

Definition put_row {K V} `{Countable K} (k : K) (row : option V) (m : gmap K V) : gmap K V := partial_alter (fun _ => row) k m.

Definition change (c : Change) (t : Tables) : Tables :=
  let '(mkTables rp ta ws mt tb rn op cf ec) := t in
  match c with
  | d_repo id row => mkTables (put_row id row rp) ta ws mt tb rn op cf ec
  | d_task id row => mkTables rp (put_row id row ta) ws mt tb rn op cf ec
  | d_workspace id row => mkTables rp ta (put_row id row ws) mt tb rn op cf ec
  | d_mount id row => mkTables rp ta ws (put_row id row mt) tb rn op cf ec
  | d_managed_worktree _ | d_binding _ => t
  | d_tab id row => mkTables rp ta ws mt (put_row id row tb) rn op cf ec
  | d_run seq row => mkTables rp ta ws mt tb (put_row seq row rn) op cf ec
  | d_operation key row => mkTables rp ta ws mt tb rn (put_row key row op) cf ec
  | d_config row => mkTables rp ta ws mt tb rn op row ec
  | d_entry row => mkTables rp ta ws mt tb rn op cf row
  end.

(** ** Triggers *)

Definition tasks_at (t : Tables) (path : string) : list string :=
  omap (fun row => task_of t (mt_workspace row)) (rows_where (at_path path) (mounts t)).

(** The tasks whose records show a mount: [UNION] sorts and drops duplicates. *)

Definition mount_tasks (t : Tables) (row : MountRow) : list string :=
  sort_ids (option_list (task_of t (mt_workspace row)) ++ tasks_at t (mt_path row)).

(** The row a trigger reads: [NEW], or [OLD] for a deletion. *)

Definition trigger_row {V} (new old : option V) : option V := match new with Some row => Some row | None => old end.

Definition marks (c : Change) (t : Tables) : list (BusinessKind * list string) :=
  let after := change c t in
  match c with
  | d_repo id _ => [(k_repo, [id])]
  | d_task id _ => [(k_task, [id])]
  | d_workspace id row =>
     match trigger_row row (workspaces t !! id) with Some w => [(k_task, [ws_task w])] | None => [] end
  | d_mount id row =>
     match row, mounts t !! id with
     | Some new, Some old => [(k_task, mount_tasks after new); (k_task, mount_tasks after old)]
     | Some only, None | None, Some only => [(k_task, mount_tasks after only)]
     | None, None => []
     end
  | d_managed_worktree taskId => [(k_task, [taskId])]
  | d_binding workspaceId => [(k_task, option_list (task_of after workspaceId))]
  | d_tab id _ => [(k_tab, [id])]
  | d_run seq row => match trigger_row row (runs t !! seq) with Some r => [(k_run, [run_id r])] | None => [] end
  | d_operation key _ => [(k_operation, [ok_operation key])]
  | d_config _ => [(k_config, ["server"%string])]
  | d_entry _ => [(k_config, ["entry"%string])]
  end.

(** ** The journal *)

Definition DirtyKey : Type := BusinessKind * string.

Record Journal := mkJournal { dirty : list DirtyKey; overflow : bool }.

Definition clear : Journal := mkJournal [] false.

Definition journalRoom (d : list DirtyKey) : nat := Z.to_nat (Z.max 0 (journalItems - zlen d)).

(** [INSERT OR IGNORE] *)

Definition add_key (d : list DirtyKey) (k : DirtyKey) : list DirtyKey := if decide (k ∈ d) then d else d ++ [k].

(** [mark]: [INSERT OR IGNORE ... LIMIT] and the [UPDATE] of the overflow. *)

Definition mark (j : Journal) (m : BusinessKind * list string) : Journal :=
  let d := foldl add_key (dirty j) (take (journalRoom (dirty j)) (map (pair m.1) m.2)) in
  mkJournal d (overflow j || (journalItems <=? zlen d)).

Definition journal_change (c : Change) (s : Tables * Journal) : Tables * Journal :=
  (change c s.1, foldl mark s.2 (marks c s.1)).

(** The row changes of a transaction, in order. *)

Definition transaction (cs : list Change) (t : Tables) : Tables * Journal :=
  foldl (fun s c => journal_change c s) (t, clear) cs.

Inductive Publication := pub_changes (changes : list BusinessChange) | pub_reset.

Definition windowBytes : Z := 8 * 1024 * 1024.

Definition dirty_order (d : list DirtyKey) : list DirtyKey :=
  order_by (fun x y => then_by (String.compare (kind_name x.1) (kind_name y.1)) (String.compare x.2 y.2)) d.

Section collect.
Context (changeBytes : BusinessChange -> Z).

Fixpoint collect_loop (t : Tables) (keys : list DirtyKey) (changes : list BusinessChange) (bytes : Z) : Publication :=
  match keys with
  | [] => pub_changes changes
  | (kind, id) :: keys =>
     match projectBusinessRecord t kind id with
     | None => pub_reset
     | Some value =>
        let c := match value with Some v => ch_upsert v | None => ch_delete kind id end in
        let bytes := bytes + changeBytes c in
        if windowBytes <? bytes then pub_reset else collect_loop t keys (changes ++ [c]) bytes
     end
  end.

Definition collect (t : Tables) (j : Journal) : Publication :=
  if overflow j then pub_reset else collect_loop t (dirty_order (dirty j)) [] 0.

End collect.

(** ** What the schema and the statements keep *)

(** Keys, [UNIQUE] columns and foreign keys. *)

Record schema_ok (t : Tables) : Prop := mkSchemaOk {
  sk_workspaces : forall i j v w, workspaces t !! i = Some v -> workspaces t !! j = Some w -> ws_task v = ws_task w -> i = j;
  sk_mounts : forall i m, mounts t !! i = Some m -> is_Some (workspaces t !! mt_workspace m);
  sk_tabs : forall i b s, tabs t !! i = Some b -> tb_latest b = Some s -> is_Some (runs t !! s);
  sk_runs : forall i j r q, runs t !! i = Some r -> runs t !! j = Some q -> run_id r = run_id q -> i = j;
}.

(** No statement moves a workspace to another task or a run to another identity. *)

Definition same_row {V} (f : V -> V -> Prop) (new old : option V) : Prop :=
  match new, old with Some x, Some y => f x y | _, _ => True end.

Definition keeps_identity (c : Change) (t : Tables) : Prop :=
  match c with
  | d_workspace id row => same_row (fun x y => ws_task x = ws_task y) row (workspaces t !! id)
  | d_run seq row => same_row (fun x y => rn_ref x = rn_ref y /\ (is_Some (rn_rest x) <-> is_Some (rn_rest y))) row (runs t !! seq)
  | _ => True
  end.

Definition known_key (kind : BusinessKind) (id : string) : Prop :=
  kind = k_config -> id = "server"%string \/ id = "entry"%string.

(** ** Rows that do not matter *)

Lemma put_row_eq {K V} `{Countable K} (k : K) (row : option V) m : put_row k row m !! k = row.
Proof. apply lookup_partial_alter_eq. Qed.

Lemma put_row_ne {K V} `{Countable K} (k i : K) (row : option V) m : k <> i -> put_row k row m !! i = m !! i.
Proof. apply lookup_partial_alter_ne. Qed.

Lemma filter_put_row {K V} `{Countable K} (P : K * V -> Prop) `{!forall x, Decision (P x)} k row (m : gmap K V) :
  (forall v, m !! k = Some v -> ~ P (k, v)) -> (forall v, row = Some v -> ~ P (k, v)) ->
  filter P (put_row k row m) = filter P m.
Proof.
  intros Ho Hn. apply map_eq. intros i. apply option_eq. intros v. rewrite !map_lookup_filter_Some.
  destruct (decide (k = i)) as [<-|Hi]; [|by rewrite put_row_ne]. rewrite put_row_eq.
  split; intros [H1 H2]; exfalso; [by eapply Hn|by eapply Ho].
Qed.

Lemma rows_put_row {K V} `{Countable K} (P : V -> bool) k row (m : gmap K V) :
  (forall v, m !! k = Some v -> P v = false) -> (forall v, row = Some v -> P v = false) ->
  rows_where P (put_row k row m) = rows_where P m.
Proof.
  intros Ho Hn. unfold rows_where. rewrite filter_put_row; [done| |]; intros v Hv; cbn; [rewrite Ho|rewrite Hn]; done.
Qed.

Lemma in_rows {K V} `{Countable K} (P : V -> bool) (m : gmap K V) v : v ∈ rows_where P m <-> exists k, m !! k = Some v /\ P v = true.
Proof.
  unfold rows_where. rewrite list_elem_of_fmap. split.
  - intros ([k w] & -> & Hk%elem_of_map_to_list). apply map_lookup_filter_Some in Hk as [? ?]. by exists k.
  - intros (k & Hk & Hp). exists (k, v). split; [done|]. apply elem_of_map_to_list. by apply map_lookup_filter_Some.
Qed.

Lemma in_sort_ids x l : x ∈ sort_ids l <-> x ∈ l.
Proof. unfold sort_ids, order_by. rewrite merge_sort_Permutation. apply elem_of_remove_dups. Qed.

Lemma in_mountRows t w m : m ∈ mountRows t w <-> exists i, mounts t !! i = Some m /\ mt_workspace m = w.
Proof.
  unfold mountRows, order_by. rewrite merge_sort_Permutation, in_rows. unfold seqb. by setoid_rewrite String.eqb_eq.
Qed.

Lemma in_mount_tasks t row k : k ∈ mount_tasks t row <->
  task_of t (mt_workspace row) = Some k \/ exists i m, mounts t !! i = Some m /\ mt_path m = mt_path row /\ task_of t (mt_workspace m) = Some k.
Proof.
  unfold mount_tasks, tasks_at. rewrite in_sort_ids, elem_of_app, list_elem_of_omap.
  setoid_rewrite in_rows. unfold at_path, seqb. setoid_rewrite String.eqb_eq. split.
  - intros [H|(m & (i & Hi & Hp) & Hk)]; [left|right; by exists i, m]. destruct (task_of t (mt_workspace row)); cbn in H; [|by apply elem_of_nil in H].
    by apply list_elem_of_singleton in H as ->.
  - intros [->|(i & m & Hi & Hp & Hk)]; [left; by left|right]. exists m. eauto.
Qed.

Lemma workspace_of_spec t id w row : schema_ok t -> workspace_of t id = Some (w, row) <-> workspaces t !! w = Some row /\ ws_task row = id.
Proof.
  intros Hs. unfold workspace_of. set (f := filter _ _).
  assert (Hf : forall i v, (i, v) ∈ map_to_list f <-> workspaces t !! i = Some v /\ ws_task v = id).
  { intros i v. rewrite elem_of_map_to_list. unfold f. rewrite map_lookup_filter_Some. cbn. unfold seqb. by rewrite String.eqb_eq. }
  split.
  - intros H. apply Hf. destruct (map_to_list f) as [|p l]; [done|]. injection H as ->. by left.
  - intros H. apply Hf in H as Hin. destruct (map_to_list f) as [|[i v] l] eqn:E; [by apply elem_of_nil in Hin|]. cbn.
    assert (Hi : (i, v) ∈ (i, v) :: l) by left. apply Hf in Hi as [Hi Hv]. destruct H as [Hw Hid].
    assert (i = w) as -> by (eapply sk_workspaces; eauto; congruence). by simplify_eq.
Qed.

(** ** A record that no mark names is the same *)

Definition marked (c : Change) (t : Tables) (kind : BusinessKind) (id : string) : Prop :=
  exists ids, (kind, ids) ∈ marks c t /\ id ∈ ids.

Lemma omap_same {A B} (f g : A -> option B) (l : list A) : (forall x, x ∈ l -> f x = g x) -> omap f l = omap g l.
Proof.
  induction l as [|x l IH]; intros H; [done|]. cbn. rewrite (H x) by left. destruct (g x); rewrite IH; try done;
    intros y Hy; apply H; by right.
Qed.

Lemma shared_same t t' id p :
  rows_where (fun row => is_checkout row && at_path p row) (mounts t') = rows_where (fun row => is_checkout row && at_path p row) (mounts t) ->
  (forall i m, mounts t !! i = Some m -> task_of t' (mt_workspace m) = task_of t (mt_workspace m)) ->
  sharedWith t' id p = sharedWith t id p.
Proof.
  intros Hr Ht. unfold sharedWith. rewrite Hr. do 3 f_equal. apply omap_same. intros m (i & Hi & _)%in_rows. by apply (Ht i).
Qed.

Lemma map_same {A B} (f g : A -> B) (l : list A) : (forall x, x ∈ l -> f x = g x) -> map f l = map g l.
Proof. intros H. apply List.map_ext_in. intros x Hx. apply H. by apply list_elem_of_In. Qed.

Lemma task_same t t' id : tasks t' !! id = tasks t !! id -> workspace_of t' id = workspace_of t id ->
  (forall w row, workspace_of t id = Some (w, row) -> mountRows t' w = mountRows t w
                 /\ forall m, m ∈ mountRows t w -> is_checkout m = true -> sharedWith t' id (mt_path m) = sharedWith t id (mt_path m)) ->
  project_task t' id = project_task t id.
Proof.
  intros Ht Hw Hm. unfold project_task. rewrite Ht, Hw. destruct (tasks t !! id) as [task|]; [|done].
  destruct (workspace_of t id) as [[w row]|]; [|done]. destruct (Hm w row eq_refl) as [Hr Hs]. rewrite Hr.
  assert (E : map (mount_json t' id) (mountRows t w) = map (mount_json t id) (mountRows t w)); [|by rewrite E].
  apply map_same. intros m Hin. specialize (Hs m Hin). unfold mount_json. by destruct (is_checkout m); [rewrite Hs by done|].
Qed.

Lemma mount_fresh i row t id : schema_ok t -> schema_ok (change (d_mount i row) t) ->
  ~ marked (d_mount i row) t k_task id -> forall x, row = Some x \/ mounts t !! i = Some x ->
  task_of t (mt_workspace x) <> Some id
  /\ forall k m, mounts (change (d_mount i row) t) !! k = Some m -> mt_path m = mt_path x -> task_of t (mt_workspace m) <> Some id.
Proof.
  intros _ _ Hn x Hx.
  assert (Hnot : id ∉ mount_tasks (change (d_mount i row) t) x).
  { intros Hin. apply Hn. unfold marked. cbn [marks]. destruct row as [new|], (mounts t !! i) as [old|] eqn:Eo; destruct Hx as [[= <-]|[= <-]];
      (eexists; split; [|exact Hin]); set_solver. }
  rewrite in_mount_tasks in Hnot. destruct t. split.
  - intros E. apply Hnot. by left.
  - intros k m Hk Hp E. apply Hnot. right. by exists k, m.
Qed.

Lemma mount_unmarked i row t id : schema_ok t -> schema_ok (change (d_mount i row) t) ->
  ~ marked (d_mount i row) t k_task id -> project_task (change (d_mount i row) t) id = project_task t id.
Proof.
  intros Hs Hs' Hn. pose proof (mount_fresh i row t id Hs Hs' Hn) as Hf. destruct t as [rp ta ws mt tb rn op cf ec].
  apply task_same; [done|done|]. intros w wr Hw. apply workspace_of_spec in Hw as [Hw Hid]; [|done]. cbn in Hw.
  assert (Hwt : task_of (mkTables rp ta ws mt tb rn op cf ec) w = Some id) by (unfold task_of; cbn; by rewrite Hw, <- Hid).
  assert (Hr : mountRows (mkTables rp ta ws (put_row i row mt) tb rn op cf ec) w = mountRows (mkTables rp ta ws mt tb rn op cf ec) w).
  { unfold mountRows. cbn [mounts]. f_equal. apply rows_put_row; intros x Hx; apply String.eqb_neq; intros E;
      (destruct (Hf x) as [Ht _]; [by auto|]); rewrite E in Ht; done. }
  split; [exact Hr|]. intros m Hm _. rewrite <- Hr in Hm. apply in_mountRows in Hm as (k & Hk & Hmw).
  apply shared_same; [|done]. apply rows_put_row; intros x Hx; apply andb_false_iff; right; apply String.eqb_neq; intros E;
    (destruct (Hf x) as [_ Hp]; [by auto|]); apply (Hp k m Hk); congruence.
Qed.

Lemma workspace_tasks w row t : schema_ok t -> schema_ok (change (d_workspace w row) t) -> keeps_identity (d_workspace w row) t ->
  forall i m, mounts t !! i = Some m -> task_of (change (d_workspace w row) t) (mt_workspace m) = task_of t (mt_workspace m).
Proof.
  intros Hs Hs' Hk i m Hm. pose proof (sk_mounts _ Hs _ _ Hm) as [v Hv].
  assert (Hm' : mounts (change (d_workspace w row) t) !! i = Some m) by (by destruct t).
  pose proof (sk_mounts _ Hs' _ _ Hm') as [v' Hv']. unfold task_of. rewrite Hv, Hv'. cbn.
  destruct t as [rp ta ws mt tb rn op cf ec]. cbn in *. destruct (decide (w = mt_workspace m)) as [->|Hne].
  - rewrite put_row_eq in Hv'. subst row. rewrite Hv in Hk. cbn in Hk. by rewrite Hk.
  - rewrite put_row_ne in Hv' by done. congruence.
Qed.

Lemma workspace_unmarked w row t id : schema_ok t -> schema_ok (change (d_workspace w row) t) -> keeps_identity (d_workspace w row) t ->
  ~ marked (d_workspace w row) t k_task id -> project_task (change (d_workspace w row) t) id = project_task t id.
Proof.
  intros Hs Hs' Hk Hn. pose proof (workspace_tasks w row t Hs Hs' Hk) as Ht.
  assert (Hne : forall x, row = Some x \/ workspaces t !! w = Some x -> ws_task x <> id).
  { intros x Hx E. apply Hn. unfold marked. cbn [marks]. unfold keeps_identity in Hk.
    destruct row as [new|], (workspaces t !! w) as [old|] eqn:Eo; cbn in *; destruct Hx as [[= <-]|[= <-]];
      eexists; (split; [left|]); rewrite <- E; try rewrite Hk; by left. }
  destruct t as [rp ta ws mt tb rn op cf ec]. apply task_same; [done| |].
  - unfold workspace_of. cbn [workspaces]. f_equal. f_equal. apply filter_put_row; cbn; intros v Hv; apply not_true_iff_false, String.eqb_neq; auto.
  - intros v vr _. split; [done|]. intros m _ _. by apply shared_same.
Qed.

Lemma run_identity seq row t : keeps_identity (d_run seq row) t -> forall x, row = Some x \/ runs t !! seq = Some x ->
  exists r, trigger_row row (runs t !! seq) = Some r /\ run_id r = run_id x.
Proof.
  intros Hk x Hx. cbn in *. destruct row as [new|]; cbn.
  - exists new. split; [done|]. destruct Hx as [[= <-]|Hx]; [done|]. rewrite Hx in Hk. destruct Hk as [Hr _]. unfold run_id. by rewrite Hr.
  - destruct Hx as [?|Hx]; [done|]. exists x. by rewrite Hx.
Qed.

Lemma run_unmarked seq row t id : keeps_identity (d_run seq row) t -> ~ marked (d_run seq row) t k_run id ->
  project_run (change (d_run seq row) t) id = project_run t id.
Proof.
  intros Hk Hn. pose proof (run_identity seq row t Hk) as Hi.
  assert (Hne : forall x, row = Some x \/ runs t !! seq = Some x -> seqb (run_id x) id = false).
  { intros x Hx. apply String.eqb_neq. intros E. destruct (Hi x Hx) as (r & Hr & He). apply Hn. exists [run_id r]. cbn [marks].
    rewrite Hr. split; [left|]. rewrite He, E. left. }
  destruct t as [rp ta ws mt tb rn op cf ec]. unfold project_run. cbn [runs change]. rewrite rows_put_row; auto.
Qed.

Lemma tab_run_same seq row t id : schema_ok t -> schema_ok (change (d_run seq row) t) -> keeps_identity (d_run seq row) t ->
  project_tab (change (d_run seq row) t) id = project_tab t id.
Proof.
  intros Hs Hs' Hk. destruct t as [rp ta ws mt tb rn op cf ec]. unfold project_tab. cbn [tabs change].
  destruct (tb !! id) as [b|] eqn:Eb; [|done].
  assert (Hl : forall s, tb_latest b = Some s -> exists x y, rn !! s = Some x /\ put_row seq row rn !! s = Some y
                 /\ rn_ref y = rn_ref x /\ (is_Some (rn_rest y) <-> is_Some (rn_rest x))).
  { intros s Es. destruct (sk_tabs _ Hs _ _ _ Eb Es) as [x Hx], (sk_tabs _ Hs' id _ _ Eb Es) as [y Hy]. cbn in Hx, Hy.
    exists x, y. split_and!; [done|done|..]; (destruct (decide (seq = s)) as [->|Hne];
      [rewrite put_row_eq in Hy; subst row; cbn in Hk; rewrite Hx in Hk; apply Hk|rewrite put_row_ne in Hy by done; by simplify_eq]). }
  assert (Hp : latest_parses (mkTables rp ta ws mt tb (put_row seq row rn) op cf ec) b = latest_parses (mkTables rp ta ws mt tb rn op cf ec) b).
  { unfold latest_parses. cbn [runs]. destruct (tb_latest b) as [s|]; [|done]. destruct (Hl s eq_refl) as (x & y & Hx & Hy & _ & Hv). cbn.
    rewrite Hx, Hy. by apply bool_decide_ext. }
  assert (Hr : tb_latest b ≫= run_of (mkTables rp ta ws mt tb (put_row seq row rn) op cf ec) = tb_latest b ≫= run_of (mkTables rp ta ws mt tb rn op cf ec)).
  { destruct (tb_latest b) as [s|]; [|done]. destruct (Hl s eq_refl) as (x & y & Hx & Hy & Hv & _). unfold run_of. cbn. by rewrite Hx, Hy; cbn; rewrite Hv. }
  change (change (d_run seq row) (mkTables rp ta ws mt tb rn op cf ec)) with (mkTables rp ta ws mt tb (put_row seq row rn) op cf ec).
  by rewrite Hp, Hr.
Qed.

Lemma operation_unmarked k row t id : ok_operation k <> id ->
  project_operation (change (d_operation k row) t) id = project_operation t id.
Proof.
  intros Hne. destruct t as [rp ta ws mt tb rn op cf ec]. unfold project_operation, operations_named. cbn [operations change].
  rewrite filter_put_row; [done| |]; cbn; intros v _; by apply not_true_iff_false, String.eqb_neq.
Qed.

(** Every change of a record is marked. *)

Lemma unmarked_same c t kind id : schema_ok t -> schema_ok (change c t) -> keeps_identity c t -> known_key kind id ->
  ~ marked c t kind id -> projectBusinessRecord (change c t) kind id = projectBusinessRecord t kind id.
Proof.
  intros Hs Hs' Hk Hkey Hn.
  assert (Hone : forall k i, marks c t = [(k, [i])] -> kind = k -> i <> id).
  { intros k i Em -> ->. apply Hn. exists [id]. rewrite Em. split; left. }
  destruct kind; cbn [projectBusinessRecord]; destruct c as [i row|i row|i row|i row|i|i|i row|s row|k row|row|row]; try (by destruct t).
  - pose proof (Hone k_repo i eq_refl eq_refl). destruct t as [rp ta ws mt tb rn op cf ec]. unfold project_repo. cbn [repos change]. by rewrite put_row_ne.
  - pose proof (Hone k_task i eq_refl eq_refl). destruct t as [rp ta ws mt tb rn op cf ec]. apply task_same; try done. cbn [tasks change]. by rewrite put_row_ne.
  - by apply workspace_unmarked.
  - by apply mount_unmarked.
  - pose proof (Hone k_tab i eq_refl eq_refl). destruct t as [rp ta ws mt tb rn op cf ec]. unfold project_tab. cbn [tabs change]. by rewrite put_row_ne.
  - by apply tab_run_same.
  - by apply run_unmarked.
  - apply operation_unmarked. by apply (Hone k_operation).
  - pose proof (Hone k_config "server"%string eq_refl eq_refl). destruct (Hkey eq_refl) as [->| ->]; [done|]. by destruct t.
  - pose proof (Hone k_config "entry"%string eq_refl eq_refl). destruct (Hkey eq_refl) as [->| ->]; [by destruct t|done].
Qed.

(** ** The journal is complete *)

(** The row changes keep the schema and the identities. *)

Fixpoint valid_changes (cs : list Change) (t : Tables) : Prop :=
  match cs with
  | [] => schema_ok t
  | c :: cs => schema_ok t /\ keeps_identity c t /\ valid_changes cs (change c t)
  end.

(** The identifiers the triggers select, counted once for every mark. *)

Definition mark_size (ms : list (BusinessKind * list string)) : Z := lsum (fun m => zlen m.2) ms.

Fixpoint marked_ids (cs : list Change) (t : Tables) : Z :=
  match cs with [] => 0 | c :: cs => mark_size (marks c t) + marked_ids cs (change c t) end.

Lemma add_key_in d k x : x ∈ add_key d k <-> x ∈ d \/ x = k.
Proof. unfold add_key. case_decide as E; [|rewrite elem_of_app, list_elem_of_singleton; tauto]. split; [by left|by intros [?| ->]]. Qed.

Lemma add_keys_in ks : forall d x, x ∈ foldl add_key d ks <-> x ∈ d \/ x ∈ ks.
Proof.
  induction ks as [|k ks IH]; intros d x; cbn; [rewrite elem_of_nil; tauto|]. rewrite IH, add_key_in, elem_of_cons. tauto.
Qed.

Lemma add_key_nodup d k : NoDup d -> NoDup (add_key d k).
Proof.
  intros Hd. unfold add_key. case_decide; [done|]. apply NoDup_app. split_and!; [done| |apply NoDup_singleton].
  by intros x Hx ->%list_elem_of_singleton.
Qed.

Lemma add_keys_size ks : forall d, zlen (foldl add_key d ks) <= zlen d + zlen ks.
Proof.
  induction ks as [|k ks IH]; intros d; cbn [foldl]; [rewrite zlen_nil; lia|]. specialize (IH (add_key d k)). rewrite zlen_cons.
  assert (zlen (add_key d k) <= zlen d + 1); [|lia]. unfold add_key. case_decide; [lia|]. rewrite zlen_app, zlen_cons, zlen_nil. lia.
Qed.

Lemma mark_grows j m x : x ∈ dirty j -> x ∈ dirty (mark j m).
Proof. intros Hx. cbn. rewrite add_keys_in. by left. Qed.

Lemma marks_grow ms : forall j x, x ∈ dirty j -> x ∈ dirty (foldl mark j ms).
Proof. induction ms as [|m ms IH]; intros j x Hx; [done|]. cbn. by apply IH, mark_grows. Qed.

Lemma mark_all j m : zlen (dirty j) + zlen m.2 <= journalItems ->
  (forall id, id ∈ m.2 -> (m.1, id) ∈ dirty (mark j m)) /\ zlen (dirty (mark j m)) <= zlen (dirty j) + zlen m.2.
Proof.
  intros Hroom. cbn [mark dirty]. rewrite take_ge.
  - split; [intros id Hid; rewrite add_keys_in; right; by apply list_elem_of_fmap_2|]. etransitivity; [apply add_keys_size|].
    unfold zlen. rewrite length_map. lia.
  - rewrite length_map. unfold journalRoom, zlen in *. lia.
Qed.

Lemma marks_all ms : forall j, zlen (dirty j) + mark_size ms <= journalItems ->
  (forall kind ids id, (kind, ids) ∈ ms -> id ∈ ids -> (kind, id) ∈ dirty (foldl mark j ms))
  /\ zlen (dirty (foldl mark j ms)) <= zlen (dirty j) + mark_size ms.
Proof.
  induction ms as [|m ms IH]; intros j Hroom; cbn [foldl].
  - split; [by intros ??? ?%elem_of_nil|]. change (mark_size []) with 0. lia.
  - change (mark_size (m :: ms)) with (zlen m.2 + mark_size ms) in *. assert (0 <= mark_size ms) by (apply lsum_nonneg; intros; apply zlen_nonneg).
    destruct (mark_all j m) as [H1 H2]; [lia|]. destruct (IH (mark j m)) as [H3 H4]; [lia|]. split; [|lia].
    intros kind ids id [<-|Hin]%elem_of_cons Hid; [|by eapply H3]. by apply marks_grow, H1.
Qed.

Lemma journal_step cs : forall t j t' j', valid_changes cs t -> zlen (dirty j) + marked_ids cs t <= journalItems ->
  foldl (fun s c => journal_change c s) (t, j) cs = (t', j') ->
  (forall x, x ∈ dirty j -> x ∈ dirty j')
  /\ forall kind id, known_key kind id -> (kind, id) ∉ dirty j' -> projectBusinessRecord t' kind id = projectBusinessRecord t kind id.
Proof.
  induction cs as [|c cs IH]; intros t j t' j' Hv Hroom Hf; cbn [foldl] in Hf; [by injection Hf as <- <-|].
  destruct Hv as (Hs & Hk & Hv). cbn [marked_ids] in Hroom. unfold journal_change in Hf at 2. cbn [fst snd] in Hf.
  assert (Hs' : schema_ok (change c t)) by (destruct cs; cbn in Hv; tauto).
  assert (Hnn : 0 <= marked_ids cs (change c t)).
  { generalize (change c t). clear. induction cs as [|c cs IH]; intros t; cbn; [lia|]. specialize (IH (change c t)).
    assert (0 <= mark_size (marks c t)) by (apply lsum_nonneg; intros; apply zlen_nonneg). lia. }
  destruct (marks_all (marks c t) j) as [Hm Hsize]; [lia|].
  destruct (IH (change c t) (foldl mark j (marks c t)) t' j' Hv) as [Hg Hp]; [lia|exact Hf|]. split; [intros x Hx; by apply Hg, marks_grow|].
  intros kind id Hkey Hn. rewrite Hp by done. apply unmarked_same; try done. intros (ids & Hin & Hid). apply Hn, Hg. by eapply Hm.
Qed.

(** Every marked key names a record of its kind. *)

Lemma marks_known c t m id : m ∈ marks c t -> id ∈ m.2 -> known_key m.1 id /\ m.1 <> k_runtime.
Proof.
  intros Hm Hid. unfold known_key.
  destruct c as [i row|i row|i row|i row|i|i|i row|s row|k row|row|row]; cbn in Hm;
    repeat match goal with
    | H : context [match ?x with _ => _ end] |- _ => destruct x
    | H : _ ∈ [] |- _ => apply elem_of_nil in H; done
    | H : _ ∈ _ :: _ |- _ => apply elem_of_cons in H as [->|H]
    end; (split; [|done]); try done; intros _; apply list_elem_of_singleton in Hid; auto.
Qed.

Lemma journal_keys cs : forall t j t' j', foldl (fun s c => journal_change c s) (t, j) cs = (t', j') ->
  NoDup (dirty j) -> (forall k, k ∈ dirty j -> known_key k.1 k.2 /\ k.1 <> k_runtime) ->
  NoDup (dirty j') /\ forall k, k ∈ dirty j' -> known_key k.1 k.2 /\ k.1 <> k_runtime.
Proof.
  assert (Hmark : forall ms j, (forall m id, m ∈ ms -> id ∈ m.2 -> known_key m.1 id /\ m.1 <> k_runtime) -> NoDup (dirty j) ->
    (forall k, k ∈ dirty j -> known_key k.1 k.2 /\ k.1 <> k_runtime) ->
    NoDup (dirty (foldl mark j ms)) /\ forall k, k ∈ dirty (foldl mark j ms) -> known_key k.1 k.2 /\ k.1 <> k_runtime).
  { induction ms as [|m ms IH]; intros j Hms Hn Hk; [done|]. cbn. apply IH.
    - intros m' id Hm'. apply Hms. by right.
    - cbn. generalize (take (journalRoom (dirty j)) (map (pair m.1) m.2)). intros l. revert Hn. generalize (dirty j).
      induction l as [|x l IHl]; intros d Hd; [done|]. cbn. by apply IHl, add_key_nodup.
    - intros k. cbn. rewrite add_keys_in. intros [?|Hin]; [by apply Hk|]. apply list_elem_of_lookup in Hin as [i Hi].
      apply lookup_take_Some in Hi as [Hi _]. apply list_elem_of_lookup_2, list_elem_of_fmap in Hi as (id & -> & Hid). cbn.
      apply Hms; [by left|done]. }
  induction cs as [|c cs IH]; intros t j t' j' Hf Hn Hk; cbn [foldl] in Hf; [by injection Hf as <- <-|].
  unfold journal_change in Hf at 2. cbn [fst snd] in Hf. destruct (Hmark (marks c t) j) as [H1 H2]; [|done|done|by eapply IH].
  intros m id. apply marks_known.
Qed.

Lemma project_key t kind id v : known_key kind id -> projectBusinessRecord t kind id = present v -> b_kind v = kind /\ b_id v = id.
Proof.
  intros Hk. destruct kind; cbn [projectBusinessRecord].
  - unfold project_repo. destruct (repos t !! id); [|done]. by intros [= <-].
  - unfold project_task. destruct (tasks t !! id); [|done]. destruct (workspace_of t id) as [[w r]|]; [|done]. destruct (all_some _); [|done].
    by intros [= <-].
  - unfold project_tab. destruct (tabs t !! id) as [b|]; [|done]. destruct (tb_recipe b); [|done]. destruct (tb_cwd b); [|done].
    destruct (latest_parses t b); [|done]. by intros [= <-].
  - unfold project_run, run_record_of. destruct (head _) as [r|]; [|done]. destruct (rn_rest r); [|done]. by intros [= <-].
  - unfold project_operation. destruct (head _) as [o|]; [|done]. destruct (so_record o); [|done]. by intros [= <-].
  - unfold project_config. destruct (Hk eq_refl) as [->| ->]; cbn; [destruct (config t)|destruct (entry_config t)]; try done; by intros [= <-].
  - done.
Qed.

(** ** What is published *)

Definition change_of (t : Tables) (k : DirtyKey) : option BusinessChange :=
  match projectBusinessRecord t k.1 k.2 with
  | Some (Some v) => Some (ch_upsert v)
  | Some None => Some (ch_delete k.1 k.2)
  | None => None
  end.

Lemma collect_loop_spec changeBytes t keys : forall acc bytes chs, collect_loop changeBytes t keys acc bytes = pub_changes chs ->
  exists l, chs = acc ++ l /\ Forall2 (fun k c => change_of t k = Some c) keys l.
Proof.
  induction keys as [|[kind id] keys IH]; intros acc bytes chs H; cbn [collect_loop] in H.
  - injection H as <-. exists []. by rewrite app_nil_r.
  - destruct (projectBusinessRecord t kind id) as [value|] eqn:E; [|done]. cbn zeta in H. destruct (_ <? _); [done|].
    apply IH in H as (l & -> & Hl). eexists (_ :: l). rewrite <- app_assoc. split; [done|]. constructor; [|done]. unfold change_of. cbn [fst snd].
    rewrite E. by destruct value.
Qed.

Definition names (kind : BusinessKind) (id : string) (c : BusinessChange) : Prop :=
  match c with ch_upsert v => b_kind v = kind /\ b_id v = id | ch_delete k i => k = kind /\ i = id end.

Lemma collected changeBytes t j chs : collect changeBytes t j = pub_changes chs ->
  (forall c, c ∈ chs -> exists k, k ∈ dirty j /\ change_of t k = Some c) /\ (forall k, k ∈ dirty j -> exists c, c ∈ chs /\ change_of t k = Some c).
Proof.
  unfold collect. destruct (overflow j); [done|]. intros (l & -> & Hl)%collect_loop_spec. cbn [Datatypes.app].
  assert (Hd : forall k, k ∈ dirty_order (dirty j) <-> k ∈ dirty j) by (intros k; unfold dirty_order, order_by; by rewrite merge_sort_Permutation).
  split.
  - intros c [i Hi]%list_elem_of_lookup. destruct (Forall2_lookup_r _ _ _ _ _ Hl Hi) as (k & Hk & Hc). exists k. split; [|done].
    apply Hd. by eapply list_elem_of_lookup_2.
  - intros k Hk%Hd. apply list_elem_of_lookup in Hk as [i Hi]. destruct (Forall2_lookup_l _ _ _ _ _ Hl Hi) as (c & Hc & Hch). exists c.
    split; [|done]. by eapply list_elem_of_lookup_2.
Qed.

Lemma publication_true changeBytes cs t chs : valid_changes cs t -> marked_ids cs t <= journalItems ->
  let '(t', j) := transaction cs t in
  collect changeBytes t' j = pub_changes chs ->
  (forall v, ch_upsert v ∈ chs -> (known_key (b_kind v) (b_id v) /\ b_kind v <> k_runtime) /\ projectBusinessRecord t' (b_kind v) (b_id v) = present v)
  /\ (forall kind id, ch_delete kind id ∈ chs -> kind <> k_runtime /\ projectBusinessRecord t' kind id = absent_record)
  /\ (forall kind id, known_key kind id -> (forall c, c ∈ chs -> ~ names kind id c) ->
        projectBusinessRecord t' kind id = projectBusinessRecord t kind id).
Proof.
  intros Hv Hroom. destruct (transaction cs t) as [t' j] eqn:Et. unfold transaction in Et. intros [Hin Hout]%collected.
  destruct (journal_keys cs t clear t' j Et) as [_ Hkeys]; [by apply NoDup_nil_2|by intros k ?%elem_of_nil|].
  destruct (journal_step cs t clear t' j Hv) as [_ Hsame]; [change (zlen (dirty clear)) with 0; lia|exact Et|].
  unfold change_of in *. split_and!.
  - intros v ([kind id] & Hk & Hc)%Hin. cbn [fst snd] in Hc. destruct (projectBusinessRecord t' kind id) as [[w|]|] eqn:E; [|done..].
    injection Hc as ->. destruct (Hkeys _ Hk) as [Hk1 Hk2]. by destruct (project_key t' kind id v Hk1 E) as [-> ->].
  - intros kind id ([kind' id'] & Hk & Hc)%Hin. cbn [fst snd] in Hc.
    destruct (projectBusinessRecord t' kind' id') as [[w|]|] eqn:E; [done| |done]. injection Hc as -> ->. split; [by apply (Hkeys (kind, id))|done].
  - intros kind id Hkey Hno. apply Hsame; [done|]. intros (c & Hc & Hch)%Hout. apply (Hno c Hc). cbn [fst snd] in Hch.
    destruct (projectBusinessRecord t' kind id) as [[w|]|] eqn:E; [..|done]; injection Hch as <-; [by eapply project_key|done].
Qed.

(** What the store publishes about a transaction is complete and true: when
    [collect] answers changes and the triggers selected at most 4096 identifiers,
    each change says what the record now is, or that it is gone, and every
    record that no change names is what it was before the transaction. *)
Theorem journal_complete changeBytes cs t chs : valid_changes cs t -> marked_ids cs t <= journalItems ->
  let '(t', j) := transaction cs t in
  collect changeBytes t' j = pub_changes chs ->
  (forall v, ch_upsert v ∈ chs -> projectBusinessRecord t' (b_kind v) (b_id v) = present v)
  /\ (forall kind id, ch_delete kind id ∈ chs -> projectBusinessRecord t' kind id = absent_record)
  /\ (forall kind id, known_key kind id -> (forall c, c ∈ chs -> ~ names kind id c) ->
        projectBusinessRecord t' kind id = projectBusinessRecord t kind id).
Proof.
  intros Hv Hroom. pose proof (publication_true changeBytes cs t chs Hv Hroom) as H. destruct (transaction cs t) as [t' j].
  intros Hc. destruct (H Hc) as (Hu & Hd & Hsame). split_and!; [intros v Hin; by apply Hu|intros kind id Hin; by apply Hd|done].
Qed.

(** A mark with two identifiers on a journal with room for one: the first is
    noted already, the second is cut off by [LIMIT], and nothing says so. *)

Lemma mark_cuts kind d a b : zlen d = journalItems - 1 -> (kind, a) ∈ d ->
  mark (mkJournal d false) (kind, [a; b]) = mkJournal d false.
Proof.
  intros Hd Ha. unfold mark. cbn [dirty overflow fst snd map]. assert (journalRoom d = 1%nat) as -> by (unfold journalRoom; lia).
  cbn. unfold add_key. rewrite decide_True by done. f_equal. apply Z.leb_gt. lia.
Qed.

(** *** Deciding the hypotheses *)

#[export] Instance schema_ok_dec t : Decision (schema_ok t).
Proof.
  destruct (decide
    (map_Forall (fun i v => map_Forall (fun j w => ws_task v = ws_task w -> i = j) (workspaces t)) (workspaces t)
     /\ map_Forall (fun _ m => is_Some (workspaces t !! mt_workspace m)) (mounts t)
     /\ map_Forall (fun _ b => tb_latest b = None \/ is_Some (tb_latest b ≫= (fun s => runs t !! s))) (tabs t)
     /\ map_Forall (fun i r => map_Forall (fun j q => run_id r = run_id q -> i = j) (runs t)) (runs t))) as [H|H]; [left|right].
  - abstract (destruct H as (H1 & H2 & H3 & H4);
      split; [intros i j v w Hv Hw; exact (H1 i v Hv j w Hw)|exact H2| |intros i j r q Hr Hq; exact (H4 i r Hr j q Hq)];
      intros i b s Hb Hl; destruct (H3 i b Hb) as [Hn|Hn]; rewrite Hl in Hn; done).
  - abstract (intros [H1 H2 H3 H4]; apply H; split_and!; [intros i v Hv j w Hw; by eapply H1|exact H2| |intros i v Hv j w Hw; by eapply H4];
      intros i b Hb; destruct (tb_latest b) eqn:El; [right; cbn; by eapply H3|by left]).
Defined.

#[export] Instance keeps_identity_dec c t : Decision (keeps_identity c t).
Proof.
  destruct c as [| |i [x|]| | | | |s [x|]| | |]; cbn; try apply _; [destruct (workspaces t !! i)|destruct (runs t !! s)]; cbn; apply _.
Defined.

#[export] Instance valid_changes_dec cs t : Decision (valid_changes cs t).
Proof. revert t. induction cs as [|c cs IH]; intros t; cbn; apply _. Defined.

Definition example_mount (id ws : string) (at_ : Z) : MountRow :=
  mkMountRow at_ id ws "web" src_checkout "r1" "/home/me/web" None "ready" None None None at_.

Definition example_run (n : Z) (l : BusinessMirror.RunLifecycle) : RunRow :=
  mkRunRow (mkRun "srv" "inst" (if n =? 1 then "run-1" else "run-2")) (Some "tab1"%string) l (100 + n) (Some JNull).

Definition example_tables : Tables :=
  mkTables {["r1"%string := mkRepoRow 0 "web" "/home/me/web" None 1]}
    {["t1"%string := mkTaskRow 0 "one" "one" false 1; "t2"%string := mkTaskRow 0 "two" "two" false 2]}
    {["w1"%string := mkWorkspaceRow "t1" 0 "/w/1"; "w2"%string := mkWorkspaceRow "t2" 0 "/w/2"]}
    {["m1"%string := example_mount "m1" "w1" 1; "m2"%string := example_mount "m2" "w2" 2]}
    {["tab1"%string := mkTabRow "t1" 0 "shell" (Some JNull) (Some JNull) 3 (Some 1)]}
    {[1 := example_run 1 lc_running]} ∅ (Some (mkConfigRow 0 JNull)) None.

(** Task 2 gives up the shared checkout, a second run of the tab takes over, the tab's task is renamed. *)

Definition example_changes : list Change :=
  [d_mount "m2" None; d_run 1 (Some (example_run 1 lc_exited)); d_run 2 (Some (example_run 2 lc_starting));
   d_tab "tab1" (Some (mkTabRow "t1" 1 "shell" (Some JNull) (Some JNull) 3 (Some 2)));
   d_task "t1" (Some (mkTaskRow 1 "uno" "one" false 1))].

Definition example_published : list BusinessChange :=
  let '(t, j) := transaction example_changes example_tables in
  match collect (fun _ => 100) t j with pub_changes chs => chs | pub_reset => [] end.

Lemma journal_complete_witness :
  map (fun c => match c with ch_upsert v => (kind_name (b_kind v), b_id v) | ch_delete k i => (kind_name k, i) end) example_published
    = [("run", businessRunId (rn_ref (example_run 1 lc_exited))); ("run", businessRunId (rn_ref (example_run 2 lc_exited)));
       ("tab", "tab1"); ("task", "t1"); ("task", "t2")]%string
  /\ (forall kind id, known_key kind id -> (forall c, c ∈ example_published -> ~ names kind id c) ->
        projectBusinessRecord (transaction example_changes example_tables).1 kind id = projectBusinessRecord example_tables kind id).
Proof.
  split; [vm_compute; reflexivity|].
  assert (Hv : valid_changes example_changes example_tables) by (apply (bool_decide_unpack _); vm_compute; exact I).
  assert (Hn : marked_ids example_changes example_tables <= journalItems) by (vm_compute; discriminate).
  pose proof (journal_complete (fun _ => 100) example_changes example_tables example_published Hv Hn) as H.
  unfold example_published in *. destruct (transaction example_changes example_tables) as [t j] eqn:E.
  assert (Hc : exists chs, collect (fun _ => 100) t j = pub_changes chs).
  { assert (Ht : t = (transaction example_changes example_tables).1) by (by rewrite E).
    assert (Hj : j = (transaction example_changes example_tables).2) by (by rewrite E). subst. vm_compute. by eexists. }
  destruct Hc as [chs Hc]. rewrite Hc in *. apply (H eq_refl).
Defined.

(** The same in a whole transaction: 4094 repositories are registered, task 1 is
    renamed, task 2 gives up the checkout it shares with task 1.  Only the
    second task is cut off, the journal does not say that it is full, and the
    record of task 2 has changed. *)

Definition register (id : string) : Change := d_repo id (Some (mkRepoRow 0 "r" "/r" None 1)).

Definition full_changes (ids : list string) : list Change :=
  map register ids ++ [d_task "t1" (Some (mkTaskRow 1 "uno" "one" false 1)); d_mount "m2" None].

Lemma mark_one d k id : zlen d < journalItems - 1 -> mark (mkJournal d false) (k, [id]) = mkJournal (add_key d (k, id)) false.
Proof.
  intros Hd. pose proof (zlen_nonneg d). unfold mark. cbn [dirty overflow fst snd map orb]. rewrite take_ge by (cbn; unfold journalRoom; lia).
  cbn [foldl]. f_equal. apply Z.leb_gt. pose proof (add_keys_size [(k, id)] d) as H0. cbn [foldl] in H0. rewrite zlen_cons, zlen_nil in H0. lia.
Qed.

Lemma registered ids : forall rp ta ws mt tb rn op cf ec d, NoDup ids -> (forall id, id ∈ ids -> (k_repo, id) ∉ d) ->
  zlen d + zlen ids < journalItems ->
  exists rp', foldl (fun s c => journal_change c s) (mkTables rp ta ws mt tb rn op cf ec, mkJournal d false) (map register ids)
    = (mkTables rp' ta ws mt tb rn op cf ec, mkJournal (d ++ map (pair k_repo) ids) false).
Proof.
  induction ids as [|id ids IH]; intros rp ta ws mt tb rn op cf ec d Hn Hd Hz.
  - exists rp. cbn. by rewrite app_nil_r.
  - apply NoDup_cons in Hn as [Hi Hn]. rewrite zlen_cons in Hz. pose proof (zlen_nonneg ids). cbn [map foldl]. unfold journal_change at 2.
    cbn [fst snd register marks foldl change]. rewrite mark_one by lia. unfold add_key. rewrite decide_False by (apply Hd; left).
    destruct (IH (put_row id (Some (mkRepoRow 0 "r" "/r" None 1)) rp) ta ws mt tb rn op cf ec (d ++ [(k_repo, id)])) as [rp' E]; [done| | |].
    + intros x Hx. rewrite elem_of_app, list_elem_of_singleton. intros [H1|[= ->]]; [|done]. by apply (Hd x); [right|].
    + rewrite zlen_app, zlen_cons, zlen_nil. lia.
    + exists rp'. etransitivity; [exact E|]. by rewrite <- app_assoc.
Qed.

Lemma journal_misses ids : NoDup ids -> zlen ids = journalItems - 2 ->
  let '(t', j) := transaction (full_changes ids) example_tables in
  overflow j = false /\ ((k_task, "t2"%string) ∉ dirty j)
  /\ projectBusinessRecord t' k_task "t2" <> projectBusinessRecord example_tables k_task "t2".
Proof.
  intros Hn Hz. unfold transaction, full_changes. rewrite foldl_app. unfold clear. unfold example_tables at 1.
  destruct (registered ids {["r1"%string := mkRepoRow 0 "web" "/home/me/web" None 1]} (tasks example_tables) (workspaces example_tables)
    (mounts example_tables) (tabs example_tables) (runs example_tables) ∅ (Some (mkConfigRow 0 JNull)) None []) as [rp E];
    [done|by intros ?? ?%elem_of_nil|rewrite zlen_nil; unfold journalItems in *; lia|].
  unfold example_tables in E. cbn [tasks workspaces mounts tabs runs] in E. rewrite E. clear E. cbn [Datatypes.app foldl].
  assert (Hk : forall k id, k <> k_repo -> (k, id) ∉ map (pair k_repo) ids) by (intros k id Hk (x & [= ? ?] & _)%list_elem_of_fmap; done).
  assert (Hl : @zlen DirtyKey (map (pair k_repo) ids) = journalItems - 2) by (unfold zlen in *; by rewrite length_map).
  generalize dependent (map (pair k_repo) ids). intros d Hk Hl. unfold journal_change at 2. cbn [fst snd marks foldl change].
  rewrite mark_one by lia. unfold add_key. rewrite decide_False by (by apply Hk). unfold journal_change. cbn [fst snd].
  set (after := change (d_mount "m2" None) _). set (ms := marks (d_mount "m2" None) _).
  assert (Hm : ms = [(k_task, ["t1"; "t2"]%string)]) by (vm_compute; reflexivity). rewrite Hm. cbn [foldl].
  rewrite mark_cuts; [|rewrite zlen_app, zlen_cons, zlen_nil; lia|rewrite elem_of_app; right; by left].
  split_and!; [done| |vm_compute; discriminate]. cbn [dirty]. rewrite elem_of_app, list_elem_of_singleton. intros [H|[=]]. by apply (Hk k_task) in H.
Qed.
