(* ===== verification/BusinessStream.v ===== *)
(** * The publication order of business changes (apps/server/src/business/event-stream.ts)

    [BusinessEventStream] numbers the published changes, keeps a bounded window
    of them and hands them to its subscribers.  A subscriber is an object; its
    [emit] belongs to a connection: what it does when called, whom it disposes and
    whether it throws, is the parameter [emits].  It must not call the
    stream's own publishing methods back, as the source demands of it.  The
    frames handed to subscribers are recorded, in order, in [emitted].
    [changesBytes] is [Buffer.byteLength(JSON.stringify(changes))], [createId n] the
    n-th identifier that [createId] returns. *)

From S2P Require Import Prelude Json Protocol Operations JsMap BusinessMirror.

Definition frameBytes : Z := 256 * 1024.
Definition windowItems : Z := 4096.

Record Batch := mkBatch { bt_sequence : Z; bt_changes : list BusinessChange; bt_bytes : Z }.

Record Subscriber := mkSubscriber { su_filter : BusinessFilter; su_cursor : BusinessCursor }.

Record BusinessWindowLimits := mkWindowLimits { wl_bytes : Z; wl_items : Z; wl_subscriptions : Z }.

(** What [emit] does: the subscribers whose [dispose] it calls, and whether it throws. *)

Record EmitOutcome := mkEmitOutcome { eo_disposed : list nat; eo_throws : bool }.

Record BusinessEventStream := mkStream {
  streamId : string;
  sequence : Z;
  window_bytes : Z;
  window : list Batch;
  subscribers : list nat;
  unavailable : bool;
  objects : jsmap nat Subscriber;
  created : nat;
  emitted : list (nat * BusinessFrame);
}.

Definition validLimits (l : BusinessWindowLimits) : bool :=
  forallb (fun v => isSafeInteger v && (1 <=? v)) [wl_bytes l; wl_items l; wl_subscriptions l].

(** *** Updates of the state *)

Definition set_window (n b : Z) (w : list Batch) (s : BusinessEventStream) : BusinessEventStream :=
  mkStream (streamId s) n b w (subscribers s) (unavailable s) (objects s) (created s) (emitted s).

Definition set_subscribers (l : list nat) (s : BusinessEventStream) : BusinessEventStream :=
  mkStream (streamId s) (sequence s) (window_bytes s) (window s) l (unavailable s) (objects s) (created s) (emitted s).

Definition set_object (id : nat) (o : Subscriber) (s : BusinessEventStream) : BusinessEventStream :=
  mkStream (streamId s) (sequence s) (window_bytes s) (window s) (subscribers s) (unavailable s) (jset id o (objects s))
    (created s) (emitted s).

Definition stream_dispose (id : nat) (s : BusinessEventStream) : BusinessEventStream :=
  set_subscribers (List.filter (fun i => negb (Nat.eqb i id)) (subscribers s)) s.

Definition record_frame (id : nat) (f : BusinessFrame) (s : BusinessEventStream) : BusinessEventStream :=
  mkStream (streamId s) (sequence s) (window_bytes s) (window s) (subscribers s) (unavailable s) (objects s)
    (created s) (emitted s ++ [(id, f)]).

Section stream.
Context (identity : BusinessIdentity) (limits : BusinessWindowLimits) (createId : nat -> string)
  (emits : nat -> BusinessFrame -> EmitOutcome) (changesBytes : list BusinessChange -> Z).

Definition newBusinessEventStream : option BusinessEventStream :=
  if validLimits limits then Some (mkStream (createId 0) 0 0 [] [] false [] 1 []) else None.

Definition cursor_for (f : BusinessFilter) (s : BusinessEventStream) : BusinessCursor :=
  mkCursor (bi_serverId identity) (bi_relayInstanceId identity) (streamId s) (sequence s) (businessFilterIdentity f).

(** A call of [emit], without what the caller does when it throws. *)

Definition emit (id : nat) (f : BusinessFrame) (s : BusinessEventStream) : BusinessEventStream :=
  foldl (fun s i => stream_dispose i s) (record_frame id f s) (eo_disposed (emits id f)).

(** [None]: an exception. *)

Definition stream_capture (records runtime : list BusinessRecord) (f : BusinessFilter) (s : BusinessEventStream)
    : option (list BusinessRecord * BusinessCursor) :=
  if unavailable s then None
  else
    let kept := List.filter (fun v => includes (normalizedBusinessKinds f) (b_kind v)) (records ++ runtime) in
    if forallb BusinessRecordSchema kept then Some (kept, cursor_for f s) else None.

Definition invalidate (reason : string) (unavail : bool) (s : BusinessEventStream) : BusinessEventStream :=
  let previous := subscribers s in
  let s := mkStream (createId (created s)) 0 0 [] [] (unavailable s || unavail) (objects s) (S (created s)) (emitted s) in
  foldl (fun s id => emit id (f_reset reason) s) s previous.

Definition change_kind (c : BusinessChange) : BusinessKind := match c with ch_upsert v => b_kind v | ch_delete k _ => k end.

Definition filter_changes (f : BusinessFilter) (changes : list BusinessChange) : list BusinessChange :=
  List.filter (fun c => includes (normalizedBusinessKinds f) (change_kind c)) changes.

Definition deliver (batch : Batch) (s : BusinessEventStream) (id : nat) : BusinessEventStream :=
  match jget id (objects s) with
  | None => s
  | Some subscriber =>
     let after := su_cursor subscriber in
     let cursor := with_sequence after (bt_sequence batch) in
     let changes := filter_changes (su_filter subscriber) (bt_changes batch) in
     let s := set_object id (mkSubscriber (su_filter subscriber) cursor) s in
     let frame := f_changes after cursor changes in
     let s := emit id frame s in
     if eo_throws (emits id frame) then stream_dispose id s else s
  end.

(** The loop that shortens the window; [None]: [shift()!.bytes] of an empty one throws. *)

Fixpoint trim (w : list Batch) (b : Z) : option (list Batch * Z) :=
  if (wl_items limits <? zlen w) || (wl_bytes limits <? b)
  then match w with [] => None | batch :: w => trim w (b - bt_bytes batch) end
  else Some (w, b).

Definition publish (input : list BusinessChange) (s : BusinessEventStream) : BusinessEventStream :=
  if unavailable s || (zlen input =? 0) then s
  else if negb (forallb BusinessChangeSchema input) then invalidate "publication-uncertain" false s
  else
    let n := changesBytes input in
    if (journalItems <? zlen input) || (Z.min (wl_bytes limits) (frameBytes - 2048) <? n) || (sequence s =? MAX_SAFE_INTEGER)
    then invalidate "overflow" false s
    else
      let batch := mkBatch (sequence s + 1) input n in
      match trim (window s ++ [batch]) (window_bytes s + n) with
      | None => invalidate "publication-uncertain" false s
      | Some (w, b) =>
         let s := set_window (sequence s + 1) b w s in
         foldl (deliver batch) s (subscribers s)
      end.

Inductive SubscribeResult := sub_attached (id : nat) | sub_reset (reason : string) | sub_busy.

(** The loop of [subscribe] over the window. *)

Fixpoint replay (id : nat) (since : Z) (batches : list Batch) (s : BusinessEventStream) : BusinessEventStream :=
  match batches with
  | [] => s
  | batch :: batches =>
     if negb (existsb (Nat.eqb id) (subscribers s)) then s
     else replay id since batches (if since <? bt_sequence batch then deliver batch s id else s)
  end.

Definition window_start (s : BusinessEventStream) : Z :=
  match window s with batch :: _ => bt_sequence batch | [] => sequence s + 1 end - 1.

Definition subscribe (f : BusinessFilter) (since : BusinessCursor) (s : BusinessEventStream)
    : SubscribeResult * BusinessEventStream :=
  if unavailable s then (sub_reset "unavailable", s)
  else if negb (seqb (bcu_serverId since) (bi_serverId identity)) || negb (seqb (bcu_relayInstanceId since) (bi_relayInstanceId identity))
  then (sub_reset "identity", s)
  else if negb (seqb (bcu_streamId since) (streamId s)) then (sub_reset "generation", s)
  else if negb (seqb (bcu_filter since) (businessFilterIdentity f)) then (sub_reset "filter", s)
  else if (sequence s <? bcu_sequence since) || (bcu_sequence since <? window_start s) then (sub_reset "gap", s)
  else if wl_subscriptions limits <=? zlen (subscribers s) then (sub_busy, s)
  else
    let id := length (objects s) in
    let s := set_subscribers (subscribers s ++ [id]) (set_object id (mkSubscriber f since) s) in
    (sub_attached id, replay id (bcu_sequence since) (window s) s).

Definition stream_close (s : BusinessEventStream) : BusinessEventStream := invalidate "unavailable" true s.

Record Retained := mkRetained { rt_bytes : Z; rt_items : Z; rt_subscriptions : Z }.

Definition retained (s : BusinessEventStream) : Retained :=
  mkRetained (window_bytes s) (zlen (window s)) (zlen (subscribers s)).

(** ** Calls *)

Inductive StreamCall :=
  | so_publish (changes : list BusinessChange)
  | so_subscribe (f : BusinessFilter) (since : BusinessCursor)
  | so_dispose (id : nat)
  | so_invalidate (reason : string) (unavail : bool)
  | so_close.

Definition stream_call (c : StreamCall) (s : BusinessEventStream) : BusinessEventStream :=
  match c with
  | so_publish changes => publish changes s
  | so_subscribe f since => (subscribe f since s).2
  | so_dispose id => stream_dispose id s
  | so_invalidate reason unavail => invalidate reason unavail s
  | so_close => stream_close s
  end.

(** The history of a stream: what it published under which number, whom it attached. *)

Inductive StreamFact :=
  | sf_published (stream : string) (n : Z) (changes : list BusinessChange)
  | sf_attached (id : nat) (f : BusinessFilter) (since : BusinessCursor).

Definition facts_of (c : StreamCall) (s s' : BusinessEventStream) : list StreamFact :=
  match c with
  | so_publish changes => if seqb (streamId s') (streamId s) && (sequence s' =? sequence s + 1) then [sf_published (streamId s') (sequence s') changes] else []
  | so_subscribe f since => match (subscribe f since s).1 with sub_attached id => [sf_attached id f since] | _ => [] end
  | _ => []
  end.

Definition stream_step (sl : BusinessEventStream * list StreamFact) (c : StreamCall) : BusinessEventStream * list StreamFact :=
  let s' := stream_call c sl.1 in (s', sl.2 ++ facts_of c sl.1 s').

End stream.

(** ** What a subscriber receives *)

Definition frames_to (id : nat) (em : list (nat * BusinessFrame)) : list BusinessFrame :=
  omap (fun p => if decide (p.1 = id) then Some p.2 else None) em.

(** Frames that lead from one cursor to another without a gap: each carries what
    was published under the next number, filtered. *)

Inductive follows (log : list StreamFact) (f : BusinessFilter) : BusinessCursor -> list BusinessFrame -> BusinessCursor -> Prop :=
  | follows_none c : follows log f c [] c
  | follows_more a fs b changes : follows log f a fs b -> sf_published (bcu_streamId b) (bcu_sequence b + 1) changes ∈ log ->
      follows log f a (fs ++ [f_changes b (with_sequence b (bcu_sequence b + 1)) (filter_changes f changes)])
        (with_sequence b (bcu_sequence b + 1)).

Lemma follows_mono log log' f a fs b : log ⊆ log' -> follows log f a fs b -> follows log' f a fs b.
Proof. intros Hs. induction 1; [constructor|]. constructor; [done|]. by apply Hs. Qed.

Lemma frames_to_snoc id em p : frames_to id (em ++ [p]) = frames_to id em ++ (if decide (p.1 = id) then [p.2] else []).
Proof. unfold frames_to. rewrite omap_app. cbn. by case_decide. Qed.

Lemma frames_to_none id (em : list (nat * BusinessFrame)) : (forall p, p ∈ em -> p.1 <> id) -> frames_to id em = [].
Proof.
  unfold frames_to. induction em as [|p em IH]; intros H; cbn; [done|]. rewrite decide_False by (apply H; left). apply IH. intros q Hq. apply H. by right.
Qed.

Lemma frames_to_elem (p : nat * BusinessFrame) em : p ∈ em <-> p.2 ∈ frames_to p.1 em.
Proof.
  unfold frames_to. rewrite list_elem_of_omap. split.
  - intros Hp. exists p. split; [done|]. by rewrite decide_True.
  - intros (q & Hq & Hs). case_decide as E; [|done]. injection Hs as Hs. by destruct p, q; cbn in *; subst.
Qed.

(** Received so far: everything up to the subscriber's cursor and nothing else. *)

Definition caught_up (log : list StreamFact) (s : BusinessEventStream) (id : nat) (f : BusinessFilter) (since c : BusinessCursor) : Prop :=
  jget id (objects s) = Some (mkSubscriber f c) /\ follows log f since (frames_to id (emitted s)) c.

Definition was_reset (log : list StreamFact) (s : BusinessEventStream) (id : nat) (f : BusinessFilter) (since : BusinessCursor) : Prop :=
  exists fs c reason, follows log f since fs c /\ frames_to id (emitted s) = fs ++ [f_reset reason].

(** The parts of a stream that handing over frames leaves alone. *)

Record same_stream (s s' : BusinessEventStream) : Prop := mkSameStream {
  sm_streamId : streamId s' = streamId s;
  sm_sequence : sequence s' = sequence s;
  sm_bytes : window_bytes s' = window_bytes s;
  sm_window : window s' = window s;
  sm_unavailable : unavailable s' = unavailable s;
  sm_created : created s' = created s;
  sm_subscribers : sublist (subscribers s') (subscribers s);
}.

#[export] Instance same_stream_preorder : PreOrder same_stream.
Proof.
  split; [intros s; by constructor|]. intros a b c [] []. constructor; try congruence. by etransitivity.
Qed.

Lemma dispose_all_same ids : forall s, same_stream s (foldl (fun s i => stream_dispose i s) s ids)
  /\ objects (foldl (fun s i => stream_dispose i s) s ids) = objects s /\ emitted (foldl (fun s i => stream_dispose i s) s ids) = emitted s.
Proof.
  induction ids as [|i ids IH]; intros s; cbn [foldl]; [by split|]. destruct (IH (stream_dispose i s)) as (H1 & H2 & H3).
  split_and!; [|done..]. etransitivity; [|exact H1]. constructor; try done. apply filter_sublist.
Qed.

Lemma emit_same emits id f s : same_stream s (emit emits id f s) /\ objects (emit emits id f s) = objects s
  /\ emitted (emit emits id f s) = emitted s ++ [(id, f)].
Proof.
  unfold emit. destruct (dispose_all_same (eo_disposed (emits id f)) (record_frame id f s)) as ([] & H2 & H3).
  split_and!; [|by rewrite H2|by rewrite H3]. by constructor.
Qed.

Lemma deliver_spec emits log batch s id f since c : caught_up log s id f since c ->
  bt_sequence batch = bcu_sequence c + 1 -> sf_published (bcu_streamId c) (bt_sequence batch) (bt_changes batch) ∈ log ->
  let s' := deliver emits batch s id in
  same_stream s s' /\ caught_up log s' id f since (with_sequence c (bt_sequence batch))
  /\ (forall i, i <> id -> jget i (objects s') = jget i (objects s) /\ frames_to i (emitted s') = frames_to i (emitted s))
  /\ length (objects s') = length (objects s).
Proof.
  intros [Ho Hf] Hn Hp. cbn zeta. unfold deliver. rewrite Ho. cbn [su_cursor su_filter].
  set (frame := f_changes _ _ _). set (s1 := set_object _ _ s). destruct (emit_same emits id frame s1) as (H1 & H2 & H3).
  assert (Hlen : length (jset id (mkSubscriber f (with_sequence c (bt_sequence batch))) (objects s)) = length (objects s)).
  { pose proof (jkeys_set_old id (mkSubscriber f (with_sequence c (bt_sequence batch))) (objects s)) as Hk.
    rewrite <- (length_fmap fst (jset _ _ _)), <- (length_fmap fst (objects s)). unfold jkeys in Hk. rewrite Hk; [done|]. by eexists. }
  assert (Hgoal : forall s2, same_stream s1 s2 -> objects s2 = objects s1 -> emitted s2 = emitted s1 ++ [(id, frame)] ->
    same_stream s s2 /\ caught_up log s2 id f since (with_sequence c (bt_sequence batch))
    /\ (forall i, i <> id -> jget i (objects s2) = jget i (objects s) /\ frames_to i (emitted s2) = frames_to i (emitted s))
    /\ length (objects s2) = length (objects s)).
  { intros s2 [] Eo Ee. cbn in *. unfold caught_up. rewrite Eo, Ee. cbn [s1 set_object objects emitted]. split_and!; [by constructor|..].
    - by rewrite jget_set, decide_True.
    - rewrite frames_to_snoc. cbn [fst snd]. rewrite decide_True by done. unfold frame. rewrite Hn. apply follows_more; [done|]. by rewrite <- Hn.
    - intros i Hi. rewrite jget_set, decide_False by done. split; [done|]. rewrite frames_to_snoc. cbn [fst]. rewrite decide_False by congruence.
      by rewrite app_nil_r.
    - exact Hlen. }
  destruct (eo_throws _); apply Hgoal; try done. etransitivity; [exact H1|]. constructor; try done. apply filter_sublist.
Qed.

(** ** The invariant *)

Section invariant.
Context (identity : BusinessIdentity) (limits : BusinessWindowLimits) (createId : nat -> string)
  (emits : nat -> BusinessFrame -> EmitOutcome) (changesBytes : list BusinessChange -> Z).
Hypothesis fresh_ids : forall i j, createId i = createId j -> i = j.

Record numbered (log : list StreamFact) (s : BusinessEventStream) : Prop := mkNumbered {
  nb_stream : exists n, created s = S n /\ streamId s = createId n;
  nb_published : forall g n changes, sf_published g n changes ∈ log ->
    exists i, g = createId i /\ (i < created s)%nat /\ (g = streamId s -> n <= sequence s);
  nb_unique : forall g n changes changes', sf_published g n changes ∈ log -> sf_published g n changes' ∈ log -> changes = changes';
}.

Record windowed (log : list StreamFact) (s : BusinessEventStream) : Prop := mkWindowed {
  wd_numbers : map bt_sequence (window s) = seqZ (sequence s - zlen (window s) + 1) (zlen (window s));
  wd_size : 0 <= zlen (window s) <= sequence s;
  wd_published : forall b, b ∈ window s -> sf_published (streamId s) (bt_sequence b) (bt_changes b) ∈ log /\ bt_bytes b = changesBytes (bt_changes b);
  wd_bytes : window_bytes s = lsum bt_bytes (window s);
  wd_limits : zlen (window s) <= wl_items limits /\ window_bytes s <= wl_bytes limits;
}.

Record attended (log : list StreamFact) (s : BusinessEventStream) : Prop := mkAttended {
  at_objects : forall id, is_Some (jget id (objects s)) <-> (id < length (objects s))%nat;
  at_emitted : forall p, p ∈ emitted s -> (p.1 < length (objects s))%nat;
  at_attached : forall id f since, sf_attached id f since ∈ log ->
    exists c, (caught_up log s id f since c /\ (id ∈ subscribers s -> c = cursor_for identity f s))
              \/ ((id ∉ subscribers s) /\ was_reset log s id f since);
  at_known : forall id, id ∈ subscribers s -> exists f since, sf_attached id f since ∈ log;
  at_nodup : NoDup (subscribers s);
  at_limit : zlen (subscribers s) <= wl_subscriptions limits;
  at_single : forall id f f' since since', sf_attached id f since ∈ log -> sf_attached id f' since' ∈ log -> f = f' /\ since = since';
  at_ids : forall id f since, sf_attached id f since ∈ log -> (id < length (objects s))%nat;
  at_every : forall id, (id < length (objects s))%nat -> exists f since, sf_attached id f since ∈ log;
  at_since : forall id f since, sf_attached id f since ∈ log ->
    bcu_serverId since = bi_serverId identity /\ bcu_relayInstanceId since = bi_relayInstanceId identity
    /\ bcu_filter since = businessFilterIdentity f;
}.

Record stream_ok (log : list StreamFact) (s : BusinessEventStream) : Prop := mkStreamOk {
  st_numbered : numbered log s;
  st_windowed : windowed log s;
  st_attended : attended log s;
}.

Lemma caught_mono log log' s id f since c : log ⊆ log' -> caught_up log s id f since c -> caught_up log' s id f since c.
Proof. intros Hs [H1 H2]. split; [done|]. by eapply follows_mono. Qed.

Lemma reset_mono log log' s id f since : log ⊆ log' -> was_reset log s id f since -> was_reset log' s id f since.
Proof. intros Hs (fs & c & r & H1 & H2). exists fs, c, r. split; [by eapply follows_mono|done]. Qed.

Lemma numbered_same log s s' : same_stream s s' -> numbered log s -> numbered log s'.
Proof. intros [] []. constructor; [|intros g n ch Hin; rewrite sm_created0, sm_streamId0, sm_sequence0|]; rewrite ?sm_created0, ?sm_streamId0; eauto. Qed.

Lemma windowed_same log s s' : same_stream s s' -> windowed log s -> windowed log s'.
Proof. intros [] []. constructor; rewrite ?sm_window0, ?sm_sequence0, ?sm_bytes0, ?sm_streamId0; done. Qed.

Lemma sublist_elem {A} (l' l : list A) x : sublist l' l -> x ∈ l' -> x ∈ l.
Proof. intros Hs. by apply (sublist_subseteq _ _ Hs). Qed.

Lemma cursor_same s s' f : same_stream s s' -> cursor_for identity f s' = cursor_for identity f s.
Proof. intros []. unfold cursor_for. by rewrite sm_streamId0, sm_sequence0. Qed.

(** *** Disposal *)

Lemma stream_dispose_ok log s id : stream_ok log s -> stream_ok log (stream_dispose id s).
Proof.
  intros [Hn Hw [A1 A2 A3 A4 A5 A6 A7 A8 A9 A10]].
  assert (Hs : same_stream s (stream_dispose id s)) by (constructor; try done; apply filter_sublist).
  constructor; [by eapply numbered_same|by eapply windowed_same|]. pose proof (sm_subscribers _ _ Hs) as Hsub.
  constructor; try done.
  - intros i f since Hin. destruct (A3 i f since Hin) as (c & [[Hc Hl]|[Hl Hr]]); exists c.
    + left. split; [done|]. intros Hi. by apply Hl, (sublist_elem _ _ _ Hsub).
    + right. split; [|done]. intros Hi. by apply Hl, (sublist_elem _ _ _ Hsub).
  - intros i Hi. by apply A4, (sublist_elem _ _ _ Hsub).
  - by eapply sublist_NoDup.
  - etransitivity; [by apply zlen_sublist|done].
Qed.

(** *** Delivery to a list of subscribers *)

Lemma deliver_all log batch : forall ids s, NoDup ids ->
  (forall id, id ∈ ids -> exists f since c, caught_up log s id f since c /\ bt_sequence batch = bcu_sequence c + 1
     /\ sf_published (bcu_streamId c) (bt_sequence batch) (bt_changes batch) ∈ log) ->
  let s' := foldl (deliver emits batch) s ids in
  same_stream s s' /\ length (objects s') = length (objects s)
  /\ (forall id f since c, id ∈ ids -> caught_up log s id f since c -> caught_up log s' id f since (with_sequence c (bt_sequence batch)))
  /\ (forall id, id ∉ ids -> jget id (objects s') = jget id (objects s) /\ frames_to id (emitted s') = frames_to id (emitted s)).
Proof.
  induction ids as [|i ids IH]; intros s Hn Hall; cbn [foldl]; [split_and!; [done|done|by intros ???? ?%elem_of_nil|done]|].
  apply NoDup_cons in Hn as [Hi Hn]. destruct (Hall i) as (f & since & c & Hc & Hb & Hp); [by left|].
  destruct (deliver_spec emits log batch s i f since c Hc Hb Hp) as (D1 & D2 & D3 & D4).
  assert (Hkeep : forall j f since c, j <> i -> caught_up log s j f since c -> caught_up log (deliver emits batch s i) j f since c).
  { intros j f' since' c' Hj [H1 H2]. destruct (D3 j Hj) as [E1 E2]. split; [by rewrite E1|by rewrite E2]. }
  destruct (IH (deliver emits batch s i)) as (I1 & I2 & I3 & I4); [done| |].
  - intros id Hid. destruct (Hall id) as (f' & since' & c' & Hc' & Hb' & Hp'); [by right|]. exists f', since', c'. split; [|done].
    apply Hkeep; [|done]. intros ->. done.
  - split_and!; [by etransitivity|by rewrite I2| |].
    + intros id f' since' c' [->|Hid]%elem_of_cons Hc'.
      * destruct (I4 i Hi) as [E1 E2]. assert (f' = f /\ c' = c) as [-> ->].
        { destruct Hc as [Ho _], Hc' as [Ho' _]. rewrite Ho in Ho'. by injection Ho'. }
        assert (Hd : caught_up log (deliver emits batch s i) i f since' (with_sequence c (bt_sequence batch))).
        { destruct (deliver_spec emits log batch s i f since' c Hc' Hb Hp) as (_ & D2' & _). done. }
        destruct Hd as [Hd1 Hd2]. split; [by rewrite E1|by rewrite E2].
      * apply I3; [done|]. apply Hkeep; [|done]. by intros ->.
    + intros id Hid. apply not_elem_of_cons in Hid as [Hne Hid]. destruct (I4 id Hid) as [-> ->]. by apply D3.
Qed.

(** *** A new generation *)

Lemma resets ids reason : forall s, subscribers s = [] ->
  foldl (fun s id => emit emits id (f_reset reason) s) s ids
  = mkStream (streamId s) (sequence s) (window_bytes s) (window s) [] (unavailable s) (objects s) (created s)
      (emitted s ++ map (fun id => (id, f_reset reason)) ids).
Proof.
  induction ids as [|i ids IH]; intros s Hs; cbn [foldl map]; [destruct s; cbn in *; subst; by rewrite app_nil_r|].
  destruct (emit_same emits i (f_reset reason) s) as ([] & Ho & He). rewrite IH.
  - rewrite sm_streamId0, sm_sequence0, sm_bytes0, sm_window0, sm_unavailable0, sm_created0, Ho, He. f_equal. by rewrite <- app_assoc.
  - rewrite Hs in sm_subscribers0. by apply sublist_nil_r in sm_subscribers0.
Qed.

Lemma invalidate_eq reason unavail s : invalidate createId emits reason unavail s
  = mkStream (createId (created s)) 0 0 [] [] (unavailable s || unavail) (objects s) (S (created s))
      (emitted s ++ map (fun id => (id, f_reset reason)) (subscribers s)).
Proof. unfold invalidate. by rewrite resets. Qed.

Lemma frames_to_resets id reason ids em : NoDup ids ->
  frames_to id (em ++ map (fun i => (i, f_reset reason)) ids) = frames_to id em ++ (if decide (id ∈ ids) then [f_reset reason] else []).
Proof.
  intros Hn. unfold frames_to. rewrite omap_app. f_equal. induction Hn as [|i ids Hi Hn IH]; cbn; [done|]. rewrite IH.
  destruct (decide (i = id)) as [->|Hne]; cbn.
  - rewrite (decide_True (P := id ∈ id :: ids)) by left. by rewrite decide_False.
  - destruct (decide (id ∈ ids)) as [Hd|Hd]; [rewrite decide_True by (by right)|rewrite decide_False by (by intros [?|?]%elem_of_cons)]; done.
Qed.

Lemma invalidate_ok log s reason unavail : 0 < wl_items limits -> 0 < wl_bytes limits -> 0 < wl_subscriptions limits ->
  stream_ok log s -> stream_ok log (invalidate createId emits reason unavail s).
Proof.
  intros L1 L2 L3 [[(n & Hc & Hi) N2 N3] _ [A1 A2 A3 A4 A5 A6 A7 A8 A9 A10]]. rewrite invalidate_eq. constructor; constructor; cbn; try done; try lia.
  - by exists (created s).
  - intros g k ch Hin. destruct (N2 g k ch Hin) as (i & -> & Hlt & _). exists i. split_and!; [done|lia|]. intros E%fresh_ids. lia.
  - by intros b ?%elem_of_nil.
  - rewrite zlen_nil. lia.
  - intros p [Hp|(i & -> & Hin)%list_elem_of_fmap]%elem_of_app; [by apply A2|]. cbn. destruct (A4 i Hin) as (f & since & Hf). by eapply A8.
  - intros id f since Hin. assert (Hf : frames_to id (emitted s ++ map (fun i => (i, f_reset reason)) (subscribers s))
      = frames_to id (emitted s) ++ (if decide (id ∈ subscribers s) then [f_reset reason] else [])) by (by apply frames_to_resets).
    destruct (A3 id f since Hin) as (c & [[[Ho Hc1] Hl]|[Hl (fs & c' & r & H1 & H2)]]); exists c.
    + case_decide as Hd.
      * right. split; [apply not_elem_of_nil|]. exists (frames_to id (emitted s)), c, reason. split; [done|]. cbn [emitted]. by rewrite Hf.
      * left. split; [|by intros ?%elem_of_nil]. split; [done|]. cbn [emitted]. by rewrite Hf, app_nil_r.
    + right. split; [apply not_elem_of_nil|]. exists fs, c', r. split; [done|]. cbn [emitted]. rewrite Hf, decide_False by done. by rewrite app_nil_r.
  - by intros id ?%elem_of_nil.
  - constructor.
  - rewrite zlen_nil. lia.
Qed.

(** *** Publication *)

Lemma trim_spec w : forall b w' b', trim limits w b = Some (w', b') -> b = lsum bt_bytes w ->
  exists l, w = l ++ w' /\ b' = lsum bt_bytes w' /\ zlen w' <= wl_items limits /\ b' <= wl_bytes limits.
Proof.
  induction w as [|x w IH]; intros b w' b' H Hb; cbn [trim] in H; destruct (_ || _) eqn:E.
  - done.
  - injection H as <- <-. exists []. apply orb_false_iff in E as [E1%Z.ltb_ge E2%Z.ltb_ge]. done.
  - destruct (IH _ _ _ H) as (l & -> & H1 & H2 & H3); [rewrite lsum_cons in Hb; lia|]. exists (x :: l). done.
  - injection H as <- <-. exists []. apply orb_false_iff in E as [E1%Z.ltb_ge E2%Z.ltb_ge]. done.
Qed.

Lemma trim_keeps w b x : 0 < wl_items limits -> b = lsum bt_bytes (w ++ [x]) -> bt_bytes x <= wl_bytes limits ->
  exists l w' b', trim limits (w ++ [x]) b = Some (w' ++ [x], b') /\ w = l ++ w'.
Proof.
  intros L. revert b. induction w as [|y w IH]; intros b Hb Hx; cbn [Datatypes.app trim]; destruct (_ || _) eqn:E.
  - exfalso. rewrite app_nil_l, lsum_cons, lsum_nil in Hb. apply orb_true_iff in E as [E%Z.ltb_lt|E%Z.ltb_lt]; [|lia]. rewrite zlen_cons, zlen_nil in E. lia.
  - by exists [], [], b.
  - destruct (IH (b - bt_bytes y)) as (l & w' & b' & H1 & ->); [cbn [Datatypes.app] in Hb; rewrite lsum_cons in Hb; lia|done|].
    rewrite H1. by exists (y :: l), w', b'.
  - by exists [], (y :: w), b.
Qed.

Lemma seqZ_suffix {A} (f : A -> Z) (l w : list A) q : map f (l ++ w) = seqZ (q - zlen (l ++ w) + 1) (zlen (l ++ w)) ->
  map f w = seqZ (q - zlen w + 1) (zlen w).
Proof.
  intros H. pose proof (zlen_nonneg l). pose proof (zlen_nonneg w). rewrite zlen_app in H.
  rewrite seqZ_app in H by lia. rewrite map_app in H. apply app_inj_1 in H as [_ H]; [|rewrite length_map, length_seqZ; unfold zlen; lia].
  rewrite H. f_equal. lia.
Qed.

(** What a publication does: nothing, a new generation, or a new number. *)

Definition publishable (input : list BusinessChange) (s : BusinessEventStream) : bool :=
  forallb BusinessChangeSchema input && (zlen input <=? journalItems)
  && (changesBytes input <=? Z.min (wl_bytes limits) (frameBytes - 2048)) && negb (sequence s =? MAX_SAFE_INTEGER).

Lemma publish_cases input log s : 0 < wl_items limits -> windowed log s ->
  let s' := publish limits createId emits changesBytes input s in
  s' = s /\ (unavailable s = true \/ input = [])
  \/ (exists reason, s' = invalidate createId emits reason false s)
  \/ publishable input s = true /\ unavailable s = false /\ input <> [] /\ exists l w,
       window s = l ++ w
       /\ let batch := mkBatch (sequence s + 1) input (changesBytes input) in
          lsum bt_bytes (w ++ [batch]) <= wl_bytes limits /\ zlen (w ++ [batch]) <= wl_items limits
          /\ s' = foldl (deliver emits batch) (set_window (sequence s + 1) (lsum bt_bytes (w ++ [batch])) (w ++ [batch]) s) (subscribers s).
Proof.
  intros L [W1 W2 W3 W4 W5]. cbn zeta. unfold publish. destruct (unavailable s) eqn:Eu; [left; by split; [|left]|]. cbn [orb].
  destruct (zlen input =? 0) eqn:Ez; [left; split; [done|right]; by apply zlen_zero, Z.eqb_eq|].
  destruct (forallb BusinessChangeSchema input) eqn:Es; [cbn [negb]|right; left; eauto].
  destruct (_ || _ || _) eqn:E; [right; left; eauto|]. apply orb_false_iff in E as [[E1%Z.ltb_ge E2%Z.ltb_ge]%orb_false_iff E3].
  right; right. split. { unfold publishable. rewrite Es, E3. apply Z.leb_le in E1, E2. by rewrite E1, E2. } split; [done|].
  split. { intros ->. by rewrite zlen_nil in Ez. }
  set (batch := mkBatch _ _ _).
  destruct (trim_keeps (window s) (window_bytes s + changesBytes input) batch) as (l & w & b & Ht & Hw);
    [done|rewrite lsum_app, lsum_cons, lsum_nil; cbn; lia|cbn; lia|].
  exists l, w. split; [done|]. destruct (trim_spec _ _ _ _ Ht) as (l' & _ & -> & T2 & T3); [rewrite lsum_app, lsum_cons, lsum_nil; cbn; lia|].
  cbn zeta. split_and!; [done|done|]. by rewrite Ht.
Qed.

Lemma with_sequence_same c : with_sequence c (bcu_sequence c) = c.
Proof. by destruct c. Qed.

Lemma published_entry log s input : numbered log s ->
  numbered (log ++ [sf_published (streamId s) (sequence s + 1) input]) (set_window (sequence s + 1) 0 [] s).
Proof.
  intros [(n & Hc & Hi) N2 N3]. constructor; cbn; [by exists n|..].
  - intros g k ch [Hin|[= -> -> ->]%list_elem_of_singleton]%elem_of_app.
    + destruct (N2 g k ch Hin) as (i & ? & ? & Hle). exists i. split_and!; [done|done|]. intros E. specialize (Hle E). lia.
    + exists n. split_and!; [done|lia|lia].
  - assert (Hnew : forall ch, sf_published (streamId s) (sequence s + 1) ch ∉ log).
    { intros ch Hin. destruct (N2 _ _ _ Hin) as (i & _ & _ & Hle). specialize (Hle eq_refl). lia. }
    intros g k ch ch' [H1|H1%list_elem_of_singleton]%elem_of_app [H2|H2%list_elem_of_singleton]%elem_of_app.
    + by eapply N3.
    + injection H2 as -> -> ->. by destruct (Hnew ch).
    + injection H1 as -> -> ->. by destruct (Hnew ch').
    + congruence.
Qed.

(** The subscribers after a batch was handed to all of them. *)

Lemma published_attended log s s1 s' input l w batch : stream_ok log s -> window s = l ++ w ->
  batch = mkBatch (sequence s + 1) input (changesBytes input) ->
  s1 = set_window (sequence s + 1) (lsum bt_bytes (w ++ [batch])) (w ++ [batch]) s ->
  s' = foldl (deliver emits batch) s1 (subscribers s) ->
  let log' := log ++ [sf_published (streamId s) (sequence s + 1) input] in
  same_stream s1 s' /\ attended log' s'.
Proof.
  intros [_ _ [A1 A2 A3 A4 A5 A6 A7 A8 A9 A10]] Hw Eb E1 E2 log'. assert (Hlog : log ⊆ log') by (intros x Hx; unfold log'; rewrite elem_of_app; by left).
  assert (Hpub : sf_published (streamId s) (sequence s + 1) input ∈ log') by (unfold log'; rewrite elem_of_app; right; by left).
  assert (Hold : forall id f since, sf_attached id f since ∈ log' -> sf_attached id f since ∈ log).
  { intros id f since Hin. unfold log' in Hin. rewrite elem_of_app, list_elem_of_singleton in Hin. by destruct Hin. }
  assert (Hlive : forall id, id ∈ subscribers s -> exists f since, sf_attached id f since ∈ log /\ caught_up log' s1 id f since (cursor_for identity f s)).
  { intros id Hid. destruct (A4 id Hid) as (f & since & Hin). exists f, since. split; [done|]. destruct (A3 id f since Hin) as (c & [[Hc Hl]|[Hl _]]); [|done].
    subst s1. rewrite <- (Hl Hid). by eapply (caught_mono log). }
  destruct (deliver_all log' batch (subscribers s) s1) as (D1 & D2 & D3 & D4); [done| |].
  { intros id Hid. destruct (Hlive id Hid) as (f & since & _ & Hc). exists f, since, (cursor_for identity f s). by subst batch. }
  rewrite <- E2 in D1, D2, D3, D4. split; [done|]. assert (Hsub : sublist (subscribers s') (subscribers s)) by (subst s1; by destruct D1).
  assert (Hobj : objects s1 = objects s) by (by subst s1). assert (Hem : emitted s1 = emitted s) by (by subst s1). rewrite Hobj, Hem in *.
  assert (Hcur : forall f, cursor_for identity f s' = with_sequence (cursor_for identity f s) (bt_sequence batch)).
  { intros f. unfold cursor_for, with_sequence. rewrite (sm_streamId _ _ D1), (sm_sequence _ _ D1). by subst s1 batch. }
  constructor.
  - intros id. rewrite D2, <- A1. destruct (decide (id ∈ subscribers s)) as [Hd|Hd].
    + destruct (Hlive id Hd) as (f & since & _ & Hc). destruct (D3 id f since _ Hd Hc) as [-> _]. destruct Hc as [Ho _]. rewrite Hobj in Ho. rewrite Ho.
      by split; intros _.
    + by destruct (D4 id Hd) as [-> _].
  - intros p Hp. rewrite D2. destruct (decide (p.1 ∈ subscribers s)) as [(f & since & Hin)%A4|Hd]; [by eapply A8|].
    apply A2, frames_to_elem. destruct (D4 p.1 Hd) as [_ <-]. by apply frames_to_elem.
  - intros id f since Hin%Hold. destruct (decide (id ∈ subscribers s)) as [Hd|Hd].
    + destruct (Hlive id Hd) as (f' & since' & Hin' & Hc). destruct (A7 id f f' since since' Hin Hin') as [<- <-].
      exists (cursor_for identity f s'). left. split; [|done]. rewrite Hcur. by apply (D3 id f since _ Hd).
    + destruct (D4 id Hd) as [F1 F2]. assert (Hd' : id ∉ subscribers s') by (intros Hx; by apply Hd, (sublist_elem _ _ _ Hsub)).
      destruct (A3 id f since Hin) as (c & [[Hc Hl]|[Hl Hr]]); exists c.
      * left. split; [|done]. apply (caught_mono log log') in Hc as [C1 C2]; [|done]. split; [by rewrite F1|by rewrite F2].
      * right. split; [done|]. apply (reset_mono log log') in Hr as (fs & c' & r & R1 & R2); [|done]. exists fs, c', r. by rewrite F2.
  - intros id Hid. apply (sublist_elem _ _ _ Hsub), A4 in Hid as (f & since & Hin). exists f, since. by apply Hlog.
  - by eapply sublist_NoDup.
  - etransitivity; [by apply zlen_sublist|done].
  - intros id f f' since since' H1%Hold H2%Hold. by eapply A7.
  - intros id f since H1%Hold. rewrite D2. by eapply A8.
  - intros id Hid. rewrite D2 in Hid. destruct (A9 id Hid) as (f & since & Hin). exists f, since. by apply Hlog.
  - intros id f since H1%Hold. by eapply A10.
Qed.

Lemma published_windowed log s input l w batch : windowed log s -> window s = l ++ w ->
  batch = mkBatch (sequence s + 1) input (changesBytes input) ->
  lsum bt_bytes (w ++ [batch]) <= wl_bytes limits -> zlen (w ++ [batch]) <= wl_items limits ->
  windowed (log ++ [sf_published (streamId s) (sequence s + 1) input])
    (set_window (sequence s + 1) (lsum bt_bytes (w ++ [batch])) (w ++ [batch]) s).
Proof.
  intros [W1 W2 W3 W4 W5] Hw -> L1 L2. pose proof (zlen_nonneg w). pose proof (zlen_nonneg l). rewrite Hw in W1, W2. rewrite zlen_app in W2.
  set (batch := mkBatch _ _ _) in *. assert (Hz : zlen (w ++ [batch]) = zlen w + 1) by (rewrite zlen_app; done).
  constructor; cbn [window sequence window_bytes streamId set_window]; [|lia| |done|done].
  - rewrite map_app, Hz, (seqZ_suffix _ _ _ _ W1), seqZ_app by lia. cbn [map batch bt_sequence]. rewrite seqZ_one.
    f_equal; [f_equal; lia|f_equal; lia].
  - intros b [Hin| ->%list_elem_of_singleton]%elem_of_app; [|split; [rewrite elem_of_app; right; by left|done]].
    destruct (W3 b) as [H1 H2]; [rewrite Hw, elem_of_app; by right|]. split; [rewrite elem_of_app; by left|done].
Qed.

Lemma published_ok log s input l w : stream_ok log s -> window s = l ++ w ->
  let batch := mkBatch (sequence s + 1) input (changesBytes input) in
  lsum bt_bytes (w ++ [batch]) <= wl_bytes limits -> zlen (w ++ [batch]) <= wl_items limits ->
  let s' := foldl (deliver emits batch) (set_window (sequence s + 1) (lsum bt_bytes (w ++ [batch])) (w ++ [batch]) s) (subscribers s) in
  stream_ok (log ++ [sf_published (streamId s) (sequence s + 1) input]) s' /\ streamId s' = streamId s /\ sequence s' = sequence s + 1.
Proof.
  intros Hok Hw batch L1 L2. cbn zeta. destruct (published_attended log s _ _ input l w _ Hok Hw eq_refl eq_refl eq_refl) as [Hs Ha].
  destruct Hok as [Hnum Hwin _]. split; [|by destruct Hs]. constructor; [|eapply windowed_same; [exact Hs|by eapply published_windowed]|exact Ha].
  eapply numbered_same; [exact Hs|]. destruct (published_entry log s input Hnum). by constructor.
Qed.

(** *** Subscription *)

Lemma with_sequence_twice c n m : with_sequence (with_sequence c n) m = with_sequence c m.
Proof. done. Qed.

Lemma replay_spec log id f since0 c0 : forall batches q s, caught_up log s id f since0 (with_sequence c0 (Z.max (bcu_sequence c0) q)) ->
  map bt_sequence batches = seqZ (q + 1) (zlen batches) ->
  (forall b, b ∈ batches -> sf_published (bcu_streamId c0) (bt_sequence b) (bt_changes b) ∈ log) ->
  let s' := replay emits id (bcu_sequence c0) batches s in
  same_stream s s' /\ length (objects s') = length (objects s)
  /\ (forall i, i <> id -> jget i (objects s') = jget i (objects s) /\ frames_to i (emitted s') = frames_to i (emitted s))
  /\ exists k, caught_up log s' id f since0 (with_sequence c0 k)
       /\ (id ∈ subscribers s' -> k = Z.max (bcu_sequence c0) (q + zlen batches)).
Proof.
  induction batches as [|b batches IH]; intros q s Hc Hn Hp; cbn [replay].
  - split_and!; [done|done|done|]. exists (Z.max (bcu_sequence c0) q). split; [done|]. intros _. rewrite zlen_nil. lia.
  - destruct (existsb _ _) eqn:El; cbn [negb].
    2: { split_and!; [done|done|done|]. exists (Z.max (bcu_sequence c0) q). split; [done|]. intros Hin. exfalso.
         rewrite <- not_true_iff_false in El. apply El, existsb_exists. exists id. split; [by apply list_elem_of_In|apply Nat.eqb_refl]. }
    rewrite zlen_cons in *. pose proof (zlen_nonneg batches). rewrite seqZ_app in Hn by lia. rewrite seqZ_one in Hn.
    cbn [map Datatypes.app] in Hn. injection Hn as Hb Hn.
    assert (Hn' : map bt_sequence batches = seqZ (q + 1 + 1) (zlen batches)) by (by rewrite Hn).
    assert (Hp' : forall b, b ∈ batches -> sf_published (bcu_streamId c0) (bt_sequence b) (bt_changes b) ∈ log) by (intros; apply Hp; by right).
    destruct (bcu_sequence c0 <? bt_sequence b) eqn:Eq.
    + apply Z.ltb_lt in Eq. destruct (deliver_spec emits log b s id f since0 (with_sequence c0 (Z.max (bcu_sequence c0) q))) as (D1 & D2 & D3 & D4);
        [done|cbn; lia|apply Hp; by left|]. destruct (IH (q + 1) (deliver emits b s id)) as (I1 & I2 & I3 & k & I4 & I5); [|done..|].
      * replace (Z.max (bcu_sequence c0) (q + 1)) with (bt_sequence b) by lia. exact D2.
      * split_and!; [by etransitivity|by rewrite I2| |].
        -- intros i Hi. destruct (I3 i Hi) as [-> ->]. by apply D3.
        -- exists k. split; [done|]. intros Hin. rewrite (I5 Hin). f_equal. lia.
    + apply Z.ltb_ge in Eq. destruct (IH (q + 1) s) as (I1 & I2 & I3 & k & I4 & I5); [|done..|].
      * replace (Z.max (bcu_sequence c0) (q + 1)) with (Z.max (bcu_sequence c0) q) by lia. done.
      * split_and!; [done..|]. exists k. split; [done|]. intros Hin. rewrite (I5 Hin). f_equal. lia.
Qed.

Lemma window_start_eq log s : windowed log s -> window_start s = sequence s - zlen (window s).
Proof.
  intros [W1 _ _ _ _]. unfold window_start. destruct (window s) as [|b w]; [rewrite zlen_nil; lia|].
  pose proof (zlen_nonneg w). rewrite zlen_cons in *. rewrite seqZ_cons in W1 by lia. cbn in W1. injection W1 as -> _. lia.
Qed.

Definition subscribe_refusal (f : BusinessFilter) (since : BusinessCursor) (s : BusinessEventStream) : option SubscribeResult :=
  if unavailable s then Some (sub_reset "unavailable")
  else if negb (seqb (bcu_serverId since) (bi_serverId identity)) || negb (seqb (bcu_relayInstanceId since) (bi_relayInstanceId identity))
  then Some (sub_reset "identity")
  else if negb (seqb (bcu_streamId since) (streamId s)) then Some (sub_reset "generation")
  else if negb (seqb (bcu_filter since) (businessFilterIdentity f)) then Some (sub_reset "filter")
  else if (sequence s <? bcu_sequence since) || (bcu_sequence since <? window_start s) then Some (sub_reset "gap")
  else if wl_subscriptions limits <=? zlen (subscribers s) then Some sub_busy
  else None.

Lemma subscribe_eq f since s : subscribe identity limits emits f since s =
  match subscribe_refusal f since s with
  | Some r => (r, s)
  | None => let id := length (objects s) in
     let s := set_subscribers (subscribers s ++ [id]) (set_object id (mkSubscriber f since) s) in
     (sub_attached id, replay emits id (bcu_sequence since) (window s) s)
  end.
Proof.
  unfold subscribe, subscribe_refusal. destruct (unavailable s); [done|]. destruct (_ || _); [done|]. destruct (negb (seqb (bcu_streamId _) _)); [done|].
  destruct (negb _); [done|]. destruct (_ || _); [done|]. by destruct (_ <=? _).
Qed.

Lemma refusal_none f since s : subscribe_refusal f since s = None ->
  unavailable s = false /\ since = with_sequence (cursor_for identity f s) (bcu_sequence since)
  /\ window_start s <= bcu_sequence since <= sequence s /\ zlen (subscribers s) < wl_subscriptions limits.
Proof.
  unfold subscribe_refusal. intros H. destruct (unavailable s); [discriminate H|]. destruct (negb (seqb (bcu_serverId _) _) || _) eqn:E1; [discriminate H|].
  destruct (negb (seqb (bcu_streamId _) _)) eqn:E2; [discriminate H|]. destruct (negb (seqb (bcu_filter _) _)) eqn:E3; [discriminate H|].
  destruct ((sequence s <? _) || _) eqn:E4; [discriminate H|]. destruct (wl_subscriptions limits <=? _) eqn:E5; [discriminate H|]. clear H.
  apply orb_false_iff in E1 as [A1%negb_false_iff A2%negb_false_iff]. apply negb_false_iff in E2, E3. unfold seqb in *.
  apply String.eqb_eq in A1, A2, E2, E3. apply orb_false_iff in E4 as [E4%Z.ltb_ge E4'%Z.ltb_ge]. apply Z.leb_gt in E5.
  split_and!; [done| |lia|lia|lia]. destruct since as [a b c d e]. unfold cursor_for, with_sequence. cbn in *. by subst.
Qed.

Lemma attached_numbered log s s1 id f since : numbered log s ->
  s1 = set_subscribers (subscribers s ++ [id]) (set_object id (mkSubscriber f since) s) -> numbered (log ++ [sf_attached id f since]) s1.
Proof.
  intros [N1 N2 N3] ->. assert (Hold : forall g n ch, sf_published g n ch ∈ log ++ [sf_attached id f since] -> sf_published g n ch ∈ log).
  { intros g n ch Hin. rewrite elem_of_app, list_elem_of_singleton in Hin. by destruct Hin. }
  constructor; [done|intros g n ch Hin%Hold; by eapply N2|intros g n ch ch' H1%Hold H2%Hold; by eapply N3].
Qed.

Lemma attached_windowed log s s1 id f since : windowed log s ->
  s1 = set_subscribers (subscribers s ++ [id]) (set_object id (mkSubscriber f since) s) -> windowed (log ++ [sf_attached id f since]) s1.
Proof.
  intros [W1 W2 W3 W4 W5] ->. constructor; [done|done| |done|done]. intros b Hb. destruct (W3 b Hb). rewrite elem_of_app. by split; [left|].
Qed.

Lemma subscribed_ok log s f since : stream_ok log s -> subscribe_refusal f since s = None ->
  let id := length (objects s) in
  stream_ok (log ++ [sf_attached id f since]) (subscribe identity limits emits f since s).2.
Proof.
  intros [Hnum Hwin [A1 A2 A3 A4 A5 A6 A7 A8 A9 A10]] Href. rewrite subscribe_eq, Href. cbn zeta. cbn [snd]. set (id := length (objects s)).
  set (s1 := set_subscribers _ _). set (s' := replay _ _ _ _ _). set (log' := log ++ _).
  apply refusal_none in Href as (Hu & Hc & Hseq & Hlim). assert (Hlog : log ⊆ log') by (intros x Hx; unfold log'; rewrite elem_of_app; by left).
  assert (Hnone : jget id (objects s) = None) by (apply eq_None_not_Some; rewrite A1; unfold id; lia).
  assert (Hfr : frames_to id (emitted s) = []).
  { apply frames_to_none. intros p Hp E. apply A2 in Hp. unfold id in E. lia. }
  assert (Hidsub : id ∉ subscribers s). { intros (f' & since' & Hin)%A4. apply A8 in Hin. unfold id in Hin. lia. }
  assert (Hid : bcu_streamId since = streamId s) by (by rewrite Hc).
  destruct (replay_spec log' id f since since (window s) (sequence s - zlen (window s)) s1) as (R1 & R2 & R3 & k & R4 & R5).
  { rewrite Z.max_l by (rewrite <- (window_start_eq log) by done; lia). rewrite with_sequence_same. split; [by cbn; rewrite jget_set, decide_True|].
    cbn [emitted s1 set_subscribers set_object]. rewrite Hfr. constructor. }
  { apply Hwin. }
  { intros b Hb. rewrite Hid. by apply Hlog, Hwin. }
  change (window s1) with (window s) in s'. fold s' in R1, R2, R3, R4, R5. pose proof (sm_subscribers _ _ R1) as Hsub.
  assert (R3' : forall i, i <> id -> jget i (objects s') = jget i (objects s) /\ frames_to i (emitted s') = frames_to i (emitted s)).
  { intros i Hi. destruct (R3 i Hi) as [-> ->]. split; [|done]. cbn. by rewrite jget_set, decide_False. }
  assert (Hlen : length (objects s1) = S id). { cbn [s1 set_subscribers set_object objects]. rewrite jkeys_set_new by done. rewrite length_app. cbn. lia. }
  assert (Hlive : forall i, i <> id -> i ∈ subscribers s' -> i ∈ subscribers s).
  { intros i Hi Hin. apply (sublist_elem _ _ _ Hsub) in Hin. cbn in Hin. rewrite elem_of_app, list_elem_of_singleton in Hin. by destruct Hin. }
  assert (Hlt : forall i, i <> id -> (i < S id)%nat <-> (i < id)%nat) by (intros; lia).
  constructor.
  - apply (numbered_same _ s1), (attached_numbered _ s); done.
  - apply (windowed_same _ s1), (attached_windowed _ s); done.
  - constructor.
    + intros i. rewrite R2, Hlen. destruct (decide (i = id)) as [->|Hi].
      * destruct R4 as [-> _]. split; [lia|by eexists].
      * destruct (R3' i Hi) as [-> _]. rewrite Hlt by done. apply A1.
    + intros p Hp. rewrite R2, Hlen. destruct (decide (p.1 = id)) as [->|Hi]; [lia|]. apply Hlt; [done|]. apply A2. apply frames_to_elem.
      destruct (R3' p.1 Hi) as [_ E]. rewrite <- E. by apply frames_to_elem.
    + intros i g since' Hin. unfold log' in Hin. rewrite elem_of_app, list_elem_of_singleton in Hin. destruct Hin as [Hin|[= -> -> ->]].
      * assert (Hi : i <> id) by (intros ->; apply A8 in Hin; unfold id in Hin; lia). destruct (R3' i Hi) as [E1 E2].
        destruct (A3 i g since' Hin) as (c & [[[C1 C2] Hl]|[Hl (fs & c' & r & B1 & B2)]]); exists c.
        -- left. split; [split; [by rewrite E1|rewrite E2; by eapply follows_mono]|]. intros Hs. rewrite (cursor_same s1) by done. by apply Hl, Hlive.
        -- right. split; [by intros Hs%Hlive|]. exists fs, c', r. rewrite E2. split; [by eapply follows_mono|done].
      * exists (with_sequence since k). left. split; [done|]. intros Hs. rewrite (cursor_same s1) by done. rewrite (R5 Hs), Hc. unfold with_sequence, cursor_for. cbn. f_equal. lia.
    + intros i Hi. destruct (decide (i = id)) as [->|Hne]; [exists f, since; unfold log'; rewrite elem_of_app; right; by left|].
      apply Hlive, A4 in Hi as (f' & since' & Hin); [|done]. exists f', since'. by apply Hlog.
    + eapply sublist_NoDup; [|exact Hsub]. cbn. apply NoDup_app. split_and!; [done| |apply NoDup_singleton]. by intros i Hi ->%list_elem_of_singleton.
    + etransitivity; [by apply zlen_sublist|]. cbn [s1 set_subscribers subscribers]. rewrite zlen_app. change (zlen [id]) with 1. lia.
    + intros i g g' c c' H1 H2. unfold log' in *. rewrite elem_of_app, list_elem_of_singleton in H1, H2.
      assert (Hno : forall i g c, sf_attached i g c ∈ log -> i <> id) by (intros j h d Hj ->; apply A8 in Hj; unfold id in Hj; lia).
      destruct H1 as [H1|E1], H2 as [H2|E2]; [by eapply A7| | |by split; congruence].
      * injection E2 as -> _ _. by apply Hno in H1.
      * injection E1 as -> _ _. by apply Hno in H2.
    + intros i g c H1. unfold log' in *. rewrite elem_of_app, list_elem_of_singleton in H1. rewrite R2, Hlen. destruct H1 as [H1|[= -> -> ->]]; [|lia].
      apply A8 in H1. unfold id. lia.
    + intros i Hi. rewrite R2, Hlen in Hi. destruct (decide (i = id)) as [->|Hne]; [exists f, since; unfold log'; rewrite elem_of_app; right; by left|].
      destruct (A9 i) as (g & c & Hin); [unfold id in *; lia|]. exists g, c. by apply Hlog.
    + intros i g c H1. unfold log' in *. rewrite elem_of_app, list_elem_of_singleton in H1. destruct H1 as [H1|[= -> -> ->]]; [by eapply A10|]. by rewrite Hc.
Qed.

Hypothesis limits_ok : validLimits limits = true.

Lemma limits_pos : 0 < wl_items limits /\ 0 < wl_bytes limits /\ 0 < wl_subscriptions limits.
Proof.
  unfold validLimits in limits_ok. cbn [forallb] in limits_ok. rewrite !andb_true_iff in limits_ok.
  destruct limits_ok as ((_ & H1%Z.leb_le) & (_ & H2%Z.leb_le) & (_ & H3%Z.leb_le) & _). lia.
Qed.

Lemma invalidate_stream reason unavail log s : numbered log s -> seqb (streamId (invalidate createId emits reason unavail s)) (streamId s) = false.
Proof.
  intros [(n & Hc & Hi) _ _]. rewrite invalidate_eq. cbn. apply String.eqb_neq. rewrite Hi. intros E%fresh_ids. lia.
Qed.

Lemma stream_step_ok c log s : stream_ok log s ->
  let '(s', log') := stream_step identity limits createId emits changesBytes (s, log) c in stream_ok log' s'.
Proof.
  intros Hok. destruct limits_pos as (L1 & L2 & L3). pose proof (st_numbered _ _ Hok) as Hnum. unfold stream_step. cbn [fst snd].
  destruct c as [input|f since|id|reason unavail|]; cbn [stream_call facts_of].
  - destruct (publish_cases input log s L1 (st_windowed _ _ Hok)) as [[-> _]|[[reason ->]|(_ & _ & _ & l & w & Hw & Hb & Hz & ->)]].
    + assert ((sequence s =? sequence s + 1) = false) as -> by (apply Z.eqb_neq; lia). by rewrite andb_false_r, app_nil_r.
    + rewrite (invalidate_stream _ _ log) by done. rewrite app_nil_r. by apply invalidate_ok.
    + destruct (published_ok log s input l w) as (P1 & P2 & P3); try done. rewrite P2, P3. unfold seqb. rewrite String.eqb_refl, Z.eqb_refl. done.
  - destruct (subscribe_refusal f since s) as [r|] eqn:Er.
    + rewrite subscribe_eq, Er. cbn [fst snd].
      unfold subscribe_refusal in Er. repeat (case_match; [injection Er as <-; by rewrite app_nil_r|]). done.
    + pose proof (subscribed_ok log s f since Hok Er) as Hs. cbn zeta in Hs. rewrite subscribe_eq, Er in *. exact Hs.
  - rewrite app_nil_r. by apply stream_dispose_ok.
  - rewrite app_nil_r. by apply invalidate_ok.
  - rewrite app_nil_r. by apply invalidate_ok.
Qed.

Definition played (calls : list StreamCall) (s0 : BusinessEventStream) : BusinessEventStream * list StreamFact :=
  foldl (stream_step identity limits createId emits changesBytes) (s0, []) calls.

Lemma new_stream_ok s0 : newBusinessEventStream limits createId = Some s0 -> stream_ok [] s0.
Proof.
  unfold newBusinessEventStream. rewrite limits_ok. intros [= <-]. destruct limits_pos as (L1 & L2 & L3).
  constructor; constructor; cbn; try done; try (by intros ???? ?%elem_of_nil); try (by intros ??? ?%elem_of_nil); try (by intros ? ?%elem_of_nil).
  - by exists 0%nat.
  - rewrite zlen_nil. lia.
  - intros id. split; [by intros []|lia].
  - constructor.
  - rewrite zlen_nil. lia.
  - by intros ????? ?%elem_of_nil.
  - intros id Hid. cbn in Hid. lia.
Qed.

Lemma played_ok calls s0 : newBusinessEventStream limits createId = Some s0 -> let '(s, log) := played calls s0 in stream_ok log s.
Proof.
  intros H0. unfold played. assert (Hgen : forall calls s log, stream_ok log s ->
    let '(s', log') := foldl (stream_step identity limits createId emits changesBytes) (s, log) calls in stream_ok log' s').
  { clear calls. induction calls as [|c calls IH]; intros s log Hok; cbn [foldl]; [done|]. pose proof (stream_step_ok c log s Hok) as Hs.
    destruct (stream_step _ _ _ _ _ _ _) as [s' log']. by apply IH. }
  by apply Hgen, new_stream_ok.
Qed.

(** Every frame handed over is a reset or the next number of a cursor of this instance. *)

Definition frame_true (log : list StreamFact) (fr : BusinessFrame) : Prop :=
  match fr with
  | f_changes a b changes => exists f changes0,
      a = mkCursor (bi_serverId identity) (bi_relayInstanceId identity) (bcu_streamId a) (bcu_sequence a) (businessFilterIdentity f)
      /\ b = with_sequence a (bcu_sequence a + 1)
      /\ sf_published (bcu_streamId a) (bcu_sequence a + 1) changes0 ∈ log /\ changes = filter_changes f changes0
  | f_reset _ => True
  | _ => False
  end.

Lemma follows_true log f a fs b : bcu_serverId a = bi_serverId identity /\ bcu_relayInstanceId a = bi_relayInstanceId identity
    /\ bcu_filter a = businessFilterIdentity f -> follows log f a fs b ->
  (bcu_serverId b = bi_serverId identity /\ bcu_relayInstanceId b = bi_relayInstanceId identity /\ bcu_filter b = businessFilterIdentity f)
  /\ Forall (frame_true log) fs.
Proof.
  intros Ha. induction 1 as [|a fs b changes _ IH Hin]; [by split|]. destruct (IH Ha) as [Hb Hfs]. split; [done|].
  apply Forall_app. split; [done|]. constructor; [|done]. exists f, changes. split_and!; try done. destruct Hb as (E1 & E2 & E3), b. cbn in *. by subst.
Qed.

Lemma emitted_true log s p : stream_ok log s -> p ∈ emitted s -> frame_true log p.2.
Proof.
  intros [_ _ A] Hp. destruct (at_every _ _ A p.1) as (f & since & Hin); [by apply (at_emitted _ _ A)|].
  pose proof (at_since _ _ A _ _ _ Hin) as Hs. apply frames_to_elem in Hp.
  destruct (at_attached _ _ A _ _ _ Hin) as (c & [[[_ Hf] _]|[_ (fs & c' & r & Hf & E)]]); destruct (follows_true _ _ _ _ _ Hs Hf) as [_ Hall]; rewrite Forall_forall in Hall.
  - by apply Hall.
  - rewrite E, elem_of_app, list_elem_of_singleton in Hp. destruct Hp as [Hp| ->]; [by apply Hall|done].
Qed.

End invariant.

(** ** Properties *)

(** Every subscriber receives, from the cursor it was attached with on, exactly
    what was published under each following number of its generation, filtered,
    in order, without a gap or a repetition, also when [emit] throws or
    disposes other subscribers in the middle; while it is attached it has
    received everything up to the stream's cursor, and a reset is the last
    frame it receives.  A number of a generation stands for one publication, and
    the window and the subscribers stay within their limits. *)
Theorem subscribers_exact identity limits createId emits changesBytes calls s0 :
  (forall i j, createId i = createId j -> i = j) -> newBusinessEventStream limits createId = Some s0 ->
  let '(s, log) := played identity limits createId emits changesBytes calls s0 in
  (forall id f since, sf_attached id f since ∈ log -> exists fs c, follows log f since fs c
     /\ (frames_to id (emitted s) = fs /\ (id ∈ subscribers s -> c = cursor_for identity f s)
         \/ (id ∉ subscribers s) /\ exists reason, frames_to id (emitted s) = fs ++ [f_reset reason]))
  /\ (forall g n changes changes', sf_published g n changes ∈ log -> sf_published g n changes' ∈ log -> changes = changes')
  /\ rt_items (retained s) <= wl_items limits /\ rt_bytes (retained s) = lsum bt_bytes (window s)
  /\ rt_bytes (retained s) <= wl_bytes limits /\ rt_subscriptions (retained s) <= wl_subscriptions limits.
Proof.
  intros Hfresh H0. assert (Hl : validLimits limits = true) by (unfold newBusinessEventStream in H0; by destruct (validLimits limits)).
  pose proof (played_ok identity limits createId emits changesBytes Hfresh Hl calls s0 H0) as Hok.
  destruct (played _ _ _ _ _ _ _) as [s log]. destruct Hok as [[_ _ N3] [_ _ _ W4 [W5 W6]] A]. split_and!; [|done|done|done|done|apply A].
  intros id f since Hin. destruct (at_attached _ _ _ _ A id f since Hin) as (c & [[[_ Hf] Hc]|[Hn (fs & c' & r & Hf & E)]]).
  - exists (frames_to id (emitted s)), c. split; [done|]. by left.
  - exists fs, c'. split; [done|]. right. split; [done|]. by exists r.
Qed.

Definition example_identity : BusinessIdentity := mkIdentity "srv" "inst".
Definition example_limits : BusinessWindowLimits := mkWindowLimits 1000 2 4.
Definition example_emits (id : nat) (f : BusinessFrame) : EmitOutcome :=
  match id, f with 1%nat, f_changes _ c _ => mkEmitOutcome [] (bcu_sequence c =? 2) | _, _ => mkEmitOutcome [] false end.
Definition example_start : BusinessEventStream := mkStream (pretty 0%nat) 0 0 [] [] false [] 1 [].
Definition example_at (n : Z) : BusinessCursor := mkCursor "srv" "inst" (pretty 0%nat) n "repo".

(** Three publications, the second throws at a second subscriber; a third
    subscriber comes too late for number 0 and resumes from 1; then a reset. *)

Definition example_calls : list StreamCall :=
  [so_subscribe (Some [k_repo]) (example_at 0); so_subscribe (Some [k_repo]) (example_at 0); so_publish [ch_delete k_repo "a"];
   so_publish [ch_delete k_task "b"]; so_publish [ch_delete k_repo "c"; ch_delete k_tab "d"];
   so_subscribe (Some [k_repo]) (example_at 0); so_subscribe (Some [k_repo]) (example_at 1); so_invalidate "overflow" false].

Definition example_played : BusinessEventStream * list StreamFact :=
  played example_identity example_limits (fun n => pretty n) example_emits (fun _ => 100) example_calls example_start.

Lemma subscribers_exact_witness :
  frames_to 0 (emitted example_played.1) =
    [f_changes (example_at 0) (example_at 1) [ch_delete k_repo "a"]; f_changes (example_at 1) (example_at 2) [];
     f_changes (example_at 2) (example_at 3) [ch_delete k_repo "c"]; f_reset "overflow"]
  /\ length (frames_to 1 (emitted example_played.1)) = 2%nat /\ length (frames_to 2 (emitted example_played.1)) = 3%nat
  /\ rt_items (retained example_played.1) <= wl_items example_limits.
Proof.
  split_and!; [vm_compute; reflexivity..|].
  assert (Hf : forall i j : nat, pretty i = pretty j -> i = j) by (intros i j; apply (inj pretty)).
  pose proof (subscribers_exact example_identity example_limits (fun n => pretty n) example_emits (fun _ => 100) example_calls example_start Hf eq_refl) as H.
  unfold example_played. destruct (played _ _ _ _ _ _ _) as [s log]. apply H.
Defined.
