(* ===== verification/BusinessSnapshots.v ===== *)
(** * Runtime facts and captured views (apps/server/src/business/snapshot.ts)

    [BusinessSnapshots] owns the stream: it publishes what the store and the run
    registry report, keeps the last runtime fact of each run, and captures a
    view of the store's records and its facts together with the stream's cursor.
    The pages in which a connection sends a view are [snapshot_frames]
    (transport/business-websocket.ts).  [recordBytes] and [recordsBytes] are
    [Buffer.byteLength(JSON.stringify(value))] of a record and of an array. *)

From S2P Require Import Prelude Json Protocol Pipe Operations JsMap BusinessMirror.
From S2P Require RunRegistry.
From S2P Require Import AuthStore BusinessTables BusinessJournal BusinessStream.

Definition concurrentSnapshots : Z := 4.

#[export] Instance RunRecovery_eq : EqDecision RunRecovery.
Proof. solve_decision. Defined.

#[export] Instance RunStatus_eq : EqDecision RunStatus.
Proof. solve_decision. Defined.

(** A fact is a status without [receivedSeq], [parsedSeq] and [reason]. *)

Record RuntimeObservation := mkObservation { ob_id : string; ob_fact : RunStatus; ob_atSeq : Z }.

Record Capture := mkCapture { cp_filter : BusinessFilter; cp_released : bool }.

Record BusinessSnapshots := mkSnapshots {
  stream : BusinessEventStream;
  facts : jsmap string RuntimeObservation;
  snapshots : Z;
  captures : list Capture;
  bs_closed : bool;
}.

Definition set_stream (s : BusinessEventStream) (b : BusinessSnapshots) : BusinessSnapshots :=
  mkSnapshots s (facts b) (snapshots b) (captures b) (bs_closed b).

Definition set_facts (fs : jsmap string RuntimeObservation) (b : BusinessSnapshots) : BusinessSnapshots :=
  mkSnapshots (stream b) fs (snapshots b) (captures b) (bs_closed b).

Definition runtime_fact (s : RunStatus) : RunStatus :=
  mkRunStatus (rs_run s) (rs_status s) (rs_geometry s) (rs_controlEpoch s) (rs_controlHolder s) None None (rs_recovery s) None
    (rs_exitCode s) (rs_signal s).

Definition status_name (l : Protocol.RunLifecycle) : string :=
  match l with live => "live" | exited => "exited" | unverifiable => "unverifiable" end.

Definition recovery_name (r : RunRecovery) : string :=
  match r with Protocol.ready => "ready" | Protocol.waiting_checkpoint => "waiting-checkpoint" | Protocol.unavailable => "unavailable" end.

Definition observation_value (o : RuntimeObservation) : BusinessRecord :=
  let f := ob_fact o in
  mkRecord (ob_id o) (runtime_record (rs_run f)
    (JObj [("status", JStr (status_name (rs_status f))); ("geometry", Geometry_json (rs_geometry f)); ("controlEpoch", JNum (rs_controlEpoch f));
           ("controlHolder", nullable ControlHolder_json (rs_controlHolder f)); ("recovery", JStr (recovery_name (rs_recovery f)));
           ("exitCode", nullable JNum (rs_exitCode f)); ("signal", nullable JStr (rs_signal f))])).

Definition exited_fact (s : RunStatus) : bool := bool_decide (rs_status s = exited).

(** An older status: the newer boundary stays, contact and exit settle it. *)

Definition settled_by (previous record : RunStatus) : RunStatus :=
  mkRunStatus (rs_run previous) (rs_status record) (rs_geometry previous) (rs_controlEpoch previous) (rs_controlHolder previous) None None
    (rs_recovery record) None
    (if exited_fact record then rs_exitCode record else rs_exitCode previous)
    (if exited_fact record then rs_signal record else rs_signal previous).

Section snapshots.
Context (identity : BusinessIdentity) (limits : BusinessWindowLimits) (createId : nat -> string)
  (emits : nat -> BusinessFrame -> EmitOutcome) (changesBytes : list BusinessChange -> Z) (recordsBytes : list BusinessRecord -> Z).

Abbreviation publish := (BusinessStream.publish limits createId emits changesBytes).
Abbreviation invalidate := (BusinessStream.invalidate createId emits).

(** [storeFailed] is [store.failed]. *)

Definition uncertain (storeFailed : bool) (b : BusinessSnapshots) : BusinessSnapshots :=
  set_stream (invalidate "publication-uncertain" storeFailed (stream b)) b.

Definition store_publication (storeFailed : bool) (p : Publication) (b : BusinessSnapshots) : BusinessSnapshots :=
  match p with
  | pub_reset => uncertain storeFailed b
  | pub_changes changes => set_stream (publish changes (stream b)) b
  end.

(** [None]: the schema throws. *)

Definition observe (status : RunStatus) (b : BusinessSnapshots) : option BusinessSnapshots :=
  let id := businessRunId (rs_run status) in
  let previous := jget id (facts b) in
  if match previous with Some p => exited_fact (ob_fact p) && negb (exited_fact status) | None => false end then Some b
  else
    let atSeq := default (-1) (rs_parsedSeq status) in
    let record := runtime_fact status in
    if negb (RunStatusSchema record) then None
    else
      let record := match previous with
                    | Some p => if (atSeq <? ob_atSeq p) || (rs_controlEpoch record <? rs_controlEpoch (ob_fact p))
                                then settled_by (ob_fact p) record else record
                    | None => record
                    end in
      let value := mkObservation id record (Z.max atSeq (match previous with Some p => ob_atSeq p | None => -1 end)) in
      let b := set_facts (jset id value (facts b)) b in
      if match previous with Some p => bool_decide (ob_fact p = record) | None => false end then Some b
      else Some (set_stream (publish [ch_upsert (observation_value value)] (stream b)) b).

(** [changed] of the run registry's observer; what it throws makes the registry call [uncertain]. *)

Definition registry_changed (storeFailed : bool) (n : RunRegistry.Notice) (b : BusinessSnapshots) : option BusinessSnapshots :=
  match n with
  | RunRegistry.changed _ _ (Some status) => observe status b
  | RunRegistry.changed run _ None =>
     let id := businessRunId run in
     if jhas id (facts b)
     then Some (set_stream (publish [ch_delete k_runtime id] (stream b)) (set_facts (jdelete id (facts b)) b))
     else Some b
  | RunRegistry.uncertain => Some (uncertain storeFailed b)
  end.

(** The status a control or resize event of a worker stands for. *)

Definition event_status (placement : RunRef -> option WorkerRef) (e : PipeEvent) (b : BusinessSnapshots) : option RunStatus :=
  let build seq geometry epoch_holder :=
    match jget (businessRunId (pe_run e)) (facts b), placement (pe_run e) with
    | Some current, Some worker =>
       let fact := ob_fact current in
       if negb (sameWorkerRef worker (pe_worker e)) || negb (sameRunRef (rs_run fact) (pe_run e)) || exited_fact fact || (seq <? ob_atSeq current)
       then None
       else
         let '(epoch, holder) := default (rs_controlEpoch fact, rs_controlHolder fact) epoch_holder in
         Some (mkRunStatus (rs_run fact) live geometry epoch holder (Some seq) (Some seq) (rs_recovery fact) None (rs_exitCode fact) (rs_signal fact))
    | _, _ => None
    end in
  match pe_terminal e with
  | TRun (mkRunEvent _ seq (control epoch holder geometry)) => build seq geometry (Some (epoch, holder))
  | TRun (mkRunEvent _ seq (resize geometry _)) => build seq geometry None
  | _ => None
  end.

Definition runtime_event (storeFailed : bool) (placement : RunRef -> option WorkerRef) (e : PipeEvent) (b : BusinessSnapshots) : BusinessSnapshots :=
  match event_status placement e b with
  | Some status => match observe status b with Some b => b | None => uncertain storeFailed b end
  | None => b
  end.

(** *** Captures *)

(** [None]: busy, before the store is called. *)

Definition begin_capture (f : BusinessFilter) (b : BusinessSnapshots) : option nat * BusinessSnapshots :=
  if bs_closed b || (concurrentSnapshots <=? snapshots b) then (None, b)
  else (Some (length (captures b)), mkSnapshots (stream b) (facts b) (snapshots b + 1) (captures b ++ [mkCapture f false]) (bs_closed b)).

Definition release (id : nat) (b : BusinessSnapshots) : BusinessSnapshots :=
  match captures b !! id with
  | Some c => if cp_released c then b
              else mkSnapshots (stream b) (facts b) (snapshots b - 1) (<[id := mkCapture (cp_filter c) true]> (captures b)) (bs_closed b)
  | None => b
  end.

Inductive CaptureAnswer := ca_too_large | ca_failed | ca_view (records : list BusinessRecord) (cursor : BusinessCursor).

(** The barrier of the store call and its [catch]; [snap_throws]: the call was rejected. *)

Definition settle_capture (id : nat) (result : SnapshotResult) (b : BusinessSnapshots) : CaptureAnswer * BusinessSnapshots :=
  match captures b !! id, result with
  | Some c, snap_records records =>
     match stream_capture identity records (map observation_value (jvalues (facts b))) (cp_filter c) (stream b) with
     | None => (ca_failed, release id b)
     | Some (records, cursor) =>
        if (snapshotBytes <? recordsBytes records) || (snapshotItems <? zlen records) then (ca_too_large, release id b)
        else (ca_view records cursor, b)
     end
  | _, snap_too_large => (ca_too_large, release id b)
  | _, _ => (ca_failed, release id b)
  end.

Definition fact (run : RunRef) (b : BusinessSnapshots) : option BusinessRecord :=
  observation_value <$> jget (businessRunId run) (facts b).

Definition close (b : BusinessSnapshots) : BusinessSnapshots :=
  if bs_closed b then b
  else mkSnapshots (stream_close createId emits (stream b)) [] (snapshots b) (captures b) true.

(** The constructor observes what the registry lists; [None]: it throws. *)

Definition newBusinessSnapshots (listed : list RunStatus) : option BusinessSnapshots :=
  match newBusinessEventStream limits createId with
  | None => None
  | Some s => foldl (fun b status => b ≫= observe status) (Some (mkSnapshots s [] 0 [] false)) listed
  end.

End snapshots.

(** ** Pages (transport/business-websocket.ts) *)

Section pages.
Context (recordBytes : BusinessRecord -> Z).

Definition page_of (snapshotId : string) (page : Z) (records : list BusinessRecord) : list BusinessFrame :=
  match records with [] => [] | _ => [f_snapshot_page snapshotId page records] end.

(** The frames after [snapshot-begin]; a record that fits in no page ends them. *)

Fixpoint send_pages (snapshotId : string) (cursor : BusinessCursor) (rest : list BusinessRecord) (page : Z)
    (records : list BusinessRecord) (bytes : Z) : list BusinessFrame :=
  match rest with
  | [] =>
     page_of snapshotId page records ++ [f_snapshot_end snapshotId (page + zlen (page_of snapshotId page records)) cursor]
  | record :: rest =>
     let size := recordBytes record + 1 in
     if frameBytes - 1024 <? size then []
     else if frameBytes - 1024 <? bytes + size
     then page_of snapshotId page records
          ++ send_pages snapshotId cursor rest (page + zlen (page_of snapshotId page records)) [record] size
     else send_pages snapshotId cursor rest page (records ++ [record]) (bytes + size)
  end.

Definition snapshot_frames (snapshotId : string) (records : list BusinessRecord) (cursor : BusinessCursor) : list BusinessFrame :=
  f_snapshot_begin snapshotId :: send_pages snapshotId cursor records 0 [] 0.

End pages.
