(* ===== verification/BusinessViews.v ===== *)
(** * Views of a world: what a mirror holds at a cursor

    A world is what the server answers for: the tables of the store and the
    runtime facts.  [view_true] says that a list of records is a faithful view of
    a world under a filter; a snapshot of the store gives one, and a batch of
    changes that turns one world into the next turns a view of the one into a
    view of the other the way the mirror applies it. *)

From stdpp Require Import sorting.
From S2P Require Import Prelude Json Protocol Operations JsMap BusinessMirror AuthStore BusinessTables BusinessJournal BusinessStream BusinessSnapshots.

(** ** Keys *)

(** Reads one quoted code unit. *)

Definition unquote_unit (s : string) : option (Ascii.ascii * string) :=
  match s with
  | EmptyString => None
  | String c rest =>
     match Ascii.nat_of_ascii c with
     | 34%nat => None
     | 92%nat =>
        match rest with
        | EmptyString => None
        | String d rest =>
           match Ascii.nat_of_ascii d with
           | 34%nat => Some (Ascii.ascii_of_nat 34, rest)
           | 92%nat => Some (Ascii.ascii_of_nat 92, rest)
           | 98%nat => Some (Ascii.ascii_of_nat 8, rest)
           | 102%nat => Some (Ascii.ascii_of_nat 12, rest)
           | 110%nat => Some (Ascii.ascii_of_nat 10, rest)
           | 114%nat => Some (Ascii.ascii_of_nat 13, rest)
           | 116%nat => Some (Ascii.ascii_of_nat 9, rest)
           | _ =>
              match rest with
              | String _ (String _ (String h (String l rest))) =>
                 let digit x := let n := Ascii.nat_of_ascii x in if (n <? 58)%nat then (n - 48)%nat else (n - 87)%nat in
                 Some (Ascii.ascii_of_nat (16 * digit h + digit l), rest)
              | _ => None
              end
           end
        end
     | _ => Some (c, rest)
     end
  end.

Lemma unquote_quote c s : unquote_unit (quote_unit c +:+ s) = Some (c, s).
Proof. destruct c as [[] [] [] [] [] [] [] []]; reflexivity. Qed.

Lemma quote_units_inj s : forall s' t t', quote_units s +:+ dquote +:+ t = quote_units s' +:+ dquote +:+ t' -> s = s'.
Proof.
  induction s as [|c s IH]; intros [|c' s'] t t' H; cbn [quote_units] in H; rewrite ?append_assoc in H.
  - done.
  - apply (f_equal unquote_unit) in H. by rewrite unquote_quote in H.
  - apply (f_equal unquote_unit) in H. by rewrite unquote_quote in H.
  - apply (f_equal unquote_unit) in H. rewrite !unquote_quote in H. injection H as -> H. f_equal. by eapply IH.
Qed.

Lemma append_cancel p : forall s s' : string, p +:+ s = p +:+ s' -> s = s'.
Proof. induction p as [|c p IH]; intros s s' H; [done|]. apply IH. by injection H. Qed.

Lemma record_key_shape k id :
  record_key k id = ("[" +:+ quote (kind_name k) +:+ "," +:+ dquote) +:+ (quote_units id +:+ dquote +:+ "]").
Proof. unfold record_key. cbn [stringify map comma_join]. unfold quote. by rewrite !append_assoc. Qed.

Lemma record_key_inj k id k' id' : record_key k id = record_key k' id' -> k = k' /\ id = id'.
Proof.
  intros H. pose proof (record_key_kind _ _ _ _ H) as <-. split; [done|]. rewrite !record_key_shape in H.
  apply append_cancel in H. by apply quote_units_inj in H.
Qed.

(** ** Worlds *)

Definition World : Type := Tables * jsmap string RuntimeObservation.

Definition project_world (w : World) (kind : BusinessKind) (id : string) : Projection :=
  match kind with
  | k_runtime => match jget id w.2 with Some o => present (observation_value o) | None => absent_record end
  | _ => projectBusinessRecord w.1 kind id
  end.

Definition facts_ok (fs : jsmap string RuntimeObservation) : Prop :=
  jwf fs /\ forall id o, jget id fs = Some o -> ob_id o = id.

(** What a view must hold: every record but ended runs and final operations. *)

Definition essential (v : BusinessRecord) : bool :=
  match b_record v with
  | operation_record _ _ state _ => negb (finalOperation state)
  | run_record _ _ lifecycle _ _ => activeRun lifecycle
  | _ => true
  end.

Record view_true (w : World) (f : BusinessFilter) (vs : list BusinessRecord) : Prop := mkViewTrue {
  vt_keys : NoDup (map key vs);
  vt_sound : forall v, v ∈ vs -> b_kind v ∈ normalizedBusinessKinds f /\ known_key (b_kind v) (b_id v)
    /\ project_world w (b_kind v) (b_id v) = present v;
  vt_complete : forall kind id v, kind ∈ normalizedBusinessKinds f -> known_key kind id -> project_world w kind id = present v ->
    essential v = true -> v ∈ vs;
}.

(** A batch of changes that turns one world into the next. *)

Record world_changed (w w' : World) (changes : list BusinessChange) : Prop := mkWorldChanged {
  wc_upserts : forall v, ch_upsert v ∈ changes -> known_key (b_kind v) (b_id v) /\ project_world w' (b_kind v) (b_id v) = present v;
  wc_deletes : forall kind id, ch_delete kind id ∈ changes -> project_world w' kind id = absent_record;
  wc_same : forall kind id, known_key kind id -> (forall c, c ∈ changes -> ~ names kind id c) -> project_world w' kind id = project_world w kind id;
}.

(** No revision goes back while its record exists. *)

Definition world_grows (w w' : World) : Prop := forall kind id u v p r, known_key kind id ->
  project_world w kind id = present u -> project_world w' kind id = present v -> b_revision u = Some p -> b_revision v = Some r -> p <= r.

Definition same_world (w w' : World) : Prop := forall kind id, known_key kind id -> project_world w' kind id = project_world w kind id.

Lemma world_key w kind id v : facts_ok w.2 -> known_key kind id -> project_world w kind id = present v -> b_kind v = kind /\ b_id v = id.
Proof.
  intros Hf Hk H. destruct (decide (kind = k_runtime)) as [->|Hn].
  - cbn in H. destruct (jget id w.2) as [o|] eqn:E; [|done]. injection H as <-. split; [done|]. by apply Hf.
  - apply (project_key w.1); [done|]. by destruct kind.
Qed.

(** ** Applying a batch *)

#[export] Instance names_dec kind id c : Decision (names kind id c).
Proof. destruct c; cbn; apply _. Defined.

Lemma find_elem vs v : NoDup (map key vs) -> find_key (key v) vs = Some v <-> v ∈ vs.
Proof.
  induction vs as [|u vs IH]; cbn [find_key map]; [split; [done|by intros ?%elem_of_nil]|]. intros [Hn Hd]%NoDup_cons.
  rewrite elem_of_cons. case_decide as E.
  - split; [intros [= ->]; by left|]. intros [->|Hin]; [done|]. exfalso. apply Hn. rewrite <- E. by apply list_elem_of_fmap_2.
  - rewrite IH by done. split; [by right|]. by intros [->|].
Qed.

Lemma keys_put v vs : map key (put v vs) = if decide (key v ∈ map key vs) then map key vs else map key vs ++ [key v].
Proof.
  induction vs as [|u vs IH]; cbn [put map]; [by rewrite decide_False by apply not_elem_of_nil|].
  destruct (decide (key v = key u)) as [E|E]; cbn [map].
  - rewrite decide_True by (rewrite E; left). by rewrite E.
  - rewrite IH. destruct (decide (key v ∈ map key vs)) as [H|H]; [rewrite decide_True by (by right)|rewrite decide_False by (by intros [?|?]%elem_of_cons)]; done.
Qed.

Lemma NoDup_put v vs : NoDup (map key vs) -> NoDup (map key (put v vs)).
Proof.
  intros Hn. rewrite keys_put. case_decide; [done|]. apply NoDup_app. split_and!; [done| |apply NoDup_singleton].
  by intros k Hk ->%list_elem_of_singleton.
Qed.

Lemma keys_drop k vs : sublist (map key (drop_key k vs)) (map key vs).
Proof.
  induction vs as [|u vs IH]; cbn [drop_key map]; [done|]. case_decide; [by apply sublist_cons|]. by apply sublist_skip.
Qed.

Lemma find_dropped k vs : NoDup (map key vs) -> find_key k (drop_key k vs) = None.
Proof.
  induction vs as [|u vs IH]; cbn [drop_key map]; [done|]. intros [Hn Hd]%NoDup_cons. case_decide as E.
  - apply find_none. by rewrite E.
  - cbn [find_key]. rewrite decide_False by done. by apply IH.
Qed.

Definition shown (p : Projection) : option BusinessRecord := match p with Some (Some v) => Some v | _ => None end.

Lemma apply_batch w w' f vs changes : facts_ok w.2 -> facts_ok w'.2 -> view_true w f vs -> world_grows w w' ->
  (forall v, ch_upsert v ∈ changes -> known_key (b_kind v) (b_id v) /\ project_world w' (b_kind v) (b_id v) = present v) ->
  (forall kind id, ch_delete kind id ∈ changes -> project_world w' kind id = absent_record) ->
  let vs' := foldl spec_change vs changes in
  NoDup (map key vs')
  /\ forall kind id,
       ((exists c, c ∈ changes /\ names kind id c) -> find_key (record_key kind id) vs' = shown (project_world w' kind id))
       /\ ((forall c, c ∈ changes -> ~ names kind id c) -> find_key (record_key kind id) vs' = find_key (record_key kind id) vs).
Proof.
  intros Hf Hf' Hv Hg. induction changes as [|c changes IH] using rev_ind; intros Hu Hd; cbn zeta.
  { split; [apply Hv|]. intros kind id. split; [by intros (? & ?%elem_of_nil & _)|done]. }
  destruct IH as [In If]; [intros v Hin; apply Hu; rewrite elem_of_app; by left|intros k i Hin; apply Hd; rewrite elem_of_app; by left|].
  rewrite foldl_snoc. set (cur := foldl spec_change vs changes) in *.
  assert (Hother : forall kind id, ~ names kind id c -> find_key (record_key kind id) (spec_change cur c) = find_key (record_key kind id) cur).
  { intros kind id Hn. destruct c as [v|k i]; cbn [spec_change names] in *.
    - destruct (outdated cur v); [done|]. rewrite find_put, decide_False; [done|]. intros E. apply Hn. apply record_key_inj in E as [-> ->]. done.
    - apply find_drop. intros E. apply Hn. by apply record_key_inj in E as [-> ->]. }
  assert (Hself : NoDup (map key (spec_change cur c)) /\ forall kind id, names kind id c -> find_key (record_key kind id) (spec_change cur c) = shown (project_world w' kind id)).
  { destruct c as [v|k i]; cbn [spec_change].
    - destruct (Hu v) as [Hk Hw]; [rewrite elem_of_app; right; by left|].
      assert (outdated cur v = false) as ->.
      { unfold outdated. destruct (find_key (key v) cur) as [u|] eqn:E; [|done]. destruct (If (b_kind v) (b_id v)) as [I1 I2].
        destruct (decide (Exists (names (b_kind v) (b_id v)) changes)) as [Hx|Hx].
        - apply Exists_exists in Hx as (c & Hc & Hn). change (key v) with (record_key (b_kind v) (b_id v)) in E. rewrite I1 in E by eauto. rewrite Hw in E. injection E as ->.
          destruct (b_revision u); [apply Z.ltb_irrefl|done].
        - change (key v) with (record_key (b_kind v) (b_id v)) in E. rewrite I2 in E; [|intros c Hc Hn; apply Hx, Exists_exists; by exists c].
          pose proof (find_key_key _ _ _ E) as Ek. apply record_key_inj in Ek as [Ek1 Ek2].
          assert (Hin : u ∈ vs). { apply find_elem; [apply Hv|]. unfold key at 1. by rewrite <- Ek1, <- Ek2. }
          destruct (vt_sound _ _ _ Hv u Hin) as (_ & Hku & Hwu). rewrite <- Ek1, <- Ek2 in Hwu.
          destruct (b_revision u) as [p|] eqn:Ep, (b_revision v) as [r|] eqn:Er; try done. apply Z.ltb_ge. by eapply (Hg (b_kind v) (b_id v)). }
      split; [by apply NoDup_put|]. intros kind id [<- <-]. rewrite Hw, find_put. by rewrite decide_True.
    - split; [by eapply sublist_NoDup; [|apply keys_drop]|]. intros kind id [-> ->]. rewrite (Hd kind id) by (rewrite elem_of_app; right; by left). by apply find_dropped. }
  destruct Hself as [Hn Hself]. split; [done|]. intros kind id. destruct (If kind id) as [I1 I2]. destruct (decide (names kind id c)) as [Hc|Hc].
  - split; [by intros _; apply Hself|]. intros H. exfalso. apply (H c); [rewrite elem_of_app; right; by left|done].
  - rewrite Hother by done. split.
    + intros (d & [Hin| ->%list_elem_of_singleton]%elem_of_app & Hd'); [apply I1; by exists d|done].
    + intros H. apply I2. intros d Hin. apply H. rewrite elem_of_app. by left.
Qed.

Lemma names_kind kind id c : names kind id c -> change_kind c = kind.
Proof. destruct c; cbn; by intros [? _]. Qed.

Lemma in_filter_b {A} (p : A -> bool) (l : list A) x : x ∈ List.filter p l <-> x ∈ l /\ p x = true.
Proof. rewrite !list_elem_of_In. apply filter_In. Qed.

Lemma in_filter_changes f changes c : c ∈ filter_changes f changes <-> c ∈ changes /\ change_kind c ∈ normalizedBusinessKinds f.
Proof.
  unfold filter_changes, includes. by rewrite in_filter_b, bool_decide_eq_true.
Qed.

Lemma essential_kept vs v : essential v = true -> kept vs v = true.
Proof. unfold essential, kept. destruct (b_record v); try done. by intros ->. Qed.

(** The mirror's way of applying a batch keeps a view a view. *)

Lemma view_step w w' f vs changes : facts_ok w.2 -> facts_ok w'.2 -> view_true w f vs -> world_changed w w' changes -> world_grows w w' ->
  view_true w' f (spec_changes vs (filter_changes f changes)).
Proof.
  intros Hf Hf' Hv [Cu Cd Cs] Hg. unfold spec_changes. set (chs := filter_changes f changes). set (cur := foldl spec_change vs chs).
  destruct (apply_batch w w' f vs chs Hf Hf' Hv Hg) as [An Af].
  { intros v [Hin _]%in_filter_changes. by apply Cu. }
  { intros kind id [Hin _]%in_filter_changes. by apply Cd. }
  fold cur in An, Af.
  assert (Hun : forall kind id, kind ∈ normalizedBusinessKinds f -> (forall c, c ∈ chs -> ~ names kind id c) -> forall c, c ∈ changes -> ~ names kind id c).
  { intros kind id Hk H c Hc Hn. apply (H c); [|done]. apply in_filter_changes. split; [done|]. by rewrite (names_kind _ _ _ Hn). }
  constructor.
  - eapply sublist_NoDup; [exact An|]. apply sublist_fmap, filter_sublist.
  - intros v [Hin _]%in_filter_b. apply find_elem in Hin; [|done]. destruct (Af (b_kind v) (b_id v)) as [A1 A2]. change (key v) with (record_key (b_kind v) (b_id v)) in Hin.
    destruct (decide (Exists (names (b_kind v) (b_id v)) chs)) as [Hx|Hx].
    + apply Exists_exists in Hx as (c & Hc & Hn). rewrite A1 in Hin by eauto. unfold shown in Hin.
      destruct (project_world w' (b_kind v) (b_id v)) as [[u|]|] eqn:E; try done. injection Hin as ->. pose proof Hc as [Hc' Hck]%in_filter_changes.
      split; [by rewrite <- (names_kind _ _ _ Hn)|]. split; [|done]. destruct c as [x|k i]; cbn in Hn; [destruct Hn as [<- <-]; by apply Cu|].
      destruct Hn as [-> ->]. by rewrite (Cd _ _ Hc') in E.
    + assert (Hno : forall c, c ∈ chs -> ~ names (b_kind v) (b_id v) c) by (intros c Hc Hn; apply Hx, Exists_exists; by exists c).
      rewrite A2 in Hin by done. assert (Hin' : v ∈ vs) by (apply find_elem; [apply Hv|done]). destruct (vt_sound _ _ _ Hv v Hin') as (S1 & S2 & S3).
      split_and!; [done|done|]. rewrite Cs; [done|done|]. by apply Hun.
  - intros kind id v Hk Hkn Hw He. apply in_filter_b. split; [|by apply essential_kept]. destruct (world_key _ _ _ _ Hf' Hkn Hw) as [<- <-].
    apply find_elem; [done|]. destruct (Af (b_kind v) (b_id v)) as [A1 A2]. change (key v) with (record_key (b_kind v) (b_id v)).
    destruct (decide (Exists (names (b_kind v) (b_id v)) chs)) as [Hx|Hx].
    + apply Exists_exists in Hx as (c & Hc & Hn). rewrite A1 by eauto. by rewrite Hw.
    + assert (Hno : forall c, c ∈ chs -> ~ names (b_kind v) (b_id v) c) by (intros c Hc Hn; apply Hx, Exists_exists; by exists c).
      rewrite A2 by done. rewrite Cs in Hw; [|done|by apply Hun]. apply find_elem; [apply Hv|]. by eapply (vt_complete _ _ _ Hv).
Qed.

Lemma view_same w w' f vs : same_world w w' -> view_true w f vs -> view_true w' f vs.
Proof.
  intros Hs [V1 V2 V3]. constructor; [done|..].
  - intros v Hv. destruct (V2 v Hv) as (A & B & C). split_and!; [done|done|]. by rewrite Hs.
  - intros kind id v Hk Hkn Hw. rewrite Hs in Hw by done. by eapply V3.
Qed.

(** ** Snapshots *)

(** The schema, one operation for an identifier, and a state column that repeats the record's. *)

Record tables_ok (t : Tables) : Prop := mkTablesOk {
  tk_schema : schema_ok t;
  tk_operations : forall k k' o o', operations t !! k = Some o -> operations t !! k' = Some o' -> ok_operation k = ok_operation k' -> k = k';
  tk_states : forall k o text, operations t !! k = Some o -> so_record o = Some text -> ot_state text = so_state o;
}.

Lemma snapshot_loop_spec recordBytes t keys : forall acc bytes rs, snapshot_loop recordBytes t keys acc bytes = snap_records rs ->
  rs = acc ++ omap (fun k => shown (projectBusinessRecord t k.1 k.2)) keys.
Proof.
  induction keys as [|[kind id] keys IH]; intros acc bytes rs H; cbn [snapshot_loop] in H; cbn [omap list_omap fst snd].
  - injection H as <-. by rewrite app_nil_r.
  - destruct (projectBusinessRecord t kind id) as [[v|]|]; cbn [shown]; [| by eapply IH|done]. cbn zeta in H.
    destruct (_ || _); [done|]. apply IH in H. by rewrite H, <- app_assoc.
Qed.

Lemma in_key_order {V} (m : gmap string V) id : id ∈ key_order m <-> is_Some (m !! id).
Proof.
  unfold key_order, order_by. rewrite merge_sort_Permutation, list_elem_of_fmap. split.
  - intros ([k v] & -> & Hin%elem_of_map_to_list). by eexists.
  - intros [v Hv]. exists (id, v). split; [done|]. by apply elem_of_map_to_list.
Qed.

Lemma in_order_by {A} (columns : A -> A -> comparison) l x : x ∈ order_by columns l <-> x ∈ l.
Proof. unfold order_by. by rewrite merge_sort_Permutation. Qed.

Definition snapshot_key (t : Tables) (kind : BusinessKind) (id : string) : Prop :=
  match kind with
  | k_repo => is_Some (repos t !! id)
  | k_task => is_Some (tasks t !! id)
  | k_tab => is_Some (tabs t !! id)
  | k_run => exists seq row, runs t !! seq = Some row /\ selected_run t seq row = true /\ run_id row = id
  | k_operation => exists k o, operations t !! k = Some o /\ finalOperation (so_state o) = false /\ ok_operation k = id
  | k_config => id = "server"%string /\ is_Some (config t) \/ id = "entry"%string /\ is_Some (entry_config t)
  | k_runtime => False
  end.

Lemma in_snapshot_keys t kind id : (kind, id) ∈ snapshot_keys t <-> snapshot_key t kind id.
Proof.
  unfold snapshot_keys. rewrite !elem_of_app.
  assert (Hp : forall k (l : list string), (kind, id) ∈ map (pair k) l <-> kind = k /\ id ∈ l).
  { intros k l. rewrite list_elem_of_fmap. split; [intros (x & [= -> ->] & Hx); done|intros [-> Hx]; by exists id]. }
  assert (Ho : forall k i (o : option ConfigRow), (kind, id) ∈ match o with Some _ => [(k, i)] | None => [] end <-> (kind = k /\ id = i) /\ is_Some o).
  { intros k i [c|]; [rewrite list_elem_of_singleton; split; [intros [= -> ->]; split; [done|by eexists]|by intros [[-> ->] _]]|].
    rewrite elem_of_nil. by split; [|intros [_ []]]. }
  rewrite !Hp, !in_key_order, !in_order_by, !Ho, !list_elem_of_fmap. setoid_rewrite in_order_by. setoid_rewrite in_filter_b.
  setoid_rewrite elem_of_map_to_list'. unfold snapshot_key. split.
  - intros H. destruct_or!; destruct_and?; subst; try done; [| | by left|by right].
    + destruct H as ([seq row] & [= -> ->] & Hin & Hs). by exists seq, row.
    + match goal with H : exists _, _ |- _ => destruct H as ([k o] & -> & Hin & Hs%negb_true_iff) end. by exists k, o.
  - destruct kind.
    + intros H. by left.
    + intros H. right. by left.
    + intros H. do 2 right. by left.
    + intros (seq & row & H1 & H2 & <-). do 3 right. left. by exists (seq, row).
    + intros (k & o & H1 & H2 & <-). do 4 right. left. split; [done|]. exists (k, o). split; [done|]. split; [done|]. cbn. by rewrite H2.
    + intros [[-> H]|[-> H]]; [do 5 right; by left|by do 6 right].
    + done.
Qed.

Lemma NoDup_part (k : BusinessKind) (l rest : list DirtyKey) : NoDup l -> NoDup rest -> Forall (fun x => x.1 = k) l -> Forall (fun x => x.1 <> k) rest ->
  NoDup (l ++ rest).
Proof.
  rewrite !Forall_forall. intros Hl Hr H1 H2. apply NoDup_app. split_and!; [done| |done]. intros x Hx Hx'. by apply (H2 x Hx'), H1.
Qed.

Lemma NoDup_order {A} (columns : A -> A -> comparison) l : NoDup l -> NoDup (order_by columns l).
Proof. unfold order_by. by rewrite merge_sort_Permutation. Qed.

Lemma NoDup_map_on {A B} (f : A -> B) (l : list A) : NoDup l -> (forall x y, x ∈ l -> y ∈ l -> f x = f y -> x = y) -> NoDup (map f l).
Proof.
  induction 1 as [|x l Hx Hl IH]; intros Hf; cbn; [constructor|]. constructor.
  - intros (y & E & Hy)%list_elem_of_fmap. apply Hx. rewrite (Hf x y); [done|left|by right|done].
  - apply IH. intros a b Ha Hb. apply Hf; by right.
Qed.

Lemma NoDup_rows {K V} `{Countable K} (p : K * V -> bool) (m : gmap K V) : NoDup (List.filter p (map_to_list m)).
Proof. eapply sublist_NoDup; [apply NoDup_map_to_list|apply filter_sublist]. Qed.

Lemma NoDup_key_order {V} (k : BusinessKind) (m : gmap string V) : NoDup (map (pair k) (key_order m)).
Proof. apply NoDup_map_on; [apply NoDup_order, NoDup_fst_map_to_list|]. by intros x y _ _ [= ->]. Qed.

Lemma kind_parts {A} (g : A -> DirtyKey) k (l : list A) : (forall x, (g x).1 = k) -> Forall (fun x => x.1 = k) (map g l).
Proof. intros H. rewrite Forall_forall. intros x (y & -> & _)%list_elem_of_fmap. apply H. Qed.

Lemma kind_apart {A} (g : A -> DirtyKey) k (l : list A) : (forall x, (g x).1 <> k) -> Forall (fun x => x.1 <> k) (map g l).
Proof. intros H. rewrite Forall_forall. intros x (y & -> & _)%list_elem_of_fmap. apply H. Qed.

Ltac apart Hc :=
  repeat (apply Forall_app; split); try (by apply Hc); by apply kind_apart.

Lemma snapshot_nodup t : tables_ok t -> NoDup (snapshot_keys t).
Proof.
  intros [Hs Ho _]. unfold snapshot_keys.
  assert (Hc : forall k, k <> k_config -> Forall (fun x => x.1 <> k) (match config t with Some _ => [(k_config, "server"%string)] | None => [] end)
     /\ Forall (fun x => x.1 <> k) (match entry_config t with Some _ => [(k_config, "entry"%string)] | None => [] end)).
  { intros k Hk. destruct (config t), (entry_config t); cbn; repeat constructor; by apply not_eq_sym. }
  apply (NoDup_part k_repo); [apply NoDup_key_order| |by apply kind_parts|apart Hc].
  apply (NoDup_part k_task); [apply NoDup_key_order| |by apply kind_parts|apart Hc].
  apply (NoDup_part k_tab); [apply NoDup_key_order| |by apply kind_parts|apart Hc].
  apply (NoDup_part k_run); [|apply (NoDup_part k_operation); [| |by apply kind_parts|apart Hc]|by apply kind_parts|apart Hc].
  - apply NoDup_map_on; [apply NoDup_order, NoDup_rows|]. intros [i r] [j q] Hr%in_order_by Hq%in_order_by E. apply (f_equal snd) in E. cbn [snd] in E.
    apply in_filter_b in Hr as [Hr _], Hq as [Hq _]. apply elem_of_map_to_list in Hr, Hq. assert (i = j) as -> by exact (sk_runs _ Hs i j r q Hr Hq E). congruence.
  - apply NoDup_map_on; [apply NoDup_order, NoDup_map_on; [apply NoDup_rows|]|by intros x y _ _ [= ->]].
    intros [k o] [k' o'] Hk Hk'. apply in_filter_b in Hk as [Hk _], Hk' as [Hk' _]. apply elem_of_map_to_list in Hk, Hk'. cbn. intros E.
    assert (k = k') as -> by exact (Ho k k' o o' Hk Hk' E). congruence.
  - clear. destruct (config t), (entry_config t); cbn; repeat constructor; first [by apply not_elem_of_nil|by intros ?%list_elem_of_singleton].
Qed.

Lemma head_elem {A} (l : list A) x : head l = Some x -> x ∈ l.
Proof. destruct l; [done|]. intros [= ->]. left. Qed.

(** Everything essential is selected. *)

Lemma essential_listed t kind id v : tables_ok t -> known_key kind id -> kind <> k_runtime ->
  projectBusinessRecord t kind id = present v -> essential v = true -> snapshot_key t kind id.
Proof.
  intros [Hs Ho Hst] Hk Hr H He. destruct kind; cbn [projectBusinessRecord snapshot_key] in *; [| | | | | |done].
  - unfold project_repo in H. by destruct (repos t !! id).
  - unfold project_task in H. by destruct (tasks t !! id).
  - unfold project_tab in H. by destruct (tabs t !! id).
  - unfold project_run in H. destruct (head _) as [row|] eqn:E; [|done]. apply head_elem, in_rows in E as (seq & Hrow & Hid%String.eqb_eq).
    exists seq, row. split_and!; [done| |done]. unfold run_record_of in H. destruct (rn_rest row); [|done]. injection H as <-. unfold selected_run. cbn in He. by rewrite He.
  - unfold project_operation in H. destruct (head _) as [o|] eqn:E; [|done]. apply head_elem in E. unfold operations_named in E.
    apply list_elem_of_fmap in E as ([k o'] & -> & Hin%elem_of_map_to_list). apply map_lookup_filter_Some in Hin as [Hin Hid%String.eqb_eq]. cbn in *.
    exists k, o'. split_and!; [done| |done]. destruct (so_record o') as [text|] eqn:Et; [|done]. injection H as <-. cbn in He.
    rewrite <- (Hst _ _ _ Hin Et). by apply negb_true_iff.
  - unfold project_config in H. destruct (Hk eq_refl) as [->| ->]; cbn in H; [left|right]; (split; [done|]).
    + by destruct (config t).
    + by destruct (entry_config t).
Qed.

Lemma snapshot_key_known t kind id : snapshot_key t kind id -> known_key kind id /\ kind <> k_runtime.
Proof. destruct kind; cbn; intros H; (split; [|done || by intros ->]); try done. intros _. destruct H as [[-> _]|[-> _]]; auto. Qed.

Lemma projected_keys t keys : NoDup keys ->
  (forall k v, k ∈ keys -> projectBusinessRecord t k.1 k.2 = present v -> b_kind v = k.1 /\ b_id v = k.2) ->
  NoDup (map key (omap (fun k => shown (projectBusinessRecord t k.1 k.2)) keys)).
Proof.
  induction 1 as [|[kind id] keys Hx Hn IH]; intros Hkey; cbn [omap list_omap fst snd]; [constructor|].
  assert (IH' : NoDup (map key (omap (fun k => shown (projectBusinessRecord t k.1 k.2)) keys))) by (apply IH; intros k v Hk; apply Hkey; by right).
  destruct (projectBusinessRecord t kind id) as [[v|]|] eqn:E; cbn [shown]; try exact IH'. cbn [map]. constructor; [|exact IH'].
  intros (w & Ew & Hw)%list_elem_of_fmap. apply list_elem_of_omap in Hw as ([kind' id'] & Hin' & Hw). cbn in Hw.
  destruct (projectBusinessRecord t kind' id') as [[w'|]|] eqn:E'; try done. injection Hw as ->.
  destruct (Hkey (kind, id) v) as [Ek Ei]; [left|done|]. destruct (Hkey (kind', id') w) as [Ek' Ei']; [by right|done|]. cbn in *.
  apply record_key_inj in Ew as [Ew1 Ew2]. apply Hx. by rewrite <- Ek, Ew1, Ek', <- Ei, Ew2, Ei'.
Qed.

(** The view a capture takes: the store's snapshot and the facts of the runtime. *)

Lemma snapshot_true recordBytes t fs f rs : tables_ok t -> facts_ok fs -> businessSnapshot recordBytes t = snap_records rs ->
  view_true (t, fs) f (List.filter (fun v => includes (normalizedBusinessKinds f) (b_kind v)) (rs ++ map observation_value (jvalues fs))).
Proof.
  intros Ht Hf H. unfold businessSnapshot in H. apply snapshot_loop_spec in H. cbn [Datatypes.app] in H.
  assert (Hrs : forall v, v ∈ rs <-> exists kind id, snapshot_key t kind id /\ projectBusinessRecord t kind id = present v).
  { intros v. rewrite H, list_elem_of_omap. split.
    - intros ([kind id] & Hin & Hv). apply in_snapshot_keys in Hin. exists kind, id. split; [done|]. cbn in Hv. by destruct (projectBusinessRecord t kind id) as [[]|]; [injection Hv as ->|..].
    - intros (kind & id & Hin & Hv). exists (kind, id). split; [by apply in_snapshot_keys|]. cbn. by rewrite Hv. }
  assert (Hkey : forall v kind id, snapshot_key t kind id -> projectBusinessRecord t kind id = present v -> b_kind v = kind /\ b_id v = id).
  { intros v kind id Hin Hv. apply (project_key t); [by eapply snapshot_key_known|done]. }
  assert (Hfs : forall v, v ∈ map observation_value (jvalues fs) <-> exists id o, jget id fs = Some o /\ v = observation_value o /\ b_id v = id).
  { intros v. unfold jvalues. rewrite list_elem_of_fmap. setoid_rewrite list_elem_of_fmap. destruct Hf as [Hw Hid]. split.
    - intros (o & -> & [id o'] & -> & Hin). apply jget_elem in Hin; [|done]. exists id, o'. split_and!; [done|done|by apply Hid].
    - intros (id & o & Hg & -> & _). exists o. split; [done|]. exists (id, o). split; [done|]. by apply jget_elem. }
  constructor.
  - eapply sublist_NoDup; [|apply sublist_fmap, filter_sublist]. rewrite map_app. apply NoDup_app. split_and!.
    + rewrite H. apply projected_keys; [by apply snapshot_nodup|]. intros [kind id] v Hin Hv. apply Hkey; [by apply in_snapshot_keys|done].
    + intros k (v & -> & Hv)%list_elem_of_fmap (w & Ew & Hw)%list_elem_of_fmap. apply Hrs in Hv as (kind & id & Hin & Hv). apply Hfs in Hw as (i & o & _ & -> & _).
      apply record_key_inj in Ew as [Ew _]. destruct (Hkey v kind id Hin Hv) as [Ek _]. apply snapshot_key_known in Hin as [_ Hin]. apply Hin. rewrite <- Ek, Ew. done.
    + destruct Hf as [Hw Hid]. rewrite map_map. unfold jvalues. rewrite map_map. unfold jwf, jkeys in Hw.
      assert (E : map (fun x => key (observation_value x.2)) fs = map (record_key k_runtime) (map fst fs)).
      { rewrite map_map. apply map_same. intros [id o] Hin. apply jget_elem in Hin; [|done]. unfold key. cbn. by rewrite (Hid id o). }
      rewrite E. apply NoDup_map_on; [done|]. by intros x y _ _ [_ ?]%record_key_inj.
  - intros v [Hin Hk%bool_decide_eq_true]%in_filter_b. split; [done|]. rewrite elem_of_app in Hin. destruct Hin as [(kind & id & Hs & Hv)%Hrs|(id & o & Hg & Ev & Hid)%Hfs].
    + destruct (Hkey v kind id Hs Hv) as [-> ->]. apply snapshot_key_known in Hs as [Hs Hr]. split; [done|]. by destruct kind.
    + subst v. rewrite Hid. cbn [b_kind observation_value b_record project_world]. split; [done|]. cbn. by rewrite Hg.
  - intros kind id v Hk Hkn Hw He. apply in_filter_b. destruct (world_key (t, fs) kind id v Hf Hkn Hw) as [Ek Ei]. split; [|by apply bool_decide_eq_true; rewrite Ek].
    rewrite elem_of_app. destruct (decide (kind = k_runtime)) as [->|Hn].
    + right. apply Hfs. cbn in Hw. destruct (jget id fs) as [o|] eqn:Eo; [|done]. injection Hw as <-. exists id, o. split_and!; done.
    + left. apply Hrs. exists kind, id. assert (Hp : projectBusinessRecord t kind id = present v) by (by destruct kind). split; [|done]. by eapply essential_listed.
Qed.
