(* ===== verification/BusinessFeed.v ===== *)
(** * From the store's tables to a mirror

    The worker executes operations and snapshots one after the other and posts
    its answers; the main thread receives them in that order (store/store-worker.ts,
    [Store.receive] of store/database.ts) and owns the stream, the facts and the
    captures; connections subscribe and send captured views in pages.  A feed is
    the state of all of it, with [fd_seen], the tables behind the last answer
    received, for the statements.  A history is what can happen to a feed, and the
    last theorem takes it to the client: whatever part of the frames reaches a
    mirror, in whatever order, it holds a faithful view of the server's world at
    a moment of the history. *)

From S2P Require Import Prelude Json Protocol Pipe Operations JsMap BusinessMirror.
From S2P Require RunRegistry.
From S2P Require Import AuthStore BusinessTables BusinessJournal BusinessStream BusinessSnapshots BusinessViews.

(** An answer of the worker, with the tables as the operation left them. *)

Inductive Answer :=
  | an_written (p : Publication) (after : Tables)
  | an_snapshot (id : nat) (r : SnapshotResult).

Record Feed := mkFeed {
  fd_tables : Tables;
  fd_answers : list Answer;
  fd_seen : Tables;
  fd_business : BusinessSnapshots;
  fd_failed : bool;
  fd_views : list (list BusinessRecord * BusinessCursor);
  fd_sent : list (list BusinessRecord * BusinessCursor);
}.

Inductive FeedEvent :=
  | fe_write (cs : list Change)
  | fe_snapshot (id : nat)
  | fe_receive
  | fe_fail
  | fe_notice (n : RunRegistry.Notice)
  | fe_event (placement : RunRef -> option WorkerRef) (e : PipeEvent)
  | fe_capture (f : BusinessFilter)
  | fe_release (id : nat)
  | fe_subscribe (f : BusinessFilter) (since : BusinessCursor)
  | fe_dispose (id : nat)
  | fe_send (n : nat)
  | fe_close.

Definition set_business (b : BusinessSnapshots) (fd : Feed) : Feed :=
  mkFeed (fd_tables fd) (fd_answers fd) (fd_seen fd) b (fd_failed fd) (fd_views fd) (fd_sent fd).

Definition world_of (fd : Feed) : World := (fd_seen fd, facts (fd_business fd)).

(** ** What the statements of the store do to revisions *)

Definition rows_grow {V} (rev : V -> Z) (m m' : gmap string V) : Prop :=
  map_Forall (fun id x => map_Forall (fun id' y => id = id' -> rev x <= rev y) m') m.

Definition config_grows (o o' : option ConfigRow) : Prop :=
  match o, o' with Some x, Some y => cf_revision x <= cf_revision y | _, _ => True end.

Definition text_grows (x y : StoredOperation) : Prop :=
  match so_record x, so_record y with Some p, Some q => ot_revision p <= ot_revision q | _, _ => True end.

Record revisions_grow (t t' : Tables) : Prop := mkRevisionsGrow {
  rg_repos : rows_grow rp_revision (repos t) (repos t');
  rg_tasks : rows_grow ta_revision (tasks t) (tasks t');
  rg_tabs : rows_grow tb_revision (tabs t) (tabs t');
  rg_operations : map_Forall (fun k x => map_Forall (fun k' y => ok_operation k = ok_operation k' -> text_grows x y) (operations t')) (operations t);
  rg_config : config_grows (config t) (config t');
  rg_entry : config_grows (entry_config t) (entry_config t');
}.

Section feed.
Context (identity : BusinessIdentity) (limits : BusinessWindowLimits) (createId snapshotIds : nat -> string)
  (emits : nat -> BusinessFrame -> EmitOutcome) (changeBytes : BusinessChange -> Z) (changesBytes : list BusinessChange -> Z)
  (recordBytes : BusinessRecord -> Z) (recordsBytes : list BusinessRecord -> Z).

Definition start_feed (t : Tables) : option Feed :=
  (fun b => mkFeed t [] t b false [] []) <$> newBusinessSnapshots limits createId emits changesBytes [].

(** The observers of the store and of the registry, removed by [close]. *)

Definition observed (f : BusinessSnapshots -> BusinessSnapshots) (fd : Feed) : Feed :=
  if bs_closed (fd_business fd) then fd else set_business (f (fd_business fd)) fd.

Definition receive_answer (a : Answer) (fd : Feed) : Feed :=
  match a with
  | an_written p after =>
     observed (store_publication limits createId emits changesBytes false p)
       (mkFeed (fd_tables fd) (fd_answers fd) after (fd_business fd) (fd_failed fd) (fd_views fd) (fd_sent fd))
  | an_snapshot id r =>
     let '(answer, b) := settle_capture identity recordsBytes id r (fd_business fd) in
     mkFeed (fd_tables fd) (fd_answers fd) (fd_seen fd) b (fd_failed fd)
       (match answer with ca_view records cursor => fd_views fd ++ [(records, cursor)] | _ => fd_views fd end) (fd_sent fd)
  end.

Definition feed_act (e : FeedEvent) (fd : Feed) : Feed :=
  match e with
  | fe_write cs =>
     let '(t, j) := transaction cs (fd_tables fd) in
     mkFeed t (fd_answers fd ++ [an_written (collect changeBytes t j) t]) (fd_seen fd) (fd_business fd) (fd_failed fd) (fd_views fd) (fd_sent fd)
  | fe_snapshot id =>
     mkFeed (fd_tables fd) (fd_answers fd ++ [an_snapshot id (businessSnapshot recordBytes (fd_tables fd))]) (fd_seen fd) (fd_business fd)
       (fd_failed fd) (fd_views fd) (fd_sent fd)
  | fe_receive =>
     match fd_answers fd with
     | a :: rest =>
        if fd_failed fd then fd
        else receive_answer a (mkFeed (fd_tables fd) rest (fd_seen fd) (fd_business fd) (fd_failed fd) (fd_views fd) (fd_sent fd))
     | [] => fd
     end
  | fe_fail =>
     if fd_failed fd then fd
     else observed (uncertain createId emits true)
            (mkFeed (fd_tables fd) (fd_answers fd) (fd_seen fd) (fd_business fd) true (fd_views fd) (fd_sent fd))
  | fe_notice n =>
     observed (fun b => match registry_changed limits createId emits changesBytes (fd_failed fd) n b with
                        | Some b => b
                        | None => uncertain createId emits (fd_failed fd) b
                        end) fd
  | fe_event placement e => observed (runtime_event limits createId emits changesBytes (fd_failed fd) placement e) fd
  | fe_capture f => set_business (begin_capture f (fd_business fd)).2 fd
  | fe_release id => set_business (release id (fd_business fd)) fd
  | fe_subscribe f since =>
     set_business (set_stream (subscribe identity limits emits f since (stream (fd_business fd))).2 (fd_business fd)) fd
  | fe_dispose id => set_business (set_stream (stream_dispose id (stream (fd_business fd))) (fd_business fd)) fd
  | fe_send n =>
     match fd_views fd !! n with
     | Some v => mkFeed (fd_tables fd) (fd_answers fd) (fd_seen fd) (fd_business fd) (fd_failed fd) (delete n (fd_views fd)) (fd_sent fd ++ [v])
     | None => fd
     end
  | fe_close => set_business (close createId emits (fd_business fd)) fd
  end.

(** What the operations of the store keep, and that the journal of a
    transaction is not cut off silently. *)

Definition feed_allowed (e : FeedEvent) (fd : Feed) : Prop :=
  match e with
  | fe_write cs =>
     let '(t, j) := transaction cs (fd_tables fd) in
     valid_changes cs (fd_tables fd) /\ tables_ok t /\ revisions_grow (fd_tables fd) t
     /\ (marked_ids cs (fd_tables fd) <= journalItems \/ overflow j = true)
  | _ => True
  end.

(** The states of an execution, the latest first. *)

Inductive feed_history : list Feed -> Prop :=
  | fh_start t fd : tables_ok t -> start_feed t = Some fd -> feed_history [fd]
  | fh_step e fd h : feed_history (fd :: h) -> feed_allowed e fd -> feed_history (feed_act e fd :: fd :: h).

(** The frames that carry records: change frames handed to a subscriber and the pages of views. *)

Definition feed_frames (fd : Feed) : list BusinessFrame :=
  map snd (emitted (stream (fd_business fd)))
  ++ concat (imap (fun i v => snapshot_frames recordBytes (snapshotIds i) v.1 v.2) (fd_sent fd)).

Definition data_frame (fr : BusinessFrame) : bool :=
  match fr with f_changes _ _ _ | f_snapshot_page _ _ _ | f_snapshot_end _ _ _ => true | _ => false end.

End feed.

(** ** One transaction, one world to the next *)

Lemma tables_grow t t' kind id u v p r : revisions_grow t t' -> projectBusinessRecord t kind id = present u ->
  projectBusinessRecord t' kind id = present v -> b_revision u = Some p -> b_revision v = Some r -> p <= r.
Proof.
  intros [G1 G2 G3 G4 G5 G6] Hu Hv Hp Hr. destruct kind; cbn [projectBusinessRecord] in *.
  - unfold project_repo in *. destruct (repos t !! id) as [x|] eqn:Ex, (repos t' !! id) as [y|] eqn:Ey; try done.
    injection Hu as <-; injection Hv as <-; injection Hp as <-; injection Hr as <-. by apply (G1 id x Ex id y Ey).
  - unfold project_task in *. destruct (tasks t !! id) as [x|] eqn:Ex, (tasks t' !! id) as [y|] eqn:Ey; try done.
    destruct (workspace_of t id) as [[w1 r1]|], (workspace_of t' id) as [[w2 r2]|]; try done. destruct (all_some _), (all_some _); try done.
    injection Hu as <-; injection Hv as <-; injection Hp as <-; injection Hr as <-. by apply (G2 id x Ex id y Ey).
  - unfold project_tab in *. destruct (tabs t !! id) as [x|] eqn:Ex, (tabs t' !! id) as [y|] eqn:Ey; try done.
    destruct (tb_recipe x), (tb_recipe y); try done. destruct (tb_cwd x), (tb_cwd y); try done. destruct (latest_parses t x), (latest_parses t' y); try done.
    injection Hu as <-; injection Hv as <-; injection Hp as <-; injection Hr as <-. by apply (G3 id x Ex id y Ey).
  - exfalso. unfold project_run, run_record_of in Hu. destruct (head _) as [x|]; [|done]. destruct (rn_rest x); [|done]. by injection Hu as <-.
  - unfold project_operation, operations_named in *. destruct (head _) as [x|] eqn:Ex; [|done]. destruct (head (map snd (map_to_list (filter _ (operations t'))))) as [y|] eqn:Ey; [|done].
    apply head_elem, list_elem_of_fmap in Ex as ([k x'] & -> & Hx%elem_of_map_to_list), Ey as ([k' y'] & -> & Hy%elem_of_map_to_list).
    apply map_lookup_filter_Some in Hx as [Hx Hkx%String.eqb_eq], Hy as [Hy Hky%String.eqb_eq]. cbn in *.
    pose proof (G4 k x' Hx k' y' Hy) as Hg. cbn in Hg. specialize (Hg (eq_trans Hkx (eq_sym Hky))). unfold text_grows in Hg.
    destruct (so_record x'), (so_record y'); try done. injection Hu as <-; injection Hv as <-; injection Hp as <-; by injection Hr as <-.
  - unfold project_config in *. destruct (seqb id "entry").
    + destruct (entry_config t), (entry_config t'); try done. injection Hu as <-; injection Hv as <-; injection Hp as <-; by injection Hr as <-.
    + destruct (config t), (config t'); try done. injection Hu as <-; injection Hv as <-; injection Hp as <-; by injection Hr as <-.
  - done.
Qed.

Lemma same_tables_grow t fs : world_grows (t, fs) (t, fs).
Proof. intros kind id u v p r _ Hu Hv Hp Hr. rewrite Hu in Hv. injection Hv as <-. rewrite Hp in Hr. injection Hr as <-. lia. Qed.

Lemma write_grows t t' fs : revisions_grow t t' -> world_grows (t, fs) (t', fs).
Proof.
  intros Hg kind id u v p r Hk Hu Hv Hp Hr. destruct (decide (kind = k_runtime)) as [->|Hn].
  - cbn in Hu, Hv. rewrite Hu in Hv. injection Hv as <-. rewrite Hp in Hr. injection Hr as <-. lia.
  - apply (tables_grow t t' kind id u v); [done|by destruct kind..].
Qed.

(** What a publication says about the tables before and after. *)

Definition publication_of (t t' : Tables) (p : Publication) : Prop :=
  match p with pub_reset => True | pub_changes changes => forall fs, world_changed (t, fs) (t', fs) changes end.

Lemma written_publication changeBytes cs t : valid_changes cs t ->
  (let '(t', j) := transaction cs t in marked_ids cs t <= journalItems \/ overflow j = true) ->
  let '(t', j) := transaction cs t in publication_of t t' (collect changeBytes t' j).
Proof.
  intros Hv Hroom. destruct (transaction cs t) as [t' j] eqn:Et. destruct Hroom as [Hroom|Ho]; [|unfold collect; by rewrite Ho].
  destruct (collect changeBytes t' j) as [chs|] eqn:Ec; [|done]. intros fs. pose proof (publication_true changeBytes cs t chs Hv Hroom) as H.
  rewrite Et in H. destruct (H Ec) as (Hu & Hd & Hs). constructor.
  - intros v Hin. destruct (Hu v Hin) as [[Hk Hn] Hp]. split; [done|]. cbn. by destruct (b_kind v).
  - intros kind id Hin. destruct (Hd kind id Hin) as [Hn Hp]. cbn. by destruct kind.
  - intros kind id Hk Hno. pose proof (Hs kind id Hk Hno). by destruct kind.
Qed.

(** ** Calls of the stream and worlds *)

Lemma deliver_same emits batch s id : same_stream s (deliver emits batch s id).
Proof.
  unfold deliver. destruct (jget id (objects s)) as [o|]; [|done]. set (s1 := set_object _ _ s). set (fr := f_changes _ _ _).
  assert (H1 : same_stream s s1) by by constructor. destruct (emit_same emits id fr s1) as (H2 & _ & _).
  destruct (eo_throws _); [|by etransitivity]. etransitivity; [exact H1|]. etransitivity; [exact H2|]. constructor; try done. apply filter_sublist.
Qed.

Lemma deliver_all_same emits batch ids : forall s, same_stream s (foldl (deliver emits batch) s ids).
Proof. induction ids as [|i ids IH]; intros s; cbn [foldl]; [done|]. etransitivity; [apply deliver_same|apply IH]. Qed.

Lemma replay_same emits id since batches : forall s, same_stream s (replay emits id since batches s).
Proof.
  induction batches as [|b batches IH]; intros s; cbn [replay]; [done|]. destruct (negb _); [done|].
  destruct (since <? bt_sequence b); [|apply IH]. etransitivity; [apply deliver_same|apply IH].
Qed.

(** The same position: the same generation and number. *)

Definition same_position (s s' : BusinessEventStream) : Prop :=
  streamId s' = streamId s /\ sequence s' = sequence s /\ unavailable s' = unavailable s /\ created s' = created s.

Lemma subscribe_position identity limits emits f since s : same_position s (subscribe identity limits emits f since s).2.
Proof.
  rewrite subscribe_eq. destruct (subscribe_refusal _ _ _ _ _); [by split_and!|]. cbn zeta. cbn [snd].
  set (s1 := set_subscribers _ _). by destruct (replay_same emits (length (objects s)) (bcu_sequence since) (window s1) s1).
Qed.

Lemma same_world_trans a b c : same_world a b -> same_world b c -> same_world a c.
Proof. intros H1 H2 kind id Hk. by rewrite H2, H1. Qed.

Lemma same_world_sym a b : same_world a b -> same_world b a.
Proof. intros H kind id Hk. by rewrite H. Qed.

Lemma same_world_refl w : same_world w w.
Proof. by intros kind id Hk. Qed.

Lemma changed_nothing w w' : world_changed w w' [] -> same_world w w'.
Proof. intros [_ _ H] kind id Hk. apply H; [done|]. by intros c ?%elem_of_nil. Qed.

Lemma unchanged w : world_changed w w [].
Proof. constructor; [by intros v ?%elem_of_nil|by intros ?? ?%elem_of_nil|done]. Qed.

(** What a call of the stream owes to the worlds before and after it. *)

Definition call_true (c : StreamCall) (w w' : World) : Prop :=
  match c with
  | so_publish changes => world_changed w w' changes /\ world_grows w w'
  | so_subscribe _ _ | so_dispose _ => same_world w w'
  | so_invalidate _ _ | so_close => True
  end.

Section history.
Context (identity : BusinessIdentity) (limits : BusinessWindowLimits) (createId snapshotIds : nat -> string)
  (emits : nat -> BusinessFrame -> EmitOutcome) (changeBytes : BusinessChange -> Z) (changesBytes : list BusinessChange -> Z)
  (recordBytes : BusinessRecord -> Z) (recordsBytes : list BusinessRecord -> Z).
Hypothesis fresh_ids : forall i j, createId i = createId j -> i = j.
Hypothesis limits_ok : validLimits limits = true.

Abbreviation call := (stream_call identity limits createId emits changesBytes).
Abbreviation feed_stream fd := (stream (fd_business fd)).

(** An available stream at a position. *)

Definition at_position (fd : Feed) (g : string) (n : Z) : Prop :=
  unavailable (feed_stream fd) = false /\ streamId (feed_stream fd) = g /\ sequence (feed_stream fd) = n.

Fixpoint answers_ok (seen : Tables) (answers : list Answer) (t : Tables) : Prop :=
  match answers with
  | [] => t = seen
  | an_written p after :: rest => publication_of seen after p /\ revisions_grow seen after /\ tables_ok after /\ answers_ok after rest t
  | an_snapshot _ r :: rest => r = businessSnapshot recordBytes seen /\ answers_ok seen rest t
  end.

Lemma answers_written seen answers t p after : answers_ok seen answers t -> publication_of t after p -> revisions_grow t after -> tables_ok after ->
  answers_ok seen (answers ++ [an_written p after]) after.
Proof.
  revert seen. induction answers as [|[q u|id r] answers IH]; intros seen Ha Hp Hg Ht; cbn in *; [by subst|..].
  - destruct Ha as (? & ? & ? & ?). split_and!; try done. by apply IH.
  - destruct Ha as (? & ?). split; [done|]. by apply IH.
Qed.

Lemma answers_snapshot seen answers t id : answers_ok seen answers t ->
  answers_ok seen (answers ++ [an_snapshot id (businessSnapshot recordBytes t)]) t.
Proof.
  revert seen. induction answers as [|[q u|i r] answers IH]; intros seen Ha; cbn in *; [by subst|..].
  - destruct Ha as (? & ? & ? & ?). split_and!; try done. by apply IH.
  - destruct Ha as (? & ?). split; [done|]. by apply IH.
Qed.

Record moments_ok (h : list Feed) (log : list StreamFact) (fd : Feed) : Prop := mkMomentsOk {
  mo_stream : stream_ok identity limits createId changesBytes log (feed_stream fd);
  mo_last : fd ∈ h;
  mo_past : forall x, x ∈ h -> tables_ok (fd_seen x) /\ facts_ok (facts (fd_business x))
    /\ (exists k, streamId (feed_stream x) = createId k /\ (k < created (feed_stream fd))%nat)
    /\ (streamId (feed_stream x) = streamId (feed_stream fd) -> sequence (feed_stream x) <= sequence (feed_stream fd));
  mo_same : forall x y g n, x ∈ h -> y ∈ h -> at_position x g n -> at_position y g n -> same_world (world_of x) (world_of y);
  mo_next : forall g n changes, sf_published g (n + 1) changes ∈ log -> exists x y, x ∈ h /\ y ∈ h /\ at_position x g n /\ at_position y g (n + 1)
    /\ world_changed (world_of x) (world_of y) changes /\ world_grows (world_of x) (world_of y);
}.

Lemma call_cases c log s : stream_ok identity limits createId changesBytes log s ->
  let s' := call c s in let fs := facts_of identity limits emits c s s' in
  (same_position s s' /\ (forall g n chs, sf_published g n chs ∉ fs)
     /\ match c with so_publish chs => unavailable s = true \/ chs = [] | so_subscribe _ _ | so_dispose _ => True | _ => False end)
  \/ (streamId s' = createId (created s) /\ sequence s' = 0 /\ created s' = S (created s) /\ (forall g n chs, sf_published g n chs ∉ fs))
  \/ exists chs, c = so_publish chs /\ streamId s' = streamId s /\ created s' = created s /\ sequence s' = sequence s + 1
       /\ fs = [sf_published (streamId s) (sequence s + 1) chs] /\ unavailable s = false /\ unavailable s' = false.
Proof.
  intros Hok. destruct (limits_pos limits limits_ok) as (L1 & _). pose proof (st_numbered _ _ _ _ _ _ Hok) as Hnum.
  assert (Hnil : forall g n chs, sf_published g n chs ∉ []) by (intros; apply not_elem_of_nil).
  assert (Hinv : forall reason u, let s' := invalidate createId emits reason u s in
    streamId s' = createId (created s) /\ sequence s' = 0 /\ created s' = S (created s)) by (intros reason u; cbn zeta; by rewrite invalidate_eq).
  destruct c as [input|f since|id|reason u|]; cbn [stream_call facts_of]; cbn zeta.
  - destruct (publish_cases limits createId emits changesBytes input log s L1 (st_windowed _ _ _ _ _ _ Hok)) as [[-> Hu]|[[reason ->]|(_ & Hu & _ & l & w & Hw & Hb & Hz & ->)]].
    + left. split; [by split_and!|]. assert ((sequence s =? sequence s + 1) = false) as -> by (apply Z.eqb_neq; lia). rewrite andb_false_r. by split.
    + right; left. destruct (Hinv reason false) as (E1 & E2 & E3). split_and!; try done. by rewrite (invalidate_stream createId emits fresh_ids _ _ log).
    + right; right. exists input. set (s1 := set_window _ _ _ s). destruct (deliver_all_same emits (mkBatch (sequence s + 1) input (changesBytes input)) (subscribers s) s1) as [D1 D2 _ _ D5 D6 _].
      rewrite D1, D2, D5, D6. cbn [s1 set_window streamId sequence created unavailable]. unfold seqb. by rewrite String.eqb_refl, Z.eqb_refl.
  - left. split; [apply subscribe_position|]. split; [|done]. destruct (subscribe _ _ _ _ _ _).1; try done. intros g n chs. by intros ?%list_elem_of_singleton.
  - left. by split_and!.
  - right; left. destruct (Hinv reason u) as (E1 & E2 & E3). by split_and!.
  - right; left. destruct (Hinv "unavailable"%string true) as (E1 & E2 & E3). by split_and!.
Qed.

Lemma position_same s s' fd g n : feed_stream fd = s -> same_position s s' -> forall fd', feed_stream fd' = s' -> at_position fd' g n -> at_position fd g n.
Proof. intros <- (E1 & E2 & E3 & _) fd' <- (H1 & H2 & H3). unfold at_position. by rewrite <- E1, <- E2, <- E3. Qed.

Lemma moments_step h log fd fd' c : moments_ok h log fd -> feed_stream fd' = call c (feed_stream fd) ->
  tables_ok (fd_seen fd') -> facts_ok (facts (fd_business fd')) ->
  (unavailable (feed_stream fd) = false -> call_true c (world_of fd) (world_of fd')) -> exists log', moments_ok (fd' :: h) log' fd'.
Proof.
  intros [Hs Hin Hp Hsame Hnext] Hc Ht Hf Htrue. set (s := feed_stream fd) in *. set (s' := feed_stream fd') in *.
  pose proof (stream_step_ok identity limits createId emits changesBytes fresh_ids limits_ok c log s Hs) as Hok. unfold stream_step in Hok. cbn [fst snd] in Hok. rewrite <- Hc in Hok.
  pose proof (call_cases c log s Hs) as Hcases. cbn zeta in Hcases. rewrite <- Hc in Hcases. set (fs := facts_of _ _ _ c s s') in *.
  exists (log ++ fs). assert (Hpast : (created s <= created s')%nat -> (exists k, streamId s' = createId k /\ (k < created s')%nat) ->
      (forall x, x ∈ h -> streamId (feed_stream x) = streamId s' -> sequence (feed_stream x) <= sequence s') ->
      forall x, x ∈ fd' :: h -> tables_ok (fd_seen x) /\ facts_ok (facts (fd_business x))
        /\ (exists k, streamId (feed_stream x) = createId k /\ (k < created s')%nat)
        /\ (streamId (feed_stream x) = streamId s' -> sequence (feed_stream x) <= sequence s')).
  { intros Hle Hk Hseq x [->|Hx]%elem_of_cons; [by split_and!|]. destruct (Hp x Hx) as (P1 & P2 & (k & P3 & P4) & _). split_and!; try done; [|by apply Hseq].
    exists k. split; [done|]. lia. }
  assert (Hlift : forall g n chs, sf_published g (n + 1) chs ∈ log -> exists x y, x ∈ fd' :: h /\ y ∈ fd' :: h /\ at_position x g n /\ at_position y g (n + 1)
    /\ world_changed (world_of x) (world_of y) chs /\ world_grows (world_of x) (world_of y)).
  { intros g n chs H. destruct (Hnext g n chs H) as (x & y & Hx & Hy & Hr). exists x, y. split; [by right|]. split; [by right|done]. }
  assert (Hcase : forall g n, (forall x, x ∈ h -> at_position x g n -> at_position fd' g n -> same_world (world_of x) (world_of fd')) ->
    forall x y, x ∈ fd' :: h -> y ∈ fd' :: h -> at_position x g n -> at_position y g n -> same_world (world_of x) (world_of y)).
  { intros g n H x y [->|Hx]%elem_of_cons [->|Hy]%elem_of_cons Ax Ay; [apply same_world_refl|by apply same_world_sym, H|by apply H|exact (Hsame x y g n Hx Hy Ax Ay)]. }
  destruct (Hp fd Hin) as (_ & _ & (k0 & K1 & K2) & _). destruct Hcases as [(Hpos & Hno & Hwhy)|[(E1 & E2 & E3 & Hno)|(chs & -> & E1 & E2 & E3 & Hfs & U1 & U2)]].
  - pose proof Hpos as (Q1 & Q2 & Q3 & Q4). constructor; [done|by left|apply Hpast; [lia| |]|intros x y g n; revert x y; apply (Hcase g n)|].
    + exists k0. by rewrite Q1, Q4.
    + intros x Hx. rewrite Q1, Q2. by apply Hp.
    + intros x Hx Ax Ay. pose proof (position_same s s' fd g n eq_refl Hpos fd' eq_refl Ay) as Ad. apply (same_world_trans _ (world_of fd)); [exact (Hsame x fd g n Hx Hin Ax Ad)|].
      assert (Hu : unavailable s = false) by apply Ad. specialize (Htrue Hu).
      destruct c as [chs|f since|id|reason u|]; cbn [call_true] in Htrue; [|exact Htrue|exact Htrue|done|done].
      destruct Hwhy as [Hu'| ->]; [congruence|apply changed_nothing, Htrue].
    + intros g n chs [H|H]%elem_of_app; [by apply Hlift|]. by destruct (Hno g (n + 1) chs).
  - assert (Hfresh : forall x, x ∈ h -> streamId (feed_stream x) <> streamId s').
    { intros x Hx E. destruct (Hp x Hx) as (_ & _ & (k & P3 & P4) & _). rewrite P3, E1 in E. apply fresh_ids in E. fold s in P4. lia. }
    constructor; [done|by left|apply Hpast; [lia| |]|intros x y g n; revert x y; apply (Hcase g n)|].
    + exists (created s). split; [done|lia].
    + intros x Hx E. by destruct (Hfresh x Hx).
    + intros x Hx (_ & A2 & _) (_ & A2' & _). destruct (Hfresh x Hx). by rewrite A2.
    + intros g n chs [H|H]%elem_of_app; [by apply Hlift|]. by destruct (Hno g (n + 1) chs).
  - destruct (Htrue U1) as [Hch Hgr]. constructor; [done|by left|apply Hpast; [lia| |]|intros x y g n; revert x y; apply (Hcase g n)|].
    + exists k0. by rewrite E1, E2.
    + intros x Hx. rewrite E1, E3. intros E. destruct (Hp x Hx) as (_ & _ & _ & P4). specialize (P4 E). fold s in P4. lia.
    + intros x Hx (_ & A2 & A3) (_ & A2' & A3'). exfalso. destruct (Hp x Hx) as (_ & _ & _ & P4). fold s s' in P4, A2', A3'. rewrite E1 in A2'. rewrite A2, A2' in P4. specialize (P4 eq_refl). lia.
    + intros g n chs' [H|H]%elem_of_app; [by apply Hlift|]. rewrite Hfs in H. apply list_elem_of_singleton in H as [= -> En ->].
      assert (n = sequence s) as -> by lia. exists fd, fd'. split_and!; try done; [by right|by left].
Qed.



(** ** What the operations of [BusinessSnapshots] owe to the worlds *)

Definition business_ok (b : BusinessSnapshots) : Prop := facts_ok (facts b) /\ (bs_closed b = true -> unavailable (stream b) = true).

Definition business_step (b b' : BusinessSnapshots) : Prop := business_ok b ->
  business_ok b' /\ exists c, stream b' = call c (stream b) /\ forall t, call_true c (t, facts b) (t, facts b').

Lemma call_unavailable c s : unavailable s = true -> unavailable (call c s) = true.
Proof.
  intros Hu. destruct c as [input|f since|id|reason u|]; cbn [stream_call].
  - unfold publish. by rewrite Hu.
  - by destruct (subscribe_position identity limits emits f since s) as (_ & _ & -> & _).
  - done.
  - rewrite invalidate_eq. cbn. by rewrite Hu.
  - unfold stream_close. rewrite invalidate_eq. cbn. by rewrite Hu.
Qed.

Lemma feed_called b b' c : facts_ok (facts b') -> stream b' = call c (stream b) -> bs_closed b' = bs_closed b ->
  (forall t, call_true c (t, facts b) (t, facts b')) -> business_step b b'.
Proof.
  intros Hf Hs Hc Ht [_ Hb]. split; [|by exists c]. split; [done|]. rewrite Hc, Hs. intros E. by apply call_unavailable, Hb.
Qed.

Lemma publish_nothing s : publish limits createId emits changesBytes [] s = s.
Proof. unfold publish. by rewrite orb_true_r. Qed.

Lemma feed_quiet b b' : stream b' = stream b -> facts b' = facts b -> bs_closed b' = bs_closed b -> business_step b b'.
Proof.
  intros Es Ef Ec Hb. apply (feed_called b b' (so_publish [])); [rewrite Ef; apply Hb|cbn [stream_call]; by rewrite publish_nothing|done| |done].
  intros t. rewrite Ef. split; [apply unchanged|apply same_tables_grow].
Qed.

Lemma uncertain_step failed b : business_step b (uncertain createId emits failed b).
Proof. intros Hb. by apply (feed_called b _ (so_invalidate "publication-uncertain" failed)); [apply Hb|..]. Qed.

Lemma facts_set fs o : facts_ok fs -> facts_ok (jset (ob_id o) o fs).
Proof.
  intros [Hw Hid]. split; [by apply jwf_set|]. intros id p. rewrite jget_set. case_decide as E; [by intros [= <-]|apply Hid].
Qed.

Lemma facts_delete fs id : facts_ok fs -> facts_ok (jdelete id fs).
Proof. intros [Hw Hid]. split; [by apply jwf_delete|]. intros i p. rewrite jget_delete by done. case_decide; [done|apply Hid]. Qed.

Lemma runtime_grows t fs fs' : world_grows (t, fs) (t, fs').
Proof.
  intros kind id u v p r Hk Hu Hv Hp Hr. destruct (decide (kind = k_runtime)) as [->|Hn].
  - cbn in Hu. destruct (jget id fs) as [o|]; [|done]. injection Hu as <-. done.
  - apply (same_tables_grow t [] kind id u v); try done; by destruct kind.
Qed.

Lemma fact_changed t fs o : world_changed (t, fs) (t, jset (ob_id o) o fs) [ch_upsert (observation_value o)].
Proof.
  constructor.
  - intros v [= ->]%list_elem_of_singleton. split; [done|]. cbn. by rewrite jget_set, decide_True.
  - by intros kind id ?%list_elem_of_singleton.
  - intros kind id Hk Hno. destruct (decide (kind = k_runtime)) as [->|Hn]; [|by destruct kind].
    cbn. rewrite jget_set, decide_False; [done|]. intros ->. by apply (Hno (ch_upsert (observation_value o))); [left|].
Qed.

Lemma fact_deleted t fs id : facts_ok fs -> world_changed (t, fs) (t, jdelete id fs) [ch_delete k_runtime id].
Proof.
  intros [Hw _]. constructor.
  - by intros v ?%list_elem_of_singleton.
  - intros kind i [= -> ->]%list_elem_of_singleton. cbn. by rewrite jget_delete, decide_True.
  - intros kind i Hk Hno. destruct (decide (kind = k_runtime)) as [->|Hn]; [|by destruct kind].
    cbn. rewrite jget_delete, decide_False; [done| |done]. intros ->. by apply (Hno (ch_delete k_runtime id)); [left|].
Qed.

Lemma fact_same t fs o p : jget (ob_id o) fs = Some p -> ob_id p = ob_id o -> ob_fact p = ob_fact o ->
  same_world (t, fs) (t, jset (ob_id o) o fs).
Proof.
  intros Hp Hi Hf kind id Hk. destruct (decide (kind = k_runtime)) as [->|Hn]; [|by destruct kind].
  assert (E : observation_value o = observation_value p) by (unfold observation_value; by rewrite Hi, Hf). cbn [project_world snd]. rewrite jget_set.
  case_decide as Ei; [|done]. subst id. by rewrite Hp, E.
Qed.

Lemma same_changed w w' : same_world w w' -> world_changed w w' [].
Proof. intros H. constructor; [by intros v ?%elem_of_nil|by intros ?? ?%elem_of_nil|]. intros kind id Hk _. by apply H. Qed.

Lemma observe_step status b b' : observe limits createId emits changesBytes status b = Some b' -> business_step b b'.
Proof.
  intros H Hb. unfold observe in H. set (id := businessRunId (rs_run status)) in *. destruct (match jget id (facts b) with Some _ => _ | None => false end) eqn:E1.
  { injection H as <-. exact (feed_quiet b b eq_refl eq_refl eq_refl Hb). }
  destruct (RunStatusSchema _); [|done]. cbn [negb] in H. cbn zeta in H. match type of H with context [mkObservation id ?r ?a] => set (o := mkObservation id r a) in *; set (record := r) in * end.
  assert (Hf : facts_ok (jset id o (facts b))) by (apply (facts_set (facts b) o), Hb).
  destruct (match jget id (facts b) with Some p => bool_decide _ | None => false end) eqn:E2; injection H as <-.
  - apply (feed_called b _ (so_publish [])); [done|cbn [stream_call]; by rewrite publish_nothing|done| |done]. intros t. split; [|apply runtime_grows]. apply same_changed.
    destruct (jget id (facts b)) as [p|] eqn:Ep; [|done]. apply bool_decide_eq_true in E2. apply (fact_same t (facts b) o p); [done|by apply Hb|done].
  - apply (feed_called b _ (so_publish [ch_upsert (observation_value o)])); [done|done|done| |done].
    intros t. split; [apply (fact_changed t (facts b) o)|apply runtime_grows].
Qed.

Lemma notice_step failed n b b' : registry_changed limits createId emits changesBytes failed n b = Some b' -> business_step b b'.
Proof.
  destruct n as [r w [status|]|]; cbn [registry_changed]; intros H.
  - by eapply observe_step.
  - destruct (jhas _ _) eqn:E; injection H as <-; [|by apply feed_quiet]. intros Hb.
    apply (feed_called b _ (so_publish [ch_delete k_runtime (businessRunId r)])); [apply facts_delete, Hb|done|done| |done].
    intros t. split; [apply fact_deleted, Hb|apply runtime_grows].
  - injection H as <-. apply uncertain_step.
Qed.

Lemma event_step failed placement e b : business_step b (runtime_event limits createId emits changesBytes failed placement e b).
Proof.
  unfold runtime_event. destruct (event_status _ _ _) as [status|]; [|by apply feed_quiet]. destruct (observe _ _ _ _ status b) as [b'|] eqn:E; [by eapply observe_step|apply uncertain_step].
Qed.

Lemma close_step b : business_step b (close createId emits b).
Proof.
  unfold close. destruct (bs_closed b) eqn:Ec; [by apply feed_quiet|]. intros [Hf _]. split; [|by exists so_close]. split; [split; [constructor|done]|].
  intros _. cbn [stream]. unfold stream_close. rewrite invalidate_eq. cbn. apply orb_true_r.
Qed.

Lemma release_step id b : business_step b (release id b).
Proof. unfold release. destruct (captures b !! id) as [c|]; [|by apply feed_quiet]. destruct (cp_released c); by apply feed_quiet. Qed.

Lemma settle_step id r b : business_step b (settle_capture identity recordsBytes id r b).2.
Proof.
  unfold settle_capture. destruct (captures b !! id) as [c|]; [|destruct r; apply release_step]. destruct r as [rs| |]; try apply release_step.
  destruct (stream_capture _ _ _ _ _) as [[rs' cur]|]; [|apply release_step]. destruct (_ || _); [apply release_step|by apply feed_quiet].
Qed.

Lemma begin_step f b : business_step b (begin_capture f b).2.
Proof. unfold begin_capture. destruct (_ || _); by apply feed_quiet. Qed.

(** ** The invariant of a history *)

(** A view taken at a moment of the history. *)

Definition view_moment (h : list Feed) (v : list BusinessRecord * BusinessCursor) : Prop := exists f x, x ∈ h /\ unavailable (feed_stream x) = false
  /\ v.2 = cursor_for identity f (feed_stream x) /\ view_true (world_of x) f v.1.

Record feed_ok (h : list Feed) (fd : Feed) : Prop := mkFeedOk {
  fo_moments : exists log, moments_ok h log fd;
  fo_business : business_ok (fd_business fd);
  fo_answers : fd_failed fd = false -> answers_ok (fd_seen fd) (fd_answers fd) (fd_tables fd);
  fo_views : forall v, v ∈ fd_views fd \/ v ∈ fd_sent fd -> view_moment h v;
}.

Lemma feed_tables h fd : feed_ok h fd -> tables_ok (fd_seen fd).
Proof. intros [(log & Hm) _ _ _]. by apply (mo_past _ _ _ Hm fd (mo_last _ _ _ Hm)). Qed.

Lemma advance h fd fd' : feed_ok h fd -> tables_ok (fd_seen fd') -> business_ok (fd_business fd') ->
  (exists c, feed_stream fd' = call c (feed_stream fd) /\ (unavailable (feed_stream fd) = false -> call_true c (world_of fd) (world_of fd'))) ->
  (fd_failed fd' = false -> answers_ok (fd_seen fd') (fd_answers fd') (fd_tables fd')) ->
  (forall v, v ∈ fd_views fd' \/ v ∈ fd_sent fd' -> (v ∈ fd_views fd \/ v ∈ fd_sent fd) \/ view_moment h v) ->
  feed_ok (fd' :: h) fd'.
Proof.
  intros [(log & Hm) Hb Ha Hv] Ht Hb' (c & Hc & Htrue) Ha' Hv'. constructor; [|done|done|].
  - eapply moments_step; [done|done|done|apply Hb'|done].
  - intros v Hin. assert (Hold : view_moment h v) by (destruct (Hv' v Hin) as [Hin'|Hin']; [by apply Hv|done]).
    destruct Hold as (f & x & Hx & Hr). exists f, x. split; [by right|done].
Qed.

(** The store's part is as it was; the main thread takes a step. *)

Lemma advance_business h fd fd' : feed_ok h fd -> business_step (fd_business fd) (fd_business fd') -> fd_seen fd' = fd_seen fd ->
  (fd_failed fd' = false -> answers_ok (fd_seen fd') (fd_answers fd') (fd_tables fd')) ->
  (forall v, v ∈ fd_views fd' \/ v ∈ fd_sent fd' -> (v ∈ fd_views fd \/ v ∈ fd_sent fd) \/ view_moment h v) ->
  feed_ok (fd' :: h) fd'.
Proof.
  intros Hok Hb Hseen Ha Hv. destruct (Hb (fo_business _ _ Hok)) as (Hb' & c & Hc & Ht). apply (advance h fd); try done.
  - rewrite Hseen. by eapply feed_tables.
  - exists c. split; [done|]. intros _. unfold world_of. rewrite Hseen. apply Ht.
Qed.

Lemma set_business_ok h fd b' : feed_ok h fd -> business_step (fd_business fd) b' -> feed_ok (set_business b' fd :: h) (set_business b' fd).
Proof. intros Hok Hb. apply (advance_business h fd); [done|done|done|apply Hok|by left]. Qed.

Lemma observed_ok h fd g : feed_ok h fd -> business_step (fd_business fd) (g (fd_business fd)) -> feed_ok (observed g fd :: h) (observed g fd).
Proof.
  intros Hok Hg. unfold observed. destruct (bs_closed _); [|by apply set_business_ok].
  apply (advance_business h fd); [done|by apply feed_quiet|done|apply Hok|by left].
Qed.

Lemma feed_written_ok h fd p after rest : feed_ok h fd -> fd_answers fd = an_written p after :: rest -> fd_failed fd = false ->
  let fd' := receive_answer identity limits createId emits changesBytes recordsBytes (an_written p after)
    (mkFeed (fd_tables fd) rest (fd_seen fd) (fd_business fd) (fd_failed fd) (fd_views fd) (fd_sent fd)) in feed_ok (fd' :: h) fd'.
Proof.
  intros Hok Ea Ef. pose proof (fo_answers _ _ Hok Ef) as Ha. rewrite Ea in Ha. destruct Ha as (Hp & Hg & Ht & Ha). pose proof (fo_business _ _ Hok) as Hb.
  cbn [receive_answer fd_tables fd_answers fd_business fd_failed fd_views fd_sent]. unfold observed. cbn [fd_business].
  destruct (bs_closed (fd_business fd)) eqn:Ec.
  - apply (advance h fd); [done|done|done| |done|by left]. exists (so_publish []). cbn [fd_business stream_call]. split; [by rewrite publish_nothing|].
    destruct Hb as [_ Hb]. rewrite (Hb Ec). done.
  - destruct p as [chs|]; cbn [store_publication].
    + assert (Hs : business_ok (set_stream (publish limits createId emits changesBytes chs (feed_stream fd)) (fd_business fd))).
      { destruct Hb as [Hb1 Hb2]. split; [done|]. intros E. cbn in E. congruence. }
      apply (advance h fd); [done|done|done| |done|by left]. exists (so_publish chs). split; [done|]. intros _. split; [apply Hp|by apply write_grows].
    + apply (advance h fd); [done|done|by apply uncertain_step| |done|by left]. by exists (so_invalidate "publication-uncertain" false).
Qed.

Lemma captured_ok h fd id r rest : feed_ok h fd -> fd_answers fd = an_snapshot id r :: rest -> fd_failed fd = false ->
  let fd' := receive_answer identity limits createId emits changesBytes recordsBytes (an_snapshot id r)
    (mkFeed (fd_tables fd) rest (fd_seen fd) (fd_business fd) (fd_failed fd) (fd_views fd) (fd_sent fd)) in feed_ok (fd' :: h) fd'.
Proof.
  intros Hok Ea Ef. pose proof (fo_answers _ _ Hok Ef) as Ha. rewrite Ea in Ha. destruct Ha as (Hr & Ha). cbn [receive_answer fd_business fd_tables fd_answers fd_seen fd_failed fd_views fd_sent].
  pose proof (settle_step id r (fd_business fd)) as Hb. destruct (settle_capture identity recordsBytes id r (fd_business fd)) as [answer b'] eqn:Es. cbn [snd] in Hb.
  apply (advance_business h fd); [done|done|done|done|]. cbn [fd_views fd_sent].
  destruct answer as [| |records cur]; try by left. intros v [Hin|Hin]; [|by left; right]. rewrite elem_of_app, list_elem_of_singleton in Hin.
  destruct Hin as [Hin| ->]; [by left; left|right]. unfold settle_capture in Es. destruct (captures (fd_business fd) !! id) as [c|] eqn:Ecap; [|by destruct r].
  destruct r as [rs| |]; try done. unfold stream_capture in Es. destruct (unavailable (feed_stream fd)) eqn:Eu; [done|]. cbn zeta in Es.
  destruct (forallb _ _); [|done]. destruct (_ || _); [done|]. injection Es as <- <- <-. exists (cp_filter c), fd.
  destruct (fo_moments _ _ Hok) as (log & Hm). split_and!; [apply Hm|done|done|]. cbn [fst].
  apply (snapshot_true recordBytes); [by eapply feed_tables|apply Hok|done].
Qed.

Lemma feed_step_ok e h fd : feed_ok h fd -> feed_allowed e fd ->
  let fd' := feed_act identity limits createId emits changeBytes changesBytes recordBytes recordsBytes e fd in feed_ok (fd' :: h) fd'.
Proof.
  intros Hok Hall. assert (Hsame : feed_ok (fd :: h) fd) by (apply (advance_business h fd); [done|by apply feed_quiet|done|apply Hok|by left]).
  destruct e as [cs|id| | |n|placement e|f|id|f since|id|n|]; cbn [feed_act feed_allowed] in *.
  - destruct (transaction cs (fd_tables fd)) as [t j] eqn:Et. destruct Hall as (Hv & Ht & Hg & Hroom).
    apply (advance_business h fd); [done|by apply feed_quiet|done| |by left]. intros Ef. cbn [fd_seen fd_answers fd_tables].
    eapply answers_written; [by apply Hok| |done|done]. pose proof (written_publication changeBytes cs (fd_tables fd) Hv) as Hw. rewrite Et in Hw. by apply Hw.
  - apply (advance_business h fd); [done|by apply feed_quiet|done| |by left]. intros Ef. cbn [fd_seen fd_answers fd_tables]. apply answers_snapshot. by apply Hok.
  - destruct (fd_answers fd) as [|a rest] eqn:Ea; [done|]. destruct (fd_failed fd) eqn:Ef; [done|]. rewrite <- Ef. destruct a; [by eapply feed_written_ok|by eapply captured_ok].
  - destruct (fd_failed fd); [done|]. set (fd1 := mkFeed _ _ _ _ true _ _). unfold observed. cbn [fd1 fd_business]. destruct (bs_closed _).
    + apply (advance_business h fd); [done|by apply feed_quiet|done|done|by left].
    + apply (advance_business h fd); [done|apply uncertain_step|done|done|by left].
  - apply observed_ok; [done|]. destruct (registry_changed _ _ _ _ _ _ _) as [b'|] eqn:E; [by eapply notice_step|apply uncertain_step].
  - apply observed_ok; [done|]. apply event_step.
  - apply set_business_ok; [done|]. apply begin_step.
  - apply set_business_ok; [done|]. apply release_step.
  - apply set_business_ok; [done|]. intros Hb. apply (feed_called _ _ (so_subscribe f since)); [apply Hb|done|done| |done]. intros t. apply same_world_refl.
  - apply set_business_ok; [done|]. intros Hb. apply (feed_called _ _ (so_dispose id)); [apply Hb|done|done| |done]. intros t. apply same_world_refl.
  - destruct (fd_views fd !! n) as [v|] eqn:Ev; [|done]. apply (advance_business h fd); [done|by apply feed_quiet|done|apply Hok|].
    cbn [fd_views fd_sent]. intros w [Hin|Hin]; left.
    + left. exact (sublist_elem _ _ w (sublist_delete _ _) Hin).
    + rewrite elem_of_app, list_elem_of_singleton in Hin. destruct Hin as [Hin| ->]; [by right|]. left. by eapply list_elem_of_lookup_2.
  - apply set_business_ok; [done|]. apply close_step.
Qed.

Lemma start_ok t fd : tables_ok t -> start_feed limits createId emits changesBytes t = Some fd -> feed_ok [fd] fd.
Proof.
  intros Ht. unfold start_feed, newBusinessSnapshots. destruct (newBusinessEventStream limits createId) as [s|] eqn:Es; [|done]. cbn. intros [= <-].
  pose proof (new_stream_ok identity limits createId changesBytes limits_ok s Es) as Hs.
  assert (Hf : facts_ok []) by (split; [constructor|done]). constructor; [|by split|done|by intros v [?%elem_of_nil|?%elem_of_nil]].
  exists []. constructor; [done|by left| | |by intros ??? ?%elem_of_nil].
  - intros x ->%list_elem_of_singleton. split_and!; [done|done| |done]. destruct (st_numbered _ _ _ _ _ _ Hs) as [(k & Hk & Hi) _ _].
    exists k. split; [done|]. cbn. rewrite Hk. lia.
  - intros x y g n ->%list_elem_of_singleton ->%list_elem_of_singleton _ _. apply same_world_refl.
Qed.

Lemma history_ok h : feed_history identity limits createId emits changeBytes changesBytes recordBytes recordsBytes h ->
  match h with fd :: _ => feed_ok h fd | [] => False end.
Proof. induction 1 as [t fd Ht Hs|e fd h _ IH Hall]; [by eapply start_ok|by apply feed_step_ok]. Qed.

(** ** Pages *)

Lemma send_pages_spec sid cur rest : forall page records bytes, exists chunks,
  forall fr, fr ∈ send_pages recordBytes sid cur rest page records bytes ->
    match fr with
    | f_snapshot_page s n values => s = sid /\ page <= n /\ chunks !! Z.to_nat (n - page) = Some values
    | f_snapshot_end s n c => s = sid /\ c = cur /\ n = page + zlen chunks /\ concat chunks = records ++ rest
    | _ => False
    end.
Proof.
  assert (Hpage : forall page records fr, fr ∈ page_of sid page records -> fr = f_snapshot_page sid page records /\ records <> []).
  { intros page records fr. destruct records; [by intros ?%elem_of_nil|]. by intros ->%list_elem_of_singleton. }
  assert (Hlen : forall page (records : list BusinessRecord), exists chunk, zlen chunk = zlen (page_of sid page records) /\ concat chunk = records
    /\ (records <> [] -> chunk = [records])).
  { intros page [|r records]; [by exists []|]. exists [r :: records]. cbn. by rewrite app_nil_r. }
  induction rest as [|record rest IH]; intros page records bytes; cbn [send_pages]; destruct (Hlen page records) as (chunk & C1 & C2 & C3).
  - exists chunk. intros fr [Hin| ->%list_elem_of_singleton]%elem_of_app.
    + apply Hpage in Hin as [-> Hne]. split_and!; [done|lia|]. rewrite Z.sub_diag, (C3 Hne). done.
    + rewrite app_nil_r, C2. split_and!; [done|done|lia|done].
  - destruct (frameBytes - 1024 <? recordBytes record + 1); [exists []; by intros fr ?%elem_of_nil|].
    destruct (frameBytes - 1024 <? bytes + (recordBytes record + 1)).
    + destruct (IH (page + zlen (page_of sid page records)) [record] (recordBytes record + 1)) as (chunks & Hc). exists (chunk ++ chunks). rewrite <- C1 in *.
      intros fr [Hin|Hin]%elem_of_app.
      * apply Hpage in Hin as [-> Hne]. split_and!; [done|lia|]. rewrite Z.sub_diag, (C3 Hne). done.
      * specialize (Hc fr Hin). pose proof (zlen_nonneg chunk). destruct fr as [|s n values|s n c| | | |]; try done.
        -- destruct Hc as (-> & Hle & Hl). split_and!; [done|lia|]. rewrite lookup_app_r by (unfold zlen in *; lia). rewrite <- Hl. f_equal. unfold zlen in *. lia.
        -- destruct Hc as (-> & -> & -> & Hl). split_and!; [done|done|rewrite zlen_app; lia|]. rewrite concat_app, C2, Hl. done.
    + destruct (IH page (records ++ [record]) (bytes + (recordBytes record + 1))) as (chunks & Hc). exists chunks. intros fr Hin. specialize (Hc fr Hin).
      destruct fr; try done. by rewrite <- app_assoc in Hc.
Qed.

Lemma in_feed_frames fd fr : fr ∈ feed_frames snapshotIds recordBytes fd <->
  (exists id, (id, fr) ∈ emitted (feed_stream fd))
  \/ exists i v, fd_sent fd !! i = Some v /\ fr ∈ snapshot_frames recordBytes (snapshotIds i) v.1 v.2.
Proof.
  unfold feed_frames. rewrite elem_of_app, list_elem_of_fmap. split.
  - intros [([id f] & -> & Hin)|Hin]; [left; by exists id|right]. rewrite list_elem_of_In in Hin. apply in_concat in Hin as (l & Hl & Hin).
    apply list_elem_of_In in Hl, Hin. apply elem_of_lookup_imap in Hl as (i & v & -> & Hv). by exists i, v.
  - intros [(id & Hin)|(i & v & Hv & Hin)]; [left; by exists (id, fr)|right]. rewrite list_elem_of_In. apply in_concat.
    exists (snapshot_frames recordBytes (snapshotIds i) v.1 v.2). rewrite <- !list_elem_of_In. split; [|done]. apply elem_of_lookup_imap. by exists i, v.
Qed.

Hypothesis fresh_snapshots : forall i j, snapshotIds i = snapshotIds j -> i = j.

(** A complete snapshot among the frames of a feed is one of its views. *)

Lemma pages_view fd sid pages c vs sent log h : stream_ok identity limits createId changesBytes log (feed_stream fd) -> moments_ok h log fd ->
  (forall fr, fr ∈ sent -> data_frame fr = true -> fr ∈ feed_frames snapshotIds recordBytes fd) ->
  pages_of sent sid pages vs -> f_snapshot_end sid pages c ∈ sent -> (vs, c) ∈ fd_sent fd.
Proof.
  intros Hs _ Hsent Hp He. assert (Hview : forall fr, fr ∈ sent -> match fr with f_snapshot_page _ _ _ | f_snapshot_end _ _ _ => True | _ => False end ->
    exists i v, fd_sent fd !! i = Some v /\ fr ∈ send_pages recordBytes (snapshotIds i) v.2 v.1 0 [] 0).
  { intros fr Hin Hk. destruct (proj1 (in_feed_frames fd fr) (Hsent fr Hin ltac:(by destruct fr))) as [(id & Hem)|(i & v & Hv & Hin')].
    - pose proof (emitted_true _ _ _ _ _ _ _ Hs Hem) as Ht. by destruct fr.
    - exists i, v. split; [done|]. unfold snapshot_frames in Hin'. apply elem_of_cons in Hin' as [->|Hin']; [done|done]. }
  destruct (Hview _ He I) as (i & [rs cur] & Hv & Hend). cbn [fst snd] in *. destruct (send_pages_spec (snapshotIds i) cur rs 0 [] 0) as (chunks & Hc).
  pose proof (Hc _ Hend) as (-> & -> & Hn & Hcat). cbn [Datatypes.app] in Hcat. rewrite Z.add_0_l in Hn.
  assert (Hgen : forall n vs, pages_of sent (snapshotIds i) n vs -> 0 <= n <= zlen chunks /\ vs = concat (take (Z.to_nat n) chunks)).
  { intros n ws. induction 1 as [|n ws values _ [IH1 IH2] Hin]; [split; [pose proof (zlen_nonneg chunks); lia|done]|].
    destruct (Hview _ Hin I) as (j & [rs' cur'] & Hv' & Hin'). cbn [fst snd] in Hin'. destruct (send_pages_spec (snapshotIds j) cur' rs' 0 [] 0) as (chunks' & Hc').
    destruct (Hc' _ Hin') as (Esid & _ & _). apply fresh_snapshots in Esid as <-. rewrite Hv in Hv'. injection Hv' as <- <-.
    destruct (Hc _ Hin') as (_ & _ & Hl). rewrite Z.sub_0_r in Hl. pose proof (lookup_lt_Some _ _ _ Hl). split; [unfold zlen; lia|].
    replace (Z.to_nat (n + 1)) with (S (Z.to_nat n)) by lia. by rewrite (take_S_r _ _ _ Hl), concat_app, IH2; cbn; rewrite app_nil_r. }
  destruct (Hgen _ _ Hp) as [_ ->]. subst pages. rewrite firstn_all2 by (unfold zlen; lia). rewrite Hcat. by eapply list_elem_of_lookup_2.
Qed.

(** ** Filters *)

Definition sublists (l : list BusinessKind) : list (list BusinessKind) :=
  foldr (fun k acc => map (cons k) acc ++ acc) [[]] l.

Lemma in_sublists p (l : list BusinessKind) : List.filter p l ∈ sublists l.
Proof.
  induction l as [|k l IH]; cbn; [by left|]. rewrite elem_of_app. destruct (p k); [left; by apply list_elem_of_fmap_2|by right].
Qed.

Lemma filter_identity f f' : businessFilterIdentity f = businessFilterIdentity f' -> normalizedBusinessKinds f = normalizedBusinessKinds f'.
Proof.
  unfold businessFilterIdentity, normalizedBusinessKinds. generalize (in_sublists (fun k => match f with Some ks => includes ks k | None => true end) BUSINESS_KINDS).
  generalize (in_sublists (fun k => match f' with Some ks => includes ks k | None => true end) BUSINESS_KINDS).
  generalize (List.filter (fun k => match f with Some ks => includes ks k | None => true end) BUSINESS_KINDS).
  generalize (List.filter (fun k => match f' with Some ks => includes ks k | None => true end) BUSINESS_KINDS). intros a b Ha Hb E.
  assert (Hall : forallb (fun a => forallb (fun b => negb (seqb (comma_join (map kind_name b)) (comma_join (map kind_name a))) || bool_decide (b = a))
    (sublists BUSINESS_KINDS)) (sublists BUSINESS_KINDS) = true) by (vm_compute; reflexivity).
  rewrite forallb_forall in Hall. specialize (Hall a (proj1 (list_elem_of_In _ _) Ha)). rewrite forallb_forall in Hall.
  specialize (Hall b (proj1 (list_elem_of_In _ _) Hb)). unfold seqb in Hall. rewrite E, String.eqb_refl in Hall. by apply bool_decide_eq_true in Hall.
Qed.

Lemma view_filter_same w f f' vs : normalizedBusinessKinds f = normalizedBusinessKinds f' -> view_true w f vs -> view_true w f' vs.
Proof. intros E [V1 V2 V3]. constructor; rewrite <- ?E; done. Qed.

(** ** Every view the frames of a feed support is true of a moment *)

Lemma view_of_moment h fd sent c vs : feed_ok h fd ->
  (forall fr, fr ∈ sent -> data_frame fr = true -> fr ∈ feed_frames snapshotIds recordBytes fd) -> view_at sent c vs ->
  exists f x, x ∈ h /\ unavailable (feed_stream x) = false /\ c = cursor_for identity f (feed_stream x) /\ view_true (world_of x) f vs.
Proof.
  intros Hok Hsent. destruct (fo_moments _ _ Hok) as (log & Hm). pose proof (mo_stream _ _ _ Hm) as Hs. induction 1 as [sid pages c vs Hp He|after changes vs _ IH Hc].
  - pose proof (pages_view fd sid pages c vs sent log h Hs Hm Hsent Hp He) as Hin. by apply (fo_views _ _ Hok (vs, c)); right.
  - destruct IH as (f & x & Hx & Hu & Ec & Hv). apply Hsent, in_feed_frames in Hc; [|done].
    destruct Hc as [(id & Hem)|(i & v & _ & Hin)].
    2: { exfalso. apply elem_of_cons in Hin as [?|Hin]; [done|]. by destruct (send_pages_spec (snapshotIds i) v.2 v.1 0 [] 0) as (chunks & Hc); apply Hc in Hin. }
    destruct (emitted_true _ _ _ _ _ _ _ Hs Hem) as (f' & changes0 & E1 & _ & Hpub & ->). rewrite Ec in E1. unfold cursor_for in E1. cbn in E1. injection E1 as Ef.
    apply filter_identity in Ef. rewrite Ec in Hpub. cbn in Hpub. destruct (mo_next _ _ _ Hm _ _ _ Hpub) as (x' & y & Hx' & Hy & Ax & (Uy & Sy & Ny) & Hch & Hgr).
    exists f, y. split_and!; [done|done|..].
    + rewrite Ec. unfold with_sequence, cursor_for. cbn. by rewrite Sy, Ny.
    + assert (Hsame : same_world (world_of x) (world_of x')) by (by eapply (mo_same _ _ _ Hm x x'); [done|done| |exact Ax]).
      assert (Hfs : forall z, z ∈ h -> facts_ok (world_of z).2) by (intros z Hz; by apply (mo_past _ _ _ Hm z Hz)).
      assert (Efc : filter_changes f' changes0 = filter_changes f changes0) by (unfold filter_changes; by rewrite Ef).
      rewrite Efc. apply (view_step (world_of x') (world_of y)); [by apply Hfs|by apply Hfs| |done|done]. by eapply view_same.
Qed.

Lemma moments_agree h log fd x y f vs : moments_ok h log fd -> x ∈ h -> y ∈ h -> unavailable (feed_stream x) = false -> unavailable (feed_stream y) = false ->
  cursor_for identity f (feed_stream x) = cursor_for identity f (feed_stream y) -> view_true (world_of x) f vs -> view_true (world_of y) f vs.
Proof.
  intros Hm Hx Hy Ux Uy E Hv. unfold cursor_for in E. injection E as E1 E2. eapply view_same; [|exact Hv].
  eapply (mo_same _ _ _ Hm x y); [done|done|by split_and!|]. by split_and!.
Qed.

End history.

(** ** Properties *)

Lemma history_limits identity limits createId emits changeBytes changesBytes recordBytes recordsBytes h :
  feed_history identity limits createId emits changeBytes changesBytes recordBytes recordsBytes h -> validLimits limits = true.
Proof.
  induction 1 as [t fd _ Hs|]; [|done]. unfold start_feed, newBusinessSnapshots, newBusinessEventStream in Hs. by destruct (validLimits limits).
Qed.


(** *** A history *)

Definition feed_identity : BusinessIdentity := mkIdentity "srv" "inst".
Definition feed_limits : BusinessWindowLimits := mkWindowLimits 1000000 4096 32.
Definition feed_worker : WorkerRef := mkWorker "srv" "inst" "w" "1".
Definition feed_emits (id : nat) (f : BusinessFrame) : EmitOutcome := mkEmitOutcome [] false.

Definition feed_do (e : FeedEvent) (fd : Feed) : Feed :=
  feed_act feed_identity feed_limits (fun n => pretty n) feed_emits (fun _ => 100) (fun _ => 100) (fun _ => 200) (fun _ => 2000) e fd.

Definition feed_status : RunStatus :=
  mkRunStatus (rn_ref (example_run 2 lc_running)) live (mkGeometry 80 24) 1 None (Some 5) (Some 5) Protocol.ready None None None.

(** A view is captured and sent, a connection follows the stream; then the
    transaction of [journal_complete_witness] and a runtime fact. *)

Definition feed_events : list FeedEvent :=
  [fe_capture None; fe_snapshot 0; fe_receive; fe_send 0;
   fe_subscribe None (mkCursor "srv" "inst" "0" 0 (businessFilterIdentity None));
   fe_write example_changes; fe_receive;
   fe_notice (RunRegistry.changed (rs_run feed_status) feed_worker (Some feed_status))].

Definition feed_start : Feed :=
  mkFeed example_tables [] example_tables (mkSnapshots (mkStream "0" 0 0 [] [] false [] 1 []) [] 0 [] false) false [] [].

Definition feed_end : Feed := foldl (fun fd e => feed_do e fd) feed_start feed_events.

Definition feed_ops : list Op :=
  op_begin feed_identity None
  :: map op_accept
       (List.filter (fun f => match f with f_changes _ _ _ => false | _ => true end) (feed_frames (fun n => pretty n) (fun _ => 200) feed_end)
        ++ List.filter (fun f => match f with f_changes _ _ _ => true | _ => false end) (feed_frames (fun n => pretty n) (fun _ => 200) feed_end)).

Definition feed_cursor : BusinessCursor := mkCursor "srv" "inst" "0" 2 (businessFilterIdentity None).

Abbreviation feed_mirror := (foldl (apply_op sample_size) sample_new feed_ops).

Lemma example_allowed fd : fd_tables fd = example_tables -> feed_allowed (fe_write example_changes) fd.
Proof.
  intros E. cbn [feed_allowed]. rewrite E. assert (Hv : valid_changes example_changes example_tables) by (apply (bool_decide_unpack _); vm_compute; exact I).
  assert (Hn : marked_ids example_changes example_tables <= journalItems) by (vm_compute; discriminate).
  assert (Hs : schema_ok (transaction example_changes example_tables).1) by (apply (bool_decide_unpack _); vm_compute; exact I).
  assert (Ho : operations (transaction example_changes example_tables).1 = ∅) by (vm_compute; reflexivity).
  assert (Hg : revisions_grow example_tables (transaction example_changes example_tables).1).
  { constructor; try (apply (bool_decide_unpack _); vm_compute; exact I).
    - apply map_Forall_empty.
    - vm_compute. discriminate. }
  destruct (transaction example_changes example_tables) as [t j]. cbn [fst] in *. split_and!; [done| |done|by left].
  constructor; [done|intros k k' o o' Hk|intros k o text Hk]; by rewrite Ho, lookup_empty in Hk.
Qed.

Lemma example_tables_ok : tables_ok example_tables.
Proof.
  assert (Ho : operations example_tables = ∅) by done.
  constructor; [apply (bool_decide_unpack _); vm_compute; exact I|intros k k' o o' Hk|intros k o text Hk]; by rewrite Ho, lookup_empty in Hk.
Qed.

Abbreviation example_history := (feed_history feed_identity feed_limits (fun n => pretty n) feed_emits (fun _ => 100) (fun _ => 100) (fun _ => 200) (fun _ => 2000)).

Fixpoint all_allowed (es : list FeedEvent) (fd : Feed) : Prop :=
  match es with [] => True | e :: es => feed_allowed e fd /\ all_allowed es (feed_do e fd) end.

Lemma allowed_history es : forall fd h, example_history (fd :: h) -> all_allowed es fd ->
  exists h', example_history (foldl (fun fd e => feed_do e fd) fd es :: h').
Proof.
  induction es as [|e es IH]; intros fd h Hh Ha; cbn [foldl]; [by exists h|]. destruct Ha as [He Ha]. eapply IH; [|exact Ha]. by apply fh_step.
Qed.

Lemma feed_end_history : exists h, example_history (feed_end :: h).
Proof.
  unfold feed_end. apply (allowed_history feed_events feed_start []).
  - apply (fh_start _ _ _ _ _ _ _ _ example_tables); [exact example_tables_ok|vm_compute; reflexivity].
  - refine (conj I (conj I (conj I (conj I (conj I (conj _ (conj I (conj I I)))))))). apply example_allowed. vm_compute. reflexivity.
Qed.

Lemma feed_ops_sent fr : fr ∈ frames feed_ops -> data_frame fr = true -> fr ∈ feed_frames (fun n => pretty n) (fun _ => 200) feed_end.
Proof.
  unfold feed_ops. generalize (feed_frames (fun n => pretty n) (fun _ => 200) feed_end). intros l Hin _. cbn [frames omap list_omap] in Hin.
  apply list_elem_of_omap in Hin as (o & Ho & Eo). apply list_elem_of_fmap in Ho as (g & -> & Hg). injection Eo as ->.
  rewrite elem_of_app, !in_filter_b in Hg. tauto.
Qed.

